(* ===== verification/_CoqProject ===== *)
-Q . S2P
Prelude.v
GoStrings.v
GoFloat.v
GoTime.v
SipMessage.v
SipFacts.v
SipMatch.v
SipStream.v
Hash.v
Hep.v
Vars.v
Scenario.v
Template.v
EngineText.v
RenderFacts.v
Commands.v
Auth.v
Actions.v
Recv.v
Call.v
CallFacts.v
Dispatch.v
Semaphore.v
RateControl.v
Ring.v
Media.v
Stats.v
SafePath.v
Supervisor.v
NetAddr.v
Encoding.v
Sdp.v
SrtpSession.v
MediaStream.v
MediaSession.v
Regex.v
Pcap2Scenario.v
SettingsAuth.v
LoadCoordinator.v
UiStore.v
EventLog.v
Servers.v
ClientRun.v
GoFlag.v
CliConfig.v
RunProfile.v
CliParse.v
Launch.v
Csv.v
Trace.v
Init.v
Transport.v
Heap.v
ScaleEngine.v
Xml.v
ScenarioXml.v
Defaults.v
Conversation.v
ApiServer.v
WorkerConfig.v
ApiV2.v
LoadTest.v
PcapReplay.v
MediaSink.v
Capture.v
MediaLife.v
ExecMedia.v
CallMedia.v
