(* ===== verification/Prelude.v ===== *)
(** * gossipper: a verification development

    gossipper is a SIP load generator in the tradition of SIPp.  It reads an XML
    scenario, starts calls at a controlled rate, and in every call sends
    rendered messages, waits for the messages the scenario expects, runs actions
    on variables, and reports what happened.  This library models the program
    from its command line to the last message of a call, with the services
    around it (media, statistics, event log, jobs, accounts), and proves the
    properties that make them correct.

    ** The program and how its parts interact

    - [src/internal/cli] turns the arguments, an optional JSON profile and an
      optional client snippet into a [Config]; [src/internal/launcher] loads the
      scenario, normalises transports and listeners and builds the configuration
      of an engine.
    - [src/internal/scenario] turns the XML document into a [Scenario]: a list
      of commands with resolved labels.  [src/internal/distribution] provides
      the samplers of its pauses.  [src/internal/pcap2scenario] writes scenarios
      from captured traffic.
    - [src/internal/engine/engine.go] runs calls.  [executeCall] is the command
      loop of one call.  For a [send] it renders the text of the command
      ([src/internal/template]), fills in Digest credentials ([auth.go]) and
      remembers the request; for a [recv] it calls [waitForMatch], which filters
      the messages of [src/internal/sip] and stashes those for later commands;
      for [sendCmd] and [recvCmd] it talks to other instances ([command_bus.go],
      [command_network.go]); actions change the variables of [vars.go].
    - Calls of a client are started by one of the run loops when the
      [RateController] ([src/internal/scheduler/rate.go]) says so and the
      [dynSemaphore] ([semaphore.go]) admits them.  The packets of a shared
      socket reach the calls through [mailboxRegistry]; on a server the receive
      pumps create sessions, per shared socket, per source address or per
      connection.
    - A call's media ([src/internal/media]) follow the session descriptions it
      exchanges: RTP streams, SRTP contexts, reception statistics, recording.
    - Around the calls: HEP capture packets ([src/hepcodec]), the event log
      ([src/internal/eventlog]), the statistics ([src/internal/stats]), the jobs
      ([src/internal/supervisor]), the load coordinator, and the accounts,
      profiles and scenario versions of the user interface
      ([src/internal/settingsauth], [src/internal/uistore]).  The HTTP server of
      [src/internal/api] shows and controls a running engine.

    ** Files

    Foundations.
    - [Prelude]: bytes and strings, results with errors and panics, association
      lists for Go maps, machine integers, shared lemmas, tactics and hints.
    - [GoStrings]: Go's [strings], [strconv], [unicode] and [utf8] as far as the
      program uses them.  [GoFloat]: [float64], [ParseFloat], [FormatFloat].
      [GoTime]: texts of times.  [GoFlag]: [flag.FlagSet] and the [strconv]
      parsers it calls.  [NetAddr]: [net.ParseIP] and [IP.String].  [Encoding]:
      base64 and hexadecimal.  [Hash]: MD5, SHA-256.  [Regex]: the fragment of
      [regexp] the scenario generator uses.
    SIP and capture.
    - [SipMessage] ([internal/sip/message.go]): [Message], [parseBytes],
      [MatchRecv] and [MatchRecvCached], [ViaBranch], [BuildResponse] and the
      others; a pooled message is an argument of [ParseInto].  [SipFacts] and
      [SipMatch] hold its theorems.  [SipStream] ([stream.go]): [ReadMessage].
    - [Hep] ([hepcodec/codec.go]): [Encode] and [Decode].  [MediaSink]
      ([mediasink]): the counters and reports on RTP streams.  [Capture]
      ([internal/hep/hep.go], [engine/hep.go]): the capture client and the hooks
      around sending and receiving.
    Scenario and text.
    - [Vars] ([engine/vars.go]): the scopes every call shares ([scopedVars]) and
      one call's view ([varStore]).
    - [Scenario] ([scenario/parser.go], [model.go], [distribution.go]): from
      decoded elements to commands.  [Xml]: [encoding/xml] as far as the parser
      uses it; [ScenarioXml]: the rest of [parser.go], from the bytes of a
      document (character sets included) to a scenario; [Defaults]
      ([defaults.go], [builtin.go]): the built-in scenarios.
    - [Template] ([template/render.go]): [Context], tokens, injection files.
      [EngineText]: the text and number helpers of [engine.go].  [RenderFacts]:
      theorems on both.  [Csv]: the reader of injection files.
    - [Pcap2Scenario] ([internal/pcap2scenario]): dialogs found in captured
      messages and the scenario written from them.
    A call.
    - [Commands]: the broker as a map of queues, frames, [waitForCommand].
    - [Auth] ([auth.go]); [Actions] ([applyActions]: every action type).
    - [Recv]: [waitForMatch], [receiveWithPending] and the stash callback.  A
      [*sip.Message] carries an identity, so that use after release and double
      release can be stated.
    - [Call]: [executeCall] as a step function ([stepCommand], one definition
      per command type) run by [runCall]; [CallFacts]: its theorems and a
      concrete call from scenario text to the last message.  [Init]
      ([engine/init.go]): the init section of a scenario.  [Conversation]: a
      client and a server with the built-in scenarios, exchanging messages until
      both calls end.
    Many calls.
    - [Dispatch]: [callIDShard], [mailboxRegistry] and the UDP server sessions;
      [Servers]: the other server modes of [engine.go] (several listeners, one
      socket per source address, streams); [ClientRun]: [runClientConcurrent]
      and the other client loops; [Semaphore]: [dynSemaphore].  Goroutines are
      steps of inductive transition relations, split wherever another goroutine
      can run.
    - [RateControl]: [RateController] and the tick of the rate ramp.
      [LoadCoordinator] ([launcher/load_coordinator.go]): load engines added
      while the program runs.  [Transport] ([internal/transport]): the receive
      loops, deadlines and shared sockets of UDP and TCP.
    Media.
    - [Media]: [g711_decode.go], [record_reorder.go], [dtmf.go].  [Sdp]: session
      descriptions, written and read.  [SrtpSession]: negotiation of SDES keys
      and the contexts they give.  [MediaStream]: the files that are sent and
      the packets made of them.  [MediaSession]: reception and recording.
      [Heap] ([container/heap] with tracked positions) and [ScaleEngine]
      ([scale_engine.go]): many streams sent by a few workers.  [PcapReplay]
      ([internal/pcaplink], [media/pcap.go]): replay of captured media.
      [MediaLife] ([media.go]): what the operations of a session open and close
      and the loops that send, as a transition system.  [ExecMedia]
      ([engine/actions_exec.go]): the shell and media commands of an action, a
      refinement of what [Actions] assumes of them.  [CallMedia]
      ([call_media.go], [webrtc_call.go]): the WebRTC side of a call.
    Services.
    - [Stats] ([internal/stats]); [Ring] and [EventLog] ([internal/eventlog]),
      the ring against the class [EventQueue]; [Supervisor] (job states);
      [SafePath] ([internal/safepath]); [SettingsAuth] (accounts and tokens);
      [UiStore] (profiles and scenario versions); [Trace] ([engine/trace.go]);
      [ApiServer] ([internal/api/server.go]: every handler, on the state of the
      server and the engines it controls).
    - [WorkerConfig] ([supervisor/profile_cfg.go], [uistore/preprocess.go]): the
      configuration of a worker, from the spec of its job and the store.  [ApiV2]
      ([internal/api/v2]): the handlers of jobs, profiles, scenarios and media
      over [UiStore], [Supervisor] and [SettingsAuth].  [LoadTest]
      ([internal/loadtest/run.go]): load tests as jobs.
    From arguments to an engine.
    - [CliConfig] ([cli/config.go]: [Config] as a map from the field to a typed
      value, defaults, helpers), [RunProfile] ([run_profile.go],
      [composite_flat.go], [client_snippet.go]), [CliParse] (the table of flags
      and [Parse]), [Launch] ([launcher/prepare.go]).

    ** What the theorems show

    - Calls ([CallFacts], [Recv]): over a whole call every pooled message is
      stashed, held or given back exactly once, and all are given back at the
      end; the command position never leaves the command list; a scenario whose
      branches go forward ends within as many steps as it has commands; a wait
      ends at its deadline and returns only matching messages; retransmissions,
      stale responses and unexpected final responses are treated as RFC 3261
      asks; what is cached of a sent request decides as the request itself; the
      built-in client and server scenarios complete each other's calls
      ([Conversation]).
    - SIP ([SipFacts], [SipMatch], [SipStream]): parsing inverts rendering,
      reuse of pooled messages is invisible, generated responses parse and
      belong to their request, framing reads exactly one message.
    - Capture ([Hep], [Capture], [MediaSink]): every observed message reaches the
      capture server once, in order and decodable, capture is invisible to the
      call, reports count every packet of a stream.
    - Scenarios and rendering ([Scenario], [RenderFacts], [EngineText],
      [Vars], [Pcap2Scenario], [ScenarioXml], [Defaults]): every built-in
      scenario loads; an accepted scenario is well formed (which the
      theorems on calls assume), the announced body length is right, strict and
      lenient rendering agree, written injection fields are read back, scopes
      are isolated, a captured dialog is reconstructed.
    - Authentication ([Auth]): an answer to a challenge verifies with the same
      credentials.  Actions ([Actions]): exact arithmetic and comparison on
      integers, sampling, URL round trip.  Commands ([Commands]): delivery, order
      and selection.
    - Many calls ([Dispatch], [Servers], [ClientRun], [Semaphore],
      [RateControl], [LoadCoordinator]): mailboxes are bounded and packets are
      neither lost without being counted nor misdelivered; every started call is
      counted once, by clients and by every kind of server; the call limit holds
      and no wake-up is lost; bursts are bounded and the schedule does not
      drift; running load engines have distinct names.
    - Media ([Media], [Sdp], [SrtpSession], [MediaStream], [MediaSession]):
      descriptions and keys are read back as written, the negotiation of
      keys fails closed, packets are numbered and timed without
      gaps, reception statistics are exact, a recorded file holds the audio; a
      tick of the scale engine sends every due stream and no other, and its
      queue stays a heap with exact positions; a replayed capture is sent
      complete, in order and in its own time; no socket of a session is leaked
      or closed by two owners, a running stream is encrypted when that was
      agreed, and streams start only as the SRTP options allow.
    - Services ([Stats], [Ring], [EventLog], [Supervisor], [SafePath],
      [SettingsAuth], [UiStore]): counters add up, reported percentiles are
      those of the samples, every event is delivered or counted as lost, a job
      ends in one final status, joined paths stay under their root, accounts
      change only by those allowed to, versions are kept; no handler of the HTTP
      server acts without credentials, and a refused scenario leaves what is
      running unchanged.
    - From a request to a worker ([WorkerConfig], [ApiV2], [LoadTest]): a worker's
      configuration is a union of layers, an accepted job can be configured, a
      load test is run with the parameters it asked for, changes through the
      control API are authorised and audited, media references stay under the
      media directories.
    - Command line ([GoFlag], [CliParse], [RunProfile], [Launch]): the last flag
      wins over the profile and the profile over the default, a client snippet
      changes only the client's fields, accepted arguments give a configuration
      the run loops and servers accept.
    Some theorems record what the code does where it surprises: for instance
    [read_message_bad_length_panics] (SipStream), [auth_keywords_unicode_panic]
    (Auth), [semaphore_cancel_missed] (Semaphore), [server_start_overtaken]
    (Dispatch), [mu_law_offset] and [a_law_inverted] (Media),
    [cancelled_run_leaves_calls] (ClientRun), [profile_fields_lost] (CliParse),
    [stop_sends_clear_packet] and [old_loop_stops_successor] (MediaLife),
    [late_frame_removes_recording] (CallMedia).

    ** Parameters

    Code outside the repository, and the world, are arguments: address lookup
    ([lookup_ip] in Hep, the resolver in ClientRun); files, the CSV and JSON
    readers and the clock ([tmpl_env] in Template, the decoders in RunProfile);
    loading of XML scenarios in Launch and ApiServer; [unicode.IsPrint] above ASCII; random
    bytes and dice; RTP, RTCP and SRTP packets as the libraries parse them; the layers of
    captured frames ([udpPayload] in PcapReplay);
    bcrypt and signed tokens in SettingsAuth; the JSON of the records of
    UiStore; the outcome of file operations in WorkerConfig and ApiV2; the
    [io.Writer] of the event log; the outcome of sends, dials, sleeps, shell and
    media commands and the WebRTC hooks ([step_input] in Call, [action_env] in
    Actions); the arrival of messages and the passing of time (the lists of
    ticks in [Recv] and [Commands], the passes in [RateControl]).  No property
    assumes more of them than its statement says.

    ** Fuel and bounds

    Scans over text recurse on fuel equal to the length of the text, and every
    pass consumes a byte; [parseRounds] of [GoFlag] has one round per argument;
    [sample_loop] has fuel above the limit of 1000000 values it enforces;
    [serveConnection] has the length of the connection's bytes, a frame is never
    empty.  Waiting loops recurse on the list of what happened in each pass and
    are still waiting when it ends; the termination theorems show that a list
    that reaches the deadline is enough.  [runCall] takes one [step_input] per
    executed command.  Go's [int], [time.Duration] and counters are [Z];
    wrap-around is written out where the code depends on it (sequence numbers,
    hashes, HEP chunk lengths, 16-bit samples, the ranges of [Atoi] and of the
    flag values), and [RateControl] assumes of its times that they fit 64 bits.

    ** Not modelled

    TLS and WebSocket transports and the connections a dialog opens; the
    bridge to WebRTC and ICE, which wrap other libraries; the event streams, the report list and the import of generated
    scenarios of [internal/api/v2]; the text user interface, the shell and the
    reports.  They are I/O, wrappers of other libraries, or presentation.
    The manifest names for every part what is left. *)

From stdpp Require Import base list gmap strings sorting.
From Stdlib Require Import ZArith Lia Strings.Byte.

#[global] Open Scope Z_scope.

(** ** Bytes and strings

    A Go [byte] is [Byte.byte]; a Go [string] or [[]byte] is a list of bytes. *)

Abbreviation byte := Byte.byte.
Abbreviation str := (list Byte.byte).

Definition b2z (b : byte) : Z := Z.of_N (Byte.to_N b).

Definition z2b (z : Z) : byte :=
  match Byte.of_N (Z.to_N (z mod 256)) with
  | Some b => b
  | None => x00
  end.

(** A string literal of the source, as bytes. *)
Definition lit (s : string) : str := String.list_byte_of_string s.

#[global] Instance byte_eq_dec : EqDecision byte := Byte.byte_eq_dec.

#[global] Program Instance byte_countable : Countable byte :=
  inj_countable Byte.to_N Byte.of_N _.
Next Obligation. intros b. apply Byte.of_to_N. Qed.

Lemma b2z_range b : 0 <= b2z b < 256.
Proof.
  unfold b2z. pose proof (Byte.to_N_bounded b). lia.
Qed.

Lemma z2b_b2z b : z2b (b2z b) = b.
Proof.
  unfold z2b. rewrite Z.mod_small by apply b2z_range.
  unfold b2z. rewrite N2Z.id, Byte.of_to_N. done.
Qed.

Lemma b2z_z2b z : b2z (z2b z) = z mod 256.
Proof.
  unfold z2b.
  pose proof (Z.mod_pos_bound z 256 ltac:(lia)) as Hr.
  destruct (Byte.of_N (Z.to_N (z mod 256))) as [b|] eqn:E.
  - apply Byte.to_of_N in E. unfold b2z. rewrite E. lia.
  - apply Byte.of_N_None_iff in E. lia.
Qed.

Lemma b2z_inj a b : b2z a = b2z b -> a = b.
Proof. intros H. rewrite <- (z2b_b2z a), <- (z2b_b2z b). by rewrite H. Qed.

(** ** Results

    Go functions that return [(T, error)] return [result E T]; a run-time
    panic (slice bounds, [make] with a negative length) is the [Panic]
    outcome. *)

Inductive result (E A : Type) : Type :=
  | Ok (a : A)
  | Err (e : E).
Arguments Ok {E A} a.
Arguments Err {E A} e.

Inductive outcome (A : Type) : Type :=
  | Ret (a : A)
  | Panic.
Arguments Ret {A} a.
Arguments Panic {A}.

Definition rbind {E A B} (m : result E A) (k : A -> result E B) : result E B :=
  match m with
  | Ok a => k a
  | Err e => Err e
  end.

Definition obind {A B} (m : outcome A) (k : A -> outcome B) : outcome B :=
  match m with
  | Ret a => k a
  | Panic => Panic
  end.

Declare Scope go_scope.
Delimit Scope go_scope with go.
Notation "'let?' x := m 'in' k" := (rbind m (fun x => k))
  (at level 200, x pattern, m at level 100, k at level 200, right associativity) : go_scope.
Notation "'let!' x := m 'in' k" := (obind m (fun x => k))
  (at level 200, x pattern, m at level 100, k at level 200, right associativity) : go_scope.
#[global] Open Scope go_scope.

Definition is_ok {E A} (r : result E A) : bool :=
  match r with Ok _ => true | Err _ => false end.

Lemma rbind_ok {E A B} (m : result E A) (k : A -> result E B) b :
  rbind m k = Ok b <-> exists a, m = Ok a /\ k a = Ok b.
Proof. destruct m; simpl; naive_solver. Qed.

Lemma Ok_inj {E A} (a b : A) : @Ok E A a = Ok b -> a = b.
Proof. by intros [= ->]. Qed.

(** ** Machine integers *)

Definition int64_min : Z := - 2 ^ 63.
Definition int64_max : Z := 2 ^ 63 - 1.
Definition in_int64 (z : Z) : bool := (int64_min <=? z) && (z <=? int64_max).
Definition u8 (z : Z) : Z := z mod 2 ^ 8.
Definition u16 (z : Z) : Z := z mod 2 ^ 16.
Definition u32 (z : Z) : Z := z mod 2 ^ 32.
Definition u64 (z : Z) : Z := z mod 2 ^ 64.

(** Two's complement reinterpretation of the low 16 bits ([int16(x)]). *)
Definition i16 (z : Z) : Z :=
  let r := z mod 2 ^ 16 in if r <? 2 ^ 15 then r else r - 2 ^ 16.

(** Two's complement reinterpretation of the low 64 bits ([int64] arithmetic). *)
Definition i64 (z : Z) : Z :=
  let r := z mod 2 ^ 64 in if r <? 2 ^ 63 then r else r - 2 ^ 64.

Lemma u16_range z : 0 <= u16 z < 65536.
Proof. unfold u16. apply Z.mod_pos_bound. lia. Qed.

Lemma u32_range z : 0 <= u32 z < 4294967296.
Proof. unfold u32. apply Z.mod_pos_bound. lia. Qed.

Lemma u16_small z : 0 <= z < 65536 -> u16 z = z.
Proof. intros. unfold u16. apply Z.mod_small. lia. Qed.

Lemma u32_small z : 0 <= z < 4294967296 -> u32 z = z.
Proof. intros. unfold u32. apply Z.mod_small. lia. Qed.

Lemma i64_small z : int64_min <= z <= int64_max -> i64 z = z.
Proof.
  unfold i64, int64_min, int64_max. intros H.
  destruct (Z.ltb_spec (z mod 2 ^ 64) (2 ^ 63)) as [Hlt|Hge];
    destruct (decide (0 <= z)).
  - rewrite Z.mod_small; lia.
  - exfalso. rewrite <- (Z_mod_plus_full z 1), Z.mod_small in Hlt; lia.
  - exfalso. rewrite Z.mod_small in Hge; lia.
  - rewrite <- (Z_mod_plus_full z 1), Z.mod_small; lia.
Qed.

(** ** Big-endian fields ([encoding/binary]) *)

Definition put_u16 (z : Z) : str := [z2b (Z.shiftr z 8); z2b z].
Definition put_u32 (z : Z) : str :=
  [z2b (Z.shiftr z 24); z2b (Z.shiftr z 16); z2b (Z.shiftr z 8); z2b z].

(** Value of a big-endian byte sequence of any length. *)
Fixpoint be_value (acc : Z) (l : str) : Z :=
  match l with
  | [] => acc
  | b :: l' => be_value (acc * 256 + b2z b) l'
  end.

Definition get_be (l : str) : Z := be_value 0 l.

Lemma get_be_put_u16 z : get_be (put_u16 z) = u16 z.
Proof.
  unfold get_be, put_u16, u16. simpl. rewrite !b2z_z2b.
  rewrite Z.shiftr_div_pow2 by lia.
  change (2 ^ 8) with 256. change (2 ^ 16) with (256 * 256).
  rewrite Z.rem_mul_r by lia. lia.
Qed.

Lemma get_be_put_u32 z : get_be (put_u32 z) = u32 z.
Proof.
  unfold get_be, put_u32, u32. simpl. rewrite !b2z_z2b.
  rewrite !Z.shiftr_div_pow2 by lia.
  change (2 ^ 8) with 256. change (2 ^ 16) with (256 * 256).
  change (2 ^ 24) with (256 * 256 * 256).
  change (2 ^ 32) with (256 * (256 * (256 * 256))).
  rewrite !Z.rem_mul_r by lia.
  rewrite !Z.div_div by lia.
  replace (256 * (256 * 256)) with (256 * 256 * 256) by lia. lia.
Qed.

(** ** Generic list lemmas *)

Lemma take_app_exact {A} (l k : list A) n : n = length l -> take n (l ++ k) = l.
Proof. intros ->. apply take_app_length. Qed.

Lemma drop_app_exact {A} (l k : list A) n : n = length l -> drop n (l ++ k) = k.
Proof. intros ->. apply drop_app_length. Qed.

Lemma length_pos_cons {A} (l : list A) : (0 < length l)%nat -> exists x l', l = x :: l'.
Proof. destruct l; simpl; [lia | eauto]. Qed.

Lemma not_elem_of_app_inv {A} (x : A) l k : x ∉ l ++ k -> x ∉ l /\ x ∉ k.
Proof. set_solver. Qed.

Create HintDb golist.
#[export] Hint Rewrite @app_nil_r @length_app @length_take @length_drop
  @length_map @length_rev @app_assoc : golist.

(** ** Tactics *)

(** Split the innermost [match] or [if] of the goal or of a hypothesis. *)
Ltac case_innermost t :=
  lazymatch t with
  | context [match ?x with _ => _ end] => case_innermost x
  | _ => let E := fresh "E" in destruct t eqn:E
  end.

Ltac case_goal :=
  match goal with
  | |- context [match ?x with _ => _ end] => case_innermost x
  end.

Ltac case_hyp H :=
  match type of H with
  | context [match ?x with _ => _ end] => case_innermost x
  end.

(** Turn boolean tests of the code into propositions. *)
Ltac bool_to_prop :=
  repeat match goal with
  | H : _ && _ = true |- _ => apply andb_true_iff in H as [? ?]
  | H : _ || _ = false |- _ => apply orb_false_iff in H as [? ?]
  | H : negb _ = true |- _ => apply negb_true_iff in H
  | H : negb _ = false |- _ => apply negb_false_iff in H
  | H : (_ <? _) = true |- _ => apply Z.ltb_lt in H
  | H : (_ <? _) = false |- _ => apply Z.ltb_ge in H
  | H : (_ <=? _) = true |- _ => apply Z.leb_le in H
  | H : (_ <=? _) = false |- _ => apply Z.leb_gt in H
  | H : (_ =? _) = true |- _ => apply Z.eqb_eq in H
  | H : (_ =? _) = false |- _ => apply Z.eqb_neq in H
  | H : bool_decide _ = true |- _ => apply bool_decide_eq_true in H
  | H : bool_decide _ = false |- _ => apply bool_decide_eq_false in H
  end.
