(* ===== verification/GoStrings.v ===== *)
(** * The parts of Go's [strings], [strconv], [unicode/utf8] and [unicode]
    packages that the program uses, on byte strings.

    Indices are [nat]; [-1] ("not found") is [None].  Two non-ASCII letters
    are equal under [EqualFold] only when they are the same rune (every
    keyword, method and header name the program compares with is ASCII);
    folds between ASCII and non-ASCII runes are exact. *)

From stdpp Require Import base list gmap strings.
From Stdlib Require Import ZArith Lia Strings.Byte.
From S2P Require Import Prelude.

(** ** Character classes *)

Definition beqb (a b : byte) : bool := Byte.eqb a b.

Lemma beqb_eq a b : beqb a b = true <-> a = b.
Proof. unfold beqb. split; [apply Byte.byte_dec_bl | apply Byte.byte_dec_lb]. Qed.

Lemma beqb_refl a : beqb a a = true.
Proof. by apply beqb_eq. Qed.

Lemma beqb_neq a b : beqb a b = false <-> a <> b.
Proof.
  rewrite <- not_true_iff_false, beqb_eq. done.
Qed.

Definition in_range (lo hi : Z) (b : byte) : bool := (lo <=? b2z b) && (b2z b <=? hi).

(** The UTF-8 encodings of the runes [unicode.IsSpace] accepts, by length. *)
Definition space1 (a : byte) : bool := in_range 9 13 a || beqb a x20.
Definition space2 (a b : byte) : bool := beqb a xc2 && (beqb b x85 || beqb b xa0).
Definition space3 (a b c : byte) : bool :=
  (beqb a xe1 && beqb b x9a && beqb c x80)
  || (beqb a xe2 && beqb b x80
      && (in_range 128 138 c || beqb c xa8 || beqb c xa9 || beqb c xaf))
  || (beqb a xe2 && beqb b x81 && beqb c x9f)
  || (beqb a xe3 && beqb b x80 && beqb c x80).

(** ** Trimming *)

Fixpoint trim_left_space (s : str) : str :=
  match s with
  | [] => []
  | a :: r1 =>
    if space1 a then trim_left_space r1 else
    match r1 with
    | [] => s
    | b :: r2 =>
      if space2 a b then trim_left_space r2 else
      match r2 with
      | [] => s
      | c :: r3 => if space3 a b c then trim_left_space r3 else s
      end
    end
  end.

(** The same scan on a reversed string: the last rune comes first. *)
Fixpoint trim_left_space_rev (s : str) : str :=
  match s with
  | [] => []
  | a :: r1 =>
    if space1 a then trim_left_space_rev r1 else
    match r1 with
    | [] => s
    | b :: r2 =>
      if space2 b a then trim_left_space_rev r2 else
      match r2 with
      | [] => s
      | c :: r3 => if space3 c b a then trim_left_space_rev r3 else s
      end
    end
  end.

Definition trim_right_space (s : str) : str := rev (trim_left_space_rev (rev s)).

(** [strings.TrimSpace] *)
Definition TrimSpace (s : str) : str := trim_right_space (trim_left_space s).

Fixpoint trim_left_set (cut : byte -> bool) (s : str) : str :=
  match s with
  | [] => []
  | a :: r => if cut a then trim_left_set cut r else s
  end.

(** [strings.TrimRight] and [strings.Trim] with an ASCII cutset. *)
Definition TrimRight (cut : byte -> bool) (s : str) : str := rev (trim_left_set cut (rev s)).
Definition Trim (cut : byte -> bool) (s : str) : str := TrimRight cut (trim_left_set cut s).

Definition is_crlf (b : byte) : bool := beqb b x0d || beqb b x0a.
Definition is_quote (b : byte) : bool := beqb b x22.

(** ** Searching *)

(** [strings.IndexByte] *)
Fixpoint IndexByte (c : byte) (s : str) : option nat :=
  match s with
  | [] => None
  | a :: r => if beqb a c then Some 0%nat else S <$> IndexByte c r
  end.

(** [strings.HasPrefix], [strings.HasSuffix] *)
Fixpoint HasPrefix (s p : str) {struct p} : bool :=
  match p, s with
  | [], _ => true
  | b :: p', a :: s' => beqb a b && HasPrefix s' p'
  | _ :: _, [] => false
  end.

Definition HasSuffix (s p : str) : bool := HasPrefix (rev s) (rev p).

(** [strings.Index] *)
Fixpoint Index (s p : str) : option nat :=
  if HasPrefix s p then Some 0%nat else
  match s with
  | [] => None
  | _ :: r => S <$> Index r p
  end.

Definition Contains (s p : str) : bool :=
  match Index s p with Some _ => true | None => false end.

(** [strings.LastIndex] *)
Fixpoint LastIndex (s p : str) : option nat :=
  match s with
  | [] => if HasPrefix [] p then Some 0%nat else None
  | _ :: r =>
    match LastIndex r p with
    | Some i => Some (S i)
    | None => if HasPrefix s p then Some 0%nat else None
    end
  end.

(** [strings.Cut] with a one-byte separator. *)
Fixpoint Cut (s : str) (c : byte) : option (str * str) :=
  match s with
  | [] => None
  | a :: r =>
    if beqb a c then Some ([], r)
    else match Cut r c with
         | Some (x, y) => Some (a :: x, y)
         | None => None
         end
  end.

(** [strings.Split] with a one-byte separator. *)
Fixpoint Split (s : str) (c : byte) : list str :=
  match s with
  | [] => [[]]
  | a :: r =>
    if beqb a c then [] :: Split r c
    else match Split r c with
         | x :: xs => (a :: x) :: xs
         | [] => [[a]]
         end
  end.

(** [strings.Join] *)
Fixpoint Join (l : list str) (sep : str) : str :=
  match l with
  | [] => []
  | [x] => x
  | x :: l' => x ++ sep ++ Join l' sep
  end.

(** [strings.TrimPrefix], [strings.TrimSuffix] *)
Definition TrimPrefix (s p : str) : str := if HasPrefix s p then drop (length p) s else s.
Definition TrimSuffix (s p : str) : str :=
  if HasSuffix s p then take (length s - length p) s else s.

(** Split at every occurrence of a non-empty separator ([strings.Split]);
    the fuel bounds the number of separators and [length s] always suffices. *)
Fixpoint SplitStr_fuel (fuel : nat) (s sep : str) : list str :=
  match fuel with
  | O => [s]
  | S fuel' =>
    match Index s sep with
    | Some i => take i s :: SplitStr_fuel fuel' (drop (i + length sep) s) sep
    | None => [s]
    end
  end.

Definition SplitStr (s sep : str) : list str := SplitStr_fuel (length s) s sep.

(** [strings.ReplaceAll] for a non-empty pattern. *)
Definition ReplaceAll (s old new : str) : str := Join (SplitStr s old) new.

(** [strings.Fields]: [cur] is the field being read, reversed. *)
Definition flush_field (cur : str) (rest : list str) : list str :=
  match cur with [] => rest | _ => rev cur :: rest end.

Fixpoint fields_go (s cur : str) : list str :=
  match s with
  | [] => flush_field cur []
  | a :: r1 =>
    if space1 a then flush_field cur (fields_go r1 []) else
    match r1 with
    | [] => flush_field (a :: cur) []
    | b :: r2 =>
      if space2 a b then flush_field cur (fields_go r2 []) else
      match r2 with
      | c :: r3 =>
        if space3 a b c then flush_field cur (fields_go r3 [])
        else fields_go r1 (a :: cur)
      | [] => fields_go r1 (a :: cur)
      end
    end
  end.

Definition Fields (s : str) : list str := fields_go s [].

(** ** Runes *)

Definition RuneError : Z := 65533.

Definition is_cont (b : byte) : bool := in_range 128 191 b.

Definition utf8_2 (a b : byte) : bool := in_range 194 223 a && is_cont b.
Definition utf8_3 (a b c : byte) : bool :=
  is_cont c &&
  ((beqb a xe0 && in_range 160 191 b)
   || (in_range 225 236 a && is_cont b)
   || (beqb a xed && in_range 128 159 b)
   || (in_range 238 239 a && is_cont b)).
Definition utf8_4 (a b c d : byte) : bool :=
  is_cont c && is_cont d &&
  ((beqb a xf0 && in_range 144 191 b)
   || (in_range 241 243 a && is_cont b)
   || (beqb a xf4 && in_range 128 143 b)).

(** The runes a [range] loop over the string visits: an invalid byte
    yields [RuneError] and advances by one. *)
Fixpoint runes (s : str) : list Z :=
  match s with
  | [] => []
  | a :: r1 =>
    if b2z a <? 128 then b2z a :: runes r1 else
    match r1 with
    | [] => [RuneError]
    | b :: r2 =>
      if utf8_2 a b then (b2z a mod 32) * 64 + b2z b mod 64 :: runes r2 else
      match r2 with
      | [] => RuneError :: runes r1
      | c :: r3 =>
        if utf8_3 a b c
        then (b2z a mod 16) * 4096 + (b2z b mod 64) * 64 + b2z c mod 64 :: runes r3 else
        match r3 with
        | [] => RuneError :: runes r1
        | d :: r4 =>
          if utf8_4 a b c d
          then (b2z a mod 8) * 262144 + (b2z b mod 64) * 4096
               + (b2z c mod 64) * 64 + b2z d mod 64 :: runes r4
          else RuneError :: runes r1
        end
      end
    end
  end.

Definition encode_rune (r : Z) : str :=
  if r <? 128 then [z2b r]
  else if r <? 2048 then [z2b (192 + r / 64); z2b (128 + r mod 64)]
  else if r <? 65536
  then [z2b (224 + r / 4096); z2b (128 + (r / 64) mod 64); z2b (128 + r mod 64)]
  else [z2b (240 + r / 262144); z2b (128 + (r / 4096) mod 64);
        z2b (128 + (r / 64) mod 64); z2b (128 + r mod 64)].

(** Representative of the simple-folding orbit. *)
Definition fold_rune (r : Z) : Z :=
  if (65 <=? r) && (r <=? 90) then r + 32
  else if r =? 8490 then 107   (* KELVIN SIGN folds with k *)
  else if r =? 383 then 115    (* LATIN SMALL LETTER LONG S folds with s *)
  else r.

(** [strings.EqualFold] *)
Definition EqualFold (s t : str) : bool :=
  bool_decide (map fold_rune (runes s) = map fold_rune (runes t)).

Definition lower_rune (r : Z) : Z :=
  if (65 <=? r) && (r <=? 90) then r + 32
  else if r =? 8490 then 107
  else if r =? 304 then 105    (* LATIN CAPITAL LETTER I WITH DOT ABOVE *)
  else if r =? 570 then 11365  (* LATIN CAPITAL LETTER A WITH STROKE: two bytes become three *)
  else if r =? 574 then 11366  (* LATIN CAPITAL LETTER T WITH DIAGONAL STROKE *)
  else r.

Definition upper_rune (r : Z) : Z :=
  if (97 <=? r) && (r <=? 122) then r - 32
  else if r =? 383 then 83
  else if r =? 305 then 73     (* LATIN SMALL LETTER DOTLESS I *)
  else r.

(** The ASCII part of [lower_rune]. *)
Definition lower_byte (b : byte) : byte := if in_range 65 90 b then z2b (b2z b + 32) else b.

(** [strings.ToLower], [strings.ToUpper] *)
Definition ToLower (s : str) : str := flat_map (fun r => encode_rune (lower_rune r)) (runes s).
Definition ToUpper (s : str) : str := flat_map (fun r => encode_rune (upper_rune r)) (runes s).

(** ** Decimal numbers *)

Definition digit_val (b : byte) : option Z :=
  if in_range 48 57 b then Some (b2z b - 48) else None.

Fixpoint dec_value (acc : Z) (s : str) : option Z :=
  match s with
  | [] => Some acc
  | a :: r => match digit_val a with
              | Some d => dec_value (acc * 10 + d) r
              | None => None
              end
  end.

(** [strconv.Atoi] on a 64-bit platform; [None] stands for the error. *)
Definition Atoi (s : str) : option Z :=
  let '(neg, body) :=
    match s with
    | a :: r => if beqb a x2d then (true, r) else if beqb a x2b then (false, r) else (false, s)
    | [] => (false, s)
    end in
  match body with
  | [] => None
  | _ =>
    match dec_value 0 body with
    | None => None
    | Some v =>
      let z := if (neg : bool) then - v else v in
      if in_int64 z then Some z else None
    end
  end.

Fixpoint dec_digits (fuel : nat) (z : Z) (acc : str) : str :=
  match fuel with
  | O => acc
  | S f =>
    let acc' := z2b (48 + z mod 10) :: acc in
    if z <? 10 then acc' else dec_digits f (z / 10) acc'
  end.

(** [strconv.ParseUint] in base ten, for a width of [bits]. *)
Definition ParseUint (bits : Z) (s : str) : option Z :=
  match s with
  | [] => None
  | _ => match dec_value 0 s with
         | Some v => if v <? 2 ^ bits then Some v else None
         | None => None
         end
  end.

(** Digits of a non-negative number; [log2 z + 1] steps are enough. *)
Definition dec_of (z : Z) : str := dec_digits (S (Z.to_nat (Z.log2 z))) z [].

(** [strconv.Itoa] *)
Definition Itoa (z : Z) : str :=
  if z <? 0 then x2d :: dec_of (- z) else dec_of z.

(** * Lemmas *)

(** ** Splitting and joining *)

Lemma Split_nonempty s c : Split s c <> [].
Proof. destruct s; simpl; [done|]. repeat case_goal; done. Qed.

Lemma Join_cons x l sep : l <> [] -> Join (x :: l) sep = x ++ sep ++ Join l sep.
Proof. by destruct l. Qed.

Lemma Join_Split s c : Join (Split s c) [c] = s.
Proof.
  induction s as [|a r IH]; [done|]. simpl.
  destruct (beqb a c) eqn:E.
  - apply beqb_eq in E as ->. rewrite Join_cons by apply Split_nonempty. by rewrite IH.
  - destruct (Split r c) as [|x xs] eqn:Hs; [by apply Split_nonempty in Hs|].
    destruct xs; simpl in *; by rewrite IH.
Qed.

Lemma Split_segment l r c : c ∉ l -> Split (l ++ c :: r) c = l :: Split r c.
Proof.
  induction l as [|a l IH]; intros Hc; simpl.
  - by rewrite beqb_refl.
  - apply not_elem_of_cons in Hc as [Hac Hc].
    rewrite (proj2 (beqb_neq a c)) by congruence. by rewrite IH.
Qed.

Lemma Split_none l c : c ∉ l -> Split l c = [l].
Proof.
  induction l as [|a l IH]; intros Hc; simpl; [done|].
  apply not_elem_of_cons in Hc as [Hac Hc].
  rewrite (proj2 (beqb_neq a c)) by congruence. by rewrite IH.
Qed.

Lemma Split_no_sep s c : Forall (fun x => c ∉ x) (Split s c).
Proof.
  induction s as [|a r IH]; simpl; [repeat constructor; set_solver|].
  destruct (beqb a c) eqn:E; [constructor; [set_solver|done]|].
  apply beqb_neq in E.
  destruct (Split r c) as [|x xs]; [repeat constructor; set_solver|].
  inversion IH; subst. constructor; [|done]. set_solver.
Qed.

Lemma Cut_app l r c : c ∉ l -> Cut (l ++ c :: r) c = Some (l, r).
Proof.
  induction l as [|a l IH]; intros Hc; simpl.
  - by rewrite beqb_refl.
  - apply not_elem_of_cons in Hc as [Hac Hc].
    rewrite (proj2 (beqb_neq a c)) by congruence. by rewrite IH.
Qed.

Lemma Cut_Some s c x y : Cut s c = Some (x, y) -> s = x ++ c :: y /\ c ∉ x.
Proof.
  revert x. induction s as [|a r IH]; intros x H; simpl in H; [done|].
  destruct (beqb a c) eqn:E.
  - apply beqb_eq in E as ->. simplify_eq. set_solver.
  - apply beqb_neq in E. destruct (Cut r c) as [[x' y']|]; simplify_eq.
    destruct (IH x' eq_refl) as [-> Hn]. split; [done|]. set_solver.
Qed.

Lemma IndexByte_app l r c : c ∉ l -> IndexByte c (l ++ c :: r) = Some (length l).
Proof.
  induction l as [|a l IH]; intros Hc; simpl.
  - by rewrite beqb_refl.
  - apply not_elem_of_cons in Hc as [Hac Hc].
    rewrite (proj2 (beqb_neq a c)) by congruence. by rewrite IH.
Qed.

Lemma IndexByte_None s c : IndexByte c s = None <-> c ∉ s.
Proof.
  induction s as [|a s IH]; simpl; [set_solver|].
  rewrite not_elem_of_cons. destruct (beqb a c) eqn:E.
  - apply beqb_eq in E. split; [done|]. intros [? _]. congruence.
  - apply beqb_neq in E. destruct (IndexByte c s); simpl; naive_solver.
Qed.

Lemma IndexByte_Some s c i :
  IndexByte c s = Some i -> s = take i s ++ c :: drop (S i) s /\ c ∉ take i s.
Proof.
  revert i. induction s as [|a s IH]; intros i H; simpl in H; [done|].
  destruct (beqb a c) eqn:E.
  - apply beqb_eq in E as ->. simplify_eq. simpl. split; [by rewrite drop_0 | set_solver].
  - apply beqb_neq in E. destruct (IndexByte c s) as [j|]; simplify_eq/=.
    destruct (IH j eq_refl) as [Heq Hn]. split; [by f_equal|]. set_solver.
Qed.

Lemma HasPrefix_spec s p : HasPrefix s p = true <-> exists t, s = p ++ t.
Proof.
  revert s. induction p as [|b p IH]; intros s; simpl; [naive_solver|].
  destruct s as [|a s]; simpl; [naive_solver|].
  rewrite andb_true_iff, beqb_eq, IH. naive_solver.
Qed.

Lemma HasPrefix_app p t : HasPrefix (p ++ t) p = true.
Proof. apply HasPrefix_spec. eauto. Qed.

Lemma HasSuffix_spec s p : HasSuffix s p = true <-> exists t, s = t ++ p.
Proof.
  unfold HasSuffix. rewrite HasPrefix_spec. split.
  - intros [t Ht]. exists (rev t). rewrite <- (rev_involutive s), Ht, rev_app_distr.
    by rewrite rev_involutive.
  - intros [t ->]. exists (rev t). by rewrite rev_app_distr.
Qed.

Lemma Index_Some s p i :
  Index s p = Some i -> exists t, s = take i s ++ p ++ t /\ drop (i + length p) s = t.
Proof.
  revert i. induction s as [|a s IH]; intros i H; simpl in H.
  - destruct (HasPrefix [] p) eqn:E; [|done]. simplify_eq.
    apply HasPrefix_spec in E as [t Ht]. destruct p; [|done]. by exists [].
  - destruct (HasPrefix (a :: s) p) eqn:E.
    + simplify_eq. apply HasPrefix_spec in E as [t Ht]. exists t.
      rewrite Ht. split; [done|]. simpl. apply drop_app_length.
    + destruct (Index s p) as [j|]; simplify_eq/=.
      destruct (IH j eq_refl) as (t & Ht & Hd). exists t. split; [by f_equal | done].
Qed.

Lemma Index_None s p : Index s p = None -> forall l r, s <> l ++ p ++ r.
Proof.
  induction s as [|a s IH]; intros H l r Heq; simpl in H.
  - destruct (HasPrefix [] p) eqn:E; [done|].
    destruct l, p; simplify_eq/=.
  - destruct (HasPrefix (a :: s) p) eqn:E; [done|].
    destruct (Index s p) eqn:Hi; [done|].
    destruct l as [|b l].
    + simpl in Heq. rewrite Heq, HasPrefix_app in E. done.
    + simplify_eq/=. by eapply IH.
Qed.

Lemma Contains_spec s p : Contains s p = true <-> exists l r, s = l ++ p ++ r.
Proof.
  unfold Contains. destruct (Index s p) as [i|] eqn:E.
  - split; [|done]. intros _. apply Index_Some in E as (t & Ht & _). eauto.
  - split; [done|]. intros (l & r & ->). by eapply Index_None in E.
Qed.

(** The last occurrence: nothing after its first byte starts another one. *)
Lemma LastIndex_Some s p i :
  LastIndex s p = Some i ->
  HasPrefix (drop i s) p = true /\ (p <> [] -> forall j, (i < j)%nat -> HasPrefix (drop j s) p = false).
Proof.
  revert i. induction s as [|a s IH]; intros i H; simpl in H.
  - destruct (HasPrefix [] p) eqn:E; simplify_eq. split; [done|].
    intros Hp j _. destruct p; [done|]. by rewrite drop_nil.
  - destruct (LastIndex s p) as [k|] eqn:Hl.
    + simplify_eq. destruct (IH k eq_refl) as [H1 H2]. split; [done|].
      intros Hp j Hj. destruct j; [lia|]. apply (H2 Hp). lia.
    + destruct (HasPrefix (a :: s) p) eqn:E; simplify_eq. split; [done|].
      intros Hp j Hj. destruct j; [lia|]. simpl. clear IH E Hj a. revert j.
      induction s as [|b s IH]; intros j; simpl in Hl.
      * destruct (HasPrefix [] p) eqn:E; [done|]. by rewrite drop_nil.
      * destruct (LastIndex s p); [done|].
        destruct (HasPrefix (b :: s) p) eqn:E; [done|].
        destruct j; simpl; [done|]. by apply IH.
Qed.

Lemma LastIndex_None s p : LastIndex s p = None -> forall j, HasPrefix (drop j s) p = false.
Proof.
  induction s as [|b s IH]; intros Hl j; simpl in Hl.
  - destruct (HasPrefix [] p) eqn:E; [done|]. by rewrite drop_nil.
  - destruct (LastIndex s p); [done|].
    destruct (HasPrefix (b :: s) p) eqn:E; [done|].
    destruct j; simpl; [done|]. by apply IH.
Qed.

Lemma LastIndex_none_intro s p :
  (forall j, HasPrefix (drop j s) p = false) -> LastIndex s p = None.
Proof.
  intros H. destruct (LastIndex s p) eqn:E; [|done].
  apply LastIndex_Some in E as [E _]. by rewrite H in E.
Qed.

(** ** Trimming *)

Definition starts_space (s : str) : bool :=
  match s with
  | [] => false
  | a :: r1 => space1 a || match r1 with
    | [] => false
    | b :: r2 => space2 a b || match r2 with
      | [] => false
      | c :: _ => space3 a b c
      end
    end
  end.

Definition ends_space (s : str) : bool :=
  match rev s with
  | [] => false
  | a :: r1 => space1 a || match r1 with
    | [] => false
    | b :: r2 => space2 b a || match r2 with
      | [] => false
      | c :: _ => space3 c b a
      end
    end
  end.

(** Induction on strings by one, two or three leading bytes. *)
Lemma str_ind3 (P : str -> Prop) :
  (forall s, (forall t, (length t < length s)%nat -> P t) -> P s) -> forall s, P s.
Proof.
  intros H s. induction s as [s IH] using (well_founded_ind (Wf_nat.well_founded_ltof _ (@length byte))).
  apply H. intros t Ht. by apply IH.
Qed.

Lemma trim_left_space_spec s :
  (exists p, s = p ++ trim_left_space s) /\ starts_space (trim_left_space s) = false.
Proof.
  induction s as [s IH] using str_ind3.
  assert (Hstep : forall p t, (length t < length s)%nat -> s = p ++ t ->
    (exists q, s = q ++ trim_left_space t) /\ starts_space (trim_left_space t) = false).
  { intros p t Hlt ->. destruct (IH t Hlt) as [[q Hq] Hs]. split; [|done].
    exists (p ++ q). rewrite <- app_assoc. by rewrite <- Hq. }
  destruct s as [|a [|b [|c r]]]; simpl.
  - split; [by exists []|done].
  - destruct (space1 a) eqn:E; [by apply (Hstep [a] []); simpl; [lia|]|].
    split; [by exists []|]. simpl. by rewrite E.
  - destruct (space1 a) eqn:E1; [by apply (Hstep [a] [b]); simpl; [lia|]|].
    destruct (space2 a b) eqn:E2; [by apply (Hstep [a; b] []); simpl; [lia|]|].
    split; [by exists []|]. simpl. by rewrite E1, E2.
  - destruct (space1 a) eqn:E1; [by apply (Hstep [a] (b :: c :: r)); simpl; [lia|]|].
    destruct (space2 a b) eqn:E2; [by apply (Hstep [a; b] (c :: r)); simpl; [lia|]|].
    destruct (space3 a b c) eqn:E3; [by apply (Hstep [a; b; c] r); simpl; [lia|]|].
    split; [by exists []|]. simpl. by rewrite E1, E2, E3.
Qed.

Lemma trim_left_space_rev_spec s :
  (exists p, s = p ++ trim_left_space_rev s) /\ ends_space (rev (trim_left_space_rev s)) = false.
Proof.
  unfold ends_space. rewrite rev_involutive.
  induction s as [s IH] using str_ind3.
  assert (Hstep : forall p t, (length t < length s)%nat -> s = p ++ t ->
    (exists q, s = q ++ trim_left_space_rev t) /\
    match trim_left_space_rev t with
    | [] => false
    | a :: r1 => space1 a || match r1 with
      | [] => false
      | b :: r2 => space2 b a || match r2 with [] => false | c :: _ => space3 c b a end
      end
    end = false).
  { intros p t Hlt ->. destruct (IH t Hlt) as [[q Hq] Hs]. split; [|done].
    exists (p ++ q). rewrite <- app_assoc. by rewrite <- Hq. }
  destruct s as [|a [|b [|c r]]]; simpl.
  - split; [by exists []|done].
  - destruct (space1 a) eqn:E; [by apply (Hstep [a] []); simpl; [lia|]|].
    split; [by exists []|]. simpl. by rewrite E.
  - destruct (space1 a) eqn:E1; [by apply (Hstep [a] [b]); simpl; [lia|]|].
    destruct (space2 b a) eqn:E2; [by apply (Hstep [a; b] []); simpl; [lia|]|].
    split; [by exists []|]. simpl. by rewrite E1, E2.
  - destruct (space1 a) eqn:E1; [by apply (Hstep [a] (b :: c :: r)); simpl; [lia|]|].
    destruct (space2 b a) eqn:E2; [by apply (Hstep [a; b] (c :: r)); simpl; [lia|]|].
    destruct (space3 c b a) eqn:E3; [by apply (Hstep [a; b; c] r); simpl; [lia|]|].
    split; [by exists []|]. simpl. by rewrite E1, E2, E3.
Qed.

Lemma trim_right_space_spec s :
  (exists q, s = trim_right_space s ++ q) /\ ends_space (trim_right_space s) = false.
Proof.
  unfold trim_right_space.
  destruct (trim_left_space_rev_spec (rev s)) as [[p Hp] He]. split; [|done].
  exists (rev p). by rewrite <- rev_app_distr, <- Hp, rev_involutive.
Qed.

Lemma starts_space_app s t : starts_space s = true -> starts_space (s ++ t) = true.
Proof.
  destruct s as [|a [|b [|c r]]]; simpl; [done| | |done].
  - intros H. rewrite orb_false_r in H. by rewrite H.
  - intros H. rewrite orb_false_r in H. apply orb_true_iff in H as [->| ->]; [done|].
    by rewrite orb_true_r.
Qed.

Lemma trim_left_space_id s : starts_space s = false -> trim_left_space s = s.
Proof.
  destruct s as [|a [|b [|c r]]]; simpl; intros H; [done| | |];
    repeat (apply orb_false_iff in H as [-> H]); try done; by rewrite H.
Qed.

Lemma trim_right_space_id s : ends_space s = false -> trim_right_space s = s.
Proof.
  unfold ends_space, trim_right_space. intros H.
  rewrite <- (rev_involutive s) at 2. f_equal.
  destruct (rev s) as [|a [|b [|c r]]]; simpl; [done| | |];
    repeat (apply orb_false_iff in H as [-> H]); try done; by rewrite H.
Qed.

Lemma TrimSpace_ends s : starts_space (TrimSpace s) = false /\ ends_space (TrimSpace s) = false.
Proof.
  unfold TrimSpace.
  destruct (trim_left_space_spec s) as [_ Hs].
  destruct (trim_right_space_spec (trim_left_space s)) as [[q Hq] He].
  split; [|done].
  destruct (starts_space (trim_right_space (trim_left_space s))) eqn:E; [|done].
  apply (starts_space_app _ q) in E. rewrite <- Hq in E. congruence.
Qed.

Lemma TrimSpace_id s : starts_space s = false -> ends_space s = false -> TrimSpace s = s.
Proof.
  intros H1 H2. unfold TrimSpace. by rewrite trim_left_space_id, trim_right_space_id.
Qed.

Lemma TrimSpace_idemp s : TrimSpace (TrimSpace s) = TrimSpace s.
Proof. destruct (TrimSpace_ends s). by apply TrimSpace_id. Qed.

Lemma TrimSpace_infix s : exists p q, s = p ++ TrimSpace s ++ q.
Proof.
  unfold TrimSpace.
  destruct (trim_left_space_spec s) as [[p Hp] _].
  destruct (trim_right_space_spec (trim_left_space s)) as [[q Hq] _].
  exists p, q. by rewrite <- Hq.
Qed.

Lemma TrimSpace_notin s c : c ∉ s -> c ∉ TrimSpace s.
Proof. destruct (TrimSpace_infix s) as (p & q & Heq). rewrite Heq at 1. set_solver. Qed.

(** A string is [trimmed] when [TrimSpace] leaves it alone. *)
Definition trimmed (s : str) : Prop := TrimSpace s = s.

Lemma trimmed_ends s : trimmed s -> starts_space s = false /\ ends_space s = false.
Proof. intros <-. apply TrimSpace_ends. Qed.

Lemma TrimSpace_lead_blank s : trimmed s -> TrimSpace (x20 :: s) = s.
Proof.
  intros Ht. destruct (trimmed_ends s Ht) as [H1 H2].
  unfold TrimSpace. simpl. by rewrite trim_left_space_id, trim_right_space_id.
Qed.

(** ** Plain bytes: ASCII and not white space *)

Definition plain (b : byte) : bool := (b2z b <? 128) && negb (space1 b).

Lemma space2_high a b : space2 a b = true -> 128 <= b2z a /\ 128 <= b2z b.
Proof.
  unfold space2. rewrite andb_true_iff, orb_true_iff, !beqb_eq.
  intros [-> [-> | ->]]; vm_compute; split; discriminate.
Qed.

Lemma space3_high a b c : space3 a b c = true -> 128 <= b2z a /\ 128 <= b2z c.
Proof.
  unfold space3, in_range. rewrite !orb_true_iff, !andb_true_iff, !orb_true_iff, !beqb_eq.
  intros [[[[[-> _] ->]|[[-> _] [[[H| ->]| ->]| ->]]]|[[-> _] ->]]|[[-> _] ->]];
    try (vm_compute; split; discriminate).
  bool_to_prop. split; [vm_compute; discriminate | lia].
Qed.

Lemma plain_spec b :
  plain b = true ->
  space1 b = false /\ (forall c, space2 b c = false) /\ (forall c, space2 c b = false)
  /\ (forall c d, space3 b c d = false) /\ (forall c d, space3 c d b = false).
Proof.
  unfold plain. intros H. bool_to_prop. repeat split; [done|..]; intros;
    apply not_true_iff_false; intros E;
    (apply space2_high in E || apply space3_high in E); lia.
Qed.

Lemma starts_space_plain b s : plain b = true -> starts_space (b :: s) = false.
Proof.
  intros H. apply plain_spec in H as (H1 & H2 & _ & H4 & _).
  destruct s as [|c [|d s]]; simpl; by rewrite ?H1, ?H2, ?H4.
Qed.

Lemma ends_space_plain b s : plain b = true -> ends_space (s ++ [b]) = false.
Proof.
  intros H. apply plain_spec in H as (H1 & _ & H3 & _ & H5).
  unfold ends_space. rewrite rev_app_distr. simpl.
  destruct (rev s) as [|c [|d r]]; simpl; by rewrite ?H1, ?H3, ?H5.
Qed.

Lemma starts_space_cons_app b s t :
  plain b = true -> starts_space ((b :: s) ++ t) = false.
Proof. apply starts_space_plain. Qed.

Lemma Forall_plain_trimmed s : Forall (fun b => plain b = true) s -> trimmed s.
Proof.
  intros H. destruct s as [|a s]; [done|].
  apply TrimSpace_id; [apply starts_space_plain; by inversion H|].
  destruct (exists_last (l := a :: s)) as (l & b & Heq); [done|].
  rewrite Heq in H |- *. apply ends_space_plain.
  rewrite Forall_app in H. destruct H as [_ H]. by inversion H.
Qed.

Lemma fields_go_plain s cur :
  Forall (fun b => plain b = true) s -> s <> [] ->
  fields_go s cur = [rev cur ++ s].
Proof.
  revert cur. induction s as [|a s IH]; intros cur H Hne; [done|].
  inversion H as [|? ? Ha Hs]; subst.
  apply plain_spec in Ha as (H1 & H2 & _ & H4 & _).
  destruct s as [|b s]; simpl; rewrite H1; [done|]. rewrite H2.
  destruct s as [|c s].
  - change (fields_go [b] (a :: cur) = [rev cur ++ [a; b]]).
    rewrite IH by done. simpl. by rewrite <- app_assoc.
  - rewrite H4. change (fields_go (b :: c :: s) (a :: cur) = [rev cur ++ a :: b :: c :: s]).
    rewrite IH by done. simpl. by rewrite <- app_assoc.
Qed.

Lemma Fields_plain s : Forall (fun b => plain b = true) s -> s <> [] -> Fields s = [s].
Proof. intros. unfold Fields. by rewrite fields_go_plain. Qed.

(** A plain field followed by a blank. *)
Lemma fields_go_plain_blank s r cur :
  Forall (fun b => plain b = true) s -> (s <> [] \/ cur <> []) ->
  fields_go (s ++ x20 :: r) cur = (rev cur ++ s) :: Fields r.
Proof.
  revert cur. induction s as [|a s IH]; intros cur H Hne; simpl.
  - destruct cur as [|c cur]; [by destruct Hne|]. unfold flush_field, Fields.
    simpl. by rewrite app_nil_r.
  - inversion H as [|? ? Ha Hs]; subst.
    apply plain_spec in Ha as (H1 & H2 & _ & H4 & _).
    assert (Hc : s <> [] \/ a :: cur <> []) by (by right).
    specialize (IH (a :: cur) Hs Hc).
    simpl in IH. rewrite <- app_assoc in IH. simpl in IH. rewrite <- IH.
    rewrite H1. destruct (s ++ x20 :: r) as [|b [|c t]] eqn:E; [by destruct s| |].
    + by rewrite H2.
    + by rewrite H2, H4.
Qed.

(** ** Decimal numbers *)

Lemma digit_byte d : 0 <= d < 10 -> b2z (z2b (48 + d)) = 48 + d.
Proof. intros. rewrite b2z_z2b, Z.mod_small; lia. Qed.

Lemma digit_val_digit d : 0 <= d < 10 -> digit_val (z2b (48 + d)) = Some d.
Proof.
  intros H. unfold digit_val, in_range. rewrite digit_byte by done.
  rewrite (proj2 (Z.leb_le _ _)) by lia. rewrite (proj2 (Z.leb_le _ _)) by lia.
  simpl. f_equal. lia.
Qed.

Lemma dec_digits_value fuel z acc :
  0 <= z < 2 ^ Z.of_nat fuel -> (0 < fuel)%nat ->
  dec_value 0 (dec_digits fuel z acc) = dec_value z acc.
Proof.
  revert z acc. induction fuel as [|f IH]; intros z acc Hz Hf; [lia|]. simpl.
  assert (Hd : digit_val (z2b (48 + z mod 10)) = Some (z mod 10)).
  { apply digit_val_digit. apply Z.mod_pos_bound. lia. }
  destruct (Z.ltb_spec z 10) as [Hlt|Hge].
  - simpl. rewrite Hd. f_equal. rewrite Z.mod_small by lia. lia.
  - rewrite Nat2Z.inj_succ, Z.pow_succ_r in Hz by lia.
    assert (2 ^ Z.of_nat f > 5) by lia.
    rewrite IH.
    + simpl. rewrite Hd. f_equal. pose proof (Z.div_mod z 10). lia.
    + pose proof (Z.div_pos z 10). split; [lia|]. apply Z.div_lt_upper_bound; lia.
    + destruct f; [simpl in *; lia | lia].
Qed.

Lemma dec_digits_all fuel z acc (P : byte -> Prop) :
  (forall d, 0 <= d < 10 -> P (z2b (48 + d))) -> Forall P acc -> Forall P (dec_digits fuel z acc).
Proof.
  intros HP. revert z acc. induction fuel as [|f IH]; intros z acc Ha; simpl; [done|].
  assert (Forall P (z2b (48 + z mod 10) :: acc)).
  { constructor; [|done]. apply HP. apply Z.mod_pos_bound. lia. }
  destruct (z <? 10); [done | by apply IH].
Qed.

Lemma dec_digits_nonempty fuel z acc : (0 < fuel)%nat -> dec_digits fuel z acc <> [].
Proof.
  revert z acc. induction fuel as [|f IH]; intros z acc H; simpl; [lia|].
  destruct (z <? 10); [done|]. destruct f; [done|]. apply IH. lia.
Qed.

Lemma dec_of_value z : 0 <= z -> dec_value 0 (dec_of z) = Some z.
Proof.
  intros H. unfold dec_of. rewrite dec_digits_value; [done| |lia].
  split; [done|]. rewrite Nat2Z.inj_succ, Z2Nat.id by apply Z.log2_nonneg.
  destruct (decide (z = 0)) as [->|]; [done|].
  pose proof (Z.log2_spec z ltac:(lia)). lia.
Qed.

Lemma dec_of_digits z : Forall (fun b => in_range 48 57 b = true) (dec_of z).
Proof.
  apply dec_digits_all; [|constructor]. intros d Hd. unfold in_range.
  rewrite digit_byte by done. apply andb_true_iff. split; apply Z.leb_le; lia.
Qed.

Lemma dec_of_nonempty z : dec_of z <> [].
Proof. apply dec_digits_nonempty. lia. Qed.

Lemma digit_plain b : in_range 48 57 b = true -> plain b = true.
Proof.
  unfold plain, space1, in_range. intros H. bool_to_prop.
  apply andb_true_iff. split; [apply Z.ltb_lt; lia|].
  apply negb_true_iff, orb_false_iff. split.
  - apply andb_false_iff. right. apply Z.leb_gt. lia.
  - apply beqb_neq. intros ->. vm_compute in H. by apply H.
Qed.

Lemma Itoa_plain z : Forall (fun b => plain b = true) (Itoa z).
Proof.
  assert (H : forall z, Forall (fun b => plain b = true) (dec_of z)).
  { intros w. eapply Forall_impl; [apply dec_of_digits|]. apply digit_plain. }
  unfold Itoa. destruct (z <? 0); [constructor; [done|]|]; apply H.
Qed.

Lemma Itoa_nonempty z : Itoa z <> [].
Proof. unfold Itoa. destruct (z <? 0); [done | apply dec_of_nonempty]. Qed.

Lemma Atoi_Itoa z : in_int64 z = true -> Atoi (Itoa z) = Some z.
Proof.
  intros Hr. unfold Itoa. destruct (Z.ltb_spec z 0) as [Hneg|Hpos].
  - unfold Atoi. rewrite beqb_refl.
    pose proof (dec_of_nonempty (- z)) as Hne.
    rewrite dec_of_value by lia. rewrite Z.opp_involutive, Hr.
    by destruct (dec_of (- z)).
  - unfold Atoi. pose proof (dec_of_value z Hpos) as Hv.
    pose proof (dec_of_digits z) as Hd. pose proof (dec_of_nonempty z) as Hne.
    destruct (dec_of z) as [|a r]; [done|].
    inversion Hd as [|? ? Ha _]; subst.
    assert (beqb a x2d = false) as ->.
    { apply beqb_neq. intros ->. by vm_compute in Ha. }
    assert (beqb a x2b = false) as ->.
    { apply beqb_neq. intros ->. by vm_compute in Ha. }
    by rewrite Hv, Hr.
Qed.

Lemma Atoi_range s z : Atoi s = Some z -> int64_min <= z <= int64_max.
Proof.
  unfold Atoi. intros H. repeat case_hyp H; simplify_eq;
    match goal with H : in_int64 _ = true |- _ =>
      unfold in_int64 in H; bool_to_prop; lia end.
Qed.

Lemma Itoa_notin z c : plain c = false -> c ∉ Itoa z.
Proof.
  intros Hc Hin. pose proof (Itoa_plain z) as H. rewrite Forall_forall in H.
  specialize (H c Hin). congruence.
Qed.

(** ** Case folding *)

Lemma EqualFold_refl s : EqualFold s s = true.
Proof. by apply bool_decide_eq_true. Qed.

Lemma EqualFold_sym s t : EqualFold s t = EqualFold t s.
Proof. unfold EqualFold. apply bool_decide_ext. split; congruence. Qed.

Lemma EqualFold_trans s t u : EqualFold s t = true -> EqualFold t u = true -> EqualFold s u = true.
Proof. unfold EqualFold. rewrite !bool_decide_eq_true. congruence. Qed.

(** Folding one side may be replaced by an equal-folding string. *)
Lemma EqualFold_subst s t u : EqualFold s t = true -> EqualFold s u = EqualFold t u.
Proof.
  unfold EqualFold. rewrite bool_decide_eq_true. intros ->. done.
Qed.

#[export] Hint Resolve TrimSpace_idemp EqualFold_refl Itoa_plain : golist.

(** ** Fields are non-empty and never blank *)

Lemma starts_space_prefix s t : starts_space (s ++ t) = false -> starts_space s = false.
Proof.
  intros H. destruct (starts_space s) eqn:E; [|done].
  rewrite starts_space_app in H; done.
Qed.

Lemma flush_field_Forall (P : str -> Prop) cur rest :
  (cur <> [] -> P (rev cur)) -> Forall P rest -> Forall P (flush_field cur rest).
Proof. intros Hc Hr. destruct cur; simpl; [done|]. constructor; [by apply Hc | done]. Qed.

Definition good_field (f : str) : Prop := f <> [] /\ starts_space f = false.

Lemma fields_go_good s cur :
  (cur = [] \/ starts_space (rev cur ++ s) = false) -> Forall good_field (fields_go s cur).
Proof.
  revert cur. induction s as [s IH] using str_ind3. intros cur Hc.
  assert (Hflush : forall t, (length t < length s)%nat ->
    Forall good_field (flush_field cur (fields_go t []))).
  { intros t Ht. apply flush_field_Forall; [|apply IH; auto].
    intros Hne. destruct Hc as [->|Hc]; [done|]. split.
    - intros E. apply Hne. by rewrite <- (rev_involutive cur), E.
    - by eapply starts_space_prefix. }
  assert (Hnext : forall a r, s = a :: r -> starts_space s = false ->
    starts_space (rev (a :: cur) ++ r) = false).
  { intros a r -> Hs. destruct Hc as [->|Hc]; simpl; [done|].
    by rewrite <- app_assoc. }
  destruct s as [|a r1]; simpl.
  { apply flush_field_Forall; [|done]. intros Hne.
    destruct Hc as [->|Hc]; [done|]. rewrite app_nil_r in Hc. split; [|done].
    intros E. apply Hne. by rewrite <- (rev_involutive cur), E. }
  destruct (space1 a) eqn:E1; [apply Hflush; simpl; lia|].
  destruct r1 as [|b r2].
  { constructor; [|done]. specialize (Hnext a [] eq_refl).
    rewrite app_nil_r in Hnext. split; [by destruct (rev cur)|]. apply Hnext. simpl. by rewrite E1. }
  destruct (space2 a b) eqn:E2; [apply Hflush; simpl; lia|].
  destruct r2 as [|c r3].
  { apply (IH [b]); [simpl; lia|]. right. apply (Hnext a [b] eq_refl). simpl. by rewrite E1, E2. }
  destruct (space3 a b c) eqn:E3; [apply Hflush; simpl; lia|].
  apply (IH (b :: c :: r3)); [simpl; lia|]. right. apply (Hnext a _ eq_refl).
  simpl. by rewrite E1, E2, E3.
Qed.

Lemma Fields_good s : Forall good_field (Fields s).
Proof. apply fields_go_good. by left. Qed.

Lemma trim_rev_nil r : trim_left_space_rev r = [] -> r = [] \/ starts_space (rev r) = true.
Proof.
  induction r as [r IH] using str_ind3. intros H.
  assert (Hstep : forall p t, (length t < length r)%nat -> rev r = rev t ++ p ->
    trim_left_space_rev t = [] -> (t = [] -> starts_space p = true) ->
    starts_space (rev r) = true).
  { intros p t Hlt Heq Ht Hp. rewrite Heq.
    destruct (IH t Hlt Ht) as [->|Hs]; [by apply Hp | by apply starts_space_app]. }
  destruct r as [|a [|b [|c r]]]; simpl in H; [by left|right..].
  - destruct (space1 a) eqn:E1; [|done]. simpl. by rewrite E1.
  - destruct (space1 a) eqn:E1.
    + apply (Hstep [a] [b]); simpl; [lia|done|done|done].
    + destruct (space2 b a) eqn:E2; [|done]. simpl. by rewrite E2, orb_true_r.
  - destruct (space1 a) eqn:E1.
    + apply (Hstep [a] (b :: c :: r)); simpl; [lia|done|done|done].
    + destruct (space2 b a) eqn:E2.
      * apply (Hstep [b; a] (c :: r)); simpl; [lia| by rewrite <- app_assoc |done|done].
      * destruct (space3 c b a) eqn:E3; [|done].
        apply (Hstep [c; b; a] r); simpl; [lia| by rewrite <- !app_assoc |done|].
        intros _. by rewrite E3, !orb_true_r.
Qed.

Lemma good_field_not_blank f : good_field f -> TrimSpace f <> [].
Proof.
  intros [Hne Hs] H. unfold TrimSpace in H. rewrite trim_left_space_id in H by done.
  unfold trim_right_space in H.
  assert (Hr : trim_left_space_rev (rev f) = []).
  { rewrite <- (rev_involutive (trim_left_space_rev (rev f))), H. done. }
  apply trim_rev_nil in Hr as [Hr|Hr].
  - apply Hne. by rewrite <- (rev_involutive f), Hr.
  - rewrite rev_involutive in Hr. congruence.
Qed.

Lemma space3_mid a b c : space3 a b c = true -> 128 <= b2z b.
Proof.
  unfold space3. rewrite !orb_true_iff, !andb_true_iff, !beqb_eq.
  intros [[[[[_ ->] _]|[[_ ->] _]]|[[_ ->] _]]|[[_ ->] _]]; vm_compute; discriminate.
Qed.

(** A blank before a trimmed tail does not combine with it into white space. *)
Lemma ends_space_blank s r : r <> [] -> ends_space r = false -> ends_space (s ++ x20 :: r) = false.
Proof.
  intros Hne H. unfold ends_space in *. rewrite rev_app_distr. simpl. rewrite <- app_assoc.
  assert (S2 : forall a, space2 x20 a = false).
  { intros a. apply not_true_iff_false. intros E. apply space2_high in E as [E _].
    vm_compute in E. by apply E. }
  assert (S3 : forall b a, space3 x20 b a = false).
  { intros b a. apply not_true_iff_false. intros E. apply space3_high in E as [E _].
    vm_compute in E. by apply E. }
  assert (S3m : forall c a, space3 c x20 a = false).
  { intros c a. apply not_true_iff_false. intros E. apply space3_mid in E.
    vm_compute in E. by apply E. }
  destruct (rev r) as [|a [|b [|c t]]] eqn:E; simpl in *.
  - exfalso. apply Hne. by rewrite <- (rev_involutive r), E.
  - rewrite orb_false_r in H. rewrite H, ?S2. simpl. destruct (rev s); by rewrite ?S3m.
  - apply orb_false_iff in H as [-> H]. rewrite orb_false_r in H. by rewrite H, ?S3.
  - done.
Qed.

(** Plain words separated by single blanks. *)
Definition word (f : str) : Prop := f <> [] /\ Forall (fun b => plain b = true) f.

Lemma Fields_words fs : Forall word fs -> Fields (Join fs [x20]) = fs.
Proof.
  induction 1 as [|f fs [Hn Hf] Hfs IH]; [done|]. destruct fs as [|g fs]; [by apply Fields_plain|].
  rewrite Join_cons by done. cbn [app]. unfold Fields. rewrite fields_go_plain_blank by auto. by rewrite IH.
Qed.

Lemma words_trimmed fs : Forall word fs -> fs <> [] -> TrimSpace (Join fs [x20]) = Join fs [x20].
Proof.
  intros H Hn. apply TrimSpace_id.
  - destruct H as [|f fs [Hf Hp] Hfs]; [done|]. destruct Hp as [|b f Hb Hp]; [done|].
    destruct fs; [apply starts_space_plain; done|]. rewrite Join_cons by done. by apply starts_space_plain.
  - clear Hn. induction H as [|f fs [Hf Hp] Hfs IH]; [done|]. destruct fs as [|g fs].
    + destruct f as [|b f] using rev_ind; [done|]. apply Forall_app in Hp as [_ Hb]. inversion Hb; subst.
      by apply ends_space_plain.
    + rewrite Join_cons by done. cbn [app]. apply ends_space_blank; [|done].
      destruct (Forall_inv Hfs) as [Hg _]. destruct g; [done|]. by destruct fs.
Qed.

(** ** Runes above ASCII *)

(** The first rune of a string that starts with a byte above ASCII is itself
    above ASCII. *)
Lemma runes_high a r : 128 <= b2z a -> exists x rest, runes (a :: r) = x :: rest /\ 128 <= x < 2097152.
Proof.
  intros Ha. cbn [runes]. destruct (Z.ltb_spec (b2z a) 128); [lia|].
  assert (forall b m, 0 < m -> 0 <= b2z b mod m < m) as Hm by (intros; apply Z.mod_pos_bound; lia).
  assert (128 <= RuneError < 2097152) by (unfold RuneError; lia).
  pose proof (b2z_range a) as Ra.
  destruct r as [|b r2]; [by eexists _, _|].
  destruct (utf8_2 a b) eqn:E2.
  { eexists _, _. split; [done|]. unfold utf8_2, in_range in E2. bool_to_prop.
    pose proof (Hm b 64 ltac:(lia)).
    assert (b2z a mod 32 = b2z a - 192) as -> by (symmetry; apply (Z.mod_unique _ _ 6); lia). lia. }
  destruct r2 as [|c r3]; [by eexists _, _|].
  destruct (utf8_3 a b c) eqn:E3.
  { eexists _, _. split; [done|]. pose proof (Hm b 64 ltac:(lia)). pose proof (Hm c 64 ltac:(lia)).
    pose proof (Hm a 16 ltac:(lia)). unfold utf8_3, in_range in E3. bool_to_prop.
    repeat match goal with H : _ || _ = true |- _ => apply orb_true_iff in H as [H|H] end; bool_to_prop.
    - assert (b2z b mod 64 = b2z b - 128) by (symmetry; apply (Z.mod_unique _ _ 2); lia). lia.
    - assert (b2z a mod 16 = b2z a - 224) by (symmetry; apply (Z.mod_unique _ _ 14); lia). lia.
    - match goal with H : beqb _ _ = true |- _ => apply beqb_eq in H as -> end.
      change (b2z xed mod 16) with 13. lia.
    - assert (b2z a mod 16 = b2z a - 224) by (symmetry; apply (Z.mod_unique _ _ 14); lia). lia. }
  destruct r3 as [|d r4]; [by eexists _, _|].
  destruct (utf8_4 a b c d) eqn:E4; [|by eexists _, _].
  eexists _, _. split; [done|]. pose proof (Hm b 64 ltac:(lia)). pose proof (Hm c 64 ltac:(lia)).
  pose proof (Hm d 64 ltac:(lia)). pose proof (Hm a 8 ltac:(lia)).
  unfold utf8_4, in_range in E4. bool_to_prop.
  repeat match goal with H : _ || _ = true |- _ => apply orb_true_iff in H as [H|H] end; bool_to_prop.
  - assert (b2z b mod 64 = b2z b - 128) by (symmetry; apply (Z.mod_unique _ _ 2); lia). lia.
  - assert (b2z a mod 8 = b2z a - 240) by (symmetry; apply (Z.mod_unique _ _ 30); lia). lia.
  - match goal with H : beqb _ _ = true |- _ => apply beqb_eq in H as -> end.
    change (b2z xf4 mod 8) with 4. lia.
Qed.

(** If every rune is ASCII, so is every byte. *)
Lemma runes_ascii_bytes s : Forall (fun r => r < 128) (runes s) -> runes s = map b2z s.
Proof.
  induction s as [|a s IH]; intros H; [done|].
  destruct (Z.ltb_spec (b2z a) 128) as [Ha|Ha].
  - cbn [runes map] in *. rewrite (proj2 (Z.ltb_lt _ _) Ha) in *. inversion H; subst. f_equal. by apply IH.
  - destruct (runes_high a s Ha) as (x & rest & E & Hx). rewrite E in H. inversion H; subst. lia.
Qed.

(** ** Order of strings *)

(** ** ASCII text *)

Definition ascii (b : byte) : Prop := b2z b < 128.

Lemma runes_ascii_app s t : Forall ascii s -> runes (s ++ t) = map b2z s ++ runes t.
Proof.
  induction 1 as [|b s Hb _ IH]; [done|]. cbn [app runes map]. by rewrite (proj2 (Z.ltb_lt _ _) Hb), IH.
Qed.

Lemma runes_ascii s : Forall ascii s -> runes s = map b2z s.
Proof. intros H. rewrite <- (app_nil_r s) at 1. rewrite runes_ascii_app by done. simpl. by rewrite app_nil_r. Qed.

Lemma encode_rune_ascii b : ascii b -> encode_rune (b2z b) = [b].
Proof. intros H. unfold encode_rune. rewrite (proj2 (Z.ltb_lt _ _) H). by rewrite z2b_b2z. Qed.

Lemma ToLower_app s t : Forall ascii s -> ToLower (s ++ t) = ToLower s ++ ToLower t.
Proof. intros H. unfold ToLower. by rewrite runes_ascii_app, (runes_ascii s), flat_map_app by done. Qed.

Lemma lower_rune_ascii b : ascii b -> encode_rune (lower_rune (b2z b)) = [lower_byte b].
Proof.
  intros H. pose proof (b2z_range b). unfold ascii, lower_rune, lower_byte, in_range in *.
  destruct ((65 <=? b2z b) && (b2z b <=? 90)) eqn:E.
  - bool_to_prop. unfold encode_rune. by rewrite (proj2 (Z.ltb_lt _ 128)) by lia.
  - rewrite !(proj2 (Z.eqb_neq (b2z b) _)) by lia. by apply encode_rune_ascii.
Qed.

Lemma ToLower_ascii s : Forall ascii s -> ToLower s = map lower_byte s.
Proof.
  intros H. unfold ToLower. rewrite runes_ascii by done.
  induction H as [|b s Hb _ IH]; [done|]. cbn [map flat_map]. by rewrite lower_rune_ascii, IH.
Qed.

Lemma ToLower_length s : Forall ascii s -> length (ToLower s) = length s.
Proof. intros H. by rewrite ToLower_ascii, length_map. Qed.

Lemma encode_rune_high r : 128 <= r < 2097152 -> exists b t, encode_rune r = b :: t /\ 128 <= b2z b.
Proof.
  intros H. unfold encode_rune.
  destruct (Z.ltb_spec r 128); [lia|].
  destruct (Z.ltb_spec r 2048); [|destruct (Z.ltb_spec r 65536)]; eexists _, _; (split; [done|]);
    rewrite b2z_z2b, Z.mod_small.
  - pose proof (Z.div_pos r 64). lia.
  - pose proof (Z.div_pos r 64). assert (r / 64 < 32) by (apply Z.div_lt_upper_bound; lia). lia.
  - pose proof (Z.div_pos r 4096). lia.
  - pose proof (Z.div_pos r 4096). assert (r / 4096 < 16) by (apply Z.div_lt_upper_bound; lia). lia.
  - pose proof (Z.div_pos r 262144). lia.
  - pose proof (Z.div_pos r 262144). assert (r / 262144 < 8) by (apply Z.div_lt_upper_bound; lia). lia.
Qed.

(** Apart from [k] and [i], which two other letters lower to, an ASCII byte of
    a lowered string comes from an ASCII byte. *)
Lemma ToLower_cons s x t :
  ToLower s = x :: t -> b2z x < 128 -> x <> x6b -> x <> x69 ->
  exists a r, s = a :: r /\ lower_byte a = x /\ ToLower r = t.
Proof.
  intros H Hx Hk Hi. destruct s as [|a r]; [done|].
  destruct (Z.lt_ge_cases (b2z a) 128) as [Ha|Ha].
  - exists a, r. split; [done|]. unfold ToLower in H. cbn [runes] in H.
    rewrite (proj2 (Z.ltb_lt _ _) Ha) in H. cbn [flat_map] in H. pose proof (b2z_range a).
    rewrite lower_rune_ascii in H by done. injection H as -> <-. done.
  - exfalso. destruct (runes_high a r Ha) as (v & rest & Hr & Hv). unfold ToLower in H.
    rewrite Hr in H. cbn [flat_map] in H. unfold lower_rune in H.
    destruct ((65 <=? v) && (v <=? 90)) eqn:E1; [bool_to_prop; lia|].
    destruct (v =? 8490) eqn:E2; [by injection H as <- _|].
    destruct (v =? 304) eqn:E3; [by injection H as <- _|].
    destruct (v =? 570); [by injection H as <- _|]. destruct (v =? 574); [by injection H as <- _|].
    destruct (encode_rune_high v Hv) as (b & u & Hb & Hge). rewrite Hb in H.
    injection H as -> _. lia.
Qed.

(** One rune takes at least one byte and leaves a suffix. *)
Lemma runes_cons a r : exists v rest, runes (a :: r) = v :: runes rest /\ (length rest <= length r)%nat.
Proof.
  cbn [runes]. destruct (b2z a <? 128); [by exists (b2z a), r|].
  destruct r as [|b r2]; [by exists RuneError, []|].
  destruct (utf8_2 a b); [eexists _, r2; split; [done|simpl; lia]|].
  destruct r2 as [|c r3]; [by exists RuneError, [b]|].
  destruct (utf8_3 a b c); [eexists _, r3; split; [done|simpl; lia]|].
  destruct r3 as [|d r4]; [by exists RuneError, [b; c]|].
  destruct (utf8_4 a b c d); [eexists _, r4; split; [done|simpl; lia]|].
  by exists RuneError, (b :: c :: d :: r4).
Qed.

(** An ASCII byte of a lowered text stands for at least one byte of the text. *)
Lemma ToLower_step s x t : ToLower s = x :: t -> ascii x -> exists a r rest,
  s = a :: r /\ ToLower rest = t /\ (length rest <= length r)%nat.
Proof.
  intros H Hx. destruct s as [|a r]; [done|]. destruct (runes_cons a r) as (v & rest & E & Hl).
  exists a, r, rest. split; [done|]. split; [|done].
  assert (0 <= v < 2097152) as Hv.
  { destruct (Z.lt_ge_cases (b2z a) 128) as [Ha|Ha].
    - revert E. cbn [runes]. rewrite (proj2 (Z.ltb_lt _ _) Ha). intros [= <- _]. pose proof (b2z_range a). lia.
    - destruct (runes_high a r Ha) as (w & rs & E' & Hw). rewrite E' in E. injection E as -> _. lia. }
  unfold ToLower in H. rewrite E in H. cbn [flat_map] in H.
  destruct (Z.lt_ge_cases (lower_rune v) 128) as [Hw|Hw].
  - unfold encode_rune in H. rewrite (proj2 (Z.ltb_lt _ _) Hw) in H. by injection H as _ <-.
  - destruct (encode_rune_high (lower_rune v)) as (b & u & Hb & Hge).
    { split; [done|]. unfold lower_rune. repeat case_match; bool_to_prop; lia. }
    rewrite Hb in H. injection H as -> _. unfold ascii in Hx. lia.
Qed.

(** Lower-casing never makes an ASCII prefix longer than the text was. *)
Lemma ToLower_prefix_length s p : Forall ascii p -> HasPrefix (ToLower s) p = true -> (length p <= length s)%nat.
Proof.
  intros Hp. revert s. induction Hp as [|x p Hx _ IH]; intros s H; [simpl; lia|].
  apply HasPrefix_spec in H as [t H]. cbn [app] in H.
  apply ToLower_step in H as (a & r & rest & -> & H & Hl); [|done].
  specialize (IH rest). rewrite H, HasPrefix_app in IH. specialize (IH eq_refl). simpl. lia.
Qed.

Lemma ToLower_nil s : ToLower s = [] -> s = [].
Proof.
  destruct s as [|a r]; [done|]. intros H. exfalso. unfold ToLower in H.
  destruct (Z.lt_ge_cases (b2z a) 128) as [Ha|Ha].
  - cbn [runes] in H. rewrite (proj2 (Z.ltb_lt _ _) Ha) in H. cbn [flat_map] in H.
    apply app_nil in H as [H _]. unfold encode_rune in H. by repeat case_match.
  - destruct (runes_high a r Ha) as (v & rest & Hr & _). rewrite Hr in H. cbn [flat_map] in H.
    apply app_nil in H as [H _]. unfold encode_rune in H. by repeat case_match.
Qed.


(** Byte order of strings, as Go's [<=] has it. *)
Fixpoint str_leb (a b : str) : bool :=
  match a, b with
  | [], _ => true
  | _ :: _, [] => false
  | x :: a', y :: b' => (b2z x <? b2z y) || ((b2z x =? b2z y) && str_leb a' b')
  end.

Lemma str_leb_total a b : str_leb a b = true \/ str_leb b a = true.
Proof.
  revert b. induction a as [|x a IH]; intros [|y b]; simpl; [auto..|].
  destruct (Z.lt_trichotomy (b2z x) (b2z y)) as [H|[H|H]].
  - left. by rewrite (proj2 (Z.ltb_lt _ _) H).
  - rewrite H, Z.ltb_irrefl, Z.eqb_refl. apply IH.
  - right. by rewrite (proj2 (Z.ltb_lt _ _) H).
Qed.

Lemma str_leb_antisym a b : str_leb a b = true -> str_leb b a = true -> a = b.
Proof.
  revert b. induction a as [|x a IH]; intros [|y b]; simpl; [done..|].
  intros H1 H2. apply orb_true_iff in H1, H2.
  destruct H1 as [H1|H1], H2 as [H2|H2]; bool_to_prop; try lia.
  f_equal; [apply b2z_inj; lia|]. by apply IH.
Qed.

Lemma str_leb_trans a b c : str_leb a b = true -> str_leb b c = true -> str_leb a c = true.
Proof.
  revert b c. induction a as [|x a IH]; intros [|y b] [|z c]; simpl; [done..|].
  intros H1 H2. apply orb_true_iff in H1, H2. apply orb_true_iff.
  destruct H1 as [H1|H1], H2 as [H2|H2]; bool_to_prop; try (left; apply Z.ltb_lt; lia).
  right. apply andb_true_iff. split; [apply Z.eqb_eq; lia|]. by eapply IH.
Qed.
