(* ===== verification/GoFloat.v ===== *)
(** * Floating point of the Go language and [strconv]

    A [float64] is a [spec_float] at precision 53 and exponent bound 1024.
    [ParseFloat] and [FormatFloat] are written with exact integer arithmetic:
    the library's fast paths all return the correctly rounded value and the
    shortest decimal, which is what these definitions compute. *)

From stdpp Require Import base list strings.
From Stdlib Require Import ZArith Lia Strings.Byte Floats.SpecFloat.
From S2P Require Import Prelude GoStrings.

Abbreviation float64 := spec_float.

(** ** Arithmetic and comparison *)

Definition fprec : Z := 53.
Definition femax : Z := 1024.
Definition float_of_int (z : Z) : float64 := binary_normalize fprec femax z 0 false.
Definition fadd : float64 -> float64 -> float64 := SFadd fprec femax.
Definition fsub : float64 -> float64 -> float64 := SFsub fprec femax.
Definition fmul : float64 -> float64 -> float64 := SFmul fprec femax.
Definition fdiv : float64 -> float64 -> float64 := SFdiv fprec femax.
Definition flt : float64 -> float64 -> bool := SFltb.
Definition fle : float64 -> float64 -> bool := SFleb.
Definition feq : float64 -> float64 -> bool := SFeqb.
Definition fzero : float64 := S754_zero false.
Definition fone : float64 := float_of_int 1.

(** Integer part, towards zero. *)
Definition ftrunc (x : float64) : option Z :=
  match x with
  | S754_zero _ => Some 0
  | S754_finite s m e =>
    let a := if 0 <=? e then Z.pos m * 2 ^ e else Z.pos m / 2 ^ (- e) in
    Some (if s then - a else a)
  | _ => None
  end.

(** [int64(x)]: truncation; out of range and NaN give the smallest value, as
    the amd64 conversion does. *)
Definition int64_of_float (x : float64) : Z :=
  match ftrunc x with
  | Some z => if in_int64 z then z else int64_min
  | None => int64_min
  end.

(** ** [strconv.ParseFloat] *)


Definition hex_digit (b : byte) : option Z :=
  match digit_val b with
  | Some d => Some d
  | None => let l := lower_byte b in if in_range 97 102 l then Some (b2z l - 87) else None
  end.

(** Mantissa read so far: value, digits after the point, flags. *)
Record mant := mkMant { mn_val : Z; mn_frac : Z; mn_dot : bool; mn_digits : bool; mn_under : bool }.

Fixpoint scan_mant (hex : bool) (s : str) (m : mant) : mant * str :=
  match s with
  | [] => (m, [])
  | c :: s' =>
    if beqb c x5f then scan_mant hex s' (mkMant (mn_val m) (mn_frac m) (mn_dot m) (mn_digits m) true)
    else if beqb c x2e then
      if mn_dot m then (m, s)
      else scan_mant hex s' (mkMant (mn_val m) (mn_frac m) true (mn_digits m) (mn_under m))
    else match (if hex then hex_digit c else digit_val c) with
         | Some d =>
           scan_mant hex s' (mkMant (mn_val m * (if hex then 16 else 10) + d)
             (if mn_dot m then mn_frac m + 1 else mn_frac m) (mn_dot m) true (mn_under m))
         | None => (m, s)
         end
  end.

(** Exponent digits; the value stops growing at five digits. *)
Fixpoint scan_exp (s : str) (e : Z) (under : bool) : Z * bool * str :=
  match s with
  | [] => (e, under, [])
  | c :: s' =>
    if beqb c x5f then scan_exp s' e true
    else match digit_val c with
         | Some d => scan_exp s' (if e <? 10000 then e * 10 + d else e) under
         | None => (e, under, s)
         end
  end.

Inductive under_saw := SawStart | SawDigit | SawUnder | SawOther.

(** [underscoreOK] on the part after sign and base prefix. *)
Fixpoint underscores_ok (hex : bool) (s : str) (saw : under_saw) : bool :=
  match s with
  | [] => match saw with SawUnder => false | _ => true end
  | c :: s' =>
    match (if hex then hex_digit c else digit_val c) with
    | Some _ => underscores_ok hex s' SawDigit
    | None =>
      if beqb c x5f then match saw with SawDigit => underscores_ok hex s' SawUnder | _ => false end
      else match saw with SawUnder => false | _ => underscores_ok hex s' SawOther end
    end
  end.

(** The sign of a number and what follows it. *)
Definition read_sign (s : str) : bool * str :=
  match s with
  | c :: s' => if beqb c x2b then (false, s') else if beqb c x2d then (true, s') else (false, s)
  | [] => (false, [])
  end.

(** A decimal or hexadecimal number: sign, mantissa and exponent (of the base
    10 or 2); the whole string must be used up. *)
Definition readFloat (s : str) : option (bool * Z * Z * bool) :=
  let '(neg, t) := read_sign s in
  let '(hex, body) :=
    match t with
    | a :: b :: _ :: _ => if beqb a x30 && beqb (lower_byte b) x78 then (true, drop 2 t) else (false, t)
    | _ => (false, t)
    end in
  let '(m, rest) := scan_mant hex body (mkMant 0 0 false false false) in
  if negb (mn_digits m) then None else
  let frac := if hex then 4 * mn_frac m else mn_frac m in
  let ok (under : bool) := negb under || underscores_ok hex body (if hex then SawDigit else SawStart) in
  match rest with
  | [] => if hex then None else if ok (mn_under m) then Some (neg, mn_val m, - frac, hex) else None
  | c :: r =>
    if beqb (lower_byte c) (if hex then x70 else x65) then
      let '(eneg, r) := read_sign r in
      match r with
      | d :: _ =>
        if in_range 48 57 d then
          let '(e, under, r') := scan_exp r 0 (mn_under m) in
          match r' with
          | [] => if ok under then Some (neg, mn_val m, (if eneg then - e else e) - frac, hex) else None
          | _ => None
          end
        else None
      | [] => None
      end
    else None
  end.

(** The correctly rounded value of [v * base ^ p]. *)
Definition round_decimal (neg : bool) (v p : Z) (hex : bool) : float64 :=
  match v with
  | Zpos m =>
    if hex then binary_round fprec femax neg m p
    else if 0 <=? p then binary_round fprec femax neg (m * Z.to_pos (10 ^ p)) 0
    else fdiv (S754_finite neg m 0) (S754_finite false (Z.to_pos (10 ^ (- p))) 0)
  | _ => S754_zero neg
  end.

Definition is_inf (x : float64) : bool :=
  match x with S754_infinity _ => true | _ => false end.

(** The names of infinities and NaN. *)
Definition special (s : str) : option float64 :=
  let '(neg, t) := read_sign s in
  let l := map lower_byte t in
  if bool_decide (l = lit "inf") || bool_decide (l = lit "infinity") then Some (S754_infinity neg)
  else if bool_decide (map lower_byte s = lit "nan") then Some S754_nan
  else None.

(** [strconv.ParseFloat(s, 64)]; [None] is a syntax or range error. *)
Definition ParseFloat (s : str) : option float64 :=
  match special s with
  | Some x => Some x
  | None =>
    match readFloat s with
    | None => None
    | Some (neg, v, p, hex) =>
      let x := round_decimal neg v p hex in if is_inf x then None else Some x
    end
  end.

(** ** [strconv.FormatFloat(x, 'f', -1, 64)] *)

(** Number of digits before the point of [num / den]: the [k] with
    [10^(k-1) <= num/den < 10^k]. *)
Definition pow10_le (k num den : Z) : bool :=
  if 0 <=? k then 10 ^ k * den <=? num else den <=? num * 10 ^ (- k).

Fixpoint decimal_point (fuel : nat) (k num den : Z) : Z :=
  match fuel with
  | O => k
  | S f => if pow10_le k num den then decimal_point f (k + 1) num den else k
  end.

(** Starting below the result: [log10 x >= 0.30102 * log2 x - 1]. *)
Definition point_of (num den : Z) : Z :=
  decimal_point 8 ((Z.log2 num - Z.log2 den - 1) * 30103 / 100000 - 2) num den.

(** Digits [d] scaled by [10^(k-n)] against a bound [num/den]. *)
Definition scaled_le (d q num den : Z) : bool :=
  if 0 <=? q then d * 10 ^ q * den <=? num else d * den <=? num * 10 ^ (- q).
Definition le_scaled (num den d q : Z) : bool :=
  if 0 <=? q then num <=? d * 10 ^ q * den else num * 10 ^ (- q) <=? d * den.

(** Quotient of [num/den] by [10^q], and twice the remainder compared with the
    unit. *)
Definition scale_down (num den q : Z) : Z * comparison :=
  let '(a, b) := if 0 <=? q then (num, den * 10 ^ q) else (num * 10 ^ (- q), den) in
  (a / b, Z.compare (2 * (a mod b)) b).

(** Shortest digits within the rounding interval, trying [n] digits first. *)
Fixpoint shortest (fuel : nat) (n : Z) (k num den lo hi : Z) (incl : bool) : Z * Z :=
  let q := k - n in
  let '(down, half) := scale_down num den q in
  let up := down + 1 in
  let okdown := if incl then le_scaled lo den down q else negb (scaled_le down q lo den) in
  let okup := if incl then scaled_le up q hi den else negb (le_scaled hi den up q) in
  match fuel with
  | O => (down, q)
  | S f =>
    match okdown, okup with
    | true, true =>
      (match half with Lt => down | Gt => up | Eq => if Z.even down then down else up end, q)
    | true, false => (down, q)
    | false, true => (up, q)
    | false, false => shortest f (n + 1) k num den lo hi incl
    end
  end.

(** [d * 10^q] in positional notation, without trailing zeros after the point. *)
Fixpoint strip_zeros (fuel : nat) (d q : Z) : Z * Z :=
  match fuel with
  | O => (d, q)
  | S f => if (q <? 0) && (d mod 10 =? 0) then strip_zeros f (d / 10) (q + 1) else (d, q)
  end.

Definition zeros (n : Z) : str := replicate (Z.to_nat n) x30.

Definition positional (d q : Z) : str :=
  if 0 <=? q then dec_of (d * 10 ^ q)
  else
    let ds := dec_of d in
    let ds := zeros (1 - q - Z.of_nat (length ds)) ++ ds in
    let cut := (length ds - Z.to_nat (- q))%nat in
    take cut ds ++ x2e :: drop cut ds.

Definition sign_str (s : bool) : str := if s then [x2d] else [].

Definition FormatFloat (x : float64) : str :=
  match x with
  | S754_nan => lit "NaN"
  | S754_infinity s => (if s then [x2d] else [x2b]) ++ lit "Inf"
  | S754_zero s => sign_str s ++ [x30]
  | S754_finite s m e =>
    let unit := 2 ^ Z.max e 0 in
    let num := 4 * Z.pos m * unit in
    let den := 4 * 2 ^ Z.max (- e) 0 in
    let lo := num - (if (Z.pos m =? 2 ^ 52) && negb (e =? -1074) then unit else 2 * unit) in
    let hi := num + 2 * unit in
    let '(d, q) := shortest 17 1 (point_of num den) num den lo hi (Z.even (Z.pos m)) in
    let '(d, q) := strip_zeros 20 d q in
    sign_str s ++ positional d q
  end.

(** * Integers are exact

    Below [2^53] in absolute value, integers are represented exactly, and the
    operations used by the numeric actions work on them without rounding. *)

Definition fdigits (k : positive) : Z := Z.pos (digits2_pos k).

Lemma fdigits_log2 k : fdigits k = Z.log2 (Z.pos k) + 1.
Proof.
  unfold fdigits. induction k as [k IH|k IH|]; cbn [digits2_pos]; [| |done].
  - rewrite Pos2Z.inj_succ, IH. change (Z.pos k~1) with (2 * Z.pos k + 1).
    rewrite Z.log2_succ_double by lia. lia.
  - rewrite Pos2Z.inj_succ, IH. change (Z.pos k~0) with (2 * Z.pos k).
    rewrite Z.log2_double by lia. lia.
Qed.

Lemma fdigits_bounds k : 2 ^ (fdigits k - 1) <= Z.pos k < 2 ^ fdigits k.
Proof.
  rewrite fdigits_log2. pose proof (Z.log2_spec (Z.pos k) ltac:(lia)).
  replace (Z.log2 (Z.pos k) + 1 - 1) with (Z.log2 (Z.pos k)) by lia. by rewrite Z.add_1_r.
Qed.

Lemma fdigits_small k : Z.pos k < 2 ^ 53 -> 1 <= fdigits k <= 53.
Proof.
  intros H. rewrite fdigits_log2. pose proof (Z.log2_nonneg (Z.pos k)).
  assert (Z.log2 (Z.pos k) < 53); [|lia]. apply Z.log2_lt_pow2; lia.
Qed.

(** [k * 2^j] as a positive. *)
Definition pshift (k : positive) (j : Z) : positive := Z.to_pos (Z.pos k * 2 ^ j).

Lemma pshift_Z k j : 0 <= j -> Z.pos (pshift k j) = Z.pos k * 2 ^ j.
Proof. intros. unfold pshift. rewrite Z2Pos.id; [done|]. pose proof (Z.pow_pos_nonneg 2 j). lia. Qed.

Lemma pshift_0 k : pshift k 0 = k.
Proof. unfold pshift. by rewrite Z.mul_1_r. Qed.

Lemma pshift_add k i j : 0 <= i -> 0 <= j -> pshift (pshift k i) j = pshift k (i + j).
Proof.
  intros. apply Pos2Z.inj. rewrite !pshift_Z by lia. rewrite Z.pow_add_r by lia. lia.
Qed.

Lemma fdigits_pshift k j : 0 <= j -> fdigits (pshift k j) = fdigits k + j.
Proof.
  intros. rewrite !fdigits_log2, pshift_Z by done.
  rewrite <- Z.shiftl_mul_pow2 by done. rewrite Z.log2_shiftl by lia. lia.
Qed.

Lemma iter_xO k p : Pos.iter xO k p = pshift k (Z.pos p).
Proof.
  induction p as [|p IH] using Pos.peano_ind.
  - apply Pos2Z.inj. rewrite pshift_Z by lia. simpl. lia.
  - rewrite Pos.iter_succ, IH. apply Pos2Z.inj. rewrite Pos2Z.inj_xO, !pshift_Z by lia.
    rewrite Pos2Z.inj_succ, Z.pow_succ_r by lia. lia.
Qed.

Lemma shr_1_exact k : shr_1 (Build_shr_record (Z.pos k~0) false false) = Build_shr_record (Z.pos k) false false.
Proof. done. Qed.

Lemma iter_pos_succ {A} (f : A -> A) p x : SpecFloat.iter_pos f p (f x) = f (SpecFloat.iter_pos f p x).
Proof.
  revert x. induction p as [p IH|p IH|]; intros x; cbn [SpecFloat.iter_pos]; [| |done]; by rewrite !IH.
Qed.

Lemma iter_pos_nat {A} (f : A -> A) p x : SpecFloat.iter_pos f p x = Nat.iter (Pos.to_nat p) f x.
Proof.
  revert x. induction p as [p IH|p IH|]; intros x; cbn [SpecFloat.iter_pos]; [| |done].
  - rewrite !IH, <- Nat.iter_add, Pos2Nat.inj_xI.
    replace (S (2 * Pos.to_nat p)) with (Pos.to_nat p + Pos.to_nat p + 1)%nat by lia.
    by rewrite (Nat.iter_add _ 1).
  - rewrite !IH, <- Nat.iter_add, Pos2Nat.inj_xO. f_equal. lia.
Qed.

Lemma shr_exact n k :
  Nat.iter n shr_1 (Build_shr_record (Z.pos (pshift k (Z.of_nat n))) false false)
  = Build_shr_record (Z.pos k) false false.
Proof.
  revert k. induction n as [|n IH]; intros k; [by rewrite pshift_0|].
  rewrite Nat.iter_succ_r.
  replace (pshift k (Z.of_nat (S n))) with ((pshift k (Z.of_nat n))~0)%positive.
  - rewrite shr_1_exact. apply IH.
  - apply Pos2Z.inj. rewrite Pos2Z.inj_xO, !pshift_Z, Nat2Z.inj_succ, Z.pow_succ_r by lia. lia.
Qed.

(** The normalised representation of a small positive integer. *)
Definition canon (s : bool) (k : positive) : float64 :=
  S754_finite s (pshift k (53 - fdigits k)) (fdigits k - 53).

Lemma shr_fexp_id k e : fexp fprec femax (fdigits k + e) = e ->
  shr_fexp fprec femax (Z.pos k) e loc_Exact = (Build_shr_record (Z.pos k) false false, e).
Proof.
  intros H. unfold shr_fexp. cbn [Zdigits2 shr_record_of_loc].
  change (Z.pos (digits2_pos k)) with (fdigits k). rewrite H, Z.sub_diag. done.
Qed.

Lemma fexp_small d : 1 <= d <= 53 -> fexp fprec femax d = d - 53.
Proof. intros. unfold fexp, SpecFloat.emin, fprec, femax. lia. Qed.

Lemma round_aux_canon s k : Z.pos k < 2 ^ 53 ->
  binary_round_aux fprec femax s (Z.pos (pshift k (53 - fdigits k))) (fdigits k - 53) loc_Exact = canon s k.
Proof.
  intros Hk. pose proof (fdigits_small k Hk) as Hd. unfold binary_round_aux.
  assert (fexp fprec femax (fdigits (pshift k (53 - fdigits k)) + (fdigits k - 53)) = fdigits k - 53) as Hf.
  { rewrite fdigits_pshift by lia.
    replace (fdigits k + (53 - fdigits k) + (fdigits k - 53)) with (fdigits k) by lia. by apply fexp_small. }
  rewrite shr_fexp_id by done. cbn [shr_m loc_of_shr_record round_nearest_even].
  rewrite shr_fexp_id by done. cbn [shr_m].
  assert (fdigits k - 53 <=? femax - fprec = true) as -> by (apply Z.leb_le; unfold femax, fprec; lia). done.
Qed.

Lemma round_aux_right s k j : Z.pos k < 2 ^ 53 -> 53 - fdigits k <= j ->
  binary_round_aux fprec femax s (Z.pos (pshift k j)) (- j) loc_Exact = canon s k.
Proof.
  intros Hk Hj. pose proof (fdigits_small k Hk) as Hd.
  rewrite <- (round_aux_canon s k Hk). unfold binary_round_aux.
  assert (shr_fexp fprec femax (Z.pos (pshift k j)) (- j) loc_Exact
          = (Build_shr_record (Z.pos (pshift k (53 - fdigits k))) false false, fdigits k - 53)) as ->.
  { unfold shr_fexp. cbn [Zdigits2 shr_record_of_loc].
    change (Z.pos (digits2_pos (pshift k j))) with (fdigits (pshift k j)).
    rewrite fdigits_pshift by lia. replace (fdigits k + j + - j) with (fdigits k) by lia.
    rewrite fexp_small by lia. replace (fdigits k - 53 - - j) with (fdigits k - 53 + j) by lia.
    remember (fdigits k - 53 + j) as n eqn:En.
    assert (0 <= n) by lia. unfold shr. destruct n as [|p|p]; [| |lia].
    - f_equal; [|lia]. by replace j with (53 - fdigits k) by lia.
    - f_equal; [|lia]. rewrite iter_pos_nat.
      replace (pshift k j) with (pshift (pshift k (53 - fdigits k)) (Z.of_nat (Pos.to_nat p))).
      + apply shr_exact.
      + rewrite pshift_add by lia. f_equal. lia. }
  cbn [shr_m loc_of_shr_record round_nearest_even].
  rewrite shr_fexp_id; [|rewrite fdigits_pshift by lia;
    replace (fdigits k + (53 - fdigits k) + (fdigits k - 53)) with (fdigits k) by lia; by apply fexp_small].
  cbn [shr_m loc_of_shr_record round_nearest_even].
  rewrite shr_fexp_id; [done|]. rewrite fdigits_pshift by lia.
  replace (fdigits k + (53 - fdigits k) + (fdigits k - 53)) with (fdigits k) by lia. by apply fexp_small.
Qed.

Lemma round_exact s k j : Z.pos k < 2 ^ 53 -> 0 <= j ->
  binary_round fprec femax s (pshift k j) (- j) = canon s k.
Proof.
  intros Hk Hj. pose proof (fdigits_small k Hk) as Hd. unfold binary_round.
  change (Z.pos (digits2_pos (pshift k j))) with (fdigits (pshift k j)).
  rewrite fdigits_pshift by lia. replace (fdigits k + j + - j) with (fdigits k) by lia.
  rewrite fexp_small by lia. unfold shl_align.
  destruct (fdigits k - 53 - - j) as [|p|p] eqn:E.
  - apply round_aux_right; [done|lia].
  - apply round_aux_right; [done|lia].
  - rewrite iter_xO, pshift_add by lia. rewrite <- round_aux_canon by done. f_equal.
    f_equal. f_equal. lia.
Qed.

Lemma float_of_int_pos k : Z.pos k < 2 ^ 53 -> float_of_int (Z.pos k) = canon false k.
Proof. intros. unfold float_of_int, binary_normalize. rewrite <- (pshift_0 k) at 1. by apply (round_exact false k 0). Qed.

Lemma float_of_int_neg k : Z.pos k < 2 ^ 53 -> float_of_int (Z.neg k) = canon true k.
Proof. intros. unfold float_of_int, binary_normalize. rewrite <- (pshift_0 k) at 1. by apply (round_exact true k 0). Qed.

(** An integer written with any spare factor of two. *)
Lemma normalize_shifted z j : Z.abs z < 2 ^ 53 -> 0 <= j ->
  binary_normalize fprec femax (z * 2 ^ j) (- j) false = float_of_int z.
Proof.
  intros Hz Hj. destruct z as [|k|k]; [done| |].
  - rewrite <- pshift_Z by done. rewrite float_of_int_pos by lia.
    apply (round_exact false k j); [lia|done].
  - replace (Z.neg k * 2 ^ j) with (- Z.pos (pshift k j)) by (rewrite pshift_Z by done; lia).
    rewrite float_of_int_neg by lia. apply (round_exact true k j); [lia|done].
Qed.

(** Sign, mantissa and exponent of a small non-zero integer. *)
Lemma float_of_int_view z : z <> 0 -> Z.abs z < 2 ^ 53 ->
  exists m j, float_of_int z = S754_finite (z <? 0) m (- j) /\ 0 <= j <= 52
    /\ cond_Zopp (z <? 0) (Z.pos m) = z * 2 ^ j.
Proof.
  intros Hz Hb. destruct z as [|k|k]; [done| |];
    pose proof (fdigits_small k ltac:(lia)) as Hd;
    exists (pshift k (53 - fdigits k)), (53 - fdigits k).
  - rewrite float_of_int_pos by lia. split; [|split; [lia|]].
    + unfold canon. change (Z.pos k <? 0) with false. f_equal. lia.
    + cbn [Z.ltb Z.compare cond_Zopp]. by rewrite pshift_Z by lia.
  - rewrite float_of_int_neg by lia. split; [|split; [lia|]].
    + unfold canon. change (Z.neg k <? 0) with true. f_equal. lia.
    + cbn [Z.ltb Z.compare cond_Zopp]. rewrite pshift_Z by lia. lia.
Qed.

Lemma shl_align_exact m i j : 0 <= i <= j -> (shl_align m (- i) (- j)).1 = pshift m (j - i).
Proof.
  intros H. unfold shl_align. destruct (- j - - i) as [|p|p] eqn:E; [|lia|].
  - replace (j - i) with 0 by lia. by rewrite pshift_0.
  - simpl. rewrite iter_xO. f_equal. lia.
Qed.

Lemma cond_Zopp_pshift s m z i j : 0 <= i <= j ->
  cond_Zopp s (Z.pos m) = z * 2 ^ i -> cond_Zopp s (Z.pos (pshift m (j - i))) = z * 2 ^ j.
Proof.
  intros Hij H. rewrite pshift_Z by lia.
  replace (2 ^ j) with (2 ^ i * 2 ^ (j - i)) by (rewrite <- Z.pow_add_r by lia; f_equal; lia).
  rewrite Z.mul_assoc, <- H. destruct s; simpl cond_Zopp; lia.
Qed.

Lemma fadd_int a b :
  Z.abs a < 2 ^ 53 -> Z.abs b < 2 ^ 53 -> Z.abs (a + b) < 2 ^ 53 ->
  fadd (float_of_int a) (float_of_int b) = float_of_int (a + b).
Proof.
  intros Ha Hb Hs. destruct (decide (a = 0)) as [->|Na]; [|destruct (decide (b = 0)) as [->|Nb]].
  - rewrite Z.add_0_l. destruct (decide (b = 0)) as [->|Nb]; [done|].
    by destruct (float_of_int_view b Nb Hb) as (m & j & -> & _).
  - rewrite Z.add_0_r. by destruct (float_of_int_view a Na Ha) as (m & j & -> & _).
  - destruct (float_of_int_view a Na Ha) as (ma & ja & -> & Hja & Ea).
    destruct (float_of_int_view b Nb Hb) as (mb & jb & -> & Hjb & Eb).
    unfold fadd, SFadd. replace (Z.min (- ja) (- jb)) with (- Z.max ja jb) by lia.
    rewrite !shl_align_exact by lia.
    rewrite (cond_Zopp_pshift _ ma a), (cond_Zopp_pshift _ mb b) by (done || lia).
    rewrite <- Z.mul_add_distr_r. apply normalize_shifted; lia.
Qed.

Lemma fsub_int a b :
  Z.abs a < 2 ^ 53 -> Z.abs b < 2 ^ 53 -> Z.abs (a - b) < 2 ^ 53 ->
  fsub (float_of_int a) (float_of_int b) = float_of_int (a - b).
Proof.
  intros Ha Hb Hs. destruct (decide (b = 0)) as [->|Nb]; [|destruct (decide (a = 0)) as [->|Na]].
  - rewrite Z.sub_0_r. destruct (decide (a = 0)) as [->|Na]; [done|].
    by destruct (float_of_int_view a Na Ha) as (m & j & -> & _).
  - rewrite Z.sub_0_l. destruct b as [|k|k]; [done| |].
    + rewrite float_of_int_pos by lia. change (- Z.pos k) with (Z.neg k).
      by rewrite float_of_int_neg by lia.
    + rewrite float_of_int_neg by lia. change (- Z.neg k) with (Z.pos k).
      by rewrite float_of_int_pos by lia.
  - destruct (float_of_int_view a Na Ha) as (ma & ja & -> & Hja & Ea).
    destruct (float_of_int_view b Nb Hb) as (mb & jb & -> & Hjb & Eb).
    unfold fsub, SFsub. replace (Z.min (- ja) (- jb)) with (- Z.max ja jb) by lia.
    rewrite !shl_align_exact by lia.
    rewrite (cond_Zopp_pshift _ ma a), (cond_Zopp_pshift _ mb b) by (done || lia).
    rewrite <- Z.mul_sub_distr_r. apply normalize_shifted; lia.
Qed.

(** Reading a decimal integer. *)
Lemma scan_mant_digits ds v w :
  Forall (fun b => in_range 48 57 b = true) ds -> dec_value v ds = Some w ->
  scan_mant false ds (mkMant v 0 false true false) = (mkMant w 0 false true false, []).
Proof.
  intros Hd. revert v. induction Hd as [|c ds Hc Hd IH]; intros v; simpl; [by intros [= ->]|].
  destruct (digit_val c) as [d|] eqn:Ed; [|done]. intros H.
  assert (beqb c x5f = false /\ beqb c x2e = false) as [-> ->].
  { unfold in_range in Hc. bool_to_prop. rewrite !beqb_neq.
    split; intros ->; revert H0 H1; unfold b2z; simpl; lia. }
  by apply IH.
Qed.

Lemma digit_not_sign c : in_range 48 57 c = true -> beqb c x2b = false /\ beqb c x2d = false.
Proof.
  intros Hc. unfold in_range in Hc. bool_to_prop. rewrite !beqb_neq.
  split; intros ->; revert H H0; unfold b2z; simpl; lia.
Qed.

Lemma digit_val_of c : in_range 48 57 c = true -> exists d, digit_val c = Some d.
Proof. intros H. unfold digit_val. rewrite H. eauto. Qed.

Lemma digit_lower c : in_range 48 57 c = true -> lower_byte c = c.
Proof.
  unfold lower_byte, in_range. intros H. bool_to_prop.
  destruct ((65 <=? b2z c) && (b2z c <=? 90)) eqn:E; [|done]. bool_to_prop. lia.
Qed.

Lemma digit_is c b : in_range 48 57 c = true -> in_range 48 57 b = false -> c <> b.
Proof. congruence. Qed.

Lemma read_sign_digits neg c ds : in_range 48 57 c = true ->
  read_sign ((if neg : bool then [x2d] else []) ++ c :: ds) = (neg, c :: ds).
Proof.
  intros Hc. destruct (digit_not_sign c Hc) as [E1 E2].
  destruct neg; simpl; [done|]. by rewrite E1, E2.
Qed.

Lemma readFloat_digits neg ds v :
  ds <> [] -> Forall (fun b => in_range 48 57 b = true) ds -> dec_value 0 ds = Some v ->
  readFloat ((if neg : bool then [x2d] else []) ++ ds) = Some (neg, v, 0, false).
Proof.
  intros Hne Hd Hv. destruct ds as [|c ds]; [done|]. inversion Hd as [|? ? Hc Hds]; subst.
  unfold readFloat. rewrite read_sign_digits by done.
  assert (match c :: ds with
          | a :: b :: _ :: _ => if beqb a x30 && beqb (lower_byte b) x78 then (true, drop 2 (c :: ds)) else (false, c :: ds)
          | _ => (false, c :: ds)
          end = (false, c :: ds)) as ->.
  { destruct ds as [|b [|x ds]]; try done. inversion Hds; subst.
    rewrite (digit_lower b) by done.
    rewrite (proj2 (beqb_neq b x78)) by (by apply digit_is). by rewrite andb_false_r. }
  simpl in Hv. destruct (digit_val_of c Hc) as [d Ed]. rewrite Ed in Hv.
  cbn [scan_mant mn_val mn_dot mn_frac mn_digits mn_under].
  rewrite (proj2 (beqb_neq c x5f)), (proj2 (beqb_neq c x2e)), Ed by (by apply digit_is).
  rewrite (scan_mant_digits ds _ v) by done. done.
Qed.

Lemma special_digits neg ds :
  ds <> [] -> Forall (fun b => in_range 48 57 b = true) ds ->
  special ((if neg : bool then [x2d] else []) ++ ds) = None.
Proof.
  intros Hne Hd. destruct ds as [|c ds]; [done|]. inversion Hd as [|? ? Hc Hds]; subst.
  unfold special. rewrite read_sign_digits by done. cbn [map]. rewrite digit_lower by done.
  rewrite !bool_decide_false; [done| | |].
  - destruct neg; cbn; [intros [=]|]. rewrite digit_lower by done. intros [= -> _]. done.
  - intros [= -> _]. done.
  - intros [= -> _]. done.
Qed.

Lemma is_inf_canon s k : is_inf (canon s k) = false.
Proof. done. Qed.

Lemma round_decimal_int neg k : round_decimal neg (Z.pos k) 0 false = binary_round fprec femax neg k 0.
Proof.
  unfold round_decimal. change (0 <=? 0) with true. cbv iota.
  change (Z.to_pos (10 ^ 0)) with 1%positive. by rewrite Pos.mul_1_r.
Qed.

Lemma round_int neg k : Z.pos k < 2 ^ 53 -> binary_round fprec femax neg k 0 = canon neg k.
Proof. intros. rewrite <- (pshift_0 k) at 1. by apply (round_exact neg k 0). Qed.

Lemma ParseFloat_digits neg z : 0 <= z < 2 ^ 53 ->
  ParseFloat ((if neg : bool then [x2d] else []) ++ dec_of z) = Some (round_decimal neg z 0 false).
Proof.
  intros Hz. unfold ParseFloat.
  rewrite special_digits by (apply dec_of_nonempty || apply dec_of_digits).
  rewrite (readFloat_digits neg _ z)
    by (apply dec_of_nonempty || apply dec_of_digits || (apply dec_of_value; lia)).
  destruct z as [|k|k]; [done| |lia]. rewrite round_decimal_int, round_int by lia. done.
Qed.

Lemma ParseFloat_Itoa z : Z.abs z < 2 ^ 53 -> ParseFloat (Itoa z) = Some (float_of_int z).
Proof.
  intros Hz. unfold Itoa. destruct (Z.ltb_spec z 0) as [Hn|Hp].
  - change (x2d :: dec_of (- z)) with ((if true then [x2d] else []) ++ dec_of (- z)).
    rewrite ParseFloat_digits by lia. destruct z as [|k|k]; [lia|lia|].
    change (- Z.neg k) with (Z.pos k). by rewrite round_decimal_int.
  - change (dec_of z) with ((if false then [x2d] else []) ++ dec_of z).
    rewrite ParseFloat_digits by lia. destruct z as [|k|k]; [done| |lia].
    by rewrite round_decimal_int.
Qed.

(** Printing an integer: every shorter digit string inside the rounding
    interval denotes the integer itself. *)
Lemma decimal_point_bounds fuel k num den hi :
  0 < den <= num -> 0 <= hi -> num < 10 ^ hi * den -> k <= hi -> 1 <= k + Z.of_nat fuel ->
  1 <= decimal_point fuel k num den <= hi.
Proof.
  intros Hd Hh Hn. revert k. induction fuel as [|fuel IH]; intros k Hk Hf; cbn [decimal_point]; [lia|].
  destruct (pow10_le k num den) eqn:E; unfold pow10_le in E; destruct (Z.leb_spec 0 k).
  - apply IH; [|lia]. destruct (decide (k = hi)) as [->|]; [|lia]. bool_to_prop. lia.
  - apply IH; lia.
  - destruct (decide (k = 0)) as [->|]; [|lia]. bool_to_prop. change (10 ^ 0) with 1 in E. lia.
  - bool_to_prop. pose proof (Z.pow_pos_nonneg 10 (- k)). nia.
Qed.

Lemma shortest_integer fuel n k z den lo hi incl :
  1 <= n <= k -> k - n < Z.of_nat fuel -> 0 < den -> 0 < z ->
  z * den - den < lo <= z * den -> (incl = true \/ lo < z * den) ->
  z * den <= hi < z * den + den ->
  exists d q, shortest fuel n k (z * den) den lo hi incl = (d, q) /\ 0 <= q /\ d * 10 ^ q = z.
Proof.
  revert n. induction fuel as [|fuel IH]; intros n Hn Hf Hd Hz Hlo Hin Hhi; [lia|].
  cbn [shortest]. set (q := k - n). assert (0 <= q) as Hq by lia.
  pose proof (Z.pow_pos_nonneg 10 q ltac:(lia) Hq) as H10. set (t := 10 ^ q) in *.
  assert (scale_down (z * den) den q = (z / t, Z.compare (2 * ((z * den) mod (den * t))) (den * t))) as ->.
  { unfold scale_down. rewrite (proj2 (Z.leb_le 0 q)) by done. fold t.
    f_equal. rewrite (Z.mul_comm z den), Z.div_mul_cancel_l by lia. done. }
  unfold scaled_le, le_scaled. rewrite (proj2 (Z.leb_le 0 q)) by done. fold t.
  pose proof (Z.mul_div_le z t H10) as Hle. pose proof (Z.mul_succ_div_gt z t H10) as Hgt.
  set (d := z / t) in *.
  assert ((if incl then (d + 1) * t * den <=? hi else negb (hi <=? (d + 1) * t * den)) = false) as ->.
  { assert (hi < (d + 1) * t * den) by nia.
    destruct incl; [apply Z.leb_gt; lia|]. apply negb_false_iff, Z.leb_le. lia. }
  destruct (decide (d * t = z)) as [Heq|Hne].
  - assert ((if incl then lo <=? d * t * den else negb (d * t * den <=? lo)) = true) as ->.
    { rewrite Heq. destruct incl; [apply Z.leb_le; lia|]. apply negb_true_iff, Z.leb_gt.
      destruct Hin; [done|lia]. }
    by exists d, q.
  - assert ((if incl then lo <=? d * t * den else negb (d * t * den <=? lo)) = false) as ->.
    { assert (d * t * den < lo) by nia.
      destruct incl; [apply Z.leb_gt; lia|]. apply negb_false_iff, Z.leb_le. lia. }
    apply IH; try done; try lia.
    destruct (decide (n = k)); [|lia]. exfalso. apply Hne. unfold d, t, q.
    replace (k - n) with 0 by lia. change (10 ^ 0) with 1. rewrite Z.div_1_r. lia.
Qed.

Lemma FormatFloat_canon s k : Z.pos k < 2 ^ 53 ->
  FormatFloat (canon s k) = sign_str s ++ dec_of (Z.pos k).
Proof.
  intros Hk. pose proof (fdigits_small k Hk) as Hd. pose proof (fdigits_bounds k) as Hb.
  unfold canon, FormatFloat.
  replace (Z.max (fdigits k - 53) 0) with 0 by lia. change (2 ^ 0) with 1. rewrite !Z.mul_1_r.
  replace (Z.max (- (fdigits k - 53)) 0) with (53 - fdigits k) by lia.
  set (den := 4 * 2 ^ (53 - fdigits k)).
  assert (4 <= den) as Hden. { unfold den. pose proof (Z.pow_pos_nonneg 2 (53 - fdigits k)). lia. }
  replace (4 * Z.pos (pshift k (53 - fdigits k))) with (Z.pos k * den)
    by (rewrite pshift_Z by lia; unfold den; lia).
  set (m := pshift k (53 - fdigits k)).
  set (lo := Z.pos k * den - _).
  assert (1 <= point_of (Z.pos k * den) den <= 17) as Hp.
  { assert (Z.log2 (Z.pos k * den) - Z.log2 den = fdigits k - 1) as Hlog.
    { rewrite fdigits_log2. unfold den.
      replace (4 * 2 ^ (53 - fdigits k)) with (2 ^ (55 - fdigits k))
        by (replace (55 - fdigits k) with (2 + (53 - fdigits k)) by lia;
            rewrite Z.pow_add_r by lia; reflexivity).
      rewrite Z.log2_mul_pow2, Z.log2_pow2 by lia. lia. }
    unfold point_of. rewrite Hlog.
    assert (-3 <= (fdigits k - 1 - 1) * 30103 / 100000 - 2 <= 17) as Hs.
    { clear -Hd. generalize dependent (fdigits k). intros d Hd. split.
      - assert (-1 <= (d - 1 - 1) * 30103 / 100000); [apply Z.div_le_lower_bound|]; lia.
      - assert ((d - 1 - 1) * 30103 / 100000 <= 19); [apply Z.div_le_upper_bound|]; lia. }
    apply decimal_point_bounds; [nia|lia| |lia|lia].
    change (10 ^ 17) with 100000000000000000. nia. }
  destruct (shortest_integer 17 1 (point_of (Z.pos k * den) den) (Z.pos k) den lo
              (Z.pos k * den + 2) (Z.even (Z.pos m))) as (d & q & -> & Hq & Hdq);
    [lia..|unfold lo; case_match; lia|right; unfold lo; case_match; lia|lia|].
  assert (strip_zeros 20 d q = (d, q)) as ->.
  { cbn [strip_zeros]. by rewrite (proj2 (Z.ltb_ge q 0)). }
  unfold positional. rewrite (proj2 (Z.leb_le 0 q)) by done. by rewrite Hdq.
Qed.

Lemma FormatFloat_int z : Z.abs z < 2 ^ 53 -> FormatFloat (float_of_int z) = Itoa z.
Proof.
  intros Hz. unfold Itoa. destruct z as [|k|k]; [reflexivity| |].
  - rewrite float_of_int_pos, FormatFloat_canon by lia. done.
  - rewrite float_of_int_neg, FormatFloat_canon by lia. done.
Qed.

(** ** Comparison of integers *)

Lemma canon_compare j k : Z.pos j < 2 ^ 53 -> Z.pos k < 2 ^ 53 ->
  match Z.compare (fdigits j - 53) (fdigits k - 53) with
  | Lt => Lt
  | Gt => Gt
  | Eq => Pos.compare_cont Eq (pshift j (53 - fdigits j)) (pshift k (53 - fdigits k))
  end = Z.compare (Z.pos j) (Z.pos k).
Proof.
  intros Hj Hk. pose proof (fdigits_bounds j) as Bj. pose proof (fdigits_bounds k) as Bk.
  pose proof (fdigits_small j Hj). pose proof (fdigits_small k Hk).
  destruct (Z.compare_spec (fdigits j - 53) (fdigits k - 53)) as [E|E|E].
  - replace (fdigits k) with (fdigits j) by lia.
    change (Pos.compare_cont Eq ?x ?y) with (Z.compare (Z.pos x) (Z.pos y)).
    rewrite !pshift_Z by lia. pose proof (Z.pow_pos_nonneg 2 (53 - fdigits j) ltac:(lia) ltac:(lia)).
    symmetry. by apply Zmult_compare_compat_r, Z.lt_gt.
  - symmetry. apply Z.compare_lt_iff.
    assert (2 ^ fdigits j <= 2 ^ (fdigits k - 1)) by (apply Z.pow_le_mono_r; lia). lia.
  - symmetry. apply Z.compare_gt_iff.
    assert (2 ^ fdigits k <= 2 ^ (fdigits j - 1)) by (apply Z.pow_le_mono_r; lia). lia.
Qed.

Lemma canon_compare_neg j k : Z.pos j < 2 ^ 53 -> Z.pos k < 2 ^ 53 ->
  match Z.compare (fdigits j - 53) (fdigits k - 53) with
  | Lt => Gt
  | Gt => Lt
  | Eq => CompOpp (Pos.compare_cont Eq (pshift j (53 - fdigits j)) (pshift k (53 - fdigits k)))
  end = Z.compare (Z.neg j) (Z.neg k).
Proof.
  intros Hj Hk. change (Z.neg j) with (- Z.pos j). change (Z.neg k) with (- Z.pos k).
  rewrite <- Zcompare_opp, (Z.compare_antisym (Z.pos j) (Z.pos k)), <- (canon_compare j k) by done.
  by destruct (Z.compare (fdigits j - 53) (fdigits k - 53)).
Qed.

Lemma SFcompare_int a b : Z.abs a < 2 ^ 53 -> Z.abs b < 2 ^ 53 ->
  SFcompare (float_of_int a) (float_of_int b) = Some (Z.compare a b).
Proof.
  intros Ha Hb. destruct a as [|j|j], b as [|k|k];
    rewrite ?float_of_int_pos, ?float_of_int_neg by lia; try done.
  - unfold canon, SFcompare. f_equal. apply canon_compare; lia.
  - unfold canon, SFcompare. f_equal. apply canon_compare_neg; lia.
Qed.

Create HintDb gofloat.
#[export] Hint Rewrite ParseFloat_Itoa FormatFloat_int fadd_int fsub_int using lia : gofloat.

Lemma flt_int a b : Z.abs a < 2 ^ 53 -> Z.abs b < 2 ^ 53 -> flt (float_of_int a) (float_of_int b) = (a <? b).
Proof. intros. unfold flt, SFltb, Z.ltb. by rewrite SFcompare_int. Qed.

Lemma fle_int a b : Z.abs a < 2 ^ 53 -> Z.abs b < 2 ^ 53 -> fle (float_of_int a) (float_of_int b) = (a <=? b).
Proof. intros. unfold fle, SFleb, Z.leb. rewrite SFcompare_int by done. by destruct (a ?= b). Qed.

Lemma feq_int a b : Z.abs a < 2 ^ 53 -> Z.abs b < 2 ^ 53 -> feq (float_of_int a) (float_of_int b) = (a =? b).
Proof.
  intros. unfold feq, SFeqb. rewrite SFcompare_int by done.
  destruct (Z.compare_spec a b), (Z.eqb_spec a b); done || lia.
Qed.
