(* ===== verification/GoTime.v ===== *)
(** * Texts of times

    [time.Time.Format] in UTC with the two layouts the program stores: RFC 3339
    with nanoseconds, whose fraction drops trailing zeros, and the layout of
    scenario snapshots, whose fields have fixed widths.  An instant is
    nanoseconds since the epoch. *)

From stdpp Require Import base list strings.
From Stdlib Require Import ZArith Lia Strings.Byte.
From S2P Require Import Prelude GoStrings.

(** ** Formats *)

(** Year, month and day of a day counted from 1970-01-01. *)
Definition civil (days : Z) : Z * Z * Z :=
  let z := days + 719468 in
  let era := z / 146097 in
  let doe := z - era * 146097 in
  let yoe := (doe - doe / 1460 + doe / 36524 - doe / 146096) / 365 in
  let doy := doe - (365 * yoe + yoe / 4 - yoe / 100) in
  let mp := (5 * doy + 2) / 153 in
  let d := doy - (153 * mp + 2) / 5 + 1 in
  let m := if mp <? 10 then mp + 3 else mp - 9 in
  (yoe + era * 400 + (if m <=? 2 then 1 else 0), m, d).

(** At least [w] digits. *)
Definition padded (w : nat) (z : Z) : str :=
  let ds := Itoa z in replicate (w - length ds) x30 ++ ds.

Definition fraction (ns : Z) : str :=
  if ns =? 0 then [] else x2e :: TrimRight (fun b => beqb b x30) (padded 9 ns).

Definition rfc3339nano (t : Z) : str :=
  let secs := t / 1000000000 in
  let '(y, m, d) := civil (secs / 86400) in
  let sod := secs mod 86400 in
  padded 4 y ++ [x2d] ++ padded 2 m ++ [x2d] ++ padded 2 d ++ [x54]
  ++ padded 2 (sod / 3600) ++ [x3a] ++ padded 2 (sod / 60 mod 60) ++ [x3a] ++ padded 2 (sod mod 60)
  ++ fraction (t mod 1000000000) ++ [x5a].

Example rfc3339_examples :
  rfc3339nano 1709210096000000000 = lit "2024-02-29T12:34:56Z"
  /\ rfc3339nano 951782399120000000 = lit "2000-02-28T23:59:59.12Z".
Proof. vm_compute. done. Qed.


(** The layout [20060102T150405.000000000Z]. *)
Definition historyTS (t : Z) : str :=
  let secs := t / 1000000000 in
  let '(y, m, d) := civil (secs / 86400) in
  let sod := secs mod 86400 in
  (padded 4 y ++ padded 2 m ++ padded 2 d) ++ [x54]
  ++ (padded 2 (sod / 3600) ++ padded 2 (sod / 60 mod 60) ++ padded 2 (sod mod 60)) ++ [x2e]
  ++ padded 9 (t mod 1000000000) ++ [x5a].

Example history_example : historyTS 1709210096000000120 = lit "20240229T123456.000000120Z".
Proof. vm_compute. done. Qed.

(** ** Order of texts *)

Definition str_lt (a b : str) : Prop := str_leb a b = true /\ a <> b.

Lemma str_lt_app a a' b b' : length a = length a' -> str_lt a a' -> str_lt (a ++ b) (a' ++ b').
Proof.
  intros Hl [Hle Hne]. split; [|by intros [? ?]%app_inj_1].
  revert a' Hl Hle Hne. induction a as [|x a IH]; intros [|y a'] Hl Hle Hne; try done. simpl in *.
  apply orb_true_iff in Hle. apply orb_true_iff. destruct Hle as [?|[E Hle]%andb_true_iff]; [by left|].
  right. apply andb_true_iff. split; [done|]. apply Z.eqb_eq, b2z_inj in E as ->. apply IH; [congruence|done|congruence].
Qed.

Lemma str_lt_app_same a b b' : str_lt b b' -> str_lt (a ++ b) (a ++ b').
Proof.
  intros [Hle Hne]. split; [|by intros ?%app_inv_head]. induction a as [|x a IH]; [done|]. simpl. by rewrite Z.eqb_refl, IH, orb_true_r.
Qed.

(** Digits of equal number are ordered as their values. *)
Definition digits (s : str) : Prop := Forall (fun b => in_range 48 57 b = true) s.

Lemma dec_value_le s acc v : digits s -> dec_value acc s = Some v ->
  acc * 10 ^ Z.of_nat (length s) <= v < (acc + 1) * 10 ^ Z.of_nat (length s).
Proof.
  revert acc. induction s as [|b s IH]; intros acc Hd E; [simpl in *; injection E as <-; lia|].
  apply Forall_cons in Hd as [Hb Hd]. simpl in E. unfold digit_val in E. rewrite Hb in E. apply (IH _ Hd) in E.
  unfold in_range in Hb. bool_to_prop. cbn [length]. rewrite Nat2Z.inj_succ, Z.pow_succ_r by lia. nia.
Qed.

Lemma dec_value_digits s acc : digits s -> exists v, dec_value acc s = Some v.
Proof.
  revert acc. induction s as [|b s IH]; intros acc Hd; [by eexists|]. apply Forall_cons in Hd as [Hb Hd]. simpl.
  unfold digit_val. rewrite Hb. auto.
Qed.

Lemma digits_lt a b va vb acc : digits a -> digits b -> length a = length b ->
  dec_value acc a = Some va -> dec_value acc b = Some vb -> va < vb -> str_lt a b.
Proof.
  revert b acc. induction a as [|x a IH]; intros [|y b] acc Ha Hb Hl Ea Eb Hlt; try done; [simpl in *; simplify_eq; lia|].
  apply Forall_cons in Ha as [Hx Ha], Hb as [Hy Hb]. cbn [dec_value] in Ea, Eb. unfold digit_val in Ea, Eb. rewrite Hx in Ea. rewrite Hy in Eb.
  injection Hl as Hl. destruct (Z.lt_trichotomy (b2z x) (b2z y)) as [H|[H%b2z_inj|H]].
  - split; [simpl; by rewrite (proj2 (Z.ltb_lt _ _) H)|]. intros [= -> _]. lia.
  - subst y. apply (str_lt_app_same [x]). by eapply IH.
  - exfalso. apply dec_value_le in Ea; [|done]. apply dec_value_le in Eb; [|done]. rewrite Hl in Ea.
    unfold in_range in *. bool_to_prop.
    assert (0 < 10 ^ Z.of_nat (length b)) by (apply Z.pow_pos_nonneg; lia). nia.
Qed.

(** ** Fields of fixed width *)

Lemma dec_digits_length fuel z acc w :
  0 <= z < 10 ^ Z.of_nat (S w) -> (length (dec_digits fuel z acc) <= S w + length acc)%nat.
Proof.
  revert z acc w. induction fuel as [|f IH]; intros z acc w Hz; cbn [dec_digits]; [lia|].
  destruct (Z.ltb_spec z 10); [cbn [length]; lia|]. destruct w as [|w]; [simpl in Hz; lia|].
  etrans; [apply (IH _ _ w)|cbn [length]; lia]. rewrite (Nat2Z.inj_succ (S w)), Z.pow_succ_r in Hz by lia.
  split; [apply Z.div_pos; lia|apply Z.div_lt_upper_bound; lia].
Qed.

Lemma padded_spec w z : 0 <= z < 10 ^ Z.of_nat (S w) ->
  length (padded (S w) z) = S w /\ digits (padded (S w) z) /\ dec_value 0 (padded (S w) z) = Some z.
Proof.
  intros Hz. unfold padded, Itoa. destruct (Z.ltb_spec z 0); [lia|].
  pose proof (dec_digits_length (S (Z.to_nat (Z.log2 z))) z [] w Hz) as Hl. fold (dec_of z) in Hl. cbn [length] in Hl.
  split; [rewrite length_app, length_replicate; lia|]. split; [apply Forall_app; split; [by apply Forall_replicate|apply dec_of_digits]|].
  generalize (S w - length (dec_of z))%nat. intros k. induction k as [|k IH]; [by apply dec_of_value|]. exact IH.
Qed.

Lemma padded_lt w a b : 0 <= a -> a < b -> b < 10 ^ Z.of_nat (S w) -> str_lt (padded (S w) a) (padded (S w) b).
Proof.
  intros Ha Hab Hb. destruct (padded_spec w a) as (La & Da & Va); [lia|]. destruct (padded_spec w b) as (Lb & Db & Vb); [lia|].
  apply (digits_lt _ _ a b 0); congruence.
Qed.

Lemma padded_length w z : 0 <= z < 10 ^ Z.of_nat (S w) -> length (padded (S w) z) = S w.
Proof. intros Hz. by apply padded_spec. Qed.

(** Three fields, compared from the left. *)
Definition lex3 (p q : Z * Z * Z) : Prop :=
  let '(a, b, c) := p in let '(a', b', c') := q in a < a' \/ (a = a' /\ (b < b' \/ (b = b' /\ c < c'))).

Lemma fields_lt w a b c a' b' c' : lex3 (a, b, c) (a', b', c') ->
  0 <= a < 10 ^ Z.of_nat (S w) -> 0 <= a' < 10 ^ Z.of_nat (S w) ->
  0 <= b < 100 -> 0 <= b' < 100 -> 0 <= c < 100 -> 0 <= c' < 100 ->
  str_lt (padded (S w) a ++ padded 2 b ++ padded 2 c) (padded (S w) a' ++ padded 2 b' ++ padded 2 c').
Proof.
  intros Hl Ha Ha' Hb Hb' Hc Hc'. pose proof (padded_length w) as Hw. pose proof (padded_length 1) as H2.
  change (10 ^ Z.of_nat 2) with 100 in H2. destruct Hl as [?|(-> & [?|(-> & ?)])].
  - apply str_lt_app; [by rewrite !Hw|apply padded_lt; lia].
  - apply str_lt_app_same, str_lt_app; [by rewrite !H2|apply padded_lt; lia].
  - do 2 apply str_lt_app_same. apply padded_lt; simpl; lia.
Qed.

(** ** The calendar

    Years begin in March; [year_of] is the year of a day of the 400-year cycle
    of 146097 days, [year_start] its first day. *)

Definition year_of (doe : Z) : Z := (doe - doe / 1460 + doe / 36524 - doe / 146096) / 365.
Definition year_start (y : Z) : Z := 365 * y + y / 4 - y / 100.
Definition year_end (y : Z) : Z := if y =? 399 then 146097 else year_start (y + 1).
Definition month_day (doy : Z) : Z * Z :=
  let mp := (5 * doy + 2) / 153 in (if mp <? 10 then mp + 3 else mp - 9, doy - (153 * mp + 2) / 5 + 1).

Lemma civil_parts days :
  let era := (days + 719468) / 146097 in let doe := (days + 719468) mod 146097 in
  let '(m, d) := month_day (doe - year_start (year_of doe)) in
  civil days = (year_of doe + era * 400 + (if m <=? 2 then 1 else 0), m, d).
Proof. cbv zeta. rewrite Zmod_eq_full by lia. reflexivity. Qed.

(** Checks by evaluation, on [0 .. n-1]. *)
Definition all_below (n : nat) (p : Z -> bool) : bool := forallb (fun k => p (Z.of_nat k)) (seq 0 n).

Lemma all_below_spec n p : all_below n p = true -> forall z, 0 <= z < Z.of_nat n -> p z = true.
Proof.
  intros H z Hz. rewrite <- (Z2Nat.id z) by lia. unfold all_below in H. rewrite forallb_forall in H. apply H, in_seq. lia.
Qed.

Lemma years_checked : all_below 400 (fun y => (year_of (year_start y) =? y) && (year_of (year_end y - 1) =? y)
  && (year_start y <? year_end y) && (year_end y - year_start y <=? 366) && (year_end y <=? 146097)
  && ((y =? 399) || (year_start (y + 1) =? year_end y))) = true.
Proof. vm_compute. reflexivity. Qed.

(** The number a month and day give, January and February counting for the next
    year, grows with the day of the year. *)
Definition month_number (doy : Z) : Z := let '(m, d) := month_day doy in (if m <=? 2 then 10000 else 0) + m * 100 + d.

Lemma days_checked : all_below 366 (fun doy => let '(m, d) := month_day doy in
  (1 <=? m) && (m <=? 12) && (1 <=? d) && (d <=? 31) && ((doy =? 365) || (month_number doy <? month_number (doy + 1)))
  && (301 <=? month_number doy) && (month_number doy <=? 10229)) = true.
Proof. vm_compute. reflexivity. Qed.

Lemma year_of_step a : 0 <= a -> year_of a <= year_of (a + 1).
Proof. intros Ha. unfold year_of. apply Z.div_le_mono; [lia|]. change 146096 with (36524 * 4).
  rewrite <- !Z.div_div by lia.
  assert (a / 1460 <= (a + 1) / 1460 <= a / 1460 + 1) by (Z.to_euclidean_division_equations; lia).
  assert ((a + 1) / 36524 = a / 36524 \/ (a + 1) / 36524 = a / 36524 + 1) as [-> | ->] by (Z.to_euclidean_division_equations; lia); [lia|].
  generalize dependent (a / 36524). intros q. Z.to_euclidean_division_equations. lia.
Qed.

Lemma year_of_mono a b : 0 <= a -> a <= b -> year_of a <= year_of b.
Proof.
  intros Ha Hab. replace b with (a + Z.of_nat (Z.to_nat (b - a))) by lia. induction (Z.to_nat (b - a)) as [|k IH]; [by rewrite Z.add_0_r|].
  rewrite Nat2Z.inj_succ. etrans; [exact IH|]. replace (a + Z.succ (Z.of_nat k)) with (a + Z.of_nat k + 1) by lia. apply year_of_step. lia.
Qed.

(** Every day of the cycle lies in its year. *)
Lemma year_bounds doe : 0 <= doe < 146097 ->
  0 <= year_of doe < 400 /\ year_start (year_of doe) <= doe < year_end (year_of doe).
Proof.
  intros Hd. assert (exists y, 0 <= y < 400 /\ year_start y <= doe < year_end y) as (y & Hy & Hs).
  { assert (forall n : nat, (n <= 400)%nat -> doe < (if (n =? 0)%nat then 0 else year_end (Z.of_nat n - 1)) ->
      exists y, 0 <= y < 400 /\ year_start y <= doe < year_end y) as H.
    { induction n as [|n IH]; intros Hn Hlt; [simpl in Hlt; lia|]. cbn [Nat.eqb] in Hlt.
      replace (Z.of_nat (S n) - 1) with (Z.of_nat n) in Hlt by lia.
      destruct (Z.lt_ge_cases doe (year_start (Z.of_nat n))) as [Hlo|Hlo]; [|exists (Z.of_nat n); lia].
      apply IH; [lia|]. destruct n as [|n]; [change (year_start (Z.of_nat 0)) with 0 in Hlo; lia|]. cbn [Nat.eqb].
      replace (Z.of_nat (S n) - 1) with (Z.of_nat n) by lia.
      pose proof (all_below_spec _ _ years_checked (Z.of_nat n) ltac:(lia)) as Hc. cbv beta in Hc. bool_to_prop.
      replace (Z.of_nat (S n)) with (Z.of_nat n + 1) in Hlo by lia. lia. }
    apply (H 400%nat); [lia|]. change (doe < year_end 399). change (year_end 399) with 146097. lia. }
  pose proof (all_below_spec _ _ years_checked y Hy) as Hc. cbv beta in Hc. bool_to_prop.
  assert (0 <= year_start y) by (unfold year_start; Z.to_euclidean_division_equations; lia).
  pose proof (year_of_mono (year_start y) doe ltac:(lia) ltac:(lia)). pose proof (year_of_mono doe (year_end y - 1) ltac:(lia) ltac:(lia)).
  assert (year_of doe = y) as -> by lia. lia.
Qed.

(** A date as one number. *)
Definition date_number (days : Z) : Z := let '(y, m, d) := civil days in y * 10000 + m * 100 + d.

Lemma date_number_parts days :
  let doe := (days + 719468) mod 146097 in
  date_number days = 10000 * (year_of doe + 400 * ((days + 719468) / 146097)) + month_number (doe - year_start (year_of doe)).
Proof.
  cbv zeta. unfold date_number, month_number. pose proof (civil_parts days) as E. cbv zeta in E.
  destruct (month_day _) as [m d]. rewrite E. destruct (m <=? 2); lia.
Qed.

Lemma doy_bounds doe : 0 <= doe < 146097 -> 0 <= doe - year_start (year_of doe) < 366.
Proof.
  intros Hd. destruct (year_bounds doe Hd) as [Hy Hb].
  pose proof (all_below_spec _ _ years_checked _ Hy) as Hc. cbv beta in Hc. bool_to_prop. lia.
Qed.

Lemma month_checked doy : 0 <= doy < 366 ->
  301 <= month_number doy <= 10229 /\ (doy < 365 -> month_number doy < month_number (doy + 1)) /\
  1 <= fst (month_day doy) <= 12 /\ 1 <= snd (month_day doy) <= 31.
Proof.
  intros Hd. pose proof (all_below_spec _ _ days_checked doy Hd) as Hc. cbv beta in Hc.
  destruct (month_day doy) as [m d]. bool_to_prop. cbn [fst snd]. split; [lia|]. split; [|lia]. intros Hlt.
  rename select ((_ || _) = true) into Hor. apply orb_true_iff in Hor as [?%Z.eqb_eq|?%Z.ltb_lt]; lia.
Qed.

Lemma date_number_step days : date_number days < date_number (days + 1).
Proof.
  rewrite !date_number_parts. replace (days + 1 + 719468) with (days + 719468 + 1) by lia. set (z := days + 719468).
  pose proof (Z.mod_pos_bound z 146097 ltac:(lia)) as Hd. set (doe := z mod 146097) in *.
  pose proof (doy_bounds doe Hd) as Hdoy. destruct (year_bounds doe Hd) as [Hy Hb].
  destruct (month_checked _ Hdoy) as (Hm & Hnext & _). destruct (decide (doe + 1 = 146097)) as [Hlast|Hlast].
  - assert ((z + 1) / 146097 = z / 146097 + 1 /\ (z + 1) mod 146097 = 0) as [-> ->] by (subst doe; Z.to_euclidean_division_equations; lia).
    change (year_of 0) with 0. change (0 - year_start 0) with 0. change (month_number 0) with 301. lia.
  - assert ((z + 1) / 146097 = z / 146097 /\ (z + 1) mod 146097 = doe + 1) as [-> ->] by (subst doe; Z.to_euclidean_division_equations; lia).
    pose proof (all_below_spec _ _ years_checked _ Hy) as Hc. cbv beta in Hc. bool_to_prop.
    pose proof (doy_bounds (doe + 1) ltac:(lia)) as Hdoy'. destruct (month_checked _ Hdoy') as (Hm' & _ & _).
    pose proof (year_of_mono doe (doe + 1) ltac:(lia) ltac:(lia)) as Hmono.
    destruct (decide (year_of (doe + 1) = year_of doe)) as [E|E]; [|lia]. rewrite E in *.
    replace (doe + 1 - year_start (year_of doe)) with (doe - year_start (year_of doe) + 1) in * by lia.
    specialize (Hnext ltac:(lia)). lia.
Qed.

Lemma date_number_lt a b : a < b -> date_number a < date_number b.
Proof.
  intros Hab. replace b with (a + Z.of_nat (S (Z.to_nat (b - a - 1)))) by lia.
  induction (Z.to_nat (b - a - 1)) as [|k IH]; [apply date_number_step|]. etrans; [exact IH|].
  replace (a + Z.of_nat (S (S k))) with (a + Z.of_nat (S k) + 1) by lia. apply date_number_step.
Qed.

Lemma civil_lex a b : a < b -> lex3 (civil a) (civil b).
Proof.
  intros Hab. pose proof (date_number_lt a b Hab) as Hn. unfold date_number in Hn.
  assert (forall z, let '(y, m, d) := civil z in 1 <= m <= 12 /\ 1 <= d <= 31) as Hs.
  { intros z. pose proof (civil_parts z) as E. cbv zeta in E.
    pose proof (month_checked _ (doy_bounds ((z + 719468) mod 146097) (Z.mod_pos_bound _ 146097 ltac:(lia)))) as (_ & _ & Hm & Hd).
    destruct (month_day _) as [m d]. rewrite E. done. }
  pose proof (Hs a) as Ha. pose proof (Hs b) as Hb. destruct (civil a) as [[y m] d], (civil b) as [[y' m'] d']. unfold lex3. lia.
Qed.

(** ** Snapshots are named in the order of time *)

Definition representable (t : Z) : Prop := 0 <= t < 253402300800000000000.

Lemma civil_year days : 0 <= days < 2932897 ->
  let '(y, m, d) := civil days in 0 <= y < 10000 /\ 0 <= m < 100 /\ 0 <= d < 100.
Proof.
  intros Hd. assert (19700101 <= date_number days <= 99991231) as Hn.
  { change 19700101 with (date_number 0). change 99991231 with (date_number 2932896).
    split; [destruct (decide (days = 0)) as [->|]; [lia|]|destruct (decide (days = 2932896)) as [->|]; [lia|]];
      apply Z.lt_le_incl, date_number_lt; lia. }
  unfold date_number in Hn. pose proof (civil_parts days) as E. cbv zeta in E.
  pose proof (month_checked _ (doy_bounds ((days + 719468) mod 146097) (Z.mod_pos_bound _ 146097 ltac:(lia)))) as (_ & _ & Hm & Hdd).
  destruct (month_day _) as [m d]. rewrite E in *. cbn [fst snd] in *. lia.
Qed.

Lemma historyTS_lt t t' : representable t -> representable t' -> t < t' -> str_lt (historyTS t) (historyTS t').
Proof.
  intros Ht Ht' Hlt. unfold representable in *. unfold historyTS.
  set (s := t / 1000000000). set (s' := t' / 1000000000).
  assert (0 <= s / 86400 < 2932897 /\ 0 <= s' / 86400 < 2932897) as [Hs Hs'] by (subst s s'; Z.to_euclidean_division_equations; lia).
  pose proof (civil_year _ Hs) as Hc. pose proof (civil_year _ Hs') as Hc'. pose proof (civil_lex (s / 86400) (s' / 86400)) as Hlex.
  assert (forall y m d, 0 <= y < 10000 -> 0 <= m < 100 -> 0 <= d < 100 -> length (padded 4 y ++ padded 2 m ++ padded 2 d) = 8%nat) as Hlen8.
  { intros y m d ? ? ?. rewrite !length_app, !padded_length by (simpl; lia). done. }
  assert (forall h m d, 0 <= h < 100 -> 0 <= m < 100 -> 0 <= d < 100 -> length (padded 2 h ++ padded 2 m ++ padded 2 d) = 6%nat) as Hlen6.
  { intros y m d ? ? ?. rewrite !length_app, !padded_length by (simpl; lia). done. }
  destruct (Z.lt_trichotomy (s / 86400) (s' / 86400)) as [Hday|[Hday|Hday]]; [| |subst s s'; Z.to_euclidean_division_equations; lia].
  - specialize (Hlex Hday). destruct (civil (s / 86400)) as [[y m] d], (civil (s' / 86400)) as [[y' m'] d'].
    apply str_lt_app; [by rewrite !Hlen8 by lia|]. apply fields_lt; simpl; (done || lia).
  - clear Hlex Hc' Hs'. rewrite <- Hday. destruct (civil (s / 86400)) as [[y m] d]. apply str_lt_app_same, (str_lt_app_same [_]).
    destruct (decide (s = s')) as [Heq|Hne].
    + rewrite <- Heq. apply str_lt_app_same, (str_lt_app_same [_]), str_lt_app; [rewrite !padded_length; [done|..]|apply padded_lt];
        simpl; subst s s'; Z.to_euclidean_division_equations; lia.
    + assert (s mod 86400 < s' mod 86400) as Hsod by (subst s s'; Z.to_euclidean_division_equations; lia).
      pose proof (Z.mod_pos_bound s 86400 ltac:(lia)). pose proof (Z.mod_pos_bound s' 86400 ltac:(lia)).
      set (a := s mod 86400) in *. set (b := s' mod 86400) in *. clearbody a b.
      assert (0 <= a / 3600 < 24 /\ 0 <= a / 60 mod 60 < 60 /\ 0 <= a mod 60 < 60) by (Z.to_euclidean_division_equations; lia).
      assert (0 <= b / 3600 < 24 /\ 0 <= b / 60 mod 60 < 60 /\ 0 <= b mod 60 < 60) by (Z.to_euclidean_division_equations; lia).
      apply str_lt_app; [by rewrite !Hlen6 by lia|]. apply fields_lt; try (simpl; lia).
      unfold lex3. Z.to_euclidean_division_equations. lia.
Qed.
