(* ===== verification/SipMessage.v ===== *)
(** * [internal/sip/message.go]: SIP messages, their parser and the matching
    helpers of the call engine.

    A Go [map[string][]string] is an association list with pairwise distinct
    keys; the list order stands for the order in which [range] happens to
    visit the map.  Go leaves that order open, so results that depend on a
    lookup are stated up to permutation of the list. *)

From stdpp Require Import base list gmap strings.
From Stdlib Require Import ZArith Lia Strings.Byte.
From S2P Require Import Prelude GoStrings.

(** ** Header maps *)

Abbreviation headers := (list (str * list str)).

(** [headers[k]] with the presence flag. *)
Fixpoint hdr_get (k : str) (h : headers) : option (list str) :=
  match h with
  | [] => None
  | (k', vs) :: h' => if decide (k' = k) then Some vs else hdr_get k h'
  end.

(** [headers[k] = append(headers[k], v...)] *)
Fixpoint hdr_append (k : str) (v : list str) (h : headers) : headers :=
  match h with
  | [] => [(k, v)]
  | (k', vs) :: h' => if decide (k' = k) then (k', vs ++ v) :: h' else (k', vs) :: hdr_append k v h'
  end.

(** [for k, vals := range headers { headers[k] = vals[:0] }] *)
Definition hdr_truncate (h : headers) : headers := map (fun kv => (kv.1, [])) h.

(** The entries a reader can see: those with at least one value. *)
Definition hdr_live (h : headers) : headers :=
  List.filter (fun kv => match kv.2 with [] => false | _ => true end) h.

(** ** Messages *)

Record Message := mkMessage {
  StartLine : str;
  Method : str;
  RequestURI : str;
  StatusCode : Z;
  Reason : str;
  Headers : headers;
  Body : str;
  Raw : str
}.

Definition emptyMessage : Message := mkMessage [] [] [] 0 [] [] [] [].

Inductive sip_error :=
  | ErrEmptyMessage
  | ErrStatusLine (line : str)
  | ErrStatusCode (code : str)
  | ErrRequestLine (line : str)
  | ErrHeader (line : str)
  | ErrMissingCallID.

(** ** The scanner *)

(** A line without its CR: [end > lineStart && raw[end-1] == '\r']. *)
Definition chomp_cr (line : str) : str :=
  match rev line with
  | a :: r => if beqb a x0d then rev r else line
  | [] => line
  end.

Definition sip_version : str := lit "SIP/2.0 ".

(** Start-line analysis; [line] is already trimmed and not empty. *)
Definition parseStartLine (line : str) (msg : Message) : result sip_error Message :=
  if (Nat.ltb 8 (length line)) && HasPrefix line sip_version then
    let rest := drop 8 line in
    match IndexByte x20 rest with
    | None => Err (ErrStatusLine line)
    | Some sp =>
      match Atoi (take sp rest) with
      | None => Err (ErrStatusCode (take sp rest))
      | Some code =>
        Ok (mkMessage line (Method msg) (RequestURI msg) code (drop (S sp) rest)
              (Headers msg) (Body msg) (Raw msg))
      end
    end
  else
    match IndexByte x20 line with
    | None => Err (ErrRequestLine line)
    | Some sp1 =>
      match IndexByte x20 (drop (S sp1) line) with
      | None => Err (ErrRequestLine line)
      | Some sp2 =>
        Ok (mkMessage line (take sp1 line) (take sp2 (drop (S sp1) line)) (StatusCode msg)
              (Reason msg) (Headers msg) (Body msg) (Raw msg))
      end
    end.

Definition setHeaders (msg : Message) (h : headers) : Message :=
  mkMessage (StartLine msg) (Method msg) (RequestURI msg) (StatusCode msg) (Reason msg)
    h (Body msg) (Raw msg).

Definition setBody (msg : Message) (b : str) : Message :=
  mkMessage (StartLine msg) (Method msg) (RequestURI msg) (StatusCode msg) (Reason msg)
    (Headers msg) b (Raw msg).

Definition setRaw (msg : Message) (r : str) : Message :=
  mkMessage (StartLine msg) (Method msg) (RequestURI msg) (StatusCode msg) (Reason msg)
    (Headers msg) (Body msg) r.

(** The header lines: [segs] are the segments of the input between LFs that
    follow the start line.  A blank line ends the headers and everything
    after it is the body; running out of input ends the message. *)
Fixpoint parseHeaderLines (segs : list str) (msg : Message) : result sip_error Message :=
  match segs with
  | [] => Ok msg
  | seg :: rest =>
    match chomp_cr seg with
    | [] => Ok match Join rest [x0a] with [] => msg | b => setBody msg b end
    | line =>
      match Cut line x3a with
      | None => Err (ErrHeader line)
      | Some (name, value) =>
        parseHeaderLines rest
          (setHeaders msg (hdr_append (TrimSpace name) [TrimSpace value] (Headers msg)))
      end
    end
  end.

(** [parseBytes]: the segments between LFs are the lines the byte loop cuts. *)
Definition parseBytes (raw : str) (msg : Message) : result sip_error Message :=
  let msg := setRaw msg raw in
  match Split raw x0a with
  | [] => Ok msg
  | seg :: rest =>
    match TrimSpace (chomp_cr seg) with
    | [] => Err ErrEmptyMessage
    | line => let? m := parseStartLine line msg in parseHeaderLines rest m
    end
  end.

(** [Parse] *)
Definition Parse (raw : str) : result sip_error Message := parseBytes raw emptyMessage.

(** [ParseInto]: the pooled message keeps its header keys with empty slices. *)
Definition ParseInto (msg : Message) (raw : str) : result sip_error Message :=
  parseBytes raw
    (mkMessage (StartLine msg) [] [] 0 [] (hdr_truncate (Headers msg)) [] (Raw msg)).

(** [Copy] of a message pointer *)
Definition Copy (m : Message) : Message := setHeaders m (hdr_live (Headers m)).

(** [CopyInto] *)
Definition CopyInto (dst src : Message) : Message :=
  mkMessage (StartLine src) (Method src) (RequestURI src) (StatusCode src) (Reason src)
    (foldl (fun h kv => match kv.2 with [] => h | _ => hdr_append kv.1 kv.2 h end)
       (hdr_truncate (Headers dst)) (Headers src))
    (Body src) (Raw src).

(** [PutMessage]: what is handed back to the pool. *)
Definition PutMessage (m : Message) : Message :=
  mkMessage [] [] [] 0 [] (hdr_truncate (Headers m)) [] [].

(** ** Lookups *)

(** [Header]: the first entry visited whose key folds to [name] and that has
    a value. *)
Fixpoint Header (h : headers) (name : str) : option str :=
  match h with
  | [] => None
  | (k, vs) :: h' =>
    if EqualFold k name
    then match vs with v :: _ => Some v | [] => Header h' name end
    else Header h' name
  end.

(** [ExtractCallID]: [pooled] is the message [GetMessage] hands out. *)
Definition ExtractCallID (pooled : Message) (raw : str) : result sip_error str :=
  let? msg := ParseInto pooled raw in
  match Header (Headers msg) (lit "Call-ID") with
  | Some callID => Ok callID
  | None => Err ErrMissingCallID
  end.

(** [NormalizeCallID] *)
Definition NormalizeCallID (value : str) : str :=
  match TrimSpace value with
  | [] => []
  | v => match LastIndex v (lit "///") with
         | Some i => drop (i + 3) v
         | None => v
         end
  end.

(** [ParseCSeq] *)
Definition ParseCSeq (h : headers) : option (Z * str) :=
  match Header h (lit "CSeq") with
  | None => None
  | Some v =>
    match Fields (TrimSpace v) with
    | f0 :: f1 :: fs =>
      match Atoi f0 with
      | Some n => Some (n, List.last (f1 :: fs) [])
      | None => None
      end
    | _ => None
    end
  end.

(** [parseRecvResponseFilter] *)
Definition parseRecvResponseFilter (response : str) : option Z :=
  match Fields (TrimSpace response) with
  | [] => None
  | f0 :: _ => Atoi f0
  end.

(** [ResponseStatusMatches] *)
Definition ResponseStatusMatches (msg : Message) (recvResp : str) : bool :=
  match parseRecvResponseFilter recvResp with
  | Some wantCode => StatusCode msg =? wantCode
  | None => false
  end.

(** [MatchRecv]: [pooled] is the scratch message [GetMessage] hands out. *)
Definition MatchRecv (pooled msg : Message) (request response lastSent : str) : bool :=
  match request with
  | _ :: _ => EqualFold (Method msg) request
  | [] =>
    match response with
    | [] => false
    | _ =>
      match parseRecvResponseFilter response with
      | None => false
      | Some wantCode =>
        if negb (StatusCode msg =? wantCode) then false else
        match lastSent with
        | [] => true
        | _ =>
          match ParseInto pooled lastSent with
          | Err _ => true
          | Ok req =>
            if negb (StatusCode req =? 0) || bool_decide (Method req = []) then true else
            match ParseCSeq (Headers req), ParseCSeq (Headers msg) with
            | Some (reqNum, reqMeth), Some (respNum, respMeth) =>
              (reqNum =? respNum) && EqualFold (TrimSpace reqMeth) (TrimSpace respMeth)
            | _, _ => true
            end
          end
        end
      end
    end
  end.

(** [Match] *)
Definition Match (msg : Message) (request response : str) : bool :=
  MatchRecv emptyMessage msg request response [].

(** [MatchRecvCached] *)
Definition MatchRecvCached (msg : Message) (request response : str)
    (cseqNum : Z) (cseqMethod : str) : bool :=
  match request with
  | _ :: _ => EqualFold (Method msg) request
  | [] =>
    match response with
    | [] => false
    | _ =>
      match parseRecvResponseFilter response with
      | None => false
      | Some wantCode =>
        if negb (StatusCode msg =? wantCode) then false else
        match cseqMethod with
        | [] => true
        | _ =>
          match ParseCSeq (Headers msg) with
          | None => true
          | Some (respNum, respMeth) =>
            (cseqNum =? respNum) && EqualFold cseqMethod (TrimSpace respMeth)
          end
        end
      end
    end
  end.

(** ** Via *)

Definition is_blank (b : byte) : bool := beqb b x20 || beqb b x09.

Definition byte_ci (b lower upper : byte) : bool := beqb b lower || beqb b upper.

(** The text after [branch=], when the parameter starts here. *)
Definition branch_value (s : str) : option str :=
  match s with
  | b1 :: b2 :: b3 :: b4 :: b5 :: b6 :: b7 :: rest =>
    if byte_ci b1 x62 x42 && byte_ci b2 x72 x52 && byte_ci b3 x61 x41 && byte_ci b4 x6e x4e
       && byte_ci b5 x63 x43 && byte_ci b6 x68 x48 && beqb b7 x3d
    then Some rest else None
  | _ => None
  end.

(** The scan for [;branch=] of [ViaBranch]. *)
Fixpoint scan_branch (s : str) : option str :=
  match s with
  | [] => None
  | a :: r =>
    if beqb a x3b then
      match branch_value (trim_left_set is_blank r) with
      | Some rest =>
        match IndexByte x3b rest with
        | Some e => Some (TrimSpace (take e rest))
        | None => Some (TrimSpace rest)
        end
      | None => scan_branch r
      end
    else scan_branch r
  end.

(** [ViaBranch] *)
Definition ViaBranch (h : headers) : option str :=
  match Header h (lit "Via") with
  | Some val => scan_branch val
  | None => None
  end.

(** [ResponseMatchesTransaction] *)
Definition ResponseMatchesTransaction (pooled msg : Message) (lastSent : str) : bool :=
  match lastSent with
  | [] => true
  | _ =>
    match ParseInto pooled lastSent with
    | Err _ => true
    | Ok req =>
      if negb (StatusCode req =? 0) || bool_decide (Method req = []) then true else
      match ViaBranch (Headers req), ViaBranch (Headers msg) with
      | Some reqBranch, Some respBranch =>
        if negb (EqualFold reqBranch respBranch) then false else
        match ParseCSeq (Headers req), ParseCSeq (Headers msg) with
        | Some (_, reqMeth), Some (_, respMeth) =>
          EqualFold (TrimSpace reqMeth) (TrimSpace respMeth)
        | _, _ => true
        end
      | _, _ => true
      end
    end
  end.

(** [ResponseMatchesCached] *)
Definition ResponseMatchesCached (msg : Message) (branch method : str) : bool :=
  match branch with
  | [] => true
  | _ =>
    match ViaBranch (Headers msg) with
    | None => true
    | Some respBranch =>
      if negb (EqualFold branch respBranch) then false else
      match method with
      | [] => true
      | _ =>
        match ParseCSeq (Headers msg) with
        | None => true
        | Some (_, respMeth) => EqualFold method (TrimSpace respMeth)
        end
      end
    end
  end.

(** [ViaSentBy] *)
Definition ViaSentBy (h : headers) : option (str * Z) :=
  match Header h (lit "Via") with
  | None => None
  | Some val =>
    let part0 := match IndexByte x3b val with Some i => take i val | None => val end in
    let sentBy := TrimSpace part0 in
    let sentBy := match LastIndex sentBy [x20] with
                  | Some idx => TrimSpace (drop (S idx) sentBy)
                  | None => sentBy
                  end in
    match sentBy with
    | [] => None
    | _ =>
      let '(host, port) :=
        match LastIndex sentBy [x3a] with
        | Some colon =>
          (take colon sentBy,
           match Atoi (drop (S colon) sentBy) with
           | Some p => if (0 <? p) && (p <? 65536) then p else 5060
           | None => 5060
           end)
        | None => (sentBy, 5060)
        end in
      match TrimSpace host with
      | [] => None
      | host => Some (host, port)
      end
    end
  end.

(** ** Responses *)

Definition crlf : str := [x0d; x0a].

Definition header_line (name value : str) : str := name ++ lit ": " ++ value ++ crlf.

(** [writeHdr] of [BuildResponse]. *)
Definition writeHdr (h : headers) (name : str) (aliases : list str) : str :=
  match Header h name with
  | Some v => header_line name v
  | None =>
    (fix go (l : list str) : str :=
       match l with
       | [] => []
       | a :: l' => match Header h a with
                    | Some v => header_line name v
                    | None => go l'
                    end
       end) aliases
  end.

(** [BuildResponse] *)
Definition BuildResponse (req : Message) (statusCode : Z) (reason : str) : str :=
  let h := Headers req in
  sip_version ++ Itoa statusCode ++ [x20] ++ reason ++ crlf
  ++ flat_map (fun key => match hdr_get key h with
                          | Some vals => flat_map (header_line (lit "Via")) vals
                          | None => []
                          end) [lit "Via"; lit "via"; lit "v"]
  ++ writeHdr h (lit "From") [lit "f"]
  ++ writeHdr h (lit "To") [lit "t"]
  ++ writeHdr h (lit "Call-ID") [lit "i"]
  ++ writeHdr h (lit "CSeq") []
  ++ lit "Content-Length: 0" ++ crlf
  ++ crlf.
