(* ===== verification/SipFacts.v ===== *)
(** * Correctness of [internal/sip/message.go]

    Header maps up to stale keys, the parser's round trip, pooled reuse, the
    cached matching helpers and generated responses. *)

From stdpp Require Import base list gmap strings.
From Stdlib Require Import ZArith Lia Strings.Byte.
From S2P Require Import Prelude GoStrings SipMessage.

(** ** Header maps up to stale keys

    A pooled message keeps keys whose slices were cut to length zero.  Two
    header maps are equivalent when every key has the same values. *)

Definition hdr_vals (k : str) (h : headers) : list str := default [] (hdr_get k h).

Definition hdr_eq (h1 h2 : headers) : Prop := forall k, hdr_vals k h1 = hdr_vals k h2.

#[global] Instance hdr_eq_equiv : Equivalence hdr_eq.
Proof.
  split.
  - intros h k. done.
  - intros h1 h2 H k. by rewrite H.
  - intros h1 h2 h3 H1 H2 k. by rewrite H1, H2.
Qed.

Lemma hdr_vals_append k k' v h :
  hdr_vals k (hdr_append k' v h) = if decide (k' = k) then hdr_vals k h ++ v else hdr_vals k h.
Proof.
  unfold hdr_vals. induction h as [|[q vs] h IH]; simpl.
  - by destruct (decide (k' = k)).
  - destruct (decide (q = k')) as [->|Hq]; simpl.
    + by destruct (decide (k' = k)).
    + destruct (decide (q = k)) as [->|]; [by destruct (decide (k' = k))|done].
Qed.

#[global] Instance hdr_append_proper k v : Proper (hdr_eq ==> hdr_eq) (hdr_append k v).
Proof. intros h1 h2 H q. rewrite !hdr_vals_append. by rewrite H. Qed.

Lemma hdr_truncate_eq h : hdr_eq (hdr_truncate h) [].
Proof.
  intros k. unfold hdr_vals. induction h as [|[q vs] h IH]; simpl; [done|].
  by destruct (decide (q = k)).
Qed.

Definition hdr_keys (h : headers) : list str := map fst h.

Lemma hdr_append_keys k v h :
  hdr_keys (hdr_append k v h) = hdr_keys h ++ (if decide (k ∈ hdr_keys h) then [] else [k]).
Proof.
  unfold hdr_keys. induction h as [|[q vs] h IH]; simpl; [done|].
  destruct (decide (q = k)) as [->|Hq]; simpl.
  - rewrite decide_True by set_solver. by rewrite app_nil_r.
  - rewrite IH. destruct (decide (k ∈ map fst h)) as [Hin|Hnin].
    + rewrite decide_True by set_solver. done.
    + rewrite decide_False by set_solver. done.
Qed.

Lemma hdr_append_NoDup k v h : NoDup (hdr_keys h) -> NoDup (hdr_keys (hdr_append k v h)).
Proof.
  intros H. rewrite hdr_append_keys. destruct (decide _); [by rewrite app_nil_r|].
  apply NoDup_app. split; [done|]. split; [set_solver|]. apply NoDup_singleton.
Qed.

Lemma hdr_truncate_keys h : hdr_keys (hdr_truncate h) = hdr_keys h.
Proof. unfold hdr_keys, hdr_truncate. induction h as [|[q vs] h IH]; simpl; by f_equal. Qed.

Lemma hdr_get_elem k h vs : NoDup (hdr_keys h) -> (k, vs) ∈ h -> hdr_get k h = Some vs.
Proof.
  unfold hdr_keys. induction h as [|[q ws] h IH]; intros Hnd Hin; [set_solver|].
  simpl in *. apply NoDup_cons in Hnd as [Hq Hnd].
  apply elem_of_cons in Hin as [Heq|Hin]; [simplify_eq; by rewrite decide_True|].
  rewrite decide_False; [by apply IH|].
  intros ->. apply Hq, list_elem_of_In. apply list_elem_of_In, (in_map fst) in Hin. done.
Qed.

Lemma hdr_get_in k h vs : hdr_get k h = Some vs -> (k, vs) ∈ h.
Proof.
  induction h as [|[q ws] h IH]; simpl; [done|].
  destruct (decide (q = k)) as [->|]; intros H; simplify_eq; set_solver.
Qed.

(** At most one live key of the map folds to [name]: lookups of [name] do not
    depend on the order of [range]. *)
Definition unambiguous (name : str) (h : headers) : Prop :=
  forall k1 k2, EqualFold k1 name = true -> EqualFold k2 name = true ->
    hdr_vals k1 h <> [] -> hdr_vals k2 h <> [] -> k1 = k2.

Lemma unambiguous_proper name h1 h2 : hdr_eq h1 h2 -> unambiguous name h1 -> unambiguous name h2.
Proof. intros He Hu k1 k2 ??. rewrite <- !He. auto. Qed.

Lemma Header_Some h name v :
  NoDup (hdr_keys h) -> Header h name = Some v ->
  exists k vs, EqualFold k name = true /\ hdr_vals k h = v :: vs.
Proof.
  intros Hnd H. assert (exists k vs, EqualFold k name = true /\ (k, v :: vs) ∈ h) as (k & vs & Hk & Hin).
  { clear Hnd. induction h as [|[q ws] h IH]; simpl in H; [done|].
    destruct (EqualFold q name) eqn:E; [destruct ws as [|w ws]|].
    - destruct (IH H) as (k & vs & ? & ?). exists k, vs. set_solver.
    - simplify_eq. exists q, ws. set_solver.
    - destruct (IH H) as (k & vs & ? & ?). exists k, vs. set_solver. }
  exists k, vs. split; [done|]. unfold hdr_vals. by rewrite (hdr_get_elem k h (v :: vs)).
Qed.

Lemma Header_None h name k :
  Header h name = None -> EqualFold k name = true -> hdr_vals k h = [].
Proof.
  intros H Hk. unfold hdr_vals. induction h as [|[q ws] h IH]; simpl in *; [done|].
  destruct (decide (q = k)) as [->|].
  - rewrite Hk in H. by destruct ws.
  - apply IH. destruct (EqualFold q name); [by destruct ws | done].
Qed.

Lemma Header_eq h1 h2 name :
  NoDup (hdr_keys h1) -> NoDup (hdr_keys h2) -> hdr_eq h1 h2 -> unambiguous name h1 ->
  Header h1 name = Header h2 name.
Proof.
  intros N1 N2 He Hu.
  destruct (Header h1 name) as [v1|] eqn:E1, (Header h2 name) as [v2|] eqn:E2; [| | |done].
  - apply Header_Some in E1 as (k1 & vs1 & F1 & V1); [|done].
    apply Header_Some in E2 as (k2 & vs2 & F2 & V2); [|done].
    rewrite <- He in V2. assert (k1 = k2) as -> by (apply Hu; congruence). congruence.
  - apply Header_Some in E1 as (k1 & vs1 & F1 & V1); [|done].
    rewrite He, (Header_None h2 name) in V1; done.
  - apply Header_Some in E2 as (k2 & vs2 & F2 & V2); [|done].
    rewrite <- He, (Header_None h1 name) in V2; done.
Qed.

(** ** Well-formed messages *)

Definition clean (s : str) : Prop := trimmed s /\ x0a ∉ s.

(** Keys are distinct, clean and without a colon; values are clean. *)
Record hdr_wf (h : headers) : Prop := {
  hdr_wf_nodup : NoDup (hdr_keys h);
  hdr_wf_keys : Forall (fun kv => clean kv.1 /\ x3a ∉ kv.1) h;
  hdr_wf_vals : Forall (fun kv => Forall clean kv.2) h
}.

Lemma hdr_wf_nil : hdr_wf [].
Proof. split; constructor. Qed.

Lemma hdr_append_wf k v h :
  hdr_wf h -> clean k -> x3a ∉ k -> clean v -> hdr_wf (hdr_append k [v] h).
Proof.
  intros [Hn Hk Hv] Ck Ckc Cv. split; [by apply hdr_append_NoDup|..].
  - clear Hn Hv. induction Hk as [|[q vs] h Hq Hk IH]; simpl; [by apply Forall_singleton|].
    destruct (decide (q = k)); constructor; done.
  - clear Hn Hk. induction Hv as [|[q vs] h Hq Hv IH]; simpl; [by apply Forall_singleton, Forall_singleton|].
    destruct (decide (q = k)); constructor; simpl in *; auto.
    apply Forall_app. split; [done|]. by constructor.
Qed.

Lemma clean_TrimSpace s : x0a ∉ s -> clean (TrimSpace s).
Proof. intros H. split; [apply TrimSpace_idemp | by apply TrimSpace_notin]. Qed.

Lemma chomp_cr_notin s c : c ∉ s -> c ∉ chomp_cr s.
Proof.
  unfold chomp_cr. intros H. destruct (rev s) as [|a r] eqn:E; [done|].
  destruct (beqb a x0d); [|done]. intros Hin. apply H.
  rewrite <- (rev_involutive s), E. simpl. set_solver.
Qed.

Lemma parseHeaderLines_wf segs m m' :
  Forall (fun x => x0a ∉ x) segs -> hdr_wf (Headers m) ->
  parseHeaderLines segs m = Ok m' -> hdr_wf (Headers m').
Proof.
  revert m. induction segs as [|seg rest IH]; intros m Hs Hw H;
    cbn [parseHeaderLines] in H; [by simplify_eq|].
  inversion Hs as [|? ? Hseg Hrest]; subst.
  pose proof (chomp_cr_notin seg x0a Hseg) as Hc.
  destruct (chomp_cr seg) as [|a l] eqn:Ec.
  - destruct (Join rest [x0a]); by simplify_eq.
  - destruct (Cut (a :: l) x3a) as [[n v]|] eqn:Ecut; [|done].
    apply IH in H; [done|done|]. simpl.
    apply Cut_Some in Ecut as [Heq Hn]. rewrite Heq in Hc.
    apply not_elem_of_app_inv in Hc as [Hcn Hcv]. apply not_elem_of_cons in Hcv as [_ Hcv].
    apply hdr_append_wf; [done|by apply clean_TrimSpace|by apply TrimSpace_notin|by apply clean_TrimSpace].
Qed.

Lemma parseStartLine_frame line m m' :
  parseStartLine line m = Ok m' -> Headers m' = Headers m /\ Body m' = Body m /\ Raw m' = Raw m.
Proof. unfold parseStartLine. intros H. repeat case_hyp H; by simplify_eq. Qed.

Lemma parseBytes_wf raw m m' :
  hdr_wf (Headers m) -> parseBytes raw m = Ok m' -> hdr_wf (Headers m').
Proof.
  unfold parseBytes. intros Hw H. pose proof (Split_no_sep raw x0a) as Hsp.
  destruct (Split raw x0a) as [|seg rest]; [by simplify_eq|]. inversion Hsp; subst.
  destruct (TrimSpace (chomp_cr seg)) as [|a l]; [done|].
  apply rbind_ok in H as (m1 & Hm1 & H). apply parseStartLine_frame in Hm1 as (Hh & _).
  eapply parseHeaderLines_wf; [done| |done]. by rewrite Hh.
Qed.

(** ** Pooled reuse

    Two messages look the same when they agree on every field and their
    header maps agree on every live key. *)

Record view_eq (m1 m2 : Message) : Prop := {
  ve_start : StartLine m1 = StartLine m2;
  ve_method : Method m1 = Method m2;
  ve_uri : RequestURI m1 = RequestURI m2;
  ve_status : StatusCode m1 = StatusCode m2;
  ve_reason : Reason m1 = Reason m2;
  ve_body : Body m1 = Body m2;
  ve_raw : Raw m1 = Raw m2;
  ve_hdr : hdr_eq (Headers m1) (Headers m2)
}.

Definition res_view_eq (r1 r2 : result sip_error Message) : Prop :=
  match r1, r2 with
  | Ok m1, Ok m2 => view_eq m1 m2
  | Err e1, Err e2 => e1 = e2
  | _, _ => False
  end.

Lemma parseHeaderLines_view segs m1 m2 :
  view_eq m1 m2 -> res_view_eq (parseHeaderLines segs m1) (parseHeaderLines segs m2).
Proof.
  revert m1 m2. induction segs as [|seg rest IH]; intros m1 m2 Hv;
    cbn [parseHeaderLines]; [done|].
  destruct (chomp_cr seg) as [|a l].
  - destruct (Join rest [x0a]); [done|]. destruct Hv. by split.
  - destruct (Cut (a :: l) x3a) as [[n v]|]; [|done].
    apply IH. destruct Hv as [????? ?? Hh]. split; simpl; try done.
    by rewrite Hh.
Qed.

Lemma parseStartLine_view line m1 m2 :
  Method m1 = Method m2 -> RequestURI m1 = RequestURI m2 -> StatusCode m1 = StatusCode m2 ->
  Reason m1 = Reason m2 -> Body m1 = Body m2 -> Raw m1 = Raw m2 ->
  hdr_eq (Headers m1) (Headers m2) ->
  res_view_eq (parseStartLine line m1) (parseStartLine line m2).
Proof.
  intros. unfold parseStartLine. repeat case_goal; simpl; try done; by split.
Qed.

(** Parsing into any pooled message and parsing into a fresh one give the
    same view, or the same error. *)
Lemma ParseInto_view pooled raw : res_view_eq (ParseInto pooled raw) (Parse raw).
Proof.
  unfold ParseInto, Parse, parseBytes.
  destruct (Split raw x0a) as [|seg rest] eqn:Es; [by apply Split_nonempty in Es|].
  destruct (TrimSpace (chomp_cr seg)) as [|a l]; [done|].
  pose proof (parseStartLine_view (a :: l)
    (setRaw (mkMessage (StartLine pooled) [] [] 0 [] (hdr_truncate (Headers pooled)) []
       (Raw pooled)) raw)
    (setRaw emptyMessage raw) eq_refl eq_refl eq_refl eq_refl eq_refl eq_refl
    (hdr_truncate_eq _)) as Hs.
  destruct (parseStartLine _ _) as [m1|], (parseStartLine _ _) as [m2|]; simpl in *; try done.
  by apply parseHeaderLines_view.
Qed.

Lemma parseHeaderLines_NoDup segs m m' :
  NoDup (hdr_keys (Headers m)) -> parseHeaderLines segs m = Ok m' -> NoDup (hdr_keys (Headers m')).
Proof.
  revert m. induction segs as [|seg rest IH]; intros m Hn H;
    cbn [parseHeaderLines] in H; [by simplify_eq|].
  destruct (chomp_cr seg) as [|a l].
  - destruct (Join rest [x0a]); by simplify_eq.
  - destruct (Cut (a :: l) x3a) as [[n v]|]; [|done].
    apply IH in H; [done|]. by apply hdr_append_NoDup.
Qed.

Lemma ParseInto_NoDup pooled raw m :
  NoDup (hdr_keys (Headers pooled)) -> ParseInto pooled raw = Ok m -> NoDup (hdr_keys (Headers m)).
Proof.
  unfold ParseInto, parseBytes. intros Hn H.
  destruct (Split raw x0a) as [|seg rest];
    [simplify_eq; simpl; by rewrite hdr_truncate_keys|].
  destruct (TrimSpace (chomp_cr seg)) as [|a l]; [done|].
  apply rbind_ok in H as (m1 & Hm1 & H). apply parseStartLine_frame in Hm1 as (Hh & _).
  eapply parseHeaderLines_NoDup; [|done]. rewrite Hh. simpl. by rewrite hdr_truncate_keys.
Qed.

Lemma Parse_wf raw m : Parse raw = Ok m -> hdr_wf (Headers m).
Proof. apply parseBytes_wf, hdr_wf_nil. Qed.

(** Any lookup of an unambiguous header gives the same answer on the pooled
    parse as on the fresh one. *)
Lemma ParseInto_Header pooled raw m1 m2 name :
  NoDup (hdr_keys (Headers pooled)) ->
  ParseInto pooled raw = Ok m1 -> Parse raw = Ok m2 -> unambiguous name (Headers m2) ->
  Header (Headers m1) name = Header (Headers m2) name.
Proof.
  intros Hn H1 H2 Hu. pose proof (ParseInto_view pooled raw) as Hv.
  rewrite H1, H2 in Hv. simpl in Hv. destruct Hv as [??????? Hh].
  apply Header_eq; [by eapply ParseInto_NoDup|by apply hdr_wf_nodup, (Parse_wf raw)|done|].
  by eapply unambiguous_proper; [symmetry|].
Qed.

(** ** Round trip of a message on the wire *)

Definition render_headers (l : list (str * str)) : str :=
  flat_map (fun kv => header_line kv.1 kv.2) l.

(** The header map a list of header lines builds. *)
Definition add_headers (h : headers) (l : list (str * str)) : headers :=
  foldl (fun h kv => hdr_append kv.1 [kv.2] h) h l.

Definition clean_field (kv : str * str) : Prop :=
  clean kv.1 /\ x3a ∉ kv.1 /\ kv.1 <> [] /\ clean kv.2.

Lemma chomp_cr_snoc s : chomp_cr (s ++ [x0d]) = s.
Proof. unfold chomp_cr. rewrite rev_app_distr. simpl. apply rev_involutive. Qed.

Lemma Split_crlf s t : x0a ∉ s -> Split (s ++ crlf ++ t) x0a = (s ++ [x0d]) :: Split t x0a.
Proof.
  intros H. unfold crlf. replace (s ++ [x0d; x0a] ++ t) with ((s ++ [x0d]) ++ x0a :: t)
    by (by rewrite <- app_assoc).
  apply Split_segment. apply not_elem_of_app. split; [done|].
  apply not_elem_of_cons. split; [done|]. apply not_elem_of_nil.
Qed.

Lemma header_line_split k v t :
  clean k -> clean v ->
  Split (header_line k v ++ t) x0a = (k ++ lit ": " ++ v ++ [x0d]) :: Split t x0a.
Proof.
  intros [_ Hk] [_ Hv]. unfold header_line.
  rewrite <- !app_assoc.
  replace (k ++ lit ": " ++ v ++ crlf ++ t) with ((k ++ lit ": " ++ v) ++ crlf ++ t)
    by (by rewrite <- !app_assoc).
  rewrite Split_crlf; [by rewrite <- !app_assoc|].
  apply not_elem_of_app. split; [done|]. apply not_elem_of_app. split; [|done].
  apply not_elem_of_cons; split; [done|]. apply not_elem_of_cons; split; [done|].
  apply not_elem_of_nil.
Qed.

Lemma parseHeaderLines_field k v rest m :
  clean_field (k, v) ->
  parseHeaderLines ((k ++ lit ": " ++ v ++ [x0d]) :: rest) m
  = parseHeaderLines rest (setHeaders m (hdr_append k [v] (Headers m))).
Proof.
  intros ([Tk _] & Hc & Hne & [Tv _]). simpl in Tk, Hc, Hne, Tv. cbn [parseHeaderLines].
  replace (k ++ lit ": " ++ v ++ [x0d]) with ((k ++ lit ": " ++ v) ++ [x0d])
    by (by rewrite <- !app_assoc).
  rewrite chomp_cr_snoc.
  destruct (k ++ lit ": " ++ v) as [|a l] eqn:E; [by destruct k|]. rewrite <- E.
  change (k ++ lit ": " ++ v) with (k ++ x3a :: x20 :: v).
  rewrite Cut_app by done. rewrite Tk, TrimSpace_lead_blank by done. done.
Qed.

Lemma parseHeaderLines_render l body m :
  Forall clean_field l -> Body m = [] ->
  parseHeaderLines (Split (render_headers l ++ crlf ++ body) x0a) m
  = Ok (setBody (setHeaders m (add_headers (Headers m) l)) body).
Proof.
  intros Hl. revert m. induction Hl as [|[k v] l Hkv Hl IH]; intros m Hb.
  - change (render_headers [] ++ crlf ++ body) with ([] ++ crlf ++ body).
    rewrite Split_crlf by apply not_elem_of_nil. cbn [parseHeaderLines app].
    change (chomp_cr [x0d]) with (@nil byte). cbv beta iota.
    rewrite Join_Split. destruct m; simpl in *. subst. by destruct body.
  - change (render_headers ((k, v) :: l)) with (header_line k v ++ render_headers l).
    rewrite <- app_assoc. destruct Hkv as (Ck & Hc & Hne & Cv).
    rewrite header_line_split by done.
    rewrite parseHeaderLines_field by done. rewrite IH by done. done.
Qed.

(** [parseBytes] on a start line, clean header lines, a blank line and a body. *)
Lemma parseBytes_render sl l body m :
  clean sl -> sl <> [] -> Forall clean_field l -> Body m = [] ->
  let raw := sl ++ crlf ++ render_headers l ++ crlf ++ body in
  parseBytes raw m =
  let? m1 := parseStartLine sl (setRaw m raw) in
  Ok (setBody (setHeaders m1 (add_headers (Headers m1) l)) body).
Proof.
  intros [Ts Hs] Hne Hl Hb raw. unfold parseBytes, raw. rewrite Split_crlf by done.
  rewrite chomp_cr_snoc, Ts. destruct sl as [|a s]; [done|].
  destruct (parseStartLine (a :: s) _) as [m1|e] eqn:E; [|done]. simpl rbind.
  apply parseHeaderLines_render; [done|].
  apply parseStartLine_frame in E as (_ & -> & _). done.
Qed.

(** ** Lookups in a map built from header lines *)

Definition all_live (h : headers) : Prop := Forall (fun kv => kv.2 <> []) h.

Lemma hdr_append_live k v h : all_live h -> all_live (hdr_append k [v] h).
Proof.
  intros H. induction H as [|[q vs] h Hq Hh IH]; simpl; [by apply Forall_singleton|].
  destruct (decide (q = k)); constructor; simpl in *; auto. by destruct vs.
Qed.

Lemma Header_append k v h name :
  all_live h ->
  Header (hdr_append k [v] h) name =
  match Header h name with
  | Some x => Some x
  | None => if EqualFold k name then Some v else None
  end.
Proof.
  intros H. induction H as [|[q vs] h Hq Hh IH]; simpl; [done|].
  destruct (decide (q = k)) as [->|]; simpl.
  - destruct vs as [|w vs]; [done|]. simpl. by destruct (EqualFold k name), (Header h name).
  - rewrite IH. destruct (EqualFold q name); [by destruct vs|done].
Qed.

Lemma Header_add_headers l h name :
  all_live h ->
  Header (add_headers h l) name =
  match Header h name with
  | Some x => Some x
  | None => snd <$> List.find (fun kv => EqualFold kv.1 name) l
  end.
Proof.
  revert h. induction l as [|[k v] l IH]; intros h Hh; simpl; [by destruct (Header h name)|].
  unfold add_headers in *. simpl. rewrite IH by by apply hdr_append_live.
  rewrite Header_append by done.
  destruct (Header h name); [done|]. by destruct (EqualFold k name).
Qed.

Lemma hdr_vals_add_headers l h k :
  hdr_vals k (add_headers h l) = hdr_vals k h ++ map snd (List.filter (fun kv => bool_decide (kv.1 = k)) l).
Proof.
  revert h. induction l as [|[q v] l IH]; intros h; simpl; [by rewrite app_nil_r|].
  unfold add_headers in *. simpl. rewrite IH, hdr_vals_append.
  destruct (decide (q = k)) as [->|].
  - rewrite bool_decide_true by done. simpl. by rewrite <- app_assoc.
  - by rewrite bool_decide_false.
Qed.

Lemma add_headers_NoDup l h : NoDup (hdr_keys h) -> NoDup (hdr_keys (add_headers h l)).
Proof.
  revert h. induction l as [|[q v] l IH]; intros h Hn; simpl; [done|].
  unfold add_headers in *. simpl. apply IH. by apply hdr_append_NoDup.
Qed.

Lemma Header_clean h name v : hdr_wf h -> Header h name = Some v -> clean v.
Proof.
  intros [_ _ Hv] H. induction Hv as [|[q vs] h Hq Hv IH]; simpl in *; [done|].
  destruct (EqualFold q name); [destruct vs; [by apply IH|simplify_eq; by inversion Hq]|by apply IH].
Qed.

(** ** Generated responses *)

Definition hdr_alias (h : headers) (name : str) (aliases : list str) : option str :=
  match Header h name with
  | Some v => Some v
  | None => (fix go (l : list str) := match l with
             | [] => None
             | a :: l' => match Header h a with Some v => Some v | None => go l' end
             end) aliases
  end.

Definition opt_field (name : str) (o : option str) : list (str * str) :=
  match o with Some v => [(name, v)] | None => [] end.

Definition via_values (h : headers) : list str :=
  hdr_vals (lit "Via") h ++ hdr_vals (lit "via") h ++ hdr_vals (lit "v") h.

(** The header lines of a generated response, in order. *)
Definition response_fields (h : headers) : list (str * str) :=
  map (pair (lit "Via")) (via_values h)
  ++ opt_field (lit "From") (hdr_alias h (lit "From") [lit "f"])
  ++ opt_field (lit "To") (hdr_alias h (lit "To") [lit "t"])
  ++ opt_field (lit "Call-ID") (hdr_alias h (lit "Call-ID") [lit "i"])
  ++ opt_field (lit "CSeq") (hdr_alias h (lit "CSeq") [])
  ++ [(lit "Content-Length", lit "0")].

Definition status_line (code : Z) (reason : str) : str :=
  sip_version ++ Itoa code ++ [x20] ++ reason.

Lemma writeHdr_render h name aliases :
  writeHdr h name aliases = render_headers (opt_field name (hdr_alias h name aliases)).
Proof.
  unfold writeHdr, hdr_alias, render_headers.
  destruct (Header h name); simpl; [by rewrite app_nil_r|].
  induction aliases as [|a l IH]; simpl; [done|].
  destruct (Header h a); [simpl; by rewrite app_nil_r | done].
Qed.

Lemma render_headers_app l1 l2 : render_headers (l1 ++ l2) = render_headers l1 ++ render_headers l2.
Proof. unfold render_headers. by rewrite flat_map_app. Qed.

Lemma via_lines_render h k :
  match hdr_get k h with Some vals => flat_map (header_line (lit "Via")) vals | None => [] end
  = render_headers (map (pair (lit "Via")) (hdr_vals k h)).
Proof.
  unfold hdr_vals, render_headers. destruct (hdr_get k h) as [vs|]; [|done]. simpl.
  induction vs; simpl; [done|]. by rewrite IHvs.
Qed.

Lemma BuildResponse_render req code reason :
  BuildResponse req code reason =
  status_line code reason ++ crlf ++ render_headers (response_fields (Headers req)) ++ crlf ++ [].
Proof.
  unfold BuildResponse, response_fields, status_line, via_values.
  rewrite !writeHdr_render. cbn [flat_map]. rewrite !via_lines_render.
  rewrite !map_app, !render_headers_app, !app_nil_r.
  replace (render_headers [(lit "Content-Length", lit "0")])
    with (lit "Content-Length: 0" ++ crlf) by reflexivity.
  by rewrite <- !app_assoc.
Qed.

Lemma clean_lit s : bool_decide (trimmed (lit s)) && bool_decide (x0a ∉ lit s) = true -> clean (lit s).
Proof. intros H. bool_to_prop. by split. Qed.

Lemma clean_opt_field h name aliases :
  hdr_wf h -> clean name -> x3a ∉ name -> name <> [] ->
  Forall clean_field (opt_field name (hdr_alias h name aliases)).
Proof.
  intros Hw Cn Hc Hne. destruct (hdr_alias h name aliases) as [v|] eqn:E; [|constructor].
  apply Forall_singleton. repeat split; try apply Cn; try done;
  (assert (clean v) as [? ?]; [|done]);
  (unfold hdr_alias in E; destruct (Header h name) as [w|] eqn:E1;
    [simplify_eq; by eapply Header_clean|]);
  (clear E1; induction aliases as [|a l IH]; [done|];
    destruct (Header h a) as [w|] eqn:E2; [simplify_eq; by eapply Header_clean | by apply IH]).
Qed.

Lemma hdr_vals_clean k h : hdr_wf h -> Forall clean (hdr_vals k h).
Proof.
  intros [_ _ Hv]. unfold hdr_vals. destruct (hdr_get k h) as [vs|] eqn:E; [|constructor].
  apply hdr_get_in in E. rewrite Forall_forall in Hv. by apply (Hv (k, vs)).
Qed.

Ltac solve_lit := first
  [ apply clean_lit; vm_compute; reflexivity
  | apply (bool_decide_unpack _); vm_compute; reflexivity
  | done ].

Lemma response_fields_clean h : hdr_wf h -> Forall clean_field (response_fields h).
Proof.
  intros Hw. unfold response_fields, via_values.
  repeat (apply Forall_app; split); try (apply clean_opt_field; [done|solve_lit..]).
  - apply Forall_map. rewrite !Forall_app.
    assert (Hone : forall k, Forall (fun v => clean_field (lit "Via", v)) (hdr_vals k h)).
    { intros k. eapply Forall_impl; [by apply hdr_vals_clean|]. intros v Cv.
      split; [solve_lit|]. split; [solve_lit|]. split; [solve_lit|done]. }
    auto.
  - apply Forall_singleton. split; [solve_lit|]. split; [solve_lit|]. split; solve_lit.
Qed.

(** ** Start lines *)

Lemma status_line_clean code reason :
  clean reason -> reason <> [] -> clean (status_line code reason).
Proof.
  intros [Tr Hr] Hne. unfold status_line. split.
  - apply TrimSpace_id; [by apply starts_space_plain|].
    replace (sip_version ++ Itoa code ++ [x20] ++ reason)
      with ((sip_version ++ Itoa code) ++ x20 :: reason) by (by rewrite <- app_assoc).
    apply ends_space_blank; [done|]. by apply trimmed_ends.
  - repeat (apply not_elem_of_app; split); try done; try solve_lit.
    by apply Itoa_notin.
Qed.

Lemma parseStartLine_status code reason m :
  in_int64 code = true -> reason <> [] ->
  parseStartLine (status_line code reason) m =
  Ok (mkMessage (status_line code reason) (Method m) (RequestURI m) code reason
        (Headers m) (Body m) (Raw m)).
Proof.
  intros Hc Hne. unfold parseStartLine, status_line.
  rewrite HasPrefix_app.
  assert (Nat.ltb 8 (length (sip_version ++ Itoa code ++ [x20] ++ reason)) = true) as ->.
  { apply Nat.ltb_lt. rewrite !length_app. pose proof (Itoa_nonempty code).
    destruct (Itoa code); [done|]. simpl. lia. }
  rewrite andb_true_l, (drop_app_exact sip_version) by reflexivity.
  change ([x20] ++ reason) with (x20 :: reason).
  rewrite IndexByte_app by by apply Itoa_notin.
  rewrite take_app_length, Atoi_Itoa by done.
  replace (S (length (Itoa code))) with (length (Itoa code ++ [x20]))
    by (rewrite length_app; simpl; lia).
  replace (Itoa code ++ x20 :: reason) with ((Itoa code ++ [x20]) ++ reason)
    by (by rewrite <- app_assoc).
  by rewrite drop_app_length.
Qed.

Definition request_line (method uri : str) : str :=
  method ++ [x20] ++ uri ++ [x20] ++ lit "SIP/2.0".

Lemma parseStartLine_request method uri m :
  x20 ∉ method -> x20 ∉ uri -> HasPrefix (request_line method uri) sip_version = false ->
  parseStartLine (request_line method uri) m =
  Ok (mkMessage (request_line method uri) method uri (StatusCode m) (Reason m)
        (Headers m) (Body m) (Raw m)).
Proof.
  intros Hm Hu Hp. unfold parseStartLine. rewrite Hp, andb_false_r.
  unfold request_line. simpl.
  rewrite IndexByte_app by done.
  replace (drop (S (length method)) (method ++ x20 :: uri ++ x20 :: lit "SIP/2.0"))
    with (uri ++ x20 :: lit "SIP/2.0").
  - rewrite IndexByte_app by done. by rewrite !take_app_length.
  - replace (S (length method)) with (length (method ++ [x20]))
      by (rewrite length_app; simpl; lia).
    replace (method ++ x20 :: uri ++ x20 :: lit "SIP/2.0")
      with ((method ++ [x20]) ++ uri ++ x20 :: lit "SIP/2.0") by (by rewrite <- app_assoc).
    by rewrite drop_app_length.
Qed.

Lemma BuildResponse_parse req code reason :
  hdr_wf (Headers req) -> in_int64 code = true -> clean reason -> reason <> [] ->
  Parse (BuildResponse req code reason) =
  Ok (mkMessage (status_line code reason) [] [] code reason
        (add_headers [] (response_fields (Headers req))) [] (BuildResponse req code reason)).
Proof.
  intros Hw Hc Cr Hne. rewrite BuildResponse_render. unfold Parse.
  rewrite parseBytes_render; [|by apply status_line_clean| |by apply response_fields_clean|done].
  - by rewrite parseStartLine_status.
  - unfold status_line. done.
Qed.

(** Lookup of one of the copied headers in the response. *)
Lemma response_lookup h name o :
  (forall v, EqualFold (lit "Via") name = false \/ v ∉ via_values h) ->
  List.find (fun kv => EqualFold kv.1 name)
    (opt_field (lit "From") (hdr_alias h (lit "From") [lit "f"])
     ++ opt_field (lit "To") (hdr_alias h (lit "To") [lit "t"])
     ++ opt_field (lit "Call-ID") (hdr_alias h (lit "Call-ID") [lit "i"])
     ++ opt_field (lit "CSeq") (hdr_alias h (lit "CSeq") [])
     ++ [(lit "Content-Length", lit "0")]) = o ->
  Header (add_headers [] (response_fields h)) name = snd <$> o.
Proof.
  intros Hvia Ho. rewrite Header_add_headers by constructor. unfold response_fields.
  cbn [Header]. f_equal. rewrite <- Ho.
  induction (via_values h) as [|v vs IH]; [done|]. cbn [map app List.find fst].
  destruct (Hvia v) as [Hv|Hv]; [|set_solver]. rewrite Hv.
  apply IH. intros w. destruct (Hvia w); [by left | right; set_solver].
Qed.

Lemma parse_request_fields method uri l body :
  x20 ∉ method -> x20 ∉ uri -> clean (request_line method uri) ->
  HasPrefix (request_line method uri) sip_version = false ->
  Forall clean_field l ->
  exists m, Parse (request_line method uri ++ crlf ++ render_headers l ++ crlf ++ body) = Ok m
    /\ Method m = method /\ RequestURI m = uri /\ StatusCode m = 0 /\ Body m = body
    /\ forall k, hdr_vals k (Headers m)
               = map snd (List.filter (fun kv => bool_decide (kv.1 = k)) l).
Proof.
  intros Hm Hu Cr Hp Hl. unfold Parse.
  assert (Hne : request_line method uri <> []) by (unfold request_line; by destruct method).
  rewrite parseBytes_render, parseStartLine_request by done.
  eexists. split; [reflexivity|]. repeat split; try done.
  intros k. simpl. by rewrite hdr_vals_add_headers.
Qed.

(** * Properties *)

(** C4: Parsing a request written as start line, header lines, blank line and
    body recovers the method, the request URI, every header's values in order
    and the body byte for byte. *)
Theorem parse_render_request method uri l body :
  x20 ∉ method -> x20 ∉ uri -> clean (request_line method uri) ->
  HasPrefix (request_line method uri) sip_version = false ->
  Forall clean_field l ->
  exists m, Parse (request_line method uri ++ crlf ++ render_headers l ++ crlf ++ body) = Ok m
    /\ Method m = method /\ RequestURI m = uri /\ StatusCode m = 0 /\ Body m = body
    /\ forall k, hdr_vals k (Headers m)
               = map snd (List.filter (fun kv => bool_decide (kv.1 = k)) l).
Proof. apply parse_request_fields. Qed.

Lemma parse_render_request_witness :
  exists m, Parse (request_line (lit "INVITE") (lit "sip:a@b") ++ crlf
                   ++ render_headers [(lit "Via", lit "x"); (lit "To", lit "y"); (lit "Via", lit "z")]
                   ++ crlf ++ lit "body") = Ok m
    /\ Method m = lit "INVITE" /\ RequestURI m = lit "sip:a@b" /\ StatusCode m = 0
    /\ Body m = lit "body"
    /\ forall k, hdr_vals k (Headers m) = map snd (List.filter (fun kv => bool_decide (kv.1 = k))
         [(lit "Via", lit "x"); (lit "To", lit "y"); (lit "Via", lit "z")]).
Proof.
  apply (parse_render_request (lit "INVITE") (lit "sip:a@b")
    [(lit "Via", lit "x"); (lit "To", lit "y"); (lit "Via", lit "z")] (lit "body")).
  - solve_lit.
  - solve_lit.
  - split; [reflexivity | solve_lit].
  - reflexivity.
  - repeat apply Forall_cons_2; try apply Forall_nil_2;
      (split; [solve_lit|]; split; [solve_lit|]; split; solve_lit).
Defined.

(** A parsed message always has distinct header names without a colon, and
    names and values that are trimmed and hold no line feed. *)
Theorem parse_wellformed raw m : Parse raw = Ok m -> hdr_wf (Headers m).
Proof. apply Parse_wf. Qed.

Lemma parse_wellformed_witness :
  exists m, Parse (lit "OPTIONS sip:a SIP/2.0" ++ crlf ++ lit "Via : x " ++ crlf) = Ok m
            /\ hdr_wf (Headers m).
Proof.
  eexists. split; [vm_compute; reflexivity|].
  apply (parse_wellformed (lit "OPTIONS sip:a SIP/2.0" ++ crlf ++ lit "Via : x " ++ crlf)).
  vm_compute. reflexivity.
Defined.

(** Parsing into a pooled message, whatever a previous use left in it, fails
    exactly when parsing into a fresh one does and with the same error, and
    otherwise yields the same fields and the same values for every header. *)
Theorem pooled_parse_equivalent pooled raw : res_view_eq (ParseInto pooled raw) (Parse raw).
Proof. apply ParseInto_view. Qed.

(** A response generated for any well-formed request parses back to the
    status and reason it was built with, an empty body, the request's Via
    values in order, and its From, To, Call-ID and CSeq (or the compact alias). *)
Theorem build_response_parses req code reason :
  hdr_wf (Headers req) -> in_int64 code = true -> clean reason -> reason <> [] ->
  exists m, Parse (BuildResponse req code reason) = Ok m
    /\ StatusCode m = code /\ Reason m = reason /\ Method m = [] /\ Body m = []
    /\ hdr_vals (lit "Via") (Headers m) = via_values (Headers req)
    /\ Header (Headers m) (lit "From") = hdr_alias (Headers req) (lit "From") [lit "f"]
    /\ Header (Headers m) (lit "To") = hdr_alias (Headers req) (lit "To") [lit "t"]
    /\ Header (Headers m) (lit "Call-ID") = hdr_alias (Headers req) (lit "Call-ID") [lit "i"]
    /\ Header (Headers m) (lit "CSeq") = hdr_alias (Headers req) (lit "CSeq") []
    /\ Header (Headers m) (lit "Content-Length") = Some (lit "0").
Proof.
  intros Hw Hc Cr Hne. eexists. split; [by apply BuildResponse_parse|].
  split; [done|]. split; [done|]. split; [done|]. split; [done|]. cbn [Headers].
  split.
  { rewrite hdr_vals_add_headers. unfold response_fields.
    rewrite List.filter_app, map_app. cbn [hdr_vals hdr_get default app].
    assert (Hnone : forall name o, bool_decide (name = lit "Via") = false ->
      List.filter (fun kv => bool_decide (kv.1 = lit "Via")) (opt_field name o) = []).
    { intros name [v|] E; simpl; [by rewrite E | done]. }
    rewrite !List.filter_app, !Hnone by reflexivity.
    replace (map snd _) with (via_values (Headers req)); [by rewrite app_nil_r|].
    induction (via_values (Headers req)) as [|v vs IH]; [done|].
    cbn [map List.filter fst]. rewrite bool_decide_true by done. cbn [map snd]. by f_equal. }
  repeat split;
    (erewrite response_lookup; [|intros; left; reflexivity|reflexivity]);
    destruct (hdr_alias _ (lit "From") _), (hdr_alias _ (lit "To") _),
      (hdr_alias _ (lit "Call-ID") _), (hdr_alias _ (lit "CSeq") _); reflexivity.
Qed.

Lemma build_response_parses_witness :
  let req := mkMessage [] (lit "BYE") [] 0 [] [(lit "Via", [lit "x"; lit "y"]); (lit "i", [lit "id"])] [] [] in
  exists m, Parse (BuildResponse req 200 (lit "OK")) = Ok m
    /\ StatusCode m = 200 /\ Reason m = lit "OK" /\ Method m = [] /\ Body m = []
    /\ hdr_vals (lit "Via") (Headers m) = via_values (Headers req)
    /\ Header (Headers m) (lit "From") = hdr_alias (Headers req) (lit "From") [lit "f"]
    /\ Header (Headers m) (lit "To") = hdr_alias (Headers req) (lit "To") [lit "t"]
    /\ Header (Headers m) (lit "Call-ID") = hdr_alias (Headers req) (lit "Call-ID") [lit "i"]
    /\ Header (Headers m) (lit "CSeq") = hdr_alias (Headers req) (lit "CSeq") []
    /\ Header (Headers m) (lit "Content-Length") = Some (lit "0").
Proof.
  intros req. apply (build_response_parses req 200 (lit "OK")); [|reflexivity|solve_lit|done].
  split.
  - apply (bool_decide_unpack _). reflexivity.
  - repeat apply Forall_cons_2; try apply Forall_nil_2; (split; solve_lit).
  - repeat apply Forall_cons_2; try apply Forall_nil_2; cbn; solve_lit.
Defined.

(** A status line whose reason phrase is empty ("SIP/2.0 200 " and a line
    break) is refused, because the line is trimmed before the blank after the
    code is looked for. *)
Theorem empty_reason_rejected code rest :
  Parse (status_line code [] ++ crlf ++ rest) = Err (ErrStatusLine (sip_version ++ Itoa code)).
Proof.
  unfold Parse, parseBytes, status_line. rewrite Split_crlf.
  2:{ repeat (apply not_elem_of_app; split); try solve_lit. by apply Itoa_notin. }
  rewrite chomp_cr_snoc.
  assert (Ht : TrimSpace (sip_version ++ Itoa code ++ [x20] ++ []) = sip_version ++ Itoa code).
  { unfold TrimSpace. rewrite trim_left_space_id by by apply starts_space_plain.
    unfold trim_right_space. rewrite app_nil_r, app_assoc, rev_app_distr. simpl.
    change (trim_right_space (sip_version ++ Itoa code) = sip_version ++ Itoa code).
    apply trim_right_space_id. rewrite <- (rev_involutive (Itoa code)).
    pose proof (Itoa_plain code) as Hp. pose proof (Itoa_nonempty code) as Hn.
    destruct (exists_last Hn) as (l & b & Heq). rewrite Heq in Hp |- *.
    rewrite rev_involutive, app_assoc. apply ends_space_plain.
    apply Forall_app in Hp as [_ Hp]. by inversion Hp. }
  rewrite Ht. destruct (sip_version ++ Itoa code) as [|a l] eqn:E; [done|].
  rewrite <- E. unfold parseStartLine. rewrite HasPrefix_app.
  replace (Nat.ltb 8 _) with true.
  2:{ symmetry. apply Nat.ltb_lt. rewrite length_app. pose proof (Itoa_nonempty code).
      destruct (Itoa code); [done|]. simpl. lia. }
  rewrite andb_true_l, (drop_app_exact sip_version) by reflexivity.
  rewrite (proj2 (IndexByte_None (Itoa code) x20)) by by apply Itoa_notin. done.
Qed.
