(* ===== verification/SipMatch.v ===== *)
(** * Matching responses to requests ([internal/sip/message.go])

    The cached matchers of the call engine agree with the ones that re-parse
    the last request; generated responses belong to their request's
    transaction; Call-ID normalisation and Via sent-by. *)

From stdpp Require Import base list gmap strings.
From Stdlib Require Import ZArith Lia Strings.Byte.
From S2P Require Import Prelude GoStrings SipMessage SipFacts.

(** ** Lookups that go through [Header] *)

Lemma ParseCSeq_Header h1 h2 :
  Header h1 (lit "CSeq") = Header h2 (lit "CSeq") -> ParseCSeq h1 = ParseCSeq h2.
Proof. unfold ParseCSeq. by intros ->. Qed.

Lemma ViaBranch_Header h1 h2 :
  Header h1 (lit "Via") = Header h2 (lit "Via") -> ViaBranch h1 = ViaBranch h2.
Proof. unfold ViaBranch. by intros ->. Qed.

(** The method of a parsed CSeq is a non-blank field. *)
Lemma ParseCSeq_method h n meth : ParseCSeq h = Some (n, meth) -> TrimSpace meth <> [].
Proof.
  unfold ParseCSeq. intros H. destruct (Header h _) as [v|]; [|done].
  pose proof (Fields_good (TrimSpace v)) as Hg.
  destruct (Fields (TrimSpace v)) as [|f0 [|f1 fs]]; [done|done|].
  destruct (Atoi f0); simplify_eq. apply good_field_not_blank.
  inversion Hg as [|? ? _ Hg']; subst. rewrite Forall_forall in Hg'. apply Hg'.
  clear. revert f1. induction fs as [|g fs IH]; intros f1; [set_solver|].
  change (List.last (f1 :: g :: fs) []) with (List.last (g :: fs) []).
  apply elem_of_cons. right. apply IH.
Qed.

(** The scratch parse of [lastSent] sees what a fresh parse sees. *)
Lemma scratch_view pooled raw req :
  NoDup (hdr_keys (Headers pooled)) -> Parse raw = Ok req ->
  exists req', ParseInto pooled raw = Ok req'
    /\ Method req' = Method req /\ StatusCode req' = StatusCode req
    /\ forall name, unambiguous name (Headers req) ->
         Header (Headers req') name = Header (Headers req) name.
Proof.
  intros Hn Hp. pose proof (ParseInto_view pooled raw) as Hv. rewrite Hp in Hv.
  destruct (ParseInto pooled raw) as [req'|] eqn:E; [|done]. simpl in Hv.
  exists req'. destruct Hv. repeat split; try done.
  intros name Hu. by eapply ParseInto_Header.
Qed.

(** Hypotheses shared by the matching theorems: [raw] is a request this side
    sent, and the headers looked at are not spelled in two ways. *)
Section Sent.
Context (pooled : Message) (raw : str) (req : Message).
Context (Hpool : NoDup (hdr_keys (Headers pooled))).
Context (Hparse : Parse raw = Ok req).
Context (Hreq : Method req <> []) (Hstatus : StatusCode req = 0).
Context (Hcseq : unambiguous (lit "CSeq") (Headers req)).
Context (Hvia : unambiguous (lit "Via") (Headers req)).

Lemma sent_nonempty {A} (x y : A) : match raw with [] => x | _ :: _ => y end = y.
Proof using Hparse. destruct raw; [by vm_compute in Hparse | done]. Qed.

Lemma sent_scratch :
  exists req', ParseInto pooled raw = Ok req'
    /\ negb (StatusCode req' =? 0) || bool_decide (Method req' = []) = false
    /\ ParseCSeq (Headers req') = ParseCSeq (Headers req)
    /\ ViaBranch (Headers req') = ViaBranch (Headers req).
Proof.
  destruct (scratch_view pooled raw req Hpool Hparse) as (req' & Hp & Hm & Hs & Hh).
  exists req'. split; [done|]. split.
  - rewrite Hs, Hstatus, Hm. by rewrite bool_decide_false.
  - split; [apply ParseCSeq_Header | apply ViaBranch_Header]; by apply Hh.
Qed.

Lemma MatchRecv_unfold msg request response :
  MatchRecv pooled msg request response raw =
  match request with
  | _ :: _ => EqualFold (Method msg) request
  | [] =>
    match response, parseRecvResponseFilter response with
    | [], _ => false
    | _, None => false
    | _, Some want =>
      if StatusCode msg =? want then
        match ParseCSeq (Headers req), ParseCSeq (Headers msg) with
        | Some (n1, m1), Some (n2, m2) => (n1 =? n2) && EqualFold (TrimSpace m1) (TrimSpace m2)
        | _, _ => true
        end
      else false
    end
  end.
Proof.
  unfold MatchRecv. destruct request; [|done]. destruct response; [done|].
  destruct (parseRecvResponseFilter _) as [w|]; [|done].
  destruct (StatusCode msg =? w); [|done]. cbn [negb].
  rewrite sent_nonempty.
  destruct sent_scratch as (req' & Hp & Hg & Hc & _). by rewrite Hp, Hg, Hc.
Qed.

Lemma ResponseMatches_unfold msg :
  ResponseMatchesTransaction pooled msg raw =
  match ViaBranch (Headers req), ViaBranch (Headers msg) with
  | Some b1, Some b2 =>
    if EqualFold b1 b2 then
      match ParseCSeq (Headers req), ParseCSeq (Headers msg) with
      | Some (_, m1), Some (_, m2) => EqualFold (TrimSpace m1) (TrimSpace m2)
      | _, _ => true
      end
    else false
  | _, _ => true
  end.
Proof.
  unfold ResponseMatchesTransaction.
  rewrite sent_nonempty.
  destruct sent_scratch as (req' & Hp & Hg & Hc & Hb).
  rewrite Hp, Hg, Hc, Hb. destruct (ViaBranch (Headers req)), (ViaBranch (Headers msg)); try done.
  by destruct (EqualFold _ _).
Qed.
End Sent.

(** The cached filter on what the parser extracted from the request. *)
Lemma match_recv_cached_agree pooled raw req num meth msg request response :
  NoDup (hdr_keys (Headers pooled)) -> Parse raw = Ok req ->
  Method req <> [] -> StatusCode req = 0 ->
  unambiguous (lit "CSeq") (Headers req) -> unambiguous (lit "Via") (Headers req) ->
  ParseCSeq (Headers req) = Some (num, meth) ->
  MatchRecvCached msg request response num (TrimSpace meth)
  = MatchRecv pooled msg request response raw.
Proof.
  intros Hn Hp Hm Hs Hu Hv Hc. rewrite (MatchRecv_unfold _ _ req) by done.
  unfold MatchRecvCached. destruct request; [|done]. destruct response; [done|].
  destruct (parseRecvResponseFilter _) as [w|]; [|done].
  destruct (StatusCode msg =? w); [|done]. cbn [negb]. rewrite Hc.
  pose proof (ParseCSeq_method _ _ _ Hc). destruct (TrimSpace meth); [done|].
  by destruct (ParseCSeq (Headers msg)) as [[n2 m2]|].
Qed.

(** The cached transaction test on what the parser extracted from the request. *)
Lemma response_matches_cached_agree pooled raw req branch num meth msg :
  NoDup (hdr_keys (Headers pooled)) -> Parse raw = Ok req ->
  Method req <> [] -> StatusCode req = 0 ->
  unambiguous (lit "CSeq") (Headers req) -> unambiguous (lit "Via") (Headers req) ->
  ViaBranch (Headers req) = Some branch -> branch <> [] ->
  ParseCSeq (Headers req) = Some (num, meth) ->
  ResponseMatchesCached msg branch (TrimSpace meth) = ResponseMatchesTransaction pooled msg raw.
Proof.
  intros Hn Hp Hm Hs Hu Hv Hb Hne Hc. rewrite (ResponseMatches_unfold _ _ req) by done.
  unfold ResponseMatchesCached. rewrite Hb, Hc. destruct branch; [done|].
  destruct (ViaBranch (Headers msg)); [|done]. destruct (EqualFold _ _); [|done]. cbn [negb].
  pose proof (ParseCSeq_method _ _ _ Hc). by destruct (TrimSpace meth).
Qed.

Definition demo_req : str :=
  lit "BYE sip:b SIP/2.0" ++ crlf ++ lit "Via: SIP/2.0/UDP h:5061;branch=z9hG4bK-7" ++ crlf
  ++ lit "CSeq: 2 BYE" ++ crlf ++ crlf.

Definition demo_parsed : Message :=
  match Parse demo_req with Ok m => m | Err _ => emptyMessage end.

(** A map whose live keys are listed is unambiguous when at most one of them
    folds to the name. *)
Lemma unambiguous_check name h :
  (length (List.filter (fun kv => EqualFold kv.1 name) h) <= 1)%nat -> unambiguous name h.
Proof.
  intros H k1 k2 F1 F2 V1 V2.
  assert (Hin : forall k, EqualFold k name = true -> hdr_vals k h <> [] ->
    exists vs, In (k, vs) (List.filter (fun kv => EqualFold kv.1 name) h)).
  { intros k Fk Vk. unfold hdr_vals in Vk. destruct (hdr_get k h) as [vs|] eqn:E; [|done].
    exists vs. apply filter_In. split; [|done]. apply list_elem_of_In. by apply hdr_get_in. }
  destruct (Hin k1 F1 V1) as [v1 I1], (Hin k2 F2 V2) as [v2 I2].
  destruct (List.filter _ h) as [|[q w] [|? ?]]; simpl in *; [done| |lia].
  naive_solver.
Qed.

Ltac demo_hyp := first
  [ apply unambiguous_check; vm_compute; lia
  | apply (bool_decide_unpack _); vm_compute; reflexivity
  | vm_compute; reflexivity
  | vm_compute; discriminate ].

(** ** Generated responses belong to the transaction of their request *)

Lemma response_cseq h :
  Header (add_headers [] (response_fields h)) (lit "CSeq") = Header h (lit "CSeq").
Proof.
  erewrite response_lookup; [|intros; left; reflexivity|reflexivity].
  unfold hdr_alias at 4. destruct (Header h (lit "CSeq")) as [v|];
  destruct (hdr_alias _ (lit "From") _), (hdr_alias _ (lit "To") _),
      (hdr_alias _ (lit "Call-ID") _); reflexivity.
Qed.

Lemma response_via h :
  NoDup (hdr_keys h) -> unambiguous (lit "Via") h -> hdr_vals (lit "Via") h <> [] ->
  Header (add_headers [] (response_fields h)) (lit "Via") = Header h (lit "Via").
Proof.
  intros Hn Hu Hne. rewrite Header_add_headers by constructor. cbn [Header].
  unfold response_fields, via_values.
  destruct (Header h (lit "Via")) as [v|] eqn:E.
  - apply Header_Some in E as (k & vs & Fk & Vk); [|done].
    assert (k = lit "Via") as -> by (apply Hu; [done|reflexivity|congruence|done]).
    by rewrite Vk.
  - by rewrite (Header_None h (lit "Via")) in Hne.
Qed.

Lemma recv_filter_itoa code :
  in_int64 code = true -> Itoa code <> [] /\ parseRecvResponseFilter (Itoa code) = Some code.
Proof.
  intros Hc. split; [apply Itoa_nonempty|]. unfold parseRecvResponseFilter.
  rewrite (Forall_plain_trimmed (Itoa code)) by apply Itoa_plain.
  rewrite Fields_plain by (apply Itoa_plain || apply Itoa_nonempty).
  by apply Atoi_Itoa.
Qed.

(** The response generated for a received request passes the recv filter
    that waits for its status code on that request, and the RFC 3261 17.1.3
    transaction test against that request. *)
Theorem build_response_in_transaction pooled raw req code reason :
  NoDup (hdr_keys (Headers pooled)) -> Parse raw = Ok req ->
  Method req <> [] -> StatusCode req = 0 ->
  unambiguous (lit "CSeq") (Headers req) -> unambiguous (lit "Via") (Headers req) ->
  hdr_vals (lit "Via") (Headers req) <> [] ->
  in_int64 code = true -> clean reason -> reason <> [] ->
  exists resp, Parse (BuildResponse req code reason) = Ok resp
    /\ MatchRecv pooled resp [] (Itoa code) raw = true
    /\ ResponseMatchesTransaction pooled resp raw = true.
Proof.
  intros Hn Hp Hm Hs Hu Hv Hne Hc Cr Hr. pose proof (Parse_wf _ _ Hp) as Hw.
  eexists. split; [by apply BuildResponse_parse|].
  destruct (recv_filter_itoa code Hc) as [Hine Hfil]. split.
  - rewrite (MatchRecv_unfold _ _ req) by done. revert Hine Hfil.
    destruct (Itoa code); [done|]. intros _ ->. cbn [StatusCode Headers]. rewrite Z.eqb_refl.
    rewrite (ParseCSeq_Header (add_headers _ _) (Headers req)) by apply response_cseq.
    destruct (ParseCSeq (Headers req)) as [[n m]|]; [|done].
    by rewrite Z.eqb_refl, EqualFold_refl.
  - rewrite (ResponseMatches_unfold _ _ req) by done. cbn [Headers].
    rewrite (ParseCSeq_Header (add_headers _ _) (Headers req)) by apply response_cseq.
    rewrite (ViaBranch_Header (add_headers _ _) (Headers req))
      by (apply response_via; [apply Hw|done|done]).
    destruct (ViaBranch (Headers req)); [|done]. rewrite EqualFold_refl.
    destruct (ParseCSeq (Headers req)) as [[n m]|]; [|done]. by rewrite EqualFold_refl.
Qed.

Lemma build_response_in_transaction_witness :
  exists resp, Parse (BuildResponse demo_parsed 200 (lit "OK")) = Ok resp
    /\ MatchRecv emptyMessage resp [] (Itoa 200) demo_req = true
    /\ ResponseMatchesTransaction emptyMessage resp demo_req = true.
Proof.
  apply (build_response_in_transaction emptyMessage demo_req demo_parsed 200 (lit "OK")); 
    first [demo_hyp | (apply clean_lit; vm_compute; reflexivity)].
Defined.

(** ** Call-ID normalisation *)

Definition sentinel : str := lit "///".

(** A Call-ID that carries a SIPp prefix and the sentinel normalises to the
    part after the last sentinel, so that both spellings select the same call. *)
Theorem normalize_callid_prefix pre id :
  trimmed (pre ++ sentinel ++ id) ->
  (forall j, HasPrefix (drop j (lit "//" ++ id)) sentinel = false) ->
  NormalizeCallID (pre ++ sentinel ++ id) = id.
Proof.
  intros Ht Hid. unfold NormalizeCallID. rewrite Ht.
  assert (Hl : LastIndex (pre ++ sentinel ++ id) sentinel = Some (length pre)).
  { clear Ht. induction pre as [|a pre IH].
    - change (sentinel ++ id) with (x2f :: (lit "//" ++ id)). cbn [app LastIndex length].
      rewrite (LastIndex_none_intro _ _ Hid). done.
    - cbn [app LastIndex length]. by rewrite IH. }
  destruct (pre ++ sentinel ++ id) as [|a s] eqn:E; [by destruct pre|]. rewrite <- E.
  rewrite <- E in Hl. change (lit "///") with sentinel. rewrite Hl. rewrite app_assoc. apply drop_app_exact. rewrite length_app. simpl. lia.
Qed.

Lemma normalize_callid_prefix_witness :
  NormalizeCallID (lit "pfx" ++ sentinel ++ lit "1-2@h") = lit "1-2@h".
Proof.
  apply (normalize_callid_prefix (lit "pfx") (lit "1-2@h")); [reflexivity|].
  intros j. do 8 (destruct j; [reflexivity|]). reflexivity.
Defined.

(** Normalisation is idempotent up to surrounding white space: normalising
    a normalised Call-ID only trims it. *)
Theorem normalize_callid_twice v :
  NormalizeCallID (NormalizeCallID v) = TrimSpace (NormalizeCallID v).
Proof.
  assert (Hno : forall s, (forall j, HasPrefix (drop j s) (lit "///") = false) ->
    NormalizeCallID s = TrimSpace s).
  { intros s Hs. unfold NormalizeCallID. destruct (TrimSpace_infix s) as (p & q & Heq).
    assert (Ht : forall j, HasPrefix (drop j (TrimSpace s)) (lit "///") = false).
    { intros j. apply not_true_iff_false. intros E. apply HasPrefix_spec in E as [t Ht].
      destruct (decide (length (TrimSpace s) <= j)%nat) as [Hge|Hlt];
        [by rewrite drop_ge in Ht|].
      assert (Hd : drop (length p + j) s = lit "///" ++ t ++ q).
      { rewrite Heq, <- drop_drop, drop_app_length, drop_app_le by lia.
        by rewrite Ht, app_assoc. }
      specialize (Hs (length p + j)%nat). by rewrite Hd, HasPrefix_app in Hs. }
    destruct (TrimSpace s) as [|a l] eqn:E; [done|]. rewrite <- E in *.
    by rewrite LastIndex_none_intro. }
  apply Hno. unfold NormalizeCallID at 1. intros j.
  destruct (TrimSpace v) as [|a l] eqn:E; [by rewrite drop_nil|]. rewrite <- E.
  destruct (LastIndex (TrimSpace v) (lit "///")) as [i|] eqn:El.
  - rewrite drop_drop. apply (LastIndex_Some _ _ _ El); [done|lia].
  - by apply LastIndex_None.
Qed.

(** ** Via sent-by *)

(** Whatever a peer puts into its Via header, the response port taken from
    it is a valid UDP port and the host is not empty. *)
Theorem via_sent_by_bounds h host port :
  ViaSentBy h = Some (host, port) -> host <> [] /\ 1 <= port <= 65535.
Proof.
  unfold ViaSentBy. intros H. repeat case_hyp H; simplify_eq; (split; [congruence|]);
    bool_to_prop; lia.
Qed.

Lemma via_sent_by_bounds_witness :
  ViaSentBy [(lit "via", [lit "SIP/2.0/UDP 10.0.0.1:99999;branch=x"])] = Some (lit "10.0.0.1", 5060)
  /\ (lit "10.0.0.1" <> [] /\ 1 <= 5060 <= 65535).
Proof.
  split; [vm_compute; reflexivity|].
  apply (via_sent_by_bounds [(lit "via", [lit "SIP/2.0/UDP 10.0.0.1:99999;branch=x"])]).
  vm_compute. reflexivity.
Defined.
