(* ===== verification/SipStream.v ===== *)
(** * [internal/sip/stream.go]: SIP framing on a byte stream

    A [bufio.Reader] is the bytes still to come and the error that follows
    them.  The stream is kept as its segments between LFs: every segment but
    the last one was terminated by an LF. *)

From stdpp Require Import base list gmap strings.
From Stdlib Require Import ZArith Lia Strings.Byte.
From S2P Require Import Prelude GoStrings SipMessage SipFacts.

(** The error a read at the end of the available bytes returns. *)
Inductive read_end := EOF | IOError.

Inductive stream_error :=
  | ErrClosedBeforeData        (* peer closed connection before any SIP data *)
  | ErrClosedStartLine         (* connection closed while reading SIP start line *)
  | ErrClosedHeaders           (* connection closed while reading SIP headers *)
  | ErrClosedBody (n : Z)      (* connection closed while reading SIP body *)
  | ErrMalformedHeader (line : str)
  | ErrRead                    (* any other reader error, passed on *)
  | ErrParse (e : sip_error).

(** [strconv.Atoi] with the error thrown away: 0 on a syntax error, the
    nearest [int] on a range error.  The scan stops at the first digit that
    overflows 64 bits. *)
Fixpoint scan_uint (acc : Z) (s : str) : option Z :=
  match s with
  | [] => Some acc
  | a :: r =>
    match digit_val a with
    | None => None
    | Some d =>
      let acc' := acc * 10 + d in
      if 2 ^ 64 <=? acc' then Some (2 ^ 64 - 1) else scan_uint acc' r
    end
  end.

Definition AtoiValue (s : str) : Z :=
  let '(neg, body) :=
    match s with
    | a :: r => if beqb a x2d then (true, r) else if beqb a x2b then (false, r) else (false, s)
    | [] => (false, s)
    end in
  match body, scan_uint 0 body with
  | [], _ => 0
  | _, None => 0
  | _, Some v => if (neg : bool) then Z.max int64_min (- v) else Z.min int64_max v
  end.

(** [make([]byte, n)] panics outside the address space of the allocator. *)
Definition max_alloc : Z := 2 ^ 48.
Definition make_panics (n : Z) : bool := (n <? 0) || (max_alloc <? n).

(** First loop: skip blank lines before the start line. *)
Fixpoint readStartLine (segs : list str) (e : read_end) : result stream_error (str * list str) :=
  match segs with
  | [] => Err ErrRead
  | [tail] =>
    match e with
    | EOF => match TrimSpace tail with [] => Err ErrClosedBeforeData | _ => Err ErrClosedStartLine end
    | IOError => Err ErrRead
    end
  | seg :: rest =>
    let startLine := TrimRight is_crlf (seg ++ [x0a]) in
    match TrimSpace startLine with
    | [] => readStartLine rest e
    | _ => Ok (startLine, rest)
    end
  end.

(** Second loop: header lines up to the blank line; returns the text written
    to the builder, the last Content-Length and the rest of the stream. *)
Fixpoint readHeaders (segs : list str) (e : read_end) (built : str) (contentLength : Z)
    : result stream_error (str * Z * list str) :=
  match segs with
  | [] => Err ErrRead
  | [_] => match e with EOF => Err ErrClosedHeaders | IOError => Err ErrRead end
  | seg :: rest =>
    let line := TrimRight is_crlf (seg ++ [x0a]) in
    let built := built ++ line ++ crlf in
    match line with
    | [] => Ok (built, contentLength, rest)
    | _ =>
      match Cut line x3a with
      | None => Err (ErrMalformedHeader line)
      | Some (name, value) =>
        readHeaders rest e built
          (if EqualFold (TrimSpace name) (lit "Content-Length")
           then AtoiValue (TrimSpace value) else contentLength)
      end
    end
  end.

(** [ReadMessage]: the message or the error, and the bytes left in the reader. *)
Definition ReadMessage (data : str) (e : read_end)
    : outcome (result stream_error (Message * str)) :=
  match readStartLine (Split data x0a) e with
  | Err er => Ret (Err er)
  | Ok (startLine, segs) =>
    match readHeaders segs e (startLine ++ crlf) 0 with
    | Err er => Ret (Err er)
    | Ok (built, contentLength, segs) =>
      if make_panics contentLength then Panic else
      let rest := Join segs [x0a] in
      if (0 <? contentLength) && (Z.of_nat (length rest) <? contentLength) then
        Ret (Err match e with EOF => ErrClosedBody contentLength | IOError => ErrRead end)
      else
        let n := Z.to_nat contentLength in
        Ret match Parse (built ++ take n rest) with
            | Ok m => Ok (m, drop n rest)
            | Err er => Err (ErrParse er)
            end
    end
  end.

(** * Lemmas *)

Lemma is_crlf_spec b : is_crlf b = true <-> b = x0d \/ b = x0a.
Proof. unfold is_crlf. by rewrite orb_true_iff, !beqb_eq. Qed.

Lemma ends_space_trim s : ends_space s = false -> TrimRight is_crlf (s ++ [x0d] ++ [x0a]) = s.
Proof.
  intros H. unfold TrimRight. rewrite app_assoc, !rev_app_distr. simpl.
  rewrite <- (rev_involutive s) at 2. f_equal.
  unfold ends_space in H. destruct (rev s) as [|a r]; [done|]. simpl.
  destruct (is_crlf a) eqn:E; [|done]. apply is_crlf_spec in E as [->| ->]; done.
Qed.

Lemma trim_line s : clean s -> TrimRight is_crlf ((s ++ [x0d]) ++ [x0a]) = s.
Proof.
  intros [Ht _]. rewrite <- app_assoc. apply ends_space_trim. by apply trimmed_ends.
Qed.

Lemma Split_cons_ne s c x : exists y ys, x :: Split s c = x :: y :: ys.
Proof. pose proof (Split_nonempty s c). destruct (Split s c); [done|eauto]. Qed.

Lemma readStartLine_line s t e :
  clean s -> s <> [] -> readStartLine (Split (s ++ crlf ++ t) x0a) e = Ok (s, Split t x0a).
Proof.
  intros Cs Hne. rewrite Split_crlf by apply Cs.
  pose proof (Split_nonempty t x0a). destruct (Split t x0a) as [|y ys] eqn:E; [done|].
  cbn [readStartLine]. rewrite trim_line by done. destruct Cs as [Ht _]. rewrite Ht.
  by destruct s.
Qed.

(** A keep-alive (a bare CRLF) is skipped. *)
Lemma readStartLine_blank t e :
  readStartLine (Split (crlf ++ t) x0a) e = readStartLine (Split t x0a) e.
Proof.
  change (crlf ++ t) with ([] ++ crlf ++ t). rewrite Split_crlf by apply not_elem_of_nil.
  pose proof (Split_nonempty t x0a). destruct (Split t x0a) as [|y ys]; [done|]. reflexivity.
Qed.

Definition keepalives (n : nat) : str := concat (replicate n crlf).

Lemma readStartLine_keepalives n t e :
  readStartLine (Split (keepalives n ++ t) x0a) e = readStartLine (Split t x0a) e.
Proof.
  induction n as [|n IH]; [done|]. unfold keepalives in *. cbn [replicate concat].
  rewrite <- app_assoc, readStartLine_blank. done.
Qed.

(** The Content-Length the header loop ends with. *)
Definition content_length (l : list (str * str)) (c : Z) : Z :=
  foldl (fun c kv => if EqualFold kv.1 (lit "Content-Length") then AtoiValue kv.2 else c) c l.

(** Only the line break is cut off a header line. *)
Lemma trim_header_line k v :
  trimmed v -> TrimRight is_crlf ((k ++ lit ": " ++ v ++ [x0d]) ++ [x0a]) = k ++ lit ": " ++ v.
Proof.
  intros Tv. unfold TrimRight. rewrite !rev_app_distr. simpl. rewrite <- !app_assoc. simpl.
  replace (trim_left_set is_crlf (rev v ++ x20 :: x3a :: rev k)) with (rev v ++ x20 :: x3a :: rev k).
  - rewrite rev_app_distr. simpl. by rewrite !rev_involutive, <- !app_assoc.
  - destruct (trimmed_ends v Tv) as [_ He]. unfold ends_space in He.
    destruct (rev v) as [|a r]; [done|]. simpl. destruct (is_crlf a) eqn:E; [|done].
    apply is_crlf_spec in E as [->| ->]; done.
Qed.

Lemma readHeaders_line k v t e built c :
  clean_field (k, v) ->
  readHeaders (Split (header_line k v ++ t) x0a) e built c =
  readHeaders (Split t x0a) e (built ++ header_line k v)
    (if EqualFold k (lit "Content-Length") then AtoiValue v else c).
Proof.
  intros (Ck & Hc & Hne & Cv). simpl in *. rewrite header_line_split by done.
  pose proof (Split_nonempty t x0a). destruct (Split t x0a) as [|y ys]; [done|].
  change (readHeaders ((k ++ lit ": " ++ v ++ [x0d]) :: y :: ys) e built c) with
    (let line := TrimRight is_crlf ((k ++ lit ": " ++ v ++ [x0d]) ++ [x0a]) in
     match line with
     | [] => Ok (built ++ line ++ crlf, c, y :: ys)
     | _ => match Cut line x3a with
            | None => Err (ErrMalformedHeader line)
            | Some (name, value) => readHeaders (y :: ys) e (built ++ line ++ crlf)
                (if EqualFold (TrimSpace name) (lit "Content-Length")
                 then AtoiValue (TrimSpace value) else c)
            end
     end).
  destruct Ck as [Tk Lk], Cv as [Tv Lv].
  rewrite trim_header_line by done. cbv zeta.
  destruct (k ++ lit ": " ++ v) as [|a l] eqn:E; [by destruct k|]. rewrite <- E.
  change (k ++ lit ": " ++ v) with (k ++ x3a :: x20 :: v). rewrite Cut_app by done.
  rewrite Tk, TrimSpace_lead_blank by done. unfold header_line.
  by rewrite <- !app_assoc.
Qed.

Lemma readHeaders_render l t e built c :
  Forall clean_field l ->
  readHeaders (Split (render_headers l ++ crlf ++ t) x0a) e built c =
  Ok (built ++ render_headers l ++ crlf, content_length l c, Split t x0a).
Proof.
  intros Hl. revert built c. induction Hl as [|[k v] l Hkv Hl IH]; intros built c.
  - change (render_headers [] ++ crlf ++ t) with ([] ++ crlf ++ t).
    rewrite Split_crlf by apply not_elem_of_nil.
    pose proof (Split_nonempty t x0a). by destruct (Split t x0a) as [|y ys].
  - change (render_headers ((k, v) :: l)) with (header_line k v ++ render_headers l).
    rewrite <- app_assoc, readHeaders_line by done. rewrite IH.
    unfold content_length. simpl. by rewrite <- !app_assoc.
Qed.

(** * Properties *)

(** Framing: after any number of keep-alive line breaks, a message whose
    headers announce exactly its body length is read whole, with the headers
    and body it was written with, and the reader is left at the first byte
    after it, so pipelined messages never bleed into each other. *)
Theorem read_message_frames n method uri l body rest e :
  x20 ∉ method -> x20 ∉ uri -> clean (request_line method uri) ->
  HasPrefix (request_line method uri) sip_version = false ->
  Forall clean_field l ->
  content_length l 0 = Z.of_nat (length body) -> Z.of_nat (length body) <= max_alloc ->
  let wire := request_line method uri ++ crlf ++ render_headers l ++ crlf ++ body in
  exists m, ReadMessage (keepalives n ++ wire ++ rest) e = Ret (Ok (m, rest))
    /\ Parse wire = Ok m /\ Body m = body /\ Method m = method.
Proof.
  intros Hm Hu Cr Hp Hl Hlen Hmax wire.
  destruct (parse_request_fields method uri l body Hm Hu Cr Hp Hl)
    as (m & Hparse & HM & _ & _ & HB & _).
  exists m. split; [|done].
  unfold ReadMessage. rewrite readStartLine_keepalives. unfold wire. rewrite <- !app_assoc.
  rewrite readStartLine_line by (done || (unfold request_line; by destruct method)).
  rewrite readHeaders_render by done. rewrite Hlen.
  assert (make_panics (Z.of_nat (length body)) = false) as ->.
  { unfold make_panics. apply orb_false_iff. split; [apply Z.ltb_ge|apply Z.ltb_ge]; lia. }
  rewrite Join_Split.
  assert (Z.of_nat (length (body ++ rest)) <? Z.of_nat (length body) = false) as ->.
  { apply Z.ltb_ge. rewrite length_app. lia. }
  rewrite andb_false_r, Nat2Z.id, take_app_length, drop_app_length.
  rewrite <- !app_assoc. by rewrite Hparse.
Qed.

Lemma read_message_frames_witness :
  let wire := request_line (lit "INFO") (lit "sip:a") ++ crlf
              ++ render_headers [(lit "content-length", lit "2")] ++ crlf ++ lit "hi" in
  exists m, ReadMessage (keepalives 2 ++ wire ++ lit "NEXT") EOF = Ret (Ok (m, lit "NEXT"))
    /\ Parse wire = Ok m /\ Body m = lit "hi" /\ Method m = lit "INFO".
Proof.
  apply (read_message_frames 2 (lit "INFO") (lit "sip:a") [(lit "content-length", lit "2")]
    (lit "hi") (lit "NEXT") EOF); try solve_lit; try (vm_compute; reflexivity).
Defined.

(** A peer that announces a negative (or absurdly large) Content-Length
    makes [ReadMessage] panic instead of returning an error: the length goes
    unchecked into [make]. *)
Theorem read_message_bad_length_panics sl l rest e :
  clean sl -> sl <> [] -> Forall clean_field l ->
  content_length l 0 < 0 \/ max_alloc < content_length l 0 ->
  ReadMessage (sl ++ crlf ++ render_headers l ++ crlf ++ rest) e = Panic.
Proof.
  intros Cs Hne Hl Hbad. unfold ReadMessage.
  rewrite readStartLine_line, readHeaders_render by done.
  assert (make_panics (content_length l 0) = true) as ->; [|done].
  unfold make_panics. apply orb_true_iff.
  destruct Hbad; [left | right]; by apply Z.ltb_lt.
Qed.

Lemma read_message_bad_length_panics_witness :
  ReadMessage (lit "BYE sip:a SIP/2.0" ++ crlf
               ++ render_headers [(lit "Content-Length", lit "-1")] ++ crlf ++ []) EOF = Panic.
Proof.
  apply (read_message_bad_length_panics (lit "BYE sip:a SIP/2.0")
    [(lit "Content-Length", lit "-1")] [] EOF); [solve_lit|done| |left; vm_compute; reflexivity].
  apply Forall_singleton. split; [solve_lit|]. split; [solve_lit|]. split; solve_lit.
Defined.
