(* ===== verification/Hash.v ===== *)
(** * MD5, SHA-256 and hexadecimal text

    [crypto/md5], [crypto/sha256] and [encoding/hex] as the digest code of
    [internal/engine/auth.go] uses them: executable, on byte strings, words kept
    at 32 bits. *)

From stdpp Require Import base list strings.
From Stdlib Require Import ZArith Lia Strings.Byte.
From S2P Require Import Prelude GoStrings.

(** ** Words *)

Definition mask32 : Z := 4294967295.
Definition add32 (a b : Z) : Z := Z.land (a + b) mask32.
Definition not32 (a : Z) : Z := Z.lxor a mask32.
Definition rotl32 (a n : Z) : Z := Z.lor (Z.land (Z.shiftl a n) mask32) (Z.shiftr a (32 - n)).
Definition rotr32 (a n : Z) : Z := rotl32 a (32 - n).

Definition le_word (l : str) : Z := get_be (rev l).
Definition put_le32 (z : Z) : str := rev (put_u32 z).

(** Groups of [n] bytes. *)
Fixpoint chunks (fuel n : nat) (l : str) : list str :=
  match fuel, l with
  | S f, _ :: _ => take n l :: chunks f n (drop n l)
  | _, _ => []
  end.

Definition blocks (l : str) : list str := chunks (length l) 64 l.

(** A one bit, zeros up to 56 modulo 64; the length in bits follows. *)
Definition pad (l : str) : str :=
  l ++ x80 :: replicate (Z.to_nat ((55 - Z.of_nat (length l)) mod 64)) x00.

(** ** MD5 *)

Record md5_state := mkMd5 { md_a : Z; md_b : Z; md_c : Z; md_d : Z }.

Definition md5_round (words : list Z) (s : md5_state) (p : nat * Z * Z) : md5_state :=
  let '(i, k, r) := p in
  let '(mkMd5 a b c d) := s in
  let '(f, g) :=
    if (i <? 16)%nat then (Z.lor (Z.land b c) (Z.land (not32 b) d), i)
    else if (i <? 32)%nat then (Z.lor (Z.land d b) (Z.land (not32 d) c), ((5 * i + 1) mod 16)%nat)
    else if (i <? 48)%nat then (Z.lxor (Z.lxor b c) d, ((3 * i + 5) mod 16)%nat)
    else (Z.lxor c (Z.lor b (not32 d)), ((7 * i) mod 16)%nat) in
  let x := add32 (add32 a f) (add32 k (nth g words 0)) in
  mkMd5 d (add32 b (rotl32 x r)) b c.

Definition md5_k : list Z :=
  [3614090360; 3905402710; 606105819; 3250441966; 4118548399; 1200080426; 2821735955; 4249261313;
   1770035416; 2336552879; 4294925233; 2304563134; 1804603682; 4254626195; 2792965006; 1236535329;
   4129170786; 3225465664; 643717713; 3921069994; 3593408605; 38016083; 3634488961; 3889429448;
   568446438; 3275163606; 4107603335; 1163531501; 2850285829; 4243563512; 1735328473; 2368359562;
   4294588738; 2272392833; 1839030562; 4259657740; 2763975236; 1272893353; 4139469664; 3200236656;
   681279174; 3936430074; 3572445317; 76029189; 3654602809; 3873151461; 530742520; 3299628645;
   4096336452; 1126891415; 2878612391; 4237533241; 1700485571; 2399980690; 4293915773; 2240044497;
   1873313359; 4264355552; 2734768916; 1309151649; 4149444226; 3174756917; 718787259; 3951481745].

Definition md5_r : list Z :=
  [7; 12; 17; 22; 7; 12; 17; 22; 7; 12; 17; 22; 7; 12; 17; 22;
   5; 9; 14; 20; 5; 9; 14; 20; 5; 9; 14; 20; 5; 9; 14; 20;
   4; 11; 16; 23; 4; 11; 16; 23; 4; 11; 16; 23; 4; 11; 16; 23;
   6; 10; 15; 21; 6; 10; 15; 21; 6; 10; 15; 21; 6; 10; 15; 21].

Definition md5_block (s : md5_state) (block : str) : md5_state :=
  let words := map le_word (chunks 16 4 block) in
  let s' := foldl (md5_round words) s (zip (zip (seq 0 64) md5_k) md5_r) in
  mkMd5 (add32 (md_a s) (md_a s')) (add32 (md_b s) (md_b s')) (add32 (md_c s) (md_c s')) (add32 (md_d s) (md_d s')).

Definition md5 (l : str) : str :=
  let bits := 8 * Z.of_nat (length l) in
  let padded := pad l ++ put_le32 bits ++ put_le32 (Z.shiftr bits 32) in
  let s := foldl md5_block (mkMd5 1732584193 4023233417 2562383102 271733878) (blocks padded) in
  put_le32 (md_a s) ++ put_le32 (md_b s) ++ put_le32 (md_c s) ++ put_le32 (md_d s).

(** ** SHA-256 *)

Definition sha_k : list Z :=
  [1116352408; 1899447441; 3049323471; 3921009573; 961987163; 1508970993; 2453635748; 2870763221;
   3624381080; 310598401; 607225278; 1426881987; 1925078388; 2162078206; 2614888103; 3248222580;
   3835390401; 4022224774; 264347078; 604807628; 770255983; 1249150122; 1555081692; 1996064986;
   2554220882; 2821834349; 2952996808; 3210313671; 3336571891; 3584528711; 113926993; 338241895;
   666307205; 773529912; 1294757372; 1396182291; 1695183700; 1986661051; 2177026350; 2456956037;
   2730485921; 2820302411; 3259730800; 3345764771; 3516065817; 3600352804; 4094571909; 275423344;
   430227734; 506948616; 659060556; 883997877; 958139571; 1322822218; 1537002063; 1747873779;
   1955562222; 2024104815; 2227730452; 2361852424; 2428436474; 2756734187; 3204031479; 3329325298].

Definition sha_init : list Z :=
  [1779033703; 3144134277; 1013904242; 2773480762; 1359893119; 2600822924; 528734635; 1541459225].

(** The 48 further words of the schedule; the last sixteen are kept first. *)
Fixpoint sha_schedule (n : nat) (w : list Z) : list Z :=
  match n with
  | O => w
  | S n =>
    let at_ i := nth i w 0 in
    let s0 := let x := at_ 14%nat in Z.lxor (Z.lxor (rotr32 x 7) (rotr32 x 18)) (Z.shiftr x 3) in
    let s1 := let x := at_ 1%nat in Z.lxor (Z.lxor (rotr32 x 17) (rotr32 x 19)) (Z.shiftr x 10) in
    sha_schedule n (add32 (add32 (at_ 15%nat) s0) (add32 (at_ 6%nat) s1) :: w)
  end.

Definition sha_round (h : list Z) (p : Z * Z) : list Z :=
  let '(k, w) := p in
  match h with
  | [a; b; c; d; e; f; g; hh] =>
    let s1 := Z.lxor (Z.lxor (rotr32 e 6) (rotr32 e 11)) (rotr32 e 25) in
    let ch := Z.lxor (Z.land e f) (Z.land (not32 e) g) in
    let t1 := add32 (add32 hh s1) (add32 ch (add32 k w)) in
    let s0 := Z.lxor (Z.lxor (rotr32 a 2) (rotr32 a 13)) (rotr32 a 22) in
    let maj := Z.lxor (Z.lxor (Z.land a b) (Z.land a c)) (Z.land b c) in
    [add32 t1 (add32 s0 maj); a; b; c; add32 d t1; e; f; g]
  | _ => h
  end.

Definition sha_block (h : list Z) (block : str) : list Z :=
  let w := rev (sha_schedule 48 (rev (map get_be (chunks 16 4 block)))) in
  zip_with add32 h (foldl sha_round h (zip sha_k w)).

Definition sha256 (l : str) : str :=
  let bits := 8 * Z.of_nat (length l) in
  let padded := pad l ++ put_u32 (Z.shiftr bits 32) ++ put_u32 bits in
  flat_map put_u32 (foldl sha_block sha_init (blocks padded)).

(** ** Hexadecimal text *)

Definition hex_lower (d : Z) : byte := if d <? 10 then z2b (48 + d) else z2b (87 + d).

(** [hex.EncodeToString] *)
Definition EncodeToString (l : str) : str :=
  flat_map (fun b => [hex_lower (b2z b / 16); hex_lower (b2z b mod 16)]) l.

(** * Test vectors (RFC 1321, A.5; FIPS 180-4) *)

Example md5_empty : EncodeToString (md5 []) = lit "d41d8cd98f00b204e9800998ecf8427e".
Proof. vm_compute. reflexivity. Qed.

Example md5_alphabet :
  EncodeToString (md5 (lit "ABCDEFGHIJKLMNOPQRSTUVWXYZabcdefghijklmnopqrstuvwxyz0123456789"))
  = lit "d174ab98d277d9f5a5611c2c9f419d9f".
Proof. vm_compute. reflexivity. Qed.

Example sha256_abc :
  EncodeToString (sha256 (lit "abc")) = lit "ba7816bf8f01cfea414140de5dae2223b00361a396177a9cb410ff61f20015ad".
Proof. vm_compute. reflexivity. Qed.

Example sha256_two_blocks :
  EncodeToString (sha256 (lit "abcdbcdecdefdefgefghfghighijhijkijkljklmklmnlmnomnopnopq"))
  = lit "248d6a61d20638b8e5c026930c3e6039a33ce45964ff2167f6ecedd419db06c1".
Proof. vm_compute. reflexivity. Qed.

(** * Lemmas *)

Lemma hex_lower_range d : 0 <= d < 16 ->
  in_range 48 57 (hex_lower d) = true \/ in_range 97 102 (hex_lower d) = true.
Proof.
  intros H. unfold hex_lower, in_range. destruct (Z.ltb_spec d 10); rewrite b2z_z2b, Z.mod_small by lia; bool_to_prop; lia.
Qed.

Lemma EncodeToString_hex l :
  Forall (fun b => in_range 48 57 b = true \/ in_range 97 102 b = true) (EncodeToString l).
Proof.
  induction l as [|b l IH]; [constructor|]. pose proof (b2z_range b).
  simpl. constructor; [apply hex_lower_range; split; [apply Z.div_pos; lia|apply Z.div_lt_upper_bound; lia]|].
  constructor; [apply hex_lower_range, Z.mod_pos_bound; lia|done].
Qed.

Lemma EncodeToString_nonempty l : l <> [] -> EncodeToString l <> [].
Proof. by destruct l. Qed.

Lemma md5_nonempty l : md5 l <> [].
Proof. unfold md5. cbv zeta. generalize (foldl md5_block). intros f. unfold put_le32, put_u32. done. Qed.

Lemma sha_round_length h p : length h = 8%nat -> length (sha_round h p) = 8%nat.
Proof.
  destruct p as [k w].
  destruct h as [|a [|b [|c [|d [|e [|f [|g [|hh [|? ?]]]]]]]]]; done.
Qed.

Lemma sha_rounds_length ps h : length h = 8%nat -> length (foldl sha_round h ps) = 8%nat.
Proof. revert h. induction ps as [|p ps IH]; intros h Hh; [done|]. by apply IH, sha_round_length. Qed.

Lemma sha_block_length h b : length h = 8%nat -> length (sha_block h b) = 8%nat.
Proof. intros Hh. unfold sha_block. by rewrite length_zip_with, sha_rounds_length, Hh. Qed.

Lemma sha_blocks_length bs h : length h = 8%nat -> length (foldl sha_block h bs) = 8%nat.
Proof. revert h. induction bs as [|b bs IH]; intros h Hh; [done|]. by apply IH, sha_block_length. Qed.

Lemma sha256_nonempty l : sha256 l <> [].
Proof.
  unfold sha256. cbv zeta. match goal with |- context [foldl sha_block sha_init ?b] =>
    pose proof (sha_blocks_length b sha_init eq_refl) as H; destruct (foldl sha_block sha_init b); [done|] end.
  done.
Qed.
