(* ===== verification/Hep.v ===== *)
(** * [hepcodec/codec.go] and [internal/hep/hep.go]: the HEP3 wire codec

    [net.ParseIP] and [net.ResolveIPAddr] (a DNS query) are one parameter
    [lookup_ip], which gives the address bytes of a host string. A
    [time.Time] is the nanoseconds since the Unix epoch; the zero time is
    [None]. *)

From stdpp Require Import base list gmap strings.
From Stdlib Require Import ZArith Lia Strings.Byte.
From S2P Require Import Prelude GoStrings.

(** ** Constants *)

Definition ProtocolSIP : Z := 1.
Definition IPFamilyIPv4 : Z := 2.
Definition IPFamilyIPv6 : Z := 10.
Definition IPProtoTCP : Z := 6.
Definition IPProtoUDP : Z := 17.

Definition chunkIPFamily : Z := 1.
Definition chunkIPProto : Z := 2.
Definition chunkIPv4Src : Z := 3.
Definition chunkIPv4Dst : Z := 4.
Definition chunkIPv6Src : Z := 5.
Definition chunkIPv6Dst : Z := 6.
Definition chunkSrcPort : Z := 7.
Definition chunkDstPort : Z := 8.
Definition chunkTimeSec : Z := 9.
Definition chunkTimeUsec : Z := 10.
Definition chunkProtoType : Z := 11.
Definition chunkCaptureID : Z := 12.
Definition chunkAuthKey : Z := 14.
Definition chunkPayload : Z := 15.
Definition chunkCorrelationID : Z := 17.

(** ** Data *)

Record HepMessage := mkHep {
  hTime : option Z;
  hSrcIP : str;
  hDstIP : str;
  hSrcPort : Z;
  hDstPort : Z;
  hIPProtocol : Z;
  hProtoType : Z;
  hCaptureID : Z;
  hAuthKey : str;
  hCorrelationID : str;
  hPayload : str
}.

Record Decoded := mkDecoded {
  dIPFamily : Z;
  dIPProtocol : Z;
  dSrcIP : str;
  dDstIP : str;
  dSrcPort : Z;
  dDstPort : Z;
  dTime : Z;
  dProtoType : Z;
  dCaptureID : Z;
  dAuthKey : str;
  dCorrelationID : str;
  dPayload : str
}.

Definition decoded0 : Decoded := mkDecoded 0 0 [] [] 0 0 0 0 0 [] [] [].

Inductive hep_error :=
  | ErrSrcIP
  | ErrDstIP
  | ErrSrcPort (p : Z)
  | ErrDstPort (p : Z)
  | ErrTooLarge (n : Z)
  | ErrTooShort
  | ErrMagic
  | ErrLength (total len : Z)
  | ErrChunkHeader
  | ErrChunkLength.

(** ** Addresses *)

Definition v4_mapped : str := replicate 10 x00 ++ [xff; xff].

(** [net.IP.To4], [net.IP.To16]; a nil slice is []. *)
Definition To4 (ip : str) : str :=
  if Nat.eqb (length ip) 4 then ip
  else if Nat.eqb (length ip) 16 && bool_decide (take 12 ip = v4_mapped) then drop 12 ip
  else [].

Definition To16 (ip : str) : str :=
  if Nat.eqb (length ip) 4 then v4_mapped ++ ip
  else if Nat.eqb (length ip) 16 then ip
  else [].

(** [parseIP] *)
Definition parseIP (lookup_ip : str -> option str) (raw : str) : option (str * Z) :=
  match lookup_ip raw with
  | None => None
  | Some ip =>
    match To4 ip with
    | (_ :: _) as v4 => Some (v4, IPFamilyIPv4)
    | [] => match To16 ip with
            | (_ :: _) as v6 => Some (v6, IPFamilyIPv6)
            | [] => None
            end
    end
  end.

(** [TransportProtocol] *)
Definition TransportProtocol (transport : str) : Z :=
  if bool_decide (transport ∈ [lit "t1"; lit "tn"; lit "l1"; lit "ln"; lit "TCP"; lit "tcp";
                               lit "TLS"; lit "tls"])
  then IPProtoTCP else IPProtoUDP.

(** ** Encoding *)

(** [writeChunkBytes], [writeChunkUint8], [writeChunkUint16], [writeChunkUint32]:
    the bytes appended to the buffer. *)
Definition writeChunkBytes (chunkType : Z) (payload : str) : str :=
  put_u16 0 ++ put_u16 chunkType ++ put_u16 (Z.of_nat (length payload) + 6) ++ payload.

Definition writeChunkUint8 (chunkType value : Z) : str := writeChunkBytes chunkType [z2b value].
Definition writeChunkUint16 (chunkType value : Z) : str := writeChunkBytes chunkType (put_u16 value).
Definition writeChunkUint32 (chunkType value : Z) : str := writeChunkBytes chunkType (put_u32 value).

Definition opt_chunk (chunkType : Z) (payload : str) : str :=
  match payload with [] => [] | _ => writeChunkBytes chunkType payload end.

Definition ns_per_sec : Z := 10 ^ 9.

Definition hep_magic : str := lit "HEP3".

(** [Encode]; [now] is [time.Now()]. *)
Definition Encode (lookup_ip : str -> option str) (now : Z) (msg : HepMessage)
    : result hep_error str :=
  match parseIP lookup_ip (hSrcIP msg) with
  | None => Err ErrSrcIP
  | Some (srcIP, family) =>
    match parseIP lookup_ip (hDstIP msg) with
    | None => Err ErrDstIP
    | Some (dstIP, _) =>
      if (hSrcPort msg <? 0) || (65535 <? hSrcPort msg) then Err (ErrSrcPort (hSrcPort msg)) else
      if (hDstPort msg <? 0) || (65535 <? hDstPort msg) then Err (ErrDstPort (hDstPort msg)) else
      let time := default now (hTime msg) in
      let chunks :=
        writeChunkUint8 chunkIPFamily family
        ++ writeChunkUint8 chunkIPProto (hIPProtocol msg)
        ++ (if family =? IPFamilyIPv6
            then writeChunkBytes chunkIPv6Src (To16 srcIP) ++ writeChunkBytes chunkIPv6Dst (To16 dstIP)
            else writeChunkBytes chunkIPv4Src (To4 srcIP) ++ writeChunkBytes chunkIPv4Dst (To4 dstIP))
        ++ writeChunkUint16 chunkSrcPort (hSrcPort msg)
        ++ writeChunkUint16 chunkDstPort (hDstPort msg)
        ++ writeChunkUint32 chunkTimeSec (time / ns_per_sec)
        ++ writeChunkUint32 chunkTimeUsec ((time mod ns_per_sec) / 1000)
        ++ writeChunkUint8 chunkProtoType (hProtoType msg)
        ++ writeChunkUint32 chunkCaptureID (hCaptureID msg)
        ++ opt_chunk chunkAuthKey (hAuthKey msg)
        ++ opt_chunk chunkCorrelationID (hCorrelationID msg)
        ++ writeChunkBytes chunkPayload (hPayload msg) in
      let totalLen := 6 + Z.of_nat (length chunks) in
      if 65535 <? totalLen then Err (ErrTooLarge totalLen)
      else Ok (hep_magic ++ put_u16 totalLen ++ chunks)
    end
  end.

(** ** Decoding *)

(** The decoder's locals: the message under construction and the two halves
    of the timestamp. *)
Record dstate := mkDstate { ds_out : Decoded; ds_sec : Z; ds_usec : Z }.

Definition with_out (d : dstate) (o : Decoded) : dstate := mkDstate o (ds_sec d) (ds_usec d).

(** One [switch chunkType] of the loop body. *)
Definition applyChunk (chunkType : Z) (payload : str) (d : dstate) : dstate :=
  let o := ds_out d in
  let '(mkDecoded fam pr src dst sp dp tm pt cid ak co pl) := o in
  let len := length payload in
  if chunkType =? chunkIPFamily then
    if Nat.eqb len 1 then with_out d (mkDecoded (get_be payload) pr src dst sp dp tm pt cid ak co pl) else d
  else if chunkType =? chunkIPProto then
    if Nat.eqb len 1 then with_out d (mkDecoded fam (get_be payload) src dst sp dp tm pt cid ak co pl) else d
  else if (chunkType =? chunkIPv4Src) || (chunkType =? chunkIPv6Src) then
    with_out d (mkDecoded fam pr payload dst sp dp tm pt cid ak co pl)
  else if (chunkType =? chunkIPv4Dst) || (chunkType =? chunkIPv6Dst) then
    with_out d (mkDecoded fam pr src payload sp dp tm pt cid ak co pl)
  else if chunkType =? chunkSrcPort then
    if Nat.eqb len 2 then with_out d (mkDecoded fam pr src dst (get_be payload) dp tm pt cid ak co pl) else d
  else if chunkType =? chunkDstPort then
    if Nat.eqb len 2 then with_out d (mkDecoded fam pr src dst sp (get_be payload) tm pt cid ak co pl) else d
  else if chunkType =? chunkTimeSec then
    if Nat.eqb len 4 then mkDstate o (get_be payload) (ds_usec d) else d
  else if chunkType =? chunkTimeUsec then
    if Nat.eqb len 4 then mkDstate o (ds_sec d) (get_be payload) else d
  else if chunkType =? chunkProtoType then
    if Nat.eqb len 1 then with_out d (mkDecoded fam pr src dst sp dp tm (get_be payload) cid ak co pl) else d
  else if chunkType =? chunkCaptureID then
    if Nat.eqb len 4 then with_out d (mkDecoded fam pr src dst sp dp tm pt (get_be payload) ak co pl) else d
  else if chunkType =? chunkAuthKey then
    with_out d (mkDecoded fam pr src dst sp dp tm pt cid payload co pl)
  else if chunkType =? chunkCorrelationID then
    with_out d (mkDecoded fam pr src dst sp dp tm pt cid ak payload pl)
  else if chunkType =? chunkPayload then
    with_out d (mkDecoded fam pr src dst sp dp tm pt cid ak co payload)
  else d.

(** The chunk loop on the bytes from [offset] on.  A chunk is at least six
    bytes long, so [length packet] steps always reach the end. *)
Fixpoint decodeChunks (fuel : nat) (p : str) (d : dstate) : result hep_error dstate :=
  match p with
  | [] => Ok d
  | _ =>
    match fuel with
    | O => Err ErrChunkHeader
    | S fuel' =>
      if Nat.ltb (length p) 6 then Err ErrChunkHeader else
      let chunkType := get_be (take 2 (drop 2 p)) in
      let chunkLen := get_be (take 2 (drop 4 p)) in
      if (chunkLen <? 6) || (Z.of_nat (length p) <? chunkLen) then Err ErrChunkLength else
      let n := Z.to_nat chunkLen in
      decodeChunks fuel' (drop n p) (applyChunk chunkType (take (n - 6) (drop 6 p)) d)
    end
  end.

(** [Decode] *)
Definition Decode (packet : str) : result hep_error Decoded :=
  if Nat.ltb (length packet) 6 then Err ErrTooShort else
  if negb (bool_decide (take 4 packet = hep_magic)) then Err ErrMagic else
  let totalLen := get_be (take 2 (drop 4 packet)) in
  if negb (totalLen =? Z.of_nat (length packet))
  then Err (ErrLength totalLen (Z.of_nat (length packet))) else
  let? d := decodeChunks (length packet) (drop 6 packet) (mkDstate decoded0 0 0) in
  let '(mkDecoded fam pr src dst sp dp _ pt cid ak co pl) := ds_out d in
  Ok (mkDecoded fam pr src dst sp dp (ds_sec d * ns_per_sec + ds_usec d * 1000) pt cid ak co pl).

(** * Lemmas *)

Lemma decodeChunks_fuel f1 f2 p d :
  (length p <= f1)%nat -> (length p <= f2)%nat -> decodeChunks f1 p d = decodeChunks f2 p d.
Proof.
  revert f2 p d. induction f1 as [|f1 IH]; intros f2 p d H1 H2.
  - destruct p; [|simpl in H1; lia]. by destruct f2.
  - destruct f2 as [|f2]; [destruct p; [done|simpl in H2; lia]|].
    cbn [decodeChunks]. destruct p as [|a p]; [done|].
    destruct (Nat.ltb _ 6) eqn:E6; [done|]. apply Nat.ltb_ge in E6.
    destruct (_ || _) eqn:E; [done|]. bool_to_prop.
    apply IH; rewrite length_drop; simpl in *; lia.
Qed.

Definition decode_all (p : str) (d : dstate) : result hep_error dstate :=
  decodeChunks (length p) p d.

Lemma writeChunkBytes_length t pl : length (writeChunkBytes t pl) = (6 + length pl)%nat.
Proof. unfold writeChunkBytes. rewrite !length_app. simpl. lia. Qed.

Lemma decode_all_chunk t pl rest d :
  0 <= t < 65536 -> Z.of_nat (length pl) + 6 <= 65535 ->
  decode_all (writeChunkBytes t pl ++ rest) d = decode_all rest (applyChunk t pl d).
Proof.
  intros Ht Hl. unfold decode_all.
  set (p := writeChunkBytes t pl ++ rest).
  assert (Hlen : length p = (6 + length pl + length rest)%nat)
    by (unfold p; rewrite length_app, writeChunkBytes_length; done).
  destruct (length p) as [|f] eqn:Ef; [lia|]. cbn [decodeChunks].
  assert (T : get_be (take 2 (drop 2 p)) = t).
  { unfold p, writeChunkBytes. simpl. change (get_be (put_u16 t) = t).
    rewrite get_be_put_u16. by apply u16_small. }
  assert (L : get_be (take 2 (drop 4 p)) = Z.of_nat (length pl) + 6).
  { unfold p, writeChunkBytes. simpl.
    change (get_be (put_u16 (Z.of_nat (length pl) + 6)) = Z.of_nat (length pl) + 6).
    rewrite get_be_put_u16. apply u16_small. lia. }
  destruct p as [|a q] eqn:Ep; [done|]. rewrite <- Ep in *. rewrite Ef.
  rewrite T, L. clear T L. assert (Nat.ltb (S f) 6 = false) as -> by (apply Nat.ltb_ge; lia).
  rewrite (proj2 (orb_false_iff _ _)) by (split; apply Z.ltb_ge; lia).
  replace (Z.to_nat (Z.of_nat (length pl) + 6)) with (6 + length pl)%nat by lia.
  assert (Hd : drop (6 + length pl) p = rest).
  { unfold p.
    apply drop_app_exact. by rewrite writeChunkBytes_length. }
  assert (Ht6 : take (6 + length pl - 6) (drop 6 p) = pl).
  { unfold p, writeChunkBytes. rewrite <- !app_assoc. simpl.
    apply take_app_exact. lia. }
  rewrite Hd, Ht6. apply decodeChunks_fuel; lia.
Qed.

Lemma parseIP_shape lookup raw ip fam :
  parseIP lookup raw = Some (ip, fam) ->
  (fam = IPFamilyIPv4 /\ length ip = 4%nat /\ To4 ip = ip)
  \/ (fam = IPFamilyIPv6 /\ length ip = 16%nat /\ To16 ip = ip /\ To4 ip = []).
Proof.
  unfold parseIP. intros H. destruct (lookup raw) as [a|]; [|done].
  destruct (To4 a) as [|x l] eqn:E4.
  - right. destruct (To16 a) as [|y k] eqn:E16; [done|]. simplify_eq.
    unfold To16 in E16. destruct (Nat.eqb (length a) 4) eqn:E; [|].
    + exfalso. unfold To4 in E4. rewrite E in E4. subst. done.
    + destruct (Nat.eqb (length a) 16) eqn:E'; [|done]. subst.
      split; [done|]. split; [by apply Nat.eqb_eq|].
      split; [unfold To16; by rewrite E, E' | done].
  - left. simplify_eq. split; [done|].
    assert (Hl : length (x :: l) = 4%nat).
    { unfold To4 in E4. destruct (Nat.eqb (length a) 4) eqn:E.
      - apply Nat.eqb_eq in E. by subst.
      - destruct (Nat.eqb (length a) 16) eqn:E'; [|done]. apply Nat.eqb_eq in E'.
        destruct (bool_decide _); [|done]. simpl in E4. rewrite <- E4, length_drop. lia. }
    split; [done|]. unfold To4. by rewrite Hl.
Qed.

(** Address bytes as the encoder writes them for a packet of this family. *)
Definition wire_ip (family : Z) (ip : str) : str :=
  if family =? IPFamilyIPv6 then To16 ip else To4 ip.

(** Microsecond timestamp with the seconds cut to 32 bits. *)
Definition wire_time (t : Z) : Z :=
  u32 (t / ns_per_sec) * ns_per_sec + (t mod ns_per_sec) / 1000 * 1000.

Lemma usec_range t : 0 <= (t mod ns_per_sec) / 1000 < 4294967296.
Proof.
  unfold ns_per_sec. pose proof (Z.mod_pos_bound t (10 ^ 9) ltac:(lia)).
  split; [apply Z.div_pos; lia|]. apply Z.div_lt_upper_bound; lia.
Qed.

Lemma get_be_byte z : 0 <= z < 256 -> get_be [z2b z] = z.
Proof. intros. unfold get_be. simpl. rewrite b2z_z2b. by apply Z.mod_small. Qed.

(** The values of the Go types of the fields. *)
Record hep_typed (m : HepMessage) : Prop := {
  ht_proto : 0 <= hIPProtocol m < 256;
  ht_type : 0 <= hProtoType m < 256;
  ht_capture : 0 <= hCaptureID m < 4294967296
}.

(** Effect of one chunk on the decoder's locals, by chunk type. *)
Section Apply.
Context (fam pr : Z) (src dst : str) (sp dp tm pt cid : Z) (ak co pl : str) (sec usec : Z).
Let st fam pr src dst sp dp pt cid ak co pl sec usec :=
  mkDstate (mkDecoded fam pr src dst sp dp tm pt cid ak co pl) sec usec.

Lemma apply_family v : 0 <= v < 256 ->
  applyChunk chunkIPFamily [z2b v] (st fam pr src dst sp dp pt cid ak co pl sec usec)
  = st v pr src dst sp dp pt cid ak co pl sec usec.
Proof. intros H. unfold applyChunk, st, with_out. simpl. by rewrite get_be_byte. Qed.

Lemma apply_proto v : 0 <= v < 256 ->
  applyChunk chunkIPProto [z2b v] (st fam pr src dst sp dp pt cid ak co pl sec usec)
  = st fam v src dst sp dp pt cid ak co pl sec usec.
Proof. intros H. unfold applyChunk, st, with_out. simpl. by rewrite get_be_byte. Qed.

Lemma apply_type v : 0 <= v < 256 ->
  applyChunk chunkProtoType [z2b v] (st fam pr src dst sp dp pt cid ak co pl sec usec)
  = st fam pr src dst sp dp v cid ak co pl sec usec.
Proof. intros H. unfold applyChunk, st, with_out. simpl. by rewrite get_be_byte. Qed.

Lemma apply_srcport v : 0 <= v < 65536 ->
  applyChunk chunkSrcPort (put_u16 v) (st fam pr src dst sp dp pt cid ak co pl sec usec)
  = st fam pr src dst v dp pt cid ak co pl sec usec.
Proof.
  intros H. unfold applyChunk, st, with_out. cbn -[get_be put_u16].
  by rewrite get_be_put_u16, u16_small.
Qed.

Lemma apply_dstport v : 0 <= v < 65536 ->
  applyChunk chunkDstPort (put_u16 v) (st fam pr src dst sp dp pt cid ak co pl sec usec)
  = st fam pr src dst sp v pt cid ak co pl sec usec.
Proof.
  intros H. unfold applyChunk, st, with_out. cbn -[get_be put_u16].
  by rewrite get_be_put_u16, u16_small.
Qed.

Lemma apply_sec v :
  applyChunk chunkTimeSec (put_u32 v) (st fam pr src dst sp dp pt cid ak co pl sec usec)
  = st fam pr src dst sp dp pt cid ak co pl (u32 v) usec.
Proof.
  unfold applyChunk, st, with_out. cbn -[get_be put_u32]. by rewrite get_be_put_u32.
Qed.

Lemma apply_usec v :
  applyChunk chunkTimeUsec (put_u32 v) (st fam pr src dst sp dp pt cid ak co pl sec usec)
  = st fam pr src dst sp dp pt cid ak co pl sec (u32 v).
Proof.
  unfold applyChunk, st, with_out. cbn -[get_be put_u32]. by rewrite get_be_put_u32.
Qed.

Lemma apply_capture v :
  applyChunk chunkCaptureID (put_u32 v) (st fam pr src dst sp dp pt cid ak co pl sec usec)
  = st fam pr src dst sp dp pt (u32 v) ak co pl sec usec.
Proof.
  unfold applyChunk, st, with_out. cbn -[get_be put_u32]. by rewrite get_be_put_u32.
Qed.

Lemma apply_ips (v6 : bool) a b :
  applyChunk (if v6 then chunkIPv6Dst else chunkIPv4Dst) b
    (applyChunk (if v6 then chunkIPv6Src else chunkIPv4Src) a
      (st fam pr src dst sp dp pt cid ak co pl sec usec))
  = st fam pr a b sp dp pt cid ak co pl sec usec.
Proof. by destruct v6. Qed.

Lemma apply_auth v rest : Z.of_nat (length v) + 6 <= 65535 ->
  decode_all (opt_chunk chunkAuthKey v ++ rest) (st fam pr src dst sp dp pt cid [] co pl sec usec)
  = decode_all rest (st fam pr src dst sp dp pt cid v co pl sec usec).
Proof.
  intros H. destruct v as [|a v]; [done|]. unfold opt_chunk.
  by rewrite decode_all_chunk by (done || (vm_compute; split; congruence)).
Qed.

Lemma apply_correlation v rest : Z.of_nat (length v) + 6 <= 65535 ->
  decode_all (opt_chunk chunkCorrelationID v ++ rest) (st fam pr src dst sp dp pt cid ak [] pl sec usec)
  = decode_all rest (st fam pr src dst sp dp pt cid ak v pl sec usec).
Proof.
  intros H. destruct v as [|a v]; [done|]. unfold opt_chunk.
  by rewrite decode_all_chunk by (done || (vm_compute; split; congruence)).
Qed.
End Apply.

(** The chunk sequence of the encoder, without the length check. *)
Definition encode_chunks (family : Z) (src dst : str) (t : Z) (msg : HepMessage) : str :=
  writeChunkUint8 chunkIPFamily family
  ++ writeChunkUint8 chunkIPProto (hIPProtocol msg)
  ++ writeChunkBytes (if family =? IPFamilyIPv6 then chunkIPv6Src else chunkIPv4Src) (wire_ip family src)
  ++ writeChunkBytes (if family =? IPFamilyIPv6 then chunkIPv6Dst else chunkIPv4Dst) (wire_ip family dst)
  ++ writeChunkUint16 chunkSrcPort (hSrcPort msg)
  ++ writeChunkUint16 chunkDstPort (hDstPort msg)
  ++ writeChunkUint32 chunkTimeSec (t / ns_per_sec)
  ++ writeChunkUint32 chunkTimeUsec ((t mod ns_per_sec) / 1000)
  ++ writeChunkUint8 chunkProtoType (hProtoType msg)
  ++ writeChunkUint32 chunkCaptureID (hCaptureID msg)
  ++ opt_chunk chunkAuthKey (hAuthKey msg)
  ++ opt_chunk chunkCorrelationID (hCorrelationID msg)
  ++ writeChunkBytes chunkPayload (hPayload msg).

Lemma Encode_ok lookup now msg pkt src fam dst dfam :
  Encode lookup now msg = Ok pkt ->
  parseIP lookup (hSrcIP msg) = Some (src, fam) -> parseIP lookup (hDstIP msg) = Some (dst, dfam) ->
  let chunks := encode_chunks fam src dst (default now (hTime msg)) msg in
  pkt = hep_magic ++ put_u16 (6 + Z.of_nat (length chunks)) ++ chunks
  /\ 6 + Z.of_nat (length chunks) <= 65535
  /\ 0 <= hSrcPort msg < 65536 /\ 0 <= hDstPort msg < 65536.
Proof.
  intros He Hs Hd. unfold Encode in He. rewrite Hs, Hd in He.
  destruct (_ || _) eqn:Eps in He; [done|]. destruct (_ || _) eqn:Epd in He; [done|].
  unfold encode_chunks, wire_ip. destruct (fam =? IPFamilyIPv6);
    rewrite <- ?app_assoc in He; (destruct (65535 <? _) eqn:El in He; [done|]);
    bool_to_prop; simplify_eq; repeat split; lia.
Qed.

Lemma opt_chunk_length c p : (length p <= length (opt_chunk c p))%nat.
Proof. destruct p; [done|]. unfold opt_chunk. rewrite writeChunkBytes_length. lia. Qed.

Lemma decode_encode_chunks fam src dst t msg :
  hep_typed msg -> 0 <= fam < 256 -> 0 <= hSrcPort msg < 65536 -> 0 <= hDstPort msg < 65536 ->
  6 + Z.of_nat (length (encode_chunks fam src dst t msg)) <= 65535 ->
  decode_all (encode_chunks fam src dst t msg) (mkDstate decoded0 0 0) =
  Ok (mkDstate (mkDecoded fam (hIPProtocol msg) (wire_ip fam src) (wire_ip fam dst)
      (hSrcPort msg) (hDstPort msg) 0 (hProtoType msg) (hCaptureID msg) (hAuthKey msg)
      (hCorrelationID msg) (hPayload msg)) (u32 (t / ns_per_sec)) ((t mod ns_per_sec) / 1000)).
Proof.
  intros [Tp Tt Tc] Hfam Hsp Hdp Hsz. unfold encode_chunks in *.
  pose proof (opt_chunk_length chunkAuthKey (hAuthKey msg)).
  pose proof (opt_chunk_length chunkCorrelationID (hCorrelationID msg)).
  unfold writeChunkUint8, writeChunkUint16, writeChunkUint32 in *.
  rewrite !length_app, !writeChunkBytes_length in Hsz.
  rewrite !decode_all_chunk
    by first [lia | destruct (fam =? IPFamilyIPv6); vm_compute; split; congruence | simpl; lia].
  unfold decoded0. rewrite apply_family by done. rewrite apply_proto by done. rewrite apply_ips.
  rewrite apply_srcport, apply_dstport by done. rewrite apply_sec, apply_usec.
  rewrite apply_type by done. rewrite apply_capture.
  rewrite apply_auth, apply_correlation by lia.
  rewrite <- (app_nil_r (writeChunkBytes chunkPayload (hPayload msg))).
  rewrite decode_all_chunk by (vm_compute; split; congruence) || lia.
  cbn. rewrite (u32_small (hCaptureID msg)) by lia.
  by rewrite (u32_small ((t mod ns_per_sec) / 1000)) by apply usec_range.
Qed.

Definition finish (d : dstate) : Decoded :=
  let '(mkDecoded fam pr src dst sp dp _ pt cid ak co pl) := ds_out d in
  mkDecoded fam pr src dst sp dp (ds_sec d * ns_per_sec + ds_usec d * 1000) pt cid ak co pl.

(** A packet frame around a chunk sequence. *)
Definition hep_frame (chunks : str) : str :=
  hep_magic ++ put_u16 (6 + Z.of_nat (length chunks)) ++ chunks.

Lemma hep_frame_fields chunks :
  6 + Z.of_nat (length chunks) <= 65535 ->
  length (hep_frame chunks) = (6 + length chunks)%nat
  /\ take 4 (hep_frame chunks) = hep_magic
  /\ get_be (take 2 (drop 4 (hep_frame chunks))) = Z.of_nat (length (hep_frame chunks))
  /\ drop 6 (hep_frame chunks) = chunks.
Proof.
  intros Hl.
  assert (Hlen : length (hep_frame chunks) = (6 + length chunks)%nat)
    by (unfold hep_frame; rewrite !length_app; simpl; lia).
  split; [done|]. split; [reflexivity|]. rewrite Hlen. split; [|reflexivity].
  change (take 2 (drop 4 (hep_frame chunks))) with (put_u16 (6 + Z.of_nat (length chunks))).
  rewrite get_be_put_u16, u16_small; lia.
Qed.

Lemma Decode_frame chunks :
  6 + Z.of_nat (length chunks) <= 65535 ->
  Decode (hep_frame chunks) =
  let? d := decode_all chunks (mkDstate decoded0 0 0) in Ok (finish d).
Proof.
  intros Hl. destruct (hep_frame_fields chunks Hl) as (Hlen & H4 & H2 & H6).
  unfold Decode. rewrite H2, H4, H6, Hlen, Z.eqb_refl.
  rewrite (proj2 (Nat.ltb_ge _ _)) by lia. rewrite bool_decide_true by done. cbn [negb].
  rewrite (decodeChunks_fuel _ (length chunks)) by lia. fold (decode_all chunks (mkDstate decoded0 0 0)).
  destruct (decode_all _ _) as [[[] ? ?]|]; reflexivity.
Qed.

(** The decoder's result on an encoded message, for any pair of address families. *)
Lemma Decode_Encode lookup now msg pkt src fam dst dfam :
  hep_typed msg -> Encode lookup now msg = Ok pkt ->
  parseIP lookup (hSrcIP msg) = Some (src, fam) -> parseIP lookup (hDstIP msg) = Some (dst, dfam) ->
  Decode pkt = Ok (mkDecoded fam (hIPProtocol msg) (wire_ip fam src) (wire_ip fam dst)
    (hSrcPort msg) (hDstPort msg) (wire_time (default now (hTime msg)))
    (hProtoType msg) (hCaptureID msg) (hAuthKey msg) (hCorrelationID msg) (hPayload msg)).
Proof.
  intros Ht He Hs Hd.
  destruct (Encode_ok _ _ _ _ _ _ _ _ He Hs Hd) as (-> & Hl & Hsp & Hdp).
  assert (Hfam : 0 <= fam < 256).
  { apply parseIP_shape in Hs as [(-> & _)|(-> & _)]; vm_compute; split; congruence. }
  fold (hep_frame (encode_chunks fam src dst (default now (hTime msg)) msg)).
  rewrite Decode_frame by done. by rewrite decode_encode_chunks.
Qed.

(** * Properties *)

(** C6: Decoding an encoded HEP3 packet gives back every field: addresses,
    ports, protocol, capture id, keys and payload, with the time cut to
    microseconds and its seconds to 32 bits. *)
Theorem hep_roundtrip lookup now msg pkt src dst fam :
  hep_typed msg -> Encode lookup now msg = Ok pkt ->
  parseIP lookup (hSrcIP msg) = Some (src, fam) -> parseIP lookup (hDstIP msg) = Some (dst, fam) ->
  Decode pkt = Ok (mkDecoded fam (hIPProtocol msg) src dst (hSrcPort msg) (hDstPort msg)
    (wire_time (default now (hTime msg))) (hProtoType msg) (hCaptureID msg)
    (hAuthKey msg) (hCorrelationID msg) (hPayload msg)).
Proof.
  intros Ht He Hs Hd. rewrite (Decode_Encode lookup now msg pkt src fam dst fam) by done.
  assert (Hw : forall raw ip, parseIP lookup raw = Some (ip, fam) -> wire_ip fam ip = ip).
  { intros raw ip H. apply parseIP_shape in H as [(-> & _ & H)|(-> & _ & H & _)]; done. }
  by rewrite (Hw _ _ Hs), (Hw _ _ Hd).
Qed.

Definition demo_lookup (raw : str) : option str :=
  if bool_decide (raw = lit "10.0.0.1") then Some [x0a; x00; x00; x01]
  else if bool_decide (raw = lit "::1") then Some (replicate 15 x00 ++ [x01])
  else None.

Definition demo_hep (dst : str) : HepMessage :=
  mkHep (Some 1700000000123456789) (lit "10.0.0.1") dst 5060 5070 17 1 2001 (lit "key") (lit "call-1") (lit "INVITE").

Lemma hep_roundtrip_witness :
  exists pkt, Encode demo_lookup 0 (demo_hep (lit "10.0.0.1")) = Ok pkt
  /\ Decode pkt = Ok (mkDecoded 2 17 [x0a; x00; x00; x01] [x0a; x00; x00; x01] 5060 5070
       (wire_time 1700000000123456789) 1 2001 (lit "key") (lit "call-1") (lit "INVITE")).
Proof.
  eexists. split; [vm_compute; reflexivity|].
  apply (hep_roundtrip demo_lookup 0 (demo_hep (lit "10.0.0.1"))).
  - split; vm_compute; split; congruence.
  - vm_compute. reflexivity.
  - vm_compute. reflexivity.
  - vm_compute. reflexivity.
Defined.

(** An encoded packet starts with the magic, carries its own length and is
    at most 65535 bytes long, and the ports in it were checked. *)
Theorem hep_encode_bounds lookup now msg pkt :
  Encode lookup now msg = Ok pkt ->
  take 4 pkt = hep_magic /\ get_be (take 2 (drop 4 pkt)) = Z.of_nat (length pkt)
  /\ Z.of_nat (length pkt) <= 65535
  /\ 0 <= hSrcPort msg <= 65535 /\ 0 <= hDstPort msg <= 65535.
Proof.
  intros He. destruct (parseIP lookup (hSrcIP msg)) as [[src fam]|] eqn:Hs;
    [|unfold Encode in He; by rewrite Hs in He].
  destruct (parseIP lookup (hDstIP msg)) as [[dst dfam]|] eqn:Hd;
    [|unfold Encode in He; by rewrite Hs, Hd in He].
  destruct (Encode_ok _ _ _ _ _ _ _ _ He Hs Hd) as (-> & Hl & Hsp & Hdp).
  destruct (hep_frame_fields _ Hl) as (Hlen & H4 & H2 & _).
  fold (hep_frame (encode_chunks fam src dst (default now (hTime msg)) msg)).
  rewrite Hlen in H2 |- *. split; [done|]. split; [done|]. lia.
Qed.

Lemma hep_encode_bounds_witness :
  exists pkt, Encode demo_lookup 0 (demo_hep (lit "10.0.0.1")) = Ok pkt
  /\ (take 4 pkt = hep_magic /\ get_be (take 2 (drop 4 pkt)) = Z.of_nat (length pkt)
      /\ Z.of_nat (length pkt) <= 65535 /\ 0 <= 5060 <= 65535 /\ 0 <= 5070 <= 65535).
Proof.
  eexists. split; [vm_compute; reflexivity|].
  apply (hep_encode_bounds demo_lookup 0 (demo_hep (lit "10.0.0.1"))).
  vm_compute. reflexivity.
Defined.

(** When the source is IPv4 and the destination IPv6, the packet carries an
    empty destination address: the destination is lost without an error. *)
Theorem hep_mixed_family_drops_destination lookup now msg pkt src dst :
  hep_typed msg -> Encode lookup now msg = Ok pkt ->
  parseIP lookup (hSrcIP msg) = Some (src, IPFamilyIPv4) ->
  parseIP lookup (hDstIP msg) = Some (dst, IPFamilyIPv6) ->
  exists d, Decode pkt = Ok d /\ dSrcIP d = src /\ dDstIP d = [].
Proof.
  intros Ht He Hs Hd. rewrite (Decode_Encode _ _ _ _ _ _ _ _ Ht He Hs Hd).
  eexists. split; [reflexivity|]. cbn [dSrcIP dDstIP]. unfold wire_ip.
  apply parseIP_shape in Hs as [(_ & _ & Hs)|(E & _)]; [|done].
  apply parseIP_shape in Hd as [(E & _)|(_ & _ & _ & Hd)]; done.
Qed.

Lemma hep_mixed_family_drops_destination_witness :
  exists pkt d, Encode demo_lookup 0 (demo_hep (lit "::1")) = Ok pkt
  /\ Decode pkt = Ok d /\ dSrcIP d = [x0a; x00; x00; x01] /\ dDstIP d = [].
Proof.
  assert (He : is_ok (Encode demo_lookup 0 (demo_hep (lit "::1"))) = true) by (vm_compute; reflexivity).
  destruct (Encode demo_lookup 0 (demo_hep (lit "::1"))) as [pkt|] eqn:E; [|discriminate].
  destruct (hep_mixed_family_drops_destination demo_lookup 0 (demo_hep (lit "::1")) pkt
    [x0a; x00; x00; x01] (replicate 15 x00 ++ [x01])) as (d & Hd & H1 & H2).
  - split; vm_compute; split; congruence.
  - exact E.
  - vm_compute. reflexivity.
  - vm_compute. reflexivity.
  - exists pkt, d. auto.
Defined.
