(* ===== verification/Vars.v ===== *)
(** * [internal/engine/vars.go]: scenario variables and their scopes

    The scopes object is shared by every call of an engine, so it is passed
    explicitly; a [varStore] is one call's view of it.  A Go map that answers
    the empty string for a missing key is a [gmap] read with [default []]. *)

From stdpp Require Import base list gmap strings.
From Stdlib Require Import ZArith Lia Strings.Byte.
From S2P Require Import Prelude GoStrings.

(** ** State *)

Record scopedVars := mkScoped {
  sv_global : gmap str str;
  sv_users : gmap Z (gmap str str)
}.

Definition newScopedVars : scopedVars := mkScoped ∅ ∅.

Record varStore := mkStore {
  vs_local : gmap str str;
  vs_globalNames : gset str;
  vs_userNames : gset str;
  vs_userID : Z
}.

Definition newVarStore (globalNames userNames : list str) (userID : Z) : varStore :=
  mkStore ∅ (list_to_set globalNames) (list_to_set userNames) userID.

(** ** Operations *)

(** [Get] *)
Definition Get (v : varStore) (sc : scopedVars) (name : str) : str :=
  if bool_decide (name ∈ vs_globalNames v) then default [] (sv_global sc !! name)
  else if bool_decide (name ∈ vs_userNames v) then
    match sv_users sc !! vs_userID v with
    | Some scoped => default [] (scoped !! name)
    | None => []
    end
  else default [] (vs_local v !! name).

(** [Set] *)
Definition SetVar (v : varStore) (sc : scopedVars) (name value : str) : varStore * scopedVars :=
  if bool_decide (name ∈ vs_globalNames v) then
    (v, mkScoped (<[name := value]> (sv_global sc)) (sv_users sc))
  else if bool_decide (name ∈ vs_userNames v) then
    let scoped := default ∅ (sv_users sc !! vs_userID v) in
    (v, mkScoped (sv_global sc) (<[vs_userID v := <[name := value]> scoped]> (sv_users sc)))
  else
    (mkStore (<[name := value]> (vs_local v)) (vs_globalNames v) (vs_userNames v) (vs_userID v), sc).

(** [for name := range names { scratch[name] = from[name] }] *)
Definition overlay (names : gset str) (from scratch : gmap str str) : gmap str str :=
  set_to_map (fun name => (name, default [] (from !! name))) names ∪ scratch.

(** [Snapshot] *)
Definition Snapshot (v : varStore) (sc : scopedVars) : gmap str str :=
  let scratch := overlay (vs_globalNames v) (sv_global sc) (vs_local v) in
  match sv_users sc !! vs_userID v with
  | Some scoped => overlay (vs_userNames v) scoped scratch
  | None => scratch
  end.

(** * Lemmas *)

(** The local map never holds a name that is declared in a wider scope. *)
Definition store_wf (v : varStore) : Prop :=
  forall name, name ∈ vs_globalNames v \/ name ∈ vs_userNames v -> vs_local v !! name = None.

Lemma newVarStore_wf g u id : store_wf (newVarStore g u id).
Proof. intros name _. apply lookup_empty. Qed.

Lemma SetVar_wf v sc name value : store_wf v -> store_wf (SetVar v sc name value).1.
Proof.
  intros Hw. unfold SetVar. repeat case_bool_decide; try done.
  intros n Hn. simpl in *. rewrite lookup_insert_ne; [by apply Hw|].
  intros ->. naive_solver.
Qed.

Lemma overlay_lookup names from scratch n :
  overlay names from scratch !! n =
  if bool_decide (n ∈ names) then Some (default [] (from !! n)) else scratch !! n.
Proof.
  unfold overlay. case_bool_decide as Hin.
  - apply lookup_union_Some_l. apply lookup_set_to_map; [done|]. by exists n.
  - rewrite lookup_union_r; [done|].
    destruct (set_to_map _ names !! n) eqn:E; [|done].
    apply lookup_set_to_map in E as (m & Hm & Heq); [|done]. naive_solver.
Qed.

(** * Properties *)

(** Assignment and reading: after [Set], the name reads as the new value
    and every other name, in whatever scope, reads as before. *)
Theorem var_get_set v sc name value n :
  Get (SetVar v sc name value).1 (SetVar v sc name value).2 n
  = if bool_decide (n = name) then value else Get v sc n.
Proof.
  unfold Get, SetVar.
  destruct (decide (n = name)) as [->|Hne].
  - rewrite (bool_decide_true (name = name)) by done.
    repeat case_bool_decide; simpl; repeat (rewrite bool_decide_true by done || rewrite bool_decide_false by done);
      by rewrite ?lookup_insert_eq.
  - rewrite (bool_decide_false (n = name)) by done.
    repeat case_bool_decide; simpl; try done; try by rewrite lookup_insert_ne.
    rewrite lookup_insert_eq. rewrite lookup_insert_ne by done.
    destruct (sv_users sc !! vs_userID v); simpl; [done|]. by rewrite lookup_empty.
Qed.

(** Scopes between calls: what one call assigns is seen by another call
    exactly when the name is global for both, or is a user variable of both
    (and global for neither) and the two calls run for the same user. *)
Theorem var_scope_isolation v1 v2 sc name value n :
  vs_globalNames v1 = vs_globalNames v2 -> vs_userNames v1 = vs_userNames v2 ->
  Get v2 (SetVar v1 sc name value).2 n =
  if bool_decide (n = name)
     && (bool_decide (name ∈ vs_globalNames v1)
         || bool_decide (name ∈ vs_userNames v1) && bool_decide (vs_userID v1 = vs_userID v2))
  then value else Get v2 sc n.
Proof.
  intros Hg Hu. unfold Get, SetVar. rewrite <- Hg, <- Hu.
  destruct (decide (n = name)) as [->|Hne].
  - rewrite (bool_decide_true (name = name)) by done. simpl.
    repeat case_bool_decide; simpl; rewrite ?lookup_insert_eq; try done.
    + match goal with H : vs_userID _ = _ |- _ => rewrite <- H end.
      by rewrite !lookup_insert_eq.
    + by rewrite lookup_insert_ne.
  - rewrite (bool_decide_false (n = name)) by done. simpl.
    repeat case_bool_decide; simpl; try done; try by rewrite lookup_insert_ne.
    destruct (decide (vs_userID v1 = vs_userID v2)) as [Heq|Hneq].
    + rewrite <- Heq, lookup_insert_eq, lookup_insert_ne by done.
      destruct (sv_users sc !! vs_userID v1); simpl; [done|]. by rewrite lookup_empty.
    + by rewrite lookup_insert_ne.
Qed.

Lemma var_scope_isolation_witness :
  let v1 := newVarStore [lit "g"] [lit "u"] 1 in
  let v2 := newVarStore [lit "g"] [lit "u"] 2 in
  Get v2 (SetVar v1 newScopedVars (lit "u") (lit "x")).2 (lit "u") = [].
Proof.
  intros v1 v2.
  rewrite (var_scope_isolation v1 v2 newScopedVars (lit "u") (lit "x") (lit "u") eq_refl eq_refl).
  apply (bool_decide_unpack _). vm_compute. reflexivity.
Defined.

(** The snapshot used for rendering agrees with [Get] on every name, as long
    as no name is declared both [Global] and [User]. *)
Theorem snapshot_agrees_with_get v sc name :
  store_wf v -> vs_globalNames v ## vs_userNames v ->
  default [] (Snapshot v sc !! name) = Get v sc name.
Proof.
  intros Hw Hd. unfold Snapshot, Get.
  destruct (sv_users sc !! vs_userID v) as [scoped|];
    rewrite !overlay_lookup; repeat case_bool_decide; simpl; try done.
  - set_solver.
  - by rewrite Hw by auto.
Qed.

Lemma snapshot_agrees_with_get_witness :
  let v := newVarStore [lit "g"] [lit "u"] 1 in
  let sc := (SetVar v newScopedVars (lit "g") (lit "7")).2 in
  default [] (Snapshot v sc !! lit "g") = lit "7".
Proof.
  intros v sc. rewrite (snapshot_agrees_with_get v sc (lit "g")).
  - vm_compute. reflexivity.
  - intros n _. apply lookup_empty.
  - apply (bool_decide_unpack _). vm_compute. reflexivity.
Defined.

(** A name declared both [Global] and [User] reads differently in the two
    views: [Get] gives the global value, the snapshot the user's one. *)
Theorem snapshot_diverges_on_double_declaration v sc name scoped :
  name ∈ vs_globalNames v -> name ∈ vs_userNames v ->
  sv_users sc !! vs_userID v = Some scoped ->
  Get v sc name = default [] (sv_global sc !! name)
  /\ default [] (Snapshot v sc !! name) = default [] (scoped !! name).
Proof.
  intros Hg Hu Hs. unfold Get, Snapshot. rewrite Hs, overlay_lookup.
  by rewrite !bool_decide_true by done.
Qed.

Lemma snapshot_diverges_on_double_declaration_witness :
  let v := newVarStore [lit "n"] [lit "n"; lit "m"] 1 in
  let sc := mkScoped {[lit "n" := lit "global"]} {[1 := {[lit "m" := lit "x"]}]} in
  Get v sc (lit "n") = default [] (sv_global sc !! lit "n")
  /\ default [] (Snapshot v sc !! lit "n") = default [] (({[lit "m" := lit "x"]} : gmap str str) !! lit "n").
Proof.
  intros v sc. apply (snapshot_diverges_on_double_declaration v sc (lit "n") {[lit "m" := lit "x"]}).
  - apply (bool_decide_unpack _). vm_compute. reflexivity.
  - apply (bool_decide_unpack _). vm_compute. reflexivity.
  - apply lookup_singleton_eq.
Defined.
