(* ===== verification/Scenario.v ===== *)
(** * Scenario files

    [internal/scenario/model.go] and [parser.go], with the samplers of
    [internal/distribution] that [<pause>] uses.  The XML decoder of the
    standard library produces the raw elements; everything from there to the
    [Scenario] value the engine runs is modelled. *)

From stdpp Require Import base list gmap strings.
From Stdlib Require Import ZArith Lia Strings.Byte Floats.SpecFloat.
From S2P Require Import Prelude GoStrings GoFloat.

(** ** Data of [model.go] *)

Inductive CommandType :=
  | CommandSend | CommandRecv | CommandSendCmd | CommandRecvCmd
  | CommandPause | CommandNop | CommandLabel | CommandTimeWait.

#[global] Instance CommandType_eq_dec : EqDecision CommandType.
Proof. solve_decision. Defined.

Inductive Mode := ModeClient | ModeServer.

Inductive ActionType :=
  | ActionEReg | ActionAssignStr | ActionAssign | ActionToDouble | ActionAdd
  | ActionSubtract | ActionMultiply | ActionDivide | ActionStrCmp | ActionTest
  | ActionLog | ActionWarning | ActionLookup | ActionSample | ActionInsert
  | ActionReplace | ActionJump | ActionGetTimeOfDay | ActionURLEncode
  | ActionURLDecode | ActionVerifyAuth | ActionExec | ActionSetDest.

#[global] Instance ActionType_eq_dec : EqDecision ActionType.
Proof. solve_decision. Defined.

(** The string constant of an action type. *)
Definition action_name (t : ActionType) : str :=
  match t with
  | ActionEReg => lit "ereg" | ActionAssignStr => lit "assignstr" | ActionAssign => lit "assign"
  | ActionToDouble => lit "todouble" | ActionAdd => lit "add" | ActionSubtract => lit "subtract"
  | ActionMultiply => lit "multiply" | ActionDivide => lit "divide" | ActionStrCmp => lit "strcmp"
  | ActionTest => lit "test" | ActionLog => lit "log" | ActionWarning => lit "warning"
  | ActionLookup => lit "lookup" | ActionSample => lit "sample" | ActionInsert => lit "insert"
  | ActionReplace => lit "replace" | ActionJump => lit "jump"
  | ActionGetTimeOfDay => lit "gettimeofday" | ActionURLEncode => lit "urlencode"
  | ActionURLDecode => lit "urldecode" | ActionVerifyAuth => lit "verifyauth"
  | ActionExec => lit "exec" | ActionSetDest => lit "setdest"
  end.

Definition all_actions : list ActionType :=
  [ActionEReg; ActionAssignStr; ActionAssign; ActionToDouble; ActionAdd; ActionSubtract;
   ActionMultiply; ActionDivide; ActionStrCmp; ActionTest; ActionLog; ActionWarning;
   ActionLookup; ActionSample; ActionInsert; ActionReplace; ActionJump; ActionGetTimeOfDay;
   ActionURLEncode; ActionURLDecode; ActionVerifyAuth; ActionExec; ActionSetDest].

Record Action := mkAction {
  a_Type : ActionType;
  a_Regexp : str; a_SearchIn : str; a_Header : str; a_Variable : str; a_Variable2 : str;
  a_AssignTo : list str;
  a_CheckIt : bool; a_CheckItInverse : bool;
  a_Value : str; a_Compare : str; a_Message : str; a_File : str; a_Key : str;
  a_Username : str; a_Password : str; a_Command : str; a_IntCmd : str;
  a_RTPStream : str; a_RTPRecord : str; a_RTPCheck : str;
  a_PlayPCAPAudio : str; a_PlayPCAPVideo : str; a_PlayPCAPImage : str; a_SendDTMF : str;
  a_Host : str; a_Port : str; a_Protocol : str
}.

(** ** Samplers ([internal/distribution]); durations are int64 nanoseconds *)

Definition Millisecond : Z := 1000000.
Definition Second : Z := 1000 * Millisecond.

Inductive Sampler :=
  | Fixed (Value : Z)
  | Uniform (Min Max : Z)
  | Normal (Mean Stdev : Z).

(** The random source: what the next [Int63n n] (for [n > 0]) and the next
    [NormFloat64] return. *)
Record rng := mkRng { Int63n : Z -> Z; NormFloat64 : float64 }.

(** [Sample]; [rand.Int63n] panics on an argument that is not positive. *)
Definition Sample (s : Sampler) (r : rng) : outcome Z :=
  match s with
  | Fixed v => Ret v
  | Uniform mn mx =>
    if mx <=? mn then Ret mn
    else
      let delta := i64 (mx - mn) in
      if delta <=? 0 then Panic else Ret (i64 (mn + Int63n r delta))
  | Normal mean stdev =>
    let sample := fadd (fmul (NormFloat64 r) (float_of_int stdev)) (float_of_int mean) in
    Ret (if flt sample fzero then 0 else int64_of_float sample)
  end.

Inductive dist_error :=
  | ErrFixedMs | ErrUniformMinRequired | ErrUniformMaxRequired | ErrUniformMin | ErrUniformMax
  | ErrUniformMinNegative | ErrUniformMaxNegative | ErrUniformOrder
  | ErrNormalMeanRequired | ErrNormalStdevRequired | ErrNormalMean | ErrNormalStdev
  | ErrNormalMeanNegative | ErrNormalStdevNegative | ErrNormalZero
  | ErrDistribution (t : str).

(** [time.Duration(ms) * time.Millisecond], in int64. *)
Definition ms_duration (ms : Z) : Z := i64 (ms * Millisecond).

Definition parseDurationMs (value : str) : option Z :=
  match TrimSpace value with
  | [] => Some 0
  | v => match Atoi v with
         | None => None
         | Some ms => if ms <? 0 then None else Some (ms_duration ms)
         end
  end.

Definition parseFloat (value : str) : option float64 :=
  match TrimSpace value with
  | [] => Some fzero
  | v => ParseFloat v
  end.

(** [time.Duration(x * float64(time.Millisecond))] *)
Definition ms_of_float (x : float64) : Z := int64_of_float (fmul x (float_of_int Millisecond)).

Definition NewFromXML (distType milliseconds mean stdev min max : str) : result dist_error Sampler :=
  let distType := match distType with [] => lit "fixed" | _ => distType end in
  let t := ToLower distType in
  if bool_decide (t = lit "fixed") then
    match parseDurationMs milliseconds with
    | None => Err ErrFixedMs
    | Some ms => Ok (Fixed ms)
    end
  else if bool_decide (t = lit "uniform") then
    if bool_decide (TrimSpace min = []) then Err ErrUniformMinRequired else
    if bool_decide (TrimSpace max = []) then Err ErrUniformMaxRequired else
    match parseFloat min with
    | None => Err ErrUniformMin
    | Some minFloat =>
      match parseFloat max with
      | None => Err ErrUniformMax
      | Some maxFloat =>
        if flt minFloat fzero then Err ErrUniformMinNegative else
        if flt maxFloat fzero then Err ErrUniformMaxNegative else
        let minMs := ms_of_float minFloat in
        let maxMs := ms_of_float maxFloat in
        if maxMs <? minMs then Err ErrUniformOrder else Ok (Uniform minMs maxMs)
      end
    end
  else if bool_decide (t = lit "normal") then
    if bool_decide (TrimSpace mean = []) then Err ErrNormalMeanRequired else
    if bool_decide (TrimSpace stdev = []) then Err ErrNormalStdevRequired else
    match parseFloat mean with
    | None => Err ErrNormalMean
    | Some meanFloat =>
      match parseFloat stdev with
      | None => Err ErrNormalStdev
      | Some stdevFloat =>
        if flt meanFloat fzero then Err ErrNormalMeanNegative else
        if flt stdevFloat fzero then Err ErrNormalStdevNegative else
        if feq meanFloat fzero && feq stdevFloat fzero then Err ErrNormalZero else
        Ok (Normal (ms_of_float meanFloat) (ms_of_float stdevFloat))
      end
    end
  else Err (ErrDistribution distType).

(** ** Helpers of [parser.go] *)

Definition parseBool (value : str) : bool :=
  let v := ToLower (TrimSpace value) in
  bool_decide (v = lit "1") || bool_decide (v = lit "true") || bool_decide (v = lit "yes").

Definition parseDurationMilliseconds (value : str) : Z :=
  match TrimSpace value with
  | [] => 0
  | v => match Atoi v with
         | Some ms => ms_duration ms
         | None => 0
         end
  end.

(** The parts of a comma separated list that are not blank, trimmed. *)
Definition parseVariablesList (value : str) : list str :=
  flat_map (fun part => match TrimSpace part with [] => [] | p => [p] end) (Split value x2c).

Definition normalizeInnerXML (value : str) : str :=
  let value := ReplaceAll value [x0d; x0a] [x0a] in
  let value := ReplaceAll value (lit "<![CDATA[") [] in
  let value := ReplaceAll value (lit "]]>") [] in
  match TrimSpace value with
  | [] => []
  | v => ReplaceAll v [x0a] [x0d; x0a] ++ [x0d; x0a]
  end.

(** ** Raw elements, as the XML decoder fills them *)

Record rawActionItem := mkRawActionItem {
  ri_Name : str;
  ri_Regexp : str; ri_SearchIn : str; ri_Header : str; ri_Variable : str; ri_Variable2 : str;
  ri_AssignTo : str; ri_CheckIt : str; ri_CheckItInverse : str;
  ri_Value : str; ri_Compare : str; ri_Message : str; ri_File : str; ri_Key : str;
  ri_Username : str; ri_Password : str; ri_Command : str; ri_IntCmd : str;
  ri_RTPStream : str; ri_RTPRecord : str; ri_RTPCheck : str;
  ri_PlayPCAPAudio : str; ri_PlayPCAPVideo : str; ri_PlayPCAPImage : str; ri_SendDTMF : str;
  ri_Host : str; ri_Port : str; ri_Protocol : str
}.

(** An [<action>] block: its children. *)
Abbreviation rawAction := (list rawActionItem).

Record rawElement := mkRawElement {
  re_Name : str; re_Text : str; re_Next : str; re_Test : str; re_Chance : str;
  re_CondExec : str; re_CondExecInverse : str; re_Counter : str; re_Display : str;
  re_StartRTD : str; re_RTD : str; re_Retrans : str; re_Request : str; re_Response : str;
  re_RegexpMatch : str; re_RRS : str; re_Optional : str; re_Timeout : str;
  re_Milliseconds : str; re_ID : str; re_Dest : str; re_Src : str;
  re_Actions : list rawAction;
  re_Distribution : str; re_Mean : str; re_Stdev : str; re_Min : str; re_Max : str
}.

(** A top-level element has, besides, the [variables] attribute and child
    elements. *)
Record rawScenarioItem := mkRawScenarioItem {
  rs_elem : rawElement;
  rs_Variables : str;
  rs_Elements : list rawElement
}.

Record rawScenario := mkRawScenario {
  rw_Name : str;
  rw_WebRTC : str;
  rw_Elements : list rawScenarioItem
}.

(** ** Commands *)

Record Command := mkCommand {
  c_Type : CommandType; c_Index : Z; c_Display : str; c_Counter : str;
  c_StartRTD : str; c_StopRTD : str; c_NextLabel : str; c_NextIndex : Z;
  c_Test : str; c_Chance : float64; c_CondExec : str; c_CondExecInverse : bool;
  c_SendText : str; c_Retrans : Z; c_RecvReq : str; c_RecvResp : str;
  c_RegexpMatch : bool; c_RecvReqRegex : option str; c_RRS : bool;
  c_CmdDest : str; c_CmdSrc : str; c_Optional : bool; c_Timeout : Z;
  c_Pause : option Sampler; c_LabelID : str; c_TimeWait : bool; c_Actions : list Action
}.

Inductive scenario_error :=
  | ErrRegexpNoRequest (index : Z)
  | ErrRegexpInvalid (index : Z)
  | ErrPause (index : Z) (e : dist_error)
  | ErrTimewait (index : Z) (e : dist_error)
  | ErrChance (value : str)
  | ErrLabelNoID (index : Z)
  | ErrRecvEmpty (index : Z)
  | ErrUnsupportedAction (name : str)
  | ErrUnknownLabel (init : bool) (index : Z) (label : str)
  | ErrNoCommands.

Definition parseActionType (name : str) : option ActionType :=
  list_find (fun t => action_name t = TrimSpace name) all_actions ≫= fun p => Some p.2.

(** One child of an [<action>] block. *)
Definition parseAction (child : rawActionItem) : result scenario_error Action :=
  match parseActionType (ri_Name child) with
  | None => Err (ErrUnsupportedAction (ri_Name child))
  | Some t =>
    Ok (mkAction t
      (TrimSpace (ri_Regexp child)) (TrimSpace (ri_SearchIn child)) (TrimSpace (ri_Header child))
      (TrimSpace (ri_Variable child)) (TrimSpace (ri_Variable2 child))
      (match TrimSpace (ri_AssignTo child) with
       | [] => []
       | assignTo => parseVariablesList assignTo
       end)
      (parseBool (ri_CheckIt child)) (parseBool (ri_CheckItInverse child))
      (TrimSpace (ri_Value child)) (TrimSpace (ri_Compare child)) (TrimSpace (ri_Message child))
      (TrimSpace (ri_File child)) (TrimSpace (ri_Key child)) (TrimSpace (ri_Username child))
      (TrimSpace (ri_Password child)) (TrimSpace (ri_Command child)) (TrimSpace (ri_IntCmd child))
      (TrimSpace (ri_RTPStream child)) (TrimSpace (ri_RTPRecord child)) (TrimSpace (ri_RTPCheck child))
      (TrimSpace (ri_PlayPCAPAudio child)) (TrimSpace (ri_PlayPCAPVideo child))
      (TrimSpace (ri_PlayPCAPImage child)) (TrimSpace (ri_SendDTMF child))
      (TrimSpace (ri_Host child)) (TrimSpace (ri_Port child)) (TrimSpace (ri_Protocol child)))
  end.

(** Map a fallible function over a list, stopping at the first error. *)
Fixpoint map_result {E A B} (f : A -> result E B) (l : list A) : result E (list B) :=
  match l with
  | [] => Ok []
  | x :: l' => let? y := f x in let? ys := map_result f l' in Ok (y :: ys)
  end.

Definition parseActions (raw : list rawAction) : result scenario_error (list Action) :=
  map_result parseAction (concat raw).

Definition blankCommand (t : CommandType) (index : Z) : Command :=
  mkCommand t index [] [] [] [] [] (-1) [] fone [] false
    [] 0 [] [] false None false [] [] false 0 None [] false [].

(** The element's local name is [name]. *)
Definition named (elem : rawElement) (name : string) : bool := bool_decide (re_Name elem = lit name).

(** Clamping of the [chance] attribute. *)
Definition clampChance (value : float64) : float64 :=
  if flt value fzero then fzero else if flt fone value then fone else value.

Definition parseChance (elem : rawElement) : result scenario_error float64 :=
  match TrimSpace (re_Chance elem) with
  | [] => Ok fone
  | chance => match ParseFloat chance with
              | None => Err (ErrChance chance)
              | Some value => Ok (clampChance value)
              end
  end.

Section Parser.

(** [regexp.Compile] succeeds on the pattern. *)
Context (compiles : str -> bool).

(** The [switch] of [rawElementToCommand]: the fields each kind of element
    sets; [None] for an element that is not a command. *)
Definition commandOfKind (elem : rawElement) (index : Z) : result scenario_error (option Command) :=
  if named elem "send" then
    Ok (Some (mkCommand CommandSend index [] [] [] [] [] (-1) [] fone [] false
      (normalizeInnerXML (re_Text elem)) (parseDurationMilliseconds (re_Retrans elem))
      [] [] false None false [] [] false 0 None [] false []))
  else if named elem "sendCmd" then
    Ok (Some (mkCommand CommandSendCmd index [] [] [] [] [] (-1) [] fone [] false
      (normalizeInnerXML (re_Text elem)) 0 [] [] false None false
      (TrimSpace (re_Dest elem)) [] false 0 None [] false []))
  else if named elem "recv" then
    let req := TrimSpace (re_Request elem) in
    let resp := TrimSpace (re_Response elem) in
    let isRe := parseBool (re_RegexpMatch elem) in
    if isRe && bool_decide (req = []) then Err (ErrRegexpNoRequest index)
    else if isRe && negb (compiles req) then Err (ErrRegexpInvalid index)
    else
      Ok (Some (mkCommand CommandRecv index [] [] [] [] [] (-1) [] fone [] false
        [] 0 req resp isRe (if isRe then Some req else None) (parseBool (re_RRS elem))
        [] [] (parseBool (re_Optional elem)) (parseDurationMilliseconds (re_Timeout elem))
        None [] false []))
  else if named elem "recvCmd" then
    Ok (Some (mkCommand CommandRecvCmd index [] [] [] [] [] (-1) [] fone [] false
      [] 0 [] [] false None false [] (TrimSpace (re_Src elem))
      (parseBool (re_Optional elem)) (parseDurationMilliseconds (re_Timeout elem))
      None [] false []))
  else if named elem "pause" then
    match NewFromXML (re_Distribution elem) (re_Milliseconds elem) (re_Mean elem)
            (re_Stdev elem) (re_Min elem) (re_Max elem) with
    | Err e => Err (ErrPause index e)
    | Ok s => Ok (Some (mkCommand CommandPause index [] [] [] [] [] (-1) [] fone [] false
                [] 0 [] [] false None false [] [] false 0 (Some s) [] false []))
    end
  else if named elem "nop" then Ok (Some (blankCommand CommandNop index))
  else if named elem "label" then
    Ok (Some (mkCommand CommandLabel index [] [] [] [] [] (-1) [] fone [] false
      [] 0 [] [] false None false [] [] false 0 None (TrimSpace (re_ID elem)) false []))
  else if named elem "timewait" then
    match NewFromXML (lit "fixed") (re_Milliseconds elem) [] [] [] [] with
    | Err e => Err (ErrTimewait index e)
    | Ok s => Ok (Some (mkCommand CommandTimeWait index [] [] [] [] [] (-1) [] fone [] false
                [] 0 [] [] false None false [] [] false 0 (Some s) [] true []))
    end
  else Ok None.

(** [rawElementToCommand]; [None] is the zero [Command], whose type is empty. *)
Definition rawElementToCommand (elem : rawElement) (index : Z) : result scenario_error (option Command) :=
  let? base := commandOfKind elem index in
  match base with
  | None => Ok None
  | Some c =>
    let? actions := parseActions (re_Actions elem) in
    let? chance := parseChance elem in
    let cmd := mkCommand (c_Type c) (c_Index c) (TrimSpace (re_Display elem)) (TrimSpace (re_Counter elem))
      (TrimSpace (re_StartRTD elem)) (TrimSpace (re_RTD elem)) (TrimSpace (re_Next elem)) (c_NextIndex c)
      (TrimSpace (re_Test elem)) chance (TrimSpace (re_CondExec elem)) (parseBool (re_CondExecInverse elem))
      (c_SendText c) (c_Retrans c) (c_RecvReq c) (c_RecvResp c) (c_RegexpMatch c) (c_RecvReqRegex c)
      (c_RRS c) (c_CmdDest c) (c_CmdSrc c) (c_Optional c) (c_Timeout c) (c_Pause c) (c_LabelID c)
      (c_TimeWait c) actions in
    if bool_decide (c_Type cmd = CommandLabel) && bool_decide (c_LabelID cmd = []) then Err (ErrLabelNoID index)
    else if bool_decide (c_Type cmd = CommandRecv) && bool_decide (c_RecvReq cmd = [])
            && bool_decide (c_RecvResp cmd = []) then Err (ErrRecvEmpty index)
    else Ok (Some cmd)
  end.

Definition rawScenarioItemToCommand (elem : rawScenarioItem) (index : Z) : result scenario_error (option Command) :=
  rawElementToCommand (rs_elem elem) index.

(** ** Scenarios *)

Record Scenario := mkScenario {
  sc_Name : str; sc_BasePath : str; sc_Mode : Mode; sc_WebRTC : bool;
  sc_Commands : list Command; sc_InitCommands : list Command;
  sc_Labels : gmap str Z; sc_InitLabels : gmap str Z;
  sc_GlobalVariables : list str; sc_UserVariables : list str; sc_References : list str
}.

(** A command appended to a list, its label recorded at its position. *)
Definition addLabel (cmd : Command) (pos : Z) (labels : gmap str Z) : gmap str Z :=
  if bool_decide (c_Type cmd = CommandLabel) then <[c_LabelID cmd := pos]> labels else labels.

(** One child of [<init>]. *)
Definition addInitCommand (sc : Scenario) (child : rawElement) : result scenario_error Scenario :=
  let pos := Z.of_nat (length (sc_InitCommands sc)) in
  let? cmd := rawElementToCommand child pos in
  match cmd with
  | None => Ok sc
  | Some cmd =>
    Ok (mkScenario (sc_Name sc) (sc_BasePath sc) (sc_Mode sc) (sc_WebRTC sc) (sc_Commands sc)
      (sc_InitCommands sc ++ [cmd]) (sc_Labels sc) (addLabel cmd pos (sc_InitLabels sc))
      (sc_GlobalVariables sc) (sc_UserVariables sc) (sc_References sc))
  end.

(** One top-level command element. *)
Definition addCommand (sc : Scenario) (elem : rawScenarioItem) : result scenario_error Scenario :=
  let pos := Z.of_nat (length (sc_Commands sc)) in
  let? cmd := rawScenarioItemToCommand elem pos in
  match cmd with
  | None => Ok sc
  | Some cmd =>
    let mode := if bool_decide (c_Type cmd = CommandRecv) && negb (bool_decide (c_RecvReq cmd = []))
                then ModeServer else sc_Mode sc in
    Ok (mkScenario (sc_Name sc) (sc_BasePath sc) mode (sc_WebRTC sc)
      (sc_Commands sc ++ [cmd]) (sc_InitCommands sc) (addLabel cmd pos (sc_Labels sc)) (sc_InitLabels sc)
      (sc_GlobalVariables sc) (sc_UserVariables sc) (sc_References sc))
  end.

(** Fold a fallible step over a list. *)
Fixpoint foldl_result {E A B} (f : B -> A -> result E B) (b : B) (l : list A) : result E B :=
  match l with
  | [] => Ok b
  | x :: l' => let? b' := f b x in foldl_result f b' l'
  end.

(** The body of the element loop of [ParseString]. *)
Definition addElement (sc : Scenario) (elem : rawScenarioItem) : result scenario_error Scenario :=
  let vars := parseVariablesList (rs_Variables elem) in
  if named (rs_elem elem) "Global" then
    Ok (mkScenario (sc_Name sc) (sc_BasePath sc) (sc_Mode sc) (sc_WebRTC sc) (sc_Commands sc) (sc_InitCommands sc)
      (sc_Labels sc) (sc_InitLabels sc) (sc_GlobalVariables sc ++ vars) (sc_UserVariables sc) (sc_References sc))
  else if named (rs_elem elem) "User" then
    Ok (mkScenario (sc_Name sc) (sc_BasePath sc) (sc_Mode sc) (sc_WebRTC sc) (sc_Commands sc) (sc_InitCommands sc)
      (sc_Labels sc) (sc_InitLabels sc) (sc_GlobalVariables sc) (sc_UserVariables sc ++ vars) (sc_References sc))
  else if named (rs_elem elem) "Reference" then
    Ok (mkScenario (sc_Name sc) (sc_BasePath sc) (sc_Mode sc) (sc_WebRTC sc) (sc_Commands sc) (sc_InitCommands sc)
      (sc_Labels sc) (sc_InitLabels sc) (sc_GlobalVariables sc) (sc_UserVariables sc) (sc_References sc ++ vars))
  else if named (rs_elem elem) "init" then foldl_result addInitCommand sc (rs_Elements elem)
  else addCommand sc elem.

(** The loop that resolves [next] labels; [i] is the position of the list's
    head. *)
Fixpoint resolveLabels (init : bool) (labels : gmap str Z) (i : Z) (cmds : list Command)
    : result scenario_error (list Command) :=
  match cmds with
  | [] => Ok []
  | c :: cmds' =>
    let? c' :=
      match c_NextLabel c with
      | [] => Ok c
      | label =>
        match labels !! label with
        | None => Err (ErrUnknownLabel init i label)
        | Some next =>
          Ok (mkCommand (c_Type c) (c_Index c) (c_Display c) (c_Counter c) (c_StartRTD c) (c_StopRTD c)
            (c_NextLabel c) next (c_Test c) (c_Chance c) (c_CondExec c) (c_CondExecInverse c)
            (c_SendText c) (c_Retrans c) (c_RecvReq c) (c_RecvResp c) (c_RegexpMatch c) (c_RecvReqRegex c)
            (c_RRS c) (c_CmdDest c) (c_CmdSrc c) (c_Optional c) (c_Timeout c) (c_Pause c) (c_LabelID c)
            (c_TimeWait c) (c_Actions c))
        end
      end in
    let? rest := resolveLabels init labels (i + 1) cmds' in
    Ok (c' :: rest)
  end.

(** [ParseString] on a decoded document. *)
Definition ParseString (raw : rawScenario) : result scenario_error Scenario :=
  let? sc := foldl_result addElement
    (mkScenario (rw_Name raw) (lit ".") ModeClient (parseBool (rw_WebRTC raw)) [] [] ∅ ∅ [] [] [])
    (rw_Elements raw) in
  let? cmds := resolveLabels false (sc_Labels sc) 0 (sc_Commands sc) in
  let? inits := resolveLabels true (sc_InitLabels sc) 0 (sc_InitCommands sc) in
  match cmds with
  | [] => Err ErrNoCommands
  | _ => Ok (mkScenario (sc_Name sc) (sc_BasePath sc) (sc_Mode sc) (sc_WebRTC sc) cmds inits
           (sc_Labels sc) (sc_InitLabels sc) (sc_GlobalVariables sc) (sc_UserVariables sc) (sc_References sc))
  end.

End Parser.

(** * Lemmas *)

Lemma foldl_result_inv {E A B} (P : B -> Prop) (f : B -> A -> result E B) b l b' :
  (forall b x b', P b -> f b x = Ok b' -> P b') -> P b -> foldl_result f b l = Ok b' -> P b'.
Proof.
  intros Hf. revert b. induction l as [|x l IH]; intros b Hb; simpl.
  - by intros [= <-].
  - intros H. apply rbind_ok in H as (b1 & H1 & H2). by eapply IH, H2; eapply Hf.
Qed.

Lemma map_result_length {E A B} (f : A -> result E B) l l' :
  map_result f l = Ok l' -> length l' = length l.
Proof.
  revert l'. induction l as [|x l IH]; intros l'; simpl; [by intros [= <-]|].
  intros H. apply rbind_ok in H as (y & _ & H). apply rbind_ok in H as (ys & H & [= <-]).
  simpl. f_equal. by apply IH.
Qed.

(** ** What a parsed command satisfies *)

Definition chance_ok (c : Command) : Prop :=
  flt (c_Chance c) fzero = false /\ flt fone (c_Chance c) = false.

Definition kind_ok (c : Command) : Prop :=
  (c_Type c = CommandLabel -> c_LabelID c <> [])
  /\ (c_Type c = CommandRecv -> c_RecvReq c <> [] \/ c_RecvResp c <> [])
  /\ (c_RegexpMatch c = true -> c_RecvReq c <> [] /\ c_RecvReqRegex c = Some (c_RecvReq c))
  /\ (c_Type c = CommandPause \/ c_Type c = CommandTimeWait -> is_Some (c_Pause c)).

Lemma clampChance_ok v : flt (clampChance v) fzero = false /\ flt fone (clampChance v) = false.
Proof.
  unfold clampChance. destruct (flt v fzero) eqn:E1; [by vm_compute|].
  destruct (flt fone v) eqn:E2; [by vm_compute|]. done.
Qed.

Lemma parseChance_ok elem x : parseChance elem = Ok x -> flt x fzero = false /\ flt fone x = false.
Proof.
  unfold parseChance. destruct (TrimSpace (re_Chance elem)) as [|a l].
  - intros [= <-]. by vm_compute.
  - destruct (ParseFloat (a :: l)); [|done]. intros [= <-]. apply clampChance_ok.
Qed.

Section ParserFacts.

Context (compiles : str -> bool).

Lemma commandOfKind_ok elem index c :
  commandOfKind compiles elem index = Ok (Some c) ->
  c_Index c = index /\ c_NextIndex c = -1
  /\ (c_RegexpMatch c = true -> c_RecvReq c <> [] /\ c_RecvReqRegex c = Some (c_RecvReq c))
  /\ (c_Type c = CommandPause \/ c_Type c = CommandTimeWait -> is_Some (c_Pause c)).
Proof.
  unfold commandOfKind. intros H.
  repeat (destruct (named elem _); [try (injection H as <-; simpl; by intuition)|]); [| | |done].
  - destruct (parseBool (re_RegexpMatch elem)) eqn:Er; simpl in H.
    + case_bool_decide; [done|]. destruct (compiles _); [|done].
      injection H as <-. simpl. by intuition.
    + injection H as <-. simpl. by intuition.
  - case_hyp H; [|done]. injection H as <-. by simpl.
  - case_hyp H; [|done]. injection H as <-. by simpl.
Qed.

Lemma rawElementToCommand_ok elem index c :
  rawElementToCommand compiles elem index = Ok (Some c) ->
  c_Index c = index /\ c_NextIndex c = -1 /\ kind_ok c /\ chance_ok c.
Proof.
  unfold rawElementToCommand. intros H.
  apply rbind_ok in H as ([base|] & Hb & H); [|done].
  apply rbind_ok in H as (acts & _ & H). apply rbind_ok in H as (ch & Hch & H).
  apply commandOfKind_ok in Hb as (H1 & H2 & H3 & H4). apply parseChance_ok in Hch.
  cbv zeta in H. cbn [c_Type c_LabelID c_RecvReq c_RecvResp] in H.
  destruct (bool_decide (c_Type base = CommandLabel) && bool_decide (c_LabelID base = [])) eqn:El; [done|].
  destruct (bool_decide (c_Type base = CommandRecv) && bool_decide (c_RecvReq base = [])
            && bool_decide (c_RecvResp base = [])) eqn:Er; [done|].
  injection H as <-. unfold kind_ok, chance_ok. simpl.
  split; [done|]. split; [done|]. split; [|done].
  split; [|split; [|split; [exact H3|exact H4]]].
  - intros Ht Hl. by rewrite Ht, Hl in El.
  - intros Ht. destruct (c_RecvReq base); [|by left]. destruct (c_RecvResp base); [|by right].
    by rewrite Ht in Er.
Qed.

(** ** The command lists while the document is read *)

(** [p] is the position of the last label of that name. *)
Definition last_label (cmds : list Command) (label : str) (p : Z) : Prop :=
  0 <= p
  /\ (exists c, cmds !! Z.to_nat p = Some c /\ c_Type c = CommandLabel /\ c_LabelID c = label)
  /\ (forall p' c, (Z.to_nat p < p')%nat -> cmds !! p' = Some c ->
      c_Type c = CommandLabel -> c_LabelID c <> label).

Definition list_ok (cmds : list Command) (labels : gmap str Z) : Prop :=
  (forall i c, cmds !! i = Some c ->
    c_Index c = Z.of_nat i /\ c_NextIndex c = -1 /\ kind_ok c /\ chance_ok c)
  /\ (forall label p, labels !! label = Some p <-> last_label cmds label p).

Lemma list_ok_nil : list_ok [] ∅.
Proof.
  split; [by intros i c|]. intros label p. rewrite lookup_empty. split; [done|].
  intros (_ & (c & H & _) & _). done.
Qed.

Lemma last_label_range cmds label p : last_label cmds label p -> 0 <= p < Z.of_nat (length cmds).
Proof. intros (H & (c & Hc & _) & _). apply lookup_lt_Some in Hc. lia. Qed.

Lemma last_label_snoc cmds c label p :
  last_label (cmds ++ [c]) label p <->
  (p = Z.of_nat (length cmds) /\ c_Type c = CommandLabel /\ c_LabelID c = label)
  \/ (last_label cmds label p /\ ~ (c_Type c = CommandLabel /\ c_LabelID c = label)).
Proof.
  unfold last_label. split.
  - intros (Hp & (x & Hx & Ht & Hl) & Hlast).
    apply lookup_snoc_Some in Hx as [[Hlt Hx]|[Heq ->]].
    + right. split; [|intros [Hct Hcl]; eapply (Hlast (length cmds)); eauto; by apply lookup_snoc_Some; right].
      split; [done|]. split; [by exists x|]. intros p' y Hgt Hy. apply (Hlast p'); [done|].
      apply lookup_snoc_Some. left. split; [by eapply lookup_lt_Some|done].
    + left. split; [lia|done].
  - intros [(-> & Ht & Hl)|[(Hp & (x & Hx & Ht & Hl) & Hlast) Hc]].
    + split; [lia|]. rewrite Nat2Z.id. split.
      * exists c. split; [by apply lookup_snoc_Some; right|done].
      * intros p' y Hgt Hy. apply lookup_lt_Some in Hy. rewrite length_app in Hy. simpl in Hy. lia.
    + split; [done|]. split.
      * exists x. split; [|done]. apply lookup_snoc_Some. left. split; [by eapply lookup_lt_Some|done].
      * intros p' y Hgt Hy Hty Hly. apply lookup_snoc_Some in Hy as [[_ Hy]|[_ ->]]; [|naive_solver].
        by eapply Hlast.
Qed.

Lemma list_ok_snoc cmds labels c :
  list_ok cmds labels ->
  c_Index c = Z.of_nat (length cmds) -> c_NextIndex c = -1 -> kind_ok c -> chance_ok c ->
  list_ok (cmds ++ [c]) (addLabel c (Z.of_nat (length cmds)) labels).
Proof.
  intros [Hc Hl] H1 H2 H3 H4. split.
  - intros i x Hx. apply lookup_snoc_Some in Hx as [[_ Hx]|[-> ->]]; [by apply Hc|done].
  - intros label p. rewrite last_label_snoc. unfold addLabel. case_bool_decide as Ht.
    + rewrite lookup_insert_Some, Hl. split.
      * intros [[<- <-]|[Hne Hx]]; [by left|]. right. split; [done|]. naive_solver.
      * intros [(-> & _ & <-)|[Hx Hn]]; [by left|]. right. split; [|done]. naive_solver.
    + rewrite Hl. naive_solver.
Qed.

(** The mode is server exactly when some command receives a request. *)
Definition receives_request (c : Command) : Prop := c_Type c = CommandRecv /\ c_RecvReq c <> [].

Definition mode_ok (m : Mode) (cmds : list Command) : Prop :=
  m = ModeServer <-> Exists receives_request cmds.

Definition build_inv (sc : Scenario) : Prop :=
  list_ok (sc_Commands sc) (sc_Labels sc) /\ list_ok (sc_InitCommands sc) (sc_InitLabels sc)
  /\ mode_ok (sc_Mode sc) (sc_Commands sc).

Lemma addInitCommand_inv sc child sc' :
  build_inv sc -> addInitCommand compiles sc child = Ok sc' -> build_inv sc'.
Proof.
  intros (H1 & H2 & H3) H. unfold addInitCommand in H.
  apply rbind_ok in H as ([c|] & Hc & H); injection H as <-; [|done].
  apply rawElementToCommand_ok in Hc as (Hi & Hn & Hk & Hch).
  split; [done|]. split; [|done]. by apply list_ok_snoc.
Qed.

Lemma addCommand_inv sc elem sc' :
  build_inv sc -> addCommand compiles sc elem = Ok sc' -> build_inv sc'.
Proof.
  intros (H1 & H2 & H3) H. unfold addCommand, rawScenarioItemToCommand in H.
  apply rbind_ok in H as ([c|] & Hc & H); injection H as <-; [|done].
  apply rawElementToCommand_ok in Hc as (Hi & Hn & Hk & Hch).
  split; [by apply list_ok_snoc|]. split; [done|]. unfold mode_ok in *. cbn [sc_Mode sc_Commands].
  rewrite Exists_app, Exists_cons, Exists_nil. unfold receives_request at 2.
  destruct (bool_decide (c_Type c = CommandRecv) && negb (bool_decide (c_RecvReq c = []))) eqn:E.
  - bool_to_prop. naive_solver.
  - rewrite H3. split; [by left|]. intros [?|[[Ht Hr]|[]]]; [done|].
    by rewrite Ht, (bool_decide_false _ Hr) in E.
Qed.

Lemma addElement_inv sc elem sc' :
  build_inv sc -> addElement compiles sc elem = Ok sc' -> build_inv sc'.
Proof.
  intros Hinv. unfold addElement.
  destruct (named _ "Global"); [by intros [= <-]|].
  destruct (named _ "User"); [by intros [= <-]|].
  destruct (named _ "Reference"); [by intros [= <-]|].
  destruct (named _ "init"); [|by apply addCommand_inv].
  intros H. eapply foldl_result_inv, H; [|done]. intros b x b' Hb Hx. by eapply addInitCommand_inv.
Qed.

(** ** Label resolution *)

(** Everything but the resolved index is unchanged. *)
Definition resolved (labels : gmap str Z) (c c' : Command) : Prop :=
  c_Index c' = c_Index c /\ c_Type c' = c_Type c /\ c_LabelID c' = c_LabelID c
  /\ c_NextLabel c' = c_NextLabel c /\ c_RecvReq c' = c_RecvReq c /\ c_RecvResp c' = c_RecvResp c
  /\ c_Chance c' = c_Chance c /\ c_Actions c' = c_Actions c
  /\ (kind_ok c -> kind_ok c')
  /\ match c_NextLabel c with
     | [] => c_NextIndex c' = c_NextIndex c
     | label => labels !! label = Some (c_NextIndex c')
     end.

Lemma resolveLabels_ok init labels i cmds cmds' :
  resolveLabels init labels i cmds = Ok cmds' -> Forall2 (resolved labels) cmds cmds'.
Proof.
  revert i cmds'. induction cmds as [|c cmds IH]; intros i cmds'; cbn [resolveLabels].
  - intros [= <-]. constructor.
  - intros H. apply rbind_ok in H as (c' & Hc & H). apply rbind_ok in H as (rest & Hr & [= <-]).
    constructor; [|by eapply IH]. destruct (c_NextLabel c) as [|a l] eqn:El.
    + injection Hc as <-. unfold resolved. rewrite El. auto 20.
    + destruct (labels !! (a :: l)) as [next|] eqn:En; [|done]. injection Hc as <-.
      unfold resolved, kind_ok. rewrite El. cbn. auto 20.
Qed.

(** A label that is not defined anywhere stops the parser. *)
Lemma resolveLabels_complete init labels i cmds :
  (forall c, c ∈ cmds -> c_NextLabel c <> [] -> is_Some (labels !! c_NextLabel c)) ->
  exists cmds', resolveLabels init labels i cmds = Ok cmds'.
Proof.
  revert i. induction cmds as [|c cmds IH]; intros i Hc; cbn [resolveLabels]; [eauto|].
  destruct (IH (i + 1)) as [rest Hr]; [intros x Hx; apply Hc; set_solver|].
  assert (c_NextLabel c <> [] -> is_Some (labels !! c_NextLabel c)) as Hl by (apply Hc; set_solver).
  rewrite Hr. destruct (c_NextLabel c) as [|a l]; simpl; [eauto|].
  destruct (Hl ltac:(done)) as [next ->]. simpl. eauto.
Qed.

Lemma last_label_resolved labels cmds cmds' label p :
  Forall2 (resolved labels) cmds cmds' -> last_label cmds label p -> last_label cmds' label p.
Proof.
  intros Hf (Hp & (c & Hc & Ht & Hl) & Hlast). split; [done|]. split.
  - destruct (Forall2_lookup_l _ _ _ _ _ Hf Hc) as (c' & Hc' & R).
    destruct R as (_ & R1 & R2 & _). exists c'. split; [done|]. by rewrite R1, R2.
  - intros p' c' Hgt Hc' Ht'. destruct (Forall2_lookup_r _ _ _ _ _ Hf Hc') as (x & Hx & R).
    destruct R as (_ & R1 & R2 & _). rewrite R2. eapply Hlast; [done|done|]. by rewrite <- R1.
Qed.

(** ** Well-formed scenarios *)

(** What the engine relies on when it runs a list of commands. *)
Definition commands_wf (cmds : list Command) : Prop :=
  forall i c, cmds !! i = Some c ->
    c_Index c = Z.of_nat i /\ kind_ok c /\ chance_ok c
    /\ (c_NextLabel c = [] -> c_NextIndex c = -1)
    /\ (c_NextLabel c <> [] -> last_label cmds (c_NextLabel c) (c_NextIndex c)).

(** The label table holds the position of the last label of each name. *)
Definition labels_wf (labels : gmap str Z) (cmds : list Command) : Prop :=
  forall label p, labels !! label = Some p -> last_label cmds label p.

Definition scenario_wf (sc : Scenario) : Prop :=
  sc_Commands sc <> [] /\ commands_wf (sc_Commands sc) /\ commands_wf (sc_InitCommands sc)
  /\ mode_ok (sc_Mode sc) (sc_Commands sc) /\ labels_wf (sc_Labels sc) (sc_Commands sc).

Lemma resolved_labels init labels cmds cmds' :
  list_ok cmds labels -> resolveLabels init labels 0 cmds = Ok cmds' -> labels_wf labels cmds'.
Proof.
  intros [_ Hl] Hr label p Hp. apply resolveLabels_ok in Hr.
  apply (last_label_resolved labels cmds); [done|]. by apply Hl.
Qed.

Lemma resolved_wf init labels cmds cmds' :
  list_ok cmds labels -> resolveLabels init labels 0 cmds = Ok cmds' -> commands_wf cmds'.
Proof.
  intros [Hc Hl] Hr i c' Hi. apply resolveLabels_ok in Hr as Hf.
  destruct (Forall2_lookup_r _ _ _ _ _ Hf Hi) as (c & Hci & R).
  destruct (Hc i c Hci) as (H1 & H2 & H3 & H4).
  destruct R as (R1 & R2 & R3 & R4 & _ & _ & R7 & _ & R9 & R10).
  split; [by rewrite R1|]. split; [by apply R9|]. split; [unfold chance_ok; by rewrite R7|].
  rewrite R4. destruct (c_NextLabel c) as [|a l].
  - split; [by rewrite R10|done].
  - split; [done|]. intros _. apply (last_label_resolved labels cmds); [done|]. by apply Hl.
Qed.

Lemma mode_resolved m init labels i cmds cmds' :
  mode_ok m cmds -> resolveLabels init labels i cmds = Ok cmds' -> mode_ok m cmds'.
Proof.
  intros Hm Hr. apply resolveLabels_ok in Hr. unfold mode_ok in *. rewrite Hm. clear Hm.
  induction Hr as [|c c' cmds cmds' R Hr IH]; [by rewrite !Exists_nil|].
  rewrite !Exists_cons, IH. destruct R as (_ & R2 & _ & _ & R5 & _).
  unfold receives_request. by rewrite R2, R5.
Qed.

Lemma ParseString_wf raw sc : ParseString compiles raw = Ok sc -> scenario_wf sc.
Proof.
  intros H. unfold ParseString in H. apply rbind_ok in H as (b & Hb & H).
  apply rbind_ok in H as (cmds & Hc & H). apply rbind_ok in H as (inits & Hi & H).
  assert (build_inv b) as (H1 & H2 & H3).
  { eapply foldl_result_inv, Hb; [intros; by eapply addElement_inv|].
    split; [apply list_ok_nil|]. split; [apply list_ok_nil|].
    unfold mode_ok. cbn. rewrite Exists_nil. done. }
  destruct cmds as [|c cmds]; [done|]. injection H as <-.
  split; [done|]. split; [exact (resolved_wf _ _ _ _ H1 Hc)|].
  split; [exact (resolved_wf _ _ _ _ H2 Hi)|].
  split; [exact (mode_resolved _ _ _ _ _ _ H3 Hc)|exact (resolved_labels _ _ _ _ H1 Hc)].
Qed.

(** * Properties *)

(** C21: Every scenario the parser accepts is well formed: it has a command;
    commands carry their own position; labels have names, receives a request
    or a status to wait for, pauses a sampler; the jump chance lies between
    0 and 1; a [next] attribute is resolved to the position of the last label
    of that name (in range, in the same list), and a command without one has
    index -1; the label table points to those labels; and the scenario runs
    as a server exactly when it receives a request. *)
Theorem parse_scenario_wf raw sc : ParseString compiles raw = Ok sc -> scenario_wf sc.
Proof. apply ParseString_wf. Qed.

End ParserFacts.

Definition blank_element (name : string) : rawElement :=
  mkRawElement (lit name) [] [] [] [] [] [] [] [] [] [] [] [] [] [] [] [] [] [] [] [] [] [] [] [] [] [] [].

Definition sample_label (id : string) : rawElement :=
  mkRawElement (lit "label") [] [] [] [] [] [] [] [] [] [] [] [] [] [] [] [] [] [] (lit id) [] [] [] [] [] [] [] [].

Definition sample_recv (request next : string) : rawElement :=
  mkRawElement (lit "recv") [] (lit next) [] (lit "2.5") [] [] [] [] [] [] [] (lit request)
    [] [] [] [] [] [] [] [] [] [] [] [] [] [] [].

Definition sample_scenario : rawScenario :=
  mkRawScenario (lit "demo") []
    (map (fun e => mkRawScenarioItem e [] [])
      [sample_label "again"; sample_recv "INVITE" "again"; blank_element "nop"; sample_label "again"]).

Lemma parse_scenario_wf_witness :
  exists sc, ParseString (fun _ => true) sample_scenario = Ok sc /\ scenario_wf sc
    /\ map c_NextIndex (sc_Commands sc) = [-1; 3; -1; -1].
Proof.
  destruct (ParseString (fun _ => true) sample_scenario) as [sc|e] eqn:E; [|by vm_compute in E].
  exists sc. split; [done|]. split; [exact (parse_scenario_wf (fun _ => true) sample_scenario sc E)|].
  assert (match ParseString (fun _ => true) sample_scenario with
          | Ok sc => map c_NextIndex (sc_Commands sc) | Err _ => [] end = [-1; 3; -1; -1]) as H
    by (vm_compute; reflexivity).
  by rewrite E in H.
Defined.

(** ** Pauses *)

Lemma round_aux_sign s m e l :
  match binary_round_aux fprec femax s m e l with
  | S754_finite s' _ _ => s' = s
  | _ => True
  end.
Proof. unfold binary_round_aux. repeat case_goal; try done; congruence. Qed.

Lemma int64_of_float_sign x :
  match x with S754_finite s _ _ => s = false | _ => True end ->
  int64_of_float x = int64_min \/ 0 <= int64_of_float x.
Proof.
  destruct x as [s|s| |s m e]; intros Hs; try (by left);
    [right; change (int64_of_float (S754_zero s)) with 0; lia|]. subst s.
  unfold int64_of_float, ftrunc. destruct (in_int64 _); [|by left]. right.
  destruct (Z.leb_spec 0 e); [|apply Z.div_pos; lia].
  pose proof (Z.pow_nonneg 2 e). nia.
Qed.

(** A parsed float that is not below zero gives no negative duration, except
    for the out-of-range marker of the conversion. *)
Lemma ms_of_float_nonneg x : flt x fzero = false -> ms_of_float x = int64_min \/ 0 <= ms_of_float x.
Proof.
  intros Hx. unfold ms_of_float. apply int64_of_float_sign.
  destruct x as [s|s| |s m e]; try done.
  destruct s; [done|]. unfold fmul.
  change (float_of_int Millisecond) with (S754_finite false 8589934592000000 (-33)).
  apply (round_aux_sign false).
Qed.

(** A random source that keeps to the documented range of [Int63n]. *)
Definition rng_ok (r : rng) : Prop := forall n, 0 < n -> 0 <= Int63n r n < n.

(** A uniform pause accepted by the parser samples inside its bounds,
    unless a bound was not a number or too large for a duration. *)
Theorem uniform_pause_bounds ms mean stdev mn mx a b r :
  NewFromXML (lit "uniform") ms mean stdev mn mx = Ok (Uniform a b) ->
  a <> int64_min -> b <= int64_max -> rng_ok r ->
  exists d, Sample (Uniform a b) r = Ret d /\ 0 <= a <= d /\ d <= b.
Proof.
  intros H Ha Hb Hr.
  assert (0 <= a <= b) as Hab.
  { unfold NewFromXML in H.
    change (match lit "uniform" with [] => lit "fixed" | _ => lit "uniform" end) with (lit "uniform") in H.
    change (ToLower (lit "uniform")) with (lit "uniform") in H. cbv zeta in H.
    rewrite bool_decide_false, bool_decide_true in H by done.
    repeat (case_bool_decide; [done|]).
    destruct (parseFloat mn) as [x|]; [|done]. destruct (parseFloat mx) as [y|]; [|done].
    destruct (flt x fzero) eqn:Ex; [done|]. destruct (flt y fzero) eqn:Ey; [done|].
    destruct (Z.ltb_spec (ms_of_float y) (ms_of_float x)); [done|]. injection H as <- <-.
    destruct (ms_of_float_nonneg x) as [?|?]; [done|done|]. lia. }
  unfold Sample. destruct (Z.leb_spec b a) as [Hle|Hlt].
  - exists a. split; [done|lia].
  - assert (i64 (b - a) = b - a) as Hd.
    { apply i64_small. unfold int64_max, int64_min in *. lia. }
    rewrite Hd. pose proof (Hr (b - a) ltac:(lia)) as Hn.
    destruct (Z.leb_spec (b - a) 0); [lia|]. eexists. split; [done|].
    rewrite i64_small by (unfold int64_max, int64_min in *; lia). lia.
Qed.

Lemma uniform_pause_bounds_witness :
  exists d, Sample (Uniform 1500000 3000000) (mkRng (fun _ => 0) fzero) = Ret d
    /\ 0 <= 1500000 <= d /\ d <= 3000000.
Proof.
  apply (uniform_pause_bounds [] [] [] (lit "1.5") (lit "3")); [vm_compute; reflexivity|done|done|].
  intros n Hn. simpl. lia.
Defined.

(** The negative checks do not catch a bound that is not a number: such a
    pause is accepted and panics when it is sampled. *)
Theorem uniform_pause_nan_panics r :
  exists s, NewFromXML (lit "uniform") [] [] [] (lit "nan") (lit "1") = Ok s /\ Sample s r = Panic.
Proof. eexists. split; [vm_compute; reflexivity|]. reflexivity. Qed.
