(* ===== verification/Template.v ===== *)
(** * [internal/template/render.go]: rendering of scenario text

    The [Context] record, the token scanner, the keyword table, injection files
    and the two passes that compute [len].  Files and the clock are a
    [tmpl_env]; a nil map is an empty one, which no function of this file can
    tell apart. *)

From stdpp Require Import base list gmap strings.
From Stdlib Require Import ZArith Lia Strings.Byte.
From S2P Require Import Prelude GoStrings GoFloat SipMessage.

(** ** Environment and context *)

(** [read_file] is [os.ReadFile], [csv_parse comma data] is
    [encoding/csv]'s [ReadAll] with [FieldsPerRecord = -1], [json_index] is
    [json.Unmarshal] of an index file's [lines]; the two clock strings are the
    formatted [time.Now()] of the rendering. *)
Record tmpl_env := mkTmplEnv {
  read_file : str -> option str;
  csv_parse : byte -> str -> option (list (list str));
  json_index : str -> option (gmap str Z);
  now_timestamp : str;
  now_date : str
}.

(** File, line and field of the in-memory changes to injection files. *)
Abbreviation csv_overrides := (gmap str (gmap Z (gmap Z str))).

Record Context := mkContext {
  Service : str; Transport : str; RemoteHost : str; RemoteIP : str; RemotePort : Z;
  LocalIP : str; ServerIP : str; LocalIPType : str; LocalPort : Z;
  MediaIP : str; MediaIPType : str; MediaPort : Z; IceUfrag : str; IcePwd : str;
  CallID : str; CSeq : Z; CallNumber : Z; MessageIndex : Z; PID : Z; Users : Z; UserID : Z;
  BranchBase : str; LastMessage : str; LastHeaders : headers; BodyLength : Z;
  SIPpVersion : str; ClockTick : Z; DynamicID : Z;
  ExtraKeywords : gmap str str; Variables : gmap str str;
  CSVFieldOverrides : csv_overrides; BasePath : str; InjectionFile : str
}.

Definition setBodyLength (n : Z) (c : Context) : Context :=
  mkContext (Service c) (Transport c) (RemoteHost c) (RemoteIP c) (RemotePort c)
    (LocalIP c) (ServerIP c) (LocalIPType c) (LocalPort c)
    (MediaIP c) (MediaIPType c) (MediaPort c) (IceUfrag c) (IcePwd c)
    (CallID c) (CSeq c) (CallNumber c) (MessageIndex c) (PID c) (Users c) (UserID c)
    (BranchBase c) (LastMessage c) (LastHeaders c) n
    (SIPpVersion c) (ClockTick c) (DynamicID c)
    (ExtraKeywords c) (Variables c) (CSVFieldOverrides c) (BasePath c) (InjectionFile c).

(** ** Lines *)

(** [splitLinesTo]: LF and CRLF end a line, an unterminated rest is a line
    when it is not empty. *)
Fixpoint split_lines_go (value cur : str) : list str :=
  match value with
  | [] => match cur with [] => [] | _ => [rev cur] end
  | a :: value' =>
    if beqb a x0a then rev cur :: split_lines_go value' []
    else match value' with
         | b :: value'' =>
           if beqb a x0d && beqb b x0a then rev cur :: split_lines_go value'' []
           else split_lines_go value' (a :: cur)
         | [] => split_lines_go value' (a :: cur)
         end
  end.

Definition splitLinesTo (value : str) : list str := split_lines_go value [].

(** [firstLineFromMessage] *)
Fixpoint firstLineFromMessage (msg : str) : str :=
  match msg with
  | [] => []
  | a :: r =>
    if beqb a x0a then []
    else match r with
         | b :: _ => if beqb a x0d && beqb b x0a then [] else a :: firstLineFromMessage r
         | [] => [a]
         end
  end.

(** [computeBodyLength] *)
Definition computeBodyLength (msg : str) : Z :=
  match Index msg (crlf ++ crlf) with
  | None => 0
  | Some index => Z.of_nat (length (drop (index + 4) msg))
  end.

(** ** Small helpers *)

(** [parseArithmetic]: [base] and the signed number that ends the token. *)
Fixpoint parse_arith_go (pre value : str) : option (str * Z) :=
  match value with
  | [] => None
  | a :: r =>
    if beqb a x2b || beqb a x2d then
      match Atoi value with
      | Some n => Some (rev pre, n)
      | None => parse_arith_go (a :: pre) r
      end
    else parse_arith_go (a :: pre) r
  end.

Definition parseArithmetic (value : str) : str * Z :=
  match value with
  | [] => (value, 0)
  | a :: r => default (value, 0) (parse_arith_go [a] r)
  end.

Definition one_of (s : str) (l : list string) : bool := existsb (fun x => bool_decide (s = lit x)) l.

Definition transportName (mode : str) : str :=
  let m := ToLower (TrimSpace mode) in
  if one_of m ["u1"; "un"; "ui"]%string then lit "udp"
  else if one_of m ["t1"; "tn"]%string then lit "tcp"
  else if one_of m ["l1"; "ln"]%string then lit "tls"
  else if one_of m ["webrtc"; "wss"; "ws"]%string then lit "wss"
  else mode.

Fixpoint lookupHeader (h : headers) (name : str) : option (list str) :=
  match h with
  | [] => None
  | (key, values) :: h' => if EqualFold key name then Some values else lookupHeader h' name
  end.

Definition renderLastHeader (name : str) (values : list str) (includeName : bool) : str :=
  let prefix := ToLower name ++ lit ":" in
  Join (map (fun value =>
    if includeName then
      if HasPrefix (ToLower (TrimSpace value)) prefix then value else name ++ lit ": " ++ value
    else value) values) crlf.

(** The parameters of a header value, tried in turn. *)
Fixpoint first_tag (parts : list str) : str :=
  match parts with
  | [] => []
  | part :: rest =>
    let part := TrimSpace part in
    if Nat.leb 4 (length part) && HasPrefix (ToLower part) (lit "tag=") then TrimSpace (drop 4 part)
    else first_tag rest
  end.

Definition extractPeerTag (h : headers) : str :=
  match lookupHeader h (lit "To") with
  | Some ((_ :: _) as values) => first_tag (Split (List.last values []) x3b)
  | _ => []
  end.

Definition extractCSeqNumber (h : headers) : str :=
  match lookupHeader h (lit "CSeq") with
  | Some (v :: _) => match Fields v with f :: _ => f | [] => [] end
  | _ => []
  end.

(** The text between the first [<] and the first [>] after it. *)
Definition uri_of (value : str) : str :=
  match Index value (lit "<"), Index value (lit ">") with
  | Some start, Some stop => if Nat.ltb start stop then take (stop - S start) (drop (S start) value) else value
  | _, _ => value
  end.

Definition extractContactURI (h : headers) : str :=
  match lookupHeader h (lit "Contact") with
  | Some (v :: _) => uri_of v
  | _ => []
  end.

Definition extractLastRequestURI (lastMessage : str) (h : headers) : str :=
  let fromTo := match lookupHeader h (lit "To") with Some (v :: _) => uri_of v | _ => [] end in
  match TrimSpace lastMessage with
  | [] => fromTo
  | _ =>
    match Fields (TrimSpace (firstLineFromMessage lastMessage)) with
    | p0 :: p1 :: _ => if HasPrefix (ToUpper p0) (lit "SIP/2.0") then fromTo else p1
    | _ => fromTo
    end
  end.

(** [parseKeyParams]: later keys replace earlier ones. *)
Definition parseKeyParams (value : str) : gmap str str :=
  foldl (fun out part =>
    match Cut part x3d with
    | None => out
    | Some (key, val) => <[ToLower (TrimSpace key) := Trim is_quote (TrimSpace val)]> out
    end) ∅ (Fields value).

Definition param (m : gmap str str) (k : string) : str := default [] (m !! lit k).

(** ** Paths ([path/filepath] on Unix) *)

Fixpoint clean_parts (rooted : bool) (parts stack : list str) : list str :=
  match parts with
  | [] => rev stack
  | p :: rest =>
    if bool_decide (p = []) || bool_decide (p = lit ".") then clean_parts rooted rest stack
    else if bool_decide (p = lit "..") then
      match stack with
      | top :: stack' =>
        if bool_decide (top = lit "..") then clean_parts rooted rest (p :: stack)
        else clean_parts rooted rest stack'
      | [] => if rooted then clean_parts rooted rest [] else clean_parts rooted rest [p]
      end
    else clean_parts rooted rest (p :: stack)
  end.

Definition Clean (path : str) : str :=
  let rooted := HasPrefix path (lit "/") in
  let body := Join (clean_parts rooted (Split path x2f) []) (lit "/") in
  if rooted then lit "/" ++ body else match body with [] => lit "." | _ => body end.

Definition resolvePath (basePath name : str) : str :=
  if HasPrefix name (lit "/") || bool_decide (basePath = []) then name
  else match name with
       | [] => Clean basePath
       | _ => Clean (basePath ++ lit "/" ++ name)
       end.

(** ** Injection files *)

Definition isIgnorableInfCSVRow (record : list str) : bool :=
  match record with
  | [] => true
  | cell :: _ =>
    HasPrefix (TrimSpace cell) (lit "#") || forallb (fun c => bool_decide (TrimSpace c = [])) record
  end.

Definition bom : str := [xef; xbb; xbf].

Definition isSIPpInfDistributionKeyword (s : str) : bool :=
  one_of (ToUpper (TrimSpace (TrimPrefix s bom))) ["SEQUENTIAL"; "RANDOM"; "USER"]%string.

Definition isSIPpDistributionHeaderRecord (record : list str) : bool :=
  match record with
  | [] => false
  | cell :: rest =>
    isSIPpInfDistributionKeyword cell && forallb (fun c => bool_decide (TrimSpace c = [])) rest
  end.

(** [findInfDataRecordsStart] *)
Fixpoint findInfDataRecordsStart (records : list (list str)) : nat :=
  match records with
  | [] => O
  | r :: rest =>
    if isIgnorableInfCSVRow r then S (findInfDataRecordsStart rest)
    else if isSIPpDistributionHeaderRecord r then 1%nat else O
  end.

Definition count_byte (c : byte) (s : str) : nat := length (List.filter (fun b => beqb b c) s).

(** [sniffFieldCSVCommaFromPeek] *)
Fixpoint sniff_lines (lines : list str) : byte :=
  match lines with
  | [] => x2c
  | raw :: rest =>
    let line := TrimSpace raw in
    if bool_decide (line = []) || HasPrefix line (lit "#") then sniff_lines rest
    else if one_of (ToUpper line) ["SEQUENTIAL"; "RANDOM"; "USER"]%string then sniff_lines rest
    else if Nat.eqb (count_byte x2c line) 0 && Nat.eqb (count_byte x3b line) 0 then sniff_lines rest
    else if Nat.ltb (count_byte x2c line) (count_byte x3b line) then x3b else x2c
  end.

Definition sniffFieldCSVCommaFromPeek (peek : str) : byte := sniff_lines (Split (TrimPrefix peek bom) x0a).

Definition infDelimiterPeekBytes : nat := Z.to_nat 65536.

(** A loaded file: its records and the first data row.  The cache of the
    program returns the same entry for the life of the process. *)
Definition getCachedCSV (env : tmpl_env) (path : str) : option (list (list str) * nat) :=
  match read_file env path with
  | None => None
  | Some data =>
    let comma := sniffFieldCSVCommaFromPeek (take infDelimiterPeekBytes data) in
    match csv_parse env comma data with
    | None => None
    | Some records => Some (records, findInfDataRecordsStart records)
    end
  end.

(** [applyCSVFieldOverrides]; fields are distinct keys, so the order in which
    the map is visited does not matter. *)
Definition applyCSVFieldOverrides (fileKey : str) (lineNumber : Z) (record : list str) (ov : csv_overrides) : list str :=
  match ov !! fileKey with
  | None => record
  | Some byFile =>
    match byFile !! lineNumber with
    | None => record
    | Some byLine => imap (fun i cell => default cell (byLine !! Z.of_nat i)) record
    end
  end.

(** [csvRecordAt]; [None] covers both a missing row and a read error. *)
Definition csvRecordAt (env : tmpl_env) (basePath name : str) (lineNumber : Z) (ov : csv_overrides)
    (physicalLine : bool) : option (list str) :=
  if lineNumber <=? 0 then None else
  let path := resolvePath basePath name in
  match getCachedCSV env path with
  | None => None
  | Some (records, dataStart) =>
    let idx :=
      if physicalLine then Some (lineNumber - 1)
      else
        let dataRows := Z.of_nat (length records) - Z.of_nat dataStart in
        if dataRows <=? 0 then None
        else Some (Z.of_nat dataStart + Z.rem (lineNumber - 1) dataRows) in
    match idx with
    | None => None
    | Some idx =>
      match records !! Z.to_nat idx with
      | None => None
      | Some record => Some (applyCSVFieldOverrides path (idx + 1) record ov)
      end
    end
  end.

Definition resolveLineNumber (raw : str) (variables : gmap str str) : option Z :=
  match TrimSpace raw with
  | [] => None
  | value =>
    let value :=
      if HasPrefix value (lit "$") then TrimSpace <$> variables !! TrimPrefix value (lit "$")
      else Some value in
    match value with
    | None => None
    | Some value =>
      match Atoi value with
      | Some n => if n <=? 0 then None else Some n
      | None => None
      end
    end
  end.

(** [renderFieldTokenWithVariables] *)
Definition renderFieldTokenWithVariables (env : tmpl_env) (key basePath : str) (callNumber : Z)
    (variables : gmap str str) (ov : csv_overrides) (defaultInjectionFile : str) : option str :=
  if negb (HasPrefix (ToLower key) (lit "field")) then None else
  let '(fieldName, params) :=
    match IndexByte x20 key with
    | Some idx => (take idx key, drop (S idx) key)
    | None => (key, [])
    end in
  match Atoi (TrimPrefix (ToLower fieldName) (lit "field")) with
  | None => None
  | Some fieldIndex =>
    let parsed := parseKeyParams params in
    let named := TrimSpace (param parsed "file") in
    let '(name, csvBasePath) :=
      match named with
      | [] => (TrimSpace defaultInjectionFile, [])
      | _ => (named, basePath)
      end in
    match name with
    | [] => None
    | _ =>
      let line :=
        match param parsed "line" with
        | [] => Some (callNumber, false)
        | rawLine => match resolveLineNumber rawLine variables with
                     | Some n => Some (n, true)
                     | None => None
                     end
        end in
      match line with
      | None => None
      | Some (lineNumber, explicit) =>
        match csvRecordAt env csvBasePath name lineNumber ov explicit with
        | None => None
        | Some record =>
          if fieldIndex <? 0 then None else Some (default [] (record !! Z.to_nat fieldIndex))
        end
      end
    end
  end.

Definition renderFileToken (env : tmpl_env) (key basePath : str) : option str :=
  match param (parseKeyParams key) "name" with
  | [] => None
  | name => read_file env (resolvePath basePath name)
  end.

(** ** [fill] *)

Definition parseFillLength (raw : str) : option Z :=
  match TrimSpace raw with
  | [] => None
  | raw => match Atoi raw with
           | Some v => Some v
           | None => match ParseFloat raw with
                     | Some f => Some (int64_of_float f)
                     | None => None
                     end
           end
  end.

(** [fillByPattern]: copies of [seed], cut to the length. *)
Definition fillByPattern (seed : str) (length_ : Z) : str :=
  if length_ <=? 0 then []
  else
    let n := Z.to_nat length_ in
    take n (concat (replicate n seed)).

Definition is_fill_space (b : byte) : bool := beqb b x20 || beqb b x09.

Fixpoint after_blank (s : str) : str :=
  match s with
  | [] => []
  | a :: r => if is_fill_space a then r else after_blank r
  end.

Definition renderFillToken (key : str) (variables : gmap str str) : option str :=
  if negb (HasPrefix (ToLower key) (lit "fill")) then None else
  let params := parseKeyParams (after_blank key) in
  match TrimSpace (param params "variable") with
  | [] => None
  | varName =>
    match variables !! TrimPrefix varName (lit "$") with
    | None => None
    | Some rawLen =>
      match parseFillLength rawLen with
      | None => None
      | Some len =>
        if len <? 0 then None
        else Some (fillByPattern (match param params "text" with [] => lit "X" | seed => seed end) len)
      end
    end
  end.

(** ** Keywords *)

Inductive render_error :=
  | ErrFileToken (token : str)
  | ErrFieldToken (token : str)
  | ErrFillToken (token : str)
  | ErrKeyword (token : str).

Definition num (z : Z) : str := Itoa (i64 z).

(** A keyword taken from [ExtraKeywords] when it is set there. *)
Definition extra_or (c : Context) (k : string) (dflt : str) : str :=
  match ExtraKeywords c !! lit k with
  | Some v => match TrimSpace v with [] => dflt | _ => v end
  | None => dflt
  end.

(** The keyword [switch] that [resolveToken] and [resolveTokenStrict] share;
    [None] is the [default] case. *)
Definition resolveKeyword (env : tmpl_env) (c : Context) (lower : str) (delta : Z) : option str :=
  let kw (k : string) := bool_decide (lower = lit k) in
  if kw "service"%string then Some (Service c)
  else if kw "server_ip"%string then Some (match ServerIP c with [] => LocalIP c | ip => ip end)
  else if kw "remote_host"%string then Some (RemoteHost c)
  else if kw "remote_ip"%string then Some (RemoteIP c)
  else if kw "remote_port"%string then Some (num (RemotePort c + delta))
  else if kw "local_ip"%string then Some (LocalIP c)
  else if kw "local_ip_type"%string then Some (LocalIPType c)
  else if kw "local_port"%string then Some (num (LocalPort c + delta))
  else if kw "transport"%string then Some (ToUpper (transportName (Transport c)))
  else if kw "sip_transport"%string then Some (ToUpper (transportName (Transport c)))
  else if kw "contact_transport"%string then Some (ToUpper (extra_or c "contact_transport" (transportName (Transport c))))
  else if kw "media_transport"%string then Some (ToLower (extra_or c "media_transport" (transportName (Transport c))))
  else if kw "media_ip"%string then Some (MediaIP c)
  else if kw "media_ip_type"%string then Some (MediaIPType c)
  else if kw "media_port"%string || kw "rtpstream_audio_port"%string || kw "auto_media_port"%string
  then Some (num (MediaPort c + delta))
  else if kw "ice_ufrag"%string then Some (IceUfrag c)
  else if kw "ice_pwd"%string then Some (IcePwd c)
  else if kw "rtpstream_video_port"%string then Some (num (MediaPort c + 2 + delta))
  else if kw "call_id"%string then Some (CallID c)
  else if kw "cseq"%string then Some (num (CSeq c + delta))
  else if kw "call_number"%string then Some (Itoa (CallNumber c))
  else if kw "msg_index"%string then Some (Itoa (MessageIndex c))
  else if kw "pid"%string then Some (Itoa (PID c))
  else if kw "users"%string then Some (Itoa (Users c))
  else if kw "userid"%string then Some (Itoa (UserID c))
  else if kw "tdmmap"%string then Some (lit "0.0.0/0")
  else if kw "branch"%string then Some (if delta =? 0 then BranchBase c else BranchBase c ++ lit "-" ++ Itoa delta)
  else if kw "len"%string then Some (num (BodyLength c + delta))
  else if kw "last_message"%string then Some (LastMessage c)
  else if kw "timestamp"%string then Some (now_timestamp env)
  else if kw "date"%string then Some (now_date env)
  else if kw "sipp_version"%string
  then Some (match TrimSpace (SIPpVersion c) with [] => lit "Gossipper" | _ => SIPpVersion c end)
  else if kw "clock_tick"%string then Some (num (ClockTick c + delta))
  else if kw "dynamic_id"%string then Some (num (DynamicID c + delta))
  else if kw "last_cseq_number"%string then Some (extractCSeqNumber (LastHeaders c))
  else if kw "next_url"%string then Some (extractContactURI (LastHeaders c))
  else if kw "peer_tag_param"%string
  then Some (match extractPeerTag (LastHeaders c) with [] => [] | tag => lit ";tag=" ++ tag end)
  else if kw "dtmf_digits"%string then Some (default [] (Variables c !! lit "dtmf_digits"))
  else None.

(** A token without its brackets. *)
Definition token_key (token : str) : str := TrimSuffix (TrimPrefix token (lit "[")) (lit "]").

(** The [last_] tokens: text, or drop the line when the header is missing. *)
Definition resolveLast (c : Context) (key : str) : option str :=
  let header := TrimPrefix key (lit "last_") in
  if EqualFold header (lit "message") then Some (LastMessage c)
  else if EqualFold header (lit "Request_URI") then Some (extractLastRequestURI (LastMessage c) (LastHeaders c))
  else
    let includeName := HasSuffix header (lit ":") in
    let header := TrimSuffix header (lit ":") in
    match lookupHeader (LastHeaders c) header with
    | None => None
    | Some values => Some (renderLastHeader header values includeName)
    end.

Definition field_value (env : tmpl_env) (c : Context) (key : str) : option str :=
  renderFieldTokenWithVariables env key (BasePath c) (CallNumber c) (Variables c)
    (CSVFieldOverrides c) (InjectionFile c).

(** [resolveToken]: replacement, whether it resolved, whether to drop the line. *)
Definition resolveToken (env : tmpl_env) (c : Context) (token : str) : str * bool * bool :=
  let key := token_key token in
  if HasPrefix (ToLower key) (lit "file ") then
    match renderFileToken env key (BasePath c) with Some v => (v, true, false) | None => ([], false, false) end
  else match field_value env c key with
  | Some v => (v, true, false)
  | None =>
    match renderFillToken key (Variables c) with
    | Some v => (v, true, false)
    | None =>
      if HasPrefix (ToLower key) (lit "last_") then
        match resolveLast c key with Some v => (v, true, false) | None => ([], false, true) end
      else
        let '(base, delta) := parseArithmetic key in
        match resolveKeyword env c (ToLower base) delta with
        | Some v => (v, true, false)
        | None =>
          let m := if HasPrefix base (lit "$") then Variables c !! TrimPrefix base (lit "$")
                   else ExtraKeywords c !! key in
          match m with Some v => (v, true, false) | None => ([], false, false) end
        end
    end
  end.

(** [resolveTokenStrict] *)
Definition resolveTokenStrict (env : tmpl_env) (c : Context) (token : str) : result render_error (str * bool) :=
  let key := token_key token in
  let lower := ToLower key in
  if HasPrefix lower (lit "file ") then
    match renderFileToken env key (BasePath c) with Some v => Ok (v, false) | None => Err (ErrFileToken token) end
  else if HasPrefix lower (lit "field") then
    match field_value env c key with Some v => Ok (v, false) | None => Err (ErrFieldToken token) end
  else if HasPrefix lower (lit "fill") then
    match renderFillToken key (Variables c) with Some v => Ok (v, false) | None => Err (ErrFillToken token) end
  else if HasPrefix lower (lit "last_") then
    match resolveLast c key with Some v => Ok (v, false) | None => Ok ([], true) end
  else
    let '(base, delta) := parseArithmetic key in
    match resolveKeyword env c (ToLower base) delta with
    | Some v => Ok (v, false)
    | None =>
      if HasPrefix base (lit "$") then Ok (default [] (Variables c !! TrimPrefix base (lit "$")), false)
      else match ExtraKeywords c !! key with
           | Some v => Ok (v, false)
           | None => Err (ErrKeyword token)
           end
    end.

(** ** The token scanner

    Every iteration consumes a byte or a whole token, so the length of the
    line bounds their number. *)
Inductive piece := Text (b : byte) | Token (t : str).

Fixpoint pieces_fuel (fuel : nat) (line : str) : list piece :=
  match fuel, line with
  | O, _ | _, [] => []
  | S f, a :: r =>
    if beqb a x5b then
      match Cut r x5d with
      | None => Text a :: pieces_fuel f r
      | Some (inner, rest) => Token (x5b :: inner ++ [x5d]) :: pieces_fuel f rest
      end
    else Text a :: pieces_fuel f r
  end.

Definition pieces (line : str) : list piece := pieces_fuel (length line) line.

(** [expandTokens] *)
Definition expandTokens (line : str) (resolve : str -> str * bool * bool) : str * bool :=
  foldl (fun '(out, dropLine) p =>
    match p with
    | Text b => (out ++ [b], dropLine)
    | Token t => let '(rep, ok, drop) := resolve t in
                 ((if ok : bool then out ++ rep else out), dropLine || drop)
    end) ([], false) (pieces line).

(** [expandTokensStrict]: all tokens are resolved, the first error is kept. *)
Definition expandTokensStrict (line : str) (resolve : str -> result render_error (str * bool))
    : str * bool * option render_error :=
  foldl (fun '(out, dropLine, firstErr) p =>
    match p with
    | Text b => (out ++ [b], dropLine, firstErr)
    | Token t => match resolve t with
                 | Ok (rep, drop) => (out ++ rep, dropLine || drop, firstErr)
                 | Err e => (out, dropLine, match firstErr with Some e0 => Some e0 | None => Some e end)
                 end
    end) ([], false, None) (pieces line).

(** A line that became blank is dropped, unless it was empty to begin with. *)
Definition keep_line (line value : str) : bool :=
  negb (bool_decide (TrimSpace value = []) && negb (bool_decide (line = []))).

Definition renderLine (env : tmpl_env) (c : Context) (line : str) : option str :=
  let '(value, dropLine) := expandTokens line (resolveToken env c) in
  if dropLine then None else if keep_line line value then Some value else None.

Definition renderLineStrict (env : tmpl_env) (c : Context) (line : str) : result render_error (option str) :=
  let '(value, dropLine, firstErr) := expandTokensStrict line (resolveTokenStrict env c) in
  match firstErr with
  | Some e => Err e
  | None => Ok (if dropLine : bool then None else if keep_line line value then Some value else None)
  end.

(** The trailing line break of a body. *)
Definition close_body (result : str) : str :=
  if Contains result (crlf ++ crlf) && negb (HasSuffix result crlf) then result ++ crlf else result.

(** [Render] *)
Definition Render (env : tmpl_env) (c : Context) (raw : str) : str :=
  close_body (Join (omap (renderLine env c) (splitLinesTo raw)) crlf).

Fixpoint renderLinesStrict (env : tmpl_env) (c : Context) (lines : list str) : result render_error (list str) :=
  match lines with
  | [] => Ok []
  | line :: rest =>
    let? v := renderLineStrict env c line in
    let? vs := renderLinesStrict env c rest in
    Ok (match v with Some x => x :: vs | None => vs end)
  end.

(** [RenderStrict] *)
Definition RenderStrict (env : tmpl_env) (c : Context) (raw : str) : result render_error str :=
  let? values := renderLinesStrict env c (splitLinesTo raw) in
  Ok (close_body (Join values crlf)).

(** [hasLenToken] *)
Fixpoint hasLenToken (raw : str) : bool :=
  match raw with
  | [] => false
  | a :: r =>
    match r with
    | b :: c :: d :: _ =>
      (beqb a x5b && byte_ci b x6c x4c && byte_ci c x65 x45 && byte_ci d x6e x4e) || hasLenToken r
    | _ => hasLenToken r
    end
  end.

Definition RenderMessage (env : tmpl_env) (raw : str) (c : Context) : str :=
  if negb (hasLenToken raw) then Render env c raw
  else
    let first := Render env c raw in
    Render env (setBodyLength (computeBodyLength first) c) raw.

Definition RenderMessageStrict (env : tmpl_env) (raw : str) (c : Context) : result render_error str :=
  if negb (hasLenToken raw) then RenderStrict env c raw
  else
    let? first := RenderStrict env c raw in
    RenderStrict env (setBodyLength (computeBodyLength first) c) raw.

(** ** Changing and searching injection files *)

Inductive csv_error :=
  | ErrCsvFile | ErrCsvLine | ErrCsvFieldNegative | ErrCsvNotFound | ErrCsvFieldRange | ErrCsvPosition | ErrCsvMode.

(** [storeCSVFieldOverride] *)
Definition storeCSVFieldOverride (fileKey : str) (lineNumber field : Z) (value : str) (ov : csv_overrides) : csv_overrides :=
  let byFile := default ∅ (ov !! fileKey) in
  let byLine := default ∅ (byFile !! lineNumber) in
  <[fileKey := <[lineNumber := <[field := value]> byLine]> byFile]> ov.

(** [ApplyCSVMutation] *)
Definition ApplyCSVMutation (env : tmpl_env) (basePath name : str) (lineNumber field : Z)
    (mode text position : str) (ov : csv_overrides) : result csv_error csv_overrides :=
  if bool_decide (TrimSpace name = []) then Err ErrCsvFile else
  if lineNumber <=? 0 then Err ErrCsvLine else
  if field <? 0 then Err ErrCsvFieldNegative else
  match csvRecordAt env basePath name lineNumber ov true with
  | None => Err ErrCsvNotFound
  | Some record =>
    match record !! Z.to_nat field with
    | None => Err ErrCsvFieldRange
    | Some current =>
      let m := ToLower (TrimSpace mode) in
      let? value :=
        (if bool_decide (m = lit "replace") then Ok text
         else if bool_decide (m = lit "insert") then
           let p := ToLower (TrimSpace position) in
           if one_of p [""; "suffix"; "append"]%string then Ok (current ++ text)
           else if one_of p ["prefix"; "prepend"]%string then Ok (text ++ current)
           else Err ErrCsvPosition
         else Err ErrCsvMode) in
      Ok (storeCSVFieldOverride (resolvePath basePath name) lineNumber field value ov)
    end
  end.

(** The scan of [LookupCSVLine] when there is no index file: 1-based line of
    the first record whose first cell is the key. *)
Fixpoint lookup_line (i : Z) (records : list (list str)) (key : str) : option Z :=
  match records with
  | [] => None
  | record :: rest =>
    match record with
    | cell :: _ => if bool_decide (cell = key) then Some i else lookup_line (i + 1) rest key
    | [] => lookup_line (i + 1) rest key
    end
  end.

(** The index [GenerateCSVIndex] writes: first line of every key. *)
Fixpoint csv_index (i : Z) (records : list (list str)) (field : nat) (lines : gmap str Z) : gmap str Z :=
  match records with
  | [] => lines
  | record :: rest =>
    csv_index (i + 1) rest field
      (match record !! field with
       | None => lines
       | Some cell => match TrimSpace cell with
                      | [] => lines
                      | key => match lines !! key with Some _ => lines | None => <[key := i]> lines end
                      end
       end)
  end.

(** [GenerateCSVIndex] up to writing the file: the index of a parsed file. *)
Definition GenerateCSVIndex (env : tmpl_env) (basePath name : str) (field : Z) : option (str * gmap str Z) :=
  if field <? 0 then None else
  let path := resolvePath basePath name in
  match read_file env path with
  | None => None
  | Some data =>
    match csv_parse env x2c data with
    | None => None
    | Some records =>
      Some (path ++ lit ".gossipper.idx." ++ Itoa field ++ lit ".json",
            csv_index 1 records (Z.to_nat field) ∅)
    end
  end.

Definition buildCSVIndexPath (csvPath : str) (field : Z) : str :=
  csvPath ++ lit ".gossipper.idx." ++ Itoa field ++ lit ".json".

(** [lookupCSVLineFromIndex]; [None] when there is no usable index. *)
Definition lookupCSVLineFromIndex (env : tmpl_env) (csvPath : str) (field : Z) (key : str) : option (option Z) :=
  match read_file env (buildCSVIndexPath csvPath field) with
  | None => None
  | Some data =>
    match json_index env data with
    | None => None
    | Some lines => Some (lines !! key)
    end
  end.

(** [LookupCSVLine]; the outer [None] is an error. *)
Definition LookupCSVLine (env : tmpl_env) (basePath name key : str) : option (option Z) :=
  let path := resolvePath basePath name in
  match lookupCSVLineFromIndex env path 0 key with
  | Some r => Some r
  | None =>
    match read_file env path with
    | None => None
    | Some data =>
      match csv_parse env x2c data with
      | None => None
      | Some records => Some (lookup_line 1 records key)
      end
    end
  end.
