(* ===== verification/EngineText.v ===== *)
(** * Text and number helpers of [internal/engine/engine.go]

    The functions the call loop and the call schedulers use on scenario text,
    variables, ports and counters. *)

From stdpp Require Import base list gmap strings.
From Stdlib Require Import ZArith Lia Strings.Byte.
From S2P Require Import Prelude GoStrings GoFloat SipMessage Vars Scenario.

(** ** Message text *)

(** [countLeadingSpaceTab] *)
Fixpoint countLeadingSpaceTab (s : str) : nat :=
  match s with
  | a :: s' => if beqb a x20 || beqb a x09 then S (countLeadingSpaceTab s') else O
  | [] => O
  end.

Definition is_blank_line (line : str) : bool := bool_decide (TrimSpace line = []).

(** The smallest indent of the lines that are not blank; [None] is [-1]. *)
Definition min_indent (lines : list str) : option nat :=
  foldl (fun m line =>
           if is_blank_line line then m
           else let n := countLeadingSpaceTab line in
                match m with
                | None => Some n
                | Some k => if Nat.ltb n k then Some n else Some k
                end) None lines.

(** [dedentSIPHeaderLines] *)
Definition dedentSIPHeaderLines (head : str) : str * nat :=
  match head with
  | [] => (head, O)
  | _ =>
    let lines := SplitStr head crlf in
    let skipFirstForMin :=
      match lines with
      | first :: _ => negb (is_blank_line first) && Nat.eqb (countLeadingSpaceTab first) 0
      | [] => false
      end in
    match min_indent (if skipFirstForMin then tail lines else lines) with
    | Some (S m as min) =>
      (Join (map (fun line => if is_blank_line line then line
                              else if Nat.leb min (countLeadingSpaceTab line) then drop min line
                              else line) lines) crlf, min)
    | _ => (head, O)
    end
  end.

(** [dedentLines] *)
Definition dedentLines (s : str) (n : nat) : str :=
  match s, n with
  | [], _ => s
  | _, O => s
  | _, _ =>
    Join (map (fun line => if is_blank_line line then line
                           else drop (Nat.min n (countLeadingSpaceTab line)) line)
              (SplitStr s crlf)) crlf
  end.

Definition header_sep : str := crlf ++ crlf.

(** [normalizeSIPScenarioLineIndent] *)
Definition normalizeSIPScenarioLineIndent (msg : str) : str :=
  match msg with
  | [] => msg
  | _ =>
    match Index msg header_sep with
    | Some idx =>
      let '(head, minStripped) := dedentSIPHeaderLines (take idx msg) in
      let body := drop (idx + 4) msg in
      head ++ header_sep ++ (if Nat.ltb 0 minStripped then dedentLines body minStripped else body)
    | None => (dedentSIPHeaderLines msg).1
    end
  end.

(** [ensureMessageTerminator] *)
Definition ensureMessageTerminator (msg : str) : str :=
  if HasSuffix msg header_sep then msg
  else
    let hasBody := Contains msg header_sep in
    if HasSuffix msg crlf then (if hasBody then msg else msg ++ crlf)
    else if hasBody then msg ++ crlf
    else msg ++ header_sep.

(** ** Variables and jumps *)

(** [variableTruthy] *)
Definition variableTruthy (value : str) : bool :=
  let v := ToLower (TrimSpace value) in
  negb (bool_decide (v = []) || bool_decide (v = lit "0")
        || bool_decide (v = lit "false") || bool_decide (v = lit "no")).

(** [shouldExecute] *)
Definition shouldExecute (cmd : Command) (v : varStore) (sc : scopedVars) : bool :=
  match c_CondExec cmd with
  | [] => true
  | name =>
    let value := variableTruthy (Get v sc name) in
    if c_CondExecInverse cmd then negb value else value
  end.

(** A random source: the values [Float64] returns, and how many were drawn. *)
Record frand := mkFrand { fr_values : nat -> float64; fr_drawn : nat }.

Definition Float64 (r : frand) : float64 * frand :=
  (fr_values r (fr_drawn r), mkFrand (fr_values r) (S (fr_drawn r))).

(** [resolveNext] *)
Definition resolveNext (index : Z) (cmd : Command) (v : varStore) (sc : scopedVars) (rnd : frand) : Z * frand :=
  let next := index + 1 in
  if c_NextIndex cmd <? 0 then (next, rnd)
  else if negb (bool_decide (c_Test cmd = [])) && negb (variableTruthy (Get v sc (c_Test cmd))) then (next, rnd)
  else if flt fzero (c_Chance cmd) && flt (c_Chance cmd) fone then
    let '(x, rnd) := Float64 rnd in
    if flt (c_Chance cmd) x then (next, rnd) else (c_NextIndex cmd, rnd)
  else (c_NextIndex cmd, rnd).

(** ** Timeouts *)

Definition isProvisionalResponse (resp : str) : bool :=
  match TrimSpace resp with
  | a :: _ => beqb a x31
  | [] => false
  end.

Definition sipTimerB : Z := 32 * Second.

(** [effectiveSIPRecvTimeout] *)
Definition effectiveSIPRecvTimeout (cmd : Command) (defaultRecv recvBYEFloor : Z) : Z :=
  if 0 <? c_Timeout cmd then c_Timeout cmd
  else
    let out := if c_Optional cmd && negb (isProvisionalResponse (c_RecvResp cmd)) && (defaultRecv <? sipTimerB)
               then sipTimerB else defaultRecv in
    if negb (c_Optional cmd) && (0 <? recvBYEFloor)
       && EqualFold (TrimSpace (c_RecvReq cmd)) (lit "BYE") && (out <? recvBYEFloor)
    then recvBYEFloor else out.

(** ** Counters, ports and addresses *)

(** The part of the configuration the schedulers read. *)
Record limits := mkLimits {
  lm_MaxConcurrent : Z; lm_MaxSockets : Z; lm_UnlimitedCalls : bool; lm_TotalCalls : Z
}.

Definition callConcurrencyLimit (cfg : limits) (perCallSocket : bool) : Z :=
  let limit := if lm_MaxConcurrent cfg <=? 0 then 1 else lm_MaxConcurrent cfg in
  if perCallSocket && (0 <? lm_MaxSockets cfg) && (lm_MaxSockets cfg <? limit)
  then lm_MaxSockets cfg else limit.

Definition clientShouldSpawnAnother (cfg : limits) (callIndex : Z) : bool :=
  lm_UnlimitedCalls cfg || (callIndex <=? lm_TotalCalls cfg).

Definition serverRejectNew (cfg : limits) (currentCount : Z) : bool :=
  negb (lm_UnlimitedCalls cfg) && (lm_TotalCalls cfg <=? currentCount).

Definition serverFinishedAll (cfg : limits) (finished : Z) : bool :=
  negb (lm_UnlimitedCalls cfg) && (lm_TotalCalls cfg <=? finished).

(** [clampMediaPort]; Go's [%] truncates towards zero. *)
Definition clampMediaPort (port : Z) : Z :=
  if (port <? 1024) || (65535 <? port) then
    let port := Z.rem (port - 1024) 64512 + 1024 in
    if port <? 1024 then port + 64512 else port
  else port.

Definition ipType (ip : str) : str := if Contains ip (lit ":") then lit "6" else lit "4".

(** [sourceIPForCall]; a negative index would be a run-time panic. *)
Definition sourceIPForCall (uiSourceIPs : list str) (localIP : str) (callNumber : Z) : outcome str :=
  match uiSourceIPs with
  | [] => Ret localIP
  | _ =>
    let index := Z.rem (callNumber - 1) (Z.of_nat (length uiSourceIPs)) in
    if index <? 0 then Panic
    else match uiSourceIPs !! Z.to_nat index with
         | Some ip => Ret ip
         | None => Panic
         end
  end.

(** [userID] of [actions_exec.go] *)
Definition userID (callNumber users : Z) : Z :=
  if users <=? 0 then 0 else Z.rem (callNumber - 1) users.

(** [firstReceiveIndex], [scenarioNeedsSIPTransport] *)
Fixpoint first_receive (i : Z) (cmds : list Command) : Z :=
  match cmds with
  | [] => -1
  | c :: cmds' => if bool_decide (c_Type c = CommandRecv) then i else first_receive (i + 1) cmds'
  end.

Definition firstReceiveIndex (sc : Scenario) : Z := first_receive 0 (sc_Commands sc).

Definition scenarioNeedsSIPTransport (sc : Scenario) : bool :=
  existsb (fun c => match c_Type c with CommandSend | CommandRecv => true | _ => false end) (sc_Commands sc).

(** * Lemmas *)

(** ** Splitting at CRLF *)

Lemma Index_crlf_app line rest : x0a ∉ line -> Index (line ++ crlf ++ rest) crlf = Some (length line).
Proof.
  induction line as [|a line IH]; intros Hn; [done|].
  assert (x0a ∉ line) as Hn' by set_solver. specialize (IH Hn').
  change ((a :: line) ++ crlf ++ rest) with (a :: line ++ crlf ++ rest).
  cbn [Index]. destruct (HasPrefix (a :: line ++ crlf ++ rest) crlf) eqn:E.
  - exfalso. unfold crlf in E. cbn [HasPrefix] in E. apply andb_true_iff in E as [_ E].
    destruct line as [|b line]; cbn in E; [done|]. apply andb_true_iff in E as [E _].
    apply beqb_eq in E. set_solver.
  - rewrite IH. done.
Qed.

Lemma Index_crlf_none line : x0a ∉ line -> Index line crlf = None.
Proof.
  intros Hn. destruct (Index line crlf) as [i|] eqn:E; [|done].
  assert (Contains line crlf = true) as Hc by (unfold Contains; by rewrite E).
  apply Contains_spec in Hc as (l & r & ->). set_solver.
Qed.

Lemma SplitStr_fuel_join lines fuel :
  lines <> [] -> Forall (fun l => x0a ∉ l) lines -> (length lines <= S fuel)%nat ->
  SplitStr_fuel fuel (Join lines crlf) crlf = lines.
Proof.
  intros Hne Hl. revert fuel. induction Hl as [|l lines Hl Hls IH]; intros fuel Hf; [done|].
  destruct lines as [|l' lines].
  - destruct fuel; [done|]. cbn [SplitStr_fuel]. change (Join [l] crlf) with l.
    by rewrite Index_crlf_none.
  - destruct fuel as [|fuel]; [simpl in Hf; lia|]. rewrite Join_cons by done. cbn [SplitStr_fuel].
    rewrite Index_crlf_app, take_app_length by done.
    rewrite app_assoc, drop_app_exact by (rewrite length_app; done).
    rewrite IH; [done|done|]. simpl in *. lia.
Qed.

Lemma Join_length lines : (length lines <= S (length (Join lines crlf)))%nat.
Proof.
  induction lines as [|l lines IH]; [simpl; lia|]. destruct lines as [|l' lines]; [simpl; lia|].
  rewrite Join_cons by done. rewrite !length_app. simpl length in *. lia.
Qed.

Lemma SplitStr_join lines :
  lines <> [] -> Forall (fun l => x0a ∉ l) lines -> SplitStr (Join lines crlf) crlf = lines.
Proof. intros. apply SplitStr_fuel_join; [done..|]. apply Join_length. Qed.

(** ** Finding the end of the headers *)

Lemma HasPrefix_sep_CR b s : HasPrefix (b :: s) header_sep = true -> exists t, s = x0a :: x0d :: x0a :: t.
Proof.
  intros H. apply HasPrefix_spec in H as [t Ht]. injection Ht as _ ->. by exists t.
Qed.

Lemma Index_sep_end line body : x0a ∉ line ->
  Index (line ++ header_sep ++ body) header_sep = Some (length line).
Proof.
  induction line as [|a line IH]; intros Hn; [done|].
  change ((a :: line) ++ header_sep ++ body) with (a :: line ++ header_sep ++ body).
  cbn [Index]. destruct (HasPrefix (a :: line ++ header_sep ++ body) header_sep) eqn:E.
  - apply HasPrefix_sep_CR in E as [t E]. destruct line as [|b line]; [done|].
    injection E as -> _. set_solver.
  - rewrite IH by set_solver. done.
Qed.

Lemma Index_sep_line line rest : x0a ∉ line -> HasPrefix rest crlf = false ->
  Index (line ++ crlf ++ rest) header_sep = (fun i => length line + 2 + i)%nat <$> Index rest header_sep.
Proof.
  intros Hn Hr. induction line as [|a line IH].
  - change ([] ++ crlf ++ rest) with (x0d :: x0a :: rest).
    cbn [Index]. destruct (HasPrefix (x0d :: x0a :: rest) header_sep) eqn:E.
    { apply HasPrefix_sep_CR in E as [t [= ->]]. done. }
    destruct (HasPrefix (x0a :: rest) header_sep) eqn:E2; [by destruct rest|].
    by destruct (Index rest header_sep).
  - change ((a :: line) ++ crlf ++ rest) with (a :: line ++ crlf ++ rest).
    cbn [Index]. destruct (HasPrefix (a :: line ++ crlf ++ rest) header_sep) eqn:E.
    + apply HasPrefix_sep_CR in E as [t E]. destruct line as [|b line]; [done|].
      injection E as -> _. set_solver.
    + rewrite IH by set_solver. by destruct (Index rest header_sep).
Qed.

(** A line that is not blank and does not start with a blank. *)
Definition flush (l : str) : Prop :=
  x0a ∉ l /\ TrimSpace l <> [] /\ countLeadingSpaceTab l = 0%nat.

Lemma flush_no_crlf l r : flush l -> HasPrefix (l ++ r) crlf = false.
Proof.
  intros (Hn & Hb & _). destruct l as [|a [|b l]]; [done| |].
  - cbn. destruct (beqb a x0d) eqn:E; [|done]. apply beqb_eq in E as ->. done.
  - cbn. destruct (beqb b x0a) eqn:E; [|by rewrite andb_false_r].
    apply beqb_eq in E as ->. set_solver.
Qed.

Lemma Index_sep_lines lines body :
  lines <> [] -> Forall (fun l => x0a ∉ l /\ forall r, HasPrefix (l ++ r) crlf = false) lines ->
  Index (Join lines crlf ++ header_sep ++ body) header_sep = Some (length (Join lines crlf)).
Proof.
  intros Hne Hl. induction Hl as [|l lines [Hl _] Hls IH]; [done|].
  destruct lines as [|l' lines]; [by apply Index_sep_end|].
  rewrite Join_cons by done. rewrite <- !app_assoc. rewrite Index_sep_line; [|done|].
  - rewrite IH by done. simpl fmap. f_equal. rewrite !length_app. simpl length. lia.
  - inversion Hls as [|? ? [_ Hp] _]; subst. destruct lines as [|l'' lines]; [apply Hp|].
    rewrite Join_cons by done. rewrite <- !app_assoc. apply Hp.
Qed.

(** ** Indentation *)

Definition is_pad (b : byte) : bool := beqb b x20 || beqb b x09.

Lemma countLeading_pad pad l :
  Forall (fun b => is_pad b = true) pad -> countLeadingSpaceTab l = 0%nat ->
  countLeadingSpaceTab (pad ++ l) = length pad.
Proof.
  induction 1 as [|b pad Hb Hp IH]; intros Hl; [done|]. cbn. unfold is_pad in Hb. rewrite Hb. by rewrite IH.
Qed.

Lemma pad_space1 b : is_pad b = true -> space1 b = true.
Proof. unfold is_pad. intros H. apply orb_true_iff in H as [H|H]; apply beqb_eq in H as ->; done. Qed.

Lemma trim_left_pad pad l : Forall (fun b => is_pad b = true) pad ->
  trim_left_space (pad ++ l) = trim_left_space l.
Proof.
  induction 1 as [|b pad Hb Hp IH]; [done|]. cbn [app trim_left_space].
  by rewrite (pad_space1 b Hb).
Qed.

Lemma TrimSpace_pad pad l : Forall (fun b => is_pad b = true) pad -> TrimSpace (pad ++ l) = TrimSpace l.
Proof. intros. unfold TrimSpace. by rewrite trim_left_pad. Qed.

Lemma is_blank_flush l : flush l -> is_blank_line l = false.
Proof. intros (_ & H & _). unfold is_blank_line. by apply bool_decide_false. Qed.

Lemma is_blank_pad pad l : Forall (fun b => is_pad b = true) pad -> is_blank_line (pad ++ l) = is_blank_line l.
Proof. intros. unfold is_blank_line. by rewrite TrimSpace_pad. Qed.

Lemma pad_no_lf pad : Forall (fun b => is_pad b = true) pad -> x0a ∉ pad.
Proof. intros Hp Hin. rewrite Forall_forall in Hp. by apply Hp in Hin. Qed.

Section Indent.

Context (pad : str).
Hypothesis Hpad : Forall (fun b => is_pad b = true) pad.
Hypothesis Hne : pad <> [].

Lemma min_indent_padded lines m : Forall flush lines ->
  foldl (fun m line =>
           if is_blank_line line then m
           else let n := countLeadingSpaceTab line in
                match m with
                | None => Some n
                | Some k => if Nat.ltb n k then Some n else Some k
                end) m (map (app pad) lines)
  = match lines, m with
    | [], _ => m
    | _, None => Some (length pad)
    | _, Some k => Some (Nat.min k (length pad))
    end.
Proof.
  intros Hl. revert m. induction Hl as [|l lines Hl Hls IH]; intros m; [done|].
  cbn [map foldl]. rewrite is_blank_pad, is_blank_flush by done.
  rewrite countLeading_pad by (done || apply Hl). cbv zeta. rewrite IH.
  destruct m as [k|]; [destruct (Nat.ltb_spec (length pad) k)|]; destruct lines; f_equal; lia.
Qed.

Lemma dedent_padded lines : Forall flush lines ->
  map (fun line => if is_blank_line line then line
                   else if Nat.leb (length pad) (countLeadingSpaceTab line)
                        then drop (length pad) line else line) (map (app pad) lines) = lines.
Proof.
  induction 1 as [|l lines Hl Hls IH]; [done|]. cbn [map].
  rewrite IH, is_blank_pad, is_blank_flush, countLeading_pad, Nat.leb_refl by (done || apply Hl).
  by rewrite drop_app_length.
Qed.

Lemma dedent_body_padded lines : Forall flush lines -> lines <> [] ->
  dedentLines (Join (map (app pad) lines) crlf) (length pad) = Join lines crlf.
Proof.
  intros Hl Hn. unfold dedentLines.
  destruct (Join (map (app pad) lines) crlf) as [|a t] eqn:E.
  { exfalso. destruct lines as [|l [|l' lines]]; [done| |].
    - simpl in E. by apply app_nil in E as [-> _].
    - cbn [map] in E. rewrite Join_cons in E by done. apply app_nil in E as [E _].
      by apply app_nil in E as [-> _]. }
  rewrite <- E. destruct (length pad) as [|n] eqn:En; [by destruct pad|]. rewrite <- En.
  rewrite SplitStr_join.
  - f_equal. clear E. induction Hl as [|l lines Hl Hls IH]; [done|]. cbn [map].
    rewrite is_blank_pad, is_blank_flush, countLeading_pad, Nat.min_id by (done || apply Hl).
    rewrite drop_app_length. f_equal. destruct lines; [done|]. by apply IH.
  - by destruct lines.
  - apply Forall_map. eapply Forall_impl; [exact Hl|]. intros l (H & _). simpl.
    pose proof (pad_no_lf pad Hpad). set_solver.
Qed.

Lemma dedent_head_padded first lines : flush first -> Forall flush lines -> lines <> [] ->
  dedentSIPHeaderLines (Join (first :: map (app pad) lines) crlf) = (Join (first :: lines) crlf, length pad).
Proof.
  intros Hf Hl Hn. unfold dedentSIPHeaderLines.
  assert (first <> []) as Hfn by (intros ->; by destruct Hf as (_ & H & _)).
  destruct (Join (first :: map (app pad) lines) crlf) as [|a t] eqn:E.
  { destruct lines; [done|]. cbn [map] in E. rewrite Join_cons in E by done. by destruct first. }
  rewrite <- E. rewrite SplitStr_join; [|done|].
  - rewrite is_blank_flush by done. destruct Hf as (_ & Hb & Hc). rewrite Hc. cbn [negb andb Nat.eqb tail].
    unfold min_indent. rewrite min_indent_padded by done.
    destruct lines as [|l lines]; [done|]. destruct (length pad) as [|n] eqn:En; [by destruct pad|].
    rewrite <- En. f_equal. f_equal. cbn [map].
    change ((if is_blank_line (pad ++ l) then pad ++ l
             else if Nat.leb (length pad) (countLeadingSpaceTab (pad ++ l)) then drop (length pad) (pad ++ l) else pad ++ l)
            :: map (fun line => if is_blank_line line then line
                   else if Nat.leb (length pad) (countLeadingSpaceTab line)
                        then drop (length pad) line else line) (map (app pad) lines))
      with (map (fun line => if is_blank_line line then line
                   else if Nat.leb (length pad) (countLeadingSpaceTab line)
                        then drop (length pad) line else line) (map (app pad) (l :: lines))).
    rewrite dedent_padded by done. f_equal. rewrite Hc, En. by destruct (is_blank_line first).
  - constructor; [apply Hf|]. apply Forall_map. eapply Forall_impl; [exact Hl|].
    intros l (H & _). simpl. pose proof (pad_no_lf pad Hpad). set_solver.
Qed.

End Indent.

Lemma HasSuffix_app s p : HasSuffix (s ++ p) p = true.
Proof. apply HasSuffix_spec. by exists s. Qed.

Lemma Contains_app_r s t p : Contains s p = true -> Contains (s ++ t) p = true.
Proof. rewrite !Contains_spec. intros (l & r & ->). exists l, (r ++ t). by rewrite <- !app_assoc. Qed.

Lemma Contains_suffix s p : HasSuffix s p = true -> Contains s p = true.
Proof. rewrite HasSuffix_spec, Contains_spec. intros [t ->]. exists t, []. by rewrite app_nil_r. Qed.

Lemma terminated_cases msg :
  HasSuffix (ensureMessageTerminator msg) header_sep = true
  \/ (HasSuffix (ensureMessageTerminator msg) crlf = true
      /\ Contains (ensureMessageTerminator msg) header_sep = true).
Proof.
  unfold ensureMessageTerminator. destruct (HasSuffix msg header_sep) eqn:E1; [by left|].
  destruct (HasSuffix msg crlf) eqn:E2, (Contains msg header_sep) eqn:E3.
  - by right.
  - left. apply HasSuffix_spec in E2 as [t ->]. rewrite <- app_assoc. apply HasSuffix_app.
  - right. split; [apply HasSuffix_app|by apply Contains_app_r].
  - left. apply HasSuffix_app.
Qed.

Lemma ensure_idemp msg :
  HasSuffix msg header_sep = true \/ (HasSuffix msg crlf = true /\ Contains msg header_sep = true) ->
  ensureMessageTerminator msg = msg.
Proof. unfold ensureMessageTerminator. intros [->|[-> ->]]; [done|]. by destruct (HasSuffix _ _). Qed.

Lemma resolveNext_cases index cmd v sc rnd :
  (resolveNext index cmd v sc rnd).1 = index + 1
  \/ ((resolveNext index cmd v sc rnd).1 = c_NextIndex cmd /\ 0 <= c_NextIndex cmd).
Proof.
  unfold resolveNext, Float64. destruct (Z.ltb_spec (c_NextIndex cmd) 0); [by left|].
  repeat case_match; simpl; auto.
Qed.

(** * Properties *)

(** The indentation an XML file adds is removed from what is sent: when the
    start line is flush left and every header and body line carries the same
    padding, the message sent is the unindented one, body included. *)
Theorem indent_removed pad first lines body :
  Forall (fun b => is_pad b = true) pad -> pad <> [] ->
  flush first -> Forall flush lines -> lines <> [] -> Forall flush body -> body <> [] ->
  normalizeSIPScenarioLineIndent
    (Join (first :: map (app pad) lines) crlf ++ header_sep ++ Join (map (app pad) body) crlf)
  = Join (first :: lines) crlf ++ header_sep ++ Join body crlf.
Proof.
  intros Hp Hpn Hf Hl Hln Hb Hbn. unfold normalizeSIPScenarioLineIndent.
  assert (first <> []) as Hfn by (intros ->; by destruct Hf as (_ & H & _)).
  destruct (Join (first :: map (app pad) lines) crlf ++ _) as [|a t] eqn:E.
  { destruct lines; [done|]. cbn [map] in E. rewrite Join_cons in E by done. by destruct first. }
  rewrite <- E, Index_sep_lines, take_app_length, dedent_head_padded; [|done..|].
  - rewrite (app_assoc (Join (first :: map _ lines) crlf) header_sep).
    rewrite drop_app_exact by (rewrite length_app; done).
    destruct pad as [|p pad]; [done|]. cbn [length Nat.ltb]. f_equal. f_equal.
    by apply dedent_body_padded.
  - constructor; [split; [apply Hf|by intros; apply flush_no_crlf]|].
    apply Forall_map. eapply Forall_impl; [exact Hl|]. intros l (Hn & _).
    pose proof (pad_no_lf pad Hp). split; [set_solver|]. intros r.
    destruct pad as [|b pad]; [done|]. inversion Hp as [|? ? Hb' _]; subst.
    unfold is_pad in Hb'. apply orb_true_iff in Hb' as [Hb'|Hb']; apply beqb_eq in Hb' as ->; done.
Qed.

Lemma indent_removed_witness :
  normalizeSIPScenarioLineIndent
    (Join (lit "BYE a SIP/2.0" :: map (app (lit "   ")) [lit "To: b"]) crlf ++ header_sep
     ++ Join (map (app (lit "   ")) [lit "v=0"; lit "s=-"]) crlf)
  = Join [lit "BYE a SIP/2.0"; lit "To: b"] crlf ++ header_sep ++ Join [lit "v=0"; lit "s=-"] crlf.
Proof.
  apply indent_removed; try done; try (repeat constructor; done);
    repeat (constructor; [split; [apply (bool_decide_unpack _); vm_compute; reflexivity|by vm_compute]|]);
    try constructor; try (apply (bool_decide_unpack _); vm_compute; reflexivity); by vm_compute.
Defined.

(** Whatever text a scenario sends, it leaves with its headers closed: it
    ends in a line break and holds the blank line after the headers, and a
    message that is already terminated is left alone. *)
Theorem message_terminated msg :
  HasSuffix (ensureMessageTerminator msg) crlf = true
  /\ Contains (ensureMessageTerminator msg) header_sep = true
  /\ ensureMessageTerminator (ensureMessageTerminator msg) = ensureMessageTerminator msg.
Proof.
  pose proof (terminated_cases msg) as H. split; [|split; [|by apply ensure_idemp]].
  - destruct H as [H|[H _]]; [|done]. apply HasSuffix_spec in H as [t ->].
    unfold header_sep. rewrite app_assoc. apply HasSuffix_app.
  - destruct H as [H|[_ H]]; [|done]. by apply Contains_suffix.
Qed.

(** Media ports stay valid: the result is in [1024, 65535], ports already
    there are kept, and ports a whole range apart are mapped to the same one. *)
Theorem clamp_media_port_range port :
  1024 <= clampMediaPort port <= 65535
  /\ (1024 <= port <= 65535 -> clampMediaPort port = port)
  /\ (clampMediaPort port - port) mod 64512 = 0.
Proof.
  unfold clampMediaPort.
  destruct ((port <? 1024) || (65535 <? port)) eqn:E.
  - pose proof (Z.quot_rem' (port - 1024) 64512) as Hq.
    pose proof (Z.rem_bound_abs (port - 1024) 64512 ltac:(lia)) as Hb.
    apply orb_true_iff in E. set (r := Z.rem (port - 1024) 64512) in *.
    set (q := Z.quot (port - 1024) 64512) in *.
    destruct (Z.ltb_spec (r + 1024) 1024).
    + split; [lia|]. split; [intros; bool_to_prop; lia|].
      replace (r + 1024 + 64512 - port) with ((1 - q) * 64512) by lia. apply Z.mod_mul. lia.
    + split; [lia|]. split; [intros; bool_to_prop; lia|].
      replace (r + 1024 - port) with ((- q) * 64512) by lia. apply Z.mod_mul. lia.
  - bool_to_prop. split; [lia|]. split; [done|]. by rewrite Z.sub_diag.
Qed.

(** In a parsed scenario the next position is always a command or the end
    of the list, whatever the variables and the dice say. *)
Theorem resolve_next_in_range cmds i cmd v sc rnd :
  commands_wf cmds -> cmds !! i = Some cmd ->
  0 <= (resolveNext (Z.of_nat i) cmd v sc rnd).1 <= Z.of_nat (length cmds).
Proof.
  intros Hw Hi. destruct (Hw i cmd Hi) as (_ & _ & _ & Hn & Hl).
  apply lookup_lt_Some in Hi.
  destruct (resolveNext_cases (Z.of_nat i) cmd v sc rnd) as [->|[-> Hge]]; [lia|].
  destruct (c_NextLabel cmd) as [|a l]; [rewrite Hn in Hge by done; lia|].
  pose proof (last_label_range _ _ _ (Hl ltac:(done))). lia.
Qed.

Lemma resolve_next_in_range_witness :
  0 <= (resolveNext 0 (blankCommand CommandNop 0) (newVarStore [] [] 0) newScopedVars
          (mkFrand (fun _ => fzero) 0)).1 <= 1.
Proof.
  apply (resolve_next_in_range [blankCommand CommandNop 0] 0 (blankCommand CommandNop 0)); [|done].
  intros [|i] c [= <-]. repeat split; try done; try (by intros []); by vm_compute.
Defined.

(** A branch with [chance="0"] is taken every time: the dice are only rolled
    for chances strictly between 0 and 1. *)
Theorem chance_zero_always_jumps index cmd v sc rnd :
  c_Chance cmd = fzero -> c_Test cmd = [] -> 0 <= c_NextIndex cmd ->
  resolveNext index cmd v sc rnd = (c_NextIndex cmd, rnd).
Proof.
  intros Hc Ht Hn. unfold resolveNext. rewrite Ht, Hc.
  by rewrite (proj2 (Z.ltb_ge (c_NextIndex cmd) 0)) by done.
Qed.

Lemma chance_zero_always_jumps_witness :
  let cmd := mkCommand CommandNop 0 [] [] [] [] (lit "end") 7 [] fzero [] false
               [] 0 [] [] false None false [] [] false 0 None [] false [] in
  let rnd := mkFrand (fun _ => fone) 0 in
  resolveNext 0 cmd (newVarStore [] [] 0) newScopedVars rnd = (7, rnd).
Proof. intros cmd rnd. apply (chance_zero_always_jumps 0 cmd); done. Defined.
