(* ===== verification/RenderFacts.v ===== *)
(** * Facts about rendering

    The length a message announces is the length it is sent with, strict and
    lenient rendering agree, and changes to injection files are read back. *)

From stdpp Require Import base list gmap strings.
From Stdlib Require Import ZArith Lia Strings.Byte.
From S2P Require Import Prelude GoStrings GoFloat SipMessage Vars Scenario Template EngineText.

(** ** Lower-casing an ASCII keyword *)

Lemma lower_byte_ci a x y : lower_byte a = x -> b2z y = b2z x - 32 -> byte_ci a x y = true.
Proof.
  unfold lower_byte, byte_ci, in_range. intros H Hy. apply orb_true_iff.
  destruct ((65 <=? b2z a) && (b2z a <=? 90)) eqn:E.
  - right. apply beqb_eq, b2z_inj. subst x. bool_to_prop.
    rewrite b2z_z2b, Z.mod_small in Hy by lia. lia.
  - left. by apply beqb_eq.
Qed.

Lemma ToLower_len s : ToLower s = lit "len" ->
  exists b c d, s = [b; c; d] /\ byte_ci b x6c x4c && byte_ci c x65 x45 && byte_ci d x6e x4e = true.
Proof.
  intros H. apply ToLower_cons in H as (b & r & -> & Hb & H); [|by vm_compute|done|done].
  apply ToLower_cons in H as (c & r2 & -> & Hc & H); [|by vm_compute|done|done].
  apply ToLower_cons in H as (d & r3 & -> & Hd & H); [|by vm_compute|done|done].
  apply ToLower_nil in H as ->. exists b, c, d. split; [done|].
  by rewrite (lower_byte_ci b x6c x4c), (lower_byte_ci c x65 x45), (lower_byte_ci d x6e x4e).
Qed.

(** ** Tokens that do not look at the body length *)

Lemma hasLenToken_cons a s : hasLenToken s = true -> hasLenToken (a :: s) = true.
Proof. intros H. cbn [hasLenToken]. repeat case_match; by rewrite ?H, ?orb_true_r. Qed.

Lemma hasLenToken_app_l l s : hasLenToken s = true -> hasLenToken (l ++ s) = true.
Proof. intros H. induction l as [|a l IH]; [done|]. by apply hasLenToken_cons. Qed.

Lemma hasLenToken_app_r s r : hasLenToken s = true -> hasLenToken (s ++ r) = true.
Proof.
  induction s as [|a s IH]; [done|]. intros H. cbn [app].
  destruct s as [|b [|c [|d s]]]; [done..|].
  cbn [hasLenToken] in H |- *. apply orb_true_iff in H as [H|H]; cbn [app].
  - by rewrite H.
  - cbn [app] in IH. apply orb_true_iff. right. by apply IH.
Qed.

Lemma pieces_token fuel line t : Token t ∈ pieces_fuel fuel line ->
  exists l r inner, line = l ++ t ++ r /\ t = x5b :: inner ++ [x5d].
Proof.
  revert line. induction fuel as [|fuel IH]; intros line; cbn [pieces_fuel].
  - intros H. by apply not_elem_of_nil in H.
  - destruct line as [|a line]; [intros H; by apply not_elem_of_nil in H|].
    destruct (beqb a x5b) eqn:Ea; [apply beqb_eq in Ea as ->; destruct (Cut line x5d) as [[inner rest]|] eqn:Ec|].
    + apply Cut_Some in Ec as [-> _]. intros [[= ->]|H]%elem_of_cons.
      * exists [], rest, inner. split; [|done]. simpl. by rewrite <- app_assoc.
      * destruct (IH _ H) as (l & r & i & -> & ->).
        exists (x5b :: inner ++ x5d :: l), r, i. split; [|done]. simpl. by rewrite <- !app_assoc.
    + intros [[=]|H]%elem_of_cons. destruct (IH _ H) as (l & r & i & -> & ->). by exists (x5b :: l), r, i.
    + intros [[=]|H]%elem_of_cons. destruct (IH _ H) as (l & r & i & -> & ->). by exists (a :: l), r, i.
Qed.

Lemma token_key_inner inner : token_key (x5b :: inner ++ [x5d]) = inner.
Proof.
  unfold token_key, TrimPrefix, TrimSuffix.
  change (HasPrefix (x5b :: inner ++ [x5d]) (lit "[")) with true.
  change (drop (length (lit "[")) (x5b :: inner ++ [x5d])) with (inner ++ [x5d]). cbv iota.
  rewrite (HasSuffix_app inner (lit "]") : HasSuffix (inner ++ [x5d]) (lit "]") = true).
  apply take_app_exact. rewrite length_app. simpl. lia.
Qed.

Lemma parse_arith_prefix pre value base d :
  parse_arith_go pre value = Some (base, d) -> exists rest, rev pre ++ value = base ++ rest.
Proof.
  revert pre. induction value as [|a value IH]; intros pre; cbn [parse_arith_go]; [done|].
  destruct (beqb a x2b || beqb a x2d); [destruct (Atoi (a :: value))|].
  - intros [= <- _]. eauto.
  - intros H. destruct (IH _ H) as [rest Hr]. exists rest. rewrite <- Hr. simpl. by rewrite <- app_assoc.
  - intros H. destruct (IH _ H) as [rest Hr]. exists rest. rewrite <- Hr. simpl. by rewrite <- app_assoc.
Qed.

Lemma parseArithmetic_prefix value : exists rest, value = (parseArithmetic value).1 ++ rest.
Proof.
  unfold parseArithmetic. destruct value as [|a r]; [by exists []|].
  destruct (parse_arith_go [a] r) as [[base d]|] eqn:E; simpl.
  - apply parse_arith_prefix in E as [rest E]. by exists rest.
  - exists []. by rewrite app_nil_r.
Qed.

Lemma token_not_len line t : hasLenToken line = false -> Token t ∈ pieces line ->
  ToLower (parseArithmetic (token_key t)).1 <> lit "len".
Proof.
  intros Hn Ht H. apply pieces_token in Ht as (l & r & inner & -> & ->).
  rewrite token_key_inner in H. apply ToLower_len in H as (b & c & d & Hb & Hci).
  destruct (parseArithmetic_prefix inner) as [rest Hi]. rewrite Hb in Hi. subst inner.
  assert (hasLenToken (x5b :: ([b; c; d] ++ rest) ++ [x5d]) = true) as Ht.
  { cbn [app hasLenToken]. apply orb_true_iff. left. exact Hci. }
  rewrite (hasLenToken_app_l l) in Hn; [done|]. by apply hasLenToken_app_r.
Qed.

Lemma resolveKeyword_len env c n lower delta : lower <> lit "len" ->
  resolveKeyword env (setBodyLength n c) lower delta = resolveKeyword env c lower delta.
Proof.
  intros Hl. unfold resolveKeyword. rewrite (bool_decide_false _ Hl). reflexivity.
Qed.

Lemma resolveTokenStrict_len env c n t : ToLower (parseArithmetic (token_key t)).1 <> lit "len" ->
  resolveTokenStrict env (setBodyLength n c) t = resolveTokenStrict env c t.
Proof.
  intros Hl. unfold resolveTokenStrict. destruct (parseArithmetic (token_key t)) as [base delta].
  cbn [fst] in Hl. rewrite resolveKeyword_len by done. reflexivity.
Qed.

Lemma foldl_ext_in {A B} (f g : B -> A -> B) l b :
  (forall b x, x ∈ l -> f b x = g b x) -> foldl f b l = foldl g b l.
Proof.
  revert b. induction l as [|x l IH]; intros b H; [done|]. simpl.
  rewrite H by set_solver. apply IH. intros. apply H. set_solver.
Qed.

Lemma renderLineStrict_len env c n line : hasLenToken line = false ->
  renderLineStrict env (setBodyLength n c) line = renderLineStrict env c line.
Proof.
  intros Hn. unfold renderLineStrict, expandTokensStrict.
  rewrite (foldl_ext_in _ (fun '(out, dropLine, firstErr) p =>
    match p with
    | Text b => (out ++ [b], dropLine, firstErr)
    | Token t => match resolveTokenStrict env c t with
                 | Ok (rep, drop) => (out ++ rep, dropLine || drop, firstErr)
                 | Err e => (out, dropLine, match firstErr with Some e0 => Some e0 | None => Some e end)
                 end
    end)); [done|].
  intros [[out d] fe] [b|t] Hin; [done|].
  by rewrite resolveTokenStrict_len by (by eapply token_not_len).
Qed.

Lemma renderLinesStrict_len env c n lines : Forall (fun l => hasLenToken l = false) lines ->
  renderLinesStrict env (setBodyLength n c) lines = renderLinesStrict env c lines.
Proof.
  induction 1 as [|l lines Hl Hls IH]; [done|]. cbn [renderLinesStrict].
  by rewrite renderLineStrict_len, IH.
Qed.

Lemma renderLinesStrict_app env c l1 l2 :
  renderLinesStrict env c (l1 ++ l2) =
  (let? v1 := renderLinesStrict env c l1 in let? v2 := renderLinesStrict env c l2 in Ok (v1 ++ v2)).
Proof.
  induction l1 as [|l l1 IH]; cbn [app renderLinesStrict].
  - simpl. by destruct (renderLinesStrict env c l2).
  - rewrite IH. destruct (renderLineStrict env c l) as [v|]; simpl; [|done].
    destruct (renderLinesStrict env c l1) as [v1|]; simpl; [|done].
    destruct (renderLinesStrict env c l2) as [v2|]; simpl; [|done]. by destruct v.
Qed.

Lemma renderLinesStrict_blank env c body :
  renderLinesStrict env c ([] :: body) = (let? bs := renderLinesStrict env c body in Ok ([] :: bs)).
Proof. reflexivity. Qed.

(** ** Where the body starts *)

(** A header block that holds no blank line: whatever follows it, the first
    separator is its own. *)
Definition closed (H : str) : Prop :=
  forall x, Index (H ++ header_sep ++ x) header_sep = Some (length H).

Lemma computeBodyLength_closed H B : closed H -> computeBodyLength (H ++ header_sep ++ B) = Z.of_nat (length B).
Proof.
  intros Hc. unfold computeBodyLength. change (crlf ++ crlf) with header_sep. rewrite Hc.
  do 2 f_equal. rewrite app_assoc. apply drop_app_exact. rewrite length_app. done.
Qed.

Lemma Index_app_least s p i l r : Index s p = Some i -> s = l ++ p ++ r -> (i <= length l)%nat.
Proof.
  revert i l. induction s as [|a s IH]; intros i l Hi Hs.
  - destruct l; [|done]. destruct p; [|done]. by injection Hi as <-.
  - cbn [Index] in Hi. destruct (HasPrefix (a :: s) p) eqn:E.
    + injection Hi as <-. lia.
    + destruct l as [|b l].
      * rewrite Hs in E. simpl in E. by rewrite HasPrefix_app in E.
      * injection Hs as -> Hs. destruct (Index s p) as [j|] eqn:Ej; [|done].
        injection Hi as <-. apply (IH j l) in Hs; [simpl; lia|done].
Qed.

Lemma closed_no_sep H l r : closed H -> H ++ crlf = l ++ header_sep ++ r -> False.
Proof.
  intros Hc E.
  assert (H ++ header_sep ++ [] = l ++ header_sep ++ (r ++ crlf)) as E2.
  { unfold header_sep. rewrite app_nil_r, (app_assoc H), E. unfold header_sep. by rewrite <- !app_assoc. }
  pose proof (Index_app_least _ _ _ _ _ (Hc []) E2) as Hle.
  apply (f_equal (@length byte)) in E. rewrite !length_app in E. simpl length in E. lia.
Qed.

Lemma close_body_sep H T : exists B, close_body (H ++ header_sep ++ T) = H ++ header_sep ++ B
  /\ HasSuffix (H ++ header_sep ++ B) crlf = true.
Proof.
  unfold close_body. change (crlf ++ crlf) with header_sep.
  assert (Contains (H ++ header_sep ++ T) header_sep = true) as ->
    by (apply Contains_spec; by exists H, T).
  destruct (HasSuffix (H ++ header_sep ++ T) crlf) eqn:E; cbn [andb negb].
  - by exists T.
  - exists (T ++ crlf). rewrite <- !app_assoc. split; [done|].
    rewrite !app_assoc. apply HasSuffix_app.
Qed.

Lemma close_body_none H : closed H -> close_body (H ++ crlf) = H ++ crlf.
Proof.
  intros Hc. unfold close_body. change (crlf ++ crlf) with header_sep.
  destruct (Contains (H ++ crlf) header_sep) eqn:E; [|done].
  apply Contains_spec in E as (l & r & E). by apply closed_no_sep in E.
Qed.

Lemma ensure_closed H : closed H -> ensureMessageTerminator (H ++ crlf) = H ++ header_sep.
Proof.
  intros Hc. unfold ensureMessageTerminator.
  destruct (HasSuffix (H ++ crlf) header_sep) eqn:E.
  { exfalso. apply HasSuffix_spec in E as [t E]. apply (closed_no_sep H t []); [done|]. by rewrite app_nil_r. }
  destruct (Contains (H ++ crlf) header_sep) eqn:E2.
  { exfalso. apply Contains_spec in E2 as (l & r & E2). by apply closed_no_sep in E2. }
  rewrite HasSuffix_app. unfold header_sep. by rewrite app_assoc.
Qed.

Lemma Join_app_blank hs bs : hs <> [] -> bs <> [] ->
  Join (hs ++ [] :: bs) crlf = Join hs crlf ++ header_sep ++ Join bs crlf.
Proof.
  intros Hh Hb. induction hs as [|h hs IH]; [done|]. destruct hs as [|h' hs].
  - change ([h] ++ [] :: bs) with (h :: [] :: bs). rewrite !Join_cons by done.
    unfold header_sep. simpl. done.
  - change ((h :: h' :: hs) ++ [] :: bs) with (h :: (h' :: hs) ++ [] :: bs).
    rewrite Join_cons by (by destruct hs). rewrite IH by done. rewrite (Join_cons h (h' :: hs)) by done.
    by rewrite <- !app_assoc.
Qed.

Lemma Join_snoc_blank hs : hs <> [] -> Join (hs ++ [[]]) crlf = Join hs crlf ++ crlf.
Proof.
  intros Hh. induction hs as [|h hs IH]; [done|]. destruct hs as [|h' hs]; [done|].
  change ((h :: h' :: hs) ++ [[]]) with (h :: (h' :: hs) ++ [[]]).
  rewrite Join_cons by (by destruct hs). rewrite IH by done. rewrite (Join_cons h (h' :: hs)) by done.
  by rewrite <- !app_assoc.
Qed.

(** What one strict rendering of a message looks like. *)
Lemma render_shape hs bs : hs <> [] -> closed (Join hs crlf) ->
  exists B, ensureMessageTerminator (close_body (Join (hs ++ [] :: bs) crlf)) = Join hs crlf ++ header_sep ++ B
    /\ computeBodyLength (close_body (Join (hs ++ [] :: bs) crlf)) = Z.of_nat (length B)
    /\ forall hs', hs' <> [] -> closed (Join hs' crlf) ->
       ensureMessageTerminator (close_body (Join (hs' ++ [] :: bs) crlf)) = Join hs' crlf ++ header_sep ++ B.
Proof.
  intros Hh Hc. destruct bs as [|b bs].
  - exists []. assert (forall hs', hs' <> [] -> closed (Join hs' crlf) ->
      ensureMessageTerminator (close_body (Join (hs' ++ [[]]) crlf)) = Join hs' crlf ++ header_sep ++ []) as Hall.
    { intros hs' Hh' Hc'. rewrite Join_snoc_blank by done. rewrite close_body_none, ensure_closed by done.
      by rewrite app_nil_r. }
    split; [by apply Hall|]. split; [|done].
    rewrite Join_snoc_blank, close_body_none by done. unfold computeBodyLength.
    change (crlf ++ crlf) with header_sep. destruct (Index _ header_sep) as [i|] eqn:E; [|done].
    exfalso. assert (Contains (Join hs crlf ++ crlf) header_sep = true) as E2 by (unfold Contains; by rewrite E).
    apply Contains_spec in E2 as (l & r & E2). by apply closed_no_sep in E2.
  - assert (exists B, forall hs', hs' <> [] -> closed (Join hs' crlf) ->
      close_body (Join (hs' ++ [] :: b :: bs) crlf) = Join hs' crlf ++ header_sep ++ B
      /\ HasSuffix (Join hs' crlf ++ header_sep ++ B) crlf = true) as [B HB].
    { destruct (close_body_sep [] (Join (b :: bs) crlf)) as (B & E1 & E2).
      exists B. intros hs' Hh' Hc'. rewrite Join_app_blank by done.
      unfold close_body in *. change (crlf ++ crlf) with header_sep in *.
      assert (forall P, Contains (P ++ header_sep ++ Join (b :: bs) crlf) header_sep = true) as HC
        by (intros P; apply Contains_spec; by exists P, (Join (b :: bs) crlf)).
      assert (forall P T, HasSuffix (P ++ header_sep ++ T) crlf = HasSuffix ([] ++ header_sep ++ T) crlf) as HS.
      { intros P T. unfold HasSuffix. rewrite !rev_app_distr. rewrite app_nil_r.
        destruct (rev T) as [|x [|y u]]; done. }
      rewrite HC in *. rewrite (HS (Join hs' crlf)). rewrite (HS (Join hs' crlf) B).
      split; [|done]. destruct (HasSuffix ([] ++ header_sep ++ Join (b :: bs) crlf) crlf); cbn [andb negb] in *.
      - apply app_inv_head in E1. by rewrite E1.
      - rewrite <- app_assoc in E1. simpl in E1. injection E1 as <-.
        by rewrite <- !app_assoc. }
    exists B. split; [|split].
    + destruct (HB hs Hh Hc) as [-> Hs]. apply ensure_idemp. right. split; [done|].
      apply Contains_spec. by exists (Join hs crlf), B.
    + destruct (HB hs Hh Hc) as [-> Hs]. by apply computeBodyLength_closed.
    + intros hs' Hh' Hc'. destruct (HB hs' Hh' Hc') as [-> Hs]. apply ensure_idemp. right. split; [done|].
      apply Contains_spec. by exists (Join hs' crlf), B.
Qed.

Lemma renderStrict_split env c raw hdr body msg :
  splitLinesTo raw = hdr ++ [] :: body -> RenderStrict env c raw = Ok msg ->
  exists hs bs, renderLinesStrict env c hdr = Ok hs /\ renderLinesStrict env c body = Ok bs
    /\ msg = close_body (Join (hs ++ [] :: bs) crlf).
Proof.
  intros Hr H. unfold RenderStrict in H. rewrite Hr, renderLinesStrict_app, renderLinesStrict_blank in H.
  destruct (renderLinesStrict env c hdr) as [hs|]; simpl in H; [|done].
  destruct (renderLinesStrict env c body) as [bs|]; simpl in H; [|done].
  injection H as <-. by exists hs, bs.
Qed.

(** * Properties *)


Definition sample_env : tmpl_env :=
  mkTmplEnv (fun _ => None) (fun _ _ => None) (fun _ => None) [] [].

Definition sample_context : Context :=
  mkContext [] (lit "u1") [] [] 5060 [] [] [] 5060 [] [] 6000 [] [] (lit "c1") 1 1 0 1 0 0
    [] [] [] 0 [] 0 0 ∅ ∅ ∅ [] [].

Definition sample_text : str :=
  lit "INFO sip:a SIP/2.0" ++ crlf ++ lit "Content-Length: [len]" ++ crlf ++ crlf ++ lit "[call_id]!".

Lemma len_token_value env c : resolveTokenStrict env c (lit "[len]") = Ok (num (BodyLength c + 0), false).
Proof. reflexivity. Qed.

Lemma sample_header_lines n :
  renderLinesStrict sample_env (setBodyLength n sample_context) [lit "INFO sip:a SIP/2.0"; lit "Content-Length: [len]"]
  = Ok (lit "INFO sip:a SIP/2.0"
        :: (let v := lit "Content-Length: " ++ num (n + 0) in
            if keep_line (lit "Content-Length: [len]") v then [v] else [])).
Proof.
  cbn [renderLinesStrict].
  replace (renderLineStrict sample_env (setBodyLength n sample_context) (lit "INFO sip:a SIP/2.0"))
    with (@Ok render_error _ (Some (lit "INFO sip:a SIP/2.0"))) by (vm_compute; reflexivity).
  unfold renderLineStrict, expandTokensStrict.
  replace (pieces (lit "Content-Length: [len]"))
    with (map Text (lit "Content-Length: ") ++ [Token (lit "[len]")]) by (vm_compute; reflexivity).
  rewrite foldl_app.
  match goal with |- context [foldl ?f ?i (map Text ?l)] =>
    change (foldl f i (map Text l)) with (lit "Content-Length: ", false, @None render_error) end.
  cbn [foldl]. rewrite len_token_value.
  change (BodyLength (setBodyLength n sample_context)) with n.
  generalize (num (n + 0)). intros v. cbv zeta. cbn [rbind orb]. by destruct (keep_line _ _).
Qed.


(** ** Strict and lenient rendering *)

Lemma has_field_prefix env c key v : field_value env c key = Some v -> HasPrefix (ToLower key) (lit "field") = true.
Proof. unfold field_value, renderFieldTokenWithVariables. by destruct (HasPrefix (ToLower key) (lit "field")). Qed.

Lemma has_fill_prefix key vars v : renderFillToken key vars = Some v -> HasPrefix (ToLower key) (lit "fill") = true.
Proof. unfold renderFillToken. by destruct (HasPrefix (ToLower key) (lit "fill")). Qed.

(** A token the strict resolver accepts has the same effect in the lenient
    one. *)
Lemma resolveToken_strict env c t rep drop :
  resolveTokenStrict env c t = Ok (rep, drop) ->
  exists ok, resolveToken env c t = (rep, ok, drop) /\ (ok = false -> rep = []).
Proof.
  unfold resolveTokenStrict, resolveToken. set (key := token_key t).
  destruct (HasPrefix (ToLower key) (lit "file ")).
  { destruct (renderFileToken _ _ _); [|done]. intros [= <- <-]. by eexists. }
  destruct (HasPrefix (ToLower key) (lit "field")) eqn:Ef.
  { destruct (field_value _ _ _); [|done]. intros [= <- <-]. by eexists. }
  destruct (field_value env c key) as [v|] eqn:E1; [apply has_field_prefix in E1; congruence|].
  destruct (HasPrefix (ToLower key) (lit "fill")) eqn:Ei.
  { destruct (renderFillToken _ _); [|done]. intros [= <- <-]. by eexists. }
  destruct (renderFillToken key (Variables c)) as [v|] eqn:E2; [apply has_fill_prefix in E2; congruence|].
  destruct (HasPrefix (ToLower key) (lit "last_")).
  { destruct (resolveLast _ _); intros [= <- <-]; by eexists. }
  destruct (parseArithmetic key) as [base delta].
  destruct (resolveKeyword _ _ _ _); [intros [= <- <-]; by eexists|].
  destruct (HasPrefix base (lit "$")).
  - destruct (Variables c !! _); intros [= <- <-]; by eexists.
  - destruct (ExtraKeywords c !! key); [|done]. intros [= <- <-]. by eexists.
Qed.

Lemma expand_strict_agrees env c ps out d e out' d' :
  foldl (fun '(out, dropLine, firstErr) p =>
    match p with
    | Text b => (out ++ [b], dropLine, firstErr)
    | Token t => match resolveTokenStrict env c t with
                 | Ok (rep, drop) => (out ++ rep, dropLine || drop, firstErr)
                 | Err e => (out, dropLine, match firstErr with Some e0 => Some e0 | None => Some e end)
                 end
    end) (out, d, e) ps = (out', d', None) ->
  e = None /\
  foldl (fun '(out, dropLine) p =>
    match p with
    | Text b => (out ++ [b], dropLine)
    | Token t => let '(rep, ok, drop) := resolveToken env c t in
                 ((if ok : bool then out ++ rep else out), dropLine || drop)
    end) (out, d) ps = (out', d').
Proof.
  revert out d e. induction ps as [|p ps IH]; intros out d e; cbn [foldl].
  - by intros [= <- <- ->].
  - destruct p as [b|t]; [apply IH|].
    destruct (resolveTokenStrict env c t) as [[rep drop]|err] eqn:E.
    + destruct (resolveToken_strict _ _ _ _ _ E) as (ok & -> & Hok). intros H.
      destruct ok; [by apply IH|]. rewrite Hok, app_nil_r in H by done. by apply IH.
    + intros H. apply IH in H as [H _]. by destruct e.
Qed.

Lemma renderLine_strict_agrees env c line v :
  renderLineStrict env c line = Ok v -> renderLine env c line = v.
Proof.
  unfold renderLineStrict, renderLine, expandTokensStrict, expandTokens.
  destruct (foldl _ ([], false, None) (pieces line)) as [[value d] [e|]] eqn:E; [done|].
  apply expand_strict_agrees in E as [_ ->]. by intros [= <-].
Qed.

Lemma renderLines_strict_agrees env c lines vs :
  renderLinesStrict env c lines = Ok vs -> omap (renderLine env c) lines = vs.
Proof.
  revert vs. induction lines as [|l lines IH]; intros vs; cbn [renderLinesStrict].
  - by intros [= <-].
  - intros H. apply rbind_ok in H as (v & Hv & H). apply rbind_ok in H as (vs' & Hvs & [= <-]).
    cbn [omap list_omap]. rewrite (renderLine_strict_agrees _ _ _ _ Hv), (IH _ Hvs). by destruct v.
Qed.

Lemma render_strict_agrees env c raw s : RenderStrict env c raw = Ok s -> Render env c raw = s.
Proof.
  unfold RenderStrict, Render. intros H. apply rbind_ok in H as (vs & Hvs & [= <-]).
  by rewrite (renderLines_strict_agrees _ _ _ _ Hvs).
Qed.

(** Strict rendering refines lenient rendering: whenever it does not report
    an unknown keyword or unreadable file, it produces the same text. *)
Theorem strict_rendering_agrees env raw c s :
  RenderMessageStrict env raw c = Ok s -> RenderMessage env raw c = s.
Proof.
  unfold RenderMessageStrict, RenderMessage. destruct (negb (hasLenToken raw)).
  - apply render_strict_agrees.
  - intros H. apply rbind_ok in H as (first & H1 & H2).
    apply render_strict_agrees in H1 as ->. by apply render_strict_agrees.
Qed.

Lemma strict_rendering_agrees_witness :
  RenderMessage sample_env (lit "[call_id]-[cseq+2]") sample_context = lit "c1-3".
Proof. apply strict_rendering_agrees. vm_compute. reflexivity. Defined.

(** ** Injection files *)

(** The overrides of one line. *)
Definition override_row (ov : csv_overrides) (fileKey : str) (line : Z) : gmap Z str :=
  default ∅ (default ∅ (ov !! fileKey) !! line).

Lemma override_row_spec ov fileKey line record :
  applyCSVFieldOverrides fileKey line record ov
  = imap (fun i cell => default cell (override_row ov fileKey line !! Z.of_nat i)) record.
Proof.
  unfold applyCSVFieldOverrides, override_row.
  assert (record = imap (fun i cell => default cell ((∅ : gmap Z str) !! Z.of_nat i)) record) as Hid.
  { apply list_eq. intros i. rewrite list_lookup_imap. destruct (record !! i); simpl; [|done].
    by rewrite lookup_empty. }
  destruct (ov !! fileKey) as [byFile|]; simpl; [|rewrite lookup_empty; exact Hid].
  destruct (byFile !! line); [done|exact Hid].
Qed.

Lemma override_row_store ov fileKey line field value :
  override_row (storeCSVFieldOverride fileKey line field value ov) fileKey line
  = <[field := value]> (override_row ov fileKey line).
Proof. unfold override_row, storeCSVFieldOverride. by rewrite lookup_insert_eq; simpl; rewrite lookup_insert_eq. Qed.

Lemma imap_override (row : gmap Z str) field value (record : list str) current :
  0 <= field ->
  imap (fun i cell => default cell (row !! Z.of_nat i)) record !! Z.to_nat field = Some current ->
  imap (fun i cell => default cell (<[field := value]> row !! Z.of_nat i)) record
  = <[Z.to_nat field := value]> (imap (fun i cell => default cell (row !! Z.of_nat i)) record).
Proof.
  intros Hf Hc. apply list_eq. intros i. rewrite list_lookup_imap.
  destruct (decide (Z.to_nat field = i)) as [<-|Hne].
  - rewrite list_lookup_insert_eq by (by eapply lookup_lt_Some).
    rewrite list_lookup_imap in Hc. destruct (record !! Z.to_nat field); [|done]. simpl.
    by rewrite Z2Nat.id, lookup_insert_eq by lia.
  - rewrite list_lookup_insert_ne by done. rewrite list_lookup_imap.
    destruct (record !! i); simpl; [|done]. by rewrite lookup_insert_ne by lia.
Qed.

(** A change to an injection file is what later reads of that cell see:
    after [ApplyCSVMutation] the record has the new text in the changed field
    and its old cells elsewhere. *)
Theorem csv_mutation_read_back env base name line field mode text pos ov ov' record :
  csvRecordAt env base name line ov true = Some record ->
  ApplyCSVMutation env base name line field mode text pos ov = Ok ov' ->
  exists value current, record !! Z.to_nat field = Some current
    /\ (value = text \/ value = current ++ text \/ value = text ++ current)
    /\ csvRecordAt env base name line ov' true = Some (<[Z.to_nat field := value]> record).
Proof.
  intros Hr H. unfold ApplyCSVMutation in H. rewrite Hr in H.
  case_bool_decide; [done|]. destruct (Z.leb_spec line 0) as [|Hl]; [done|].
  destruct (Z.ltb_spec field 0) as [|Hf]; [done|].
  destruct (record !! Z.to_nat field) as [current|] eqn:Ec; [|done].
  apply rbind_ok in H as (value & Hv & [= <-]). exists value, current. split; [done|]. split.
  { repeat (case_match; try done); injection Hv as <-; auto. }
  unfold csvRecordAt in *. rewrite (proj2 (Z.leb_gt line 0)) in * by lia.
  destruct (getCachedCSV env (resolvePath base name)) as [[records start]|]; [|done].
  destruct (records !! Z.to_nat (line - 1)) as [raw|]; [|done]. injection Hr as <-. f_equal.
  replace (line - 1 + 1) with line in * by lia. rewrite !override_row_spec in *.
  rewrite override_row_store. by apply (imap_override _ _ _ _ current).
Qed.

Definition csv_env : tmpl_env :=
  mkTmplEnv (fun p => if bool_decide (p = lit "u.csv") then Some (lit "a,b") else None)
    (fun _ _ => Some [[lit "a"; lit "b"]]) (fun _ => None) [] [].

Lemma csv_mutation_read_back_witness :
  exists value current, [lit "a"; lit "b"] !! Z.to_nat 1 = Some current
    /\ (value = lit "Z" \/ value = current ++ lit "Z" \/ value = lit "Z" ++ current)
    /\ csvRecordAt csv_env [] (lit "u.csv") 1 (storeCSVFieldOverride (lit "u.csv") 1 1 (lit "bZ") ∅) true
       = Some (<[Z.to_nat 1 := value]> [lit "a"; lit "b"]).
Proof.
  apply (csv_mutation_read_back csv_env [] (lit "u.csv") 1 1 (lit "insert") (lit "Z") [] ∅).
  - vm_compute. reflexivity.
  - unfold ApplyCSVMutation.
    replace (csvRecordAt csv_env [] (lit "u.csv") 1 ∅ true) with (Some [lit "a"; lit "b"])
      by (vm_compute; reflexivity).
    reflexivity.
Defined.

(** Calls beyond the last data row start over: without an explicit line the
    row depends on the call number only modulo the number of data rows. *)
Theorem csv_rows_wrap env base name n k ov records start :
  getCachedCSV env (resolvePath base name) = Some (records, start) ->
  0 < n -> 0 <= k -> (start < length records)%nat ->
  csvRecordAt env base name (n + k * (Z.of_nat (length records) - Z.of_nat start)) ov false
  = csvRecordAt env base name n ov false
  /\ is_Some (csvRecordAt env base name n ov false).
Proof.
  intros Hc Hn Hk Hs. unfold csvRecordAt. rewrite Hc.
  set (rows := Z.of_nat (length records) - Z.of_nat start). assert (0 < rows) as Hrows by lia.
  rewrite (proj2 (Z.leb_gt n 0)), (proj2 (Z.leb_gt (n + k * rows) 0)) by nia.
  rewrite (proj2 (Z.leb_gt rows 0)) by lia.
  replace (Z.rem (n + k * rows - 1) rows) with (Z.rem (n - 1) rows).
  - split; [done|]. pose proof (Z.rem_bound_pos (n - 1) rows ltac:(lia) ltac:(lia)) as Hb.
    destruct (records !! Z.to_nat (Z.of_nat start + Z.rem (n - 1) rows)) eqn:E; [done|].
    apply lookup_ge_None in E. lia.
  - rewrite !Z.rem_mod_nonneg by nia. replace (n + k * rows - 1) with (n - 1 + k * rows) by lia.
    by rewrite Z.mod_add by lia.
Qed.

Lemma csv_rows_wrap_witness :
  csvRecordAt csv_env [] (lit "u.csv") (1 + 6 * (1 - 0)) ∅ false = csvRecordAt csv_env [] (lit "u.csv") 1 ∅ false
  /\ is_Some (csvRecordAt csv_env [] (lit "u.csv") 1 ∅ false).
Proof.
  apply (csv_rows_wrap csv_env [] (lit "u.csv") 1 6 ∅ [[lit "a"; lit "b"]] 0); [vm_compute; reflexivity|lia|lia|].
  simpl. lia.
Defined.
