(* ===== verification/Commands.v ===== *)
(** * Inter-instance commands ([sendCmd] / [recvCmd])

    [internal/engine/command_bus.go] and [command_network.go], with the helpers
    of [engine.go] that read a command's headers and [waitForCommand].  The
    broker's map is a [gmap]; where Go ranges over it the visiting order is an
    explicit argument. *)

From stdpp Require Import base list gmap strings.
From Stdlib Require Import ZArith Lia Strings.Byte.
From S2P Require Import Prelude GoStrings SipMessage Template.

(** ** Headers of a command *)

(** One line of [parseCommandHeaders]. *)
Definition addCommandLine (h : headers) (line : str) : headers :=
  match TrimSpace line with
  | [] => h
  | line =>
    match Cut line x3a with
    | None => h
    | Some (name, value) =>
      match TrimSpace name with
      | [] => h
      | name => hdr_append name [TrimSpace value] h
      end
    end
  end.

Definition parseCommandHeaders (msg : str) : headers := foldl addCommandLine [] (splitLinesTo msg).

(** [lookupHeaderCI]: the first entry visited, whatever it holds. *)
Fixpoint lookupHeaderCI (h : headers) (name : str) : option (list str) :=
  match h with
  | [] => None
  | (key, values) :: h' => if EqualFold key name then Some values else lookupHeaderCI h' name
  end.

(** The first value of a header, when it is not blank. *)
Definition commandHeader (raw name : str) : option str :=
  match lookupHeaderCI (parseCommandHeaders raw) name with
  | Some (v :: _) => match TrimSpace v with [] => None | _ => Some v end
  | _ => None
  end.

Definition commandCallID (raw fallback : str) : str :=
  match commandHeader raw (lit "Call-ID") with
  | Some v => NormalizeCallID v
  | None => fallback
  end.

Definition commandSender (raw fallback : str) : str :=
  match commandHeader raw (lit "From") with
  | Some v => TrimSpace v
  | None => fallback
  end.

Definition fallbackCommandSender (name dest : str) : str :=
  match name with [] => dest | _ => name end.

(** ** The broker *)

Record commandMessage := mkCommandMessage { cm_raw : str; cm_from : str }.

#[global] Instance commandMessage_eq_dec : EqDecision commandMessage.
Proof. solve_decision. Defined.

Abbreviation commandBroker := (gmap str (list commandMessage)).

Definition newCommandBroker : commandBroker := ∅.

Definition queue_of (b : commandBroker) (key : str) : list commandMessage := default [] (b !! key).

Definition broker_key (callID channel : str) : str := callID ++ x00 :: channel.

Definition enqueue (callID channel : str) (msg : commandMessage) (b : commandBroker) : commandBroker :=
  let key := broker_key callID channel in <[key := queue_of b key ++ [msg]]> b.

(** [src != "" && msg.from != src] keeps a message waiting. *)
Definition wanted (src : str) (msg : commandMessage) : bool :=
  bool_decide (src = []) || bool_decide (cm_from msg = src).

(** The first wanted message and the queue without it. *)
Fixpoint take_first (src : str) (queue : list commandMessage) : option (commandMessage * list commandMessage) :=
  match queue with
  | [] => None
  | msg :: rest =>
    if wanted src msg then Some (msg, rest)
    else match take_first src rest with
         | Some (m, rest') => Some (m, msg :: rest')
         | None => None
         end
  end.

Definition dequeue (callID channel src : str) (b : commandBroker) : option (commandMessage * commandBroker) :=
  let key := broker_key callID channel in
  match take_first src (queue_of b key) with
  | Some (msg, rest) => Some (msg, <[key := rest]> b)
  | None => None
  end.

(** [dequeueAny]: [order] is the order in which [range b.queues] visits the
    keys.  A key shorter than the suffix is not skipped; slicing it is a run-
    time panic. *)
Fixpoint dequeueAny (order : list str) (channel src : str) (b : commandBroker)
    : outcome (option (str * commandMessage * commandBroker)) :=
  match order with
  | [] => Ret None
  | key :: order' =>
    let suffix := x00 :: channel in
    let cut := (length key - length suffix)%nat in
    if Nat.leb (length suffix) (length key) && negb (bool_decide (drop cut key = suffix))
    then dequeueAny order' channel src b
    else match take_first src (queue_of b key) with
         | Some (msg, rest) =>
           if Nat.ltb (length key) (length suffix) then Panic
           else Ret (Some (take cut key, msg, <[key := rest]> b))
         | None => dequeueAny order' channel src b
         end
  end.

(** ** Frames *)

Definition writeCommandFrame (raw : str) : str := put_u32 (Z.of_nat (length raw)) ++ raw.

(** [readCommandFrame] on the bytes a connection will deliver before it
    fails; [None] is any reader error. *)
Definition readCommandFrame (r : str) : option (str * str) :=
  if Nat.ltb (length r) 4 then None else
  let size := get_be (take 4 r) in
  let r := drop 4 r in
  if size =? 0 then Some ([], r)
  else if Z.of_nat (length r) <? size then None
  else Some (take (Z.to_nat size) r, drop (Z.to_nat size) r).

(** What the accept loop does with one frame. *)
Definition acceptCommand (remote : str) (b : commandBroker) (raw : str) : commandBroker :=
  match commandCallID raw [] with
  | [] => b
  | callID => enqueue callID [] (mkCommandMessage raw (commandSender raw remote)) b
  end.

(** One connection of [startCommandNetwork], until a read fails.  A frame has
    at least four bytes, so the number of bytes bounds the iterations. *)
Fixpoint serve_fuel (fuel : nat) (remote conn : str) (b : commandBroker) : commandBroker :=
  match fuel with
  | O => b
  | S fuel' =>
    match readCommandFrame conn with
    | None => b
    | Some (raw, conn') => serve_fuel fuel' remote conn' (acceptCommand remote b raw)
    end
  end.

Definition serveConnection (remote conn : str) (b : commandBroker) : commandBroker :=
  serve_fuel (length conn) remote conn b.

(** ** Sending *)

Inductive command_error :=
  | ErrNoCallID
  | ErrUnknownPeer (dest : str)
  | ErrDial
  | ErrWrite.

(** The instance's own name and, when the network runs, its peers. *)
Record commandConfig := mkCommandConfig {
  cc_name : str;
  cc_peers : option (gmap str str)
}.

(** What a send does: queue locally, or write bytes to a peer's address. *)
Inductive command_effect :=
  | Queued (b : commandBroker)
  | Wrote (addr frame : str).

(** [sendCommand]; [dial addr] is the outcome of connecting, [write addr data]
    that of writing. *)
Definition sendCommand (dial : str -> bool) (write : str -> str -> bool) (cfg : commandConfig)
    (b : commandBroker) (dest raw : str) : result command_error command_effect :=
  let from := commandSender raw (fallbackCommandSender (cc_name cfg) dest) in
  match commandCallID raw [] with
  | [] => Err ErrNoCallID
  | callID =>
    let local := Ok (Queued (enqueue callID [] (mkCommandMessage raw from) b)) in
    match cc_peers cfg with
    | None => local
    | Some peers =>
      if bool_decide (dest = []) || bool_decide (dest = cc_name cfg) then local else
      match peers !! dest with
      | None => Err (ErrUnknownPeer dest)
      | Some addr =>
        if negb (dial addr) then Err ErrDial
        else if write addr (writeCommandFrame raw) then Ok (Wrote addr (writeCommandFrame raw))
        else Err ErrWrite
      end
    end
  end.

(** ** Waiting *)

(** What the rest of the program does before a poll: frames it accepts, the
    order a range would visit the map in, and the clock and context after it. *)
Record tick := mkTick {
  tk_arrivals : commandBroker -> commandBroker;
  tk_order : commandBroker -> list str;
  tk_cancelled : bool;
  tk_late : bool
}.

Inductive wait_result :=
  | Received (callID : str) (msg : commandMessage) (b : commandBroker)
  | Cancelled (b : commandBroker)
  | DeadlineExceeded (b : commandBroker)
  | StillWaiting (b : commandBroker).

(** One pass of the polling loop of [waitForCommand]. *)
Definition poll (callID channel src : str) (t : tick) (b : commandBroker)
    : outcome (option (str * commandMessage * commandBroker)) :=
  match callID with
  | [] => dequeueAny (tk_order t b) channel src b
  | _ => Ret (match dequeue callID channel src b with
              | Some (msg, b') => Some (callID, msg, b')
              | None => None
              end)
  end.

Fixpoint wait_loop (ticks : list tick) (callID channel src : str) (b : commandBroker) : outcome wait_result :=
  match ticks with
  | [] => Ret (StillWaiting b)
  | t :: ticks' =>
    let b := tk_arrivals t b in
    match poll callID channel src t b with
    | Panic => Panic
    | Ret (Some (key, msg, b')) => Ret (Received key msg b')
    | Ret None =>
      if tk_cancelled t then Ret (Cancelled b)
      else if tk_late t then Ret (DeadlineExceeded b)
      else wait_loop ticks' callID channel src b
    end
  end.

Definition waitForCommand (ticks : list tick) (callID channel src : str) (b : commandBroker) : outcome wait_result :=
  wait_loop ticks (match callID with [] => [] | _ => NormalizeCallID callID end) channel src b.

(** ** Other helpers of [engine.go] *)

(** [extractBody] *)
Definition extractBody (msg : str) : str :=
  match Index msg (crlf ++ crlf) with
  | Some idx => drop (idx + 4) msg
  | None => []
  end.

(** [copyHeaders] *)
Definition copyHeaders (m : headers) : headers := hdr_live m.

(** [buildRouteHeaders] *)
Definition buildRouteHeaders (h : headers) : str :=
  match lookupHeaderCI h (lit "Record-Route") with
  | None => []
  | Some values =>
    Join (flat_map (fun value => match TrimSpace value with
                                 | [] => []
                                 | value => [lit "Route: " ++ value]
                                 end) (rev values)) crlf
  end.

(** * Lemmas *)

Lemma take_first_spec src q m rest :
  take_first src q = Some (m, rest) <->
  exists l r, q = l ++ m :: r /\ rest = l ++ r /\ wanted src m = true
              /\ Forall (fun x => wanted src x = false) l.
Proof.
  revert m rest. induction q as [|x q IH]; intros m rest; simpl.
  - split; [done|]. intros (l & r & H & _). by destruct l.
  - destruct (wanted src x) eqn:E.
    + split.
      * intros [= <- <-]. exists [], q. auto.
      * intros (l & r & Hq & -> & Hw & Hl). destruct l as [|y l]; simpl in *; [congruence|].
        injection Hq as <- _. inversion Hl; congruence.
    + destruct (take_first src q) as [[m' rest']|] eqn:Et.
      * split.
        -- intros [= <- <-]. destruct (proj1 (IH m' rest') eq_refl) as (l & r & -> & -> & Hw & Hl).
           exists (x :: l), r. repeat split; auto.
        -- intros (l & r & Hq & -> & Hw & Hl). destruct l as [|y l]; simpl in *; [congruence|].
           injection Hq as <- ->. inversion Hl; subst.
           by pose proof (proj2 (IH m (l ++ r)) ltac:(by exists l, r)) as [= -> ->].
      * split; [done|]. intros (l & r & Hq & -> & Hw & Hl).
        destruct l as [|y l]; simpl in *; [congruence|]. injection Hq as <- ->. inversion Hl; subst.
        by pose proof (proj2 (IH m (l ++ r)) ltac:(by exists l, r)).
Qed.

Lemma take_first_none src q : take_first src q = None <-> Forall (fun x => wanted src x = false) q.
Proof.
  induction q as [|x q IH]; simpl; [done|]. rewrite Forall_cons.
  destruct (wanted src x); [naive_solver|]. destruct (take_first src q) as [[]|]; naive_solver.
Qed.

Lemma take_first_snoc src q m :
  wanted src m = true -> Forall (fun x => wanted src x = false) q ->
  take_first src (q ++ [m]) = Some (m, q).
Proof. intros Hm Hq. apply take_first_spec. exists q, []. by rewrite app_nil_r. Qed.

Lemma broker_key_inj c1 c2 ch1 ch2 :
  x00 ∉ ch1 -> x00 ∉ ch2 -> broker_key c1 ch1 = broker_key c2 ch2 -> c1 = c2 /\ ch1 = ch2.
Proof.
  intros H1 H2 H. apply (f_equal (@rev byte)) in H. unfold broker_key in H.
  rewrite !rev_app_distr in H. simpl in H. rewrite <- !app_assoc in H. simpl in H.
  assert (x00 ∉ rev ch1 /\ x00 ∉ rev ch2) as [N1 N2].
  { rewrite !list_elem_of_In, <- !in_rev, <- !list_elem_of_In. done. }
  pose proof (Cut_app (rev ch1) (rev c1) x00 N1) as E. rewrite H, Cut_app in E by done.
  injection E as E1 E2. apply (f_equal (@rev byte)) in E1, E2. by rewrite !rev_involutive in *.
Qed.

Lemma queue_of_insert b k k' q : queue_of (<[k := q]> b) k' = if decide (k = k') then q else queue_of b k'.
Proof. unfold queue_of. rewrite lookup_insert. by case_decide. Qed.

(** Every key of a broker that was only filled by [enqueue] holds the NUL
    separator. *)
Definition keys_wf (b : commandBroker) : Prop :=
  forall key, is_Some (b !! key) -> exists callID channel, key = broker_key callID channel.

Lemma keys_wf_new : keys_wf newCommandBroker.
Proof. intros key [q H]. unfold newCommandBroker in H. by rewrite lookup_empty in H. Qed.

Lemma keys_wf_insert b callID channel q : keys_wf b -> keys_wf (<[broker_key callID channel := q]> b).
Proof.
  intros Hw key [q' H]. apply lookup_insert_Some in H as [[<- _]|[_ H]]; [by eexists _, _|].
  apply Hw. by eexists.
Qed.

Lemma keys_wf_accept remote b raw : keys_wf b -> keys_wf (acceptCommand remote b raw).
Proof. intros. unfold acceptCommand, enqueue. case_goal; [done|]. by apply keys_wf_insert. Qed.

Create HintDb commands.
#[export] Hint Resolve keys_wf_new keys_wf_insert keys_wf_accept : commands.

Lemma readCommandFrame_write raw rest :
  Z.of_nat (length raw) < 2 ^ 32 -> readCommandFrame (writeCommandFrame raw ++ rest) = Some (raw, rest).
Proof.
  intros Hl. unfold readCommandFrame, writeCommandFrame. rewrite <- app_assoc.
  change (length (put_u32 ?z ++ _)) with (S (S (S (S (length (raw ++ rest)))))).
  simpl Nat.ltb. cbv iota.
  rewrite (take_app_exact (put_u32 _)), (drop_app_exact (put_u32 _)) by reflexivity.
  rewrite get_be_put_u32, u32_small by lia.
  destruct (Z.eqb_spec (Z.of_nat (length raw)) 0) as [H0|H0].
  { by destruct raw. }
  destruct (Z.ltb_spec (Z.of_nat (length (raw ++ rest))) (Z.of_nat (length raw))) as [H1|H1].
  { rewrite length_app in H1. lia. }
  by rewrite Nat2Z.id, take_app_length, drop_app_length.
Qed.

Definition frames (raws : list str) : str := flat_map writeCommandFrame raws.

Lemma serve_fuel_frames raws fuel remote tail b :
  Forall (fun raw => Z.of_nat (length raw) < 2 ^ 32) raws -> readCommandFrame tail = None ->
  (length raws <= fuel)%nat ->
  serve_fuel fuel remote (frames raws ++ tail) b = foldl (acceptCommand remote) b raws.
Proof.
  intros Hr Ht. revert fuel b. induction Hr as [|raw raws Hraw Hr IH]; intros fuel b Hf.
  - destruct fuel; cbn; [done|]. by rewrite Ht.
  - destruct fuel as [|fuel]; cbn in Hf; [lia|]. cbn [serve_fuel].
    change (frames (raw :: raws)) with (writeCommandFrame raw ++ frames raws).
    rewrite <- app_assoc, readCommandFrame_write by assumption. apply IH. lia.
Qed.

Lemma frames_length raws : (length raws <= length (frames raws))%nat.
Proof.
  induction raws as [|raw raws IH]; [done|].
  change (frames (raw :: raws)) with (writeCommandFrame raw ++ frames raws).
  unfold writeCommandFrame, put_u32. rewrite !length_app. cbn [length]. lia.
Qed.

Lemma serveConnection_frames raws remote tail b :
  Forall (fun raw => Z.of_nat (length raw) < 2 ^ 32) raws -> readCommandFrame tail = None ->
  serveConnection remote (frames raws ++ tail) b = foldl (acceptCommand remote) b raws.
Proof.
  intros. unfold serveConnection. apply serve_fuel_frames; [done..|].
  rewrite length_app. pose proof (frames_length raws). lia.
Qed.

(** A key that ends in the suffix splits into call id and channel. *)
Lemma key_suffix key channel :
  (length (x00 :: channel) <= length key)%nat ->
  drop (length key - length (x00 :: channel)) key = x00 :: channel ->
  key = broker_key (take (length key - length (x00 :: channel)) key) channel.
Proof. intros _ Hd. unfold broker_key. rewrite <- Hd at 2. by rewrite take_drop. Qed.

Lemma broker_key_drop callID channel :
  drop (length (broker_key callID channel) - length (x00 :: channel)) (broker_key callID channel)
  = x00 :: channel.
Proof.
  unfold broker_key. apply drop_app_exact. rewrite length_app. lia.
Qed.

Lemma dequeueAny_sound order channel src b key msg b' :
  dequeueAny order channel src b = Ret (Some (key, msg, b')) ->
  dequeue key channel src b = Some (msg, b').
Proof.
  induction order as [|k order IH]; [done|].
  cbn [dequeueAny].
  destruct (Nat.leb_spec (length (x00 :: channel)) (length k)) as [Hle|Hlt].
  - case_bool_decide as Hd; simpl andb; cbv iota; [|done].
    destruct (take_first src (queue_of b k)) as [[m rest]|] eqn:Et; [|done].
    assert (Nat.ltb (length k) (length (x00 :: channel)) = false) as ->
      by (apply Nat.ltb_ge; lia).
    intros [= <- <- <-]. unfold dequeue.
    change (S (length channel)) with (length (x00 :: channel)).
    rewrite <- (key_suffix k channel) by done. by rewrite Et.
  - simpl andb; cbv iota.
    destruct (take_first src (queue_of b k)) as [[m rest]|] eqn:Et; [|done].
    apply Nat.ltb_lt in Hlt. by rewrite Hlt.
Qed.

Lemma dequeueAny_no_panic order channel src b :
  Forall (fun key => length (x00 :: channel) <= length key)%nat order ->
  dequeueAny order channel src b <> Panic.
Proof.
  induction 1 as [|k order Hk Ho IH]; [done|]. cbn [dequeueAny].
  assert (Nat.ltb (length k) (length (x00 :: channel)) = false) as -> by (apply Nat.ltb_ge; lia).
  destruct (_ && _); [done|]. by destruct (take_first _ _) as [[]|].
Qed.

Lemma dequeueAny_complete order channel src b :
  Forall (fun key => length (x00 :: channel) <= length key)%nat order ->
  dequeueAny order channel src b = Ret None ->
  forall callID, broker_key callID channel ∈ order -> dequeue callID channel src b = None.
Proof.
  induction 1 as [|k order Hk Ho IH]; intros Hn callID Hin; [by apply not_elem_of_nil in Hin|].
  cbn [dequeueAny] in Hn.
  assert (Nat.ltb (length k) (length (x00 :: channel)) = false) as E by (apply Nat.ltb_ge; lia).
  rewrite E in Hn. apply elem_of_cons in Hin as [<-|Hin].
  - rewrite broker_key_drop, bool_decide_true in Hn by done. rewrite andb_false_r in Hn.
    unfold dequeue. by destruct (take_first _ _) as [[]|].
  - apply IH; [|done]. destruct (_ && _); [done|]. by destruct (take_first _ _) as [[]|].
Qed.

Lemma keys_long b :
  keys_wf b -> forall key, is_Some (b !! key) -> (length [x00] <= length key)%nat.
Proof.
  intros Hw key Hk. destruct (Hw key Hk) as (c & ch & ->).
  unfold broker_key. rewrite length_app. simpl. lia.
Qed.

(** A command that carries a non-empty Call-ID. *)
Lemma acceptCommand_queue remote b raw callID :
  commandCallID raw [] = callID -> callID <> [] ->
  acceptCommand remote b raw = enqueue callID [] (mkCommandMessage raw (commandSender raw remote)) b.
Proof. intros <- Hne. unfold acceptCommand. by destruct (commandCallID raw []). Qed.

Lemma dequeue_enqueue b callID channel src msg :
  wanted src msg = true ->
  Forall (fun x => wanted src x = false) (queue_of b (broker_key callID channel)) ->
  exists b', dequeue callID channel src (enqueue callID channel msg b) = Some (msg, b')
    /\ queue_of b' (broker_key callID channel) = queue_of b (broker_key callID channel).
Proof.
  intros Hm Hq. unfold dequeue, enqueue. rewrite queue_of_insert, decide_True by done.
  rewrite take_first_snoc by done. eexists. split; [done|]. by rewrite queue_of_insert, decide_True.
Qed.

(** A poll at which nothing new arrived and the wait goes on. *)
Definition idle (t : tick) : Prop :=
  (forall b, tk_arrivals t b = b) /\ tk_cancelled t = false /\ tk_late t = false.

Lemma wait_loop_idle ticks ticks' callID channel src b :
  Forall idle ticks -> callID <> [] -> dequeue callID channel src b = None ->
  wait_loop (ticks ++ ticks') callID channel src b = wait_loop ticks' callID channel src b.
Proof.
  intros Ht Hc Hd. induction Ht as [|t ticks (Ha & Hn & Hl) Ht IH]; [done|].
  cbn [app wait_loop]. rewrite Ha, Hn, Hl. unfold poll. rewrite Hd. by destruct callID.
Qed.

Lemma wait_loop_hit t ticks callID channel src b msg b' :
  callID <> [] -> dequeue callID channel src (tk_arrivals t b) = Some (msg, b') ->
  wait_loop (t :: ticks) callID channel src b = Ret (Received callID msg b').
Proof. intros Hc Hd. cbn [wait_loop]. unfold poll. rewrite Hd. by destruct callID. Qed.

(** * Properties *)

(** End to end delivery.  A command that [sendCommand] wrote to a peer is
    what the peer's [recvCmd] gets: once the peer has read the connection, a
    call that waits for that Call-ID (after any number of idle polls) receives
    exactly the text sent, provided the source filter lets it through and no
    other wanted message was queued for the call before it; the queue is left
    as it was. *)
Theorem command_delivery dial write cfg bA bB dest raw addr frame remote waitKey src idles order canc late ticks :
  sendCommand dial write cfg bA dest raw = Ok (Wrote addr frame) ->
  Z.of_nat (length raw) < 2 ^ 32 ->
  waitKey <> [] -> NormalizeCallID waitKey = commandCallID raw [] ->
  wanted src (mkCommandMessage raw (commandSender raw remote)) = true ->
  Forall (fun m => wanted src m = false) (queue_of bB (broker_key (commandCallID raw []) [])) ->
  Forall idle idles ->
  exists b', waitForCommand (idles ++ mkTick (serveConnection remote frame) order canc late :: ticks)
               waitKey [] src bB
             = Ret (Received (commandCallID raw []) (mkCommandMessage raw (commandSender raw remote)) b')
    /\ queue_of b' (broker_key (commandCallID raw []) []) = queue_of bB (broker_key (commandCallID raw []) []).
Proof.
  intros Hs Hl Hk Hn Hw Hq Hi.
  assert (commandCallID raw [] <> [] /\ frame = frames [raw]) as [Hc ->].
  { unfold sendCommand in Hs. unfold frames. cbn [flat_map]. rewrite app_nil_r.
    destruct (commandCallID raw []); [done|]. split; [done|].
    repeat (case_hyp Hs; try congruence). }
  destruct (dequeue_enqueue bB (commandCallID raw []) [] src _ Hw Hq) as (b' & Hd & Hb').
  exists b'. split; [|done]. unfold waitForCommand.
  destruct waitKey as [|w ws]; [done|]. rewrite Hn, wait_loop_idle; [|done..|].
  - apply wait_loop_hit; [done|]. cbn [tk_arrivals].
    rewrite <- (app_nil_r (frames [raw])), serveConnection_frames;
      [|by apply Forall_singleton|done].
    cbn [foldl]. by rewrite (acceptCommand_queue remote bB raw _ eq_refl Hc).
  - unfold dequeue. by rewrite (proj2 (take_first_none _ _) Hq).
Qed.

Definition sample_command : str := lit "Call-ID: 7///abc" ++ crlf ++ lit "From: m" ++ crlf ++ lit "go".

Lemma command_delivery_witness :
  exists b', waitForCommand
      ([mkTick id (fun _ => []) false false]
       ++ mkTick (serveConnection (lit "10.0.0.1:5") (frames [sample_command])) (fun _ => []) false false :: [])
      (lit "abc") [] (lit "m") newCommandBroker
    = Ret (Received (lit "abc") (mkCommandMessage sample_command (lit "m")) b')
    /\ queue_of b' (broker_key (lit "abc") []) = [].
Proof.
  apply (command_delivery (fun _ => true) (fun _ _ => true)
    (mkCommandConfig (lit "m") (Some {[lit "s" := lit "10.0.0.2:9"]})) newCommandBroker newCommandBroker
    (lit "s") sample_command (lit "10.0.0.2:9") (frames [sample_command])
    (lit "10.0.0.1:5") (lit "abc") (lit "m") [mkTick id (fun _ => []) false false]
    (fun _ => []) false false []).
  - vm_compute. reflexivity.
  - vm_compute. reflexivity.
  - done.
  - vm_compute. reflexivity.
  - vm_compute. reflexivity.
  - apply Forall_nil_2.
  - apply Forall_singleton. done.
Defined.

(** One connection carries any number of commands: reading the
    concatenated frames (with an incomplete frame at the end, at which the
    reader fails) queues exactly the commands that carry a Call-ID, in the
    order they were written. *)
Theorem serve_connection_in_order remote raws tail b :
  Forall (fun raw => Z.of_nat (length raw) < 2 ^ 32) raws -> readCommandFrame tail = None ->
  serveConnection remote (frames raws ++ tail) b
  = foldl (fun b raw => enqueue (commandCallID raw []) [] (mkCommandMessage raw (commandSender raw remote)) b) b
      (List.filter (fun raw => negb (bool_decide (commandCallID raw [] = []))) raws).
Proof.
  intros Hr Ht. rewrite serveConnection_frames by assumption. clear Hr Ht. revert b.
  induction raws as [|raw raws IH]; intros b; [done|]. cbn [foldl List.filter].
  case_bool_decide as E; cbn [negb foldl]; rewrite IH.
  - unfold acceptCommand. by rewrite E.
  - by rewrite (acceptCommand_queue remote b raw _ eq_refl E).
Qed.

Lemma serve_connection_in_order_witness :
  exists b, serveConnection [] (frames [sample_command; lit "no id"; sample_command] ++ [x00]) newCommandBroker = b
    /\ queue_of b (broker_key (lit "abc") [])
       = [mkCommandMessage sample_command (lit "m"); mkCommandMessage sample_command (lit "m")].
Proof.
  eexists. split; [apply (serve_connection_in_order [] [sample_command; lit "no id"; sample_command] [x00])|].
  - repeat constructor.
  - reflexivity.
  - apply (bool_decide_unpack _). vm_compute. reflexivity.
Defined.

(** [dequeue] takes the oldest message from the wanted source, keeps the
    order of the others, and touches no other call's queue. *)
Theorem dequeue_oldest callID channel src b msg b' :
  x00 ∉ channel ->
  dequeue callID channel src b = Some (msg, b') ->
  (exists l r, queue_of b (broker_key callID channel) = l ++ msg :: r
     /\ queue_of b' (broker_key callID channel) = l ++ r
     /\ wanted src msg = true /\ Forall (fun m => wanted src m = false) l)
  /\ (forall callID' channel', x00 ∉ channel' -> (callID', channel') <> (callID, channel) ->
      queue_of b' (broker_key callID' channel') = queue_of b (broker_key callID' channel')).
Proof.
  intros Hz. unfold dequeue.
  destruct (take_first src _) as [[m rest]|] eqn:Et; [|done]. intros [= <- <-].
  apply take_first_spec in Et as (l & r & Hq & -> & Hw & Hl). split.
  - exists l, r. by rewrite queue_of_insert, decide_True.
  - intros c' ch' Hz' Hne. rewrite queue_of_insert, decide_False; [done|].
    intros Hk. apply broker_key_inj in Hk as [-> ->]; done.
Qed.

Lemma dequeue_oldest_witness :
  let b := enqueue (lit "c") [] (mkCommandMessage (lit "1") (lit "t"))
             (enqueue (lit "d") [] (mkCommandMessage (lit "2") (lit "s")) newCommandBroker) in
  let b' := <[broker_key (lit "c") [] := []]> b in
  dequeue (lit "c") [] (lit "t") b = Some (mkCommandMessage (lit "1") (lit "t"), b')
  /\ queue_of b' (broker_key (lit "d") []) = queue_of b (broker_key (lit "d") []).
Proof.
  intros b b'.
  assert (dequeue (lit "c") [] (lit "t") b = Some (mkCommandMessage (lit "1") (lit "t"), b')) as H
    by (unfold dequeue; replace (queue_of b (broker_key (lit "c") []))
          with [mkCommandMessage (lit "1") (lit "t")] by (vm_compute; reflexivity); reflexivity).
  split; [exact H|].
  destruct (dequeue_oldest _ _ _ _ _ _ (not_elem_of_nil _) H) as [_ Hf].
  apply (Hf (lit "d") [] (not_elem_of_nil _)). intros [=].
Defined.

(** A call without a Call-ID of its own ([dequeueAny] on the empty channel,
    the only one the engine uses) never panics on a broker filled by
    [enqueue]; what it returns is what [dequeue] gives for the Call-ID it
    reports, and it reports nothing only when no queue holds a wanted
    message, whatever the order the map is visited in. *)
Theorem dequeue_any_sound_complete order src b :
  keys_wf b -> (forall key, key ∈ order <-> is_Some (b !! key)) ->
  exists r, dequeueAny order [] src b = Ret r
  /\ match r with
     | Some (callID, msg, b') => dequeue callID [] src b = Some (msg, b')
     | None => forall callID, dequeue callID [] src b = None
     end.
Proof.
  intros Hw Ho.
  assert (Forall (fun key => length [x00] <= length key)%nat order) as Hl.
  { apply Forall_forall. intros key Hk. apply (keys_long b Hw), Ho, Hk. }
  destruct (dequeueAny order [] src b) as [r|] eqn:E; [|by apply dequeueAny_no_panic in E].
  exists r. split; [done|]. destruct r as [[[callID msg] b']|].
  - by eapply dequeueAny_sound.
  - intros callID. destruct (b !! broker_key callID []) as [q|] eqn:Eb.
    + eapply dequeueAny_complete; [exact Hl|exact E|]. apply Ho. by eexists.
    + unfold dequeue, queue_of. by rewrite Eb.
Qed.

Lemma dequeue_any_sound_complete_witness :
  let b := enqueue (lit "c") [] (mkCommandMessage (lit "1") (lit "t")) newCommandBroker in
  exists r, dequeueAny [broker_key (lit "c") []] [] (lit "t") b = Ret r
  /\ match r with
     | Some (callID, msg, b') => dequeue callID [] (lit "t") b = Some (msg, b')
     | None => forall callID, dequeue callID [] (lit "t") b = None
     end.
Proof.
  intros b. apply (dequeue_any_sound_complete [broker_key (lit "c") []] (lit "t") b).
  - apply keys_wf_insert, keys_wf_new.
  - intros key. unfold b, enqueue. rewrite lookup_insert_is_Some, list_elem_of_singleton.
    unfold newCommandBroker. rewrite lookup_empty. split; [intros ->; by left|].
    intros [->|[_ []]]; done.
Defined.

(** The suffix test does not skip keys that are too short, so a named
    channel can pick up (and panic on) a message queued for the default one. *)
Theorem dequeue_any_short_key_panics order callID channel src msg b :
  (length callID < length channel)%nat -> wanted src msg = true ->
  queue_of b (broker_key callID []) = [] ->
  dequeueAny (broker_key callID [] :: order) channel src (enqueue callID [] msg b) = Panic.
Proof.
  intros Hl Hw Hq. cbn [dequeueAny].
  assert (length (broker_key callID []) < length (x00 :: channel))%nat as Hk.
  { unfold broker_key. rewrite length_app. simpl. lia. }
  assert (Nat.leb (length (x00 :: channel)) (length (broker_key callID [])) = false) as ->
    by (apply Nat.leb_gt; lia).
  apply Nat.ltb_lt in Hk. rewrite Hk. cbn [andb]. unfold enqueue.
  rewrite queue_of_insert, decide_True, Hq by done. simpl. by rewrite Hw.
Qed.

Lemma dequeue_any_short_key_panics_witness :
  dequeueAny [broker_key (lit "c") []] (lit "chan") []
    (enqueue (lit "c") [] (mkCommandMessage (lit "1") (lit "t")) newCommandBroker) = Panic.
Proof.
  apply (dequeue_any_short_key_panics [] (lit "c") (lit "chan") []); [|done|done].
  vm_compute. lia.
Defined.
