(* ===== verification/Auth.v ===== *)
(** * Digest authentication ([internal/engine/auth.go])

    The [[authentication]] keywords of a template, the [Authorization] header
    built for a challenge, and its verification.  The random bytes of a
    client nonce are an argument ([None] when the source fails), and so is
    [unicode.IsPrint] above ASCII, which only decides how [%q] writes exotic
    characters. *)

From stdpp Require Import base list gmap strings.
From Stdlib Require Import ZArith Lia Strings.Byte.
From S2P Require Import Prelude GoStrings Hash SipMessage Template.

Inductive auth_error :=
  | ErrNoChallenge | ErrChallengeParse | ErrChallengeStatus (code : Z) | ErrChallengeMissing
  | ErrOutgoingParse | ErrNotRequest | ErrNotDigest | ErrNoRealmNonce | ErrQop (qop : str)
  | ErrAlgorithm (algorithm : str) | ErrRandom | ErrInvalidAuthorization | ErrVerifyParse.

(** ** Quoting: [%q] *)

Definition hex_pad (n : nat) (r : Z) : str :=
  map (fun i => hex_lower (Z.land (Z.shiftr r (4 * (Z.of_nat (n - 1 - i)))) 15)) (seq 0 n).

Section Quote.

Context (isPrint : Z -> bool).

Definition quote_rune (r : Z) : str :=
  if (r =? 34) || (r =? 92) then [x5c; z2b r]
  else if (32 <=? r) && (r <=? 126) then [z2b r]
  else if (128 <=? r) && isPrint r then encode_rune r
  else if r =? 7 then lit "\a" else if r =? 8 then lit "\b" else if r =? 12 then lit "\f"
  else if r =? 10 then lit "\n" else if r =? 13 then lit "\r" else if r =? 9 then lit "\t"
  else if r =? 11 then lit "\v"
  else if (r <? 32) || (r =? 127) then lit "\x" ++ hex_pad 2 r
  else if r <? 65536 then lit "\u" ++ hex_pad 4 r
  else lit "\U" ++ hex_pad 8 r.

(** An invalid byte is written as [\x] and its value. *)
Definition quote_byte (b : byte) : str := lit "\x" ++ hex_pad 2 (b2z b).

Fixpoint quote_body (s : str) : str :=
  match s with
  | [] => []
  | a :: r1 =>
    if b2z a <? 128 then quote_rune (b2z a) ++ quote_body r1 else
    match r1 with
    | [] => quote_byte a
    | b :: r2 =>
      if utf8_2 a b then quote_rune ((b2z a mod 32) * 64 + b2z b mod 64) ++ quote_body r2 else
      match r2 with
      | [] => quote_byte a ++ quote_body r1
      | c :: r3 =>
        if utf8_3 a b c
        then quote_rune ((b2z a mod 16) * 4096 + (b2z b mod 64) * 64 + b2z c mod 64) ++ quote_body r3 else
        match r3 with
        | [] => quote_byte a ++ quote_body r1
        | d :: r4 =>
          if utf8_4 a b c d
          then quote_rune ((b2z a mod 8) * 262144 + (b2z b mod 64) * 4096
                           + (b2z c mod 64) * 64 + b2z d mod 64) ++ quote_body r4
          else quote_byte a ++ quote_body r1
        end
      end
    end
  end.

Definition Quote (s : str) : str := x22 :: quote_body s ++ [x22].

End Quote.

(** ** Parameters of a challenge or an authorization *)

(** One rune of [splitAuthParams]. *)
Fixpoint split_params (rs : list Z) (quoted : bool) (cur : str) : list str :=
  match rs with
  | [] => match cur with [] => [] | _ => [TrimSpace cur] end
  | r :: rest =>
    if r =? 34 then split_params rest (negb quoted) (cur ++ [x22])
    else if (r =? 44) && negb quoted then TrimSpace cur :: split_params rest quoted []
    else split_params rest quoted (cur ++ encode_rune r)
  end.

Definition splitAuthParams (value : str) : list str := split_params (runes value) false [].

(** [key=value] with the key in lower case and the quotes removed. *)
Definition auth_param (param : str) : option (str * str) :=
  match Cut param x3d with
  | None => None
  | Some (key, rawValue) => Some (ToLower (TrimSpace key), Trim is_quote (TrimSpace rawValue))
  end.

(** The parameters after the scheme, in order; [None] when it is not Digest. *)
Definition digest_params (value : str) : option (list (str * str)) :=
  let value := TrimSpace value in
  if HasPrefix (ToLower value) (lit "digest ")
  then Some (omap auth_param (splitAuthParams (TrimSpace (drop 7 value))))
  else None.

Record digestChallenge := mkChallenge {
  dc_realm : str; dc_nonce : str; dc_opaque : str; dc_algorithm : str; dc_qop : str
}.

Record digestAuthorization := mkAuthorization {
  da_username : str; da_realm : str; da_nonce : str; da_uri : str; da_response : str;
  da_algorithm : str; da_qop : str; da_nc : str; da_cnonce : str; da_opaque : str
}.

(** A later parameter of the same name wins; a missing one is empty. *)
Definition last_param (key : string) (params : list (str * str)) : str :=
  foldl (fun v p => if bool_decide (p.1 = lit key) then p.2 else v) [] params.

Definition parseDigestChallenge (value : str) : result auth_error digestChallenge :=
  match digest_params value with
  | None => Err ErrNotDigest
  | Some ps =>
    Ok (mkChallenge (last_param "realm" ps) (last_param "nonce" ps) (last_param "opaque" ps)
          (last_param "algorithm" ps) (last_param "qop" ps))
  end.

Definition parseDigestAuthorization (value : str) : result auth_error digestAuthorization :=
  match digest_params value with
  | None => Err ErrNotDigest
  | Some ps =>
    let out := mkAuthorization (last_param "username" ps) (last_param "realm" ps) (last_param "nonce" ps)
                 (last_param "uri" ps) (last_param "response" ps) (last_param "algorithm" ps)
                 (last_param "qop" ps) (last_param "nc" ps) (last_param "cnonce" ps) (last_param "opaque" ps) in
    if bool_decide (da_realm out = []) || bool_decide (da_nonce out = []) || bool_decide (da_uri out = [])
       || bool_decide (da_response out = []) || bool_decide (da_username out = [])
    then Err ErrInvalidAuthorization else Ok out
  end.

(** ** Digests *)

Definition md5Hex (value : str) : str := EncodeToString (md5 value).
Definition sha256Hex (value : str) : str := EncodeToString (sha256 value).

(** [digestHex]; the empty string stands for an algorithm that is not supported. *)
Definition digestHex (algorithm value : str) : str :=
  let a := ToUpper (TrimSpace algorithm) in
  if bool_decide (a = []) || bool_decide (a = lit "MD5") then md5Hex value
  else if bool_decide (a = lit "SHA-256") then sha256Hex value
  else [].

(** The values of a [%s:%s:...] format. *)
Definition colons (l : list str) : str := Join l (lit ":").

(** The response of RFC 2617 from HA1 and HA2, without and with qop. *)
Definition digestResponse (algorithm ha1 nonce ha2 : str) (session : option (str * str * str)) : str :=
  match session with
  | None => digestHex algorithm (colons [ha1; nonce; ha2])
  | Some (nc, cnonce, qop) => digestHex algorithm (colons [ha1; nonce; nc; cnonce; qop; ha2])
  end.

Definition or_md5 (algorithm : str) : str := match algorithm with [] => lit "MD5" | a => a end.

(** [randomHex]: [buf] is what [rand.Read] filled, if it did. *)
Definition randomHex (buf : option str) : option str := EncodeToString <$> buf.

Section Build.

Context (isPrint : Z -> bool).

(** The qop to answer with: [auth] when the challenge offers it. *)
Definition choose_qop (qop : str) : result auth_error str :=
  match qop with
  | [] => Ok []
  | _ => if existsb (fun o => EqualFold (TrimSpace o) (lit "auth")) (Split qop x2c)
         then Ok (lit "auth") else Err (ErrQop qop)
  end.

Definition param_q (key : string) (v : str) : str := lit key ++ lit "=" ++ Quote isPrint v.
Definition param_s (key : string) (v : str) : str := lit key ++ lit "=" ++ v.

(** The parameters of the header, the first one without what precedes it. *)
Definition header_params (p : digestChallenge) (algorithm uri username response : str)
    (session : option (str * str * str)) : list str :=
  [param_q "username" username; param_q "realm" (dc_realm p); param_q "nonce" (dc_nonce p);
   param_q "uri" uri; param_q "response" response; param_s "algorithm" algorithm]
  ++ (match dc_opaque p with [] => [] | o => [param_q "opaque" o] end)
  ++ (match session with
      | None => []
      | Some (nc, cnonce, qop) => [param_s "qop" qop; param_s "nc" nc; param_q "cnonce" cnonce]
      end).

Definition buildDigestAuthHeader (random : option str) (headerName challenge method uri username password : str)
    : result auth_error str :=
  let? p := parseDigestChallenge challenge in
  if bool_decide (dc_realm p = []) || bool_decide (dc_nonce p = []) then Err ErrNoRealmNonce
  else
    let algorithm := or_md5 (dc_algorithm p) in
    let? qop := choose_qop (dc_qop p) in
    let ha1 := digestHex algorithm (colons [username; dc_realm p; password]) in
    match ha1 with
    | [] => Err (ErrAlgorithm algorithm)
    | _ =>
      let ha2 := digestHex algorithm (colons [method; uri]) in
      let? session := match qop with
                      | [] => Ok None
                      | _ => match randomHex random with
                             | None => Err ErrRandom
                             | Some cnonce => Ok (Some (lit "00000001", cnonce, qop))
                             end
                      end in
      let response := digestResponse algorithm ha1 (dc_nonce p) ha2 session in
      Ok (Join (match header_params p algorithm uri username response session with
                | first :: rest => (headerName ++ lit ": Digest " ++ first) :: rest
                | [] => []
                end) (lit ", "))
    end.

Definition resolveAuthKeyword (value fallback : str) : str :=
  match TrimSpace value with [] => fallback | _ => value end.

Record authOption := mkAuthOption { ao_tokenKey : str; ao_username : str; ao_password : str }.

(** [buildAuthHeaderInner]; [AuthUsername] and [AuthPassword] are the configured fallbacks. *)
Definition buildAuthHeader (AuthUsername AuthPassword : str) (random : option str) (outgoing lastMessage : str)
    (option : authOption) : result auth_error str :=
  match lastMessage with
  | [] => Err ErrNoChallenge
  | _ =>
    match Parse lastMessage with
    | Err _ => Err ErrChallengeParse
    | Ok challengeMsg =>
      let? names := (if StatusCode challengeMsg =? 401 then Ok (lit "Authorization", lit "WWW-Authenticate")
                     else if StatusCode challengeMsg =? 407
                     then Ok (lit "Proxy-Authorization", lit "Proxy-Authenticate")
                     else Err (ErrChallengeStatus (StatusCode challengeMsg))) in
      match Header (Headers challengeMsg) names.2 with
      | None => Err ErrChallengeMissing
      | Some challenge =>
        match Parse outgoing with
        | Err _ => Err ErrOutgoingParse
        | Ok outgoingMsg =>
          if bool_decide (Method outgoingMsg = []) || bool_decide (RequestURI outgoingMsg = [])
          then Err ErrNotRequest
          else buildDigestAuthHeader random names.1 challenge (Method outgoingMsg) (RequestURI outgoingMsg)
                 (resolveAuthKeyword (ao_username option) AuthUsername)
                 (resolveAuthKeyword (ao_password option) AuthPassword)
        end
      end
    end
  end.

End Build.

(** [verifyAuthHeader] *)
Definition verifyAuthHeader (raw username password : str) : result auth_error bool :=
  match Parse raw with
  | Err _ => Err ErrVerifyParse
  | Ok msg =>
    match (match Header (Headers msg) (lit "Authorization") with
           | Some v => Some v
           | None => Header (Headers msg) (lit "Proxy-Authorization")
           end) with
    | None => Ok false
    | Some headerValue =>
      let? auth := parseDigestAuthorization headerValue in
      if negb (bool_decide (da_username auth = username)) then Ok false
      else
        let algorithm := or_md5 (da_algorithm auth) in
        let ha1 := digestHex algorithm (colons [username; da_realm auth; password]) in
        match ha1 with
        | [] => Err (ErrAlgorithm algorithm)
        | _ =>
          let ha2 := digestHex algorithm (colons [Method msg; da_uri auth]) in
          let? session := match da_qop auth with
                          | [] => Ok None
                          | qop => if EqualFold qop (lit "auth")
                                   then Ok (Some (da_nc auth, da_cnonce auth, qop)) else Err (ErrQop qop)
                          end in
          Ok (EqualFold (digestResponse algorithm ha1 (da_nonce auth) ha2 session) (da_response auth))
        end
    end
  end.

(** ** Keywords of a template *)

Definition auth_prefix : str := lit "[authentication".

(** [containsFoldCI] *)
Fixpoint containsFoldCI (s substr : str) : bool :=
  if (length s <? length substr)%nat then false
  else EqualFold (take (length substr) s) substr
       || match s with [] => false | _ :: r => containsFoldCI r substr end.

Definition parseAuthKeywordParams (tokenKey : str) : gmap str str :=
  foldl (fun params field =>
      match Cut field x3d with
      | None => params
      | Some (key, value) => <[ToLower (TrimSpace key) := Trim is_quote (TrimSpace value)]> params
      end)
    ∅ (Fields (TrimSpace (TrimPrefix tokenKey (lit "authentication")))).

(** The scan runs over the lower-case text [s] and cuts the original one at
    the same offsets; a slice past the end is a run-time panic.  Every pass
    drops at least a byte of [s]. *)
Fixpoint scan_auth (fuel : nat) (s raw : str) : outcome (list authOption) :=
  match fuel with
  | O => Ret []
  | S f =>
    match Index s auth_prefix with
    | None => Ret []
    | Some start =>
      if (length raw <? start + 1)%nat then Panic
      else match IndexByte x5d (drop (start + 1) raw) with
      | None => Ret []
      | Some n =>
        let tokenKey := TrimSpace (take n (drop (start + 1) raw)) in
        let params := parseAuthKeywordParams tokenKey in
        let stop := (n + start + 1)%nat in
        if (length s <? stop + 1)%nat then Panic
        else match scan_auth f (drop (stop + 1) s) (drop (stop + 1) raw) with
             | Panic => Panic
             | Ret rest =>
               Ret (mkAuthOption tokenKey (default [] (params !! lit "username")) (default [] (params !! lit "password")) :: rest)
             end
      end
    end
  end.

Definition extractAuthKeywordOptions (raw : str) : outcome (list authOption) :=
  if containsFoldCI raw auth_prefix
  then let s := ToLower raw in scan_auth (S (length s)) s raw
  else Ret [].

(** * Lemmas *)

(** ** Text that [%q] copies *)

(** Printable ASCII without quote and backslash. *)
Definition quotable (b : byte) : bool := in_range 32 126 b && negb (beqb b x22) && negb (beqb b x5c).

(** A token character: no blank and no comma either. *)
Definition token (b : byte) : bool := quotable b && negb (beqb b x20) && negb (beqb b x2c).

Lemma quotable_spec b : quotable b = true -> 32 <= b2z b <= 126 /\ b2z b <> 34 /\ b2z b <> 92 /\ b <> x22.
Proof.
  unfold quotable, in_range. rewrite !andb_true_iff, !negb_true_iff, !beqb_neq, !Z.leb_le. intros [[H1 H2] H3].
  split; [lia|]. split; [|split; [|done]]; intros E.
  - apply H2, b2z_inj. done.
  - apply H3, b2z_inj. done.
Qed.

Lemma quotable_ascii s : Forall (fun b => quotable b = true) s -> Forall ascii s.
Proof. intros Hs. eapply Forall_impl; [exact Hs|]. intros b H%quotable_spec. unfold ascii. lia. Qed.

Lemma quotable_no_quote s : Forall (fun b => quotable b = true) s -> Forall (fun b => is_quote b = false) s.
Proof. intros Hs. eapply Forall_impl; [exact Hs|]. intros b H%quotable_spec. apply beqb_neq. tauto. Qed.

Lemma token_quotable s : Forall (fun b => token b = true) s -> Forall (fun b => quotable b = true) s.
Proof. intros Hs. eapply Forall_impl; [exact Hs|]. intros b H. unfold token in H. rewrite !andb_true_iff in H. tauto. Qed.

Lemma token_plain b : token b = true -> plain b = true.
Proof.
  unfold token. rewrite !andb_true_iff, !negb_true_iff, !beqb_neq. intros [[H%quotable_spec Hs] _].
  unfold plain, space1, in_range. apply andb_true_iff. split; [apply Z.ltb_lt; lia|].
  apply negb_true_iff, orb_false_iff. split; [|by apply beqb_neq]. apply andb_false_iff. right. apply Z.leb_gt. lia.
Qed.

Lemma hex_token l : Forall (fun b => token b = true) (EncodeToString l).
Proof.
  eapply Forall_impl; [apply EncodeToString_hex|]. intros b H. cbn beta in H.
  assert (48 <= b2z b <= 57 \/ 97 <= b2z b <= 102) as Hr.
  { unfold in_range in H. rewrite !andb_true_iff, !Z.leb_le in H. lia. }
  unfold token, quotable, in_range. rewrite !andb_true_iff, !negb_true_iff, !beqb_neq, !Z.leb_le.
  repeat split; try lia; intros ->; revert Hr; vm_compute; intuition congruence.
Qed.

Lemma digestHex_token algorithm v : Forall (fun b => token b = true) (digestHex algorithm v).
Proof. unfold digestHex. repeat case_match; [apply hex_token|apply hex_token|constructor]. Qed.

(** An algorithm that is supported for one text is supported for all. *)
Lemma digestHex_supported algorithm v w : digestHex algorithm v <> [] -> digestHex algorithm w <> [].
Proof.
  unfold digestHex. repeat case_match; intros Hv; [| |done]; apply EncodeToString_nonempty; apply md5_nonempty || apply sha256_nonempty.
Qed.

Lemma digestResponse_token a h1 n h2 session : Forall (fun b => token b = true) (digestResponse a h1 n h2 session).
Proof. unfold digestResponse. destruct session as [[[? ?] ?]|]; apply digestHex_token. Qed.

Lemma digestResponse_nonempty a h1 n h2 session v : digestHex a v <> [] -> digestResponse a h1 n h2 session <> [].
Proof. intros H. unfold digestResponse. destruct session as [[[? ?] ?]|]; by eapply digestHex_supported. Qed.

Lemma quote_quotable isPrint s : Forall (fun b => quotable b = true) s -> Quote isPrint s = x22 :: s ++ [x22].
Proof.
  intros H. unfold Quote. f_equal. f_equal. induction H as [|b s Hb _ IH]; [done|].
  apply quotable_spec in Hb as (Hr & H34 & H92 & _). cbn [quote_body].
  rewrite (proj2 (Z.ltb_lt _ _)) by lia. rewrite IH. unfold quote_rune.
  rewrite (proj2 (Z.eqb_neq _ _) H34), (proj2 (Z.eqb_neq _ _) H92). cbn [orb].
  by rewrite (proj2 (Z.leb_le 32 _)), (proj2 (Z.leb_le _ 126)), z2b_b2z by lia.
Qed.

(** ** Splitting parameters *)

(** A text the scanner takes over whole when it is outside quotes. *)
Definition whole (p : str) : Prop :=
  forall rs cur, split_params (map b2z p ++ rs) false cur = split_params rs false (cur ++ p).

Lemma split_quoted s rs cur : Forall (fun b => quotable b = true) s ->
  split_params (map b2z s ++ rs) true cur = split_params rs true (cur ++ s).
Proof.
  intros H. revert cur. induction H as [|b s Hb Hs IH]; intros cur; [by rewrite app_nil_r|].
  apply quotable_spec in Hb as (Hr & H34 & _ & _). cbn [map app split_params].
  rewrite (proj2 (Z.eqb_neq _ _) H34), andb_false_r, encode_rune_ascii, IH by (unfold ascii; lia). by rewrite <- app_assoc.
Qed.

Lemma whole_token s : Forall (fun b => token b = true) s -> whole s.
Proof.
  intros H rs. induction H as [|b s Hb Hs IH]; intros cur; [by rewrite app_nil_r|].
  unfold token in Hb. rewrite !andb_true_iff, !negb_true_iff, !beqb_neq in Hb. destruct Hb as [[Hq _] Hc].
  apply quotable_spec in Hq as (Hr & H34 & _ & _). cbn [map app split_params].
  assert (b2z b <> 44) as H44 by (intros E; apply Hc, b2z_inj; done).
  rewrite (proj2 (Z.eqb_neq _ _) H34), (proj2 (Z.eqb_neq _ _) H44), encode_rune_ascii by (unfold ascii; lia).
  cbn [andb]. by rewrite IH, <- app_assoc.
Qed.

Lemma whole_app p q : whole p -> whole q -> whole (p ++ q).
Proof. intros Hp Hq rs cur. rewrite map_app, <- app_assoc, Hp, Hq. by rewrite <- app_assoc. Qed.

Lemma whole_quoted s : Forall (fun b => quotable b = true) s -> whole (x22 :: s ++ [x22]).
Proof.
  intros H rs cur. cbn [map app]. rewrite map_app, <- app_assoc. cbn [split_params map app].
  change (b2z x22 =? 34) with true. cbn [negb]. rewrite split_quoted by done. cbn [split_params].
  change (b2z x22 =? 34) with true. cbn [negb]. by rewrite <- !app_assoc.
Qed.

Lemma split_join p ps cur :
  TrimSpace (cur ++ p) = p -> p <> [] -> whole p -> Forall (fun q => whole q /\ TrimSpace (x20 :: q) = q /\ q <> []) ps ->
  split_params (map b2z (Join (p :: ps) (lit ", "))) false cur = p :: ps.
Proof.
  intros Ht Hn Hw Hps. revert p cur Ht Hn Hw. induction Hps as [|q ps (Hq & Htq & Hnq) _ IH]; intros p cur Ht Hn Hw.
  - cbn [Join]. rewrite <- (app_nil_r (map b2z p)), Hw. cbn [split_params].
    destruct (cur ++ p) eqn:E; [apply app_eq_nil in E as [_ ?]; done|]. by rewrite Ht.
  - rewrite Join_cons by done. rewrite !map_app, Hw. change (map b2z (lit ", ")) with [44; 32].
    cbn [app split_params]. change (44 =? 34) with false. change (44 =? 44) with true. cbn [negb andb].
    rewrite Ht. f_equal. change (32 =? 34) with false. change (32 =? 44) with false. cbn [andb].
    change (encode_rune 32) with [x20]. cbn [app]. by apply IH.
Qed.

(** ** Parameters as they are written *)

Lemma trim_left_none cut s : Forall (fun b => cut b = false) s -> trim_left_set cut s = s.
Proof. destruct 1 as [|b s Hb _]; [done|]. cbn [trim_left_set]. by rewrite Hb. Qed.

Lemma Trim_none cut s : Forall (fun b => cut b = false) s -> Trim cut s = s.
Proof.
  intros H. unfold Trim, TrimRight. rewrite (trim_left_none cut s) by done.
  rewrite trim_left_none by (by apply Forall_rev). apply rev_involutive.
Qed.

Lemma Trim_quoted s : Forall (fun b => is_quote b = false) s -> Trim is_quote (x22 :: s ++ [x22]) = s.
Proof.
  intros H. unfold Trim, TrimRight. cbn [trim_left_set]. change (is_quote x22) with true. cbn iota.
  destruct s as [|b s]; [done|]. apply Forall_cons in H as Hb. destruct Hb as [Hb _].
  cbn [app trim_left_set]. rewrite Hb. change (b :: s ++ [x22]) with ((b :: s) ++ [x22]).
  rewrite rev_app_distr. change (rev [x22] ++ rev (b :: s)) with (x22 :: rev (b :: s)). cbn [trim_left_set].
  change (is_quote x22) with true. cbn iota.
  rewrite trim_left_none by (by apply Forall_rev). apply rev_involutive.
Qed.

Lemma trimmed_plain a x b : plain a = true -> plain b = true -> trimmed (a :: x ++ [b]).
Proof.
  intros Ha Hb. apply TrimSpace_id; [by apply starts_space_plain|].
  change (a :: x ++ [b]) with ((a :: x) ++ [b]). by apply ends_space_plain.
Qed.

(** A parameter with a plain first and last byte that is read back whole. *)
Definition good_param (q : str) : Prop :=
  whole q /\ Forall ascii q /\ exists a x b, q = a :: x ++ [b] /\ plain a = true /\ plain b = true.

Lemma good_trimmed q : good_param q -> trimmed q.
Proof. intros (_ & _ & a & x & b & -> & Ha & Hb). by apply trimmed_plain. Qed.

Lemma good_nonempty q : good_param q -> q <> [].
Proof. by intros (_ & _ & a & x & b & -> & _). Qed.

(** The names of the parameters. *)
Definition key_ok (key : string) : Prop :=
  Forall (fun b => token b = true) (lit key) /\ x3d ∉ lit key /\ ToLower (lit key) = lit key /\ lit key <> [].

Lemma key_eq_whole key : key_ok key -> whole (lit key ++ lit "=").
Proof. intros (Hk & _). apply whole_app; apply whole_token; [done|]. by repeat constructor. Qed.

Lemma ascii_app s t : Forall ascii s -> Forall ascii t -> Forall ascii (s ++ t).
Proof. intros. by apply Forall_app. Qed.

Lemma key_ascii key : key_ok key -> Forall ascii (lit key ++ lit "=").
Proof. intros (Hk & _). apply ascii_app; [by apply quotable_ascii, token_quotable|by repeat constructor]. Qed.

Section Params.

Context (isPrint : Z -> bool).

Lemma good_q key v : key_ok key -> Forall (fun b => quotable b = true) v -> good_param (param_q isPrint key v).
Proof.
  intros Hk Hv. unfold param_q. rewrite quote_quotable by done. split; [|split].
  - rewrite app_assoc. apply whole_app; [by apply key_eq_whole|by apply whole_quoted].
  - rewrite app_assoc. apply ascii_app; [by apply key_ascii|]. constructor; [done|].
    apply ascii_app; [by apply quotable_ascii|by repeat constructor].
  - destruct Hk as (Ht & _ & _ & Hn). destruct (lit key) as [|a k]; [done|]. apply Forall_cons in Ht as [Ha _].
    exists a, (k ++ lit "=" ++ x22 :: v), x22. split; [|split; [by apply token_plain|done]].
    cbn [app]. f_equal. by rewrite <- !app_assoc.
Qed.

Lemma good_s key v : key_ok key -> Forall (fun b => token b = true) v -> v <> [] -> good_param (param_s key v).
Proof.
  intros Hk Hv Hne. unfold param_s. split; [|split].
  - rewrite app_assoc. apply whole_app; [by apply key_eq_whole|by apply whole_token].
  - rewrite app_assoc. apply ascii_app; [by apply key_ascii|by apply quotable_ascii, token_quotable].
  - destruct Hk as (Ht & _ & _ & Hn). destruct (lit key) as [|a k]; [done|]. apply Forall_cons in Ht as [Ha _].
    destruct (exists_last Hne) as (x & b & ->). apply Forall_app in Hv as [_ Hb%Forall_inv].
    exists a, (k ++ lit "=" ++ x), b. split; [|split; by apply token_plain].
    cbn [app]. f_equal. by rewrite <- !app_assoc.
Qed.

Lemma auth_param_q key v : key_ok key -> Forall (fun b => quotable b = true) v ->
  auth_param (param_q isPrint key v) = Some (lit key, v).
Proof.
  intros (Ht & Hn & Hl & _) Hv. unfold auth_param, param_q. rewrite quote_quotable by done.
  change (lit "=" ++ ?s) with (x3d :: s). rewrite Cut_app by done.
  rewrite (Forall_plain_trimmed (lit key)) by (eapply Forall_impl; [exact Ht|]; apply token_plain).
  rewrite Hl, (trimmed_plain x22 v x22), Trim_quoted by (done || by apply quotable_no_quote). done.
Qed.

Lemma auth_param_s key v : key_ok key -> Forall (fun b => token b = true) v ->
  auth_param (param_s key v) = Some (lit key, v).
Proof.
  intros (Ht & Hn & Hl & _) Hv. unfold auth_param, param_s.
  change (lit "=" ++ ?s) with (x3d :: s). rewrite Cut_app by done.
  rewrite (Forall_plain_trimmed (lit key)) by (eapply Forall_impl; [exact Ht|]; apply token_plain).
  rewrite Hl, (Forall_plain_trimmed v) by (eapply Forall_impl; [exact Hv|]; apply token_plain).
  rewrite Trim_none by (by apply quotable_no_quote, token_quotable). done.
Qed.

End Params.

Lemma Join_good p ps : good_param p -> Forall good_param ps ->
  Forall ascii (Join (p :: ps) (lit ", ")) /\
  exists a x b, Join (p :: ps) (lit ", ") = a :: x ++ [b] /\ plain a = true /\ plain b = true.
Proof.
  intros Hp Hps. revert p Hp. induction Hps as [|q ps Hq _ IH]; intros p Hp.
  - destruct Hp as (_ & Ha & He). by split.
  - destruct (IH q Hq) as (Hja & a & x & b & Hj & Pa & Pb). destruct Hp as (_ & Ha & a' & x' & b' & -> & Pa' & Pb').
    rewrite Join_cons by done. split.
    + apply ascii_app; [done|]. apply ascii_app; [by repeat constructor|done].
    + rewrite Hj. exists a', (x' ++ [b'] ++ lit ", " ++ a :: x), b. split; [|done].
      cbn [app]. f_equal. by rewrite <- !app_assoc.
Qed.

Lemma digest_params_join p ps : good_param p -> Forall good_param ps ->
  digest_params (lit "Digest " ++ Join (p :: ps) (lit ", ")) = Some (omap auth_param (p :: ps)).
Proof.
  intros Hp Hps. destruct (Join_good p ps Hp Hps) as (Ha & a & x & b & Hj & Pa & Pb).
  unfold digest_params. cbv zeta. rewrite Hj.
  assert (TrimSpace (lit "Digest " ++ a :: x ++ [b]) = lit "Digest " ++ a :: x ++ [b]) as ->.
  { change (lit "Digest " ++ a :: x ++ [b]) with (x44 :: (lit "igest " ++ a :: x) ++ [b]). by apply trimmed_plain. }
  rewrite ToLower_app by (by repeat constructor). change (ToLower (lit "Digest ")) with (lit "digest ").
  rewrite HasPrefix_app. change (drop 7 (lit "Digest " ++ ?s)) with s. rewrite (trimmed_plain a x b) by done.
  unfold splitAuthParams. rewrite <- Hj, runes_ascii by done.
  f_equal. f_equal. apply split_join.
  - by apply good_trimmed.
  - by apply good_nonempty.
  - apply Hp.
  - eapply Forall_impl; [exact Hps|]. intros q Hq. split; [apply Hq|]. split; [|by apply good_nonempty].
    apply TrimSpace_lead_blank. by apply good_trimmed.
Qed.

Ltac key_check := split; [repeat constructor|split; [by apply (bool_decide_unpack _)|split; done]].

(** The sessions a header can carry. *)
Definition session_ok (session : option (str * str * str)) : Prop :=
  session = None \/ exists buf, session = Some (lit "00000001", EncodeToString buf, lit "auth").

(** The header a challenge is answered with, and what it depends on. *)
Lemma build_inv isPrint random name challenge method uri username password header :
  buildDigestAuthHeader isPrint random name challenge method uri username password = Ok header ->
  exists p session,
    parseDigestChallenge challenge = Ok p /\ dc_realm p <> [] /\ dc_nonce p <> []
    /\ digestHex (or_md5 (dc_algorithm p)) (colons [username; dc_realm p; password]) <> []
    /\ session_ok session
    /\ header = name ++ lit ": Digest " ++ Join (header_params isPrint p (or_md5 (dc_algorithm p)) uri username
         (digestResponse (or_md5 (dc_algorithm p))
            (digestHex (or_md5 (dc_algorithm p)) (colons [username; dc_realm p; password]))
            (dc_nonce p) (digestHex (or_md5 (dc_algorithm p)) (colons [method; uri])) session) session) (lit ", ").
Proof.
  unfold buildDigestAuthHeader. intros H. apply rbind_ok in H as (p & Hp & H).
  destruct (decide (dc_realm p = [])) as [Er|Er]; [by rewrite bool_decide_true in H|].
  destruct (decide (dc_nonce p = [])) as [En|En]; [by rewrite (bool_decide_true (dc_nonce p = [])), orb_true_r in H|].
  rewrite !bool_decide_false in H by done. cbn [orb] in H. cbv zeta in H.
  apply rbind_ok in H as (qop & Hq & H).
  destruct (digestHex (or_md5 (dc_algorithm p)) (colons [username; dc_realm p; password])) as [|h1 ha1] eqn:Eh; [done|].
  apply rbind_ok in H as (session & Hs & H). apply Ok_inj in H. exists p, session.
  split; [done|]. split; [done|]. split; [done|]. split; [by rewrite Eh|]. split.
  - destruct qop as [|q qop]; [left; by apply Ok_inj in Hs|]. right.
    unfold choose_qop in Hq. destruct (dc_qop p); [done|]. destruct (existsb _ _); [|done]. apply Ok_inj in Hq. rewrite <- Hq in Hs.
    destruct random as [buf|]; [|done]. exists buf. symmetry. by apply Ok_inj in Hs.
  - subst header. rewrite Eh. unfold header_params. cbn [app]. rewrite !(Join_cons (_ ++ _)) by done. by rewrite <- !app_assoc.
Qed.

Lemma or_md5_token a : Forall (fun b => token b = true) a ->
  Forall (fun b => token b = true) (or_md5 a) /\ or_md5 a <> [] /\ or_md5 (or_md5 a) = or_md5 a.
Proof. destruct a as [|b a]; [|done]. intros _. split; [by repeat constructor|done]. Qed.

Section HeaderParams.

Context (isPrint : Z -> bool) (p : digestChallenge) (alg uri username response : str) (session : option (str * str * str)).
Context (Hu : Forall (fun b => quotable b = true) username) (Huri : Forall (fun b => quotable b = true) uri).
Context (Hr : Forall (fun b => quotable b = true) (dc_realm p)) (Hn : Forall (fun b => quotable b = true) (dc_nonce p)).
Context (Ho : Forall (fun b => quotable b = true) (dc_opaque p)).
Context (Ha : Forall (fun b => token b = true) alg) (Hresp : Forall (fun b => token b = true) response).
Context (Hane : alg <> []) (Hs : session_ok session).

Lemma header_params_good :
  exists q qs, header_params isPrint p alg uri username response session = q :: qs /\ good_param q /\ Forall good_param qs.
Proof using All.
  eexists _, _. split; [reflexivity|].
  assert (forall key v, key_ok key -> Forall (fun b => quotable b = true) v -> good_param (param_q isPrint key v)) as Gq
    by (intros; by apply good_q).
  assert (Hrq := token_quotable _ Hresp).
  split; [apply Gq; [key_check|done]|].
  repeat (constructor; [first [apply Gq; [key_check|done] | apply good_s; [key_check|done|done]]|]).
  apply Forall_app. split.
  - destruct (dc_opaque p); [constructor|]. constructor; [|constructor]. apply Gq; [key_check|done].
  - destruct Hs as [->|[buf ->]]; [constructor|].
    constructor; [apply good_s; [key_check|by repeat constructor|done]|].
    constructor; [apply good_s; [key_check|by repeat constructor|done]|].
    constructor; [apply Gq; [key_check|apply token_quotable, hex_token]|constructor].
Qed.

Lemma header_params_read :
  omap auth_param (header_params isPrint p alg uri username response session)
  = [(lit "username", username); (lit "realm", dc_realm p); (lit "nonce", dc_nonce p); (lit "uri", uri);
     (lit "response", response); (lit "algorithm", alg)]
    ++ (match dc_opaque p with [] => [] | o => [(lit "opaque", o)] end)
    ++ (match session with
        | Some (nc, cn, q) => [(lit "qop", q); (lit "nc", nc); (lit "cnonce", cn)]
        | None => []
        end).
Proof using All.
  assert (Hrq := token_quotable _ Hresp).
  assert (forall key v l, key_ok key -> Forall (fun b => quotable b = true) v ->
    omap auth_param (param_q isPrint key v :: l) = (lit key, v) :: omap auth_param l) as Rq
    by (intros key v l Hk Hv; cbn [omap list_omap]; by rewrite auth_param_q).
  assert (forall key v l, key_ok key -> Forall (fun b => token b = true) v ->
    omap auth_param (param_s key v :: l) = (lit key, v) :: omap auth_param l) as Rs
    by (intros key v l Hk Hv; cbn [omap list_omap]; by rewrite auth_param_s).
  unfold header_params. cbn [app].
  do 5 (rewrite Rq; [|key_check|done]; f_equal). rewrite Rs; [|key_check|done]. f_equal.
  rewrite omap_app. f_equal.
  - destruct (dc_opaque p); [done|]. rewrite Rq; [done|key_check|done].
  - destruct Hs as [->|[buf ->]]; [done|].
    rewrite Rs; [|key_check|by repeat constructor]. rewrite Rs; [|key_check|by repeat constructor].
    rewrite Rq; [done|key_check|apply token_quotable, hex_token].
Qed.

(** What is read back from the written parameters. *)
Lemma authorization_of_params :
  username <> [] -> uri <> [] -> dc_realm p <> [] -> dc_nonce p <> [] -> response <> [] ->
  parseDigestAuthorization (lit "Digest " ++ Join (header_params isPrint p alg uri username response session) (lit ", "))
  = Ok (mkAuthorization username (dc_realm p) (dc_nonce p) uri response alg
          (match session with Some (_, _, q) => q | None => [] end)
          (match session with Some (nc, _, _) => nc | None => [] end)
          (match session with Some (_, cn, _) => cn | None => [] end) (dc_opaque p)).
Proof using All.
  intros Nu Nuri Nr Nn Nresp. unfold parseDigestAuthorization.
  destruct header_params_good as (q & qs & E & Gq & Gqs). rewrite E, digest_params_join, <- E by done.
  rewrite header_params_read. cbv zeta.
  match goal with |- context [mkAuthorization (last_param _ ?l)] => set (ps := l) end.
  assert (last_param "username" ps = username /\ last_param "realm" ps = dc_realm p /\ last_param "nonce" ps = dc_nonce p
    /\ last_param "uri" ps = uri /\ last_param "response" ps = response /\ last_param "algorithm" ps = alg
    /\ last_param "opaque" ps = dc_opaque p) as (-> & -> & -> & -> & -> & -> & ->).
  { unfold ps. destruct (dc_opaque p), Hs as [->|[buf ->]]; repeat split; reflexivity. }
  assert (last_param "qop" ps = match session with Some (_, _, q) => q | None => [] end
    /\ last_param "nc" ps = match session with Some (nc, _, _) => nc | None => [] end
    /\ last_param "cnonce" ps = match session with Some (_, cn, _) => cn | None => [] end) as (-> & -> & ->).
  { unfold ps. destruct (dc_opaque p), Hs as [->|[buf ->]]; repeat split; reflexivity. }
  cbn [da_realm da_nonce da_uri da_response da_username]. by rewrite !bool_decide_false.
Qed.

End HeaderParams.

(** The response for a challenge. *)
Definition answer (p : digestChallenge) (method uri username password : str) (session : option (str * str * str)) : str :=
  let a := or_md5 (dc_algorithm p) in
  digestResponse a (digestHex a (colons [username; dc_realm p; password])) (dc_nonce p)
    (digestHex a (colons [method; uri])) session.

(** The verification of a message that carries the parameters. *)
Lemma verify_params p alg uri username response session raw msg value user password :
  Parse raw = Ok msg ->
  Header (Headers msg) (lit "Authorization") = Some value
  \/ (Header (Headers msg) (lit "Authorization") = None /\ Header (Headers msg) (lit "Proxy-Authorization") = Some value) ->
  alg = or_md5 alg -> session_ok session ->
  parseDigestAuthorization value
  = Ok (mkAuthorization username (dc_realm p) (dc_nonce p) uri response alg
          (match session with Some (_, _, q) => q | None => [] end)
          (match session with Some (nc, _, _) => nc | None => [] end)
          (match session with Some (_, cn, _) => cn | None => [] end) (dc_opaque p)) ->
  digestHex alg [] <> [] ->
  verifyAuthHeader raw user password =
  if bool_decide (username = user)
  then Ok (EqualFold (digestResponse alg (digestHex alg (colons [user; dc_realm p; password])) (dc_nonce p)
                        (digestHex alg (colons [Method msg; uri])) session) response)
  else Ok false.
Proof.
  intros Hp Hh Ha Hs Hd Hsup. unfold verifyAuthHeader. rewrite Hp.
  assert (match Header (Headers msg) (lit "Authorization") with
          | Some v => Some v | None => Header (Headers msg) (lit "Proxy-Authorization") end = Some value) as ->
    by (destruct Hh as [->|[-> ->]]; done).
  rewrite Hd. cbn [rbind da_username da_algorithm da_realm da_uri da_qop da_nc da_cnonce da_nonce da_response].
  destruct (bool_decide (username = user)); [|done]. cbn [negb]. rewrite <- Ha.
  destruct (digestHex alg (colons [user; dc_realm p; password])) eqn:E.
  { by destruct (digestHex_supported alg [] (colons [user; dc_realm p; password])). }
  destruct Hs as [->|[buf ->]]; done.
Qed.

(** ** Keywords *)

Lemma scan_auth_no_panic fuel s raw : length s = length raw -> scan_auth fuel s raw <> Panic.
Proof.
  revert s raw. induction fuel as [|f IH]; intros s raw Hl; [done|]. cbn [scan_auth].
  destruct (Index s auth_prefix) as [start|] eqn:E; [|done].
  apply Index_Some in E as (t & E & _).
  assert (start + 15 <= length s)%nat as Hs.
  { pose proof (f_equal length E) as Hlen. rewrite !length_app, length_take in Hlen.
    change (length auth_prefix) with 15%nat in Hlen. lia. }
  rewrite (proj2 (Nat.ltb_ge _ _)) by lia.
  destruct (IndexByte x5d (drop (start + 1) raw)) as [n|] eqn:En; [|done]. cbv zeta.
  assert (n < length raw - (start + 1))%nat as Hn.
  { apply IndexByte_Some in En as (En & _). apply (f_equal length) in En.
    rewrite length_app, length_take in En. cbn [length] in En. rewrite !length_drop in En. lia. }
  rewrite (proj2 (Nat.ltb_ge _ _)) by lia.
  match goal with |- context [scan_auth f ?a ?b] => pose proof (IH a b) as Hr; destruct (scan_auth f a b); [done|] end.
  exfalso. apply Hr; [|done]. rewrite !length_drop. lia.
Qed.

(** * Properties *)

(** The credentials keywords of an ASCII template are always found without a
    run-time panic. *)
Theorem auth_keywords_total raw :
  Forall ascii raw -> exists options, extractAuthKeywordOptions raw = Ret options.
Proof.
  intros H. unfold extractAuthKeywordOptions. destruct (containsFoldCI raw auth_prefix); [|by eexists].
  cbv zeta. pose proof (scan_auth_no_panic (S (length (ToLower raw))) (ToLower raw) raw (ToLower_length raw H)) as Hp.
  destruct (scan_auth _ _ _); [by eexists|done].
Qed.

Lemma auth_keywords_total_witness :
  exists options, extractAuthKeywordOptions (lit "A [authentication username=u]") = Ret options.
Proof. apply auth_keywords_total. vm_compute. repeat constructor. Defined.

(** A template with a letter whose lower case is shorter in UTF-8 (here the
    dotted capital I) before the keyword makes the search panic: the offsets
    found in the lower-case text are used on the original one. *)
Theorem auth_keywords_unicode_panic :
  extractAuthKeywordOptions ([xc4; xb0] ++ lit "[authentication]") = Panic.
Proof. vm_compute. reflexivity. Qed.

(** C7: A challenge that is answered is accepted.  When the header built for a
    Digest challenge comes back in a request with the same method, as
    [Authorization] or [Proxy-Authorization], verification with the same user
    and password succeeds, with another user it fails, and with another
    password it succeeds only if the two digests agree; with and without qop,
    for MD5 and SHA-256.  The texts that are quoted are printable ASCII
    without quotes and backslashes, and the algorithm is a token. *)
Theorem digest_answer_verifies isPrint random name challenge method uri username password header p :
  buildDigestAuthHeader isPrint random name challenge method uri username password = Ok header ->
  parseDigestChallenge challenge = Ok p ->
  Forall (fun b => quotable b = true) (username ++ uri ++ dc_realm p ++ dc_nonce p ++ dc_opaque p) ->
  Forall (fun b => token b = true) (dc_algorithm p) -> username <> [] -> uri <> [] ->
  exists value session, header = name ++ lit ": " ++ value /\
  forall raw msg, Parse raw = Ok msg -> Method msg = method ->
    Header (Headers msg) (lit "Authorization") = Some value
    \/ (Header (Headers msg) (lit "Authorization") = None /\ Header (Headers msg) (lit "Proxy-Authorization") = Some value) ->
    verifyAuthHeader raw username password = Ok true
    /\ (forall user, user <> username -> verifyAuthHeader raw user password = Ok false)
    /\ (forall password', verifyAuthHeader raw username password'
        = Ok (EqualFold (answer p method uri username password' session) (answer p method uri username password session))).
Proof.
  intros Hb Hp Hq Ht Nu Nuri. apply build_inv in Hb as (p' & session & Hp' & Nr & Nn & Hha & Hs & ->).
  rewrite Hp in Hp'. apply Ok_inj in Hp' as <-.
  rewrite !Forall_app in Hq. destruct Hq as (Hu & Huri & Hr & Hn & Ho).
  destruct (or_md5_token _ Ht) as (Hta & Nta & Hor). set (alg := or_md5 (dc_algorithm p)) in *.
  set (resp := digestResponse _ _ _ _ _).
  exists (lit "Digest " ++ Join (header_params isPrint p alg uri username resp session) (lit ", ")), session.
  split; [reflexivity|]. intros raw msg Hraw Hm Hh.
  pose proof (authorization_of_params isPrint p alg uri username resp session Hu Huri Hr Hn Ho Hta
    (digestResponse_token _ _ _ _ _) Nta Hs Nu Nuri Nr Nn (digestResponse_nonempty _ _ _ _ _ _ Hha)) as Hd.
  pose proof (fun user pw => verify_params p alg uri username resp session raw msg _ user pw Hraw Hh (eq_sym Hor) Hs Hd
    (digestHex_supported _ _ [] Hha)) as Hv.
  subst method. split; [|split].
  - rewrite Hv, bool_decide_true by done. unfold resp. by rewrite EqualFold_refl.
  - intros user Hne. by rewrite Hv, bool_decide_false.
  - intros pw. by rewrite Hv, bool_decide_true.
Qed.

(** Text with [~] for a double quote. *)
Definition quoted_lit (s : string) : str := map (fun b => if beqb b x7e then x22 else b) (lit s).

Definition demo_challenge : str :=
  quoted_lit "Digest realm=~ims, home~, nonce=~a1b2~, opaque=~o1~, algorithm=MD5, qop=~auth-int, auth~".

Definition demo_header : str :=
  match buildDigestAuthHeader (fun _ => true) (Some (lit "12345678")) (lit "Authorization") demo_challenge (lit "REGISTER")
          (lit "sip:home;transport=udp") (lit "alice") (lit "secret") with
  | Ok h => h | Err _ => []
  end.

Definition demo_register : str :=
  lit "REGISTER sip:home;transport=udp SIP/2.0" ++ crlf ++ demo_header ++ crlf ++ lit "CSeq: 1 REGISTER" ++ crlf ++ crlf.

Definition demo_register_msg : Message :=
  match Parse demo_register with Ok m => m | Err _ => emptyMessage end.

Lemma digest_answer_verifies_witness :
  verifyAuthHeader demo_register (lit "alice") (lit "secret") = Ok true
  /\ verifyAuthHeader demo_register (lit "bob") (lit "secret") = Ok false.
Proof.
  destruct (digest_answer_verifies (fun _ => true) (Some (lit "12345678")) (lit "Authorization") demo_challenge
    (lit "REGISTER") (lit "sip:home;transport=udp") (lit "alice") (lit "secret") demo_header
    (mkChallenge (lit "ims, home") (lit "a1b2") (lit "o1") (lit "MD5") (lit "auth-int, auth")))
    as (value & session & Hh & H).
  - vm_compute. reflexivity.
  - vm_compute. reflexivity.
  - vm_compute. repeat constructor.
  - vm_compute. repeat constructor.
  - discriminate.
  - discriminate.
  - apply (f_equal (drop 15)) in Hh. change (drop 15 (lit "Authorization" ++ lit ": " ++ value)) with value in Hh.
    destruct (H demo_register demo_register_msg) as (H1 & H2 & _).
    + vm_compute. reflexivity.
    + vm_compute. reflexivity.
    + left. rewrite <- Hh. vm_compute. reflexivity.
    + split; [exact H1|]. apply H2. vm_compute. discriminate.
Defined.

Definition demo_escaped : str :=
  match buildDigestAuthHeader (fun _ => true) None (lit "Authorization") (quoted_lit "Digest realm=~r~, nonce=~n~")
          (lit "REGISTER") (lit "sip:home") (lit "corp\alice") (lit "secret") with
  | Ok h => lit "REGISTER sip:home SIP/2.0" ++ crlf ++ h ++ crlf ++ crlf
  | Err _ => []
  end.

(** A user name with a backslash is escaped when the header is written and not
    unescaped when it is read: the header the program builds for it is refused
    by its own verification. *)
Theorem escaped_username_refused :
  verifyAuthHeader demo_escaped (lit "corp\alice") (lit "secret") = Ok false
  /\ verifyAuthHeader demo_escaped (lit "corp\\alice") (lit "secret") = Ok false.
Proof. vm_compute. split; reflexivity. Qed.
