(* ===== verification/Actions.v ===== *)
(** * Scenario actions ([applyActions] of [internal/engine/engine.go])

    Actions read and write the call's variables through [Vars], render text
    through [Template] and compute with [GoFloat].  Digest
    verification is [Auth]'s.  Regular expressions, media and shell commands, the clock and the random
    index are fields of an [action_env]. *)

From stdpp Require Import base list gmap strings.
From Stdlib Require Import ZArith Lia Strings.Byte.
From S2P Require Import Prelude GoStrings GoFloat SipMessage Vars Scenario Template EngineText Commands Auth.

Inductive action_error :=
  | ErrRender (e : render_error)
  | ErrNumeric (value : str)
  | ErrDivideByZero
  | ErrArithmetic
  | ErrLookupFile | ErrLookupRead
  | ErrSampleSpec | ErrSampleToken (t : str) | ErrSampleNumber (key value : str) | ErrSampleKey (k : str)
  | ErrSampleMinMax | ErrSampleStep | ErrSampleOrder | ErrSampleTooLarge | ErrSampleEmpty
  | ErrMutationFile | ErrMutationSpec | ErrMutationToken (t : str) | ErrMutationLine | ErrMutationField
  | ErrMutationText | ErrMutation (e : csv_error)
  | ErrJumpTarget
  | ErrURL
  | ErrVerifyAuth (e : auth_error)
  | ErrSetDestHost | ErrSetDestPort | ErrSetDestPortValue (v : str) | ErrSetDestPortRange (p : Z)
  | ErrERegCompile | ErrERegNoMatch | ErrERegMatch
  | ErrStopCall | ErrStopNow | ErrIntCmd (c : str) | ErrExec.

Record actionResult := mkActionResult {
  jumpIndex : Z; hasJump : bool;
  setDestinationHost : str; setDestinationPort : Z; setDestinationProto : str; hasSetDestination : bool
}.

Definition noResult : actionResult := mkActionResult 0 false [] 0 [] false.

(** What the actions need from outside. *)
Record action_env := mkActionEnv {
  ae_tmpl : tmpl_env;
  (* regexp.Compile and then FindStringSubmatch; no submatch is no match *)
  ae_regexp : str -> option (str -> list str);
  (* the media and shell parts of applyExecAction: whether they succeed *)
  ae_exec : Action -> Context -> bool;
  ae_epoch : Z * Z;
  (* sampleIndex: an index below the size, given the optional seed *)
  ae_index : nat -> option Z -> nat;
  ae_traceLogs : bool;
  ae_traceErrors : bool
}.

(** The store of the call, the scopes it shares, and the render context, whose
    override map the actions may change. *)
Record act_state := mkActState { as_vars : varStore; as_scopes : scopedVars; as_ctx : Context }.

Definition setVariables (vs : gmap str str) (c : Context) : Context :=
  mkContext (Service c) (Transport c) (RemoteHost c) (RemoteIP c) (RemotePort c)
    (LocalIP c) (ServerIP c) (LocalIPType c) (LocalPort c)
    (MediaIP c) (MediaIPType c) (MediaPort c) (IceUfrag c) (IcePwd c)
    (CallID c) (CSeq c) (CallNumber c) (MessageIndex c) (PID c) (Users c) (UserID c)
    (BranchBase c) (LastMessage c) (LastHeaders c) (BodyLength c)
    (SIPpVersion c) (ClockTick c) (DynamicID c)
    (ExtraKeywords c) vs (CSVFieldOverrides c) (BasePath c) (InjectionFile c).

Definition setOverrides (ov : csv_overrides) (c : Context) : Context :=
  mkContext (Service c) (Transport c) (RemoteHost c) (RemoteIP c) (RemotePort c)
    (LocalIP c) (ServerIP c) (LocalIPType c) (LocalPort c)
    (MediaIP c) (MediaIPType c) (MediaPort c) (IceUfrag c) (IcePwd c)
    (CallID c) (CSeq c) (CallNumber c) (MessageIndex c) (PID c) (Users c) (UserID c)
    (BranchBase c) (LastMessage c) (LastHeaders c) (BodyLength c)
    (SIPpVersion c) (ClockTick c) (DynamicID c)
    (ExtraKeywords c) (Variables c) ov (BasePath c) (InjectionFile c).

Definition readVar (st : act_state) (name : str) : str := Get (as_vars st) (as_scopes st) name.

Definition writeVar (name value : str) (st : act_state) : act_state :=
  let '(v, sc) := SetVar (as_vars st) (as_scopes st) name value in mkActState v sc (as_ctx st).

(** [renderCtx.Variables = vars.Snapshot()] *)
Definition refresh (st : act_state) : act_state :=
  mkActState (as_vars st) (as_scopes st) (setVariables (Snapshot (as_vars st) (as_scopes st)) (as_ctx st)).

Definition assignActionValue (assignTo : list str) (value : str) (st : act_state) : act_state :=
  foldl (fun st name => writeVar name value st) st assignTo.

Definition firstAssignTarget (assignTo : list str) : str :=
  match assignTo with [] => [] | name :: _ => name end.

(** ** Numbers *)

Definition parseActionFloat (value : str) : result action_error float64 :=
  match ParseFloat (TrimSpace value) with
  | Some x => Ok x
  | None => Err (ErrNumeric value)
  end.

Definition formatActionFloat (value : float64) : str := FormatFloat value.

Definition applyArithmeticAction (t : ActionType) (left right : float64) : result action_error float64 :=
  match t with
  | ActionAdd => Ok (fadd left right)
  | ActionSubtract => Ok (fsub left right)
  | ActionMultiply => Ok (fmul left right)
  | ActionDivide => if feq right fzero then Err ErrDivideByZero else Ok (fdiv left right)
  | _ => Err ErrArithmetic
  end.

Definition parseComparableNumbers (left right : str) : option (float64 * float64) :=
  match ParseFloat (TrimSpace left) with
  | None => None
  | Some l => match ParseFloat (TrimSpace right) with
              | None => None
              | Some r => Some (l, r)
              end
  end.

(** [strings.Compare] *)
Fixpoint Compare (a b : str) : Z :=
  match a, b with
  | [], [] => 0
  | [], _ :: _ => -1
  | _ :: _, [] => 1
  | x :: a', y :: b' => if b2z x <? b2z y then -1 else if b2z y <? b2z x then 1 else Compare a' b'
  end.

Inductive relop := OpEq | OpNe | OpGt | OpLt | OpGe | OpLe.

Definition relop_of (compare : str) : relop :=
  let c := ToLower (TrimSpace compare) in
  if one_of c [""; "equal"; "eq"]%string then OpEq
  else if one_of c ["not_equal"; "ne"]%string then OpNe
  else if one_of c ["greater_than"; "gt"]%string then OpGt
  else if one_of c ["less_than"; "lt"]%string then OpLt
  else if one_of c ["greater_than_equal"; "greater_than_or_equal"; "ge"; "gte"]%string then OpGe
  else if one_of c ["less_than_equal"; "less_than_or_equal"; "le"; "lte"]%string then OpLe
  else OpEq.

(** [compareValues] *)
Definition compareValues (left right compare : str) : bool :=
  match parseComparableNumbers left right with
  | Some (l, r) =>
    match relop_of compare with
    | OpEq => feq l r
    | OpNe => negb (feq l r)
    | OpGt => flt r l
    | OpLt => flt l r
    | OpGe => fle r l
    | OpLe => fle l r
    end
  | None =>
    let order := Compare left right in
    match relop_of compare with
    | OpEq => order =? 0
    | OpNe => negb (order =? 0)
    | OpGt => 0 <? order
    | OpLt => order <? 0
    | OpGe => 0 <=? order
    | OpLe => order <=? 0
    end
  end.

(** ** URL escapes ([net/url]) *)

Definition hex_upper (d : Z) : byte := if d <? 10 then z2b (48 + d) else z2b (55 + d).

Definition url_unreserved (b : byte) : bool :=
  in_range 97 122 b || in_range 65 90 b || in_range 48 57 b
  || beqb b x2d || beqb b x5f || beqb b x2e || beqb b x7e.

Definition QueryEscape (s : str) : str :=
  flat_map (fun b =>
    if beqb b x20 then [x2b]
    else if url_unreserved b then [b]
    else [x25; hex_upper (b2z b / 16); hex_upper (b2z b mod 16)]) s.

Fixpoint QueryUnescape (s : str) : option str :=
  match s with
  | [] => Some []
  | a :: r =>
    if beqb a x25 then
      match r with
      | h :: l :: r' =>
        match hex_digit h, hex_digit l with
        | Some x, Some y => (cons (z2b (x * 16 + y))) <$> QueryUnescape r'
        | _, _ => None
        end
      | _ => None
      end
    else if beqb a x2b then (cons x20) <$> QueryUnescape r
    else (cons a) <$> QueryUnescape r
  end.

(** ** The [sample] action *)

Record sampleSpec := mkSampleSpec { sp_min : Z; sp_max : Z; sp_step : Z; sp_seed : option Z }.

(** The specification while its fields are read. *)
Record sample_scan := mkScan { sc_spec : sampleSpec; sc_hasMin : bool; sc_hasMax : bool }.

Definition scanSampleField (s : sample_scan) (field : str) : result action_error sample_scan :=
  match Cut field x3d with
  | None => Err (ErrSampleToken field)
  | Some (k, v) =>
    let key := ToLower (TrimSpace k) in
    let val := TrimSpace v in
    let p := sc_spec s in
    let bad := Err (ErrSampleNumber key val) in
    if bool_decide (key = lit "min") then
      match Atoi val with
      | Some n => Ok (mkScan (mkSampleSpec n (sp_max p) (sp_step p) (sp_seed p)) true (sc_hasMax s))
      | None => bad
      end
    else if bool_decide (key = lit "max") then
      match Atoi val with
      | Some n => Ok (mkScan (mkSampleSpec (sp_min p) n (sp_step p) (sp_seed p)) (sc_hasMin s) true)
      | None => bad
      end
    else if bool_decide (key = lit "step") then
      match Atoi val with
      | Some n => Ok (mkScan (mkSampleSpec (sp_min p) (sp_max p) n (sp_seed p)) (sc_hasMin s) (sc_hasMax s))
      | None => bad
      end
    else if bool_decide (key = lit "seed") then
      match Atoi val with
      | Some n => Ok (mkScan (mkSampleSpec (sp_min p) (sp_max p) (sp_step p) (Some n)) (sc_hasMin s) (sc_hasMax s))
      | None => bad
      end
    else Err (ErrSampleKey key)
  end.

(** [parseSampleSpec] on the rendered text. *)
Definition parseSampleSpec (rendered : str) : result action_error sampleSpec :=
  match TrimSpace rendered with
  | [] => Err ErrSampleSpec
  | trimmed =>
    let? s := foldl_result scanSampleField (mkScan (mkSampleSpec 0 0 1 None) false false) (Fields trimmed) in
    let spec := sc_spec s in
    if negb (sc_hasMin s) || negb (sc_hasMax s) then Err ErrSampleMinMax
    else if sp_step spec <=? 0 then Err ErrSampleStep
    else if sp_max spec <? sp_min spec then Err ErrSampleOrder
    else Ok spec
  end.

Definition maxValues : Z := 1000000.

(** The loop of [buildSampleValues] in int64 arithmetic; [n] values were
    appended before. *)
Fixpoint sample_loop (fuel : nat) (v max step n : Z) : result action_error (list Z) :=
  match fuel with
  | O => Err ErrSampleTooLarge
  | S f =>
    if max <? v then Ok []
    else if maxValues <? n + 1 then Err ErrSampleTooLarge
    else if (0 <? step) && (i64 (max - step) <? v) then Ok [v]
    else let? rest := sample_loop f (i64 (v + step)) max step (n + 1) in Ok (v :: rest)
  end.

(** [buildSampleValues]; there is one iteration per value plus the last test,
    and at most [maxValues + 1] of them. *)
Definition buildSampleValues (spec : sampleSpec) : result action_error (list Z) :=
  sample_loop (Z.to_nat (Z.min ((sp_max spec - sp_min spec) / sp_step spec) maxValues + 2))
    (sp_min spec) (sp_max spec) (sp_step spec) 0.

(** ** Injection file changes *)

(** [parseCSVMutationSpec] on the rendered text: line, field, text, position. *)
Definition parseCSVMutationSpec (rendered : str) : result action_error (Z * Z * str * str) :=
  match TrimSpace rendered with
  | [] => Err ErrMutationSpec
  | trimmed =>
    let? params := foldl_result (fun (m : gmap str str) part =>
      match Cut part x3d with
      | None => Err (ErrMutationToken part)
      | Some (k, v) => Ok (<[ToLower (TrimSpace k) := TrimSpace v]> m)
      end) ∅ (Fields trimmed) in
    match params !! lit "line" with
    | None => Err ErrMutationLine
    | Some rawLine =>
      match Atoi rawLine with
      | None => Err ErrMutationLine
      | Some line =>
        if line <=? 0 then Err ErrMutationLine else
        match params !! lit "field" with
        | None => Err ErrMutationField
        | Some rawField =>
          match Atoi rawField with
          | None => Err ErrMutationField
          | Some field =>
            if field <? 0 then Err ErrMutationField else
            match params !! lit "text" with
            | None => Err ErrMutationText
            | Some text => Ok (line, field, text, default [] (params !! lit "position"))
            end
          end
        end
      end
    end
  end.

Definition normalizeTransportForSetDest (transport : str) : str :=
  let t := ToLower (TrimSpace transport) in
  if one_of t ["u1"; "un"; "ui"; "udp"]%string then lit "udp"
  else if one_of t ["t1"; "tn"; "tcp"]%string then lit "tcp"
  else if one_of t ["l1"; "ln"; "tls"]%string then lit "tls"
  else if one_of t ["w1"; "wn"; "ws"]%string then lit "ws"
  else if one_of t ["ws1"; "wsn"; "wss"]%string then lit "wss"
  else t.

Section Apply.

Context (env : action_env).

Definition render (text : str) (st : act_state) : result action_error str :=
  match RenderMessageStrict (ae_tmpl env) text (as_ctx st) with
  | Ok s => Ok s
  | Err e => Err (ErrRender e)
  end.

Definition resolveActionOperand (a : Action) (st : act_state) : result action_error str :=
  if bool_decide (TrimSpace (a_Variable2 a) = []) then render (a_Value a) st
  else Ok (readVar st (a_Variable2 a)).

Definition renderNumericActionValue (a : Action) (st : act_state) : result action_error str :=
  if bool_decide (TrimSpace (a_Variable a) = []) then render (a_Value a) st
  else Ok (readVar st (a_Variable a)).

Definition actionNumericOperand (a : Action) (st : act_state) : result action_error float64 :=
  let? v := renderNumericActionValue a st in parseActionFloat v.

Definition resolveJumpTarget (a : Action) (st : act_state) : result action_error Z :=
  let target :=
    match TrimSpace (a_Value a) with
    | [] => if bool_decide (TrimSpace (a_Variable a) = []) then [] else TrimSpace (readVar st (a_Variable a))
    | t => t
    end in
  match target with
  | [] => Err ErrJumpTarget
  | _ => match Atoi target with
         | None => Err ErrJumpTarget
         | Some v => if v <? 0 then Err ErrJumpTarget else Ok v
         end
  end.

Definition resolveSetDestAction (a : Action) (st : act_state) : result action_error (str * Z * str) :=
  if bool_decide (TrimSpace (a_Host a) = []) then Err ErrSetDestHost
  else if bool_decide (TrimSpace (a_Port a) = []) then Err ErrSetDestPort
  else
    let? host := render (a_Host a) st in
    let? portRaw := render (a_Port a) st in
    match Atoi (TrimSpace portRaw) with
    | None => Err (ErrSetDestPortValue portRaw)
    | Some port =>
      if (port <=? 0) || (65535 <? port) then Err (ErrSetDestPortRange port)
      else
        let? protocol := if bool_decide (TrimSpace (a_Protocol a) = []) then Ok [] else render (a_Protocol a) st in
        Ok (TrimSpace host, port, TrimSpace protocol)
    end.

Definition applySampleAction (a : Action) (st : act_state) : result action_error str :=
  match a_AssignTo a with
  | [] => Ok []
  | _ =>
    let? rendered := render (a_Value a) st in
    let? spec := parseSampleSpec rendered in
    let? values := buildSampleValues spec in
    match values !! ae_index env (length values) (sp_seed spec) with
    | None => Err ErrSampleEmpty
    | Some v => Ok (Itoa v)
    end
  end.

Definition applyCSVMutationAction (a : Action) (st : act_state) : result action_error csv_overrides :=
  if bool_decide (TrimSpace (a_File a) = []) then Err ErrMutationFile
  else
    let? fileName := render (a_File a) st in
    let? rendered := render (a_Value a) st in
    let? spec := parseCSVMutationSpec rendered in
    let '(line, field, text, position) := spec in
    let mode := if bool_decide (a_Type a = ActionInsert) then lit "insert" else lit "replace" in
    match ApplyCSVMutation (ae_tmpl env) (BasePath (as_ctx st)) fileName line field mode text position
            (CSVFieldOverrides (as_ctx st)) with
    | Ok ov => Ok ov
    | Err e => Err (ErrMutation e)
    end.

(** [applyERegAction]; the order in which [lookupHeaderCI] visits the headers
    is that of the list. *)
Definition ereg_source (a : Action) (st : act_state) : str :=
  let where_ := ToLower (a_SearchIn a) in
  let c := as_ctx st in
  if bool_decide (where_ = lit "hdr") then
    match lookupHeaderCI (LastHeaders c) (TrimSuffix (a_Header a) (lit ":")) with
    | None => []
    | Some values => Join values crlf
    end
  else if bool_decide (where_ = lit "body") then extractBody (LastMessage c)
  else if bool_decide (where_ = lit "var") then readVar st (a_Variable a)
  else LastMessage c.

(** Assign the submatches to the names, as far as both go. *)
Fixpoint assign_matches (names matches : list str) (st : act_state) : act_state :=
  match names, matches with
  | name :: names', m :: matches' => assign_matches names' matches' (writeVar name (TrimSpace m) st)
  | _, _ => st
  end.

Definition applyERegAction (a : Action) (st : act_state) : result action_error act_state :=
  match ae_regexp env (a_Regexp a) with
  | None => Err ErrERegCompile
  | Some find =>
    let matches := find (ereg_source a st) in
    let matched := negb (bool_decide (matches = [])) in
    if a_CheckIt a && negb matched then Err ErrERegNoMatch
    else if a_CheckItInverse a && matched then Err ErrERegMatch
    else if matched then Ok (assign_matches (a_AssignTo a) matches st)
    else Ok st
  end.

(** [applyExecAction]: the internal commands, then what is run outside. *)
Definition applyExecAction (a : Action) (st : act_state) : result action_error unit :=
  let c := ToLower (TrimSpace (a_IntCmd a)) in
  if bool_decide (c = lit "stop_call") then Err ErrStopCall
  else if one_of c ["stop_now"; "stop_gracefully"]%string then Err ErrStopNow
  else if negb (bool_decide (c = [])) then Err (ErrIntCmd (a_IntCmd a))
  else if ae_exec env a (as_ctx st) then Ok tt else Err ErrExec.

(** One action: what it returns and the state it leaves.  An action that only
    has an effect on named variables is skipped when it names none, without
    refreshing the context. *)
Definition applyAction (a : Action) (st : act_state) (res : actionResult)
    : result action_error actionResult * act_state :=
  let done st := (Ok res, refresh st) in
  let fail e := (Err e, st) in
  let assign (value : result action_error str) :=
    match value with
    | Ok v => done (assignActionValue (a_AssignTo a) v st)
    | Err e => fail e
    end in
  let skip := match a_AssignTo a with [] => true | _ => false end in
  let bit (b : bool) := if b then lit "1" else lit "0" in
  match a_Type a with
  | ActionAssignStr => if skip then (Ok res, st) else assign (render (a_Value a) st)
  | ActionAssign => assign (renderNumericActionValue a st)
  | ActionToDouble =>
    assign (let? x := parseActionFloat (readVar st (a_Variable a)) in Ok (formatActionFloat x))
  | ActionAdd | ActionSubtract | ActionMultiply | ActionDivide =>
    assign (let? current := parseActionFloat (readVar st (firstAssignTarget (a_AssignTo a))) in
            let? operand := actionNumericOperand a st in
            let? value := applyArithmeticAction (a_Type a) current operand in
            Ok (formatActionFloat value))
  | ActionLog =>
    if ae_traceLogs env then
      match render (a_Message a) st with Ok _ => done st | Err e => fail e end
    else done st
  | ActionWarning =>
    if ae_traceErrors env then
      match render (a_Message a) st with Ok _ => done st | Err e => fail e end
    else done st
  | ActionLookup =>
    if skip then (Ok res, st)
    else if bool_decide (TrimSpace (a_File a) = []) then fail ErrLookupFile
    else assign (let? fileName := render (a_File a) st in
                 let? key := render (a_Key a) st in
                 match LookupCSVLine (ae_tmpl env) (BasePath (as_ctx st)) fileName key with
                 | None => Err ErrLookupRead
                 | Some found => Ok (match found with Some line => Itoa line | None => lit "0" end)
                 end)
  | ActionSample => assign (applySampleAction a st)
  | ActionInsert | ActionReplace =>
    match applyCSVMutationAction a st with
    | Ok ov => done (mkActState (as_vars st) (as_scopes st) (setOverrides ov (as_ctx st)))
    | Err e => fail e
    end
  | ActionStrCmp =>
    if skip then (Ok res, st)
    else assign (let? operand := resolveActionOperand a st in
                 Ok (Itoa (Compare (readVar st (a_Variable a)) operand)))
  | ActionTest =>
    if skip then (Ok res, st)
    else assign (let? operand := resolveActionOperand a st in
                 Ok (bit (compareValues (readVar st (a_Variable a)) operand (a_Compare a))))
  | ActionJump =>
    match resolveJumpTarget a st with
    | Ok j => (Ok (mkActionResult j true (setDestinationHost res) (setDestinationPort res)
                     (setDestinationProto res) (hasSetDestination res)), refresh st)
    | Err e => fail e
    end
  | ActionGetTimeOfDay =>
    let '(seconds, micros) := ae_epoch env in
    done (match a_AssignTo a with
          | [] => st
          | [n0] => writeVar n0 (Itoa seconds) st
          | n0 :: n1 :: _ => writeVar n1 (Itoa micros) (writeVar n0 (Itoa seconds) st)
          end)
  | ActionURLEncode => done (writeVar (a_Variable a) (QueryEscape (readVar st (a_Variable a))) st)
  | ActionURLDecode =>
    match QueryUnescape (readVar st (a_Variable a)) with
    | Some decoded => done (writeVar (a_Variable a) decoded st)
    | None => fail ErrURL
    end
  | ActionVerifyAuth =>
    if skip then (Ok res, st)
    else assign (let? username := render (a_Username a) st in
                 let? password := render (a_Password a) st in
                 match verifyAuthHeader (LastMessage (as_ctx st)) username password with
                 | Ok valid => Ok (bit valid)
                 | Err e => Err (ErrVerifyAuth e)
                 end)
  | ActionSetDest =>
    match resolveSetDestAction a st with
    | Ok (host, port, proto) => (Ok (mkActionResult (jumpIndex res) (hasJump res) host port proto true), refresh st)
    | Err e => fail e
    end
  | ActionEReg =>
    match applyERegAction a st with
    | Ok st' => done st'
    | Err e => fail e
    end
  | ActionExec =>
    match applyExecAction a st with
    | Ok _ => done st
    | Err e => fail e
    end
  end.

Fixpoint run_actions (actions : list Action) (st : act_state) (res : actionResult)
    : result action_error actionResult * act_state :=
  match actions with
  | [] => (Ok res, st)
  | a :: rest =>
    match applyAction a st res with
    | (Ok res', st') => run_actions rest st' res'
    | (Err e, st') => (Err e, st')
    end
  end.

(** [applyActions] *)
Definition applyActions (actions : list Action) (st : act_state) : result action_error actionResult * act_state :=
  run_actions actions (refresh st) noResult.

End Apply.

(** * Lemmas *)

Lemma readVar_writeVar name value st n :
  readVar (writeVar name value st) n = if bool_decide (n = name) then value else readVar st n.
Proof.
  unfold readVar, writeVar, Get, SetVar.
  destruct (decide (n = name)) as [->|Hne].
  - rewrite (bool_decide_true (name = name)) by done.
    repeat case_bool_decide; simpl;
      repeat (rewrite bool_decide_true by done || rewrite bool_decide_false by done);
      by rewrite ?lookup_insert_eq.
  - rewrite (bool_decide_false (n = name)) by done.
    repeat case_bool_decide; simpl; repeat case_bool_decide; simpl; try done;
      try by rewrite lookup_insert_ne.
    rewrite lookup_insert_eq, lookup_insert_ne by done.
    destruct (sv_users (as_scopes st) !! vs_userID (as_vars st)); simpl; [done|]. by rewrite lookup_empty.
Qed.

Lemma readVar_refresh st n : readVar (refresh st) n = readVar st n.
Proof. done. Qed.

Lemma TrimSpace_Itoa z : TrimSpace (Itoa z) = Itoa z.
Proof. apply Forall_plain_trimmed, Itoa_plain. Qed.

Lemma parseActionFloat_Itoa z : Z.abs z < 2 ^ 53 -> parseActionFloat (Itoa z) = Ok (float_of_int z).
Proof. intros. unfold parseActionFloat. by rewrite TrimSpace_Itoa, ParseFloat_Itoa. Qed.

(** ** Samples *)

Lemma sample_loop_spec fuel v max step n :
  int64_min <= v <= max -> max <= int64_max -> 0 < step <= int64_max -> 0 <= n ->
  n + (max - v) / step + 1 <= maxValues -> (max - v) / step + 2 <= Z.of_nat fuel ->
  sample_loop fuel v max step n
  = Ok (map (fun i => v + Z.of_nat i * step) (seq 0 (Z.to_nat ((max - v) / step + 1)))).
Proof.
  revert v n. induction fuel as [|fuel IH]; intros v n Hv Hm Hs Hn Hc Hf.
  { pose proof (Z.div_pos (max - v) step). lia. }
  pose proof (Z.div_pos (max - v) step ltac:(lia) ltac:(lia)) as Hq.
  cbn [sample_loop]. rewrite (proj2 (Z.ltb_ge max v)), (proj2 (Z.ltb_ge maxValues (n + 1))) by lia.
  rewrite (proj2 (Z.ltb_lt 0 step)) by lia. cbn [andb].
  assert (max - step < v -> (max - v) / step = 0) as Hzero by (intros; apply Z.div_small; lia).
  destruct (Z.ltb_spec (i64 (max - step)) v) as [Hlast|Hmore].
  - assert (max - step < v) as Hl.
    { destruct (Z.le_gt_cases int64_min (max - step)).
      - rewrite i64_small in Hlast by (unfold int64_max in *; lia). done.
      - lia. }
    rewrite Hzero by done. simpl. f_equal. f_equal. lia.
  - destruct (Z.le_gt_cases v (max - step)) as [Hle|Hgt].
    + rewrite (i64_small (v + step)) by (unfold int64_min, int64_max in *; lia).
      assert ((max - (v + step)) / step = (max - v) / step - 1) as Hd.
      { replace (max - (v + step)) with (max - v + (-1) * step) by lia. rewrite Z.div_add by lia. lia. }
      assert (0 <= (max - v) / step - 1).
      { rewrite <- Hd. apply Z.div_pos; lia. }
      rewrite IH by (rewrite ?Hd; lia). cbn [rbind]. f_equal. rewrite Hd.
      replace (Z.to_nat ((max - v) / step + 1)) with (S (Z.to_nat ((max - v) / step - 1 + 1))) by lia.
      cbn [seq map]. f_equal; [lia|]. rewrite <- seq_shift, map_map. apply map_ext. intros i. lia.
    + assert (max - step < int64_min) as Hover.
      { destruct (Z.le_gt_cases int64_min (max - step)); [|done].
        rewrite i64_small in Hmore by (unfold int64_max in *; lia). lia. }
      rewrite (i64_small (v + step)) by (unfold int64_min, int64_max in *; lia).
      rewrite Hzero by lia. destruct fuel as [|fuel]; [lia|]. cbn [sample_loop].
      rewrite (proj2 (Z.ltb_lt max (v + step))) by lia. simpl. f_equal. f_equal. lia.
Qed.

Lemma sample_loop_too_large fuel v max step n :
  int64_min <= v <= max -> max <= int64_max -> 0 < step <= int64_max -> 0 <= n <= maxValues ->
  maxValues < n + (max - v) / step + 1 ->
  sample_loop fuel v max step n = Err ErrSampleTooLarge.
Proof.
  revert v n. induction fuel as [|fuel IH]; intros v n Hv Hm Hs Hn Hc; [done|].
  cbn [sample_loop]. rewrite (proj2 (Z.ltb_ge max v)) by lia.
  destruct (Z.ltb_spec maxValues (n + 1)) as [|Hle]; [done|].
  assert (1 <= (max - v) / step) as Hq by lia.
  assert (v + step <= max) as Hnext.
  { pose proof (Z.mul_div_le (max - v) step ltac:(lia)). nia. }
  rewrite (proj2 (Z.ltb_lt 0 step)) by lia. cbn [andb].
  rewrite (i64_small (max - step)), (proj2 (Z.ltb_ge (max - step) v))
    by (unfold int64_min, int64_max in *; lia).
  rewrite (i64_small (v + step)) by (unfold int64_min, int64_max in *; lia).
  rewrite IH; [done|lia|lia|lia|lia|].
  replace (max - (v + step)) with (max - v + (-1) * step) by lia. rewrite Z.div_add by lia. lia.
Qed.

(** ** URL escapes *)

Lemma hex_digit_upper d : 0 <= d < 16 -> hex_digit (hex_upper d) = Some d.
Proof.
  intros H. assert (d ∈ map Z.of_nat (seq 0 16)) as Hin.
  { apply list_elem_of_In, in_map_iff. exists (Z.to_nat d). split; [lia|]. apply in_seq. lia. }
  revert d Hin H. rewrite <- Forall_forall. repeat (constructor; [intros; vm_compute; reflexivity|]). constructor.
Qed.

Lemma unreserved_plain b : url_unreserved b = true -> beqb b x25 = false /\ beqb b x2b = false.
Proof. intros H. split; apply beqb_neq; intros ->; by vm_compute in H. Qed.

Lemma QueryUnescape_Escape s : QueryUnescape (QueryEscape s) = Some s.
Proof.
  induction s as [|b s IH]; [done|]. unfold QueryEscape in *. cbn [flat_map].
  destruct (beqb b x20) eqn:Es.
  { apply beqb_eq in Es as ->. cbn [app QueryUnescape]. by rewrite IH. }
  destruct (url_unreserved b) eqn:Eu.
  { destruct (unreserved_plain b Eu) as [E1 E2]. cbn [app QueryUnescape]. by rewrite E1, E2, IH. }
  pose proof (b2z_range b). pose proof (Z.mod_pos_bound (b2z b) 16 ltac:(lia)).
  assert (0 <= b2z b / 16 < 16) by (split; [apply Z.div_pos|apply Z.div_lt_upper_bound]; lia).
  cbn [app QueryUnescape]. change (beqb x25 x25) with true. cbv iota.
  rewrite !hex_digit_upper, IH by lia. simpl. f_equal. f_equal.
  replace (b2z b / 16 * 16 + b2z b mod 16) with (b2z b) by (pose proof (Z.div_mod (b2z b) 16); lia).
  apply z2b_b2z.
Qed.

(** ** Results *)

Definition result_ok (r : actionResult) : Prop :=
  (hasJump r = true -> 0 <= jumpIndex r)
  /\ (hasSetDestination r = true ->
      1 <= setDestinationPort r <= 65535
      /\ TrimSpace (setDestinationHost r) = setDestinationHost r
      /\ TrimSpace (setDestinationProto r) = setDestinationProto r).

Lemma resolveJumpTarget_ok a st j : resolveJumpTarget a st = Ok j -> 0 <= j.
Proof.
  unfold resolveJumpTarget. cbv zeta. intros H. case_match; [done|].
  destruct (Atoi _) as [v|]; [|done]. destruct (Z.ltb_spec v 0); [done|]. by injection H as <-.
Qed.

Lemma resolveSetDestAction_ok env a st host port proto :
  resolveSetDestAction env a st = Ok (host, port, proto) ->
  1 <= port <= 65535 /\ TrimSpace host = host /\ TrimSpace proto = proto.
Proof.
  unfold resolveSetDestAction. intros H. repeat (case_bool_decide; [done|]).
  apply rbind_ok in H as (h & _ & H). apply rbind_ok in H as (p & _ & H).
  destruct (Atoi (TrimSpace p)) as [z|]; [|done].
  destruct ((z <=? 0) || (65535 <? z)) eqn:E; [done|].
  apply rbind_ok in H as (q & _ & [= <- <- <-]). bool_to_prop.
  split; [lia|]. by rewrite !TrimSpace_idemp.
Qed.

Lemma applyAction_ok env a st res res' st' :
  result_ok res -> applyAction env a st res = (Ok res', st') -> result_ok res'.
Proof.
  intros Hr. unfold applyAction. cbv zeta.
  destruct (a_Type a); try (repeat case_match; intros; simplify_eq; done).
  - destruct (resolveJumpTarget a st) as [j|] eqn:E; intros H; simplify_eq.
    split; simpl; [intros _; by eapply resolveJumpTarget_ok|]. apply Hr.
  - destruct (resolveSetDestAction env a st) as [[[h p] q]|] eqn:E; intros H; simplify_eq.
    split; simpl; [apply Hr|]. intros _. by eapply resolveSetDestAction_ok.
Qed.

Lemma run_actions_ok env actions st res res' st' :
  result_ok res -> run_actions env actions st res = (Ok res', st') -> result_ok res'.
Proof.
  revert st res. induction actions as [|a actions IH]; intros st res Hr; cbn [run_actions].
  - by intros [= <- _].
  - destruct (applyAction env a st res) as [[r|e] st1] eqn:E; [|done].
    apply IH. by eapply applyAction_ok.
Qed.

Lemma run_actions_no_jump env actions st res res' st' :
  Forall (fun a => a_Type a <> ActionJump) actions -> hasJump res = false ->
  run_actions env actions st res = (Ok res', st') -> hasJump res' = false.
Proof.
  intros Hn. revert st res. induction Hn as [|a actions Ha _ IH]; intros st res Hr; cbn [run_actions].
  - by intros [= <- _].
  - destruct (applyAction env a st res) as [[r|e] st1] eqn:E; [|done]. apply IH. clear IH.
    unfold applyAction in E. cbv zeta in E.
    destruct (a_Type a); try done; repeat case_match; by simplify_eq.
Qed.

Lemma compareValues_int a b compare : Z.abs a < 2 ^ 53 -> Z.abs b < 2 ^ 53 ->
  compareValues (Itoa a) (Itoa b) compare
  = match relop_of compare with
    | OpEq => a =? b
    | OpNe => negb (a =? b)
    | OpGt => b <? a
    | OpLt => a <? b
    | OpGe => b <=? a
    | OpLe => a <=? b
    end.
Proof.
  intros Ha Hb. unfold compareValues, parseComparableNumbers.
  rewrite !TrimSpace_Itoa, !ParseFloat_Itoa by done.
  by destruct (relop_of compare); rewrite ?feq_int, ?flt_int, ?fle_int by done.
Qed.

(** * Properties *)

(** Counters in scenarios are exact.  While the values stay below [2^53],
    [add] and [subtract] on a variable that holds an integer leave the decimal
    text of the sum or difference in it, through the float the code computes
    with, and touch no other variable. *)
Theorem counter_actions_exact env a st res x m n z :
  a_AssignTo a = [x] -> readVar st x = Itoa m ->
  renderNumericActionValue env a st = Ok (Itoa n) ->
  (a_Type a = ActionAdd /\ z = m + n) \/ (a_Type a = ActionSubtract /\ z = m - n) ->
  Z.abs m < 2 ^ 53 -> Z.abs n < 2 ^ 53 -> Z.abs z < 2 ^ 53 ->
  exists st', applyAction env a st res = (Ok res, st') /\
    forall y, readVar st' y = if bool_decide (y = x) then Itoa z else readVar st y.
Proof.
  intros Hx Hm Hn Ht Bm Bn Bz. exists (refresh (writeVar x (Itoa z) st)).
  split; [|intros y; by rewrite readVar_refresh, readVar_writeVar].
  assert ((let? current := parseActionFloat (readVar st (firstAssignTarget (a_AssignTo a))) in
           let? operand := actionNumericOperand env a st in
           let? value := applyArithmeticAction (a_Type a) current operand in
           Ok (formatActionFloat value)) = Ok (Itoa z)) as Hz.
  { rewrite Hx. cbn [firstAssignTarget]. rewrite Hm, parseActionFloat_Itoa by done. cbn [rbind].
    unfold actionNumericOperand. rewrite Hn. cbn [rbind]. rewrite parseActionFloat_Itoa by done. cbn [rbind].
    destruct Ht as [[-> ->]|[-> ->]]; cbn [applyArithmeticAction rbind]; unfold formatActionFloat;
      rewrite ?fadd_int, ?fsub_int by done; by rewrite FormatFloat_int. }
  unfold applyAction. cbv zeta. destruct Ht as [[E _]|[E _]]; rewrite E in *; rewrite Hz, Hx; done.
Qed.

Definition blank_action (t : ActionType) : Action :=
  mkAction t [] [] [] [] [] [] false false [] [] [] [] [] [] [] [] [] [] [] [] [] [] [] [] [] [] [].

(** [<add assign_to="n" variable="d"/>] *)
Definition sample_add : Action :=
  mkAction ActionAdd [] [] [] (lit "d") [] [lit "n"] false false [] [] [] [] [] [] [] [] [] [] [] [] [] [] [] [] [] [] [].

Definition blank_env : action_env :=
  mkActionEnv (mkTmplEnv (fun _ => None) (fun _ _ => None) (fun _ => None) [] []) (fun _ => None)
    (fun _ _ => true) (0, 0) (fun _ _ => O) false false.

Definition blank_context : Context :=
  mkContext [] (lit "u1") [] [] 5060 [] [] [] 5060 [] [] 6000 [] [] (lit "c1") 1 1 0 1 0 0
    [] [] [] 0 [] 0 0 ∅ ∅ ∅ [] [].

Definition sample_state : act_state :=
  writeVar (lit "d") (Itoa 5) (writeVar (lit "n") (Itoa 41) (mkActState (newVarStore [] [] 0) newScopedVars blank_context)).

Lemma counter_actions_exact_witness :
  exists st', applyAction blank_env sample_add sample_state noResult = (Ok noResult, st') /\
    forall y, readVar st' y = if bool_decide (y = lit "n") then Itoa 46 else readVar sample_state y.
Proof.
  apply (counter_actions_exact blank_env sample_add sample_state noResult (lit "n") 41 5 46).
  - reflexivity.
  - vm_compute. reflexivity.
  - vm_compute. reflexivity.
  - left. split; reflexivity.
  - vm_compute. reflexivity.
  - vm_compute. reflexivity.
  - vm_compute. reflexivity.
Defined.

(** The [test] action compares integers as integers, whatever spelling of
    the operator is used, although the code compares floats. *)
Theorem test_action_integers env a st res x m n :
  a_Type a = ActionTest -> a_AssignTo a = [x] ->
  readVar st (a_Variable a) = Itoa m -> resolveActionOperand env a st = Ok (Itoa n) ->
  Z.abs m < 2 ^ 53 -> Z.abs n < 2 ^ 53 ->
  exists st', applyAction env a st res = (Ok res, st')
    /\ readVar st' x = (if match relop_of (a_Compare a) with
                           | OpEq => m =? n
                           | OpNe => negb (m =? n)
                           | OpGt => n <? m
                           | OpLt => m <? n
                           | OpGe => n <=? m
                           | OpLe => m <=? n
                           end then lit "1" else lit "0").
Proof.
  intros Ht Hx Hm Hn Bm Bn. unfold applyAction. cbv zeta. rewrite Ht, Hx, Hm, Hn. cbn [rbind].
  rewrite compareValues_int by done. eexists. split; [done|].
  cbn [assignActionValue foldl]. rewrite readVar_refresh. unfold assignActionValue. cbn [foldl].
  by rewrite readVar_writeVar, bool_decide_true.
Qed.

(** [<test assign_to="r" variable="n" variable2="d" compare="GT"/>] *)
Definition sample_test : Action :=
  mkAction ActionTest [] [] [] (lit "n") (lit "d") [lit "r"] false false [] (lit "GT")
    [] [] [] [] [] [] [] [] [] [] [] [] [] [] [] [] [].

Lemma test_action_integers_witness :
  exists st', applyAction blank_env sample_test sample_state noResult = (Ok noResult, st')
    /\ readVar st' (lit "r") = lit "1".
Proof.
  apply (test_action_integers blank_env sample_test sample_state noResult (lit "r") 41 5);
    vm_compute; reflexivity.
Defined.

(** The values [sample] chooses from are exactly the arithmetic
    progression from [min] to [max], for any bounds an int64 can hold and
    without overflow, as long as there are at most a million of them; a
    larger set is refused. *)
Theorem sample_values_progression spec :
  int64_min <= sp_min spec <= sp_max spec -> sp_max spec <= int64_max -> 0 < sp_step spec <= int64_max ->
  let n := (sp_max spec - sp_min spec) / sp_step spec + 1 in
  buildSampleValues spec =
    if n <=? maxValues
    then Ok (map (fun i => sp_min spec + Z.of_nat i * sp_step spec) (seq 0 (Z.to_nat n)))
    else Err ErrSampleTooLarge.
Proof.
  intros Hm HM Hs n. unfold buildSampleValues.
  pose proof (Z.div_pos (sp_max spec - sp_min spec) (sp_step spec) ltac:(lia) ltac:(lia)) as Hq.
  destruct (Z.leb_spec n maxValues) as [Hle|Hgt]; unfold n in *.
  - apply sample_loop_spec; lia.
  - apply sample_loop_too_large; unfold maxValues in *; lia.
Qed.

Lemma sample_values_progression_witness :
  buildSampleValues (mkSampleSpec (-3) 4 3 None) = Ok [-3; 0; 3].
Proof.
  rewrite (sample_values_progression (mkSampleSpec (-3) 4 3 None)); vm_compute; done.
Defined.

(** [urldecode] undoes [urlencode]: running both on a variable succeeds and
    leaves every variable as it was. *)
Theorem url_actions_roundtrip env v rest st res enc dec :
  a_Type enc = ActionURLEncode -> a_Variable enc = v ->
  a_Type dec = ActionURLDecode -> a_Variable dec = v ->
  exists st', run_actions env (enc :: dec :: rest) st res = run_actions env rest st' res
    /\ forall y, readVar st' y = readVar st y.
Proof.
  intros Te <- Td Hv. cbn [run_actions].
  assert (applyAction env enc st res
          = (Ok res, refresh (writeVar (a_Variable enc) (QueryEscape (readVar st (a_Variable enc))) st))) as ->.
  { unfold applyAction. by rewrite Te. }
  set (st1 := refresh _).
  assert (readVar st1 (a_Variable enc) = QueryEscape (readVar st (a_Variable enc))) as E1.
  { unfold st1. by rewrite readVar_refresh, readVar_writeVar, bool_decide_true. }
  exists (refresh (writeVar (a_Variable enc) (readVar st (a_Variable enc)) st1)). split.
  - assert (applyAction env dec st1 res
            = (Ok res, refresh (writeVar (a_Variable enc) (readVar st (a_Variable enc)) st1))) as ->; [|done].
    unfold applyAction. rewrite Td, Hv, E1, QueryUnescape_Escape. done.
  - intros y. rewrite readVar_refresh, readVar_writeVar. case_bool_decide as Hy; [by subst y|].
    unfold st1. by rewrite readVar_refresh, readVar_writeVar, bool_decide_false.
Qed.

Definition sample_url (t : ActionType) : Action :=
  mkAction t [] [] [] (lit "n") [] [] false false [] [] [] [] [] [] [] [] [] [] [] [] [] [] [] [] [] [] [].

Lemma url_actions_roundtrip_witness :
  exists st', run_actions blank_env [sample_url ActionURLEncode; sample_url ActionURLDecode] sample_state noResult
              = run_actions blank_env [] st' noResult
    /\ forall y, readVar st' y = readVar sample_state y.
Proof.
  apply (url_actions_roundtrip blank_env (lit "n") [] sample_state noResult); reflexivity.
Defined.

(** What a list of actions hands to the call loop is safe to use: a jump
    target is never negative, and a new destination has a valid port and a
    trimmed host and protocol. *)
Theorem action_results_valid env actions st res st' :
  applyActions env actions st = (Ok res, st') -> result_ok res.
Proof.
  unfold applyActions. apply run_actions_ok. split; done.
Qed.

Lemma action_results_valid_witness :
  exists st', applyActions blank_env [sample_add] sample_state = (Ok noResult, st') /\ result_ok noResult.
Proof.
  destruct (applyActions blank_env [sample_add] sample_state) as [[r|e] st'] eqn:E.
  - assert (r = noResult) as ->.
    { assert ((applyActions blank_env [sample_add] sample_state).1 = Ok noResult) as H by (vm_compute; reflexivity).
      rewrite E in H. by injection H. }
    exists st'. split; [done|]. exact (action_results_valid _ _ _ _ _ E).
  - assert (is_ok (applyActions blank_env [sample_add] sample_state).1 = true) as H by (vm_compute; reflexivity).
    by rewrite E in H.
Defined.
