(* ===== verification/Recv.v ===== *)
(** * Waiting for a SIP message ([waitForMatch] and its callbacks)

    [waitForMatch], [receiveWithPending] and the stash callback of [executeCall]
    in [internal/engine/engine.go].  A pooled [*sip.Message] is a message with an
    identity, so that what is returned to the pool can be counted.  The
    network, the clock and the context are a list of [tick]s, one per
    iteration of the loop. *)

From stdpp Require Import base list gmap strings.
From Stdlib Require Import ZArith Lia Strings.Byte.
From S2P Require Import Prelude GoStrings GoFloat SipMessage Scenario.

(** ** Data *)

Record pmsg := mkPmsg { pm_id : nat; pm_msg : Message }.

(** What the call remembers of the request it sent last, and the ACK kept for
    retransmitted answers. *)
Record txn := mkTxn {
  tx_lastSent : str;
  tx_branch : str;
  tx_method : str;
  tx_cseq : Z;
  tx_inviteACK : str;
  tx_inviteBranch : str
}.

Inductive recv_error :=
  | ErrOptionalMismatch                   (* errOptionalRecvMismatch *)
  | ErrUnexpectedToMain                   (* errUnexpectedToMain *)
  | ErrUnexpectedFinal (code : Z)         (* errUnexpectedFinalAbort *)
  | ErrDeadline                           (* context.DeadlineExceeded *)
  | ErrCanceled                           (* context.Canceled *)
  | ErrTransport                          (* any other receive error *)
  | ErrSendFailed.

(** What one receive on the network returns. *)
Inductive net_event :=
  | NetMsg (m : pmsg)
  | NetDeadline
  | NetCanceled
  | NetError.

(** One iteration: whether the deadline has passed at its start, what the
    network would deliver, and, after an error, whether the deadline is still
    ahead, the call's context is done and a retransmission can be sent. *)
Record rtick := mkRtick {
  rt_late : bool;
  rt_net : net_event;
  rt_before : bool;
  rt_ctxDone : bool;
  rt_sendOk : bool
}.

(** What the loop changes: the stashed messages, what was sent, the messages
    given back to the pool, whether something unexpected was seen, the copy
    kept for the [_unexp.main] handler, whether a final response was seen and
    the number of retransmissions. *)
Record recv_state := mkRecvState {
  rs_pending : list pmsg;
  rs_sent : list str;
  rs_freed : list nat;
  rs_saw : bool;
  rs_unexpected : option Message;
  rs_final : bool;
  rs_retransmits : nat
}.

Definition withPending (p : list pmsg) (s : recv_state) : recv_state :=
  mkRecvState p (rs_sent s) (rs_freed s) (rs_saw s) (rs_unexpected s) (rs_final s) (rs_retransmits s).
Definition withSent (x : str) (s : recv_state) : recv_state :=
  mkRecvState (rs_pending s) (rs_sent s ++ [x]) (rs_freed s) (rs_saw s) (rs_unexpected s) (rs_final s) (rs_retransmits s).
(** [sip.PutMessage(m)] *)
Definition freeMsg (m : pmsg) (s : recv_state) : recv_state :=
  mkRecvState (rs_pending s) (rs_sent s) (pm_id m :: rs_freed s) (rs_saw s) (rs_unexpected s) (rs_final s) (rs_retransmits s).
Definition withSaw (s : recv_state) : recv_state :=
  mkRecvState (rs_pending s) (rs_sent s) (rs_freed s) true (rs_unexpected s) (rs_final s) (rs_retransmits s).
Definition withUnexpected (m : Message) (s : recv_state) : recv_state :=
  mkRecvState (rs_pending s) (rs_sent s) (rs_freed s) (rs_saw s) (Some m) (rs_final s) (rs_retransmits s).
Definition withFinal (s : recv_state) : recv_state :=
  mkRecvState (rs_pending s) (rs_sent s) (rs_freed s) (rs_saw s) (rs_unexpected s) true (rs_retransmits s).
Definition withRetransmit (s : recv_state) : recv_state :=
  mkRecvState (rs_pending s) (rs_sent s) (rs_freed s) (rs_saw s) (rs_unexpected s) (rs_final s) (S (rs_retransmits s)).

Section Recv.

(** [MatchString] of the compiled pattern on a start line. *)
Context (regexMatch : str -> str -> bool).
Context (cmd : Command) (tx : txn).
(** Position of the [_unexp.main] label, if the scenario has one. *)
Context (unexpMain : option Z).

(** The filter of the current recv command. *)
Definition msgMatches (m : Message) : bool :=
  match c_RegexpMatch cmd, c_RecvReqRegex cmd with
  | true, Some re => regexMatch re (StartLine m)
  | _, _ => MatchRecvCached m (c_RecvReq cmd) (c_RecvResp cmd) (tx_cseq tx) (tx_method tx)
  end.

(** Branch and method of the last request sent (RFC 3261, 17.1.3). *)
Definition inTransaction (m : Message) : bool := ResponseMatchesCached m (tx_branch tx) (tx_method tx).

(** ** [receiveWithPending] *)

(** The first stashed message that passes the filter, and the others. *)
Fixpoint takeMatching (pending : list pmsg) : option (pmsg * list pmsg) :=
  match pending with
  | [] => None
  | m :: rest =>
    if msgMatches (pm_msg m) then Some (m, rest)
    else match takeMatching rest with
         | Some (x, rest') => Some (x, m :: rest')
         | None => None
         end
  end.

Inductive received :=
  | GotMsg (m : pmsg) (fromPending : bool) (s : recv_state)
  | GotErr (e : recv_error) (s : recv_state).

Definition receiveNet (ev : net_event) (s : recv_state) : received :=
  match ev with
  | NetMsg m => GotMsg m false s
  | NetDeadline => GotErr ErrDeadline s
  | NetCanceled => GotErr ErrCanceled s
  | NetError => GotErr ErrTransport s
  end.

Definition receiveWithPending (ev : net_event) (s : recv_state) : received :=
  match rs_pending s with
  | [] => receiveNet ev s
  | m :: rest =>
    if c_Optional cmd then
      match takeMatching (rs_pending s) with
      | Some (x, rest') => GotMsg x true (withPending rest' s)
      | None =>
        if existsb (fun p => 200 <=? StatusCode (pm_msg p)) (rs_pending s)
        then GotErr ErrOptionalMismatch s
        else receiveNet ev s
      end
    else GotMsg m true (withPending rest s)
  end.

(** ** The stash callback *)

(** [notWaitingForBYE] *)
Definition notWaitingForBYE (m : Message) : bool :=
  match c_RegexpMatch cmd, c_RecvReqRegex cmd with
  | true, Some re => negb (regexMatch re (StartLine m))
  | _, _ => negb (bool_decide (c_RecvReq cmd = lit "BYE"))
  end.

(** The ACK is sent again for a retransmitted 200 of the INVITE. *)
Definition resendACK (m : Message) (s : recv_state) : recv_state :=
  if (StatusCode m =? 200) && negb (bool_decide (tx_inviteACK tx = [])) && negb (bool_decide (tx_inviteBranch tx = []))
  then match ViaBranch (Headers m) with
       | Some branch => if EqualFold branch (tx_inviteBranch tx) then withSent (tx_inviteACK tx) s else s
       | None => s
       end
  else s.

Definition isUnexpectedBYE (m : Message) : bool :=
  bool_decide (Method m = lit "BYE") && (StatusCode m =? 0) && notWaitingForBYE m.

(** A message that came from the stash and did not match. *)
Definition stashPending (p : pmsg) (s : recv_state) : option recv_error * recv_state :=
  let m := pm_msg p in
  if c_Optional cmd then (None, withPending (rs_pending s ++ [p]) s)
  else if (0 <? StatusCode m) && negb (inTransaction m) then (None, resendACK m s)
  else if (200 <=? StatusCode m) && bool_decide (unexpMain = None) && inTransaction m
  then (Some (ErrUnexpectedFinal (StatusCode m)), withSaw s)
  else (None, s).

(** A message that came from the network and did not match. *)
Definition stashNetwork (p : pmsg) (s : recv_state) : option recv_error * recv_state :=
  let m := pm_msg p in
  if (0 <? StatusCode m) && negb (inTransaction m) then (None, freeMsg p (resendACK m s))
  else if (0 <? StatusCode m) && (StatusCode m <? 200) && inTransaction m then (None, freeMsg p s)
  else
    let s := if c_Optional cmd then s else withSaw s in
    if bool_decide (is_Some unexpMain) && bool_decide (rs_unexpected s = None)
    then (Some ErrUnexpectedToMain, withUnexpected (Copy m) s)
    else if negb (c_Optional cmd) && (200 <=? StatusCode m) && inTransaction m
    then (Some (ErrUnexpectedFinal (StatusCode m)), s)
    else (None, withPending (rs_pending s ++ [p]) s).

Definition stash (p : pmsg) (fromPending : bool) (s : recv_state) : option recv_error * recv_state :=
  if isUnexpectedBYE (pm_msg p) then
    let s := withSent (BuildResponse (pm_msg p) 200 (lit "OK")) s in
    (None, if fromPending then s else freeMsg p s)
  else if fromPending then stashPending p s
  else stashNetwork p s.

(** ** [waitForMatch] *)

Inductive wait_outcome :=
  | Matched (m : pmsg) (s : recv_state)
  | Failed (e : recv_error) (s : recv_state)
  | Waiting (s : recv_state).

(** After a message that did not match was stashed. *)
Definition afterStash (p : pmsg) (fromPending : bool) (s : recv_state) : recv_state :=
  let s := if (200 <=? StatusCode (pm_msg p)) && inTransaction (pm_msg p) then withFinal s else s in
  if c_Optional cmd then s else if fromPending then freeMsg p s else s.

Fixpoint waitForMatch (retrans : Z) (ticks : list rtick) (s : recv_state) : wait_outcome :=
  match ticks with
  | [] => Waiting s
  | t :: ticks' =>
    if rt_late t then Failed ErrDeadline s
    else match receiveWithPending (rt_net t) s with
    | GotMsg m fromPending s1 =>
      if msgMatches (pm_msg m) then Matched m s1
      else match stash m fromPending s1 with
           | (Some e, s2) => Failed e (freeMsg m s2)
           | (None, s2) =>
             let s3 := afterStash m fromPending s2 in
             if c_Optional cmd then Failed ErrOptionalMismatch s3 else waitForMatch retrans ticks' s3
           end
    | GotErr e s1 =>
      match e with
      | ErrDeadline =>
        if (0 <? retrans) && negb (rs_final s1) && negb (bool_decide (tx_lastSent tx = []))
           && rt_before t && negb (rt_ctxDone t)
        then if rt_sendOk t then waitForMatch retrans ticks' (withRetransmit (withSent (tx_lastSent tx) s1))
             else Failed ErrSendFailed s1
        else Failed e s1
      | _ => Failed e s1
      end
    end
  end.

End Recv.

(** * Lemmas *)

(** The messages a state accounts for: stashed or given back. *)
Definition owned (s : recv_state) : list nat := map pm_id (rs_pending s) ++ rs_freed s.

Definition owned_out (o : wait_outcome) : list nat :=
  match o with
  | Matched m s => pm_id m :: owned s
  | Failed _ s | Waiting s => owned s
  end.

Definition net_id (t : rtick) : option nat :=
  match rt_net t with NetMsg m => Some (pm_id m) | _ => None end.

Section RecvFacts.

Context (regexMatch : str -> str -> bool) (cmd : Command) (tx : txn) (unexpMain : option Z).

Abbreviation matches := (msgMatches regexMatch cmd tx).

Lemma takeMatching_spec pending x rest : takeMatching regexMatch cmd tx pending = Some (x, rest) ->
  matches (pm_msg x) = true /\ pending ≡ₚ x :: rest.
Proof.
  revert rest. induction pending as [|m pending IH]; intros rest; [done|]. cbn [takeMatching].
  destruct (matches (pm_msg m)) eqn:E; [by intros [= -> ->]|].
  destruct (takeMatching regexMatch cmd tx pending) as [[y r]|]; [|done]. intros [= <- <-].
  destruct (IH r eq_refl) as [Hm Hp]. split; [done|]. rewrite Hp. constructor.
Qed.

Lemma resendACK_owned m s : owned (resendACK tx m s) = owned s.
Proof. unfold resendACK. by repeat case_match. Qed.

Lemma resendACK_pending m s : rs_pending (resendACK tx m s) = rs_pending s.
Proof. unfold resendACK. by repeat case_match. Qed.

Lemma owned_free p s : owned (freeMsg p s) ≡ₚ pm_id p :: owned s.
Proof. unfold owned. simpl. symmetry. apply Permutation_middle. Qed.

Lemma owned_stash p s : owned (withPending (rs_pending s ++ [p]) s) ≡ₚ pm_id p :: owned s.
Proof. unfold owned. simpl. rewrite map_app. simpl. rewrite <- app_assoc. symmetry. apply Permutation_middle. Qed.

Lemma stash_pending_owned p s e s' : c_Optional cmd = false ->
  stash regexMatch cmd tx unexpMain p true s = (e, s') -> owned s' = owned s.
Proof.
  intros Ho. unfold stash, stashPending. rewrite Ho. destruct (isUnexpectedBYE _ _ _); [by intros [= <- <-]|].
  repeat case_match; intros [= <- <-]; try done. apply resendACK_owned.
Qed.

Lemma stash_network_owned p s e s' :
  stash regexMatch cmd tx unexpMain p false s = (e, s') ->
  match e with
  | Some _ => owned s' = owned s
  | None => owned s' ≡ₚ pm_id p :: owned s
  end.
Proof.
  unfold stash, stashNetwork. destruct (isUnexpectedBYE _ _ _).
  { intros [= <- <-]. rewrite owned_free. done. }
  destruct ((0 <? _) && negb _). { intros [= <- <-]. by rewrite owned_free, resendACK_owned. }
  destruct (_ && _ && _). { intros [= <- <-]. apply owned_free. }
  destruct (c_Optional cmd); cbv zeta.
  - destruct (_ && _); [by intros [= <- <-]|]. destruct (_ && _); [by intros [= <- <-]|].
    intros [= <- <-]. apply owned_stash.
  - destruct (_ && _); [by intros [= <- <-]|]. destruct (_ && _ && _); [by intros [= <- <-]|].
    intros [= <- <-]. apply (owned_stash p (withSaw s)).
Qed.

Lemma afterStash_owned_opt p fp s : c_Optional cmd = true -> owned (afterStash cmd tx p fp s) = owned s.
Proof. intros Ho. unfold afterStash. rewrite Ho. by case_match. Qed.

Lemma afterStash_owned p fp s : c_Optional cmd = false ->
  owned (afterStash cmd tx p fp s) ≡ₚ (if fp : bool then [pm_id p] else []) ++ owned s.
Proof.
  intros Ho. unfold afterStash. rewrite Ho.
  destruct fp; [rewrite owned_free; simpl; constructor; by case_match|]. by case_match.
Qed.

(** What a receive hands over, in terms of ownership. *)
Lemma receive_owned t s :
  match receiveWithPending regexMatch cmd tx (rt_net t) s with
  | GotMsg m true s1 => owned s ≡ₚ pm_id m :: owned s1 /\ (c_Optional cmd = true -> matches (pm_msg m) = true)
  | GotMsg m false s1 => s1 = s /\ net_id t = Some (pm_id m)
  | GotErr _ s1 => s1 = s
  end.
Proof.
  unfold receiveWithPending, net_id.
  assert (match receiveNet (rt_net t) s with
          | GotMsg m true s1 => owned s ≡ₚ pm_id m :: owned s1 /\ (c_Optional cmd = true -> matches (pm_msg m) = true)
          | GotMsg m false s1 => s1 = s /\ match rt_net t with NetMsg m => Some (pm_id m) | _ => None end = Some (pm_id m)
          | GotErr _ s1 => s1 = s
          end) as Hn by (unfold receiveNet; by destruct (rt_net t)).
  destruct (rs_pending s) as [|m rest] eqn:Ep; [done|].
  destruct (c_Optional cmd) eqn:Eo.
  - rewrite <- Ep. destruct (takeMatching _ _ _ (rs_pending s)) as [[x rest']|] eqn:Et.
    + apply takeMatching_spec in Et as [Hm Hp]. split; [|done]. unfold owned. simpl. by rewrite Hp.
    + destruct (existsb _ _); [done|]. done.
  - split; [|done]. unfold owned. simpl. by rewrite Ep.
Qed.

Lemma wait_owned retrans ticks s :
  exists used, used ⊆+ omap net_id ticks
    /\ owned_out (waitForMatch regexMatch cmd tx unexpMain retrans ticks s) ≡ₚ owned s ++ used.
Proof.
  revert s. induction ticks as [|t ticks IH]; intros s; cbn [waitForMatch].
  { exists []. split; [done|]. by rewrite app_nil_r. }
  assert (forall s', owned s' ≡ₚ owned s -> exists used, used ⊆+ omap net_id (t :: ticks) /\ owned s' ≡ₚ owned s ++ used) as Hstay.
  { intros s' Hs. exists []. split; [apply submseteq_nil_l|]. by rewrite app_nil_r. }
  assert (forall s', owned s' ≡ₚ owned s ->
    exists used, used ⊆+ omap net_id (t :: ticks)
      /\ owned_out (waitForMatch regexMatch cmd tx unexpMain retrans ticks s') ≡ₚ owned s ++ used) as Hgo.
  { intros s' Hs. destruct (IH s') as (used & Hu & Ho). exists used. split; [|by rewrite Ho, Hs].
    cbn. destruct (net_id t); [by apply submseteq_cons|exact Hu]. }
  destruct (rt_late t); [by apply Hstay|].
  pose proof (receive_owned t s) as Hr.
  destruct (receiveWithPending regexMatch cmd tx (rt_net t) s) as [m [] s1|e s1].
  - destruct Hr as [Hown Hopt]. destruct (matches (pm_msg m)) eqn:Em.
    { apply (Hstay (mkRecvState (m :: rs_pending s1) (rs_sent s1) (rs_freed s1) (rs_saw s1)
        (rs_unexpected s1) (rs_final s1) (rs_retransmits s1))). by rewrite Hown. }
    destruct (c_Optional cmd) eqn:Eo; [by discriminate (Hopt eq_refl)|].
    destruct (stash regexMatch cmd tx unexpMain m true s1) as [[e|] s2] eqn:Es;
      apply stash_pending_owned in Es; [|done| |done].
    + apply Hstay. by rewrite owned_free, Es, Hown.
    + apply Hgo. rewrite afterStash_owned by done. simpl. by rewrite Es, Hown.
  - destruct Hr as [-> Hid].
    assert (forall l l' : list nat, l ⊆+ l' -> pm_id m :: l ⊆+ pm_id m :: l') as Hc by (intros; by apply submseteq_skip).
    destruct (matches (pm_msg m)).
    { exists [pm_id m]. split; [cbn; rewrite Hid; apply Hc, submseteq_nil_l|]. cbn [owned_out]. by rewrite Permutation_app_comm. }
    destruct (stash regexMatch cmd tx unexpMain m false s) as [[e|] s2] eqn:Es; apply stash_network_owned in Es.
    + exists [pm_id m]. split; [cbn; rewrite Hid; apply Hc, submseteq_nil_l|]. cbn [owned_out].
      rewrite owned_free, Es. by rewrite Permutation_app_comm.
    + destruct (c_Optional cmd) eqn:Eo.
      * exists [pm_id m]. split; [cbn; rewrite Hid; apply Hc, submseteq_nil_l|]. cbn [owned_out].
        rewrite afterStash_owned_opt, Es by done. by rewrite Permutation_app_comm.
      * destruct (IH (afterStash cmd tx m false s2)) as (used & Hu & Ho).
        exists (pm_id m :: used). split; [cbn; rewrite Hid; by apply Hc|].
        rewrite Ho, afterStash_owned, Es by done. simpl. by rewrite Permutation_middle.
  - subst s1. destruct e; try (by apply Hstay). repeat case_match; by apply Hstay || by apply Hgo.
Qed.

(** ** Termination and what is returned *)

Lemma wait_not_waiting retrans ticks s :
  Exists (fun t => rt_late t = true) ticks ->
  forall s', waitForMatch regexMatch cmd tx unexpMain retrans ticks s <> Waiting s'.
Proof.
  intros Hl. revert s. induction ticks as [|t ticks IH]; intros s s'; [by apply Exists_nil in Hl|].
  cbn [waitForMatch]. destruct (rt_late t) eqn:El; [done|].
  assert (forall s s', waitForMatch regexMatch cmd tx unexpMain retrans ticks s <> Waiting s') as Hrec.
  { apply IH. apply Exists_cons in Hl as [Hl|Hl]; [congruence|done]. }
  destruct (receiveWithPending _ _ _ _ _) as [m fp s1|e s1].
  - destruct (matches (pm_msg m)); [done|]. destruct (stash _ _ _ _ _ _ _) as [[e|] s2]; [done|].
    cbv zeta. by destruct (c_Optional cmd).
  - destruct e; try done. repeat case_match; done.
Qed.

Lemma wait_matched retrans ticks s m s' :
  waitForMatch regexMatch cmd tx unexpMain retrans ticks s = Matched m s' -> matches (pm_msg m) = true.
Proof.
  revert s. induction ticks as [|t ticks IH]; intros s; [done|]. cbn [waitForMatch].
  destruct (rt_late t); [done|].
  destruct (receiveWithPending _ _ _ _ _) as [x fp s1|e s1].
  - destruct (matches (pm_msg x)) eqn:E; [by intros [= -> _]|].
    destruct (stash _ _ _ _ _ _ _) as [[e|] s2]; [done|]. cbv zeta.
    destruct (c_Optional cmd); [done|]. apply IH.
  - destruct e; try done. repeat case_match; try done; apply IH.
Qed.

(** ** Retransmissions *)

Definition out_state (o : wait_outcome) : recv_state :=
  match o with Matched _ s | Failed _ s | Waiting s => s end.

Lemma receive_final t s m fp s1 :
  receiveWithPending regexMatch cmd tx (rt_net t) s = GotMsg m fp s1 ->
  rs_final s1 = rs_final s /\ rs_retransmits s1 = rs_retransmits s.
Proof.
  unfold receiveWithPending, receiveNet. intros H. repeat case_match; simplify_eq; done.
Qed.

Lemma receive_final_err t s e s1 :
  receiveWithPending regexMatch cmd tx (rt_net t) s = GotErr e s1 -> s1 = s.
Proof. pose proof (receive_owned t s) as H. intros E. by rewrite E in H. Qed.

Lemma resendACK_final m s :
  rs_final (resendACK tx m s) = rs_final s /\ rs_retransmits (resendACK tx m s) = rs_retransmits s.
Proof. unfold resendACK. by repeat case_match. Qed.

Lemma stash_final p fp s :
  let s' := (stash regexMatch cmd tx unexpMain p fp s).2 in
  rs_final s' = rs_final s /\ rs_retransmits s' = rs_retransmits s.
Proof.
  pose proof (resendACK_final (pm_msg p) s). unfold stash, stashPending, stashNetwork. cbv zeta.
  repeat case_match; simpl; done.
Qed.

Lemma afterStash_final p fp s : rs_final s = true -> rs_final (afterStash cmd tx p fp s) = true.
Proof. intros H. unfold afterStash. repeat case_match; done. Qed.

Lemma afterStash_retransmits p fp s : rs_retransmits (afterStash cmd tx p fp s) = rs_retransmits s.
Proof. unfold afterStash. repeat case_match; done. Qed.

Lemma wait_no_retransmit retrans ticks s :
  retrans <= 0 \/ rs_final s = true ->
  rs_retransmits (out_state (waitForMatch regexMatch cmd tx unexpMain retrans ticks s)) = rs_retransmits s.
Proof.
  revert s. induction ticks as [|t ticks IH]; intros s Hf; [done|]. cbn [waitForMatch].
  destruct (rt_late t); [done|].
  destruct (receiveWithPending regexMatch cmd tx (rt_net t) s) as [m fp s1|e s1] eqn:Er.
  - destruct (receive_final _ _ _ _ _ Er) as [F1 R1]. destruct (matches (pm_msg m)); [by simpl|].
    pose proof (stash_final m fp s1) as Hs. cbv zeta in Hs.
    destruct (stash regexMatch cmd tx unexpMain m fp s1) as [[e|] s2]; simpl in Hs; destruct Hs as [F2 R2].
    + simpl. by rewrite R2.
    + cbv zeta. destruct (c_Optional cmd); [simpl; by rewrite afterStash_retransmits, R2|].
      rewrite IH; [by rewrite afterStash_retransmits, R2|]. destruct Hf as [Hf|Hf]; [by left|right].
      apply afterStash_final. by rewrite F2, F1.
  - apply receive_final_err in Er as ->. destruct e; try done.
    assert ((0 <? retrans) && negb (rs_final s) = false) as ->; [|done].
    destruct Hf as [Hf|Hf]; [by rewrite (proj2 (Z.ltb_ge 0 retrans))|]. by rewrite Hf, andb_false_r.
Qed.

(** ** Steps on a message from the network *)

Lemma wait_network_msg retrans t ticks s p :
  rt_late t = false -> rt_net t = NetMsg p -> rs_pending s = [] -> matches (pm_msg p) = false ->
  c_Optional cmd = false -> isUnexpectedBYE regexMatch cmd (pm_msg p) = false ->
  waitForMatch regexMatch cmd tx unexpMain retrans (t :: ticks) s =
  match stashNetwork cmd tx unexpMain p s with
  | (Some e, s2) => Failed e (freeMsg p s2)
  | (None, s2) => waitForMatch regexMatch cmd tx unexpMain retrans ticks (afterStash cmd tx p false s2)
  end.
Proof.
  intros Hl Hn Hp Hm Ho Hb. cbn [waitForMatch]. rewrite Hl. unfold receiveWithPending. rewrite Hp, Hn.
  cbn [receiveNet]. rewrite Hm. unfold stash. rewrite Hb. cbv zeta. rewrite Ho. done.
Qed.

Lemma wait_pending_msg retrans t ticks s p rest :
  rt_late t = false -> rs_pending s = p :: rest -> matches (pm_msg p) = false ->
  c_Optional cmd = false -> isUnexpectedBYE regexMatch cmd (pm_msg p) = false ->
  waitForMatch regexMatch cmd tx unexpMain retrans (t :: ticks) s =
  match stashPending cmd tx unexpMain p (withPending rest s) with
  | (Some e, s2) => Failed e (freeMsg p s2)
  | (None, s2) => waitForMatch regexMatch cmd tx unexpMain retrans ticks (afterStash cmd tx p true s2)
  end.
Proof.
  intros Hl Hp Hm Ho Hb. cbn [waitForMatch]. rewrite Hl. unfold receiveWithPending. rewrite Hp, Ho.
  rewrite Hm. unfold stash. rewrite Hb. done.
Qed.

(** * Properties *)

(** Every pooled message has one owner.  Whatever arrives while a recv
    waits, each message taken from the stash or the network ends up exactly
    once as the one returned, in the stash, or given back to the pool: none
    is lost, none is given back twice, none is given back and still used. *)
Theorem recv_message_ownership retrans ticks s :
  NoDup (owned s ++ omap net_id ticks) ->
  let out := waitForMatch regexMatch cmd tx unexpMain retrans ticks s in
  NoDup (owned_out out)
  /\ exists used, used ⊆+ omap net_id ticks /\ owned_out out ≡ₚ owned s ++ used.
Proof.
  intros Hnd out. destruct (wait_owned retrans ticks s) as (used & Hu & Ho). fold out in Ho.
  split; [|by exists used]. rewrite Ho.
  apply submseteq_Permutation in Hu as [rest Hu]. rewrite Hu, app_assoc in Hnd.
  by apply NoDup_app in Hnd as [? _].
Qed.

(** C9: A recv always comes to an end: once the clock passes its deadline the
    wait has returned, with a message or an error, however many messages
    arrived in between; and a message it returns passes the recv's filter. *)
Theorem recv_terminates retrans ticks s :
  Exists (fun t => rt_late t = true) ticks ->
  exists o, waitForMatch regexMatch cmd tx unexpMain retrans ticks s = o
  /\ match o with
     | Matched m _ => msgMatches regexMatch cmd tx (pm_msg m) = true
     | Failed _ _ => True
     | Waiting _ => False
     end.
Proof.
  intros Hl. eexists. split; [done|].
  destruct (waitForMatch regexMatch cmd tx unexpMain retrans ticks s) as [m s'|e s'|s'] eqn:E; [|done|].
  - by eapply wait_matched.
  - by apply (wait_not_waiting retrans ticks s Hl s').
Qed.

(** Nothing is retransmitted once a final response of the transaction was
    seen, or on a transport without retransmissions. *)
Theorem no_retransmit_after_final retrans ticks s :
  retrans <= 0 \/ rs_final s = true ->
  rs_retransmits (out_state (waitForMatch regexMatch cmd tx unexpMain retrans ticks s)) = rs_retransmits s.
Proof. apply wait_no_retransmit. Qed.

(** Responses of earlier transactions never end a mandatory recv: one whose
    branch or method is not that of the last request is given back to the
    pool and the wait goes on, after the stored ACK was sent again exactly
    when it is a 200 to the INVITE. *)
Theorem stale_response_ignored retrans t ticks s p :
  rt_late t = false -> rt_net t = NetMsg p -> rs_pending s = [] ->
  msgMatches regexMatch cmd tx (pm_msg p) = false -> c_Optional cmd = false ->
  0 < StatusCode (pm_msg p) -> inTransaction tx (pm_msg p) = false ->
  waitForMatch regexMatch cmd tx unexpMain retrans (t :: ticks) s
  = waitForMatch regexMatch cmd tx unexpMain retrans ticks (freeMsg p (resendACK tx (pm_msg p) s)).
Proof.
  intros Hl Hn Hp Hm Ho Hs Ht. rewrite (wait_network_msg _ _ _ _ p) by (done || unfold isUnexpectedBYE;
    rewrite (proj2 (Z.eqb_neq (StatusCode (pm_msg p)) 0)) by lia; by rewrite andb_false_r).
  unfold stashNetwork. cbv zeta. rewrite (proj2 (Z.ltb_lt 0 _) Hs), Ht. cbn [negb andb].
  unfold afterStash. by rewrite Ht, andb_false_r, Ho.
Qed.


(** With an [_unexp.main] handler in the scenario, the same response does
    not reach the handler when it was stashed by an earlier optional recv: it
    is given back to the pool and the recv keeps waiting. *)
Theorem stashed_final_skips_handler retrans t ticks s p rest main :
  unexpMain = Some main -> rt_late t = false -> rs_pending s = p :: rest ->
  msgMatches regexMatch cmd tx (pm_msg p) = false -> c_Optional cmd = false ->
  200 <= StatusCode (pm_msg p) -> inTransaction tx (pm_msg p) = true ->
  waitForMatch regexMatch cmd tx unexpMain retrans (t :: ticks) s
  = waitForMatch regexMatch cmd tx unexpMain retrans ticks (freeMsg p (withFinal (withPending rest s))).
Proof.
  intros Hu Hl Hp Hm Ho Hs Ht.
  rewrite (wait_pending_msg _ _ _ _ p rest) by (done || unfold isUnexpectedBYE;
    rewrite (proj2 (Z.eqb_neq (StatusCode (pm_msg p)) 0)) by lia; by rewrite andb_false_r).
  unfold stashPending. cbv zeta. rewrite Ht, Ho, Hu. rewrite (bool_decide_false (Some main = None)) by done.
  rewrite !andb_false_r. cbn [andb]. unfold afterStash. by rewrite Ht, Ho, (proj2 (Z.leb_le 200 _) Hs).
Qed.

End RecvFacts.

(** ** Concrete runs *)

Definition sample_recv200 : Command :=
  mkCommand CommandRecv 0 [] [] [] [] [] (-1) [] fone [] false
    [] 0 [] (lit "200") false None false [] [] false 0 None [] false [].

Definition sample_txn : txn :=
  mkTxn (lit "BYE") (lit "z9B") (lit "BYE") 2 (lit "ACK") (lit "z9A").

Definition sample_response (code : Z) (branch cseq : string) : Message :=
  mkMessage [] [] [] code [] [(lit "Via", [lit "SIP/2.0/UDP h;branch=" ++ lit branch]); (lit "CSeq", [lit cseq])] [] [].

Definition no_regex : str -> str -> bool := fun _ _ => false.

Definition on_net (p : pmsg) : rtick := mkRtick false (NetMsg p) true false true.
Definition late_tick : rtick := mkRtick true NetDeadline false false true.
Definition quiet_tick : rtick := mkRtick false NetDeadline true false true.

Definition start_state (pending : list pmsg) : recv_state := mkRecvState pending [] [] false None false 0.

Definition stale_ok : pmsg := mkPmsg 1 (sample_response 200 "z9A" "1 INVITE").
Definition busy : pmsg := mkPmsg 2 (sample_response 486 "z9B" "2 BYE").

Lemma recv_message_ownership_witness :
  let out := waitForMatch no_regex sample_recv200 sample_txn None 500 [on_net stale_ok; quiet_tick; on_net busy]
               (start_state []) in
  NoDup (owned_out out)
  /\ exists used, used ⊆+ omap net_id [on_net stale_ok; quiet_tick; on_net busy]
     /\ owned_out out ≡ₚ owned (start_state []) ++ used.
Proof.
  apply (recv_message_ownership no_regex sample_recv200 sample_txn None 500
    [on_net stale_ok; quiet_tick; on_net busy] (start_state [])).
  apply (bool_decide_unpack _). vm_compute. reflexivity.
Defined.

Lemma recv_terminates_witness :
  exists o, waitForMatch no_regex sample_recv200 sample_txn None 500 [on_net stale_ok; late_tick] (start_state []) = o
  /\ match o with
     | Matched m _ => msgMatches no_regex sample_recv200 sample_txn (pm_msg m) = true
     | Failed _ _ => True
     | Waiting _ => False
     end.
Proof. apply recv_terminates. right. left. reflexivity. Defined.

Lemma no_retransmit_after_final_witness :
  rs_retransmits (out_state (waitForMatch no_regex sample_recv200 sample_txn None 500 [quiet_tick; quiet_tick]
    (withFinal (start_state [])))) = 0%nat.
Proof.
  apply (no_retransmit_after_final no_regex sample_recv200 sample_txn None 500 [quiet_tick; quiet_tick]
    (withFinal (start_state []))). right. reflexivity.
Defined.

Lemma stale_response_ignored_witness :
  waitForMatch no_regex sample_recv200 sample_txn None 500 [on_net stale_ok] (start_state [])
  = waitForMatch no_regex sample_recv200 sample_txn None 500 []
      (freeMsg stale_ok (resendACK sample_txn (pm_msg stale_ok) (start_state []))).
Proof.
  apply (stale_response_ignored no_regex sample_recv200 sample_txn None 500 (on_net stale_ok) [] (start_state []) stale_ok);
    vm_compute; reflexivity.
Defined.


Lemma stashed_final_skips_handler_witness :
  waitForMatch no_regex sample_recv200 sample_txn (Some 4) 500 [quiet_tick] (start_state [busy])
  = waitForMatch no_regex sample_recv200 sample_txn (Some 4) 500 []
      (freeMsg busy (withFinal (withPending [] (start_state [busy])))).
Proof.
  apply (stashed_final_skips_handler no_regex sample_recv200 sample_txn (Some 4) 500 quiet_tick [] (start_state [busy])
    busy [] 4); try (vm_compute; reflexivity).
  vm_compute. discriminate.
Defined.
