(* ===== verification/Call.v ===== *)
(** * Running one call ([executeCall] of [internal/engine/engine.go])

    The command loop of a call as a step function.  Everything the call cannot
    decide itself (time, the network, the random source, the outcome of
    sends, media and WebRTC) is a [step_input], one per executed command; what
    it does to the outside is a log of [call_event]s. *)

From stdpp Require Import base list gmap strings.
From Stdlib Require Import ZArith Lia Strings.Byte.
From S2P Require Import Prelude GoStrings GoFloat SipMessage Vars Scenario Template EngineText.
From S2P Require Import Auth Commands Actions Recv.

(** ** Data *)

Inductive call_event :=
  | EvSent (msg : str)
  | EvRetransmits (n : nat)
  | EvCounter (name : str)
  | EvDisplay (name : str)
  | EvRTD (name : str) (d : Z)
  | EvInviteLatency (d : Z)
  | EvTimeout
  | EvSleep (d : Z)
  | EvWait (timeout : Z)
  | EvCommand (eff : option (str * str)).   (* address and frame, or queued locally *)

Inductive call_error :=
  | CallAction (e : action_error)
  | CallSetDestUnsupported | CallSetDestProtocol | CallSetDestFailed
  | CallSleep
  | CallWebRTC
  | CallRender (e : render_error) | CallAuth (e : auth_error)
  | CallSend
  | CallCommand (e : command_error)
  | CallRecv (e : recv_error)
  | CallCommandWait (cancelled : bool).

Record call_config := mkCallConfig {
  cf_DefaultPause : Z;
  cf_DefaultRecvTO : Z;
  cf_RecvBYEFloorTO : Z;
  cf_commands : commandConfig;
  cf_AuthUsername : str;
  cf_AuthPassword : str;
  cf_transport : str;
  cf_callNumber : Z
}.

(** What the outside does during one iteration of the command loop. *)
Record step_input := mkInput {
  in_now : Z;                                    (* time.Now() when the command starts *)
  in_end : Z;                                    (* and when its statistics are recorded *)
  in_rng : rng;                                  (* for the pause sampler *)
  in_sleepOk : bool;                             (* sched.Sleep *)
  in_prepare : Context -> str -> option (gmap str str);   (* prepareWebRTCSendKeywords: the new ExtraKeywords *)
  in_random : nat -> option str;                 (* rand.Read, for the n-th credentials keyword *)
  in_clock : Z; in_dynamicID : Z;                (* clockTick, nextDynamicID *)
  in_pooled : Message;                           (* the message GetMessage hands out *)
  in_sendOk : bool;
  in_ticks : list rtick;                         (* waitForMatch *)
  in_cmdTicks : list tick;                       (* waitForCommand *)
  in_dial : str -> bool; in_write : str -> str -> bool;
  in_setDest : option (str -> Z -> option str);  (* setDestination, nil when not supported *)
  in_webrtc : str -> bool                        (* accept answer and trickle candidates *)
}.

Record call_state := mkCall {
  cs_index : Z;
  cs_act : act_state;
  cs_tx : txn;
  cs_lastRetrans : Z;
  cs_inviteStarted : option Z;
  cs_latencySet : bool;
  cs_pending : list pmsg;
  cs_freed : list nat;
  cs_held : list nat;                            (* returned by a recv, put back when the call ends *)
  cs_cmdKey : str;
  cs_rtd : gmap str Z;
  cs_rnd : frand;
  cs_saw : bool;
  cs_broker : commandBroker;
  cs_log : list call_event
}.

Definition cs_ctx (st : call_state) : Context := as_ctx (cs_act st).

(** ** Field updates *)

Definition withIndex (i : Z) (s : call_state) : call_state :=
  mkCall i (cs_act s) (cs_tx s) (cs_lastRetrans s) (cs_inviteStarted s) (cs_latencySet s) (cs_pending s)
    (cs_freed s) (cs_held s) (cs_cmdKey s) (cs_rtd s) (cs_rnd s) (cs_saw s) (cs_broker s) (cs_log s).
Definition withAct (a : act_state) (s : call_state) : call_state :=
  mkCall (cs_index s) a (cs_tx s) (cs_lastRetrans s) (cs_inviteStarted s) (cs_latencySet s) (cs_pending s)
    (cs_freed s) (cs_held s) (cs_cmdKey s) (cs_rtd s) (cs_rnd s) (cs_saw s) (cs_broker s) (cs_log s).
Definition withTx (t : txn) (retrans : Z) (started : option Z) (s : call_state) : call_state :=
  mkCall (cs_index s) (cs_act s) t retrans started (cs_latencySet s) (cs_pending s)
    (cs_freed s) (cs_held s) (cs_cmdKey s) (cs_rtd s) (cs_rnd s) (cs_saw s) (cs_broker s) (cs_log s).
Definition withLatencySet (s : call_state) : call_state :=
  mkCall (cs_index s) (cs_act s) (cs_tx s) (cs_lastRetrans s) (cs_inviteStarted s) true (cs_pending s)
    (cs_freed s) (cs_held s) (cs_cmdKey s) (cs_rtd s) (cs_rnd s) (cs_saw s) (cs_broker s) (cs_log s).
Definition withMessages (p : list pmsg) (f h : list nat) (saw : bool) (s : call_state) : call_state :=
  mkCall (cs_index s) (cs_act s) (cs_tx s) (cs_lastRetrans s) (cs_inviteStarted s) (cs_latencySet s) p
    f h (cs_cmdKey s) (cs_rtd s) (cs_rnd s) saw (cs_broker s) (cs_log s).
Definition withCommands (key : str) (b : commandBroker) (s : call_state) : call_state :=
  mkCall (cs_index s) (cs_act s) (cs_tx s) (cs_lastRetrans s) (cs_inviteStarted s) (cs_latencySet s) (cs_pending s)
    (cs_freed s) (cs_held s) key (cs_rtd s) (cs_rnd s) (cs_saw s) b (cs_log s).
Definition withRTD (m : gmap str Z) (s : call_state) : call_state :=
  mkCall (cs_index s) (cs_act s) (cs_tx s) (cs_lastRetrans s) (cs_inviteStarted s) (cs_latencySet s) (cs_pending s)
    (cs_freed s) (cs_held s) (cs_cmdKey s) m (cs_rnd s) (cs_saw s) (cs_broker s) (cs_log s).
Definition withRnd (r : frand) (s : call_state) : call_state :=
  mkCall (cs_index s) (cs_act s) (cs_tx s) (cs_lastRetrans s) (cs_inviteStarted s) (cs_latencySet s) (cs_pending s)
    (cs_freed s) (cs_held s) (cs_cmdKey s) (cs_rtd s) r (cs_saw s) (cs_broker s) (cs_log s).
Definition logEvents (evs : list call_event) (s : call_state) : call_state :=
  mkCall (cs_index s) (cs_act s) (cs_tx s) (cs_lastRetrans s) (cs_inviteStarted s) (cs_latencySet s) (cs_pending s)
    (cs_freed s) (cs_held s) (cs_cmdKey s) (cs_rtd s) (cs_rnd s) (cs_saw s) (cs_broker s) (cs_log s ++ evs).

(** Updates of the render context. *)
Definition onCtx (f : Context -> Context) (s : call_state) : call_state :=
  withAct (mkActState (as_vars (cs_act s)) (as_scopes (cs_act s)) (f (cs_ctx s))) s.

Definition setMessageIndex (i : Z) (c : Context) : Context :=
  mkContext (Service c) (Transport c) (RemoteHost c) (RemoteIP c) (RemotePort c)
    (LocalIP c) (ServerIP c) (LocalIPType c) (LocalPort c)
    (MediaIP c) (MediaIPType c) (MediaPort c) (IceUfrag c) (IcePwd c)
    (CallID c) (CSeq c) (CallNumber c) i (PID c) (Users c) (UserID c)
    (BranchBase c) (LastMessage c) (LastHeaders c) (BodyLength c)
    (SIPpVersion c) (ClockTick c) (DynamicID c)
    (ExtraKeywords c) (Variables c) (CSVFieldOverrides c) (BasePath c) (InjectionFile c).
Definition setBranch (b : str) (c : Context) : Context :=
  mkContext (Service c) (Transport c) (RemoteHost c) (RemoteIP c) (RemotePort c)
    (LocalIP c) (ServerIP c) (LocalIPType c) (LocalPort c)
    (MediaIP c) (MediaIPType c) (MediaPort c) (IceUfrag c) (IcePwd c)
    (CallID c) (CSeq c) (CallNumber c) (MessageIndex c) (PID c) (Users c) (UserID c)
    b (LastMessage c) (LastHeaders c) (BodyLength c)
    (SIPpVersion c) (ClockTick c) (DynamicID c)
    (ExtraKeywords c) (Variables c) (CSVFieldOverrides c) (BasePath c) (InjectionFile c).
Definition setLast (m : str) (h : headers) (c : Context) : Context :=
  mkContext (Service c) (Transport c) (RemoteHost c) (RemoteIP c) (RemotePort c)
    (LocalIP c) (ServerIP c) (LocalIPType c) (LocalPort c)
    (MediaIP c) (MediaIPType c) (MediaPort c) (IceUfrag c) (IcePwd c)
    (CallID c) (CSeq c) (CallNumber c) (MessageIndex c) (PID c) (Users c) (UserID c)
    (BranchBase c) m h (BodyLength c)
    (SIPpVersion c) (ClockTick c) (DynamicID c)
    (ExtraKeywords c) (Variables c) (CSVFieldOverrides c) (BasePath c) (InjectionFile c).
Definition setCallID (i : str) (c : Context) : Context :=
  mkContext (Service c) (Transport c) (RemoteHost c) (RemoteIP c) (RemotePort c)
    (LocalIP c) (ServerIP c) (LocalIPType c) (LocalPort c)
    (MediaIP c) (MediaIPType c) (MediaPort c) (IceUfrag c) (IcePwd c)
    i (CSeq c) (CallNumber c) (MessageIndex c) (PID c) (Users c) (UserID c)
    (BranchBase c) (LastMessage c) (LastHeaders c) (BodyLength c)
    (SIPpVersion c) (ClockTick c) (DynamicID c)
    (ExtraKeywords c) (Variables c) (CSVFieldOverrides c) (BasePath c) (InjectionFile c).
Definition setTicks (clock dyn : Z) (c : Context) : Context :=
  mkContext (Service c) (Transport c) (RemoteHost c) (RemoteIP c) (RemotePort c)
    (LocalIP c) (ServerIP c) (LocalIPType c) (LocalPort c)
    (MediaIP c) (MediaIPType c) (MediaPort c) (IceUfrag c) (IcePwd c)
    (CallID c) (CSeq c) (CallNumber c) (MessageIndex c) (PID c) (Users c) (UserID c)
    (BranchBase c) (LastMessage c) (LastHeaders c) (BodyLength c)
    (SIPpVersion c) clock dyn
    (ExtraKeywords c) (Variables c) (CSVFieldOverrides c) (BasePath c) (InjectionFile c).
Definition setExtra (m : gmap str str) (c : Context) : Context :=
  mkContext (Service c) (Transport c) (RemoteHost c) (RemoteIP c) (RemotePort c)
    (LocalIP c) (ServerIP c) (LocalIPType c) (LocalPort c)
    (MediaIP c) (MediaIPType c) (MediaPort c) (IceUfrag c) (IcePwd c)
    (CallID c) (CSeq c) (CallNumber c) (MessageIndex c) (PID c) (Users c) (UserID c)
    (BranchBase c) (LastMessage c) (LastHeaders c) (BodyLength c)
    (SIPpVersion c) (ClockTick c) (DynamicID c)
    m (Variables c) (CSVFieldOverrides c) (BasePath c) (InjectionFile c).
Definition setRemote (host ip : str) (port : Z) (c : Context) : Context :=
  mkContext (Service c) (Transport c) host ip port
    (LocalIP c) (ServerIP c) (LocalIPType c) (LocalPort c)
    (MediaIP c) (MediaIPType c) (MediaPort c) (IceUfrag c) (IcePwd c)
    (CallID c) (CSeq c) (CallNumber c) (MessageIndex c) (PID c) (Users c) (UserID c)
    (BranchBase c) (LastMessage c) (LastHeaders c) (BodyLength c)
    (SIPpVersion c) (ClockTick c) (DynamicID c)
    (ExtraKeywords c) (Variables c) (CSVFieldOverrides c) (BasePath c) (InjectionFile c).

(** ** Pieces of the loop *)

(** [randomBranch] *)
Definition randomBranch (callNumber messageIndex : Z) : str :=
  lit "z9hG4bK-gossip-" ++ Itoa callNumber ++ lit "-" ++ Itoa messageIndex.

(** [finishRTD]: the timer of that name, if it runs, is recorded and removed. *)
Definition finishRTD (name : str) (now : Z) (s : call_state) : call_state :=
  match TrimSpace name with
  | [] => s
  | name =>
    match cs_rtd s !! name with
    | None => s
    | Some started => withRTD (delete name (cs_rtd s)) (logEvents [EvRTD name (now - started)] s)
    end
  end.

Definition startRTD (name : str) (now : Z) (s : call_state) : call_state :=
  match TrimSpace name with
  | [] => s
  | name => withRTD (<[name := now]> (cs_rtd s)) s
  end.

(** [recordCommandStats] *)
Definition recordCommandStats (cmd : Command) (s : call_state) : call_state :=
  logEvents [EvCounter (c_Counter cmd); EvDisplay (c_Display cmd)] s.

(** [applySetDestination] *)
Definition applySetDestination (setDest : option (str -> Z -> option str)) (r : actionResult) (s : call_state)
    : result call_error call_state :=
  if negb (hasSetDestination r) then Ok s
  else match setDest with
  | None => Err CallSetDestUnsupported
  | Some setDestination =>
    if negb (bool_decide (setDestinationProto r = []))
       && negb (bool_decide (normalizeTransportForSetDest (setDestinationProto r)
                             = normalizeTransportForSetDest (Transport (cs_ctx s))))
    then Err CallSetDestProtocol
    else match setDestination (setDestinationHost r) (setDestinationPort r) with
         | None => Err CallSetDestFailed
         | Some ip =>
           let ip := match TrimSpace ip with [] => setDestinationHost r | _ => ip end in
           Ok (onCtx (setRemote (setDestinationHost r) ip (setDestinationPort r)) s)
         end
  end.

(** The timeout of a recv: Timer B of an unanswered INVITE is a lower bound. *)
Definition recvTimeout (cfg : call_config) (cmd : Command) (started : option Z) (latencySet : bool) (now : Z) : Z :=
  let t := effectiveSIPRecvTimeout cmd (cf_DefaultRecvTO cfg) (cf_RecvBYEFloorTO cfg) in
  match started with
  | Some at_ =>
    if negb (c_Optional cmd) && negb latencySet && (t <? sipTimerB - (now - at_))
    then sipTimerB - (now - at_) else t
  | None => t
  end.

(** Invite latency is recorded once, at the first 200. *)
Definition recordLatency (m : Message) (now : Z) (s : call_state) : call_state :=
  match cs_inviteStarted s with
  | Some started =>
    if negb (cs_latencySet s) && (StatusCode m =? 200)
    then withLatencySet (logEvents [EvInviteLatency (now - started)] s) else s
  | None => s
  end.

(** What is remembered of a message that was sent. *)
Definition rememberSent (pooled : Message) (message : str) (retrans now : Z) (s : call_state) : call_state :=
  let tx := cs_tx s in
  match ParseInto pooled message with
  | Err _ =>
    withTx (mkTxn message (tx_branch tx) (tx_method tx) (tx_cseq tx) (tx_inviteACK tx) (tx_inviteBranch tx))
      retrans (cs_inviteStarted s) s
  | Ok parsed =>
    let branch := match ViaBranch (Headers parsed) with Some b => b | None => tx_branch tx end in
    let '(num, meth) := match ParseCSeq (Headers parsed) with
                        | Some (n, m) => (n, TrimSpace m)
                        | None => (tx_cseq tx, tx_method tx)
                        end in
    if EqualFold (Method parsed) (lit "INVITE") then
      withTx (mkTxn message branch meth num (tx_inviteACK tx) branch) retrans (Some now) s
    else if EqualFold (Method parsed) (lit "ACK") && negb (bool_decide (tx_inviteBranch tx = [])) then
      withTx (mkTxn message branch meth num message (tx_inviteBranch tx)) retrans (cs_inviteStarted s) s
    else
      withTx (mkTxn message branch meth num (tx_inviteACK tx) (tx_inviteBranch tx)) retrans (cs_inviteStarted s) s
  end.

Inductive step_out :=
  | Next (s : call_state)
  | Finished (s : call_state)              (* the call ends successfully *)
  | CallFailed (e : call_error) (s : call_state)
  | Blocked (s : call_state)               (* still waiting when the input ends *)
  | StepPanic.

Section Exec.

Context (regexMatch : str -> str -> bool) (aenv : action_env).
(** [unicode.IsPrint] above ASCII. *)
Context (isPrint : Z -> bool).
Context (cfg : call_config) (sc : Scenario).

Definition authPlaceholder : str := lit "Authorization: pending".

Fixpoint authHeaders (random : nat -> option str) (n : nat) (provisional : str) (ctx : Context) (opts : list authOption)
    (m : gmap str str) : result auth_error (gmap str str) :=
  match opts with
  | [] => Ok m
  | o :: rest =>
    let? h := buildAuthHeader isPrint (cf_AuthUsername cfg) (cf_AuthPassword cfg) (random n) provisional (LastMessage ctx) o in
    authHeaders random (S n) provisional ctx rest (<[ao_tokenKey o := h]> m)
  end.

(** [renderSIPMessage] *)
Definition renderSIPMessage (raw : str) (random : nat -> option str) (clock dyn : Z) (ctx : Context)
    : outcome (result call_error str) :=
  let raw := normalizeSIPScenarioLineIndent raw in
  let ctx := setTicks clock dyn ctx in
  let render c := match RenderMessageStrict (ae_tmpl aenv) raw c with
                  | Ok s => Ok (ensureMessageTerminator s)
                  | Err e => Err (CallRender e)
                  end in
  match extractAuthKeywordOptions raw with
  | Panic => Panic
  | Ret [] => Ret (render ctx)
  | Ret options =>
    Ret (let? provisional := render (setExtra
           (foldl (fun m o => <[ao_tokenKey o := authPlaceholder]> m) (ExtraKeywords ctx) options) ctx) in
         match authHeaders random 0 provisional ctx options (ExtraKeywords ctx) with
         | Err e => Err (CallAuth e)
         | Ok m => render (setExtra m ctx)
         end)
  end.

(** The actions of a command.  The context is passed by value: only the
    override map it points to is shared, and the store. *)
Inductive acted :=
  | ActStop (s : call_state)
  | ActFail (e : call_error) (s : call_state)
  | ActJump (target : Z) (s : call_state)
  | ActGo (s : call_state).

Definition runActions (inp : step_input) (cmd : Command) (s : call_state) : acted :=
  let '(r, act) := applyActions aenv (c_Actions cmd) (cs_act s) in
  let s := withAct (mkActState (as_vars act) (as_scopes act)
                      (setOverrides (CSVFieldOverrides (as_ctx act)) (cs_ctx s))) s in
  match r with
  | Err ErrStopCall => ActStop s
  | Err e => ActFail (CallAction e) s
  | Ok r =>
    match applySetDestination (in_setDest inp) r s with
    | Err e => ActFail e s
    | Ok s => if hasJump r then ActJump (jumpIndex r) s else ActGo s
    end
  end.

Definition finishCommand (inp : step_input) (cmd : Command) (s : call_state) : call_state :=
  finishRTD (c_StopRTD cmd) (in_end inp) (recordCommandStats cmd s).

(** The end of an iteration that did not jump. *)
Definition advance (inp : step_input) (cmd : Command) (s : call_state) : step_out :=
  let s := finishCommand inp cmd s in
  let '(i, rnd) := resolveNext (cs_index s) cmd (as_vars (cs_act s)) (as_scopes (cs_act s)) (cs_rnd s) in
  Next (withIndex i (withRnd rnd s)).

Definition stepNop (inp : step_input) (cmd : Command) (s : call_state) : step_out :=
  match runActions inp cmd s with
  | ActStop s => Finished (finishCommand inp cmd s)
  | ActFail e s => CallFailed e s
  | ActJump j s => Next (withIndex j (finishCommand inp cmd s))
  | ActGo s => advance inp cmd s
  end.

Definition stepPause (inp : step_input) (cmd : Command) (s : call_state) : step_out :=
  match (match c_Pause cmd with Some p => Sample p (in_rng inp) | None => Ret 0 end) with
  | Panic => StepPanic
  | Ret pause =>
    let pause := if pause <=? 0 then cf_DefaultPause cfg else pause in
    let s := logEvents [EvSleep pause] s in
    if in_sleepOk inp then advance inp cmd s else CallFailed CallSleep s
  end.

Definition stepSend (inp : step_input) (cmd : Command) (s : call_state) : step_out :=
  match in_prepare inp (cs_ctx s) (c_SendText cmd) with
  | None => CallFailed CallWebRTC s
  | Some extra =>
    let s := onCtx (fun c => setBranch (randomBranch (cf_callNumber cfg) (c_Index cmd)) (setExtra extra c)) s in
    match renderSIPMessage (c_SendText cmd) (in_random inp) (in_clock inp) (in_dynamicID inp) (cs_ctx s) with
    | Panic => StepPanic
    | Ret (Err e) => CallFailed e s
    | Ret (Ok message) =>
      if in_sendOk inp then
        advance inp cmd
          (rememberSent (in_pooled inp) message (c_Retrans cmd) (in_now inp) (logEvents [EvSent message] s))
      else CallFailed CallSend s
    end
  end.

Definition stepSendCmd (inp : step_input) (cmd : Command) (s : call_state) : step_out :=
  let raw := normalizeSIPScenarioLineIndent (c_SendText cmd) in
  match RenderMessageStrict (ae_tmpl aenv) raw (setTicks (in_clock inp) (in_dynamicID inp) (cs_ctx s)) with
  | Err e => CallFailed (CallRender e) s
  | Ok payload =>
    match sendCommand (in_dial inp) (in_write inp) (cf_commands cfg) (cs_broker s) (c_CmdDest cmd)
            (ensureMessageTerminator payload) with
    | Err e => CallFailed (CallCommand e) s
    | Ok (Queued b) => advance inp cmd (withCommands (cs_cmdKey s) b (logEvents [EvCommand None] s))
    | Ok (Wrote addr frame) => advance inp cmd (logEvents [EvCommand (Some (addr, frame))] s)
    end
  end.

(** What a finished wait leaves in the call. *)
Definition absorb (r : recv_state) (held : list nat) (s : call_state) : call_state :=
  withMessages (rs_pending r) (rs_freed r) held (rs_saw r)
    (logEvents (map EvSent (rs_sent r) ++ [EvRetransmits (rs_retransmits r)]) s).

(** A message the recv was waiting for. *)
Definition onMatched (inp : step_input) (cmd : Command) (m : pmsg) (s : call_state) : step_out :=
  let msg := pm_msg m in
  let s := withTx (cs_tx s)
             (if negb (bool_decide (c_RecvResp cmd = [])) && (0 <? cs_lastRetrans s) then 0 else cs_lastRetrans s)
             (cs_inviteStarted s) s in
  let s := onCtx (setLast (Raw msg) (copyHeaders (Headers msg))) s in
  if negb (in_webrtc inp (Raw msg)) then CallFailed CallWebRTC s
  else
    let s := if c_RRS cmd
             then onCtx (fun c => setExtra (<[lit "routes" := buildRouteHeaders (Headers msg)]> (ExtraKeywords c)) c) s
             else s in
    match runActions inp cmd s with
    | ActStop s => Finished (finishCommand inp cmd s)
    | ActFail e s => CallFailed e s
    | ActJump j s => Next (withIndex j (recordLatency msg (in_end inp) (finishCommand inp cmd s)))
    | ActGo s => advance inp cmd (recordLatency msg (in_end inp) s)
    end.

(** A recv that ended without its message. *)
Definition onRecvError (cmd : Command) (e : recv_error) (unexpected : option Message) (s : call_state) : step_out :=
  let other :=
    if c_Optional cmd then Next (withIndex (cs_index s + 1) s)
    else match e with
         | ErrDeadline | ErrCanceled => CallFailed (CallRecv e) (logEvents [EvTimeout] s)
         | _ => CallFailed (CallRecv e) s
         end in
  match e, unexpected, sc_Labels sc !! lit "_unexp.main" with
  | ErrUnexpectedToMain, Some m, Some main =>
    let s := onCtx (setLast (Raw m) (copyHeaders (Headers m))) s in
    let s := withAct (writeVar (lit "_unexp.retaddr") (Itoa (cs_index s + 1)) (cs_act s)) s in
    Next (withIndex main s)
  | _, _, _ => other
  end.

(** Retransmissions are for UDP only. *)
Definition retransmitInterval (s : call_state) : Z :=
  if HasPrefix (cf_transport cfg) (lit "u") then cs_lastRetrans s else 0.

Definition stepRecv (inp : step_input) (cmd : Command) (s : call_state) : step_out :=
  let s := logEvents [EvWait (recvTimeout cfg cmd (cs_inviteStarted s) (cs_latencySet s) (in_now inp))] s in
  match waitForMatch regexMatch cmd (cs_tx s) (sc_Labels sc !! lit "_unexp.main")
          (retransmitInterval s) (in_ticks inp)
          (mkRecvState (cs_pending s) [] (cs_freed s) (cs_saw s) None false 0) with
  | Waiting r => Blocked (absorb r (cs_held s) s)
  | Matched m r => onMatched inp cmd m (absorb r (pm_id m :: cs_held s) s)
  | Failed e r => onRecvError cmd e (rs_unexpected r) (absorb r (cs_held s) s)
  end.

(** A call that starts with [recvCmd] takes over the Call-ID of the command. *)
Definition adoptsCallID (cmd : Command) (s : call_state) : bool :=
  bool_decide (is_Some (cc_peers (cf_commands cfg))) && (c_Index cmd =? 0)
  && bool_decide (tx_lastSent (cs_tx s) = []) && bool_decide (LastMessage (cs_ctx s) = []).

(** How long a [recvCmd] waits. *)
Definition commandTimeout (cmd : Command) : Z :=
  if c_Timeout cmd <=? 0
  then if c_Optional cmd then 250 * Millisecond else cf_DefaultRecvTO cfg
  else c_Timeout cmd.

Definition stepRecvCmd (inp : step_input) (cmd : Command) (s : call_state) : step_out :=
  let adopt := adoptsCallID cmd s in
  let s := logEvents [EvWait (commandTimeout cmd)] s in
  let onError (cancelled : bool) s :=
    if c_Optional cmd then
      let '(i, rnd) := resolveNext (cs_index s) cmd (as_vars (cs_act s)) (as_scopes (cs_act s)) (cs_rnd s) in
      Next (withIndex i (withRnd rnd s))
    else CallFailed (CallCommandWait cancelled) (logEvents [EvTimeout] s) in
  match waitForCommand (in_cmdTicks inp) (if adopt then [] else cs_cmdKey s) [] (c_CmdSrc cmd) (cs_broker s) with
  | Panic => StepPanic
  | Ret (StillWaiting b) => Blocked (withCommands (cs_cmdKey s) b s)
  | Ret (Cancelled b) => onError true (withCommands (cs_cmdKey s) b s)
  | Ret (DeadlineExceeded b) => onError false (withCommands (cs_cmdKey s) b s)
  | Ret (Received key msg b) =>
    let s := withCommands (match key with [] => cs_cmdKey s | _ => key end) b s in
    let s := if adopt && negb (bool_decide (key = [])) then onCtx (setCallID key) s else s in
    let s := onCtx (setLast (cm_raw msg) (parseCommandHeaders (cm_raw msg))) s in
    match runActions inp cmd s with
    | ActStop s => Finished (finishCommand inp cmd s)
    | ActFail e s => CallFailed e s
    | ActJump j s => Next (withIndex j (finishCommand inp cmd s))
    | ActGo s => advance inp cmd s
    end
  end.

(** One iteration of the loop on the command at the current position. *)
Definition stepCommand (inp : step_input) (cmd : Command) (s : call_state) : step_out :=
  let s := withAct (refresh (cs_act s)) s in
  if negb (shouldExecute cmd (as_vars (cs_act s)) (as_scopes (cs_act s)))
  then Next (withIndex (cs_index s + 1) s)
  else
    let s := startRTD (c_StartRTD cmd) (in_now inp) (onCtx (setMessageIndex (c_Index cmd)) s) in
    match c_Type cmd with
    | CommandLabel => advance inp cmd s
    | CommandNop => stepNop inp cmd s
    | CommandPause | CommandTimeWait => stepPause inp cmd s
    | CommandSend => stepSend inp cmd s
    | CommandSendCmd => stepSendCmd inp cmd s
    | CommandRecv => stepRecv inp cmd s
    | CommandRecvCmd => stepRecvCmd inp cmd s
    end.

(** The loop: it ends when the position is past the last command; indexing a
    negative position is a run-time panic. *)
Inductive call_out :=
  | CallDone (s : call_state)
  | CallError (e : call_error) (s : call_state)
  | CallRunning (s : call_state)
  | CallPanic.

Fixpoint runCall (inputs : list step_input) (s : call_state) : call_out :=
  if Z.of_nat (length (sc_Commands sc)) <=? cs_index s then CallDone s
  else match inputs with
  | [] => CallRunning s
  | inp :: inputs' =>
    if cs_index s <? 0 then CallPanic
    else match sc_Commands sc !! Z.to_nat (cs_index s) with
    | None => CallPanic
    | Some cmd =>
      match stepCommand inp cmd s with
      | Next s' => runCall inputs' s'
      | Finished s' => CallDone s'
      | CallFailed e s' => CallError e s'
      | Blocked s' => CallRunning s'
      | StepPanic => CallPanic
      end
    end
  end.

End Exec.

(** ** Start and end of a call *)

Record engine_config := mkEngineConfig {
  ec_Service : str; ec_BaseCSeq : Z; ec_Users : Z; ec_Keys : gmap str str; ec_InjectionFile : str;
  ec_SipFrom : str; ec_SipPAI : str; ec_SipProvider : str; ec_SipExtraHeaders : list str; ec_PID : Z
}.

(** [applySIPIdentityKeywords] of [sip_identity.go] *)
Definition identityHeaders (lines : list str) : str :=
  flat_map (fun line =>
    let line := TrimSpace line in
    if bool_decide (line = []) || negb (Contains line (lit ":")) then []
    else line ++ (if HasSuffix line crlf then [] else if HasSuffix line [x0a] then [x0d] else crlf)) lines.

Definition applySIPIdentityKeywords (m : gmap str str) (cfg : engine_config) (localIP : str) (localPort : Z) : gmap str str :=
  let from := match TrimSpace (ec_SipFrom cfg) with
              | [] => lit "gossip <sip:gossip@" ++ localIP ++ lit ":" ++ Itoa localPort ++ lit ">"
              | f => f
              end in
  let pai := match TrimSpace (ec_SipPAI cfg) with [] => [] | p => lit "P-Asserted-Identity: " ++ p ++ crlf end in
  let provider := match TrimSpace (ec_SipProvider cfg) with [] => [] | p => lit "X-provider: " ++ p ++ crlf end in
  <[lit "trunk_extra" := identityHeaders (ec_SipExtraHeaders cfg)]>
  (<[lit "trunk_provider" := provider]> (<[lit "trunk_pai" := pai]> (<[lit "trunk_from" := from]> m))).

(** The render context a call starts with; [webrtc] is [usesWebRTC], and the
    ICE credentials come from the media session. *)
Definition initialContext (cfg : engine_config) (sc : Scenario) (webrtc : bool) (iceUfrag icePwd : str)
    (sipTransport : str) (callNumber : Z) (callID localIP : str) (localPort : Z) (remoteHost : str) (remotePort : Z)
    (vars : gmap str str) : Context :=
  let extra : gmap str str := {[lit "routes" := []]} in
  let extra := if webrtc
               then <[lit "contact_transport" := lit "WSS"]> (<[lit "media_transport" := lit "webrtc"]> extra)
               else extra in
  let extra := ec_Keys cfg ∪ applySIPIdentityKeywords extra cfg localIP localPort in
  mkContext (ec_Service cfg) sipTransport remoteHost remoteHost remotePort
    localIP localIP (ipType localIP) localPort localIP (ipType localIP)
    (clampMediaPort (localPort + 2 + (callNumber - 1) * 2)) iceUfrag icePwd
    callID (ec_BaseCSeq cfg) callNumber 0 (ec_PID cfg) (ec_Users cfg) (userID callNumber (ec_Users cfg))
    [] [] [] 0 [] 0 0 extra vars ∅ (sc_BasePath sc) (ec_InjectionFile cfg).

Definition startCall (cfg : engine_config) (sc : Scenario) (webrtc : bool) (iceUfrag icePwd : str)
    (sipTransport : str) (callNumber : Z) (callID localIP : str) (localPort : Z) (remoteHost : str) (remotePort : Z)
    (scopes : scopedVars) (rnd : frand) (broker : commandBroker) : call_state :=
  let store := newVarStore (sc_GlobalVariables sc) (sc_UserVariables sc) (userID callNumber (ec_Users cfg)) in
  let ctx := initialContext cfg sc webrtc iceUfrag icePwd sipTransport callNumber callID localIP localPort
               remoteHost remotePort (Snapshot store scopes) in
  mkCall 0 (mkActState store scopes ctx) (mkTxn [] [] [] 0 [] []) 0 None false [] [] [] callID ∅ rnd false broker [].

(** The deferred functions: stashed and held messages go back to the pool. *)
Definition releaseMessages (s : call_state) : call_state :=
  withMessages [] (map pm_id (cs_pending s) ++ cs_held s ++ cs_freed s) [] (cs_saw s) s.

(** An error as [classifyCallFailure] can look at it. *)
Record go_error := mkGoError {
  ge_unexpectedFinal : bool; ge_deadline : bool; ge_canceled : bool;
  ge_mailboxClosed : bool; ge_eof : bool; ge_net : bool; ge_text : str
}.

Definition classifyCallFailure (err : option go_error) (sawUnexpectedSIP : bool) : str :=
  match err with
  | None => []
  | Some e =>
    if ge_unexpectedFinal e then lit "unexpected_sip"
    else if ge_deadline e then (if sawUnexpectedSIP then lit "unexpected_sip" else lit "timeout")
    else if ge_canceled e then lit "cancelled"
    else if ge_mailboxClosed e || ge_eof e || ge_net e then lit "transport_error"
    else
      let t := ToLower (ge_text e) in
      if Contains t (lit "empty sip message") || Contains t (lit "invalid sip") || Contains t (lit "malformed sip")
         || Contains t (lit "missing call-id") || Contains t (lit "malformed")
      then lit "parse_error" else lit "scenario_error"
  end.

(** * Lemmas *)

(** ** What the small steps leave alone *)

Definition msgs (s : call_state) : list pmsg * list nat * list nat := (cs_pending s, cs_freed s, cs_held s).

Lemma finishRTD_msgs name now s : msgs (finishRTD name now s) = msgs s.
Proof. unfold finishRTD. by repeat case_match. Qed.

Lemma finishRTD_index name now s : cs_index (finishRTD name now s) = cs_index s.
Proof. unfold finishRTD. by repeat case_match. Qed.

Lemma startRTD_msgs name now s : msgs (startRTD name now s) = msgs s.
Proof. unfold startRTD. by case_match. Qed.

Lemma startRTD_index name now s : cs_index (startRTD name now s) = cs_index s.
Proof. unfold startRTD. by case_match. Qed.

Lemma finishCommand_msgs inp cmd s : msgs (finishCommand inp cmd s) = msgs s.
Proof. unfold finishCommand. by rewrite finishRTD_msgs. Qed.

Lemma finishCommand_index inp cmd s : cs_index (finishCommand inp cmd s) = cs_index s.
Proof. unfold finishCommand. by rewrite finishRTD_index. Qed.

Lemma recordLatency_msgs m now s : msgs (recordLatency m now s) = msgs s.
Proof. unfold recordLatency. by repeat case_match. Qed.

Lemma recordLatency_index m now s : cs_index (recordLatency m now s) = cs_index s.
Proof. unfold recordLatency. by repeat case_match. Qed.

Lemma rememberSent_msgs pooled m r now s : msgs (rememberSent pooled m r now s) = msgs s.
Proof. unfold rememberSent. by repeat case_match. Qed.

Lemma rememberSent_index pooled m r now s : cs_index (rememberSent pooled m r now s) = cs_index s.
Proof. unfold rememberSent. by repeat case_match. Qed.

Lemma applySetDestination_same d r s s' :
  applySetDestination d r s = Ok s' -> msgs s' = msgs s /\ cs_index s' = cs_index s.
Proof. unfold applySetDestination. intros H. repeat case_match; simplify_eq; done. Qed.

Create HintDb callframe.
#[export] Hint Rewrite finishRTD_msgs finishRTD_index startRTD_msgs startRTD_index finishCommand_msgs
  finishCommand_index recordLatency_msgs recordLatency_index rememberSent_msgs rememberSent_index : callframe.

Definition acted_state (a : acted) : call_state :=
  match a with ActStop s | ActFail _ s | ActJump _ s | ActGo s => s end.

Lemma runActions_same aenv inp cmd s :
  msgs (acted_state (runActions aenv inp cmd s)) = msgs s
  /\ cs_index (acted_state (runActions aenv inp cmd s)) = cs_index s.
Proof.
  unfold runActions. destruct (applyActions aenv (c_Actions cmd) (cs_act s)) as [[r|e] act]; [|by destruct e].
  cbv zeta. destruct (applySetDestination _ _ _) as [s'|e] eqn:E; [|done].
  apply applySetDestination_same in E. by destruct (hasJump r).
Qed.

Lemma runActions_jump aenv inp cmd s j s' : runActions aenv inp cmd s = ActJump j s' -> 0 <= j.
Proof.
  unfold runActions. destruct (applyActions aenv (c_Actions cmd) (cs_act s)) as [[r|e] act] eqn:E; [|by destruct e].
  cbv zeta. destruct (applySetDestination _ _ _) as [s1|e]; [|done].
  destruct (hasJump r) eqn:Ej; [|done]. intros [= <- _].
  unfold applyActions in E. apply run_actions_ok in E as [H _]; [by apply H|]. split; done.
Qed.

Lemma runActions_fail aenv inp cmd s e s' :
  runActions aenv inp cmd s = ActFail e s' -> forall re, e <> CallRecv re.
Proof.
  unfold runActions, applySetDestination. cbv zeta. intros H. repeat case_match; simplify_eq; done.
Qed.
