(* ===== verification/CallFacts.v ===== *)
(** * Properties of a call

    Theorems about [executeCall] as modelled in [Call]: who owns the pooled
    messages, where the command position can go, when a call ends, and what the
    remembered request is good for; with a concrete call from the scenario
    text to the last message. *)

From stdpp Require Import base list gmap strings.
From Stdlib Require Import ZArith Lia Strings.Byte.
From S2P Require Import Prelude GoStrings GoFloat SipMessage Vars Scenario Template EngineText.
From S2P Require Import SipFacts SipMatch Auth Commands Actions Recv Call.

(** ** One step *)

Definition step_state (o : step_out) : option call_state :=
  match o with Next s | Finished s | CallFailed _ s | Blocked s => Some s | StepPanic => None end.

(** A step that leaves the messages alone and does not go to a negative
    position. *)
Definition quiet (s : call_state) (o : step_out) : Prop :=
  match o with
  | Next s' => msgs s' = msgs s /\ (0 <= cs_index s -> 0 <= cs_index s')
  | Finished s' | CallFailed _ s' | Blocked s' => msgs s' = msgs s
  | StepPanic => True
  end.

Lemma quiet_trans s s1 o : msgs s1 = msgs s -> cs_index s1 = cs_index s -> quiet s1 o -> quiet s o.
Proof. intros Hm Hi. destruct o; simpl; rewrite ?Hm, ?Hi; done. Qed.

Lemma next_quiet cmd s :
  quiet s (let '(i, rnd) := resolveNext (cs_index s) cmd (as_vars (cs_act s)) (as_scopes (cs_act s)) (cs_rnd s) in
           Next (withIndex i (withRnd rnd s))).
Proof.
  pose proof (resolveNext_cases (cs_index s) cmd (as_vars (cs_act s)) (as_scopes (cs_act s)) (cs_rnd s)) as H.
  destruct (resolveNext _ _ _ _ _) as [j rnd]. simpl in *. split; [done|lia].
Qed.

Lemma advance_quiet inp cmd s : quiet s (advance inp cmd s).
Proof. eapply quiet_trans; [apply finishCommand_msgs|apply finishCommand_index|apply next_quiet]. Qed.

(** What is done with the outcome of the actions, when a success goes on to
    [k] or jumps after [f]. *)
Definition after_actions (a : acted) (fin : call_state -> call_state) (f : call_state -> call_state)
    (k : call_state -> step_out) : step_out :=
  match a with
  | ActStop s => Finished (fin s)
  | ActFail e s => CallFailed e s
  | ActJump j s => Next (withIndex j (f s))
  | ActGo s => k s
  end.

Lemma after_actions_quiet aenv inp cmd s fin f k :
  (forall x, msgs (fin x) = msgs x) -> (forall x, msgs (f x) = msgs x) -> (forall x, quiet x (k x)) ->
  quiet s (after_actions (runActions aenv inp cmd s) fin f k).
Proof.
  intros Hfin Hf Hk. pose proof (runActions_same aenv inp cmd s) as [Hm Hi].
  pose proof (runActions_jump aenv inp cmd s) as Hj.
  destruct (runActions aenv inp cmd s) as [s'|e s'|j s'|s']; simpl in *.
  - by rewrite Hfin.
  - done.
  - split; [change (msgs (f s') = msgs s); by rewrite Hf|]. intros _. by eapply Hj.
  - by apply (quiet_trans s s').
Qed.

Section ExecFacts.

Context (regexMatch : str -> str -> bool) (aenv : action_env).
Context (isPrint : Z -> bool).
Context (cfg : call_config) (sc : Scenario).

Abbreviation run := (runCall regexMatch aenv isPrint cfg sc).
Abbreviation step := (stepCommand regexMatch aenv isPrint cfg sc).

Lemma stepNop_quiet inp cmd s : quiet s (stepNop aenv inp cmd s).
Proof.
  apply (after_actions_quiet aenv inp cmd s (finishCommand inp cmd) (finishCommand inp cmd));
    intros x; apply finishCommand_msgs || apply advance_quiet.
Qed.

Lemma stepPause_quiet inp cmd s : quiet s (stepPause cfg inp cmd s).
Proof.
  unfold stepPause. destruct (match c_Pause cmd with Some p => _ | None => _ end); [|done]. cbv zeta.
  destruct (in_sleepOk inp); [|done]. by eapply quiet_trans; [| |apply advance_quiet].
Qed.

Lemma stepSend_quiet inp cmd s : quiet s (stepSend aenv isPrint cfg inp cmd s).
Proof.
  unfold stepSend. destruct (in_prepare _ _ _); [|done]. cbv zeta.
  destruct (renderSIPMessage _ _ _ _ _ _ _ _) as [[m|e]|]; [|done|done]. destruct (in_sendOk inp); [|done].
  eapply quiet_trans; [| |apply advance_quiet]; [by rewrite rememberSent_msgs|by rewrite rememberSent_index].
Qed.

Lemma stepSendCmd_quiet inp cmd s : quiet s (stepSendCmd aenv cfg inp cmd s).
Proof.
  unfold stepSendCmd. cbv zeta. destruct (RenderMessageStrict _ _ _) as [m|e]; [|done].
  destruct (sendCommand _ _ _ _ _ _) as [[b|a f]|e]; [| |done];
    by eapply quiet_trans; [| |apply advance_quiet].
Qed.

Lemma stepRecvCmd_quiet inp cmd s : quiet s (stepRecvCmd aenv cfg inp cmd s).
Proof.
  unfold stepRecvCmd. cbv zeta. destruct (waitForCommand _ _ _ _ _) as [[key m b|b|b|b]|]; [| | |done|done].
  - match goal with |- quiet _ (match runActions _ _ _ ?x with _ => _ end) => set (s1 := x) end.
    apply (quiet_trans s s1); [unfold s1; by destruct (_ && _)|unfold s1; by destruct (_ && _)|].
    apply (after_actions_quiet aenv inp cmd s1 (finishCommand inp cmd) (finishCommand inp cmd));
      intros x; apply finishCommand_msgs || apply advance_quiet.
  - destruct (c_Optional cmd); [|done]. by eapply quiet_trans; [| |apply next_quiet].
  - destruct (c_Optional cmd); [|done]. by eapply quiet_trans; [| |apply next_quiet].
Qed.

Lemma onMatched_quiet inp cmd m s : quiet s (onMatched aenv inp cmd m s).
Proof.
  unfold onMatched. cbv zeta. destruct (negb (in_webrtc inp (Raw (pm_msg m)))); [done|].
  match goal with |- quiet _ (match runActions _ _ _ ?x with _ => _ end) => set (s1 := x) end.
  apply (quiet_trans s s1); [unfold s1; by destruct (c_RRS cmd)|unfold s1; by destruct (c_RRS cmd)|].
  apply (after_actions_quiet aenv inp cmd s1 (finishCommand inp cmd)
    (fun s => recordLatency (pm_msg m) (in_end inp) (finishCommand inp cmd s))
    (fun s => advance inp cmd (recordLatency (pm_msg m) (in_end inp) s))); intros x.
  - apply finishCommand_msgs.
  - by rewrite recordLatency_msgs, finishCommand_msgs.
  - eapply quiet_trans; [apply recordLatency_msgs|apply recordLatency_index|apply advance_quiet].
Qed.

Lemma onRecvError_quiet cmd e u s :
  labels_wf (sc_Labels sc) (sc_Commands sc) -> quiet s (onRecvError sc cmd e u s).
Proof.
  intros Hl. unfold onRecvError. cbv zeta.
  assert (quiet s (if c_Optional cmd then Next (withIndex (cs_index s + 1) s)
                   else match e with
                        | ErrDeadline | ErrCanceled => CallFailed (CallRecv e) (logEvents [EvTimeout] s)
                        | _ => CallFailed (CallRecv e) s
                        end)) as Hother.
  { destruct (c_Optional cmd); [split; [done|]; simpl; lia|by destruct e]. }
  destruct e; try done. destruct u as [m|]; [|done].
  destruct (sc_Labels sc !! _) as [main|] eqn:E; [|done].
  split; [done|]. intros _. apply Hl, last_label_range in E. simpl. lia.
Qed.

(** ** Ownership and position *)

(** The messages a call answers for: stashed, given back, or returned by a recv. *)
Definition owns (s : call_state) : list nat := map pm_id (cs_pending s) ++ cs_freed s ++ cs_held s.

Definition input_ids (inp : step_input) : list nat := omap net_id (in_ticks inp).

Lemma owns_msgs s s' : msgs s' = msgs s -> owns s' = owns s.
Proof. unfold msgs, owns. by intros [= -> -> ->]. Qed.

(** What a step may do with the messages that arrive during it. *)
Definition step_owned (ids : list nat) (s : call_state) (o : step_out) : Prop :=
  forall s', step_state o = Some s' -> exists used, used ⊆+ ids /\ owns s' ≡ₚ owns s ++ used.

Lemma quiet_msgs s o s' : quiet s o -> step_state o = Some s' -> msgs s' = msgs s.
Proof. destruct o; simpl; intros Hq [= <-]; tauto. Qed.

Lemma quiet_owned ids s o : quiet s o -> step_owned ids s o.
Proof.
  intros Hq s' Hs. exists []. split; [apply submseteq_nil_l|]. rewrite app_nil_r.
  by rewrite (owns_msgs s s') by (by eapply quiet_msgs).
Qed.

Lemma owned_trans ids s s1 o used :
  used ⊆+ ids -> owns s1 ≡ₚ owns s ++ used -> quiet s1 o -> step_owned ids s o.
Proof.
  intros Hu Ho Hq s' Hs. exists used. split; [done|]. rewrite <- Ho.
  by rewrite (owns_msgs s1 s') by (by eapply quiet_msgs).
Qed.

Lemma absorb_owns r held s :
  owns (absorb r held s) = owned r ++ held.
Proof. unfold owns, owned. simpl. by rewrite app_assoc. Qed.

Lemma stepRecv_spec inp cmd s :
  labels_wf (sc_Labels sc) (sc_Commands sc) ->
  let o := stepRecv regexMatch aenv cfg sc inp cmd s in
  step_owned (input_ids inp) s o
  /\ (forall s', o = Next s' -> 0 <= cs_index s -> 0 <= cs_index s') /\ o <> StepPanic.
Proof.
  intros Hl. unfold stepRecv. cbv zeta.
  set (s0 := logEvents _ s). set (r0 := mkRecvState _ _ _ _ _ _ _).
  destruct (wait_owned regexMatch cmd (cs_tx s0) (sc_Labels sc !! lit "_unexp.main")
    (retransmitInterval cfg s0) (in_ticks inp) r0) as (used & Hu & Ho).
  assert (owned r0 ++ cs_held s = owns s) as E0 by (unfold owned, owns; simpl; by rewrite app_assoc).
  destruct (waitForMatch _ _ _ _ _ _ _) as [m r|e r|r]; simpl in Ho.
  - set (s1 := absorb r (pm_id m :: cs_held s0) s0).
    pose proof (onMatched_quiet inp cmd m s1) as Hq. split; [|split].
    + eapply (owned_trans _ _ s1); [exact Hu| |exact Hq]. unfold s1. rewrite absorb_owns, <- E0, <- app_assoc. change (cs_held s0) with (cs_held s).
      rewrite (Permutation_app_comm (cs_held s)), app_assoc, <- Ho. simpl. by rewrite <- Permutation_middle.
    + intros s' E. rewrite E in Hq. by destruct Hq as [_ Hq].
    + unfold onMatched. cbv zeta. unfold advance. repeat case_match; done.
  - set (s1 := absorb r (cs_held s0) s0).
    pose proof (onRecvError_quiet cmd e (rs_unexpected r) s1 Hl) as Hq. split; [|split].
    + eapply (owned_trans _ _ s1); [exact Hu| |exact Hq]. unfold s1. rewrite absorb_owns, <- E0, <- app_assoc. change (cs_held s0) with (cs_held s).
      by rewrite (Permutation_app_comm (cs_held s)), app_assoc, <- Ho.
    + intros s' E. rewrite E in Hq. by destruct Hq as [_ Hq].
    + unfold onRecvError. cbv zeta. repeat case_match; done.
  - split; [|done]. intros s' [= <-]. exists used. split; [done|].
    rewrite absorb_owns, <- E0, <- app_assoc. change (cs_held s0) with (cs_held s).
    by rewrite (Permutation_app_comm (cs_held s)), app_assoc, <- Ho.
Qed.

(** The calls of the loop that can panic. *)
Definition may_panic (inp : step_input) (cmd : Command) : Prop :=
  (exists p, c_Pause cmd = Some p /\ Sample p (in_rng inp) = Panic)
  \/ (exists key b, waitForCommand (in_cmdTicks inp) key [] (c_CmdSrc cmd) b = Panic)
  \/ extractAuthKeywordOptions (normalizeSIPScenarioLineIndent (c_SendText cmd)) = Panic.

Lemma stepPause_panic inp cmd s : stepPause cfg inp cmd s = StepPanic -> may_panic inp cmd.
Proof.
  unfold stepPause, advance. intros H. left.
  destruct (c_Pause cmd) as [p|]; [|repeat case_match; done]. exists p. split; [done|]. repeat case_match; done.
Qed.

Lemma step_spec inp cmd s :
  labels_wf (sc_Labels sc) (sc_Commands sc) ->
  step_owned (input_ids inp) s (step inp cmd s)
  /\ (forall s', step inp cmd s = Next s' -> 0 <= cs_index s -> 0 <= cs_index s')
  /\ (step inp cmd s = StepPanic -> may_panic inp cmd).
Proof.
  intros Hl. unfold stepCommand. cbv zeta.
  destruct (negb (shouldExecute _ _ _)).
  { split; [apply quiet_owned; split; [done|]; simpl; lia|]. split; [|done]. intros s' [= <-]. simpl. lia. }
  set (s0 := withAct _ s). set (s1 := startRTD _ _ _).
  assert (msgs s1 = msgs s) as Hm by (unfold s1; by rewrite startRTD_msgs).
  assert (cs_index s1 = cs_index s) as Hi by (unfold s1; by rewrite startRTD_index).
  assert (forall o, quiet s1 o -> (o = StepPanic -> may_panic inp cmd) -> step_owned (input_ids inp) s o
    /\ (forall s', o = Next s' -> 0 <= cs_index s -> 0 <= cs_index s') /\ (o = StepPanic -> may_panic inp cmd)) as Hq.
  { intros o Ho Hp. apply (quiet_trans s s1) in Ho; [|done|done]. split; [by apply quiet_owned|]. split; [|done].
    intros s' ->. by destruct Ho. }
  destruct (c_Type cmd).
  - apply Hq; [apply stepSend_quiet|]. unfold stepSend, renderSIPMessage, advance. cbv zeta. intros H. right. right.
    destruct (extractAuthKeywordOptions _); [|done]. repeat case_match; done.
  - destruct (stepRecv_spec inp cmd s1 Hl) as (H1 & H2 & H3). split; [|split; [by rewrite <- Hi|done]].
    intros s' Hs. rewrite <- (owns_msgs s s1) by done. by apply H1.
  - apply Hq; [apply stepSendCmd_quiet|]. unfold stepSendCmd, advance. cbv zeta. repeat case_match; done.
  - apply Hq; [apply stepRecvCmd_quiet|]. intros H. right. left. unfold stepRecvCmd, advance in H. cbv zeta in H.
    destruct (waitForCommand _ _ _ _ _) eqn:E; [|by eauto]. repeat case_match; done.
  - apply Hq; [apply stepPause_quiet|apply stepPause_panic].
  - apply Hq; [apply stepNop_quiet|]. unfold stepNop, advance. repeat case_match; done.
  - apply Hq; [apply advance_quiet|]. unfold advance. repeat case_match; done.
  - apply Hq; [apply stepPause_quiet|apply stepPause_panic].
Qed.

(** ** Progress *)

(** The step ends with a larger position. *)
Definition forwards (s : call_state) (o : step_out) : Prop :=
  forall s', o = Next s' -> cs_index s < cs_index s'.

(** Every branch of the command goes forward and no action jumps. *)
Definition forward_command (i : Z) (cmd : Command) : Prop :=
  (c_NextIndex cmd < 0 \/ i < c_NextIndex cmd) /\ Forall (fun a => a_Type a <> ActionJump) (c_Actions cmd).

Lemma next_forwards cmd s s1 : cs_index s1 = cs_index s -> forward_command (cs_index s) cmd ->
  forwards s (let '(i, rnd) := resolveNext (cs_index s1) cmd (as_vars (cs_act s1)) (as_scopes (cs_act s1)) (cs_rnd s1) in
              Next (withIndex i (withRnd rnd s1))).
Proof.
  intros Hi [Hf _].
  pose proof (resolveNext_cases (cs_index s1) cmd (as_vars (cs_act s1)) (as_scopes (cs_act s1)) (cs_rnd s1)) as H.
  destruct (resolveNext _ _ _ _ _) as [j rnd]. simpl in H. intros s' [= <-]. simpl. lia.
Qed.

Lemma advance_forwards inp cmd s s1 : cs_index s1 = cs_index s -> forward_command (cs_index s) cmd ->
  forwards s (advance inp cmd s1).
Proof. intros Hi Hf. apply next_forwards; [by rewrite finishCommand_index|done]. Qed.

Lemma runActions_no_jump inp cmd s i j s' : forward_command i cmd -> runActions aenv inp cmd s <> ActJump j s'.
Proof.
  intros [_ Hn]. unfold runActions. destruct (applyActions aenv (c_Actions cmd) (cs_act s)) as [[r|e] act] eqn:E; [|by destruct e].
  cbv zeta. destruct (applySetDestination _ _ _) as [s1|e]; [|done].
  unfold applyActions in E. apply run_actions_no_jump in E; [|done|done]. by rewrite E.
Qed.

Lemma after_actions_forwards inp cmd s s1 fin f k :
  cs_index s1 = cs_index s -> forward_command (cs_index s) cmd ->
  (forall x, cs_index x = cs_index s -> forwards s (k x)) ->
  forwards s (after_actions (runActions aenv inp cmd s1) fin f k).
Proof.
  intros Hi Hf Hk. pose proof (runActions_same aenv inp cmd s1) as [_ Hs].
  pose proof (fun j s' => runActions_no_jump inp cmd s1 _ j s' Hf) as Hj.
  destruct (runActions aenv inp cmd s1) as [s'|e s'|j s'|s']; simpl in *; try done.
  - by destruct (Hj j s').
  - apply Hk. congruence.
Qed.

Lemma stepPause_forwards inp cmd s s1 :
  cs_index s1 = cs_index s -> forward_command (cs_index s) cmd -> forwards s (stepPause cfg inp cmd s1).
Proof.
  intros Hi Hf. unfold stepPause. destruct (match c_Pause cmd with Some p => _ | None => _ end); [|done]. cbv zeta.
  destruct (in_sleepOk inp); [|done]. by apply advance_forwards.
Qed.

Lemma stepRecv_forwards inp cmd s s1 :
  sc_Labels sc !! lit "_unexp.main" = None -> cs_index s1 = cs_index s -> forward_command (cs_index s) cmd ->
  forwards s (stepRecv regexMatch aenv cfg sc inp cmd s1).
Proof.
  intros Hm Hi Hf. unfold stepRecv. cbv zeta. destruct (waitForMatch _ _ _ _ _ _ _) as [m r|e r|r]; [| |done].
  - unfold onMatched. cbv zeta. destruct (negb (in_webrtc inp (Raw (pm_msg m)))); [done|].
    match goal with |- forwards _ (match runActions _ _ _ ?x with _ => _ end) => set (s2 := x) end.
    apply (after_actions_forwards inp cmd s s2 (finishCommand inp cmd)
      (fun s => recordLatency (pm_msg m) (in_end inp) (finishCommand inp cmd s))
      (fun s => advance inp cmd (recordLatency (pm_msg m) (in_end inp) s))); [unfold s2; by destruct (c_RRS cmd)|done|].
    intros x Hx. apply advance_forwards; [by rewrite recordLatency_index|done].
  - unfold onRecvError. cbv zeta. rewrite Hm. intros s'.
    destruct e, (c_Optional cmd); try done; try (destruct (rs_unexpected r); intros [= <-]; simpl; lia);
      try (intros [= <-]; simpl; lia); by destruct (rs_unexpected r).
Qed.

Lemma stepRecvCmd_forwards inp cmd s s1 :
  cs_index s1 = cs_index s -> forward_command (cs_index s) cmd -> forwards s (stepRecvCmd aenv cfg inp cmd s1).
Proof.
  intros Hi Hf. unfold stepRecvCmd. cbv zeta. destruct (waitForCommand _ _ _ _ _) as [[key m b|b|b|b]|]; [| | |done|done].
  - match goal with |- forwards _ (match runActions _ _ _ ?x with _ => _ end) => set (s2 := x) end.
    apply (after_actions_forwards inp cmd s s2 (finishCommand inp cmd) (finishCommand inp cmd) (advance inp cmd));
      [unfold s2; by destruct (_ && _)|done|]. intros x Hx. by apply advance_forwards.
  - destruct (c_Optional cmd); [|done]. by apply next_forwards.
  - destruct (c_Optional cmd); [|done]. by apply next_forwards.
Qed.

Lemma step_forwards inp cmd s :
  sc_Labels sc !! lit "_unexp.main" = None -> forward_command (cs_index s) cmd -> forwards s (step inp cmd s).
Proof.
  intros Hm Hf. unfold stepCommand. cbv zeta. destruct (negb (shouldExecute _ _ _)).
  { intros s' [= <-]. simpl. lia. }
  set (s0 := withAct _ s). set (s1 := startRTD _ _ _).
  assert (cs_index s1 = cs_index s) as Hi by (unfold s1; by rewrite startRTD_index).
  destruct (c_Type cmd).
  - unfold stepSend. cbv zeta. destruct (in_prepare _ _ _); [|done].
    destruct (renderSIPMessage _ _ _ _ _ _ _ _) as [[m|e]|]; [|done|done]. destruct (in_sendOk inp); [|done].
    apply advance_forwards; [by rewrite rememberSent_index|done].
  - by apply stepRecv_forwards.
  - unfold stepSendCmd. cbv zeta. destruct (RenderMessageStrict _ _ _) as [m|e]; [|done].
    destruct (sendCommand _ _ _ _ _ _) as [[b|a f]|e]; [| |done]; by apply advance_forwards.
  - by apply stepRecvCmd_forwards.
  - by apply stepPause_forwards.
  - unfold stepNop. by apply (after_actions_forwards inp cmd s s1 (finishCommand inp cmd) (finishCommand inp cmd) (advance inp cmd));
      [done|done|intros; apply advance_forwards].
  - by apply advance_forwards.
  - by apply stepPause_forwards.
Qed.

(** The clock passes the deadline of every wait. *)
Definition deadlines_pass (inp : step_input) : Prop :=
  Exists (fun t => rt_late t = true) (in_ticks inp) /\ Exists (fun t => tk_late t = true) (in_cmdTicks inp).

Lemma wait_loop_ends ticks callID channel src b b' :
  Exists (fun t => tk_late t = true) ticks -> wait_loop ticks callID channel src b <> Ret (StillWaiting b').
Proof.
  intros He. revert b. induction ticks as [|t ticks IH]; intros b; [by apply Exists_nil in He|].
  cbn [wait_loop]. destruct (poll _ _ _ _ _) as [[[[k m] b1]|]|]; [done| |done].
  destruct (tk_cancelled t); [done|]. destruct (tk_late t) eqn:E; [done|]. apply IH.
  apply Exists_cons in He as [He|He]; [congruence|done].
Qed.

Lemma step_not_blocked inp cmd s s' : deadlines_pass inp -> step inp cmd s <> Blocked s'.
Proof.
  intros [Hr Hc]. unfold stepCommand, stepSend, stepSendCmd, stepPause, stepNop, stepRecv, stepRecvCmd, onMatched,
    onRecvError, advance. cbv zeta.
  pose proof (fun i => wait_loop_ends (in_cmdTicks inp) i [] (c_CmdSrc cmd)) as Hw.
  pose proof (fun tx u i r => wait_not_waiting regexMatch cmd tx u i (in_ticks inp) r Hr) as Hn.
  unfold waitForCommand.
  repeat case_match; try done; naive_solver.
Qed.

(** ** The loop *)

Lemma runCall_cons inp inputs s cmd :
  0 <= cs_index s < Z.of_nat (length (sc_Commands sc)) -> sc_Commands sc !! Z.to_nat (cs_index s) = Some cmd ->
  run (inp :: inputs) s = match step inp cmd s with
                          | Next s' => run inputs s'
                          | Finished s' => CallDone s'
                          | CallFailed e s' => CallError e s'
                          | Blocked s' => CallRunning s'
                          | StepPanic => CallPanic
                          end.
Proof.
  intros Hr Hc. cbn [runCall].
  by rewrite (proj2 (Z.leb_gt _ _)), (proj2 (Z.ltb_ge _ _)), Hc by lia.
Qed.

Lemma command_at s : 0 <= cs_index s < Z.of_nat (length (sc_Commands sc)) ->
  exists cmd, sc_Commands sc !! Z.to_nat (cs_index s) = Some cmd.
Proof. intros H. apply lookup_lt_is_Some. lia. Qed.

Lemma runCall_done inputs s : Z.of_nat (length (sc_Commands sc)) <= cs_index s -> run inputs s = CallDone s.
Proof. intros H. destruct inputs; cbn [runCall]; by rewrite (proj2 (Z.leb_le _ _) H). Qed.

Definition call_final (o : call_out) : option call_state :=
  match o with CallDone s | CallError _ s | CallRunning s => Some s | CallPanic => None end.

Lemma run_owned inputs s s' :
  labels_wf (sc_Labels sc) (sc_Commands sc) -> call_final (run inputs s) = Some s' ->
  exists used, used ⊆+ flat_map input_ids inputs /\ owns s' ≡ₚ owns s ++ used.
Proof.
  intros Hl. revert s. induction inputs as [|inp inputs IH]; intros s; cbn [runCall].
  { destruct (_ <=? _); intros [= <-]; exists []; by rewrite app_nil_r. }
  assert (forall s1, s' = s1 -> (exists used, used ⊆+ input_ids inp /\ owns s1 ≡ₚ owns s ++ used) ->
    exists used, used ⊆+ flat_map input_ids (inp :: inputs) /\ owns s' ≡ₚ owns s ++ used) as Hend.
  { intros s1 -> (used & Hu & Ho). exists used. split; [|done]. simpl. by apply submseteq_inserts_r. }
  destruct (_ <=? _); [intros [= <-]; exists []; rewrite app_nil_r; split; [apply submseteq_nil_l|done]|].
  destruct (_ <? _); [done|]. destruct (sc_Commands sc !! _) as [cmd|]; [|done].
  destruct (step_spec inp cmd s Hl) as (Ho & _ & _).
  destruct (step inp cmd s) as [s1|s1|e s1|s1|]; try (intros [= <-]; by eapply Hend, Ho).
  - intros Hf. destruct (IH s1 Hf) as (used' & Hu' & Ho'). destruct (Ho s1 eq_refl) as (used & Hu & Ho1).
    exists (used ++ used'). split; [by apply submseteq_app|]. by rewrite Ho', Ho1, app_assoc.
Qed.

Lemma run_no_panic inputs s :
  labels_wf (sc_Labels sc) (sc_Commands sc) -> 0 <= cs_index s ->
  (forall inp cmd, inp ∈ inputs -> cmd ∈ sc_Commands sc -> ~ may_panic inp cmd) -> run inputs s <> CallPanic.
Proof.
  intros Hl. revert s. induction inputs as [|inp inputs IH]; intros s Hi Hp; cbn [runCall].
  { by destruct (_ <=? _). }
  destruct (Z.leb_spec (Z.of_nat (length (sc_Commands sc))) (cs_index s)) as [|Hlt]; [done|].
  rewrite (proj2 (Z.ltb_ge _ _)) by done. destruct (command_at s) as [cmd Hc]; [lia|]. rewrite Hc.
  destruct (step_spec inp cmd s Hl) as (_ & Hn & Hsp).
  destruct (step inp cmd s) as [s1|s1|e s1|s1|]; try done.
  - apply IH; [by apply (Hn s1)|]. intros inp' cmd' Hin. apply Hp. by right.
  - intros _. apply (Hp inp cmd); [by left|by eapply list_elem_of_lookup_2|auto].
Qed.

Lemma run_terminates inputs s :
  sc_Labels sc !! lit "_unexp.main" = None ->
  (forall i cmd, sc_Commands sc !! i = Some cmd -> forward_command (Z.of_nat i) cmd) ->
  Forall deadlines_pass inputs -> 0 <= cs_index s ->
  Z.of_nat (length (sc_Commands sc)) - cs_index s <= Z.of_nat (length inputs) ->
  forall s', run inputs s <> CallRunning s'.
Proof.
  intros Hm Hf Hd. revert s. induction Hd as [|inp inputs Hd _ IH]; intros s Hi Hlen s'.
  { rewrite runCall_done by (simpl in Hlen; lia). done. }
  destruct (Z.le_gt_cases (Z.of_nat (length (sc_Commands sc))) (cs_index s)); [by rewrite runCall_done|].
  destruct (command_at s) as [cmd Hc]; [lia|]. rewrite (runCall_cons _ _ _ cmd) by (done || lia).
  pose proof (Hf _ _ Hc) as Hfc. rewrite Z2Nat.id in Hfc by done.
  pose proof (step_forwards inp cmd s Hm Hfc) as Hs. pose proof (step_not_blocked inp cmd s) as Hb.
  destruct (step inp cmd s) as [s1|s1|e s1|s1|]; try done.
  - specialize (Hs s1 eq_refl). apply IH; simpl in Hlen; lia.
  - by destruct (Hb s1).
Qed.

(** ** What is remembered of a request *)

Lemma finishRTD_tx name now s : cs_tx (finishRTD name now s) = cs_tx s.
Proof. unfold finishRTD. by repeat case_match. Qed.

Lemma advance_tx inp cmd s s' : advance inp cmd s = Next s' -> cs_tx s' = cs_tx s.
Proof.
  unfold advance, finishCommand. cbv zeta. destruct (resolveNext _ _ _ _ _). intros [= <-]. simpl. by rewrite finishRTD_tx.
Qed.

Lemma rememberSent_lastSent pooled msg retrans now s : tx_lastSent (cs_tx (rememberSent pooled msg retrans now s)) = msg.
Proof. unfold rememberSent. by repeat case_match. Qed.

Lemma stepSend_tx inp cmd s s' req num meth branch :
  stepSend aenv isPrint cfg inp cmd s = Next s' ->
  NoDup (hdr_keys (Headers (in_pooled inp))) ->
  Parse (tx_lastSent (cs_tx s')) = Ok req -> Method req <> [] -> StatusCode req = 0 ->
  unambiguous (lit "CSeq") (Headers req) -> unambiguous (lit "Via") (Headers req) ->
  ParseCSeq (Headers req) = Some (num, meth) -> ViaBranch (Headers req) = Some branch ->
  tx_branch (cs_tx s') = branch /\ tx_method (cs_tx s') = TrimSpace meth /\ tx_cseq (cs_tx s') = num.
Proof.
  unfold stepSend. cbv zeta. destruct (in_prepare _ _ _); [|done].
  destruct (renderSIPMessage _ _ _ _ _ _ _ _) as [[msg|e]|]; [|done|done]. destruct (in_sendOk inp); [|done].
  intros H%advance_tx Hn. rewrite H, rememberSent_lastSent. intros Hp Hm Hst Hu Hv Hc Hb.
  destruct (sent_scratch (in_pooled inp) msg req Hn Hp Hm Hst Hu Hv) as (req' & Hp' & _ & Hc' & Hb').
  unfold rememberSent. rewrite Hp'. cbv zeta. rewrite Hb', Hb, Hc', Hc. by repeat case_match.
Qed.

(** * Properties *)

(** C1: Over a whole call no SIP message is lost and none is given back to the
    pool twice: the messages that arrived are stashed, held by a finished
    recv or given back, each once, and when the call ends every one of them
    is back in the pool exactly once. *)
Theorem call_message_ownership inputs s s' :
  scenario_wf sc -> NoDup (owns s ++ flat_map input_ids inputs) ->
  call_final (runCall regexMatch aenv isPrint cfg sc inputs s) = Some s' ->
  exists used, used ⊆+ flat_map input_ids inputs
    /\ owns s' ≡ₚ owns s ++ used
    /\ cs_pending (releaseMessages s') = [] /\ cs_held (releaseMessages s') = []
    /\ cs_freed (releaseMessages s') ≡ₚ owns s ++ used /\ NoDup (cs_freed (releaseMessages s')).
Proof.
  intros (_ & _ & _ & _ & Hl) Hnd Hf. destruct (run_owned _ _ _ Hl Hf) as (used & Hu & Ho).
  exists used. assert (cs_freed (releaseMessages s') ≡ₚ owns s ++ used) as Hr.
  { rewrite <- Ho. unfold owns. simpl. by rewrite (Permutation_app_comm (cs_freed s')). }
  repeat split; try done. rewrite Hr.
  apply submseteq_Permutation in Hu as [rest Hu]. rewrite Hu, app_assoc in Hnd.
  by apply NoDup_app in Hnd as [? _].
Qed.

(** C2: A parsed scenario never drives the interpreter out of its command list:
    whatever the network, the clock, the variables and the actions do, the
    loop never indexes a position outside the list; the only run-time panics
    left are those of a pause distribution, of the command queue and of the
    search for credentials keywords. *)
Theorem call_index_safe inputs s :
  scenario_wf sc -> 0 <= cs_index s ->
  (forall inp cmd, inp ∈ inputs -> cmd ∈ sc_Commands sc -> ~ may_panic inp cmd) ->
  runCall regexMatch aenv isPrint cfg sc inputs s <> CallPanic.
Proof. intros (_ & _ & _ & _ & Hl). by apply run_no_panic. Qed.

(** C3: A call on a scenario whose branches only go forward comes to an end: it
    executes at most as many commands as the scenario has, each wait ends with
    its deadline, and then the call has succeeded, failed or panicked. *)
Theorem forward_call_terminates inputs s :
  sc_Labels sc !! lit "_unexp.main" = None ->
  (forall i cmd, sc_Commands sc !! i = Some cmd -> forward_command (Z.of_nat i) cmd) ->
  Forall deadlines_pass inputs -> 0 <= cs_index s ->
  Z.of_nat (length (sc_Commands sc)) - cs_index s <= Z.of_nat (length inputs) ->
  match runCall regexMatch aenv isPrint cfg sc inputs s with
  | CallRunning _ => False
  | _ => True
  end.
Proof.
  intros Hm Hf Hd Hi Hlen. pose proof (run_terminates inputs s Hm Hf Hd Hi Hlen) as H.
  destruct (run inputs s); try done. by destruct (H s0).
Qed.

(** Receiving can fail a call only at a mandatory recv: at an optional one
    every wait that ends without the message, for whatever reason, goes to
    the next command (or to the scenario's handler). *)
Theorem optional_recv_goes_on inp cmd s re r :
  c_Type cmd = CommandRecv -> c_Optional cmd = true ->
  stepCommand regexMatch aenv isPrint cfg sc inp cmd s <> CallFailed (CallRecv re) r.
Proof.
  intros Ht Ho. unfold stepCommand. cbv zeta. destruct (negb (shouldExecute _ _ _)); [done|].
  rewrite Ht. unfold stepRecv. cbv zeta. destruct (waitForMatch _ _ _ _ _ _ _) as [m x|e' x|x]; [| |done].
  - unfold onMatched, advance. cbv zeta. destruct (negb (in_webrtc _ _)); [done|].
    match goal with |- context [runActions ?a ?b ?c ?d] => pose proof (runActions_fail a b c d) as Hf;
      destruct (runActions a b c d) end; try done; [|by destruct (resolveNext _ _ _ _ _)].
    intros [= -> ->]. by eapply Hf.
  - unfold onRecvError. cbv zeta. rewrite Ho. repeat case_match; done.
Qed.

(** C8: What a call remembers of the request it sent last stands for that request:
    after a [send] of a request with a CSeq and a Via branch, the recv filter and
    the transaction test, which look only at the remembered branch, method and
    number, decide on every incoming message as the functions that parse the
    sent message again, whatever pooled messages the parses write into. *)
Theorem sent_request_filters inp cmd s s' req num meth branch scratch rcmd m :
  stepSend aenv isPrint cfg inp cmd s = Next s' ->
  NoDup (hdr_keys (Headers (in_pooled inp))) -> NoDup (hdr_keys (Headers scratch)) ->
  Parse (tx_lastSent (cs_tx s')) = Ok req -> Method req <> [] -> StatusCode req = 0 ->
  unambiguous (lit "CSeq") (Headers req) -> unambiguous (lit "Via") (Headers req) ->
  ParseCSeq (Headers req) = Some (num, meth) -> ViaBranch (Headers req) = Some branch -> branch <> [] ->
  c_RegexpMatch rcmd = false ->
  msgMatches regexMatch rcmd (cs_tx s') m
    = MatchRecv scratch m (c_RecvReq rcmd) (c_RecvResp rcmd) (tx_lastSent (cs_tx s'))
  /\ inTransaction (cs_tx s') m = ResponseMatchesTransaction scratch m (tx_lastSent (cs_tx s')).
Proof.
  intros Hs Hn1 Hn2 Hp Hm Hst Hu Hv Hc Hb Hne Hr.
  destruct (stepSend_tx _ _ _ _ _ _ _ _ Hs Hn1 Hp Hm Hst Hu Hv Hc Hb) as (E1 & E2 & E3).
  unfold msgMatches, inTransaction. rewrite Hr, E1, E2, E3. split.
  - by apply match_recv_cached_agree with (req := req).
  - by apply response_matches_cached_agree with (req := req) (num := num).
Qed.

End ExecFacts.

(** * A concrete call *)

Definition uac_send (text : str) : rawElement :=
  mkRawElement (lit "send") text [] [] [] [] [] [] [] [] [] (lit "500") [] [] [] [] [] [] [] [] [] [] [] [] [] [] [] [].
Definition uac_recv (code optional : string) : rawElement :=
  mkRawElement (lit "recv") [] [] [] [] [] [] [] [] [] [] [] [] (lit code) [] [] (lit optional) [] [] [] [] [] [] [] [] [] [] [].

Definition invite_text : str :=
  lit "INVITE sip:b SIP/2.0" ++ crlf ++ lit "Via: SIP/2.0/[transport] h;branch=[branch]" ++ crlf
  ++ lit "Call-ID: [call_id]" ++ crlf ++ lit "CSeq: [cseq] INVITE" ++ crlf ++ lit "Content-Length: [len]" ++ crlf.
Definition ack_text : str :=
  lit "ACK sip:b SIP/2.0" ++ crlf ++ lit "Via: SIP/2.0/[transport] h;branch=[branch]" ++ crlf
  ++ lit "CSeq: [cseq] ACK" ++ crlf.

Definition uac_raw : rawScenario :=
  mkRawScenario (lit "uac") []
    (map (fun e => mkRawScenarioItem e [] [])
      [uac_send invite_text; uac_recv "100" "true"; uac_recv "200" ""; uac_send ack_text]).

Definition uac : Scenario :=
  match ParseString (fun _ => true) uac_raw with
  | Ok sc => sc
  | Err _ => mkScenario [] [] ModeClient false [] [] ∅ ∅ [] [] []
  end.

Lemma uac_wf : scenario_wf uac.
Proof.
  unfold uac. destruct (ParseString (fun _ => true) uac_raw) as [sc|e] eqn:E; [|by vm_compute in E].
  by eapply ParseString_wf.
Qed.

Definition demo_config : call_config := mkCallConfig 1 2 3 (mkCommandConfig [] None) [] [] (lit "u1") 7.

Definition uac_start : call_state :=
  startCall (mkEngineConfig (lit "svc") 1 0 ∅ [] [] [] [] [] 9) uac false [] [] (lit "u1") 7 (lit "c7") (lit "10.0.0.1") 5060
    (lit "10.0.0.2") 5060 newScopedVars (mkFrand (fun _ => fone) 0) newCommandBroker.

Definition demo_input (ticks : list rtick) : step_input :=
  mkInput 0 0 (mkRng (fun _ => 0) fone) true (fun c _ => Some (ExtraKeywords c)) (fun _ => None) 0 0 emptyMessage true
    (ticks ++ [late_tick]) [mkTick id (fun _ => []) false true] (fun _ => false) (fun _ _ => false) None (fun _ => true).

(** The answer to the INVITE that [randomBranch] numbered. *)
Definition uac_ok : pmsg := mkPmsg 1 (sample_response 200 "z9hG4bK-gossip-7-0" "1 INVITE").
Definition uac_busy : pmsg := mkPmsg 2 (sample_response 486 "z9hG4bK-gossip-7-0" "1 INVITE").

Definition ascii_only : Z -> bool := fun _ => false.

Definition run_uac (inputs : list step_input) : call_out :=
  runCall no_regex blank_env ascii_only demo_config uac inputs uac_start.

Definition sent_lines (o : call_out) : list str :=
  flat_map (fun e => match e with EvSent m => take 1 (SplitStr m crlf) | _ => [] end)
    (match call_final o with Some s => cs_log s | None => [] end).

Definition status_of (o : call_out) : option (bool * Z) :=
  match o with
  | CallDone s => Some (true, cs_index s)
  | CallError _ s => Some (false, cs_index s)
  | _ => None
  end.

(** The 200 that arrives at the optional recv for 100 is stashed and taken from
    there by the mandatory one. *)
Example uac_call_succeeds :
  let o := run_uac [demo_input []; demo_input [on_net uac_ok]; demo_input [quiet_tick]; demo_input []] in
  status_of o = Some (true, 4)
  /\ sent_lines o = [lit "INVITE sip:b SIP/2.0"; lit "ACK sip:b SIP/2.0"].
Proof. vm_compute. split; reflexivity. Qed.

Example uac_call_fails :
  status_of (run_uac [demo_input []; demo_input []; demo_input [on_net uac_busy]; demo_input []]) = Some (false, 2).
Proof. vm_compute. reflexivity. Qed.

Definition uac_inputs : list step_input :=
  [demo_input []; demo_input [on_net uac_ok]; demo_input [quiet_tick]; demo_input []].

Lemma call_message_ownership_witness :
  exists s', call_final (runCall no_regex blank_env ascii_only demo_config uac uac_inputs uac_start) = Some s' /\
  exists used, used ⊆+ flat_map input_ids uac_inputs
    /\ owns s' ≡ₚ owns uac_start ++ used
    /\ cs_pending (releaseMessages s') = [] /\ cs_held (releaseMessages s') = []
    /\ cs_freed (releaseMessages s') ≡ₚ owns uac_start ++ used /\ NoDup (cs_freed (releaseMessages s')).
Proof.
  assert (match call_final (runCall no_regex blank_env ascii_only demo_config uac uac_inputs uac_start) with
          | Some _ => true | None => false end = true) as Hf by (vm_compute; reflexivity).
  destruct (call_final (runCall no_regex blank_env ascii_only demo_config uac uac_inputs uac_start)) as [s'|] eqn:E; [|discriminate Hf].
  exists s'. split; [reflexivity|].
  apply (call_message_ownership no_regex blank_env ascii_only demo_config uac uac_inputs uac_start s' uac_wf); [|exact E].
  apply (bool_decide_unpack _). vm_compute. reflexivity.
Defined.

Lemma call_index_safe_witness : runCall no_regex blank_env ascii_only demo_config uac uac_inputs uac_start <> CallPanic.
Proof.
  apply (call_index_safe no_regex blank_env ascii_only demo_config uac uac_inputs uac_start uac_wf).
  - vm_compute. discriminate.
  - intros inp cmd Hi Hc [(p & Hp & _)|[(key & b & H)|H]].
    + assert (Forall (fun c => bool_decide (c_Pause c = None) = true) (sc_Commands uac)) as Hall
        by (vm_compute; repeat constructor).
      rewrite Forall_forall in Hall. apply Hall in Hc. apply bool_decide_eq_true in Hc. congruence.
    + assert (in_cmdTicks inp = [mkTick id (fun _ => []) false true]) as E.
      { unfold uac_inputs in Hi. rewrite !elem_of_cons in Hi.
        destruct Hi as [->|[->|[->|[->|Hi]]]]; [done..|]. by apply elem_of_nil in Hi. }
      rewrite E in H. unfold waitForCommand in H. cbn [wait_loop tk_arrivals tk_late tk_cancelled] in H.
      unfold poll in H. destruct (match key with [] => [] | _ => _ end); [done|].
      by destruct (dequeue _ _ _ _) as [[]|].
    + assert (forallb (fun c => match extractAuthKeywordOptions (normalizeSIPScenarioLineIndent (c_SendText c)) with
                                | Panic => false | Ret _ => true end) (sc_Commands uac) = true) as Hall
        by (vm_compute; reflexivity).
      rewrite forallb_forall in Hall. apply list_elem_of_In, Hall in Hc. by rewrite H in Hc.
Defined.

Lemma forward_call_terminates_witness :
  match runCall no_regex blank_env ascii_only demo_config uac uac_inputs uac_start with CallRunning _ => False | _ => True end.
Proof.
  apply (forward_call_terminates no_regex blank_env ascii_only demo_config uac uac_inputs uac_start).
  - vm_compute. reflexivity.
  - intros i cmd Hc.
    assert (Forall (fun c => (c_NextIndex c <? 0) && bool_decide (c_Actions c = []) = true) (sc_Commands uac)) as Hall
      by (vm_compute; repeat constructor).
    rewrite Forall_forall in Hall. apply list_elem_of_lookup_2, Hall, andb_true_iff in Hc as [H1 H2].
    apply Z.ltb_lt in H1. apply bool_decide_eq_true in H2. split; [by left|]. rewrite H2. constructor.
  - repeat constructor; first [by right; left | by left | by right; right; left].
  - vm_compute. discriminate.
  - vm_compute. discriminate.
Defined.

Definition command_of (i : nat) : Command := default (blankCommand CommandNop 0) (sc_Commands uac !! i).

Lemma optional_recv_goes_on_witness :
  stepCommand no_regex blank_env ascii_only demo_config uac (demo_input []) (command_of 1) uac_start
  <> CallFailed (CallRecv ErrDeadline) uac_start.
Proof.
  apply (optional_recv_goes_on no_regex blank_env ascii_only demo_config uac (demo_input []) (command_of 1) uac_start
    ErrDeadline uac_start); vm_compute; reflexivity.
Defined.

Definition sent_invite : str :=
  lit "INVITE sip:b SIP/2.0" ++ crlf ++ lit "Via: SIP/2.0/UDP h;branch=z9hG4bK-gossip-7-0" ++ crlf
  ++ lit "Call-ID: c7" ++ crlf ++ lit "CSeq: 1 INVITE" ++ crlf ++ lit "Content-Length: 0" ++ crlf ++ crlf.

Definition sent_parsed : Message := match Parse sent_invite with Ok m => m | Err _ => emptyMessage end.

Lemma sent_request_filters_witness :
  exists s', stepSend blank_env ascii_only demo_config (demo_input []) (command_of 0) uac_start = Next s'
  /\ msgMatches no_regex (command_of 2) (cs_tx s') (pm_msg uac_ok)
     = MatchRecv emptyMessage (pm_msg uac_ok) [] (lit "200") (tx_lastSent (cs_tx s'))
  /\ inTransaction (cs_tx s') (pm_msg uac_ok) = ResponseMatchesTransaction emptyMessage (pm_msg uac_ok) (tx_lastSent (cs_tx s')).
Proof.
  assert (match stepSend blank_env ascii_only demo_config (demo_input []) (command_of 0) uac_start with
          | Next s => tx_lastSent (cs_tx s) | _ => [] end = sent_invite) as H by (vm_compute; reflexivity).
  destruct (stepSend blank_env ascii_only demo_config (demo_input []) (command_of 0) uac_start) as [s'|s'|e s'|s'|] eqn:E;
    [|vm_compute in H; discriminate H..].
  exists s'. split; [done|].
  apply (sent_request_filters no_regex blank_env ascii_only demo_config (demo_input []) (command_of 0) uac_start s'
    sent_parsed 1 (lit "INVITE") (lit "z9hG4bK-gossip-7-0") emptyMessage (command_of 2) (pm_msg uac_ok) E);
    rewrite ?H; demo_hyp.
Defined.
