(* ===== verification/Dispatch.v ===== *)
(** * From packets to calls (the demultiplexers of [internal/engine/engine.go])

    [callIDShard] and [mailboxRegistry], which bring the packets of a client to
    its calls, and [udpServerReceivePump] with [serverMultiCoordinator], which
    bring those of a server to its sessions.  Channels are bounded queues; the
    goroutines are steps of a transition relation, split where another
    goroutine can run in between. *)

From stdpp Require Import base list gmap strings relations.
From Stdlib Require Import ZArith Lia Strings.Byte.
From S2P Require Import Prelude GoStrings GoFloat SipMessage Scenario EngineText Recv.

(** ** The shard of a packet *)

Definition one_of_bytes (b : byte) (l : string) : bool := existsb (beqb b) (lit l).

Definition is_call_id_line (line : str) : bool :=
  match line with
  | c0 :: c1 :: c2 :: c3 :: c4 :: c5 :: c6 :: c7 :: _ :: _ =>
    one_of_bytes c0 "Cc" && one_of_bytes c1 "aA" && one_of_bytes c2 "lL" && one_of_bytes c3 "lL"
    && beqb c4 x2d && one_of_bytes c5 "Ii" && one_of_bytes c6 "Dd" && beqb c7 x3a
  | _ => false
  end.

Definition is_compact_line (line : str) : bool :=
  match line with
  | c0 :: c1 :: _ :: _ => one_of_bytes c0 "iI" && beqb c1 x3a
  | _ => false
  end.

(** The text after the first [Call-ID:] or [i:] that starts a line; the scan
    stops eight bytes before the end. *)
Fixpoint scanCallID (raw : str) : option str :=
  match raw with
  | [] => None
  | b :: line =>
    if (length line <? 8)%nat then None
    else if negb (beqb b x0a) then scanCallID line
    else if is_call_id_line line then Some (drop 8 line)
    else if is_compact_line line then Some (drop 2 line)
    else scanCallID line
  end.

(** FNV-1a up to the end of the line. *)
Fixpoint fnv (h : Z) (value : str) : Z :=
  match value with
  | [] => h
  | b :: rest => if is_crlf b then h else fnv (u32 (Z.lxor h (b2z b) * 16777619)) rest
  end.

Definition callIDShard (raw : str) (n : Z) : Z :=
  match scanCallID raw with
  | None => 0
  | Some value => fnv 2166136261 value mod u32 n
  end.

(** [dispatchWorkers] *)
Definition dispatchWorkers (gomaxprocs : Z) : Z :=
  if gomaxprocs <? 2 then 2 else if 8 <? gomaxprocs then 8 else gomaxprocs.

(** ** Mailboxes of a client *)

Definition sipMailboxCap : nat := 512.

(** A channel is numbered by its position; [mr_keys] remembers the name each
    was registered under. *)
Record mailboxRegistry := mkRegistry {
  mr_names : gmap str nat;
  mr_keys : list str;
  mr_chans : list (list pmsg);
  mr_flight : list (nat * pmsg);     (* parsed and looked up, not yet sent *)
  mr_drain : list nat;               (* channels an [unregister] still empties *)
  mr_freed : list nat;
  mr_taken : list nat
}.

Definition newMailboxRegistry : mailboxRegistry := mkRegistry ∅ [] [] [] [] [] [].

Definition register (callID : str) (r : mailboxRegistry) : mailboxRegistry :=
  mkRegistry (<[NormalizeCallID callID := length (mr_chans r)]> (mr_names r))
    (mr_keys r ++ [NormalizeCallID callID]) (mr_chans r ++ [[]])
    (mr_flight r) (mr_drain r) (mr_freed r) (mr_taken r).

(** [unregister]: the name goes at once, the channel is emptied afterwards. *)
Definition unregister (callID : str) (r : mailboxRegistry) : mailboxRegistry :=
  match mr_names r !! NormalizeCallID callID with
  | None => r
  | Some ch => mkRegistry (delete (NormalizeCallID callID) (mr_names r)) (mr_keys r) (mr_chans r)
                 (mr_flight r) (ch :: mr_drain r) (mr_freed r) (mr_taken r)
  end.

Definition setChan (ch : nat) (q : list pmsg) (r : mailboxRegistry) : mailboxRegistry :=
  mkRegistry (mr_names r) (mr_keys r) (<[ch := q]> (mr_chans r)) (mr_flight r) (mr_drain r) (mr_freed r) (mr_taken r).
Definition freeId (i : nat) (r : mailboxRegistry) : mailboxRegistry :=
  mkRegistry (mr_names r) (mr_keys r) (mr_chans r) (mr_flight r) (mr_drain r) (i :: mr_freed r) (mr_taken r).
Definition takeId (i : nat) (r : mailboxRegistry) : mailboxRegistry :=
  mkRegistry (mr_names r) (mr_keys r) (mr_chans r) (mr_flight r) (mr_drain r) (mr_freed r) (i :: mr_taken r).
Definition withDrain (d : list nat) (r : mailboxRegistry) : mailboxRegistry :=
  mkRegistry (mr_names r) (mr_keys r) (mr_chans r) (mr_flight r) d (mr_freed r) (mr_taken r).
Definition withFlight (f : list (nat * pmsg)) (r : mailboxRegistry) : mailboxRegistry :=
  mkRegistry (mr_names r) (mr_keys r) (mr_chans r) f (mr_drain r) (mr_freed r) (mr_taken r).

(** One turn of the drain loop of [unregister] on the first of its channels. *)
Definition drainOne (r : mailboxRegistry) : mailboxRegistry :=
  match mr_drain r with
  | [] => r
  | ch :: rest =>
    match mr_chans r !! ch with
    | Some (m :: q) => freeId (pm_id m) (setChan ch q r)
    | _ => withDrain rest r
    end
  end.

(** [dispatch] up to the lookup: [pooled] is what [GetMessage] returned as object [i]. *)
Definition dispatchLookup (i : nat) (pooled : Message) (data : str) (r : mailboxRegistry) : mailboxRegistry :=
  match ParseInto pooled data with
  | Err _ => freeId i r
  | Ok msg =>
    match Header (Headers msg) (lit "Call-ID") with
    | None => freeId i r
    | Some callID =>
      match mr_names r !! NormalizeCallID callID with
      | None => freeId i r
      | Some ch => withFlight ((ch, mkPmsg i msg) :: mr_flight r) r
      end
    end
  end.

(** The non-blocking send of [dispatch]. *)
Definition dispatchSend (ch : nat) (m : pmsg) (r : mailboxRegistry) : mailboxRegistry :=
  match mr_chans r !! ch with
  | Some q => if (length q <? sipMailboxCap)%nat then setChan ch (q ++ [m]) r else freeId (pm_id m) r
  | None => r
  end.

(** A call takes the next message of its mailbox. *)
Definition takeNext (ch : nat) (r : mailboxRegistry) : mailboxRegistry :=
  match mr_chans r !! ch with
  | Some (m :: q) => takeId (pm_id m) (setChan ch q r)
  | _ => r
  end.

(** The registry and the identities of the packets that arrived. *)
Inductive reg_step : list nat * mailboxRegistry -> list nat * mailboxRegistry -> Prop :=
  | RegRegister ids r id : reg_step (ids, r) (ids, register id r)
  | RegUnregister ids r id : reg_step (ids, r) (ids, unregister id r)
  | RegDrain ids r : reg_step (ids, r) (ids, drainOne r)
  | RegLookup ids r i pooled data :
      i ∉ ids -> reg_step (ids, r) (i :: ids, dispatchLookup i pooled data r)
  | RegSend ids r l ch m rest :
      mr_flight r = l ++ (ch, m) :: rest -> reg_step (ids, r) (ids, dispatchSend ch m (withFlight (l ++ rest) r))
  | RegTake ids r ch : reg_step (ids, r) (ids, takeNext ch r).

Definition reg_reachable : list nat * mailboxRegistry -> Prop := rtc reg_step ([], newMailboxRegistry).

(** ** Lemmas *)

Lemma fnv_range value h : 0 <= h < 2 ^ 32 -> 0 <= fnv h value < 2 ^ 32.
Proof.
  revert h. induction value as [|b value IH]; intros h Hh; [done|]. cbn [fnv].
  destruct (is_crlf b); [done|]. apply IH. apply u32_range.
Qed.

(** What of the header value the shard depends on. *)
Lemma fnv_line h value rest b : Forall (fun c => is_crlf c = false) value -> is_crlf b = true ->
  fnv h (value ++ b :: rest) = fnv h value.
Proof.
  intros Hv Hb. revert h. induction Hv as [|c value Hc _ IH]; intros h; cbn [app fnv].
  - by rewrite Hb.
  - rewrite Hc. apply IH.
Qed.

Definition ids_of (r : mailboxRegistry) : list nat :=
  map (fun p => pm_id p.2) (mr_flight r) ++ map pm_id (concat (mr_chans r)) ++ mr_freed r ++ mr_taken r.

(** The name a message belongs to. *)
Definition message_key (m : Message) : option str := NormalizeCallID <$> Header (Headers m) (lit "Call-ID").

Record reg_inv (ids : list nat) (r : mailboxRegistry) : Prop := {
  ri_ids : ids_of r ≡ₚ ids;
  ri_unique : NoDup ids;
  ri_len : length (mr_keys r) = length (mr_chans r);
  ri_names : forall key ch, mr_names r !! key = Some ch -> mr_keys r !! ch = Some key;
  ri_cap : Forall (fun q => (length q <= sipMailboxCap)%nat) (mr_chans r);
  ri_queue : forall ch q m, mr_chans r !! ch = Some q -> m ∈ q -> message_key (pm_msg m) = mr_keys r !! ch;
  ri_flight : forall ch m, (ch, m) ∈ mr_flight r ->
    (ch < length (mr_chans r))%nat /\ message_key (pm_msg m) = mr_keys r !! ch
}.

Lemma concat_insert {A} (l : list (list A)) i q q' : l !! i = Some q ->
  concat l ≡ₚ q ++ concat (delete i l) /\ concat (<[i := q']> l) ≡ₚ q' ++ concat (delete i l).
Proof.
  revert i. induction l as [|x l IH]; intros [|i] H; [done|done|by injection H as ->|].
  destruct (IH i H) as [H1 H2]. change (delete (S i) (x :: l)) with (x :: delete i l). cbn [concat insert list_insert].
  rewrite H1, H2. split; rewrite !app_assoc; f_equiv; apply Permutation_app_comm.
Qed.

(** Replacing one queue. *)
Lemma inv_setChan ids ids' r ch q q' :
  reg_inv ids r -> mr_chans r !! ch = Some q -> (length q' <= sipMailboxCap)%nat ->
  (forall m, m ∈ q' -> message_key (pm_msg m) = mr_keys r !! ch) ->
  NoDup ids' -> ids_of (setChan ch q' r) ≡ₚ ids' ->
  reg_inv ids' (setChan ch q' r).
Proof.
  intros [H1 H2 H3 H4 H5 H6 H7] Hq Hc Hm Hn Hp. split; simpl; try done.
  - by rewrite length_insert.
  - by apply Forall_insert.
  - intros ch' x m Hx Hin. destruct (decide (ch' = ch)) as [->|Hne].
    + rewrite list_lookup_insert_eq in Hx by (by eapply lookup_lt_Some). injection Hx as <-. by apply Hm.
    + rewrite list_lookup_insert_ne in Hx by done. by eapply H6.
  - intros ch' m Hin. rewrite length_insert. by apply H7.
Qed.

(** An identity moves from or to the given-back and taken lists. *)
Lemma inv_move ids ids' r r' :
  reg_inv ids r -> NoDup ids' -> ids_of r' ≡ₚ ids' ->
  mr_names r' = mr_names r -> mr_keys r' = mr_keys r -> mr_chans r' = mr_chans r ->
  (forall x, x ∈ mr_flight r' -> x ∈ mr_flight r) -> reg_inv ids' r'.
Proof.
  intros [H1 H2 H3 H4 H5 H6 H7] Hn Hp E1 E2 E3 E4. split; rewrite ?E1, ?E2, ?E3; try done.
  intros ch m Hin. apply H7. by apply E4.
Qed.

Lemma ids_setChan_pop r ch m q : mr_chans r !! ch = Some (m :: q) ->
  ids_of r ≡ₚ pm_id m :: ids_of (setChan ch q r).
Proof.
  intros H. unfold ids_of. simpl. destruct (concat_insert _ _ _ q H) as [E1 E2].
  rewrite E1, E2. cbn [app map]. by rewrite <- Permutation_middle.
Qed.

Lemma ids_setChan_push r ch m q : mr_chans r !! ch = Some q ->
  ids_of (setChan ch (q ++ [m]) r) ≡ₚ pm_id m :: ids_of r.
Proof.
  intros H. unfold ids_of. simpl. destruct (concat_insert _ _ _ (q ++ [m]) H) as [E1 E2].
  rewrite E1, E2. rewrite !map_app, <- !app_assoc. cbn [map app]. by rewrite <- !Permutation_middle.
Qed.

Lemma ids_free i r : ids_of (freeId i r) ≡ₚ i :: ids_of r.
Proof. unfold ids_of. simpl. by rewrite <- !Permutation_middle. Qed.

Lemma ids_take i r : ids_of (takeId i r) ≡ₚ i :: ids_of r.
Proof. unfold ids_of. simpl. by rewrite <- !Permutation_middle. Qed.

Lemma inv_pop ids r ch m q : reg_inv ids r -> mr_chans r !! ch = Some (m :: q) ->
  exists ids', ids ≡ₚ pm_id m :: ids' /\ reg_inv ids' (setChan ch q r).
Proof.
  intros Hi Hq. pose proof (ids_setChan_pop r ch m q Hq) as Hp. exists (ids_of (setChan ch q r)).
  pose proof (ri_ids _ _ Hi) as H1. rewrite Hp in H1. split; [by rewrite <- H1|].
  eapply inv_setChan; [exact Hi|exact Hq| | | |done].
  - pose proof (ri_cap _ _ Hi) as Hc. eapply Forall_lookup_1 in Hc; [|exact Hq]. simpl in Hc. lia.
  - intros x Hx. eapply (ri_queue _ _ Hi); [exact Hq|by right].
  - pose proof (ri_unique _ _ Hi) as Hn. rewrite <- H1 in Hn. by apply NoDup_cons in Hn as [_ ?].
Qed.

Lemma inv_perm ids ids' r : ids ≡ₚ ids' -> reg_inv ids r -> reg_inv ids' r.
Proof. intros Hp [H1 H2 H3 H4 H5 H6 H7]. split; try done; by rewrite <- Hp. Qed.

Lemma inv_drain ids r : reg_inv ids r -> reg_inv ids (drainOne r).
Proof.
  intros Hi. unfold drainOne. destruct (mr_drain r) as [|ch rest]; [done|].
  assert (reg_inv ids (withDrain rest r)) as Hd by (by apply (inv_move ids ids r); try done; apply Hi).
  destruct (mr_chans r !! ch) as [[|m q]|] eqn:E; [done| |done].
  destruct (inv_pop _ _ _ _ _ Hi E) as (ids' & Hp & Hi').
  apply (inv_move ids' ids (setChan ch q r)); try done; [apply Hi|].
  rewrite ids_free, (ri_ids _ _ Hi'). by symmetry.
Qed.

Lemma inv_takeNext ids r ch : reg_inv ids r -> reg_inv ids (takeNext ch r).
Proof.
  intros Hi. unfold takeNext. destruct (mr_chans r !! ch) as [[|m q]|] eqn:E; [done| |done].
  destruct (inv_pop _ _ _ _ _ Hi E) as (ids' & Hp & Hi').
  apply (inv_move ids' ids (setChan ch q r)); try done; [apply Hi|].
  rewrite ids_take, (ri_ids _ _ Hi'). by symmetry.
Qed.

Lemma inv_register ids r id : reg_inv ids r -> reg_inv ids (register id r).
Proof.
  intros [H1 H2 H3 H4 H5 H6 H7]. split; simpl; try done.
  - unfold ids_of in *. simpl. by rewrite concat_app, app_nil_r.
  - by rewrite !length_app, H3.
  - intros key ch. destruct (decide (key = NormalizeCallID id)) as [->|Hne].
    + rewrite lookup_insert_eq. intros [= <-]. by rewrite <- H3, list_lookup_middle.
    + rewrite lookup_insert_ne by done. intros Hk. apply lookup_app_l_Some. by apply H4.
  - apply Forall_app. split; [done|]. constructor; [simpl; lia|constructor].
  - intros ch q m Hq Hin. apply lookup_app_Some in Hq as [Hq|[_ Hq]].
    + rewrite lookup_app_l; [by eapply H6|]. rewrite H3. by eapply lookup_lt_Some.
    + apply list_lookup_singleton_Some in Hq as [_ <-]. by apply elem_of_nil in Hin.
  - intros ch m Hin. destruct (H7 ch m Hin) as [Hl Hk]. rewrite length_app. split; [lia|].
    by rewrite lookup_app_l by (rewrite H3; lia).
Qed.

Lemma inv_unregister ids r id : reg_inv ids r -> reg_inv ids (unregister id r).
Proof.
  intros Hi. unfold unregister. destruct (mr_names r !! NormalizeCallID id) as [ch|]; [|done].
  destruct Hi as [H1 H2 H3 H4 H5 H6 H7]. split; try done.
  simpl. intros key c Hk. apply lookup_delete_Some in Hk as [_ Hk]. by apply H4.
Qed.

Lemma inv_lookup ids r i pooled data : reg_inv ids r -> i ∉ ids -> reg_inv (i :: ids) (dispatchLookup i pooled data r).
Proof.
  intros Hi Hn.
  assert (NoDup (i :: ids)) as Hnd by (constructor; [done|apply Hi]).
  assert (reg_inv (i :: ids) (freeId i r)) as Hf.
  { apply (inv_move ids (i :: ids) r); try done. by rewrite ids_free, (ri_ids _ _ Hi). }
  unfold dispatchLookup. destruct (ParseInto pooled data) as [msg|]; [|done].
  destruct (Header (Headers msg) (lit "Call-ID")) as [callID|] eqn:Eh; [|done].
  destruct (mr_names r !! NormalizeCallID callID) as [ch|] eqn:En; [|done].
  pose proof (ri_names _ _ Hi _ _ En) as Hk. destruct Hi as [H1 H2 H3 H4 H5 H6 H7]. split; simpl; try done.
  - unfold ids_of in *. simpl. by rewrite H1.
  - intros c m Hin. apply elem_of_cons in Hin as [[= -> ->]|Hin]; [|by apply H7].
    split; [rewrite <- H3; by eapply lookup_lt_Some|]. unfold message_key. simpl. by rewrite Eh, Hk.
Qed.

Lemma inv_send ids r l ch m rest : reg_inv ids r -> mr_flight r = l ++ (ch, m) :: rest ->
  reg_inv ids (dispatchSend ch m (withFlight (l ++ rest) r)).
Proof.
  intros Hi Hfl. set (r1 := withFlight (l ++ rest) r).
  assert ((ch, m) ∈ mr_flight r) as Hin by (rewrite Hfl; apply elem_of_app; right; by left).
  destruct (ri_flight _ _ Hi ch m Hin) as [Hlen Hkey].
  assert (ids ≡ₚ pm_id m :: ids_of r1) as Hp.
  { rewrite <- (ri_ids _ _ Hi). unfold ids_of. rewrite Hfl. simpl. rewrite !map_app. cbn [map].
    rewrite <- !app_assoc. cbn [app]. by rewrite <- Permutation_middle. }
  assert (reg_inv (ids_of r1) r1) as Hi1.
  { apply (inv_move ids (ids_of r1) r); try done.
    - pose proof (ri_unique _ _ Hi) as Hn. rewrite Hp in Hn. by apply NoDup_cons in Hn as [_ ?].
    - intros x Hx. simpl in Hx. rewrite Hfl. rewrite elem_of_app in Hx |- *. rewrite elem_of_cons. tauto. }
  unfold dispatchSend. change (mr_chans r1) with (mr_chans r).
  destruct (lookup_lt_is_Some_2 (mr_chans r) ch Hlen) as [q Hq]. rewrite Hq.
  destruct (Nat.ltb_spec (length q) sipMailboxCap) as [Hlt|Hge].
  - eapply (inv_setChan _ _ r1); [exact Hi1|exact Hq| | |apply Hi|].
    + rewrite length_app. simpl. lia.
    + intros x Hx. apply elem_of_app in Hx as [Hx|Hx]; [by eapply (ri_queue _ _ Hi1)|].
      apply list_elem_of_singleton in Hx as ->. exact Hkey.
    + rewrite (ids_setChan_push r1 ch m q Hq). by symmetry.
  - apply (inv_move (ids_of r1) ids r1); try done; [apply Hi|]. rewrite ids_free. by symmetry.
Qed.

Lemma reg_inv_step x y : reg_inv x.1 x.2 -> reg_step x y -> reg_inv y.1 y.2.
Proof.
  intros Hi Hs. destruct Hs; simpl in *.
  - by apply inv_register.
  - by apply inv_unregister.
  - by apply inv_drain.
  - by apply inv_lookup.
  - by apply inv_send.
  - by apply inv_takeNext.
Qed.

Lemma reg_inv_reachable x : reg_reachable x -> reg_inv x.1 x.2.
Proof.
  unfold reg_reachable. intros H. assert (reg_inv [] newMailboxRegistry) as H0.
  { split; simpl; [done|constructor|done| |constructor| |].
    - intros key ch Hk. by rewrite lookup_empty in Hk.
    - done.
    - intros ch m Hin. by apply elem_of_nil in Hin. }
  change (reg_inv (@nil nat, newMailboxRegistry).1 (@nil nat, newMailboxRegistry).2) in H0.
  induction H as [|a b c Hs _ IH]; [done|]. apply IH. by eapply reg_inv_step.
Qed.

(** ** Sessions of a UDP server *)

(** A session and the call number it was given; its first message is put into
    the inbox by the goroutine of the call. *)
Record serverUDPSession := mkSession {
  ss_number : Z;
  ss_start : option pmsg;
  ss_inbox : list pmsg
}.

Record serverMultiCoordinator := mkCoordinator {
  co_sessions : gmap str serverUDPSession;
  co_accepted : Z;
  co_finished : Z;
  co_done : bool
}.

Definition newServerMultiCoordinator : serverMultiCoordinator := mkCoordinator ∅ 0 0 false.

Definition finishCallUnlocked (lm : limits) (co : serverMultiCoordinator) : serverMultiCoordinator :=
  let finished := co_finished co + 1 in
  mkCoordinator (co_sessions co) (co_accepted co) finished (co_done co || serverFinishedAll lm finished).

Definition reserveCallSlot (lm : limits) (co : serverMultiCoordinator) : option Z * serverMultiCoordinator :=
  if serverRejectNew lm (co_accepted co) then (None, co)
  else (Some (co_accepted co + 1), mkCoordinator (co_sessions co) (co_accepted co + 1) (co_finished co) (co_done co)).

Inductive pump_effect :=
  | PumpDropped                       (* given back to the pool *)
  | PumpStarted (callID : str) (callNumber : Z)
  | PumpDelivered (callID : str)
  | PumpFull (callID : str).          (* given back, the inbox is full *)

Section Server.

Context (regexMatch : str -> str -> bool) (lm : limits).

(** [snapshotLiveFirstRecvCommand] *)
Definition snapshotLiveFirstRecvCommand (sc : Scenario) : option Command :=
  let i := firstReceiveIndex sc in
  if (i <? 0) || (Z.of_nat (length (sc_Commands sc)) <=? i) then None
  else match sc_Commands sc !! Z.to_nat i with
       | Some cmd => if bool_decide (c_Type cmd = CommandRecv) then Some cmd else None
       | None => None
       end.

(** Whether a message may open a dialog. *)
Definition matchesFirst (cmd : Command) (m : Message) : bool :=
  match c_RegexpMatch cmd, c_RecvReqRegex cmd with
  | true, Some re => regexMatch re (StartLine m)
  | _, _ => Match m (c_RecvReq cmd) (c_RecvResp cmd)
  end.

(** One packet of [udpServerReceivePump]; [accept] is [listenerAcceptNew]. *)
Definition pumpPacket (accept : bool) (sc : Scenario) (i : nat) (pooled : Message) (data : str)
    (co : serverMultiCoordinator) : pump_effect * serverMultiCoordinator :=
  match ParseInto pooled data with
  | Err _ => (PumpDropped, co)
  | Ok msg =>
    match Header (Headers msg) (lit "Call-ID") with
    | None => (PumpDropped, co)
    | Some callID =>
      let callID := NormalizeCallID callID in
      match co_sessions co !! callID with
      | None =>
        if negb accept then (PumpDropped, co)
        else match snapshotLiveFirstRecvCommand sc with
        | None => (PumpDropped, co)
        | Some firstCmd =>
          if negb (matchesFirst firstCmd msg) || serverRejectNew lm (co_accepted co) then (PumpDropped, co)
          else
            let callNumber := co_accepted co + 1 in
            (PumpStarted callID callNumber,
             mkCoordinator (<[callID := mkSession callNumber (Some (mkPmsg i msg)) []]> (co_sessions co))
               callNumber (co_finished co) (co_done co))
        end
      | Some sess =>
        if (length (ss_inbox sess) <? sipMailboxCap)%nat
        then (PumpDelivered callID,
              mkCoordinator (<[callID := mkSession (ss_number sess) (ss_start sess) (ss_inbox sess ++ [mkPmsg i msg])]>
                               (co_sessions co)) (co_accepted co) (co_finished co) (co_done co))
        else (PumpFull callID, co)
      end
    end
  end.

(** The goroutine of a call puts its first message into the inbox (it waits
    while that is full). *)
Definition putStart (callID : str) (co : serverMultiCoordinator) : serverMultiCoordinator :=
  match co_sessions co !! callID with
  | Some (mkSession n (Some m) inbox) =>
    if (length inbox <? sipMailboxCap)%nat
    then mkCoordinator (<[callID := mkSession n None (inbox ++ [m])]> (co_sessions co)) (co_accepted co)
           (co_finished co) (co_done co)
    else co
  | _ => co
  end.

(** The end of a call whose goroutine has put its first message. *)
Definition endSession (callID : str) (co : serverMultiCoordinator) : serverMultiCoordinator :=
  match co_sessions co !! callID with
  | Some (mkSession _ None _) =>
    finishCallUnlocked lm (mkCoordinator (delete callID (co_sessions co)) (co_accepted co) (co_finished co) (co_done co))
  | _ => co
  end.

Inductive co_step : serverMultiCoordinator -> serverMultiCoordinator -> Prop :=
  | CoPacket accept sc i pooled data co : co_step co (pumpPacket accept sc i pooled data co).2
  | CoStart callID co : co_step co (putStart callID co)
  | CoEnd callID co : co_step co (endSession callID co).

Definition co_reachable : serverMultiCoordinator -> Prop := rtc co_step newServerMultiCoordinator.

Record co_inv (co : serverMultiCoordinator) : Prop := {
  ci_active : Z.of_nat (size (co_sessions co)) = co_accepted co - co_finished co;
  ci_finished : 0 <= co_finished co;
  ci_limit : lm_UnlimitedCalls lm = true \/ co_accepted co <= Z.max 0 (lm_TotalCalls lm);
  ci_done : co_done co = true <-> 0 < co_finished co /\ serverFinishedAll lm (co_finished co) = true;
  ci_number : forall id s, co_sessions co !! id = Some s -> 1 <= ss_number s <= co_accepted co;
  ci_unique : forall id1 id2 s1 s2, co_sessions co !! id1 = Some s1 -> co_sessions co !! id2 = Some s2 ->
    ss_number s1 = ss_number s2 -> id1 = id2
}.

(** Changing a session without its number. *)
Lemma inv_update co id s s' :
  co_inv co -> co_sessions co !! id = Some s -> ss_number s' = ss_number s ->
  co_inv (mkCoordinator (<[id := s']> (co_sessions co)) (co_accepted co) (co_finished co) (co_done co)).
Proof.
  intros [H1 H2 H3 H4 H5 H6] Hs Hn. split; simpl; try done.
  - by rewrite map_size_insert_Some.
  - intros id' x Hx. apply lookup_insert_Some in Hx as [[_ <-]|[_ Hx]]; [rewrite Hn|]; by eapply H5.
  - intros id1 id2 s1 s2 L1 L2 E. apply lookup_insert_Some in L1, L2.
    destruct L1 as [[<- <-]|[N1 L1]], L2 as [[<- <-]|[N2 L2]]; try done; rewrite ?Hn in E.
    + by apply (H6 id id2 s s2).
    + by apply (H6 id1 id s1 s).
    + by apply (H6 id1 id2 s1 s2).
Qed.

Lemma inv_packet accept sc i pooled data co : co_inv co -> co_inv (pumpPacket accept sc i pooled data co).2.
Proof.
  intros Hi. unfold pumpPacket. destruct (ParseInto pooled data) as [msg|]; [|done].
  destruct (Header _ _) as [callID|]; [|done]. cbv zeta.
  destruct (co_sessions co !! NormalizeCallID callID) as [s|] eqn:E.
  - destruct (_ <? _)%nat; [|done]. simpl. by eapply inv_update.
  - destruct (negb accept); [done|]. destruct (snapshotLiveFirstRecvCommand sc) as [cmd|]; [|done].
    destruct (negb (matchesFirst cmd msg) || serverRejectNew lm (co_accepted co)) eqn:Er; [done|].
    apply orb_false_iff in Er as [_ Er]. destruct Hi as [H1 H2 H3 H4 H5 H6].
    assert (0 <= co_accepted co) by lia.
    split; simpl; try done.
    + rewrite map_size_insert_None by done. lia.
    + unfold serverRejectNew in Er. destruct (lm_UnlimitedCalls lm); [by left|right]. simpl in Er.
      apply Z.leb_gt in Er. lia.
    + intros id s Hs. apply lookup_insert_Some in Hs as [[_ <-]|[_ Hs]]; simpl; [lia|]. specialize (H5 _ _ Hs). lia.
    + intros id1 id2 s1 s2 L1 L2 En. apply lookup_insert_Some in L1, L2.
      destruct L1 as [[<- <-]|[N1 L1]], L2 as [[<- <-]|[N2 L2]]; try done; simpl in En.
      * specialize (H5 _ _ L2). lia.
      * specialize (H5 _ _ L1). lia.
      * by apply (H6 id1 id2 s1 s2).
Qed.

Lemma inv_start callID co : co_inv co -> co_inv (putStart callID co).
Proof.
  intros Hi. unfold putStart. destruct (co_sessions co !! callID) as [[n [m|] inbox]|] eqn:E; [|done|done].
  destruct (_ <? _)%nat; [|done]. by eapply inv_update.
Qed.

Lemma inv_end callID co : co_inv co -> co_inv (endSession callID co).
Proof.
  intros Hi. unfold endSession. destruct (co_sessions co !! callID) as [[n [m|] inbox]|] eqn:E; [done| |done].
  destruct Hi as [H1 H2 H3 H4 H5 H6]. unfold finishCallUnlocked. split; simpl; try done.
  - pose proof (map_size_delete_Some _ _ (mk_is_Some _ _ E)) as Hd.
    assert (size (co_sessions co) <> 0%nat) as Hne.
    { intros Hz. apply map_size_empty_inv in Hz. by rewrite Hz, lookup_empty in E. }
    rewrite Hd. lia.
  - lia.
  - rewrite orb_true_iff, H4. split.
    + intros [[Hp Hf]|Hf]; (split; [lia|]); [|done]. unfold serverFinishedAll in *.
      destruct (lm_UnlimitedCalls lm); [done|]. simpl in *. apply Z.leb_le in Hf. apply Z.leb_le. lia.
    + intros [_ Hf]. by right.
  - intros id s Hs. apply lookup_delete_Some in Hs as [_ Hs]. by eapply H5.
  - intros id1 id2 s1 s2 L1 L2. apply lookup_delete_Some in L1 as [_ L1], L2 as [_ L2]. by apply (H6 id1 id2 s1 s2).
Qed.

Lemma co_inv_reachable co : co_reachable co -> co_inv co.
Proof.
  unfold co_reachable. intros H. assert (co_inv newServerMultiCoordinator) as H0.
  { split; simpl; [done|lia|right; lia|by split; [|intros [? _]]| |].
    - intros id s Hs. by rewrite lookup_empty in Hs.
    - intros id1 id2 s1 s2 Hs. by rewrite lookup_empty in Hs. }
  induction H as [|a b c Hs _ IH]; [done|]. apply IH.
  destruct Hs; [by apply inv_packet|by apply inv_start|by apply inv_end].
Qed.

End Server.

(** * Properties *)

(** C11: The mailboxes lose nothing and mix nothing up.  In every state the
    registry can reach, with any interleaving of registrations, dispatchers,
    drains and receiving calls: no mailbox holds more than 512 messages; a
    message in a mailbox, or about to be put there, carries the Call-ID the
    mailbox was registered under; and every packet that arrived is in exactly
    one place, in flight, queued, given back or taken by a call. *)
Theorem mailbox_routing ids r :
  reg_reachable (ids, r) ->
  Forall (fun q => (length q <= sipMailboxCap)%nat) (mr_chans r)
  /\ (forall ch q m, mr_chans r !! ch = Some q -> m ∈ q -> message_key (pm_msg m) = mr_keys r !! ch)
  /\ (forall ch m, (ch, m) ∈ mr_flight r -> message_key (pm_msg m) = mr_keys r !! ch)
  /\ ids_of r ≡ₚ ids /\ NoDup (ids_of r).
Proof.
  intros H. destruct (reg_inv_reachable _ H) as [H1 H2 _ _ H5 H6 H7]. simpl in *.
  split; [done|]. split; [done|]. split; [intros ch m Hin; by apply H7|]. split; [done|]. by rewrite H1.
Qed.

(** Packets are spread over the workers that exist, and packets with the same
    text after [Call-ID:] go to the same one. *)
Theorem shard_of_call raw1 raw2 n value rest1 rest2 b1 b2 :
  1 <= n < 2 ^ 32 ->
  scanCallID raw1 = Some (value ++ b1 :: rest1) -> scanCallID raw2 = Some (value ++ b2 :: rest2) ->
  Forall (fun c => is_crlf c = false) value -> is_crlf b1 = true -> is_crlf b2 = true ->
  callIDShard raw1 n = callIDShard raw2 n /\ 0 <= callIDShard raw1 n < n.
Proof.
  intros Hn H1 H2 Hv Hb1 Hb2. unfold callIDShard. rewrite H1, H2, !fnv_line by done. split; [done|].
  rewrite u32_small by lia. apply Z.mod_pos_bound. lia.
Qed.

(** A server never runs more calls than configured and numbers them apart: with
    any interleaving of packets, starting and ending calls, the active sessions
    are the accepted calls that have not finished, a limited server accepts at
    most [TotalCalls], active sessions have different numbers between 1 and the
    number of accepted calls, and the server reports that it is done exactly
    when as many calls have finished. *)
Theorem server_sessions_counted regexMatch lm co :
  co_reachable regexMatch lm co ->
  Z.of_nat (size (co_sessions co)) = co_accepted co - co_finished co
  /\ (lm_UnlimitedCalls lm = true \/ co_accepted co <= Z.max 0 (lm_TotalCalls lm))
  /\ (forall id s, co_sessions co !! id = Some s -> 1 <= ss_number s <= co_accepted co)
  /\ (forall id1 id2 s1 s2, co_sessions co !! id1 = Some s1 -> co_sessions co !! id2 = Some s2 ->
      ss_number s1 = ss_number s2 -> id1 = id2)
  /\ (co_done co = true <-> 0 < co_finished co /\ serverFinishedAll lm (co_finished co) = true).
Proof. intros H. by destruct (co_inv_reachable _ _ _ H). Qed.

(** ** Concrete runs *)

Definition invite_packet : str :=
  lit "INVITE sip:b SIP/2.0" ++ crlf ++ lit "Call-ID: c1" ++ crlf ++ lit "CSeq: 1 INVITE" ++ crlf ++ crlf.
Definition cancel_packet : str :=
  lit "CANCEL sip:b SIP/2.0" ++ crlf ++ lit "Call-ID:  c1" ++ crlf ++ lit "CSeq: 1 CANCEL" ++ crlf ++ crlf.

Definition demo_registry : mailboxRegistry :=
  dispatchSend 0 (mkPmsg 7 (match Parse invite_packet with Ok m => m | Err _ => emptyMessage end))
    (withFlight [] (dispatchLookup 7 emptyMessage invite_packet (register (lit "c1") newMailboxRegistry))).

Lemma demo_registry_reachable : reg_reachable ([7%nat], demo_registry).
Proof.
  eapply rtc_l; [apply (RegRegister [] newMailboxRegistry (lit "c1"))|].
  eapply rtc_l; [apply (RegLookup [] _ 7 emptyMessage invite_packet); apply not_elem_of_nil|].
  eapply rtc_l; [apply (RegSend [7%nat] _ [] 0 (mkPmsg 7 (match Parse invite_packet with Ok m => m | Err _ => emptyMessage end)) [])|].
  - vm_compute. reflexivity.
  - apply rtc_refl.
Qed.

Lemma mailbox_routing_witness :
  Forall (fun q => (length q <= sipMailboxCap)%nat) (mr_chans demo_registry)
  /\ (forall ch q m, mr_chans demo_registry !! ch = Some q -> m ∈ q ->
      message_key (pm_msg m) = mr_keys demo_registry !! ch)
  /\ (forall ch m, (ch, m) ∈ mr_flight demo_registry -> message_key (pm_msg m) = mr_keys demo_registry !! ch)
  /\ ids_of demo_registry ≡ₚ [7%nat] /\ NoDup (ids_of demo_registry).
Proof. apply (mailbox_routing [7%nat] demo_registry). exact demo_registry_reachable. Defined.

Lemma shard_of_call_witness :
  callIDShard invite_packet 8 = callIDShard invite_packet 8 /\ 0 <= callIDShard invite_packet 8 < 8.
Proof.
  apply (shard_of_call invite_packet invite_packet 8 (lit " c1") (x0a :: lit "CSeq: 1 INVITE" ++ crlf ++ crlf)
    (x0a :: lit "CSeq: 1 INVITE" ++ crlf ++ crlf) x0d x0d); try (vm_compute; reflexivity).
  - split; [vm_compute; discriminate|vm_compute; reflexivity].
  - repeat constructor.
Defined.

(** Blanks after the colon belong to the hashed text: two packets of one call can
    go to different workers, which then race for its mailbox. *)
Theorem shard_splits_call :
  callIDShard invite_packet 8 <> callIDShard cancel_packet 8
  /\ option_map NormalizeCallID (Header (Headers (match Parse invite_packet with Ok m => m | Err _ => emptyMessage end)) (lit "Call-ID"))
     = option_map NormalizeCallID (Header (Headers (match Parse cancel_packet with Ok m => m | Err _ => emptyMessage end)) (lit "Call-ID")).
Proof. vm_compute. split; [discriminate|reflexivity]. Qed.

Definition uas_scenario : Scenario :=
  mkScenario [] [] ModeServer false
    [mkCommand CommandRecv 0 [] [] [] [] [] (-1) [] fzero [] false
       [] 0 (lit "INVITE") [] false None false [] [] false 0 None [] false []] [] ∅ ∅ [] [] [].

Definition two_calls : limits := mkLimits 10 0 false 2.

Definition accepted_one : serverMultiCoordinator :=
  (pumpPacket no_regex two_calls true uas_scenario 1 emptyMessage invite_packet newServerMultiCoordinator).2.

Lemma server_sessions_counted_witness :
  Z.of_nat (size (co_sessions accepted_one)) = co_accepted accepted_one - co_finished accepted_one
  /\ (lm_UnlimitedCalls two_calls = true \/ co_accepted accepted_one <= Z.max 0 (lm_TotalCalls two_calls))
  /\ (forall id s, co_sessions accepted_one !! id = Some s -> 1 <= ss_number s <= co_accepted accepted_one)
  /\ (forall id1 id2 s1 s2, co_sessions accepted_one !! id1 = Some s1 -> co_sessions accepted_one !! id2 = Some s2 ->
      ss_number s1 = ss_number s2 -> id1 = id2)
  /\ (co_done accepted_one = true <-> 0 < co_finished accepted_one /\ serverFinishedAll two_calls (co_finished accepted_one) = true).
Proof.
  apply (server_sessions_counted no_regex two_calls accepted_one).
  eapply rtc_l; [apply (CoPacket no_regex two_calls true uas_scenario 1 emptyMessage invite_packet)|]. apply rtc_refl.
Defined.

(** A packet that follows the first one of its call closely can get into the
    inbox before it: the first message is put there by the goroutine of the
    call, later ones by the pump. *)
Theorem server_start_overtaken :
  let co := putStart (lit "c1")
              (pumpPacket no_regex two_calls true uas_scenario 2 emptyMessage cancel_packet accepted_one).2 in
  option_map (fun s => map pm_id (ss_inbox s)) (co_sessions co !! lit "c1") = Some [2%nat; 1%nat].
Proof. vm_compute. reflexivity. Qed.
