(* ===== verification/Semaphore.v ===== *)
(** * The call limiter ([internal/engine/semaphore.go])

    [dynSemaphore] with its mutex and condition variable.  Callers of [Acquire]
    are numbered; a step of the system is a step of one of them, a [Release],
    a [Resize], a wake-up that is delivered, or a context that is cancelled.
    Everything a caller does while it holds the mutex is one step, except
    that [Acquire] gives it up inside [cond.Wait]: between the test of the
    context and the entry into the wait queue other goroutines can run that
    do not take the mutex, and the broadcast of a cancelled context does not. *)

From stdpp Require Import base list gmap relations.
From Stdlib Require Import ZArith Lia.
From S2P Require Import Prelude.

(** ** Data *)

Record dynSemaphore := mkSem {
  s_active : Z;
  s_limit : Z;
  s_checked : option nat;      (* holds the mutex, about to enter the wait queue *)
  s_ready : list nat;          (* called Acquire or were woken, about to lock *)
  s_asleep : list nat;         (* in the wait queue, oldest first *)
  s_got : list nat;            (* Acquire returned nil *)
  s_failed : list nat;         (* Acquire returned the context's error *)
  s_cancelled : gset nat;      (* whose context is done *)
  s_signals : nat;             (* cond.Signal calls still to come *)
  s_broadcasts : nat           (* cond.Broadcast calls still to come *)
}.

Definition atLeastOne (limit : Z) : Z := if limit <? 1 then 1 else limit.

(** [newDynSemaphore] *)
Definition newDynSemaphore (limit : Z) : dynSemaphore :=
  mkSem 0 (atLeastOne limit) None [] [] [] [] ∅ 0 0.

(** A new call of [Acquire]. *)
Definition callAcquire (i : nat) (s : dynSemaphore) : dynSemaphore :=
  mkSem (s_active s) (s_limit s) (s_checked s) (i :: s_ready s) (s_asleep s) (s_got s) (s_failed s)
    (s_cancelled s) (s_signals s) (s_broadcasts s).

(** The locked part of [Acquire] up to [cond.Wait], for caller [i] that is no
    longer in the ready list. *)
Definition acquireCheck (i : nat) (s : dynSemaphore) : dynSemaphore :=
  let fail := mkSem (s_active s) (s_limit s) (s_checked s) (s_ready s) (s_asleep s) (s_got s) (i :: s_failed s)
                (s_cancelled s) (s_signals s) (s_broadcasts s) in
  if s_limit s <=? s_active s then
    if bool_decide (i ∈ s_cancelled s) then fail
    else mkSem (s_active s) (s_limit s) (Some i) (s_ready s) (s_asleep s) (s_got s) (s_failed s)
           (s_cancelled s) (s_signals s) (s_broadcasts s)
  else if bool_decide (i ∈ s_cancelled s) then fail
  else mkSem (s_active s + 1) (s_limit s) (s_checked s) (s_ready s) (s_asleep s) (i :: s_got s) (s_failed s)
         (s_cancelled s) (s_signals s) (s_broadcasts s).

(** [cond.Wait]: into the queue, and the mutex is free. *)
Definition condWait (i : nat) (s : dynSemaphore) : dynSemaphore :=
  mkSem (s_active s) (s_limit s) None (s_ready s) (s_asleep s ++ [i]) (s_got s) (s_failed s)
    (s_cancelled s) (s_signals s) (s_broadcasts s).

Definition withReady (ready : list nat) (s : dynSemaphore) : dynSemaphore :=
  mkSem (s_active s) (s_limit s) (s_checked s) ready (s_asleep s) (s_got s) (s_failed s)
    (s_cancelled s) (s_signals s) (s_broadcasts s).

(** [Release]: the slot is free; the signal follows. *)
Definition Release (s : dynSemaphore) : dynSemaphore :=
  mkSem (s_active s - 1) (s_limit s) (s_checked s) (s_ready s) (s_asleep s) (s_got s) (s_failed s)
    (s_cancelled s) (S (s_signals s)) (s_broadcasts s).

(** [Resize]: the limit is set; the broadcast follows. *)
Definition Resize (limit : Z) (s : dynSemaphore) : dynSemaphore :=
  mkSem (s_active s) (atLeastOne limit) (s_checked s) (s_ready s) (s_asleep s) (s_got s) (s_failed s)
    (s_cancelled s) (s_signals s) (S (s_broadcasts s)).

(** [cond.Signal] wakes the caller that has waited longest. *)
Definition Signal (s : dynSemaphore) : dynSemaphore :=
  match s_asleep s with
  | [] => mkSem (s_active s) (s_limit s) (s_checked s) (s_ready s) [] (s_got s) (s_failed s)
            (s_cancelled s) (pred (s_signals s)) (s_broadcasts s)
  | i :: rest => mkSem (s_active s) (s_limit s) (s_checked s) (i :: s_ready s) rest (s_got s) (s_failed s)
                   (s_cancelled s) (pred (s_signals s)) (s_broadcasts s)
  end.

Definition Broadcast (s : dynSemaphore) : dynSemaphore :=
  mkSem (s_active s) (s_limit s) (s_checked s) (s_asleep s ++ s_ready s) [] (s_got s) (s_failed s)
    (s_cancelled s) (s_signals s) (pred (s_broadcasts s)).

(** A context is cancelled; [context.AfterFunc] will broadcast. *)
Definition cancelContext (i : nat) (s : dynSemaphore) : dynSemaphore :=
  mkSem (s_active s) (s_limit s) (s_checked s) (s_ready s) (s_asleep s) (s_got s) (s_failed s)
    ({[i]} ∪ s_cancelled s) (s_signals s) (S (s_broadcasts s)).

(** ** Steps *)

(** The mutex is free when no caller is between its test and the queue. *)
Inductive sem_step (cancels : bool) : dynSemaphore -> dynSemaphore -> Prop :=
  | StepCall i s : sem_step cancels s (callAcquire i s)
  | StepCheck l i r s :
      s_checked s = None -> s_ready s = l ++ i :: r -> sem_step cancels s (acquireCheck i (withReady (l ++ r) s))
  | StepWait i s : s_checked s = Some i -> sem_step cancels s (condWait i s)
  | StepRelease s : s_checked s = None -> 0 < s_active s -> sem_step cancels s (Release s)
  | StepResize n s : s_checked s = None -> sem_step cancels s (Resize n s)
  | StepSignal s : (0 < s_signals s)%nat -> sem_step cancels s (Signal s)
  | StepBroadcast s : (0 < s_broadcasts s)%nat -> sem_step cancels s (Broadcast s)
  | StepCancel i s : cancels = true -> sem_step cancels s (cancelContext i s).

Definition sem_reachable (cancels : bool) (limit : Z) : dynSemaphore -> Prop :=
  rtc (sem_step cancels) (newDynSemaphore limit).

(** ** Invariants *)

Record sem_inv (s : dynSemaphore) : Prop := {
  inv_limit : 1 <= s_limit s;
  inv_active : 0 <= s_active s;
  (* nobody goes to sleep while there is room: the mutex is held since the test *)
  inv_checked : s_checked s <> None -> s_limit s <= s_active s
}.

Lemma atLeastOne_ge n : 1 <= atLeastOne n.
Proof. unfold atLeastOne. destruct (Z.ltb_spec n 1); lia. Qed.

Lemma acquireCheck_cases i s :
  let s' := acquireCheck i s in
  s_limit s' = s_limit s /\ s_asleep s' = s_asleep s /\ s_ready s' = s_ready s /\ s_cancelled s' = s_cancelled s
  /\ s_signals s' = s_signals s /\ s_broadcasts s' = s_broadcasts s
  /\ ((s_active s' = s_active s /\ s_got s' = s_got s
       /\ (s_checked s' = s_checked s \/ (s_checked s' = Some i /\ s_limit s <= s_active s))
       /\ (s_limit s <= s_active s \/ i ∈ s_cancelled s))
      \/ (s_active s < s_limit s /\ s_active s' = s_active s + 1 /\ s_got s' = i :: s_got s /\ s_checked s' = s_checked s)).
Proof.
  unfold acquireCheck. cbv zeta. destruct (Z.leb_spec (s_limit s) (s_active s)); case_bool_decide; simpl; naive_solver lia.
Qed.

Lemma sem_inv_step cancels s s' : sem_inv s -> sem_step cancels s s' -> sem_inv s'.
Proof.
  intros [Hl Ha Hc] Hs. destruct Hs as [i s|l i r s Hf Hr|i s Hk|s Hf Hp|n s Hf|s Hp|s Hp|i s Hx].
  - by split.
  - pose proof (acquireCheck_cases i (withReady (l ++ r) s)) as (E1 & _ & _ & _ & _ & _ & E). simpl in *.
    split; [lia|lia|]. intros Hne. destruct E as [(E2 & _ & [E3|[E3 E4]] & _)|(E2 & E3 & _ & E4)]; rewrite ?E1; try lia;
      congruence.
  - by split.
  - split; simpl; [done|lia|]. by rewrite Hf.
  - split; simpl; [apply atLeastOne_ge|done|]. by rewrite Hf.
  - unfold Signal. destruct (s_asleep s); by split.
  - by split.
  - by split.
Qed.

Lemma sem_inv_reachable cancels limit s : sem_reachable cancels limit s -> sem_inv s.
Proof.
  unfold sem_reachable. intros H. remember (newDynSemaphore limit) as s0. assert (sem_inv s0) as H0.
  { subst. split; simpl; [apply atLeastOne_ge|lia|done]. }
  clear Heqs0. induction H as [|s1 s2 s3 Hs _ IH]; [done|]. apply IH. by eapply sem_inv_step.
Qed.

(** Free slots are announced: to a caller about to look, or by a wake-up still
    to come. *)
Definition announced (s : dynSemaphore) : Prop :=
  s_asleep s <> [] -> (0 < s_broadcasts s)%nat
    \/ s_limit s - s_active s <= Z.of_nat (s_signals s) + Z.of_nat (length (s_ready s)).

Lemma announced_step s s' :
  sem_inv s -> s_cancelled s = ∅ -> announced s -> sem_step false s s' -> announced s' /\ s_cancelled s' = ∅.
Proof.
  intros [Hl Ha Hck] Hc Hn Hs. unfold announced in *.
  destruct Hs as [i s|l i r s Hf Hr|i s Hk|s Hf Hp|n s Hf|s Hp|s Hp|i s Hx]; [| | | | | | |done].
  - simpl. split; [|done]. intros H. specialize (Hn H). lia.
  - pose proof (acquireCheck_cases i (withReady (l ++ r) s)) as (E1 & E2 & E3 & E4 & E5 & E6 & E). simpl in *.
    rewrite E4. split; [|done]. rewrite E1, E2, E3, E5, E6. intros H. specialize (Hn H).
    rewrite Hr, length_app in Hn. simpl in Hn. rewrite length_app.
    destruct E as [(E7 & _ & _ & [E8|E8])|(E7 & E8 & _)]; [lia| |lia]. rewrite Hc in E8. set_solver.
  - simpl. split; [|done]. intros _. rewrite Hk in Hck. specialize (Hck ltac:(done)). lia.
  - simpl. split; [|done]. intros H. specialize (Hn H). lia.
  - simpl. split; [|done]. intros _. left. lia.
  - unfold Signal. destruct (s_asleep s) as [|i rest]; simpl; (split; [|done]); [done|].
    intros _. specialize (Hn ltac:(done)). lia.
  - simpl. split; [|done]. done.
Qed.

Lemma announced_reachable limit s : sem_reachable false limit s -> announced s.
Proof.
  unfold sem_reachable. intros H. remember (newDynSemaphore limit) as s0.
  assert (sem_inv s0 /\ announced s0 /\ s_cancelled s0 = ∅) as H0.
  { subst. split; [by apply (sem_inv_reachable false limit); constructor|]. split; [|done]. intros []. done. }
  clear Heqs0. induction H as [|s1 s2 s3 Hs _ IH]; [tauto|]. apply IH. destruct H0 as (H1 & H2 & H3).
  destruct (announced_step _ _ H1 H3 H2 Hs). split; [by eapply sem_inv_step|done].
Qed.

(** * Properties *)

(** C14: The limiter never admits a call beyond the limit in force: whatever the
    order of calls, releases, resizes and cancellations, the limit is at least
    one, a step that admits a caller does so while fewer calls than the limit
    are active, and no other step raises the number of active calls. *)
Theorem semaphore_respects_limit cancels limit s s' :
  sem_reachable cancels limit s -> sem_step cancels s s' ->
  1 <= s_limit s /\ 0 <= s_active s
  /\ (s_active s < s_active s' ->
      s_active s' = s_active s + 1 /\ s_active s' <= s_limit s' /\ exists i, s_got s' = i :: s_got s).
Proof.
  intros Hr Hs. destruct (sem_inv_reachable _ _ _ Hr) as [Hl Ha _]. split; [done|]. split; [done|].
  destruct Hs as [i s|l i r s Hf Hrd|i s Hk|s Hf Hp|n s Hf|s Hp|s Hp|i s Hx]; simpl; try lia.
  - pose proof (acquireCheck_cases i (withReady (l ++ r) s)) as (E1 & _ & _ & _ & _ & _ & E). simpl in *.
    intros Hlt. destruct E as [(E2 & _)|(E2 & E3 & E4 & _)]; [lia|]. split; [lia|]. split; [lia|]. by eexists.
  - unfold Signal. destruct (s_asleep s); simpl; lia.
Qed.


(** A cancelled caller can sleep on: when the context is done after the caller
    tested it and the broadcast comes before it is in the wait queue, nothing
    is left to wake it. *)
Theorem semaphore_cancel_missed :
  exists s, sem_reachable true 1 s /\ 2%nat ∈ s_cancelled s /\ s_asleep s = [2%nat]
    /\ s_ready s = [] /\ s_signals s = 0%nat /\ s_broadcasts s = 0%nat.
Proof.
  eexists. split.
  - eapply rtc_l; [apply (StepCall true 1)|]. eapply rtc_l; [apply (StepCheck true [] 1 []); reflexivity|].
    eapply rtc_l; [apply (StepCall true 2)|]. eapply rtc_l; [apply (StepCheck true [] 2 []); reflexivity|].
    eapply rtc_l; [apply (StepCancel true 2); reflexivity|].
    eapply rtc_l; [apply StepBroadcast; simpl; lia|].
    eapply rtc_l; [apply (StepWait true 2); reflexivity|]. apply rtc_refl.
  - vm_compute. repeat split.
Qed.

(** Two callers and a limit of one. *)
Lemma reach_one_waiting :
  sem_reachable false 1 (Release (condWait 2 (acquireCheck 2 (withReady [] (callAcquire 2
    (acquireCheck 1 (withReady [] (callAcquire 1 (newDynSemaphore 1))))))))).
Proof.
  eapply rtc_l; [apply (StepCall false 1)|]. eapply rtc_l; [apply (StepCheck false [] 1 []); reflexivity|].
  eapply rtc_l; [apply (StepCall false 2)|]. eapply rtc_l; [apply (StepCheck false [] 2 []); reflexivity|].
  eapply rtc_l; [apply (StepWait false 2); reflexivity|].
  eapply rtc_l; [apply StepRelease; reflexivity|]. apply rtc_refl.
Qed.

Lemma semaphore_respects_limit_witness :
  let s := callAcquire 1 (newDynSemaphore 1) in
  let s' := acquireCheck 1 (withReady [] s) in
  1 <= s_limit s /\ 0 <= s_active s
  /\ (s_active s < s_active s' ->
      s_active s' = s_active s + 1 /\ s_active s' <= s_limit s' /\ exists i, s_got s' = i :: s_got s).
Proof.
  intros s s'. apply (semaphore_respects_limit true 1 s s').
  - eapply rtc_l; [apply (StepCall true 1)|]. apply rtc_refl.
  - apply (StepCheck true [] 1 []); reflexivity.
Defined.

