(* ===== verification/RateControl.v ===== *)
(** * The call rate ([internal/scheduler/rate.go] and the ramp of [engine.go])

    [RateController] with times in nanoseconds.  The loop of [Wait] is a
    function of its passes: each pass carries what other goroutines did to the
    controller before it and between its two critical sections, the times it
    reads, and how its [select] ends. *)

From stdpp Require Import base list.
From Stdlib Require Import ZArith Lia.
From S2P Require Import Prelude GoFloat Scenario.

Record RateController := mkRate {
  rc_rate : float64;
  rc_paused : bool;
  rc_stopped : bool;
  rc_nextFire : option Z        (* [None] is the zero time *)
}.

Definition sanitizeRate (rate : float64) : float64 := if fle rate fzero then fone else rate.

Definition rateToPeriod (rate : float64) : Z :=
  let period := int64_of_float (fdiv (float_of_int Second) (sanitizeRate rate)) in
  if period <=? 0 then 1 else period.

Definition NewRateController (rate : float64) (now : Z) : RateController :=
  mkRate (sanitizeRate rate) false false (Some now).

(** The operations other goroutines perform; each one also wakes the waiters. *)
Inductive rate_op :=
  | OpSetRate (rate : float64) (now : Z)
  | OpAdjustRate (delta : float64) (now : Z)
  | OpPause
  | OpResume (now : Z)
  | OpStop.

Definition SetRate (rate : float64) (now : Z) (r : RateController) : RateController :=
  mkRate (sanitizeRate rate) (rc_paused r) (rc_stopped r) (Some now).
Definition AdjustRate (delta : float64) (now : Z) (r : RateController) : RateController :=
  mkRate (sanitizeRate (fadd (rc_rate r) delta)) (rc_paused r) (rc_stopped r) (Some now).
Definition Pause (r : RateController) : RateController :=
  mkRate (rc_rate r) true (rc_stopped r) (rc_nextFire r).
Definition Resume (now : Z) (r : RateController) : RateController :=
  mkRate (rc_rate r) false (rc_stopped r) (Some now).
Definition Stop (r : RateController) : RateController :=
  mkRate (rc_rate r) (rc_paused r) true (rc_nextFire r).

Definition rate_apply (r : RateController) (op : rate_op) : RateController :=
  match op with
  | OpSetRate rate now => SetRate rate now r
  | OpAdjustRate delta now => AdjustRate delta now r
  | OpPause => Pause r
  | OpResume now => Resume now r
  | OpStop => Stop r
  end.

Definition maxBurst : Z := 10.

(** The second critical section: the next firing time, at most [maxBurst]
    periods behind. *)
Definition reserve (period now : Z) (r : RateController) : Z * RateController :=
  let nextFire := match rc_nextFire r with Some t => t | None => now end in
  let earliest := now + i64 (- maxBurst * period) in
  let nextFire := if nextFire <? earliest then earliest else nextFire in
  let target := nextFire + period in
  (target, mkRate (rc_rate r) (rc_paused r) (rc_stopped r) (Some target)).

Inductive wake := WakeTimer | WakeUpdate | WakeCtx.

Record rate_pass := mkPass {
  ps_before : list rate_op;     (* since the last pass *)
  ps_between : list rate_op;    (* between the two critical sections *)
  ps_now : Z;                   (* time.Now() when reserving *)
  ps_until : Z;                 (* time.Until(target) *)
  ps_wake : wake
}.

Inductive rate_out :=
  | RateFire (target : Z)
  | RateStopped
  | RateCtx
  | RateWaiting.

(** [Wait] *)
Fixpoint Wait (passes : list rate_pass) (r : RateController) : rate_out * RateController :=
  match passes with
  | [] => (RateWaiting, r)
  | p :: rest =>
    let r := foldl rate_apply r (ps_before p) in
    if rc_stopped r then (RateStopped, r)
    else if rc_paused r then
      match ps_wake p with WakeCtx => (RateCtx, r) | _ => Wait rest r end
    else
      let period := rateToPeriod (rc_rate r) in
      let '(target, r) := reserve period (ps_now p) (foldl rate_apply r (ps_between p)) in
      if target - ps_until p <=? 0 then (RateFire target, r)
      else match ps_wake p with
           | WakeCtx => (RateCtx, r)
           | WakeUpdate => Wait rest r
           | WakeTimer => (RateFire target, r)
           end
  end.

(** One tick of [startRateRampLoop]: the controller, and whether the ramp goes on. *)
Definition rampTick (RateIncrease RateMax : float64) (now : Z) (r : RateController) : RateController * bool :=
  let r := AdjustRate RateIncrease now r in
  if flt fzero RateMax && flt RateMax (rc_rate r) then (SetRate RateMax now r, false) else (r, true).

(** ** Successive calls *)

(** A call of [Wait] that fires in one pass, undisturbed: the times it reads and
    the time it returns. *)
Record firing := mkFiring { f_now : Z; f_until : Z; f_at : Z }.

(** The targets of successive calls, if they all fire. *)
Fixpoint fire_all (fs : list firing) (r : RateController) : option (list Z) :=
  match fs with
  | [] => Some []
  | f :: fs' =>
    match Wait [mkPass [] [] (f_now f) (f_until f) WakeTimer] r with
    | (RateFire t, r') => match fire_all fs' r' with Some ts => Some (t :: ts) | None => None end
    | _ => None
    end
  end.

(** * Lemmas *)

Lemma rateToPeriod_pos rate : 1 <= rateToPeriod rate.
Proof. unfold rateToPeriod. cbv zeta. destruct (Z.leb_spec (int64_of_float (fdiv (float_of_int Second) (sanitizeRate rate))) 0); lia. Qed.

Lemma Wait_single f r : rc_stopped r = false -> rc_paused r = false ->
  Wait [mkPass [] [] (f_now f) (f_until f) WakeTimer] r
  = let '(t, r') := reserve (rateToPeriod (rc_rate r)) (f_now f) r in (RateFire t, r').
Proof.
  intros Hs Hp. cbn [Wait ps_before ps_between ps_now ps_until ps_wake foldl]. rewrite Hs, Hp. unfold reserve. cbv zeta.
  destruct (_ <=? _); reflexivity.
Qed.

(** A running controller with a schedule. *)
Definition running (r : RateController) (period last : Z) : Prop :=
  rc_stopped r = false /\ rc_paused r = false /\ rc_nextFire r = Some last /\ rateToPeriod (rc_rate r) = period.

Lemma fire_step f fs r period last ts :
  running r period last -> maxBurst * period <= int64_max -> fire_all (f :: fs) r = Some ts ->
  exists t ts' r', ts = t :: ts' /\ t = Z.max last (f_now f - maxBurst * period) + period
    /\ running r' period t /\ fire_all fs r' = Some ts'.
Proof.
  intros (Hs & Hp & Hn & Hr) Hb. cbn [fire_all]. rewrite Wait_single by done.
  unfold reserve. rewrite Hn, Hr. cbv zeta.
  pose proof (rateToPeriod_pos (rc_rate r)) as Hpos. rewrite Hr in Hpos.
  rewrite i64_small by (unfold int64_min, int64_max, maxBurst in *; lia).
  match goal with |- context [fire_all fs ?x] => set (r' := x) end.
  destruct (fire_all fs r') as [ts'|] eqn:E; [|done]. intros [= <-].
  eexists _, ts', r'. split; [reflexivity|]. split; [|split; [|done]].
  - destruct (Z.ltb_spec last (f_now f + - maxBurst * period)); lia.
  - by split.
Qed.

Lemma fire_lower fs r period last ts :
  running r period last -> maxBurst * period <= int64_max -> fire_all fs r = Some ts ->
  forall j t, ts !! j = Some t -> last + (Z.of_nat j + 1) * period <= t.
Proof.
  intros Hr Hb. revert r last ts Hr. induction fs as [|f fs IH]; intros r last ts Hr Hf j t Hj.
  { cbn [fire_all] in Hf. by injection Hf as <-. }
  destruct (fire_step _ _ _ _ _ _ Hr Hb Hf) as (t0 & ts' & r' & -> & Ht & Hr' & Hf').
  destruct j as [|j]; [cbn in Hj; injection Hj as <-; lia|].
  pose proof (IH r' t0 ts' Hr' Hf' j t Hj). nia.
Qed.

Lemma fire_window fs r period last ts :
  running r period last -> maxBurst * period <= int64_max -> fire_all fs r = Some ts ->
  forall i j f t, (i <= j)%nat -> fs !! i = Some f -> ts !! j = Some t ->
  (Z.of_nat (j - i) + 1) * period <= t - f_now f + maxBurst * period.
Proof.
  intros Hr Hb. revert r last ts Hr. induction fs as [|f0 fs IH]; intros r last ts Hr Hf i j f t Hij Hi Hj; [done|].
  destruct (fire_step _ _ _ _ _ _ Hr Hb Hf) as (t0 & ts' & r' & -> & Ht & Hr' & Hf').
  destruct i as [|i].
  - injection Hi as <-. destruct j as [|j]; [cbn in Hj; injection Hj as <-; lia|].
    pose proof (fire_lower _ _ _ _ _ Hr' Hb Hf' j t Hj). nia.
  - destruct j as [|j]; [lia|]. by apply (IH r' t0 ts' Hr' Hf' i j f t ltac:(lia) Hi Hj).
Qed.

Lemma fire_exact fs r period last ts :
  running r period last -> maxBurst * period <= int64_max -> fire_all fs r = Some ts ->
  (forall k f, fs !! k = Some f -> f_now f <= last + (Z.of_nat k + maxBurst) * period) ->
  ts = map (fun k => last + (Z.of_nat k + 1) * period) (seq 0 (length fs)).
Proof.
  intros Hr Hb. revert r last ts Hr. induction fs as [|f fs IH]; intros r last ts Hr Hf Hlate.
  { cbn [fire_all] in Hf. by injection Hf as <-. }
  destruct (fire_step _ _ _ _ _ _ Hr Hb Hf) as (t0 & ts' & r' & -> & Ht & Hr' & Hf').
  pose proof (Hlate 0%nat f eq_refl) as H0. pose proof (rateToPeriod_pos (rc_rate r)) as Hpos.
  destruct Hr as (_ & _ & _ & Hp). rewrite Hp in Hpos.
  assert (t0 = last + period) as -> by (unfold maxBurst in *; lia).
  cbn [length seq map]. f_equal; [lia|]. rewrite <- seq_shift, map_map.
  rewrite (IH r' (last + period) ts' Hr' Hf').
  - apply map_ext. intros k. lia.
  - intros k g Hk. pose proof (Hlate (S k) g Hk). lia.
Qed.

(** * Properties *)

(** C16: The rate is an upper bound with a bounded burst.  In any stretch of
    undisturbed calls, from the time one call asks until a later one is
    allowed, at most [elapsed / period + 10] calls are allowed, however late
    the caller was before. *)
Theorem rate_burst_bound fs r last ts i j f g t :
  running r (rateToPeriod (rc_rate r)) last -> maxBurst * rateToPeriod (rc_rate r) <= int64_max ->
  fire_all fs r = Some ts -> (i <= j)%nat ->
  fs !! i = Some f -> fs !! j = Some g -> ts !! j = Some t -> t <= f_at g ->
  Z.of_nat (j - i) + 1 <= (f_at g - f_now f) / rateToPeriod (rc_rate r) + maxBurst.
Proof.
  intros Hr Hb Hf Hij Hi Hj Ht Hat. pose proof (rateToPeriod_pos (rc_rate r)) as Hpos.
  pose proof (fire_window _ _ _ _ _ Hr Hb Hf i j f t Hij Hi Ht) as H.
  rewrite <- Z.div_add by lia. apply Z.div_le_lower_bound; nia.
Qed.

(** There is no drift: as long as the caller is never more than ten periods
    behind, the [k]-th call is scheduled exactly [k] periods after the start,
    so that delays are made up for. *)
Theorem rate_no_drift fs r last ts :
  running r (rateToPeriod (rc_rate r)) last -> maxBurst * rateToPeriod (rc_rate r) <= int64_max ->
  fire_all fs r = Some ts ->
  (forall k f, fs !! k = Some f -> f_now f <= last + (Z.of_nat k + maxBurst) * rateToPeriod (rc_rate r)) ->
  ts = map (fun k => last + (Z.of_nat k + 1) * rateToPeriod (rc_rate r)) (seq 0 (length fs)).
Proof. apply fire_exact. Qed.

(** A paused or stopped controller starts no call: whatever passes [Wait] makes,
    if no operation resumes it in between, it does not fire, and a stopped one
    reports that it is stopped. *)
Theorem paused_never_fires passes r t r' :
  Forall (fun p => forall op, op ∈ ps_before p ++ ps_between p -> match op with OpResume _ => False | _ => True end) passes ->
  rc_paused r = true \/ rc_stopped r = true -> Wait passes r <> (RateFire t, r').
Proof.
  intros Hp. revert r. induction Hp as [|p passes Hp _ IH]; intros r Hr; [done|]. cbn [Wait].
  assert (rc_paused (foldl rate_apply r (ps_before p)) = true \/ rc_stopped (foldl rate_apply r (ps_before p)) = true) as H.
  { assert (forall op, op ∈ ps_before p -> match op with OpResume _ => False | _ => True end) as Hb
      by (intros op Hop; apply Hp, elem_of_app; by left).
    clear IH Hp. revert r Hr. induction (ps_before p) as [|op ops IHo]; intros r Hr; [done|]. cbn [foldl].
    apply IHo; [intros; apply Hb; by right|]. specialize (Hb op ltac:(by left)). destruct op; simpl; try done; auto. }
  cbv zeta. destruct (rc_stopped (foldl rate_apply r (ps_before p))) eqn:Es; [done|]. destruct H as [H|H]; [|congruence].
  rewrite H. destruct (ps_wake p); [| |done]; apply IH; by left.
Qed.

(** ** Concrete controllers *)

Definition ten_per_second : RateController := NewRateController (float_of_int 10) 0.

Lemma ten_running : running ten_per_second (rateToPeriod (rc_rate ten_per_second)) 0.
Proof. by repeat split. Qed.

(** Three calls, the second one late. *)
Definition three_calls : list firing :=
  [mkFiring 0 0 100000000; mkFiring 250000000 250000000 250000000; mkFiring 250000001 250000001 300000000].

Definition three_targets : list Z := [100000000; 200000000; 300000000].

Lemma rate_burst_bound_witness :
  Z.of_nat (2 - 0) + 1 <= (300000000 - 0) / rateToPeriod (rc_rate ten_per_second) + maxBurst.
Proof.
  apply (rate_burst_bound three_calls ten_per_second 0 three_targets 0 2 (mkFiring 0 0 100000000)
    (mkFiring 250000001 250000001 300000000) 300000000 ten_running); try (vm_compute; reflexivity).
  - vm_compute. discriminate.
  - lia.
  - vm_compute. discriminate.
Defined.

Lemma rate_no_drift_witness :
  three_targets = map (fun k => 0 + (Z.of_nat k + 1) * rateToPeriod (rc_rate ten_per_second)) (seq 0 (length three_calls)).
Proof.
  apply (rate_no_drift three_calls ten_per_second 0 three_targets ten_running).
  - vm_compute. discriminate.
  - vm_compute. reflexivity.
  - intros [|[|[|k]]] f Hk; try (injection Hk as <-; vm_compute; discriminate). discriminate Hk.
Defined.

Lemma paused_never_fires_witness :
  Wait [mkPass [] [] 5 5 WakeUpdate; mkPass [OpSetRate fone 6] [] 7 7 WakeTimer] (Pause ten_per_second) <> (RateFire 0, ten_per_second).
Proof.
  apply (paused_never_fires [mkPass [] [] 5 5 WakeUpdate; mkPass [OpSetRate fone 6] [] 7 7 WakeTimer] (Pause ten_per_second)).
  - repeat constructor; intros op Hop; [by apply elem_of_nil in Hop|].
    apply elem_of_cons in Hop as [->|Hop]; [done|by apply elem_of_nil in Hop].
  - by left.
Defined.
