(* ===== verification/Ring.v ===== *)
(** * The event ring ([internal/eventlog/ring.go])

    [ringBuffer] as it is written, an array with head, tail and size, and what it
    promises to the logger: a bounded queue that drops its oldest event when
    it is full.  The promise is a class, so that what the logger relies on is
    proved once for every implementation. *)

From stdpp Require Import base list.
From Stdlib Require Import ZArith Lia.
From S2P Require Import Prelude.

(** ** The promise *)

(** A bounded queue of events with its abstract contents, oldest first. *)
Class EventQueue (A Q : Type) := {
  eq_wf : Q -> Prop;
  eq_contents : Q -> list A;
  eq_capacity : Q -> nat;
  eq_dropped : Q -> Z;
  eq_closed : Q -> bool;
  eq_push : A -> Q -> Q;
  eq_take : nat -> Q -> list A * Q;

  eq_push_wf ev q : eq_wf q -> eq_wf (eq_push ev q);
  eq_push_contents ev q : eq_wf q ->
    eq_contents (eq_push ev q) =
    if eq_closed q then eq_contents q
    else if (length (eq_contents q) =? eq_capacity q)%nat then drop 1 (eq_contents q) ++ [ev]
    else eq_contents q ++ [ev];
  eq_push_dropped ev q : eq_wf q ->
    eq_dropped (eq_push ev q) =
    if negb (eq_closed q) && (length (eq_contents q) =? eq_capacity q)%nat then u64 (eq_dropped q + 1) else eq_dropped q;
  eq_push_same ev q : eq_closed (eq_push ev q) = eq_closed q /\ eq_capacity (eq_push ev q) = eq_capacity q;
  eq_take_spec n q : eq_wf q -> (n <= length (eq_contents q))%nat ->
    (eq_take n q).1 = take n (eq_contents q) /\ eq_contents (eq_take n q).2 = drop n (eq_contents q)
    /\ eq_wf (eq_take n q).2 /\ eq_dropped (eq_take n q).2 = eq_dropped q
    /\ eq_closed (eq_take n q).2 = eq_closed q /\ eq_capacity (eq_take n q).2 = eq_capacity q;
  eq_capacity_pos q : eq_wf q -> (0 < eq_capacity q)%nat /\ (length (eq_contents q) <= eq_capacity q)%nat
}.

(** ** The implementation *)

Section Ring.

Context {Event : Type} (zero : Event).

Record ringBuffer := mkRing {
  rb_buf : list Event;
  rb_head : nat;
  rb_tail : nat;
  rb_size : nat;
  rb_cap : nat;
  rb_dropped : Z;
  rb_closed : bool
}.

Definition newRingBuffer (capacity : Z) : ringBuffer :=
  let capacity := Z.to_nat (if capacity <=? 0 then 1 else capacity) in
  mkRing (replicate capacity zero) 0 0 0 capacity 0 false.

Definition push (ev : Event) (r : ringBuffer) : ringBuffer :=
  if rb_closed r then r
  else
    let r := if (rb_size r =? rb_cap r)%nat
             then mkRing (rb_buf r) ((rb_head r + 1) mod rb_cap r)%nat (rb_tail r) (rb_size r - 1) (rb_cap r)
                    (u64 (rb_dropped r + 1)) (rb_closed r)
             else r in
    mkRing (<[rb_tail r := ev]> (rb_buf r)) (rb_head r) ((rb_tail r + 1) mod rb_cap r)%nat (rb_size r + 1)
      (rb_cap r) (rb_dropped r) (rb_closed r).

(** The copy loop of [drain]. *)
Fixpoint copyOut (n : nat) (r : ringBuffer) : list Event * ringBuffer :=
  match n with
  | O => ([], r)
  | S n =>
    let ev := nth (rb_head r) (rb_buf r) zero in
    let '(out, r') := copyOut n (mkRing (<[rb_head r := zero]> (rb_buf r)) ((rb_head r + 1) mod rb_cap r)%nat (rb_tail r)
                                   (rb_size r - 1) (rb_cap r) (rb_dropped r) (rb_closed r)) in
    (ev :: out, r')
  end.

(** [drain] with an output slice of the given capacity; [None] while it blocks. *)
Definition drain (outCap : nat) (r : ringBuffer) : option (list Event * bool * ringBuffer) :=
  if (rb_size r =? 0)%nat then if rb_closed r then Some ([], false, r) else None
  else
    let max := if (outCap =? 0)%nat then rb_size r else outCap in
    let n := if (max <? rb_size r)%nat then max else rb_size r in
    let '(out, r') := copyOut n r in Some (out, true, r').

Definition close (r : ringBuffer) : ringBuffer :=
  mkRing (rb_buf r) (rb_head r) (rb_tail r) (rb_size r) (rb_cap r) (rb_dropped r) true.

(** ** Its contents *)

Definition contents (r : ringBuffer) : list Event :=
  map (fun k => nth ((rb_head r + k) mod rb_cap r)%nat (rb_buf r) zero) (seq 0 (rb_size r)).

Record ring_wf (r : ringBuffer) : Prop := {
  rw_cap : (0 < rb_cap r)%nat;
  rw_len : length (rb_buf r) = rb_cap r;
  rw_size : (rb_size r <= rb_cap r)%nat;
  rw_head : (rb_head r < rb_cap r)%nat;
  rw_tail : rb_tail r = ((rb_head r + rb_size r) mod rb_cap r)%nat
}.

Lemma contents_length r : length (contents r) = rb_size r.
Proof. unfold contents. by rewrite length_map, length_seq. Qed.

Lemma mod_inj h i j c : (h < c)%nat -> (i < c)%nat -> (j < c)%nat ->
  ((h + i) mod c = (h + j) mod c -> i = j)%nat.
Proof.
  intros Hh Hi Hj E.
  assert (forall k, (k < c)%nat -> ((h + k) mod c = if h + k <? c then h + k else h + k - c)%nat) as Hm.
  { intros k Hk. destruct (Nat.ltb_spec (h + k) c); [by apply Nat.mod_small|].
    replace (h + k)%nat with ((h + k - c) + 1 * c)%nat at 1 by lia. rewrite Nat.Div0.mod_add. apply Nat.mod_small. lia. }
  rewrite !Hm in E by done. destruct (Nat.ltb_spec (h + i) c), (Nat.ltb_spec (h + j) c); lia.
Qed.

Lemma nth_insert_ne (l : list Event) i j x d : i <> j -> nth j (<[i := x]> l) d = nth j l d.
Proof. intros H. rewrite !nth_lookup, list_lookup_insert_ne by done. done. Qed.

Lemma nth_insert_eq (l : list Event) i x d : (i < length l)%nat -> nth i (<[i := x]> l) d = x.
Proof. intros H. by rewrite nth_lookup, list_lookup_insert_eq. Qed.

Lemma ring_new_wf capacity : ring_wf (newRingBuffer capacity).
Proof.
  unfold newRingBuffer. cbv zeta.
  assert (0 < Z.to_nat (if (capacity <=? 0)%Z then 1 else capacity))%nat by (destruct (Z.leb_spec capacity 0); lia).
  split; simpl; try lia; [apply length_replicate|]. symmetry. apply Nat.Div0.mod_0_l.
Qed.

(** Writing at the tail of a ring that is not full. *)
Lemma write_tail ev r : ring_wf r -> (rb_size r < rb_cap r)%nat ->
  let r' := mkRing (<[rb_tail r := ev]> (rb_buf r)) (rb_head r) ((rb_tail r + 1) mod rb_cap r)%nat (rb_size r + 1)
              (rb_cap r) (rb_dropped r) (rb_closed r) in
  ring_wf r' /\ contents r' = contents r ++ [ev].
Proof.
  intros [Hc Hl Hs Hh Ht] Hlt r'. split.
  - split; simpl; try lia; [by rewrite length_insert|]. rewrite Ht, Nat.Div0.add_mod_idemp_l. f_equal. lia.
  - unfold contents. simpl. rewrite Nat.add_1_r, seq_S, map_app. simpl. f_equal.
    + apply map_ext_in. intros k Hk%in_seq. apply nth_insert_ne. rewrite Ht. intros E.
      apply mod_inj in E; lia.
    + rewrite <- Ht, nth_insert_eq; [done|]. rewrite Hl, Ht. apply Nat.mod_upper_bound. lia.
Qed.

(** Moving the head past the oldest event. *)
Lemma skip_head (buf : list Event) dropped r : ring_wf r -> (0 < rb_size r)%nat -> length buf = rb_cap r ->
  (forall k, (1 <= k < rb_size r)%nat ->
     nth ((rb_head r + k) mod rb_cap r)%nat buf zero = nth ((rb_head r + k) mod rb_cap r)%nat (rb_buf r) zero) ->
  let r' := mkRing buf ((rb_head r + 1) mod rb_cap r)%nat (rb_tail r) (rb_size r - 1) (rb_cap r) dropped (rb_closed r) in
  ring_wf r' /\ contents r' = drop 1 (contents r).
Proof.
  intros [Hc Hl Hs Hh Ht] Hp Hb Hsame r'. split.
  - split; simpl; try lia; [apply Nat.mod_upper_bound; lia|]. rewrite Ht, Nat.Div0.add_mod_idemp_l. f_equal. lia.
  - unfold contents. simpl. destruct (rb_size r) as [|n] eqn:E; [lia|]. simpl. rewrite Nat.sub_0_r.
    rewrite drop_0, <- seq_shift, map_map. apply map_ext_in. intros k Hk%in_seq.
    rewrite Nat.Div0.add_mod_idemp_l. replace (rb_head r + 1 + k)%nat with (rb_head r + S k)%nat by lia.
    apply Hsame. lia.
Qed.

Lemma push_spec ev r : ring_wf r ->
  ring_wf (push ev r)
  /\ contents (push ev r) = (if rb_closed r then contents r
                             else if (rb_size r =? rb_cap r)%nat then drop 1 (contents r) ++ [ev] else contents r ++ [ev])
  /\ rb_dropped (push ev r) = (if negb (rb_closed r) && (rb_size r =? rb_cap r)%nat then u64 (rb_dropped r + 1) else rb_dropped r).
Proof.
  intros Hw. unfold push. destruct (rb_closed r) eqn:Ec; [done|]. cbv zeta.
  destruct (Nat.eqb_spec (rb_size r) (rb_cap r)) as [E|E].
  - pose proof (rw_cap _ Hw) as Hc. pose proof (rw_len _ Hw) as Hl.
    destruct (skip_head (rb_buf r) (u64 (rb_dropped r + 1)) r Hw) as [W1 C1]; [lia|done|done|].
    rewrite Ec in W1, C1.
    match type of W1 with ring_wf ?x => destruct (write_tail ev x W1) as [W2 C2]; [simpl; lia|] end.
    simpl in W2, C2. split; [exact W2|]. split; [|done]. by rewrite <- C1, <- C2.
  - pose proof (rw_size _ Hw). destruct (write_tail ev r Hw) as [W C]; [lia|]. split; [exact W|]. split; [exact C|]. reflexivity.
Qed.

Lemma copyOut_spec n r : ring_wf r -> (n <= rb_size r)%nat ->
  (copyOut n r).1 = take n (contents r) /\ contents (copyOut n r).2 = drop n (contents r)
  /\ ring_wf (copyOut n r).2 /\ rb_dropped (copyOut n r).2 = rb_dropped r
  /\ rb_closed (copyOut n r).2 = rb_closed r /\ rb_cap (copyOut n r).2 = rb_cap r.
Proof.
  revert r. induction n as [|n IH]; intros r Hw Hn; [by rewrite take_0, drop_0|]. cbn [copyOut].
  pose proof Hw as [Hc Hl Hs Hh Ht].
  destruct (skip_head (<[rb_head r := zero]> (rb_buf r)) (rb_dropped r) r Hw) as [W C].
  - lia.
  - by rewrite length_insert.
  - intros k Hk. apply nth_insert_ne. intros E. rewrite <- (Nat.mod_small (rb_head r) (rb_cap r)) in E at 1 by lia.
    replace (rb_head r) with (rb_head r + 0)%nat in E at 1 by lia. apply mod_inj in E; lia.
  - match type of W with ring_wf ?x => destruct (IH x W) as (I1 & I2 & I3 & I4 & I5 & I6); [simpl; lia|];
      destruct (copyOut n x) as [out r'] end.
    simpl in *. rewrite C in I1, I2. split; [|split; [|by split]].
    + rewrite I1. unfold contents. destruct (rb_size r) as [|m]; [lia|]. simpl.
      by rewrite Nat.add_0_r, Nat.mod_small, drop_0 by lia.
    + rewrite I2. by rewrite drop_drop.
Qed.

Lemma drain_spec outCap r out ok r' : ring_wf r -> drain outCap r = Some (out, ok, r') ->
  exists n, out = take n (contents r) /\ contents r' = drop n (contents r) /\ ring_wf r'
    /\ rb_dropped r' = rb_dropped r /\ rb_closed r' = rb_closed r
    /\ (if ok then (0 < length out)%nat else r' = r /\ rb_size r = 0%nat /\ rb_closed r = true).
Proof.
  intros Hw. unfold drain. destruct (Nat.eqb_spec (rb_size r) 0) as [E|E].
  - destruct (rb_closed r) eqn:Ec; intros [= <- <- <-]. exists 0%nat. by rewrite take_0, drop_0.
  - cbv zeta. set (max := if (outCap =? 0)%nat then rb_size r else outCap).
    set (n := if (max <? rb_size r)%nat then max else rb_size r).
    assert (0 < n <= rb_size r)%nat as Hn.
    { assert (0 < max)%nat by (unfold max; destruct (Nat.eqb_spec outCap 0); lia).
      unfold n. destruct (Nat.ltb_spec max (rb_size r)); lia. }
    destruct (copyOut_spec n r Hw ltac:(lia)) as (C1 & C2 & C3 & C4 & C5 & _).
    destruct (copyOut n r) as [out' r1] eqn:Ec. cbn in *. intros [= <- <- <-]. exists n.
    repeat split; try done; try apply C3. rewrite C1, length_take, contents_length. lia.
Qed.

End Ring.

Arguments ringBuffer : clear implicits.

#[export] Program Instance ring_queue {Event} (zero : Event) : EventQueue Event (ringBuffer Event) := {
  eq_wf := ring_wf;
  eq_contents := contents zero;
  eq_capacity := rb_cap;
  eq_dropped := rb_dropped;
  eq_closed := rb_closed;
  eq_push := push;
  eq_take := copyOut zero
}.
Next Obligation. intros Event zero ev q Hw. by apply (push_spec zero). Qed.
Next Obligation. intros Event zero ev q Hw. rewrite contents_length. by apply push_spec. Qed.
Next Obligation. intros Event zero ev q Hw. rewrite contents_length. by apply (push_spec zero). Qed.
Next Obligation. intros Event zero ev q. unfold push. destruct (rb_closed q) eqn:E; [done|]. by destruct (_ =? _)%nat. Qed.
Next Obligation. intros Event zero n q Hw Hn. rewrite contents_length in Hn. by apply copyOut_spec. Qed.
Next Obligation. intros Event zero q Hw. rewrite contents_length. split; apply Hw. Qed.

(** ** What the logger relies on *)

(** A run of producers and the consumer. *)
Inductive queue_op (A : Type) :=
  | OpPush (ev : A)
  | OpTake (n : nat).
Arguments OpPush {A} _.
Arguments OpTake {A} _.

Section Logger.

Context {A Q : Type} `{EventQueue A Q}.

(** The events taken so far, and the queue. *)
Definition queue_step (st : list A * Q) (op : queue_op A) : list A * Q :=
  match op with
  | OpPush ev => (st.1, eq_push ev st.2)
  | OpTake n => let '(out, q) := eq_take (Nat.min n (length (eq_contents st.2))) st.2 in (st.1 ++ out, q)
  end.

Definition pushed (ops : list (queue_op A)) : list A :=
  flat_map (fun op => match op with OpPush ev => [ev] | OpTake _ => [] end) ops.

Definition in_order (all got rest : list A) (lost : nat) : Prop :=
  got ++ rest `sublist_of` all /\ length all = (length got + length rest + lost)%nat /\ rest `suffix_of` all.

Lemma in_order_push all got rest lost ev full :
  in_order all got rest lost -> (full = true -> rest <> []) ->
  in_order (all ++ [ev]) got ((if full then drop 1 rest else rest) ++ [ev]) (if full then S lost else lost).
Proof.
  intros (Hs & Hl & [k Hk]) Hf. destruct full.
  - destruct rest as [|x rest]; [by destruct (Hf eq_refl)|]. simpl. rewrite drop_0. split; [|split].
    + rewrite app_assoc. apply sublist_app; [|done]. transitivity (got ++ x :: rest); [|done].
      apply sublist_app; [done|]. by apply sublist_cons.
    + rewrite !length_app. simpl in *. lia.
    + exists (k ++ [x]). by rewrite Hk, <- !app_assoc.
  - split; [|split].
    + rewrite app_assoc. by apply sublist_app.
    + rewrite !length_app. simpl. lia.
    + exists k. by rewrite Hk, <- app_assoc.
Qed.

Lemma in_order_take all got rest lost n : in_order all got rest lost ->
  in_order all (got ++ take n rest) (drop n rest) lost.
Proof.
  intros (Hs & Hl & [k Hk]). unfold in_order. rewrite <- app_assoc, take_drop. split; [done|]. split.
  - rewrite length_app, length_take, length_drop. lia.
  - exists (k ++ take n rest). by rewrite Hk at 1; rewrite <- app_assoc, take_drop.
Qed.

Lemma queue_run ops all got q lost :
  eq_wf q -> eq_closed q = false -> 0 <= eq_dropped q -> eq_dropped q = Z.of_nat lost ->
  in_order all got (eq_contents q) lost -> Z.of_nat (length all + length ops) < 2 ^ 64 ->
  let '(got', q') := foldl queue_step (got, q) ops in
  exists lost', eq_wf q' /\ eq_dropped q' = Z.of_nat lost'
    /\ in_order (all ++ pushed ops) got' (eq_contents q') lost' /\ (length (eq_contents q') <= eq_capacity q)%nat.
Proof.
  revert all got q lost. induction ops as [|op ops IH]; intros all got q lost Hw Hc Hd0 Hd Ho Hlen; cbn [foldl].
  { exists lost. unfold pushed. simpl. rewrite app_nil_r. repeat split; try done; try apply Ho. by apply eq_capacity_pos. }
  cbn [length] in Hlen. destruct op as [ev|n]; cbn [queue_step fst snd].
  - pose proof (eq_push_wf ev q Hw) as Hw'. pose proof (eq_push_contents ev q Hw) as Hcon.
    pose proof (eq_push_dropped ev q Hw) as Hdr. destruct (eq_push_same ev q) as [Es Ecap].
    rewrite Hc in Hcon, Hdr. cbn [negb andb] in Hdr.
    destruct (eq_capacity_pos q Hw) as [Hcp Hcl].
    set (full := (length (eq_contents q) =? eq_capacity q)%nat) in *.
    assert (in_order (all ++ [ev]) got (eq_contents (eq_push ev q)) (if full then S lost else lost)) as Ho'.
    { rewrite Hcon. pose proof (in_order_push all got (eq_contents q) lost ev full Ho) as Hp.
      destruct full eqn:Ef; apply Hp; [|done]. intros _ En. unfold full in Ef. rewrite En in Ef. apply Nat.eqb_eq in Ef. simpl in Ef. lia. }
    assert (eq_dropped (eq_push ev q) = Z.of_nat (if full then S lost else lost)) as Hd'.
    { rewrite Hdr. destruct full; [|done]. destruct Ho as (_ & Hl & _). unfold u64. rewrite Z.mod_small; lia. }
    specialize (IH (all ++ [ev]) got (eq_push ev q) (if full then S lost else lost) Hw').
    rewrite Es, Ecap in IH. specialize (IH Hc ltac:(lia) Hd' Ho').
    rewrite length_app in IH. simpl in IH. specialize (IH ltac:(lia)).
    change (pushed (OpPush ev :: ops)) with ([ev] ++ pushed ops). rewrite app_assoc. exact IH.
  - set (m := Nat.min n (length (eq_contents q))).
    destruct (eq_take_spec m q Hw ltac:(lia)) as (T1 & T2 & T3 & T4 & T5 & T6).
    destruct (eq_take m q) as [out q'] eqn:E. simpl in T1, T2, T3, T4, T5, T6.
    assert (in_order all (got ++ out) (eq_contents q') lost) as Ho'.
    { rewrite T1, T2. by apply in_order_take. }
    specialize (IH all (got ++ out) q' lost T3). rewrite T4, T5, T6 in IH.
    change (pushed (OpTake n :: ops)) with (pushed ops). apply IH; try done. lia.
Qed.

End Logger.

(** * Properties *)

(** The event log keeps order and counts what it loses: for any interleaving of
    pushes and drains on a fresh ring, what was drained followed by what is
    still buffered is the pushed sequence with some events left out, the
    buffered part is its end, at most the capacity is buffered, and the drop
    counter is exactly the number of missing events. *)
Theorem ring_log_accounting {Event} (zero : Event) capacity ops :
  Z.of_nat (length ops) < 2 ^ 64 ->
  let '(got, r) := foldl (queue_step (Q := ringBuffer Event) (H := ring_queue zero)) ([], newRingBuffer zero capacity) ops in
  got ++ contents zero r `sublist_of` pushed ops
  /\ contents zero r `suffix_of` pushed ops
  /\ (length (contents zero r) <= Z.to_nat (if (capacity <=? 0)%Z then 1 else capacity))%nat
  /\ Z.of_nat (length (pushed ops)) = Z.of_nat (length got) + Z.of_nat (length (contents zero r)) + rb_dropped r.
Proof.
  intros Hlen.
  pose proof (queue_run (H := ring_queue zero) ops [] [] (newRingBuffer zero capacity) 0) as Hq. simpl in Hq.
  destruct (foldl _ _ ops) as [got r].
  destruct Hq as (lost & Hw & Hd & (Hs & Hl & Hsuf) & Hcap); try done.
  - apply ring_new_wf.
  - split; [done|]. split; [done|]. split; [done|]. rewrite Hd, Hl. lia.
Qed.

Lemma ring_log_accounting_witness :
  let '(got, r) := foldl (queue_step (Q := ringBuffer nat) (H := ring_queue 0%nat)) ([], newRingBuffer 0%nat 2)
                     [OpPush 1; OpPush 2; OpPush 3; OpTake 1; OpPush 4]%nat in
  got ++ contents 0%nat r `sublist_of` [1; 2; 3; 4]%nat /\ contents 0%nat r `suffix_of` [1; 2; 3; 4]%nat
  /\ (length (contents 0%nat r) <= 2)%nat
  /\ Z.of_nat 4 = Z.of_nat (length got) + Z.of_nat (length (contents 0%nat r)) + rb_dropped r.
Proof.
  apply (ring_log_accounting 0%nat 2 [OpPush 1; OpPush 2; OpPush 3; OpTake 1; OpPush 4]%nat). vm_compute. reflexivity.
Defined.
