(* ===== verification/Media.v ===== *)
(** * Recording received audio ([internal/media/g711_decode.go],
    [record_reorder.go]) and telephone events ([dtmf.go])

    G.711 decoding with Go's 16-bit arithmetic, the reordering buffer of the
    recorder, and the RTP packets of a DTMF digit (their encoding is the RTP
    library's). *)

From stdpp Require Import base list strings.
From Stdlib Require Import ZArith Lia Strings.Byte.
From S2P Require Import Prelude GoStrings.

(** ** G.711 *)

Definition muLawSampleToLinear (b : byte) : Z :=
  let b := Z.lxor (b2z b) 255 in
  let sign := Z.land b 128 in
  let exponent := Z.land (Z.shiftr b 4) 7 in
  let mantissa := Z.land b 15 in
  let sample := i16 (Z.shiftl mantissa 1 + 33) in
  let sample := i16 (Z.shiftl sample (exponent + 2)) in
  let sample := i16 (sample - 33) in
  if sign =? 0 then sample else i16 (- sample).

Definition aLawSampleToLinear (b : byte) : Z :=
  let b := Z.lxor (b2z b) 85 in
  let t := i16 (Z.shiftl (Z.land b 15) 4) in
  let seg := Z.shiftr (Z.land b 112) 4 in
  let t := if seg =? 0 then i16 (t + 8)
           else if seg =? 1 then i16 (t + 264)
           else i16 (Z.shiftl (i16 (t + 264)) (seg - 1)) in
  if Z.land b 128 =? 0 then t else i16 (- t).

(** [decodeG711PayloadToPCM16]; the nil slice is empty. *)
Definition decodeG711PayloadToPCM16 (pt : Z) (payload : str) : list Z :=
  if pt =? 0 then map muLawSampleToLinear payload
  else if pt =? 8 then map aLawSampleToLinear payload
  else [].

Definition rfc2833SilenceSamples (payload : str) : Z :=
  match payload with
  | _ :: _ :: d1 :: d0 :: _ =>
    let dur := get_be [d1; d0] in
    if (dur <=? 0) || (80000 <? dur) then 0 else dur
  | _ => 0
  end.

(** [pcmFromInboundRTP] and [pcmFromOutboundPayload]. *)
Definition pcmFromPayload (pt : Z) (payload : str) : list Z :=
  match payload with
  | [] => []
  | _ =>
    match decodeG711PayloadToPCM16 pt payload with
    | [] =>
      let n := rfc2833SilenceSamples payload in
      if 0 <? n then replicate (Z.to_nat (if 24000 <? n then 24000 else n)) 0 else replicate 160 0
    | samples => samples
    end
  end.

(** ** The recorder *)

Record recorder := mkRecorder {
  rr_recordOn : bool;
  rr_haveNext : bool;
  rr_nextSeq : Z;
  rr_seqBuf : list (Z * list Z);
  rr_recv : list Z
}.

(** The first buffered packet with the given number, and the others. *)
Fixpoint takeSeq (seq : Z) (buf : list (Z * list Z)) : option (list Z * list (Z * list Z)) :=
  match buf with
  | [] => None
  | (n, pcm) :: rest =>
    if n =? seq then Some (pcm, rest)
    else match takeSeq seq rest with
         | Some (x, rest') => Some (x, (n, pcm) :: rest')
         | None => None
         end
  end.

(** [drainRecordBufHead]; every turn takes a packet out of the buffer. *)
Fixpoint drainRecordBufHead (fuel : nat) (r : recorder) : recorder :=
  match fuel with
  | O => r
  | S fuel =>
    match takeSeq (rr_nextSeq r) (rr_seqBuf r) with
    | None => r
    | Some (pcm, rest) =>
      drainRecordBufHead fuel
        (mkRecorder (rr_recordOn r) (rr_haveNext r) (u16 (rr_nextSeq r + 1)) rest (rr_recv r ++ pcm))
    end
  end.

(** A duplicate in the buffer is replaced. *)
Fixpoint replaceSeq (seq : Z) (pcm : list Z) (buf : list (Z * list Z)) : option (list (Z * list Z)) :=
  match buf with
  | [] => None
  | (n, x) :: rest =>
    if n =? seq then Some ((n, pcm) :: rest)
    else match replaceSeq seq pcm rest with Some rest' => Some ((n, x) :: rest') | None => None end
  end.

(** [sort.Slice] by number; the numbers in the buffer are distinct. *)
Fixpoint insertSeq (x : Z * list Z) (l : list (Z * list Z)) : list (Z * list Z) :=
  match l with
  | [] => [x]
  | y :: l' => if x.1 <? y.1 then x :: l else y :: insertSeq x l'
  end.
Definition sortSeq (l : list (Z * list Z)) : list (Z * list Z) := foldr insertSeq [] l.

Definition pushRecordPCM (seq : Z) (pcm : list Z) (r : recorder) : recorder :=
  if seq =? rr_nextSeq r then
    drainRecordBufHead (length (rr_seqBuf r))
      (mkRecorder (rr_recordOn r) (rr_haveNext r) (u16 (rr_nextSeq r + 1)) (rr_seqBuf r) (rr_recv r ++ pcm))
  else match replaceSeq seq pcm (rr_seqBuf r) with
  | Some buf => mkRecorder (rr_recordOn r) (rr_haveNext r) (rr_nextSeq r) buf (rr_recv r)
  | None =>
    let buf := rr_seqBuf r ++ [(seq, pcm)] in
    if (48 <? length buf)%nat then
      let sorted := sortSeq buf in
      mkRecorder (rr_recordOn r) true (u16 (List.last (map fst sorted) 0 + 1)) []
        (rr_recv r ++ flat_map snd sorted)
    else mkRecorder (rr_recordOn r) (rr_haveNext r) (rr_nextSeq r) buf (rr_recv r)
  end.

(** [appendRecordInboundWithJitter] *)
Definition appendRecordInboundWithJitter (seq pt : Z) (payload : str) (r : recorder) : recorder :=
  if negb (rr_recordOn r) then r
  else match pcmFromPayload pt payload with
  | [] => r
  | pcm =>
    let r := if rr_haveNext r then r else mkRecorder (rr_recordOn r) true seq (rr_seqBuf r) (rr_recv r) in
    pushRecordPCM seq pcm r
  end.

(** [resetRecordReorder] *)
Definition resetRecordReorder (r : recorder) : recorder := mkRecorder (rr_recordOn r) false 0 [] (rr_recv r).

(** ** Telephone events *)

(** [digitToEvent], on runes. *)
Definition digitToEvent (digit : Z) : option Z :=
  if (48 <=? digit) && (digit <=? 57) then Some (digit - 48)
  else if digit =? 42 then Some 10
  else if digit =? 35 then Some 11
  else if (97 <=? digit) && (digit <=? 100) then Some (digit - 85)
  else if (65 <=? digit) && (digit <=? 68) then Some (digit - 53)
  else None.

Record rtp_packet := mkRtp {
  rtp_payloadType : Z; rtp_sequence : Z; rtp_timestamp : Z; rtp_ssrc : Z; rtp_marker : bool; rtp_payload : str
}.

(** [BuildDTMFPackets] before the packets are marshalled: the packets, the next
    sequence number and the next timestamp. *)
Definition BuildDTMFPackets (digit : Z) (payloadType ssrc sequence timestamp : Z)
    : option (list rtp_packet * Z * Z) :=
  match digitToEvent digit with
  | None => None
  | Some event =>
    let pt := if payloadType =? 0 then 101 else payloadType in
    let packet i :=
      let duration := 4000 * (i + 1) in
      let eventByte := if i =? 2 then Z.lor event 128 else event in
      mkRtp pt (u16 (sequence + i)) (u32 (timestamp + 4000 * i)) ssrc (i =? 0)
        [z2b eventByte; x00; z2b (Z.shiftr duration 8); z2b (Z.land duration 255)] in
    Some ([packet 0; packet 1; packet 2], u16 (sequence + 3), u32 (timestamp + 12000))
  end.

(** * Lemmas *)

Section Reorder.

(** A stream of packets numbered from [s], and the samples of each. *)
Context (s : Z) (pcm : nat -> list Z).

Definition seq_of (i : nat) : Z := u16 (s + Z.of_nat i).
Definition buffered (B : list nat) : list (Z * list Z) := map (fun i => (seq_of i, pcm i)) B.

Lemma seq_of_inj i j : (i < 1000)%nat -> (j < 1000)%nat -> seq_of i = seq_of j -> i = j.
Proof.
  intros Hi Hj E. unfold seq_of, u16 in E. change (2 ^ 16) with 65536 in E.
  pose proof (Z.div_mod (s + Z.of_nat i) 65536 ltac:(lia)) as H1.
  pose proof (Z.div_mod (s + Z.of_nat j) 65536 ltac:(lia)) as H2.
  rewrite E in H1. lia.
Qed.

Lemma seq_of_succ k : u16 (seq_of k + 1) = seq_of (S k).
Proof. unfold seq_of, u16. rewrite Zplus_mod_idemp_l. f_equal. lia. Qed.

Lemma takeSeq_buffered k B : (k < 1000)%nat -> Forall (fun i => (i < 1000)%nat) B ->
  match takeSeq (seq_of k) (buffered B) with
  | None => k ∉ B
  | Some (x, rest) => x = pcm k /\ exists B', rest = buffered B' /\ B ≡ₚ k :: B'
  end.
Proof.
  intros Hk HB. induction HB as [|i B Hi _ IH]; [apply not_elem_of_nil|]. cbn [buffered map takeSeq].
  destruct (Z.eqb_spec (seq_of i) (seq_of k)) as [E|E].
  - apply seq_of_inj in E as ->; [|done|done]. split; [done|]. by exists B.
  - fold (buffered B). destruct (takeSeq (seq_of k) (buffered B)) as [[x rest]|].
    + destruct IH as (-> & B' & -> & Hp). split; [done|]. exists (i :: B'). split; [done|]. rewrite Hp. constructor.
    + apply not_elem_of_cons. split; [congruence|done].
Qed.

(** Everything before [k] is recorded, and the buffer holds later packets. *)
Definition recorded (k : nat) (B : list nat) (r : recorder) : Prop :=
  rr_recordOn r = true /\ rr_haveNext r = true /\ rr_nextSeq r = seq_of k
  /\ rr_seqBuf r = buffered B /\ rr_recv r = flat_map pcm (seq 0 k).

Lemma drain_recorded n fuel k B r :
  recorded k B r -> (length B <= fuel)%nat -> NoDup B -> Forall (fun i => (k <= i < n)%nat) B -> (n < 1000)%nat -> (k <= n)%nat ->
  exists k' B', recorded k' B' (drainRecordBufHead fuel r) /\ k' ∉ B' /\ (k' <= n)%nat
    /\ seq k (k' - k) ++ B' ≡ₚ B /\ (k <= k')%nat.
Proof.
  revert k B r. induction fuel as [|fuel IH]; intros k B r Hr Hlen Hnd HB Hn Hk.
  { destruct B; [|simpl in Hlen; lia]. exists k, []. rewrite Nat.sub_diag. repeat split; try apply Hr; try done; try lia. apply not_elem_of_nil. }
  destruct Hr as (H1 & H2 & H3 & H4 & H5). cbn [drainRecordBufHead]. rewrite H3, H4.
  pose proof (takeSeq_buffered k B ltac:(lia) ltac:(eapply Forall_impl; [exact HB|]; simpl; lia)) as Ht.
  destruct (takeSeq (seq_of k) (buffered B)) as [[x rest]|].
  - destruct Ht as (-> & B' & -> & Hp). rewrite Hp in Hnd, HB. rewrite Hp in Hlen. simpl in Hlen.
    apply NoDup_cons in Hnd as [Hkn Hnd]. apply Forall_cons in HB as [Hk' HB].
    match goal with |- context [drainRecordBufHead fuel ?r'] => destruct (IH (S k) B' r') as (k1 & B1 & I1 & I2 & I3 & I4 & I5) end.
    + split; [done|]. split; [done|]. cbn [rr_nextSeq rr_seqBuf rr_recv]. split; [apply seq_of_succ|]. split; [done|].
      rewrite H5, seq_S, flat_map_app. simpl. by rewrite app_nil_r.
    + lia.
    + done.
    + rewrite Forall_forall in HB |- *. intros i Hi. specialize (HB i Hi). assert (i <> k) by (intros ->; done). lia.
    + done.
    + lia.
    + exists k1, B1. split; [done|]. split; [done|]. split; [done|]. split; [|lia].
      replace (k1 - k)%nat with (S (k1 - S k)) by lia. cbn [seq app]. by rewrite Hp, I4.
  - exists k, B. rewrite Nat.sub_diag. split; [by repeat split|]. repeat split; try done; lia.
Qed.

Lemma replaceSeq_none i B x : (i < 1000)%nat -> Forall (fun j => (j < 1000)%nat) B -> i ∉ B ->
  replaceSeq (seq_of i) x (buffered B) = None.
Proof.
  intros Hi HB Hn. induction HB as [|j B Hj _ IH]; [done|]. apply not_elem_of_cons in Hn as [Hne Hn].
  cbn [buffered map replaceSeq]. destruct (Z.eqb_spec (seq_of j) (seq_of i)) as [E|E].
  - apply seq_of_inj in E; done.
  - fold (buffered B). by rewrite IH.
Qed.

(** One packet that has not arrived before. *)
Lemma push_recorded n k B i r :
  recorded k B r -> NoDup B -> Forall (fun j => (k < j < n)%nat) B -> (n <= 49)%nat -> (k <= i < n)%nat -> i ∉ B ->
  exists k' B', recorded k' B' (pushRecordPCM (seq_of i) (pcm i) r) /\ NoDup B' /\ Forall (fun j => (k' < j < n)%nat) B'
    /\ (k' <= n)%nat /\ seq 0 k' ++ B' ≡ₚ i :: seq 0 k ++ B.
Proof.
  intros (H1 & H2 & H3 & H4 & H5) Hnd HB Hn Hi Hni. unfold pushRecordPCM. rewrite H3, H4.
  destruct (Z.eqb_spec (seq_of i) (seq_of k)) as [E|E].
  - apply seq_of_inj in E as ->; [|lia|lia].
    destruct (drain_recorded n (length (buffered B)) (S k) B
      (mkRecorder (rr_recordOn r) (rr_haveNext r) (u16 (seq_of k + 1)) (buffered B) (rr_recv r ++ pcm k)))
      as (k' & B' & I1 & I2 & I3 & I4 & I5).
    + split; [done|]. split; [done|]. cbn [rr_nextSeq rr_seqBuf rr_recv]. split; [apply seq_of_succ|]. split; [done|].
      rewrite H5, seq_S, flat_map_app. simpl. by rewrite app_nil_r.
    + unfold buffered. by rewrite length_map.
    + done.
    + eapply Forall_impl; [exact HB|]. simpl. lia.
    + lia.
    + lia.
    + exists k', B'. assert (NoDup (seq (S k) (k' - S k) ++ B')) as Hnd' by (by rewrite I4).
      apply NoDup_app in Hnd' as (_ & Hdis & HndB). split; [done|]. split; [done|]. split; [|split; [done|]].
      * rewrite Forall_forall in HB |- *. intros j Hj.
        assert (j ∈ B) as HjB by (rewrite <- I4; apply elem_of_app; by right). specialize (HB j HjB).
        split; [|lia]. destruct (decide (j = k')) as [->|]; [done|]. destruct (decide (j < k')%nat); [|lia].
        exfalso. apply (Hdis j); [|done]. apply elem_of_seq. lia.
      * replace k' with (S k + (k' - S k))%nat by lia. rewrite seq_app, seq_S, <- !app_assoc. cbn [app].
        rewrite <- Permutation_middle. f_equiv. f_equiv. rewrite <- I4. by replace (0 + S k)%nat with (S k) by lia.
  - rewrite replaceSeq_none; [|lia|eapply Forall_impl; [exact HB|]; simpl; lia|done]. cbv zeta.
    assert (length (buffered B ++ [(seq_of i, pcm i)]) <= 48)%nat as Hlen.
    { rewrite length_app. unfold buffered. rewrite length_map. simpl.
      assert (length B <= length (seq (S k) (n - S k)))%nat; [|rewrite length_seq in *].
      - apply NoDup_incl_length; [by apply NoDup_ListNoDup|]. intros j Hj%list_elem_of_In.
        rewrite Forall_forall in HB. specialize (HB j Hj). apply in_seq. lia.
      - assert (i <> k) by congruence.
        assert (S (length B) <= length (seq (S k) (n - S k)))%nat; [|rewrite length_seq in *; lia].
        apply (NoDup_incl_length (l := i :: B)).
        + apply NoDup_ListNoDup. by constructor.
        + intros j [<-|Hj%list_elem_of_In]; [apply in_seq; lia|].
          rewrite Forall_forall in HB. specialize (HB j Hj). apply in_seq. lia. }
    rewrite (proj2 (Nat.ltb_ge _ _) Hlen). exists k, (B ++ [i]). assert (i <> k) by congruence. split; [|split; [|split; [|split]]].
    + split; [done|]. split; [done|]. cbn [rr_nextSeq rr_seqBuf rr_recv]. split; [done|]. split; [|done].
      unfold buffered. by rewrite map_app.
    + apply NoDup_app. split; [done|]. split; [|apply NoDup_singleton]. intros j Hj Hj'. apply list_elem_of_singleton in Hj' as ->. done.
    + apply Forall_app. split; [done|]. constructor; [lia|constructor].
    + lia.
    + rewrite app_assoc. by rewrite Permutation_app_comm.
Qed.

Lemma pushes_recorded n l k B r :
  recorded k B r -> NoDup B -> Forall (fun j => (k < j < n)%nat) B -> (n <= 49)%nat -> (k <= n)%nat ->
  NoDup (seq 0 k ++ B ++ l) -> Forall (fun i => (i < n)%nat) l ->
  exists k' B', recorded k' B' (foldl (fun r i => pushRecordPCM (seq_of i) (pcm i) r) r l)
    /\ Forall (fun j => (k' < j < n)%nat) B' /\ (k' <= n)%nat /\ seq 0 k' ++ B' ≡ₚ seq 0 k ++ B ++ l.
Proof.
  revert k B r. induction l as [|i l IH]; intros k B r Hr Hnd HB Hn Hk Hall Hl.
  { exists k, B. by rewrite app_nil_r. }
  apply Forall_cons in Hl as [Hi Hl]. cbn [foldl].
  rewrite (app_assoc (seq 0 k) B), <- Permutation_middle in Hall. apply NoDup_cons in Hall as [Hni Hall].
  rewrite !not_elem_of_app in Hni. destruct Hni as [[Hnk HnB] Hnl].
  assert (k <= i)%nat by (destruct (decide (i < k)%nat); [|lia]; exfalso; apply Hnk, elem_of_seq; lia).
  destruct (push_recorded n k B i r Hr Hnd HB Hn ltac:(lia) HnB) as (k1 & B1 & I1 & I2 & I3 & I4 & I5).
  destruct (IH k1 B1 _ I1 I2 I3 Hn I4) as (k2 & B2 & J1 & J2 & J3 & J4); [|done|].
  - rewrite app_assoc, I5. cbn [app]. apply NoDup_cons. split; [|by rewrite <- app_assoc in Hall |- *].
    rewrite !not_elem_of_app. done.
  - exists k2, B2. split; [done|]. split; [done|]. split; [done|]. rewrite J4, (app_assoc (seq 0 k1)), I5.
    rewrite (app_assoc (seq 0 k) B), <- Permutation_middle. cbn [app]. done.
Qed.

End Reorder.

(** * Properties *)

(** The recorder puts packets back in order: when up to 49 packets of a stream
    arrive in any order after the first of them, across a wrap of the 16-bit
    sequence number or not, the recording is their samples in sequence order
    and nothing is left in the buffer. *)
Theorem recorder_reorders s pcm n l r :
  (1 <= n <= 49)%nat -> rr_recordOn r = true -> rr_haveNext r = true -> rr_nextSeq r = u16 s -> rr_seqBuf r = [] -> rr_recv r = [] ->
  l ≡ₚ seq 0 n ->
  let r' := foldl (fun r i => pushRecordPCM (u16 (s + Z.of_nat i)) (pcm i) r) r l in
  rr_recv r' = flat_map pcm (seq 0 n) /\ rr_seqBuf r' = [] /\ rr_nextSeq r' = u16 (s + Z.of_nat n).
Proof.
  intros Hn H1 H2 H3 H4 H5 Hp r'.
  destruct (pushes_recorded s pcm n l 0 [] r) as (k & B & (J1 & J2 & J3 & J4 & J5) & JB & Jk & JP).
  - split; [done|]. split; [done|]. split; [|by split]. rewrite H3. unfold seq_of. by rewrite Z.add_0_r.
  - constructor.
  - constructor.
  - lia.
  - lia.
  - cbn [seq app]. rewrite Hp. apply NoDup_seq.
  - rewrite Hp. apply Forall_forall. intros i Hi%elem_of_seq. lia.
  - cbn [seq app] in JP. rewrite Hp in JP.
    assert (k = n) as ->.
    { destruct (decide (k = n)) as [|Hne]; [done|]. exfalso.
      assert (k ∈ seq 0 k ++ B) as Hin by (rewrite JP; apply elem_of_seq; lia).
      apply elem_of_app in Hin as [Hin%elem_of_seq|Hin]; [lia|]. rewrite Forall_forall in JB. specialize (JB k Hin). lia. }
    assert (B = []) as ->.
    { destruct B as [|j B]; [done|]. apply Forall_cons in JB as [? _]. lia. }
    done.
Qed.

Definition blank_recorder (next : Z) : recorder := mkRecorder true true next [] [].

Lemma recorder_reorders_witness :
  let r' := foldl (fun r i => pushRecordPCM (u16 (65534 + Z.of_nat i)) [Z.of_nat i] r) (blank_recorder 65534) [0; 3; 1; 2]%nat in
  rr_recv r' = flat_map (fun i => [Z.of_nat i]) (seq 0 4) /\ rr_seqBuf r' = [] /\ rr_nextSeq r' = u16 (65534 + 4).
Proof.
  apply (recorder_reorders 65534 (fun i => [Z.of_nat i]) 4 [0; 3; 1; 2]%nat (blank_recorder 65534)); try reflexivity; [lia|].
  apply (bool_decide_unpack _). vm_compute. reflexivity.
Defined.

(** When the buffer overflows it is written out in numeric order: packets from
    before a wrap of the sequence number come after those that follow it. *)
Theorem recorder_flush_across_wrap :
  let seqs := map (fun i => u16 (65500 + Z.of_nat i)) (seq 1 49) in
  let r := foldl (fun r q => pushRecordPCM q [q] r) (blank_recorder 65500) seqs in
  rr_recv r = map (fun i => Z.of_nat i) (seq 0 14) ++ map (fun i => 65501 + Z.of_nat i) (seq 0 35)
  /\ rr_nextSeq r = 0.
Proof. vm_compute. split; reflexivity. Qed.

(** ** G.711 against the recommendation *)

(** The decoder of ITU-T G.711 for mu-law, with its bias of 132. *)
Definition g711_mu (b : byte) : Z :=
  let u := Z.lxor (b2z b) 255 in
  let t := Z.shiftl (Z.shiftl (Z.land u 15) 3 + 132) (Z.land (Z.shiftr u 4) 7) - 132 in
  if Z.land u 128 =? 0 then t else - t.

(** For A-law a set sign bit is positive. *)
Definition g711_a (b : byte) : Z :=
  let a := Z.lxor (b2z b) 85 in
  let m := Z.shiftl (Z.land a 15) 4 in
  let seg := Z.shiftr (Z.land a 112) 4 in
  let t := if seg =? 0 then m + 8 else Z.shiftl (m + 264) (seg - 1) in
  if Z.land a 128 =? 0 then - t else t.

Definition all_bytes : list byte := map (fun i => z2b (Z.of_nat i)) (seq 0 256).

Lemma all_bytes_in b : b ∈ all_bytes.
Proof.
  unfold all_bytes. apply list_elem_of_In, in_map_iff. exists (Z.to_nat (b2z b)). pose proof (b2z_range b).
  rewrite Z2Nat.id by lia. split; [apply z2b_b2z|]. apply in_seq. lia.
Qed.

Lemma for_all_bytes (P : byte -> bool) : forallb P all_bytes = true -> forall b, P b = true.
Proof. intros H b. rewrite forallb_forall in H. apply H, list_elem_of_In, all_bytes_in. Qed.

(** Every mu-law sample is 99 too far from zero: the bias that is subtracted at the
    end is not scaled with the rest; silence is decoded as 99 or -99. *)
Theorem mu_law_offset b :
  muLawSampleToLinear b = g711_mu b + (if Z.land (Z.lxor (b2z b) 255) 128 =? 0 then 99 else -99).
Proof.
  apply Z.eqb_eq. revert b. apply (for_all_bytes (fun b => muLawSampleToLinear b =? _)). vm_compute. reflexivity.
Qed.

(** A-law samples have the opposite sign. *)
Theorem a_law_inverted b : aLawSampleToLinear b = - g711_a b.
Proof.
  apply Z.eqb_eq. revert b. apply (for_all_bytes (fun b => aLawSampleToLinear b =? _)). vm_compute. reflexivity.
Qed.

(** The packets of a digit announce 500 ms steps, the last one carries the end bit in
    the event number, and the byte that should hold it is zero. *)
Theorem dtmf_end_bit_misplaced ssrc sequence timestamp :
  exists p0 p1 p2 sq ts, BuildDTMFPackets 53 0 ssrc sequence timestamp = Some ([p0; p1; p2], sq, ts)
    /\ rtp_payload p0 = [x05; x00; x0f; xa0] /\ rtp_payload p2 = [x85; x00; x2e; xe0].
Proof. eexists _, _, _, _, _. split; [reflexivity|]. split; reflexivity. Qed.
