(* ===== verification/Stats.v ===== *)
(** * Statistics of a run ([internal/stats/stats.go] and [health.go])

    [Collector] with one function per method; every method holds the mutex from
    start to end, so a run of the engine is an interleaving of method calls.
    Times are nanoseconds, [time.Duration] sums wrap at 64 bits, the media
    totals at 32.  The calls of [engine.go] appear as the sequences of
    operations [executeCall] performs on the collector. *)

From stdpp Require Import base list gmap strings sorting.
From Stdlib Require Import ZArith Lia Strings.Byte Floats.SpecFloat.
From S2P Require Import Prelude GoStrings GoFloat Call.

(** ** Latencies *)

Record latencyAccumulator := mkLatency {
  la_count : Z; la_total : Z; la_min : Z; la_max : Z; la_last : Z;
  la_mean : float64; la_m2 : float64; la_buckets : list Z
}.

Definition zeroLatency : latencyAccumulator := mkLatency 0 0 0 0 0 fzero fzero (replicate 10 0).

Definition latencyBucketBoundsMS : list Z := [10; 20; 50; 100; 200; 500; 1000; 2000; 5000].

(** [time.Duration.Milliseconds] *)
Definition Milliseconds (d : Z) : Z := Z.quot d 1000000.

Fixpoint bucket_from (i : nat) (ms : Z) (bounds : list Z) : nat :=
  match bounds with
  | [] => i
  | upper :: rest => if ms <=? upper then i else bucket_from (S i) ms rest
  end.

Definition latencyBucketIndex (value : Z) : nat := bucket_from 0 (Milliseconds value) latencyBucketBoundsMS.

(** [add] of [latencyAccumulator] *)
Definition addLatency (value : Z) (a : latencyAccumulator) : latencyAccumulator :=
  let count := la_count a + 1 in
  let v := float_of_int value in
  let delta := fsub v (la_mean a) in
  let mean := fadd (la_mean a) (fdiv delta (float_of_int count)) in
  let delta2 := fsub v mean in
  mkLatency count (i64 (la_total a + value))
    (if (count =? 1) || (value <? la_min a) then value else la_min a)
    (if la_max a <? value then value else la_max a)
    value mean (fadd (la_m2 a) (fmul delta delta2))
    (alter (fun n => n + 1) (latencyBucketIndex value) (la_buckets a)).

Record LatencySummary := mkLatencySummary {
  ls_Count : Z; ls_Average : Z; ls_Min : Z; ls_Max : Z; ls_Last : Z; ls_StdDev : Z;
  ls_Buckets : list (str * Z)
}.

Definition bucketLabel (i : nat) : str :=
  match latencyBucketBoundsMS !! i with
  | Some b => lit "le_" ++ Itoa b ++ lit "ms"
  | None => lit "gt_" ++ Itoa 5000 ++ lit "ms"
  end.

Definition buildLatencyBuckets (counts : list Z) : list (str * Z) :=
  imap (fun i count => (bucketLabel i, count)) counts.

Definition fsqrt : float64 -> float64 := SFsqrt fprec femax.

(** [latencyAccumulator.snapshot] with [latencySummaryOrNil] *)
Definition latencySnapshot (a : latencyAccumulator) : option LatencySummary :=
  if la_count a =? 0 then None
  else Some (mkLatencySummary (la_count a) (Z.quot (la_total a) (la_count a)) (la_min a) (la_max a) (la_last a)
               (int64_of_float (fsqrt (fdiv (la_m2 a) (float_of_int (la_count a)))))
               (buildLatencyBuckets (la_buckets a))).

(** ** Media totals *)

(** [media.Stats] *)
Record MediaStats := mkMediaStats {
  ms_RTPPacketsSent : Z; ms_RTPOctetsSent : Z; ms_RTPPacketsReceived : Z;
  ms_RTCPSenderReports : Z; ms_RTCPReceiverReports : Z; ms_RTCPPacketsReceived : Z;
  ms_RTCPReportBlocks : Z; ms_RTCPMaxFractionLost : Z; ms_RTCPMaxJitter : Z; ms_RTCPMinJitter : Z;
  ms_RTCPJitterSum : float64; ms_RTCPJitterSamples : Z;
  ms_RTPRecvMaxCumulativeLost : Z; ms_RTPRecvInterarrivalJitterPeak : Z
}.

Record MediaSummary := mkMediaSummary {
  mm_RTPPacketsSent : Z; mm_RTPOctetsSent : Z; mm_RTPPacketsReceived : Z;
  mm_RTCPSenderReports : Z; mm_RTCPReceiverReports : Z; mm_RTCPPacketsReceived : Z;
  mm_RTCPReceptionReports : Z; mm_RTCPMaxFractionLost : float64; mm_RTCPMaxJitterTS : Z; mm_RTCPMinJitterTS : Z;
  mm_RTCPAvgJitterTS : float64; mm_RTPRecvMaxCumulativeLost : Z; mm_RTPRecvInterarrivalJitterPeakTS : Z;
  mm_CallsWithRTPReceived : Z; mm_PerCallMinRTPPacketsReceived : Z;
  mm_jitterSum : float64; mm_jitterSamples : Z
}.

Definition zeroMedia : MediaSummary :=
  mkMediaSummary 0 0 0 0 0 0 0 fzero 0 0 fzero 0 0 0 0 fzero 0.

Definition max_u32 (a b : Z) : Z := if a <? b then b else a.

(** The part of [AddMediaStats] that updates the summary. *)
Definition addMedia (v : MediaStats) (m : MediaSummary) : MediaSummary :=
  let ratio := fdiv (float_of_int (ms_RTCPMaxFractionLost v)) (float_of_int 256) in
  mkMediaSummary
    (u32 (mm_RTPPacketsSent m + ms_RTPPacketsSent v)) (u32 (mm_RTPOctetsSent m + ms_RTPOctetsSent v))
    (u32 (mm_RTPPacketsReceived m + ms_RTPPacketsReceived v))
    (u32 (mm_RTCPSenderReports m + ms_RTCPSenderReports v)) (u32 (mm_RTCPReceiverReports m + ms_RTCPReceiverReports v))
    (u32 (mm_RTCPPacketsReceived m + ms_RTCPPacketsReceived v))
    (u32 (mm_RTCPReceptionReports m + ms_RTCPReportBlocks v))
    (if (0 <? ms_RTCPMaxFractionLost v) && flt (mm_RTCPMaxFractionLost m) ratio then ratio else mm_RTCPMaxFractionLost m)
    (max_u32 (mm_RTCPMaxJitterTS m) (ms_RTCPMaxJitter v))
    (if (0 <? ms_RTCPMinJitter v) && ((mm_RTCPMinJitterTS m =? 0) || (ms_RTCPMinJitter v <? mm_RTCPMinJitterTS m))
     then ms_RTCPMinJitter v else mm_RTCPMinJitterTS m)
    (mm_RTCPAvgJitterTS m)
    (max_u32 (mm_RTPRecvMaxCumulativeLost m) (ms_RTPRecvMaxCumulativeLost v))
    (max_u32 (mm_RTPRecvInterarrivalJitterPeakTS m) (ms_RTPRecvInterarrivalJitterPeak v))
    (mm_CallsWithRTPReceived m) (mm_PerCallMinRTPPacketsReceived m)
    (fadd (mm_jitterSum m) (ms_RTCPJitterSum v)) (u64 (mm_jitterSamples m + ms_RTCPJitterSamples v)).

Definition finalizeMediaSummary (m : MediaSummary) : MediaSummary :=
  mkMediaSummary (mm_RTPPacketsSent m) (mm_RTPOctetsSent m) (mm_RTPPacketsReceived m)
    (mm_RTCPSenderReports m) (mm_RTCPReceiverReports m) (mm_RTCPPacketsReceived m)
    (mm_RTCPReceptionReports m) (mm_RTCPMaxFractionLost m) (mm_RTCPMaxJitterTS m) (mm_RTCPMinJitterTS m)
    (if 0 <? mm_jitterSamples m then fdiv (mm_jitterSum m) (float_of_int (mm_jitterSamples m)) else mm_RTCPAvgJitterTS m)
    (mm_RTPRecvMaxCumulativeLost m) (mm_RTPRecvInterarrivalJitterPeakTS m)
    (mm_CallsWithRTPReceived m) (mm_PerCallMinRTPPacketsReceived m) fzero 0.

(** ** The collector *)

Record Collector := mkCollector {
  st_startedAt : Z; st_totalCalls : Z; st_successCalls : Z; st_failedCalls : Z; st_activeCalls : Z;
  st_retransmits : Z; st_timeouts : Z; st_totalDuration : Z;
  st_inviteLatencies : list Z; st_callLatency : latencyAccumulator; st_inviteLatency : latencyAccumulator;
  st_media : MediaSummary; st_rtpMin : option Z; st_callsWithRTP : Z;
  st_rtds : gmap str latencyAccumulator;
  st_counters : gmap str Z; st_displays : gmap str Z; st_failureClasses : gmap str Z
}.

Definition NewCollector (now : Z) : Collector :=
  mkCollector now 0 0 0 0 0 0 0 [] zeroLatency zeroLatency zeroMedia None 0 ∅ ∅ ∅ ∅.

Definition StartCall (c : Collector) : Collector :=
  mkCollector (st_startedAt c) (st_totalCalls c + 1) (st_successCalls c) (st_failedCalls c) (st_activeCalls c + 1)
    (st_retransmits c) (st_timeouts c) (st_totalDuration c) (st_inviteLatencies c) (st_callLatency c) (st_inviteLatency c)
    (st_media c) (st_rtpMin c) (st_callsWithRTP c) (st_rtds c) (st_counters c) (st_displays c) (st_failureClasses c).

Definition FinishCall (success : bool) (duration : Z) (c : Collector) : Collector :=
  mkCollector (st_startedAt c) (st_totalCalls c)
    (st_successCalls c + (if success then 1 else 0)) (st_failedCalls c + (if success then 0 else 1)) (st_activeCalls c - 1)
    (st_retransmits c) (st_timeouts c) (i64 (st_totalDuration c + duration)) (st_inviteLatencies c)
    (addLatency duration (st_callLatency c)) (st_inviteLatency c)
    (st_media c) (st_rtpMin c) (st_callsWithRTP c) (st_rtds c) (st_counters c) (st_displays c) (st_failureClasses c).

Definition AddInviteLatency (d : Z) (c : Collector) : Collector :=
  mkCollector (st_startedAt c) (st_totalCalls c) (st_successCalls c) (st_failedCalls c) (st_activeCalls c)
    (st_retransmits c) (st_timeouts c) (st_totalDuration c) (st_inviteLatencies c ++ [d]) (st_callLatency c)
    (addLatency d (st_inviteLatency c))
    (st_media c) (st_rtpMin c) (st_callsWithRTP c) (st_rtds c) (st_counters c) (st_displays c) (st_failureClasses c).

Definition AddRetransmit (c : Collector) : Collector :=
  mkCollector (st_startedAt c) (st_totalCalls c) (st_successCalls c) (st_failedCalls c) (st_activeCalls c)
    (st_retransmits c + 1) (st_timeouts c) (st_totalDuration c) (st_inviteLatencies c) (st_callLatency c) (st_inviteLatency c)
    (st_media c) (st_rtpMin c) (st_callsWithRTP c) (st_rtds c) (st_counters c) (st_displays c) (st_failureClasses c).

Definition AddTimeout (c : Collector) : Collector :=
  mkCollector (st_startedAt c) (st_totalCalls c) (st_successCalls c) (st_failedCalls c) (st_activeCalls c)
    (st_retransmits c) (st_timeouts c + 1) (st_totalDuration c) (st_inviteLatencies c) (st_callLatency c) (st_inviteLatency c)
    (st_media c) (st_rtpMin c) (st_callsWithRTP c) (st_rtds c) (st_counters c) (st_displays c) (st_failureClasses c).

Definition AddMediaStats (v : MediaStats) (c : Collector) : Collector :=
  let received := 0 <? ms_RTPPacketsReceived v in
  let rtpMin := match st_rtpMin c with
                | None => Some (ms_RTPPacketsReceived v)
                | Some m => Some (if ms_RTPPacketsReceived v <? m then ms_RTPPacketsReceived v else m)
                end in
  mkCollector (st_startedAt c) (st_totalCalls c) (st_successCalls c) (st_failedCalls c) (st_activeCalls c)
    (st_retransmits c) (st_timeouts c) (st_totalDuration c) (st_inviteLatencies c) (st_callLatency c) (st_inviteLatency c)
    (addMedia v (st_media c)) (if received then rtpMin else st_rtpMin c) (st_callsWithRTP c + (if received then 1 else 0))
    (st_rtds c) (st_counters c) (st_displays c) (st_failureClasses c).

Definition withRtds (m : gmap str latencyAccumulator) (c : Collector) : Collector :=
  mkCollector (st_startedAt c) (st_totalCalls c) (st_successCalls c) (st_failedCalls c) (st_activeCalls c)
    (st_retransmits c) (st_timeouts c) (st_totalDuration c) (st_inviteLatencies c) (st_callLatency c) (st_inviteLatency c)
    (st_media c) (st_rtpMin c) (st_callsWithRTP c) m (st_counters c) (st_displays c) (st_failureClasses c).

Definition withNamed (counters displays classes : gmap str Z) (c : Collector) : Collector :=
  mkCollector (st_startedAt c) (st_totalCalls c) (st_successCalls c) (st_failedCalls c) (st_activeCalls c)
    (st_retransmits c) (st_timeouts c) (st_totalDuration c) (st_inviteLatencies c) (st_callLatency c) (st_inviteLatency c)
    (st_media c) (st_rtpMin c) (st_callsWithRTP c) (st_rtds c) counters displays classes.

Definition AddRTD (name : str) (value : Z) (c : Collector) : Collector :=
  if bool_decide (name = []) || (value <? 0) then c
  else withRtds (<[name := addLatency value (default zeroLatency (st_rtds c !! name))]> (st_rtds c)) c.

(** [m[name]++] for a trimmed, non-empty name. *)
Definition bump (name : str) (m : gmap str Z) : gmap str Z :=
  match TrimSpace name with
  | [] => m
  | n => <[n := default 0 (m !! n) + 1]> m
  end.

Definition AddCounter (name : str) (c : Collector) : Collector :=
  withNamed (bump name (st_counters c)) (st_displays c) (st_failureClasses c) c.
Definition AddDisplay (name : str) (c : Collector) : Collector :=
  withNamed (st_counters c) (bump name (st_displays c)) (st_failureClasses c) c.
Definition AddFailureClass (name : str) (c : Collector) : Collector :=
  withNamed (st_counters c) (st_displays c) (bump name (st_failureClasses c)) c.

(** ** Summaries *)

Record HealthSummary := mkHealth { hs_Pass : bool; hs_Reasons : list str }.

Record Summary := mkSummary {
  su_StartedAt : Z; su_FinishedAt : Z; su_Duration : Z;
  su_TotalCalls : Z; su_SuccessCalls : Z; su_FailedCalls : Z; su_ActiveCalls : Z;
  su_SuccessRatio : float64; su_CallsPerSecond : float64; su_Retransmits : Z; su_Timeouts : Z;
  su_AverageCallLatency : Z; su_AverageInviteRTT : Z;
  su_CallLength : option LatencySummary; su_InviteRTT : option LatencySummary;
  su_Media : MediaSummary; su_RTD : gmap str LatencySummary;
  su_Counters : gmap str Z; su_Displays : gmap str Z; su_FailureClasses : gmap str Z
}.

(** [time.Duration.Seconds] *)
Definition Seconds (d : Z) : float64 :=
  fadd (float_of_int (Z.quot d 1000000000)) (fdiv (float_of_int (Z.rem d 1000000000)) (float_of_int 1000000000)).

Definition snapshotMedia (c : Collector) : MediaSummary :=
  let m := finalizeMediaSummary (st_media c) in
  mkMediaSummary (mm_RTPPacketsSent m) (mm_RTPOctetsSent m) (mm_RTPPacketsReceived m)
    (mm_RTCPSenderReports m) (mm_RTCPReceiverReports m) (mm_RTCPPacketsReceived m)
    (mm_RTCPReceptionReports m) (mm_RTCPMaxFractionLost m) (mm_RTCPMaxJitterTS m) (mm_RTCPMinJitterTS m)
    (mm_RTCPAvgJitterTS m) (mm_RTPRecvMaxCumulativeLost m) (mm_RTPRecvInterarrivalJitterPeakTS m)
    (st_callsWithRTP c) (default (mm_PerCallMinRTPPacketsReceived m) (st_rtpMin c))
    (mm_jitterSum m) (mm_jitterSamples m).

(** [Collector.Snapshot] at time [now] *)
Definition CollectorSnapshot (now : Z) (c : Collector) : Summary :=
  let duration := now - st_startedAt c in
  let finished := st_successCalls c + st_failedCalls c in
  let invites := Z.of_nat (length (st_inviteLatencies c)) in
  mkSummary (st_startedAt c) now duration
    (st_totalCalls c) (st_successCalls c) (st_failedCalls c) (st_activeCalls c)
    (if 0 <? st_totalCalls c then fdiv (float_of_int (st_successCalls c)) (float_of_int (st_totalCalls c)) else fzero)
    (if 0 <? duration then fdiv (float_of_int (st_totalCalls c)) (Seconds duration) else fzero)
    (st_retransmits c) (st_timeouts c)
    (if 0 <? finished then Z.quot (st_totalDuration c) finished else 0)
    (if 0 <? invites then Z.quot (foldl (fun t l => i64 (t + l)) 0 (st_inviteLatencies c)) invites else 0)
    (latencySnapshot (st_callLatency c)) (latencySnapshot (st_inviteLatency c))
    (snapshotMedia c) (omap latencySnapshot (st_rtds c))
    (st_counters c) (st_displays c) (st_failureClasses c).

(** ** Health checks ([health.go]) *)

Record HealthConfig := mkHealthConfig {
  hc_MinSuccessRatio : float64; hc_MaxFailedCalls : Z; hc_MaxTimeouts : Z;
  hc_MaxRTCPFractionLost : float64; hc_MaxRTCPJitterTS : Z;
  hc_MinRTPPacketsRecv : Z; hc_MinRTPPacketsRecvPerCall : Z
}.

Definition HealthActive (h : HealthConfig) : bool :=
  flt fzero (hc_MinSuccessRatio h) || (0 <=? hc_MaxFailedCalls h) || (0 <=? hc_MaxTimeouts h)
  || flt fzero (hc_MaxRTCPFractionLost h) || (0 <? hc_MaxRTCPJitterTS h) || (0 <? hc_MinRTPPacketsRecv h)
  || (0 <? hc_MinRTPPacketsRecvPerCall h).

(** [fmt]'s [%.<prec>f]: exact decimal value, rounded half to even. *)
Definition FormatFixed (prec : Z) (x : float64) : str :=
  match x with
  | S754_nan => lit "NaN"
  | S754_infinity s => (if s then [x2d] else [x2b]) ++ lit "Inf"
  | S754_zero s => sign_str s ++ positional 0 (- prec)
  | S754_finite s m e =>
    let '(d, half) := scale_down (Z.pos m * 2 ^ Z.max e 0) (2 ^ Z.max (- e) 0) (- prec) in
    let d := match half with Lt => d | Gt => d + 1 | Eq => if Z.even d then d else d + 1 end in
    sign_str s ++ positional d (- prec)
  end.

(** The constant [1e-9]. *)
Definition tolerance : float64 := round_decimal false 1 (-9) false.

(** One check: whether it fails, and the reason it then gives. *)
Definition check (fails : bool) (reason : str) : list str := if fails then [reason] else [].

Definition healthReasons (cfg : HealthConfig) (s : Summary) : list str :=
  let m := su_Media s in
  check (flt fzero (hc_MinSuccessRatio cfg) && flt (fadd (su_SuccessRatio s) tolerance) (hc_MinSuccessRatio cfg))
    (lit "success_ratio " ++ FormatFixed 4 (su_SuccessRatio s) ++ lit " below minimum " ++ FormatFixed 4 (hc_MinSuccessRatio cfg))
  ++ check ((0 <=? hc_MaxFailedCalls cfg) && (hc_MaxFailedCalls cfg <? su_FailedCalls s))
    (lit "failed_calls " ++ Itoa (su_FailedCalls s) ++ lit " exceeds maximum " ++ Itoa (hc_MaxFailedCalls cfg))
  ++ check ((0 <=? hc_MaxTimeouts cfg) && (hc_MaxTimeouts cfg <? su_Timeouts s))
    (lit "timeouts " ++ Itoa (su_Timeouts s) ++ lit " exceeds maximum " ++ Itoa (hc_MaxTimeouts cfg))
  ++ check (flt fzero (hc_MaxRTCPFractionLost cfg)
            && flt (hc_MaxRTCPFractionLost cfg) (fadd (mm_RTCPMaxFractionLost m) tolerance))
    (lit "rtcp_max_fraction_lost " ++ FormatFixed 4 (mm_RTCPMaxFractionLost m) ++ lit " exceeds maximum "
     ++ FormatFixed 4 (hc_MaxRTCPFractionLost cfg))
  ++ check ((0 <? hc_MaxRTCPJitterTS cfg) && (u32 (hc_MaxRTCPJitterTS cfg) <? mm_RTCPMaxJitterTS m))
    (lit "rtcp_max_jitter_ts " ++ Itoa (mm_RTCPMaxJitterTS m) ++ lit " exceeds maximum " ++ Itoa (hc_MaxRTCPJitterTS cfg))
  ++ check ((0 <? hc_MinRTPPacketsRecv cfg) && (mm_RTPPacketsReceived m <? u32 (hc_MinRTPPacketsRecv cfg)))
    (lit "rtp_packets_received " ++ Itoa (mm_RTPPacketsReceived m) ++ lit " below minimum " ++ Itoa (hc_MinRTPPacketsRecv cfg))
  ++ (if 0 <? hc_MinRTPPacketsRecvPerCall cfg then
        if mm_CallsWithRTPReceived m =? 0 then [lit "per-call RTP recv gate: no calls observed inbound RTP"]
        else check (mm_PerCallMinRTPPacketsReceived m <? u32 (hc_MinRTPPacketsRecvPerCall cfg))
          (lit "per_call_min_rtp_packets_received " ++ Itoa (mm_PerCallMinRTPPacketsReceived m) ++ lit " below minimum "
           ++ Itoa (hc_MinRTPPacketsRecvPerCall cfg))
      else []).

Definition EvaluateHealth (cfg : HealthConfig) (s : Summary) : option HealthSummary * list str :=
  if HealthActive cfg
  then let reasons := healthReasons cfg s in (Some (mkHealth (bool_decide (reasons = [])) reasons), reasons)
  else (None, []).

(** The order of the failure classes: larger counts first, then names. *)
Definition class_le (a b : str * Z) : Prop :=
  (if a.2 =? b.2 then str_leb a.1 b.1 else b.2 <? a.2) = true.

#[global] Instance class_le_dec : RelDecision class_le.
Proof. intros a b. unfold class_le. apply _. Defined.

(** The three most frequent failure classes; [entries] is the map in the order
    [range] visits it. *)
Definition topClasses (entries : list (str * Z)) : list (str * Z) := take 3 (merge_sort class_le entries).

Definition callsFinding (s : Summary) : str :=
  let pct := fdiv (fmul (float_of_int 100) (float_of_int (su_SuccessCalls s))) (float_of_int (su_TotalCalls s)) in
  lit "Calls: total=" ++ Itoa (su_TotalCalls s) ++ lit " finished=" ++ Itoa (su_SuccessCalls s + su_FailedCalls s)
  ++ lit " success=" ++ Itoa (su_SuccessCalls s) ++ lit " failed=" ++ Itoa (su_FailedCalls s)
  ++ lit " (success " ++ FormatFixed 1 (if 0 <? su_TotalCalls s then pct else fzero) ++ lit "% of total).".

Definition rtcpFinding (m : MediaSummary) : str :=
  lit "RTCP QoS: reception_reports=" ++ Itoa (mm_RTCPReceptionReports m)
  ++ lit " max_fraction_lost=" ++ FormatFixed 4 (mm_RTCPMaxFractionLost m)
  ++ lit " max_jitter_ts=" ++ Itoa (mm_RTCPMaxJitterTS m)
  ++ (if 0 <? mm_RTCPMinJitterTS m then lit " min_jitter_ts=" ++ Itoa (mm_RTCPMinJitterTS m) else [])
  ++ (if flt fzero (mm_RTCPAvgJitterTS m) then lit " avg_jitter_ts=" ++ FormatFixed 2 (mm_RTCPAvgJitterTS m) else [])
  ++ (if 0 <? mm_CallsWithRTPReceived m
      then lit " per_call_min_rtp_recv=" ++ Itoa (mm_PerCallMinRTPPacketsReceived m)
           ++ lit " (calls_with_rtp_recv=" ++ Itoa (mm_CallsWithRTPReceived m) ++ lit ")"
      else []).

(** [entries] as for [topClasses] *)
Definition BuildFindings (s : Summary) (entries : list (str * Z)) (health : option HealthSummary) (reasons : list str)
    : list str :=
  (match reasons, health with
   | _ :: _, _ => [lit "Health check: FAIL — " ++ Join reasons (lit "; ")]
   | [], Some h => if hs_Pass h then [lit "Health check: PASS"] else []
   | [], None => []
   end)
  ++ (if su_TotalCalls s =? 0 then [lit "No calls were started."]
      else
        [callsFinding s]
        ++ (if 0 <? su_Timeouts s then [lit "SIP timeouts: " ++ Itoa (su_Timeouts s)] else [])
        ++ (match entries with
            | [] => []
            | _ => [lit "Top failure classes: "
                    ++ Join (map (fun e => e.1 ++ lit "=" ++ Itoa e.2) (topClasses entries)) (lit ", ")]
            end)
        ++ (if 0 <? mm_RTCPReceptionReports (su_Media s) then [rtcpFinding (su_Media s)] else [])).

(** [FinalizeSummary]: the snapshot, its health and its findings. *)
Definition FinalizeSummary (now : Z) (cfg : HealthConfig) (entries : list (str * Z)) (c : Collector)
    : Summary * option HealthSummary * list str :=
  let s := CollectorSnapshot now c in
  let '(health, reasons) := EvaluateHealth cfg s in
  (s, health, BuildFindings s entries health reasons).

(** ** What the calls do to the collector *)

Inductive stat_op :=
  | OpStart
  | OpFinish (success : bool) (duration : Z)
  | OpInviteLatency (d : Z)
  | OpRetransmit
  | OpTimeout
  | OpMedia (v : MediaStats)
  | OpRTD (name : str) (d : Z)
  | OpCounter (name : str)
  | OpDisplay (name : str)
  | OpFailureClass (name : str).

Definition applyOp (c : Collector) (op : stat_op) : Collector :=
  match op with
  | OpStart => StartCall c
  | OpFinish success d => FinishCall success d c
  | OpInviteLatency d => AddInviteLatency d c
  | OpRetransmit => AddRetransmit c
  | OpTimeout => AddTimeout c
  | OpMedia v => AddMediaStats v c
  | OpRTD name d => AddRTD name d c
  | OpCounter name => AddCounter name c
  | OpDisplay name => AddDisplay name c
  | OpFailureClass name => AddFailureClass name c
  end.

Definition runOps (now : Z) (ops : list stat_op) : Collector := foldl applyOp (NewCollector now) ops.

(** The operations behind one entry of a call's log. *)
Definition eventOps (ev : call_event) : list stat_op :=
  match ev with
  | EvRetransmits n => replicate n OpRetransmit
  | EvCounter name => [OpCounter name]
  | EvDisplay name => [OpDisplay name]
  | EvRTD name d => [OpRTD name d]
  | EvInviteLatency d => [OpInviteLatency d]
  | EvTimeout => [OpTimeout]
  | _ => []
  end.

(** How a call ended: without media it never ran; an error is looked at by
    [classifyCallFailure]. *)
Inductive call_end :=
  | NoMedia
  | Succeeded
  | Failed (err : go_error) (sawUnexpectedSIP : bool).

(** [executeCall], as far as the collector sees it: the counters of the start,
    the events of the command loop, the deferred function. *)
Definition callOps (log : list call_event) (media : MediaStats) (duration : Z) (e : call_end) : list stat_op :=
  match e with
  | NoMedia => [OpStart]
  | Succeeded => OpStart :: flat_map eventOps log ++ [OpMedia media; OpFinish true duration]
  | Failed err saw =>
    OpStart :: flat_map eventOps log
    ++ [OpFailureClass (classifyCallFailure (Some err) saw); OpMedia media; OpFinish false duration]
  end.

(** * Lemmas *)

Definition zsum (l : list Z) : Z := foldr Z.add 0 l.

Lemma zsum_app l k : zsum (l ++ k) = zsum l + zsum k.
Proof. induction l as [|x l IH]; simpl; lia. Qed.

Lemma zsum_insert {A} (f : A -> Z) (l : list A) i x y :
  l !! i = Some x -> zsum (map f (<[i := y]> l)) = zsum (map f l) - f x + f y.
Proof.
  revert i. induction l as [|z l IH]; intros [|i] H; simpl in *; simplify_eq; [lia|].
  rewrite (IH i H). lia.
Qed.

Lemma zsum_nonneg l : Forall (fun x => 0 <= x) l -> 0 <= zsum l.
Proof. induction 1; simpl; lia. Qed.

(** ** Latency accumulators *)

Definition latencies (vs : list Z) : latencyAccumulator := foldl (fun a v => addLatency v a) zeroLatency vs.

Lemma latencies_snoc vs v : latencies (vs ++ [v]) = addLatency v (latencies vs).
Proof. unfold latencies. by rewrite foldl_app. Qed.

Lemma latencies_count vs : la_count (latencies vs) = Z.of_nat (length vs).
Proof.
  induction vs as [|v vs IH] using rev_ind; [done|].
  rewrite latencies_snoc, length_app. simpl. rewrite IH. lia.
Qed.

Lemma i64_add_l a b : i64 (i64 a + b) = i64 (a + b).
Proof.
  unfold i64. f_equal.
  assert ((((if a mod 2 ^ 64 <? 2 ^ 63 then a mod 2 ^ 64 else a mod 2 ^ 64 - 2 ^ 64) + b) mod 2 ^ 64)
          = (a + b) mod 2 ^ 64) as ->; [|done].
  destruct (a mod 2 ^ 64 <? 2 ^ 63).
  - by rewrite Zplus_mod_idemp_l.
  - rewrite <- (Z_mod_plus_full _ 1). replace (a mod 2 ^ 64 - 2 ^ 64 + b + 1 * 2 ^ 64) with (a mod 2 ^ 64 + b) by lia.
    by rewrite Zplus_mod_idemp_l.
Qed.

Lemma latencies_total vs : la_total (latencies vs) = i64 (zsum vs).
Proof.
  induction vs as [|v vs IH] using rev_ind; [done|].
  rewrite latencies_snoc, zsum_app. simpl. rewrite IH, i64_add_l. f_equal. lia.
Qed.

Lemma foldl_i64 vs : foldl (fun t l => i64 (t + l)) 0 vs = i64 (zsum vs).
Proof.
  induction vs as [|v vs IH] using rev_ind; [done|].
  rewrite foldl_app, zsum_app. simpl. rewrite IH, i64_add_l. f_equal. lia.
Qed.

Lemma latencies_bounds vs v :
  v ∈ vs -> Forall (fun x => 0 <= x) vs -> la_min (latencies vs) <= v <= la_max (latencies vs).
Proof.
  revert v. induction vs as [|x vs IH] using rev_ind; intros v Hv Hp; [by apply not_elem_of_nil in Hv|].
  apply Forall_app in Hp as [Hp _]. rewrite latencies_snoc. simpl. rewrite latencies_count.
  apply elem_of_app in Hv as [Hv | ->%list_elem_of_singleton].
  - specialize (IH v Hv Hp). assert (0 < length vs)%nat by (destruct vs; [by apply not_elem_of_nil in Hv|simpl; lia]).
    repeat case_match; bool_to_prop; lia.
  - repeat case_match; bool_to_prop; lia.
Qed.

Lemma latencies_attained vs :
  vs <> [] -> Forall (fun x => 0 <= x) vs ->
  la_min (latencies vs) ∈ vs /\ (la_max (latencies vs) ∈ vs \/ la_max (latencies vs) = 0).
Proof.
  induction vs as [|x vs IH] using rev_ind; intros Hn Hp; [done|].
  apply Forall_app in Hp as [Hp _]. rewrite latencies_snoc. simpl. rewrite latencies_count.
  destruct (decide (vs = [])) as [->|Hvs].
  - simpl. split; [set_solver|]. case_match; [left; set_solver|by right].
  - destruct (IH Hvs Hp) as [Hmin Hmax]. split; [case_match; set_solver|].
    case_match; [left; set_solver|]. destruct Hmax; [left; set_solver|by right].
Qed.

Lemma latencies_max_attained vs :
  vs <> [] -> Forall (fun x => 0 <= x) vs -> la_max (latencies vs) ∈ vs.
Proof.
  intros Hn Hp. destruct (latencies_attained vs Hn Hp) as [Hmin [H|H]]; [done|].
  rewrite H. rewrite Forall_forall in Hp.
  pose proof (Hp _ Hmin). pose proof (latencies_bounds vs _ Hmin ltac:(by apply Forall_forall)).
  by replace 0 with (la_min (latencies vs)) by lia.
Qed.

Lemma bucket_from_le i ms bounds : (i <= bucket_from i ms bounds <= i + length bounds)%nat.
Proof. revert i. induction bounds as [|b bs IH]; intros i; simpl; [lia|]. case_match; [lia|]. specialize (IH (S i)). lia. Qed.

Lemma bucket_index_range v : (latencyBucketIndex v < 10)%nat.
Proof. unfold latencyBucketIndex. pose proof (bucket_from_le 0 (Milliseconds v) latencyBucketBoundsMS). simpl in *. lia. Qed.

Lemma latencies_bucket vs i :
  (i < 10)%nat ->
  la_buckets (latencies vs) !! i = Some (Z.of_nat (length (filter (fun v => latencyBucketIndex v = i) vs))).
Proof.
  intros Hi. induction vs as [|v vs IH] using rev_ind.
  - change (replicate 10 0 !! i = Some 0). by apply lookup_replicate_2.
  - rewrite latencies_snoc, filter_app, length_app. simpl.
    destruct (decide (latencyBucketIndex v = i)) as [Heq|Hne].
    + rewrite Heq, list_lookup_alter_eq, IH.
      rewrite filter_cons_True by done. simpl. f_equal. lia.
    + rewrite list_lookup_alter_ne, IH, filter_cons_False by done. simpl. f_equal. lia.
Qed.

Lemma zsum_alter l i : (i < length l)%nat -> zsum (alter (fun n => n + 1) i l) = zsum l + 1.
Proof.
  revert i. induction l as [|x l IH]; intros [|i] H; simpl in H; [lia|lia|simpl; lia|].
  change (x + zsum (alter (fun n => n + 1) i l) = x + zsum l + 1). rewrite IH by lia. lia.
Qed.

Lemma latencies_bucket_sum vs :
  length (la_buckets (latencies vs)) = 10%nat /\ zsum (la_buckets (latencies vs)) = la_count (latencies vs).
Proof.
  induction vs as [|v vs [IHl IH]] using rev_ind; [done|].
  rewrite latencies_snoc. simpl. rewrite length_alter, zsum_alter by (rewrite IHl; apply bucket_index_range).
  by rewrite IH.
Qed.

(** The average of values that do not overflow lies between the extremes. *)
Lemma zsum_between vs lo hi :
  Forall (fun v => lo <= v <= hi) vs -> lo * Z.of_nat (length vs) <= zsum vs <= hi * Z.of_nat (length vs).
Proof. induction 1 as [|v vs Hv _ IH]; simpl length; simpl zsum; [lia|]. rewrite Nat2Z.inj_succ. lia. Qed.

(** ** The collector after a sequence of operations *)

Definition weight (f : stat_op -> Z) (ops : list stat_op) : Z := zsum (map f ops).

Definition is_start (op : stat_op) : Z := match op with OpStart => 1 | _ => 0 end.
Definition is_success (op : stat_op) : Z := match op with OpFinish true _ => 1 | _ => 0 end.
Definition is_failure (op : stat_op) : Z := match op with OpFinish false _ => 1 | _ => 0 end.
Definition is_retransmit (op : stat_op) : Z := match op with OpRetransmit => 1 | _ => 0 end.
Definition is_timeout (op : stat_op) : Z := match op with OpTimeout => 1 | _ => 0 end.
Definition octets_of (op : stat_op) : Z := match op with OpMedia v => ms_RTPOctetsSent v | _ => 0 end.
Definition has_class (op : stat_op) : Z :=
  match op with OpFailureClass n => if bool_decide (TrimSpace n = []) then 0 else 1 | _ => 0 end.
Definition duration_of (op : stat_op) : option Z := match op with OpFinish _ d => Some d | _ => None end.
Definition invite_of (op : stat_op) : option Z := match op with OpInviteLatency d => Some d | _ => None end.

Definition map_total (m : gmap str Z) : Z := map_fold (fun _ n acc => n + acc) 0 m.

Lemma map_total_insert_fresh (k : str) (n : Z) (m : gmap str Z) :
  m !! k = None -> map_total (<[k := n]> m) = n + map_total m.
Proof. intros H. unfold map_total. rewrite map_fold_insert_L; [done| |done]. intros. lia. Qed.

Lemma map_total_bump (name : str) (m : gmap str Z) :
  map_total (bump name m) = map_total m + (if bool_decide (TrimSpace name = []) then 0 else 1).
Proof.
  unfold bump. destruct (TrimSpace name) as [|b l] eqn:E; [rewrite bool_decide_eq_true_2 by done; lia|].
  rewrite bool_decide_eq_false_2 by done. generalize (b :: l). intros k.
  destruct (m !! k) as [v|] eqn:Hm; simpl.
  - rewrite <- (insert_delete_id m k v Hm) at 2. rewrite <- insert_delete_eq.
    rewrite !map_total_insert_fresh by apply lookup_delete_eq. lia.
  - rewrite map_total_insert_fresh by done. lia.
Qed.

Record collected (t : Z) (ops : list stat_op) (c : Collector) : Prop := {
  col_started : st_startedAt c = t;
  col_total : st_totalCalls c = weight is_start ops;
  col_success : st_successCalls c = weight is_success ops;
  col_failed : st_failedCalls c = weight is_failure ops;
  col_active : st_activeCalls c = weight is_start ops - weight is_success ops - weight is_failure ops;
  col_retransmits : st_retransmits c = weight is_retransmit ops;
  col_timeouts : st_timeouts c = weight is_timeout ops;
  col_duration : st_totalDuration c = i64 (zsum (omap duration_of ops));
  col_calls : st_callLatency c = latencies (omap duration_of ops);
  col_invites : st_inviteLatency c = latencies (omap invite_of ops);
  col_inviteList : st_inviteLatencies c = omap invite_of ops;
  col_octets : mm_RTPOctetsSent (st_media c) = u32 (weight octets_of ops);
  col_classes : map_total (st_failureClasses c) = weight has_class ops
}.

Lemma weight_app f l k : weight f (l ++ k) = weight f l + weight f k.
Proof. unfold weight. by rewrite map_app, zsum_app. Qed.

Lemma weight_snoc f ops op : weight f (ops ++ [op]) = weight f ops + f op.
Proof. rewrite weight_app. unfold weight. simpl. lia. Qed.

Lemma omap_snoc {A} (g : stat_op -> option A) ops op :
  omap g (ops ++ [op]) = omap g ops ++ match g op with Some x => [x] | None => [] end.
Proof. rewrite omap_app. simpl. by destruct (g op). Qed.

Lemma u32_add_l a b : u32 (u32 a + b) = u32 (a + b).
Proof. unfold u32. by rewrite Zplus_mod_idemp_l. Qed.

Lemma collected_step t ops c op : collected t ops c -> collected t (ops ++ [op]) (applyOp c op).
Proof.
  intros [H1 H2 H3 H4 H5 H6 H7 H8 H9 H10 H11 H12 H13].
  split; rewrite ?weight_snoc, ?omap_snoc, ?zsum_app;
    destruct op as [|[] d|d| | |v|n d|n|n|n]; simpl;
    rewrite ?app_nil_r, ?Z.add_0_r, ?latencies_snoc, ?map_total_bump;
    unfold AddRTD; try (destruct (bool_decide (n = []) || (d <? 0)));
    simpl; rewrite ?map_total_bump; try assumption; try congruence; try lia.
  all: rewrite ?H8, ?H12, ?i64_add_l, ?u32_add_l; try done; f_equal; lia.
Qed.

Lemma runOps_collected t ops : collected t ops (runOps t ops).
Proof.
  induction ops as [|op ops IH] using rev_ind; [by split|].
  unfold runOps. rewrite foldl_app. by apply collected_step.
Qed.

(** * Reports *)

(** Every latency report describes exactly the values it was given: their
    number, their extremes (which are values that occurred), an average
    between them, and for each bucket the number of values that fall in it. *)
Theorem latency_report_exact vs :
  vs <> [] -> Forall (fun v => 0 <= v) vs -> zsum vs <= int64_max ->
  exists s, latencySnapshot (latencies vs) = Some s
    /\ ls_Count s = Z.of_nat (length vs) /\ ls_Average s = zsum vs / Z.of_nat (length vs)
    /\ ls_Min s ∈ vs /\ ls_Max s ∈ vs /\ Forall (fun v => ls_Min s <= v <= ls_Max s) vs
    /\ ls_Min s <= ls_Average s <= ls_Max s
    /\ (forall i, (i < 10)%nat ->
          ls_Buckets s !! i = Some (bucketLabel i, Z.of_nat (length (filter (fun v => latencyBucketIndex v = i) vs))))
    /\ zsum (map snd (ls_Buckets s)) = Z.of_nat (length vs).
Proof.
  intros Hn Hp Hs. unfold latencySnapshot. rewrite latencies_count, latencies_total.
  assert (0 < length vs)%nat as Hl by (destruct vs; [done|simpl; lia]).
  rewrite (proj2 (Z.eqb_neq _ _)) by lia. eexists. split; [done|]. simpl.
  assert (0 <= zsum vs) by by apply zsum_nonneg.
  rewrite i64_small, Z.quot_div_nonneg by (unfold int64_min, int64_max in *; lia).
  assert (Forall (fun v => la_min (latencies vs) <= v <= la_max (latencies vs)) vs) as Hb.
  { apply Forall_forall. intros v Hv. by apply latencies_bounds. }
  pose proof (zsum_between _ _ _ Hb).
  split_and!; try done.
  - by apply latencies_attained.
  - by apply latencies_max_attained.
  - apply Z.div_le_lower_bound; lia.
  - apply Z.div_le_upper_bound; lia.
  - intros i Hi. unfold buildLatencyBuckets. by rewrite list_lookup_imap, latencies_bucket.
  - unfold buildLatencyBuckets.
    assert (forall l f, map snd (imap (fun (i : nat) (n : Z) => (f i : str, n)) l) = l) as ->.
    { induction l as [|x l IH]; intros f; simpl; [done|]. f_equal. apply IH. }
    rewrite (proj2 (latencies_bucket_sum vs)). apply latencies_count.
Qed.

Lemma latency_report_exact_witness :
  exists s, latencySnapshot (latencies [30000000; 7000000; 12000000]) = Some s
    /\ ls_Count s = 3 /\ ls_Average s = 16333333 /\ ls_Min s <= ls_Average s <= ls_Max s.
Proof.
  destruct (latency_report_exact [30000000; 7000000; 12000000]) as (s & E & Hc & Ha & _ & _ & _ & Hb & _).
  - done.
  - repeat constructor; lia.
  - vm_compute. done.
  - exists s. split; [done|]. split; [done|]. split; [by rewrite Ha|done].
Defined.

(** Whatever the calls do, in whatever order, a summary is consistent: calls are
    active, successful or failed; the two averages it computes for calls and
    for INVITEs agree with the detailed reports; and the octet total is the
    sum of the calls' totals modulo [2^32]. *)
Theorem summary_consistent t now ops :
  let s := CollectorSnapshot now (runOps t ops) in
  su_TotalCalls s = su_ActiveCalls s + su_SuccessCalls s + su_FailedCalls s
  /\ su_AverageCallLatency s = match su_CallLength s with Some l => ls_Average l | None => 0 end
  /\ su_AverageInviteRTT s = match su_InviteRTT s with Some l => ls_Average l | None => 0 end
  /\ match su_CallLength s with Some l => ls_Count l | None => 0 end = su_SuccessCalls s + su_FailedCalls s
  /\ mm_RTPOctetsSent (su_Media s) = u32 (weight octets_of ops).
Proof.
  pose proof (runOps_collected t ops) as [H1 H2 H3 H4 H5 H6 H7 H8 H9 H10 H11 H12 H13].
  assert (weight is_success ops + weight is_failure ops = Z.of_nat (length (omap duration_of ops))) as Hf.
  { clear. induction ops as [|op ops IH] using rev_ind; [done|].
    rewrite !weight_snoc, omap_snoc, length_app, Nat2Z.inj_add, <- IH.
    destruct op as [|[] d|d| | |v|n d|n|n|n]; simpl; lia. }
  simpl. rewrite H2, H3, H4, H5, H8, H9, H10, H11, H12, foldl_i64.
  unfold latencySnapshot. rewrite !latencies_count, !latencies_total, Hf. split; [lia|].
  generalize (omap duration_of ops) (omap invite_of ops). intros ds ivs.
  destruct ds as [|d ds], ivs as [|i ivs]; simpl; done.
Qed.

(** ** Interleaved calls *)

(** A run of calls: at each step one of them performs its next operation. *)
Inductive engine_run : list (list stat_op) -> list (list stat_op) -> list stat_op -> Prop :=
  | run_here ps : engine_run ps ps []
  | run_step ps ps' i op rest ops :
      ps !! i = Some (op :: rest) -> engine_run (<[i := rest]> ps) ps' ops -> engine_run ps ps' (op :: ops).

Lemma engine_run_weight f ps ps' ops :
  engine_run ps ps' ops -> weight f ops = zsum (map (weight f) ps) - zsum (map (weight f) ps').
Proof.
  induction 1 as [ps|ps ps' i op rest ops Hi _ IH]; [unfold weight; simpl; lia|].
  rewrite (zsum_insert _ _ _ _ _ Hi) in IH. unfold weight in *. simpl in *. lia.
Qed.

Record call_run := mkCallRun { cr_log : list call_event; cr_media : MediaStats; cr_duration : Z; cr_end : call_end }.

Definition call_program (r : call_run) : list stat_op :=
  callOps (cr_log r) (cr_media r) (cr_duration r) (cr_end r).

(** Calls that ended in a given way. *)
Definition ended (p : call_end -> bool) (runs : list call_run) : Z :=
  Z.of_nat (length (filter (fun r => p (cr_end r) = true) runs)).
Definition is_noMedia (e : call_end) : bool := match e with NoMedia => true | _ => false end.
Definition is_succeeded (e : call_end) : bool := match e with Succeeded => true | _ => false end.
Definition is_failed (e : call_end) : bool := match e with Failed _ _ => true | _ => false end.

Lemma event_weight f log :
  (forall ev, weight f (eventOps ev) = 0) -> weight f (flat_map eventOps log) = 0.
Proof.
  intros H. induction log as [|ev log IH]; [done|]. simpl. rewrite weight_app, IH, H. done.
Qed.

Lemma weight_cons f op ops : weight f (op :: ops) = f op + weight f ops.
Proof. done. Qed.

Lemma weight_replicate f n op : f op = 0 -> weight f (replicate n op) = 0.
Proof. intros H. unfold weight. induction n as [|n IH]; simpl; lia. Qed.

Lemma eventOps_quiet f ev :
  f OpRetransmit = 0 -> f OpTimeout = 0 -> (forall d, f (OpInviteLatency d) = 0) -> (forall n d, f (OpRTD n d) = 0) ->
  (forall n, f (OpCounter n) = 0) -> (forall n, f (OpDisplay n) = 0) -> weight f (eventOps ev) = 0.
Proof.
  intros H1 H2 H3 H4 H5 H6. destruct ev; simpl; rewrite ?weight_cons, ?H2, ?H3, ?H4, ?H5, ?H6; try done.
  by apply weight_replicate.
Qed.

Lemma classify_nonempty e saw : TrimSpace (classifyCallFailure (Some e) saw) <> [].
Proof. simpl. repeat case_match; done. Qed.

Lemma call_program_weight f r :
  f OpRetransmit = 0 -> f OpTimeout = 0 -> (forall d, f (OpInviteLatency d) = 0) -> (forall n d, f (OpRTD n d) = 0) ->
  (forall n, f (OpCounter n) = 0) -> (forall n, f (OpDisplay n) = 0) ->
  weight f (call_program r) = f OpStart +
    match cr_end r with
    | NoMedia => 0
    | Succeeded => f (OpMedia (cr_media r)) + f (OpFinish true (cr_duration r))
    | Failed e saw => f (OpFailureClass (classifyCallFailure (Some e) saw)) + f (OpMedia (cr_media r))
                      + f (OpFinish false (cr_duration r))
    end.
Proof.
  intros. unfold call_program, callOps.
  destruct (cr_end r); rewrite ?weight_cons, ?weight_app, ?event_weight by (intros; by apply eventOps_quiet);
    unfold weight; simpl; lia.
Qed.

Lemma ended_cons p r runs : ended p (r :: runs) = (if p (cr_end r) then 1 else 0) + ended p runs.
Proof.
  unfold ended. destruct (p (cr_end r)) eqn:E.
  - rewrite filter_cons_True by done. simpl. lia.
  - rewrite filter_cons_False by (by rewrite E). lia.
Qed.

Lemma programs_weight runs :
  zsum (map (weight is_start) (map call_program runs)) = Z.of_nat (length runs)
  /\ zsum (map (weight is_success) (map call_program runs)) = ended is_succeeded runs
  /\ zsum (map (weight is_failure) (map call_program runs)) = ended is_failed runs
  /\ zsum (map (weight has_class) (map call_program runs)) = ended is_failed runs
  /\ Z.of_nat (length runs) = ended is_noMedia runs + ended is_succeeded runs + ended is_failed runs.
Proof.
  induction runs as [|r runs (IH1 & IH2 & IH3 & IH4 & IH5)]; [done|].
  rewrite !ended_cons. cbn [map zsum foldr]. fold (zsum (map (weight is_start) (map call_program runs))).
  fold (zsum (map (weight is_success) (map call_program runs))).
  fold (zsum (map (weight is_failure) (map call_program runs))).
  fold (zsum (map (weight has_class) (map call_program runs))).
  rewrite IH1, IH2, IH3, IH4, !call_program_weight by done. cbn [length]. rewrite Nat2Z.inj_succ, IH5.
  destruct (cr_end r) as [| |e saw]; simpl;
    rewrite ?bool_decide_eq_false_2 by apply classify_nonempty; lia.
Qed.

(** C22: When all calls have run to their end, in any interleaving, the collector
    counted each exactly once, every failed call has a failure class, and the
    only calls still active are those that got no media session. *)
Theorem run_accounting t runs ops :
  engine_run (map call_program runs) (replicate (length runs) []) ops ->
  let c := runOps t ops in
  st_totalCalls c = Z.of_nat (length runs)
  /\ st_successCalls c = ended is_succeeded runs
  /\ st_failedCalls c = ended is_failed runs
  /\ map_total (st_failureClasses c) = ended is_failed runs
  /\ st_activeCalls c = ended is_noMedia runs.
Proof.
  intros H c. pose proof (runOps_collected t ops) as [_ H2 H3 H4 H5 _ _ _ _ _ _ _ H13].
  assert (forall f, weight f ops = zsum (map (weight f) (map call_program runs))) as Hw.
  { intros f. rewrite (engine_run_weight f _ _ _ H). clear.
    assert (forall n, zsum (map (weight f) (replicate n [])) = 0) as Hz by (induction n; done). rewrite Hz. lia. }
  destruct (programs_weight runs) as (P1 & P2 & P3 & P4 & P5).
  rewrite Hw in H2, H3, H4, H13. rewrite !Hw in H5. unfold c. split_and!; lia.
Qed.

Definition noMediaStats : MediaStats := mkMediaStats 0 0 0 0 0 0 0 0 0 0 fzero 0 0 0.
Definition timeoutError : go_error := mkGoError false true false false false false [].

(** Three calls whose operations alternate; one of them has no media session. *)
Definition demoRuns : list call_run :=
  [mkCallRun [EvCounter (lit "c")] noMediaStats 5 Succeeded;
   mkCallRun [EvTimeout] noMediaStats 7 (Failed timeoutError false);
   mkCallRun [] noMediaStats 0 NoMedia].

Definition demoOps : list stat_op :=
  [OpStart; OpStart; OpCounter (lit "c"); OpTimeout; OpStart; OpFailureClass (lit "timeout");
   OpMedia noMediaStats; OpMedia noMediaStats; OpFinish false 7; OpFinish true 5].

Lemma run_accounting_witness :
  engine_run (map call_program demoRuns) (replicate 3 []) demoOps
  /\ st_activeCalls (runOps 0 demoOps) = 1.
Proof.
  assert (engine_run (map call_program demoRuns) (replicate (length demoRuns) []) demoOps) as H.
  { eapply (run_step _ _ 0); [reflexivity|].
    eapply (run_step _ _ 1); [reflexivity|]. eapply (run_step _ _ 0); [reflexivity|].
    eapply (run_step _ _ 1); [reflexivity|]. eapply (run_step _ _ 2); [reflexivity|].
    eapply (run_step _ _ 1); [reflexivity|]. eapply (run_step _ _ 0); [reflexivity|].
    eapply (run_step _ _ 1); [reflexivity|]. eapply (run_step _ _ 1); [reflexivity|].
    eapply (run_step _ _ 0); [reflexivity|]. apply run_here. }
  split; [exact H|].
  destruct (run_accounting 0 demoRuns demoOps H) as (_ & _ & _ & _ & Ha). rewrite Ha. reflexivity.
Defined.

(** ** The most frequent failures *)

#[global] Instance class_le_total : Total class_le.
Proof.
  intros [a n] [b m]. unfold class_le. simpl. rewrite (Z.eqb_sym m n).
  destruct (Z.eqb_spec n m) as [->|H]; [apply str_leb_total|]. rewrite !Z.ltb_lt. lia.
Qed.

#[global] Instance class_le_trans : Transitive class_le.
Proof.
  intros [a n] [b m] [c k]. unfold class_le. simpl.
  destruct (Z.eqb_spec n m), (Z.eqb_spec m k), (Z.eqb_spec n k); rewrite ?Z.ltb_lt; try lia.
  apply str_leb_trans.
Qed.

#[global] Instance class_le_antisym : AntiSymm (=) class_le.
Proof.
  intros [a n] [b m]. unfold class_le. simpl. rewrite (Z.eqb_sym m n).
  destruct (Z.eqb_spec n m) as [->|H].
  - intros H1 H2. f_equal. by apply str_leb_antisym.
  - rewrite !Z.ltb_lt. lia.
Qed.

Lemma sorted_take_drop n (l : list (str * Z)) a b :
  StronglySorted class_le l -> a ∈ take n l -> b ∈ drop n l -> class_le a b.
Proof.
  intros Hs Ha Hb. rewrite <- (take_drop n l) in Hs. revert Hs Ha Hb.
  generalize (take n l) (drop n l). intros k r. induction k as [|x k IH]; intros Hs Ha Hb; [by apply not_elem_of_nil in Ha|].
  simpl in Hs. inversion Hs as [|? ? Hs' Hall]; subst. rewrite Forall_forall in Hall.
  apply elem_of_cons in Ha as [->|Ha]; [|by apply IH]. apply Hall. set_solver.
Qed.

(** The findings do not depend on the order in which Go visits the map of
    failure classes, and the three classes they name are the most frequent
    ones, ties going to the smaller name. *)
Theorem findings_deterministic now cfg c entries :
  entries ≡ₚ map_to_list (st_failureClasses c) ->
  FinalizeSummary now cfg entries c = FinalizeSummary now cfg (map_to_list (st_failureClasses c)) c
  /\ (forall a b, a ∈ topClasses entries -> b ∈ entries -> b ∉ topClasses entries -> class_le a b)
  /\ length (topClasses entries) = Nat.min 3 (size (st_failureClasses c)).
Proof.
  intros Hp.
  assert (merge_sort class_le entries = merge_sort class_le (map_to_list (st_failureClasses c))) as Hm.
  { apply (StronglySorted_unique class_le); [apply (StronglySorted_merge_sort class_le)..|].
    by rewrite !merge_sort_Permutation. }
  split_and!.
  - unfold FinalizeSummary, BuildFindings. destruct (EvaluateHealth _ _) as [h r]. unfold topClasses. rewrite Hm.
    assert (entries = [] <-> map_to_list (st_failureClasses c) = []) as He.
    { split; intros E; rewrite E in Hp; [by apply Permutation_nil_l in Hp|by apply Permutation_nil_r in Hp]. }
    destruct entries, (map_to_list (st_failureClasses c)); try done; naive_solver.
  - intros a b Ha Hb Hnb. unfold topClasses in *. eapply (sorted_take_drop 3); [apply (StronglySorted_merge_sort class_le)|done|].
    rewrite <- (merge_sort_Permutation class_le entries), <- (take_drop 3 (merge_sort class_le entries)) in Hb.
    apply elem_of_app in Hb as [?|?]; [done|done].
  - unfold topClasses. rewrite length_take, merge_sort_Permutation, Hp, length_map_to_list. done.
Qed.

Definition demoFailures : Collector :=
  runOps 0 [OpFailureClass (lit "timeout"); OpFailureClass (lit "cancelled"); OpFailureClass (lit "timeout")].

Lemma findings_deterministic_witness :
  length (topClasses (rev (map_to_list (st_failureClasses demoFailures)))) = 2%nat.
Proof.
  destruct (findings_deterministic 0 (mkHealthConfig fzero 0 0 fzero 0 0 0) demoFailures
              (rev (map_to_list (st_failureClasses demoFailures)))) as (_ & _ & H).
  - symmetry. apply Permutation_rev.
  - rewrite H. vm_compute. reflexivity.
Defined.

(** ** Surprises *)

(** A call that gets no media session is counted as active for ever: the
    counter is raised before the deferred function that lowers it exists. *)
Theorem media_failure_leaks_active t log media d ops :
  st_activeCalls (runOps t (ops ++ callOps log media d NoMedia)) = st_activeCalls (runOps t ops) + 1.
Proof. unfold runOps. by rewrite foldl_app. Qed.

(** The tolerance of the loss check has the wrong sign: a loss that is exactly
    the allowed maximum fails. *)
Theorem loss_at_limit_fails :
  let quarter := fdiv (float_of_int 64) (float_of_int 256) in
  let cfg := mkHealthConfig fzero (-1) (-1) quarter 0 0 0 in
  let c := runOps 0 (callOps [] (mkMediaStats 0 0 0 0 0 0 1 64 0 0 fzero 0 0 0) 1 Succeeded) in
  feq (mm_RTCPMaxFractionLost (st_media c)) quarter = true
  /\ match EvaluateHealth cfg (CollectorSnapshot 1 c) with (Some h, _) => hs_Pass h | _ => true end = false.
Proof. vm_compute. done. Qed.

(** A [HealthConfig] of zeros is not inactive: one failed call fails the run. *)
Theorem zero_health_config_active s :
  0 < su_FailedCalls s ->
  exists h, fst (EvaluateHealth (mkHealthConfig fzero 0 0 fzero 0 0 0) s) = Some h /\ hs_Pass h = false.
Proof.
  intros H. unfold EvaluateHealth. simpl. eexists. split; [done|]. simpl.
  apply bool_decide_eq_false. unfold healthReasons. simpl. by rewrite (proj2 (Z.ltb_lt _ _) H).
Qed.

Example fixed_examples :
  FormatFixed 4 (fdiv (float_of_int 2) (float_of_int 3)) = lit "0.6667"
  /\ FormatFixed 1 (float_of_int 100) = lit "100.0"
  /\ FormatFixed 2 (fdiv (float_of_int 1) (float_of_int 8)) = lit "0.12".
Proof. vm_compute. done. Qed.
