(* ===== verification/SafePath.v ===== *)
(** * Paths under a data directory ([internal/safepath], [pcap2scenario/paths.go])

    [SafeID], [Within], [Join] and [resolveUnderRoot], with the lexical path
    functions of [path/filepath] for Unix that they use.  The working directory
    is an argument ([None] when [os.Getwd] fails); symbolic links are not
    followed, as in the code. *)

From stdpp Require Import base list sets strings.
From Stdlib Require Import ZArith Lia Strings.Byte.
From S2P Require Import Prelude GoStrings.

(** ** [path/filepath] *)

Definition slash : byte := x2f.
Definition dot : str := [x2e].
Definition dotdot : str := [x2e; x2e].

Definition IsAbs (p : str) : bool := HasPrefix p [slash].

(** The elements of a path that [Clean] keeps, last one first; [rooted] paths
    drop a leading [..]. *)
Fixpoint clean_elems (rooted : bool) (elems : list str) (out : list str) : list str :=
  match elems with
  | [] => out
  | e :: rest =>
    if bool_decide (e = []) || bool_decide (e = dot) then clean_elems rooted rest out
    else if bool_decide (e = dotdot) then
      match out with
      | o :: out' => if bool_decide (o = dotdot) then clean_elems rooted rest (dotdot :: out)
                     else clean_elems rooted rest out'
      | [] => clean_elems rooted rest (if rooted then [] else [dotdot])
      end
    else clean_elems rooted rest (e :: out)
  end.

Definition elements (p : str) : list str := rev (clean_elems (IsAbs p) (Split p slash) []).

Definition Clean (p : str) : str :=
  let es := elements p in
  if IsAbs p then slash :: GoStrings.Join es [slash]
  else match es with [] => dot | _ => GoStrings.Join es [slash] end.

(** [filepath.Dir] *)
Definition Dir (p : str) : str :=
  match LastIndex p [slash] with Some i => Clean (take (S i) p) | None => Clean [] end.

(** [filepath.Join] *)
Definition JoinPath (elems : list str) : str :=
  match filter (fun e => e <> []) elems with
  | [] => []
  | es => Clean (GoStrings.Join es [slash])
  end.

Definition Abs (cwd : option str) (p : str) : option str :=
  if IsAbs p then Some (Clean p)
  else match cwd with Some d => Some (JoinPath [d; p]) | None => None end.

(** [filepath.Rel] on clean absolute paths. *)
Fixpoint rel_elems (base targ : list str) : list str :=
  match base, targ with
  | b :: base', t :: targ' =>
    if bool_decide (b = t) then rel_elems base' targ' else map (fun _ => dotdot) base ++ targ
  | _, _ => map (fun _ => dotdot) base ++ targ
  end.

Definition Rel (base targ : str) : str :=
  match rel_elems (elements base) (elements targ) with
  | [] => dot
  | es => GoStrings.Join es [slash]
  end.

(** ** [safepath.go], [id.go] and [fs.go] *)

Definition Within (cwd : option str) (root target : str) : bool :=
  match Abs cwd (Clean root), Abs cwd (Clean target) with
  | Some rootAbs, Some targetAbs =>
    bool_decide (targetAbs = rootAbs) || HasPrefix targetAbs (rootAbs ++ [slash])
  | _, _ => false
  end.

(** [safepath.Join]; [None] is [os.ErrInvalid] *)
Definition SafeJoin (cwd : option str) (base : str) (elems : list str) : option str :=
  let base := Clean base in
  let candidate := Clean (JoinPath (base :: elems)) in
  if Within cwd base candidate then Some candidate else None.

Definition id_rune (r : Z) : bool :=
  ((97 <=? r) && (r <=? 122)) || ((65 <=? r) && (r <=? 90)) || ((48 <=? r) && (r <=? 57))
  || (r =? 95) || (r =? 45) || (r =? 46).

Definition SafeID (id : str) : bool :=
  let id := TrimSpace id in
  if bool_decide (id = []) || (64 <? Z.of_nat (length id)) then false
  else forallb id_rune (runes id) && negb (bool_decide (id = dot)) && negb (bool_decide (id = dotdot)).

Definition JobArtifactsDir (cwd : option str) (dataRoot jobID : str) : option str :=
  if SafeID jobID then
    match SafeJoin cwd dataRoot [lit "artifacts"; lit "jobs"] with
    | Some jobsRoot => SafeJoin cwd jobsRoot [jobID]
    | None => None
    end
  else None.

Definition resolveUnderRoot (cwd : option str) (root target : str) : option str :=
  match Abs cwd (Clean root), Abs cwd (Clean target) with
  | Some rootAbs, Some targetAbs =>
    let rel := Rel rootAbs targetAbs in
    if bool_decide (rel = dotdot) || HasPrefix rel (dotdot ++ [slash]) then None
    else if negb (bool_decide (targetAbs = rootAbs)) && negb (HasPrefix targetAbs (rootAbs ++ [slash])) then None
    else Some targetAbs
  | _, _ => None
  end.

(** The path [OpenJobArtifact] opens. *)
Definition JobArtifactPath (cwd : option str) (dataRoot jobID name : str) : option str :=
  match JobArtifactsDir cwd dataRoot jobID with
  | Some dir =>
    match resolveUnderRoot cwd dataRoot dir with
    | Some dirAbs =>
      match SafeJoin cwd dirAbs [name] with
      | Some path => resolveUnderRoot cwd dirAbs path
      | None => None
      end
    | None => None
    end
  | None => None
  end.

Example clean_examples :
  Clean (lit "a//b/../c/.") = lit "a/c" /\ Clean (lit "/../x") = lit "/x" /\ Clean (lit "../../x") = lit "../../x"
  /\ Clean [] = lit "." /\ Clean (lit "a/..") = lit "." /\ Clean (lit "/") = lit "/".
Proof. vm_compute. done. Qed.

Example join_examples :
  SafeJoin (Some (lit "/w")) (lit "data") [lit "jobs"; lit "../x"] = Some (lit "data/x")
  /\ SafeJoin (Some (lit "/w")) (lit "data") [lit "../../etc"] = None
  /\ Rel (lit "/a/b") (lit "/a/c/d") = lit "../c/d".
Proof. vm_compute. done. Qed.

(** * Lemmas *)

(** The elements of a clean absolute path. *)
Definition proper (e : str) : Prop := e <> [] /\ e <> dot /\ e <> dotdot /\ slash ∉ e.

Lemma clean_elems_proper es out :
  Forall (fun e => slash ∉ e) es -> Forall proper out -> Forall proper (clean_elems true es out).
Proof.
  intros Hes. revert out. induction Hes as [|e es He _ IH]; intros out Hout; simpl; [done|].
  case_bool_decide; [by apply IH|]. simpl. case_bool_decide; [by apply IH|].
  case_bool_decide; [|apply IH; constructor; done].
  destruct out as [|o out]; [by apply IH|]. inversion Hout as [|? ? Ho Hout']; subst.
  rewrite bool_decide_eq_false_2 by apply Ho. by apply IH.
Qed.

Lemma elements_proper p : IsAbs p = true -> Forall proper (elements p).
Proof.
  intros H. unfold elements. rewrite H. apply Forall_rev, clean_elems_proper; [apply Split_no_sep|constructor].
Qed.

Lemma clean_elems_id es out : Forall proper es -> clean_elems true es out = rev es ++ out.
Proof.
  intros H. revert out. induction H as [|e es (H1 & H2 & H3 & _) _ IH]; intros out; [done|].
  simpl. rewrite !bool_decide_eq_false_2 by done. simpl. rewrite IH. by rewrite <- app_assoc.
Qed.

Definition abs_path (es : list str) : str := slash :: GoStrings.Join es [slash].

Lemma Split_Join es : es <> [] -> Forall (fun e => slash ∉ e) es -> Split (GoStrings.Join es [slash]) slash = es.
Proof.
  induction es as [|e es IH]; intros Hn H; [done|]. inversion H as [|? ? He Hes]; subst.
  destruct es as [|e' es]; [by apply Split_none|].
  rewrite Join_cons by done. cbn [app].
  rewrite Split_segment by done. by rewrite IH.
Qed.

Lemma proper_no_slash es : Forall proper es -> Forall (fun e => slash ∉ e) es.
Proof. intros H. eapply Forall_impl; [exact H|]. by intros e (_ & _ & _ & ?). Qed.

Lemma elements_abs_path es : Forall proper es -> elements (abs_path es) = es.
Proof.
  intros H. unfold elements, abs_path. change (IsAbs _) with true.
  destruct es as [|e es]; [done|].
  change (slash :: GoStrings.Join (e :: es) [slash]) with ([] ++ slash :: GoStrings.Join (e :: es) [slash]).
  rewrite Split_segment, Split_Join by (done || by apply proper_no_slash || set_solver).
  change (clean_elems true ([] :: e :: es) []) with (clean_elems true (e :: es) []).
  rewrite clean_elems_id by done. by rewrite app_nil_r, rev_involutive.
Qed.

Lemma Clean_abs p : IsAbs p = true -> Clean p = abs_path (elements p).
Proof. intros H. unfold Clean. by rewrite H. Qed.

Lemma abs_path_inj es es' : Forall proper es -> Forall proper es' -> abs_path es = abs_path es' -> es = es'.
Proof. intros H H' E. rewrite <- (elements_abs_path es), <- (elements_abs_path es') by done. by rewrite E. Qed.

(** Absolute paths of the program are clean. *)
Lemma Abs_clean cwd p q :
  (forall d, cwd = Some d -> IsAbs d = true) -> Abs cwd p = Some q -> q = abs_path (elements q) /\ Forall proper (elements q).
Proof.
  unfold Abs, JoinPath. intros Hcwd H.
  assert (exists r, IsAbs r = true /\ q = Clean r) as (r & Hr & ->).
  { destruct (IsAbs p) eqn:E; [simplify_eq; eauto|]. destruct cwd as [d|]; [|done]. simplify_eq.
    specialize (Hcwd d eq_refl). destruct d as [|b d]; [done|].
    rewrite filter_cons_True by done. eexists. split; [|done].
    unfold IsAbs in *. apply HasPrefix_spec in Hcwd as [t Ht]. simpl in Ht. simplify_eq.
    destruct (filter _ [p]); [by simpl|]. by rewrite Join_cons. }
  rewrite (Clean_abs r Hr). rewrite elements_abs_path by by apply elements_proper. split; [done|]. by apply elements_proper.
Qed.

Lemma Join_prefix r t u :
  Forall (fun e => slash ∉ e) r -> Forall (fun e => slash ∉ e) t -> r <> [] -> t <> [] ->
  GoStrings.Join t [slash] = GoStrings.Join r [slash] ++ slash :: u -> exists rest, rest <> [] /\ t = r ++ rest.
Proof.
  revert t. induction r as [|e r IH]; intros t Hr Ht Hrn Htn E; [done|].
  inversion Hr as [|? ? He Hr']; subst. apply (f_equal (fun s => Split s slash)) in E.
  rewrite Split_Join in E by done. destruct r as [|e2 r].
  - cbn [GoStrings.Join] in E. rewrite Split_segment in E by done. subst t. eexists. split; [apply Split_nonempty|done].
  - rewrite Join_cons in E by done. rewrite <- !app_assoc in E. cbn [app] in E.
    rewrite Split_segment in E by done. subst t.
    destruct (IH (Split (GoStrings.Join (e2 :: r) [slash] ++ slash :: u) slash)) as (rest & Hr1 & Hr2);
      [done|apply Split_no_sep|done|apply Split_nonempty|by rewrite Join_Split|].
    exists rest. split; [done|]. by rewrite Hr2.
Qed.

Lemma prefix_elements r t :
  Forall proper r -> Forall proper t -> r <> [] ->
  HasPrefix (abs_path t) (abs_path r ++ [slash]) = true <-> exists rest, rest <> [] /\ t = r ++ rest.
Proof.
  intros Hr Ht Hn. rewrite HasPrefix_spec. split.
  - intros [u E]. rewrite <- app_assoc in E. cbn [app] in E.
    assert (t <> []) as Htn.
    { intros ->. apply (f_equal length) in E. cbn in E. rewrite length_app in E. cbn in E. lia. }
    unfold abs_path in E. cbn [app] in E. injection E as E.
    apply (Join_prefix r t u); try done; by apply proper_no_slash.
  - intros (rest & Hrest & ->). exists (GoStrings.Join rest [slash]). unfold abs_path. simpl. f_equal.
    clear Ht Hr. induction r as [|e r IH]; [done|]. destruct r as [|e2 r].
    + cbn [app]. rewrite Join_cons by done. by rewrite <- app_assoc.
    + cbn [app] in *. rewrite !(Join_cons e) by done. rewrite IH by done. by rewrite <- !app_assoc.
Qed.

(** ** Relative paths *)

(** The elements of a clean relative path: some [..], then proper ones. *)
Definition climbing (es : list str) : Prop := exists k t, es = replicate k dotdot ++ t /\ Forall proper t.

Lemma rev_dotdots k : rev (replicate k dotdot) = replicate k dotdot.
Proof. induction k as [|k IH]; [done|]. simpl. rewrite IH. symmetry. apply (replicate_cons_app k dotdot). Qed.

Lemma clean_elems_climbing es k t :
  Forall (fun e => slash ∉ e) es -> Forall proper t ->
  exists k' t', clean_elems false es (t ++ replicate k dotdot) = t' ++ replicate k' dotdot /\ Forall proper t'.
Proof.
  intros Hes. revert k t. induction Hes as [|e es He _ IH]; intros k t Ht; [by exists k, t|].
  cbn [clean_elems]. case_bool_decide; [by apply IH|]. case_bool_decide; [by apply IH|]. cbn [orb].
  case_bool_decide; [|apply (IH k (e :: t)); by constructor].
  destruct t as [|o t]; cbn [app].
  - destruct k as [|k]; cbn [replicate]; [apply (IH 1%nat []); constructor|].
    rewrite bool_decide_eq_true_2 by done. apply (IH (S (S k)) []). constructor.
  - inversion Ht as [|? ? Ho Ht']; subst. rewrite bool_decide_eq_false_2 by apply Ho. by apply IH.
Qed.

Lemma elements_climbing p : IsAbs p = false -> climbing (elements p).
Proof.
  intros H. unfold elements. rewrite H.
  destruct (clean_elems_climbing (Split p slash) 0 [] (Split_no_sep _ _) ltac:(constructor)) as (k & t & E & Ht).
  cbn [app replicate] in E. rewrite E, rev_app_distr, rev_dotdots. exists k, (rev t). split; [done|]. by apply Forall_rev.
Qed.

Lemma clean_elems_climb es : climbing es -> clean_elems false es [] = rev es.
Proof.
  intros (k & t & -> & Ht).
  assert (forall j, clean_elems false (replicate k dotdot ++ t) (replicate j dotdot)
                    = rev t ++ replicate (k + j) dotdot) as H.
  { induction k as [|k IH]; intros j; cbn [app replicate].
    - cbn [Nat.add]. generalize (replicate j dotdot). induction Ht as [|e t (H1 & H2 & H3 & _) _ IH]; intros out; [done|].
      cbn [clean_elems]. rewrite !bool_decide_eq_false_2 by done. cbn [orb]. rewrite IH. simpl. by rewrite <- app_assoc.
    - replace (S k + j)%nat with (k + S j)%nat by lia. rewrite <- IH. cbn [clean_elems].
      rewrite (bool_decide_eq_false_2 (dotdot = [])), (bool_decide_eq_false_2 (dotdot = dot)) by done.
      cbn [orb]. rewrite bool_decide_eq_true_2 by done. destruct j; [done|]. cbn [replicate].
      by rewrite bool_decide_eq_true_2. }
  change [] with (replicate 0 dotdot) at 1. rewrite H, Nat.add_0_r, rev_app_distr, rev_dotdots. done.
Qed.

Lemma climbing_no_slash es : climbing es -> Forall (fun e => slash ∉ e /\ e <> []) es.
Proof.
  intros (k & t & -> & Ht). apply Forall_app. split.
  - apply Forall_replicate. split; [|done]. unfold dotdot, slash. set_solver.
  - eapply Forall_impl; [exact Ht|]. intros e (? & _ & _ & ?). done.
Qed.

Lemma Join_relative es : es <> [] -> Forall (fun e => slash ∉ e /\ e <> []) es -> IsAbs (GoStrings.Join es [slash]) = false.
Proof.
  intros Hn H. destruct es as [|e es]; [done|]. inversion H as [|? ? [Hs He] _]; subst.
  destruct e as [|b e]; [done|]. unfold IsAbs.
  assert (b <> slash) as Hb by (intros ->; apply Hs; left).
  destruct es; cbn; by rewrite (proj2 (beqb_neq b slash)).
Qed.

Lemma Clean_idem p : Clean (Clean p) = Clean p.
Proof.
  destruct (IsAbs p) eqn:E.
  - rewrite (Clean_abs p E), Clean_abs by done. by rewrite elements_abs_path by by apply elements_proper.
  - pose proof (elements_climbing p E) as Hc.
    assert (Clean p = match elements p with [] => dot | es => GoStrings.Join es [slash] end) as -> by (unfold Clean; rewrite E; by destruct (elements p)).
    destruct (elements p) as [|e es]; [done|]. assert (e :: es <> []) as Hn by done.
    generalize dependent (e :: es). intros l Hc Hn.
    assert (IsAbs (GoStrings.Join l [slash]) = false) as Hr by (apply Join_relative; [done|by apply climbing_no_slash]).
    assert (elements (GoStrings.Join l [slash]) = l) as El.
    { unfold elements. rewrite Hr, Split_Join, (clean_elems_climb _ Hc), rev_involutive; [done|done|].
      eapply Forall_impl; [by apply climbing_no_slash|]. by intros e' [? _]. }
    unfold Clean. rewrite Hr, El. by destruct l.
Qed.

(** * Containment *)

Section Contained.

Context (cwd : option str) (Hcwd : forall d, cwd = Some d -> IsAbs d = true).

(** [Within] decides containment of the element lists of the two absolute
    paths; only the file system root is taken to contain nothing but itself. *)
Lemma Within_spec root target :
  Within cwd root target = true <->
  exists rp tp, Abs cwd (Clean root) = Some rp /\ Abs cwd (Clean target) = Some tp
    /\ (tp = rp \/ (elements rp <> [] /\ exists rest, rest <> [] /\ elements tp = elements rp ++ rest)).
Proof.
  unfold Within.
  destruct (Abs cwd (Clean root)) as [rp|] eqn:Er; [|naive_solver].
  destruct (Abs cwd (Clean target)) as [tp|] eqn:Et; [|naive_solver].
  destruct (Abs_clean _ _ _ Hcwd Er) as [Erp Hrp], (Abs_clean _ _ _ Hcwd Et) as [Etp Htp].
  rewrite orb_true_iff, bool_decide_eq_true.
  assert (HasPrefix tp (rp ++ [slash]) = true <->
          elements rp <> [] /\ exists rest, rest <> [] /\ elements tp = elements rp ++ rest) as ->.
  { destruct (decide (elements rp = [])) as [E0|E0].
    - split; [|naive_solver]. intros H. exfalso. rewrite Erp, E0, Etp in H. apply HasPrefix_spec in H as [u Hu].
      destruct (elements tp) as [|e es]; [done|]. inversion Htp as [|? ? (H1 & _ & _ & H4) _]; subst.
      unfold abs_path in Hu. cbn [app GoStrings.Join] in Hu. injection Hu as Hu.
      destruct e as [|b e]; [done|]. apply H4. destruct es; cbn [app] in Hu; injection Hu as -> _; left.
    - rewrite Erp, Etp, prefix_elements, <- Erp, <- Etp by done. naive_solver. }
  naive_solver.
Qed.

End Contained.

(** A path that [Join] returns lies inside its base, whatever the elements
    say: the elements of its absolute form extend those of the base, and none
    of them is empty, [.] or [..]. *)
Theorem safe_join_contained cwd base elems p :
  (forall d, cwd = Some d -> IsAbs d = true) -> SafeJoin cwd base elems = Some p ->
  exists bp pp rest, Abs cwd (Clean base) = Some bp /\ Abs cwd p = Some pp
    /\ elements pp = elements bp ++ rest /\ Forall proper (elements pp).
Proof.
  intros Hcwd. unfold SafeJoin. case_match eqn:E; [|done]. intros [= <-].
  apply (Within_spec cwd Hcwd) in E as (bp & pp & Hb & Hp & Hc). rewrite Clean_idem in Hb, Hp.
  exists bp, pp. destruct (Abs_clean _ _ _ Hcwd Hp) as [_ Hpp].
  destruct Hc as [->|(_ & rest & _ & Hr)]; [exists []; by rewrite app_nil_r|by exists rest].
Qed.

Lemma safe_join_contained_witness :
  exists bp pp rest, Abs (Some (lit "/srv")) (Clean (lit "data")) = Some bp
    /\ Abs (Some (lit "/srv")) (lit "data/x") = Some pp
    /\ elements pp = elements bp ++ rest /\ Forall proper (elements pp).
Proof.
  apply (safe_join_contained (Some (lit "/srv")) (lit "data") [lit "jobs/a"; lit "../../x"]).
  - by intros d [= <-].
  - vm_compute. reflexivity.
Defined.

Lemma rel_prefix r rest : rel_elems r (r ++ rest) = rest.
Proof. induction r as [|e r IH]; simpl; [by destruct rest|]. by rewrite bool_decide_eq_true_2. Qed.

Lemma Join_proper_no_climb es :
  Forall proper es -> GoStrings.Join es [slash] <> dotdot /\ HasPrefix (GoStrings.Join es [slash]) (dotdot ++ [slash]) = false.
Proof.
  intros H. destruct es as [|e es]; [done|]. inversion H as [|? ? (H1 & H2 & H3 & H4) Hes]; subst.
  assert (Split (GoStrings.Join (e :: es) [slash]) slash = e :: es) as Hs
    by (apply Split_Join; [done|by apply proper_no_slash]).
  split.
  - intros E. rewrite E in Hs. injection Hs as Hs _. by apply H3.
  - apply not_true_iff_false. intros [u E]%HasPrefix_spec. rewrite E, <- app_assoc in Hs. cbn [app] in Hs.
    rewrite Split_segment in Hs by (unfold slash; set_solver). injection Hs as Hs _. by apply H3.
Qed.

(** The second guard of [resolveUnderRoot] decides alone: the path is accepted
    exactly when [Within] accepts it, and then its absolute form is returned. *)
Theorem resolve_is_within cwd root target :
  (forall d, cwd = Some d -> IsAbs d = true) ->
  resolveUnderRoot cwd root target = if Within cwd root target then Abs cwd (Clean target) else None.
Proof.
  intros Hcwd. destruct (Within cwd root target) eqn:E.
  - apply (Within_spec cwd Hcwd) in E as (rp & tp & Hr & Ht & Hc). unfold resolveUnderRoot. rewrite Hr, Ht.
    destruct (Abs_clean _ _ _ Hcwd Hr) as [Erp Hrp], (Abs_clean _ _ _ Hcwd Ht) as [Etp Htp].
    assert (exists rest, elements tp = elements rp ++ rest) as [rest Hrest]
      by (destruct Hc as [->|(_ & rest & _ & ?)]; [exists []; by rewrite app_nil_r|by exists rest]).
    unfold Rel. rewrite Hrest, rel_prefix. rewrite Hrest in Htp. apply Forall_app in Htp as [_ Hp].
    match goal with |- context [bool_decide (?r = dotdot)] =>
      assert (r <> dotdot /\ HasPrefix r (dotdot ++ [slash]) = false) as [H1 H2]
        by (destruct rest; [done|by apply Join_proper_no_climb]) end.
    rewrite (bool_decide_eq_false_2 _ H1), H2. cbn [orb].
    destruct Hc as [->|(Hn & r' & Hr' & Hrest')]; [by rewrite bool_decide_eq_true_2|].
    assert (HasPrefix tp (rp ++ [slash]) = true) as ->.
    { rewrite Etp, Erp. apply prefix_elements; try done; [rewrite Hrest; apply Forall_app; done|eauto]. }
    by rewrite andb_false_r.
  - unfold resolveUnderRoot, Within in *.
    destruct (Abs cwd (Clean root)), (Abs cwd (Clean target)); try done.
    apply orb_false_iff in E as [-> ->]. by destruct (_ || _).
Qed.

Lemma resolve_is_within_witness :
  resolveUnderRoot (Some (lit "/srv")) (lit "data") (lit "data/a/../b") = Some (lit "/srv/data/b").
Proof. rewrite (resolve_is_within (Some (lit "/srv"))); [vm_compute; reflexivity|by intros d [= <-]]. Defined.

(** ** Directories of jobs *)

Lemma elements_join b es :
  Forall proper b -> Forall proper es -> es <> [] ->
  elements (abs_path b ++ slash :: GoStrings.Join es [slash]) = b ++ es.
Proof.
  intros Hb Hes Hn. unfold elements, abs_path. change (IsAbs _) with true.
  assert (Split ((slash :: GoStrings.Join b [slash]) ++ slash :: GoStrings.Join es [slash]) slash
          = [] :: (match b with [] => [[]] | _ => b end) ++ es) as ->.
  { change ((slash :: GoStrings.Join b [slash]) ++ ?x) with ([] ++ slash :: (GoStrings.Join b [slash] ++ x)).
    rewrite Split_segment by set_solver. f_equal.
    pose proof (proper_no_slash es Hes) as Hes'. clear Hes.
    induction b as [|e b IH]; [etransitivity; [apply (Split_segment []); set_solver|]; by rewrite Split_Join|].
    inversion Hb as [|? ? (_ & _ & _ & He) Hb']; subst. destruct b as [|e2 b].
    - cbn [GoStrings.Join app]. by rewrite Split_segment, Split_Join.
    - rewrite Join_cons by done. rewrite <- !app_assoc. cbn [app]. rewrite Split_segment by done.
      f_equal. by apply IH. }
  change (clean_elems true ([] :: ?l) []) with (clean_elems true l []).
  destruct b as [|e b]; cbn [app].
  - change (clean_elems true ([] :: es) []) with (clean_elems true es []).
    by rewrite clean_elems_id, app_nil_r, rev_involutive.
  - rewrite (clean_elems_id (e :: b ++ es)); [by rewrite app_nil_r, rev_involutive|].
    by apply (Forall_app_2 _ (e :: b) es).
Qed.

(** Proper names can always be joined to an absolute directory other than the
    root, and are then its next elements. *)
Lemma SafeJoin_proper cwd base es :
  IsAbs base = true -> Forall proper es -> es <> [] ->
  SafeJoin cwd base es = if decide (elements base = []) then None else Some (abs_path (elements base ++ es)).
Proof.
  intros Hb Hes Hn. unfold SafeJoin, JoinPath.
  pose proof (elements_proper base Hb) as Hpb. rewrite (Clean_abs base Hb).
  rewrite filter_cons_True by done.
  assert (filter (fun e => e <> []) es = es) as ->.
  { clear Hn. induction Hes as [|e es He _ IH]; [done|]. rewrite filter_cons_True by apply He. by rewrite IH. }
  rewrite Join_cons by done. change ([slash] ++ ?x) with (slash :: x).
  assert (Forall proper (elements base ++ es)) as Hall by by apply Forall_app_2.
  rewrite Clean_idem, (Clean_abs (abs_path (elements base) ++ _)) by done.
  rewrite elements_join by done. unfold Within.
  rewrite !Clean_abs by done. rewrite !elements_abs_path by done. unfold Abs. change (IsAbs (abs_path ?l)) with true.
  cbn iota. rewrite !Clean_abs by done. rewrite !elements_abs_path by done.
  rewrite (bool_decide_eq_false_2 (abs_path (elements base ++ es) = _)).
  2:{ intros E%abs_path_inj; [|done..]. rewrite <- (app_nil_r (elements base)) in E at 2.
      by apply app_inv_head in E. }
  cbn [orb]. destruct (decide (elements base = [])) as [E|E].
  - assert (HasPrefix (abs_path (elements base ++ es)) (abs_path (elements base) ++ [slash]) = false) as ->; [|done].
    rewrite E. destruct es as [|e es]; [done|]. inversion Hes as [|? ? (H1 & _ & _ & H4) _]; subst.
    destruct e as [|x e]; [done|]. unfold abs_path.
    assert (x <> slash) as Hx by (intros ->; apply H4; left).
    destruct es; cbn; by rewrite (proj2 (beqb_neq x slash)).
  - assert (HasPrefix (abs_path (elements base ++ es)) (abs_path (elements base) ++ [slash]) = true) as ->; [|done].
    apply prefix_elements; try done. eauto.
Qed.

Lemma SafeID_proper id : SafeID id = true -> TrimSpace id = id -> proper id.
Proof.
  unfold SafeID. intros H Ht. rewrite Ht in H. case_match; [done|]. bool_to_prop. rename select (forallb _ _ = true) into Hrs.
  assert (runes id = map b2z id) as E.
  { apply runes_ascii_bytes, Forall_forall. intros r Hr%list_elem_of_In.
    eapply forallb_forall in Hrs; [|done]. unfold id_rune in Hrs. lia. }
  split_and!; try done. intros Hs. rewrite E in Hrs. apply (list_elem_of_fmap_2 b2z) in Hs.
  apply list_elem_of_In in Hs. eapply forallb_forall in Hrs; [|done]. by vm_compute in Hrs.
Qed.

(** Every safe job id gets a directory of its own, three levels below the data
    directory, and different ids get different ones. *)
Theorem job_directories cwd root id :
  IsAbs root = true -> elements root <> [] -> SafeID id = true -> TrimSpace id = id ->
  JobArtifactsDir cwd root id = Some (abs_path (elements root ++ [lit "artifacts"; lit "jobs"; id]))
  /\ forall id', SafeID id' = true -> TrimSpace id' = id' ->
       JobArtifactsDir cwd root id' = JobArtifactsDir cwd root id -> id' = id.
Proof.
  intros Hr Hn Hid Ht.
  assert (forall i, SafeID i = true -> TrimSpace i = i ->
            JobArtifactsDir cwd root i = Some (abs_path (elements root ++ [lit "artifacts"; lit "jobs"; i]))
            /\ Forall proper (elements root ++ [lit "artifacts"; lit "jobs"; i])) as H.
  { intros i Hi Hti. pose proof (SafeID_proper i Hi Hti) as Hp.
    pose proof (elements_proper root Hr) as Hpr.
    assert (Forall proper [lit "artifacts"; lit "jobs"]) as Hd
      by (repeat constructor; try done; unfold slash; vm_compute; by set_solver).
    unfold JobArtifactsDir. rewrite Hi, SafeJoin_proper by done. rewrite decide_False by done.
    rewrite SafeJoin_proper by (done || by apply Forall_singleton).
    rewrite elements_abs_path by by apply Forall_app_2. rewrite decide_False by (by destruct (elements root)).
    rewrite <- app_assoc. split; [done|]. apply Forall_app_2; [done|].
    inversion Hd as [|? ? Ha Hd']; inversion Hd' as [|? ? Hj _]; subst.
    by repeat (apply Forall_cons_2; [done|]). }
  destruct (H id Hid Ht) as [E Hp]. split; [done|]. intros id' Hid' Ht' E'.
  destruct (H id' Hid' Ht') as [E2 Hp2]. rewrite E, E2 in E'. apply Some_inj, abs_path_inj in E'; [|done..].
  apply app_inv_head in E'. by simplify_eq.
Qed.

Lemma job_directories_witness :
  JobArtifactsDir None (lit "/var/lib/gossipper/") (lit "job-1.a")
  = Some (lit "/var/lib/gossipper/artifacts/jobs/job-1.a").
Proof.
  destruct (job_directories None (lit "/var/lib/gossipper/") (lit "job-1.a")) as [H _];
    [done|done|vm_compute; reflexivity|vm_compute; reflexivity|]. rewrite H. vm_compute. reflexivity.
Defined.

(** With the root directory as base nothing can be joined: the prefix test asks
    for two slashes. *)
Theorem root_base_rejected cwd es :
  Forall proper es -> es <> [] -> SafeJoin cwd (lit "/") es = None.
Proof. intros. by rewrite SafeJoin_proper. Qed.

(** [SafeID] looks at the trimmed id, the directory is named by the id as
    given. *)
Example untrimmed_id_accepted :
  SafeID (lit " job ") = true /\ JobArtifactsDir None (lit "/d") (lit " job ") = Some (lit "/d/artifacts/jobs/ job ").
Proof. vm_compute. done. Qed.

(** ** Output directories of tool jobs ([pcap2scenario/paths.go]) *)

(** An argument of a tool job: absent or null, a text, or anything else with
    the text [fmt.Sprint] gives it. *)
Inductive tool_arg := ArgNone | ArgString (s : str) | ArgOther (sprint : str).

Definition argString (a : tool_arg) : str :=
  match a with ArgNone => [] | ArgString s => TrimSpace s | ArgOther s => TrimSpace s end.

Definition pathWithinRoot (root abs : str) : bool := bool_decide (abs = root) || HasPrefix abs (root ++ [slash]).

(** [None] is an error. *)
Definition resolveDataPath (cwd : option str) (dataDir rel : str) : option str :=
  match TrimSpace rel with
  | [] => None
  | rel =>
    match Abs cwd dataDir with
    | None => None
    | Some root =>
      let abs := if IsAbs rel then Clean rel else Clean (JoinPath [root; rel]) in
      if pathWithinRoot root abs then Some abs else None
    end
  end.

Definition OutDirFromArgs (cwd : option str) (dataDir artifactsDir : str) (out_dir out : tool_arg) : option str :=
  match argString out_dir with
  | [] =>
    match argString out with
    | [] => match artifactsDir with [] => None | _ => Some (JoinPath [artifactsDir; lit "scenarios"]) end
    | rel => resolveDataPath cwd dataDir rel
    end
  | outDir => resolveDataPath cwd dataDir outDir
  end.

Lemma Abs_abs cwd p a : (forall d, cwd = Some d -> IsAbs d = true) -> Abs cwd p = Some a -> Abs cwd (Clean a) = Some a.
Proof.
  intros Hcwd Ha. destruct (Abs_clean cwd p a Hcwd Ha) as [E Hl]. rewrite E. set (l := elements a) in *. clearbody l.
  unfold Abs. rewrite (Clean_abs (abs_path l)) by done. rewrite !elements_abs_path by done. change (IsAbs (abs_path l)) with true.
  cbn iota. by rewrite Clean_abs, elements_abs_path.
Qed.

(** The output directory a tool job asks for lies in the data directory, the
    elements of its path extend those of the data directory's. *)
Theorem tool_output_contained cwd dataDir artifactsDir out_dir out p :
  (forall d, cwd = Some d -> IsAbs d = true) ->
  argString out_dir <> [] \/ argString out <> [] ->
  OutDirFromArgs cwd dataDir artifactsDir out_dir out = Some p ->
  exists root rest, Abs cwd dataDir = Some root /\ elements p = elements root ++ rest /\ Forall proper (elements p).
Proof.
  intros Hcwd Harg Ho.
  assert (exists rel, resolveDataPath cwd dataDir rel = Some p) as [rel Hr].
  { unfold OutDirFromArgs in Ho. destruct (argString out_dir); [destruct (argString out); [by destruct Harg|]|]; eauto. }
  unfold resolveDataPath in Hr. destruct (TrimSpace rel) as [|b r] eqn:Er; [done|]. destruct (Abs cwd dataDir) as [root|] eqn:Ea; [|done].
  exists root. pose proof (Abs_abs cwd dataDir root Hcwd Ea) as Hroot.
  set (abs := if IsAbs (b :: r) then _ else _) in Hr.
  assert (Abs cwd (Clean abs) = Some abs) as Habs.
  { subst abs. destruct (IsAbs (b :: r)) eqn:Ei.
    - apply (Abs_abs cwd (b :: r)); [done|]. unfold Abs. by rewrite Ei.
    - assert (IsAbs root = true) as Hir.
      { destruct (Abs_clean cwd _ _ Hcwd Hroot) as [-> _]. done. }
      assert (exists q, JoinPath [root; b :: r] = Clean q /\ IsAbs q = true) as (q & Hq & Hqa).
      { unfold JoinPath. rewrite filter_cons_True by (by intros ->). rewrite filter_cons_True by done. cbn [filter list_filter].
        eexists. split; [done|]. destruct root; [done|]. exact Hir. }
      rewrite Hq, !Clean_idem. pose proof (Clean_idem q) as Hi. rewrite <- Hi at 1. apply (Abs_abs cwd q); [done|]. unfold Abs. by rewrite Hqa. }
  destruct (pathWithinRoot root abs) eqn:Ew; [|done]. injection Hr as <-.
  assert (Within cwd root abs = true) as Hw by (unfold Within; by rewrite Hroot, Habs).
  apply (Within_spec cwd Hcwd) in Hw as (rp & tp & H1 & H2 & H3). rewrite Hroot in H1. rewrite Habs in H2. injection H1 as <-. injection H2 as <-.
  destruct (Abs_clean cwd _ _ Hcwd Habs) as [_ Hp].
  destruct H3 as [->|(_ & rest & _ & E)]; [exists []; by rewrite app_nil_r|by exists rest].
Qed.

Lemma tool_output_contained_witness : exists root rest,
  Abs (Some (lit "/srv")) (lit "data") = Some root /\
  elements (lit "/srv/data/out/x") = elements root ++ rest /\ Forall proper (elements (lit "/srv/data/out/x")).
Proof.
  apply (tool_output_contained (Some (lit "/srv")) (lit "data") [] ArgNone (ArgString (lit " out/../out/x ")));
    [by intros d [= <-]|by right|vm_compute; reflexivity].
Defined.
