(* ===== verification/Supervisor.v ===== *)
(** * Jobs of the control server ([internal/supervisor])

    [JobsStore] over a table of rows, [Registry] over any [Runner], the
    [StubRunner], and [ExecRunner] as a transition system: starting a job,
    waiting for its worker and stopping it run in different goroutines and
    meet in the row of the job.  A stored time is the instant; the text
    SQLite orders rows by is [rfc3339nano]. *)

From stdpp Require Import base list gmap strings sorting.
From Stdlib Require Import ZArith Lia Strings.Byte.
From S2P Require Import Prelude GoStrings GoFloat GoTime SafePath.

(** ** Rows ([jobs.go]) *)

Inductive Status :=
  | StatusPending | StatusRunning | StatusSucceeded | StatusFailed | StatusStopped
  | StatusOther (s : str).

#[global] Instance Status_eq_dec : EqDecision Status.
Proof. solve_decision. Defined.

Record Job := mkJob {
  j_ID : str; j_ProfileID : str; j_ProfileKind : str; j_ScenarioID : str; j_Status : Status;
  j_ArgsJSON : str; j_ArtifactsDir : str; j_CreatedAt : option Z; j_StartedAt : option Z; j_FinishedAt : option Z;
  j_ExitCode : option Z; j_Error : str; j_CreatedBy : option Z; j_PID : option Z
}.

Record Artifact := mkArtifact {
  ar_ID : Z; ar_JobID : str; ar_Kind : str; ar_Path : str; ar_SizeBytes : Z; ar_CreatedAt : Z
}.

Record JobsStore := mkJobsStore { js_jobs : gmap str Job; js_artifacts : list Artifact; js_next : Z }.

Inductive store_error := ErrJobIDRequired | ErrInsert | ErrExec | ErrNotFound | ErrArtifactArgs.

Definition Get (id : str) (s : JobsStore) : result store_error Job :=
  match js_jobs s !! id with Some j => Ok j | None => Err ErrNotFound end.

Definition setJobs (m : gmap str Job) (s : JobsStore) : JobsStore := mkJobsStore m (js_artifacts s) (js_next s).

(** The row an INSERT leaves: only the columns it names, blank names as NULL. *)
Definition inserted (id : str) (now : Z) (j : Job) : Job :=
  mkJob id (TrimSpace (j_ProfileID j)) (j_ProfileKind j) (TrimSpace (j_ScenarioID j))
    (if bool_decide (j_Status j = StatusOther []) then StatusPending else j_Status j)
    (match j_ArgsJSON j with [] => lit "{}" | a => a end) (j_ArtifactsDir j)
    (Some (default now (j_CreatedAt j))) None None None [] (j_CreatedBy j) None.

(** [Create]; the id is the primary key. *)
Definition Create (now : Z) (j : Job) (s : JobsStore) : result store_error Job * JobsStore :=
  let id := TrimSpace (j_ID j) in
  if bool_decide (id = []) then (Err ErrJobIDRequired, s)
  else match js_jobs s !! id with
       | Some _ => (Err ErrInsert, s)
       | None => let s := setJobs (<[id := inserted id now j]> (js_jobs s)) s in (Get id s, s)
       end.

Definition withStatus (status : Status) (j : Job) : Job :=
  mkJob (j_ID j) (j_ProfileID j) (j_ProfileKind j) (j_ScenarioID j) status (j_ArgsJSON j) (j_ArtifactsDir j)
    (j_CreatedAt j) (j_StartedAt j) (j_FinishedAt j) (j_ExitCode j) (j_Error j) (j_CreatedBy j) (j_PID j).

(** The row after [UpdateStatus] *)
Definition updated (status : Status) (now : Z) (exitCode : option Z) (errMsg : str) (j : Job) : Job :=
  match status with
  | StatusRunning =>
    mkJob (j_ID j) (j_ProfileID j) (j_ProfileKind j) (j_ScenarioID j) status (j_ArgsJSON j) (j_ArtifactsDir j)
      (j_CreatedAt j) (Some (default now (j_StartedAt j))) (j_FinishedAt j) (j_ExitCode j) (j_Error j)
      (j_CreatedBy j) (j_PID j)
  | StatusSucceeded | StatusFailed | StatusStopped =>
    mkJob (j_ID j) (j_ProfileID j) (j_ProfileKind j) (j_ScenarioID j) status (j_ArgsJSON j) (j_ArtifactsDir j)
      (j_CreatedAt j) (j_StartedAt j) (Some now) exitCode (TrimSpace errMsg) (j_CreatedBy j) (j_PID j)
  | _ => withStatus status j
  end.

Definition UpdateStatus (id : str) (status : Status) (now : Z) (exitCode : option Z) (errMsg : str) (s : JobsStore) : JobsStore :=
  setJobs (alter (updated status now exitCode errMsg) id (js_jobs s)) s.

Definition withPID (pid : Z) (j : Job) : Job :=
  mkJob (j_ID j) (j_ProfileID j) (j_ProfileKind j) (j_ScenarioID j) (j_Status j) (j_ArgsJSON j) (j_ArtifactsDir j)
    (j_CreatedAt j) (j_StartedAt j) (j_FinishedAt j) (j_ExitCode j) (j_Error j) (j_CreatedBy j) (Some pid).

Definition SetPID (id : str) (pid : Z) (s : JobsStore) : JobsStore := setJobs (alter (withPID pid) id (js_jobs s)) s.

(** [Delete]; the artifacts of the job go with it. *)
Definition Delete (id : str) (s : JobsStore) : result store_error unit * JobsStore :=
  match js_jobs s !! id with
  | Some _ =>
    (Ok tt, mkJobsStore (delete id (js_jobs s)) (filter (fun a => ar_JobID a <> id) (js_artifacts s)) (js_next s))
  | None => (Err ErrNotFound, s)
  end.

(** [AddArtifact]; the job must exist (foreign key). *)
Definition AddArtifact (jobID kind path : str) (size now : Z) (s : JobsStore) : result store_error unit * JobsStore :=
  if bool_decide (TrimSpace jobID = []) || bool_decide (TrimSpace kind = []) || bool_decide (TrimSpace path = [])
  then (Err ErrArtifactArgs, s)
  else match js_jobs s !! jobID with
       | None => (Err ErrExec, s)
       | Some _ => (Ok tt, mkJobsStore (js_jobs s) (js_artifacts s ++ [mkArtifact (js_next s) jobID kind path size now]) (js_next s + 1))
       end.

(** [ORDER BY created_at DESC] compares the texts. *)
Definition created_text (j : Job) : str := match j_CreatedAt j with Some t => rfc3339nano t | None => [] end.
Definition newer (a b : Job) : Prop := str_leb (created_text b) (created_text a) = true.
#[global] Instance newer_dec : RelDecision newer.
Proof. intros a b. unfold newer. apply _. Defined.

(** [List]; the order of rows with the same text is left to SQLite, here it is
    that of [rows], any listing of the table. *)
Definition ListJobs (limit : Z) (rows : list Job) : list Job :=
  take (Z.to_nat (if limit <=? 0 then 100 else limit)) (merge_sort newer rows).

Definition artifact_le (a b : Artifact) : Prop :=
  (let ta := rfc3339nano (ar_CreatedAt a) in let tb := rfc3339nano (ar_CreatedAt b) in
   (str_leb ta tb && negb (str_leb tb ta)) || (str_leb ta tb && (ar_ID a <=? ar_ID b))) = true.
#[global] Instance artifact_le_dec : RelDecision artifact_le.
Proof. intros a b. unfold artifact_le. apply _. Defined.

Definition ListArtifacts (jobID : str) (s : JobsStore) : list Artifact :=
  merge_sort artifact_le (filter (fun a => ar_JobID a = jobID) (js_artifacts s)).

(** ** Runners ([registry.go]) *)

(** A decoded JSON value ([any]) *)
Inductive any :=
  | AnyNull | AnyBool (b : bool) | AnyNumber (x : float64) | AnyString (s : str)
  | AnyArray (l : list any) | AnyObject (l : list (str * any)).

Record Spec := mkSpec {
  sp_JobID : str; sp_DataDir : str; sp_ProfileID : str; sp_ProfileKind : str; sp_ScenarioID : str; sp_ToolArgs : gmap str any;
  sp_ArtifactsDir : str; sp_StatsIntervalMs : Z; sp_RecordWAV : bool; sp_RecordWAVDuplex : bool; sp_Engine : gmap str any
}.

Definition withJobID (id : str) (sp : Spec) : Spec :=
  mkSpec id (sp_DataDir sp) (sp_ProfileID sp) (sp_ProfileKind sp) (sp_ScenarioID sp) (sp_ToolArgs sp) (sp_ArtifactsDir sp)
    (sp_StatsIntervalMs sp) (sp_RecordWAV sp) (sp_RecordWAVDuplex sp) (sp_Engine sp).

Inductive runner_error := RunnerError (msg : str) | RunnerNoJobID | RunnerAlreadyStarted (jobID : str).

(** What the registry uses of a runner.  [Start] returns a pid or an error;
    [Stop] whether the job was known. *)
Class Runner (R : Type) := {
  runner_start : Spec -> R -> result runner_error Z * R;
  runner_stop : str -> R -> bool * R
}.

Record StubRunner := mkStubRunner {
  sr_started : gmap str Spec; sr_stopped : gset str; sr_nextPID : Z; sr_alwaysError : option str
}.

Definition NewStubRunner : StubRunner := mkStubRunner ∅ ∅ 100000 None.

Definition stubStart (spec : Spec) (r : StubRunner) : result runner_error Z * StubRunner :=
  match sr_alwaysError r with
  | Some e => (Err (RunnerError e), r)
  | None =>
    if bool_decide (sp_JobID spec = []) then (Err RunnerNoJobID, r)
    else match sr_started r !! sp_JobID spec with
         | Some _ => (Err (RunnerAlreadyStarted (sp_JobID spec)), r)
         | None => (Ok (sr_nextPID r + 1),
                    mkStubRunner (<[sp_JobID spec := spec]> (sr_started r)) (sr_stopped r) (sr_nextPID r + 1) (sr_alwaysError r))
         end
  end.

Definition stubStop (jobID : str) (r : StubRunner) : bool * StubRunner :=
  match sr_started r !! jobID with
  | None => (false, r)
  | Some _ => (true, mkStubRunner (sr_started r) ({[jobID]} ∪ sr_stopped r) (sr_nextPID r) (sr_alwaysError r))
  end.

#[export] Instance stub_runner : Runner StubRunner := {| runner_start := stubStart; runner_stop := stubStop |}.

Section Registry.

Context {R : Type} `{Runner R}.
(* err.Error() *)
Context (errorText : runner_error -> str).

Record Registry := mkRegistry { rg_store : JobsStore; rg_runner : R }.

Definition StartJob (now : Z) (j : Job) (spec : Spec) (g : Registry) : result store_error Job * Registry :=
  let spec := match sp_JobID spec with [] => withJobID (j_ID j) spec | _ => spec end in
  match Create now j (rg_store g) with
  | (Err e, store) => (Err e, mkRegistry store (rg_runner g))
  | (Ok created, store) =>
    match runner_start spec (rg_runner g) with
    | (Err msg, r) =>
      let store := UpdateStatus (j_ID created) StatusFailed now None (errorText msg) store in
      (Get (j_ID created) store, mkRegistry store r)
    | (Ok pid, r) =>
      let store := UpdateStatus (j_ID created) StatusRunning now None [] (SetPID (j_ID created) pid store) in
      (Get (j_ID created) store, mkRegistry store r)
    end
  end.

Definition StopJob (now : Z) (id : str) (g : Registry) : result store_error Job * Registry :=
  let '(_, r) := runner_stop id (rg_runner g) in
  match Get id (rg_store g) with
  | Err e => (Err e, mkRegistry (rg_store g) r)
  | Ok current =>
    if bool_decide (j_Status current = StatusRunning) || bool_decide (j_Status current = StatusPending)
    then let store := UpdateStatus id StatusStopped now None [] (rg_store g) in (Get id store, mkRegistry store r)
    else (Ok current, mkRegistry (rg_store g) r)
  end.

End Registry.
Arguments Registry R : clear implicits.

(** ** Files a job leaves ([rememberArtifact], [rememberJobArtifacts],
    [RememberToolArtifacts])

    [fs] is the size of a regular file at an absolute path; [walk] and
    [recordings] are the files that [filepath.WalkDir] and [ReadDir] visit. *)

Section Artifacts.

Context (cwd : option str) (fs : str -> option Z) (now : Z).

(** [safepath.Stat], for a non-empty regular file *)
Definition statFile (root path : str) : option Z :=
  match resolveUnderRoot cwd root path with
  | Some abs => match fs abs with Some n => if n =? 0 then None else Some n | None => None end
  | None => None
  end.

Definition rememberArtifact (dir jobID kind : str) (nameParts : list str) (s : JobsStore) : JobsStore :=
  match nameParts with
  | [] => s
  | _ =>
    match SafeJoin cwd dir nameParts with
    | None => s
    | Some path => match statFile dir path with Some n => snd (AddArtifact jobID kind path n now s) | None => s end
    end
  end.

Definition rememberRecordings (dir jobID : str) (recordings : list (str * Z)) (s : JobsStore) : JobsStore :=
  match SafeJoin cwd dir [lit "recordings"] with
  | None => s
  | Some recDir =>
    match resolveUnderRoot cwd dir recDir with
    | None => s
    | Some _ =>
      foldl (fun s '(name, size) =>
        match SafeJoin cwd recDir [name] with
        | Some path => if size =? 0 then s else snd (AddArtifact jobID (lit "recording") path size now s)
        | None => s
        end) s recordings
    end
  end.

Definition rememberJobArtifacts (dir jobID : str) (recordings : list (str * Z)) (s : JobsStore) : JobsStore :=
  let s := rememberArtifact dir jobID (lit "stats") [lit "stats.jsonl"] s in
  let s := rememberArtifact dir jobID (lit "log") [lit "worker.log"] s in
  let s := rememberArtifact dir jobID (lit "summary") [lit "summary.json"] s in
  let s := rememberArtifact dir jobID (lit "call_records") [lit "call_records.jsonl"] s in
  rememberRecordings dir jobID recordings s.

(** The last element of a path, and what follows its last dot. *)
Definition Base (path : str) : str := default [] (last (Split path slash)).
Definition Ext (base : str) : str :=
  match LastIndex base [x2e] with Some i => drop i base | None => [] end.

Definition rememberWalked (dir jobID : str) (s : JobsStore) (path : str) : JobsStore :=
  if Within cwd dir path then
    match statFile dir path with
    | None => s
    | Some n =>
      let add kind := snd (AddArtifact jobID kind path n now s) in
      let ext := Ext (Base path) in
      if bool_decide (ext = lit ".html") then add (lit "report_html")
      else if bool_decide (ext = lit ".pdf") then add (lit "report_pdf")
      else if bool_decide (ext = lit ".xml") then add (lit "scenario_xml")
      else s
    end
  else s.

Definition RememberToolArtifacts (dir jobID toolID : str) (walk : list str) (s : JobsStore) : JobsStore :=
  if bool_decide (dir = []) then s
  else
    let s := rememberArtifact dir jobID (lit "log") [lit "worker.log"] s in
    let s :=
      if bool_decide (toolID = lit "report-html") then rememberArtifact dir jobID (lit "report_html") [lit "report.html"] s
      else if bool_decide (toolID = lit "summary-to-pdf") then rememberArtifact dir jobID (lit "report_pdf") [lit "report.pdf"] s
      else if bool_decide (toolID = lit "pcap2scenario")
      then rememberArtifact dir jobID (lit "scenario_uas") [lit "scenarios"; lit "scenario_uas.xml"]
             (rememberArtifact dir jobID (lit "scenario_uac") [lit "scenarios"; lit "scenario_uac.xml"] s)
      else s in
    foldl (rememberWalked dir jobID) s walk.

End Artifacts.

(** [IsToolJob] and [ToolID] *)
Definition IsToolJob (sp : Spec) : bool := EqualFold (TrimSpace (sp_ProfileKind sp)) (lit "tool").
Definition ToolID (sp : Spec) : str := if IsToolJob sp then TrimSpace (sp_ProfileID sp) else [].

(** ** Workers ([exec_runner.go])

    One job, seen from its row: the goroutine of [StartJob], the goroutine
    [waitWorker], any number of [StopJob] calls.  A step is what one of them
    does between two points where another can come in; every statement on the
    row is one step. *)

(** How the worker ended: exit code, and the text of an error that is not an
    exit status. *)
Record worker_exit := mkExit { we_code : Z; we_fail : str }.

Definition exitStatus (e : worker_exit) : Status :=
  if negb (we_code e =? 0) || negb (bool_decide (we_fail e = [])) then StatusFailed else StatusSucceeded.

Inductive start_pc := StCreate | StExec | StSetPID (pid : Z) | StSetRunning | StReturned | StFailed.

#[global] Instance start_pc_eq_dec : EqDecision start_pc.
Proof. solve_decision. Defined.

Inductive wait_pc :=
  | WNone
  | WAlive                                   (* blocked in cmd.Wait *)
  | WExited (e : worker_exit)                (* Wait returned *)
  | WDeleted (e : worker_exit)               (* no longer in the map *)
  | WDecided (e : worker_exit) (st : Status) (* stopRequested was read *)
  | WUpdated (e : worker_exit) (st : Status) (* the row was written *)
  | WDone (e : worker_exit) (st : Status).   (* doneCh is closed *)

Inductive stop_pc := SpWait | SpGet | SpWrite | SpEnd.

#[global] Instance stop_pc_eq_dec : EqDecision stop_pc.
Proof. solve_decision. Defined.

Record worker_state := mkWorker {
  wk_row : option Job;
  wk_start : start_pc;
  wk_wait : wait_pc;
  wk_stopRequested : bool;
  wk_stops : list stop_pc;
  wk_late : bool                             (* the worker ended after StartJob had returned *)
}.

Definition initialWorker : worker_state := mkWorker None StCreate WNone false [] false.

(** In the map [running]. *)
Definition registered (s : worker_state) : bool :=
  match wk_wait s with WAlive | WExited _ => true | _ => false end.

Definition is_active (st : Status) : bool := bool_decide (st = StatusRunning) || bool_decide (st = StatusPending).

Definition setRow (f : Job -> Job) (s : worker_state) : worker_state :=
  mkWorker (f <$> wk_row s) (wk_start s) (wk_wait s) (wk_stopRequested s) (wk_stops s) (wk_late s).
Definition setStart (pc : start_pc) (s : worker_state) : worker_state :=
  mkWorker (wk_row s) pc (wk_wait s) (wk_stopRequested s) (wk_stops s) (wk_late s).
Definition setWait (pc : wait_pc) (s : worker_state) : worker_state :=
  mkWorker (wk_row s) (wk_start s) pc (wk_stopRequested s) (wk_stops s) (wk_late s).
Definition setStops (l : list stop_pc) (s : worker_state) : worker_state :=
  mkWorker (wk_row s) (wk_start s) (wk_wait s) (wk_stopRequested s) l (wk_late s).
Definition requestStop (s : worker_state) : worker_state :=
  mkWorker (wk_row s) (wk_start s) (wk_wait s) true (wk_stops s) (wk_late s).
Definition endWorker (e : worker_exit) (s : worker_state) : worker_state :=
  mkWorker (wk_row s) (wk_start s) (WExited e) (wk_stopRequested s) (wk_stops s)
    (bool_decide (wk_start s = StReturned)).


Inductive worker_step (j : Job) : worker_state -> worker_state -> Prop :=
  (* StartJob *)
  | step_create now s :
      wk_start s = StCreate ->
      worker_step j s (setStart StExec (mkWorker (Some (inserted (j_ID j) now j)) StCreate (wk_wait s)
                                          (wk_stopRequested s) (wk_stops s) (wk_late s)))
  | step_exec pid s :
      wk_start s = StExec -> worker_step j s (setWait WAlive (setStart (StSetPID pid) s))
  | step_exec_fails now msg s :
      wk_start s = StExec -> worker_step j s (setStart StFailed (setRow (updated StatusFailed now None msg) s))
  | step_set_pid pid s :
      wk_start s = StSetPID pid -> worker_step j s (setStart StSetRunning (setRow (withPID pid) s))
  | step_set_running now s :
      wk_start s = StSetRunning -> worker_step j s (setStart StReturned (setRow (updated StatusRunning now None []) s))
  (* waitWorker *)
  | step_exit e s :
      wk_wait s = WAlive -> worker_step j s (endWorker e s)
  | step_delete e s :
      wk_wait s = WExited e -> worker_step j s (setWait (WDeleted e) s)
  | step_decide e s :
      wk_wait s = WDeleted e ->
      worker_step j s (setWait (WDecided e (if wk_stopRequested s then StatusStopped else exitStatus e)) s)
  | step_update now e st s :
      wk_wait s = WDecided e st ->
      worker_step j s (setWait (WUpdated e st) (setRow (updated st now (Some (we_code e)) (we_fail e)) s))
  | step_close e st s :
      wk_wait s = WUpdated e st -> worker_step j s (setWait (WDone e st) s)
  (* StopJob *)
  | step_stop_found s :
      registered s = true -> worker_step j s (setStops (wk_stops s ++ [SpWait]) (requestStop s))
  | step_stop_unknown s :
      registered s = false -> worker_step j s (setStops (wk_stops s ++ [SpGet]) s)
  | step_stop_wait i e st s :
      wk_stops s !! i = Some SpWait -> wk_wait s = WDone e st -> worker_step j s (setStops (<[i := SpGet]> (wk_stops s)) s)
  | step_stop_get i s :
      wk_stops s !! i = Some SpGet ->
      worker_step j s (setStops (<[i := match wk_row s with
                                        | Some r => if is_active (j_Status r) then SpWrite else SpEnd
                                        | None => SpEnd
                                        end]> (wk_stops s)) s)
  | step_stop_write now i s :
      wk_stops s !! i = Some SpWrite ->
      worker_step j s (setStops (<[i := SpEnd]> (wk_stops s)) (setRow (updated StatusStopped now None []) s)).

Inductive worker_reach (j : Job) : worker_state -> Prop :=
  | reach_init : worker_reach j initialWorker
  | reach_step s s' : worker_reach j s -> worker_step j s s' -> worker_reach j s'.

(** Nothing is left to do: the worker is gone, [StartJob] and every [StopJob]
    have returned. *)
Definition quiescent (s : worker_state) : Prop :=
  wk_start s = StReturned /\ (exists e st, wk_wait s = WDone e st) /\ Forall (fun pc => pc = SpEnd) (wk_stops s).

(** * Lemmas *)

Lemma updated_status st now c m j : j_Status (updated st now c m j) = st.
Proof. by destruct st. Qed.

(** A worker exists. *)
Definition launched (s : worker_state) : Prop := wk_wait s <> WNone.

(** Once [waitWorker] has written the row of a worker that ended late, the row
    says how it ended, unless a [StopJob] has marked it stopped. *)
Definition written (w : wait_pc) (late : bool) (row : option Job) (stops : list stop_pc) : Prop :=
  match w with
  | WUpdated e st | WDone e st =>
    late = true ->
    exists r, row = Some r
      /\ ((j_Status r = st /\ j_ExitCode r = Some (we_code e) /\ j_FinishedAt r <> None)
          \/ (stops <> [] /\ j_Status r = StatusStopped))
  | _ => True
  end.

Record worker_inv (s : worker_state) : Prop := {
  inv_late : wk_late s = true -> wk_start s = StReturned;
  inv_row : wk_start s <> StCreate -> is_Some (wk_row s);
  inv_launched : launched s -> match wk_start s with StSetPID _ | StSetRunning | StReturned => True | _ => False end;
  inv_requested : wk_stopRequested s = true -> wk_stops s <> [];
  inv_decided : match wk_wait s with
                | WDecided e st | WUpdated e st | WDone e st =>
                  st = if wk_stopRequested s then StatusStopped else exitStatus e
                | _ => True
                end;
  inv_written : written (wk_wait s) (wk_late s) (wk_row s) (wk_stops s)
}.

Lemma initial_inv : worker_inv initialWorker.
Proof. by split. Qed.

Lemma insert_nonempty {A} (l : list A) i x : l <> [] -> <[i := x]> l <> [].
Proof. destruct l, i; done. Qed.

Lemma updated_terminal st now c m r :
  st = StatusStopped \/ st = StatusSucceeded \/ st = StatusFailed ->
  j_ExitCode (updated st now c m r) = c /\ j_FinishedAt (updated st now c m r) <> None.
Proof. by intros [-> | [-> | ->]]. Qed.

Lemma exitStatus_terminal e : exitStatus e = StatusSucceeded \/ exitStatus e = StatusFailed.
Proof. unfold exitStatus. case_match; auto. Qed.

Lemma decided_terminal e (b : bool) :
  let st := if b then StatusStopped else exitStatus e in
  st = StatusStopped \/ st = StatusSucceeded \/ st = StatusFailed.
Proof. destruct b; [auto|]. destruct (exitStatus_terminal e) as [->| ->]; auto. Qed.

Lemma written_mono w late row stops stops' :
  (stops <> [] -> stops' <> []) -> written w late row stops -> written w late row stops'.
Proof. intros Hs. destruct w; cbn; try done; intros H Hl; destruct (H Hl) as (r & -> & Hr); exists r; naive_solver. Qed.

Lemma written_stopped w late row stops now :
  (late = true -> is_Some row) -> stops <> [] -> written w late (updated StatusStopped now None [] <$> row) stops.
Proof.
  intros Hr Hs. destruct w; cbn; try done; intros Hl; destruct (Hr Hl) as [r ->]; cbn;
    eexists; (split; [done|]); right; done.
Qed.

Lemma written_now e (b : bool) now row stops :
  is_Some row ->
  let st := if b then StatusStopped else exitStatus e in
  written (WUpdated e st) true (updated st now (Some (we_code e)) (we_fail e) <$> row) stops.
Proof.
  intros [r ->] st _. eexists. split; [done|]. left. rewrite updated_status. split; [done|].
  by apply updated_terminal, decided_terminal.
Qed.

Lemma step_inv j s s' : worker_inv s -> worker_step j s s' -> worker_inv s'.
Proof.
  intros [H1 H2 H3 H4 H5 H6] Hst.
  assert (forall f : Job -> Job, is_Some (wk_row s) -> is_Some (f <$> wk_row s)) as Hmap by (intros f [r ->]; eauto).
  assert (wk_late s = true -> is_Some (wk_row s)) as Hrow by (intros Hl; apply H2; by rewrite (H1 Hl)).
  inversion Hst; subst; split; unfold launched in *; cbn [setRow setStart setWait setStops requestStop endWorker
      wk_row wk_start wk_wait wk_stopRequested wk_stops wk_late] in *;
    try match goal with H : wk_start s = _ |- _ => rewrite ?H in * end;
    try match goal with H : wk_wait s = _ |- _ => rewrite ?H in * end;
    try done; try (by eauto);
    try (intros; by apply Hmap, H2);
    try (by intros; apply H4);
    try (intros Hl; by specialize (H1 Hl));
    try (intros _; by apply H3);
    try (destruct (wk_wait s); try done; intros Hl; by specialize (H1 Hl));
    try (by intros ?%bool_decide_eq_true);
    try (by destruct (wk_stops s));
    try (by intros; apply insert_nonempty, H4);
    try (eapply written_mono; [|exact H6]; try done; intros ?; by (apply insert_nonempty || destruct (wk_stops s)));
    try (apply written_stopped; [done|]; apply insert_nonempty; by destruct (wk_stops s)).
  - destruct (wk_late s); [|done]. subst st. by apply written_now, Hrow.
  - unfold registered in *. by destruct (wk_wait s).
Qed.

Lemma reach_inv j s : worker_reach j s -> worker_inv s.
Proof. induction 1; [apply initial_inv|by eapply step_inv]. Qed.

(** * The life of a job *)


Definition demoJob : Job :=
  mkJob (lit "j1") (lit "p") (lit "client") [] StatusPending [] [] (Some 1) None None None [] None None.

(** Perform a step from the state that [H] says is reachable. *)
Ltac worker_go H c :=
  lazymatch type of H with
  | worker_reach ?j ?s =>
    let S := fresh "S" in
    eassert (worker_step j s _) as S by (eapply c; reflexivity);
    apply (reach_step j s _ H) in S; clear H; rename S into H; cbn in H
  end.


(** A worker that ends before [StartJob] has marked its job running leaves the
    job running for ever: the row is overwritten after [waitWorker] has
    recorded the end. *)
Theorem fast_exit_stuck_running :
  exists s r, worker_reach demoJob s /\ quiescent s /\ wk_stops s = [] /\ wk_row s = Some r
    /\ j_Status r = StatusRunning /\ j_ExitCode r = Some 0 /\ j_FinishedAt r = Some 3.
Proof.
  pose proof (reach_init demoJob) as H.
  worker_go H (step_create demoJob 1).
  worker_go H (step_exec demoJob 42).
  worker_go H (step_exit demoJob (mkExit 0 [])).
  worker_go H (step_delete demoJob).
  worker_go H (step_decide demoJob).
  worker_go H (step_update demoJob 3).
  worker_go H (step_close demoJob).
  worker_go H (step_set_pid demoJob 42).
  worker_go H (step_set_running demoJob 4).
  eexists _, _. split; [exact H|]. split; [split; [done|]; split; [eauto|constructor]|]. done.
Qed.

(** A [StopJob] that comes just after the worker has ended can read the row
    before, and write it after, [waitWorker]: the result of a job that
    succeeded is replaced by "stopped" without an exit code. *)
Theorem stop_overwrites_result :
  exists s r, worker_reach demoJob s /\ quiescent s /\ wk_late s = true /\ wk_stopRequested s = false
    /\ wk_row s = Some r /\ wk_wait s = WDone (mkExit 0 []) StatusSucceeded
    /\ j_Status r = StatusStopped /\ j_ExitCode r = None.
Proof.
  pose proof (reach_init demoJob) as H.
  worker_go H (step_create demoJob 1).
  worker_go H (step_exec demoJob 42).
  worker_go H (step_set_pid demoJob 42).
  worker_go H (step_set_running demoJob 2).
  worker_go H (step_exit demoJob (mkExit 0 [])).
  worker_go H (step_delete demoJob).
  worker_go H (step_stop_unknown demoJob).
  worker_go H (step_stop_get demoJob 0).
  worker_go H (step_decide demoJob).
  worker_go H (step_update demoJob 9).
  worker_go H (step_close demoJob).
  worker_go H (step_stop_write demoJob 10 0).
  eexists _, _. split; [exact H|]. split; [split; [done|]; split; [eauto|by repeat constructor]|]. done.
Qed.

(** ** Stopping does not hang *)

(** How much is still to do of what was begun. *)
Definition pending_stop (pc : stop_pc) : nat :=
  match pc with SpWait => 3 | SpGet => 2 | SpWrite => 1 | SpEnd => 0 end.
Definition pending_wait (w : wait_pc) : nat :=
  match w with
  | WNone => 0 | WAlive => 5 | WExited _ => 4 | WDeleted _ => 3 | WDecided _ _ => 2 | WUpdated _ _ => 1 | WDone _ _ => 0
  end.
Definition pending_start (pc : start_pc) : nat :=
  match pc with StCreate => 9 | StExec => 8 | StSetPID _ => 2 | StSetRunning => 1 | StReturned => 0 | StFailed => 0 end.

Definition work_left (s : worker_state) : nat :=
  (pending_start (wk_start s) + pending_wait (wk_wait s) + foldr Nat.add 0 (map pending_stop (wk_stops s)))%nat.

(** Everything that was begun is finished. *)
Definition settled (s : worker_state) : Prop :=
  (wk_start s = StReturned \/ wk_start s = StFailed)
  /\ (wk_wait s = WNone \/ exists e st, wk_wait s = WDone e st)
  /\ Forall (fun pc => pc = SpEnd) (wk_stops s).

(** A step that is not a new [StopJob]. *)
Definition finishing (s s' : worker_state) : Prop := length (wk_stops s') = length (wk_stops s).

Lemma insert_work l i pc pc' :
  l !! i = Some pc -> (pending_stop pc' < pending_stop pc)%nat ->
  (foldr Nat.add 0 (map pending_stop (<[i := pc']> l)) < foldr Nat.add 0 (map pending_stop l))%nat.
Proof.
  revert i. induction l as [|x l IH]; intros [|i] H Hlt; simpl in *; simplify_eq; [lia|].
  specialize (IH i H Hlt). lia.
Qed.

(** Only a launched worker is waited for. *)
Lemma waiting_launched j s i : worker_reach j s -> wk_stops s !! i = Some SpWait -> launched s.
Proof.
  intros H. revert i. unfold launched. induction H as [|s s' Hs IH Hst]; intros i Hi; [done|].
  pose proof (reach_inv _ _ Hs) as [_ _ H3 _ _ _]. unfold launched in H3.
  inversion Hst; subst; cbn in *; try done; try (by eapply IH);
    try (match goal with H : wk_wait s = _ |- _ => rewrite H in * end; done).
  - unfold registered in *. by destruct (wk_wait s).
  - apply lookup_app_Some in Hi as [Hi|[_ Hi]]; [by eapply IH|]. by destruct (i - _)%nat.
  - apply list_lookup_insert_Some in Hi as [(_ & ? & _)|[_ Hi]]; [repeat case_match; done|by eapply IH].
  - apply list_lookup_insert_Some in Hi as [(_ & ? & _)|[_ Hi]]; [done|by eapply IH].
Qed.

Lemma finishing_decreases j s s' :
  worker_inv s -> worker_step j s s' -> finishing s s' -> (work_left s' < work_left s)%nat.
Proof.
  intros [_ _ H3 _ _ _] Hst Hf. unfold work_left, finishing, launched in *.
  inversion Hst; subst; cbn in *;
    try match goal with H : wk_start s = _ |- _ => rewrite ?H in * end;
    try match goal with H : wk_wait s = _ |- _ => rewrite ?H in * end;
    rewrite ?length_app in Hf; cbn in *; try lia.
  - match goal with H : _ !! i = Some _ |- _ => pose proof (insert_work _ _ _ SpGet H) as Hw end. cbn in Hw. lia.
  - match goal with |- context [<[i := ?pc]> _] =>
      match goal with H : _ !! i = Some _ |- _ => pose proof (insert_work _ _ _ pc H) as Hw end end.
    cbn in Hw. apply Nat.add_lt_mono_l, Hw. repeat case_match; simpl; lia.
  - match goal with H : _ !! i = Some _ |- _ => pose proof (insert_work _ _ _ SpEnd H) as Hw end. cbn in Hw. lia.
Qed.

Lemma unsettled_proceeds j s :
  worker_reach j s -> ~ settled s -> exists s', worker_step j s s' /\ finishing s s'.
Proof.
  intros Hr Hn.
  destruct (wk_start s) eqn:Es;
    [by eexists; split; [apply (step_create j 0)|]|by eexists; split; [apply (step_exec j 0)|]
    |by eexists; split; [eapply step_set_pid|]|by eexists; split; [apply (step_set_running j 0)|]| |].
  all: destruct (wk_wait s) as [| |e|e|e st|e st|e st] eqn:Ew;
    [|by eexists; split; [eapply (step_exit j (mkExit 0 []))|]|by eexists; split; [eapply step_delete|]
     |by eexists; split; [eapply step_decide|]|by eexists; split; [eapply (step_update j 0)|]
     |by eexists; split; [eapply step_close|]|].
  all: destruct (decide (Forall (fun pc => pc = SpEnd) (wk_stops s))) as [Hf|Hf];
    [exfalso; apply Hn; split; [auto|]; split; [eauto|done]|].
  all: apply not_Forall_Exists in Hf; [|apply _]; apply Exists_exists in Hf as (pc & Hpc & Hne); cbn in Hne;
    apply list_elem_of_lookup in Hpc as [i Hi]; destruct pc; try done;
    try (by eexists; split; [eapply step_stop_get; exact Hi|]; unfold finishing; cbn; rewrite length_insert);
    try (by eexists; split; [eapply (step_stop_write j 0); exact Hi|]; unfold finishing; cbn; rewrite length_insert);
    try (by eexists; split; [eapply step_stop_wait; [exact Hi|exact Ew]|]; unfold finishing; cbn; rewrite length_insert);
    by destruct (waiting_launched j s i Hr Hi).
Qed.



(** ** The registry *)

Lemma UpdateStatus_lookup id st now c m s id' :
  js_jobs (UpdateStatus id st now c m s) !! id'
  = if decide (id = id') then updated st now c m <$> js_jobs s !! id' else js_jobs s !! id'.
Proof.
  unfold UpdateStatus. cbn. case_decide; subst; [by rewrite lookup_alter_eq|by rewrite lookup_alter_ne].
Qed.

(** A job that is created can be read back: trimmed names, defaults filled in,
    nothing of a life it has not had yet; creating it again is refused. *)
Theorem create_get_roundtrip now j s :
  TrimSpace (j_ID j) <> [] -> js_jobs s !! TrimSpace (j_ID j) = None ->
  let r := inserted (TrimSpace (j_ID j)) now j in
  exists s', Create now j s = (Ok r, s') /\ Get (TrimSpace (j_ID j)) s' = Ok r
    /\ (forall id, id <> TrimSpace (j_ID j) -> Get id s' = Get id s)
    /\ Create now j s' = (Err ErrInsert, s').
Proof.
  intros Hn Hf r. unfold Create. rewrite bool_decide_eq_false_2, Hf by done. eexists.
  unfold Get. cbn. rewrite lookup_insert_eq. split_and!; try done.
  - cbn. by rewrite lookup_insert_eq.
  - intros id Hne. cbn. by rewrite lookup_insert_ne.
  - cbn. by rewrite lookup_insert_eq.
Qed.

Lemma create_get_roundtrip_witness :
  exists s', Create 7 demoJob (mkJobsStore ∅ [] 1) = (Ok (inserted (lit "j1") 7 demoJob), s').
Proof.
  destruct (create_get_roundtrip 7 demoJob (mkJobsStore ∅ [] 1)) as (s' & H & _); [done|done|].
  exists s'. exact H.
Defined.

(** Whatever the runner, starting a fresh job leaves exactly one new row, running
    with the pid the runner gave, or failed with the runner's error; stopping it
    afterwards marks a running job stopped and changes no other row. *)
Theorem start_stop_job {R} `{Runner R} errorText now now' j spec (g : Registry R) :
  TrimSpace (j_ID j) = j_ID j -> j_ID j <> [] -> js_jobs (rg_store g) !! j_ID j = None ->
  exists r g', StartJob errorText now j spec g = (Ok r, g')
    /\ (forall id, id <> j_ID j -> Get id (rg_store g') = Get id (rg_store g))
    /\ match runner_start (match sp_JobID spec with [] => withJobID (j_ID j) spec | _ => spec end) (rg_runner g) with
       | (Ok pid, _) =>
         j_Status r = StatusRunning /\ j_PID r = Some pid /\ j_StartedAt r = Some now
         /\ exists r' g'', StopJob now' (j_ID j) g' = (Ok r', g'') /\ j_Status r' = StatusStopped /\ j_PID r' = Some pid
              /\ forall id, id <> j_ID j -> Get id (rg_store g'') = Get id (rg_store g')
       | (Err e, _) =>
         j_Status r = StatusFailed /\ j_Error r = TrimSpace (errorText e)
         /\ StopJob now' (j_ID j) g' = (Ok r, mkRegistry (rg_store g') (snd (runner_stop (j_ID j) (rg_runner g'))))
       end.
Proof.
  intros Ht Hn Hf. unfold StartJob, Create. rewrite Ht, bool_decide_eq_false_2, Hf by done.
  set (store := setJobs _ _).
  assert (Get (j_ID j) store = Ok (inserted (j_ID j) now j)) as Hg by (unfold Get; cbn; by rewrite lookup_insert_eq).
  assert (forall id, id <> j_ID j -> js_jobs store !! id = js_jobs (rg_store g) !! id) as Ho
    by (intros id Hne; cbn; by rewrite lookup_insert_ne).
  rewrite Hg. cbn [j_ID inserted]. destruct (runner_start _ _) as [[pid|e] r1].
  - unfold Get. rewrite UpdateStatus_lookup, decide_True by done. cbn. rewrite lookup_alter_eq, lookup_insert_eq. cbn.
    eexists _, _. split_and!; try done.
    + intros id Hne. cbn. rewrite lookup_alter_ne, lookup_alter_ne, lookup_insert_ne by done. done.
    + unfold StopJob. destruct (runner_stop _ _) as [ok r2]. unfold Get. cbn.
      rewrite lookup_alter_eq, lookup_alter_eq, lookup_insert_eq. cbn. rewrite lookup_alter_eq, lookup_alter_eq, lookup_alter_eq, lookup_insert_eq.
      cbn. eexists _, _. split_and!; try done. intros id Hne. cbn. by rewrite !lookup_alter_ne by done.
  - unfold Get. rewrite UpdateStatus_lookup, decide_True by done. cbn. rewrite lookup_insert_eq. cbn.
    eexists _, _. split_and!; try done.
    + intros id Hne. cbn. rewrite lookup_alter_ne, lookup_insert_ne by done. done.
    + unfold StopJob. destruct (runner_stop _ _) as [ok r2]. unfold Get. cbn.
      rewrite lookup_alter_eq, lookup_insert_eq. cbn. done.
Qed.

Lemma start_stop_job_witness :
  exists r g', StartJob (fun _ => lit "e") 5 demoJob (mkSpec [] [] [] [] [] ∅ [] 0 false false ∅)
                 (mkRegistry (mkJobsStore ∅ [] 1) NewStubRunner) = (Ok r, g')
    /\ j_Status r = StatusRunning /\ j_PID r = Some 100001.
Proof.
  destruct (start_stop_job (fun _ => lit "e") 5 6 demoJob (mkSpec [] [] [] [] [] ∅ [] 0 false false ∅)
              (mkRegistry (mkJobsStore ∅ [] 1) NewStubRunner)) as (r & g' & E & _ & H); [reflexivity|done|done|].
  exists r, g'. split; [exact E|]. destruct H as (H1 & H2 & _). split; [exact H1|exact H2].
Defined.

(** ** Surprises *)

(** Rows are ordered by the text of their time, which drops trailing zeros: of
    two jobs created in the same second the older can come first. *)
Theorem list_order_by_text :
  let older := withStatus StatusRunning (mkJob (lit "a") [] [] [] StatusPending [] [] (Some 1700000000500000000) None None None [] None None) in
  let younger := withStatus StatusRunning (mkJob (lit "b") [] [] [] StatusPending [] [] (Some 1700000000510000000) None None None [] None None) in
  map j_ID (ListJobs 1 [older; younger]) = [lit "a"] /\ map j_ID (ListJobs 1 [younger; older]) = [lit "a"].
Proof. vm_compute. done. Qed.

(** The report of a tool job is recorded twice, by name and by the walk over
    the directory. *)
Theorem tool_report_recorded_twice :
  let s := mkJobsStore (<[lit "t" := inserted (lit "t") 1 demoJob]> ∅) [] 1 in
  let fs p := if bool_decide (p = lit "/d/report.html") then Some 12 else None in
  map (fun a => (ar_Kind a, ar_Path a))
    (js_artifacts (RememberToolArtifacts None fs 3 (lit "/d") (lit "t") (lit "report-html") [lit "/d/report.html"] s))
  = [(lit "report_html", lit "/d/report.html"); (lit "report_html", lit "/d/report.html")].
Proof. vm_compute. done. Qed.
