(* ===== verification/NetAddr.v ===== *)
(** * IP addresses as text

    [net.ParseIP], [IP.To4], [IP.String] and [IP.IsUnspecified] of Go's
    standard library, as the SDP code uses them.  An address is its bytes,
    sixteen or four of them; an IPv4 address parses to the sixteen bytes of
    its IPv4-mapped form. *)

From stdpp Require Import base list strings.
From Stdlib Require Import ZArith Lia Strings.Byte.
From S2P Require Import Prelude GoStrings GoFloat.

(** ** Parsing *)

(** [netip.parseIPv4Fields]: [prev] is the byte before, [val] and [digLen] the
    octet being read, [fields] the octets before it, latest first. *)
Fixpoint v4_fields (s : str) (prev : option byte) (val : Z) (digLen : nat) (fields : list byte) : option str :=
  match s with
  | [] => if (length fields <? 3)%nat then None else Some (rev (z2b val :: fields))
  | c :: r =>
    match digit_val c with
    | Some d =>
      if (digLen =? 1)%nat && (val =? 0) then None
      else if 255 <? val * 10 + d then None
      else v4_fields r (Some c) (val * 10 + d) (S digLen) fields
    | None =>
      if beqb c x2e then
        if bool_decide (prev = None) || bool_decide (r = []) || bool_decide (prev = Some x2e) then None
        else if (length fields =? 3)%nat then None
        else v4_fields r (Some c) 0 0 (z2b val :: fields)
      else None
    end
  end.

Definition parseIPv4Fields (s : str) : option str := v4_fields s None 0 0 [].

(** One group of hexadecimal digits: how many, their value, what follows. *)
Fixpoint hex_group (s : str) (off : nat) (acc : Z) : option (nat * Z * str) :=
  match s with
  | [] => Some (off, acc, [])
  | c :: r =>
    match hex_digit c with
    | None => Some (off, acc, s)
    | Some d =>
      if (3 <? off)%nat then None
      else if 65535 <? acc * 16 + d then None
      else hex_group r (S off) (acc * 16 + d)
    end
  end.

(** The loop of [netip.parseIPv6]: the bytes read, where the ellipsis is, the
    text left.  Eight groups fill an address, so a fuel of eight is the
    loop's own bound. *)
Fixpoint v6_groups (fuel : nat) (bytes : str) (ellipsis : option nat) (s : str) : option (str * option nat * str) :=
  match fuel with
  | O => Some (bytes, ellipsis, s)
  | S fuel =>
    match hex_group s 0 0 with
    | None => None
    | Some (off, acc, rest) =>
      if (off =? 0)%nat then None
      else if HasPrefix rest (lit ".") then
        if bool_decide (ellipsis = None) && negb (length bytes =? 12)%nat then None
        else if (16 <? length bytes + 4)%nat then None
        else match parseIPv4Fields s with
             | None => None
             | Some v4 => Some (bytes ++ v4, ellipsis, [])
             end
      else
        let bytes := bytes ++ put_u16 acc in
        match rest with
        | [] => Some (bytes, ellipsis, [])
        | c :: r =>
          if negb (beqb c x3a) then None
          else match r with
               | [] => None
               | d :: r' =>
                 if beqb d x3a then
                   match ellipsis with
                   | Some _ => None
                   | None =>
                     match r' with
                     | [] => Some (bytes, Some (length bytes), [])
                     | _ => v6_groups fuel bytes (Some (length bytes)) r'
                     end
                   end
                 else v6_groups fuel bytes ellipsis r
               end
        end
    end
  end.

(** [netip.parseIPv6] of a text without a zone. *)
Definition parseIPv6 (s : str) : option str :=
  let finish (p : option (str * option nat * str)) :=
    match p with
    | None => None
    | Some (bytes, ellipsis, rest) =>
      match rest with
      | _ :: _ => None
      | [] =>
        if (length bytes <? 16)%nat then
          match ellipsis with
          | None => None
          | Some e => Some (take e bytes ++ replicate (16 - length bytes) x00 ++ drop e bytes)
          end
        else match ellipsis with Some _ => None | None => Some bytes end
      end
    end in
  if HasPrefix s (lit "::") then
    match drop 2 s with
    | [] => Some (replicate 16 x00)
    | t => finish (v6_groups 8 [] (Some 0%nat) t)
    end
  else finish (v6_groups 8 [] None s).

Definition mapped_prefix : str := replicate 10 x00 ++ [xff; xff].

Fixpoint first_special (s : str) : option byte :=
  match s with
  | [] => None
  | c :: r => if beqb c x2e || beqb c x3a || beqb c x25 then Some c else first_special r
  end.

(** [net.ParseIP]; an address with a zone is refused. *)
Definition ParseIP (s : str) : option str :=
  match first_special s with
  | Some c =>
    if beqb c x2e then match parseIPv4Fields s with Some v4 => Some (mapped_prefix ++ v4) | None => None end
    else if beqb c x3a then match IndexByte x25 s with Some _ => None | None => parseIPv6 s end
    else None
  | None => None
  end.

(** ** Printing *)

(** [IP.To4] *)
Definition To4 (ip : str) : option str :=
  if (length ip =? 4)%nat then Some ip
  else if (length ip =? 16)%nat && HasPrefix ip mapped_prefix then Some (drop 12 ip)
  else None.

Definition IsUnspecified (ip : str) : bool :=
  bool_decide (ip = replicate 16 x00) || bool_decide (To4 ip = Some (replicate 4 x00)).

Definition dotted (v4 : str) : str := GoStrings.Join (map (fun b => Itoa (b2z b)) v4) (lit ".").

Definition hex_char (d : Z) : byte := if d <? 10 then z2b (48 + d) else z2b (87 + d).

(** [netip.appendHex]: no leading zeros. *)
Definition group_text (g : Z) : str :=
  (if 4096 <=? g then [hex_char (g / 4096)] else [])
  ++ (if 256 <=? g then [hex_char (g / 256 mod 16)] else [])
  ++ (if 16 <=? g then [hex_char (g / 16 mod 16)] else [])
  ++ [hex_char (g mod 16)].

Fixpoint groups (ip : str) : list Z :=
  match ip with
  | a :: b :: r => b2z a * 256 + b2z b :: groups r
  | _ => []
  end.

Fixpoint leading_zeros (l : list Z) : nat :=
  match l with
  | g :: r => if g =? 0 then S (leading_zeros r) else 0
  | [] => 0
  end.

(** Start and end of the first longest run of at least two zero groups. *)
Fixpoint zero_run (i : nat) (l : list Z) (best : nat * nat) : nat * nat :=
  match l with
  | [] => best
  | _ :: r =>
    let n := leading_zeros l in
    zero_run (S i) r (if (2 <=? n)%nat && (snd best - fst best <? n)%nat then (i, (i + n)%nat) else best)
  end.

Definition v6_text (ip : str) : str :=
  let gs := groups ip in
  let '(a, b) := zero_run 0 gs (0%nat, 0%nat) in
  let text l := GoStrings.Join (map group_text l) (lit ":") in
  if (a =? b)%nat then text gs else text (take a gs) ++ lit "::" ++ text (drop b gs).

(** [IP.String] of a four- or sixteen-byte address. *)
Definition IPString (ip : str) : str :=
  match To4 ip with
  | Some v4 => dotted v4
  | None => v6_text ip
  end.

Example parse_ip_examples :
  ParseIP (lit "10.0.0.1") = Some (mapped_prefix ++ [x0a; x00; x00; x01]) /\
  ParseIP (lit "10.0.0.01") = None /\ ParseIP (lit "1.2.3") = None /\ ParseIP (lit "1.2.3.256") = None /\
  ParseIP (lit "::") = Some (replicate 16 x00) /\
  ParseIP (lit "::1") = Some (replicate 15 x00 ++ [x01]) /\
  ParseIP (lit "::ffff:1.2.3.4") = ParseIP (lit "1.2.3.4") /\
  ParseIP (lit "fe80::1%eth0") = None /\ ParseIP (lit "1:2:3:4:5:6:7") = None /\
  ParseIP (lit "1::2::3") = None /\ ParseIP (lit "1:2:3:4:5:6:7::8") = None /\
  (IPString <$> ParseIP (lit "2001:DB8:0:0:1:0:0:1")) = Some (lit "2001:db8::1:0:0:1") /\
  (IPString <$> ParseIP (lit "FE80::")) = Some (lit "fe80::") /\
  (IPString <$> ParseIP (lit "1:2:3:4:5:6:7:8")) = Some (lit "1:2:3:4:5:6:7:8") /\
  (IPString <$> ParseIP (lit "::FFFF:7F00:1")) = Some (lit "127.0.0.1") /\
  (IsUnspecified <$> ParseIP (lit "0.0.0.0")) = Some true /\ (IsUnspecified <$> ParseIP (lit "::")) = Some true.
Proof. by vm_compute. Qed.

(** ** Dotted addresses parse back *)

Lemma octet_digits b : Forall (fun c => in_range 48 57 c = true) (Itoa (b2z b)).
Proof.
  pose proof (b2z_range b). unfold Itoa. rewrite (proj2 (Z.ltb_ge _ _)) by lia. apply dec_of_digits.
Qed.

Lemma v4_octet b rest prev fields :
  exists d n, v4_fields (Itoa (b2z b) ++ rest) prev 0 0 fields = v4_fields rest (Some d) (b2z b) n fields /\ d <> x2e.
Proof. destruct b; eexists _, _; (split; [reflexivity|done]). Qed.

Lemma v4_dot d rest val n fields :
  d <> x2e -> rest <> [] -> (length fields < 3)%nat ->
  v4_fields (x2e :: rest) (Some d) val n fields = v4_fields rest (Some x2e) 0 0 (z2b val :: fields).
Proof.
  intros Hd Hr Hf. cbn [v4_fields]. change (digit_val x2e) with (@None Z). rewrite beqb_refl.
  rewrite !bool_decide_eq_false_2 by congruence. by rewrite (proj2 (Nat.eqb_neq _ _)) by lia.
Qed.

Lemma octet_nonempty b rest : Itoa (b2z b) ++ rest <> [].
Proof. pose proof (Itoa_nonempty (b2z b)). by destruct (Itoa (b2z b)). Qed.

Lemma first_special_digits ds rest :
  Forall (fun c => in_range 48 57 c = true) ds -> first_special (ds ++ rest) = first_special rest.
Proof.
  induction 1 as [|c ds Hc _ IH]; [done|]. cbn [app first_special]. rewrite IH.
  assert (beqb c x2e || beqb c x3a || beqb c x25 = false) as ->; [|done].
  rewrite !orb_false_iff, !beqb_neq. split_and!; intros ->; done.
Qed.

Lemma dotted_quad a b c d :
  dotted [a; b; c; d] = Itoa (b2z a) ++ x2e :: Itoa (b2z b) ++ x2e :: Itoa (b2z c) ++ x2e :: Itoa (b2z d) ++ [].
Proof. unfold dotted. cbn [map GoStrings.Join]. by rewrite app_nil_r. Qed.

Lemma ParseIP_dotted a b c d : ParseIP (dotted [a; b; c; d]) = Some (mapped_prefix ++ [a; b; c; d]).
Proof.
  rewrite dotted_quad. unfold ParseIP. rewrite first_special_digits by apply octet_digits.
  cbn [first_special]. rewrite beqb_refl. cbn [orb].
  unfold parseIPv4Fields.
  destruct (v4_octet a (x2e :: Itoa (b2z b) ++ x2e :: Itoa (b2z c) ++ x2e :: Itoa (b2z d) ++ []) None [])
    as (p & n & -> & Hp).
  rewrite v4_dot; [|done|apply octet_nonempty|simpl; lia].
  destruct (v4_octet b (x2e :: Itoa (b2z c) ++ x2e :: Itoa (b2z d) ++ []) (Some x2e) [z2b (b2z a)])
    as (q & n' & -> & Hq).
  rewrite v4_dot; [|done|apply octet_nonempty|simpl; lia].
  destruct (v4_octet c (x2e :: Itoa (b2z d) ++ []) (Some x2e) [z2b (b2z b); z2b (b2z a)]) as (r & n'' & -> & Hr).
  rewrite v4_dot; [|done|apply octet_nonempty|simpl; lia].
  destruct (v4_octet d [] (Some x2e) [z2b (b2z c); z2b (b2z b); z2b (b2z a)]) as (e & n3 & -> & _).
  cbn [v4_fields length Nat.ltb Nat.leb rev app]. by rewrite !z2b_b2z.
Qed.
