(* ===== verification/Encoding.v ===== *)
(** * Base64 and hexadecimal text

    [encoding/base64] (the padded standard alphabet and the unpadded URL
    alphabet) and [hex.DecodeString] of Go's standard library, as the SDP and
    ICE code uses them. *)

From stdpp Require Import base list strings.
From Stdlib Require Import ZArith Lia Strings.Byte.
From S2P Require Import Prelude GoStrings GoFloat Hash NetAddr.

(** ** Alphabets *)

Record b64_encoding := mkB64 { b64_alphabet : str; b64_padded : bool }.

Definition StdEncoding : b64_encoding :=
  mkB64 (lit "ABCDEFGHIJKLMNOPQRSTUVWXYZabcdefghijklmnopqrstuvwxyz0123456789+/") true.
Definition RawURLEncoding : b64_encoding :=
  mkB64 (lit "ABCDEFGHIJKLMNOPQRSTUVWXYZabcdefghijklmnopqrstuvwxyz0123456789-_") false.

Definition b64_char (e : b64_encoding) (d : Z) : byte := nth (Z.to_nat d) (b64_alphabet e) x00.
Definition b64_digit (e : b64_encoding) (c : byte) : option Z := Z.of_nat <$> IndexByte c (b64_alphabet e).

(** ** Encoding *)

Definition b64_pad (e : b64_encoding) (n : nat) : str := if b64_padded e then replicate n x3d else [].

(** [EncodeToString]: three bytes become four characters. *)
Fixpoint b64_encode (e : b64_encoding) (s : str) : str :=
  match s with
  | a :: b :: c :: r =>
    let v := b2z a * 65536 + b2z b * 256 + b2z c in
    b64_char e (v / 262144) :: b64_char e (v / 4096 mod 64) :: b64_char e (v / 64 mod 64) :: b64_char e (v mod 64)
    :: b64_encode e r
  | [a; b] =>
    let v := b2z a * 65536 + b2z b * 256 in
    [b64_char e (v / 262144); b64_char e (v / 4096 mod 64); b64_char e (v / 64 mod 64)] ++ b64_pad e 1
  | [a] =>
    let v := b2z a * 65536 in
    [b64_char e (v / 262144); b64_char e (v / 4096 mod 64)] ++ b64_pad e 2
  | [] => []
  end.

(** ** Decoding *)

(** [DecodeString] once line breaks are skipped, for a padded encoding that is
    not strict: whole quanta, then one that padding completes. *)
Fixpoint b64_quanta (e : b64_encoding) (s : str) : option str :=
  match s with
  | [] => Some []
  | a :: b :: c :: d :: r =>
    match b64_digit e a, b64_digit e b with
    | Some va, Some vb =>
      match b64_digit e c, b64_digit e d with
      | Some vc, Some vd =>
        let v := va * 262144 + vb * 4096 + vc * 64 + vd in
        match b64_quanta e r with
        | Some t => Some (z2b (v / 65536) :: z2b (v / 256) :: z2b v :: t)
        | None => None
        end
      | Some vc, None =>
        if beqb d x3d && bool_decide (r = []) then
          let v := va * 262144 + vb * 4096 + vc * 64 in Some [z2b (v / 65536); z2b (v / 256)]
        else None
      | None, _ =>
        if beqb c x3d && beqb d x3d && bool_decide (r = []) then
          let v := va * 262144 + vb * 4096 in Some [z2b (v / 65536)]
        else None
      end
    | _, _ => None
    end
  | _ => None
  end.

Definition b64_decode (e : b64_encoding) (s : str) : option str :=
  b64_quanta e (filter (fun c => is_crlf c = false) s).

(** [hex.DecodeString] *)
Fixpoint hex_decode (s : str) : option str :=
  match s with
  | [] => Some []
  | a :: b :: r =>
    match hex_digit a, hex_digit b, hex_decode r with
    | Some h, Some l, Some t => Some (z2b (h * 16 + l) :: t)
    | _, _, _ => None
    end
  | _ => None
  end.

Example base64_examples :
  b64_encode StdEncoding (lit "light work.") = lit "bGlnaHQgd29yay4=" /\
  b64_decode StdEncoding (lit "bGlnaHQgd29yay4=") = Some (lit "light work.") /\
  b64_encode StdEncoding (lit "light wo") = lit "bGlnaHQgd28=" /\ b64_encode StdEncoding (lit "ligh") = lit "bGlnaA==" /\
  b64_decode StdEncoding (lit "bGlnaA=") = None /\ b64_decode StdEncoding (lit "bGlnaA") = None /\
  b64_decode StdEncoding (lit "bGlna=A=") = None /\ b64_decode StdEncoding (lit "bGl=bGln") = None /\
  b64_encode RawURLEncoding [xfb; xff] = lit "-_8".
Proof. by vm_compute. Qed.

(** ** What is encoded decodes *)

(** What holds of the 64 characters, by evaluation. *)
Lemma std_char_all (P : Z -> byte -> bool) :
  forallb (fun n => P (Z.of_nat n) (b64_char StdEncoding (Z.of_nat n))) (seq 0 64) = true ->
  forall d, 0 <= d < 64 -> P d (b64_char StdEncoding d) = true.
Proof.
  intros F d H. rewrite forallb_forall in F. specialize (F (Z.to_nat d)). rewrite in_seq in F.
  rewrite Z2Nat.id in F by lia. apply F. lia.
Qed.

Lemma std_char d : 0 <= d < 64 -> b64_digit StdEncoding (b64_char StdEncoding d) = Some d.
Proof.
  intros H.
  pose proof (std_char_all (fun d c => match b64_digit StdEncoding c with Some v => v =? d | None => false end)
    ltac:(by vm_compute) d H) as E.
  cbv beta in E. case_match; [|done]. by apply Z.eqb_eq in E as ->.
Qed.

Lemma quantum_digits v : 0 <= v < 16777216 ->
  let d0 := v / 262144 in let d1 := v / 4096 mod 64 in let d2 := v / 64 mod 64 in let d3 := v mod 64 in
  (0 <= d0 < 64 /\ 0 <= d1 < 64 /\ 0 <= d2 < 64 /\ 0 <= d3 < 64) /\ d0 * 262144 + d1 * 4096 + d2 * 64 + d3 = v.
Proof. cbv zeta. Z.to_euclidean_division_equations. lia. Qed.

Lemma quantum_bytes a b c :
  let v := b2z a * 65536 + b2z b * 256 + b2z c in
  0 <= v < 16777216 /\ z2b (v / 65536) = a /\ z2b (v / 256) = b /\ z2b v = c.
Proof.
  cbv zeta. pose proof (b2z_range a). pose proof (b2z_range b). pose proof (b2z_range c).
  split; [lia|]. split_and!; apply b2z_inj; rewrite b2z_z2b; Z.to_euclidean_division_equations; lia.
Qed.

Lemma b64_decode_cons4 a b c d r va vb vc vd :
  b64_digit StdEncoding a = Some va -> b64_digit StdEncoding b = Some vb ->
  b64_digit StdEncoding c = Some vc -> b64_digit StdEncoding d = Some vd ->
  b64_quanta StdEncoding (a :: b :: c :: d :: r) =
  (let v := va * 262144 + vb * 4096 + vc * 64 + vd in
   match b64_quanta StdEncoding r with
   | Some t => Some (z2b (v / 65536) :: z2b (v / 256) :: z2b v :: t)
   | None => None
   end).
Proof. intros Ha Hb Hc Hd. cbn [b64_quanta]. by rewrite Ha, Hb, Hc, Hd. Qed.

Lemma b64_encode_all_fuel (P : byte -> Prop) n s : (length s <= n)%nat ->
  (forall d, 0 <= d < 64 -> P (b64_char StdEncoding d)) -> P x3d -> Forall P (b64_encode StdEncoding s).
Proof.
  intros Hn HP Hp. revert s Hn. induction n as [|n IH]; intros [|a [|b [|c r]]] Hn;
    cbn [b64_encode app b64_pad b64_padded StdEncoding replicate]; try (simpl in Hn; lia); repeat constructor;
    try done; try (apply IH; simpl in Hn; lia).
  all: apply HP; pose proof (b2z_range a); try pose proof (b2z_range b);
    try pose proof (b2z_range c); Z.to_euclidean_division_equations; lia.
Qed.

(** The characters of an encoding. *)
Definition b64_text (c : byte) : bool := plain c && negb (is_crlf c) && negb (beqb c x3a) && negb (beqb c x7c).

Lemma b64_encode_text s : Forall (fun c => b64_text c = true) (b64_encode StdEncoding s).
Proof.
  apply (b64_encode_all_fuel _ (length s)); [done| |done]. apply (std_char_all (fun _ c => b64_text c)).
  by vm_compute.
Qed.

Lemma std_pad_digit : b64_digit StdEncoding x3d = None.
Proof. by vm_compute. Qed.

Lemma b64_quanta_encode n s : (length s <= n)%nat -> b64_quanta StdEncoding (b64_encode StdEncoding s) = Some s.
Proof.
  revert s. induction n as [|n IH]; intros [|a [|b [|c r]]] Hn; try (simpl in Hn; lia); [done|done|..].
  - destruct (quantum_bytes a x00 x00) as (Hv & Ha & _). change (b2z x00) with 0 in Hv, Ha.
    replace (b2z a * 65536 + 0 * 256 + 0) with (b2z a * 65536) in Hv, Ha by lia.
    destruct (quantum_digits _ Hv) as ((H0 & H1 & _ & _) & Hs).
    cbn [b64_encode app b64_pad b64_padded StdEncoding replicate b64_quanta].
    rewrite (std_char _ H0), (std_char _ H1), std_pad_digit. cbn [beqb]. rewrite !beqb_refl.
    rewrite bool_decide_eq_true_2 by done. cbn [andb]. 
    assert (b2z a * 65536 / 64 mod 64 = 0 /\ b2z a * 65536 mod 64 = 0) as [E E']
      by (Z.to_euclidean_division_equations; lia).
    rewrite E, E', Z.mul_0_l, !Z.add_0_r in Hs. by rewrite Hs, Ha.
  - destruct (quantum_bytes a b x00) as (Hv & Ha & Hb & _). change (b2z x00) with 0 in Hv, Ha, Hb.
    rewrite Z.add_0_r in Hv, Ha, Hb.
    destruct (quantum_digits _ Hv) as ((H0 & H1 & H2 & _) & Hs).
    cbn [b64_encode app b64_pad b64_padded StdEncoding replicate b64_quanta].
    rewrite (std_char _ H0), (std_char _ H1), (std_char _ H2), std_pad_digit, beqb_refl.
    rewrite bool_decide_eq_true_2 by done. cbn [andb].
    assert ((b2z a * 65536 + b2z b * 256) mod 64 = 0) as E by (Z.to_euclidean_division_equations; lia).
    rewrite E, Z.add_0_r in Hs. by rewrite Hs, Ha, Hb.
  - destruct (quantum_bytes a b c) as (Hv & Ha & Hb & Hc).
    destruct (quantum_digits _ Hv) as ((H0 & H1 & H2 & H3) & Hs).
    cbn [b64_encode]. cbv zeta.
    rewrite (b64_decode_cons4 _ _ _ _ _ _ _ _ _ (std_char _ H0) (std_char _ H1)
      (std_char _ H2) (std_char _ H3)).
    cbv zeta. rewrite Hs, IH, Ha, Hb, Hc by (simpl in Hn; lia). done.
Qed.

Lemma b64_decode_encode s : b64_decode StdEncoding (b64_encode StdEncoding s) = Some s.
Proof.
  unfold b64_decode.
  assert (filter (fun c => is_crlf c = false) (b64_encode StdEncoding s) = b64_encode StdEncoding s) as ->.
  { pose proof (b64_encode_text s) as H. induction H as [|x l Hx _ IH]; [done|].
    rewrite filter_cons_True, IH; [done|]. unfold b64_text in Hx. by bool_to_prop. }
  by apply b64_quanta_encode with (length s).
Qed.

(** Upper-case hexadecimal digits, the form certificates are announced in. *)
Definition hex_upper (d : Z) : byte := if d <? 10 then z2b (48 + d) else z2b (55 + d).
Definition hex_pair (b : byte) : str := [hex_upper (b2z b / 16); hex_upper (b2z b mod 16)].

Lemma hex_pair_decodes b r : hex_decode (hex_pair b ++ r) = (fun t => b :: t) <$> hex_decode r.
Proof. destruct b; cbn; by destruct (hex_decode r). Qed.

Lemma hex_decode_encode s : hex_decode (EncodeToString s) = Some s.
Proof.
  induction s as [|b s IH]; [done|]. unfold EncodeToString. cbn [flat_map]. fold (EncodeToString s).
  destruct b; cbn; by rewrite IH.
Qed.

Lemma EncodeToString_inj s t : EncodeToString s = EncodeToString t -> s = t.
Proof. intros E. apply (f_equal hex_decode) in E. rewrite !hex_decode_encode in E. by injection E. Qed.

Lemma EncodeToString_length s : length (EncodeToString s) = (2 * length s)%nat.
Proof. induction s as [|b s IH]; [done|]. cbn [EncodeToString flat_map length app]. fold (EncodeToString s). rewrite IH. lia. Qed.

Lemma EncodeToString_plain s : Forall (fun b => plain b = true) (EncodeToString s).
Proof.
  eapply Forall_impl; [apply EncodeToString_hex|]. intros b Hb. unfold plain. destruct b; cbn in *; naive_solver.
Qed.
