(* ===== verification/Sdp.v ===== *)
(** * Session descriptions

    [src/internal/media/sdp.go], [sdp_ice.go], [sdp_srtp.go], [sdp_bundle.go],
    [sdp_from_message.go] and [trickle_ice_json.go]: where the media of a call
    goes, the ICE candidate and credentials, SRTP keys and certificate
    fingerprints.  The DNS resolver ([net.DefaultResolver]) and the JSON
    decoder are parameters. *)

From stdpp Require Import base list sets strings.
From Stdlib Require Import ZArith Lia Strings.Byte.
From S2P Require Import Prelude GoStrings GoFloat SipMessage EngineText NetAddr Encoding.

(** ** Lines and sections *)

Definition lf : str := [x0a].

(** The trimmed lines every loop goes over. *)
Definition sdp_lines (body : str) : list str := map TrimSpace (Split (ReplaceAll body crlf lf) x0a).

(** The lines the loops limited to the first [m=<media>] block look at. *)
Fixpoint section_lines (prefix : str) (inSection : bool) (lines : list str) : list str :=
  match lines with
  | [] => []
  | line :: rest =>
    let low := ToLower line in
    if HasPrefix low prefix then section_lines prefix true rest
    else if HasPrefix low (lit "m=") then if inSection then [] else section_lines prefix false rest
    else if inSection then line :: section_lines prefix true rest
    else section_lines prefix false rest
  end.

(** The lines inside any [m=audio] block. *)
Fixpoint audio_lines (inAudio : bool) (lines : list str) : list str :=
  match lines with
  | [] => []
  | line :: rest =>
    let low := ToLower line in
    if HasPrefix low (lit "m=audio") then audio_lines true rest
    else if HasPrefix low (lit "m=") then audio_lines false rest
    else if inAudio then line :: audio_lines true rest
    else audio_lines false rest
  end.

(** The value of an attribute line whose lower-cased form starts with [p]. *)
Definition after (p : string) (line : str) : str := TrimSpace (drop (length (lit p)) line).
Definition has (p : string) (line : str) : bool := HasPrefix (ToLower line) (lit p).

(** ** ICE credentials *)

Fixpoint ice_lines (lines : list str) (ufrag pwd : str) : str * str :=
  match lines with
  | [] => (ufrag, pwd)
  | line :: rest =>
    ice_lines rest (if has "a=ice-ufrag:" line then after "a=ice-ufrag:" line else ufrag)
                   (if has "a=ice-pwd:" line then after "a=ice-pwd:" line else pwd)
  end.

Definition parseIceCredentials (sdpBody : str) (audioSectionOnly : bool) : option (str * str) :=
  let lines := sdp_lines sdpBody in
  let '(ufrag, pwd) :=
    ice_lines (if audioSectionOnly then section_lines (lit "m=audio") false lines else lines) [] [] in
  if bool_decide (ufrag = []) || bool_decide (pwd = []) then None else Some (ufrag, pwd).

Definition ParseAudioIceCredentials (sdpBody : str) : option (str * str) := parseIceCredentials sdpBody true.

Definition ParseAudioIceCredentialsTrickleFragment (sdpBody : str) : option (str * str) :=
  if Contains (ToLower (ReplaceAll sdpBody crlf lf)) (lit "m=audio") then None
  else parseIceCredentials sdpBody false.

Definition SDPHasIceMediaAttributes (sdpBody : str) : bool :=
  let low := ToLower (ReplaceAll sdpBody crlf lf) in
  Contains low (lit "a=candidate:") || Contains low (lit "a=ice-ufrag:")
  || Contains low (lit "a=ice-pwd:") || Contains low (lit "a=ice-options:").

(** ** ICE candidates *)

Definition iceCandidateTypeRank (typ : str) : Z :=
  if bool_decide (typ = lit "host") then 40
  else if bool_decide (typ = lit "srflx") then 30
  else if bool_decide (typ = lit "prflx") then 25
  else if bool_decide (typ = lit "relay") then 20
  else 0.

Record iceRTPPick := mkPick { pk_ip : str; pk_port : Z; pk_typ : str; pk_priority : Z }.

Definition betterICERTPPick (a b : iceRTPPick) : bool :=
  let ra := iceCandidateTypeRank (pk_typ a) in
  let rb := iceCandidateTypeRank (pk_typ b) in
  if negb (ra =? rb) then rb <? ra else pk_priority b <? pk_priority a.

Section ice.
Context (lookupIPAddr : str -> list str).

Definition resolveICEAddr (addr : str) : option str :=
  match ParseIP addr with
  | Some _ => Some addr
  | None =>
    match lookupIPAddr addr with
    | [] => None
    | first :: _ =>
      match list_find (fun ip => To4 ip <> None) (lookupIPAddr addr) with
      | Some (_, ip) => Some (IPString (default [] (To4 ip)))
      | None => Some (IPString first)
      end
    end
  end.

(** The fields before [typ]: component one, UDP, a 32-bit priority, an address
    and a port. *)
Definition candidateFields (hf : list str) (candTyp : str) : option iceRTPPick :=
  match hf with
  | _ :: component :: transport :: priority :: addr :: port :: _ =>
    if negb (bool_decide (component = lit "1")) then None
    else if negb (bool_decide (ToLower transport = lit "udp")) then None
    else match ParseUint 32 priority with
         | None => None
         | Some prio =>
           match Atoi port with
           | None => None
           | Some p =>
             if (p <=? 0) || (65535 <? p) then None
             else match ParseIP addr with
                  | Some _ => Some (mkPick addr p candTyp prio)
                  | None => match resolveICEAddr addr with
                            | Some resolved => Some (mkPick resolved p candTyp prio)
                            | None => None
                            end
                  end
           end
         end
  | _ => None
  end.

(** The slices use an index found in the lower-cased text; out of range they
    panic. *)
Definition parseICECandidateLine (line : str) : outcome (option iceRTPPick) :=
  let line := TrimSpace line in
  if negb (has "a=candidate:" line) then Ret None
  else
    let rest := after "a=candidate:" line in
    match Index (ToLower rest) (lit " typ ") with
    | None => Ret None
    | Some typIdx =>
      if (length rest <? typIdx)%nat then Panic
      else
        let head := TrimSpace (take typIdx rest) in
        if (length rest <? typIdx + 5)%nat then Panic
        else
          match Fields (TrimSpace (drop (typIdx + 5) rest)) with
          | [] => Ret None
          | typ :: _ => Ret (candidateFields (Fields head) (ToLower typ))
          end
    end.

Fixpoint scan_picks (lines : list str) (best : option iceRTPPick) : outcome (option iceRTPPick) :=
  match lines with
  | [] => Ret best
  | line :: rest =>
    let! cand := parseICECandidateLine line in
    scan_picks rest
      (match cand, best with
       | None, _ => best
       | Some c, None => Some c
       | Some c, Some b => if betterICERTPPick c b then Some c else Some b
       end)
  end.

Definition scanICERtpUDP (sdpBody media : str) (sectionOnly : bool) : outcome (option iceRTPPick) :=
  let media := ToLower (TrimSpace media) in
  let lines := sdp_lines sdpBody in
  scan_picks (if sectionOnly then section_lines (lit "m=" ++ media) false lines else lines) None.

Definition parseICERtpUDPCandidateTrickleFragment (sdpBody media : str) : outcome (option iceRTPPick) :=
  let media := ToLower (TrimSpace media) in
  if Contains (ToLower (ReplaceAll sdpBody crlf lf)) (lit "m=" ++ media) then Ret None
  else scanICERtpUDP sdpBody [] false.

Definition shouldPlaceholderMediaEndpoint (ip : str) (port : Z) : bool :=
  if (port =? 9) || (port <=? 0) then true
  else match ParseIP (TrimSpace ip) with
       | Some parsed => IsUnspecified parsed
       | None => false
       end.

Definition known_media (media : str) : bool :=
  bool_decide (media = lit "audio") || bool_decide (media = lit "video") || bool_decide (media = lit "image").

Definition PickMediaICERTPEndpoint (sdpBody media cIP : str) (mPort : Z) : outcome (option iceRTPPick) :=
  if negb (shouldPlaceholderMediaEndpoint cIP mPort) && (0 <? mPort) then Ret None
  else
    let media := ToLower (TrimSpace media) in
    let! found := scanICERtpUDP sdpBody media true in
    match found with
    | Some p => Ret (Some p)
    | None => if known_media media then parseICERtpUDPCandidateTrickleFragment sdpBody media else Ret None
    end.
End ice.

(** ** BUNDLE *)

Fixpoint bundle_mids (lines : list str) : list str :=
  match lines with
  | [] => []
  | line :: rest =>
    if negb (has "a=group:" line) then bundle_mids rest
    else match Fields (after "a=group:" line) with
         | kind :: mids =>
           if bool_decide (mids = []) || negb (EqualFold kind (lit "bundle")) then bundle_mids rest
           else match filter (fun m => m <> []) (map TrimSpace mids) with
                | [] => bundle_mids rest
                | out => out
                end
         | [] => bundle_mids rest
         end
  end.

Definition ParseBundleMIDs (sdpBody : str) : list str := bundle_mids (sdp_lines sdpBody).

Definition containsStringFold (l : list str) (want : str) : bool :=
  existsb (fun s => EqualFold (TrimSpace s) (TrimSpace want)) l.

(** The address of a [c=] line. *)
Definition connectionLine (line : str) : option str :=
  if HasPrefix line (lit "c=") then
    match Fields (drop 2 line) with
    | _ :: _ :: ip :: _ => Some ip
    | _ => None
    end
  else None.

Fixpoint session_c (lines : list str) : str :=
  match lines with
  | [] => []
  | line :: rest =>
    if has "m=" line then []
    else match connectionLine line with Some ip => ip | None => session_c rest end
  end.

Definition parseSessionCBeforeFirstM (body : str) : str := session_c (map TrimSpace (Split body x0a)).

(** [splitSDPMediaSections]: [cur] is the section being collected. *)
Fixpoint split_sections (lines cur : list str) : list str :=
  let flush rest := match cur with [] => rest | _ => GoStrings.Join cur lf :: rest end in
  match lines with
  | [] => flush []
  | line :: rest =>
    if has "m=" line then flush (split_sections rest [line])
    else split_sections rest (match cur with [] => [] | _ => cur ++ [line] end)
  end.

Definition splitSDPMediaSections (body : str) : list str := split_sections (sdp_lines body) [].

Fixpoint mid_line (lines : list str) : str :=
  match lines with
  | [] => []
  | line :: rest => if has "a=mid:" line then after "a=mid:" line else mid_line rest
  end.

Definition extractMidFromSection (section : str) : str := mid_line (map TrimSpace (Split section x0a)).

Definition mediaPortFromMSection (section : str) : Z :=
  match Fields (TrimSpace (hd [] (Split section x0a))) with
  | _ :: p :: _ => default 0 (Atoi p)
  | _ => 0
  end.

(** The address of the last [c=] line. *)
Definition last_c (lines : list str) (ip : str) : str :=
  foldl (fun ip line => default ip (connectionLine line)) ip lines.

Definition connectionIPFromSection (section sessionIP : str) : str :=
  TrimSpace (last_c (map TrimSpace (Split section x0a)) sessionIP).

Fixpoint section_endpoint (sessionIP mid : str) (secs : list str) : option (str * Z) :=
  match secs with
  | [] => None
  | sec :: rest =>
    if negb (EqualFold (TrimSpace (extractMidFromSection sec)) (TrimSpace mid)) then section_endpoint sessionIP mid rest
    else
      let ip := connectionIPFromSection sec sessionIP in
      let port := mediaPortFromMSection sec in
      if negb (bool_decide (ip = [])) && (0 <? port) then Some (ip, port) else section_endpoint sessionIP mid rest
  end.

Definition bundleSectionIPPort (sdpBody mid : str) : option (str * Z) :=
  let body := ReplaceAll sdpBody crlf lf in
  section_endpoint (parseSessionCBeforeFirstM body) mid (splitSDPMediaSections body).

Fixpoint first_media_mid (prefix : str) (secs : list str) : str :=
  match secs with
  | [] => []
  | sec :: rest =>
    if HasPrefix (ToLower (TrimSpace (hd [] (Split sec x0a)))) prefix then extractMidFromSection sec
    else first_media_mid prefix rest
  end.

Definition midForFirstMediaSection (sdpBody media : str) : str :=
  first_media_mid (lit "m=" ++ ToLower (TrimSpace media)) (splitSDPMediaSections (ReplaceAll sdpBody crlf lf)).

Definition ApplyBundleMediaEndpointIfNeeded (sdpBody media ip : str) (port : Z) : str * Z :=
  match ParseBundleMIDs sdpBody with
  | [] => (ip, port)
  | tagMid :: _ =>
    let myMid := midForFirstMediaSection sdpBody media in
    if bool_decide (myMid = []) || negb (containsStringFold (ParseBundleMIDs sdpBody) myMid) then (ip, port)
    else
      match bundleSectionIPPort sdpBody tagMid with
      | None => (ip, port)
      | Some (bip, bport) =>
        let need := (port <=? 0) || (port =? 9) in
        let need := match ParseIP (TrimSpace ip) with
                    | Some pa => if IsUnspecified pa then true else need
                    | None => need
                    end in
        let need := if negb need && negb (EqualFold myMid tagMid) && ((port =? 0) || (port =? 9)) then true else need in
        if need then (bip, bport) else (ip, port)
      end
  end.

(** ** Trickle ICE in JSON *)

(** [trickleICEEnvelope] after decoding.  [env_Candidate] is the raw
    [candidate] field: absent, and what decoding it as a string and as an
    object gives. *)
Record trickleICEEnvelope := mkEnvelope {
  env_Candidates : list str;
  env_Candidate : option (option str * option str);
  env_ICECandidates : list str;
  env_UsernameFragment : str; env_Password : str;
  env_ICEUfrag : str; env_ICEPwd : str;
  env_Ufrag : str; env_Pwd : str }.

Fixpoint firstNonEmpty (vals : list str) : str :=
  match vals with
  | [] => []
  | v :: rest => if bool_decide (TrimSpace v = []) then firstNonEmpty rest else TrimSpace v
  end.

Definition writeOneCandidate (cand : str) : str :=
  let cand := TrimSpace cand in
  if bool_decide (cand = []) then []
  else
    let eol := if HasSuffix cand lf then [] else crlf in
    if has "a=candidate:" cand then cand ++ eol
    else if has "candidate:" cand then lit "a=" ++ cand ++ eol
    else lit "a=candidate:" ++ cand ++ crlf.

(** The [add] closure of [buildSDPFragmentFromTrickle]. *)
Definition addLine (line : str) : str :=
  let line := TrimSpace line in
  if bool_decide (line = []) then [] else if HasSuffix line lf then line else line ++ crlf.

Definition buildSDPFragmentFromTrickle (env : trickleICEEnvelope) : str :=
  let ufrag := firstNonEmpty [env_ICEUfrag env; env_Ufrag env; env_UsernameFragment env] in
  let pwd := firstNonEmpty [env_ICEPwd env; env_Pwd env; env_Password env] in
  (if bool_decide (ufrag = []) then [] else addLine (lit "a=ice-ufrag:" ++ ufrag))
  ++ (if bool_decide (pwd = []) then [] else addLine (lit "a=ice-pwd:" ++ pwd))
  ++ flat_map writeOneCandidate (env_Candidates env)
  ++ flat_map writeOneCandidate (env_ICECandidates env)
  ++ match env_Candidate env with
     | None => []
     | Some (asString, asObject) =>
       match asString with
       | Some ((_ :: _) as s) => writeOneCandidate s
       | _ => match asObject with Some c => writeOneCandidate c | None => [] end
       end
     end.

(** What [json.Unmarshal] makes of a body, as an array and as one envelope. *)
Record json_decoder := mkJson {
  json_array : str -> option (list trickleICEEnvelope);
  json_envelope : str -> option trickleICEEnvelope }.

Definition ParseTrickleICEJSONToSDPFragment (dec : json_decoder) (jsonBody : str) : option str :=
  let jsonBody := TrimSpace jsonBody in
  if bool_decide (jsonBody = []) then Some []
  else match json_array dec jsonBody with
       | Some (env :: _) => Some (buildSDPFragmentFromTrickle env)
       | _ => match json_envelope dec jsonBody with
              | Some env => Some (buildSDPFragmentFromTrickle env)
              | None => None
              end
       end.

Definition EffectiveMediaSDPBody (dec : json_decoder) (msg : Message) : str :=
  match Header (Headers msg) (lit "Content-Type") with
  | None => Body msg
  | Some ct =>
    if bool_decide (TrimSpace (Body msg) = []) then Body msg
    else
      let ctLower := ToLower ct in
      if Contains ctLower (lit "application/trickle-ice+json") || Contains ctLower (lit "trickle-ice+json") then
        match ParseTrickleICEJSONToSDPFragment dec (Body msg) with
        | Some frag => if bool_decide (TrimSpace frag = []) then Body msg else frag
        | None => Body msg
        end
      else Body msg
  end.

(** ** The media endpoint *)

Record Endpoint := mkEndpoint { ep_IP : str; ep_Port : Z; ep_ICECandidateTyp : str }.

Inductive sdp_error := ErrMediaTypeRequired | ErrEndpointNotFound (media : str).

(** The port of an [m=] line, or the one so far. *)
Definition mediaLinePort (line : str) (port : Z) : Z :=
  match Fields line with
  | _ :: p :: _ => default port (Atoi p)
  | _ => port
  end.

Definition endpoint_line (mediaPrefix : str) (acc : str * Z) (line : str) : str * Z :=
  let '(ip, port) := acc in
  if HasPrefix line (lit "c=") then (default ip (connectionLine line), port)
  else if HasPrefix (ToLower line) mediaPrefix then (ip, mediaLinePort line port)
  else acc.

Definition ParseMediaEndpoint (lookupIPAddr : str -> list str) (dec : json_decoder) (msg : Message)
    (fallbackIP mediaType : str) : outcome (result sdp_error Endpoint) :=
  let body := ReplaceAll (EffectiveMediaSDPBody dec msg) crlf lf in
  let mt := ToLower (TrimSpace mediaType) in
  if bool_decide (mt = []) then Ret (Err ErrMediaTypeRequired)
  else
    let '(ip, port) :=
      foldl (endpoint_line (lit "m=" ++ mt ++ lit " ")) (fallbackIP, 0) (map TrimSpace (Split body x0a)) in
    let '(ip, port) := if known_media mt then ApplyBundleMediaEndpointIfNeeded body mt ip port else (ip, port) in
    let! picked := if known_media mt then PickMediaICERTPEndpoint lookupIPAddr body mt ip port else Ret None in
    let '(ip, port, typ) :=
      match picked with Some p => (pk_ip p, pk_port p, pk_typ p) | None => (ip, port, []) end in
    if bool_decide (ip = []) || (port <=? 0) then Ret (Err (ErrEndpointNotFound mt))
    else Ret (Ok (mkEndpoint ip port typ)).

(** ** SRTP *)

Definition SDPHintsSRTP (sdpBody : str) : bool :=
  let low := ToLower (ReplaceAll sdpBody crlf lf) in
  Contains low (lit "rtp/savp") || Contains low (lit "rtp/savpf")
  || existsb (fun line => HasPrefix line (lit "a=crypto:") || HasPrefix line (lit "a=fingerprint:"))
       (map TrimSpace (Split low x0a)).

Definition AudioSectionHasFingerprint (sdpBody : str) : bool :=
  existsb (has "a=fingerprint:") (audio_lines false (sdp_lines sdpBody)).

Definition AudioSectionHasRtcpMux (sdpBody : str) : bool :=
  existsb (fun line => bool_decide (ToLower line = lit "a=rtcp-mux")) (audio_lines false (sdp_lines sdpBody)).

Definition audio_section (sdpBody : str) : list str := section_lines (lit "m=audio") false (sdp_lines sdpBody).

Fixpoint setup_line (lines : list str) : str :=
  match lines with
  | [] => []
  | line :: rest => if has "a=setup:" line then TrimSpace (ToLower (drop 8 line)) else setup_line rest
  end.

Definition ParseAudioDTLSSetup (sdpBody : str) : str := setup_line (audio_section sdpBody).

Inductive srtp_error :=
  | CryptoFields | CryptoNoInline | CryptoBase64 | CryptoSuite (suite : str) | CryptoTooShort (got : nat)
  | ErrNoAudioSDESCrypto
  | FingerprintFields | FingerprintHex | FingerprintLength (algo : str) (got : nat)
  | ErrNoAudioFingerprint.

Definition sdesSuiteKeySaltLen (suite : str) : option (nat * nat) :=
  let s := ToUpper (TrimSpace suite) in
  if bool_decide (s = lit "AES_CM_128_HMAC_SHA1_80") || bool_decide (s = lit "AES_CM_128_HMAC_SHA1_32")
  then Some (16%nat, 14%nat) else None.

(** One [a=crypto] line. *)
Definition cryptoLine (line : str) : result srtp_error (str * str * str) :=
  match Fields (after "a=crypto:" line) with
  | _ :: suite :: ((_ :: _) as params) =>
    let suite := TrimSpace suite in
    match list_find (fun f => has "inline:" f = true) params with
    | None => Err CryptoNoInline
    | Some (_, inlineField) =>
      let v := TrimPrefix (TrimPrefix inlineField (lit "inline:")) (lit "INLINE:") in
      let v := match IndexByte x7c v with Some pipe => take pipe v | None => v end in
      match b64_decode StdEncoding v with
      | None => Err CryptoBase64
      | Some raw =>
        match sdesSuiteKeySaltLen suite with
        | None => Err (CryptoSuite suite)
        | Some (keyLen, saltLen) =>
          if (length raw <? keyLen + saltLen)%nat then Err (CryptoTooShort (length raw))
          else Ok (suite, take keyLen raw, take saltLen (drop keyLen raw))
        end
      end
    end
  | _ => Err CryptoFields
  end.

Definition ParseAudioSDESCrypto (sdpBody : str) : result srtp_error (str * str * str) :=
  match list_find (fun line => has "a=crypto:" line = true) (audio_section sdpBody) with
  | Some (_, line) => cryptoLine line
  | None => Err ErrNoAudioSDESCrypto
  end.

Definition fingerprintLength (algo : str) : nat := if bool_decide (algo = lit "sha-256") then 32 else 48.

Fixpoint fingerprint_lines (lines : list str) : result srtp_error (str * str) :=
  match lines with
  | [] => Err ErrNoAudioFingerprint
  | line :: rest =>
    if negb (has "a=fingerprint:" line) then fingerprint_lines rest
    else match Cut (after "a=fingerprint:" line) x20 with
         | None => Err FingerprintFields
         | Some (a, digestHex) =>
           let a := ToLower (TrimSpace a) in
           if negb (bool_decide (a = lit "sha-256")) && negb (bool_decide (a = lit "sha-384"))
           then fingerprint_lines rest
           else match hex_decode (ReplaceAll (TrimSpace digestHex) (lit ":") []) with
                | None => Err FingerprintHex
                | Some raw =>
                  if (length raw =? fingerprintLength a)%nat then Ok (a, raw)
                  else Err (FingerprintLength a (length raw))
                end
         end
  end.

Definition ParseAudioFingerprint (sdpBody : str) : result srtp_error (str * str) :=
  fingerprint_lines (audio_section sdpBody).

Definition ParseAudioFingerprintSHA256 (sdpBody : str) : result srtp_error str :=
  let? (algo, digest) := ParseAudioFingerprint sdpBody in
  if bool_decide (algo = lit "sha-256") then Ok digest else Err ErrNoAudioFingerprint.

(** * Lemmas *)

(** Slicing an attribute value never leaves the line. *)
Lemma has_length p line : Forall ascii (lit p) -> has p line = true -> (length (lit p) <= length line)%nat.
Proof. apply ToLower_prefix_length. Qed.

Definition one_line (l : str) : Prop := x0a ∉ l.

Lemma Split_Join_lf ls : ls <> [] -> Forall one_line ls -> Split (GoStrings.Join ls lf) x0a = ls.
Proof.
  intros Hn H. induction H as [|l ls Hl _ IH]; [done|].
  destruct ls as [|l' ls]; [by apply Split_none|].
  change (GoStrings.Join (l :: l' :: ls) lf) with (l ++ x0a :: GoStrings.Join (l' :: ls) lf).
  by rewrite Split_segment, IH.
Qed.

Lemma ReplaceAll_crlf ls : ls <> [] -> Forall one_line ls ->
  ReplaceAll (GoStrings.Join ls crlf) crlf lf = GoStrings.Join ls lf.
Proof. intros Hn H. unfold ReplaceAll. by rewrite SplitStr_join. Qed.

Lemma sdp_lines_join ls : ls <> [] -> Forall one_line ls -> sdp_lines (GoStrings.Join ls crlf) = map TrimSpace ls.
Proof. intros Hn H. unfold sdp_lines. by rewrite ReplaceAll_crlf, Split_Join_lf. Qed.

(** ** The best candidate *)

Definition pickOf (lookup : str -> list str) (line : str) : option iceRTPPick :=
  match parseICECandidateLine lookup line with Ret p => p | Panic => None end.

Lemma better_trans a b c : betterICERTPPick a b = true -> betterICERTPPick b c = true -> betterICERTPPick a c = true.
Proof.
  unfold betterICERTPPick. intros H1 H2. repeat case_match; bool_to_prop; try (apply Z.ltb_lt); lia.
Qed.

Lemma not_better_trans a b c :
  betterICERTPPick a b = false -> betterICERTPPick c b = true -> betterICERTPPick a c = false.
Proof.
  unfold betterICERTPPick. intros H1 H2. repeat case_match; bool_to_prop; try (apply Z.ltb_ge); lia.
Qed.

Lemma better_irrefl a : betterICERTPPick a a = false.
Proof. unfold betterICERTPPick. rewrite Z.eqb_refl. simpl. apply Z.ltb_irrefl. Qed.

Lemma better_asym a b : betterICERTPPick a b = true -> betterICERTPPick b a = false.
Proof.
  intros H. destruct (betterICERTPPick b a) eqn:E; [|done]. by rewrite <- (better_irrefl a), (better_trans a b a).
Qed.

(** [best] is the first of the best candidates among [seen]. *)
Definition best_of (picks : list iceRTPPick) (best : option iceRTPPick) : Prop :=
  match best with
  | None => picks = []
  | Some p => exists l r, picks = l ++ p :: r /\
      (forall q, q ∈ l -> betterICERTPPick p q = true) /\ (forall q, q ∈ r -> betterICERTPPick q p = false)
  end.

Lemma best_of_snoc picks best c :
  best_of picks best ->
  best_of (picks ++ [c])
    (match best with None => Some c | Some b => if betterICERTPPick c b then Some c else Some b end).
Proof.
  destruct best as [b|]; simpl.
  - intros (l & r & -> & Hl & Hr). destruct (betterICERTPPick c b) eqn:E.
    + exists (l ++ b :: r), []. split; [by rewrite <- app_assoc|]. split; [|by intros q ?%not_elem_of_nil].
      intros q [Hq|[->|Hq]%elem_of_cons]%elem_of_app; [by eapply better_trans; [|apply Hl]|done|].
      destruct (betterICERTPPick c q) eqn:Eq; [done|].
      specialize (Hr q Hq). exfalso. revert E Eq Hr. unfold betterICERTPPick.
      intros. repeat case_match; bool_to_prop; lia.
    + exists l, (r ++ [c]). split; [by rewrite <- app_assoc|]. split; [done|].
      intros q [Hq | ->%list_elem_of_singleton]%elem_of_app; auto.
  - intros ->. exists [], []. split; [done|]. split; intros q ?%not_elem_of_nil; done.
Qed.

Lemma scan_picks_best lookup lines seen best r :
  best_of seen best -> scan_picks lookup lines best = Ret r -> best_of (seen ++ omap (pickOf lookup) lines) r.
Proof.
  revert seen best. induction lines as [|line lines IH]; intros seen best Hb H; cbn [scan_picks] in H.
  - injection H as <-. simpl. by rewrite app_nil_r.
  - destruct (parseICECandidateLine lookup line) as [cand|] eqn:E; [|done]. cbn [obind] in H.
    assert (omap (pickOf lookup) (line :: lines)
            = match cand with Some c => [c] | None => [] end ++ omap (pickOf lookup) lines) as ->.
    { unfold pickOf at 1. simpl. rewrite E. by destruct cand. }
    rewrite app_assoc. eapply IH; [|exact H].
    destruct cand as [c|]; [|by rewrite app_nil_r]. by apply best_of_snoc.
Qed.

(** The candidate lines a scan looks at. *)
Definition candidate_lines (sdpBody media : str) : list str :=
  section_lines (lit "m=" ++ ToLower (TrimSpace media)) false (sdp_lines sdpBody).

(** Among the usable candidates of the media section, in their order, the
    scan takes the first of the best: better than every earlier one, and none
    of the later ones better than it.  It finds none only when no line of the
    section parses. *)
Theorem ice_candidate_best lookup sdpBody media r :
  scanICERtpUDP lookup sdpBody media true = Ret r ->
  match r with
  | None => forall line, line ∈ candidate_lines sdpBody media -> pickOf lookup line = None
  | Some p => exists l rest, omap (pickOf lookup) (candidate_lines sdpBody media) = l ++ p :: rest /\
      (forall q, q ∈ l -> betterICERTPPick p q = true) /\ (forall q, q ∈ rest -> betterICERTPPick q p = false) /\
      1 <= pk_port p <= 65535
  end.
Proof.
  intros H. apply (scan_picks_best lookup _ []) in H; [|done]. cbn [app] in H.
  fold (candidate_lines sdpBody media) in H. destruct r as [p|]; simpl in H.
  - destruct H as (l & rest & E & Hl & Hr). exists l, rest. do 3 (split; [done|]).
    assert (p ∈ omap (pickOf lookup) (candidate_lines sdpBody media)) as Hp by (rewrite E; set_solver).
    apply list_elem_of_omap in Hp as (line & _ & Hp). unfold pickOf, parseICECandidateLine, candidateFields in Hp.
    repeat case_match; simplify_eq/=; bool_to_prop; lia.
  - intros line Hline. destruct (pickOf lookup line) as [q|] eqn:E; [|done].
    assert (q ∈ omap (pickOf lookup) (candidate_lines sdpBody media)) as Hq by (apply list_elem_of_omap; eauto).
    rewrite H in Hq. by apply not_elem_of_nil in Hq.
Qed.

Definition noDNS : str -> list str := fun _ => [].

Definition demoIceSDP : str :=
  GoStrings.Join (map lit
    ["v=0"; "c=IN IP4 0.0.0.0"; "m=audio 9 UDP/TLS/RTP/SAVPF 0";
     "a=candidate:1 1 udp 100 192.0.2.1 5000 typ relay";
     "a=candidate:2 1 UDP 200 10.0.0.1 4000 typ host generation 0";
     "a=candidate:3 1 udp 200 10.0.0.2 4002 typ host";
     "a=candidate:4 2 udp 900 10.0.0.1 4001 typ host";
     "m=video 9 RTP/AVP 96"; "a=candidate:5 1 udp 999 10.0.0.9 4100 typ host"]%string) crlf.

Definition demoPick : iceRTPPick := mkPick (lit "10.0.0.1") 4000 (lit "host") 200.

Lemma ice_candidate_best_witness :
  scanICERtpUDP noDNS demoIceSDP (lit "audio") true = Ret (Some demoPick) /\
  exists l rest, omap (pickOf noDNS) (candidate_lines demoIceSDP (lit "audio")) = l ++ demoPick :: rest /\
    (forall q, q ∈ l -> betterICERTPPick demoPick q = true) /\
    (forall q, q ∈ rest -> betterICERTPPick q demoPick = false) /\ 1 <= pk_port demoPick <= 65535.
Proof.
  assert (scanICERtpUDP noDNS demoIceSDP (lit "audio") true = Ret (Some demoPick)) as E
    by (vm_compute; reflexivity).
  exact (conj E (ice_candidate_best noDNS demoIceSDP (lit "audio") (Some demoPick) E)).
Defined.

(** ** The endpoint *)

Definition media_prefix (mt : str) : str := lit "m=" ++ mt ++ lit " ".

(** Lines the endpoint depends on. *)
Definition mentions (mt line : str) : bool :=
  HasPrefix (TrimSpace line) (lit "c=") || HasPrefix (ToLower (TrimSpace line)) (media_prefix mt).

Lemma endpoint_fold mt lines acc :
  foldl (endpoint_line (media_prefix mt)) acc (map TrimSpace lines)
  = foldl (endpoint_line (media_prefix mt)) acc (map TrimSpace (filter (fun l => mentions mt l = true) lines)).
Proof.
  revert acc. induction lines as [|l lines IH]; intros acc; [done|].
  destruct (mentions mt l) eqn:E.
  - rewrite filter_cons_True by done. apply IH.
  - rewrite filter_cons_False by congruence. cbn [map foldl]. rewrite IH. f_equal.
    unfold mentions in E. bool_to_prop. unfold endpoint_line. destruct acc. by rewrite H, H0.
Qed.

(** The connection and media lines of an offer. *)
Definition c_line (v4 : str) : str := GoStrings.Join [lit "c=IN"; lit "IP4"; dotted v4] (lit " ").
Definition m_line (mt : str) (port : Z) (fmts : list str) : str :=
  GoStrings.Join ((lit "m=" ++ mt) :: Itoa port :: fmts) (lit " ").

Lemma known_media_cases mt : known_media mt = true -> mt = lit "audio" \/ mt = lit "video" \/ mt = lit "image".
Proof. unfold known_media. rewrite !orb_true_iff, !bool_decide_eq_true. tauto. Qed.

Lemma known_media_word mt : known_media mt = true -> word (lit "m=" ++ mt) /\ ToLower (TrimSpace mt) = mt /\ mt <> [].
Proof. intros [-> | [-> | ->]]%known_media_cases; (split; [split; [done|by repeat constructor]|by vm_compute]). Qed.

Lemma dotted_word a b c d : word (dotted [a; b; c; d]).
Proof.
  rewrite dotted_quad. split; [apply octet_nonempty|].
  repeat first [apply Forall_app; split; [apply Itoa_plain|] | apply Forall_cons; split; [done|]]. constructor.
Qed.

Lemma Itoa_word z : word (Itoa z).
Proof. split; [apply Itoa_nonempty|apply Itoa_plain]. Qed.

Lemma m_line_endpoint mt port fmts ip port' :
  known_media mt = true -> in_int64 port = true -> Forall word fmts ->
  endpoint_line (media_prefix mt) (ip, port') (TrimSpace (m_line mt port fmts)) = (ip, port).
Proof.
  intros Hk Hp Hf. destruct (known_media_word mt Hk) as (Hw & _ & _).
  assert (Forall word ((lit "m=" ++ mt) :: Itoa port :: fmts)) as Hws
    by (constructor; [done|]; constructor; [apply Itoa_word|done]).
  unfold m_line. change (lit " ") with [x20]. rewrite words_trimmed by done.
  unfold endpoint_line, mediaLinePort. rewrite Fields_words by done.
  rewrite Atoi_Itoa by done. cbn [default].
  rewrite Join_cons by done.
  assert (HasPrefix (((lit "m=" ++ mt)) ++ [x20] ++ GoStrings.Join (Itoa port :: fmts) [x20]) (lit "c=") = false) as -> by done.
  assert (HasPrefix (ToLower ((lit "m=" ++ mt) ++ [x20] ++ GoStrings.Join (Itoa port :: fmts) [x20])) (media_prefix mt) = true) as ->; [|done].
  destruct (known_media_cases mt Hk) as [-> | [-> | ->]]; rewrite app_assoc, ToLower_app by (by repeat constructor);
    apply HasPrefix_spec; eexists; done.
Qed.

Lemma c_line_endpoint mt a b c d ip port :
  endpoint_line (media_prefix mt) (ip, port) (TrimSpace (c_line [a; b; c; d])) = (dotted [a; b; c; d], port).
Proof.
  pose proof (dotted_word a b c d) as Hd. unfold c_line. change (lit " ") with [x20].
  rewrite words_trimmed by (done || (repeat (constructor; [by (split; [done|repeat constructor])|]); by constructor)).
  unfold endpoint_line, connectionLine. rewrite !Join_cons by done.
  assert (forall t, HasPrefix (lit "c=IN" ++ t) (lit "c=") = true) as Hp by done. rewrite Hp.
  change (drop 2 (lit "c=IN" ++ [x20] ++ lit "IP4" ++ [x20] ++ GoStrings.Join [dotted [a; b; c; d]] [x20]))
    with (GoStrings.Join [lit "IN"; lit "IP4"; dotted [a; b; c; d]] [x20]).
  rewrite Fields_words; [done|].
  repeat (constructor; [by (split; [done|repeat constructor])|]). by constructor.
Qed.

Lemma placeholder_dotted a b c d port :
  [a; b; c; d] <> replicate 4 x00 -> 0 < port -> port <> 9 ->
  shouldPlaceholderMediaEndpoint (dotted [a; b; c; d]) port = false.
Proof.
  intros Hz Hp H9. unfold shouldPlaceholderMediaEndpoint.
  rewrite (proj2 (Z.eqb_neq _ _) H9), (proj2 (Z.leb_gt _ _) Hp). cbn [orb].
  rewrite Forall_plain_trimmed by apply dotted_word. rewrite ParseIP_dotted.
  unfold IsUnspecified. apply orb_false_iff. split; apply bool_decide_eq_false;
    [by intros H%(f_equal (fun l => nth 10 l x00))|].
  change (To4 (mapped_prefix ++ [a; b; c; d])) with (Some [a; b; c; d]). congruence.
Qed.

(** A usable address is not replaced by the one of the bundle or by ICE. *)
Lemma bundle_keeps body mt ip port :
  shouldPlaceholderMediaEndpoint ip port = false -> ApplyBundleMediaEndpointIfNeeded body mt ip port = (ip, port).
Proof.
  unfold shouldPlaceholderMediaEndpoint, ApplyBundleMediaEndpointIfNeeded. intros H.
  destruct ((port =? 9) || (port <=? 0)) eqn:Ep; [done|]. apply orb_false_iff in Ep as [E9 E0].
  destruct (ParseBundleMIDs body) as [|tag mids]; [done|]. cbv zeta.
  destruct (bool_decide _ || negb _); [done|].
  destruct (bundleSectionIPPort body tag) as [[bip bport]|]; [|done].
  rewrite E9, E0. cbn [orb]. assert (port =? 0 = false) as Ez by (bool_to_prop; apply Z.eqb_neq; lia).
  rewrite Ez, andb_false_r. destruct (ParseIP (TrimSpace ip)) as [pa|]; [|done]. by rewrite H.
Qed.

Lemma ice_keeps lookup body mt ip port :
  shouldPlaceholderMediaEndpoint ip port = false -> PickMediaICERTPEndpoint lookup body mt ip port = Ret None.
Proof.
  intros H. unfold PickMediaICERTPEndpoint. rewrite H. cbn [negb andb].
  unfold shouldPlaceholderMediaEndpoint in H. destruct ((port =? 9) || (port <=? 0)) eqn:E; [done|].
  bool_to_prop. by rewrite (proj2 (Z.ltb_lt _ _)).
Qed.

(** An offer whose one connection line names an IPv4 address other than
    0.0.0.0 and whose one line for the medium names a port other than 0 and 9
    yields exactly that endpoint, in whatever order the two lines come, with
    any other lines around them, and whatever candidates and bundles the other
    lines hold. *)
Theorem offer_endpoint_roundtrip lookup dec msg fallback mt a b c d port fmts lines :
  known_media mt = true -> [a; b; c; d] <> replicate 4 x00 -> 0 < port <= 65535 -> port <> 9 -> Forall word fmts ->
  lines <> [] -> Forall one_line lines -> EffectiveMediaSDPBody dec msg = GoStrings.Join lines crlf ->
  filter (fun l => mentions mt l = true) lines = [c_line [a; b; c; d]; m_line mt port fmts] \/
  filter (fun l => mentions mt l = true) lines = [m_line mt port fmts; c_line [a; b; c; d]] ->
  ParseMediaEndpoint lookup dec msg fallback mt = Ret (Ok (mkEndpoint (dotted [a; b; c; d]) port [])).
Proof.
  intros Hk Hz Hp H9 Hf Hn Hl Hb Hlines. destruct (known_media_word mt Hk) as (_ & Hmt & Hne).
  unfold ParseMediaEndpoint. rewrite Hb, ReplaceAll_crlf, Split_Join_lf by done.
  rewrite Hmt, bool_decide_eq_false_2 by done. fold (media_prefix mt). rewrite endpoint_fold.
  assert (in_int64 port = true) as Hi by (unfold in_int64; rewrite andb_true_iff, !Z.leb_le; unfold int64_min, int64_max; lia).
  assert (foldl (endpoint_line (media_prefix mt)) (fallback, 0)
    (map TrimSpace (filter (fun l => mentions mt l = true) lines)) = (dotted [a; b; c; d], port)) as ->.
  { destruct Hlines as [-> | ->]; cbn [map foldl]; by rewrite ?c_line_endpoint, m_line_endpoint, ?c_line_endpoint. }
  pose proof (placeholder_dotted a b c d port Hz ltac:(lia) H9) as Hpl.
  rewrite Hk, bundle_keeps, ice_keeps by done. cbn [obind].
  rewrite bool_decide_eq_false_2 by apply dotted_word. by rewrite (proj2 (Z.leb_gt _ _)) by lia.
Qed.

Definition noJSON : json_decoder := mkJson (fun _ => None) (fun _ => None).

Definition sdpMessage (body : str) : Message := mkMessage [] [] [] 200 [] [] body [].

Definition demoOffer : list str :=
  map lit ["v=0"; "o=u 1 1 IN IP4 10.0.0.5"; "s=-"; "c=IN IP4 10.0.0.5"; "t=0 0"; "m=audio 4000 RTP/AVP 0 101";
           "a=rtpmap:0 PCMU/8000"; "a=candidate:1 1 udp 1 192.0.2.9 9000 typ host"; "m=video 9 RTP/AVP 96"; ""]%string.

Lemma offer_endpoint_roundtrip_witness :
  ParseMediaEndpoint noDNS noJSON (sdpMessage (GoStrings.Join demoOffer crlf)) (lit "127.0.0.1") (lit "audio")
  = Ret (Ok (mkEndpoint (dotted [x0a; x00; x00; x05]) 4000 [])).
Proof.
  apply (offer_endpoint_roundtrip noDNS noJSON _ _ _ x0a x00 x00 x05 4000 [lit "RTP/AVP"; lit "0"; lit "101"] demoOffer).
  - reflexivity.
  - discriminate.
  - lia.
  - lia.
  - repeat (constructor; [split; [discriminate|repeat constructor]|]). constructor.
  - discriminate.
  - apply (bool_decide_eq_true_1 (Forall (fun l => x0a ∉ l) demoOffer)). vm_compute. reflexivity.
  - vm_compute. reflexivity.
  - left. vm_compute. reflexivity.
Defined.

(** With two media sections that have connection lines of their own, audio
    goes to the address of the last one, here the video section's. *)
Theorem audio_takes_last_address :
  let body := GoStrings.Join (map lit
    ["v=0"; "m=audio 4000 RTP/AVP 0"; "c=IN IP4 10.0.0.5"; "m=video 5000 RTP/AVP 96"; "c=IN IP4 10.0.0.6"]%string) crlf in
  ParseMediaEndpoint noDNS noJSON (sdpMessage body) [] (lit "audio") = Ret (Ok (mkEndpoint (lit "10.0.0.6") 4000 [])).
Proof. vm_compute. reflexivity. Qed.

(** ** Slices out of range *)

Lemma Forall_TrimSpace (P : byte -> Prop) s : Forall P s -> Forall P (TrimSpace s).
Proof.
  destruct (TrimSpace_infix s) as (p & q & E). rewrite E at 1. intros H.
  apply Forall_app in H as [_ H]. by apply Forall_app in H as [H _].
Qed.

Lemma Forall_Split (P : byte -> Prop) s c : Forall P s -> Forall (Forall P) (Split s c).
Proof.
  induction 1 as [|b s Hb _ IH]; [by repeat constructor|]. cbn [Split].
  destruct (beqb b c); [by constructor|]. destruct (Split s c); [by repeat constructor|].
  inversion IH; subst. by repeat constructor.
Qed.

Lemma Forall_SplitStr (P : byte -> Prop) fuel s sep : Forall P s -> Forall (Forall P) (SplitStr_fuel fuel s sep).
Proof.
  revert s. induction fuel as [|n IH]; intros s H; [by repeat constructor|]. cbn [SplitStr_fuel].
  destruct (Index s sep) as [i|]; [|by repeat constructor].
  constructor; [by apply Forall_take|]. by apply IH, Forall_drop.
Qed.

Lemma Forall_Join (P : byte -> Prop) ls sep : Forall (Forall P) ls -> Forall P sep -> Forall P (GoStrings.Join ls sep).
Proof.
  intros H Hs. induction H as [|l ls Hl _ IH]; [by constructor|]. destruct ls; [done|].
  rewrite Join_cons by done. by repeat (apply Forall_app; split).
Qed.

Lemma ascii_lines body : Forall ascii body -> Forall (Forall ascii) (sdp_lines body).
Proof.
  intros H. unfold sdp_lines. apply Forall_map, (Forall_impl (Forall ascii)); [|intros; by apply Forall_TrimSpace].
  apply Forall_Split. unfold ReplaceAll. apply Forall_Join; [by apply Forall_SplitStr|by repeat constructor].
Qed.

Lemma candidate_ascii lookup line : Forall ascii line -> parseICECandidateLine lookup line <> Panic.
Proof.
  intros H. unfold parseICECandidateLine. cbv zeta. destruct (negb _); [done|].
  assert (Forall ascii (after "a=candidate:" (TrimSpace line))) as Hr
    by (unfold after; by apply Forall_TrimSpace, Forall_drop, Forall_TrimSpace).
  revert Hr. generalize (after "a=candidate:" (TrimSpace line)). intros rest Hr.
  destruct (Index (ToLower rest) (lit " typ ")) as [i|] eqn:E; [|done].
  apply Index_Some in E as (t & E & _). apply (f_equal length) in E.
  rewrite !length_app, length_take, ToLower_length in E by done. change (length (lit " typ ")) with 5%nat in E.
  rewrite !(proj2 (Nat.ltb_ge _ _)) by lia. by case_match.
Qed.

Lemma section_lines_incl P prefix b lines : Forall P lines -> Forall P (section_lines prefix b lines).
Proof.
  intros H. revert b. induction H as [|l ls Hl _ IH]; intros b; [constructor|]. cbn [section_lines].
  repeat case_match; auto using Forall_nil_2, Forall_cons_2.
Qed.

Lemma scan_picks_ascii lookup lines best : Forall (Forall ascii) lines -> scan_picks lookup lines best <> Panic.
Proof.
  intros H. revert best. induction H as [|l ls Hl _ IH]; intros best; [done|]. cbn [scan_picks].
  pose proof (candidate_ascii lookup l Hl) as Hc. destruct (parseICECandidateLine lookup l) as [cand|]; [apply IH|done].
Qed.

Lemma scan_ascii lookup body media b : Forall ascii body -> scanICERtpUDP lookup body media b <> Panic.
Proof.
  intros H. apply scan_picks_ascii. destruct b; [apply section_lines_incl|]; by apply ascii_lines.
Qed.

(** A session description in ASCII never makes the endpoint parser panic. *)
Theorem ascii_sdp_never_panics lookup dec msg fallback mt :
  Forall ascii (EffectiveMediaSDPBody dec msg) -> ParseMediaEndpoint lookup dec msg fallback mt <> Panic.
Proof.
  intros H. unfold ParseMediaEndpoint. cbv zeta. case_match; [done|].
  assert (Forall ascii (ReplaceAll (EffectiveMediaSDPBody dec msg) crlf lf)) as Hb
    by (apply Forall_Join; [by apply Forall_SplitStr|by repeat constructor]).
  revert Hb. generalize (ReplaceAll (EffectiveMediaSDPBody dec msg) crlf lf). intros body Hb.
  destruct (foldl _ _ _) as [ip port].
  assert (forall p, (if known_media (ToLower (TrimSpace mt))
     then PickMediaICERTPEndpoint lookup body (ToLower (TrimSpace mt)) (fst p) (snd p) else Ret None) <> Panic) as Hp.
  { intros [i q]. cbn [fst snd]. case_match; [|done]. unfold PickMediaICERTPEndpoint. case_match; [done|].
    pose proof (scan_ascii lookup body (ToLower (TrimSpace (ToLower (TrimSpace mt)))) true Hb).
    destruct (scanICERtpUDP _ _ _ _) as [[]|]; [done| |done]. cbn [obind]. case_match; [|done].
    unfold parseICERtpUDPCandidateTrickleFragment. case_match; [done|]. by apply scan_ascii. }
  destruct (if known_media _ then ApplyBundleMediaEndpointIfNeeded _ _ _ _ else _) as [ip' port'].
  specialize (Hp (ip', port')). cbn [fst snd] in Hp.
  destruct (if known_media _ then PickMediaICERTPEndpoint _ _ _ _ _ else _) as [[]|]; [..|done];
    cbn [obind]; by case_match.
Qed.

Lemma ascii_sdp_never_panics_witness :
  ParseMediaEndpoint noDNS noJSON (sdpMessage demoIceSDP) [] (lit "audio") <> Panic.
Proof.
  apply ascii_sdp_never_panics. apply (bool_decide_eq_true_1 (Forall (fun b => b2z b < 128) demoIceSDP)).
  vm_compute. reflexivity.
Defined.

(** A candidate line with letters whose lower-case form is longer in UTF-8
    (here seven times U+023A): the index of the type in the lower-cased line
    lies beyond the end of the line, and slicing there panics. *)
Theorem candidate_line_panics :
  let stroke := flat_map encode_rune (replicate 7 570) in
  let body := GoStrings.Join [lit "m=audio 9 RTP/AVP 0"; lit "a=candidate:" ++ stroke ++ lit " typ x"] crlf in
  ParseMediaEndpoint noDNS noJSON (sdpMessage body) [] (lit "audio") = Panic.
Proof. vm_compute. reflexivity. Qed.

(** ** Keys *)

(** Lines before the first audio line, and lines inside its section that do
    not carry the attribute looked for. *)
Definition before_audio (l : str) : Prop := has "m=audio" (TrimSpace l) = false.
Definition within_audio (p : string) (l : str) : Prop :=
  has "m=" (TrimSpace l) = false /\ has p (TrimSpace l) = false.

Lemma section_skip pre rest : Forall before_audio pre ->
  section_lines (lit "m=audio") false (map TrimSpace pre ++ rest) = section_lines (lit "m=audio") false rest.
Proof.
  unfold before_audio, has. induction 1 as [|l pre Hl _ IH]; [done|]. cbn [map app section_lines].
  rewrite Hl, IH. by case_match.
Qed.

Lemma has_weaken p q l : HasPrefix (lit p) (lit q) = true -> has p l = true -> has q l = true.
Proof. unfold has. rewrite !HasPrefix_spec. intros [t ->] [u ->]. exists (t ++ u). by rewrite <- app_assoc. Qed.

Lemma section_inside ls rest : Forall (fun l => has "m=" (TrimSpace l) = false) ls ->
  section_lines (lit "m=audio") true (map TrimSpace ls ++ rest)
  = map TrimSpace ls ++ section_lines (lit "m=audio") true rest.
Proof.
  induction 1 as [|l ls Hl _ IH]; [done|]. cbn [map app section_lines].
  assert (HasPrefix (ToLower (TrimSpace l)) (lit "m=audio") = false) as ->.
  { destruct (HasPrefix _ _) eqn:E; [|done]. by rewrite (has_weaken "m=audio" "m=") in Hl. }
  unfold has in Hl. by rewrite Hl, IH.
Qed.

(** The attribute lines of the first audio section, up to and with a given
    line, when the lines before it are neither media lines nor of its kind. *)
Lemma audio_section_upto pre audio mid line post :
  Forall one_line (pre ++ [audio] ++ mid ++ [line] ++ post) -> Forall before_audio pre ->
  has "m=audio" (TrimSpace audio) = true -> Forall (fun l => has "m=" (TrimSpace l) = false) mid ->
  has "m=" (TrimSpace line) = false ->
  exists rest, audio_section (GoStrings.Join (pre ++ [audio] ++ mid ++ [line] ++ post) crlf)
    = map TrimSpace mid ++ TrimSpace line :: rest.
Proof.
  intros Hl Hpre Ha Hmid Hline. unfold audio_section. rewrite sdp_lines_join by (done || by destruct pre).
  rewrite !map_app, section_skip by done. cbn [map app section_lines]. unfold has in Ha. rewrite Ha.
  rewrite section_inside by done. eexists. f_equal.
  change (TrimSpace line :: map TrimSpace post) with (map TrimSpace [line] ++ map TrimSpace post).
  by rewrite section_inside by by repeat constructor.
Qed.

Lemma list_find_skip {A} (P : A -> Prop) `{forall x, Decision (P x)} l x r :
  Forall (fun y => ~ P y) l -> P x -> exists i, list_find P (l ++ x :: r) = Some (i, x).
Proof.
  intros Hl Hx. exists (length l). apply list_find_Some. split; [by rewrite list_lookup_middle|].
  split; [done|]. intros j y Hj Hlt. rewrite lookup_app_l in Hj by done. by eapply Forall_lookup_1 in Hl.
Qed.

(** An [a=crypto] line of RFC 4568. *)
Definition crypto_line (tag suite key salt life : str) : str :=
  GoStrings.Join [lit "a=crypto:" ++ tag; suite; lit "inline:" ++ b64_encode StdEncoding (key ++ salt) ++ life] (lit " ").

Definition sdes_suite (s : str) : Prop := s = lit "AES_CM_128_HMAC_SHA1_80" \/ s = lit "AES_CM_128_HMAC_SHA1_32".

(** The optional lifetime and MKI after the key. *)
Definition key_suffix (life : str) : Prop :=
  Forall (fun b => plain b = true) life /\ (life = [] \/ exists r, life = x7c :: r).

Lemma b64_words s : Forall (fun b => plain b = true) (b64_encode StdEncoding s) /\ x7c ∉ b64_encode StdEncoding s
  /\ x3a ∉ b64_encode StdEncoding s.
Proof.
  pose proof (b64_encode_text s) as H. split_and!.
  - eapply Forall_impl; [exact H|]. intros c Hc. unfold b64_text in Hc. by bool_to_prop.
  - intros Hin. by eapply Forall_forall in H; [|exact Hin].
  - intros Hin. by eapply Forall_forall in H; [|exact Hin].
Qed.

Lemma crypto_line_words tag suite key salt life : word tag -> sdes_suite suite -> key_suffix life ->
  Forall word [tag; suite; lit "inline:" ++ b64_encode StdEncoding (key ++ salt) ++ life].
Proof.
  intros Ht Hs [Hl _]. repeat constructor; try apply Ht; try done.
  - by destruct Hs as [-> | ->].
  - by destruct Hs as [-> | ->]; repeat constructor.
  - apply Forall_app. split; [apply b64_words|done].
Qed.

Lemma crypto_line_parses tag suite key salt life :
  word tag -> sdes_suite suite -> key_suffix life -> length key = 16%nat -> length salt = 14%nat ->
  cryptoLine (crypto_line tag suite key salt life) = Ok (suite, key, salt).
Proof.
  intros Ht Hs Hlife Hk Hsl. pose proof (crypto_line_words tag suite key salt life Ht Hs Hlife) as Hw.
  unfold cryptoLine, crypto_line, after. rewrite Join_cons by done.
  rewrite <- app_assoc. rewrite drop_app_length. change (lit " ") with [x20].
  rewrite <- Join_cons, words_trimmed, Fields_words by done.
  assert (TrimSpace suite = suite) as -> by by destruct Hs as [-> | ->].
  destruct (list_find_skip (fun f => has "inline:" f = true) [] (lit "inline:" ++ b64_encode StdEncoding (key ++ salt) ++ life) [])
    as [i Hi]; [constructor| |].
  { unfold has. rewrite ToLower_app by by repeat constructor. apply HasPrefix_spec. by eexists. }
  cbn [app] in Hi. cbv iota beta zeta. rewrite Hi.
  destruct (b64_words (key ++ salt)) as (_ & Hpipe & Hcolon).
  assert (TrimPrefix (TrimPrefix (lit "inline:" ++ b64_encode StdEncoding (key ++ salt) ++ life) (lit "inline:"))
            (lit "INLINE:") = b64_encode StdEncoding (key ++ salt) ++ life) as ->.
  { unfold TrimPrefix at 2. rewrite HasPrefix_app, drop_app_length. unfold TrimPrefix. destruct (HasPrefix _ _) eqn:E; [|done]. exfalso. apply HasPrefix_spec in E as [t E].
    destruct (key ++ salt) as [|a [|b [|c [|d [|e [|f r]]]]]] eqn:Eks;
      try (apply (f_equal length) in Eks; rewrite length_app in Eks; simpl in Eks; lia).
    cbn [b64_encode] in E, Hcolon. cbn [app] in E. injection E as _ _ _ _ _ _ Hc _. set_solver. }
  assert (match IndexByte x7c (b64_encode StdEncoding (key ++ salt) ++ life) with
          | Some pipe => take pipe (b64_encode StdEncoding (key ++ salt) ++ life)
          | None => b64_encode StdEncoding (key ++ salt) ++ life
          end = b64_encode StdEncoding (key ++ salt)) as ->.
  { destruct Hlife as [_ [-> | [r ->]]].
    - rewrite app_nil_r. by rewrite (proj2 (IndexByte_None _ _) Hpipe).
    - rewrite IndexByte_app by done. apply take_app_length. }
  rewrite b64_decode_encode.
  assert (sdesSuiteKeySaltLen suite = Some (16%nat, 14%nat)) as -> by by destruct Hs as [-> | ->].
  rewrite length_app, Hk, Hsl. cbv iota beta. change (16 + 14 <? 16 + 14)%nat with false. cbv iota.
  by rewrite take_app_length', drop_app_length', (firstn_all2 salt) by lia.
Qed.

(** The master key and salt another party announces in an [a=crypto] line
    of the first audio section are recovered, whatever the other lines of the
    description, the tag and the lifetime are. *)
Theorem sdes_key_roundtrip pre audio mid post tag suite key salt life :
  word tag -> sdes_suite suite -> key_suffix life -> length key = 16%nat -> length salt = 14%nat ->
  Forall one_line (pre ++ [audio] ++ mid ++ [crypto_line tag suite key salt life] ++ post) ->
  Forall before_audio pre -> has "m=audio" (TrimSpace audio) = true -> Forall (within_audio "a=crypto:") mid ->
  ParseAudioSDESCrypto (GoStrings.Join (pre ++ [audio] ++ mid ++ [crypto_line tag suite key salt life] ++ post) crlf)
  = Ok (suite, key, salt).
Proof.
  intros Ht Hs Hlife Hk Hsl Hl Hpre Ha Hmid.
  assert (TrimSpace (crypto_line tag suite key salt life) = crypto_line tag suite key salt life) as Htrim.
  { apply words_trimmed; [|done]. pose proof (crypto_line_words tag suite key salt life Ht Hs Hlife) as Hw.
    inversion Hw as [|? ? [Hn Hp] Hw']; subst. constructor; [|done].
    split; [done|]. apply Forall_app. by split; [repeat constructor|]. }
  assert (forall p, has p (crypto_line tag suite key salt life)
    = HasPrefix (lit "a=crypto:" ++ ToLower (GoStrings.Join [tag; suite; lit "inline:" ++ b64_encode StdEncoding (key ++ salt) ++ life] [x20])) (lit p)) as Hhas.
  { intros p. unfold has, crypto_line. change (lit " ") with [x20]. rewrite Join_cons, <- app_assoc by done.
    rewrite ToLower_app by by repeat constructor. done. }
  destruct (audio_section_upto pre audio mid (crypto_line tag suite key salt life) post) as [rest E]; try done.
  { eapply Forall_impl; [exact Hmid|]. by intros l []. }
  { by rewrite Htrim, Hhas. }
  unfold ParseAudioSDESCrypto. rewrite E, Htrim.
  destruct (list_find_skip (fun l => has "a=crypto:" l = true) (map TrimSpace mid) (crypto_line tag suite key salt life) rest)
    as [i Hi].
  { apply Forall_map. eapply Forall_impl; [exact Hmid|]. intros l [_ H]. cbn beta. by rewrite H. }
  { by rewrite Hhas, HasPrefix_app. }
  rewrite Hi. by apply crypto_line_parses.
Qed.

Definition demoKey : str := lit "0123456789abcdef".
Definition demoSalt : str := lit "ABCDEFGHIJKLMN".

Lemma sdes_key_roundtrip_witness :
  ParseAudioSDESCrypto (GoStrings.Join ([lit "v=0"; lit "m=video 5000 RTP/SAVP 96"] ++ [lit "M=Audio 4000 RTP/SAVP 0"]
    ++ [lit "a=rtpmap:0 PCMU/8000"]
    ++ [crypto_line (lit "1") (lit "AES_CM_128_HMAC_SHA1_80") demoKey demoSalt (lit "|2^20|1:4")] ++ [[]]) crlf)
  = Ok (lit "AES_CM_128_HMAC_SHA1_80", demoKey, demoSalt).
Proof.
  apply sdes_key_roundtrip.
  - split; [discriminate|repeat constructor].
  - left. reflexivity.
  - split; [repeat constructor|right; by eexists].
  - reflexivity.
  - reflexivity.
  - apply (bool_decide_eq_true_1 (Forall (fun l => x0a ∉ l) _)). vm_compute. reflexivity.
  - repeat constructor.
  - reflexivity.
  - repeat constructor.
Defined.

(** ** Certificate fingerprints *)

Lemma SplitStr_byte ls c fuel : ls <> [] -> Forall (fun l => c ∉ l) ls -> (length (GoStrings.Join ls [c]) <= fuel)%nat ->
  SplitStr_fuel fuel (GoStrings.Join ls [c]) [c] = ls.
Proof.
  intros Hn H. revert fuel. induction H as [|l ls Hl Hls IH]; intros fuel Hf; [done|].
  assert (forall s t i, c ∉ s -> Index s [c] = Some i -> t = i -> False) as Hno.
  { intros s t i Hs (u & E & _)%Index_Some _. apply Hs. rewrite E. set_solver. }
  destruct ls as [|l' ls].
  - change (GoStrings.Join [l] [c]) with l in *. destruct fuel; [done|]. cbn [SplitStr_fuel].
    destruct (Index l [c]) as [i|] eqn:E; [|done]. exfalso. by eapply Hno.
  - rewrite Join_cons in Hf |- * by done. rewrite !length_app in Hf. change (length [c]) with 1%nat in Hf.
    destruct fuel as [|fuel]; [lia|].
    cbn [SplitStr_fuel].
    assert (Index (l ++ [c] ++ GoStrings.Join (l' :: ls) [c]) [c] = Some (length l)) as ->.
    { clear -Hl. induction l as [|x l IH]; cbn [app Index HasPrefix length].
      - by rewrite beqb_refl.
      - assert (beqb x c = false) as -> by (apply beqb_neq; set_solver). cbn [andb].
        cbn [app] in IH. by rewrite IH by set_solver. }
    rewrite take_app_length. change (length [c]) with 1%nat. rewrite drop_app_add.
    rewrite IH; [done|done|lia].
Qed.

(** A digest as RFC 8122 writes it. *)
Definition fingerprint_text (digest : str) : str := GoStrings.Join (map hex_pair digest) (lit ":").
Definition fingerprint_line (algo digest : str) : str :=
  GoStrings.Join [lit "a=fingerprint:" ++ algo; fingerprint_text digest] (lit " ").

Lemma hex_pair_ok b : word (hex_pair b) /\ x3a ∉ hex_pair b.
Proof.
  assert (forallb (fun c => plain c && negb (beqb c x3a)) (hex_pair b) = true) as H by by destruct b.
  rewrite forallb_forall in H. split.
  - split; [done|]. apply Forall_forall. intros x Hx%list_elem_of_In%H. by bool_to_prop.
  - intros Hx%list_elem_of_In%H. done.
Qed.

Lemma fingerprint_text_decodes digest :
  hex_decode (ReplaceAll (fingerprint_text digest) (lit ":") []) = Some digest.
Proof.
  assert (hex_decode (GoStrings.Join (map hex_pair digest) []) = Some digest) as E.
  { induction digest as [|b digest IH]; [done|]. destruct digest as [|b' digest].
    - change (GoStrings.Join (map hex_pair [b]) []) with (hex_pair b). rewrite <- (app_nil_r (hex_pair b)).
      by rewrite hex_pair_decodes.
    - cbn [map]. cbn [map] in IH. rewrite Join_cons by done. cbn [app]. by rewrite hex_pair_decodes, IH. }
  destruct digest as [|b digest]; [done|]. unfold ReplaceAll, SplitStr, fingerprint_text.
  change (lit ":") with [x3a]. rewrite SplitStr_byte; [done|done| |done].
  apply Forall_map, Forall_true. intros x. apply hex_pair_ok.
Qed.

Lemma fingerprint_text_word digest : digest <> [] -> word (fingerprint_text digest).
Proof.
  intros Hn. unfold fingerprint_text. split.
  - destruct digest as [|b [|b' digest]]; [done..|]. cbn [map]. by rewrite Join_cons by done.
  - apply Forall_Join; [|by repeat constructor]. apply Forall_map, Forall_true. intros b. apply hex_pair_ok.
Qed.

Definition fingerprint_algo (algo : str) (digest : str) : Prop :=
  (algo = lit "sha-256" /\ length digest = 32%nat) \/ (algo = lit "sha-384" /\ length digest = 48%nat).

Lemma fingerprint_line_shape algo digest : fingerprint_algo algo digest ->
  TrimSpace (fingerprint_line algo digest) = fingerprint_line algo digest /\
  has "a=fingerprint:" (fingerprint_line algo digest) = true /\ has "m=" (fingerprint_line algo digest) = false /\
  after "a=fingerprint:" (fingerprint_line algo digest) = algo ++ [x20] ++ fingerprint_text digest.
Proof.
  intros Ha. assert (digest <> []) as Hn by (destruct Ha as [[_ H]|[_ H]]; by destruct digest).
  pose proof (fingerprint_text_word digest Hn) as Hw.
  assert (word algo) as Hwa by (destruct Ha as [[-> _]|[-> _]]; (split; [done|by repeat constructor])).
  assert (word (lit "a=fingerprint:" ++ algo)) as Hwp
    by (split; [done|]; apply Forall_app; split; [by repeat constructor|apply Hwa]).
  unfold fingerprint_line. change (lit " ") with [x20]. 
  assert (forall f, word f -> Forall word [f; fingerprint_text digest]) as Hws by (intros f Hf; auto using Forall_cons_2, Forall_nil_2).
  split; [by apply words_trimmed; [apply Hws|]|].
  rewrite Join_cons, <- app_assoc by done. unfold has, after.
  rewrite ToLower_app by by repeat constructor. split; [apply HasPrefix_spec; by eexists|]. split; [done|].
  rewrite drop_app_length.
  change (algo ++ [x20] ++ GoStrings.Join [fingerprint_text digest] [x20])
    with (GoStrings.Join [algo; fingerprint_text digest] [x20]).
  by apply words_trimmed; [apply Hws|].
Qed.

(** The certificate digest announced in an [a=fingerprint] line of the
    first audio section is recovered byte for byte, whatever lines surround
    it. *)
Theorem fingerprint_roundtrip pre audio mid post algo digest :
  fingerprint_algo algo digest ->
  Forall one_line (pre ++ [audio] ++ mid ++ [fingerprint_line algo digest] ++ post) ->
  Forall before_audio pre -> has "m=audio" (TrimSpace audio) = true -> Forall (within_audio "a=fingerprint:") mid ->
  ParseAudioFingerprint (GoStrings.Join (pre ++ [audio] ++ mid ++ [fingerprint_line algo digest] ++ post) crlf)
  = Ok (algo, digest).
Proof.
  intros Halgo Hl Hpre Ha Hmid. destruct (fingerprint_line_shape algo digest Halgo) as (Htrim & Hf & Hm & Hafter).
  destruct (audio_section_upto pre audio mid (fingerprint_line algo digest) post) as [rest E]; try done.
  { eapply Forall_impl; [exact Hmid|]. by intros l []. }
  { by rewrite Htrim. }
  unfold ParseAudioFingerprint. rewrite E, Htrim. clear E.
  induction Hmid as [|l mid [_ Hno] _ IH].
  - cbn [map app fingerprint_lines]. rewrite Hf. cbn [negb]. rewrite Hafter. cbn [app].
    rewrite Cut_app by (destruct Halgo as [[-> _]|[-> _]]; by apply (bool_decide_eq_true_1 (x20 ∉ _))).
    assert (ToLower (TrimSpace algo) = algo) as -> by (destruct Halgo as [[-> _]|[-> _]]; by vm_compute).
    rewrite (Forall_plain_trimmed (fingerprint_text digest))
      by (apply fingerprint_text_word; destruct Halgo as [[_ H]|[_ H]]; by destruct digest).
    rewrite fingerprint_text_decodes. by destruct Halgo as [[-> ->]|[-> ->]].
  - cbn [map app fingerprint_lines]. rewrite Hno. cbn [negb]. apply IH.
    cbn [app] in Hl. clear -Hl. apply Forall_app in Hl as [H1 H2]. inversion H2 as [|? ? H3 H4]; subst.
    inversion H4; subst. apply Forall_app. split; [done|]. by constructor.
Qed.

Definition demoDigest : str := Eval vm_compute in map (fun n => z2b (Z.of_nat n * 7)) (seq 0 32).

Lemma fingerprint_roundtrip_witness :
  ParseAudioFingerprint (GoStrings.Join ([lit "v=0"; lit "a=fingerprint:sha-1 00"] ++ [lit "m=audio 9 UDP/TLS/RTP/SAVPF 0"]
    ++ [lit "a=setup:active"] ++ [fingerprint_line (lit "sha-256") demoDigest] ++ [[]]) crlf)
  = Ok (lit "sha-256", demoDigest).
Proof.
  apply fingerprint_roundtrip.
  - left. split; reflexivity.
  - apply (bool_decide_eq_true_1 (Forall (fun l => x0a ∉ l) _)). vm_compute. reflexivity.
  - repeat constructor.
  - reflexivity.
  - repeat constructor.
Defined.

(** A JSON array of envelopes: only the first one is converted, candidates of
    the others are lost. *)
Theorem trickle_array_keeps_first dec body env others :
  json_array dec (TrimSpace body) = Some (env :: others) -> TrimSpace body <> [] ->
  ParseTrickleICEJSONToSDPFragment dec body = Some (buildSDPFragmentFromTrickle env).
Proof. intros H Hn. unfold ParseTrickleICEJSONToSDPFragment. by rewrite bool_decide_eq_false_2, H. Qed.
