(* ===== verification/SrtpSession.v ===== *)
(** * Protecting the media of a call

    The security state of a media session: [src/internal/media/session_srtp.go],
    the fingerprint bookkeeping of [dtls_srtp.go], the remote ICE credentials of
    [ice_stun.go], and the engine's [configureMediaSRTPForRTPStream], which
    chooses between SDES keys, DTLS and plain RTP from what the other party
    announced.  The DTLS handshake and the SRTP transforms are pion's; a
    context is known by the key it was created from. *)

From stdpp Require Import base list strings.
From Stdlib Require Import ZArith Lia Strings.Byte.
From S2P Require Import Prelude GoStrings SipMessage NetAddr Encoding Sdp.

(** ** State *)

(** [srtp.ProtectionProfile], the two values the code uses. *)
Inductive ProtectionProfile := Aes128CmHmacSha1_80 | Aes128CmHmacSha1_32.

#[global] Instance ProtectionProfile_eq_dec : EqDecision ProtectionProfile.
Proof. solve_decision. Defined.

Record srtpMaterial := mkMaterial {
  sm_profile : ProtectionProfile;
  sm_masterKey : str; sm_masterSalt : str;
  sm_localKey : str; sm_localSalt : str;
  sm_remoteKey : str; sm_remoteSalt : str }.

Record srtp_context := mkContext { cx_key : str; cx_salt : str; cx_profile : ProtectionProfile }.

(** The fields of [Session] about SRTP, DTLS, rtcp-mux and remote ICE. *)
Record secure_session := mkSecure {
  ss_srtpMaterial : option srtpMaterial;
  ss_srtpSend : option srtp_context;
  ss_srtpRecv : option srtp_context;
  ss_dtlsPeerCertAlgo : str;
  ss_dtlsPeerFP : str;
  ss_dtlsPeerSetup : str;
  ss_rtcpMux : bool;
  ss_iceRemoteUfrag : str;
  ss_iceRemotePwd : str }.

Definition newSecure : secure_session := mkSecure None None None [] [] [] false [] [].

(** ** Operations *)

Definition protectionProfileFromSDESSuite (suite : str) : option ProtectionProfile :=
  let s := ToUpper (TrimSpace suite) in
  if bool_decide (s = lit "AES_CM_128_HMAC_SHA1_80") then Some Aes128CmHmacSha1_80
  else if bool_decide (s = lit "AES_CM_128_HMAC_SHA1_32") then Some Aes128CmHmacSha1_32
  else None.

Definition ClearSDESSRTP (s : secure_session) : secure_session := mkSecure None None None [] [] [] false [] [].

Definition SetRtcpMuxFromSDP (sdpBody : str) (s : secure_session) : secure_session :=
  mkSecure (ss_srtpMaterial s) (ss_srtpSend s) (ss_srtpRecv s) (ss_dtlsPeerCertAlgo s) (ss_dtlsPeerFP s)
    (ss_dtlsPeerSetup s) (AudioSectionHasRtcpMux sdpBody) (ss_iceRemoteUfrag s) (ss_iceRemotePwd s).

Definition SetRemoteIceFromSDP (sdpBody : str) (s : secure_session) : secure_session :=
  let creds := match ParseAudioIceCredentials sdpBody with
               | Some c => Some c
               | None => ParseAudioIceCredentialsTrickleFragment sdpBody
               end in
  match creds with
  | None => s
  | Some (u, p) =>
    mkSecure (ss_srtpMaterial s) (ss_srtpSend s) (ss_srtpRecv s) (ss_dtlsPeerCertAlgo s) (ss_dtlsPeerFP s)
      (ss_dtlsPeerSetup s) (ss_rtcpMux s) u p
  end.

Definition SetSDESSRTPFromSDP (sdp : str) (s : secure_session) : result srtp_error unit * secure_session :=
  match ParseAudioSDESCrypto sdp with
  | Err e => (Err e, s)
  | Ok (suite, key, salt) =>
    match protectionProfileFromSDESSuite suite with
    | None => (Err (CryptoSuite suite), s)
    | Some prof =>
      (Ok tt, mkSecure (Some (mkMaterial prof key salt [] [] [] [])) (ss_srtpSend s) (ss_srtpRecv s) [] [] []
                (ss_rtcpMux s) (ss_iceRemoteUfrag s) (ss_iceRemotePwd s))
    end
  end.

(** What both [SetDTLSFingerprint...FromSDP] store. *)
Definition storeFingerprint (algo digest sdpBody : str) (s : secure_session) : secure_session :=
  mkSecure None None None algo digest (ParseAudioDTLSSetup sdpBody)
    (ss_rtcpMux s) (ss_iceRemoteUfrag s) (ss_iceRemotePwd s).

Definition SetDTLSFingerprintFromSDP (sdpBody : str) (s : secure_session) : result srtp_error unit * secure_session :=
  match ParseAudioFingerprint sdpBody with
  | Err e => (Err e, s)
  | Ok (algo, digest) => (Ok tt, storeFingerprint algo digest sdpBody s)
  end.

Definition SetDTLSFingerprintSHA256FromSDP (sdpBody : str) (s : secure_session) : result srtp_error unit * secure_session :=
  match ParseAudioFingerprintSHA256 sdpBody with
  | Err e => (Err e, s)
  | Ok fp => (Ok tt, storeFingerprint (lit "sha-256") fp sdpBody s)
  end.

(** [takeDTLSConfigForHandshake]: algorithm, digest, and whether we are the
    DTLS server. *)
Definition takeDTLSConfigForHandshake (s : secure_session) : option (str * str * bool) :=
  if bool_decide (ss_dtlsPeerFP s = []) then None
  else Some (ss_dtlsPeerCertAlgo s, ss_dtlsPeerFP s, bool_decide (ss_dtlsPeerSetup s = lit "active")).

Definition compareFingerprint (a b : str) : bool :=
  if negb (length a =? length b)%nat || (length a =? 0)%nat then false
  else foldr (fun p diff => Z.lor (Z.lxor (b2z (fst p)) (b2z (snd p))) diff) 0 (zip a b) =? 0.

(** The [verify] callback of [runDTLSSRTP]; [digestOf] is
    [peerCertFingerprintDER]. *)
Definition verifyPeer (digestOf : str -> str -> str) (algo expected : str) (rawCerts : list str) : bool :=
  match rawCerts with
  | [] => false
  | der :: _ =>
    let fp := digestOf algo der in
    negb (bool_decide (fp = [])) && compareFingerprint fp expected
  end.

(** [buildSRTPContextsLocked]; [valid] is whether [srtp.CreateContext] accepts
    a key. *)
Definition buildSRTPContextsLocked (valid : srtp_context -> bool) (s : secure_session) : bool * secure_session :=
  let set snd rcv := mkSecure (ss_srtpMaterial s) snd rcv (ss_dtlsPeerCertAlgo s) (ss_dtlsPeerFP s)
    (ss_dtlsPeerSetup s) (ss_rtcpMux s) (ss_iceRemoteUfrag s) (ss_iceRemotePwd s) in
  match ss_srtpMaterial s with
  | None => (true, set None None)
  | Some m =>
    let '(enc, dec) :=
      if negb (bool_decide (sm_localKey m = []))
      then (mkContext (sm_localKey m) (sm_localSalt m) (sm_profile m),
            mkContext (sm_remoteKey m) (sm_remoteSalt m) (sm_profile m))
      else (mkContext (sm_masterKey m) (sm_masterSalt m) (sm_profile m),
            mkContext (sm_masterKey m) (sm_masterSalt m) (sm_profile m)) in
    if valid enc && valid dec then (true, set (Some enc) (Some dec)) else (false, set None None)
  end.

Definition isLikelyDTLSRecordUDP (b : str) : bool :=
  match b with
  | [] => false
  | x :: _ => (20 <=? b2z x) && (b2z x <=? 63)
  end.

(** ** Choosing the protection *)

Inductive media_error := MediaRejected | MediaSRTPOff | MediaSRTP (fingerprint : bool) (e : srtp_error).

Definition configureMediaSRTPForRTPStream (dec : json_decoder) (MediaRejectSRTP MediaSRTPOn : bool) (last : Message)
    (s : secure_session) : result media_error unit * secure_session :=
  let sdpBody := EffectiveMediaSDPBody dec last in
  let hints := SDPHintsSRTP sdpBody in
  let iceOnly := negb hints && SDPHasIceMediaAttributes sdpBody in
  if negb hints then
    if iceOnly then (Ok tt, SetRemoteIceFromSDP sdpBody (SetRtcpMuxFromSDP sdpBody s))
    else (Ok tt, SetRtcpMuxFromSDP sdpBody (ClearSDESSRTP s))
  else
    let s := ClearSDESSRTP s in
    if MediaRejectSRTP then (Err MediaRejected, s)
    else if negb MediaSRTPOn then (Err MediaSRTPOff, s)
    else
      match SetSDESSRTPFromSDP sdpBody s with
      | (Ok _, s) => (Ok tt, SetRemoteIceFromSDP sdpBody (SetRtcpMuxFromSDP sdpBody s))
      | (Err ErrNoAudioSDESCrypto, s) =>
        match SetDTLSFingerprintFromSDP sdpBody s with
        | (Err e, s) => (Err (MediaSRTP (AudioSectionHasFingerprint sdpBody) e), s)
        | (Ok _, s) => (Ok tt, SetRemoteIceFromSDP sdpBody (SetRtcpMuxFromSDP sdpBody s))
        end
      | (Err e, s) => (Err (MediaSRTP false e), s)
      end.

(** * Properties *)

(** No key, no context and no expected certificate. *)
Definition no_keys (s : secure_session) : Prop :=
  ss_srtpMaterial s = None /\ ss_srtpSend s = None /\ ss_srtpRecv s = None /\ ss_dtlsPeerFP s = [].

(** The part of the state that protects media. *)
Definition keys (s : secure_session) :=
  (ss_srtpMaterial s, ss_srtpSend s, ss_srtpRecv s, ss_dtlsPeerCertAlgo s, ss_dtlsPeerFP s, ss_dtlsPeerSetup s).

Lemma ice_keys body s : keys (SetRemoteIceFromSDP body s) = keys s.
Proof. unfold SetRemoteIceFromSDP. by repeat case_match. Qed.

Lemma keys_of s t : keys s = keys t -> no_keys t -> no_keys s.
Proof. unfold no_keys. intros [= -> -> -> _ -> _]. done. Qed.


(** With SDES keys announced and allowed, both directions of the media are
    protected with the announced key. *)
Theorem sdes_media_protected dec valid last s suite prof key salt :
  SDPHintsSRTP (EffectiveMediaSDPBody dec last) = true ->
  ParseAudioSDESCrypto (EffectiveMediaSDPBody dec last) = Ok (suite, key, salt) ->
  protectionProfileFromSDESSuite suite = Some prof -> valid (mkContext key salt prof) = true ->
  exists s', configureMediaSRTPForRTPStream dec false true last s = (Ok tt, s') /\
    fst (buildSRTPContextsLocked valid s') = true /\
    ss_srtpSend (snd (buildSRTPContextsLocked valid s')) = Some (mkContext key salt prof) /\
    ss_srtpRecv (snd (buildSRTPContextsLocked valid s')) = Some (mkContext key salt prof).
Proof.
  intros Hh Hs Hp Hv. unfold configureMediaSRTPForRTPStream. cbv zeta. rewrite Hh. cbn [negb andb].
  unfold SetSDESSRTPFromSDP. rewrite Hs, Hp. eexists. split; [done|].
  match goal with |- context [SetRemoteIceFromSDP ?b ?t] =>
    pose proof (ice_keys b t) as Hk; set (s' := SetRemoteIceFromSDP b t) in *; clearbody s' end.
  unfold keys in Hk. simpl in Hk. injection Hk as Hm _ _ _ _ _.
  unfold buildSRTPContextsLocked. rewrite Hm. cbn [sm_localKey sm_masterKey sm_masterSalt sm_profile].
  rewrite bool_decide_eq_true_2 by done. cbn [negb]. by rewrite Hv.
Qed.

Definition demoSecureOffer : str :=
  GoStrings.Join [lit "v=0"; lit "m=audio 4000 RTP/SAVP 0"; lit "a=rtcp-mux";
    crypto_line (lit "1") (lit "AES_CM_128_HMAC_SHA1_32") demoKey demoSalt []] crlf.

Lemma sdes_media_protected_witness :
  exists s', configureMediaSRTPForRTPStream noJSON false true (sdpMessage demoSecureOffer) newSecure = (Ok tt, s') /\
    fst (buildSRTPContextsLocked (fun c => (length (cx_key c) =? 16)%nat) s') = true /\
    ss_srtpSend (snd (buildSRTPContextsLocked (fun c => (length (cx_key c) =? 16)%nat) s'))
      = Some (mkContext demoKey demoSalt Aes128CmHmacSha1_32) /\
    ss_srtpRecv (snd (buildSRTPContextsLocked (fun c => (length (cx_key c) =? 16)%nat) s'))
      = Some (mkContext demoKey demoSalt Aes128CmHmacSha1_32).
Proof.
  apply (sdes_media_protected noJSON (fun c => (length (cx_key c) =? 16)%nat) (sdpMessage demoSecureOffer) newSecure
           (lit "AES_CM_128_HMAC_SHA1_32")); vm_compute; reflexivity.
Defined.

(** A full description of plain RTP that carries ICE attributes is taken for a
    trickle fragment: the keys of an earlier negotiation stay in force although
    the description asks for none. *)
Theorem plain_ice_offer_keeps_keys :
  let plain := GoStrings.Join (map lit ["v=0"; "c=IN IP4 10.0.0.5"; "m=audio 4000 RTP/AVP 0";
                 "a=candidate:1 1 udp 1 10.0.0.5 4000 typ host"]%string) crlf in
  let s := snd (configureMediaSRTPForRTPStream noJSON false true (sdpMessage demoSecureOffer) newSecure) in
  let s' := snd (configureMediaSRTPForRTPStream noJSON false true (sdpMessage plain) s) in
  SDPHintsSRTP plain = false /\ ss_srtpMaterial s' = ss_srtpMaterial s /\ ss_srtpMaterial s' <> None.
Proof. vm_compute. split_and!; [done..|discriminate]. Qed.

(** ** Fingerprints *)

Lemma xor_fold_zero a b : length a = length b ->
  foldr (fun p diff => Z.lor (Z.lxor (b2z (fst p)) (b2z (snd p))) diff) 0 (zip a b) = 0 <-> a = b.
Proof.
  revert b. induction a as [|x a IH]; intros [|y b] Hl; try done. cbn [zip zip_with foldr fst snd].
  rewrite Z.lor_eq_0_iff, Z.lxor_eq_0_iff. simpl in Hl. injection Hl as Hl. rewrite (IH b Hl).
  split; [intros [E ->]; f_equal; by apply b2z_inj|by intros [= -> ->]].
Qed.

(** The check of the peer certificate accepts exactly the certificate whose
    digest is the announced one; a handshake without certificates, and an empty
    digest, are refused. *)
Theorem verify_peer_exact digestOf algo expected certs :
  verifyPeer digestOf algo expected certs = true <->
  exists der rest, certs = der :: rest /\ digestOf algo der = expected /\ expected <> [].
Proof.
  unfold verifyPeer, compareFingerprint. destruct certs as [|der rest]; [split; [done|by intros (? & ? & ? & _)]|].
  rewrite andb_true_iff, negb_true_iff, bool_decide_eq_false. split.
  - intros [Hn H]. exists der, rest. split; [done|].
    destruct (length (digestOf algo der) =? length expected)%nat eqn:El; [|done]. apply Nat.eqb_eq in El.
    cbn [negb orb] in H. destruct (length (digestOf algo der) =? 0)%nat; [done|].
    apply Z.eqb_eq, xor_fold_zero in H; [|done]. split; [done|]. by rewrite <- H.
  - intros (? & ? & [= <- <-] & <- & Hn). split; [done|]. rewrite Nat.eqb_refl. cbn [negb orb].
    destruct (digestOf algo der) eqn:E; [done|]. cbn [length Nat.eqb]. by apply Z.eqb_eq, xor_fold_zero.
Qed.
