(* ===== verification/MediaStream.v ===== *)
(** * Streaming audio

    The parts of [src/internal/media/media.go] and [wav_write.go] that turn a
    file into RTP packets and a recording into a file: the stream
    specification, G.711 encoding, PCM and WAV files, the packet loop.  Reading
    and writing files and sockets is left out: a file is its bytes, a packet is
    its header fields and payload (the RTP library marshals it). *)

From stdpp Require Import base list sets strings.
From Stdlib Require Import ZArith Lia Strings.Byte.
From S2P Require Import Prelude GoStrings GoFloat SafePath Media.

(** ** Configuration *)

Record StreamConfig := mkStream {
  sg_PayloadType : Z; sg_PayloadName : str; sg_SSRC : Z; sg_Sequence : Z; sg_Timestamp : Z;
  sg_ClockRate : Z; sg_SamplesPerPkt : Z; sg_PacketDuration : Z; sg_LoopCount : Z; sg_Path : str;
  sg_Synthetic : bool; sg_Duration : Z; sg_Channels : Z; sg_MicInput : str }.

Definition zeroConfig : StreamConfig := mkStream 0 [] 0 0 0 0 0 0 0 [] false 0 0 [].

Definition millisecond : Z := 1000000.

(** [DefaultConfig]; [rnd] holds the random SSRC, sequence number and
    timestamp. *)
Definition DefaultConfig (rnd : Z * Z * Z) (path : str) : StreamConfig :=
  let '(ssrc, sequence, timestamp) := rnd in
  mkStream 0 (lit "PCMU/8000") ssrc sequence timestamp 8000 160 (20 * millisecond) 1 path false 0 0 [].

Definition withPayload (name : str) (pt rate samples dur : Z) (c : StreamConfig) : StreamConfig :=
  mkStream pt name (sg_SSRC c) (sg_Sequence c) (sg_Timestamp c) rate samples dur (sg_LoopCount c) (sg_Path c)
    (sg_Synthetic c) (sg_Duration c) (sg_Channels c) (sg_MicInput c).
Definition withType (pt : Z) (c : StreamConfig) : StreamConfig :=
  withPayload (sg_PayloadName c) pt (sg_ClockRate c) (sg_SamplesPerPkt c) (sg_PacketDuration c) c.
Definition withName (name : str) (c : StreamConfig) : StreamConfig :=
  withPayload name (sg_PayloadType c) (sg_ClockRate c) (sg_SamplesPerPkt c) (sg_PacketDuration c) c.
Definition withPacketDuration (d : Z) (c : StreamConfig) : StreamConfig :=
  withPayload (sg_PayloadName c) (sg_PayloadType c) (sg_ClockRate c) (sg_SamplesPerPkt c) d c.
Definition withTail (loops : Z) (syn : bool) (dur ch : Z) (mic : str) (c : StreamConfig) : StreamConfig :=
  mkStream (sg_PayloadType c) (sg_PayloadName c) (sg_SSRC c) (sg_Sequence c) (sg_Timestamp c) (sg_ClockRate c)
    (sg_SamplesPerPkt c) (sg_PacketDuration c) loops (sg_Path c) syn dur ch mic.

Definition ApplyPayloadParams (payloadName : str) (cfg : StreamConfig) : StreamConfig :=
  let name := ToUpper (TrimSpace payloadName) in
  if bool_decide (name = []) then cfg
  else if HasPrefix name (lit "PCMA/8000") then withPayload name 8 8000 160 (20 * millisecond) cfg
  else if HasPrefix name (lit "PCMU/8000") then withPayload name 0 8000 160 (20 * millisecond) cfg
  else if HasPrefix name (lit "G722/8000") then withPayload name 9 8000 160 (20 * millisecond) cfg
  else if HasPrefix name (lit "ILBC/8000") then withPayload name 97 8000 240 (30 * millisecond) cfg
  else if HasPrefix name (lit "H264/90000") then withPayload name 96 90000 3000 (33 * millisecond) cfg
  else if HasPrefix name (lit "OPUS/48000") then withPayload name 111 48000 960 (20 * millisecond) cfg
  else withName name cfg.

(** [fmt.Sscanf(s, "%d", &x)]: the number a text starts with; without one the
    variable keeps its value. *)
Fixpoint leading_digits (s : str) : str :=
  match s with
  | c :: r => if in_range 48 57 c then c :: leading_digits r else []
  | [] => []
  end.

Definition Sscanf_d (s : str) (x : Z) : Z :=
  let s := trim_left_space s in
  let '(sign, digits) :=
    match s with
    | c :: r => if beqb c x2d || beqb c x2b then ([c], leading_digits r) else ([], leading_digits s)
    | [] => ([], [])
    end in
  match digits with
  | [] => x
  | _ => default x (Atoi (sign ++ digits))
  end.

Definition ResolvePath (basePath name : str) : str :=
  if IsAbs name || bool_decide (basePath = []) then name else JoinPath [basePath; name].

Definition part (parts : list str) (i : nat) : option str := TrimSpace <$> parts !! i.

Definition payloadParts (parts : list str) (cfg : StreamConfig) : StreamConfig :=
  let cfg := match part parts 2 with Some p => withType (u8 (Sscanf_d p 0)) cfg | None => cfg end in
  match part parts 3 with
  | Some name => ApplyPayloadParams name cfg
  | None => ApplyPayloadParams (sg_PayloadName cfg) cfg
  end.

(** A positive number in part [i]. *)
Definition positivePart (parts : list str) (i : nat) : option Z :=
  match part parts i with
  | Some p => let n := Sscanf_d p 0 in if 0 <? n then Some n else None
  | None => None
  end.

Definition stream_command (s : str) : bool :=
  bool_decide (s = lit "pause") || bool_decide (s = lit "resume") || bool_decide (s = lit "stop")
  || bool_decide (s = lit "echo").

Definition ParseRTPStreamSpec (rnd : Z * Z * Z) (spec basePath : str) : option (str * StreamConfig) :=
  let spec := TrimSpace spec in
  if stream_command (ToLower spec) then Some (ToLower spec, zeroConfig)
  else
    let parts := Split spec x2c in
    let first := TrimSpace (hd [] parts) in
    if bool_decide (first = []) then None
    else if bool_decide (ToLower first = lit "mic") || bool_decide (ToLower first = lit "microphone") then
      let cfg := DefaultConfig rnd [] in
      let mic := match parts with
                 | _ :: ((_ :: _) as rest) => TrimSpace (GoStrings.Join rest (lit ","))
                 | _ => []
                 end in
      Some (lit "mic", withTail (sg_LoopCount cfg) false 0 0 mic cfg)
    else if bool_decide (ToLower first = lit "synthetic") then
      let cfg := payloadParts parts (withTail 1 true 0 0 [] (DefaultConfig rnd [])) in
      let cfg := match positivePart parts 4 with
                 | Some ms => withPacketDuration (i64 (ms * millisecond)) cfg
                 | None => cfg
                 end in
      let dur := match positivePart parts 5 with Some ms => i64 (ms * millisecond) | None => 0 end in
      let ch := match positivePart parts 6 with Some c => u8 c | None => 0 end in
      Some (lit "start", withTail (sg_LoopCount cfg) true dur ch [] cfg)
    else
      let cfg := DefaultConfig rnd (ResolvePath basePath first) in
      let cfg := match part parts 1 with
                 | Some p => withTail (Sscanf_d p (sg_LoopCount cfg)) false 0 0 [] cfg
                 | None => cfg
                 end in
      Some (lit "start", payloadParts parts cfg).

(** ** G.711 encoding *)

Fixpoint mu_exponent (n : nat) (mask pcm : Z) : Z :=
  match n with
  | O => 0
  | S m => if Z.land pcm mask =? 0 then mu_exponent m (Z.shiftr mask 1) pcm else Z.of_nat n
  end.

Definition linearToMuLaw (sample : Z) : byte :=
  let '(sign, pcm) := if sample <? 0 then (128, - sample) else (0, sample) in
  let pcm := (if 32635 <? pcm then 32635 else pcm) + 132 in
  let exponent := mu_exponent 7 16384 pcm in
  let mantissa := Z.land (Z.shiftr pcm (exponent + 3)) 15 in
  z2b (Z.lxor (Z.lor sign (Z.lor (Z.shiftl exponent 4) mantissa)) 255).

Definition a_exponent (pcm : Z) : Z :=
  if 4096 <=? pcm then 7 else if 2048 <=? pcm then 6 else if 1024 <=? pcm then 5 else if 512 <=? pcm then 4
  else if 256 <=? pcm then 3 else if 128 <=? pcm then 2 else if 64 <=? pcm then 1 else 0.

Definition linearToALaw (sample : Z) : byte :=
  let '(sign, pcm) := if sample <? 0 then (128, - sample - 1) else (0, sample) in
  let pcm := if 32635 <? pcm then 32635 else pcm in
  let exponent := a_exponent pcm in
  let mantissa := if exponent =? 0 then Z.land (Z.shiftr pcm 4) 15 else Z.land (Z.shiftr pcm (exponent + 3)) 15 in
  z2b (Z.lxor (Z.lor sign (Z.lor (Z.shiftl exponent 4) mantissa)) 213).

(** ** PCM and WAV *)

Definition get_le (s : str) : Z := get_be (rev s).
Definition put_le16 (z : Z) : str := rev (put_u16 z).
Definition put_le32 (z : Z) : str := rev (put_u32 z).

Fixpoint pairs16 (data : str) : option (list Z) :=
  match data with
  | [] => Some []
  | a :: b :: r => (fun l => i16 (get_le [a; b]) :: l) <$> pairs16 r
  | _ => None
  end.

Definition decodePCM (data : str) (bits : Z) : option (list Z) :=
  if bits =? 8 then Some (map (fun b => i16 (Z.shiftl (b2z b - 128) 8)) data)
  else if bits =? 16 then pairs16 data
  else None.

(** [writeWAVPCM16LE], the bytes of the file. *)
Definition writeWAVPCM16LE (sampleRate channels : Z) (samples : list Z) : option str :=
  if negb (channels =? 1) && negb (channels =? 2) then None
  else if negb (Z.of_nat (length samples) mod channels =? 0) then None
  else
    let dataBytes := 2 * Z.of_nat (length samples) in
    Some (lit "RIFF" ++ put_le32 (36 + dataBytes) ++ lit "WAVEfmt " ++ put_le32 16 ++ put_le16 1
          ++ put_le16 channels ++ put_le32 sampleRate ++ put_le32 (sampleRate * channels * 2)
          ++ put_le16 (channels * 2) ++ put_le16 16 ++ lit "data" ++ put_le32 dataBytes
          ++ flat_map put_le16 samples).

(** What the chunks of a file say so far. *)
Record wav_info := mkWav {
  wv_format : Z; wv_channels : Z; wv_rate : Z; wv_bits : Z; wv_data : str }.

Definition slice (data : str) (off n : nat) : str := take n (drop off data).

Definition wav_chunk (data : str) (offset size : nat) (id : str) (w : wav_info) : wav_info :=
  if bool_decide (id = lit "fmt ") then
    if (16 <=? size)%nat then
      mkWav (get_le (slice data offset 2)) (get_le (slice data (offset + 2) 2)) (get_le (slice data (offset + 4) 4))
        (get_le (slice data (offset + 14) 2)) (wv_data w)
    else w
  else if bool_decide (id = lit "data") then
    mkWav (wv_format w) (wv_channels w) (wv_rate w) (wv_bits w) (slice data offset size)
  else w.

(** Every turn moves the offset by at least eight, so the length of the file is
    enough fuel. *)
Fixpoint wav_chunks (fuel : nat) (data : str) (offset : nat) (w : wav_info) : wav_info :=
  match fuel with
  | O => w
  | S fuel =>
    if (offset + 8 <=? length data)%nat then
      let id := slice data offset 4 in
      let size := Z.to_nat (get_le (slice data (offset + 4) 4)) in
      let offset := (offset + 8)%nat in
      if (length data <? offset + size)%nat then w
      else wav_chunks fuel data (offset + size + size mod 2)%nat (wav_chunk data offset size id w)
    else w
  end.

Inductive wav_error := WavUnsupported | WavFormat | WavBits | WavOddLength | WavNoFrames.

(** Frames of [n] samples; an incomplete last one is dropped. *)
Fixpoint frames (fuel n : nat) (samples : list Z) : list (list Z) :=
  match fuel with
  | O => []
  | S fuel => if (n <=? length samples)%nat then take n samples :: frames fuel n (drop n samples) else []
  end.

Definition loadWAVPackets (data : str) (cfg : StreamConfig) : result wav_error (list str) :=
  if (length data <? 44)%nat || negb (bool_decide (slice data 0 4 = lit "RIFF"))
     || negb (bool_decide (slice data 8 4 = lit "WAVE")) then Err WavUnsupported
  else
    let w := wav_chunks (length data) data 12 (mkWav 0 0 0 0 []) in
    if negb (wv_format w =? 1) || negb (wv_channels w =? 1) || negb (wv_rate w =? 8000) then Err WavFormat
    else if negb (wv_bits w =? 8) && negb (wv_bits w =? 16) then Err WavBits
    else
      let n := if sg_SamplesPerPkt cfg <=? 0 then 160%nat else Z.to_nat (sg_SamplesPerPkt cfg) in
      match decodePCM (wv_data w) (wv_bits w) with
      | None => Err WavOddLength
      | Some samples =>
        let encode := if sg_PayloadType cfg =? 8 then linearToALaw else linearToMuLaw in
        match map (map encode) (frames (length samples) n samples) with
        | [] => Err WavNoFrames
        | packets => Ok packets
        end
      end.

(** [loadRawPackets]: pieces of [packetSize] bytes, the last one shorter. *)
Fixpoint raw_pieces (fuel n : nat) (data : str) : list str :=
  match fuel, data with
  | S fuel, _ :: _ => take n data :: raw_pieces fuel n (drop n data)
  | _, _ => []
  end.

Definition loadRawPackets (data : str) (packetSize : Z) : list str :=
  raw_pieces (length data) (if packetSize <=? 0 then 160%nat else Z.to_nat packetSize) data.

Definition ExtOf (path : str) : str :=
  let base := default [] (last (Split path slash)) in
  match LastIndex base (lit ".") with Some i => drop i base | None => [] end.

Definition loadPackets (data : str) (cfg : StreamConfig) : result wav_error (list str) :=
  if bool_decide (ToLower (ExtOf (sg_Path cfg)) = lit ".wav") then loadWAVPackets data cfg
  else Ok (loadRawPackets data (sg_SamplesPerPkt cfg)).

Definition buildSyntheticPayload (cfg : StreamConfig) : str :=
  if HasPrefix (ToUpper (sg_PayloadName cfg)) (lit "OPUS") then [xf8; xff; xfe]
  else
    let channels := if sg_Channels cfg <? 1 then 1 else sg_Channels cfg in
    let size := sg_SamplesPerPkt cfg * channels in
    let size := if size <=? 0 then 160 else size in
    replicate (Z.to_nat size)
      (if sg_PayloadType cfg =? 0 then xff else if sg_PayloadType cfg =? 8 then xd5 else x00).

(** ** The packet loop *)

Record stream_state := mkStreamState {
  sx_sequence : Z; sx_timestamp : Z; sx_packets : Z; sx_octets : Z; sx_sent : list rtp_packet }.

(** One turn of the inner loop, once its tick has come. *)
Definition sendPacket (cfg : StreamConfig) (payload : str) (s : stream_state) : stream_state :=
  mkStreamState (u16 (sx_sequence s + 1)) (u32 (sx_timestamp s + sg_SamplesPerPkt cfg))
    (u32 (sx_packets s + 1)) (u32 (sx_octets s + Z.of_nat (length payload)))
    (sx_sent s ++ [mkRtp (sg_PayloadType cfg) (sx_sequence s) (sx_timestamp s) (sg_SSRC cfg) false payload]).

(** The inner loop: [ticks] is how many ticks come before the context ends. *)
Fixpoint sendAll (cfg : StreamConfig) (payloads : list str) (ticks : nat) (s : stream_state)
    : option nat * stream_state :=
  match payloads with
  | [] => (Some ticks, s)
  | p :: rest =>
    match ticks with
    | O => (None, s)
    | S ticks => sendAll cfg rest ticks (sendPacket cfg p s)
    end
  end.

Inductive stream_end := Finished | Cancelled | Running.

(** The outer loop; [loops] is [None] when it is infinite, [Running] means the
    fuel is spent. *)
Fixpoint streamLoops (fuel : nat) (cfg : StreamConfig) (payloads : list str) (loops : option nat) (ticks : nat)
    (s : stream_state) : stream_end * stream_state :=
  match fuel with
  | O => (Running, s)
  | S fuel =>
    match loops with
    | Some O => (Finished, s)
    | _ =>
      match sendAll cfg payloads ticks s with
      | (None, s) => (Cancelled, s)
      | (Some ticks, s) => streamLoops fuel cfg payloads (pred <$> loops) ticks s
      end
    end
  end.

Definition streamLoop (fuel : nat) (cfg : StreamConfig) (packets : list str) (ticks : nat) : stream_end * stream_state :=
  let payloads := if sg_Synthetic cfg then [buildSyntheticPayload cfg] else packets in
  let loops := if sg_LoopCount cfg =? 0 then 1 else sg_LoopCount cfg in
  let infinite := (loops <? 0) || sg_Synthetic cfg in
  streamLoops fuel cfg payloads (if infinite then None else Some (Z.to_nat loops)) ticks
    (mkStreamState (sg_Sequence cfg) (sg_Timestamp cfg) 0 0 []).

(** * Lemmas *)

Section Numbering.

Context (cfg : StreamConfig) (payloads : list str).
Hypothesis seq_range : 0 <= sg_Sequence cfg < 65536.
Hypothesis ts_range : 0 <= sg_Timestamp cfg < 2 ^ 32.
Hypothesis some_payload : payloads <> [].

Definition payload_at (i : nat) : str := nth (i mod length payloads) payloads [].

(** The [i]-th packet of a stream. *)
Definition packet_at (i : nat) : rtp_packet :=
  mkRtp (sg_PayloadType cfg) (u16 (sg_Sequence cfg + Z.of_nat i))
    (u32 (sg_Timestamp cfg + Z.of_nat i * sg_SamplesPerPkt cfg)) (sg_SSRC cfg) false (payload_at i).

Fixpoint octets_upto (k : nat) : Z :=
  match k with
  | O => 0
  | S k => octets_upto k + Z.of_nat (length (payload_at k))
  end.

(** The state after [k] packets. *)
Definition state_at (k : nat) : stream_state :=
  mkStreamState (u16 (sg_Sequence cfg + Z.of_nat k)) (u32 (sg_Timestamp cfg + Z.of_nat k * sg_SamplesPerPkt cfg))
    (u32 (Z.of_nat k)) (u32 (octets_upto k)) (map packet_at (seq 0 k)).

Lemma state_at_0 : mkStreamState (sg_Sequence cfg) (sg_Timestamp cfg) 0 0 [] = state_at 0.
Proof. unfold state_at, u16, u32. simpl. by rewrite Z.add_0_r, Z.add_0_r, !Z.mod_small by lia. Qed.

Lemma send_state k : sendPacket cfg (payload_at k) (state_at k) = state_at (S k).
Proof.
  unfold sendPacket, state_at. cbn [sx_sequence sx_timestamp sx_packets sx_octets sx_sent octets_upto].
  rewrite seq_S, map_app. unfold u16, u32. rewrite !Zplus_mod_idemp_l. f_equal; try done; f_equal; lia.
Qed.

Lemma payload_mod q j : (j < length payloads)%nat -> payload_at (q * length payloads + j) = nth j payloads [].
Proof. intros Hj. unfold payload_at. rewrite Nat.add_comm, Nat.Div0.mod_add, Nat.mod_small by done. done. Qed.

Lemma sendAll_spec q ticks j : (j <= length payloads)%nat ->
  sendAll cfg (drop j payloads) ticks (state_at (q * length payloads + j)) =
  if (length payloads - j <=? ticks)%nat
  then (Some (ticks - (length payloads - j))%nat, state_at (S q * length payloads))
  else (None, state_at (q * length payloads + j + ticks)).
Proof.
  remember (length payloads - j)%nat as n eqn:En. revert j ticks En.
  induction n as [|n IH]; intros j ticks En Hj.
  - assert (j = length payloads) as -> by lia. rewrite drop_all. cbn [sendAll Nat.leb]. rewrite Nat.sub_0_r.
    do 2 f_equal. lia.
  - assert (j < length payloads)%nat as Hlt by lia.
    assert (drop j payloads = nth j payloads [] :: drop (S j) payloads) as ->.
    { destruct (nth_lookup_or_length payloads j []) as [Hn|Hn]; [|lia]. by apply drop_S in Hn as ->. }
    destruct ticks as [|ticks]; cbn [sendAll Nat.leb]; [by rewrite Nat.add_0_r|].
    rewrite <- (payload_mod q j) at 1 by done. rewrite send_state.
    replace (S (q * length payloads + j)) with (q * length payloads + S j)%nat by lia.
    rewrite (IH (S j) ticks) by lia. cbn [Nat.sub].
    destruct (n <=? ticks)%nat; [done|]. do 2 f_equal. lia.
Qed.

(** How a stream ends, and after how many packets. *)
Definition stream_total (loops : option nat) (ticks : nat) : stream_end * nat :=
  match loops with
  | None => (Cancelled, ticks)
  | Some n => if (n * length payloads <=? ticks)%nat then (Finished, (n * length payloads)%nat) else (Cancelled, ticks)
  end.

Lemma streamLoops_spec fuel q loops ticks :
  (match loops with Some n => n < fuel | None => ticks < fuel end)%nat ->
  streamLoops fuel cfg payloads loops ticks (state_at (q * length payloads)) =
  (let '(e, n) := stream_total loops ticks in (e, state_at (q * length payloads + n))).
Proof.
  assert (0 < length payloads)%nat as HL by (destruct payloads; [done|simpl; lia]).
  revert q loops ticks. induction fuel as [|fuel IH]; intros q loops ticks Hf; [destruct loops; lia|].
  cbn [streamLoops]. pose proof (sendAll_spec q ticks 0 ltac:(lia)) as Hs.
  rewrite drop_0, Nat.add_0_r, Nat.sub_0_r in Hs.
  destruct loops as [[|n]|]; cbn [stream_total].
  - cbn [Nat.mul Nat.leb]. by rewrite Nat.add_0_r.
  - rewrite Hs. destruct (Nat.leb_spec (length payloads) ticks) as [Hle|Hgt].
    + cbn [fmap option_fmap option_map pred]. rewrite IH by lia. cbn [stream_total].
      destruct (Nat.leb_spec (n * length payloads) (ticks - length payloads)),
        (Nat.leb_spec (S n * length payloads) ticks); try (simpl in *; lia); do 2 f_equal; simpl; lia.
    + destruct (Nat.leb_spec (S n * length payloads) ticks); [simpl in *; lia|done].
  - rewrite Hs. destruct (Nat.leb_spec (length payloads) ticks) as [Hle|Hgt].
    + cbn [fmap option_fmap option_map]. rewrite IH by lia. cbn [stream_total]. do 2 f_equal. simpl. lia.
    + done.
Qed.
End Numbering.

(** The packets a stream cycles through. *)
Definition stream_payloads (cfg : StreamConfig) (packets : list str) : list str :=
  if sg_Synthetic cfg then [buildSyntheticPayload cfg] else packets.

Definition stream_loops (cfg : StreamConfig) : option nat :=
  let loops := if sg_LoopCount cfg =? 0 then 1 else sg_LoopCount cfg in
  if (loops <? 0) || sg_Synthetic cfg then None else Some (Z.to_nat loops).

(** A stream ends: with fuel for the loops or the ticks it never runs on.
    It sends the payloads in order, once per loop, or until the ticks run out;
    the sequence number of the [i]-th packet is the initial one plus [i]
    modulo 2^16, its timestamp the initial one plus [i] times the samples of a
    packet modulo 2^32, and the octets are counted exactly modulo 2^32. *)
Theorem stream_packets_numbered cfg packets ticks fuel :
  0 <= sg_Sequence cfg < 65536 -> 0 <= sg_Timestamp cfg < 2 ^ 32 -> stream_payloads cfg packets <> [] ->
  (match stream_loops cfg with Some n => n < fuel | None => ticks < fuel end)%nat ->
  let payloads := stream_payloads cfg packets in
  let '(e, n) := match stream_loops cfg with
                 | None => (Cancelled, ticks)
                 | Some k => if (k * length payloads <=? ticks)%nat then (Finished, (k * length payloads)%nat)
                             else (Cancelled, ticks)
                 end in
  fst (streamLoop fuel cfg packets ticks) = e /\
  sx_sent (snd (streamLoop fuel cfg packets ticks)) =
    map (fun i => mkRtp (sg_PayloadType cfg) (u16 (sg_Sequence cfg + Z.of_nat i))
           (u32 (sg_Timestamp cfg + Z.of_nat i * sg_SamplesPerPkt cfg)) (sg_SSRC cfg) false
           (nth (i mod length payloads) payloads [])) (seq 0 n) /\
  sx_octets (snd (streamLoop fuel cfg packets ticks)) = u32 (octets_upto payloads n).
Proof.
  intros Hs Ht Hp Hf. cbv zeta. unfold streamLoop. fold (stream_payloads cfg packets). fold (stream_loops cfg).
  rewrite (state_at_0 cfg (stream_payloads cfg packets)) by done.
  pose proof (streamLoops_spec cfg (stream_payloads cfg packets) Hp fuel 0 (stream_loops cfg) ticks Hf) as E.
  rewrite Nat.mul_0_l in E. rewrite E. unfold stream_total.
  destruct (stream_loops cfg) as [k|]; [destruct (_ <=? _)%nat|]; done.
Qed.

Definition demoStream : StreamConfig :=
  mkStream 0 (lit "PCMU/8000") 7 65535 4294967200 8000 160 (20 * millisecond) 2 [] false 0 0 [].

Lemma stream_packets_numbered_witness :
  fst (streamLoop 3 demoStream [lit "ab"; lit "c"] 10) = Finished /\
  sx_sent (snd (streamLoop 3 demoStream [lit "ab"; lit "c"] 10)) =
    map (fun i => mkRtp 0 (u16 (65535 + Z.of_nat i)) (u32 (4294967200 + Z.of_nat i * 160)) 7 false
           (nth (i mod 2) [lit "ab"; lit "c"] [])) (seq 0 4) /\
  sx_octets (snd (streamLoop 3 demoStream [lit "ab"; lit "c"] 10)) = u32 (octets_upto [lit "ab"; lit "c"] 4).
Proof.
  apply (stream_packets_numbered demoStream [lit "ab"; lit "c"] 10 3).
  - simpl; lia.
  - simpl; lia.
  - discriminate.
  - vm_compute. lia.
Defined.

(** An empty file streamed without a loop limit: the loop never looks at its
    context and never ends, however much fuel it is given. *)
Theorem empty_file_spins cfg ticks fuel :
  sg_LoopCount cfg < 0 -> sg_Synthetic cfg = false ->
  loadRawPackets [] (sg_SamplesPerPkt cfg) = [] /\ fst (streamLoop fuel cfg [] ticks) = Running.
Proof.
  intros Hl Hs. split; [done|]. unfold streamLoop. rewrite Hs.
  rewrite (proj2 (Z.eqb_neq _ _)), (proj2 (Z.ltb_lt _ _)) by lia. cbn [orb].
  generalize (mkStreamState (sg_Sequence cfg) (sg_Timestamp cfg) 0 0 []). intros st.
  induction fuel as [|fuel IH]; [done|]. cbn [streamLoops sendAll fmap option_fmap option_map]. apply IH.
Qed.

(** ** G.711 *)

Definition clip (x : Z) : Z := if 32635 <? x then 32635 else if x <? -32635 then -32635 else x.

(** Half the distance between two values of the segment a code lies in. *)
Definition half_step (b : byte) : Z := 2 ^ (Z.land (Z.shiftr (Z.lxor (b2z b) 255) 4) 7 + 2).

Definition mu_accurate (x : Z) : bool :=
  Z.abs (g711_mu (linearToMuLaw x) - clip x) <=? half_step (linearToMuLaw x).

Fixpoint from (n : nat) (x : Z) : list Z := match n with O => [] | S n => x :: from n (x + 1) end.

Lemma from_in n x z : x <= z < x + Z.of_nat n -> z ∈ from n x.
Proof.
  revert x. induction n as [|n IH]; intros x H; [lia|]. cbn [from]. apply elem_of_cons.
  destruct (decide (z = x)); [by left|]. right. apply IH. lia.
Qed.

(** All 16-bit samples, by evaluation. *)
Lemma mu_law_checked : forallb mu_accurate (from (Z.to_nat 65536) (-32768)) = true.
Proof. vm_compute. reflexivity. Qed.

(** The mu-law code of every 16-bit sample stands, by ITU-T G.711, for a
    value at most half a quantisation step away from the clipped sample. *)
Theorem mu_law_encoding_accurate x :
  -32768 <= x <= 32767 -> Z.abs (g711_mu (linearToMuLaw x) - clip x) <= half_step (linearToMuLaw x).
Proof.
  intros H. apply Z.leb_le. pose proof mu_law_checked as C. rewrite forallb_forall in C.
  apply C, list_elem_of_In, from_in. rewrite Z2Nat.id; lia.
Qed.

Lemma mu_law_encoding_accurate_witness :
  Z.abs (g711_mu (linearToMuLaw (-12345)) - clip (-12345)) <= half_step (linearToMuLaw (-12345)).
Proof. apply mu_law_encoding_accurate. lia. Defined.

(** The A-law encoder takes the segment of a 13-bit sample for a 16-bit one:
    samples far apart get the same code. *)
Theorem a_law_encoder_collides :
  linearToALaw 4096 = linearToALaw 20480 /\ linearToALaw 4096 = z2b 161 /\ g711_a (z2b 161) = 20992.
Proof. vm_compute. done. Qed.

(** The payload type given in a stream specification is overwritten by the one
    of the codec, also when no codec is named. *)
Theorem payload_type_ignored rnd :
  (fun p => sg_PayloadType p.2) <$> ParseRTPStreamSpec rnd (lit "a.wav,1,8") [] = Some 0 /\
  (fun p => sg_PayloadType p.2) <$> ParseRTPStreamSpec rnd (lit "synthetic,1,100,opus/48000") [] = Some 111.
Proof. destruct rnd as [[a b] c]. split; reflexivity. Qed.

(** ** WAV files *)

Lemma get_le_put16 z : get_le (put_le16 z) = u16 z.
Proof. unfold get_le, put_le16. by rewrite rev_involutive, get_be_put_u16. Qed.

Lemma get_le_put32 z : get_le (put_le32 z) = u32 z.
Proof. unfold get_le, put_le32. by rewrite rev_involutive, get_be_put_u32. Qed.

Lemma i16_u16 x : -32768 <= x <= 32767 -> i16 (u16 x) = x.
Proof.
  intros H. unfold i16, u16. change (2 ^ 16) with 65536. change (2 ^ 15) with 32768.
  rewrite Zmod_mod. destruct (Z.lt_ge_cases x 0).
  - replace (x mod 65536) with (x + 65536) by (apply (Z.mod_unique _ _ (-1)); lia). case_match; bool_to_prop; lia.
  - rewrite Z.mod_small by lia. case_match; bool_to_prop; lia.
Qed.

Lemma pairs16_put samples : Forall (fun x => -32768 <= x <= 32767) samples ->
  pairs16 (flat_map put_le16 samples) = Some samples.
Proof.
  induction 1 as [|x samples Hx _ IH]; [done|]. cbn [flat_map].
  change (put_le16 x) with [z2b x; z2b (Z.shiftr x 8)]. cbn [app pairs16].
  change [z2b x; z2b (Z.shiftr x 8)] with (put_le16 x). by rewrite IH, get_le_put16, i16_u16.
Qed.

Lemma length_put16 samples : length (flat_map put_le16 samples) = (2 * length samples)%nat.
Proof. induction samples as [|x l IH]; [done|]. cbn [flat_map]. rewrite length_app, IH. simpl. lia. Qed.

(** The header of a mono 8 kHz file. *)
Definition wav_header (dataBytes : Z) : str :=
  lit "RIFF" ++ put_le32 (36 + dataBytes) ++ lit "WAVEfmt " ++ put_le32 16 ++ put_le16 1
  ++ put_le16 1 ++ put_le32 8000 ++ put_le32 16000 ++ put_le16 2 ++ put_le16 16 ++ lit "data" ++ put_le32 dataBytes.

Lemma slice_header d body off n : (off + n <= 44)%nat -> slice (wav_header d ++ body) off n = slice (wav_header d) off n.
Proof.
  intros H. unfold slice. rewrite drop_app_le by (change (length (wav_header d)) with 44%nat; lia).
  apply take_app_le. rewrite length_drop. change (length (wav_header d)) with 44%nat. lia.
Qed.

Lemma wav_step fuel data off size w :
  (off + 8 + size <= length data)%nat -> slice data (off + 4) 4 = put_le32 (Z.of_nat size) -> Z.of_nat size < 2 ^ 32 ->
  wav_chunks (S fuel) data off w
  = wav_chunks fuel data (off + 8 + size + size mod 2) (wav_chunk data (off + 8) size (slice data off 4) w).
Proof.
  intros Hl Hs Hlt. cbn [wav_chunks]. rewrite (proj2 (Nat.leb_le _ _)), Hs, get_le_put32 by lia.
  unfold u32. rewrite Z.mod_small, Nat2Z.id by lia. by rewrite (proj2 (Nat.ltb_ge _ _)) by lia.
Qed.

Lemma wav_stop fuel data off w : (length data < off + 8)%nat -> wav_chunks (S fuel) data off w = w.
Proof. intros H. cbn [wav_chunks]. by rewrite (proj2 (Nat.leb_gt _ _)). Qed.

Lemma wav_chunks_header fuel body :
  Z.of_nat (length body) < 2 ^ 32 -> Nat.even (length body) = true -> (3 <= fuel)%nat ->
  wav_chunks fuel (wav_header (Z.of_nat (length body)) ++ body) 12 (mkWav 0 0 0 0 []) = mkWav 1 1 8000 16 body.
Proof.
  intros Hb He Hf. destruct fuel as [|[|[|fuel]]]; [lia..|].
  set (d := Z.of_nat (length body)). set (data := wav_header d ++ body).
  assert (length data = (44 + length body)%nat) as Hlen by (unfold data; rewrite length_app; done).
  assert (slice data 12 4 = lit "fmt " /\ slice data 16 4 = put_le32 16 /\ slice data 20 2 = put_le16 1
          /\ slice data 22 2 = put_le16 1 /\ slice data 24 4 = put_le32 8000 /\ slice data 34 2 = put_le16 16
          /\ slice data 36 4 = lit "data" /\ slice data 40 4 = put_le32 d) as (E1 & E2 & E3 & E4 & E5 & E6 & E7 & E8).
  { unfold data. rewrite !slice_header by lia. done. }
  assert (slice data 44 (length body) = body) as E9.
  { unfold slice, data. change 44%nat with (length (wav_header d)). by rewrite drop_app_length, firstn_all. }
  rewrite (wav_step _ data 12 16) by (done || lia). change (12 + 8 + 16 + 16 mod 2)%nat with 36%nat.
  rewrite (wav_step _ data 36 (length body)) by (done || lia). rewrite wav_stop by lia.
  rewrite E1, E7. unfold wav_chunk. change (bool_decide (lit "fmt " = lit "fmt ")) with true.
  change (bool_decide (lit "data" = lit "fmt ")) with false. change (bool_decide (lit "data" = lit "data")) with true.
  change (16 <=? 16)%nat with true. cbn [wv_format wv_channels wv_rate wv_bits].
  change (12 + 8)%nat with 20%nat. change (36 + 8)%nat with 44%nat.
  change (20 + 2)%nat with 22%nat. change (20 + 4)%nat with 24%nat. change (20 + 14)%nat with 34%nat.
  by rewrite E3, E4, E5, E6, E9, !get_le_put16, get_le_put32.
Qed.

(** What the recorder writes the streamer reads: the file of a mono 8 kHz
    recording is accepted, and streaming it gives the G.711 codes of exactly
    its full frames of samples, in order; a recording shorter than a frame is
    refused. *)
Theorem wav_recording_streams samples cfg :
  Forall (fun x => -32768 <= x <= 32767) samples -> 2 * Z.of_nat (length samples) + 36 < 2 ^ 32 ->
  let n := if sg_SamplesPerPkt cfg <=? 0 then 160%nat else Z.to_nat (sg_SamplesPerPkt cfg) in
  let encode := if sg_PayloadType cfg =? 8 then linearToALaw else linearToMuLaw in
  exists data, writeWAVPCM16LE 8000 1 samples = Some data /\
    loadWAVPackets data cfg =
      if (length samples <? n)%nat then Err WavNoFrames
      else Ok (map (map encode) (frames (length samples) n samples)).
Proof.
  intros Hs Hl. cbv zeta.
  assert (writeWAVPCM16LE 8000 1 samples = Some (wav_header (Z.of_nat (length (flat_map put_le16 samples))) ++ flat_map put_le16 samples)) as ->.
  { unfold writeWAVPCM16LE. rewrite Z.mod_1_r. cbn [Z.eqb negb andb]. rewrite length_put16, Nat2Z.inj_mul.
    unfold wav_header. by rewrite <- !app_assoc. }
  eexists. split; [done|]. set (body := flat_map put_le16 samples).
  assert (length body = (2 * length samples)%nat) as Hb by apply length_put16.
  unfold loadWAVPackets.
  rewrite (proj2 (Nat.ltb_ge _ _)) by (rewrite length_app; change (length (wav_header _)) with 44%nat; lia).
  rewrite !slice_header by lia.
  change (slice (wav_header (Z.of_nat (length body))) 0 4) with (lit "RIFF").
  change (slice (wav_header (Z.of_nat (length body))) 8 4) with (lit "WAVE").
  change (bool_decide (lit "RIFF" = lit "RIFF")) with true. change (bool_decide (lit "WAVE" = lit "WAVE")) with true.
  cbn [negb orb]. rewrite wav_chunks_header.
  - cbn [wv_format wv_channels wv_rate wv_bits wv_data Z.eqb negb orb andb]. cbn [Pos.eqb negb orb andb].
    unfold decodePCM. cbn [Z.eqb Pos.eqb]. unfold body. rewrite pairs16_put by done.
    assert (0 < if (sg_SamplesPerPkt cfg <=? 0)%Z then 160 else Z.to_nat (sg_SamplesPerPkt cfg))%nat as Hn
      by (destruct (Z.leb_spec (sg_SamplesPerPkt cfg) 0); lia).
    revert Hn. generalize (if sg_SamplesPerPkt cfg <=? 0 then 160%nat else Z.to_nat (sg_SamplesPerPkt cfg)).
    intros n Hn. destruct samples as [|x samples]; [destruct n; [lia|done]|]. cbn [length frames].
    destruct (Nat.leb_spec n (S (length samples))), (Nat.ltb_spec (S (length samples)) n); try lia; done.
  - lia.
  - rewrite Hb. apply Nat.even_spec. by exists (length samples).
  - rewrite length_app. change (length (wav_header _)) with 44%nat. lia.
Qed.

Definition demoSamples : list Z := Eval vm_compute in from 400 (-200).

Lemma wav_recording_streams_witness :
  exists data, writeWAVPCM16LE 8000 1 demoSamples = Some data /\
    loadWAVPackets data demoStream =
      if (length demoSamples <? 160)%nat then Err WavNoFrames
      else Ok (map (map linearToMuLaw) (frames (length demoSamples) 160 demoSamples)).
Proof.
  apply (wav_recording_streams demoSamples demoStream).
  - apply (bool_decide_eq_true_1 (Forall (fun x => -32768 <= x <= 32767) demoSamples)). vm_compute. reflexivity.
  - vm_compute. reflexivity.
Defined.
