(* ===== verification/MediaSession.v ===== *)
(** * Receiving and recording media

    The parts of [src/internal/media/media.go], [rtcp_ingest.go], [record.go] and
    [g711_recorder.go] that keep the books of a media session: reception statistics and the
    receiver report, inbound RTCP, waiting for RTP activity, recording to a WAV
    file; and [parseRTPCheckSpec] of [src/internal/engine/actions_exec.go].
    Sockets, the RTP and RTCP parsers and the disk are left out: packets come
    as their fields, a file is a path and its bytes. *)

From stdpp Require Import base list sets strings.
From Stdlib Require Import ZArith Lia Strings.Byte Floats.SpecFloat.
From S2P Require Import Prelude GoStrings GoFloat SafePath Media Stats MediaStream.

(** ** Reception statistics *)

Definition i32 (z : Z) : Z := let r := z mod 2 ^ 32 in if r <? 2 ^ 31 then r else r - 2 ^ 32.

(** [uint32(x)] of a float on amd64: through a 64-bit integer. *)
Definition u32_of_float (x : float64) : Z := u32 (int64_of_float x).

Record reception := mkReception {
  rr_SSRC : Z; rr_HasFirst : bool; rr_FirstSeq : Z; rr_ExtHighSeq : Z; rr_Received : Z; rr_Lost : Z;
  rr_Jitter : float64; rr_ClockRate : Z; rr_TSPrev : Z; rr_ArrivalPrev : option Z;
  rr_LastSRNTP : Z; rr_LastSRAt : option Z;
  rr_MaxCumulativeLost : Z; rr_JitterPeak : Z }.

(** [rrReset] with cleared statistics. *)
Definition rrReset : reception := mkReception 0 false 0 0 0 0 fzero 0 0 None 0 None 0 0.

(** An inbound packet: its SSRC, sequence number and timestamp. *)
Record rtp_in := mkRtpIn { ri_SSRC : Z; ri_Sequence : Z; ri_Timestamp : Z }.

(** The clock rate and jitter after a packet. *)
Definition jitterStep (pkt : rtp_in) (now : Z) (r : reception) : Z * float64 :=
  match rr_ArrivalPrev r with
  | None => (rr_ClockRate r, rr_Jitter r)
  | Some prev =>
    let elapsed := Seconds (now - prev) in
    let tsDelta := float_of_int (i32 (ri_Timestamp pkt - rr_TSPrev r)) in
    let rate :=
      if (rr_ClockRate r =? 0) && flt (round_decimal false 1 (-3) false) elapsed && flt fzero tsDelta
      then u32_of_float (fdiv tsDelta elapsed) else rr_ClockRate r in
    if 0 <? rate then
      let d := fsub (fmul elapsed (float_of_int rate)) tsDelta in
      let d := if flt d fzero then SFopp d else d in
      (rate, fadd (rr_Jitter r) (fdiv (fsub d (rr_Jitter r)) (float_of_int 16)))
    else (rate, rr_Jitter r)
  end.

Definition observeRTPPacket (pkt : rtp_in) (now : Z) (r : reception) : reception :=
  if negb (rr_HasFirst r) then
    mkReception (ri_SSRC pkt) true (ri_Sequence pkt) (ri_Sequence pkt) 1 (rr_Lost r) (rr_Jitter r) (rr_ClockRate r)
      (ri_Timestamp pkt) (Some now) (rr_LastSRNTP r) (rr_LastSRAt r) (rr_MaxCumulativeLost r) (rr_JitterPeak r)
  else if negb (ri_SSRC pkt =? rr_SSRC r) then r
  else
    let diff := i16 (ri_Sequence pkt - rr_ExtHighSeq r) in
    let ext := if 0 <? diff then u32 (rr_ExtHighSeq r + diff) else rr_ExtHighSeq r in
    let received := u32 (rr_Received r + 1) in
    let expected := u32 (ext - rr_FirstSeq r + 1) in
    let lost := i32 (i32 expected - i32 received) in
    let lost := if lost <? 0 then 0 else lost in
    let '(rate, jitter) := jitterStep pkt now r in
    mkReception (rr_SSRC r) true (rr_FirstSeq r) ext received lost jitter rate (ri_Timestamp pkt) (Some now)
      (rr_LastSRNTP r) (rr_LastSRAt r) (max_u32 (rr_MaxCumulativeLost r) lost)
      (max_u32 (rr_JitterPeak r) (u32_of_float jitter)).

Record ReceptionReport := mkReport {
  rp_SSRC : Z; rp_FractionLost : Z; rp_TotalLost : Z; rp_LastSequenceNumber : Z; rp_Jitter : Z;
  rp_LastSenderReport : Z; rp_Delay : Z }.

Definition buildReceiverReport (now : Z) (r : reception) : option ReceptionReport :=
  if negb (rr_HasFirst r) then None
  else
    let expected := u32 (rr_ExtHighSeq r - rr_FirstSeq r + 1) in
    let fraction :=
      if (0 <? expected) && (0 <? rr_Lost r) then
        let f := fdiv (float_of_int (rr_Lost r)) (float_of_int expected) in
        let f := if flt fone f then fone else f in
        u8 (int64_of_float (fmul f (float_of_int 256)))
      else 0 in
    let dlsr := match rr_LastSRAt r with
                | Some at' => u32_of_float (fmul (Seconds (now - at')) (float_of_int 65536))
                | None => 0
                end in
    Some (mkReport (rr_SSRC r) fraction (u32 (rr_Lost r)) (rr_ExtHighSeq r) (u32_of_float (rr_Jitter r))
            (rr_LastSRNTP r) dlsr).

(** ** Inbound RTCP *)

(** What the RTCP library makes of a packet: a sender report with its NTP
    time, a receiver report with the fraction lost and jitter of its blocks,
    or another kind. *)
Inductive rtcp_in := SenderReport (ntp : Z) | ReceiverReport (blocks : list (Z * Z)) | OtherRTCP.

Definition isProbableRTCPPacket (b : str) : bool :=
  match b with
  | b0 :: b1 :: _ =>
    (8 <=? length b)%nat && (Z.shiftr (b2z b0) 6 =? 2) && (192 <=? b2z b1) && (b2z b1 <=? 223)
  | _ => false
  end.

(** The counters of [Stats] about RTCP. *)
Record rtcp_stats := mkRtcp {
  rs_SenderReports : Z; rs_ReceiverReports : Z; rs_PacketsReceived : Z; rs_ReportBlocks : Z;
  rs_MaxFractionLost : Z; rs_MaxJitter : Z; rs_MinJitter : Z; rs_JitterSum : float64; rs_JitterSamples : Z }.

Definition reportBlock (s : rtcp_stats) (rep : Z * Z) : rtcp_stats :=
  let '(lost, jitter) := rep in
  mkRtcp (rs_SenderReports s) (rs_ReceiverReports s) (rs_PacketsReceived s) (u32 (rs_ReportBlocks s + 1))
    (max_u32 (rs_MaxFractionLost s) lost) (max_u32 (rs_MaxJitter s) jitter)
    (if (0 <? jitter) && ((rs_MinJitter s =? 0) || (jitter <? rs_MinJitter s)) then jitter else rs_MinJitter s)
    (fadd (rs_JitterSum s) (float_of_int jitter)) (u64 (rs_JitterSamples s + 1)).

Definition ingest (now : Z) (st : rtcp_stats * reception) (p : rtcp_in) : rtcp_stats * reception :=
  let '(s, r) := st in
  match p with
  | SenderReport ntp =>
    (mkRtcp (u32 (rs_SenderReports s + 1)) (rs_ReceiverReports s) (rs_PacketsReceived s) (rs_ReportBlocks s)
       (rs_MaxFractionLost s) (rs_MaxJitter s) (rs_MinJitter s) (rs_JitterSum s) (rs_JitterSamples s),
     mkReception (rr_SSRC r) (rr_HasFirst r) (rr_FirstSeq r) (rr_ExtHighSeq r) (rr_Received r) (rr_Lost r)
       (rr_Jitter r) (rr_ClockRate r) (rr_TSPrev r) (rr_ArrivalPrev r)
       (Z.land (Z.shiftr ntp 16) 4294967295) (Some now) (rr_MaxCumulativeLost r) (rr_JitterPeak r))
  | ReceiverReport blocks =>
    (foldl reportBlock
       (mkRtcp (rs_SenderReports s) (u32 (rs_ReceiverReports s + 1)) (rs_PacketsReceived s) (rs_ReportBlocks s)
          (rs_MaxFractionLost s) (rs_MaxJitter s) (rs_MinJitter s) (rs_JitterSum s) (rs_JitterSamples s)) blocks, r)
  | OtherRTCP => st
  end.

(** [processInboundRTCPPayload]; [None] is a payload that does not parse. *)
Definition processInboundRTCPPayload (now : Z) (parsed : option (list rtcp_in)) (st : rtcp_stats * reception)
    : rtcp_stats * reception :=
  match parsed with
  | None => st
  | Some packets =>
    let '(s, r) := st in
    foldl (ingest now)
      (mkRtcp (rs_SenderReports s) (rs_ReceiverReports s) (u32 (rs_PacketsReceived s + Z.of_nat (length packets)))
         (rs_ReportBlocks s) (rs_MaxFractionLost s) (rs_MaxJitter s) (rs_MinJitter s) (rs_JitterSum s)
         (rs_JitterSamples s), r) packets
  end.

(** [toNTPTime] of a time in nanoseconds since the epoch. *)
Definition toNTPTime (t : Z) : Z :=
  let secs := u64 (t / 1000000000 + 2208988800) in
  let frac := u64 (int64_of_float
    (fmul (fdiv (float_of_int (t mod 1000000000)) (float_of_int 1000000000)) (float_of_int (2 ^ 32)))) in
  Z.lor (u64 (Z.shiftl secs 32)) frac.

(** ** Waiting for RTP *)

Inductive RTPCheckDirection := RTPCheckAny | RTPCheckSend | RTPCheckRecv | RTPCheckBoth.

#[global] Instance RTPCheckDirection_eq_dec : EqDecision RTPCheckDirection.
Proof. solve_decision. Defined.

(** The test of one turn of [WaitForRTPActivity]. *)
Definition rtpActivity (minPackets : Z) (direction : RTPCheckDirection) (sent received : Z) : bool :=
  match direction with
  | RTPCheckSend => minPackets <=? sent
  | RTPCheckRecv => minPackets <=? received
  | RTPCheckBoth => (minPackets <=? sent) && (minPackets <=? received)
  | RTPCheckAny => minPackets <=? u32 (sent + received)
  end.

(** [WaitForRTPActivity] over the counters seen at each turn before the context
    ends: whether it succeeds. *)
Fixpoint waitRTP (minPackets : Z) (direction : RTPCheckDirection) (seen : list (Z * Z)) : bool :=
  match seen with
  | [] => false
  | (sent, received) :: rest => rtpActivity minPackets direction sent received || waitRTP minPackets direction rest
  end.

Definition WaitForRTPActivity (minPackets : Z) (direction : RTPCheckDirection) (seen : list (Z * Z)) : bool :=
  waitRTP (if minPackets =? 0 then 1 else minPackets) direction seen.

Record rtpcheckSpec := mkCheck { ck_minPackets : Z; ck_timeout : Z; ck_direction : RTPCheckDirection }.

Definition rtpcheckToken (spec : rtpcheckSpec) (token : str) : option rtpcheckSpec :=
  match Cut token x3d with
  | None => Some spec
  | Some (k, v) =>
    let key := ToLower (TrimSpace k) in
    let val := Trim is_quote (TrimSpace v) in
    let low := ToLower val in
    let dir d := Some (mkCheck (ck_minPackets spec) (ck_timeout spec) d) in
    if bool_decide (key = lit "min_packets") || bool_decide (key = lit "min") || bool_decide (key = lit "packets") then
      match ParseUint 32 val with
      | Some n => if n =? 0 then None else Some (mkCheck n (ck_timeout spec) (ck_direction spec))
      | None => None
      end
    else if bool_decide (key = lit "timeout_ms") then
      match Atoi val with
      | Some n => if n <=? 0 then None else Some (mkCheck (ck_minPackets spec) (i64 (n * millisecond)) (ck_direction spec))
      | None => None
      end
    else if bool_decide (key = lit "bidirectional") then
      if bool_decide (low = lit "1") || bool_decide (low = lit "true") || bool_decide (low = lit "yes") then dir RTPCheckBoth
      else if bool_decide (low = lit "0") || bool_decide (low = lit "false") || bool_decide (low = lit "no") then dir RTPCheckAny
      else None
    else if bool_decide (key = lit "direction") then
      if bool_decide (low = lit "any") then dir RTPCheckAny
      else if bool_decide (low = lit "send") || bool_decide (low = lit "tx") then dir RTPCheckSend
      else if bool_decide (low = lit "recv") || bool_decide (low = lit "rx") || bool_decide (low = lit "receive") then dir RTPCheckRecv
      else if bool_decide (low = lit "both") || bool_decide (low = lit "bidirectional") then dir RTPCheckBoth
      else None
    else Some spec
  end.

Fixpoint rtpcheckTokens (spec : rtpcheckSpec) (tokens : list str) : option rtpcheckSpec :=
  match tokens with
  | [] => Some spec
  | t :: rest => match rtpcheckToken spec t with Some spec => rtpcheckTokens spec rest | None => None end
  end.

(** [parseRTPCheckSpec] of the rendered text. *)
Definition parseRTPCheckSpec (rendered : str) : option rtpcheckSpec :=
  let spec := mkCheck 1 1000000000 RTPCheckAny in
  let trimmed := TrimSpace rendered in
  if bool_decide (trimmed = []) then Some spec
  else if negb (Contains trimmed (lit "=")) then
    match ParseUint 32 trimmed with
    | Some n => if n =? 0 then None else Some (mkCheck n (ck_timeout spec) (ck_direction spec))
    | None => None
    end
  else rtpcheckTokens spec (Fields trimmed).

(** ** Recording *)

Inductive record_error := RecordEmpty | RecordUnknown | RecordNoPath | RecordEmptyPath | RecordNotRunning | RecordMkdir.

(** [ParseRTPRecordSpec]: [None] is [stop], otherwise the path and whether both
    directions are recorded. *)
Definition ParseRTPRecordSpec (spec : str) : result record_error (option (str * bool)) :=
  let spec := TrimSpace (ToLower spec) in
  if bool_decide (spec = []) then Err RecordEmpty
  else if bool_decide (spec = lit "stop") then Ok None
  else if negb (HasPrefix spec (lit "start,")) then Err RecordUnknown
  else
    let rest := TrimSpace (drop 6 spec) in
    if bool_decide (rest = []) then Err RecordNoPath
    else
      let parts := Split rest x2c in
      let path := TrimSpace (hd [] parts) in
      if bool_decide (path = []) then Err RecordEmptyPath
      else Ok (Some (path, match parts with
                           | _ :: p :: _ => bool_decide (TrimSpace (ToLower p) = lit "duplex")
                           | _ => false
                           end)).

(** The recording fields of [Session]. *)
Record recording := mkRecording {
  rc_running : bool; rc_rec : recorder; rc_duplex : bool; rc_sent : list Z; rc_path : str }.

(** What stopping does to the disk. *)
Inductive disk_effect := NoEffect | RemoveFile (path : str) | WriteWAV (path : str) (data : option str).

(** The two channels of a duplex recording, side by side. *)
Definition interleave (sent recv : list Z) : list Z :=
  flat_map (fun i => [nth i sent 0; nth i recv 0]) (seq 0 (Nat.max (length sent) (length recv))).

Definition stopRecordingLocked (s : recording) : disk_effect * recording :=
  if negb (rr_recordOn (rc_rec s)) && bool_decide (rc_path s = []) then (NoEffect, s)
  else
    let recv := rr_recv (rc_rec s) in
    let sent := rc_sent s in
    let s' := mkRecording (rc_running s) (mkRecorder false false 0 [] []) (rc_duplex s) [] [] in
    if bool_decide (rc_path s = []) then (NoEffect, s')
    else if (length recv =? 0)%nat && (negb (rc_duplex s) || (length sent =? 0)%nat) then (RemoveFile (rc_path s), s')
    else if rc_duplex s then (WriteWAV (rc_path s) (writeWAVPCM16LE 8000 2 (interleave sent recv)), s')
    else (WriteWAV (rc_path s) (writeWAVPCM16LE 8000 1 recv), s').

(** [StartRecording]; [mkdir] is whether the directory of a path can be made. *)
Definition StartRecording (mkdir : str -> bool) (path : str) (duplex : bool) (basePath : str) (s : recording)
    : result record_error disk_effect * recording :=
  if negb (rc_running s) then (Err RecordNotRunning, s)
  else
    let '(eff, s) := if rr_recordOn (rc_rec s) then stopRecordingLocked s else (NoEffect, s) in
    let path := ResolvePath basePath path in
    if negb (mkdir path) then (Err RecordMkdir, s)
    else (Ok eff, mkRecording (rc_running s) (mkRecorder true false 0 [] []) duplex [] path).

Definition appendRecordOutbound (pt : Z) (payload : str) (s : recording) : recording :=
  if negb (rr_recordOn (rc_rec s)) || negb (rc_duplex s) then s
  else match pcmFromPayload pt payload with
       | [] => s
       | pcm => mkRecording (rc_running s) (rc_rec s) (rc_duplex s) (rc_sent s ++ pcm) (rc_path s)
       end.

Definition appendRecordInbound (sequence pt : Z) (payload : str) (s : recording) : recording :=
  mkRecording (rc_running s) (appendRecordInboundWithJitter sequence pt payload (rc_rec s)) (rc_duplex s) (rc_sent s) (rc_path s).

(** * Properties *)

(** ** Reception *)

(** Packets by their index in the stream: each is within half the sequence
    space of the highest index so far. *)
Fixpoint in_window (hi : Z) (idx : list Z) : Prop :=
  match idx with
  | [] => True
  | i :: rest => hi - 32768 <= i <= hi + 32767 /\ in_window (Z.max hi i) rest
  end.

Definition packet (ssrc s0 : Z) (i ts : Z) : rtp_in := mkRtpIn ssrc (u16 (s0 + i)) ts.

(** What the statistics say once packets up to index [hi] have been seen, [n] of
    them. *)
Definition received (ssrc s0 hi n : Z) (r : reception) : Prop :=
  rr_HasFirst r = true /\ rr_SSRC r = ssrc /\ rr_FirstSeq r = u16 s0 /\ rr_ExtHighSeq r = u16 s0 + hi /\
  rr_Received r = n /\ 0 <= hi.

Lemma i16_small z x : -32768 <= x <= 32767 -> z mod 65536 = x mod 65536 -> i16 z = x.
Proof.
  intros H E. unfold i16. change (2 ^ 16) with 65536. change (2 ^ 15) with 32768. rewrite E.
  destruct (Z.lt_ge_cases x 0).
  - replace (x mod 65536) with (x + 65536) by (apply (Z.mod_unique _ _ (-1)); lia). case_match; bool_to_prop; lia.
  - rewrite Z.mod_small by lia. case_match; bool_to_prop; lia.
Qed.

Lemma i32_id z : 0 <= z < 2 ^ 31 -> i32 z = z.
Proof. intros H. unfold i32. rewrite Z.mod_small by lia. by rewrite (proj2 (Z.ltb_lt _ _)) by lia. Qed.

Lemma i32_diff a b : 0 <= a < 2 ^ 31 -> 0 <= b < 2 ^ 31 -> i32 (i32 a - i32 b) = a - b.
Proof.
  intros Ha Hb. rewrite (i32_id a), (i32_id b) by done. unfold i32. destruct (Z.lt_ge_cases (a - b) 0).
  - replace ((a - b) mod 2 ^ 32) with (a - b + 2 ^ 32) by (apply (Z.mod_unique _ _ (-1)); lia).
    case_match; bool_to_prop; lia.
  - rewrite Z.mod_small by lia. case_match; bool_to_prop; lia.
Qed.

Lemma observe_received ssrc s0 hi n r i ts now :
  received ssrc s0 hi n r -> hi - 32768 <= i <= hi + 32767 -> Z.max hi i + 65536 < 2 ^ 31 -> 0 <= n < 2 ^ 31 - 1 ->
  let r' := observeRTPPacket (packet ssrc s0 i ts) now r in
  received ssrc s0 (Z.max hi i) (n + 1) r' /\ rr_Lost r' = Z.max 0 (Z.max hi i + 1 - (n + 1)).
Proof.
  intros (H1 & H2 & H3 & H4 & H5 & H6) Hi Hmax Hn. cbv zeta. unfold observeRTPPacket, packet. cbn [ri_SSRC ri_Sequence].
  rewrite H1, H2, Z.eqb_refl, H3, H4, H5. cbn [negb]. pose proof (u16_range s0).
  assert (i16 (u16 (s0 + i) - (u16 s0 + hi)) = i - hi) as ->.
  { apply i16_small; [lia|]. unfold u16. change (2 ^ 16) with 65536.
    rewrite Zminus_mod_idemp_l. replace (s0 + i - (s0 mod 65536 + hi)) with (s0 - s0 mod 65536 + (i - hi)) by lia.
    rewrite Zplus_mod, Zminus_mod_idemp_r, Z.sub_diag, Z.mod_0_l, Z.add_0_l by lia. apply Zmod_mod. }
  assert ((if 0 <? i - hi then u32 (u16 s0 + hi + (i - hi)) else u16 s0 + hi) = u16 s0 + Z.max hi i) as ->.
  { destruct (Z.ltb_spec 0 (i - hi)); [|lia]. unfold u32. rewrite Z.mod_small by lia. lia. }
  assert (u32 (u16 s0 + Z.max hi i - u16 s0 + 1) = Z.max hi i + 1) as -> by (unfold u32; rewrite Z.mod_small; lia).
  assert (u32 (n + 1) = n + 1) as -> by (unfold u32; apply Z.mod_small; lia).
  rewrite i32_diff by lia. destruct (jitterStep _ _ _) as [rate jitter].
  cbn [rr_HasFirst rr_SSRC rr_FirstSeq rr_ExtHighSeq rr_Received rr_Lost].
  split; [repeat split; lia|]. destruct (Z.ltb_spec (Z.max hi i + 1 - (n + 1)) 0); lia.
Qed.

Definition observeAll (ssrc s0 : Z) (l : list (Z * Z * Z)) (r : reception) : reception :=
  foldl (fun r p => let '(i, ts, now) := p in observeRTPPacket (packet ssrc s0 i ts) now r) r l.

Lemma observe_all ssrc s0 l hi n r :
  received ssrc s0 hi n r -> rr_Lost r = Z.max 0 (hi + 1 - n) -> in_window hi (map (fun p => p.1.1) l) ->
  foldl Z.max hi (map (fun p => p.1.1) l) + 65536 < 2 ^ 31 -> 0 <= n -> n + Z.of_nat (length l) < 2 ^ 31 - 1 ->
  received ssrc s0 (foldl Z.max hi (map (fun p => p.1.1) l)) (n + Z.of_nat (length l)) (observeAll ssrc s0 l r) /\
  rr_Lost (observeAll ssrc s0 l r) = Z.max 0 (foldl Z.max hi (map (fun p => p.1.1) l) + 1 - (n + Z.of_nat (length l))).
Proof.
  revert hi n r. induction l as [|[[i ts] now] l IH]; intros hi n r Hr Hlost Hw Hmax Hn Hlen.
  - simpl. by rewrite Z.add_0_r.
  - cbn [map foldl fst in_window] in *. destruct Hw as [Hi Hw]. cbn [length] in Hlen.
    assert (forall l h, h <= foldl Z.max h l) as Hmono.
    { clear. intros l. induction l as [|x l IH]; intros h; [simpl; lia|]. cbn [foldl]. specialize (IH (Z.max h x)). lia. }
    pose proof (Hmono (map (fun p => p.1.1) l) (Z.max hi i)).
    destruct (observe_received ssrc s0 hi n r i ts now) as [Hr' Hl']; [done|done|lia|lia|].
    unfold observeAll. cbn [foldl length].
    replace (n + Z.of_nat (S (length l))) with (n + 1 + Z.of_nat (length l)) by lia. apply IH; try done; lia.
Qed.

(** The statistics of a stream are exact across wraps of the 16-bit sequence
    number: with every packet within half the sequence space of the highest
    one before it, in any order and with any duplicates, the extended highest
    sequence number is the first one plus the highest index, the packets are
    counted, and the loss is the packets expected less those received, or 0. *)
Theorem reception_statistics_exact ssrc s0 ts0 now0 l :
  in_window 0 (map (fun p => p.1.1) l) -> foldl Z.max 0 (map (fun p => p.1.1) l) + 65536 < 2 ^ 31 ->
  Z.of_nat (length l) < 2 ^ 31 - 2 ->
  let hi := foldl Z.max 0 (map (fun p => p.1.1) l) in
  let r := observeAll ssrc s0 ((0, ts0, now0) :: l) rrReset in
  rr_ExtHighSeq r = u16 s0 + hi /\ rr_Received r = 1 + Z.of_nat (length l) /\
  rr_Lost r = Z.max 0 (hi + 1 - (1 + Z.of_nat (length l))).
Proof.
  intros Hw Hmax Hl. cbv zeta. unfold observeAll. cbn [foldl]. fold (observeAll ssrc s0 l).
  assert (received ssrc s0 0 1 (observeRTPPacket (packet ssrc s0 0 ts0) now0 rrReset)) as H0.
  { unfold observeRTPPacket, packet, received. simpl. rewrite !Z.add_0_r. repeat split; lia. }
  destruct (observe_all ssrc s0 l 0 1 _ H0) as [(_ & _ & _ & H4 & H5 & _) H6]; [done|done|done|lia|lia|].
  done.
Qed.

Lemma reception_statistics_exact_witness :
  let l := [(1, 160, 20); (3, 480, 60); (2, 320, 70); (3, 480, 80); (6, 960, 120)] in
  let r := observeAll 7 65533 ((0, 0, 0) :: l) rrReset in
  rr_ExtHighSeq r = u16 65533 + 6 /\ rr_Received r = 1 + 5 /\ rr_Lost r = Z.max 0 (6 + 1 - (1 + 5)).
Proof.
  apply (reception_statistics_exact 7 65533 0 0 [(1, 160, 20); (3, 480, 60); (2, 320, 70); (3, 480, 80); (6, 960, 120)]).
  - simpl. lia.
  - simpl. lia.
  - simpl. lia.
Defined.

(** ** Recordings *)

(** Packets of a call in the order they are handled; the received ones carry
    consecutive sequence numbers. *)
Inductive media_event := Received (pt : Z) (payload : str) | Sent (pt : Z) (payload : str).

Fixpoint playEvents (seq : Z) (evs : list media_event) (s : recording) : recording :=
  match evs with
  | [] => s
  | Received pt p :: rest => playEvents (u16 (seq + 1)) rest (appendRecordInbound seq pt p s)
  | Sent pt p :: rest => playEvents seq rest (appendRecordOutbound pt p s)
  end.

Definition heard (evs : list media_event) : list Z :=
  flat_map (fun e => match e with Received pt p => pcmFromPayload pt p | Sent _ _ => [] end) evs.
Definition said (evs : list media_event) : list Z :=
  flat_map (fun e => match e with Sent pt p => pcmFromPayload pt p | Received _ _ => [] end) evs.

(** No received payload is empty, so every sequence number is used. *)
Definition no_gap (evs : list media_event) : Prop :=
  Forall (fun e => match e with Received _ p => p <> [] | Sent _ _ => True end) evs.

Lemma pcm_nonempty pt p : p <> [] -> pcmFromPayload pt p <> [].
Proof.
  destruct p as [|b p]; [done|]. intros _. unfold pcmFromPayload.
  destruct (decodeG711PayloadToPCM16 pt (b :: p)) eqn:E; [|done].
  destruct (Z.ltb_spec 0 (rfc2833SilenceSamples (b :: p))); [|done].
  intros H'%(f_equal length). rewrite length_replicate in H'. change (length []) with 0%nat in H'.
  destruct (24000 <? rfc2833SilenceSamples (b :: p)); lia.
Qed.

(** A recording in progress: the buffer is empty and the next number is known. *)
Definition in_progress (seq : Z) (s : recording) : Prop :=
  rr_recordOn (rc_rec s) = true /\ rr_seqBuf (rc_rec s) = [] /\
  (rr_haveNext (rc_rec s) = true -> rr_nextSeq (rc_rec s) = seq).

Lemma inbound_in_order seq pt p s : in_progress seq s -> p <> [] ->
  in_progress (u16 (seq + 1)) (appendRecordInbound seq pt p s) /\
  rr_recv (rc_rec (appendRecordInbound seq pt p s)) = rr_recv (rc_rec s) ++ pcmFromPayload pt p.
Proof.
  intros (Hon & Hbuf & Hnext) Hp. unfold appendRecordInbound, appendRecordInboundWithJitter. cbn [rc_rec].
  rewrite Hon. cbn [negb]. pose proof (pcm_nonempty pt p Hp) as Hne.
  destruct (pcmFromPayload pt p) as [|x pcm] eqn:E; [done|]. unfold pushRecordPCM.
  destruct (rr_haveNext (rc_rec s)) eqn:Eh.
  - rewrite Hnext, Z.eqb_refl, Hbuf by done. cbn [length drainRecordBufHead].
    unfold in_progress. cbn [rc_rec rr_recordOn rr_seqBuf rr_haveNext rr_nextSeq rr_recv]. by split.
  - cbn [rr_nextSeq rr_seqBuf rr_recordOn rr_haveNext rr_recv]. rewrite Z.eqb_refl, Hbuf. cbn [length drainRecordBufHead].
    unfold in_progress. cbn [rc_rec rr_recordOn rr_seqBuf rr_haveNext rr_nextSeq rr_recv]. by split.
Qed.

Lemma play_in_order evs seq s : in_progress seq s -> no_gap evs ->
  let s' := playEvents seq evs s in
  rr_recv (rc_rec s') = rr_recv (rc_rec s) ++ heard evs /\
  rc_sent s' = rc_sent s ++ (if rc_duplex s then said evs else []) /\
  rc_duplex s' = rc_duplex s /\ rc_path s' = rc_path s /\ rr_recordOn (rc_rec s') = true.
Proof.
  intros Hs Hg. cbv zeta. revert seq s Hs. induction Hg as [|e evs He Hg IH]; intros seq s Hs.
  - simpl. destruct Hs as [Hon _]. destruct (rc_duplex s); by rewrite !app_nil_r.
  - destruct e as [pt p|pt p]; cbn [playEvents heard said flat_map app].
    + destruct (inbound_in_order seq pt p s Hs He) as [Hs' Hr]. destruct (IH _ _ Hs') as (H1 & H2 & H3 & H4 & H5).
      rewrite H1, Hr, H2, H3, H4, <- app_assoc. done.
    + assert (in_progress seq (appendRecordOutbound pt p s) /\ rc_rec (appendRecordOutbound pt p s) = rc_rec s /\
        rc_duplex (appendRecordOutbound pt p s) = rc_duplex s /\ rc_path (appendRecordOutbound pt p s) = rc_path s /\
        rc_sent (appendRecordOutbound pt p s) = rc_sent s ++ (if rc_duplex s then pcmFromPayload pt p else []))
        as (Hs' & Hr & Hd & Hp & Hsent).
      { destruct Hs as (Hon & Hb & Hn). unfold appendRecordOutbound, in_progress. rewrite Hon. cbn [negb orb].
        destruct (rc_duplex s) eqn:Ed; cbn [negb]; [|by rewrite app_nil_r].
        destruct (pcmFromPayload pt p) eqn:Ep; [by rewrite app_nil_r|]. done. }
      destruct (IH _ _ Hs') as (H1 & H2 & H3 & H4 & H5). rewrite H1, H2, H3, H4, H5, Hr, Hd, Hp, Hsent.
      rewrite <- app_assoc. destruct (rc_duplex s); done.
Qed.

Lemma nth_interleave (sent recv : list Z) i :
  (i < Nat.max (length sent) (length recv))%nat ->
  nth (2 * i) (interleave sent recv) 0 = nth i sent 0 /\ nth (2 * i + 1) (interleave sent recv) 0 = nth i recv 0.
Proof.
  unfold interleave. generalize (Nat.max (length sent) (length recv)) as n. intros n Hi.
  assert (forall m k, (i < m)%nat ->
    nth (2 * i) (flat_map (fun i => [nth i sent 0; nth i recv 0]) (seq k m)) 0 = nth (k + i) sent 0 /\
    nth (2 * i + 1) (flat_map (fun i => [nth i sent 0; nth i recv 0]) (seq k m)) 0 = nth (k + i) recv 0) as H.
  { clear. induction i as [|i IH]; intros m k Hm; (destruct m as [|m]; [lia|]); cbn [seq flat_map app].
    - by rewrite Nat.add_0_r.
    - destruct (IH m (S k) ltac:(lia)) as [H1 H2].
      replace (2 * S i)%nat with (S (S (2 * i))) by lia. replace (S (S (2 * i)) + 1)%nat with (S (S (2 * i + 1))) by lia.
      cbn [nth]. rewrite H1, H2. split; f_equal; lia. }
  by apply (H n 0%nat).
Qed.

(** A recording that is started, fed and stopped leaves the file it should:
    no file when nothing was heard (and, for a duplex one, nothing said);
    otherwise a WAV file with the samples heard in order, or, for a duplex
    one, with what was said on the left and what was heard on the right
    channel, the shorter one padded with silence.  The session is then ready
    for another recording, and stopping again does nothing. *)
Theorem recording_file_content mkdir path duplex base s seq evs :
  rc_running s = true -> rr_recordOn (rc_rec s) = false -> mkdir (ResolvePath base path) = true ->
  ResolvePath base path <> [] -> no_gap evs ->
  exists s1, StartRecording mkdir path duplex base s = (Ok NoEffect, s1) /\
    let '(eff, s2) := stopRecordingLocked (playEvents seq evs s1) in
    eff = (if (length (heard evs) =? 0)%nat && (negb duplex || (length (said evs) =? 0)%nat)
           then RemoveFile (ResolvePath base path)
           else WriteWAV (ResolvePath base path)
                  (if duplex then writeWAVPCM16LE 8000 2 (interleave (said evs) (heard evs))
                   else writeWAVPCM16LE 8000 1 (heard evs))) /\
    (forall i, (i < Nat.max (length (said evs)) (length (heard evs)))%nat ->
       nth (2 * i) (interleave (said evs) (heard evs)) 0 = nth i (said evs) 0 /\
       nth (2 * i + 1) (interleave (said evs) (heard evs)) 0 = nth i (heard evs) 0) /\
    stopRecordingLocked s2 = (NoEffect, s2).
Proof.
  intros Hrun Hoff Hmk Hpath Hg. unfold StartRecording. rewrite Hrun, Hoff, Hmk. cbn [negb].
  eexists. split; [done|].
  set (s1 := mkRecording _ _ _ _ _).
  destruct (play_in_order evs seq s1) as (H1 & H2 & H3 & H4 & H5); [done|done|].
  unfold stopRecordingLocked at 1. rewrite H1, H2, H3, H4, H5. cbn [negb andb s1 rc_rec rr_recv rc_sent rc_duplex rc_path app].
  rewrite bool_decide_eq_false_2 by done.
  destruct duplex; cbn [negb orb].
  - destruct ((length (heard evs) =? 0)%nat && (length (said evs) =? 0)%nat); (split; [done|]);
      (split; [intros i Hi; by apply nth_interleave|done]).
  - rewrite andb_true_r. destruct (length (heard evs) =? 0)%nat; (split; [done|]);
      (split; [intros i Hi; by apply nth_interleave|done]).
Qed.

Definition idleRecording : recording := mkRecording true (mkRecorder false false 0 [] []) false [] [].
Definition demoEvents : list media_event :=
  [Received 0 (lit "ab"); Sent 8 (lit "x"); Received 0 (lit "c"); Sent 0 (lit "yz"); Sent 0 (lit "w")].

Lemma recording_file_content_witness :
  exists s1, StartRecording (fun _ => true) (lit "call.wav") true (lit "/tmp") idleRecording = (Ok NoEffect, s1) /\
    let '(eff, s2) := stopRecordingLocked (playEvents 65535 demoEvents s1) in
    eff = WriteWAV (lit "/tmp/call.wav") (writeWAVPCM16LE 8000 2 (interleave (said demoEvents) (heard demoEvents))) /\
    (forall i, (i < Nat.max (length (said demoEvents)) (length (heard demoEvents)))%nat ->
       nth (2 * i) (interleave (said demoEvents) (heard demoEvents)) 0 = nth i (said demoEvents) 0 /\
       nth (2 * i + 1) (interleave (said demoEvents) (heard demoEvents)) 0 = nth i (heard demoEvents) 0) /\
    stopRecordingLocked s2 = (NoEffect, s2).
Proof.
  apply (recording_file_content (fun _ => true) (lit "call.wav") true (lit "/tmp") idleRecording 65535 demoEvents);
    [reflexivity..|discriminate|].
  repeat constructor; discriminate.
Defined.

(** After a lost packet the ones behind it wait in the reordering buffer; when
    the recording stops they are thrown away. *)
Theorem recording_tail_dropped :
  let s0 := mkRecording true (mkRecorder true false 0 [] []) false [] (lit "a.wav") in
  let s := foldl (fun s q => appendRecordInbound q 0 [xff] s) s0 [10; 12; 13; 14; 15] in
  fst (stopRecordingLocked s) = WriteWAV (lit "a.wav") (writeWAVPCM16LE 8000 1 [99]) /\
  length (rr_seqBuf (rc_rec s)) = 4%nat.
Proof. vm_compute. done. Qed.

(** The whole specification is lower-cased, the path with it. *)
Theorem record_path_lowercased :
  ParseRTPRecordSpec (lit "start,/var/Recordings/Call.wav,duplex") = Ok (Some (lit "/var/recordings/call.wav", true)).
Proof. reflexivity. Qed.

(** ** The recorder of WebRTC calls ([g711_recorder.go]) *)

Record G711WAVRecorder := mkG711 { gr_on : bool; gr_path : str; gr_duplex : bool; gr_recv : list Z; gr_sent : list Z }.

Definition g711Stop (r : G711WAVRecorder) : disk_effect * G711WAVRecorder :=
  if negb (gr_on r) && bool_decide (gr_path r = []) then (NoEffect, r)
  else
    let r' := mkG711 false [] (gr_duplex r) [] [] in
    if bool_decide (gr_path r = []) then (NoEffect, r')
    else if (length (gr_recv r) =? 0)%nat && (negb (gr_duplex r) || (length (gr_sent r) =? 0)%nat) then (RemoveFile (gr_path r), r')
    else if gr_duplex r then (WriteWAV (gr_path r) (writeWAVPCM16LE 8000 2 (interleave (gr_sent r) (gr_recv r))), r')
    else (WriteWAV (gr_path r) (writeWAVPCM16LE 8000 1 (gr_recv r)), r').

Definition g711Start (mkdir : str -> bool) (path : str) (duplex : bool) (basePath : str) (r : G711WAVRecorder)
    : result record_error disk_effect * G711WAVRecorder :=
  let '(eff, r) := if gr_on r then g711Stop r else (NoEffect, r) in
  let path := ResolvePath basePath path in
  if negb (mkdir path) then (Err RecordMkdir, r) else (Ok eff, mkG711 true path duplex [] []).

(** [pcmFromCodecPayload]; every codec but PCMA is taken for PCMU. *)
Definition pcmFromCodecPayload (codec payload : str) : list Z :=
  decodeG711PayloadToPCM16 (if EqualFold codec (lit "PCMA") then 8 else 0) payload.

Definition AppendReceived (payload codec : str) (r : G711WAVRecorder) : G711WAVRecorder :=
  if negb (gr_on r) || (length payload =? 0)%nat then r
  else mkG711 (gr_on r) (gr_path r) (gr_duplex r) (gr_recv r ++ pcmFromCodecPayload codec payload) (gr_sent r).

Definition AppendSent (payload codec : str) (r : G711WAVRecorder) : G711WAVRecorder :=
  if negb (gr_on r) || negb (gr_duplex r) || (length payload =? 0)%nat then r
  else mkG711 (gr_on r) (gr_path r) (gr_duplex r) (gr_recv r) (gr_sent r ++ pcmFromCodecPayload codec payload).

(** The events of a call with the codec they came in. *)
Definition playG711 (codec : str) (evs : list media_event) (r : G711WAVRecorder) : G711WAVRecorder :=
  foldl (fun r e => match e with Received _ p => AppendReceived p codec r | Sent _ p => AppendSent p codec r end) r evs.

Lemma decode_empty pt : decodeG711PayloadToPCM16 pt [] = [].
Proof. unfold decodeG711PayloadToPCM16. by repeat case_match. Qed.

Lemma playG711_in_progress codec pt evs r :
  (if EqualFold codec (lit "PCMA") then 8 else 0) = pt -> gr_on r = true ->
  playG711 codec evs r =
    mkG711 true (gr_path r) (gr_duplex r)
      (gr_recv r ++ flat_map (fun e => match e with Received _ p => decodeG711PayloadToPCM16 pt p | Sent _ _ => [] end) evs)
      (gr_sent r ++ if gr_duplex r
                    then flat_map (fun e => match e with Sent _ p => decodeG711PayloadToPCM16 pt p | Received _ _ => [] end) evs else []).
Proof.
  intros Hpt. revert r. induction evs as [|e evs IH]; intros [on path duplex recv sent] Hon; cbn [gr_on] in Hon; subst on.
  - cbn. by destruct duplex; rewrite !app_nil_r.
  - cbn [playG711 foldl]. unfold playG711 in IH. destruct e as [q p|q p].
    + rewrite IH by (unfold AppendReceived; by destruct p). unfold AppendReceived, pcmFromCodecPayload. rewrite Hpt.
      destruct p as [|b p]; cbn [gr_on negb orb length Nat.eqb gr_path gr_duplex gr_recv gr_sent flat_map];
        [by rewrite decode_empty|by rewrite <- app_assoc].
    + rewrite IH by (unfold AppendSent; by destruct p, duplex). unfold AppendSent, pcmFromCodecPayload. rewrite Hpt.
      destruct p as [|b p], duplex; cbn [gr_on negb orb length Nat.eqb gr_path gr_duplex gr_recv gr_sent flat_map];
        rewrite ?decode_empty, <- ?app_assoc; done.
Qed.

(** The recorder of WebRTC calls writes what was heard and said: started,
    fed with payloads of one codec and stopped, it leaves the WAV file of the
    decoded samples, both channels when the recording is duplex, or no file
    when there were none; and it is then idle again. *)
Theorem g711_recorder_content mkdir path duplex base codec evs :
  mkdir (ResolvePath base path) = true -> ResolvePath base path <> [] ->
  let pt := if EqualFold codec (lit "PCMA") then 8 else 0 in
  let recv := flat_map (fun e => match e with Received _ p => decodeG711PayloadToPCM16 pt p | Sent _ _ => [] end) evs in
  let sent := flat_map (fun e => match e with Sent _ p => decodeG711PayloadToPCM16 pt p | Received _ _ => [] end) evs in
  exists r1, g711Start mkdir path duplex base (mkG711 false [] false [] []) = (Ok NoEffect, r1) /\
    let '(eff, r2) := g711Stop (playG711 codec evs r1) in
    eff = (if (length recv =? 0)%nat && (negb duplex || (length sent =? 0)%nat) then RemoveFile (ResolvePath base path)
           else WriteWAV (ResolvePath base path)
                  (if duplex then writeWAVPCM16LE 8000 2 (interleave sent recv) else writeWAVPCM16LE 8000 1 recv)) /\
    g711Stop r2 = (NoEffect, r2).
Proof.
  intros Hm Hp pt recv sent. unfold g711Start. cbn [gr_on]. rewrite Hm. cbn [negb]. eexists. split; [done|].
  rewrite (playG711_in_progress codec pt) by done. cbn [gr_path gr_duplex gr_recv gr_sent app]. fold recv sent.
  unfold g711Stop. cbn [gr_on gr_path gr_duplex gr_recv gr_sent negb andb]. rewrite bool_decide_false by done.
  destruct duplex; cbn [negb orb].
  - by destruct (_ && _).
  - by destruct (length recv =? 0)%nat.
Qed.

Lemma g711_recorder_content_witness :
  exists r1, g711Start (fun _ => true) (lit "c.wav") true (lit "/tmp") (mkG711 false [] false [] []) = (Ok NoEffect, r1) /\
    match g711Stop (playG711 (lit "pcma") demoEvents r1) with
    | (eff, r2) =>
      eff = WriteWAV (lit "/tmp/c.wav") (writeWAVPCM16LE 8000 2 (interleave
              (flat_map (fun e => match e with Sent _ p => decodeG711PayloadToPCM16 8 p | Received _ _ => [] end) demoEvents)
              (flat_map (fun e => match e with Received _ p => decodeG711PayloadToPCM16 8 p | Sent _ _ => [] end) demoEvents))) /\
      g711Stop r2 = (NoEffect, r2)
    end.
Proof.
  apply (g711_recorder_content (fun _ => true) (lit "c.wav") true (lit "/tmp") (lit "pcma") demoEvents); [reflexivity|discriminate].
Defined.
