(* ===== verification/Regex.v ===== *)
(** * Regular expressions

    The fragment of Go's [regexp] the scenario generator uses: byte classes,
    sequence, alternatives in order of preference, greedy repetition of a
    class, and [^] anchored at line starts.  Matching is leftmost, and among
    the matches at a position the one a backtracking search finds first, as
    the package documents.  The classes used never cut a UTF-8 sequence, so
    matching bytes is matching runes. *)

From stdpp Require Import base list strings.
From Stdlib Require Import ZArith Lia Strings.Byte.
From S2P Require Import Prelude GoStrings.

Inductive re :=
  | Eps
  | Cls (p : byte -> bool)
  | Cat (a b : re)
  | Alt (a b : re)
  | Star (p : byte -> bool).

(** Repetition takes as much as it can and gives back what the rest needs. *)
Fixpoint star (p : byte -> bool) (s : str) (k : str -> option str) : option str :=
  match s with
  | c :: r => if p c then match star p r k with Some t => Some t | None => k s end else k s
  | [] => k []
  end.

(** What is left after a match of [e] from which [k] succeeds. *)
Fixpoint rmatch (e : re) (s : str) (k : str -> option str) : option str :=
  match e with
  | Eps => k s
  | Cls p => match s with c :: r => if p c then k r else None | [] => None end
  | Cat a b => rmatch a s (fun t => rmatch b t k)
  | Alt a b => match rmatch a s k with Some t => Some t | None => rmatch b s k end
  | Star p => star p s k
  end.

Definition matches (e : re) (s : str) : option str := rmatch e s Some.

Definition Plus (p : byte -> bool) : re := Cat (Cls p) (Star p).

(** A literal, and one under [(?i)]: a letter matches in both cases, and [s] and
    [k] also match the other runes that fold to them. *)
Definition chr (b : byte) : re := Cls (beqb b).
Definition chr_ci (b : byte) : re :=
  let base := Cls (fun c => beqb (lower_byte b) (lower_byte c)) in
  if beqb (lower_byte b) x73 then Alt base (Cat (chr xc5) (chr xbf))
  else if beqb (lower_byte b) x6b then Alt base (Cat (chr xe2) (Cat (chr x84) (chr xaa)))
  else base.
Definition word_re (f : byte -> re) (s : str) : re := foldr (fun b e => Cat (f b) e) Eps s.
Definition text (s : string) : re := word_re chr (lit s).
Definition text_ci (s : string) : re := word_re chr_ci (lit s).

(** [\s], [\S], [\d] and [[^\r\n]] *)
Definition re_space (b : byte) : bool := beqb b x09 || beqb b x0a || beqb b x0c || beqb b x0d || beqb b x20.
Definition re_nonspace (b : byte) : bool := negb (re_space b).
Definition re_digit (b : byte) : bool := in_range 48 57 b.
Definition re_noeol (b : byte) : bool := negb (is_crlf b).

(** [ReplaceAllStringFunc] of an expression that matches no empty text:
    [anchored] expressions match only at line starts, [bol] says whether the
    text is at one. *)
Fixpoint replace_re (fuel : nat) (anchored : bool) (e : re) (f : str -> str) (bol : bool) (s : str) : str :=
  match fuel with
  | O => s
  | S fuel =>
    match s with
    | [] => []
    | c :: r =>
      match (if anchored && negb bol then None else matches e s) with
      | Some rest =>
        let m := take (length s - length rest) s in
        f m ++ replace_re fuel anchored e f (bool_decide (last m = Some x0a)) rest
      | None => c :: replace_re fuel anchored e f (beqb c x0a) r
      end
    end
  end.

Definition ReplaceAllFunc (anchored : bool) (e : re) (f : str -> str) (s : str) : str :=
  replace_re (length s) anchored e f true s.
Definition ReplaceAllText (anchored : bool) (e : re) (t : str) (s : str) : str := ReplaceAllFunc anchored e (fun _ => t) s.

(** ** A match is a prefix *)

Lemma star_suffix p s k t : star p s k = Some t -> exists u v, s = u ++ v /\ k v = Some t.
Proof.
  revert t. induction s as [|c r IH]; intros t; cbn [star]; [intros H; by exists [], []|].
  destruct (p c); [|intros H; by exists [], (c :: r)].
  destruct (star p r k) as [x|] eqn:E; [|intros H; by exists [], (c :: r)].
  intros [= <-]. destruct (IH x eq_refl) as (u & v & -> & H). by exists (c :: u), v.
Qed.

Lemma rmatch_suffix e s k t : rmatch e s k = Some t -> exists u v, s = u ++ v /\ k v = Some t.
Proof.
  revert s k t. induction e as [|p|a IHa b IHb|a IHa b IHb|p]; intros s k t; cbn [rmatch].
  - intros H. by exists [], s.
  - destruct s as [|c r]; [done|]. destruct (p c); [|done]. intros H. by exists [c], r.
  - intros (u & v & -> & H)%IHa. apply IHb in H as (u' & v' & -> & H). exists (u ++ u'), v'. by rewrite app_assoc.
  - destruct (rmatch a s k) as [x|] eqn:E; [intros [= <-]; by apply IHa in E|apply IHb].
  - apply star_suffix.
Qed.

Lemma matches_suffix e s t : matches e s = Some t -> exists u, s = u ++ t.
Proof. intros (u & v & -> & [= ->])%rmatch_suffix. by exists u. Qed.

Example regex_examples :
  ReplaceAllText true (Cat (Alt (text_ci "v") (text_ci "via")) (Cat (text ":") (Plus re_noeol))) (lit "X")
    (lit "VIA: a" ++ [x0d; x0a] ++ lit "v:b" ++ [x0a] ++ lit "xv:c")
  = lit "X" ++ [x0d; x0a] ++ lit "X" ++ [x0a] ++ lit "xv:c".
Proof. reflexivity. Qed.
