(* ===== verification/Pcap2Scenario.v ===== *)
(** * Scenarios from captures

    [src/internal/pcap2scenario]: which datagrams are SIP, the dialog behind a
    list of captured messages, the RTP packets of each side, and the text of
    the two scenarios that replay the call.  Decoding capture files and TCP
    reassembly are gopacket's; writing files is left out. *)

From stdpp Require Import base list sets strings.
From Stdlib Require Import ZArith Lia Strings.Byte.
From S2P Require Import Prelude GoStrings GoFloat SipMessage NetAddr Encoding Sdp SipStream Regex.

(** ** Captured packets *)

(** A time is nanoseconds, absent for messages taken from TCP streams. *)
Record RawSIPPacket := mkSIPPacket {
  kp_Timestamp : option Z; kp_SrcIP : str; kp_SrcPort : Z; kp_DstIP : str; kp_DstPort : Z; kp_Message : Message }.

Record RawUDPPacket := mkUDPPacket {
  ku_Timestamp : Z; ku_SrcIP : str; ku_SrcPort : Z; ku_DstIP : str; ku_DstPort : Z; ku_Payload : str; ku_RawFrame : str }.

Definition sip_methods : list str :=
  map lit ["INVITE "; "ACK "; "BYE "; "CANCEL "; "OPTIONS "; "REGISTER "; "NOTIFY "; "SUBSCRIBE "; "PUBLISH "; "REFER ";
           "INFO "; "UPDATE "; "PRACK "; "SIP/2.0 "]%string.

Definition looksLikeSIP (data : str) : bool :=
  if (length data <? 7)%nat then false
  else existsb (fun kw => HasPrefix (take 20 data) kw) sip_methods.

(** The UDP branch of [Extract] for one datagram. *)
Definition extractUDP (sipPort : Z) (p : RawUDPPacket) : option RawSIPPacket :=
  if (length (ku_Payload p) =? 0)%nat then None
  else
    let isSIP := if 0 <? sipPort then (ku_SrcPort p =? sipPort) || (ku_DstPort p =? sipPort)
                 else looksLikeSIP (ku_Payload p) in
    if isSIP then
      match Parse (ku_Payload p) with
      | Ok msg =>
        if negb (bool_decide (Method msg = [])) || (0 <? StatusCode msg)
        then Some (mkSIPPacket (Some (ku_Timestamp p)) (ku_SrcIP p) (ku_SrcPort p) (ku_DstIP p) (ku_DstPort p) msg)
        else None
      | Err _ => None
      end
    else None.

(** ** The dialog *)

Definition noPacket : RawSIPPacket := mkSIPPacket None [] 0 [] 0 emptyMessage.

Record Dialog := mkDialog {
  dg_CallID : str;
  dg_CallerIP : str; dg_CallerSIPPort : Z; dg_CalleeIP : str; dg_CalleeSIPPort : Z;
  dg_CallerRTPIP : str; dg_CallerRTPPort : Z; dg_CalleeRTPIP : str; dg_CalleeRTPPort : Z;
  dg_INVITE : RawSIPPacket; dg_OK : RawSIPPacket; dg_ACK : RawSIPPacket; dg_BYE : RawSIPPacket; dg_BYEOK : RawSIPPacket;
  dg_AuthChallengeCode : Z; dg_AuthChallenge : RawSIPPacket; dg_AuthACK : RawSIPPacket; dg_AuthINVITE : RawSIPPacket;
  dg_CallDuration : Z }.

Definition header_or_empty (h : headers) (name : string) : str := default [] (Header h (lit name)).

Definition parseCSeqNum (h : headers) : Z :=
  match Fields (header_or_empty h "CSeq") with
  | n :: _ => default 0 (Atoi n)
  | [] => 0
  end.

(** [parseSDP]: the last connection address and the last audio port. *)
Definition sdp_step (acc : str * Z) (line : str) : str * Z :=
  let '(ip, port) := acc in
  (default ip (connectionLine line),
   if HasPrefix (ToLower line) (lit "m=audio ") then mediaLinePort line port else port).

Definition parseSDP (body : str) : str * Z := foldl sdp_step ([], 0) (sdp_lines body).

Definition codec_prefixes : list string :=
  ["a=rtpmap"; "a=fmtp"; "a=sendrecv"; "a=sendonly"; "a=recvonly"; "a=inactive"; "a=ptime"; "a=maxptime"]%string.

Definition sdpCodecLines (body : str) : list str :=
  filter (fun line => existsb (fun p => has p line) codec_prefixes = true) (sdp_lines body).

Fixpoint media_line (lines : list str) : str :=
  match lines with
  | [] => lit "RTP/AVP 0"
  | line :: rest =>
    if has "m=audio " line then
      match Fields line with
      | _ :: _ :: ((_ :: _) as fs) => GoStrings.Join fs (lit " ")
      | _ => media_line rest
      end
    else media_line rest
  end.

Definition sdpMediaLine (body : str) : str := media_line (sdp_lines body).

Definition msg_call_id (m : RawSIPPacket) : str := header_or_empty (Headers (kp_Message m)) "Call-ID".
Definition is_method (m : RawSIPPacket) (name : string) : bool := bool_decide (Method (kp_Message m) = lit name).
Definition status (m : RawSIPPacket) : Z := StatusCode (kp_Message m).
Definition no_method (m : RawSIPPacket) : bool := bool_decide (Method (kp_Message m) = []).
Definition cseq_has (m : RawSIPPacket) (name : string) : bool :=
  Contains (ToUpper (header_or_empty (Headers (kp_Message m)) "CSeq")) (lit name).

Definition setAuthChallenge (m : RawSIPPacket) (d : Dialog) : Dialog :=
  mkDialog (dg_CallID d) (dg_CallerIP d) (dg_CallerSIPPort d) (dg_CalleeIP d) (dg_CalleeSIPPort d)
    (dg_CallerRTPIP d) (dg_CallerRTPPort d) (dg_CalleeRTPIP d) (dg_CalleeRTPPort d)
    (dg_INVITE d) (dg_OK d) (dg_ACK d) (dg_BYE d) (dg_BYEOK d) (status m) m (dg_AuthACK d) (dg_AuthINVITE d) (dg_CallDuration d).
Definition setAuthACK (m : RawSIPPacket) (d : Dialog) : Dialog :=
  mkDialog (dg_CallID d) (dg_CallerIP d) (dg_CallerSIPPort d) (dg_CalleeIP d) (dg_CalleeSIPPort d)
    (dg_CallerRTPIP d) (dg_CallerRTPPort d) (dg_CalleeRTPIP d) (dg_CalleeRTPPort d)
    (dg_INVITE d) (dg_OK d) (dg_ACK d) (dg_BYE d) (dg_BYEOK d) (dg_AuthChallengeCode d) (dg_AuthChallenge d) m (dg_AuthINVITE d) (dg_CallDuration d).
Definition setAuthINVITE (m : RawSIPPacket) (d : Dialog) : Dialog :=
  let '(ip, port) := match Body (kp_Message m) with
                     | [] => (dg_CallerRTPIP d, dg_CallerRTPPort d)
                     | body => let '(ip, port) := parseSDP body in
                               if 0 <? port then (match ip with [] => dg_CallerRTPIP d | _ => ip end, port)
                               else (dg_CallerRTPIP d, dg_CallerRTPPort d)
                     end in
  mkDialog (dg_CallID d) (dg_CallerIP d) (dg_CallerSIPPort d) (dg_CalleeIP d) (dg_CalleeSIPPort d)
    ip port (dg_CalleeRTPIP d) (dg_CalleeRTPPort d)
    (dg_INVITE d) (dg_OK d) (dg_ACK d) (dg_BYE d) (dg_BYEOK d) (dg_AuthChallengeCode d) (dg_AuthChallenge d) (dg_AuthACK d) m (dg_CallDuration d).
Definition setOK (m : RawSIPPacket) (d : Dialog) : Dialog :=
  let '(ip, port) := match Body (kp_Message m) with
                     | [] => (dg_CalleeRTPIP d, dg_CalleeRTPPort d)
                     | body => let '(ip, port) := parseSDP body in (match ip with [] => kp_SrcIP m | _ => ip end, port)
                     end in
  mkDialog (dg_CallID d) (dg_CallerIP d) (dg_CallerSIPPort d) (dg_CalleeIP d) (dg_CalleeSIPPort d)
    (dg_CallerRTPIP d) (dg_CallerRTPPort d) ip port
    (dg_INVITE d) m (dg_ACK d) (dg_BYE d) (dg_BYEOK d) (dg_AuthChallengeCode d) (dg_AuthChallenge d) (dg_AuthACK d) (dg_AuthINVITE d) (dg_CallDuration d).
Definition setRest (ack bye byeok : RawSIPPacket) (d : Dialog) : Dialog :=
  mkDialog (dg_CallID d) (dg_CallerIP d) (dg_CallerSIPPort d) (dg_CalleeIP d) (dg_CalleeSIPPort d)
    (dg_CallerRTPIP d) (dg_CallerRTPPort d) (dg_CalleeRTPIP d) (dg_CalleeRTPPort d)
    (dg_INVITE d) (dg_OK d) ack bye byeok (dg_AuthChallengeCode d) (dg_AuthChallenge d) (dg_AuthACK d) (dg_AuthINVITE d) (dg_CallDuration d).
Definition setDuration (n : Z) (d : Dialog) : Dialog :=
  mkDialog (dg_CallID d) (dg_CallerIP d) (dg_CallerSIPPort d) (dg_CalleeIP d) (dg_CalleeSIPPort d)
    (dg_CallerRTPIP d) (dg_CallerRTPPort d) (dg_CalleeRTPIP d) (dg_CalleeRTPPort d)
    (dg_INVITE d) (dg_OK d) (dg_ACK d) (dg_BYE d) (dg_BYEOK d) (dg_AuthChallengeCode d) (dg_AuthChallenge d) (dg_AuthACK d) (dg_AuthINVITE d) n.

(** One message of the dialog: the [switch] of [BuildDialog]. *)
Definition dialogStep (inviteCSeq : Z) (d : Dialog) (m : RawSIPPacket) : Dialog :=
  let n := parseCSeqNum (Headers (kp_Message m)) in
  if ((status m =? 401) || (status m =? 407)) && cseq_has m "INVITE" && (n =? inviteCSeq) && (dg_AuthChallengeCode d =? 0)
  then setAuthChallenge m d
  else if is_method m "ACK" && (n =? inviteCSeq) && negb (dg_AuthChallengeCode d =? 0) && no_method (dg_AuthACK d)
  then setAuthACK m d
  else if is_method m "INVITE" && (inviteCSeq <? n) && no_method (dg_AuthINVITE d)
  then setAuthINVITE m d
  else if (status m =? 200) && cseq_has m "INVITE" && (status (dg_OK d) =? 0)
  then setOK m d
  else if is_method m "ACK" && negb (status (dg_OK d) =? 0) && no_method (dg_ACK d)
  then setRest m (dg_BYE d) (dg_BYEOK d) d
  else if is_method m "BYE" && no_method (dg_BYE d)
  then setRest (dg_ACK d) m (dg_BYEOK d) d
  else if (status m =? 200) && cseq_has m "BYE" && (status (dg_BYEOK d) =? 0)
  then setRest (dg_ACK d) (dg_BYE d) m d
  else d.

Definition openDialog (invite : RawSIPPacket) : Dialog :=
  let '(ip, port) := match Body (kp_Message invite) with
                     | [] => ([], 0)
                     | body => let '(ip, port) := parseSDP body in (match ip with [] => kp_SrcIP invite | _ => ip end, port)
                     end in
  mkDialog (msg_call_id invite) (kp_SrcIP invite) (kp_SrcPort invite) (kp_DstIP invite) (kp_DstPort invite)
    ip port [] 0 invite noPacket noPacket noPacket noPacket 0 noPacket noPacket noPacket 0.

Definition callDuration (d : Dialog) : Z :=
  let n := if no_method (dg_BYE d) then 0
           else match kp_Timestamp (dg_OK d), kp_Timestamp (dg_BYE d) with
                | Some ok, Some bye => if 0 <? bye - ok then bye - ok else 0
                | _, _ => 0
                end in
  if n =? 0 then 5000000000 else n.

Inductive dialog_error := NoInvite | NoCallID | NoOK.

Definition BuildDialog (messages : list RawSIPPacket) : result dialog_error Dialog :=
  match list_find (fun m => is_method m "INVITE" = true) messages with
  | None => Err NoInvite
  | Some (_, invite) =>
    if bool_decide (msg_call_id invite = []) then Err NoCallID
    else
      let cseq := parseCSeqNum (Headers (kp_Message invite)) in
      let d := foldl (fun d m => if bool_decide (msg_call_id m = msg_call_id invite) then dialogStep cseq d m else d)
                 (openDialog invite) messages in
      if status (dg_OK d) =? 0 then Err NoOK else Ok (setDuration (callDuration d) d)
  end.

(** ** RTP *)

(** The frames [writeRTPPcap] writes. *)
Definition rtpFrames (pkts : list RawUDPPacket) (rtpIP : str) (rtpPort : Z) : list RawUDPPacket :=
  if rtpPort =? 0 then []
  else filter (fun p => ((ku_SrcPort p =? rtpPort) || (ku_DstPort p =? rtpPort))
                        && (bool_decide (rtpIP = []) || bool_decide (ku_SrcIP p = rtpIP) || bool_decide (ku_DstIP p = rtpIP))
                        = true) pkts.

Definition SplitRTP (pkts : list RawUDPPacket) (d : Dialog) : list RawUDPPacket * list RawUDPPacket :=
  (rtpFrames pkts (dg_CallerRTPIP d) (dg_CallerRTPPort d), rtpFrames pkts (dg_CalleeRTPIP d) (dg_CalleeRTPPort d)).

(** ** Templates *)

(** The expressions of [templatizeUAC]. *)
Definition reVia : re :=
  Cat (Alt (text_ci "v") (text_ci "via"))
    (Cat (text ":") (Cat (Star re_space) (Cat (text_ci "SIP/2.0/") (Cat (Plus re_nonspace) (Cat (text " ") (Plus re_noeol)))))).
Definition reCallID : re :=
  Cat (Alt (text_ci "i") (text_ci "call-id")) (Cat (text ":") (Cat (Star re_space) (Plus re_noeol))).
Definition reContentLen : re :=
  Cat (Alt (text_ci "l") (text_ci "content-length")) (Cat (text ":") (Cat (Star re_space) (Plus re_digit))).
Definition reFromTag : re := Cat (Alt (text_ci "f") (text_ci "from")) (Cat (text ":") (Star re_noeol)).
Definition reToTagLine : re := Cat (Alt (text_ci "t") (text_ci "to")) (Cat (text ":") (Star re_noeol)).
Definition reRequestLine : re :=
  Cat (Alt (text "INVITE") (Alt (text "ACK") (Alt (text "BYE") (Alt (text "CANCEL") (text "OPTIONS")))))
    (Cat (text " sip:") (Cat (Plus re_nonspace) (text " SIP/2.0"))).
Definition re_tag_char (b : byte) : bool := negb (beqb b x3b || re_space b || beqb b x3e || is_crlf b).
Definition reTag : re := Cat (text ";tag=") (Plus re_tag_char).
Definition reSDPAudioPort : re := Cat (text "m=audio ") (Plus re_digit).
Definition reSDPO : re := Cat (text "o=") (Plus re_noeol).
Definition reSDPC : re := Cat (text "c=IN IP4 ") (Plus re_nonspace).
Definition reAuthorization : re :=
  Cat (Alt (text_ci "Authorization") (text_ci "Proxy-Authorization")) (Cat (text ":") (Cat (Star re_space) (Plus re_noeol))).

Definition hasBody (raw : str) : bool :=
  match Index raw (crlf ++ crlf) with
  | Some i => (i + 4 <? length raw)%nat
  | None => match Index raw (lf ++ lf) with
            | Some i => (i + 2 <? length raw)%nat
            | None => false
            end
  end.

(** Step 1: concrete addresses become variables. *)
Definition replaceAddresses (d : Dialog) (s : str) : str :=
  let s := if 0 <? dg_CallerSIPPort d
           then ReplaceAll s (dg_CallerIP d ++ lit ":" ++ Itoa (dg_CallerSIPPort d)) (lit "[local_ip]:[local_port]") else s in
  let s := if 0 <? dg_CalleeSIPPort d
           then ReplaceAll s (dg_CalleeIP d ++ lit ":" ++ Itoa (dg_CalleeSIPPort d)) (lit "[remote_ip]:[remote_port]") else s in
  let s := if negb (bool_decide (dg_CallerRTPIP d = [])) && negb (bool_decide (dg_CallerRTPIP d = dg_CallerIP d))
           then ReplaceAll s (dg_CallerRTPIP d) (lit "[local_ip]") else s in
  let s := if negb (bool_decide (dg_CalleeRTPIP d = [])) && negb (bool_decide (dg_CalleeRTPIP d = dg_CalleeIP d))
           then ReplaceAll s (dg_CalleeRTPIP d) (lit "[remote_ip]") else s in
  let s := if bool_decide (dg_CallerIP d = []) then s else ReplaceAll s (dg_CallerIP d) (lit "[local_ip]") in
  if bool_decide (dg_CalleeIP d = []) then s else ReplaceAll s (dg_CalleeIP d) (lit "[remote_ip]").

Definition requestLine (m : str) : str :=
  match Fields m with
  | method :: _ :: version :: _ => method ++ lit " sip:[service]@[remote_ip]:[remote_port] " ++ version
  | _ => m
  end.

Definition templatizeUAC (raw : str) (d : Dialog) : str :=
  match raw with
  | [] => []
  | _ =>
    let s := replaceAddresses d raw in
    let s := ReplaceAllText true reVia (lit "Via: SIP/2.0/[transport] [local_ip]:[local_port];branch=[branch]") s in
    let s := ReplaceAllText true reCallID (lit "Call-ID: [call_id]") s in
    let s := ReplaceAllText true reContentLen (if hasBody s then lit "Content-Length: [len]" else lit "Content-Length: 0") s in
    let s := ReplaceAllFunc true reFromTag (ReplaceAllText false reTag (lit ";tag=[pid]GossipTag00[call_number]")) s in
    let s := ReplaceAllFunc true reToTagLine (ReplaceAllText false reTag (lit "[peer_tag_param]")) s in
    let s := ReplaceAllFunc true reRequestLine requestLine s in
    let s := ReplaceAllText true reSDPO (lit "o=- 0 0 IN IP4 [local_ip]") s in
    let s := ReplaceAllText true reSDPC (lit "c=IN IP4 [local_ip]") s in
    let s := ReplaceAllText true reSDPAudioPort (lit "m=audio [media_port]") s in
    let s := ReplaceAllText true reAuthorization (lit "[authentication]") s in
    TrimRight is_crlf s
  end.

(** The lines of a message, each ended by CR LF, and a blank line. *)
Definition wire (lines : list string) : str := flat_map (fun l => lit l ++ crlf) lines ++ crlf.

Definition synthACKToChal (d : Dialog) : str :=
  let n := parseCSeqNum (Headers (kp_Message (dg_INVITE d))) in
  let n := if n =? 0 then 1 else n in
  flat_map (fun l => l ++ crlf)
    [lit "ACK sip:[service]@[remote_ip]:[remote_port] SIP/2.0";
     lit "Via: SIP/2.0/[transport] [local_ip]:[local_port];branch=[branch]";
     lit "From: <sip:[service]@[local_ip]:[local_port]>;tag=[pid]GossipTag00[call_number]";
     lit "To: <sip:[service]@[remote_ip]:[remote_port]>[peer_tag_param]";
     lit "Call-ID: [call_id]"; lit "CSeq: " ++ Itoa n ++ lit " ACK"; lit "Max-Forwards: 70"; lit "Content-Length: 0"] ++ crlf.

Definition synthACK : str :=
  wire ["ACK sip:[service]@[remote_ip]:[remote_port] SIP/2.0";
        "Via: SIP/2.0/[transport] [local_ip]:[local_port];branch=[branch]";
        "From: <sip:[service]@[local_ip]:[local_port]>;tag=[pid]GossipTag00[call_number]";
        "To: <sip:[service]@[remote_ip]:[remote_port]>[peer_tag_param]";
        "Call-ID: [call_id]"; "CSeq: 1 ACK";
        "Contact: <sip:[service]@[local_ip]:[local_port];transport=[transport]>"; "Max-Forwards: 70"; "Content-Length: 0"]%string.

Definition synthBYE : str :=
  wire ["BYE sip:[service]@[remote_ip]:[remote_port] SIP/2.0";
        "Via: SIP/2.0/[transport] [local_ip]:[local_port];branch=[branch]";
        "From: <sip:[service]@[local_ip]:[local_port]>;tag=[pid]GossipTag00[call_number]";
        "To: <sip:[service]@[remote_ip]:[remote_port]>[peer_tag_param]";
        "Call-ID: [call_id]"; "CSeq: 2 BYE";
        "Contact: <sip:[service]@[local_ip]:[local_port];transport=[transport]>"; "Max-Forwards: 70"; "Content-Length: 0"]%string.

Definition buildSDP (ip port mediaLine : str) (codecLines : list str) : str :=
  flat_map (fun l => l ++ crlf)
    ([lit "v=0"; lit "o=- 0 0 IN IP4 " ++ ip; lit "s=-"; lit "c=IN IP4 " ++ ip; lit "t=0 0";
      lit "m=audio " ++ port ++ lit " " ++ mediaLine] ++ codecLines).

Definition default_codecs : list str := [lit "a=rtpmap:0 PCMU/8000"; lit "a=sendrecv"].

Definition synthINVITE (d : Dialog) : str :=
  let body := Body (kp_Message (dg_INVITE d)) in
  let codecs := match sdpCodecLines body with [] => default_codecs | l => l end in
  let media := match sdpMediaLine body with [] => lit "RTP/AVP 0" | l => l end in
  let sdp := buildSDP (lit "[local_ip]") (lit "[media_port]") media codecs in
  flat_map (fun l => l ++ crlf)
    [lit "INVITE sip:[service]@[remote_ip]:[remote_port] SIP/2.0";
     lit "Via: SIP/2.0/[transport] [local_ip]:[local_port];branch=[branch]";
     lit "From: <sip:[service]@[local_ip]:[local_port]>;tag=[pid]GossipTag00[call_number]";
     lit "To: <sip:[service]@[remote_ip]:[remote_port]>"; lit "Call-ID: [call_id]"; lit "CSeq: 1 INVITE";
     lit "Contact: <sip:[service]@[local_ip]:[local_port];transport=[transport]>"; lit "Max-Forwards: 70";
     lit "Content-Type: application/sdp"; lit "Content-Length: " ++ Itoa (Z.of_nat (length sdp))] ++ crlf ++ sdp.

(** [buildAuthINVITE] *)
Definition reCSeq : re :=
  Cat (text_ci "CSeq:") (Cat (Star re_space) (Cat (Plus re_digit) (Cat (Plus re_space) (text_ci "INVITE")))).
Definition bumpCSeq (m : str) : str :=
  match Fields m with
  | _ :: n :: _ :: _ => match Atoi n with
                        | Some v => lit "CSeq: " ++ Itoa (i64 (v + 1)) ++ lit " INVITE"
                        | None => m
                        end
  | _ => m
  end.
Definition reInsert : re := Alt (text_ci "Contact:") (Alt (text_ci "Content-Length:") (text_ci "Content-Type:")).

(** The first match of [reInsert] gets a line in front, the others stay. *)
Fixpoint insert_first (fuel : nat) (bol : bool) (s : str) : option str :=
  match fuel with
  | O => None
  | S fuel =>
    match s with
    | [] => None
    | c :: r =>
      if bol && match matches reInsert s with Some _ => true | None => false end
      then Some (lit "[authentication]" ++ crlf ++ s)
      else cons c <$> insert_first fuel (beqb c x0a) r
    end
  end.

(** [strings.Replace(s, old, new, 1)] *)
Definition ReplaceFirst (s old new : str) : str :=
  match Index s old with
  | Some i => take i s ++ new ++ drop (i + length old) s
  | None => s
  end.

Definition buildAuthINVITE (d : Dialog) : str :=
  match Raw (kp_Message (dg_AuthINVITE d)) with
  | (_ :: _) as raw => templatizeUAC raw d
  | [] =>
    let base := match templatizeUAC (Raw (kp_Message (dg_INVITE d))) d with [] => synthINVITE d | t => t end in
    let base := ReplaceAllFunc true reCSeq bumpCSeq base in
    match insert_first (length base) true base with
    | Some t => t
    | None =>
      let base := ReplaceFirst base (crlf ++ crlf) (crlf ++ lit "[authentication]" ++ crlf ++ crlf) in
      if Contains base (lit "[authentication]") then base
      else ReplaceFirst base (lf ++ lf) (lf ++ lit "[authentication]" ++ lf ++ lf)
    end
  end.

(** ** The scenario text *)

Definition xmlEscape (s : str) : str :=
  let s := ReplaceAll s (lit "&") (lit "&amp;") in
  let s := ReplaceAll s (lit "<") (lit "&lt;") in
  let s := ReplaceAll s (lit ">") (lit "&gt;") in
  ReplaceAll s [x22] (lit "&quot;").

(** A quoted attribute value; lines of text. *)
Definition quoted (s : str) : str := [x22] ++ s ++ [x22].
Definition ln (s : str) : str := s ++ lf.
Definition lns (l : list string) : str := flat_map (fun s => ln (lit s)) l.

Definition xml_head (title pcapName : str) : str :=
  ln (lit "<?xml version=" ++ quoted (lit "1.0") ++ lit " encoding=" ++ quoted (lit "UTF-8") ++ lit "?>")
  ++ lit "<scenario name=" ++ quoted (title ++ lit " (from " ++ xmlEscape pcapName ++ lit ")") ++ lit ">" ++ lf ++ lf.

(** A [send] element around a message. *)
Definition xml_send (retrans : bool) (msg : str) : str :=
  ln (if retrans then lit "  <send retrans=" ++ quoted (lit "500") ++ lit ">" else lit "  <send>")
  ++ ln (lit "    <![CDATA[") ++ msg ++ lf ++ lns ["]]>"; "  </send>"; ""]%string.

Definition xml_recv_play (attr value : str) (rtd : bool) (file : str) : str :=
  ln (lit "  <recv " ++ attr ++ lit "=" ++ quoted value ++ (if rtd then lit " rtd=" ++ quoted (lit "true") else []) ++ lit ">")
  ++ ln (lit "    <action>")
  ++ ln (lit "      <exec play_pcap_audio=" ++ quoted (xmlEscape file) ++ lit "/>")
  ++ lns ["    </action>"; "  </recv>"; ""]%string.

Definition xml_hold (d : Dialog) : str :=
  lit "  <pause milliseconds=" ++ quoted (Itoa (Z.quot (dg_CallDuration d) 1000000)) ++ lit "/>" ++ lf ++ lf
  ++ lns ["  <nop>"; "    <action>"]%string
  ++ ln (lit "      <exec rtp_stream=" ++ quoted (lit "stop") ++ lit "/>")
  ++ lns ["    </action>"; "  </nop>"; ""]%string.

Definition xml_recv (attr value : str) (optional : bool) : str :=
  lit "  <recv " ++ attr ++ lit "=" ++ quoted value ++ (if optional then lit " optional=" ++ quoted (lit "true") else [])
  ++ lit "/>" ++ lf.

Definition or_else (s t : str) : str := match s with [] => t | _ => s end.

Definition buildUAC (d : Dialog) (rtpFile pcapName : str) : str :=
  let invite := or_else (templatizeUAC (Raw (kp_Message (dg_INVITE d))) d) (synthINVITE d) in
  let ack := or_else (templatizeUAC (Raw (kp_Message (dg_ACK d))) d) synthACK in
  let bye := or_else (templatizeUAC (Raw (kp_Message (dg_BYE d))) d) synthBYE in
  xml_head (lit "pcap-uac") pcapName
  ++ (if dg_AuthChallengeCode d =? 0 then xml_send true invite
      else xml_send true invite
           ++ xml_recv (lit "response") (Itoa (dg_AuthChallengeCode d)) false ++ lf
           ++ xml_send false (or_else (templatizeUAC (Raw (kp_Message (dg_AuthACK d))) d) (synthACKToChal d))
           ++ xml_send true (buildAuthINVITE d))
  ++ xml_recv (lit "response") (lit "100") true ++ xml_recv (lit "response") (lit "180") true
  ++ xml_recv_play (lit "response") (lit "200") true rtpFile
  ++ xml_send false ack ++ xml_hold d
  ++ (if no_method (dg_BYE d) then []
      else xml_send true bye ++ xml_recv (lit "response") (lit "200") false ++ lf)
  ++ ln (lit "</scenario>").

Definition buildCalleeSDP (d : Dialog) : str :=
  let body := Body (kp_Message (dg_OK d)) in
  let media := match body with [] => lit "RTP/AVP 0" | _ => sdpMediaLine body end in
  let codecs := match body with
                | [] => default_codecs
                | _ => match sdpCodecLines body with [] => default_codecs | l => l end
                end in
  TrimRight (fun b => beqb b x0a)
    (lns ["v=0"; "o=- 0 0 IN IP4 [local_ip]"; "s=-"; "c=IN IP4 [local_ip]"; "t=0 0"]%string
     ++ ln (lit "m=audio [media_port] " ++ media) ++ flat_map ln codecs).

(** The headers a response copies from the last request. *)
Definition response_head (line : string) : list string :=
  [line; "[last_Via:]"; "[last_From:]"; "[last_To:];tag=[pid]GossipTag01[call_number]"; "[last_Call-ID:]"; "[last_CSeq:]"]%string.
Definition contact_line : string := "Contact: <sip:[local_ip]:[local_port];transport=[transport]>".

Definition buildUAS (d : Dialog) (rtpFile pcapName : str) : str :=
  xml_head (lit "pcap-uas") pcapName
  ++ xml_recv (lit "request") (lit "INVITE") false ++ lf
  ++ xml_send false (lns (response_head "SIP/2.0 180 Ringing" ++ [contact_line; "Content-Length: 0"%string]))
  ++ xml_send true (lns (response_head "SIP/2.0 200 OK"
                         ++ [contact_line; "Content-Type: application/sdp"; "Content-Length: [len]"; ""]%string)
                    ++ flat_map ln (Split (buildCalleeSDP d) x0a))
  ++ xml_recv_play (lit "request") (lit "ACK") false rtpFile ++ xml_hold d
  ++ xml_recv (lit "request") (lit "BYE") false ++ lf
  ++ xml_send false (lns (response_head "SIP/2.0 200 OK" ++ ["Content-Length: 0"]%string))
  ++ ln (lit "</scenario>").

Definition GenerateScenarios (d : Dialog) (callerRTPFile calleeRTPFile pcapName : str) : str * str :=
  (buildUAC d callerRTPFile pcapName, buildUAS d calleeRTPFile pcapName).

(** * Properties *)

(** ** Dialogs *)

Definition request (name : string) (m : RawSIPPacket) : Prop := Method (kp_Message m) = lit name /\ status m = 0.
Definition response (code : Z) (m : RawSIPPacket) : Prop := Method (kp_Message m) = [] /\ status m = code.
Definition cseq_num (m : RawSIPPacket) : Z := parseCSeqNum (Headers (kp_Message m)).

(** Messages [BuildDialog] has no use for. *)
Definition neutral (m : RawSIPPacket) : bool :=
  negb (is_method m "INVITE") && negb (is_method m "ACK") && negb (is_method m "BYE")
  && negb (status m =? 200) && negb (status m =? 401) && negb (status m =? 407).

Lemma neutral_step n d m : neutral m = true -> dialogStep n d m = d.
Proof.
  unfold neutral, dialogStep. intros H. bool_to_prop.
  repeat match goal with E : is_method m _ = false |- _ => rewrite E; clear E end.
  rewrite !(proj2 (Z.eqb_neq (status m) _)) by done. done.
Qed.

(** The fold sees only the messages of the call that matter. *)
Lemma dialog_fold n cid msgs d :
  foldl (fun d m => if bool_decide (msg_call_id m = cid) then dialogStep n d m else d) d msgs
  = foldl (dialogStep n) d (filter (fun m => msg_call_id m = cid /\ neutral m = false) msgs).
Proof.
  revert d. induction msgs as [|m msgs IH]; intros d; [done|]. cbn [foldl]. rewrite IH.
  destruct (decide (msg_call_id m = cid)) as [E|E].
  - rewrite bool_decide_eq_true_2 by done. destruct (neutral m) eqn:En.
    + rewrite filter_cons_False by (intros [_ ?]; congruence). by rewrite neutral_step.
    + by rewrite filter_cons_True by done.
  - rewrite bool_decide_eq_false_2 by done. by rewrite filter_cons_False by (intros [? _]; done).
Qed.

(** The authentication round of a call: the challenge, its ACK and the second
    INVITE; or none. *)
Definition auth_round (inv : RawSIPPacket) (auth : option (RawSIPPacket * RawSIPPacket * RawSIPPacket)) : Prop :=
  match auth with
  | None => True
  | Some (chal, ack, inv2) =>
    (response 401 chal \/ response 407 chal) /\ cseq_has chal "INVITE" = true /\ cseq_num chal = cseq_num inv /\
    request "ACK" ack /\ cseq_num ack = cseq_num inv /\ request "INVITE" inv2 /\ cseq_num inv < cseq_num inv2
  end.

Definition auth_messages (auth : option (RawSIPPacket * RawSIPPacket * RawSIPPacket)) : list RawSIPPacket :=
  match auth with None => [] | Some (chal, ack, inv2) => [chal; ack; inv2] end.

(** The rest of a call. *)
Record call_flow (ok ack bye byeok : RawSIPPacket) : Prop := {
  cf_ok : response 200 ok; cf_ok_cseq : cseq_has ok "INVITE" = true;
  cf_ack : request "ACK" ack; cf_bye : request "BYE" bye;
  cf_byeok : response 200 byeok; cf_byeok_cseq : cseq_has byeok "BYE" = true; cf_byeok_not : cseq_has byeok "INVITE" = false }.

Ltac step_facts :=
  repeat match goal with
  | H : request _ ?m |- _ => destruct H as [? ?]
  | H : response _ ?m |- _ => destruct H as [? ?]
  end.

Lemma is_method_request name m other : request name m -> is_method m other = bool_decide (lit name = lit other).
Proof. intros [H _]. unfold is_method. by rewrite H. Qed.

Lemma is_method_response code m other : response code m -> lit other <> [] -> is_method m other = false.
Proof. intros [H _] Hn. unfold is_method. rewrite H. by apply bool_decide_eq_false_2. Qed.

Lemma no_method_request name m : request name m -> lit name <> [] -> no_method m = false.
Proof. intros [H _] Hn. unfold no_method. rewrite H. by apply bool_decide_eq_false_2. Qed.

Lemma status_request name m : request name m -> status m = 0.
Proof. by intros [_ H]. Qed.
Lemma status_response code m : response code m -> status m = code.
Proof. by intros [_ H]. Qed.

(** Evaluate one step on a message whose kind is known. *)
Ltac eval_step :=
  unfold dialogStep;
  repeat match goal with
  | H : request _ ?m |- context [is_method ?m _] => rewrite !(is_method_request _ m _ H)
  | H : response _ ?m |- context [is_method ?m ?o] => rewrite !(is_method_response _ m o H) by done
  | H : request _ ?m |- context [status ?m] => rewrite !(status_request _ m H)
  | H : response _ ?m |- context [status ?m] => rewrite !(status_response _ m H)
  end; cbn [bool_decide].

Lemma auth_steps inv auth d : request "INVITE" inv -> auth_round inv auth ->
  dg_AuthChallengeCode d = 0 -> no_method (dg_AuthACK d) = true -> no_method (dg_AuthINVITE d) = true ->
  foldl (dialogStep (cseq_num inv)) d (inv :: auth_messages auth) =
  match auth with
  | None => d
  | Some (chal, ack, inv2) => setAuthINVITE inv2 (setAuthACK ack (setAuthChallenge chal d))
  end.
Proof.
  intros Hi Ha Hc Hk Hv. cbn [foldl].
  assert (dialogStep (cseq_num inv) d inv = d) as ->.
  { eval_step. fold (cseq_num inv). by rewrite Z.ltb_irrefl. }
  destruct auth as [[[chal ack] inv2]|]; [|done].
  destruct Ha as (Hchal & Hcs & Hcn & Hack & Han & Hinv2 & Hlt). cbn [auth_messages foldl].
  assert (dialogStep (cseq_num inv) d chal = setAuthChallenge chal d) as ->.
  { unfold dialogStep. fold (cseq_num chal). rewrite Hcs, Hcn, Z.eqb_refl, Hc.
    destruct Hchal as [H|H]; by rewrite (status_response _ _ H). }
  assert (status chal <> 0) as Hne by (destruct Hchal as [H|H]; rewrite (status_response _ _ H); done).
  assert (dialogStep (cseq_num inv) (setAuthChallenge chal d) ack = setAuthACK ack (setAuthChallenge chal d)) as ->.
  { eval_step. fold (cseq_num ack). rewrite Han, Z.eqb_refl.
    cbn [setAuthChallenge dg_AuthChallengeCode dg_AuthACK]. rewrite (proj2 (Z.eqb_neq _ _) Hne), Hk. done. }
  eval_step. fold (cseq_num inv2). rewrite (proj2 (Z.ltb_lt _ _) Hlt).
  cbn [setAuthACK setAuthChallenge dg_AuthINVITE]. by rewrite Hv.
Qed.

Lemma flow_steps n ok ack bye byeok d : call_flow ok ack bye byeok ->
  status (dg_OK d) = 0 -> no_method (dg_ACK d) = true -> no_method (dg_BYE d) = true -> status (dg_BYEOK d) = 0 ->
  (dg_AuthChallengeCode d = 0 \/ no_method (dg_AuthACK d) = false) ->
  foldl (dialogStep n) d [ok; ack; bye; byeok] = setRest ack bye byeok (setOK ok d).
Proof.
  intros [Hok Hokc Hack Hbye Hbok Hbokc Hbokn] H1 H2 H3 H4 Hauth. cbn [foldl].
  assert (dialogStep n d ok = setOK ok d) as -> by (eval_step; by rewrite Hokc, H1).
  assert (dg_AuthChallengeCode (setOK ok d) = dg_AuthChallengeCode d /\ dg_AuthACK (setOK ok d) = dg_AuthACK d /\
          dg_ACK (setOK ok d) = dg_ACK d /\ dg_BYE (setOK ok d) = dg_BYE d /\ dg_BYEOK (setOK ok d) = dg_BYEOK d /\
          dg_OK (setOK ok d) = ok) as (E1 & E2 & E3 & E4 & E5 & E6).
  { unfold setOK. destruct (match Body (kp_Message ok) with [] => _ | _ => _ end). done. }
  assert (dialogStep n (setOK ok d) ack = setRest ack (dg_BYE d) (dg_BYEOK d) (setOK ok d)) as ->.
  { eval_step. rewrite E1, E2, E3, E4, E5, E6, (status_response _ _ Hok), H2. cbn [Z.eqb negb andb].
    destruct Hauth as [-> | ->]; by rewrite ?andb_false_r. }
  assert (dialogStep n (setRest ack (dg_BYE d) (dg_BYEOK d) (setOK ok d)) bye
          = setRest ack bye (dg_BYEOK d) (setOK ok d)) as ->.
  { eval_step. cbn [setRest dg_BYE]. by rewrite H3. }
  eval_step. rewrite Hbokc, Hbokn. cbn [setRest dg_BYEOK]. by rewrite H4.
Qed.

(** The RTP endpoint a message announces; [fallback] is the address when the
    description names none. *)
Definition announced (fallback : str) (m : RawSIPPacket) : str * Z :=
  match Body (kp_Message m) with
  | [] => ([], 0)
  | body => let '(ip, port) := parseSDP body in (match ip with [] => fallback | _ => ip end, port)
  end.


(** A small capture: two calls, the first one with an authentication round. *)
Definition demoMessage (lines : list string) : Message :=
  match Parse (wire lines) with Ok m => m | Err _ => emptyMessage end.
Definition demoPacket (t : Z) (fromCaller : bool) (lines : list string) : RawSIPPacket :=
  if fromCaller then mkSIPPacket (Some t) (lit "10.0.0.1") 5060 (lit "10.0.0.2") 5061 (demoMessage lines)
  else mkSIPPacket (Some t) (lit "10.0.0.2") 5061 (lit "10.0.0.1") 5060 (demoMessage lines).

Definition demoInvite : RawSIPPacket := demoPacket 1 true ["INVITE sip:b@h SIP/2.0"; "Call-ID: a"; "CSeq: 1 INVITE"]%string.
Definition demoOther : RawSIPPacket := demoPacket 2 true ["INVITE sip:c@h SIP/2.0"; "Call-ID: z"; "CSeq: 1 INVITE"]%string.
Definition demoChallenge : RawSIPPacket := demoPacket 3 false ["SIP/2.0 401 Unauthorized"; "Call-ID: a"; "CSeq: 1 INVITE"]%string.
Definition demoAck1 : RawSIPPacket := demoPacket 4 true ["ACK sip:b@h SIP/2.0"; "Call-ID: a"; "CSeq: 1 ACK"]%string.
Definition demoInvite2 : RawSIPPacket := demoPacket 5 true ["INVITE sip:b@h SIP/2.0"; "Call-ID: a"; "CSeq: 2 INVITE"]%string.
Definition demoRinging : RawSIPPacket := demoPacket 6 false ["SIP/2.0 180 Ringing"; "Call-ID: a"; "CSeq: 2 INVITE"]%string.
Definition demoOK : RawSIPPacket := demoPacket 7 false ["SIP/2.0 200 OK"; "Call-ID: a"; "CSeq: 2 INVITE"]%string.
Definition demoAck : RawSIPPacket := demoPacket 8 true ["ACK sip:b@h SIP/2.0"; "Call-ID: a"; "CSeq: 2 ACK"]%string.
Definition demoBye : RawSIPPacket := demoPacket 9000000 false ["BYE sip:a@h SIP/2.0"; "Call-ID: a"; "CSeq: 7 BYE"]%string.
Definition demoByeOK : RawSIPPacket := demoPacket 9000001 true ["SIP/2.0 200 OK"; "Call-ID: a"; "CSeq: 7 BYE"]%string.

Definition demoCapture : list RawSIPPacket :=
  [demoInvite; demoOther; demoChallenge; demoAck1; demoInvite2; demoRinging; demoOK; demoAck; demoBye; demoByeOK].


(** The messages are taken in the order they are given: an ACK listed before the
    answer it acknowledges is lost, and the same messages in order keep it. *)
Theorem dialog_order_matters :
  (dg_ACK <$> match BuildDialog [demoInvite2; demoAck; demoOK; demoBye] with Ok d => Some d | Err _ => None end)
    = Some noPacket /\
  (dg_ACK <$> match BuildDialog [demoInvite2; demoOK; demoAck; demoBye] with Ok d => Some d | Err _ => None end)
    = Some demoAck.
Proof. split; vm_compute; reflexivity. Qed.

(** The BYE of the callee is replayed by the caller: its direction is not looked
    at, and the scenario of the caller sends it. *)
Theorem callee_bye_sent_by_caller : exists d,
  BuildDialog demoCapture = Ok d /\ kp_SrcIP (dg_BYE d) = dg_CalleeIP d /\ no_method (dg_BYE d) = false.
Proof. eexists. split; [vm_compute; reflexivity|]. by vm_compute. Qed.

(** An address that begins with the caller's is taken for it. *)
Theorem address_prefix_replaced :
  let d := mkDialog [] (lit "10.0.0.1") 5060 (lit "10.0.0.10") 5060 [] 0 [] 0
    noPacket noPacket noPacket noPacket noPacket 0 noPacket noPacket noPacket 0 in
  replaceAddresses d (lit "To: <sip:bob@10.0.0.10>") = lit "To: <sip:bob@[local_ip]0>".
Proof. reflexivity. Qed.

(** ** Escaping *)

Lemma SplitStr_fuel_byte c n s : (length s <= n)%nat -> SplitStr_fuel n s [c] = Split s c.
Proof.
  revert s. induction n as [|n IH]; intros s Hn; [by destruct s; [|simpl in Hn; lia]|].
  cbn [SplitStr_fuel]. destruct (Index s [c]) as [i|] eqn:E.
  - apply Index_Some in E as H. destruct H as (t & Hs & Hd). change (length [c]) with 1%nat in *.
    assert (c ∉ take i s) as Hno.
    { clear -E. revert i E. induction s as [|b s IH]; intros i E; [done|].
      cbn [Index HasPrefix] in E. destruct (beqb b c) eqn:Eb; cbn [andb] in E; [injection E as <-; by apply not_elem_of_nil|].
      destruct (Index s [c]) as [j|] eqn:Ej; [|done]. injection E as <-. cbn [take]. apply not_elem_of_cons.
      split; [intros ->; by rewrite beqb_refl in Eb|by apply IH]. }
    rewrite Hd. rewrite Hs at 2. cbn [app]. rewrite Split_segment by done. f_equal. apply IH.
    apply (f_equal length) in Hs. rewrite !length_app in Hs. simpl in Hs. lia.
  - destruct (decide (c ∈ s)) as [(l & r & ->)%list_elem_of_split|Hn']; [|by rewrite Split_none].
    exfalso. by eapply (Index_None _ _ E l r).
Qed.

Lemma ReplaceAll_byte s c t : ReplaceAll s [c] t = flat_map (fun b => if beqb b c then t else [b]) s.
Proof.
  unfold ReplaceAll, SplitStr. rewrite SplitStr_fuel_byte by done.
  induction s as [|b s IH]; [done|]. cbn [Split flat_map]. pose proof (Split_nonempty s c) as Hn.
  destruct (beqb b c); [by rewrite Join_cons, IH by done|].
  destruct (Split s c) as [|x l]; [done|]. rewrite <- IH. destruct l; [done|]. by rewrite !Join_cons by done.
Qed.

Definition xml_char (b : byte) : str :=
  if beqb b x26 then lit "&amp;" else if beqb b x3c then lit "&lt;" else if beqb b x3e then lit "&gt;"
  else if beqb b x22 then lit "&quot;" else [b].

Lemma flat_map_flat_map {A B C} (f : B -> list C) (g : A -> list B) l :
  flat_map f (flat_map g l) = flat_map (fun x => flat_map f (g x)) l.
Proof. induction l as [|x l IH]; [done|]. cbn [flat_map]. by rewrite flat_map_app, IH. Qed.

Lemma xmlEscape_chars s : xmlEscape s = flat_map xml_char s.
Proof.
  unfold xmlEscape. change (lit "&") with [x26]. change (lit "<") with [x3c]. change (lit ">") with [x3e].
  rewrite !ReplaceAll_byte, !flat_map_flat_map. induction s as [|b s IH]; [done|]. cbn [flat_map]. rewrite IH. f_equal.
  destruct b; reflexivity.
Qed.

(** What an XML reader makes of the references. *)
Fixpoint xmlUnescape (fuel : nat) (s : str) : str :=
  match fuel with
  | O => s
  | S fuel =>
    if HasPrefix s (lit "&amp;") then x26 :: xmlUnescape fuel (drop 5 s)
    else if HasPrefix s (lit "&lt;") then x3c :: xmlUnescape fuel (drop 4 s)
    else if HasPrefix s (lit "&gt;") then x3e :: xmlUnescape fuel (drop 4 s)
    else if HasPrefix s (lit "&quot;") then x22 :: xmlUnescape fuel (drop 6 s)
    else match s with [] => [] | b :: r => b :: xmlUnescape fuel r end
  end.

(** An escaped name can stand in an attribute, it has no quote and no angle
    bracket, and an XML reader gets the name back. *)
Theorem xml_escape_roundtrip s :
  xmlUnescape (S (length s)) (xmlEscape s) = s /\ Forall (fun b => b <> x22 /\ b <> x3c /\ b <> x3e) (xmlEscape s).
Proof.
  rewrite xmlEscape_chars. split.
  - induction s as [|b s IH]; [done|]. cbn [flat_map length]. remember (S (length s)) as n eqn:En.
    assert (exists c, xml_char b = lit "&amp;" /\ b = x26 \/ xml_char b = lit "&lt;" /\ b = x3c \/
      xml_char b = lit "&gt;" /\ b = x3e \/ xml_char b = lit "&quot;" /\ b = x22 \/ (xml_char b = [c] /\ b = c /\ c <> x26)) as [c Hc].
    { exists b. unfold xml_char. destruct (beqb b x26) eqn:E1; [apply beqb_eq in E1; tauto|].
      destruct (beqb b x3c) eqn:E2; [apply beqb_eq in E2; tauto|]. destruct (beqb b x3e) eqn:E3; [apply beqb_eq in E3; tauto|].
      destruct (beqb b x22) eqn:E4; [apply beqb_eq in E4; tauto|]. apply beqb_neq in E1. tauto. }
    cbn [xmlUnescape]. destruct Hc as [[-> ->]|[[-> ->]|[[-> ->]|[[-> ->]|(-> & -> & Hn)]]]]; cbn; try (by rewrite <- IH at 2).
    rewrite !(proj2 (beqb_neq c x26) Hn). cbn [andb]. by rewrite <- IH at 2.
  - induction s as [|b s IH]; [constructor|]. cbn [flat_map]. apply Forall_app. split; [|done].
    unfold xml_char. destruct (beqb b x26) eqn:E1; [by repeat constructor|].
    destruct (beqb b x3c) eqn:E2; [by repeat constructor|]. destruct (beqb b x3e) eqn:E3; [by repeat constructor|].
    destruct (beqb b x22) eqn:E4; [by repeat constructor|]. apply beqb_neq in E2, E3, E4. by repeat constructor.
Qed.
