(* ===== verification/SettingsAuth.v ===== *)
(** * Accounts of the control server

    [src/internal/settingsauth] (the settings database, logins and tokens) and
    the account handlers of [src/internal/api/v2] ([auth.go], [users.go], the
    middleware of [server.go], secret rotation).  bcrypt and the JWT library are
    the class [AuthLib]; the tables are lists and maps whose statements always
    succeed; the clock, random bytes and salts are arguments, and a decoded
    request body is [None] when its JSON is refused. *)

From stdpp Require Import base list gmap strings sorting.
From Stdlib Require Import ZArith Lia Strings.Byte.
From S2P Require Import Prelude GoStrings Hash Encoding.

(** ** The libraries *)

(** The claims the program reads; a missing or mistyped one is [None]. *)
Record claims := mkClaims {
  cl_iss : option str; cl_sub : option str; cl_uid : option Z; cl_role : option str; cl_iat : option Z; cl_exp : option Z }.

Class AuthLib := mkAuthLib {
  GenerateFromPassword : str -> str -> option str;   (* salt, password *)
  CompareHashAndPassword : str -> str -> bool;       (* hash, password *)
  SignedString : str -> claims -> str;               (* HS256 key, claims *)
  ParseHS256 : str -> Z -> str -> option claims      (* HS256 key, now, token *)
}.

(** What is relied on of them: a password matches its own hash, a signed token
    parses under its key until it expires (numbers are exact below 2^53, as
    JSON numbers are), and its text is not empty and has no blanks around it. *)
Class AuthLaws `{AuthLib} : Prop := mkAuthLaws {
  compare_generated salt pw h : GenerateFromPassword salt pw = Some h -> CompareHashAndPassword h pw = true;
  parse_signed key c uid iat exp now :
    cl_uid c = Some uid -> 0 <= uid < 2 ^ 53 -> cl_iat c = Some iat -> 0 <= iat < 2 ^ 53 ->
    cl_exp c = Some exp -> 0 <= now < exp -> exp < 2 ^ 53 ->
    ParseHS256 key now (SignedString key c) = Some c;
  signed_trimmed key c : TrimSpace (SignedString key c) = SignedString key c;
  signed_nonempty key c : SignedString key c <> []
}.

(** ** The settings database ([store.go]) *)

Record UserRow := mkUserRow { ur_ID : Z; ur_Username : str; ur_PasswordHash : str; ur_Role : str; ur_CreatedAt : Z }.
Record User := mkUser { us_ID : Z; us_Username : str; us_Role : str; us_CreatedAt : Z }.
Record AuditEntry := mkAudit {
  au_ID : Z; au_TS : Z; au_UserID : option Z; au_Username : str; au_Action : str; au_Target : str; au_PayloadJSON : str }.

(** The tables, rows in the order of their ids, and the last numbers
    AUTOINCREMENT gave out. *)
Record settings := mkSettings {
  db_users : list UserRow; db_lastUser : Z; db_kv : gmap str str; db_audit : list AuditEntry; db_lastAudit : Z }.

Definition emptySettings : settings := mkSettings [] 0 ∅ [] 0.

Definition setUsers (l : list UserRow) (last : Z) (db : settings) : settings :=
  mkSettings l last (db_kv db) (db_audit db) (db_lastAudit db).

Inductive auth_error :=
  | MissingCredentials | InvalidCredentials | UsernameRequired | PasswordTooShort | HashFailed | RoleRequired | NoRows
  | AuthDisabled | InvalidToken | BadIssuer | SecretTooShort.

(** COLLATE NOCASE folds the ASCII letters. *)
Definition nocase (s : str) : str := map lower_byte s.
Definition named (name : str) (u : UserRow) : bool := bool_decide (nocase (ur_Username u) = nocase name).
Definition withID (id : Z) (u : UserRow) : bool := ur_ID u =? id.

Definition bearer_prefix : str := lit "bearer ".

Section Auth.
Context `{AuthLib}.

Definition VerifyUser (db : settings) (username password : str) : result auth_error Z :=
  let username := TrimSpace username in
  if bool_decide (username = []) || bool_decide (password = []) then Err MissingCredentials
  else match List.find (named username) (db_users db) with
       | None => Err InvalidCredentials
       | Some u => if CompareHashAndPassword (ur_PasswordHash u) password then Ok (ur_ID u) else Err InvalidCredentials
       end.

Definition withHash (h : str) (u : UserRow) : UserRow := mkUserRow (ur_ID u) (ur_Username u) h (ur_Role u) (ur_CreatedAt u).
Definition withRole (r : str) (u : UserRow) : UserRow := mkUserRow (ur_ID u) (ur_Username u) (ur_PasswordHash u) r (ur_CreatedAt u).

(** The rows a statement touches, changed. *)
Definition updateWhere (p : UserRow -> bool) (f : UserRow -> UserRow) (l : list UserRow) : list UserRow :=
  map (fun u => if p u then f u else u) l.

(** [CreateUser]: the number is drawn before the conflict is found; the column
    [role] defaults to admin. *)
Definition CreateUser (now : Z) (salt : str) (username password : str) (db : settings) : result auth_error unit * settings :=
  let username := TrimSpace username in
  if bool_decide (username = []) then (Err UsernameRequired, db)
  else if (length password <? 8)%nat then (Err PasswordTooShort, db)
  else match GenerateFromPassword salt password with
       | None => (Err HashFailed, db)
       | Some hash =>
         let id := db_lastUser db + 1 in
         (Ok tt,
          setUsers (if existsb (named username) (db_users db)
                    then updateWhere (named username) (withHash hash) (db_users db)
                    else db_users db ++ [mkUserRow id username hash (lit "admin") now]) id db)
       end.

Definition view (u : UserRow) : User := mkUser (ur_ID u) (ur_Username u) (ur_Role u) (ur_CreatedAt u).
Definition ListUsers (db : settings) : list User := map view (db_users db).
Definition GetUser (db : settings) (id : Z) : option User := view <$> List.find (withID id) (db_users db).

Definition UpdateUserRole (id : Z) (role : str) (db : settings) : result auth_error unit * settings :=
  let role := TrimSpace role in
  if bool_decide (role = []) then (Err RoleRequired, db)
  else if existsb (withID id) (db_users db)
       then (Ok tt, setUsers (updateWhere (withID id) (withRole role) (db_users db)) (db_lastUser db) db)
       else (Err NoRows, db).

Definition UpdateUserPassword (salt : str) (id : Z) (password : str) (db : settings) : result auth_error unit * settings :=
  if (length password <? 8)%nat then (Err PasswordTooShort, db)
  else match GenerateFromPassword salt password with
       | None => (Err HashFailed, db)
       | Some hash =>
         if existsb (withID id) (db_users db)
         then (Ok tt, setUsers (updateWhere (withID id) (withHash hash) (db_users db)) (db_lastUser db) db)
         else (Err NoRows, db)
       end.

Definition DeleteUser (id : Z) (db : settings) : result auth_error unit * settings :=
  if existsb (withID id) (db_users db)
  then (Ok tt, setUsers (List.filter (fun u => negb (withID id u)) (db_users db)) (db_lastUser db) db)
  else (Err NoRows, db).

Definition AppendAudit (now : Z) (userID : option Z) (username action target payload : str) (db : settings) : settings :=
  let payload := if bool_decide (TrimSpace payload = []) then lit "{}" else payload in
  mkSettings (db_users db) (db_lastUser db) (db_kv db)
    (db_audit db ++ [mkAudit (db_lastAudit db + 1) now userID (TrimSpace username) (TrimSpace action) (TrimSpace target) payload])
    (db_lastAudit db + 1).

Definition ListAudit (limit : Z) (db : settings) : list AuditEntry :=
  take (Z.to_nat (if limit <=? 0 then 100 else limit)) (rev (db_audit db)).

Definition GetSetting (key : str) (db : settings) : str := default [] (db_kv db !! key).
Definition PutSetting (key value : str) (db : settings) : settings :=
  mkSettings (db_users db) (db_lastUser db) (<[key := value]> (db_kv db)) (db_audit db) (db_lastAudit db).

(** ** First start ([bootstrap.go]) *)

Definition kvJWTSecret : str := lit "jwt_secret".
Definition kvBootstrapAt : str := lit "bootstrap_at".
Definition kvAuthMode : str := lit "auth_mode".

Definition bootstrapUsername (env : str) : str := match TrimSpace env with [] => lit "admin" | u => u end.
Definition bootstrapPassword (env : str) : str :=
  let p := TrimSpace env in if (8 <=? length p)%nat then p else lit "sipcapture".

(** [EnsureBootstrap]; [stamp] is the text of the time. *)
Definition EnsureBootstrap (now : Z) (stamp salt envUser envPassword : str) (db : settings) : result auth_error bool * settings :=
  match db_users db with
  | _ :: _ => (Ok false, db)
  | [] =>
    let '(r, db) := CreateUser now salt (bootstrapUsername envUser) (bootstrapPassword envPassword) db in
    match r with
    | Err e => (Err e, db)
    | Ok _ => (Ok true, PutSetting kvAuthMode (lit "internal") (PutSetting kvBootstrapAt stamp db))
    end
  end.

(** ** Logins and tokens ([auth.go]) *)

Record Auth := mkAuth { a_db : settings; a_secret : str }.

Definition Enabled (a : Auth) : bool := (16 <=? length (a_secret a))%nat.

Definition GenerateJWTSecret (rnd : str) : str := EncodeToString rnd.

(** What a start finds: its clock, random bytes, salt and environment. *)
Record start_env := mkStartEnv { se_now : Z; se_stamp : str; se_random : str; se_salt : str; se_user : str; se_password : str }.

(** [open] over the migrated database. *)
Definition open (env : start_env) (jwtSecret : str) (allowAutoGenerate : bool) (db : settings) : result auth_error Auth * settings :=
  let persisted := GetSetting kvJWTSecret db in
  let jwtSecret := TrimSpace jwtSecret in
  let secret := match TrimSpace persisted with [] => jwtSecret | s => s end in
  let ready := if (length secret <? 16)%nat
               then (if allowAutoGenerate then Some (GenerateJWTSecret (se_random env)) else None) else Some secret in
  match ready with
  | None => (Err SecretTooShort, db)
  | Some secret =>
    let db := match persisted with [] => PutSetting kvJWTSecret secret db | _ => db end in
    if allowAutoGenerate then
      let '(r, db) := EnsureBootstrap (se_now env) (se_stamp env) (se_salt env) (se_user env) (se_password env) db in
      match r with Err e => (Err e, db) | Ok _ => (Ok (mkAuth db secret), db) end
    else (Ok (mkAuth db secret), db)
  end.

Definition RotateSecret (rnd : str) (a : Auth) : result auth_error str * Auth :=
  if negb (Enabled a) then (Err AuthDisabled, a)
  else let s := EncodeToString rnd in (Ok s, mkAuth (PutSetting kvJWTSecret s (a_db a)) s).

Definition jwtIssuer : str := lit "gossipper".
Definition jwtTTL : Z := 86400.

Definition Login (now : Z) (username password : str) (a : Auth) : result auth_error (str * Z) :=
  if negb (Enabled a) then Err AuthDisabled
  else
    let? uid := VerifyUser (a_db a) username password in
    let role := match GetUser (a_db a) uid with
                | Some u => if bool_decide (TrimSpace (us_Role u) = []) then lit "admin" else us_Role u
                | None => lit "admin"
                end in
    Ok (SignedString (a_secret a)
          (mkClaims (Some jwtIssuer) (Some (TrimSpace username)) (Some uid) (Some role) (Some now) (Some (now + jwtTTL))),
        now + jwtTTL).

(** A request: the Authorization header, the token of the query, the id of the
    path and the limit of the query. *)
Record request := mkRequest { rq_Authorization : str; rq_token : str; rq_id : str; rq_limit : str }.

Definition auth_bearerFromRequest (r : request) : str :=
  let h := TrimSpace (rq_Authorization r) in
  if HasPrefix (ToLower h) bearer_prefix then TrimSpace (drop 7 h) else TrimSpace (rq_token r).

Definition parseJWT (now : Z) (token : str) (a : Auth) : result auth_error claims :=
  match ParseHS256 (a_secret a) now token with
  | None => Err InvalidToken
  | Some mc => if bool_decide (default [] (cl_iss mc) = jwtIssuer) then Ok mc else Err BadIssuer
  end.

Definition ValidRequest (now : Z) (r : request) (a : Auth) : bool :=
  if negb (Enabled a) then false
  else let tok := auth_bearerFromRequest r in
       if bool_decide (tok = []) then false
       else match parseJWT now tok a with Ok _ => true | Err _ => false end.

Definition ParseToken (now : Z) (token : str) (a : Auth) : result auth_error claims :=
  if negb (Enabled a) then Err AuthDisabled else parseJWT now (TrimSpace token) a.

(** ** The account handlers ([api/v2]) *)

Definition v2_bearerFromRequest (r : request) : str :=
  let h := rq_Authorization r in
  if HasPrefix h (lit "Bearer ") || HasPrefix h (lit "bearer ") then drop 7 h else rq_token r.

Definition roleFromClaims (mc : claims) (a : Auth) : str :=
  let role := TrimSpace (default [] (cl_role mc)) in
  if negb (bool_decide (role = [])) then role
  else
    let uid := default 0 (cl_uid mc) in
    if 0 <? uid then
      match GetUser (a_db a) uid with
      | Some u => if bool_decide (us_Role u = []) then lit "admin" else us_Role u
      | None => lit "admin"
      end
    else lit "admin".

Definition isAdminRole (role : str) : bool := EqualFold (TrimSpace role) (lit "admin").

Definition roleFromRequest (now : Z) (r : request) (a : Auth) : option str :=
  let token := v2_bearerFromRequest r in
  if bool_decide (token = []) then None
  else match ParseToken now token a with
       | Err _ => None
       | Ok mc => Some (roleFromClaims mc a)
       end.

Inductive payload :=
  | PError (msg : str) | PStatusOK | PToken (token : str) (exp : Z)
  | PMe (auth username : str) (uid exp : Z) (role : str)
  | PUsers (l : list User) | PUser (u : User) | PAudit (l : list AuditEntry) | PSecret (s : str) | PNone.

Record reply := mkReply { rp_status : Z; rp_body : payload }.
Definition fails (status : Z) (msg : string) : reply := mkReply status (PError (lit msg)).

(** The server's [cfg.Auth], [None] when it is nil. *)
Definition server := option Auth.
Definition on_db (f : settings -> settings) (a : Auth) : Auth := mkAuth (f (a_db a)) (a_secret a).

(** A handler of the accounts: the clock, salt and random bytes of the moment,
    the request, and the authentication service. *)
Record moment := mkMoment { mo_now : Z; mo_salt : str; mo_random : str }.
Definition handler := moment -> request -> server -> reply * server.

Definition enabled (s : server) : option Auth := match s with Some a => if Enabled a then Some a else None | None => None end.

Definition auth (next : handler) : handler := fun m r s =>
  match enabled s with
  | Some a => if ValidRequest (mo_now m) r a then next m r s else (fails 401 "unauthorized", s)
  | None => next m r s
  end.

Definition requireAdmin (now : Z) (r : request) (s : server) : option reply :=
  match enabled s with
  | None => None
  | Some a =>
    match roleFromRequest now r a with
    | None => Some (fails 401 "unauthorized")
    | Some role => if isAdminRole role then None else Some (fails 403 "admin role required")
    end
  end.

Definition authAdmin (next : handler) : handler :=
  auth (fun m r s => match requireAdmin (mo_now m) r s with Some e => (e, s) | None => next m r s end).

Definition claimsFromRequest (now : Z) (r : request) (a : Auth) : option Z * str :=
  let token := v2_bearerFromRequest r in
  if negb (Enabled a) || bool_decide (token = []) then (None, [])
  else match ParseToken now token a with
       | Err _ => (None, [])
       | Ok mc => (match default 0 (cl_uid mc) with 0 => None | uid => Some uid end, default [] (cl_sub mc))
       end.

Definition writeAudit (now : Z) (r : request) (action target payload : str) (a : Auth) : Auth :=
  if negb (Enabled a) then a
  else let '(uid, username) := claimsFromRequest now r a in
       on_db (AppendAudit now uid username action target (match payload with [] => lit "{}" | p => p end)) a.

(** [requireAuthDB] *)
Definition with_db (next : moment -> request -> Auth -> reply * Auth) : handler := fun m r s =>
  match enabled s with
  | None => (fails 404 "internal auth is not enabled", s)
  | Some a => let '(rep, a) := next m r a in (rep, Some a)
  end.

Definition handleAuthLogin (body : option (str * str)) : handler := fun m r s =>
  match enabled s with
  | None => (fails 404 "internal auth is not enabled", s)
  | Some a =>
    match body with
    | None => (fails 400 "invalid json", s)
    | Some (username, password) =>
      match Login (mo_now m) username password a with
      | Err _ => (fails 401 "invalid credentials", s)
      | Ok (tok, exp) => (mkReply 200 (PToken tok exp), s)
      end
    end
  end.

Definition handleMe : handler := fun m r s =>
  match enabled s with
  | None => (mkReply 200 (PMe (lit "none") (lit "anonymous") 0 0 (lit "admin")), s)
  | Some a =>
    match ParseToken (mo_now m) (v2_bearerFromRequest r) a with
    | Err _ => (fails 401 "invalid token", s)
    | Ok mc => (mkReply 200 (PMe (lit "internal") (default [] (cl_sub mc)) (default 0 (cl_uid mc)) (default 0 (cl_exp mc))
                               (roleFromClaims mc a)), s)
    end
  end.

Definition handleChangeMyPassword (body : option (str * str)) : handler := with_db (fun m r a =>
  match body with
  | None => (fails 400 "invalid json", a)
  | Some (current, new) =>
    match ParseToken (mo_now m) (v2_bearerFromRequest r) a with
    | Err _ => (fails 401 "invalid token", a)
    | Ok mc =>
      let username := default [] (cl_sub mc) in
      let uid := default 0 (cl_uid mc) in
      if bool_decide (username = []) || (uid <=? 0) then (fails 401 "invalid token claims", a)
      else match VerifyUser (a_db a) username current with
           | Err _ => (fails 401 "current password is incorrect", a)
           | Ok _ =>
             let '(res, db) := UpdateUserPassword (mo_salt m) uid new (a_db a) in
             match res with
             | Err _ => (fails 400 "password refused", mkAuth db (a_secret a))
             | Ok _ => (mkReply 200 PStatusOK,
                        writeAudit (mo_now m) r (lit "user.password_change") username [] (mkAuth db (a_secret a)))
             end
           end
    end
  end).

Definition handleListUsers : handler := with_db (fun m r a => (mkReply 200 (PUsers (ListUsers (a_db a))), a)).

(** The new row is looked for under the name as it was sent. *)
Definition handleCreateUser (body : option (str * str * str)) : handler := with_db (fun m r a =>
  match body with
  | None => (fails 400 "invalid json", a)
  | Some (username, password, role) =>
    let '(res, db) := CreateUser (mo_now m) (mo_salt m) username password (a_db a) in
    match res with
    | Err _ => (fails 400 "user refused", mkAuth db (a_secret a))
    | Ok _ =>
      let role := match TrimSpace role with [] => lit "operator" | r => r end in
      match List.find (fun u => bool_decide (us_Username u = username)) (ListUsers db) with
      | Some created =>
        let '(res, db) := UpdateUserRole (us_ID created) role db in
        match res with
        | Err _ => (fails 400 "role refused", mkAuth db (a_secret a))
        | Ok _ => (mkReply 201 (PUser (mkUser (us_ID created) (us_Username created) role (us_CreatedAt created))),
                   writeAudit (mo_now m) r (lit "user.create") username role (mkAuth db (a_secret a)))
        end
      | None => (mkReply 201 (PUser (mkUser 0 [] [] 0)),
                 writeAudit (mo_now m) r (lit "user.create") username role (mkAuth db (a_secret a)))
      end
    end
  end).

(** [strconv.ParseInt] of the path's id, positive. *)
Definition pathUser (r : request) : option Z :=
  match Atoi (TrimSpace (rq_id r)) with Some id => if id <=? 0 then None else Some id | None => None end.

Definition updateError (e : auth_error) : reply :=
  match e with NoRows => fails 404 "user not found" | _ => fails 400 "update refused" end.

Definition handleUpdateUser (body : option (str * str)) : handler := with_db (fun m r a =>
  match pathUser r with
  | None => (fails 400 "invalid user id", a)
  | Some id =>
    match body with
    | None => (fails 400 "invalid json", a)
    | Some (password, role) =>
      let '(res, db) := if bool_decide (password = []) then (Ok tt, a_db a)
                        else UpdateUserPassword (mo_salt m) id password (a_db a) in
      match res with
      | Err e => (updateError e, mkAuth db (a_secret a))
      | Ok _ =>
        let '(res, db) := if bool_decide (role = []) then (Ok tt, db) else UpdateUserRole id role db in
        match res with
        | Err e => (updateError e, mkAuth db (a_secret a))
        | Ok _ =>
          match GetUser db id with
          | None => (fails 500 "no rows", mkAuth db (a_secret a))
          | Some got => (mkReply 200 (PUser got),
                         writeAudit (mo_now m) r (lit "user.update") (us_Username got) role (mkAuth db (a_secret a)))
          end
        end
      end
    end
  end).

Definition handleDeleteUser : handler := with_db (fun m r a =>
  match pathUser r with
  | None => (fails 400 "invalid user id", a)
  | Some id =>
    if (length (ListUsers (a_db a)) <=? 1)%nat then (fails 409 "refusing to delete the last user", a)
    else match GetUser (a_db a) id with
         | None => (fails 404 "user not found", a)
         | Some got =>
           let '(res, db) := DeleteUser id (a_db a) in
           match res with
           | Err _ => (fails 500 "delete failed", mkAuth db (a_secret a))
           | Ok _ => (mkReply 204 PNone,
                      writeAudit (mo_now m) r (lit "user.delete") (us_Username got) [] (mkAuth db (a_secret a)))
           end
         end
  end).

Definition handleListAudit : handler := with_db (fun m r a =>
  let limit := match Atoi (rq_limit r) with Some n => if (0 <? n) && (n <=? 1000) then n else 100 | None => 100 end in
  (mkReply 200 (PAudit (ListAudit limit (a_db a))), a)).

Definition handleRotateJWTSecret : handler := fun m r s =>
  match enabled s with
  | None => (fails 404 "internal auth is not enabled", s)
  | Some a =>
    let '(res, a) := RotateSecret (mo_random m) a in
    match res with
    | Err _ => (fails 500 "rotation failed", Some a)
    | Ok secret => (mkReply 200 (PSecret secret),
                    Some (writeAudit (mo_now m) r (lit "settings.rotate_jwt_secret") (lit "jwt_secret") [] a))
    end
  end.

(** The routes of [Register] about accounts. *)
Inductive route :=
  | RLogin (body : option (str * str)) | RMe | RPassword (body : option (str * str)) | RUsers
  | RCreate (body : option (str * str * str)) | RUpdate (body : option (str * str)) | RDelete | RAudit | RRotate.

Definition Register (rt : route) : handler :=
  match rt with
  | RLogin body => handleAuthLogin body
  | RMe => auth handleMe
  | RPassword body => auth (handleChangeMyPassword body)
  | RUsers => authAdmin handleListUsers
  | RCreate body => authAdmin (handleCreateUser body)
  | RUpdate body => authAdmin (handleUpdateUser body)
  | RDelete => authAdmin handleDeleteUser
  | RAudit => authAdmin handleListAudit
  | RRotate => authAdmin handleRotateJWTSecret
  end.

End Auth.

(** ** The tables stay sound *)

(** Ids are in order, positive and among those given out; names are distinct up
    to case, trimmed and not empty; every account has a role. *)
Definition account_ok (last : Z) (u : UserRow) : Prop :=
  0 < ur_ID u <= last /\ ur_Username u <> [] /\ TrimSpace (ur_Username u) = ur_Username u /\ TrimSpace (ur_Role u) <> [].

Definition accounts_ok (db : settings) : Prop :=
  StronglySorted Z.lt (map ur_ID (db_users db)) /\ Forall (account_ok (db_lastUser db)) (db_users db) /\
  NoDup (map (fun u => nocase (ur_Username u)) (db_users db)) /\ 0 <= db_lastUser db.

(** Accounts present and no number given out twice. *)
Definition accounts_grow (db db' : settings) : Prop :=
  accounts_ok db' /\ (db_users db <> [] -> db_users db' <> []) /\ db_lastUser db <= db_lastUser db' /\
  (forall id, id ∈ map ur_ID (db_users db') -> id <= db_lastUser db -> id ∈ map ur_ID (db_users db)).

Lemma accounts_grow_refl db : accounts_ok db -> accounts_grow db db.
Proof. intros Hok. split; [done|]. split; [done|]. split; [lia|done]. Qed.

Lemma accounts_grow_trans a b c : accounts_grow a b -> accounts_grow b c -> accounts_grow a c.
Proof.
  intros (_ & Hne1 & Hl1 & Hid1) (Hok & Hne2 & Hl2 & Hid2). split; [done|]. split; [auto|]. split; [lia|].
  intros id Hin Hid. apply Hid1; [|done]. apply Hid2; [done|lia].
Qed.

Lemma accounts_grow_ok a b : accounts_grow a b -> accounts_ok b.
Proof. by intros []. Qed.

(** An update keeps the ids and, if it does, the names. *)
Lemma updateWhere_ids p f l : (forall u, ur_ID (f u) = ur_ID u) -> map ur_ID (updateWhere p f l) = map ur_ID l.
Proof. intros Hf. unfold updateWhere. rewrite map_map. apply map_ext. intros u. destruct (p u); auto. Qed.

Lemma updateWhere_names p f l : (forall u, ur_Username (f u) = ur_Username u) ->
  map (fun u => nocase (ur_Username u)) (updateWhere p f l) = map (fun u => nocase (ur_Username u)) l.
Proof. intros Hf. unfold updateWhere. rewrite map_map. apply map_ext. intros u. destruct (p u); [by rewrite Hf|done]. Qed.

Lemma updateWhere_grow p f db last :
  (forall u, ur_ID (f u) = ur_ID u) -> (forall u, ur_Username (f u) = ur_Username u) ->
  (forall u, TrimSpace (ur_Role u) <> [] -> TrimSpace (ur_Role (f u)) <> []) -> db_lastUser db <= last ->
  accounts_ok db -> accounts_grow db (setUsers (updateWhere p f (db_users db)) last db).
Proof.
  intros Hid Hname Hrole Hl (Hs & Hf & Hn & Hp). unfold accounts_grow, accounts_ok.
  cbn [setUsers db_users db_lastUser]. split; [|split; [|split]].
  - split; [by rewrite updateWhere_ids|]. split; [|split; [by rewrite updateWhere_names|lia]].
    apply Forall_map. eapply Forall_impl; [exact Hf|]. intros u (H1 & H2 & H3 & H4). unfold compose, account_ok.
    destruct (p u); rewrite ?Hid, ?Hname; auto with lia.
  - intros Hne E. by destruct (db_users db).
  - done.
  - intros id Hin _. by rewrite updateWhere_ids in Hin.
Qed.

Section Tables.
Context `{AuthLib}.

Lemma existsb_named_false name l : existsb (named name) l = false -> nocase name ∉ map (fun u => nocase (ur_Username u)) l.
Proof.
  intros E (u & Hu & Hin)%list_elem_of_fmap. assert (existsb (named name) l = true) as E'; [|congruence].
  apply existsb_exists. exists u. split; [by apply list_elem_of_In|]. unfold named. by apply bool_decide_eq_true.
Qed.

Lemma CreateUser_grow now salt name pw db :
  accounts_ok db -> accounts_grow db (snd (CreateUser now salt name pw db)).
Proof.
  intros Hok. unfold CreateUser. case_bool_decide as Hn; [by apply accounts_grow_refl|].
  destruct (_ <? _)%nat; [by apply accounts_grow_refl|]. destruct (GenerateFromPassword salt pw) as [h|]; [|by apply accounts_grow_refl].
  cbn [snd]. destruct (existsb _ _) eqn:E; [by apply updateWhere_grow; auto with lia|].
  destruct Hok as (Hs & Hf & Hnd & Hp). apply existsb_named_false in E. unfold accounts_grow, accounts_ok.
  cbn [setUsers db_users db_lastUser]. rewrite !map_app. cbn [map ur_ID ur_Username]. split; [|split; [|split]].
  - split; [|split; [|split]]; [| | |lia].
    + apply StronglySorted_app_2; [|done|by repeat constructor]. intros a b (u & -> & Hin)%list_elem_of_fmap ->%list_elem_of_singleton.
      rewrite Forall_forall in Hf. destruct (Hf u Hin) as [? _]. lia.
    + apply Forall_app. split; [eapply Forall_impl; [exact Hf|]; intros u [? ?]; split; [lia|done]|].
      constructor; [|constructor]. split; [simpl; lia|]. split; [done|]. split; [apply TrimSpace_idemp|by vm_compute].
    + apply NoDup_app. split; [done|]. split; [|apply NoDup_singleton].
      intros x Hx ->%list_elem_of_singleton. done.
  - by destruct (db_users db).
  - lia.
  - intros id [? | ->%list_elem_of_singleton]%elem_of_app Hid; [done|lia].
Qed.

Lemma UpdateUserRole_grow id role db : accounts_ok db -> accounts_grow db (snd (UpdateUserRole id role db)).
Proof.
  intros Hok. unfold UpdateUserRole. case_bool_decide as Hr; [by apply accounts_grow_refl|].
  destruct (existsb _ _); [|by apply accounts_grow_refl]. cbn [snd]. apply updateWhere_grow; auto with lia.
  intros u _. cbn [withRole ur_Role]. by rewrite TrimSpace_idemp.
Qed.

Lemma UpdateUserPassword_grow salt id pw db : accounts_ok db -> accounts_grow db (snd (UpdateUserPassword salt id pw db)).
Proof.
  intros Hok. unfold UpdateUserPassword. destruct (_ <? _)%nat; [by apply accounts_grow_refl|].
  destruct (GenerateFromPassword salt pw) as [h|]; [|by apply accounts_grow_refl].
  destruct (existsb _ _); [|by apply accounts_grow_refl]. cbn [snd]. apply updateWhere_grow; auto with lia.
Qed.

(** Deleting one of at least two accounts. *)
Lemma DeleteUser_grow id db :
  accounts_ok db -> (1 < length (db_users db))%nat -> accounts_grow db (snd (DeleteUser id db)).
Proof.
  intros (Hs & Hf & Hn & Hp) Hlen. unfold DeleteUser. destruct (existsb _ _); [|by apply accounts_grow_refl].
  cbn [snd]. unfold accounts_grow, accounts_ok. cbn [setUsers db_users db_lastUser].
  set (keep := fun u => negb (withID id u)).
  assert (forall A (g : UserRow -> A), sublist (map g (List.filter keep (db_users db))) (map g (db_users db))) as Hsub.
  { intros A g. clear. induction (db_users db) as [|u l IH]; [constructor|]. cbn [List.filter map].
    destruct (keep u); [by constructor|by apply sublist_cons]. }
  split; [split; [|split; [|split]]|split; [|split]]; [| | |done| |lia|].
  - clear -Hs. induction (db_users db) as [|u l IH]; [constructor|]. cbn [map] in Hs. apply StronglySorted_inv in Hs as [Hs Hu].
    cbn [List.filter]. destruct (keep u); [|auto]. cbn [map]. constructor; [auto|]. rewrite Forall_map in Hu |- *.
    apply Forall_forall. intros x Hx%list_elem_of_In%filter_In. rewrite Forall_forall in Hu. apply Hu, list_elem_of_In, Hx.
  - apply Forall_forall. intros x Hx%list_elem_of_In%filter_In. rewrite Forall_forall in Hf. apply Hf, list_elem_of_In, Hx.
  - eapply sublist_NoDup; [exact Hn|apply Hsub].
  - intros _ E. destruct (db_users db) as [|u [|v l]]; [simpl in Hlen; lia..|].
    cbn [map] in Hs. apply StronglySorted_inv in Hs as [_ Hs%Forall_inv]. unfold keep, withID in E. cbn [List.filter] in E.
    destruct (Z.eqb_spec (ur_ID u) id); [|done]. destruct (Z.eqb_spec (ur_ID v) id); [simpl in Hs; lia|done].
  - intros x Hx _. eapply elem_of_sublist; [exact Hx|apply Hsub].
Qed.

(** ** Every request keeps the tables sound *)

Lemma accounts_grow_same db db1 db2 :
  db_users db2 = db_users db1 -> db_lastUser db2 = db_lastUser db1 -> accounts_grow db db1 -> accounts_grow db db2.
Proof. unfold accounts_grow, accounts_ok. by intros -> ->. Qed.

Lemma writeAudit_grow db now r action target payload a :
  accounts_grow db (a_db a) -> accounts_grow db (a_db (writeAudit now r action target payload a)).
Proof.
  unfold writeAudit. destruct (negb _); [done|]. destruct (claimsFromRequest now r a) as [uid name].
  by apply accounts_grow_same.
Qed.

Definition server_grows (s s' : server) : Prop :=
  match s, s' with
  | None, None => True
  | Some a, Some a' => accounts_ok (a_db a) -> accounts_grow (a_db a) (a_db a')
  | _, _ => False
  end.
Definition keeps_accounts (h : handler) : Prop := forall m r s, server_grows s (snd (h m r s)).

Lemma server_grows_refl s : server_grows s s.
Proof. destruct s; [exact (accounts_grow_refl _)|done]. Qed.
Local Hint Resolve server_grows_refl : core.

(** Handlers that change nothing, and those behind [requireAuthDB]. *)
Lemma keeps_same (h : handler) : (forall m r s, snd (h m r s) = s) -> keeps_accounts h.
Proof. intros Hh m r s. by rewrite Hh. Qed.

Lemma keeps_with_db next :
  (forall m r a, accounts_ok (a_db a) -> accounts_grow (a_db a) (a_db (snd (next m r a)))) -> keeps_accounts (with_db next).
Proof.
  intros Hn m r [a|]; [|done]. unfold with_db, enabled. destruct (Enabled a); [|apply server_grows_refl].
  specialize (Hn m r a). by destruct (next m r a).
Qed.

Lemma keeps_auth next : keeps_accounts next -> keeps_accounts (auth next).
Proof.
  intros Hn m r s. unfold auth. destruct (enabled s) as [a|]; [|apply Hn]. by destruct (ValidRequest _ _ _); [apply Hn|].
Qed.

Lemma keeps_authAdmin next : keeps_accounts next -> keeps_accounts (authAdmin next).
Proof. intros Hn. apply keeps_auth. intros m r s. by destruct (requireAdmin _ r s); [|apply Hn]. Qed.

Local Ltac settle := cbn [snd a_db]; auto using writeAudit_grow, accounts_grow_refl.

Lemma keeps_change_password body : keeps_accounts (handleChangeMyPassword body).
Proof.
  apply keeps_with_db. intros m r a Hok. destruct body as [[current new]|]; [|settle].
  destruct (ParseToken _ _ _) as [mc|]; [|settle]. cbv zeta. destruct (_ || _); [settle|]. destruct (VerifyUser _ _ _); [|settle].
  pose proof (UpdateUserPassword_grow (mo_salt m) (default 0 (cl_uid mc)) new (a_db a) Hok) as Hg.
  destruct (UpdateUserPassword _ _ _ _) as [[] db]; settle.
Qed.

Lemma keeps_create body : keeps_accounts (handleCreateUser body).
Proof.
  apply keeps_with_db. intros m r a Hok. destruct body as [[[name pw] role]|]; [|settle].
  pose proof (CreateUser_grow (mo_now m) (mo_salt m) name pw (a_db a) Hok) as Hg.
  destruct (CreateUser _ _ _ _ _) as [[] db]; [|settle]. cbn [snd] in Hg.
  cbv zeta. destruct (List.find _ _) as [created|]; [|settle].
  match goal with |- context [UpdateUserRole ?i ?r ?d] => pose proof (UpdateUserRole_grow i r d (accounts_grow_ok _ _ Hg)) as Hg2 end.
  destruct (UpdateUserRole _ _ _) as [[] db']; cbn [snd] in Hg2; settle; eauto using writeAudit_grow, accounts_grow_trans.
Qed.

Lemma keeps_update body : keeps_accounts (handleUpdateUser body).
Proof.
  apply keeps_with_db. intros m r a Hok. destruct (pathUser r) as [id|]; [|settle]. destruct body as [[pw role]|]; [|settle].
  assert (accounts_grow (a_db a) (snd (if bool_decide (pw = []) then (@Ok auth_error unit tt, a_db a)
                                       else UpdateUserPassword (mo_salt m) id pw (a_db a)))) as Hg
    by (destruct (bool_decide _); [settle|by apply UpdateUserPassword_grow]).
  destruct (if bool_decide (pw = []) then _ else _) as [[] db]; [|settle]. cbn [snd] in Hg.
  assert (accounts_grow db (snd (if bool_decide (role = []) then (@Ok auth_error unit tt, db) else UpdateUserRole id role db))) as Hg2.
  { apply accounts_grow_ok in Hg. destruct (bool_decide _); [settle|by apply UpdateUserRole_grow]. }
  destruct (if bool_decide (role = []) then _ else _) as [[] db2]; cbn [snd] in Hg2;
    [destruct (GetUser db2 id)|]; settle; eauto using writeAudit_grow, accounts_grow_trans.
Qed.

Lemma keeps_delete : keeps_accounts handleDeleteUser.
Proof.
  apply keeps_with_db. intros m r a Hok. destruct (pathUser r) as [id|]; [|settle].
  destruct (Nat.leb_spec (length (ListUsers (a_db a))) 1) as [|Hl]; [settle|]. destruct (GetUser _ _); [|settle].
  unfold ListUsers in Hl. rewrite length_map in Hl. pose proof (DeleteUser_grow id (a_db a) Hok Hl) as Hg.
  destruct (DeleteUser id (a_db a)) as [[] db]; settle.
Qed.

Lemma keeps_rotate : keeps_accounts handleRotateJWTSecret.
Proof.
  intros m r [a|]; [|done]. unfold handleRotateJWTSecret, enabled. destruct (Enabled a) eqn:E; [|apply server_grows_refl].
  unfold RotateSecret. rewrite E. cbn [negb snd]. intros Hok. apply writeAudit_grow. cbn [a_db].
  eapply accounts_grow_same; [| |by apply accounts_grow_refl]; done.
Qed.

Lemma keeps_register rt : keeps_accounts (Register rt).
Proof.
  destruct rt; cbn [Register]; auto using keeps_auth, keeps_authAdmin, keeps_change_password, keeps_create, keeps_update,
    keeps_delete, keeps_rotate.
  - apply keeps_same. intros m r s. unfold handleAuthLogin. destruct (enabled s); [|done]. destruct body as [[]|]; [|done].
    by destruct (Login _ _ _ _) as [[]|].
  - apply keeps_auth, keeps_same. intros m r s. unfold handleMe. destruct (enabled s); [|done]. by destruct (ParseToken _ _ _).
  - apply keeps_authAdmin, keeps_with_db. intros m r a Hok. settle.
  - apply keeps_authAdmin, keeps_with_db. intros m r a Hok. settle.
Qed.

(** A run of the server: the requests it serves, one after the other. *)
Definition serveAll (reqs : list (route * moment * request)) (s : server) : server :=
  foldl (fun s '(rt, m, r) => snd (Register rt m r s)) s reqs.

Lemma serveAll_grow reqs a :
  accounts_ok (a_db a) -> exists a', serveAll reqs (Some a) = Some a' /\ accounts_grow (a_db a) (a_db a').
Proof.
  revert a. induction reqs as [|[[rt m] r] reqs IH]; intros a Hok; [eauto using accounts_grow_refl|].
  cbn [serveAll foldl]. pose proof (keeps_register rt m r (Some a)) as Hk.
  destruct (snd (Register rt m r (Some a))) as [a1|]; [|done]. specialize (Hk Hok).
  destruct (IH a1 (accounts_grow_ok _ _ Hk)) as (a2 & E & Hg). exists a2. split; [done|]. by eapply accounts_grow_trans.
Qed.

Lemma open_grow env flag auto db r db' :
  accounts_ok db -> open env flag auto db = (r, db') -> accounts_grow db db'.
Proof.
  intros Hok. unfold open. destruct (if (_ <? 16)%nat then _ else _) as [secret|]; [|intros [= _ <-]; by apply accounts_grow_refl].
  set (db1 := match GetSetting kvJWTSecret db with [] => _ | _ => _ end).
  assert (accounts_grow db db1) as Hg.
  { subst db1. destruct (GetSetting _ _); [|by apply accounts_grow_refl].
    eapply accounts_grow_same; [| |by apply accounts_grow_refl]; done. }
  destruct auto; [|by intros [= _ <-]]. unfold EnsureBootstrap. destruct (db_users db1) eqn:E; [|by intros [= _ <-]].
  pose proof (CreateUser_grow (se_now env) (se_salt env) (bootstrapUsername (se_user env)) (bootstrapPassword (se_password env)) db1
                (accounts_grow_ok _ _ Hg)) as Hg2.
  destruct (CreateUser _ _ _ _ _) as [[] db2]; cbn [snd] in Hg2; intros [= _ <-].
  - eapply accounts_grow_trans; [exact Hg|]. by eapply accounts_grow_same; [| |exact Hg2].
  - by eapply accounts_grow_trans.
Qed.

Lemma CreateUser_populates now salt name pw db db' : CreateUser now salt name pw db = (Ok tt, db') -> db_users db' <> [].
Proof.
  unfold CreateUser. case_bool_decide; [done|]. destruct (_ <? _)%nat; [done|]. destruct (GenerateFromPassword _ _); [|done].
  intros [= <-]. cbn [setUsers db_users]. destruct (db_users db); [done|]. by destruct (existsb _ _).
Qed.

Lemma open_populated env flag db a db' :
  open env flag true db = (Ok a, db') -> a_db a = db' /\ db_users db' <> [].
Proof.
  unfold open. destruct (if (_ <? 16)%nat then _ else _) as [secret|]; [|done].
  set (db1 := match GetSetting kvJWTSecret db with [] => _ | _ => _ end). clearbody db1.
  unfold EnsureBootstrap. destruct (db_users db1) eqn:E; [|intros [= <- <-]; by rewrite E].
  destruct (CreateUser _ _ _ _ _) as [[[]|] db2] eqn:Ec; [|done]. apply CreateUser_populates in Ec. by intros [= <- <-].
Qed.

Lemma emptySettings_ok : accounts_ok emptySettings.
Proof. split; [constructor|]. split; [constructor|]. split; [constructor|done]. Qed.


(** ** Who may change what *)

(** What a successful change of one's own password does to the accounts. *)
Definition own_password_changed (mc : claims) (a a' : Auth) : Prop :=
  exists h, db_users (a_db a') = updateWhere (withID (default 0 (cl_uid mc))) (withHash h) (db_users (a_db a)) /\
    db_kv (a_db a') = db_kv (a_db a) /\ a_secret a' = a_secret a.

Lemma writeAudit_keeps now r action target payload a :
  db_users (a_db (writeAudit now r action target payload a)) = db_users (a_db a) /\
  db_kv (a_db (writeAudit now r action target payload a)) = db_kv (a_db a) /\
  a_secret (writeAudit now r action target payload a) = a_secret a.
Proof. unfold writeAudit. destruct (negb _); [done|]. by destruct (claimsFromRequest now r a). Qed.

Lemma authAdmin_guard next m r a rep s' :
  Enabled a = true -> authAdmin next m r (Some a) = (rep, s') -> s' <> Some a ->
  exists mc, ParseToken (mo_now m) (v2_bearerFromRequest r) a = Ok mc /\ isAdminRole (roleFromClaims mc a) = true.
Proof.
  intros He. unfold authAdmin, auth, requireAdmin, enabled. rewrite He. destruct (ValidRequest _ _ _); [|by intros [= _ <-]].
  unfold roleFromRequest. case_bool_decide; [by intros [= _ <-]|]. destruct (ParseToken _ _ _) as [mc|]; [|by intros [= _ <-]].
  destruct (isAdminRole _) eqn:E; [eauto|by intros [= _ <-]].
Qed.

Lemma change_password_guard body m r a rep s' :
  Enabled a = true -> handleChangeMyPassword body m r (Some a) = (rep, s') -> s' <> Some a ->
  exists mc a' current new uid, ParseToken (mo_now m) (v2_bearerFromRequest r) a = Ok mc /\ s' = Some a' /\ body = Some (current, new) /\
    VerifyUser (a_db a) (default [] (cl_sub mc)) current = Ok uid /\ own_password_changed mc a a'.
Proof.
  intros He. unfold handleChangeMyPassword, with_db, enabled. rewrite He.
  destruct body as [[current new]|]; [|by intros [= _ <-]]. destruct (ParseToken _ _ _) as [mc|]; [|by intros [= _ <-]].
  cbv zeta. destruct (_ || _); [by intros [= _ <-]|]. destruct (VerifyUser _ _ _) as [uid|] eqn:Ev; [|by intros [= _ <-]].
  unfold UpdateUserPassword. destruct a as [db sec]. cbn [a_db a_secret] in *.
  destruct (_ <? _)%nat; [by intros [= _ <-]|]. destruct (GenerateFromPassword _ _) as [h|]; [|by intros [= _ <-]].
  destruct (existsb _ _); intros [= _ <-] Hs; [|done].
  eexists mc, _, current, new, uid. do 4 (split; [done|]). exists h.
  rewrite !(proj1 (writeAudit_keeps _ _ _ _ _ _)), !(proj1 (proj2 (writeAudit_keeps _ _ _ _ _ _))),
    !(proj2 (proj2 (writeAudit_keeps _ _ _ _ _ _))). done.
Qed.

End Tables.

(** ** Logging in *)

Section Sessions.
Context `{AuthLaws}.

(** Both readers of a bearer token find the token of an ordinary header. *)
Lemma bearer_found tok q id lim :
  TrimSpace tok = tok -> tok <> [] ->
  let r := mkRequest (lit "Bearer " ++ tok) q id lim in auth_bearerFromRequest r = tok /\ v2_bearerFromRequest r = tok.
Proof.
  intros Ht Hn r. split; [|done]. destruct (trimmed_ends tok Ht) as [H1 H2]. unfold auth_bearerFromRequest, r. cbn [rq_Authorization].
  rewrite (TrimSpace_id (lit "Bearer " ++ tok)); [|done|by apply (ends_space_blank (lit "Bearer"))].
  rewrite ToLower_app by (repeat constructor). change (ToLower (lit "Bearer ")) with bearer_prefix. by rewrite HasPrefix_app.
Qed.

Lemma find_none_app {A} (p : A -> bool) l x : existsb p l = false -> p x = true -> List.find p (l ++ [x]) = Some x.
Proof.
  intros Hl Hx. induction l as [|y l IH]; cbn in *; [by rewrite Hx|]. apply orb_false_iff in Hl as [-> Hl]. auto.
Qed.

Lemma withID_fresh id db : accounts_ok db -> db_lastUser db < id -> existsb (withID id) (db_users db) = false.
Proof.
  intros (_ & Hf & _) Hid. apply not_true_is_false. intros (u & Hin & Hu)%existsb_exists.
  rewrite Forall_forall in Hf. destruct (Hf u) as [? _]; [by apply list_elem_of_In|]. unfold withID in Hu. lia.
Qed.

Lemma updateWhere_none p f l : existsb p l = false -> updateWhere p f l = l.
Proof.
  intros E. induction l as [|u l IH]; [done|]. cbn in *. apply orb_false_iff in E as [-> E]. f_equal. auto.
Qed.

Definition role_given (role : str) : str := match TrimSpace role with [] => lit "operator" | r => r end.

Lemma role_given_ok role : TrimSpace (role_given role) = role_given role /\ role_given role <> [].
Proof.
  unfold role_given. destruct (TrimSpace role) eqn:E; [by vm_compute|]. rewrite <- E. split; [apply TrimSpace_idemp|congruence].
Qed.

(** The accounts after an administrator has created a new one. *)
Lemma create_accounts m r a name pw role rep s' :
  Enabled a = true -> accounts_ok (a_db a) -> TrimSpace name = name -> existsb (named name) (db_users (a_db a)) = false ->
  Register (RCreate (Some (name, pw, role))) m r (Some a) = (rep, s') -> rp_status rep = 201 ->
  exists a' hash, s' = Some a' /\ a_secret a' = a_secret a /\ GenerateFromPassword (mo_salt m) pw = Some hash /\
    name <> [] /\ (8 <= length pw)%nat /\
    db_users (a_db a') = db_users (a_db a) ++ [mkUserRow (db_lastUser (a_db a) + 1) name hash (role_given role) (mo_now m)].
Proof.
  intros He Hok Ht Hnew. cbn [Register]. unfold authAdmin, auth. unfold enabled at 1. rewrite He.
  destruct (ValidRequest _ _ _); [|by intros [= <- <-]]. unfold requireAdmin, enabled. rewrite He.
  destruct (roleFromRequest _ _ _) as [x|]; [|by intros [= <- <-]]. destruct (isAdminRole x); [|by intros [= <- <-]].
  unfold handleCreateUser, with_db, enabled. rewrite He. unfold CreateUser. rewrite Ht.
  case_bool_decide as Hne; [by intros [= <- <-]|]. destruct (Nat.ltb_spec (length pw) 8) as [|Hlen]; [by intros [= <- <-]|].
  destruct (GenerateFromPassword (mo_salt m) pw) as [hash|] eqn:Eg; [|by intros [= <- <-]]. cbv zeta. rewrite Hnew.
  set (id := db_lastUser (a_db a) + 1). set (row := mkUserRow id name hash (lit "admin") (mo_now m)).
  assert (List.find (fun u => bool_decide (us_Username u = name)) (ListUsers (setUsers (db_users (a_db a) ++ [row]) id (a_db a)))
          = Some (view row)) as ->.
  { unfold ListUsers. cbn [setUsers db_users]. rewrite map_app. apply find_none_app; [|by apply bool_decide_eq_true].
    apply not_true_is_false. intros (v & (u & <- & Hin)%in_map_iff & Hv%bool_decide_eq_true)%existsb_exists.
    assert (existsb (named name) (db_users (a_db a)) = true) as E; [|congruence].
    apply existsb_exists. exists u. split; [done|]. apply bool_decide_eq_true. by rewrite <- Hv. }
  fold (role_given role). destruct (role_given_ok role) as [Hr Hrn]. unfold UpdateUserRole. rewrite Hr.
  rewrite bool_decide_false by done. cbn [view us_ID row ur_ID setUsers db_users db_lastUser].
  assert (withID id row = true) as Hw by apply Z.eqb_refl.
  assert (existsb (withID id) (db_users (a_db a) ++ [row]) = true) as ->.
  { apply existsb_exists. exists row. split; [|done]. apply in_app_iff. right. by left. }
  intros [= <- <-] _. eexists _, hash. split; [done|]. rewrite (proj2 (proj2 (writeAudit_keeps _ _ _ _ _ _))).
  do 4 (split; [done|]). rewrite (proj1 (writeAudit_keeps _ _ _ _ _ _)). cbn [a_db setUsers db_users].
  unfold updateWhere. rewrite map_app. cbn [map]. rewrite Hw. f_equal.
  apply updateWhere_none, withID_fresh; [done|unfold id; lia].
Qed.

(** An account an administrator creates can be used as it was asked for: its
    owner logs in with the password, and until the token expires it shows the
    account's name, id and role, and opens the administrative routes exactly
    when the role is that of an administrator. *)
Theorem created_account_logs_in m r a name pw role rep s' :
  Enabled a = true -> accounts_ok (a_db a) -> db_lastUser (a_db a) + 1 < 2 ^ 53 ->
  TrimSpace name = name -> existsb (named name) (db_users (a_db a)) = false ->
  Register (RCreate (Some (name, pw, role))) m r (Some a) = (rep, s') -> rp_status rep = 201 ->
  forall m2 r2, 0 <= mo_now m2 -> mo_now m2 + jwtTTL < 2 ^ 53 ->
  exists tok, Register (RLogin (Some (name, pw))) m2 r2 s' = (mkReply 200 (PToken tok (mo_now m2 + jwtTTL)), s') /\
  forall m3 q id lim, 0 <= mo_now m3 < mo_now m2 + jwtTTL ->
    let r3 := mkRequest (lit "Bearer " ++ tok) q id lim in
    Register RMe m3 r3 s' = (mkReply 200 (PMe (lit "internal") name (db_lastUser (a_db a) + 1) (mo_now m2 + jwtTTL)
                                             (role_given role)), s') /\
    rp_status (fst (Register RUsers m3 r3 s')) = if isAdminRole (role_given role) then 200 else 403.
Proof.
  intros He Hok Hid Ht Hnew E Hst m2 r2 Hm2 Hexp.
  destruct (create_accounts m r a name pw role rep s' He Hok Ht Hnew E Hst) as (a' & hash & -> & Hsec & Hg & Hne & Hlen & Hu).
  assert (Enabled a' = true) as He' by (unfold Enabled in *; by rewrite Hsec).
  set (uid := db_lastUser (a_db a) + 1) in *. destruct (role_given_ok role) as [Hr Hrn].
  assert (0 <= db_lastUser (a_db a)) as Hlast by apply Hok.
  assert (VerifyUser (a_db a') name pw = Ok uid) as Hv.
  { unfold VerifyUser. rewrite Ht, Hu, find_none_app; [|done|by apply bool_decide_eq_true].
    rewrite bool_decide_false, bool_decide_false; [|by destruct pw; [simpl in Hlen; lia|]|done]. cbn [orb ur_PasswordHash]. by rewrite (compare_generated _ _ _ Hg). }
  assert (GetUser (a_db a') uid = Some (mkUser uid name (role_given role) (mo_now m))) as Hgu.
  { unfold GetUser. rewrite Hu, find_none_app; [done| |apply Z.eqb_refl]. apply withID_fresh; [done|unfold uid; lia]. }
  set (c := mkClaims (Some jwtIssuer) (Some name) (Some uid) (Some (role_given role)) (Some (mo_now m2)) (Some (mo_now m2 + jwtTTL))).
  exists (SignedString (a_secret a') c). split.
  { cbn [Register]. unfold handleAuthLogin, enabled, Login. rewrite He'. cbn [negb]. rewrite Hv. cbn [rbind]. rewrite Hgu.
    cbn [us_Role]. rewrite Hr, Ht, bool_decide_false by done.
    by rewrite He'. }
  intros m3 q id lim Hm3. destruct (bearer_found (SignedString (a_secret a') c) q id lim) as [Hb1 Hb2];
    [apply signed_trimmed|apply signed_nonempty|]. cbv zeta. set (r3 := mkRequest _ q id lim) in *.
  assert (parseJWT (mo_now m3) (SignedString (a_secret a') c) a' = Ok c) as Hp.
  { unfold parseJWT. by rewrite (parse_signed _ c uid (mo_now m2) (mo_now m2 + jwtTTL)) by (done || unfold uid, jwtTTL in *; lia). }
  assert (ParseToken (mo_now m3) (v2_bearerFromRequest r3) a' = Ok c) as Hpt.
  { unfold ParseToken. rewrite He', Hb2, signed_trimmed. exact Hp. }
  assert (ValidRequest (mo_now m3) r3 a' = true) as Hval.
  { unfold ValidRequest. rewrite He', Hb1, bool_decide_false by apply signed_nonempty. cbn [negb]. by rewrite Hp. }
  assert (roleFromClaims c a' = role_given role) as Hrole.
  { unfold roleFromClaims. change (default [] (cl_role c)) with (role_given role). by rewrite Hr, bool_decide_false by done. }
  split; cbn [Register]; unfold authAdmin, auth, enabled; rewrite He', Hval.
  - unfold handleMe, enabled. by rewrite He', Hpt, Hrole.
  - unfold requireAdmin, enabled, roleFromRequest. rewrite He', Hb2, bool_decide_false, <- Hb2, Hpt, Hrole by apply signed_nonempty.
    destruct (isAdminRole _); [|done]. unfold handleListUsers, with_db, enabled. by rewrite He'.
Qed.

(** ** The secret *)

Lemma GetSetting_put key v db : GetSetting key (PutSetting key v db) = v.
Proof. unfold GetSetting, PutSetting. cbn [db_kv]. by rewrite lookup_insert_eq. Qed.

(** A database that holds a good secret gives it to every later start. *)
Lemma open_keeps_secret env flag auto db key :
  GetSetting kvJWTSecret db = key -> TrimSpace key = key -> (16 <= length key)%nat -> db_users db <> [] ->
  exists a, open env flag auto db = (Ok a, db) /\ a_secret a = key.
Proof.
  intros Hk Ht Hl Hu. unfold open. rewrite Hk, Ht. destruct key as [|k key]; [simpl in Hl; lia|].
  destruct (Nat.ltb_spec (length (k :: key)) 16); [lia|]. unfold EnsureBootstrap. destruct (db_users db); [done|].
  destruct auto; eauto.
Qed.

(** Rotating the secret ends every session: a token signed under the old
    secret is refused from then on, provided the library refuses tokens signed
    under another key; the new secret is stored, and every later start of the
    server, with whatever secret on its command line, uses it. *)
Theorem rotation_revokes m r a rep s' :
  (forall k k' c now, k <> k' -> ParseHS256 k' now (SignedString k c) = None) ->
  Enabled a = true -> db_users (a_db a) <> [] -> length (mo_random m) = 32%nat -> EncodeToString (mo_random m) <> a_secret a ->
  Register RRotate m r (Some a) = (rep, s') -> rp_status rep = 200 ->
  exists a', s' = Some a' /\ rep = mkReply 200 (PSecret (a_secret a')) /\
    (forall c r2 now, auth_bearerFromRequest r2 = SignedString (a_secret a) c -> ValidRequest now r2 a' = false) /\
    (forall env flag auto, exists a'', open env flag auto (a_db a') = (Ok a'', a_db a') /\ a_secret a'' = a_secret a').
Proof.
  intros Hkeys He Hu Hlen Hnew. cbn [Register]. unfold authAdmin, auth. unfold enabled at 1. rewrite He.
  destruct (ValidRequest _ _ _); [|by intros [= <- <-]]. destruct (requireAdmin _ _ _) as [e|] eqn:Er.
  { intros [= <- <-]. revert Er. unfold requireAdmin, enabled. rewrite He. destruct (roleFromRequest _ _ _) as [x|]; [|by intros [= <-]].
    by destruct (isAdminRole x); [|intros [= <-]]. }
  unfold handleRotateJWTSecret, enabled, RotateSecret. rewrite He. rewrite He. cbn [negb].
  set (key := EncodeToString (mo_random m)) in *. intros [= <- <-] _. eexists. split; [done|].
  rewrite (proj2 (proj2 (writeAudit_keeps _ _ _ _ _ _))). cbn [a_secret]. split; [done|]. split.
  - intros c r2 now Hb. unfold ValidRequest. rewrite Hb. destruct (negb _); [done|]. case_bool_decide; [done|].
    unfold parseJWT. rewrite (proj2 (proj2 (writeAudit_keeps _ _ _ _ _ _))). cbn [a_secret]. by rewrite Hkeys.
  - intros env flag auto. apply open_keeps_secret.
    + unfold GetSetting. rewrite (proj1 (proj2 (writeAudit_keeps _ _ _ _ _ _))). apply GetSetting_put.
    + apply Forall_plain_trimmed, EncodeToString_plain.
    + unfold key. rewrite EncodeToString_length. lia.
    + by rewrite (proj1 (writeAudit_keeps _ _ _ _ _ _)).
Qed.
End Sessions.

(** ** A model of the libraries

    Tokens are the fields in hexadecimal or decimal, with dots between them. *)

Definition put_text (s : option str) : str := match s with None => lit "-" | Some s => lit "+" ++ EncodeToString s end.
Definition put_num (z : option Z) : str := match z with None => lit "-" | Some z => lit "+" ++ Itoa z end.
Definition get_text (s : str) : option str := match s with b :: t => if beqb b x2b then hex_decode t else None | [] => None end.
Definition get_num (s : str) : option Z := match s with b :: t => if beqb b x2b then Atoi t else None | [] => None end.

Definition token_fields (key : str) (c : claims) : list str :=
  [put_text (Some key); put_text (cl_iss c); put_text (cl_sub c); put_num (cl_uid c); put_text (cl_role c);
   put_num (cl_iat c); put_num (cl_exp c)].

#[global] Instance plainLib : AuthLib := {
  GenerateFromPassword salt pw := if (length pw <=? 72)%nat then Some (salt ++ lit ":" ++ pw) else None;
  CompareHashAndPassword h pw := HasSuffix h (lit ":" ++ pw);
  SignedString key c := Join (token_fields key c) [x2e];
  ParseHS256 key now tok :=
    match Split tok x2e with
    | [k; iss; sub; uid; role; iat; exp] =>
      if bool_decide (get_text k = Some key) && bool_decide (now < default 0 (get_num exp))
      then Some (mkClaims (get_text iss) (get_text sub) (get_num uid) (get_text role) (get_num iat) (get_num exp)) else None
    | _ => None
    end
}.

Lemma get_put_text s : get_text (put_text s) = s.
Proof. destruct s as [s|]; [|done]. cbn. apply hex_decode_encode. Qed.

Lemma get_put_num z n : z = Some n -> 0 <= n < 2 ^ 53 -> get_num (put_num z) = z.
Proof. intros -> Hn. cbn. apply Atoi_Itoa. unfold in_int64, int64_min, int64_max. bool_to_prop. lia. Qed.

Lemma put_text_plain s : Forall (fun b => plain b = true) (put_text s).
Proof. destruct s; [|by repeat constructor]. constructor; [done|apply EncodeToString_plain]. Qed.
Lemma put_num_plain s : Forall (fun b => plain b = true) (put_num s).
Proof. destruct s; [|by repeat constructor]. constructor; [done|apply Itoa_plain]. Qed.

Lemma token_no_dot key c : Forall (fun f => x2e ∉ f) (token_fields key c).
Proof.
  assert (forall s, x2e ∉ put_text s) as Ht.
  { intros [s|]; [|by intros ?%list_elem_of_singleton]. apply not_elem_of_cons. split; [done|]. intros Hin.
    pose proof (EncodeToString_hex s) as Hf. rewrite Forall_forall in Hf. destruct (Hf _ Hin); done. }
  assert (forall z, x2e ∉ put_num z) as Hz.
  { intros [z|]; [|by intros ?%list_elem_of_singleton]. apply not_elem_of_cons. split; [done|]. intros Hin.
    assert (forall n, x2e ∉ dec_of n) as Hd.
    { intros n Hn. pose proof (dec_of_digits n) as Hf. rewrite Forall_forall in Hf. by specialize (Hf _ Hn). }
    unfold Itoa in Hin. destruct (z <? 0); [apply elem_of_cons in Hin as [?|Hin]; [done|]|]; by apply Hd in Hin. }
  unfold token_fields. auto 10 using Forall_cons_2, Forall_nil_2.
Qed.

Lemma Split_token key c : Split (SignedString key c) x2e = token_fields key c.
Proof.
  pose proof (token_no_dot key c) as Hn. cbn [SignedString plainLib]. revert Hn. unfold token_fields.
  generalize (put_text (Some key)), (put_text (cl_iss c)), (put_text (cl_sub c)), (put_num (cl_uid c)), (put_text (cl_role c)),
    (put_num (cl_iat c)), (put_num (cl_exp c)).
  intros f1 f2 f3 f4 f5 f6 f7 Hn. repeat (apply Forall_cons in Hn as [? Hn]).
  rewrite !Join_cons by done. cbn [app]. rewrite !Split_segment by done. cbn [Join]. by rewrite Split_none.
Qed.

#[global] Instance plainLaws : AuthLaws.
Proof.
  split.
  - intros salt pw h. cbn [GenerateFromPassword CompareHashAndPassword plainLib].
    destruct (_ <=? _)%nat; [|done]. intros [= <-]. apply HasSuffix_spec. by exists salt.
  - intros key c uid iat exp now Hu Hu' Hi Hi' He He' He''. cbn [ParseHS256 plainLib].
    change (Join (token_fields key c) [x2e]) with (SignedString key c). rewrite Split_token. unfold token_fields.
    rewrite !get_put_text, (get_put_num (cl_uid c) uid), (get_put_num (cl_iat c) iat), (get_put_num (cl_exp c) exp) by (done || lia).
    rewrite bool_decide_true, bool_decide_true by (done || rewrite He; simpl; lia). by destruct c.
  - intros key c. apply Forall_plain_trimmed. cbn [SignedString plainLib]. unfold token_fields.
    rewrite !Join_cons by done. cbn [Join]. rewrite !Forall_app. repeat split; auto using put_text_plain, put_num_plain;
      by repeat constructor.
  - intros key c. by destruct c.
Qed.

Lemma plain_other_key k k' c now : k <> k' -> ParseHS256 k' now (SignedString k c) = None.
Proof.
  intros Hk. cbn [ParseHS256 plainLib]. rewrite Split_token. unfold token_fields. rewrite get_put_text, bool_decide_false by congruence. done.
Qed.

(** ** A small run *)

Definition demoEnv : start_env := mkStartEnv 1000 (lit "1970") (replicate 32 x61) (lit "s0") [] [].
Definition demoStart : result auth_error Auth * settings := open demoEnv [] true emptySettings.
Definition demoAuth : Auth := match fst demoStart with Ok a => a | Err _ => mkAuth emptySettings [] end.
Definition demoMoment (now : Z) : moment := mkMoment now (lit "s1") (replicate 32 x62).
Definition demoToken : str :=
  match Login 1000 (lit "admin") (lit "sipcapture") demoAuth with Ok (tok, _) => tok | Err _ => [] end.
Definition demoRequest (scheme : string) (id : string) : request := mkRequest (lit scheme ++ demoToken) [] (lit id) [].
Definition demoCreate (name role : string) : route := RCreate (Some (lit name, lit "password1", lit role)).
Definition accounts (s : server) : list (str * str) :=
  match s with Some a => map (fun u => (ur_Username u, ur_Role u)) (db_users (a_db a)) | None => [] end.

Lemma demo_open : open demoEnv [] true emptySettings = (Ok demoAuth, a_db demoAuth).
Proof.
  unfold demoAuth. fold demoStart. destruct demoStart as [[a|e] db] eqn:E; cbn [fst].
  - by destruct (open_populated _ _ _ _ _ E) as [-> _].
  - exfalso. apply (f_equal (fun x => match fst x with Ok _ => true | Err _ => false end)) in E. vm_compute in E. discriminate.
Qed.



Lemma created_account_logs_in_witness :
  exists tok, Register (RLogin (Some (lit "bob", lit "password1"))) (demoMoment 1002) (demoRequest "" "")
                (snd (Register (demoCreate "bob" "operator") (demoMoment 1001) (demoRequest "Bearer " "") (Some demoAuth)))
    = (mkReply 200 (PToken tok 87402),
       snd (Register (demoCreate "bob" "operator") (demoMoment 1001) (demoRequest "Bearer " "") (Some demoAuth))) /\
  forall m3 q id lim, 0 <= mo_now m3 < 87402 ->
    let r3 := mkRequest (lit "Bearer " ++ tok) q id lim in
    Register RMe m3 r3 (snd (Register (demoCreate "bob" "operator") (demoMoment 1001) (demoRequest "Bearer " "") (Some demoAuth)))
    = (mkReply 200 (PMe (lit "internal") (lit "bob") (db_lastUser (a_db demoAuth) + 1) 87402 (role_given (lit "operator"))),
       snd (Register (demoCreate "bob" "operator") (demoMoment 1001) (demoRequest "Bearer " "") (Some demoAuth))) /\
    rp_status (fst (Register RUsers m3 r3
      (snd (Register (demoCreate "bob" "operator") (demoMoment 1001) (demoRequest "Bearer " "") (Some demoAuth)))))
    = if isAdminRole (role_given (lit "operator")) then 200 else 403.
Proof.
  refine (created_account_logs_in (demoMoment 1001) (demoRequest "Bearer " "") demoAuth (lit "bob") (lit "password1") (lit "operator")
            (fst (Register (demoCreate "bob" "operator") (demoMoment 1001) (demoRequest "Bearer " "") (Some demoAuth))) _
            _ _ _ _ _ _ _ (demoMoment 1002) (demoRequest "" "") _ _).
  - vm_compute. reflexivity.
  - exact (accounts_grow_ok _ _ (open_grow demoEnv [] true emptySettings _ (a_db demoAuth) emptySettings_ok demo_open)).
  - vm_compute. reflexivity.
  - vm_compute. reflexivity.
  - vm_compute. reflexivity.
  - apply surjective_pairing.
  - vm_compute. reflexivity.
  - vm_compute. discriminate.
  - vm_compute. reflexivity.
Defined.

Lemma rotation_revokes_witness : exists a',
  snd (Register RRotate (demoMoment 1001) (demoRequest "Bearer " "") (Some demoAuth)) = Some a' /\
  fst (Register RRotate (demoMoment 1001) (demoRequest "Bearer " "") (Some demoAuth)) = mkReply 200 (PSecret (a_secret a')) /\
  (forall c r2 now, auth_bearerFromRequest r2 = SignedString (a_secret demoAuth) c -> ValidRequest now r2 a' = false) /\
  (forall env flag auto, exists a'', open env flag auto (a_db a') = (Ok a'', a_db a') /\ a_secret a'' = a_secret a').
Proof.
  refine (rotation_revokes (demoMoment 1001) (demoRequest "Bearer " "") demoAuth _ _ plain_other_key _ _ _ _ _ _).
  - vm_compute. reflexivity.
  - vm_compute. discriminate.
  - reflexivity.
  - vm_compute. discriminate.
  - apply surjective_pairing.
  - vm_compute. reflexivity.
Defined.

(** ** Surprises *)

(** A blank before the name of a new account: the row is stored under the
    trimmed name, looked for under the untrimmed one and not found, and keeps
    the default role of the column, which is admin. *)
Theorem padded_name_becomes_admin :
  let '(rep, s) := Register (demoCreate " bob" "operator") (demoMoment 1001) (demoRequest "Bearer " "") (Some demoAuth) in
  rp_status rep = 201 /\ accounts s = [(lit "admin", lit "admin"); (lit "bob", lit "admin")].
Proof. vm_compute. done. Qed.

(** The last administrator can be deleted as long as any other account is
    left. *)
Theorem last_admin_deleted :
  let s1 := snd (Register (demoCreate "bob" "operator") (demoMoment 1001) (demoRequest "Bearer " "") (Some demoAuth)) in
  let '(rep, s2) := Register RDelete (demoMoment 1002) (demoRequest "Bearer " "1") s1 in
  rp_status rep = 204 /\ accounts s2 = [(lit "bob", lit "operator")].
Proof. vm_compute. done. Qed.

(** The audit row of a rotation names nobody: it is written with the new secret
    in force, under which the caller's token is no longer valid. *)
Theorem rotation_audit_anonymous :
  let s := snd (Register RRotate (demoMoment 1001) (demoRequest "Bearer " "") (Some demoAuth)) in
  match s with
  | Some a => map (fun e => (au_Action e, au_UserID e, au_Username e)) (db_audit (a_db a))
              = [(lit "settings.rotate_jwt_secret", None, [])]
  | None => False
  end.
Proof. vm_compute. done. Qed.

(** The scheme in capitals passes the middleware, and the handlers, which read
    it differently, then find no token. *)
Theorem bearer_spellings_differ :
  ValidRequest 1001 (demoRequest "BEARER " "") demoAuth = true /\
  rp_status (fst (Register RMe (demoMoment 1001) (demoRequest "BEARER " "") (Some demoAuth))) = 401.
Proof. vm_compute. done. Qed.

(** A stored secret that is too short hides a good one from the command line;
    and where a secret is generated instead it is not stored, so that the next
    start makes another. *)
Theorem short_stored_secret :
  let db := PutSetting kvJWTSecret (lit "short") (a_db demoAuth) in
  fst (open demoEnv (lit "0123456789abcdef") false db) = Err SecretTooShort /\
  match open demoEnv (lit "0123456789abcdef") true db with
  | (Ok a, db') => a_secret a = GenerateJWTSecret (se_random demoEnv) /\ GetSetting kvJWTSecret db' = lit "short"
  | _ => False
  end.
Proof. vm_compute. done. Qed.
