(* ===== verification/LoadCoordinator.v ===== *)
(** * Load clients added at runtime

    [src/internal/launcher/load_coordinator.go]: the coordinator that starts
    and stops further load engines while the program runs.  Its operations are
    atomic under the mutex; the goroutine that runs an engine ends in a step of
    its own.  Reading the client's configuration, [Prepare] and the event
    logger are represented by whether they succeed. *)

From stdpp Require Import base list gmap sets strings.
From Stdlib Require Import ZArith Lia Strings.Byte.
From S2P Require Import Prelude GoStrings.

Definition maxDynamicLoadClients : nat := 32.

(** An engine is known by the number of its goroutine. *)
Record dynamicLoadEntry := mkEntry { le_id : str; le_engine : nat }.

(** A goroutine that runs an engine: the name it was started under, whether its
    context is cancelled and whether it has ended. *)
Record load_run := mkRun { er_id : str; er_cancelled : bool; er_ended : bool }.

Record LoadCoordinator := mkCoordinator {
  lc_usedIDs : gset str; lc_entries : list dynamicLoadEntry; lc_seq : Z; lc_runs : list load_run }.

Definition NewLoadCoordinator (staticExtraIDs reservedIDs : list str) : LoadCoordinator :=
  let names := List.filter (fun id => negb (bool_decide (id = []))) (map TrimSpace (reservedIDs ++ staticExtraIDs)) in
  mkCoordinator (list_to_set (lit "primary" :: names)) [] 0 [].

Inductive coordinator_error :=
  | BadSnippet | ServerModeClient | PrepareFailed | TooManyClients | IDInUse | LoggerFailed | IDRequired | UnknownID.

Definition dynID (n : Z) : str := lit "dyn-" ++ Itoa n.

(** The loop of [pickID]; the counter is a [uint64]. *)
Fixpoint pickFree (fuel : nat) (used : gset str) (seq : Z) : option (str * Z) :=
  match fuel with
  | O => None
  | S fuel =>
    let seq := (seq + 1) mod 2 ^ 64 in
    if bool_decide (dynID seq ∈ used) then pickFree fuel used seq else Some (dynID seq, seq)
  end.

(** [pickID]: one more round than there are names in use. *)
Definition pickID (used : gset str) (seq : Z) (want : str) : option (result coordinator_error str * Z) :=
  match TrimSpace want with
  | [] => match pickFree (S (size used)) used seq with Some (id, seq) => Some (Ok id, seq) | None => None end
  | want => Some (if bool_decide (want ∈ used) then Err IDInUse else Ok want, seq)
  end.

(** What the steps before the lock make of the client's JSON. *)
Inductive prepared := Refused (e : coordinator_error) | PreparedServer | PreparedLoad.

Definition withSeq (seq : Z) (c : LoadCoordinator) : LoadCoordinator :=
  mkCoordinator (lc_usedIDs c) (lc_entries c) seq (lc_runs c).

(** [Add]; [None] when [pickID] finds no name, see [pick_finds_name]. *)
Definition Add (p : prepared) (loggerOK : bool) (wantID : str) (c : LoadCoordinator)
  : option (result coordinator_error str * LoadCoordinator) :=
  match p with
  | Refused e => Some (Err e, c)
  | PreparedServer => Some (Err ServerModeClient, c)
  | PreparedLoad =>
    if (maxDynamicLoadClients <=? length (lc_entries c))%nat then Some (Err TooManyClients, c)
    else
      match pickID (lc_usedIDs c) (lc_seq c) wantID with
      | None => None
      | Some (Err e, seq) => Some (Err e, withSeq seq c)
      | Some (Ok id, seq) =>
        if loggerOK
        then Some (Ok id, mkCoordinator ({[id]} ∪ lc_usedIDs c) (lc_entries c ++ [mkEntry id (length (lc_runs c))]) seq
                            (lc_runs c ++ [mkRun id false false]))
        else Some (Err LoggerFailed, withSeq seq c)
      end
  end.

(** The deferred part of the goroutine of engine [e]. *)
Definition engineEnds (e : nat) (c : LoadCoordinator) : LoadCoordinator :=
  match lc_runs c !! e with
  | Some (mkRun id cancelled false) =>
    mkCoordinator (lc_usedIDs c ∖ {[id]}) (lc_entries c) (lc_seq c) (<[e := mkRun id cancelled true]> (lc_runs c))
  | _ => c
  end.

Definition cancelRun (e : nat) (runs : list load_run) : list load_run :=
  alter (fun r => mkRun (er_id r) true (er_ended r)) e runs.

(** The first entry of a name, and the entries without it. *)
Fixpoint takeEntry (id : str) (l : list dynamicLoadEntry) : option (dynamicLoadEntry * list dynamicLoadEntry) :=
  match l with
  | [] => None
  | en :: l => if bool_decide (le_id en = id) then Some (en, l)
               else match takeEntry id l with Some (x, r) => Some (x, en :: r) | None => None end
  end.

Definition Remove (id : str) (c : LoadCoordinator) : result coordinator_error unit * LoadCoordinator :=
  match TrimSpace id with
  | [] => (Err IDRequired, c)
  | id => match takeEntry id (lc_entries c) with
          | None => (Err UnknownID, c)
          | Some (en, rest) => (Ok tt, mkCoordinator (lc_usedIDs c) rest (lc_seq c) (cancelRun (le_engine en) (lc_runs c)))
          end
  end.

Definition SnapshotDynamic (c : LoadCoordinator) : list nat * list str := (map le_engine (lc_entries c), map le_id (lc_entries c)).

(** [Wait] returns. *)
Definition waitReturns (c : LoadCoordinator) : bool := forallb er_ended (lc_runs c).

(** The coordinator at work: requests and engines that end. *)
Inductive lc_step : LoadCoordinator -> LoadCoordinator -> Prop :=
  | step_add p ok want c r c' : Add p ok want c = Some (r, c') -> lc_step c c'
  | step_remove id c : lc_step c (snd (Remove id c))
  | step_end e c : lc_step c (engineEnds e c).

Inductive lc_reach (static reserved : list str) : LoadCoordinator -> Prop :=
  | reach_new : lc_reach static reserved (NewLoadCoordinator static reserved)
  | reach_step c c' : lc_reach static reserved c -> lc_step c c' -> lc_reach static reserved c'.

(** ** Names *)

Definition running (c : LoadCoordinator) : list str :=
  omap (fun r => if er_ended r then None else Some (er_id r)) (lc_runs c).

Lemma dynID_inj a b : 0 <= a -> 0 <= b -> dynID a = dynID b -> a = b.
Proof.
  intros Ha Hb E%app_inv_head. unfold Itoa in E. destruct (Z.ltb_spec a 0), (Z.ltb_spec b 0); [lia..|].
  apply (f_equal (dec_value 0)) in E. rewrite !dec_of_value in E by done. by injection E.
Qed.

Lemma pickFree_none fuel used seq k :
  pickFree fuel used seq = None -> 1 <= k <= Z.of_nat fuel -> dynID ((seq + k) mod 2 ^ 64) ∈ used.
Proof.
  revert seq k. induction fuel as [|fuel IH]; intros seq k Hp Hk; [lia|]. cbn [pickFree] in Hp. case_bool_decide as Hin; [|done].
  destruct (decide (k = 1)) as [->|]; [done|]. specialize (IH _ (k - 1) Hp ltac:(lia)).
  rewrite Zplus_mod_idemp_l in IH. by replace (seq + 1 + (k - 1)) with (seq + k) in IH by lia.
Qed.

Lemma pickFree_fresh fuel used seq id seq' : pickFree fuel used seq = Some (id, seq') -> id ∉ used.
Proof.
  revert seq. induction fuel as [|fuel IH]; intros seq Hp; [done|]. cbn [pickFree] in Hp. case_bool_decide; [eauto|].
  by injection Hp as <- <-.
Qed.


(** A name is always found: among one more candidates than there are names
    in use one is free, the names of consecutive counters being different
    until the counter has gone round. *)
Theorem pick_finds_name used seq want :
  Z.of_nat (S (size used)) <= 2 ^ 64 ->
  exists r seq', pickID used seq want = Some (r, seq') /\
    match r with
    | Ok id => id ∉ used /\ id <> []
    | Err e => e = IDInUse /\ TrimSpace want ∈ used
    end.
Proof.
  intros Hs. unfold pickID. destruct (TrimSpace want) as [|w ws] eqn:Ew.
  - destruct (pickFree (S (size used)) used seq) as [[id seq']|] eqn:Ep.
    + exists (Ok id), seq'. split; [done|]. split; [by eapply pickFree_fresh|].
      revert Ep. clear. revert seq. induction (S (size used)) as [|n IH]; intros seq; [done|]. cbn [pickFree].
      case_bool_decide; [apply IH|]. by intros [= <- <-].
    + exfalso. set (names := map (fun k => dynID ((seq + Z.of_nat k) mod 2 ^ 64)) (List.seq 1 (S (size used)))).
      assert (NoDup names) as Hnd.
      { apply NoDup_fmap_2_strong; [|apply NoDup_ListNoDup, seq_NoDup].
        intros i j Hi%list_elem_of_In%in_seq Hj%list_elem_of_In%in_seq E.
        apply dynID_inj in E; [|apply Z.mod_pos_bound; lia..].
        pose proof (Z.div_mod (seq + Z.of_nat i) (2 ^ 64) ltac:(lia)). pose proof (Z.div_mod (seq + Z.of_nat j) (2 ^ 64) ltac:(lia)).
        assert ((seq + Z.of_nat i) / 2 ^ 64 = (seq + Z.of_nat j) / 2 ^ 64) as Hd; [|rewrite Hd in *; lia].
        assert (Z.of_nat i - Z.of_nat j = 2 ^ 64 * ((seq + Z.of_nat i) / 2 ^ 64 - (seq + Z.of_nat j) / 2 ^ 64)) by lia. nia. }
      assert (list_to_set (C := gset str) names ⊆ used) as Hsub.
      { intros x (k & -> & Hk%list_elem_of_In%in_seq)%elem_of_list_to_set%list_elem_of_fmap.
        apply (pickFree_none _ _ _ _ Ep). lia. }
      apply subseteq_size in Hsub. rewrite size_list_to_set in Hsub by done. unfold names in Hsub.
      rewrite length_map, length_seq in Hsub. lia.
  - exists (if bool_decide ((w :: ws) ∈ used) then Err IDInUse else Ok (w :: ws)), seq. split; [done|].
    by case_bool_decide.
Qed.

Lemma takeEntry_spec id l en rest :
  takeEntry id l = Some (en, rest) ->
  exists l1 l2, l = l1 ++ en :: l2 /\ rest = l1 ++ l2 /\ le_id en = id /\ Forall (fun x => le_id x <> id) l1.
Proof.
  revert rest. induction l as [|x l IH]; intros rest E; [done|]. cbn [takeEntry] in E. case_bool_decide as Hx.
  - injection E as <- <-. by exists [], l.
  - destruct (takeEntry id l) as [[y r]|]; [|done]. injection E as <- <-. destruct (IH r eq_refl) as (l1 & l2 & -> & -> & ? & ?).
    exists (x :: l1), l2. by repeat constructor.
Qed.

Lemma takeEntry_none id l : takeEntry id l = None -> Forall (fun x => le_id x <> id) l.
Proof.
  induction l as [|x l IH]; intros E; [constructor|]. cbn [takeEntry] in E. case_bool_decide; [done|].
  destruct (takeEntry id l) as [[]|]; [done|]. by constructor; [|apply IH].
Qed.

(** ** The state of the coordinator

    The names in use are the reserved ones and those of the engines that run;
    an entry belongs to exactly one engine, and the engines without an entry
    are those that were removed. *)
Record lc_inv (reserved : gset str) (c : LoadCoordinator) : Prop := {
  li_used : lc_usedIDs c = reserved ∪ list_to_set (running c);
  li_nodup : NoDup (running c);
  li_reserved : forall id, id ∈ running c -> id ∉ reserved;
  li_bound : (length (lc_entries c) <= maxDynamicLoadClients)%nat;
  li_engines : NoDup (map le_engine (lc_entries c));
  li_entries : forall e id, mkEntry id e ∈ lc_entries c <-> exists b, lc_runs c !! e = Some (mkRun id false b)
}.

Lemma inv_new static reserved : lc_inv (lc_usedIDs (NewLoadCoordinator static reserved)) (NewLoadCoordinator static reserved).
Proof.
  split; cbn [NewLoadCoordinator lc_usedIDs lc_entries lc_runs running omap list_omap map length].
  - set_solver.
  - constructor.
  - intros id Hid. by apply not_elem_of_nil in Hid.
  - unfold maxDynamicLoadClients. lia.
  - constructor.
  - intros e id. split; [intros Hi; by apply not_elem_of_nil in Hi|]. intros [b Hb]. by rewrite lookup_nil in Hb.
Qed.

Lemma inv_withSeq R seq c : lc_inv R c -> lc_inv R (withSeq seq c).
Proof. by intros []. Qed.

Lemma pickID_ok used seq want id seq' : pickID used seq want = Some (Ok id, seq') -> id ∉ used.
Proof.
  unfold pickID. destruct (TrimSpace want) as [|w ws].
  - destruct (pickFree _ _ _) as [[x s]|] eqn:E; [|done]. intros [= <- <-]. by eapply pickFree_fresh.
  - by case_bool_decide; intros [= <- <-].
Qed.

Lemma inv_add R p ok want c r c' : Add p ok want c = Some (r, c') -> lc_inv R c -> lc_inv R c'.
Proof.
  unfold Add. destruct p; [by intros [= <- <-]..|]. destruct (Nat.leb_spec maxDynamicLoadClients (length (lc_entries c))) as [|Hl];
    [by intros [= <- <-]|].
  destruct (pickID _ _ _) as [[[id|e] seq]|] eqn:Ep; [|intros [= <- <-]; apply inv_withSeq|done].
  apply pickID_ok in Ep. destruct ok; intros [= <- <-]; [|apply inv_withSeq]. intros [Hu Hn Hr Hb He Hent].
  assert (running (mkCoordinator ({[id]} ∪ lc_usedIDs c) (lc_entries c ++ [mkEntry id (length (lc_runs c))]) seq
            (lc_runs c ++ [mkRun id false false])) = running c ++ [id]) as Hrun by (unfold running; cbn [lc_runs]; by rewrite omap_app).
  split; rewrite ?Hrun; cbn [lc_usedIDs lc_entries lc_runs].
  - rewrite Hu, list_to_set_app_L. cbn [list_to_set]. set_solver.
  - apply NoDup_app. split; [done|]. split; [|apply NoDup_singleton]. intros x Hx ->%list_elem_of_singleton. set_solver.
  - intros x [Hx | ->%list_elem_of_singleton]%elem_of_app; [by apply Hr|set_solver].
  - rewrite length_app. cbn [length]. lia.
  - rewrite map_app. apply NoDup_app. split; [done|]. split; [|apply NoDup_singleton].
    intros x (en & -> & Hen)%list_elem_of_fmap Hx%list_elem_of_singleton. destruct en as [i e]. cbn [le_engine] in Hx.
    apply Hent in Hen as [b Hen]. apply lookup_lt_Some in Hen. lia.
  - intros e i. rewrite elem_of_app, Hent. destruct (Nat.lt_ge_cases e (length (lc_runs c))) as [Hlt|Hge].
    + rewrite lookup_app_l by done. split; [intros [?|[= _ ->]%list_elem_of_singleton]; [done|lia]|by left].
    + rewrite lookup_app_r by done. rewrite (lookup_ge_None_2 (lc_runs c)) by done. split.
      * intros [[b ?]|[= -> ->]%list_elem_of_singleton]; [done|]. rewrite Nat.sub_diag. by exists false.
      * intros [b Hbe]. right. destruct (e - length (lc_runs c))%nat eqn:Ee; [|by destruct n]. injection Hbe as <- <-.
        apply list_elem_of_singleton. f_equal. lia.
Qed.

Lemma inv_remove R id c : lc_inv R c -> lc_inv R (snd (Remove id c)).
Proof.
  intros [Hu Hn Hr Hb He Hent]. unfold Remove. destruct (TrimSpace id) as [|w ws]; [done|]. generalize (w :: ws). clear id w ws. intros id.
  destruct (takeEntry id (lc_entries c)) as [[en rest]|] eqn:E; [|done]. cbn [snd].
  apply takeEntry_spec in E as (l1 & l2 & El & -> & Hid & _). destruct en as [i e]. cbn [le_id le_engine] in *. subst i.
  assert (exists b, lc_runs c !! e = Some (mkRun id false b)) as [b Hrun].
  { apply Hent. rewrite El. apply elem_of_app. right. by left. }
  assert (running (mkCoordinator (lc_usedIDs c) (l1 ++ l2) (lc_seq c) (cancelRun e (lc_runs c))) = running c) as Hsame.
  { unfold running, cancelRun. cbn [lc_runs]. apply list_elem_of_split_length in Hrun as (r1 & r2 & -> & ->).
    rewrite <- (Nat.add_0_r (length r1)), alter_app_r, !omap_app. by destruct b. }
  rewrite El in Hb, He. rewrite map_app in He. cbn [map] in He.
  split; rewrite ?Hsame; cbn [lc_usedIDs lc_entries lc_runs]; [done..| | |].
  - rewrite length_app in *. cbn [length] in Hb. lia.
  - rewrite map_app. rewrite <- Permutation_middle in He. by apply NoDup_cons in He as [_ He].
  - intros e' i. unfold cancelRun. destruct (decide (e' = e)) as [->|Hne].
    + rewrite list_lookup_alter_eq, Hrun. split; [|by intros [? ?]]. intros Hin. exfalso.
      rewrite <- Permutation_middle in He. apply NoDup_cons in He as [He _]. apply He. rewrite <- map_app.
      apply list_elem_of_fmap. by exists (mkEntry i e).
    + rewrite list_lookup_alter_ne by done. rewrite <- Hent, El, !elem_of_app, elem_of_cons. naive_solver.
Qed.

Lemma coord_end R e c : lc_inv R c -> lc_inv R (engineEnds e c).
Proof.
  intros Hinv. unfold engineEnds. destruct (lc_runs c !! e) as [[id cancelled [|]]|] eqn:Erun; [done| |done].
  destruct Hinv as [Hu Hn Hr Hb He Hent]. apply list_elem_of_split_length in Erun as Hs. destruct Hs as (r1 & r2 & El & Ee).
  set (live := fun r => if er_ended r then None else Some (er_id r)).
  assert (running c = omap live r1 ++ id :: omap live r2) as Hrun by (unfold running; rewrite El, omap_app; done).
  rewrite Hrun in Hn, Hr, Hu. rewrite <- Permutation_middle in Hn. apply NoDup_cons in Hn as [Hni Hn].
  split; unfold running; cbn [lc_usedIDs lc_entries lc_runs]; try done;
    rewrite ?El, ?Ee, ?insert_app_r_alt, ?Nat.sub_diag, ?omap_app by lia; cbn [insert list_insert omap list_omap er_ended er_id]; fold live.
  - rewrite Hu, !list_to_set_app_L. cbn [list_to_set]. assert (id ∉ R) by (apply Hr; set_solver).
    assert (id ∉@{gset str} list_to_set (omap live r1) ∪ list_to_set (omap live r2)); set_solver.
  - done.
  - intros x Hx. apply Hr. set_solver.
  - intros e' i. rewrite Hent, El. destruct (Nat.lt_trichotomy e' (length r1)) as [Hlt|[->|Hgt]].
    + by rewrite !lookup_app_l by done.
    + rewrite !lookup_app_r, Nat.sub_diag by lia. cbn. naive_solver.
    + rewrite !lookup_app_r by lia. by destruct (e' - length r1)%nat eqn:?; [lia|].
Qed.

Lemma coord_reach static reserved c :
  lc_reach static reserved c -> lc_inv (lc_usedIDs (NewLoadCoordinator static reserved)) c.
Proof.
  induction 1 as [|c c' _ IH Hs]; [apply inv_new|]. destruct Hs; eauto using inv_add, inv_remove, coord_end.
Qed.

(** However clients are added and removed and engines end: a name is in use
    exactly when it is reserved or an engine runs under it; no two running
    engines share a name and none has a reserved one; there are at most 32
    entries, one for each engine that was not removed; and removing a client
    cancels the engine that runs under the name, unless an engine of that name
    has ended without being removed. *)
Theorem coordinator_sound static reserved c :
  lc_reach static reserved c ->
  let R := lc_usedIDs (NewLoadCoordinator static reserved) in
  (forall id, id ∈ lc_usedIDs c <-> id ∈ R \/ id ∈ running c) /\ NoDup (running c) /\ (forall id, id ∈ R -> id ∉ running c) /\
  (length (lc_entries c) <= maxDynamicLoadClients)%nat /\
  (forall e id, mkEntry id e ∈ lc_entries c <-> exists b, lc_runs c !! e = Some (mkRun id false b)) /\
  (forall e id, lc_runs c !! e = Some (mkRun id false false) -> TrimSpace id = id -> id <> [] ->
     (forall e', lc_runs c !! e' <> Some (mkRun id false true)) ->
     fst (Remove id c) = Ok tt /\ lc_runs (snd (Remove id c)) !! e = Some (mkRun id true false)).
Proof.
  intros Hr R. destruct (coord_reach _ _ _ Hr) as [Hu Hn Hres Hb He Hent]. fold R in Hu, Hres.
  split; [intros id; rewrite Hu; set_solver|]. split; [done|]. split; [intros id H1 H2; by apply (Hres id)|].
  split; [done|]. split; [done|]. intros e id Hrun Ht Hne Hold. unfold Remove. rewrite Ht. destruct id as [|w ws]; [done|].
  generalize dependent (w :: ws). clear w ws. intros id Hrun _ _ Hold.
  assert (mkEntry id e ∈ lc_entries c) as Hin by (apply Hent; by exists false).
  destruct (takeEntry id (lc_entries c)) as [[[i e'] rest]|] eqn:E.
  - apply takeEntry_spec in E as (l1 & l2 & El & -> & Hi & _). cbn [le_id] in Hi. subst i. cbn [fst snd lc_runs le_engine].
    assert (exists b, lc_runs c !! e' = Some (mkRun id false b)) as [[|] Hb'];
      [apply Hent; rewrite El; apply elem_of_app; right; by left|by destruct (Hold e')|].
    assert (e' = e) as ->; [|split; [done|unfold cancelRun; by rewrite list_lookup_alter_eq, Hrun]].
    destruct (Nat.lt_trichotomy e' e) as [Hlt|[?|Hlt]]; [|done|]; exfalso; revert Hn; unfold running;
      [apply list_elem_of_split_length in Hrun as (r1 & r2 & El' & ->)|apply list_elem_of_split_length in Hb' as (r1 & r2 & El' & ->)];
      rewrite El', omap_app; cbn [omap list_omap er_ended er_id]; intros (_ & Hd & _)%NoDup_app; apply (Hd id); try by left.
    + rewrite El', lookup_app_l in Hb' by done. apply list_elem_of_omap. exists (mkRun id false false).
      split; [by eapply list_elem_of_lookup_2|done].
    + rewrite El', lookup_app_l in Hrun by done. apply list_elem_of_omap. exists (mkRun id false false).
      split; [by eapply list_elem_of_lookup_2|done].
  - apply takeEntry_none in E. rewrite Forall_forall in E. by destruct (E _ Hin).
Qed.

(** ** A small run, and surprises *)

Definition added (want : string) (c : LoadCoordinator) : LoadCoordinator :=
  match Add PreparedLoad true (lit want) c with Some (_, c') => c' | None => c end.
Definition is_added (want : string) (c : LoadCoordinator) : bool :=
  match Add PreparedLoad true (lit want) c with Some _ => true | None => false end.
Definition demoCoordinator : LoadCoordinator := added "" (added "x" (NewLoadCoordinator [] [])).

Lemma added_reach want c : lc_reach [] [] c -> is_added want c = true -> lc_reach [] [] (added want c).
Proof.
  intros Hr Ha. unfold added, is_added in *. destruct (Add _ _ _ _) as [[r c']|] eqn:E; [|done]. eapply reach_step; [exact Hr|].
  by eapply step_add.
Qed.

Lemma coordinator_sound_witness :
  (forall id, id ∈ lc_usedIDs demoCoordinator <-> id ∈ lc_usedIDs (NewLoadCoordinator [] []) \/ id ∈ running demoCoordinator) /\
  NoDup (running demoCoordinator) /\
  (forall id, id ∈ lc_usedIDs (NewLoadCoordinator [] []) -> id ∉ running demoCoordinator) /\
  (length (lc_entries demoCoordinator) <= maxDynamicLoadClients)%nat /\
  (forall e id, mkEntry id e ∈ lc_entries demoCoordinator <-> exists b, lc_runs demoCoordinator !! e = Some (mkRun id false b)) /\
  (forall e id, lc_runs demoCoordinator !! e = Some (mkRun id false false) -> TrimSpace id = id -> id <> [] ->
     (forall e', lc_runs demoCoordinator !! e' <> Some (mkRun id false true)) ->
     fst (Remove id demoCoordinator) = Ok tt /\ lc_runs (snd (Remove id demoCoordinator)) !! e = Some (mkRun id true false)).
Proof.
  refine (coordinator_sound [] [] demoCoordinator _). unfold demoCoordinator.
  apply added_reach; [apply added_reach; [apply reach_new|]|]; vm_compute; reflexivity.
Defined.

Lemma pick_finds_name_witness : exists r seq', pickID {[lit "dyn-1"]} 0 [] = Some (r, seq') /\
  match r with
  | Ok id => id ∉ ({[lit "dyn-1"]} : gset str) /\ id <> []
  | Err e => e = IDInUse /\ TrimSpace [] ∈ ({[lit "dyn-1"]} : gset str)
  end.
Proof. apply (pick_finds_name {[lit "dyn-1"]} 0 []). vm_compute. discriminate. Defined.

(** An engine that ends by itself frees its name and keeps its entry: with a
    second client of the name, removing it cancels the one that has ended, and
    the other one runs on. *)
Theorem ended_entry_shadows :
  let c := added "x" (engineEnds 0 (added "x" (NewLoadCoordinator [] []))) in
  snd (SnapshotDynamic c) = [lit "x"; lit "x"] /\ fst (Remove (lit "x") c) = Ok tt /\
  lc_runs (snd (Remove (lit "x") c)) !! 1%nat = Some (mkRun (lit "x") false false).
Proof. vm_compute. done. Qed.

(** Engines that have ended count against the limit: with 32 of them no further
    client can be added although none runs. *)
Theorem ended_clients_fill_limit :
  let c := foldl (fun c e => engineEnds e (added "" c)) (NewLoadCoordinator [] []) (List.seq 0 32) in
  running c = [] /\ (fst <$> Add PreparedLoad true [] c) = Some (Err TooManyClients).
Proof. vm_compute. done. Qed.
