(* ===== verification/UiStore.v ===== *)
(** * Profiles, scenarios and media on disk

    [src/internal/uistore]: the store behind the control server.  A directory
    is a map from file names to files; writes are atomic (a temporary file
    renamed into place) and succeed, the mutex makes every operation one step,
    and the clock is an argument.  A zero [time.Time] is [None].  The JSON of a
    record is what the class [Json] makes of it. *)

From stdpp Require Import base list gmap sets strings sorting.
From Stdlib Require Import ZArith Lia Strings.Byte.
From S2P Require Import Prelude GoStrings GoTime SafePath.

(** ** Records ([types.go]) *)

Record TransportSpec := mkTransport {
  ts_Transport : str; ts_LocalIP : str; ts_LocalPort : Z; ts_Enabled : bool; ts_TLSCertFile : str; ts_TLSKeyFile : str;
  ts_WSPath : str; ts_ICEServers : list str; ts_ICEUsername : str; ts_ICECredential : str; ts_ICEAuthSecret : str;
  ts_ICEAuthTTLSec : Z; ts_PrefersPCMA : bool }.

Record ServerProfile := mkServerProfile {
  sp_ID : str; sp_Name : str; sp_Description : str; sp_ScenarioRef : str; sp_Transports : list TransportSpec;
  sp_MaxConcurrent : Z; sp_Notes : str; sp_Source : str; sp_CreatedAt : option Z; sp_UpdatedAt : option Z }.

(** The rate is the text of the number. *)
Record ClientProfile := mkClientProfile {
  cp_ID : str; cp_Name : str; cp_Description : str; cp_ScenarioRef : str; cp_Transports : list TransportSpec; cp_RemoteIP : str;
  cp_RemotePort : Z; cp_Rate : str; cp_MaxConcurrent : Z; cp_DurationMs : Z; cp_Notes : str; cp_Source : str;
  cp_CreatedAt : option Z; cp_UpdatedAt : option Z }.

Record ScenarioMeta := mkMeta {
  sm_ID : str; sm_Name : str; sm_Description : str; sm_Role : str; sm_Tags : list str; sm_CreatedAt : option Z; sm_UpdatedAt : option Z }.

Record ScenarioBody := mkBody { sb_Meta : ScenarioMeta; sb_XML : str }.
(** The parsed time of an entry, a function of its [TS], is left out. *)
Record ScenarioHistoryEntry := mkHistory { sh_TS : str; sh_SizeBytes : Z; sh_Meta : ScenarioMeta }.

Inductive MediaKind := MediaWav | MediaPcap | MediaOther (name : str).
Record MediaAsset := mkAsset { ma_Kind : MediaKind; ma_Name : str; ma_SizeBytes : Z; ma_ModTime : Z }.

Definition noMeta : ScenarioMeta := mkMeta [] [] [] [] [] None None.

(** What profiles of both kinds have in common. *)
Class Profile (P : Type) := {
  p_ID : P -> str; p_Name : P -> str; p_CreatedAt : P -> option Z;
  p_stamp : P -> str -> option Z -> option Z -> P }.

#[global] Instance server_profile : Profile ServerProfile := {
  p_ID := sp_ID; p_Name := sp_Name; p_CreatedAt := sp_CreatedAt;
  p_stamp p name created updated :=
    mkServerProfile (sp_ID p) name (sp_Description p) (sp_ScenarioRef p) (sp_Transports p) (sp_MaxConcurrent p) (sp_Notes p)
      (sp_Source p) created updated }.

#[global] Instance client_profile : Profile ClientProfile := {
  p_ID := cp_ID; p_Name := cp_Name; p_CreatedAt := cp_CreatedAt;
  p_stamp p name created updated :=
    mkClientProfile (cp_ID p) name (cp_Description p) (cp_ScenarioRef p) (cp_Transports p) (cp_RemoteIP p) (cp_RemotePort p) (cp_Rate p)
      (cp_MaxConcurrent p) (cp_DurationMs p) (cp_Notes p) (cp_Source p) created updated }.

(** [json.MarshalIndent] and [json.Unmarshal]. *)
Class Json (A : Type) := { marshal : A -> str; unmarshal : str -> option A }.
Arguments unmarshal {A _}.

(** ** The store *)

Record file := mkFile { fl_data : str; fl_mtime : Z }.
Abbreviation dir := (gmap str file).

(** [st_history] has the directory [<id>.history] under the id. *)
Record Store := mkStore {
  st_servers : dir; st_clients : dir; st_scenarios : dir; st_history : gmap str dir; st_wav : dir; st_pcap : dir;
  st_scenarioHistoryKeep : Z }.

(** [OpenWithOptions] on an empty data directory. *)
Definition OpenWithOptions (scenarioHistoryKeep : Z) : Store :=
  mkStore ∅ ∅ ∅ ∅ ∅ ∅ (if scenarioHistoryKeep <? 0 then 0 else scenarioHistoryKeep).

Inductive store_error :=
  | ErrNotFound | ErrConflict | ErrInvalidID | ErrInvalidHistoryTS | ErrParse | ErrEmptyXML | ErrSameID | ErrMediaName
  | ErrMediaKind | ErrInvalidMedia.

Definition isSafeID (id : str) : bool := SafeID id.

Definition writeAtomic (now : Z) (name data : str) (d : dir) : dir := <[name := mkFile data now]> d.

Definition readJSON {A} `{Json A} (name : str) (d : dir) : result store_error A :=
  match d !! name with
  | None => Err ErrNotFound
  | Some f => match unmarshal (fl_data f) with Some v => Ok v | None => Err ErrParse end
  end.

Definition setScenarios (d : dir) (s : Store) : Store :=
  mkStore (st_servers s) (st_clients s) d (st_history s) (st_wav s) (st_pcap s) (st_scenarioHistoryKeep s).
Definition setHistory (h : gmap str dir) (s : Store) : Store :=
  mkStore (st_servers s) (st_clients s) (st_scenarios s) h (st_wav s) (st_pcap s) (st_scenarioHistoryKeep s).

(** [os.Remove] *)
Definition removeFile (name : str) (d : dir) : bool * dir :=
  match d !! name with Some _ => (true, delete name d) | None => (false, d) end.

(** Names of a directory in the order [os.ReadDir] lists them. *)
Definition name_le (a b : str * file) : Prop := str_leb (fst a) (fst b) = true.
#[global] Instance name_le_dec : RelDecision name_le.
Proof. intros a b. unfold name_le. apply _. Defined.
Definition readDir (d : dir) : list (str * file) := merge_sort name_le (map_to_list d).

(** *** Profiles *)

Definition profileFile (id : str) : str := id ++ lit ".json".

Definition id_le {P} `{Profile P} (a b : P) : Prop := str_leb (p_ID a) (p_ID b) = true.
#[global] Instance id_le_dec {P} `{Profile P} : RelDecision (id_le (P := P)).
Proof. intros a b. unfold id_le. apply _. Defined.

Fixpoint readAll {P} `{Json P} (names : list str) (d : dir) : result store_error (list P) :=
  match names with
  | [] => Ok []
  | n :: names => let? v := readJSON n d in let? vs := readAll names d in Ok (v :: vs)
  end.

Definition listJSON {P} `{Profile P, Json P} (d : dir) : result store_error (list P) :=
  let names := List.filter (fun n => HasSuffix n (lit ".json")) (map fst (readDir d)) in
  let? vs := readAll names d in Ok (merge_sort id_le vs).

Definition getProfile {P} `{Json P} (id : str) (d : dir) : result store_error P :=
  if isSafeID id then readJSON (profileFile id) d else Err ErrInvalidID.

Definition putProfile {P} `{Profile P, Json P} (now : Z) (p : P) (create : bool) (d : dir) : result store_error P * dir :=
  if negb (isSafeID (p_ID p)) then (Err ErrInvalidID, d)
  else
    let name := match TrimSpace (p_Name p) with [] => p_ID p | n => n end in
    let path := profileFile (p_ID p) in
    match d !! path with
    | Some _ =>
      if create then (Err ErrConflict, d)
      else
        let created := match p_CreatedAt p with
                       | Some t => Some t
                       | None => match @readJSON P _ path d with Ok existing => p_CreatedAt existing | Err _ => None end
                       end in
        let p := p_stamp p name created (Some now) in (Ok p, writeAtomic now path (marshal p) d)
    | None =>
      let created := match p_CreatedAt p with Some t => Some t | None => Some now end in
      let p := p_stamp p name created (Some now) in (Ok p, writeAtomic now path (marshal p) d)
    end.

Definition deleteProfile (id : str) (d : dir) : result store_error unit * dir :=
  if negb (isSafeID id) then (Err ErrInvalidID, d)
  else let '(ok, d) := removeFile (profileFile id) d in ((if ok then Ok tt else Err ErrNotFound), d).

Section Store.
Context `{Json ServerProfile, Json ClientProfile, Json ScenarioMeta}.

Definition ListServerProfiles (s : Store) : result store_error (list ServerProfile) := listJSON (st_servers s).
Definition GetServerProfile (id : str) (s : Store) : result store_error ServerProfile := getProfile id (st_servers s).
Definition PutServerProfile (now : Z) (p : ServerProfile) (create : bool) (s : Store) : result store_error ServerProfile * Store :=
  let '(r, d) := putProfile now p create (st_servers s) in
  (r, mkStore d (st_clients s) (st_scenarios s) (st_history s) (st_wav s) (st_pcap s) (st_scenarioHistoryKeep s)).
Definition DeleteServerProfile (id : str) (s : Store) : result store_error unit * Store :=
  let '(r, d) := deleteProfile id (st_servers s) in
  (r, mkStore d (st_clients s) (st_scenarios s) (st_history s) (st_wav s) (st_pcap s) (st_scenarioHistoryKeep s)).

Definition ListClientProfiles (s : Store) : result store_error (list ClientProfile) := listJSON (st_clients s).
Definition GetClientProfile (id : str) (s : Store) : result store_error ClientProfile := getProfile id (st_clients s).
Definition PutClientProfile (now : Z) (p : ClientProfile) (create : bool) (s : Store) : result store_error ClientProfile * Store :=
  let '(r, d) := putProfile now p create (st_clients s) in
  (r, mkStore (st_servers s) d (st_scenarios s) (st_history s) (st_wav s) (st_pcap s) (st_scenarioHistoryKeep s)).
Definition DeleteClientProfile (id : str) (s : Store) : result store_error unit * Store :=
  let '(r, d) := deleteProfile id (st_clients s) in
  (r, mkStore (st_servers s) d (st_scenarios s) (st_history s) (st_wav s) (st_pcap s) (st_scenarioHistoryKeep s)).

(** *** Scenarios *)

Definition xmlFile (id : str) : str := id ++ lit ".xml".
Definition metaFile (id : str) : str := id ++ lit ".meta.json".

(** The directory of a scenario's earlier versions; the id is trimmed. *)
Definition ScenarioHistoryDir (id : str) : str := TrimSpace id.
Definition historyOf (id : str) (s : Store) : dir := default ∅ (st_history s !! ScenarioHistoryDir id).

(** What [ListScenarios] gathers about an id: an XML file, a sidecar, the
    latest change. *)
Record scenario_rec := mkRec { rc_hasXML : bool; rc_hasMeta : bool; rc_modTime : Z }.

Definition gather (by_id : gmap str scenario_rec) (e : str * file) : gmap str scenario_rec :=
  let '(name, f) := e in
  if HasSuffix name (lit ".meta.json") then
    let id := TrimSuffix name (lit ".meta.json") in
    let r := default (mkRec false false 0) (by_id !! id) in
    <[id := mkRec (rc_hasXML r) true (Z.max (rc_modTime r) (fl_mtime f))]> by_id
  else if HasSuffix name (lit ".xml") then
    let id := TrimSuffix name (lit ".xml") in
    let r := default (mkRec false false 0) (by_id !! id) in
    <[id := mkRec true (rc_hasMeta r) (Z.max (rc_modTime r) (fl_mtime f))]> by_id
  else by_id.

Definition synthMeta (id : str) (modTime : Z) : ScenarioMeta := mkMeta id id [] [] [] None (Some modTime).

Definition listed (s : Store) (e : str * scenario_rec) : option ScenarioMeta :=
  let '(id, r) := e in
  if negb (rc_hasXML r) then None
  else match (if rc_hasMeta r then readJSON (metaFile id) (st_scenarios s) else Err ErrNotFound) with
       | Ok m => Some (match sm_ID m with
                       | [] => mkMeta id (sm_Name m) (sm_Description m) (sm_Role m) (sm_Tags m) (sm_CreatedAt m) (sm_UpdatedAt m)
                       | _ => m
                       end)
       | Err _ => Some (synthMeta id (rc_modTime r))
       end.

Definition meta_le (a b : ScenarioMeta) : Prop := str_leb (sm_ID a) (sm_ID b) = true.
#[local] Instance meta_le_dec : RelDecision meta_le.
Proof. intros a b. unfold meta_le. apply _. Defined.

Definition ListScenarios (s : Store) : list ScenarioMeta :=
  merge_sort meta_le (omap (listed s) (map_to_list (foldl gather ∅ (readDir (st_scenarios s))))).

(** A sidecar with the id and name filled in. *)
Definition namedMeta (id : str) (m : ScenarioMeta) : ScenarioMeta :=
  mkMeta (match sm_ID m with [] => id | i => i end) (match sm_Name m with [] => id | n => n end)
    (sm_Description m) (sm_Role m) (sm_Tags m) (sm_CreatedAt m) (sm_UpdatedAt m).

Definition readBody (id xml meta : str) (d : dir) : result store_error ScenarioBody :=
  match d !! xml with
  | None => Err ErrNotFound
  | Some f =>
    match readJSON meta d with
    | Ok m => Ok (mkBody (namedMeta id m) (fl_data f))
    | Err ErrNotFound => Ok (mkBody (namedMeta id noMeta) (fl_data f))
    | Err e => Err e
    end
  end.

Definition GetScenario (id : str) (s : Store) : result store_error ScenarioBody :=
  if isSafeID id then readBody id (xmlFile id) (metaFile id) (st_scenarios s) else Err ErrInvalidID.

Definition isSafeHistoryTS (ts : str) : bool :=
  if (length ts <? 16)%nat || (40 <? length ts)%nat then false
  else forallb (fun r => ((48 <=? r) && (r <=? 57)) || (r =? 84) || (r =? 90) || (r =? 46)) (runes ts).

Definition entry_ge (a b : ScenarioHistoryEntry) : Prop := str_leb (sh_TS b) (sh_TS a) = true.
#[local] Instance entry_ge_dec : RelDecision entry_ge.
Proof. intros a b. unfold entry_ge. apply _. Defined.

Definition historyEntry (d : dir) (e : str * file) : option ScenarioHistoryEntry :=
  let '(name, f) := e in
  if negb (HasSuffix name (lit ".xml")) then None
  else
    let ts := TrimSuffix name (lit ".xml") in
    if isSafeHistoryTS ts
    then Some (mkHistory ts (Z.of_nat (length (fl_data f))) (match readJSON (metaFile ts) d with Ok m => m | Err _ => noMeta end))
    else None.

Definition listScenarioHistoryEntriesFromDir (d : dir) : list ScenarioHistoryEntry :=
  merge_sort entry_ge (omap (historyEntry d) (readDir d)).

(** The files of the oldest entries beyond the limit are removed. *)
Definition pruneHistory (keep : Z) (d : dir) : dir :=
  if keep <=? 0 then d
  else foldl (fun d e => delete (metaFile (sh_TS e)) (delete (xmlFile (sh_TS e)) d)) d
         (drop (Z.to_nat keep) (listScenarioHistoryEntriesFromDir d)).

Definition withMetaID (id : str) (m : ScenarioMeta) : ScenarioMeta :=
  match sm_ID m with
  | [] => mkMeta id (sm_Name m) (sm_Description m) (sm_Role m) (sm_Tags m) (sm_CreatedAt m) (sm_UpdatedAt m)
  | _ => m
  end.

(** [snapshotScenarioLocked] and [pruneScenarioHistoryLocked] *)
Definition snapshotScenario (now : Z) (id priorXML : str) (priorMeta : ScenarioMeta) (s : Store) : Store :=
  let id := TrimSpace id in
  let ts := historyTS now in
  let d := writeAtomic now (xmlFile ts) priorXML (historyOf id s) in
  let d := writeAtomic now (metaFile ts) (marshal (withMetaID id priorMeta)) d in
  setHistory (<[ScenarioHistoryDir id := pruneHistory (st_scenarioHistoryKeep s) d]> (st_history s)) s.

Definition PutScenario (now : Z) (meta : ScenarioMeta) (xml : str) (create : bool) (s : Store) : result store_error ScenarioBody * Store :=
  if negb (isSafeID (sm_ID meta)) then (Err ErrInvalidID, s)
  else if bool_decide (TrimSpace xml = []) then (Err ErrEmptyXML, s)
  else
    let id := sm_ID meta in
    let name := match TrimSpace (sm_Name meta) with [] => id | n => n end in
    let finish created s :=
      let meta := mkMeta id name (sm_Description meta) (sm_Role meta) (sm_Tags meta) created (Some now) in
      (Ok (mkBody meta xml),
       setScenarios (writeAtomic now (metaFile id) (marshal meta) (writeAtomic now (xmlFile id) xml (st_scenarios s))) s) in
    match st_scenarios s !! xmlFile id with
    | Some prior =>
      if create then (Err ErrConflict, s)
      else
        let existing := match readJSON (metaFile id) (st_scenarios s) with Ok m => m | Err _ => noMeta end in
        let created := match sm_CreatedAt meta with Some t => Some t | None => sm_CreatedAt existing end in
        finish created (if bool_decide (fl_data prior = xml) then s else snapshotScenario now id (fl_data prior) existing s)
    | None => finish (match sm_CreatedAt meta with Some t => Some t | None => Some now end) s
    end.

Definition DeleteScenario (id : str) (s : Store) : result store_error unit * Store :=
  if negb (isSafeID id) then (Err ErrInvalidID, s)
  else
    let '(hadXML, d) := removeFile (xmlFile id) (st_scenarios s) in
    let '(hadMeta, d) := removeFile (metaFile id) d in
    let s := setHistory (delete (ScenarioHistoryDir id) (st_history s)) (setScenarios d s) in
    ((if hadXML || hadMeta then Ok tt else Err ErrNotFound), s).

Definition ListScenarioHistory (id : str) (s : Store) : result store_error (list ScenarioHistoryEntry) :=
  if negb (isSafeID id) then Err ErrInvalidID
  else match st_scenarios s !! xmlFile id with
       | None => Err ErrNotFound
       | Some _ => Ok (listScenarioHistoryEntriesFromDir (historyOf id s))
       end.

Definition GetScenarioHistory (id ts : str) (s : Store) : result store_error ScenarioBody :=
  if negb (isSafeID id) then Err ErrInvalidID
  else if negb (isSafeHistoryTS ts) then Err ErrInvalidHistoryTS
  else readBody id (xmlFile ts) (metaFile ts) (historyOf id s).

Definition DeleteScenarioHistory (id ts : str) (s : Store) : result store_error unit * Store :=
  if negb (isSafeID id) then (Err ErrInvalidID, s)
  else if negb (isSafeHistoryTS ts) then (Err ErrInvalidHistoryTS, s)
  else
    let '(hadXML, d) := removeFile (xmlFile ts) (historyOf id s) in
    let '(hadMeta, d) := removeFile (metaFile ts) d in
    if hadXML || hadMeta then (Ok tt, setHistory (<[ScenarioHistoryDir id := d]> (st_history s)) s) else (Err ErrNotFound, s).

Definition ForkScenarioFromHistory (now : Z) (sourceID ts : str) (meta : ScenarioMeta) (s : Store) : result store_error ScenarioBody * Store :=
  if negb (isSafeID sourceID) || negb (isSafeID (sm_ID meta)) then (Err ErrInvalidID, s)
  else if bool_decide (sourceID = sm_ID meta) then (Err ErrSameID, s)
  else
    match GetScenarioHistory sourceID ts s with
    | Err e => (Err e, s)
    | Ok hist =>
      let hm := sb_Meta hist in
      let name := match TrimSpace (sm_Name meta) with
                  | [] => if negb (bool_decide (sm_Name hm = [])) && negb (bool_decide (sm_Name hm = sourceID))
                          then sm_Name hm ++ lit "_fork" else sm_ID meta
                  | n => n
                  end in
      let description := match sm_Description meta with [] => sm_Description hm | d => d end in
      let role := match sm_Role meta with [] => sm_Role hm | r => r end in
      PutScenario now (mkMeta (sm_ID meta) name description role (sm_Tags meta) (sm_CreatedAt meta) (sm_UpdatedAt meta))
        (sb_XML hist) true s
    end.

(** *** Media *)

Definition mediaDirFor (kind : MediaKind) (s : Store) : option dir :=
  match kind with MediaWav => Some (st_wav s) | MediaPcap => Some (st_pcap s) | MediaOther _ => None end.

Definition setMedia (kind : MediaKind) (d : dir) (s : Store) : Store :=
  match kind with
  | MediaWav => mkStore (st_servers s) (st_clients s) (st_scenarios s) (st_history s) d (st_pcap s) (st_scenarioHistoryKeep s)
  | MediaPcap => mkStore (st_servers s) (st_clients s) (st_scenarios s) (st_history s) (st_wav s) d (st_scenarioHistoryKeep s)
  | MediaOther _ => s
  end.

Definition isSafeFileName (name : str) : bool :=
  let name := TrimSpace name in
  negb (bool_decide (name = [])) && (length name <=? 255)%nat && negb (bool_decide (name = dot)) && negb (bool_decide (name = dotdot))
  && negb (existsb (fun b => beqb b x2f || beqb b x5c) name).

(** [validateMediaContent] *)
Definition validateWAV (data : str) : bool :=
  (12 <=? length data)%nat && bool_decide (take 4 data = lit "RIFF") && bool_decide (take 4 (drop 8 data) = lit "WAVE")
  && Contains (take 4096 (drop 12 data)) (lit "fmt ").

Definition pcap_magics : list Z := [2712847316; 3569595041; 2712812621; 1295823521; 168627466].
Definition validatePCAP (data : str) : bool :=
  (4 <=? length data)%nat && existsb (Z.eqb (get_be (take 4 data))) pcap_magics.

Definition validateMediaContent (kind : MediaKind) (data : str) : bool :=
  match kind with MediaWav => validateWAV data | MediaPcap => validatePCAP data | MediaOther _ => true end.

Definition ListMedia (kind : MediaKind) (s : Store) : result store_error (list MediaAsset) :=
  match mediaDirFor kind s with
  | None => Err ErrMediaKind
  | Some d => Ok (map (fun '(name, f) => mkAsset kind name (Z.of_nat (length (fl_data f))) (fl_mtime f)) (readDir d))
  end.

Definition PutMedia (now : Z) (kind : MediaKind) (name data : str) (s : Store) : result store_error MediaAsset * Store :=
  if negb (isSafeFileName name) then (Err ErrMediaName, s)
  else match mediaDirFor kind s with
       | None => (Err ErrMediaKind, s)
       | Some d =>
         if validateMediaContent kind data
         then (Ok (mkAsset kind name (Z.of_nat (length data)) now), setMedia kind (writeAtomic now name data d) s)
         else (Err ErrInvalidMedia, s)
       end.

Definition DeleteMedia (kind : MediaKind) (name : str) (s : Store) : result store_error unit * Store :=
  if negb (isSafeFileName name) then (Err ErrMediaName, s)
  else match mediaDirFor kind s with
       | None => (Err ErrMediaKind, s)
       | Some d => let '(ok, d) := removeFile name d in ((if ok then Ok tt else Err ErrNotFound), setMedia kind d s)
       end.

End Store.

(** ** Profiles are what was stored *)

Class ProfileLaws P `{Profile P} : Prop := {
  stamp_ID (p : P) name created updated : p_ID (p_stamp p name created updated) = p_ID p;
  stamp_CreatedAt (p : P) name created updated : p_CreatedAt (p_stamp p name created updated) = created }.
#[global] Instance server_profile_laws : ProfileLaws ServerProfile.
Proof. by split. Qed.
#[global] Instance client_profile_laws : ProfileLaws ClientProfile.
Proof. by split. Qed.

Lemma profileFile_inj a b : profileFile a = profileFile b -> a = b.
Proof. apply app_inv_tail. Qed.

(** A profile that is stored is the one read back, under its id, with its
    first creation time and the time of the change; profiles of other ids are
    untouched, and creating one that exists changes nothing. *)
Theorem profile_put_get {P} `{ProfileLaws P, Json P} now (p : P) create d r d' :
  putProfile now p create d = (r, d') ->
  match r with
  | Err e => d' = d /\ (e = ErrInvalidID /\ isSafeID (p_ID p) = false \/ e = ErrConflict /\ create = true /\ is_Some (d !! profileFile (p_ID p)))
  | Ok p' =>
    isSafeID (p_ID p) = true /\ p_ID p' = p_ID p /\
    (unmarshal (marshal p') = Some p' -> getProfile (p_ID p) d' = Ok p') /\
    p_CreatedAt p' = (match p_CreatedAt p, getProfile (p_ID p) d with
                      | Some t, _ => Some t
                      | None, Ok old => p_CreatedAt old
                      | None, Err ErrNotFound => Some now
                      | None, Err _ => None
                      end) /\
    (forall id, id <> p_ID p -> @getProfile P _ id d' = getProfile id d)
  end.
Proof.
  unfold putProfile. destruct (isSafeID (p_ID p)) eqn:Es; [|intros [= <- <-]; by auto]. cbn [negb].
  assert (forall name created, let p' := p_stamp p name created (Some now) in
    p_ID p' = p_ID p /\
    (unmarshal (marshal p') = Some p' -> getProfile (p_ID p) (writeAtomic now (profileFile (p_ID p)) (marshal p') d) = Ok p') /\
    (forall id, id <> p_ID p -> @getProfile P _ id (writeAtomic now (profileFile (p_ID p)) (marshal p') d) = getProfile id d)) as Hput.
  { intros name created p'. split; [apply stamp_ID|]. split.
    - intros Hj. unfold getProfile, readJSON, writeAtomic. rewrite Es, lookup_insert_eq. cbn [fl_data]. by rewrite Hj.
    - intros id Hid. unfold getProfile, readJSON, writeAtomic. rewrite lookup_insert_ne; [done|]. intros E%profileFile_inj. by symmetry in E. }
  destruct (d !! profileFile (p_ID p)) as [f|] eqn:Ef.
  - destruct create; [intros [= <- <-]; by eauto 8|]. intros [= <- <-].
    match goal with |- context [p_stamp p ?n ?c _] => destruct (Hput n c) as (Hp1 & Hp2 & Hp3) end.
    do 3 (split; [done|]). split; [|done]. rewrite stamp_CreatedAt. destruct (p_CreatedAt p); [done|].
    unfold getProfile. rewrite Es. unfold readJSON. rewrite Ef. by destruct (unmarshal (fl_data f)).
  - intros [= <- <-]. match goal with |- context [p_stamp p ?n ?c _] => destruct (Hput n c) as (Hp1 & Hp2 & Hp3) end.
    do 3 (split; [done|]). split; [|done]. rewrite stamp_CreatedAt. destruct (p_CreatedAt p); [done|].
    unfold getProfile. rewrite Es. unfold readJSON. by rewrite Ef.
Qed.

(** ** Earlier versions of a scenario *)

(** The names of snapshots. *)
Lemma historyTS_chars t : representable t ->
  length (historyTS t) = 26%nat /\ Forall (fun b => in_range 48 57 b = true \/ b = x54 \/ b = x5a \/ b = x2e) (historyTS t).
Proof.
  unfold representable. intros Ht. unfold historyTS. set (s := t / 1000000000).
  assert (0 <= s / 86400 < 2932897) as Hs by (subst s; Z.to_euclidean_division_equations; lia).
  pose proof (civil_year _ Hs) as Hc. destruct (civil (s / 86400)) as [[y m] d].
  pose proof (Z.mod_pos_bound s 86400 ltac:(lia)). set (sod := s mod 86400) in *. clearbody sod.
  assert (0 <= sod / 3600 < 24 /\ 0 <= sod / 60 mod 60 < 60 /\ 0 <= sod mod 60 < 60) by (Z.to_euclidean_division_equations; lia).
  pose proof (Z.mod_pos_bound t 1000000000 ltac:(lia)).
  assert (forall w z, digits (padded (S w) z) -> Forall (fun b => in_range 48 57 b = true \/ b = x54 \/ b = x5a \/ b = x2e) (padded (S w) z)) as Hd
    by (intros w z Hz; eapply Forall_impl; [exact Hz|]; auto).
  split; [rewrite !length_app, !padded_length by (simpl; lia); done|].
  rewrite !Forall_app. repeat split; try (apply Hd, padded_spec; simpl; lia); apply Forall_singleton; auto.
Qed.

Lemma historyTS_safe t : representable t -> isSafeHistoryTS (historyTS t) = true.
Proof.
  intros Ht. destruct (historyTS_chars t Ht) as [Hl Hc]. unfold isSafeHistoryTS. rewrite Hl. cbn [Nat.ltb Nat.leb orb].
  assert (Forall ascii (historyTS t)) as Ha.
  { eapply Forall_impl; [exact Hc|]. intros b Hb. unfold ascii. destruct Hb as [Hb|[-> |[-> | ->]]]; [|done..]. unfold in_range in Hb. bool_to_prop. lia. }
  rewrite runes_ascii by done. apply forallb_forall. intros z (b & <- & Hb)%in_map_iff.
  rewrite Forall_forall in Hc. destruct (Hc b) as [Hr|[-> |[-> | ->]]]; [by apply list_elem_of_In| |done..].
  unfold in_range in Hr. by rewrite Hr.
Qed.

Lemma historyTS_inj t t' : representable t -> representable t' -> historyTS t = historyTS t' -> t = t'.
Proof.
  intros Ht Ht' E. destruct (Z.lt_trichotomy t t') as [Hlt|[?|Hlt]]; [|done|].
  - by destruct (historyTS_lt t t' Ht Ht' Hlt).
  - by destruct (historyTS_lt t' t Ht' Ht Hlt).
Qed.

Lemma xmlFile_inj a b : xmlFile a = xmlFile b -> a = b.
Proof. apply app_inv_tail. Qed.
Lemma metaFile_inj a b : metaFile a = metaFile b -> a = b.
Proof. apply app_inv_tail. Qed.
Lemma xml_not_meta a b : xmlFile a <> metaFile b.
Proof. unfold xmlFile, metaFile. intros E. apply (f_equal (@rev byte)) in E. rewrite !rev_app_distr in E. discriminate. Qed.

Lemma xmlFile_suffix a : HasSuffix (xmlFile a) (lit ".xml") = true /\ TrimSuffix (xmlFile a) (lit ".xml") = a.
Proof.
  assert (HasSuffix (xmlFile a) (lit ".xml") = true) as Hs by (apply HasSuffix_spec; by exists a). split; [done|].
  unfold TrimSuffix. rewrite Hs. unfold xmlFile. rewrite length_app, Nat.add_sub. apply take_app_length.
Qed.

Lemma metaFile_suffix a : HasSuffix (metaFile a) (lit ".xml") = false.
Proof.
  apply not_true_is_false. intros (t & E)%HasSuffix_spec. symmetry in E. by apply (xml_not_meta t a).
Qed.

Section History.
Context `{Json ServerProfile, Json ClientProfile, Json ScenarioMeta}.
#[local] Existing Instance entry_ge_dec.

(** The abstract history of a scenario: the versions that were replaced, newest
    first, each with the time it was replaced. *)
Abbreviation versions := (list (Z * str)).

Definition bounded (keep : Z) (h : versions) : versions := if keep <=? 0 then h else take (Z.to_nat keep) h.

Definition supersede (keep now : Z) (xml : str) (v : str * versions) : str * versions :=
  if bool_decide (fst v = xml) then v else (xml, bounded keep ((now, fst v) :: snd v)).

(** A history directory that holds exactly these versions. *)
Record holds (d : dir) (h : versions) : Prop := {
  ho_files : forall t x, (t, x) ∈ h ->
    fl_data <$> d !! xmlFile (historyTS t) = Some x /\ exists m, fl_data <$> d !! metaFile (historyTS t) = Some (marshal m);
  ho_only : forall n, is_Some (d !! n) -> exists t x, (t, x) ∈ h /\ (n = xmlFile (historyTS t) \/ n = metaFile (historyTS t));
  ho_times : StronglySorted (fun a b : Z * str => fst b < fst a) h;
  ho_repr : Forall (fun v => representable (fst v)) h }.

Lemma entry_name d n f e : historyEntry d (n, f) = Some e -> n = xmlFile (sh_TS e).
Proof.
  unfold historyEntry. destruct (HasSuffix n (lit ".xml")) eqn:E; [|done]. cbn [negb]. destruct (isSafeHistoryTS _); [|done].
  intros [= <-]. cbn [sh_TS]. apply HasSuffix_spec in E as (t & ->). fold (xmlFile t). f_equal. symmetry. apply xmlFile_suffix.
Qed.

Lemma entry_of_version d h t x f : holds d h -> (t, x) ∈ h -> exists e, historyEntry d (xmlFile (historyTS t), f) = Some e /\ sh_TS e = historyTS t.
Proof.
  intros Hh Hin. unfold historyEntry. destruct (xmlFile_suffix (historyTS t)) as [-> ->]. cbn [negb].
  rewrite historyTS_safe; [by eexists|]. pose proof (ho_repr _ _ Hh) as Hr. rewrite Forall_forall in Hr. by apply (Hr (t, x)).
Qed.

Lemma entries_nodup d l : NoDup (map fst l) -> NoDup (map sh_TS (omap (historyEntry d) l)).
Proof.
  induction l as [|[n f] l IH]; intros Hn; [constructor|]. cbn [map fst] in Hn. apply NoDup_cons in Hn as [Hn Hl].
  cbn [omap list_omap]. destruct (historyEntry d (n, f)) as [e|] eqn:E; [|auto]. cbn [map]. apply NoDup_cons. split; [|auto].
  intros (e' & Hts & ((n' & f') & Hin & E')%list_elem_of_omap)%list_elem_of_fmap. apply entry_name in E, E'. subst n n'.
  apply Hn. rewrite Hts. apply list_elem_of_fmap. by exists (xmlFile (sh_TS e'), f').
Qed.

Lemma readDir_elem d n f : (n, f) ∈ readDir d <-> d !! n = Some f.
Proof. unfold readDir. rewrite merge_sort_Permutation. apply elem_of_map_to_list. Qed.

(** The listing is the history, newest first. *)
Lemma listing d h : holds d h -> map sh_TS (listScenarioHistoryEntriesFromDir d) = map (fun v => historyTS (fst v)) h.
Proof.
  intros Hh. pose proof (ho_repr _ _ Hh) as Hr. rewrite Forall_forall in Hr.
  apply (StronglySorted_unique_strong (fun a b => str_leb b a = true)).
  - intros a b _ _ Ha Hb. by apply str_leb_antisym.
  - unfold listScenarioHistoryEntriesFromDir. eapply StronglySorted_fmap; [|apply StronglySorted_merge_sort].
    + intros a b Hab. exact Hab.
    + intros a b c Ha Hb. unfold entry_ge in *. by eapply str_leb_trans.
    + intros a b. apply str_leb_total.
  - eapply (StronglySorted_fmap _ (fun a b => fst b < fst a /\ a ∈ h /\ b ∈ h)).
    + intros a b (Hlt & Ha & Hb). apply historyTS_lt; auto.
    + pose proof (ho_times _ _ Hh) as Hs. clear -Hs.
      assert (forall l', l' ⊆ h -> StronglySorted (fun a b : Z * str => fst b < fst a) l' ->
        StronglySorted (fun a b => fst b < fst a /\ a ∈ h /\ b ∈ h) l') as H; [|by apply H].
      induction l' as [|v l' IH]; intros Hsub Hs'; [constructor|]. apply StronglySorted_inv in Hs' as [Hs' Hv]. constructor.
      * apply IH; [set_solver|done].
      * apply Forall_forall. intros w Hw. rewrite Forall_forall in Hv. split; [by apply Hv|]. split; apply Hsub; set_solver.
  - apply NoDup_Permutation.
    + unfold listScenarioHistoryEntriesFromDir. rewrite merge_sort_Permutation. apply entries_nodup. unfold readDir.
      rewrite merge_sort_Permutation. apply NoDup_fst_map_to_list.
    + pose proof (ho_times _ _ Hh) as Hs. clear -Hs Hr. revert Hr. induction h as [|v l IH]; intros Hr; [constructor|].
      apply StronglySorted_inv in Hs as [Hs Hv]. cbn [map]. apply NoDup_cons. split; [|apply IH; [done|]; intros; apply Hr; by right].
      intros (w & E & Hw)%list_elem_of_fmap. rewrite Forall_forall in Hv. specialize (Hv w Hw).
      apply historyTS_inj in E; [lia|apply Hr; by left|apply Hr; by right].
    + intros ts. unfold listScenarioHistoryEntriesFromDir. rewrite merge_sort_Permutation. split.
      * intros (e & -> & ((n & f) & Hin & E)%list_elem_of_omap)%list_elem_of_fmap. apply readDir_elem in Hin.
        apply entry_name in E. destruct (ho_only _ _ Hh n) as (t & x & Hv & Hn); [by exists f|].
        apply list_elem_of_fmap. exists (t, x). split; [|done]. subst n.
        destruct Hn as [->%xmlFile_inj|Hn]; [done|by apply xml_not_meta in Hn].
      * intros ([t x] & -> & Hv)%list_elem_of_fmap. cbn [fst]. destruct (ho_files _ _ Hh t x Hv) as [Hf _].
        destruct (d !! xmlFile (historyTS t)) as [f|] eqn:Ef; [|done]. destruct (entry_of_version d h t x f Hh Hv) as (e & He & <-).
        apply list_elem_of_fmap. exists e. split; [done|]. apply list_elem_of_omap. exists (xmlFile (sh_TS e), f).
        pose proof (entry_name _ _ _ _ He) as En. rewrite <- En in *. split; [by apply readDir_elem|].
        rewrite En. rewrite En in He. done.
Qed.

(** Removing the files of some snapshots. *)
Definition dropFiles (tss : list str) (d : dir) : dir := foldl (fun d ts => delete (metaFile ts) (delete (xmlFile ts) d)) d tss.

Lemma dropFiles_lookup tss d n :
  (forall ts, ts ∈ tss -> n <> xmlFile ts /\ n <> metaFile ts) -> dropFiles tss d !! n = d !! n.
Proof.
  revert d. induction tss as [|ts tss IH]; intros d Hn; [done|]. cbn [dropFiles foldl]. fold (dropFiles tss).
  destruct (Hn ts) as [H2 H3]; [by left|]. unfold dropFiles in IH. rewrite IH by (intros; apply Hn; by right).
  by rewrite !lookup_delete_ne by congruence.
Qed.

Lemma dropFiles_gone tss d ts n : ts ∈ tss -> n = xmlFile ts \/ n = metaFile ts -> dropFiles tss d !! n = None.
Proof.
  revert d. induction tss as [|ts' tss IH]; intros d Hin Hn; [by apply not_elem_of_nil in Hin|]. cbn [dropFiles foldl].
  destruct (decide (ts ∈ tss)) as [Hl|Hl]; [by apply IH|]. apply elem_of_cons in Hin as [<-|]; [|done].
  assert (forall d, d !! n = None -> dropFiles tss d !! n = None) as Hnone.
  { clear IH. induction tss as [|x tss IH]; intros d' Hd; [done|]. cbn [dropFiles foldl]. apply IH; [by intros ?; apply Hl; right|].
    by rewrite !lookup_delete_None; auto. }
  apply Hnone. destruct Hn as [-> | ->]; [rewrite lookup_delete_ne by (intros E; by symmetry in E; apply xml_not_meta in E)|];
    by rewrite lookup_delete_eq.
Qed.

Lemma holds_prune d h k : holds d h -> holds (dropFiles (map (fun v => historyTS (fst v)) (drop k h)) d) (take k h).
Proof.
  intros Hh. pose proof (ho_repr _ _ Hh) as Hr. rewrite Forall_forall in Hr.
  assert (forall v w, v ∈ take k h -> w ∈ drop k h -> historyTS (fst v) <> historyTS (fst w)) as Hdis.
  { intros v w Hv Hw E. pose proof (ho_times _ _ Hh) as Hs. rewrite <- (take_drop k h) in Hs.
    pose proof (StronglySorted_app_1_elem_of _ _ _ v w Hs Hv Hw) as Hlt. cbv beta in Hlt. apply historyTS_inj in E; [lia|apply Hr..].
    - rewrite <- (take_drop k h). apply elem_of_app. by left.
    - rewrite <- (take_drop k h). apply elem_of_app. by right. }
  split.
  - intros t x Hin. assert ((t, x) ∈ h) as Hin' by (rewrite <- (take_drop k h); apply elem_of_app; by left).
    rewrite !dropFiles_lookup; [by apply (ho_files _ _ Hh)| |]; intros ts (w & -> & Hw)%list_elem_of_fmap;
      specialize (Hdis _ _ Hin Hw); cbn [fst] in Hdis; split; intros E.
    + symmetry in E. by apply xml_not_meta in E.
    + by apply metaFile_inj in E.
    + by apply xmlFile_inj in E.
    + by apply xml_not_meta in E.
  - intros n Hn. destruct (decide (Exists (fun w => n = xmlFile (historyTS (fst w)) \/ n = metaFile (historyTS (fst w))) (drop k h)))
      as [(w & Hw & E)%Exists_exists|Hno].
    + rewrite (dropFiles_gone _ _ (historyTS (fst w))) in Hn; [by destruct Hn| |done]. apply list_elem_of_fmap. by exists w.
    + rewrite dropFiles_lookup in Hn; [|intros ts (w & -> & Hw)%list_elem_of_fmap; split; intros ->; apply Hno, Exists_exists; eauto].
      destruct (ho_only _ _ Hh n Hn) as (t & x & Hin & E). exists t, x. split; [|done].
      rewrite <- (take_drop k h) in Hin. apply elem_of_app in Hin as [?|Hin]; [done|]. exfalso. apply Hno, Exists_exists. by exists (t, x).
  - pose proof (ho_times _ _ Hh) as Hs. rewrite <- (take_drop k h) in Hs. by eapply StronglySorted_app_1_l.
  - apply Forall_take, Hh.
Qed.

Lemma pruneHistory_holds keep d h : holds d h -> holds (pruneHistory keep d) (bounded keep h).
Proof.
  intros Hh. unfold pruneHistory, bounded. destruct (keep <=? 0); [done|].
  assert (foldl (fun d e => delete (metaFile (sh_TS e)) (delete (xmlFile (sh_TS e)) d)) d
            (drop (Z.to_nat keep) (listScenarioHistoryEntriesFromDir d))
          = dropFiles (map (fun v => historyTS (fst v)) (drop (Z.to_nat keep) h)) d) as ->; [|by apply holds_prune].
  rewrite <- skipn_map, <- (listing d h Hh), skipn_map. unfold dropFiles. symmetry. apply foldl_fmap.
Qed.

Lemma snapshot_holds d h now x m : holds d h -> Forall (fun v => fst v < now) h -> representable now ->
  holds (writeAtomic now (metaFile (historyTS now)) (marshal m) (writeAtomic now (xmlFile (historyTS now)) x d)) ((now, x) :: h).
Proof.
  intros Hh Hlt Hnow. pose proof (ho_repr _ _ Hh) as Hr. rewrite Forall_forall in Hr, Hlt.
  assert (forall t y, (t, y) ∈ h -> historyTS t <> historyTS now) as Hne.
  { intros t y Hin E. apply historyTS_inj in E; [|by apply (Hr (t, y))|done]. specialize (Hlt _ Hin). cbn [fst] in Hlt. lia. }
  unfold writeAtomic. split.
  - intros t y [[= -> ->]|Hin]%elem_of_cons.
    + rewrite lookup_insert_ne by (intros E; symmetry in E; by apply xml_not_meta in E). rewrite !lookup_insert_eq. eauto.
    + specialize (Hne _ _ Hin). rewrite !lookup_insert_ne; [by apply (ho_files _ _ Hh)|..]; intros E;
        first [by apply metaFile_inj in E|by apply xmlFile_inj in E|by apply xml_not_meta in E|symmetry in E; by apply xml_not_meta in E].
  - intros n Hn. destruct (decide (n = metaFile (historyTS now))) as [->|Hn1]; [exists now, x; split; [by left|by right]|].
    destruct (decide (n = xmlFile (historyTS now))) as [->|Hn2]; [exists now, x; split; [by left|by left]|].
    rewrite !lookup_insert_ne in Hn by congruence. destruct (ho_only _ _ Hh n Hn) as (t & y & Hin & E). exists t, y. split; [by right|done].
  - constructor; [apply Hh|]. by apply Forall_forall.
  - constructor; [done|apply Hh].
Qed.

(** ** The store shows a scenario and its history *)

Record shows (id : str) (s : Store) (v : str * versions) : Prop := {
  sw_xml : fl_data <$> st_scenarios s !! xmlFile id = Some (fst v);
  sw_meta : exists m, fl_data <$> st_scenarios s !! metaFile id = Some (marshal m);
  sw_history : holds (historyOf id s) (snd v) }.

Lemma historyOf_trim id s : historyOf (TrimSpace id) s = historyOf id s.
Proof. unfold historyOf, ScenarioHistoryDir. by rewrite TrimSpace_idemp. Qed.

(** The two files a successful [PutScenario] writes. *)
Lemma shows_written now id meta xml s h : holds (historyOf id s) h ->
  shows id (setScenarios (writeAtomic now (metaFile id) (marshal meta) (writeAtomic now (xmlFile id) xml (st_scenarios s))) s) (xml, h).
Proof.
  intros Hh. split; [| |done]; cbn [setScenarios st_scenarios fst]; unfold writeAtomic.
  - rewrite lookup_insert_ne by (intros E; symmetry in E; by apply xml_not_meta in E). by rewrite lookup_insert_eq.
  - exists meta. by rewrite lookup_insert_eq.
Qed.

Lemma put_create now meta xml s :
  isSafeID (sm_ID meta) = true -> TrimSpace xml <> [] -> st_scenarios s !! xmlFile (sm_ID meta) = None -> historyOf (sm_ID meta) s = ∅ ->
  exists b s', PutScenario now meta xml true s = (Ok b, s') /\ shows (sm_ID meta) s' (xml, []) /\
    st_scenarioHistoryKeep s' = st_scenarioHistoryKeep s.
Proof.
  intros Hs Hx Hn Hh. unfold PutScenario. rewrite Hs, bool_decide_false by done. cbn [negb]. rewrite Hn.
  eexists _, _. split; [done|]. split; [|done]. apply shows_written. rewrite Hh. split.
  - intros t x Hin. by apply not_elem_of_nil in Hin.
  - intros n [f Hf]. by rewrite lookup_empty in Hf.
  - constructor.
  - constructor.
Qed.

Lemma put_update now meta xml s v :
  isSafeID (sm_ID meta) = true -> TrimSpace xml <> [] -> shows (sm_ID meta) s v ->
  Forall (fun w => fst w < now) (snd v) -> representable now ->
  exists b s', PutScenario now meta xml false s = (Ok b, s') /\
    shows (sm_ID meta) s' (supersede (st_scenarioHistoryKeep s) now xml v) /\ st_scenarioHistoryKeep s' = st_scenarioHistoryKeep s.
Proof.
  intros Hs Hx [Hxml _ Hh] Hlt Hnow. destruct v as [cur h]. cbn [fst snd] in *. unfold PutScenario. rewrite Hs, bool_decide_false by done.
  cbn [negb]. destruct (st_scenarios s !! xmlFile (sm_ID meta)) as [prior|] eqn:Ep; [|done]. injection Hxml as Hcur.
  eexists _, _. split; [done|]. unfold supersede. cbn [fst snd]. rewrite Hcur. case_bool_decide as Hsame.
  - split; [|done]. rewrite <- Hsame. by apply shows_written.
  - split; [|done]. apply shows_written. unfold snapshotScenario. unfold historyOf at 1. cbn [setHistory st_history].
    unfold ScenarioHistoryDir at 2. rewrite TrimSpace_idemp. unfold ScenarioHistoryDir. rewrite lookup_insert_eq. cbn [default from_option].
    rewrite historyOf_trim. by apply pruneHistory_holds, snapshot_holds.
Qed.

Lemma supersede_times keep now xml v t : Forall (fun w => fst w < now) (snd v) -> now < t ->
  Forall (fun w => fst w < t) (snd (supersede keep now xml v)).
Proof.
  intros Hf Ht. assert (Forall (fun w : Z * str => fst w < t) (snd v)) as Hf' by (eapply Forall_impl; [exact Hf|]; intros w Hw; cbv beta in *; lia).
  unfold supersede. case_bool_decide; [done|]. cbn [snd]. unfold bounded. destruct (keep <=? 0); [by constructor|]. apply Forall_take. by constructor.
Qed.

(** A run of updates, and what it should leave. *)
Definition putAll (ups : list (Z * ScenarioMeta * str)) (s : Store) : Store :=
  foldl (fun s '(t, m, x) => snd (PutScenario t m x false s)) s ups.
Definition versionsAfter (keep : Z) (xml : str) (ups : list (Z * ScenarioMeta * str)) : str * versions :=
  foldl (fun v '(t, _, x) => supersede keep t x v) (xml, []) ups.

Definition good_update (id : str) (u : Z * ScenarioMeta * str) : Prop :=
  let '(t, m, x) := u in sm_ID m = id /\ TrimSpace x <> [] /\ representable t.

Lemma putAll_shows id ups s v :
  isSafeID id = true -> shows id s v -> Forall (good_update id) ups ->
  StronglySorted Z.lt (map (fun u => fst (fst u)) ups) ->
  match ups with [] => True | u :: _ => Forall (fun w => fst w < fst (fst u)) (snd v) end ->
  shows id (putAll ups s) (foldl (fun v '(t, _, x) => supersede (st_scenarioHistoryKeep s) t x v) v ups).
Proof.
  revert s v. induction ups as [|[[t m] x] ups IH]; intros s v Hid Hsh Hg Hs Hlt; [done|].
  apply Forall_cons in Hg as [(Hm & Hx & Ht) Hg]. cbn [map fst] in Hs. apply StronglySorted_inv in Hs as [Hs Hall]. subst id.
  destruct (put_update t m x s v Hid Hx Hsh Hlt Ht) as (b & s' & E & Hsh' & Hk). cbn [putAll foldl]. rewrite E. cbn [snd]. rewrite <- Hk in *.
  apply IH; try done. destruct ups as [|[[t2 m2] x2] ups]; [done|]. cbn [fst map] in *. apply supersede_times; [done|].
  by apply Forall_cons in Hall as [? _].
Qed.

(** C25: However a scenario is edited, the store keeps what the specification
    keeps: the current version is the last one stored, its history lists the
    versions that were replaced by different ones, newest first by the time of
    replacement, no more than the limit when there is one, and each of them
    can be read back. *)
Theorem scenario_versions_kept t0 meta0 xml0 ups s :
  (forall m, is_Some (@unmarshal ScenarioMeta _ (marshal m))) ->
  isSafeID (sm_ID meta0) = true -> TrimSpace xml0 <> [] ->
  st_scenarios s !! xmlFile (sm_ID meta0) = None -> historyOf (sm_ID meta0) s = ∅ ->
  Forall (good_update (sm_ID meta0)) ups -> StronglySorted Z.lt (map (fun u => fst (fst u)) ups) ->
  let id := sm_ID meta0 in
  let s' := putAll ups (snd (PutScenario t0 meta0 xml0 true s)) in
  let '(cur, h) := versionsAfter (st_scenarioHistoryKeep s) xml0 ups in
  (exists m, GetScenario id s' = Ok (mkBody m cur)) /\
  (exists entries, ListScenarioHistory id s' = Ok entries /\ map sh_TS entries = map (fun v => historyTS (fst v)) h) /\
  (forall t x, (t, x) ∈ h -> exists m, GetScenarioHistory id (historyTS t) s' = Ok (mkBody m x)).
Proof.
  intros Hj Hid Hx Hn Hh Hg Hs. cbv zeta. destruct (put_create t0 meta0 xml0 s Hid Hx Hn Hh) as (b & s1 & E & Hsh & Hk). rewrite E. cbn [snd].
  assert (shows (sm_ID meta0) (putAll ups s1) (versionsAfter (st_scenarioHistoryKeep s) xml0 ups)) as Hfin.
  { unfold versionsAfter. rewrite <- Hk. apply putAll_shows; try done. destruct ups as [|]; [done|constructor]. }
  destruct (versionsAfter _ _ _) as [cur h]. destruct Hfin as [Hxml [m Hm] Hhist]. cbn [fst snd] in *. clear E Hsh Hk b.
  set (s' := putAll ups s1) in *. clearbody s'.
  assert (forall id d xf mf y m, fl_data <$> d !! xf = Some y -> fl_data <$> d !! mf = Some (marshal m) ->
            exists b, readBody id xf mf d = Ok (mkBody b y)) as Hread.
  { intros id d xf mf y m' Hd1 Hd2. unfold readBody, readJSON. destruct (d !! xf); [|done]. destruct (d !! mf); [|done].
    injection Hd1 as ->. injection Hd2 as ->. destruct (Hj m') as [m2 ->]. by eexists. }
  split; [unfold GetScenario; rewrite Hid; by eapply Hread|]. split.
  - unfold ListScenarioHistory. rewrite Hid. cbn [negb]. destruct (st_scenarios s' !! xmlFile (sm_ID meta0)); [|done].
    eexists. split; [done|]. by apply listing.
  - intros t x Hin. unfold GetScenarioHistory. rewrite Hid. cbn [negb].
    pose proof (ho_repr _ _ Hhist) as Hr. rewrite Forall_forall in Hr. rewrite historyTS_safe by (by apply (Hr (t, x))). cbn [negb].
    destruct (ho_files _ _ Hhist t x Hin) as [Hd1 [m' Hd2]]. by eapply Hread.
Qed.
End History.

(** Storing a scenario leaves the others alone, and the histories of those
    whose trimmed id is another. *)
Theorem scenario_edits_isolated `{Json ServerProfile, Json ClientProfile, Json ScenarioMeta} now meta xml create s r s' id :
  PutScenario now meta xml create s = (r, s') -> id <> sm_ID meta ->
  GetScenario id s' = GetScenario id s /\
  (TrimSpace id <> TrimSpace (sm_ID meta) -> ListScenarioHistory id s' = ListScenarioHistory id s).
Proof.
  intros E Hid.
  assert (forall d m, st_scenarios s' = writeAtomic now (metaFile (sm_ID meta)) m (writeAtomic now (xmlFile (sm_ID meta)) xml d) ->
    d = st_scenarios s -> st_scenarios s' !! xmlFile id = st_scenarios s !! xmlFile id /\ st_scenarios s' !! metaFile id = st_scenarios s !! metaFile id) as Hf.
  { intros d m -> ->. unfold writeAtomic.
    rewrite !lookup_insert_ne; [done|..]; intros E'; first [by apply metaFile_inj in E'|by apply xmlFile_inj in E'|
      by apply xml_not_meta in E'|symmetry in E'; by apply xml_not_meta in E']. }
  assert (st_scenarios s' !! xmlFile id = st_scenarios s !! xmlFile id /\ st_scenarios s' !! metaFile id = st_scenarios s !! metaFile id /\
    (TrimSpace id <> TrimSpace (sm_ID meta) -> historyOf id s' = historyOf id s)) as (Hx & Hm & Hh).
  { revert E Hf. unfold PutScenario. destruct (isSafeID (sm_ID meta)); [|by intros [= <- <-]]. cbn [negb].
    case_bool_decide; [by intros [= <- <-]|]. destruct (st_scenarios s !! xmlFile (sm_ID meta)) as [prior|].
    - destruct create; [by intros [= <- <-]|]. cbv zeta.
      case_bool_decide; intros [= <- <-] Hf; (destruct (Hf _ _ eq_refl eq_refl) as [-> ->]); split; [done| |done|]; split; try done.
      intros Ht. unfold historyOf, snapshotScenario. cbn [setScenarios st_history setHistory]. unfold ScenarioHistoryDir.
      rewrite TrimSpace_idemp, lookup_insert_ne by congruence. done.
    - intros [= <- <-] Hf. by destruct (Hf _ _ eq_refl eq_refl) as [-> ->]. }
  split.
  - unfold GetScenario, readBody, readJSON. by rewrite Hx, Hm.
  - intros Ht. unfold ListScenarioHistory. by rewrite Hx, Hh.
Qed.

(** ** A small run, and surprises *)

Definition demoServer (created updated : option Z) : ServerProfile :=
  mkServerProfile (lit "a") (lit "a") [] [] [] 0 [] [] created updated.
#[local] Instance demo_server_json : Json ServerProfile := {
  marshal p := lit "{}"; unmarshal s := if bool_decide (s = lit "{}") then Some (demoServer (Some 5) (Some 5)) else None }.
#[local] Instance demo_client_json : Json ClientProfile := { marshal p := []; unmarshal s := None }.
#[local] Instance demo_meta_json : Json ScenarioMeta := { marshal p := lit "{}"; unmarshal s := Some noMeta }.

Definition demoDir : dir := snd (putProfile (P := ServerProfile) 5 (demoServer None None) true ∅).

Lemma demo_put : putProfile (P := ServerProfile) 5 (demoServer None None) true ∅ = (Ok (demoServer (Some 5) (Some 5)), demoDir).
Proof. by rewrite (surjective_pairing (putProfile _ _ _ _)). Qed.

Lemma profile_put_get_witness : getProfile (p_ID (demoServer None None)) demoDir = Ok (demoServer (Some 5) (Some 5)).
Proof.
  destruct (profile_put_get (P := ServerProfile) 5 (demoServer None None) true ∅ _ _ demo_put) as (_ & _ & H & _).
  exact (H eq_refl).
Defined.

Definition demoMeta : ScenarioMeta := mkMeta (lit "a") [] [] [] [] None None.
Definition demoUpdates : list (Z * ScenarioMeta * str) :=
  [(2000000000, demoMeta, lit "v2"); (3000000000, demoMeta, lit "v2"); (4000000000, demoMeta, lit "v3"); (5000000000, demoMeta, lit "v4")].
Definition demoStore : Store := putAll demoUpdates (snd (PutScenario 1 demoMeta (lit "v1") true (OpenWithOptions 2))).

Lemma demo_good : Forall (good_update (sm_ID demoMeta)) demoUpdates.
Proof. unfold demoUpdates, good_update, representable. repeat (constructor; [split; [done|]; split; [by vm_compute|lia]|]). constructor. Qed.

Lemma demo_times : StronglySorted Z.lt (map (fun u => fst (fst u)) demoUpdates).
Proof. unfold demoUpdates. cbn [map fst]. repeat constructor. Qed.

Lemma scenario_versions_kept_witness :
  match versionsAfter (st_scenarioHistoryKeep (OpenWithOptions 2)) (lit "v1") demoUpdates with
  | (cur, h) =>
    (exists m, GetScenario (sm_ID demoMeta) demoStore = Ok (mkBody m cur)) /\
    (exists entries, ListScenarioHistory (sm_ID demoMeta) demoStore = Ok entries /\
       map sh_TS entries = map (fun v => historyTS (fst v)) h) /\
    (forall t x, (t, x) ∈ h -> exists m, GetScenarioHistory (sm_ID demoMeta) (historyTS t) demoStore = Ok (mkBody m x))
  end.
Proof.
  refine (scenario_versions_kept 1 demoMeta (lit "v1") demoUpdates (OpenWithOptions 2) _ _ _ _ _ demo_good demo_times).
  - intros m. by eexists.
  - vm_compute. reflexivity.
  - vm_compute. discriminate.
  - vm_compute. reflexivity.
  - vm_compute. reflexivity.
Defined.

(** Ids are trimmed for the history only: deleting a scenario that does not
    exist, under an id with a blank, reports that it is not there and removes
    the history of the one without the blank. *)
Theorem padded_delete_drops_history :
  fst (DeleteScenario (lit " a") demoStore) = Err ErrNotFound /\
  ListScenarioHistory (lit "a") (snd (DeleteScenario (lit " a") demoStore)) = Ok [].
Proof. vm_compute. done. Qed.

(** One file that does not parse hides every profile. *)
Theorem one_bad_profile_hides_all :
  let d := writeAtomic 6 (lit "b.json") (lit "{") demoDir in
  listJSON (P := ServerProfile) demoDir = Ok [demoServer (Some 5) (Some 5)] /\
  listJSON (P := ServerProfile) d = Err ErrParse.
Proof. vm_compute. done. Qed.
