(* ===== verification/EventLog.v ===== *)
(** * The event log ([internal/eventlog])

    Events and their two texts ([event.go], [sink.go]), the logger with its
    drain goroutine ([logger.go]) over the ring of [Ring], and the sinks that
    write lines through a [bufio.Writer].  Goroutines are the steps of a
    transition relation: a call of [Emit] checks the flag and pushes in two
    steps, [Close] sets the flag, closes the ring and waits in three.  The
    destination of a sink is any [io.Writer] (class [Writer]); the OTLP sink is
    the OpenTelemetry SDK's and left out.  Go's zero [time.Time] is [None],
    times are UTC, and [clock] is what [time.Now] returns. *)

From stdpp Require Import base list gmap strings sorting.
From Stdlib Require Import ZArith Lia Strings.Byte Floats.SpecFloat.
From S2P Require Import Prelude GoStrings GoFloat GoTime Hash Auth Ring.

(** ** Levels *)

Definition LevelDebug : Z := 0.
Definition LevelInfo : Z := 1.
Definition LevelWarn : Z := 2.
Definition LevelError : Z := 3.

Definition Level_String (l : Z) : str :=
  if l =? LevelDebug then lit "debug"
  else if l =? LevelWarn then lit "warn"
  else if l =? LevelError then lit "error"
  else lit "info".

Definition ParseLevel (name : str) : Z * bool :=
  let n := ToLower (TrimSpace name) in
  if bool_decide (n = [] \/ n = lit "info") then (LevelInfo, true)
  else if bool_decide (n = lit "debug") then (LevelDebug, true)
  else if bool_decide (n = lit "warn" \/ n = lit "warning") then (LevelWarn, true)
  else if bool_decide (n = lit "error" \/ n = lit "err") then (LevelError, true)
  else (LevelInfo, false).

(** ** Events *)

(** A value of type [any] in an attribute map.  The integer types print alike;
    a value of any other type is known by the text of its [String] method and
    by what [json.Marshal] makes of it. *)
Inductive value :=
  | VNil
  | VString (s : str)
  | VBool (b : bool)
  | VInt (z : Z)
  | VFloat64 (x : float64)
  | VDuration (d : Z)
  | VTime (t : Z)
  | VError (msg : str)
  | VOther (text : option str) (json : str).

Abbreviation attrs := (gmap str value).

Record Event := mkEvent {
  ev_Time : option Z;
  ev_Level : Z;
  ev_Kind : str;
  ev_Msg : str;
  ev_Attrs : attrs
}.

(** Go's zero [Event], the content of an empty slot of the ring. *)
Definition zeroEvent : Event := mkEvent None 0 [] [] ∅.

(** The loops of [MergeAttrs]: the keys of [base], then those of [extra]. *)
Definition copy_attrs (src out : attrs) : attrs := map_fold (fun k v out => <[k := v]> out) out src.

Definition MergeAttrs (base extra : attrs) : attrs := copy_attrs extra (copy_attrs base ∅).

Definition cloneAttrs (a : attrs) : attrs := copy_attrs a ∅.

Definition withResource (ev : Event) (resource : attrs) : Event :=
  if bool_decide (resource = ∅) then ev
  else mkEvent (ev_Time ev) (ev_Level ev) (ev_Kind ev) (ev_Msg ev)
         (copy_attrs (ev_Attrs ev) (copy_attrs resource ∅)).

Lemma copy_attrs_union src out : copy_attrs src out = src ∪ out.
Proof.
  unfold copy_attrs. apply (map_fold_weak_ind (fun r m => r = m ∪ out)); [by rewrite map_empty_union|].
  intros i x m r Hi ->. by rewrite insert_union_l.
Qed.

Lemma MergeAttrs_union base extra : MergeAttrs base extra = extra ∪ base.
Proof. unfold MergeAttrs. by rewrite !copy_attrs_union, map_union_empty. Qed.

Lemma withResource_attrs ev resource : ev_Attrs (withResource ev resource) = ev_Attrs ev ∪ resource.
Proof.
  unfold withResource. case_bool_decide as E; cbn [ev_Attrs].
  - by rewrite E, map_union_empty.
  - by rewrite !copy_attrs_union, map_union_empty.
Qed.

(** The keys in the order of [sort.Strings]. *)
Definition key_le (a b : str) : Prop := str_leb a b = true.
#[export] Instance key_le_dec : RelDecision key_le := fun a b => decide (str_leb a b = true).
#[export] Instance key_le_total : Total key_le.
Proof. intros a b. apply str_leb_total. Qed.
#[export] Instance key_le_trans : Transitive key_le.
Proof. intros a b c. apply str_leb_trans. Qed.
#[export] Instance key_le_antisym : AntiSymm (=) key_le.
Proof. intros a b. apply str_leb_antisym. Qed.

Definition sorted_keys {V} (m : gmap str V) : list str := merge_sort key_le (elements (dom m)).

(** ** Texts *)

(** [time.Duration.String] *)
Definition fmtFrac (prec : nat) (u : Z) : str :=
  let f := u mod 10 ^ Z.of_nat prec in
  if f =? 0 then [] else x2e :: TrimRight (fun b => beqb b x30) (padded prec f).

Definition Duration_String (d : Z) : str :=
  let u := Z.abs d in
  let text :=
    if u =? 0 then lit "0s"
    else if u <? 1000 then dec_of u ++ lit "ns"
    else if u <? 1000000 then dec_of (u / 1000) ++ fmtFrac 3 u ++ [xc2; xb5; x73]
    else if u <? 1000000000 then dec_of (u / 1000000) ++ fmtFrac 6 u ++ lit "ms"
    else
      let s := u / 1000000000 in
      (if 0 <? s / 60 then
         (if 0 <? s / 3600 then dec_of (s / 3600) ++ lit "h" else [])
         ++ dec_of (s / 60 mod 60) ++ lit "m"
       else [])
      ++ dec_of (s mod 60) ++ fmtFrac 9 u ++ lit "s" in
  if d <? 0 then x2d :: text else text.

Example duration_examples :
  Duration_String 1500000000 = lit "1.5s" /\ Duration_String 3661000000000 = lit "1h1m1s"
  /\ Duration_String 250000000 = lit "250ms" /\ Duration_String (-90000000001) = lit "-1m30.000000001s"
  /\ Duration_String 1020 = [x31; x2e; x30; x32; xc2; xb5; x73].
Proof. vm_compute. done. Qed.

Section Text.

Context (isPrint : Z -> bool) (clock : Event -> Z).

(** [strings.ContainsAny] with a space, a tab and a quote. *)
Definition needs_quote (b : byte) : bool := beqb b x20 || beqb b x09 || beqb b x22.

Definition toString (text : option str) : str := default [] text.

Definition formatValue (v : value) : str :=
  match v with
  | VNil => []
  | VString val => if existsb needs_quote val then Quote isPrint val else val
  | VBool val => if val then lit "true" else lit "false"
  | VInt val => Itoa val
  | VFloat64 val => FormatFloat val
  | VDuration val => Duration_String val
  | VTime val => rfc3339nano val
  | VError msg => Quote isPrint msg
  | VOther text _ => Quote isPrint (toString text)
  end.

Definition format_attr (a : attrs) (k : str) : str :=
  k ++ [x3d] ++ match a !! k with Some v => formatValue v | None => [] end.

Definition FormatAttrs (a : attrs) : str := Join (map (format_attr a) (sorted_keys a)) [x20].

Definition quoteIfNeeded (msg : str) : str :=
  if existsb (fun r => (r =? 32) || (r =? 9) || (r =? 34) || (r =? 10)) (runes msg) then Quote isPrint msg else msg.

Definition event_time (ev : Event) : Z := default (clock ev) (ev_Time ev).

Definition formatText (ev : Event) : str :=
  let kind := if bool_decide (ev_Kind ev = []) then lit "event" else ev_Kind ev in
  let out := rfc3339nano (event_time ev) ++ [x20] ++ Level_String (ev_Level ev) ++ [x20] ++ kind in
  let out := if bool_decide (ev_Msg ev = []) then out else out ++ [x20] ++ quoteIfNeeded (ev_Msg ev) in
  let a := FormatAttrs (ev_Attrs ev) in
  if bool_decide (a = []) then out else out ++ [x20] ++ a.

(** *** JSON *)

(** A rune inside a JSON string, with the escapes [json.Marshal] writes, or the
    bytes it came from. *)
Definition json_rune (r : Z) (raw : str) : str :=
  if (r =? 34) || (r =? 92) then [x5c; z2b r]
  else if r =? 8 then lit "\b" else if r =? 12 then lit "\f" else if r =? 10 then lit "\n"
  else if r =? 13 then lit "\r" else if r =? 9 then lit "\t"
  else if (r <? 32) || (r =? 60) || (r =? 62) || (r =? 38) || (r =? 8232) || (r =? 8233)
  then lit "\u" ++ hex_pad 4 r
  else raw.

Definition json_bad : str := lit "\ufffd".

Fixpoint json_body (s : str) : str :=
  match s with
  | [] => []
  | a :: r1 =>
    if b2z a <? 128 then json_rune (b2z a) [a] ++ json_body r1 else
    match r1 with
    | [] => json_bad
    | b :: r2 =>
      if utf8_2 a b then json_rune ((b2z a mod 32) * 64 + b2z b mod 64) [a; b] ++ json_body r2 else
      match r2 with
      | [] => json_bad ++ json_body r1
      | c :: r3 =>
        if utf8_3 a b c
        then json_rune ((b2z a mod 16) * 4096 + (b2z b mod 64) * 64 + b2z c mod 64) [a; b; c] ++ json_body r3 else
        match r3 with
        | [] => json_bad ++ json_body r1
        | d :: r4 =>
          if utf8_4 a b c d
          then json_rune ((b2z a mod 8) * 262144 + (b2z b mod 64) * 4096
                          + (b2z c mod 64) * 64 + b2z d mod 64) [a; b; c; d] ++ json_body r4
          else json_bad ++ json_body r1
        end
      end
    end
  end.

Definition json_string (s : str) : str := x22 :: json_body s ++ [x22].

(** [AppendFloat] with format [e] and the shortest digits, the exponent without
    a leading zero. *)
Fixpoint strip_all (fuel : nat) (d q : Z) : Z * Z :=
  match fuel with
  | O => (d, q)
  | S f => if d mod 10 =? 0 then strip_all f (d / 10) (q + 1) else (d, q)
  end.

Definition exponent_form (s : bool) (m : positive) (e : Z) : str :=
  let unit := 2 ^ Z.max e 0 in
  let num := 4 * Z.pos m * unit in
  let den := 4 * 2 ^ Z.max (- e) 0 in
  let lo := num - (if (Z.pos m =? 2 ^ 52) && negb (e =? -1074) then unit else 2 * unit) in
  let hi := num + 2 * unit in
  let '(d, q) := shortest 17 1 (point_of num den) num den lo hi (Z.even (Z.pos m)) in
  let '(d, q) := strip_all 20 d q in
  let ds := dec_of d in
  let exp := q + Z.of_nat (length ds) - 1 in
  sign_str s ++ take 1 ds ++ (if (length ds =? 1)%nat then [] else x2e :: drop 1 ds)
  ++ (if exp <? 0 then lit "e-" else lit "e+") ++ dec_of (Z.abs exp).

(** [json.Marshal] of a float; NaN and the infinities are refused. *)
Definition json_float (x : float64) : result str str :=
  match x with
  | S754_nan | S754_infinity _ => Err (lit "json: unsupported value: " ++ FormatFloat x)
  | S754_zero _ => Ok (FormatFloat x)
  | S754_finite s m e =>
    let a := S754_finite false m e in
    if flt a (fdiv fone (float_of_int 1000000)) || fle (float_of_int (10 ^ 21)) a
    then Ok (exponent_form s m e) else Ok (FormatFloat x)
  end.

Definition json_value (v : value) : result str str :=
  match v with
  | VNil => Ok (lit "null")
  | VString s => Ok (json_string s)
  | VBool b => Ok (if b then lit "true" else lit "false")
  | VInt z => Ok (Itoa z)
  | VFloat64 x => json_float x
  | VDuration d => Ok (Itoa d)
  | VTime t => Ok (json_string (rfc3339nano t))
  | VError _ => Ok (lit "{}")
  | VOther _ json => Ok json
  end.

(** [jsonAttrs]: durations, times and errors as their texts. *)
Definition jsonAttrs (a : attrs) : attrs :=
  (fun v => match v with
            | VDuration d => VString (Duration_String d)
            | VTime t => VString (rfc3339nano t)
            | VError msg => VString msg
            | v => v
            end) <$> a.

(** Members of an object, in the order of their keys. *)
Fixpoint json_members (a : attrs) (keys : list str) : result str (list str) :=
  match keys with
  | [] => Ok []
  | k :: keys =>
    let? v := json_value (default VNil (a !! k)) in
    let? rest := json_members a keys in
    Ok ((json_string k ++ [x3a] ++ v) :: rest)
  end.

Definition json_object (members : list str) : str := [x7b] ++ Join members [x2c] ++ [x7d].

Definition json_map (a : attrs) : result str str :=
  let? ms := json_members a (sorted_keys a) in Ok (json_object ms).

Definition member (key : string) (v : str) : str := json_string (lit key) ++ [x3a] ++ v.

(** The record of [formatJSON], its fields in the order of their declaration. *)
Definition json_record (t : str) (ev : Event) : result str str :=
  let? a := if bool_decide (ev_Attrs ev = ∅) then Ok []
            else let? m := json_map (jsonAttrs (ev_Attrs ev)) in Ok [member "attrs" m] in
  Ok (json_object ([member "time" (json_string t); member "level" (json_string (Level_String (ev_Level ev)));
                    member "kind" (json_string (ev_Kind ev))]
                   ++ (if bool_decide (ev_Msg ev = []) then [] else [member "msg" (json_string (ev_Msg ev))]) ++ a)).

Definition quoted_member (key : string) (v : str) : str := [x22] ++ lit key ++ [x22; x3a] ++ Quote isPrint v.

Definition formatJSON (ev : Event) : str :=
  let t := rfc3339nano (event_time ev) in
  match json_record t ev with
  | Ok data => data
  | Err err =>
    [x7b] ++ Join [quoted_member "time" t; quoted_member "level" (Level_String (ev_Level ev));
                   quoted_member "kind" (ev_Kind ev); quoted_member "msg" (ev_Msg ev); quoted_member "err" err] [x2c]
    ++ [x7d]
  end.

End Text.

(** ** Reading a JSON string

    What a JSON reader makes of the text after an opening quote: the runes up to
    the closing quote, and what follows. *)

Definition json_escape (c : byte) : option Z :=
  match c with
  | x22 => Some 34 | x5c => Some 92 | x2f => Some 47 | x62 => Some 8 | x66 => Some 12
  | x6e => Some 10 | x72 => Some 13 | x74 => Some 9 | _ => None
  end.

Definition hex4 (a b c d : byte) : option Z :=
  a ← hex_digit a; b ← hex_digit b; c ← hex_digit c; d ← hex_digit d;
  Some (a * 4096 + b * 256 + c * 16 + d).

Definition add_rune (r : Z) (x : option (list Z * str)) : option (list Z * str) :=
  '(rs, rest) ← x; Some (r :: rs, rest).

Fixpoint json_read (s : str) : option (list Z * str) :=
  match s with
  | [] => None
  | a :: r1 =>
    if beqb a x22 then Some ([], r1)
    else if beqb a x5c then
      match r1 with
      | [] => None
      | c :: r2 =>
        if beqb c x75 then
          match r2 with
          | h1 :: h2 :: h3 :: h4 :: r6 => r ← hex4 h1 h2 h3 h4; add_rune r (json_read r6)
          | _ => None
          end
        else r ← json_escape c; add_rune r (json_read r2)
      end
    else if b2z a <? 32 then None
    else if b2z a <? 128 then add_rune (b2z a) (json_read r1) else
    match r1 with
    | [] => None
    | b :: r2 =>
      if utf8_2 a b then add_rune ((b2z a mod 32) * 64 + b2z b mod 64) (json_read r2) else
      match r2 with
      | [] => None
      | c :: r3 =>
        if utf8_3 a b c
        then add_rune ((b2z a mod 16) * 4096 + (b2z b mod 64) * 64 + b2z c mod 64) (json_read r3) else
        match r3 with
        | [] => None
        | d :: r4 =>
          if utf8_4 a b c d
          then add_rune ((b2z a mod 8) * 262144 + (b2z b mod 64) * 4096 + (b2z c mod 64) * 64 + b2z d mod 64)
                 (json_read r4)
          else None
        end
      end
    end
  end.

Lemma json_read_ascii a t : b2z a < 128 -> json_read (json_rune (b2z a) [a] ++ t) = add_rune (b2z a) (json_read t).
Proof. intros H. destruct a; first [exfalso; vm_compute in H; discriminate H | reflexivity]. Qed.

Lemma json_read_bad t : json_read (json_bad ++ t) = add_rune RuneError (json_read t).
Proof. reflexivity. Qed.

(** Leading bytes of longer sequences are none of the characters the reader
    looks for. *)
Lemma high_byte a : 128 <= b2z a -> beqb a x22 = false /\ beqb a x5c = false /\ (b2z a <? 32) = false /\ (b2z a <? 128) = false.
Proof. intros H. destruct a; first [exfalso; vm_compute in H; by apply H | repeat split]. Qed.

Lemma mod_window n k x : 0 < n -> k * n <= x < (k + 1) * n -> x mod n = x - k * n.
Proof. intros Hn H. symmetry. apply (Z.mod_unique_pos x n k); lia. Qed.

Lemma utf8_2_high a b : utf8_2 a b = true -> 128 <= (b2z a mod 32) * 64 + b2z b mod 64 < 2048 /\ 128 <= b2z a.
Proof.
  unfold utf8_2, is_cont, in_range. intros H. bool_to_prop.
  rewrite (mod_window 32 6 (b2z a)) by lia.
  rewrite (mod_window 64 2 (b2z b)) by lia. lia.
Qed.

(** A rune of several bytes: escaped, or its bytes. *)
Lemma json_rune_high r raw : 128 <= r ->
  json_rune r raw = raw \/ (r = 8232 /\ json_rune r raw = lit "\u2028") \/ (r = 8233 /\ json_rune r raw = lit "\u2029").
Proof.
  intros H. unfold json_rune. rewrite !(proj2 (Z.eqb_neq r _)) by lia.
  destruct (Z.ltb_spec r 32); [lia|]. cbn [orb].
  destruct (Z.eqb_spec r 8232) as [-> | ]; [by auto|]. destruct (Z.eqb_spec r 8233) as [-> | ]; by auto.
Qed.

Lemma utf8_3_high a b c : utf8_3 a b c = true ->
  128 <= (b2z a mod 16) * 4096 + (b2z b mod 64) * 64 + b2z c mod 64 /\ 128 <= b2z a.
Proof.
  unfold utf8_3. intros [_ H]%andb_true_iff.
  pose proof (Z.mod_pos_bound (b2z c) 64 ltac:(lia)). pose proof (Z.mod_pos_bound (b2z b) 64 ltac:(lia)).
  pose proof (Z.mod_pos_bound (b2z a) 16 ltac:(lia)). unfold is_cont, in_range in H.
  repeat (apply orb_true_iff in H as [H|H]); apply andb_true_iff in H as [Hx Hy].
  - apply beqb_eq in Hx as ->. bool_to_prop. change (b2z xe0 mod 16) with 0. split; [|by vm_compute].
    rewrite (mod_window 64 2 (b2z b)) by lia. lia.
  - bool_to_prop. split; [|lia].
    rewrite (mod_window 16 14 (b2z a)) by lia. lia.
  - apply beqb_eq in Hx as ->. change (b2z xed mod 16) with 13. split; [lia|by vm_compute].
  - bool_to_prop. split; [|lia].
    rewrite (mod_window 16 14 (b2z a)) by lia. lia.
Qed.

Lemma utf8_4_high a b c d : utf8_4 a b c d = true ->
  128 <= (b2z a mod 8) * 262144 + (b2z b mod 64) * 4096 + (b2z c mod 64) * 64 + b2z d mod 64 /\ 128 <= b2z a.
Proof.
  unfold utf8_4. intros [_ H]%andb_true_iff.
  pose proof (Z.mod_pos_bound (b2z c) 64 ltac:(lia)). pose proof (Z.mod_pos_bound (b2z b) 64 ltac:(lia)).
  pose proof (Z.mod_pos_bound (b2z a) 8 ltac:(lia)). pose proof (Z.mod_pos_bound (b2z d) 64 ltac:(lia)).
  unfold is_cont, in_range in H.
  repeat (apply orb_true_iff in H as [H|H]); apply andb_true_iff in H as [Hx Hy].
  - apply beqb_eq in Hx as ->. bool_to_prop. change (b2z xf0 mod 8) with 0. split; [|by vm_compute].
    rewrite (mod_window 64 2 (b2z b)) by lia. lia.
  - bool_to_prop. split; [|lia].
    rewrite (mod_window 8 30 (b2z a)) by lia. lia.
  - apply beqb_eq in Hx as ->. change (b2z xf4 mod 8) with 4. split; [lia|by vm_compute].
Qed.

Lemma json_read_2 a b t : utf8_2 a b = true ->
  json_read (a :: b :: t) = add_rune ((b2z a mod 32) * 64 + b2z b mod 64) (json_read t).
Proof.
  intros H. destruct (utf8_2_high a b H) as [_ Ha]. destruct (high_byte a Ha) as (E1 & E2 & E3 & E4).
  cbn [json_read]. by rewrite E1, E2, E3, E4, H.
Qed.

Lemma json_read_3 a b c t : utf8_2 a b = false -> utf8_3 a b c = true ->
  json_read (a :: b :: c :: t) = add_rune ((b2z a mod 16) * 4096 + (b2z b mod 64) * 64 + b2z c mod 64) (json_read t).
Proof.
  intros H2 H. destruct (utf8_3_high a b c H) as [_ Ha]. destruct (high_byte a Ha) as (E1 & E2 & E3 & E4).
  cbn [json_read]. by rewrite E1, E2, E3, E4, H2, H.
Qed.

Lemma json_read_4 a b c d t : utf8_2 a b = false -> utf8_3 a b c = false -> utf8_4 a b c d = true ->
  json_read (a :: b :: c :: d :: t)
  = add_rune ((b2z a mod 8) * 262144 + (b2z b mod 64) * 4096 + (b2z c mod 64) * 64 + b2z d mod 64) (json_read t).
Proof.
  intros H2 H3 H. destruct (utf8_4_high a b c d H) as [_ Ha]. destruct (high_byte a Ha) as (E1 & E2 & E3 & E4).
  cbn [json_read]. by rewrite E1, E2, E3, E4, H2, H3, H.
Qed.

(** The reader takes one written rune of several bytes. *)
Lemma json_read_rune r raw t : 128 <= r -> json_read (raw ++ t) = add_rune r (json_read t) ->
  json_read (json_rune r raw ++ t) = add_rune r (json_read t).
Proof. intros H Hr. destruct (json_rune_high r raw H) as [-> | [[-> ->] | [-> ->]]]; [done|reflexivity..]. Qed.

(** ** Texts without control characters *)

Definition visible (s : str) : Prop := Forall (fun b => 32 <= b2z b) s.

Create HintDb visible.

Definition visible_b (s : str) : bool := forallb (fun b => 32 <=? b2z b) s.

Lemma visible_spec s : visible_b s = true -> visible s.
Proof. intros H. apply Forall_forall. intros b Hb%list_elem_of_In. apply Z.leb_le. by apply (proj1 (forallb_forall _ _) H). Qed.

Lemma visible_app s t : visible s -> visible t -> visible (s ++ t).
Proof. intros Hs Ht. by apply Forall_app. Qed.

Lemma visible_cons b s : 32 <= b2z b -> visible s -> visible (b :: s).
Proof. by constructor. Qed.

Lemma visible_join l sep : visible sep -> Forall visible l -> visible (Join l sep).
Proof.
  intros Hs Hl. induction Hl as [|x l Hx _ IH]; [constructor|]. destruct l as [|y l]; [done|].
  rewrite Join_cons by done. by repeat apply visible_app.
Qed.

Lemma visible_dec z : visible (dec_of z).
Proof.
  eapply Forall_impl; [apply dec_of_digits|]. intros b Hb. unfold in_range in Hb. bool_to_prop. lia.
Qed.

Lemma visible_Itoa z : visible (Itoa z).
Proof. unfold Itoa. repeat case_match; repeat (apply visible_cons; [by vm_compute|]); apply visible_dec. Qed.

Lemma visible_trim_left cut s : visible s -> visible (trim_left_set cut s).
Proof. intros H. induction H as [|b s Hb Hs IH]; simpl; [constructor|]. destruct (cut b); [done|by constructor]. Qed.

Lemma visible_trim_right cut s : visible s -> visible (TrimRight cut s).
Proof. intros H. apply Forall_rev, visible_trim_left, Forall_rev, H. Qed.

Lemma visible_replicate n b : 32 <= b2z b -> visible (replicate n b).
Proof. intros H. by apply Forall_replicate. Qed.

Lemma visible_take n s : visible s -> visible (take n s).
Proof. apply Forall_take. Qed.

Lemma visible_drop n s : visible s -> visible (drop n s).
Proof. apply Forall_drop. Qed.

Lemma visible_hex n r : visible (hex_pad n r).
Proof.
  apply Forall_map, Forall_forall. intros i _.
  assert (0 <= Z.land (Z.shiftr r (4 * Z.of_nat (n - 1 - i))) 15 < 16) as Hd.
  { change 15 with (Z.ones 4). rewrite Z.land_ones by lia. by apply Z.mod_pos_bound. }
  destruct (hex_lower_range _ Hd) as [H|H]; unfold in_range in H; bool_to_prop; lia.
Qed.

#[export] Hint Resolve visible_app visible_join visible_dec visible_Itoa visible_trim_right visible_take visible_drop
  visible_hex visible_replicate Forall_nil_2 : visible.
#[export] Hint Extern 0 (visible (_ :: _)) => apply visible_cons; [by vm_compute|] : visible.
#[export] Hint Extern 1 (visible (lit _)) => by apply visible_spec : visible.
#[export] Hint Extern 0 (32 <= b2z _) => by vm_compute : visible.
#[export] Hint Extern 1 (visible []) => constructor : visible.
#[export] Hint Extern 2 (visible (if _ then _ else _)) => case_match : visible.

Lemma visible_padded w z : visible (padded w z).
Proof. unfold padded, zeros. auto with visible. Qed.
#[export] Hint Resolve visible_padded : visible.

Lemma visible_rfc3339 t : visible (rfc3339nano t).
Proof. unfold rfc3339nano, fraction. cbv zeta. destruct (civil _) as [[y m] d]. auto 40 with visible. Qed.

Lemma visible_duration d : visible (Duration_String d).
Proof. unfold Duration_String, fmtFrac. cbv zeta. auto 20 with visible. Qed.

Lemma visible_positional d q : visible (positional d q).
Proof. unfold positional, zeros. cbv zeta. auto 20 with visible. Qed.
#[export] Hint Resolve visible_rfc3339 visible_duration visible_positional : visible.

Lemma visible_float x : visible (FormatFloat x).
Proof.
  destruct x as [s|s| |s m e]; cbn [FormatFloat]; unfold sign_str; [auto 10 with visible..|].
  cbv zeta. destruct (shortest _ _ _ _ _ _ _ _) as [d q]. destruct (strip_zeros _ _ _) as [d' q']. auto 10 with visible.
Qed.

Lemma visible_exponent s m e : visible (exponent_form s m e).
Proof.
  unfold exponent_form, sign_str. cbv zeta. destruct (shortest _ _ _ _ _ _ _ _) as [d q].
  destruct (strip_all _ _ _) as [d' q']. auto 20 with visible.
Qed.
#[export] Hint Resolve visible_float visible_exponent : visible.

(** Induction over a string one character at a time, the way the writers walk it. *)
Lemma utf8_walk (P : str -> Prop) :
  P [] ->
  (forall a t, b2z a < 128 -> P t -> P (a :: t)) ->
  (forall a, 128 <= b2z a -> P [a]) ->
  (forall a b t, 128 <= b2z a -> utf8_2 a b = true -> P t -> P (a :: b :: t)) ->
  (forall a b, 128 <= b2z a -> utf8_2 a b = false -> P [b] -> P [a; b]) ->
  (forall a b c t, 128 <= b2z a -> utf8_2 a b = false -> utf8_3 a b c = true -> P t -> P (a :: b :: c :: t)) ->
  (forall a b c, 128 <= b2z a -> utf8_2 a b = false -> utf8_3 a b c = false -> P [b; c] -> P [a; b; c]) ->
  (forall a b c d t, 128 <= b2z a -> utf8_2 a b = false -> utf8_3 a b c = false -> utf8_4 a b c d = true -> P t ->
     P (a :: b :: c :: d :: t)) ->
  (forall a b c d t, 128 <= b2z a -> utf8_2 a b = false -> utf8_3 a b c = false -> utf8_4 a b c d = false ->
     P (b :: c :: d :: t) -> P (a :: b :: c :: d :: t)) ->
  forall s, P s.
Proof.
  intros H0 H1 Hb1 H2 Hb2 H3 Hb3 H4 Hb4. refine (induction_ltof1 _ length _ _). intros s IH.
  assert (forall t, (length t < length s)%nat -> P t) as IH' by (intros t Ht; by apply IH). clear IH.
  destruct s as [|a r1]; [done|]. destruct (Z.lt_ge_cases (b2z a) 128) as [Ha|Ha]; [apply H1; [done|apply IH'; simpl; lia]|].
  destruct r1 as [|b r2]; [by apply Hb1|].
  destruct (utf8_2 a b) eqn:E2; [apply H2; [done..|apply IH'; simpl; lia]|].
  destruct r2 as [|c r3]; [apply Hb2; [done..|apply IH'; simpl; lia]|].
  destruct (utf8_3 a b c) eqn:E3; [apply H3; [done..|apply IH'; simpl; lia]|].
  destruct r3 as [|d r4]; [apply Hb3; [done..|apply IH'; simpl; lia]|].
  destruct (utf8_4 a b c d) eqn:E4; [apply H4|apply Hb4]; try done; apply IH'; simpl; lia.
Qed.

Lemma b2z_ltb_high a : 128 <= b2z a -> (b2z a <? 128) = false.
Proof. intros H. by apply Z.ltb_ge. Qed.

(** Reading inverts writing; an invalid byte was written as U+FFFD. *)
Lemma json_read_body s rest : json_read (json_body s ++ x22 :: rest) = Some (runes s, rest).
Proof.
  induction s using utf8_walk; cbn [json_body runes]; [done| |rewrite b2z_ltb_high by done..].
  - rewrite (proj2 (Z.ltb_lt _ _)) by done. by rewrite <- app_assoc, json_read_ascii, IHs.
  - done.
  - rewrite H0, <- app_assoc, json_read_rune; [by rewrite IHs|by apply utf8_2_high|by apply json_read_2].
  - rewrite H0. exact (f_equal (add_rune RuneError) IHs).
  - rewrite H0, H1, <- app_assoc, json_read_rune; [by rewrite IHs|by eapply utf8_3_high|by apply json_read_3].
  - rewrite H0, H1. exact (f_equal (add_rune RuneError) IHs).
  - rewrite H0, H1, H2, <- app_assoc, json_read_rune; [by rewrite IHs|by eapply utf8_4_high|by apply json_read_4].
  - rewrite H0, H1, H2. exact (f_equal (add_rune RuneError) IHs).
Qed.

Lemma is_cont_high b : is_cont b = true -> 128 <= b2z b.
Proof. unfold is_cont, in_range. intros H. bool_to_prop. lia. Qed.

Lemma utf8_2_visible a b : utf8_2 a b = true -> visible [a; b].
Proof.
  intros H. destruct (utf8_2_high a b H) as [_ Ha]. apply andb_true_iff in H as [_ Hb%is_cont_high].
  repeat constructor; lia.
Qed.

(** The second byte of a longer sequence is above ASCII too. *)
Lemma in_range_high lo hi b : 128 <= lo -> in_range lo hi b = true -> 128 <= b2z b.
Proof. unfold in_range. intros Hl H. bool_to_prop. lia. Qed.

Lemma utf8_3_visible a b c : utf8_3 a b c = true -> visible [a; b; c].
Proof.
  intros H. destruct (utf8_3_high a b c H) as [_ Ha]. apply andb_true_iff in H as [Hc%is_cont_high H].
  assert (128 <= b2z b) as Hb.
  { repeat (apply orb_true_iff in H as [H|H]); apply andb_true_iff in H as [_ H]; by apply in_range_high in H. }
  repeat constructor; lia.
Qed.

Lemma utf8_4_visible a b c d : utf8_4 a b c d = true -> visible [a; b; c; d].
Proof.
  intros H. destruct (utf8_4_high a b c d H) as [_ Ha]. apply andb_true_iff in H as [H0 H].
  apply andb_true_iff in H0 as [Hc%is_cont_high Hd%is_cont_high].
  assert (128 <= b2z b) as Hb.
  { repeat (apply orb_true_iff in H as [H|H]); apply andb_true_iff in H as [_ H]; by apply in_range_high in H. }
  repeat constructor; lia.
Qed.
#[export] Hint Resolve utf8_2_visible utf8_3_visible utf8_4_visible : visible.

Lemma json_rune_ascii a : b2z a < 128 -> visible (json_rune (b2z a) [a]).
Proof. intros H. apply visible_spec. destruct a; first [exfalso; vm_compute in H; discriminate H | reflexivity]. Qed.

Lemma json_rune_visible r raw : 128 <= r -> visible raw -> visible (json_rune r raw).
Proof. intros H Hr. destruct (json_rune_high r raw H) as [-> | [[_ ->] | [_ ->]]]; auto with visible. Qed.

Lemma json_bad_visible : visible json_bad.
Proof. unfold json_bad. auto with visible. Qed.
#[export] Hint Resolve json_bad_visible : visible.

Lemma json_body_visible s : visible (json_body s).
Proof.
  induction s using utf8_walk; cbn [json_body]; [constructor| |rewrite b2z_ltb_high by done..].
  - rewrite (proj2 (Z.ltb_lt _ _)) by done. apply visible_app; [by apply json_rune_ascii|done].
  - auto with visible.
  - rewrite H0. apply visible_app; [apply json_rune_visible; [by apply utf8_2_high|auto with visible]|done].
  - rewrite H0. auto with visible.
  - rewrite H0, H1. apply visible_app; [apply json_rune_visible; [by eapply utf8_3_high|auto with visible]|done].
  - rewrite H0, H1. auto with visible.
  - rewrite H0, H1, H2. apply visible_app; [apply json_rune_visible; [by eapply utf8_4_high|auto with visible]|done].
  - rewrite H0, H1, H2. auto with visible.
Qed.

Lemma json_string_visible s : visible (json_string s).
Proof. unfold json_string. pose proof (json_body_visible s). auto with visible. Qed.
#[export] Hint Resolve json_string_visible : visible.

Lemma b2z_cont x : 32 <= b2z (z2b (128 + x mod 64)).
Proof. rewrite b2z_z2b. pose proof (Z.mod_pos_bound x 64). rewrite Z.mod_small; lia. Qed.

Lemma b2z_lead k n : 128 <= k <= 240 -> 0 <= n < 16 -> 32 <= b2z (z2b (k + n)).
Proof. intros Hk Hn. rewrite b2z_z2b, Z.mod_small; lia. Qed.

Lemma encode_rune_visible r : 128 <= r < 2097152 -> visible (encode_rune r).
Proof.
  intros H. unfold encode_rune. destruct (Z.ltb_spec r 128); [lia|].
  destruct (Z.ltb_spec r 2048); [|destruct (Z.ltb_spec r 65536)];
    (apply visible_cons; [|repeat (apply visible_cons; [apply b2z_cont|]); constructor]).
  - rewrite b2z_z2b. assert (0 <= r / 64 < 32) by (Z.to_euclidean_division_equations; lia). rewrite Z.mod_small; lia.
  - apply b2z_lead; [lia|]. Z.to_euclidean_division_equations; lia.
  - apply b2z_lead; [lia|]. Z.to_euclidean_division_equations; lia.
Qed.

Section TextFacts.

Context (isPrint : Z -> bool) (clock : Event -> Z).

Lemma quote_rune_ascii a : b2z a < 128 -> visible (quote_rune isPrint (b2z a)).
Proof. intros H. apply visible_spec. destruct a; first [exfalso; vm_compute in H; discriminate H | reflexivity]. Qed.

Lemma quote_rune_high r : 128 <= r < 2097152 -> visible (quote_rune isPrint r).
Proof.
  intros H. unfold quote_rune. rewrite !(proj2 (Z.eqb_neq r _)) by lia. cbn [orb].
  destruct (Z.leb_spec r 126); [lia|]. rewrite andb_false_r.
  destruct (_ && isPrint r); [by apply encode_rune_visible|]. auto 10 with visible.
Qed.

Lemma quote_byte_visible b : visible (quote_byte b).
Proof. unfold quote_byte. auto with visible. Qed.

Lemma mod_lt x n : 0 < n -> 0 <= x mod n <= n - 1.
Proof. intros H. pose proof (Z.mod_pos_bound x n H). lia. Qed.

Lemma quote_body_visible s : visible (quote_body isPrint s).
Proof.
  pose proof quote_byte_visible.
  induction s using utf8_walk; cbn [quote_body]; [constructor| |rewrite b2z_ltb_high by done..].
  - rewrite (proj2 (Z.ltb_lt _ _)) by done. apply visible_app; [by apply quote_rune_ascii|done].
  - auto with visible.
  - rewrite H1. apply visible_app; [apply quote_rune_high|done]. pose proof (utf8_2_high _ _ H1). lia.
  - rewrite H1. auto with visible.
  - rewrite H1, H2. apply visible_app; [apply quote_rune_high|done]. pose proof (utf8_3_high _ _ _ H2).
    pose proof (mod_lt (b2z a) 16). pose proof (mod_lt (b2z b) 64). pose proof (mod_lt (b2z c) 64). lia.
  - rewrite H1, H2. auto with visible.
  - rewrite H1, H2, H3. apply visible_app; [apply quote_rune_high|done]. pose proof (utf8_4_high _ _ _ _ H3).
    pose proof (mod_lt (b2z a) 8). pose proof (mod_lt (b2z b) 64). pose proof (mod_lt (b2z c) 64).
    pose proof (mod_lt (b2z d) 64). lia.
  - rewrite H1, H2, H3. auto with visible.
Qed.

Lemma Quote_visible s : visible (Quote isPrint s).
Proof. unfold Quote. pose proof (quote_body_visible s). auto with visible. Qed.
#[local] Hint Resolve Quote_visible : visible.

Lemma level_visible l : visible (Level_String l).
Proof. unfold Level_String. auto 10 with visible. Qed.
#[local] Hint Resolve level_visible : visible.

(** Marshalled values of other types are compact JSON. *)
Definition compact (v : value) : Prop := match v with VOther _ json => visible json | _ => True end.

Lemma json_float_visible x t : json_float x = Ok t -> visible t.
Proof.
  destruct x as [s|s| |s m e]; cbn [json_float]; [intros <-%Ok_inj; apply visible_float|discriminate|discriminate|].
  cbv zeta. case_match; intros <-%Ok_inj; auto with visible.
Qed.

Lemma json_value_visible v t : compact v -> json_value v = Ok t -> visible t.
Proof.
  intros Hc. destruct v as [|s|b|z|x|d|u|msg|text json]; cbn [json_value]; [intros [= <-]; auto with visible..| | | | |].
  - apply json_float_visible.
  - intros [= <-]; auto with visible.
  - intros [= <-]; auto with visible.
  - intros [= <-]; auto with visible.
  - by intros [= <-].
Qed.

Lemma json_members_visible a keys ms : map_Forall (fun _ => compact) a -> json_members a keys = Ok ms -> Forall visible ms.
Proof.
  intros Ha. revert ms. induction keys as [|k keys IH]; intros ms; cbn [json_members]; [intros [= <-]; constructor|].
  intros (v & Hv & (rest & Hr & <-%Ok_inj)%rbind_ok)%rbind_ok. constructor; [|by apply IH].
  assert (visible v).
  { eapply json_value_visible; [|done]. destruct (a !! k) as [w|] eqn:E; [by apply (Ha k)|done]. }
  auto with visible.
Qed.

Lemma json_object_visible ms : Forall visible ms -> visible (json_object ms).
Proof. intros H. unfold json_object. auto 10 with visible. Qed.

Lemma jsonAttrs_compact a : map_Forall (fun _ => compact) a -> map_Forall (fun _ => compact) (jsonAttrs a).
Proof.
  intros H k v. unfold jsonAttrs. rewrite lookup_fmap. intros (w & Hw & ->)%fmap_Some.
  specialize (H k w Hw). by destruct w.
Qed.

Lemma member_visible key v : visible (json_string (lit key)) -> visible v -> visible (member key v).
Proof. intros Hk Hv. unfold member. auto with visible. Qed.

Lemma quoted_member_visible key v : visible (lit key) -> visible (quoted_member isPrint key v).
Proof. intros Hk. unfold quoted_member. auto 10 with visible. Qed.

(** Whatever its texts, an event is one line of JSON. *)
Lemma formatJSON_visible ev : map_Forall (fun _ => compact) (ev_Attrs ev) -> visible (formatJSON isPrint clock ev).
Proof.
  intros Ha. unfold formatJSON. cbv zeta. destruct (json_record _ ev) as [data|err] eqn:E.
  - revert E. unfold json_record. intros (a & Hm & <-%Ok_inj)%rbind_ok. apply json_object_visible.
    assert (Forall visible a) as Hv.
    { revert Hm. case_bool_decide; [intros <-%Ok_inj; constructor|].
      intros (m & (ms & Hms & <-%Ok_inj)%rbind_ok & <-%Ok_inj)%rbind_ok. constructor; [|constructor].
      apply member_visible; [auto with visible|]. apply json_object_visible.
      eapply json_members_visible; [|done]. by apply jsonAttrs_compact. }
    do 3 (apply Forall_cons; split; [apply member_visible; auto with visible|]).
    apply Forall_app. split; [|done]. clear Hm. case_bool_decide; [constructor|]. constructor; [|constructor].
    apply member_visible; auto with visible.
  - apply visible_app; [auto with visible|]. apply visible_app; [|auto with visible].
    apply visible_join; [auto with visible|].
    do 5 (apply Forall_cons; split; [apply quoted_member_visible; auto with visible|]). constructor.
Qed.

End TextFacts.

(** ** Destinations: [io.Writer] and [bufio.Writer] *)

(** What has reached the destination; a write reports how many bytes it took
    and whether it failed. *)
Class Writer (W : Type) := {
  w_bytes : W -> str;
  w_write : str -> W -> nat * bool * W;
  w_close : W -> bool * W
}.

(** The contract documented for [io.Writer]. *)
Class WriterLaws (W : Type) `{Writer W} := {
  w_write_bytes s w n err w' : w_write s w = (n, err, w') ->
    (n <= length s)%nat /\ w_bytes w' = w_bytes w ++ take n s /\ ((n < length s)%nat -> err = true);
  w_close_bytes w : w_bytes (w_close w).2 = w_bytes w
}.

Record bufWriter (W : Type) := mkBufWriter {
  bw_size : nat;
  bw_buf : str;
  bw_err : bool;
  bw_stringWriter : bool;
  bw_dst : W
}.
Arguments mkBufWriter {W} _ _ _ _ _.
Arguments bw_size {W} _.
Arguments bw_buf {W} _.
Arguments bw_err {W} _.
Arguments bw_stringWriter {W} _.
Arguments bw_dst {W} _.

Section Bufio.

Context {W : Type} `{Writer W}.

Definition NewWriterSize (w : W) (stringWriter : bool) (size : nat) : bufWriter W :=
  mkBufWriter size [] false stringWriter w.

Definition Available (b : bufWriter W) : nat := (bw_size b - length (bw_buf b))%nat.

Definition with_buf (b : bufWriter W) (buf : str) : bufWriter W :=
  mkBufWriter (bw_size b) buf (bw_err b) (bw_stringWriter b) (bw_dst b).

(** The methods of [bufio.Writer]; the first component says that they fail. *)
Definition bw_Flush (b : bufWriter W) : bool * bufWriter W :=
  if bw_err b then (true, b)
  else if bool_decide (bw_buf b = []) then (false, b)
  else
    let '(n, err, w) := w_write (bw_buf b) (bw_dst b) in
    if err || (n <? length (bw_buf b))%nat
    then (true, mkBufWriter (bw_size b) (drop n (bw_buf b)) true (bw_stringWriter b) w)
    else (false, mkBufWriter (bw_size b) [] false (bw_stringWriter b) w).

Fixpoint writeString_loop (fuel : nat) (s : str) (b : bufWriter W) : str * bufWriter W :=
  match fuel with
  | O => (s, b)
  | S fuel =>
    if (Available b <? length s)%nat && negb (bw_err b) then
      if bool_decide (bw_buf b = []) && bw_stringWriter b then
        let '(n, err, w) := w_write s (bw_dst b) in
        writeString_loop fuel (drop n s) (mkBufWriter (bw_size b) [] err (bw_stringWriter b) w)
      else
        let n := Available b in
        let '(_, b) := bw_Flush (with_buf b (bw_buf b ++ take n s)) in
        writeString_loop fuel (drop n s) b
    else (s, b)
  end.

Definition bw_WriteString (s : str) (b : bufWriter W) : bool * bufWriter W :=
  let '(s, b) := writeString_loop (2 + length s) s b in
  if bw_err b then (true, b) else (false, with_buf b (bw_buf b ++ s)).

Definition bw_WriteByte (c : byte) (b : bufWriter W) : bool * bufWriter W :=
  if bw_err b then (true, b)
  else
    let '(failed, b) := if (Available b =? 0)%nat then bw_Flush b else (false, b) in
    if failed then (true, b) else (false, with_buf b (bw_buf b ++ [c])).

(** What was handed over and what waits. *)
Definition bw_text (b : bufWriter W) : str := w_bytes (bw_dst b) ++ bw_buf b.

Definition bw_wf (b : bufWriter W) : Prop := (0 < bw_size b)%nat /\ (length (bw_buf b) <= bw_size b)%nat.

Context `{!WriterLaws W}.

Lemma bw_Flush_spec b failed b' : bw_wf b -> bw_Flush b = (failed, b') ->
  bw_wf b' /\ bw_text b' = bw_text b /\ bw_err b' = failed /\ bw_size b' = bw_size b
  /\ (failed = false -> bw_buf b' = []) /\ (bw_err b = true -> b' = b).
Proof.
  intros [Hs Hl]. unfold bw_Flush. destruct (bw_err b) eqn:Ee; [by intros [= <- <-]|].
  case_bool_decide as Eb; [by intros [= <- <-]|].
  destruct (w_write (bw_buf b) (bw_dst b)) as [[n err] w] eqn:Ew.
  destruct (w_write_bytes _ _ _ _ _ Ew) as (Hn & Hb & Hx). destruct (err || _) eqn:E; intros [= <- <-]; cbn.
  - split; [split; cbn; [done|rewrite length_drop; lia]|]. split; [|done].
    unfold bw_text. cbn. by rewrite Hb, <- app_assoc, take_drop.
  - apply orb_false_iff in E as [-> E%Nat.ltb_ge]. split; [split; cbn; lia|]. split; [|done].
    unfold bw_text. cbn. by rewrite Hb, app_nil_r, take_ge by lia.
Qed.

Lemma writeString_loop_spec fuel s b s' b' : bw_wf b ->
  (bw_err b = false -> length s + (if Available b =? 0 then 1 else 0) <= fuel)%nat ->
  writeString_loop fuel s b = (s', b') ->
  bw_wf b' /\ bw_text b' ++ s' = bw_text b ++ s /\ (bw_err b' = false -> (length s' <= Available b')%nat)
  /\ (bw_err b = true -> b' = b).
Proof.
  revert s b. induction fuel as [|fuel IH]; intros s b Hw Hf.
  { intros [= <- <-]. split; [done|]. split; [done|]. split; [intros He; specialize (Hf He); lia|done]. }
  cbn [writeString_loop]. destruct (_ && negb (bw_err b)) eqn:E.
  2:{ intros [= <- <-]. split; [done|]. split; [done|]. split; [|done]. intros He. rewrite He in E.
      rewrite andb_true_r in E. by apply Nat.ltb_ge in E. }
  apply andb_true_iff in E as [E%Nat.ltb_lt Ee%negb_true_iff]. specialize (Hf Ee).
  destruct (bool_decide _ && _) eqn:Ed.
  - apply andb_true_iff in Ed as [Eb%bool_decide_eq_true _]. destruct Hw as [Hs Hl].
    destruct (w_write s (bw_dst b)) as [[n err] w] eqn:Ew. destruct (w_write_bytes _ _ _ _ _ Ew) as (Hn & Hb & Hx).
    intros Hloop. apply IH in Hloop as (I1 & I2 & I3 & I4); [| by split; cbn; lia |].
    + split; [done|]. split; [|split; [done|by rewrite Ee]].
      rewrite I2. unfold bw_text. cbn. by rewrite Hb, Eb, !app_nil_r, <- app_assoc, take_drop.
    + cbn. intros ->. rewrite length_drop. unfold Available. cbn. rewrite Nat.sub_0_r.
      destruct (Nat.eqb_spec (bw_size b) 0); [lia|].
      destruct (Nat.lt_ge_cases n (length s)) as [Hlt|]; [by apply Hx in Hlt|lia].
  - destruct (bw_Flush _) as [failed b1] eqn:Ef. apply bw_Flush_spec in Ef as (F1 & F2 & F3 & F4 & F5 & _).
    2:{ destruct Hw as [Hs Hl]. unfold Available in *. split; cbn; [done|]. rewrite length_app, length_take. lia. }
    intros Hloop. apply IH in Hloop as (I1 & I2 & I3 & I4); [|done|].
    + split; [done|]. split; [|split; [done|by rewrite Ee]].
      rewrite I2, F2. unfold bw_text. cbn. by rewrite <- !app_assoc, take_drop.
    + intros He. rewrite F3 in He. unfold Available. rewrite (F5 He), F4, length_drop. cbn.
      rewrite Nat.sub_0_r. destruct Hw as [Hs Hl]. destruct (Nat.eqb_spec (bw_size b) 0); [lia|].
      destruct (Nat.eqb_spec (Available b) 0) as [E0|E0]; unfold Available in *; lia.
Qed.

(** After a call: everything written so far, or a failure that sticks and a
    beginning of it. *)
Lemma bw_WriteString_spec s b failed b' : bw_wf b -> bw_WriteString s b = (failed, b') ->
  bw_wf b' /\ bw_err b' = failed /\ (failed = false -> bw_text b' = bw_text b ++ s)
  /\ bw_text b' `prefix_of` bw_text b ++ s /\ (bw_err b = true -> b' = b).
Proof.
  intros Hw. unfold bw_WriteString. destruct (writeString_loop _ s b) as [s' b1] eqn:E.
  apply writeString_loop_spec in E as (I1 & I2 & I3 & I4); [|done|intros _; destruct (_ =? _)%nat; lia].
  destruct (bw_err b1) eqn:Ee; intros [= <- <-].
  - repeat split; try done; try apply I1. exists s'. by rewrite I2.
  - assert (bw_text (with_buf b1 (bw_buf b1 ++ s')) = bw_text b ++ s) as Ht.
    { rewrite <- I2. unfold bw_text. cbn. by rewrite app_assoc. }
    repeat split; cbn; try done; try apply I1.
    + rewrite length_app. specialize (I3 eq_refl). unfold Available in I3. destruct I1. lia.
    + by rewrite Ht.
    + intros He. specialize (I4 He). subst b1. congruence.
Qed.

Lemma bw_WriteByte_spec c b failed b' : bw_wf b -> bw_WriteByte c b = (failed, b') ->
  bw_wf b' /\ bw_err b' = failed /\ (failed = false -> bw_text b' = bw_text b ++ [c])
  /\ bw_text b' `prefix_of` bw_text b ++ [c] /\ (bw_err b = true -> b' = b).
Proof.
  intros Hw. unfold bw_WriteByte. destruct (bw_err b) eqn:Ee.
  { intros [= <- <-]. repeat split; try done; try apply Hw. by apply prefix_app_r. }
  destruct (if (Available b =? 0)%nat then bw_Flush b else (false, b)) as [f b1] eqn:Ef.
  assert (bw_wf b1 /\ bw_text b1 = bw_text b /\ bw_err b1 = f /\ (f = false -> (0 < Available b1)%nat)) as (W1 & T1 & E1 & A1).
  { destruct (Nat.eqb_spec (Available b) 0) as [E0|E0].
    - apply bw_Flush_spec in Ef as (F1 & F2 & F3 & F4 & F5 & _); [|done]. repeat split; try done; try apply F1.
      intros Hf. unfold Available. rewrite (F5 Hf), F4. destruct Hw. cbn. lia.
    - injection Ef as <- <-. repeat split; try done; try apply Hw. intros _. lia. }
  destruct f; intros [= <- <-].
  - repeat split; try done; try apply W1. rewrite T1. by apply prefix_app_r.
  - assert (bw_text (with_buf b1 (bw_buf b1 ++ [c])) = bw_text b ++ [c]) as Ht.
    { rewrite <- T1. unfold bw_text. cbn. by rewrite app_assoc. }
    repeat split; cbn; try done; try apply W1; [|by rewrite Ht].
    specialize (A1 eq_refl). unfold Available in A1. rewrite length_app. cbn. lia.
Qed.

End Bufio.

(** ** Sinks *)

Record writerSink (W : Type) := mkWriterSink {
  ws_bw : bufWriter W;
  ws_closer : bool;
  ws_format : Event -> str;
  ws_resource : attrs
}.
Arguments mkWriterSink {W} _ _ _ _.
Arguments ws_bw {W} _.
Arguments ws_closer {W} _.
Arguments ws_format {W} _ _.
Arguments ws_resource {W} _.

Inductive Sink (W : Type) :=
  | WriterSink (s : writerSink W)
  | MemorySink (events : list Event).
Arguments WriterSink {W} _.
Arguments MemorySink {W} _.

Section Sinks.

Context {W : Type} `{Writer W}.

(** [os.File] and [os.Stderr] have a [WriteString] method. *)
Definition newWriterSink (w : W) (closer : bool) (format : Event -> str) (resource : attrs) : writerSink W :=
  mkWriterSink (NewWriterSize w true (Z.to_nat (16 * 1024))) closer format (cloneAttrs resource).

Definition with_bw (s : writerSink W) (b : bufWriter W) : writerSink W :=
  mkWriterSink b (ws_closer s) (ws_format s) (ws_resource s).

Fixpoint writerSink_Write (s : writerSink W) (events : list Event) : bool * writerSink W :=
  match events with
  | [] => (false, s)
  | ev :: events =>
    let ev := withResource ev (ws_resource s) in
    let '(failed, b) := bw_WriteString (ws_format s ev) (ws_bw s) in
    if failed then (true, with_bw s b)
    else
      let '(failed, b) := bw_WriteByte x0a b in
      if failed then (true, with_bw s b) else writerSink_Write (with_bw s b) events
  end.

Definition writerSink_Flush (s : writerSink W) : bool * writerSink W :=
  let '(failed, b) := bw_Flush (ws_bw s) in (failed, with_bw s b).

Definition close_dst (b : bufWriter W) : bool * bufWriter W :=
  let '(failed, w) := w_close (bw_dst b) in
  (failed, mkBufWriter (bw_size b) (bw_buf b) (bw_err b) (bw_stringWriter b) w).

Definition writerSink_Close (s : writerSink W) : bool * writerSink W :=
  let '(flushErr, b) := bw_Flush (ws_bw s) in
  if ws_closer s then
    let '(closeErr, b) := close_dst b in ((if flushErr then true else closeErr), with_bw s b)
  else (flushErr, with_bw s b).

(** [memorySink.Write] stores copies. *)
Definition copy_event (ev : Event) : Event :=
  mkEvent (ev_Time ev) (ev_Level ev) (ev_Kind ev) (ev_Msg ev) (cloneAttrs (ev_Attrs ev)).

Definition Sink_Write (events : list Event) (s : Sink W) : bool * Sink W :=
  match s with
  | WriterSink s => let '(failed, s) := writerSink_Write s events in (failed, WriterSink s)
  | MemorySink old => (false, MemorySink (old ++ map copy_event events))
  end.

Definition Sink_Flush (s : Sink W) : bool * Sink W :=
  match s with
  | WriterSink s => let '(failed, s) := writerSink_Flush s in (failed, WriterSink s)
  | MemorySink old => (false, s)
  end.

Definition Sink_Close (s : Sink W) : bool * Sink W :=
  match s with
  | WriterSink s => let '(failed, s) := writerSink_Close s in (failed, WriterSink s)
  | MemorySink old => (false, s)
  end.

(** The line a sink writes for an event. *)
Definition sink_line (s : writerSink W) (ev : Event) : str := ws_format s (withResource ev (ws_resource s)) ++ [x0a].

(** A sink that started as [s0] and was given [evs]: it holds them, or a writer
    failed and it holds a beginning of their text. *)
Definition sink_got (evs : list Event) (s0 s : Sink W) : Prop :=
  match s0, s with
  | WriterSink a, WriterSink b =>
    ws_closer b = ws_closer a /\ ws_format b = ws_format a /\ ws_resource b = ws_resource a /\ bw_wf (ws_bw b)
    /\ bw_text (ws_bw b) `prefix_of` bw_text (ws_bw a) ++ flat_map (sink_line a) evs
    /\ (bw_err (ws_bw b) = false -> bw_text (ws_bw b) = bw_text (ws_bw a) ++ flat_map (sink_line a) evs)
  | MemorySink a, MemorySink b => b = a ++ evs
  | _, _ => False
  end.

Context `{!WriterLaws W}.

Lemma copy_event_id ev : copy_event ev = ev.
Proof. destruct ev. unfold copy_event, cloneAttrs. cbn. by rewrite copy_attrs_union, map_union_empty. Qed.

(** One more piece of text: written, or refused for good. *)
Lemma text_step (t0 done piece : str) (b b' : bufWriter W) :
  bw_text b `prefix_of` t0 ++ done -> (bw_err b = false -> bw_text b = t0 ++ done) ->
  bw_text b' `prefix_of` bw_text b ++ piece -> (bw_err b' = false -> bw_text b' = bw_text b ++ piece) ->
  (bw_err b = true -> b' = b) ->
  bw_text b' `prefix_of` t0 ++ done ++ piece /\ (bw_err b' = false -> bw_text b' = t0 ++ done ++ piece).
Proof.
  intros Hp He Hp' He' Hst. destruct (bw_err b) eqn:E.
  - rewrite (Hst eq_refl), E. split; [|done]. rewrite app_assoc. by apply prefix_app_r.
  - rewrite (He eq_refl), <- app_assoc in Hp'. split; [done|]. intros E'. by rewrite He', (He eq_refl), app_assoc.
Qed.

Lemma writerSink_Write_spec s events failed s' : bw_wf (ws_bw s) -> writerSink_Write s events = (failed, s') ->
  sink_got events (WriterSink s) (WriterSink s') /\ (bw_err (ws_bw s) = true -> s' = s).
Proof.
  revert s. induction events as [|ev events IH]; intros s Hw; cbn [writerSink_Write].
  { intros [= <- <-]. split; [|done]. cbn. rewrite app_nil_r. repeat split; try done; apply Hw. }
  cbv zeta. destruct (bw_WriteString _ _) as [f1 b1] eqn:E1.
  apply bw_WriteString_spec in E1 as (W1 & F1 & T1 & P1 & S1); [|done].
  assert (forall b : bufWriter W, bw_wf b -> bw_err b = true -> bw_text b `prefix_of` bw_text (ws_bw s) ++ sink_line s ev ->
    sink_got (ev :: events) (WriterSink s) (WriterSink (with_bw s b))) as Hbad.
  { intros b Hb Hbe Hbt. cbn. repeat split; try done; try apply Hb; [|congruence].
    rewrite app_assoc. by apply prefix_app_r. }
  destruct f1.
  { intros [= <- <-]. split.
    - apply Hbad; [done..|]. unfold sink_line. rewrite app_assoc. by apply prefix_app_r.
    - intros E. rewrite (S1 E). by destruct s. }
  specialize (T1 eq_refl). destruct (bw_WriteByte _ _) as [f2 b2] eqn:E2.
  apply bw_WriteByte_spec in E2 as (W2 & F2 & T2 & P2 & S2); [|done].
  assert (bw_err (ws_bw s) = false) as E0.
  { destruct (bw_err (ws_bw s)) eqn:E0; [|done]. rewrite (S1 eq_refl) in F1. congruence. }
  rewrite E0. destruct f2.
  { intros [= <- <-]. split; [|done]. apply Hbad; [done..|]. unfold sink_line. by rewrite app_assoc, <- T1. }
  specialize (T2 eq_refl). intros Hrest. apply IH in Hrest as [I _]; [|done]. split; [|done].
  cbn in I. destruct I as (I1 & I2 & I3 & I4 & I5 & I6).
  assert (bw_text b2 = bw_text (ws_bw s) ++ sink_line s ev) as Hline by (unfold sink_line; by rewrite T2, T1, <- app_assoc).
  cbn. repeat split; try done; try apply I4.
  - rewrite app_assoc, <- Hline. exact I5.
  - intros E. rewrite app_assoc, <- Hline. by apply I6.
Qed.

Lemma sink_got_write evs0 s0 s events : sink_got evs0 s0 s ->
  sink_got (evs0 ++ events) s0 (Sink_Write events s).2.
Proof.
  destruct s0 as [a|a], s as [b|b]; cbn; try done.
  - intros (C & F & R & Wf & P & E). destruct (writerSink_Write b events) as [failed b'] eqn:Ew.
    apply writerSink_Write_spec in Ew as [(C' & F' & R' & Wf' & P' & E') S]; [|done]. cbn.
    assert (flat_map (sink_line b) events = flat_map (sink_line a) events) as Hl.
    { apply flat_map_ext. intros ev. unfold sink_line. by rewrite F, R. }
    rewrite Hl in P', E'. rewrite C', F', R', flat_map_app. repeat split; try done; try apply Wf'.
    + eapply text_step; [exact P|exact E|exact P'|exact E'|]. intros He. by rewrite (S He).
    + eapply text_step; [exact P|exact E|exact P'|exact E'|]. intros He. by rewrite (S He).
  - intros ->. rewrite <- app_assoc. do 2 f_equal. rewrite <- (list_fmap_id events) at 2.
    apply map_ext. intros ev. apply copy_event_id.
Qed.

Lemma sink_got_flush evs s0 s : sink_got evs s0 s -> sink_got evs s0 (Sink_Flush s).2.
Proof.
  destruct s0 as [a|a], s as [b|b]; cbn; try done.
  intros (C & F & R & Wf & P & E). unfold writerSink_Flush. destruct (bw_Flush (ws_bw b)) as [failed b'] eqn:Ef.
  apply bw_Flush_spec in Ef as (W1 & T1 & E1 & _ & _ & S1); [|done]. cbn. rewrite T1.
  repeat split; try done; try apply W1. intros He. apply E. destruct (bw_err (ws_bw b)) eqn:Eb; [|done].
  rewrite (S1 eq_refl) in He. congruence.
Qed.

End Sinks.

(** ** The logger *)

(** What the engine holds: the logger itself, or one with bound attributes. *)
Inductive handle :=
  | BaseLogger
  | BoundLogger (bound : attrs).

Definition With (h : handle) (a : attrs) : handle :=
  if bool_decide (a = ∅) then h
  else match h with
       | BaseLogger => BoundLogger (cloneAttrs a)
       | BoundLogger bound => BoundLogger (MergeAttrs bound a)
       end.

Definition with_attrs (ev : Event) (a : attrs) : Event := mkEvent (ev_Time ev) (ev_Level ev) (ev_Kind ev) (ev_Msg ev) a.

(** The event [Emit] of a handle passes to the logger. *)
Definition bind_event (h : handle) (ev : Event) : Event :=
  match h with
  | BaseLogger => ev
  | BoundLogger bound => if bool_decide (bound = ∅) then ev else with_attrs ev (MergeAttrs bound (ev_Attrs ev))
  end.

Record logger (W : Type) := mkLogger {
  l_ring : ringBuffer Event;
  l_sinks : list (Sink W);
  l_minLevel : Z;
  l_done : bool;
  l_batch : nat;
  l_closed : bool
}.
Arguments mkLogger {W} _ _ _ _ _ _.
Arguments l_ring {W} _.
Arguments l_sinks {W} _.
Arguments l_minLevel {W} _.
Arguments l_done {W} _.
Arguments l_batch {W} _.
Arguments l_closed {W} _.

Section Logger.

Context {W : Type} `{Writer W}.

(** [New]; [None] is the logger that discards everything. *)
Definition New (bufferSize minLevel batchSize : Z) (sinks : list (Sink W)) : option (logger W) :=
  if bool_decide (sinks = []) then None
  else
    let bufferSize := if bufferSize <=? 0 then 16 * 1024 else bufferSize in
    let batchSize := if batchSize <=? 0 then 256 else batchSize in
    let batchSize := if bufferSize <? batchSize then bufferSize else batchSize in
    Some (mkLogger (newRingBuffer zeroEvent bufferSize) sinks minLevel false (Z.to_nat batchSize) false).

Definition with_ring (l : logger W) (r : ringBuffer Event) : logger W :=
  mkLogger r (l_sinks l) (l_minLevel l) (l_done l) (l_batch l) (l_closed l).

(** [Emit] up to the push: the event to push, if any. *)
Definition Emit_check (l : logger W) (now : Z) (ev : Event) : option Event :=
  if l_closed l then None
  else if ev_Level ev <? l_minLevel l then None
  else Some (mkEvent (Some (default now (ev_Time ev))) (ev_Level ev) (ev_Kind ev) (ev_Msg ev) (ev_Attrs ev)).

Definition Emit_push (l : logger W) (ev : Event) : logger W := with_ring l (push ev (l_ring l)).

Definition write_all (events : list Event) (sinks : list (Sink W)) : list (Sink W) :=
  map (fun s => (Sink_Write events s).2) sinks.
Definition flush_all (sinks : list (Sink W)) : list (Sink W) := map (fun s => (Sink_Flush s).2) sinks.

(** One round of [drainLoop]; [None] while [drain] blocks. *)
Definition drainRound (l : logger W) : option (logger W) :=
  if l_done l then None
  else
    match drain zeroEvent (l_batch l) (l_ring l) with
    | None => None
    | Some (buf, ok, r) =>
      let sinks :=
        if bool_decide (buf = []) then l_sinks l
        else
          let sinks := write_all buf (l_sinks l) in
          if (length buf <? l_batch l)%nat then flush_all sinks else sinks in
      Some (if ok then mkLogger r sinks (l_minLevel l) false (l_batch l) (l_closed l)
            else mkLogger r (flush_all sinks) (l_minLevel l) true (l_batch l) (l_closed l))
    end.

Definition Close_ring (l : logger W) : logger W := with_ring l (close (l_ring l)).

(** The loop of [Close] over the sinks; [true] when an error was collected. *)
Definition close_sink (s : Sink W) : bool * Sink W :=
  let '(e1, s) := Sink_Flush s in
  let '(e2, s) := Sink_Close s in
  (e1 || e2, s).

Definition Close_sinks (l : logger W) : bool * logger W :=
  let closed := map close_sink (l_sinks l) in
  (existsb fst closed,
   mkLogger (l_ring l) (map snd closed) (l_minLevel l) (l_done l) (l_batch l) (l_closed l)).

Definition Dropped (l : logger W) : Z := rb_dropped (l_ring l).

(** *** Interleavings *)

(** Where the call of [Close] that won the flag stands. *)
Inductive closer :=
  | NotClosing
  | BeforeRing
  | Waiting
  | Returned (failed : bool).

(** The logger, the events of [Emit] calls that have passed the check, the
    closer, and for the statements the events the ring accepted and those it
    refused because it was closed. *)
Record world := mkWorld {
  w_log : logger W;
  w_pending : list Event;
  w_closer : closer;
  w_accepted : list Event;
  w_late : list Event
}.

Inductive step : world -> world -> Prop :=
  | step_check l p c acc late h now ev ev' :
      Emit_check l now (bind_event h ev) = Some ev' ->
      step (mkWorld l p c acc late) (mkWorld l (p ++ [ev']) c acc late)
  | step_push l p1 ev p2 c acc late :
      step (mkWorld l (p1 ++ ev :: p2) c acc late)
        (mkWorld (Emit_push l ev) (p1 ++ p2) c
           (if rb_closed (l_ring l) then acc else acc ++ [ev])
           (if rb_closed (l_ring l) then late ++ [ev] else late))
  | step_drain l l' p c acc late :
      drainRound l = Some l' -> step (mkWorld l p c acc late) (mkWorld l' p c acc late)
  | step_flag l p acc late :
      l_closed l = false ->
      step (mkWorld l p NotClosing acc late)
        (mkWorld (mkLogger (l_ring l) (l_sinks l) (l_minLevel l) (l_done l) (l_batch l) true) p BeforeRing acc late)
  | step_close_ring l p acc late :
      step (mkWorld l p BeforeRing acc late) (mkWorld (Close_ring l) p Waiting acc late)
  | step_close_sinks l p acc late failed l' :
      l_done l = true -> Close_sinks l = (failed, l') ->
      step (mkWorld l p Waiting acc late) (mkWorld l' p (Returned failed) acc late).

Definition start (l : logger W) : world := mkWorld l [] NotClosing [] [].

Definition reachable (l : logger W) (w : world) : Prop := rtc step (start l) w.

(** *** The invariant *)

Definition returned (c : closer) : bool := match c with Returned _ => true | _ => false end.
Definition ring_closed (c : closer) : bool := match c with Waiting | Returned _ => true | _ => false end.

Context `{!WriterLaws W}.

Record log_inv (l0 : logger W) (w : world) (got : list Event) (lost : nat) : Prop := {
  li_ring : ring_wf (l_ring (w_log w));
  li_order : in_order (w_accepted w) got (contents zeroEvent (l_ring (w_log w))) lost;
  li_dropped : Dropped (w_log w) = u64 (Z.of_nat lost);
  li_batch : (0 < l_batch (w_log w))%nat;
  li_sinks : Forall2 (sink_got got) (l_sinks l0) (l_sinks (w_log w));
  li_closed : rb_closed (l_ring (w_log w)) = ring_closed (w_closer w);
  li_done : l_done (w_log w) = true -> rb_size (l_ring (w_log w)) = 0%nat /\ rb_closed (l_ring (w_log w)) = true;
  li_returned : returned (w_closer w) = true -> l_done (w_log w) = true;
  li_complete : w_closer w = Returned false ->
    Forall (fun s => match s with WriterSink s => bw_buf (ws_bw s) = [] /\ bw_err (ws_bw s) = false | _ => True end)
      (l_sinks (w_log w))
}.

Lemma sinks_write got s0 s events : Forall2 (sink_got got) s0 s -> Forall2 (sink_got (got ++ events)) s0 (write_all events s).
Proof. intros Hs. apply Forall2_fmap_r. eapply Forall2_impl; [exact Hs|]. intros a b. apply sink_got_write. Qed.

Lemma sinks_flush got s0 s : Forall2 (sink_got got) s0 s -> Forall2 (sink_got got) s0 (flush_all s).
Proof. intros Hs. apply Forall2_fmap_r. eapply Forall2_impl; [exact Hs|]. intros a b. apply sink_got_flush. Qed.

(** The sinks after a round of [drainLoop]. *)
Lemma sinks_round got s0 s buf batch : Forall2 (sink_got got) s0 s ->
  Forall2 (sink_got (got ++ buf)) s0
    (if bool_decide (buf = []) then s
     else if (length buf <? batch)%nat then flush_all (write_all buf s) else write_all buf s).
Proof.
  intros Hs. case_bool_decide as Eb; [by rewrite Eb, app_nil_r|]. pose proof (sinks_write _ _ _ buf Hs).
  destruct (_ <? _)%nat; [by apply sinks_flush|done].
Qed.

(** One sink at the end of [Close]. *)
Lemma close_sink_spec got s0 s : sink_got got s0 s ->
  sink_got got s0 (close_sink s).2
  /\ ((close_sink s).1 = false ->
      match (close_sink s).2 with WriterSink s => bw_buf (ws_bw s) = [] /\ bw_err (ws_bw s) = false | _ => True end).
Proof.
  intros Hs%sink_got_flush. unfold close_sink. destruct (Sink_Flush s) as [e1 s1]. cbn in Hs.
  destruct s1 as [b|b]; cbn [Sink_Close]; [|by cbn].
  destruct s0 as [a|a]; [|done]. cbn in Hs. destruct Hs as (C & F & R & Wf & P & E).
  unfold writerSink_Close. destruct (bw_Flush (ws_bw b)) as [f b1] eqn:Ef.
  apply bw_Flush_spec in Ef as (W1 & T1 & E1 & Z1 & B1 & S1); [|done].
  assert (bw_err b1 = false -> bw_text b1 = bw_text (ws_bw a) ++ flat_map (sink_line a) got) as Ht.
  { intros He. rewrite T1. apply E. destruct (bw_err (ws_bw b)) eqn:Eb; [|done]. rewrite (S1 eq_refl) in He. congruence. }
  destruct (ws_closer b) eqn:Ec.
  - unfold close_dst. destruct (w_close (bw_dst b1)) as [g w] eqn:Eg. pose proof (w_close_bytes (bw_dst b1)) as Hc.
    rewrite Eg in Hc. cbn in Hc. cbn. unfold bw_text in *. cbn in *. rewrite Hc. split.
    + repeat split; try done; try apply W1; congruence.
    + intros [_ Hf]%orb_false_iff. destruct f; [done|]. auto.
  - cbn. split; [repeat split; try done; try apply W1; congruence|].
    intros [_ Hf]%orb_false_iff. subst f. auto.
Qed.

Lemma log_start bufferSize minLevel batchSize sinks l :
  Forall (fun s => match s with WriterSink s => bw_wf (ws_bw s) | _ => True end) sinks ->
  New bufferSize minLevel batchSize sinks = Some l -> log_inv l (start l) [] 0.
Proof.
  intros Hs. unfold New. case_bool_decide; [done|]. cbv zeta. intros [= <-].
  split; cbn; try done.
  - apply ring_new_wf.
  - destruct (Z.leb_spec bufferSize 0), (Z.leb_spec batchSize 0);
      match goal with |- context [?a <? ?b] => destruct (Z.ltb_spec a b) end; lia.
  - eapply Forall_Forall2_diag, Forall_impl; [exact Hs|]. intros [s|s] Hw; cbn; [|by rewrite app_nil_r].
    rewrite app_nil_r. repeat split; try done; apply Hw.
Qed.

Lemma log_push l0 l p1 ev p2 c acc late got lost :
  log_inv l0 (mkWorld l (p1 ++ ev :: p2) c acc late) got lost ->
  exists lost', log_inv l0 (mkWorld (Emit_push l ev) (p1 ++ p2) c (if rb_closed (l_ring l) then acc else acc ++ [ev])
    (if rb_closed (l_ring l) then late ++ [ev] else late)) got lost'.
Proof.
  intros [Hr Ho Hd Hb Hs Hc Hdn Hrt Hcp]. cbn in *. destruct (push_spec zeroEvent ev (l_ring l) Hr) as (P1 & P2 & P3).
  destruct (rb_closed (l_ring l)) eqn:Ec.
  - exists lost. assert (push ev (l_ring l) = l_ring l) as Ep by (unfold push; by rewrite Ec).
    unfold Emit_push, with_ring. rewrite Ep. split; cbn; rewrite ?Ec; done.
  - set (full := (rb_size (l_ring l) =? rb_cap (l_ring l))%nat) in *.
    exists (if full then S lost else lost). unfold Emit_push, with_ring. split; cbn; try done.
    + rewrite P2. pose proof (in_order_push acc got (contents zeroEvent (l_ring l)) lost ev full Ho) as Hp.
      destruct full eqn:Ef; apply Hp; [|done]. intros _ En. apply Nat.eqb_eq in Ef.
      pose proof (contents_length zeroEvent (l_ring l)) as Hl. rewrite En in Hl. pose proof (rw_cap _ Hr). cbn in Hl. lia.
    + unfold Dropped. cbn. rewrite P3. cbn. destruct full; [|done]. unfold Dropped in Hd. rewrite Hd. unfold u64.
      rewrite Zplus_mod_idemp_l. f_equal. lia.
    + assert (rb_closed (push ev (l_ring l)) = rb_closed (l_ring l)) as -> by apply (@eq_push_same _ _ (ring_queue zeroEvent)).
      by rewrite Ec.
    + intros Hdone. destruct (Hdn Hdone). congruence.
Qed.

Lemma log_drain l0 l l' p c acc late got lost :
  log_inv l0 (mkWorld l p c acc late) got lost -> drainRound l = Some l' ->
  exists got', log_inv l0 (mkWorld l' p c acc late) got' lost.
Proof.
  intros [Hr Ho Hd Hb Hs Hc Hdn Hrt Hcp]. cbn in *. unfold drainRound. destruct (l_done l) eqn:Edn; [done|].
  assert (returned c = false) as Hnr by (destruct (returned c); [by specialize (Hrt eq_refl)|done]).
  destruct (drain _ _ _) as [[[buf ok] r]|] eqn:E; [|done].
  apply drain_spec in E as (n & -> & C & Wr & D & Cl & K); [|done]. intros [= <-].
  exists (got ++ take n (contents zeroEvent (l_ring l))).
  pose proof (sinks_round _ _ _ (take n (contents zeroEvent (l_ring l))) (l_batch l) Hs) as Hsinks.
  destruct ok.
  - split; cbn; try done; [|by unfold Dropped; cbn; rewrite D|by rewrite Cl|by destruct c].
    rewrite C. by apply in_order_take.
  - destruct K as (-> & K1 & K2). split; cbn; try done; [|by apply sinks_flush|by destruct c].
    apply (in_order_take _ _ _ _ n) in Ho. by rewrite <- C in Ho.
Qed.

Lemma log_close_sinks l0 l l' p acc late got lost failed :
  log_inv l0 (mkWorld l p Waiting acc late) got lost -> l_done l = true -> Close_sinks l = (failed, l') ->
  log_inv l0 (mkWorld l' p (Returned failed) acc late) got lost.
Proof.
  intros [Hr Ho Hd Hb Hs Hc Hdn Hrt Hcp] Hdone [= <- <-]. cbn in *. split; cbn; try done.
  - rewrite map_map. apply Forall2_fmap_r. eapply Forall2_impl; [exact Hs|]. intros a b Hab. by apply close_sink_spec.
  - intros [= Hf]. apply Forall_fmap, Forall_fmap. revert Hf Hs. generalize (l_sinks l0). generalize (l_sinks l).
    intros ss. induction ss as [|s ss IH]; intros ss0 Hf Hs; [constructor|].
    apply Forall2_cons_inv_r in Hs as (s0 & ss0' & Hs & Hss & ->). cbn in Hf. apply orb_false_iff in Hf as [Hf Hfs].
    constructor; [by apply (close_sink_spec got s0)|by apply (IH ss0')].
Qed.

Lemma log_reachable l0 w : log_inv l0 (start l0) [] 0 -> reachable l0 w -> exists got lost, log_inv l0 w got lost.
Proof.
  intros H0 Hr. unfold reachable in Hr.
  revert w Hr. apply (rtc_ind_r (R := step) (fun w => exists got lost, log_inv l0 w got lost) (start l0)); [by eauto|].
  intros w1 w2 _ Hstep (got & lost & Hi). inv Hstep.
  - exists got, lost. by destruct Hi; split.
  - apply log_push in Hi as [lost' Hi]. eauto.
  - eapply log_drain in Hi as [got' Hi]; [|done]. eauto.
  - exists got, lost. by destruct Hi; split.
  - exists got, lost. destruct Hi as [Hr1 Ho Hd Hb Hs Hc Hdn Hrt Hcp]. cbn in *. split; cbn; try done.
    + destruct Hr1; by split.
    + intros Hdone. by destruct (Hdn Hdone).
  - exists got, lost. by eapply log_close_sinks.
Qed.

End Logger.

(** ** A destination with limited room *)

Record disk := mkDisk {
  dk_bytes : str;
  dk_room : nat
}.

#[export] Instance disk_writer : Writer disk := {
  w_bytes := dk_bytes;
  w_write s d :=
    let n := Nat.min (length s) (dk_room d) in
    (n, (n <? length s)%nat, mkDisk (dk_bytes d ++ take n s) (dk_room d - n));
  w_close d := (false, d)
}.

#[export] Program Instance disk_laws : WriterLaws disk.
Next Obligation.
  intros s w n err w'. cbn. intros [= <- <- <-]. cbn. split; [lia|]. split; [done|]. intros Hn. by apply Nat.ltb_lt.
Qed.
Next Obligation. done. Qed.

(** ** Lines *)

Lemma visible_no_newline s : visible s -> x0a ∉ s.
Proof. intros H Hin. apply (proj1 (Forall_forall _ _) H) in Hin. by vm_compute in Hin. Qed.

Lemma split_lines (lines : list str) : Forall visible lines ->
  Split (flat_map (fun line => line ++ [x0a]) lines) x0a = lines ++ [[]].
Proof.
  induction 1 as [|line lines Hl _ IH]; [done|]. cbn [flat_map app]. rewrite <- app_assoc.
  cbn [app]. rewrite Split_segment by by apply visible_no_newline. by rewrite IH.
Qed.

Lemma Forall2_and_r {A B} (P : A -> B -> Prop) (Q : B -> Prop) l k :
  Forall2 P l k -> Forall Q k -> Forall2 (fun x y => P x y /\ Q y) l k.
Proof. induction 1; inv 1; constructor; auto. Qed.

(** * Properties *)

(** The text of a sink and the room of its buffer are sound at the start. *)
Definition sink_ok {W} (s : Sink W) : Prop := match s with WriterSink s => bw_wf (ws_bw s) | MemorySink _ => True end.

(** What a destination holds of the events [got]: their text from the
    start, and when [all] is set the whole of it. *)
Definition delivered {W} `{Writer W} (all : bool) (got : list Event) (s0 s : Sink W) : Prop :=
  match s0, s with
  | WriterSink a, WriterSink b =>
    let text := bw_text (ws_bw a) ++ flat_map (sink_line a) got in
    if all then w_bytes (bw_dst (ws_bw b)) = text else w_bytes (bw_dst (ws_bw b)) `prefix_of` text
  | MemorySink a, MemorySink b => b = a ++ got
  | _, _ => False
  end.

(** C17: The event log loses nothing silently.  Whatever the interleaving of
    emitters, the drain goroutine and [Close], the events handed to the sinks
    followed by those still buffered are the events the ring accepted, in order,
    without the oldest ones it overwrote, and [Dropped] counts exactly these
    (modulo 2^64).  At every moment the file behind a sink holds a beginning of
    the text of the handed-over events, also after a failed write; once [Close]
    has returned without an error the ring is empty and every file holds the
    whole text. *)
Theorem log_delivery {W} `{WriterLaws W} bufferSize minLevel batchSize (sinks : list (Sink W)) l w :
  Forall sink_ok sinks -> New bufferSize minLevel batchSize sinks = Some l -> reachable l w ->
  exists got lost,
    got ++ contents zeroEvent (l_ring (w_log w)) `sublist_of` w_accepted w
    /\ length (w_accepted w) = (length got + length (contents zeroEvent (l_ring (w_log w))) + lost)%nat
    /\ Dropped (w_log w) = u64 (Z.of_nat lost)
    /\ Forall2 (delivered false got) sinks (l_sinks (w_log w))
    /\ (w_closer w = Returned false ->
        contents zeroEvent (l_ring (w_log w)) = [] /\ Forall2 (delivered true got) sinks (l_sinks (w_log w))).
Proof.
  intros Hok Hnew Hr. assert (l_sinks l = sinks) as El.
  { revert Hnew. unfold New. case_bool_decide; [done|]. by intros [= <-]. }
  destruct (log_reachable l w) as (got & lost & [Hri Ho Hd Hb Hs Hc Hdn Hrt Hcp]); [by eapply log_start|done|].
  rewrite El in Hs. destruct Ho as (O1 & O2 & _). exists got, lost. split_and!; try done.
  - eapply Forall2_impl; [exact Hs|]. intros [a|a] [b|b]; cbn; try done. intros (_ & _ & _ & _ & P & _).
    etrans; [|exact P]. by apply prefix_app_r.
  - intros Hret. rewrite Hret in Hrt. destruct (Hdn (Hrt eq_refl)) as [Hz _].
    split; [apply length_zero_iff_nil; by rewrite contents_length|]. specialize (Hcp Hret).
    eapply Forall2_impl; [apply (Forall2_and_r _ _ _ _ Hs Hcp)|].
    intros [a|a] [b|b]; cbn; [|tauto..]. intros [(_ & _ & _ & _ & _ & E) [Eb Ee]].
    rewrite <- (E Ee). unfold bw_text. by rewrite Eb, app_nil_r.
Qed.

Definition demo_sinks : list (Sink disk) := [WriterSink (mkWriterSink (NewWriterSize (mkDisk [] 100) true 8) true ev_Msg ∅)].
Definition demo_event : Event := mkEvent (Some 0) 1 (lit "sip.send") (lit "INVITE") ∅.

Lemma log_delivery_witness : exists l w, New 4 0 2 demo_sinks = Some l /\ reachable l w /\ w_closer w = Returned false
  /\ exists got lost,
    got ++ contents zeroEvent (l_ring (w_log w)) `sublist_of` w_accepted w
    /\ length (w_accepted w) = (length got + length (contents zeroEvent (l_ring (w_log w))) + lost)%nat
    /\ Dropped (w_log w) = u64 (Z.of_nat lost)
    /\ Forall2 (delivered false got) demo_sinks (l_sinks (w_log w))
    /\ (w_closer w = Returned false ->
        contents zeroEvent (l_ring (w_log w)) = [] /\ Forall2 (delivered true got) demo_sinks (l_sinks (w_log w))).
Proof.
  exists (mkLogger (newRingBuffer zeroEvent 4) demo_sinks 0 false 2 false). eexists.
  match goal with |- ?A /\ ?B /\ ?C /\ ?D => assert (A /\ B /\ C) as (H1 & H2 & H3) end.
  { split; [reflexivity|]. split.
    - eapply rtc_l; [apply (step_check _ _ _ _ _ BaseLogger 0 demo_event); reflexivity|].
      eapply rtc_l; [apply (step_push _ [] _ [])|].
      eapply rtc_l; [apply step_drain; vm_compute; reflexivity|].
      eapply rtc_l; [apply step_flag; reflexivity|].
      eapply rtc_l; [apply step_close_ring|].
      eapply rtc_l; [apply step_drain; vm_compute; reflexivity|].
      eapply rtc_l; [eapply step_close_sinks; [reflexivity|]; vm_compute; reflexivity|].
      apply rtc_refl.
    - reflexivity. }
  split; [exact H1|]. split; [exact H2|]. split; [exact H3|].
  refine (log_delivery 4 0 2 demo_sinks _ _ _ H1 H2).
  constructor; [cbn; split; cbn; lia|constructor].
Defined.

(** [Close] never hangs on the drain goroutine: from every state in which
    the ring has been closed, at most one round per buffered event and two more
    steps lead to the return of [Close], without any other goroutine doing
    anything. *)
Theorem close_returns {W} `{WriterLaws W} bufferSize minLevel batchSize (sinks : list (Sink W)) l w :
  Forall sink_ok sinks -> New bufferSize minLevel batchSize sinks = Some l -> reachable l w -> w_closer w = Waiting ->
  exists n w', (n <= rb_size (l_ring (w_log w)) + 2)%nat /\ nsteps step n w w' /\ returned (w_closer w') = true.
Proof.
  intros Hok Hnew Hr Hw. destruct (log_reachable l w) as (got & lost & Hi); [by eapply log_start|done|]. clear Hnew Hr Hok.
  remember (rb_size (l_ring (w_log w))) as k eqn:Ek. revert w got Hi Hw Ek.
  induction k as [k IH] using lt_wf_ind. intros [lg p c acc late] got Hi Hw Ek. cbn in Hw, Ek. subst c.
  pose proof Hi as [Hri _ _ _ _ Hc _ _ _]. cbn in *.
  destruct (l_done lg) eqn:Ed.
  { destruct (Close_sinks lg) as [failed l'] eqn:Ec. exists 1%nat, (mkWorld l' p (Returned failed) acc late).
    split; [lia|]. split; [|done]. apply nsteps_once. by apply step_close_sinks. }
  assert (exists l', drainRound lg = Some l' /\ (l_done l' = true \/ (rb_size (l_ring l') < k)%nat)) as (l' & El & Hl).
  { unfold drainRound. rewrite Ed. destruct (drain _ _ _) as [[[buf ok] r]|] eqn:E.
    - eexists. split; [done|]. apply drain_spec in E as (n & Eb & C & _ & _ & _ & K); [|done].
      destruct ok; [|by left]. right. cbn. rewrite <- (contents_length zeroEvent r), C, length_drop.
      rewrite Eb, length_take in K. rewrite contents_length in *. lia.
    - unfold drain in E. rewrite Hc in E. destruct (_ =? 0)%nat; [done|]. cbv zeta in E. by destruct (copyOut _ _ _). }
  destruct (log_drain _ _ _ _ _ _ _ _ _ Hi El) as [got' Hi'].
  assert (step (mkWorld lg p Waiting acc late) (mkWorld l' p Waiting acc late)) as Hs by by apply step_drain.
  destruct Hl as [Hd|Hlt].
  - destruct (Close_sinks l') as [failed l''] eqn:Ec. exists 2%nat, (mkWorld l'' p (Returned failed) acc late).
    split; [lia|]. split; [|done]. eapply nsteps_l; [exact Hs|]. apply nsteps_once. by apply step_close_sinks.
  - destruct (IH _ Hlt (mkWorld l' p Waiting acc late) got' Hi' eq_refl eq_refl) as (n & w' & Hn & Hns & Hret).
    exists (S n), w'. split; [lia|]. split; [|done]. by eapply nsteps_l.
Qed.

Definition demo_logger : logger disk := mkLogger (newRingBuffer zeroEvent 4) demo_sinks 0 false 2 false.

Lemma close_returns_witness : exists w, reachable demo_logger w /\ w_closer w = Waiting /\ rb_size (l_ring (w_log w)) = 1%nat
  /\ exists n w', (n <= rb_size (l_ring (w_log w)) + 2)%nat /\ nsteps step n w w' /\ returned (w_closer w') = true.
Proof.
  eexists. match goal with |- ?A /\ ?B /\ ?C /\ ?D => assert (A /\ B /\ C) as (H1 & H2 & H3) end.
  { split.
    - eapply rtc_l; [apply (step_check _ _ _ _ _ BaseLogger 0 demo_event); reflexivity|].
      eapply rtc_l; [apply (step_push _ [] _ [])|].
      eapply rtc_l; [apply step_flag; reflexivity|].
      eapply rtc_l; [apply step_close_ring|]. apply rtc_refl.
    - split; vm_compute; reflexivity. }
  split; [exact H1|]. split; [exact H2|]. split; [exact H3|].
  refine (close_returns 4 0 2 demo_sinks demo_logger _ _ eq_refl H1 H2).
  constructor; [cbn; split; cbn; lia|constructor].
Defined.

(** A JSON log has one line per event, whatever the texts in the events: cutting
    what a JSON sink writes at its newlines gives back the texts of the events
    one by one.  (Values of types the package does not know are assumed to
    marshal to JSON without newlines, as [json.Marshal] does.) *)
Theorem json_log_lines {W} isPrint clock (b : bufWriter W) closer resource events :
  Forall (fun ev => map_Forall (fun _ => compact) (ev_Attrs (withResource ev resource))) events ->
  let s := mkWriterSink b closer (formatJSON isPrint clock) resource in
  Split (flat_map (sink_line s) events) x0a
  = map (fun ev => formatJSON isPrint clock (withResource ev resource)) events ++ [[]].
Proof.
  intros He s. rewrite <- (split_lines (map _ events)).
  - f_equal. rewrite flat_map_concat_map, (flat_map_concat_map _ (map _ _)), map_map. done.
  - apply Forall_fmap. eapply Forall_impl; [exact He|]. intros ev Hev. exact (formatJSON_visible isPrint clock _ Hev).
Qed.

Definition demo_json_sink : writerSink disk :=
  mkWriterSink (NewWriterSize (mkDisk [] 9) true 8) true (formatJSON (fun _ => false) (fun _ => 0))
    {[ lit "role" := VString [x61; x0a; x62] ]}.

Lemma json_log_lines_witness :
  Split (flat_map (sink_line demo_json_sink) [demo_event; zeroEvent]) x0a
  = map (fun ev => formatJSON (fun _ => false) (fun _ => 0) (withResource ev {[ lit "role" := VString [x61; x0a; x62] ]}))
      [demo_event; zeroEvent] ++ [[]].
Proof.
  apply (json_log_lines (fun _ => false) (fun _ => 0) (NewWriterSize (mkDisk [] 9) true 8) true
           {[ lit "role" := VString [x61; x0a; x62] ]} [demo_event; zeroEvent]).
  do 2 (apply Forall_cons; split; [rewrite withResource_attrs; cbn [ev_Attrs demo_event zeroEvent]; rewrite map_empty_union;
    intros k v Hk; apply lookup_singleton_Some in Hk as [_ <-]; exact I|]).
  apply Forall_nil. exact I.
Defined.

(** JSON strings read back: a JSON reader that meets the text written for a
    string sees exactly its characters, with U+FFFD for bytes that are not
    UTF-8, and stops right after it. *)
Theorem json_string_reads_back s rest :
  exists body, json_string s ++ rest = x22 :: body /\ json_read body = Some (runes s, rest).
Proof.
  exists (json_body s ++ x22 :: rest). split; [|apply json_read_body]. unfold json_string. cbn. by rewrite <- app_assoc.
Qed.

(** Attributes are bound from the outside in: after [With(a).With(b)] an emitted
    event keeps its own attributes, then those of [b], then those of [a]. *)
Theorem with_precedence (a b : attrs) ev :
  ev_Attrs (bind_event (With (With BaseLogger a) b) ev) = ev_Attrs ev ∪ (b ∪ a).
Proof.
  unfold With. repeat case_bool_decide; subst; cbn [bind_event]; rewrite ?map_union_empty, ?map_empty_union; try done;
    repeat case_bool_decide; cbn [with_attrs ev_Attrs];
    rewrite ?MergeAttrs_union; unfold cloneAttrs in *; rewrite ?copy_attrs_union, ?MergeAttrs_union, ?map_union_empty in *; try done.
  match goal with H : b ∪ a = ∅ |- _ => by rewrite H, map_union_empty end.
Qed.

(** Text lines can be cut: a string attribute with a newline and no blank is
    written as it is, although a message with a newline is quoted. *)
Theorem attr_newline_cuts_line :
  existsb (beqb x0a) (formatText (fun _ => false) (fun _ => 0)
    (mkEvent (Some 0) 1 (lit "auth") [] {[ lit "k" := VString [x61; x0a; x62] ]})) = true
  /\ existsb (beqb x0a) (formatText (fun _ => false) (fun _ => 0)
    (mkEvent (Some 0) 1 (lit "auth") [x61; x0a; x62] ∅)) = false.
Proof. split; vm_compute; reflexivity. Qed.

(** The line written when an attribute cannot be marshalled need not be JSON:
    its members are quoted as Go strings, whose escapes such as [\a] a JSON
    reader refuses. *)
Theorem json_fallback_not_json :
  let ev := mkEvent (Some 0) 1 [x07] [] {[ lit "k" := VFloat64 S754_nan ]} in
  let line := formatJSON (fun _ => false) (fun _ => 0) ev in
  let before := lit "{" ++ quoted_member (fun _ => false) "time" (lit "1970-01-01T00:00:00Z") ++ lit ","
                ++ quoted_member (fun _ => false) "level" (lit "info") ++ lit "," ++ [x22] ++ lit "kind" ++ [x22; x3a] in
  HasPrefix line before = true /\ json_read (drop (length before + 1) line) = None.
Proof. split; vm_compute; reflexivity. Qed.
