(* ===== verification/Servers.v ===== *)
(** * Servers over connections and several listeners

    The server modes of [src/internal/engine/engine.go], [tls_transport.go] and
    [ws_transport.go] besides the single UDP socket of [Dispatch]: one shared
    TCP, TLS or WebSocket connection with many calls, one connection per call,
    one UDP socket per source address, and several listeners that share a
    [serverMultiCoordinator].  A handler is a function of one message; where a
    handler gives up its mutex in between, it is split into steps, and so is
    the end of a call.  A connection is the list of messages read from it; the
    call itself is [Call]'s. *)

From stdpp Require Import base list gmap strings relations.
From Stdlib Require Import ZArith Lia Strings.Byte.
From S2P Require Import Prelude GoStrings GoFloat NetAddr SipMessage Scenario EngineText Recv Dispatch.

(** ** Sessions of a connection *)

Definition connInboxCap : nat := 8.

Record connSession := mkConnSession {
  cs_number : Z;
  cs_inbox : list Message
}.

Abbreviation sessions := (gmap str connSession).

(** What became of a message. *)
Inductive conn_effect :=
  | ConnIgnored                          (* no Call-ID, or it may not open a call *)
  | ConnStarted (callID : str) (callNumber : Z)
  | ConnDelivered (callID : str)
  | ConnFull (callID : str).             (* dropped, the inbox is full *)

(** The select that ends every handler.  It runs just after the mutex is
    released; it is taken together with the handler, since only the reader
    of the connection puts messages into its inboxes. *)
Definition offer (callID : str) (msg : Message) (ss : sessions) : conn_effect * sessions :=
  match ss !! callID with
  | None => (ConnIgnored, ss)
  | Some s =>
    if (length (cs_inbox s) <? connInboxCap)%nat
    then (ConnDelivered callID, <[callID := mkConnSession (cs_number s) (cs_inbox s ++ [msg])]> ss)
    else (ConnFull callID, ss)
  end.

(** A new session with its first message. *)
Definition openSession (callID : str) (callNumber : Z) (msg : Message) (ss : sessions) : conn_effect * sessions :=
  (ConnStarted callID callNumber, (offer callID msg (<[callID := mkConnSession callNumber []]> ss)).2).

Section Handlers.

Context (regexMatch : str -> str -> bool) (lm : limits).

(** [runServerTCPShared]: one message; the limit is tested against the calls
    that are active, and so is the number of the call. *)
Definition tcpSharedMessage (accept : bool) (sc : Scenario) (msg : Message) (ss : sessions) : conn_effect * sessions :=
  match Header (Headers msg) (lit "Call-ID") with
  | None => (ConnIgnored, ss)
  | Some callID =>
    let callID := NormalizeCallID callID in
    match ss !! callID with
    | Some _ => offer callID msg ss
    | None =>
      if negb accept then (ConnIgnored, ss)
      else match snapshotLiveFirstRecvCommand sc with
      | None => (ConnIgnored, ss)
      | Some firstCmd =>
        if negb (matchesFirst regexMatch firstCmd msg) || serverRejectNew lm (Z.of_nat (size ss)) then (ConnIgnored, ss)
        else openSession callID (Z.of_nat (size ss) + 1) msg ss
      end
    end
  end.

(** [runServerTLSShared]: the Call-ID is used as it stands, and a regular
    expression of the first [recv] is not looked at. *)
Definition tlsSharedMessage (accept : bool) (sc : Scenario) (msg : Message) (ss : sessions) : conn_effect * sessions :=
  match Header (Headers msg) (lit "Call-ID") with
  | None => (ConnIgnored, ss)
  | Some callID =>
    match ss !! callID with
    | Some _ => offer callID msg ss
    | None =>
      if negb accept then (ConnIgnored, ss)
      else match snapshotLiveFirstRecvCommand sc with
      | None => (ConnIgnored, ss)
      | Some firstCmd =>
        if negb (Match msg (c_RecvReq firstCmd) (c_RecvResp firstCmd)) || serverRejectNew lm (Z.of_nat (size ss))
        then (ConnIgnored, ss)
        else openSession callID (Z.of_nat (size ss) + 1) msg ss
      end
    end
  end.

(** [serveWSConnection] *)
Definition wsMessage (perCall : bool) (sc : Scenario) (msg : Message) (ss : sessions) : conn_effect * sessions :=
  match Header (Headers msg) (lit "Call-ID") with
  | None => (ConnIgnored, ss)
  | Some callID =>
    let callID := NormalizeCallID callID in
    match ss !! callID with
    | Some _ => offer callID msg ss
    | None =>
      match snapshotLiveFirstRecvCommand sc with
      | None => (ConnIgnored, ss)
      | Some firstCmd =>
        if negb (Match msg (c_RecvReq firstCmd) (c_RecvResp firstCmd)) then (ConnIgnored, ss)
        else if perCall && negb (bool_decide (ss = ∅)) then (ConnIgnored, ss)
        else openSession callID (Z.of_nat (size ss) + 1) msg ss
      end
    end
  end.

(** The end of a call on a connection of its own coordinator-less server. *)
Definition endConnCall (callID : str) (ss : sessions) : sessions := delete callID ss.

(** *** One connection per call *)

(** [waitForFirstServerMessage]: the first matching message and what follows. *)
Fixpoint waitForFirstServerMessage (firstCmd : Command) (msgs : list Message) : option (Message * list Message) :=
  match msgs with
  | [] => None
  | msg :: rest =>
    if matchesFirst regexMatch firstCmd msg then Some (msg, rest) else waitForFirstServerMessage firstCmd rest
  end.

(** The goroutine of a connection ([runServerTCPPerConn] and its siblings): the
    Call-ID of the call it runs and the messages the call receives. *)
Definition perConnCall (sc : Scenario) (normalise : bool) (msgs : list Message) : option (str * list Message) :=
  match snapshotLiveFirstRecvCommand sc with
  | None => None
  | Some firstCmd =>
    match waitForFirstServerMessage firstCmd msgs with
    | None => None
    | Some (first, rest) =>
      match Header (Headers first) (lit "Call-ID") with
      | None => None
      | Some callID => Some (if normalise then NormalizeCallID callID else callID, first :: rest)
      end
    end
  end.

(** The accept loop of [runServerTCPPerConn] and [runServerTLSPerConn]: for each
    incoming connection whether the listener accepts new calls; the result
    has the numbers given to the served ones.  The loop counts a refused
    connection too. *)
Fixpoint perConnLoop (accepted : Z) (conns : list bool) : list Z :=
  match conns with
  | [] => []
  | accept :: conns =>
    if lm_UnlimitedCalls lm || (accepted <? lm_TotalCalls lm) then
      if accept then (accepted + 1) :: perConnLoop (accepted + 1) conns else perConnLoop (accepted + 1) conns
    else []
  end.

(** *** Several listeners *)

(** Where the reader of a shared connection stands: it gives up the session
    mutex to reserve a number ([runServerTCPSharedOn], [runServerTLSSharedOn]). *)
Inductive reader_pc :=
  | Reading
  | Reserving (callID : str) (msg : Message)
  | Inserting (callID : str) (msg : Message) (callNumber : Z).

(** A shared connection; [sm_ending] has the numbers of calls that have left
    the session table and are about to be counted as finished. *)
Record stream := mkStream {
  sm_sessions : sessions;
  sm_reader : reader_pc;
  sm_ending : list Z
}.

(** The handler up to [reserveCallSlot]; [useRegex] holds for TCP only. *)
Definition sharedOnMessage (useRegex accept : bool) (sc : Scenario) (msg : Message) (sm : stream) : stream :=
  match Header (Headers msg) (lit "Call-ID") with
  | None => sm
  | Some callID =>
    let callID := NormalizeCallID callID in
    match sm_sessions sm !! callID with
    | Some _ => mkStream (offer callID msg (sm_sessions sm)).2 (sm_reader sm) (sm_ending sm)
    | None =>
      if negb accept then sm
      else match snapshotLiveFirstRecvCommand sc with
      | None => sm
      | Some firstCmd =>
        let matched := if useRegex then matchesFirst regexMatch firstCmd msg
                       else Match msg (c_RecvReq firstCmd) (c_RecvResp firstCmd) in
        if matched then mkStream (sm_sessions sm) (Reserving callID msg) (sm_ending sm) else sm
      end
    end
  end.

(** [reserveCallSlot] and its test. *)
Definition sharedOnReserve (callID : str) (msg : Message) (sm : stream) (co : serverMultiCoordinator)
    : stream * serverMultiCoordinator :=
  let '(slot, co) := reserveCallSlot lm co in
  match slot with
  | None => (mkStream (sm_sessions sm) Reading (sm_ending sm), co)
  | Some callNumber => (mkStream (sm_sessions sm) (Inserting callID msg callNumber) (sm_ending sm), co)
  end.

Definition refundReservedSlot (co : serverMultiCoordinator) : serverMultiCoordinator :=
  if 0 <? co_accepted co then mkCoordinator (co_sessions co) (co_accepted co - 1) (co_finished co) (co_done co) else co.

Definition sharedOnInsert (callID : str) (msg : Message) (callNumber : Z) (sm : stream) (co : serverMultiCoordinator)
    : stream * serverMultiCoordinator :=
  match sm_sessions sm !! callID with
  | Some _ => (mkStream (sm_sessions sm) Reading (sm_ending sm), refundReservedSlot co)
  | None => (mkStream (openSession callID callNumber msg (sm_sessions sm)).2 Reading (sm_ending sm), co)
  end.

(** The end of a call: out of the table, then counted. *)
Definition sharedOnLeave (callID : str) (sm : stream) : stream :=
  match sm_sessions sm !! callID with
  | None => sm
  | Some s => mkStream (delete callID (sm_sessions sm)) (sm_reader sm) (cs_number s :: sm_ending sm)
  end.

Record servers := mkServers {
  sv_co : serverMultiCoordinator;      (* with the UDP sessions *)
  sv_streams : list stream;
  sv_conns : list Z                    (* numbers of the calls with a connection of their own *)
}.

(** The steps of the listeners and of the goroutines they started. *)
Inductive sv_step : servers -> servers -> Prop :=
  | SvUDP accept sc i pooled data co sms conns :
      sv_step (mkServers co sms conns) (mkServers (pumpPacket regexMatch lm accept sc i pooled data co).2 sms conns)
  | SvUDPStart callID co sms conns : sv_step (mkServers co sms conns) (mkServers (putStart callID co) sms conns)
  | SvUDPEnd callID co sms conns : sv_step (mkServers co sms conns) (mkServers (endSession lm callID co) sms conns)
  | SvConnect co sms conns :
      sv_step (mkServers co sms conns) (mkServers co (mkStream ∅ Reading [] :: sms) conns)
  | SvMessage useRegex accept sc msg co l sm r conns :
      sm_reader sm = Reading ->
      sv_step (mkServers co (l ++ sm :: r) conns) (mkServers co (l ++ sharedOnMessage useRegex accept sc msg sm :: r) conns)
  | SvReserve callID msg co l sm r conns :
      sm_reader sm = Reserving callID msg ->
      sv_step (mkServers co (l ++ sm :: r) conns)
        (mkServers (sharedOnReserve callID msg sm co).2 (l ++ (sharedOnReserve callID msg sm co).1 :: r) conns)
  | SvInsert callID msg n co l sm r conns :
      sm_reader sm = Inserting callID msg n ->
      sv_step (mkServers co (l ++ sm :: r) conns)
        (mkServers (sharedOnInsert callID msg n sm co).2 (l ++ (sharedOnInsert callID msg n sm co).1 :: r) conns)
  | SvLeave callID co l sm r conns :
      sv_step (mkServers co (l ++ sm :: r) conns) (mkServers co (l ++ sharedOnLeave callID sm :: r) conns)
  | SvCounted ss pc n e1 e2 co l r conns :
      sv_step (mkServers co (l ++ mkStream ss pc (e1 ++ n :: e2) :: r) conns)
        (mkServers (finishCallUnlocked lm co) (l ++ mkStream ss pc (e1 ++ e2) :: r) conns)
  | SvAccept n co co' sms conns :
      reserveCallSlot lm co = (Some n, co') ->
      sv_step (mkServers co sms conns) (mkServers co' sms (n :: conns))
  | SvConnEnd n c1 c2 co sms :
      sv_step (mkServers co sms (c1 ++ n :: c2)) (mkServers (finishCallUnlocked lm co) sms (c1 ++ c2)).

Definition sv_reachable : servers -> Prop := rtc sv_step (mkServers newServerMultiCoordinator [] []).

End Handlers.

(** ** Counting across listeners *)

Definition reader_numbers (pc : reader_pc) : list Z := match pc with Inserting _ _ n => [n] | _ => [] end.
Definition session_numbers (ss : sessions) : list Z := map (fun p => cs_number p.2) (map_to_list ss).
Definition stream_numbers (sm : stream) : list Z :=
  session_numbers (sm_sessions sm) ++ reader_numbers (sm_reader sm) ++ sm_ending sm.
Definition udp_numbers (co : serverMultiCoordinator) : list Z := map (fun p => ss_number p.2) (map_to_list (co_sessions co)).

(** The numbers of all calls that have been given one and are not counted as
    finished. *)
Definition numbers (w : servers) : list Z :=
  udp_numbers (sv_co w) ++ concat (map stream_numbers (sv_streams w)) ++ sv_conns w.

Section Counting.

Context (regexMatch : str -> str -> bool) (lm : limits).

(** The books: [nums] are the numbers in use. *)
Record books (acc fin : Z) (done : bool) (nums : list Z) : Prop := {
  bk_unique : NoDup nums;
  bk_range : Forall (fun n => 1 <= n <= acc) nums;
  bk_count : Z.of_nat (length nums) = acc - fin;
  bk_finished : 0 <= fin;
  bk_limit : lm_UnlimitedCalls lm = true \/ acc <= Z.max 0 (lm_TotalCalls lm);
  bk_done : done = true <-> 0 < fin /\ serverFinishedAll lm fin = true
}.

Lemma books_perm acc fin done nums nums' : nums ≡ₚ nums' -> books acc fin done nums -> books acc fin done nums'.
Proof. intros Hp [H1 H2 H3 H4 H5 H6]. split; try done; by rewrite <- Hp. Qed.

Lemma books_reserve acc fin done nums :
  books acc fin done nums -> serverRejectNew lm acc = false -> books (acc + 1) fin done (acc + 1 :: nums).
Proof.
  intros [H1 H2 H3 H4 H5 H6] Hr. split; try done.
  - constructor; [|done]. intros Hin. apply (proj1 (Forall_forall _ _) H2) in Hin. lia.
  - constructor; [lia|]. eapply Forall_impl; [exact H2|]. intros n Hn. simpl in Hn. lia.
  - cbn [length]. lia.
  - unfold serverRejectNew in Hr. destruct (lm_UnlimitedCalls lm); [by left|right]. simpl in Hr. apply Z.leb_gt in Hr. lia.
Qed.

Lemma books_finish acc fin done n nums :
  books acc fin done (n :: nums) -> books acc (fin + 1) (done || serverFinishedAll lm (fin + 1)) nums.
Proof.
  intros [H1 H2 H3 H4 H5 H6]. apply NoDup_cons in H1 as [_ H1]. apply Forall_cons in H2 as [_ H2].
  cbn [length] in H3. split; try done; try lia. rewrite orb_true_iff, H6. split.
  - intros [[Hp Hf]|Hf]; (split; [lia|]); [|done]. unfold serverFinishedAll in *.
    destruct (lm_UnlimitedCalls lm); [done|]. simpl in *. apply Z.leb_le in Hf. apply Z.leb_le. lia.
  - intros [_ Hf]. by right.
Qed.

(** Tables. *)
Lemma numbers_insert {A} (num : A -> Z) (m : gmap str A) id s s' : m !! id = Some s -> num s' = num s ->
  map (fun p => num p.2) (map_to_list (<[id := s']> m)) ≡ₚ map (fun p => num p.2) (map_to_list m).
Proof.
  intros Hs Hn. rewrite <- (insert_delete_id m id s Hs) at 2. rewrite <- (insert_delete_eq m id s').
  rewrite !map_to_list_insert by apply lookup_delete_eq. cbn. by rewrite Hn.
Qed.

Lemma numbers_new {A} (num : A -> Z) (m : gmap str A) id s : m !! id = None ->
  map (fun p => num p.2) (map_to_list (<[id := s]> m)) ≡ₚ num s :: map (fun p => num p.2) (map_to_list m).
Proof. intros Hs. by rewrite map_to_list_insert. Qed.

Lemma numbers_delete {A} (num : A -> Z) (m : gmap str A) id s : m !! id = Some s ->
  map (fun p => num p.2) (map_to_list m) ≡ₚ num s :: map (fun p => num p.2) (map_to_list (delete id m)).
Proof.
  intros Hs. rewrite <- (insert_delete_id m id s Hs) at 1. by rewrite map_to_list_insert by apply lookup_delete_eq.
Qed.

Lemma offer_numbers callID msg ss : session_numbers (offer callID msg ss).2 ≡ₚ session_numbers ss.
Proof.
  unfold offer. destruct (ss !! callID) as [s|] eqn:E; [|done]. destruct (_ <? _)%nat; [|done].
  by apply (numbers_insert cs_number _ _ s).
Qed.

Lemma open_numbers callID n msg ss : ss !! callID = None ->
  session_numbers (openSession callID n msg ss).2 ≡ₚ n :: session_numbers ss.
Proof. intros Hs. cbn [openSession snd]. rewrite offer_numbers. by apply (numbers_new cs_number). Qed.

(** UDP: nothing, one call more, or one less. *)
Lemma pump_numbers accept sc i pooled data co :
  let co' := (pumpPacket regexMatch lm accept sc i pooled data co).2 in
  co_finished co' = co_finished co /\ co_done co' = co_done co
  /\ ((co_accepted co' = co_accepted co /\ udp_numbers co' ≡ₚ udp_numbers co)
      \/ (serverRejectNew lm (co_accepted co) = false /\ co_accepted co' = co_accepted co + 1
          /\ udp_numbers co' ≡ₚ co_accepted co + 1 :: udp_numbers co)).
Proof.
  cbv zeta. unfold pumpPacket. destruct (ParseInto pooled data) as [msg|]; [|by auto].
  destruct (Header _ _) as [callID|]; [|by auto]. cbv zeta.
  destruct (co_sessions co !! NormalizeCallID callID) as [s|] eqn:E.
  - destruct (_ <? _)%nat; [|by auto]. cbn. split; [done|]. split; [done|]. left. split; [done|].
    by apply (numbers_insert ss_number _ _ s).
  - destruct (negb accept); [by auto|]. destruct (snapshotLiveFirstRecvCommand sc) as [cmd|]; [|by auto].
    destruct (negb _ || _) eqn:Er; [by auto|]. apply orb_false_iff in Er as [_ Er]. cbn.
    split; [done|]. split; [done|]. right. split; [done|]. split; [done|]. by apply (numbers_new ss_number).
Qed.

Lemma start_numbers callID co :
  let co' := putStart callID co in
  co_accepted co' = co_accepted co /\ co_finished co' = co_finished co /\ co_done co' = co_done co
  /\ udp_numbers co' ≡ₚ udp_numbers co.
Proof.
  cbv zeta. unfold putStart. destruct (co_sessions co !! callID) as [[n [m|] inbox]|] eqn:E; [|done|done].
  destruct (_ <? _)%nat; [|done]. repeat (split; [done|]). by apply (numbers_insert ss_number _ _ (mkSession n (Some m) inbox)).
Qed.

(** The reader of a connection asks for a number only for a call without a
    session, and only the reader adds sessions. *)
Definition reader_free (sm : stream) : Prop :=
  match sm_reader sm with
  | Reading => True
  | Reserving id _ | Inserting id _ _ => sm_sessions sm !! id = None
  end.

Definition sv_inv (w : servers) : Prop :=
  books (co_accepted (sv_co w)) (co_finished (sv_co w)) (co_done (sv_co w)) (numbers w)
  /\ Forall reader_free (sv_streams w).

(** Replacing one connection among the others. *)
Lemma numbers_stream co l sm r conns :
  numbers (mkServers co (l ++ sm :: r) conns) ≡ₚ stream_numbers sm ++ numbers (mkServers co (l ++ r) conns).
Proof.
  unfold numbers. cbn. rewrite !map_app, !concat_app. cbn [map concat]. solve_Permutation.
Qed.

Lemma numbers_co co co' sms conns extra : udp_numbers co' ≡ₚ extra ++ udp_numbers co ->
  numbers (mkServers co' sms conns) ≡ₚ extra ++ numbers (mkServers co sms conns).
Proof. intros H. unfold numbers. cbn. rewrite H. by rewrite <- !app_assoc. Qed.

Lemma message_numbers useRegex accept sc msg sm : sm_reader sm = Reading ->
  stream_numbers (sharedOnMessage regexMatch useRegex accept sc msg sm) ≡ₚ stream_numbers sm
  /\ reader_free (sharedOnMessage regexMatch useRegex accept sc msg sm).
Proof.
  intros Hr. unfold sharedOnMessage.
  assert (stream_numbers sm ≡ₚ stream_numbers sm /\ reader_free sm) as Hid by (unfold reader_free; by rewrite Hr).
  destruct (Header _ _) as [callID|]; [|done]. cbv zeta.
  destruct (sm_sessions sm !! NormalizeCallID callID) as [s|] eqn:E.
  - unfold stream_numbers, reader_free. cbn. rewrite Hr. split; [by rewrite offer_numbers|done].
  - destruct (negb accept); [done|]. destruct (snapshotLiveFirstRecvCommand sc) as [cmd|]; [|done].
    match goal with |- context [if ?c then mkStream _ _ _ else _] => destruct c end; [|done].
    unfold stream_numbers, reader_free. cbn. by rewrite Hr.
Qed.

Lemma leave_numbers callID sm : reader_free sm ->
  stream_numbers (sharedOnLeave callID sm) ≡ₚ stream_numbers sm /\ reader_free (sharedOnLeave callID sm).
Proof.
  intros Hf. unfold sharedOnLeave. destruct (sm_sessions sm !! callID) as [s|] eqn:E; [|done].
  unfold stream_numbers. cbn. split.
  - unfold session_numbers. rewrite (numbers_delete cs_number _ _ _ E). solve_Permutation.
  - unfold reader_free in *. cbn. destruct (sm_reader sm) as [|id m|id m n]; [done|..];
      apply lookup_delete_None; by right.
Qed.

Lemma sv_inv_step w w' : sv_inv w -> sv_step regexMatch lm w w' -> sv_inv w'.
Proof.
  intros [Hb Hf] Hs. destruct Hs; cbn [sv_co sv_streams] in *.
  - destruct (pump_numbers accept sc i pooled data co) as (E1 & E2 & [[E3 Hp]|(Hr & E3 & Hp)]); split; try done; cbn;
      rewrite E1, E2, E3.
    + eapply books_perm; [|exact Hb]. symmetry. by apply (numbers_co _ _ _ _ []).
    + eapply books_perm; [|by apply books_reserve]. symmetry. by apply (numbers_co _ _ _ _ [co_accepted co + 1]).
  - destruct (start_numbers callID co) as (E1 & E2 & E3 & Hp). split; [|done]. cbn. rewrite E1, E2, E3.
    eapply books_perm; [|exact Hb]. symmetry. by apply (numbers_co _ _ _ _ []).
  - split; [|done]. unfold endSession. destruct (co_sessions co !! callID) as [[n [m|] inbox]|] eqn:E; [done| |done].
    cbn. apply (books_finish _ _ _ n). eapply books_perm; [|exact Hb].
    apply (numbers_co _ _ _ _ [n]). by apply (numbers_delete ss_number _ _ _ E).
  - split; [|by constructor]. eapply books_perm; [|exact Hb]. unfold numbers. cbn.
    unfold stream_numbers at 2, session_numbers. cbn. by rewrite map_to_list_empty.
  - apply Forall_app in Hf as [Hl Hf]. apply Forall_cons in Hf as [_ Hf].
    destruct (message_numbers useRegex accept sc msg sm) as [Hn Hr]; [done|]. split.
    + eapply books_perm; [|exact Hb]. by rewrite !numbers_stream, Hn.
    + cbn. apply Forall_app. split; [done|]. by constructor.
  - apply Forall_app in Hf as [Hl Hf]. apply Forall_cons in Hf as [Hsm Hf]. unfold reader_free in Hsm. rewrite H in Hsm.
    unfold sharedOnReserve, reserveCallSlot. destruct (serverRejectNew lm (co_accepted co)) eqn:Er; cbn; split; cbn.
    + eapply books_perm; [|exact Hb]. rewrite !numbers_stream. unfold stream_numbers. cbn. by rewrite H.
    + apply Forall_app. split; [done|]. constructor; done.
    + eapply books_perm; [|by apply books_reserve]. rewrite !numbers_stream. unfold stream_numbers. cbn. rewrite H. cbn.
      unfold numbers. cbn. solve_Permutation.
    + apply Forall_app. split; [done|]. constructor; done.
  - apply Forall_app in Hf as [Hl Hf]. apply Forall_cons in Hf as [Hsm Hf]. unfold reader_free in Hsm. rewrite H in Hsm.
    unfold sharedOnInsert. rewrite Hsm. cbn [fst snd]. split; cbn [sv_co sv_streams].
    + eapply books_perm; [|exact Hb]. rewrite !numbers_stream. unfold stream_numbers. cbn [sm_sessions sm_reader sm_ending].
      rewrite open_numbers by done. rewrite H. cbn. solve_Permutation.
    + apply Forall_app. split; [done|]. constructor; done.
  - apply Forall_app in Hf as [Hl Hf]. apply Forall_cons in Hf as [Hsm Hf].
    destruct (leave_numbers callID sm Hsm) as [Hn Hr]. split.
    + eapply books_perm; [|exact Hb]. by rewrite !numbers_stream, Hn.
    + cbn. apply Forall_app. split; [done|]. by constructor.
  - apply Forall_app in Hf as [Hl Hf]. apply Forall_cons in Hf as [Hsm Hf]. split.
    + cbn. apply (books_finish _ _ _ n). eapply books_perm; [|exact Hb]. rewrite !numbers_stream. unfold stream_numbers. cbn.
      unfold numbers. cbn. solve_Permutation.
    + cbn. apply Forall_app. split; [done|]. by constructor.
  - split; [|done]. unfold reserveCallSlot in H. destruct (serverRejectNew lm (co_accepted co)) eqn:Er; [done|].
    injection H as <- <-. cbn. eapply books_perm; [|by apply books_reserve]. unfold numbers. cbn. solve_Permutation.
  - split; [|done]. cbn. apply (books_finish _ _ _ n). eapply books_perm; [|exact Hb]. unfold numbers. cbn. solve_Permutation.
Qed.

Lemma sv_inv_reachable w : sv_reachable regexMatch lm w -> sv_inv w.
Proof.
  intros H. unfold sv_reachable in H. revert w H. apply (rtc_ind_r (R := sv_step regexMatch lm) sv_inv).
  - split; [|constructor]. change (numbers _) with (@nil Z). cbn. split; try done; [apply NoDup_nil_2|right; lia|].
    split; [done|]. intros [? _]. lia.
  - intros w1 w2 _ Hs Hi. by eapply sv_inv_step.
Qed.

End Counting.

(** ** One socket per source address ([runServerPerSourceIP]) *)

(** [IP.Equal] *)
Definition IPEqual (a b : str) : bool :=
  if (length a =? length b)%nat then bool_decide (a = b)
  else if (length a =? 4)%nat && (length b =? 16)%nat
  then bool_decide (take 12 b = mapped_prefix) && bool_decide (a = drop 12 b)
  else if (length a =? 16)%nat && (length b =? 4)%nat
  then bool_decide (take 12 a = mapped_prefix) && bool_decide (drop 12 a = b)
  else false.

(** [resolveResponseAddr]; [lookupHost] is the resolver. *)
Definition resolveResponseAddr (lookupHost : str -> option (list str)) (msg : Message) (packetIP : str) : option (str * Z) :=
  match ViaSentBy (Headers msg) with
  | None => None
  | Some (host, port) =>
    let viaIP := match ParseIP host with
                 | Some ip => Some ip
                 | None => match lookupHost host with Some (addr :: _) => ParseIP addr | _ => None end
                 end in
    match viaIP with
    | None => None
    | Some ip => if IPEqual ip packetIP then None else Some (ip, port)
    end
  end.

Record udpServerInbound := mkInbound {
  ib_msg : pmsg;
  ib_callID : str;
  ib_remote : str * Z;
  ib_socket : nat
}.

(** A session; its inbox keeps for each message the socket it came from. *)
Record uiSession := mkUiSession {
  us_number : Z;
  us_start : option pmsg;
  us_inbox : list (nat * pmsg);
  us_remote : str * Z;
  us_socket : nat
}.

Record uiServer := mkUiServer {
  ui_sessions : gmap str uiSession;
  ui_incoming : list udpServerInbound;
  ui_accepted : Z;
  ui_finished : Z;
  ui_done : bool
}.

Definition newUiServer : uiServer := mkUiServer ∅ [] 0 0 false.

Definition incomingCap : nat := 256.

Section PerSource.

Context (regexMatch : str -> str -> bool) (lm : limits) (lookupHost : str -> option (list str)).

(** The reader of a socket: what it passes on. *)
Definition uiRead (socket i : nat) (pooled : Message) (data : str) (remote : str * Z) : option udpServerInbound :=
  match ParseInto pooled data with
  | Err _ => None
  | Ok msg =>
    match Header (Headers msg) (lit "Call-ID") with
    | None => None
    | Some callID => Some (mkInbound (mkPmsg i msg) (NormalizeCallID callID) remote socket)
    end
  end.

Definition with_sessions (u : uiServer) (ss : gmap str uiSession) : uiServer :=
  mkUiServer ss (ui_incoming u) (ui_accepted u) (ui_finished u) (ui_done u).

(** The goroutine that takes packets from the queue. *)
Definition uiPacket (accept : bool) (sc : Scenario) (p : udpServerInbound) (u : uiServer) : uiServer :=
  match ui_sessions u !! ib_callID p with
  | None =>
    if negb accept then u
    else match snapshotLiveFirstRecvCommand sc with
    | None => u
    | Some firstCmd =>
      if negb (matchesFirst regexMatch firstCmd (pm_msg (ib_msg p))) || serverRejectNew lm (ui_accepted u) then u
      else
        let callNumber := ui_accepted u + 1 in
        let remote := default (ib_remote p) (resolveResponseAddr lookupHost (pm_msg (ib_msg p)) (ib_remote p).1) in
        mkUiServer (<[ib_callID p := mkUiSession callNumber (Some (ib_msg p)) [] remote (ib_socket p)]> (ui_sessions u))
          (ui_incoming u) callNumber (ui_finished u) (ui_done u)
    end
  | Some s =>
    if negb (us_socket s =? ib_socket p)%nat then u
    else if (length (us_inbox s) <? sipMailboxCap)%nat
    then with_sessions u (<[ib_callID p := mkUiSession (us_number s) (us_start s) (us_inbox s ++ [(ib_socket p, ib_msg p)])
                                             (us_remote s) (us_socket s)]> (ui_sessions u))
    else u
  end.

(** The goroutine of a call puts its first message. *)
Definition uiStart (callID : str) (u : uiServer) : uiServer :=
  match ui_sessions u !! callID with
  | Some (mkUiSession n (Some m) inbox remote socket) =>
    if (length inbox <? sipMailboxCap)%nat
    then with_sessions u (<[callID := mkUiSession n None (inbox ++ [(socket, m)]) remote socket]> (ui_sessions u))
    else u
  | _ => u
  end.

Definition uiEnd (callID : str) (u : uiServer) : uiServer :=
  match ui_sessions u !! callID with
  | Some (mkUiSession _ None _ _ _) =>
    let finished := ui_finished u + 1 in
    mkUiServer (delete callID (ui_sessions u)) (ui_incoming u) (ui_accepted u) finished
      (ui_done u || serverFinishedAll lm finished)
  | _ => u
  end.

(** [setDestination] of a call changes its own session only. *)
Definition uiSetDestination (callID : str) (remote : str * Z) (u : uiServer) : uiServer :=
  match ui_sessions u !! callID with
  | None => u
  | Some s => with_sessions u (<[callID := mkUiSession (us_number s) (us_start s) (us_inbox s) remote (us_socket s)]>
                                 (ui_sessions u))
  end.

Definition with_incoming (u : uiServer) (q : list udpServerInbound) : uiServer :=
  mkUiServer (ui_sessions u) q (ui_accepted u) (ui_finished u) (ui_done u).

Inductive ui_step : uiServer -> uiServer -> Prop :=
  | UiRead socket i pooled data remote p u :
      uiRead socket i pooled data remote = Some p -> (length (ui_incoming u) < incomingCap)%nat ->
      ui_step u (with_incoming u (ui_incoming u ++ [p]))
  | UiTake accept sc p q u : ui_incoming u = p :: q -> ui_step u (uiPacket accept sc p (with_incoming u q))
  | UiStart callID u : ui_step u (uiStart callID u)
  | UiEnd callID u : ui_step u (uiEnd callID u)
  | UiSetDest callID remote u : ui_step u (uiSetDestination callID remote u).

Definition ui_reachable : uiServer -> Prop := rtc ui_step newUiServer.

Definition ui_numbers (u : uiServer) : list Z := map (fun p => us_number p.2) (map_to_list (ui_sessions u)).

(** A queued packet names its own Call-ID. *)
Definition inbound_ok (p : udpServerInbound) : Prop := message_key (pm_msg (ib_msg p)) = Some (ib_callID p).

(** What waits in a session came over its socket and belongs to its call. *)
Definition ui_session_ok (id : str) (s : uiSession) : Prop :=
  Forall (fun x => x.1 = us_socket s /\ message_key (pm_msg x.2) = Some id) (us_inbox s)
  /\ (length (us_inbox s) <= sipMailboxCap)%nat
  /\ match us_start s with Some m => message_key (pm_msg m) = Some id | None => True end.

Record ui_inv (u : uiServer) : Prop := {
  uv_books : books lm (ui_accepted u) (ui_finished u) (ui_done u) (ui_numbers u);
  uv_queue : Forall inbound_ok (ui_incoming u) /\ (length (ui_incoming u) <= incomingCap)%nat;
  uv_sessions : map_Forall ui_session_ok (ui_sessions u)
}.

Lemma ui_update u id s s' : ui_inv u -> ui_sessions u !! id = Some s -> us_number s' = us_number s ->
  ui_session_ok id s' -> ui_inv (with_sessions u (<[id := s']> (ui_sessions u))).
Proof.
  intros [Hb Hq Hs] E Hn Hok. split; cbn; [|done|by apply map_Forall_insert_2].
  eapply books_perm; [|exact Hb]. symmetry. by apply (numbers_insert us_number _ _ s).
Qed.

Lemma ui_inv_packet accept sc p u : ui_inv u -> inbound_ok p -> ui_inv (uiPacket accept sc p u).
Proof.
  intros Hi Hp. unfold uiPacket. destruct (ui_sessions u !! ib_callID p) as [s|] eqn:E.
  - destruct (Nat.eqb_spec (us_socket s) (ib_socket p)) as [Es|]; [|done]. cbn [negb].
    destruct (Nat.ltb_spec (length (us_inbox s)) sipMailboxCap); [|done]. eapply ui_update; [done|exact E|done|].
    destruct (uv_sessions _ Hi _ _ E) as (S1 & S2 & S3). split_and!; cbn; [|rewrite length_app; cbn; lia|done].
    apply Forall_app. split; [done|]. constructor; [done|constructor].
  - destruct (negb accept); [done|]. destruct (snapshotLiveFirstRecvCommand sc) as [cmd|]; [|done].
    destruct (negb _ || _) eqn:Er; [done|]. apply orb_false_iff in Er as [_ Er]. cbv zeta. destruct Hi as [Hb Hq Hs].
    split; cbn; [|done|].
    + eapply books_perm; [|by apply books_reserve]. symmetry. by apply (numbers_new us_number).
    + apply map_Forall_insert_2; [|done]. split_and!; cbn; [constructor|lia|done].
Qed.

Lemma ui_inv_step u u' : ui_inv u -> ui_step u u' -> ui_inv u'.
Proof.
  intros Hi Hs. destruct Hs as [socket i pooled data remote p u Hr Hl|accept sc p q u Hq|callID u|callID u|callID remote u].
  - destruct Hi as [Hb [Hq _] Hs]. split; cbn; try done. split.
    + apply Forall_app. split; [done|]. constructor; [|constructor]. revert Hr. unfold uiRead, inbound_ok, message_key.
      destruct (ParseInto pooled data) as [msg|]; [|done]. destruct (Header (Headers msg) _) as [c|] eqn:E; [|done].
      intros [= <-]. cbn [ib_msg ib_callID pm_msg]. by rewrite E.
    + rewrite length_app. cbn. lia.
  - destruct Hi as [Hb [H1 H2] Hs]. rewrite Hq in H1, H2. apply Forall_cons in H1 as [Hp H1].
    apply ui_inv_packet; [|done]. split; cbn; try done. cbn in H2. split; [done|lia].
  - unfold uiStart. destruct (ui_sessions u !! callID) as [[n [m|] inbox remote socket]|] eqn:E; [|done|done].
    destruct (Nat.ltb_spec (length inbox) sipMailboxCap); [|done]. eapply ui_update; [done|exact E|done|].
    destruct (uv_sessions _ Hi _ _ E) as (S1 & S2 & S3). cbn in *. split_and!; cbn; [|rewrite length_app; cbn; lia|done].
    apply Forall_app. split; [done|]. constructor; [done|constructor].
  - unfold uiEnd. destruct (ui_sessions u !! callID) as [[n [m|] inbox remote socket]|] eqn:E; [done| |done].
    destruct Hi as [Hb Hq Hs]. split; cbn; [|done|by apply map_Forall_delete].
    apply (books_finish _ _ _ _ n). eapply books_perm; [|exact Hb]. by apply (numbers_delete us_number _ _ _ E).
  - unfold uiSetDestination. destruct (ui_sessions u !! callID) as [s|] eqn:E; [|done].
    eapply ui_update; [done|exact E|done|]. apply (uv_sessions _ Hi _ _ E).
Qed.

Lemma ui_inv_reachable u : ui_reachable u -> ui_inv u.
Proof.
  intros H. unfold ui_reachable in H. revert u H. apply (rtc_ind_r (R := ui_step) ui_inv).
  - split; cbn; [|split; [constructor|cbn; lia]|apply map_Forall_empty]. change (ui_numbers _) with (@nil Z).
    split; try done; [apply NoDup_nil_2|right; lia|]. split; [done|]. intros [? _]. lia.
  - intros u1 u2 _ Hs Hi. by eapply ui_inv_step.
Qed.

End PerSource.

(** ** Routing on a shared connection *)

Inductive conn_kind :=
  | KTCP
  | KTLS
  | KWS (perCall : bool).

Definition conn_key (k : conn_kind) (msg : Message) : option str :=
  match k with
  | KTLS => Header (Headers msg) (lit "Call-ID")
  | _ => message_key msg
  end.

Section Routing.

Context (regexMatch : str -> str -> bool) (lm : limits) (k : conn_kind).

Definition connMessage (accept : bool) (sc : Scenario) (msg : Message) (ss : sessions) : conn_effect * sessions :=
  match k with
  | KTCP => tcpSharedMessage regexMatch lm accept sc msg ss
  | KTLS => tlsSharedMessage lm accept sc msg ss
  | KWS perCall => wsMessage perCall sc msg ss
  end.

(** A call takes the next message of its inbox. *)
Definition takeConn (callID : str) (ss : sessions) : sessions :=
  match ss !! callID with
  | Some (mkConnSession n (_ :: q)) => <[callID := mkConnSession n q]> ss
  | _ => ss
  end.

(** The messages read so far and the sessions. *)
Inductive conn_step : list Message * sessions -> list Message * sessions -> Prop :=
  | ConnMessage accept sc msg read ss : conn_step (read, ss) (read ++ [msg], (connMessage accept sc msg ss).2)
  | ConnTake callID read ss : conn_step (read, ss) (read, takeConn callID ss)
  | ConnEnd callID read ss : conn_step (read, ss) (read, endConnCall callID ss).

Definition conn_reachable : list Message * sessions -> Prop := rtc conn_step ([], ∅).

Definition of_call (id : str) (read : list Message) : list Message := filter (fun m => conn_key k m = Some id) read.

Definition conn_inv (st : list Message * sessions) : Prop :=
  map_Forall (fun id s => (length (cs_inbox s) <= connInboxCap)%nat /\ cs_inbox s `sublist_of` of_call id st.1) st.2.

Lemma of_call_snoc id read msg : conn_key k msg = Some id -> of_call id (read ++ [msg]) = of_call id read ++ [msg].
Proof. intros H. unfold of_call. by rewrite filter_app, filter_cons_True. Qed.

Lemma of_call_mono id read msg : of_call id read `sublist_of` of_call id (read ++ [msg]).
Proof. unfold of_call. rewrite filter_app. by apply sublist_inserts_r. Qed.

Lemma conn_inv_mono read msg ss : conn_inv (read, ss) -> conn_inv (read ++ [msg], ss).
Proof. intros H id s Hs. destruct (H id s Hs) as [H1 H2]. split; [done|]. etrans; [exact H2|]. apply of_call_mono. Qed.

Lemma conn_inv_offer read ss id msg : conn_inv (read, ss) -> conn_key k msg = Some id ->
  conn_inv (read ++ [msg], (offer id msg ss).2).
Proof.
  intros H Hk. unfold offer. destruct (ss !! id) as [s|] eqn:E; [|by apply conn_inv_mono].
  destruct (Nat.ltb_spec (length (cs_inbox s)) connInboxCap) as [Hl|]; [|by apply conn_inv_mono].
  unfold conn_inv. cbn [fst snd]. apply map_Forall_insert_2; [|exact (conn_inv_mono read msg ss H)]. destruct (H id s E) as [_ H2]. cbn. split.
  - rewrite length_app. cbn. lia.
  - rewrite of_call_snoc by done. by apply sublist_app.
Qed.

Lemma conn_inv_open read ss id n msg : conn_inv (read, ss) -> conn_key k msg = Some id ->
  conn_inv (read ++ [msg], (openSession id n msg ss).2).
Proof.
  intros H Hk. cbn [openSession snd]. apply conn_inv_offer; [|done].
  unfold conn_inv. cbn [fst snd]. apply map_Forall_insert_2; [|exact H]. cbn. split; [lia|apply sublist_nil_l].
Qed.

Lemma conn_inv_step x y : conn_inv x -> conn_step x y -> conn_inv y.
Proof.
  intros H Hs. destruct Hs as [accept sc msg read ss|callID read ss|callID read ss].
  - pose proof (conn_inv_mono read msg ss H) as Hm.
    destruct k as [| |perCall] eqn:Ek; cbn [connMessage] in *;
      unfold connMessage, tcpSharedMessage, tlsSharedMessage, wsMessage; rewrite ?Ek;
      destruct (Header (Headers msg) _) as [callID|] eqn:Eh; try done; cbv zeta;
      match goal with |- context [ss !! ?id] =>
        assert (conn_key k msg = Some id) as Hkey by (unfold conn_key, message_key; by rewrite Ek, Eh) end;
      (destruct (ss !! _) as [s|]; [by apply conn_inv_offer|]);
      try (destruct (negb accept); [done|]); (destruct (snapshotLiveFirstRecvCommand sc) as [cmd|]; [|done]);
      repeat (match goal with |- context [if ?c then (ConnIgnored, _) else _] => destruct c; [done|] end);
      by apply conn_inv_open.
  - unfold takeConn. destruct (ss !! callID) as [[n [|m q]]|] eqn:E; try done. unfold conn_inv. cbn [fst snd].
    apply map_Forall_insert_2; [|exact H]. destruct (H _ _ E) as [H1 H2]. cbn in *. split; [lia|]. etrans; [|exact H2]. by apply sublist_cons.
  - unfold conn_inv. cbn [fst snd]. by apply map_Forall_delete.
Qed.

Lemma conn_inv_reachable x : conn_reachable x -> conn_inv x.
Proof.
  intros H. unfold conn_reachable in H. revert x H. apply (rtc_ind_r (R := conn_step) conn_inv).
  - apply map_Forall_empty.
  - intros x y _ Hs Hi. by eapply conn_inv_step.
Qed.

End Routing.

(** ** Choosing the mode *)

Inductive server_mode :=
  | ModeUDP | ModePerSource | ModeTCPShared | ModeTCPPerConn | ModeTLSShared | ModeTLSPerConn
  | ModeWSShared (tls : bool) | ModeWSPerConn (tls : bool).

#[export] Instance server_mode_eq_dec : EqDecision server_mode.
Proof. solve_decision. Defined.

(** [runServer] with a single listener; [None] for an unsupported transport. *)
Definition runServer (transport : str) : option server_mode :=
  if bool_decide (transport = lit "u1" \/ transport = lit "un") then Some ModeUDP
  else if bool_decide (transport = lit "ui") then Some ModePerSource
  else if bool_decide (transport = lit "t1") then Some ModeTCPShared
  else if bool_decide (transport = lit "tn") then Some ModeTCPPerConn
  else if bool_decide (transport = lit "l1") then Some ModeTLSShared
  else if bool_decide (transport = lit "ln") then Some ModeTLSPerConn
  else if bool_decide (transport = lit "w1") then Some (ModeWSShared false)
  else if bool_decide (transport = lit "wn") then Some (ModeWSPerConn false)
  else if bool_decide (transport = lit "ws1") then Some (ModeWSShared true)
  else if bool_decide (transport = lit "wsn") then Some (ModeWSPerConn true)
  else None.

(** [runOneServerListener], with the test of [runServerWSSharedOn] and
    [runServerWSPerConnOn] that decides on TLS. *)
Definition runOneServerListener (transport : str) : option server_mode :=
  let tls := bool_decide (transport = lit "ws1" \/ transport = lit "wsn") in
  if bool_decide (transport = lit "u1" \/ transport = lit "un") then Some ModeUDP
  else if bool_decide (transport = lit "t1") then Some ModeTCPShared
  else if bool_decide (transport = lit "tn") then Some ModeTCPPerConn
  else if bool_decide (transport = lit "l1") then Some ModeTLSShared
  else if bool_decide (transport = lit "ln") then Some ModeTLSPerConn
  else if bool_decide (transport = lit "w1" \/ transport = lit "ws1") then Some (ModeWSShared tls)
  else if bool_decide (transport = lit "wn" \/ transport = lit "wsn") then Some (ModeWSPerConn tls)
  else None.

(** * Properties *)

(** C12: Several listeners number and count calls together.  For any mix of UDP
    sockets, shared TCP or TLS connections and connections per call that share
    a coordinator, and any interleaving of their goroutines: the calls that
    have a number and are not yet counted as finished (in a session table,
    being entered into it, leaving it, or on their own connection) have
    different numbers between 1 and the number accepted, there are exactly
    accepted minus finished of them, a limited server accepts at most
    [TotalCalls], and it is done exactly when that many have finished. *)
Theorem multi_listener_counted regexMatch lm w :
  sv_reachable regexMatch lm w ->
  NoDup (numbers w) /\ Forall (fun n => 1 <= n <= co_accepted (sv_co w)) (numbers w)
  /\ Z.of_nat (length (numbers w)) = co_accepted (sv_co w) - co_finished (sv_co w)
  /\ (lm_UnlimitedCalls lm = true \/ co_accepted (sv_co w) <= Z.max 0 (lm_TotalCalls lm))
  /\ (co_done (sv_co w) = true <-> 0 < co_finished (sv_co w) /\ serverFinishedAll lm (co_finished (sv_co w)) = true).
Proof. intros H. by destruct (sv_inv_reachable _ _ _ H) as [[H1 H2 H3 H4 H5 H6] _]. Qed.

(** The message of a packet, for concrete runs. *)
Definition parsed (data : str) : Message := match Parse data with Ok m => m | Err _ => emptyMessage end.

Definition demo_servers : servers :=
  mkServers (reserveCallSlot two_calls accepted_one).2
    [mkStream ∅ (Inserting (lit "c1") (parsed invite_packet) 2) []] [].

Lemma demo_servers_reachable : sv_reachable no_regex two_calls demo_servers.
Proof.
  eapply rtc_l; [apply (SvUDP _ _ true uas_scenario 1 emptyMessage invite_packet)|].
  eapply rtc_l; [apply SvConnect|].
  eapply rtc_l; [apply (SvMessage _ _ true true uas_scenario (parsed invite_packet) _ [] _ []); reflexivity|].
  eapply rtc_l; [apply (SvReserve _ _ (lit "c1") (parsed invite_packet) _ [] _ []); vm_compute; reflexivity|].
  match goal with |- rtc _ ?w _ => assert (w = demo_servers) as -> by (vm_compute; reflexivity) end. apply rtc_refl.
Qed.

Lemma multi_listener_counted_witness :
  NoDup (numbers demo_servers) /\ Forall (fun n => 1 <= n <= co_accepted (sv_co demo_servers)) (numbers demo_servers)
  /\ Z.of_nat (length (numbers demo_servers)) = co_accepted (sv_co demo_servers) - co_finished (sv_co demo_servers)
  /\ (lm_UnlimitedCalls two_calls = true \/ co_accepted (sv_co demo_servers) <= Z.max 0 (lm_TotalCalls two_calls))
  /\ (co_done (sv_co demo_servers) = true
      <-> 0 < co_finished (sv_co demo_servers) /\ serverFinishedAll two_calls (co_finished (sv_co demo_servers)) = true).
Proof. apply (multi_listener_counted no_regex two_calls demo_servers demo_servers_reachable). Defined.

(** The server with one socket per source address keeps the same books, and
    keeps its sockets apart: whatever waits for a call came over the socket the
    call began on and carries its Call-ID, and neither the queue between the
    sockets and the sessions nor an inbox outgrows its bound. *)
Theorem per_source_counted regexMatch lm lookupHost u :
  ui_reachable regexMatch lm lookupHost u ->
  NoDup (ui_numbers u) /\ Z.of_nat (length (ui_numbers u)) = ui_accepted u - ui_finished u
  /\ (lm_UnlimitedCalls lm = true \/ ui_accepted u <= Z.max 0 (lm_TotalCalls lm))
  /\ (ui_done u = true <-> 0 < ui_finished u /\ serverFinishedAll lm (ui_finished u) = true)
  /\ (length (ui_incoming u) <= incomingCap)%nat
  /\ map_Forall (fun id s => Forall (fun x => x.1 = us_socket s /\ message_key (pm_msg x.2) = Some id) (us_inbox s)
                             /\ (length (us_inbox s) <= sipMailboxCap)%nat) (ui_sessions u).
Proof.
  intros H. destruct (ui_inv_reachable _ _ _ _ H) as [[B1 B2 B3 B4 B5 B6] [_ Q] S]. split_and!; try done.
  intros id s Hs. destruct (S id s Hs) as (S1 & S2 & _). done.
Qed.

Definition no_dns (host : str) : option (list str) := None.

Definition demo_inbound : udpServerInbound :=
  mkInbound (mkPmsg 1 (parsed invite_packet)) (lit "c1") ([x7f; x00; x00; x01], 5060) 0.

Definition demo_ui : uiServer := uiPacket no_regex two_calls no_dns true uas_scenario demo_inbound newUiServer.

Lemma demo_ui_reachable : ui_reachable no_regex two_calls no_dns demo_ui.
Proof.
  eapply rtc_l; [apply (UiRead _ _ _ 0 1 emptyMessage invite_packet ([x7f; x00; x00; x01], 5060) demo_inbound)|].
  - vm_compute. reflexivity.
  - unfold incomingCap. cbn. lia.
  - eapply rtc_l; [apply (UiTake _ _ _ true uas_scenario demo_inbound [])|]; [reflexivity|]. apply rtc_refl.
Qed.

Lemma per_source_counted_witness :
  NoDup (ui_numbers demo_ui) /\ Z.of_nat (length (ui_numbers demo_ui)) = ui_accepted demo_ui - ui_finished demo_ui
  /\ (lm_UnlimitedCalls two_calls = true \/ ui_accepted demo_ui <= Z.max 0 (lm_TotalCalls two_calls))
  /\ (ui_done demo_ui = true <-> 0 < ui_finished demo_ui /\ serverFinishedAll two_calls (ui_finished demo_ui) = true)
  /\ (length (ui_incoming demo_ui) <= incomingCap)%nat
  /\ map_Forall (fun id s => Forall (fun x => x.1 = us_socket s /\ message_key (pm_msg x.2) = Some id) (us_inbox s)
                             /\ (length (us_inbox s) <= sipMailboxCap)%nat) (ui_sessions demo_ui).
Proof. apply (per_source_counted no_regex two_calls no_dns demo_ui demo_ui_reachable). Defined.

(** On a shared connection messages reach their own call in order: what waits
    for a call is part of the messages with its Call-ID that were read, in the
    order they were read, and never more than the eight an inbox holds. *)
Theorem shared_connection_routing regexMatch lm k read ss :
  conn_reachable regexMatch lm k (read, ss) ->
  map_Forall (fun id s => (length (cs_inbox s) <= connInboxCap)%nat
                          /\ cs_inbox s `sublist_of` filter (fun m => conn_key k m = Some id) read) ss.
Proof. intros H. exact (conn_inv_reachable _ _ _ _ H). Qed.

Lemma shared_connection_routing_witness :
  match tcpSharedMessage no_regex two_calls true uas_scenario (parsed invite_packet) ∅ with
  | (_, ss) =>
    map_Forall (fun id s => (length (cs_inbox s) <= connInboxCap)%nat
      /\ cs_inbox s `sublist_of` filter (fun m => conn_key KTCP m = Some id) [parsed invite_packet]) ss
  end.
Proof.
  rewrite (surjective_pairing (tcpSharedMessage _ _ _ _ _ _)).
  apply (shared_connection_routing no_regex two_calls KTCP).
  eapply rtc_l; [apply (ConnMessage no_regex two_calls KTCP true uas_scenario (parsed invite_packet) [] ∅)|]. apply rtc_refl.
Defined.

Lemma perConnLoop_numbers lm accepted conns :
  Forall (fun n => accepted < n /\ (lm_UnlimitedCalls lm = true \/ n <= lm_TotalCalls lm)) (perConnLoop lm accepted conns)
  /\ NoDup (perConnLoop lm accepted conns).
Proof.
  revert accepted. induction conns as [|c conns IH]; intros accepted; [split; constructor|]. cbn [perConnLoop].
  destruct (_ || _) eqn:E; [|split; constructor]. destruct (IH (accepted + 1)) as [I1 I2].
  assert (Forall (fun n => accepted < n /\ (lm_UnlimitedCalls lm = true \/ n <= lm_TotalCalls lm))
            (perConnLoop lm (accepted + 1) conns)) as I3.
  { eapply Forall_impl; [exact I1|]. intros n [H1 H2]. split; [lia|done]. }
  destruct c; [|done]. split.
  - constructor; [|done]. split; [lia|]. apply orb_true_iff in E as [E|E%Z.ltb_lt]; [by left|right; lia].
  - constructor; [|done]. intros Hin. apply (proj1 (Forall_forall _ _) I1) in Hin. lia.
Qed.

Lemma waitForFirst_some regexMatch cmd msgs first rest :
  waitForFirstServerMessage regexMatch cmd msgs = Some (first, rest) ->
  matchesFirst regexMatch cmd first = true
  /\ exists skipped, msgs = skipped ++ first :: rest /\ Forall (fun m => matchesFirst regexMatch cmd m = false) skipped.
Proof.
  revert first rest. induction msgs as [|m msgs IH]; intros first rest; [done|]. cbn [waitForFirstServerMessage].
  destruct (matchesFirst regexMatch cmd m) eqn:E.
  - intros [= -> ->]. split; [done|]. exists []. split; [done|constructor].
  - intros H. destruct (IH _ _ H) as (H1 & skipped & -> & H2). split; [done|]. exists (m :: skipped). split; [done|by constructor].
Qed.

(** With a connection per call the served connections get different numbers
    within the limit, and a call receives the first message that may open it
    and everything read after it, nothing else. *)
Theorem per_connection_calls regexMatch lm conns sc normalise msgs callID received :
  NoDup (perConnLoop lm 0 conns)
  /\ Forall (fun n => 1 <= n /\ (lm_UnlimitedCalls lm = true \/ n <= lm_TotalCalls lm)) (perConnLoop lm 0 conns)
  /\ (perConnCall regexMatch sc normalise msgs = Some (callID, received) ->
      exists cmd skipped first rest,
        snapshotLiveFirstRecvCommand sc = Some cmd /\ received = first :: rest /\ msgs = skipped ++ received
        /\ matchesFirst regexMatch cmd first = true
        /\ Forall (fun m => matchesFirst regexMatch cmd m = false) skipped).
Proof.
  destruct (perConnLoop_numbers lm 0 conns) as [H1 H2]. split; [done|]. split.
  - eapply Forall_impl; [exact H1|]. intros n [Hn Hl]. split; [lia|done].
  - unfold perConnCall. destruct (snapshotLiveFirstRecvCommand sc) as [cmd|]; [|done].
    destruct (waitForFirstServerMessage _ _ _) as [[first rest]|] eqn:E; [|done]. destruct (Header _ _) as [c|]; [|done].
    intros [= _ <-]. apply waitForFirst_some in E as (E1 & skipped & E2 & E3). by exists cmd, skipped, first, rest.
Qed.

(** A listener serves every transport a single server does, except one socket
    per source address. *)
Theorem listener_modes transport :
  runOneServerListener transport
  = match runServer transport with Some ModePerSource => None | m => m end.
Proof.
  unfold runOneServerListener, runServer. cbv zeta.
  repeat case_bool_decide; try done; naive_solver.
Qed.

(** ** Where the modes differ from the UDP server *)

(** On a shared TCP connection the total number of calls is not limited and
    numbers come again: with [TotalCalls] 1 a second call is accepted once
    the first has ended, with the same number. *)
Theorem tcp_shared_total_ignored :
  let one := mkLimits 10 0 false 1 in
  let first := tcpSharedMessage no_regex one true uas_scenario (parsed invite_packet) ∅ in
  first.1 = ConnStarted (lit "c1") 1
  /\ (tcpSharedMessage no_regex one true uas_scenario (parsed invite_packet) (endConnCall (lit "c1") first.2)).1
     = ConnStarted (lit "c1") 1.
Proof. vm_compute. done. Qed.

(** A connection refused because the listener is disabled uses up one of the
    calls of a server with a connection per call. *)
Theorem refused_connection_counts : perConnLoop (mkLimits 10 0 false 1) 0 [false; true] = [].
Proof. reflexivity. Qed.

Definition prefixed_packet : str :=
  lit "INVITE sip:b SIP/2.0" ++ crlf ++ lit "Call-ID: 1///c1" ++ crlf ++ lit "CSeq: 1 INVITE" ++ crlf ++ crlf.

(** On a shared TLS connection a Call-ID with a [///] prefix names a call of its
    own, elsewhere the prefix is taken off. *)
Theorem tls_shared_raw_call_id :
  (tlsSharedMessage two_calls true uas_scenario (parsed prefixed_packet)
     (tlsSharedMessage two_calls true uas_scenario (parsed invite_packet) ∅).2).1 = ConnStarted (lit "1///c1") 2
  /\ (tcpSharedMessage no_regex two_calls true uas_scenario (parsed prefixed_packet)
     (tcpSharedMessage no_regex two_calls true uas_scenario (parsed invite_packet) ∅).2).1 = ConnDelivered (lit "c1").
Proof. vm_compute. done. Qed.

(** A WebSocket server does not look at [TotalCalls], and a connection meant for one
    call takes another when the first is over. *)
Theorem ws_serves_again :
  (wsMessage true uas_scenario (parsed invite_packet)
     (endConnCall (lit "c1") (wsMessage true uas_scenario (parsed invite_packet) ∅).2)).1 = ConnStarted (lit "c1") 1.
Proof. vm_compute. done. Qed.
