(* ===== verification/ClientRun.v ===== *)
(** * Running a client ([internal/engine/engine.go] and its TLS and WebSocket siblings)

    [runClient] and the loops it chooses from: every loop waits for the rate
    controller, takes a slot of the call limiter, and starts a goroutine that
    opens what the mode needs, runs the call and cleans up in the order of its
    defers.  The loops are one transition system over the limiter of
    [Semaphore] and the controller of [RateControl], instantiated by a
    description of each mode.  Errors are numbered. *)

From stdpp Require Import base list gmap strings relations.
From Stdlib Require Import ZArith Lia Strings.Byte.
From S2P Require Import Prelude GoStrings GoFloat NetAddr SipMessage Scenario EngineText Semaphore RateControl.

(** ** Modes *)

(** The ten loops of the client have the same body; a mode records where they
    differ, and the transition system below is the body.  Each named mode is
    the loop of that name. *)

(** What a call of the mode opens before it runs and closes afterwards. *)
Inductive resource :=
  | NoResource
  | Mailbox          (* a mailbox of the registry, over a shared socket *)
  | OwnSocket.       (* a socket or connection of its own *)

Record clientMode := mkClientMode {
  cm_perSocket : bool;       (* perSocketMode, and the argument of callConcurrencyLimit *)
  cm_resource : resource;
  cm_openFails : bool;       (* opening can fail: a dial, or no socket for the source address *)
  cm_setDestination : bool   (* the call can change the destination, kept in one variable for all calls *)
}.

Definition runClientCommandOnly : clientMode := mkClientMode false NoResource false false.
Definition runClientShared : clientMode := mkClientMode true Mailbox false true.
Definition runClientPerCall : clientMode := mkClientMode false OwnSocket true false.
Definition runClientPerSourceIP : clientMode := mkClientMode false Mailbox true true.
Definition runClientSharedTCP : clientMode := mkClientMode true Mailbox false false.
Definition runClientPerCallTCP : clientMode := mkClientMode false OwnSocket true false.
Definition runClientSharedTLS : clientMode := mkClientMode false Mailbox false false.
Definition runClientPerCallTLS : clientMode := mkClientMode true OwnSocket true false.
Definition runClientSharedWSCommon : clientMode := mkClientMode false Mailbox false false.
Definition runClientPerCallWSCommon : clientMode := mkClientMode true OwnSocket true false.

Inductive run_error := ErrNoRemote | ErrTransport (transport : str).

(** [runClient]: the loop for a configuration. *)
Definition runClient (sc : Scenario) (remoteHost : str) (remotePort : Z) (transport : str) : result run_error clientMode :=
  if negb (scenarioNeedsSIPTransport sc) then Ok runClientCommandOnly
  else if bool_decide (remoteHost = []) || (remotePort =? 0) then Err ErrNoRemote
  else if bool_decide (transport = lit "u1") then Ok runClientShared
  else if bool_decide (transport = lit "un") then Ok runClientPerCall
  else if bool_decide (transport = lit "ui") then Ok runClientPerSourceIP
  else if bool_decide (transport = lit "t1") then Ok runClientSharedTCP
  else if bool_decide (transport = lit "tn") then Ok runClientPerCallTCP
  else if bool_decide (transport = lit "l1") then Ok runClientSharedTLS
  else if bool_decide (transport = lit "ln") then Ok runClientPerCallTLS
  else if bool_decide (transport = lit "w1") then Ok runClientSharedWSCommon
  else if bool_decide (transport = lit "wn") then Ok runClientPerCallWSCommon
  else if bool_decide (transport = lit "ws1") then Ok runClientSharedWSCommon
  else if bool_decide (transport = lit "wsn") then Ok runClientPerCallWSCommon
  else Err (ErrTransport transport).

(** ** State *)

(** Where the goroutine of a call stands.  Its defers run in reverse order:
    close the socket or give up the mailbox, release the slot, [wg.Done]. *)
Inductive call_stage :=
  | Opening
  | Executing
  | Cleaning           (* the call is over, its resource still held *)
  | Releasing
  | Finishing.         (* only wg.Done is left *)

Record call := mkCall {
  cl_number : Z;
  cl_stage : call_stage
}.

(** Where the loop stands, with the number of the next call. *)
Inductive loop_pc :=
  | LoopTest (i : Z)
  | LoopRate (i : Z)
  | LoopAcquire (i : Z)
  | LoopWait                        (* wg.Wait() *)
  | LoopReturned (err : option Z).

Record client := mkClient {
  ct_pc : loop_pc;
  ct_rate : RateController;
  ct_sem : dynSemaphore;
  ct_wg : Z;
  ct_calls : list call;             (* goroutines that exist *)
  ct_runErr : option Z;             (* runErr behind once *)
  ct_remote : Z;                    (* the destination variable the calls share *)
  ct_cancelled : bool;              (* the context of the run *)
  (* for the statements *)
  ct_started : list Z;
  ct_failures : list Z;             (* errors in the order they were reported *)
  ct_sent : list (Z * Z)            (* call number and destination of every send *)
}.

Section Run.

Context (m : clientMode) (lm : limits).

(** The loop begins: perSocketMode is set and the limiter resized. *)
Definition startClient (rate : RateController) (remote : Z) (sem : dynSemaphore) : client :=
  mkClient (LoopTest 1) rate (Resize (callConcurrencyLimit lm (cm_perSocket m)) sem) 0 [] None remote false [] [] [].

Definition with_pc (c : client) (pc : loop_pc) : client :=
  mkClient pc (ct_rate c) (ct_sem c) (ct_wg c) (ct_calls c) (ct_runErr c) (ct_remote c) (ct_cancelled c)
    (ct_started c) (ct_failures c) (ct_sent c).
Definition with_rate (c : client) (r : RateController) : client :=
  mkClient (ct_pc c) r (ct_sem c) (ct_wg c) (ct_calls c) (ct_runErr c) (ct_remote c) (ct_cancelled c)
    (ct_started c) (ct_failures c) (ct_sent c).
Definition with_sem (c : client) (s : dynSemaphore) : client :=
  mkClient (ct_pc c) (ct_rate c) s (ct_wg c) (ct_calls c) (ct_runErr c) (ct_remote c) (ct_cancelled c)
    (ct_started c) (ct_failures c) (ct_sent c).
Definition with_calls (c : client) (calls : list call) : client :=
  mkClient (ct_pc c) (ct_rate c) (ct_sem c) (ct_wg c) calls (ct_runErr c) (ct_remote c) (ct_cancelled c)
    (ct_started c) (ct_failures c) (ct_sent c).

(** The head of the loop. *)
Definition loopTest (i : Z) (c : client) : client :=
  if clientShouldSpawnAnother lm i then with_pc c (LoopRate i) else with_pc c LoopWait.

(** [waitForNextCall], for what happened while it waited; errors of the context
    have number 0. *)
Definition loopRate (i : Z) (passes : list rate_pass) (c : client) : client :=
  let '(out, r) := Wait passes (ct_rate c) in
  let c := with_rate c r in
  match out with
  | RateFire _ => with_sem (with_pc c (LoopAcquire i)) (callAcquire (Z.to_nat i) (ct_sem c))
  | RateStopped => with_pc c LoopWait
  | RateCtx => with_pc c (LoopReturned (Some 0))
  | RateWaiting => c
  end.

(** [Acquire] has returned: [wg.Add], the goroutine, the next round; or an
    early return. *)
Definition loopAcquired (i : Z) (c : client) : client :=
  mkClient (LoopTest (i + 1)) (ct_rate c) (ct_sem c) (ct_wg c + 1) (ct_calls c ++ [mkCall i Opening]) (ct_runErr c)
    (ct_remote c) (ct_cancelled c) (ct_started c ++ [i]) (ct_failures c) (ct_sent c).

(** [once.Do(func() { runErr = err })] *)
Definition reportError (e : Z) (c : client) : client :=
  mkClient (ct_pc c) (ct_rate c) (ct_sem c) (ct_wg c) (ct_calls c)
    (match ct_runErr c with None => Some e | Some e0 => Some e0 end) (ct_remote c) (ct_cancelled c)
    (ct_started c) (ct_failures c ++ [e]) (ct_sent c).

(** The end of a goroutine. *)
Definition doneCall (c : client) : client :=
  mkClient (ct_pc c) (ct_rate c) (ct_sem c) (ct_wg c - 1) (ct_calls c) (ct_runErr c) (ct_remote c) (ct_cancelled c)
    (ct_started c) (ct_failures c) (ct_sent c).

(** The message goes to the destination the variable holds now. *)
Definition sendFrom (n : Z) (c : client) : client :=
  mkClient (ct_pc c) (ct_rate c) (ct_sem c) (ct_wg c) (ct_calls c) (ct_runErr c) (ct_remote c) (ct_cancelled c)
    (ct_started c) (ct_failures c) (ct_sent c ++ [(n, ct_remote c)]).

(** [setDestination] assigns the variable of the loop. *)
Definition setDestination (remote : Z) (c : client) : client :=
  mkClient (ct_pc c) (ct_rate c) (ct_sem c) (ct_wg c) (ct_calls c) (ct_runErr c) remote (ct_cancelled c)
    (ct_started c) (ct_failures c) (ct_sent c).

Definition cancelRun (i : nat) (c : client) : client :=
  mkClient (ct_pc c) (ct_rate c) (cancelContext i (ct_sem c)) (ct_wg c) (ct_calls c) (ct_runErr c) (ct_remote c) true
    (ct_started c) (ct_failures c) (ct_sent c).

(** [SetMaxConcurrent] during the run. *)
Definition setMaxConcurrent (n : Z) (c : client) : client :=
  let n := if n <? 1 then 1 else n in
  let limit := if cm_perSocket m && (0 <? lm_MaxSockets lm) && (lm_MaxSockets lm <? n) then lm_MaxSockets lm else n in
  with_sem c (Resize limit (ct_sem c)).

(** ** Steps *)

(** Steps of the limiter on its own: a caller tests, goes to sleep, or a wake-up
    is delivered. *)
Inductive sem_internal : dynSemaphore -> dynSemaphore -> Prop :=
  | IntCheck l i r s : s_checked s = None -> s_ready s = l ++ i :: r -> sem_internal s (acquireCheck i (withReady (l ++ r) s))
  | IntWait i s : s_checked s = Some i -> sem_internal s (condWait i s)
  | IntSignal s : (0 < s_signals s)%nat -> sem_internal s (Signal s)
  | IntBroadcast s : (0 < s_broadcasts s)%nat -> sem_internal s (Broadcast s).

(** [resize] says whether the limit may be changed while the client runs. *)
Inductive cstep (resize : bool) : client -> client -> Prop :=
  | CTest i c : ct_pc c = LoopTest i -> cstep resize c (loopTest i c)
  | CRate i passes c :
      ct_pc c = LoopRate i -> ((Wait passes (ct_rate c)).1 = RateCtx -> ct_cancelled c = true) ->
      cstep resize c (loopRate i passes c)
  | CGot i c : ct_pc c = LoopAcquire i -> Z.to_nat i ∈ s_got (ct_sem c) -> cstep resize c (loopAcquired i c)
  | CFailed i c :
      ct_pc c = LoopAcquire i -> Z.to_nat i ∈ s_failed (ct_sem c) -> cstep resize c (with_pc c (LoopReturned (Some 0)))
  | CSem s c : sem_internal (ct_sem c) s -> cstep resize c (with_sem c s)
  | COpen l n r c :
      ct_calls c = l ++ mkCall n Opening :: r -> cstep resize c (with_calls c (l ++ mkCall n Executing :: r))
  | COpenFails l n r e c :        (* the socket cannot be opened, or there is none for the source address *)
      ct_calls c = l ++ mkCall n Opening :: r -> cm_openFails m = true ->
      cstep resize c (reportError e (with_calls c (l ++ mkCall n Releasing :: r)))
  | CSend l n r c : ct_calls c = l ++ mkCall n Executing :: r -> cstep resize c (sendFrom n c)
  | CSetDest l n r remote c :
      ct_calls c = l ++ mkCall n Executing :: r -> cm_setDestination m = true -> cstep resize c (setDestination remote c)
  | CSucceeds l n r c :
      ct_calls c = l ++ mkCall n Executing :: r -> cstep resize c (with_calls c (l ++ mkCall n Cleaning :: r))
  | CFails l n r e c :
      ct_calls c = l ++ mkCall n Executing :: r ->
      cstep resize c (reportError e (with_calls c (l ++ mkCall n Cleaning :: r)))
  | CClean l n r c :
      ct_calls c = l ++ mkCall n Cleaning :: r -> cstep resize c (with_calls c (l ++ mkCall n Releasing :: r))
  | CRelease l n r c :
      ct_calls c = l ++ mkCall n Releasing :: r -> s_checked (ct_sem c) = None ->
      cstep resize c (with_sem (with_calls c (l ++ mkCall n Finishing :: r)) (Release (ct_sem c)))
  | CDone l n r c : ct_calls c = l ++ mkCall n Finishing :: r -> cstep resize c (doneCall (with_calls c (l ++ r)))
  | CWait c : ct_pc c = LoopWait -> ct_wg c = 0 -> cstep resize c (with_pc c (LoopReturned (ct_runErr c)))
  | CCancel i c : cstep resize c (cancelRun i c)
  | CRateOp op c : cstep resize c (with_rate c (rate_apply (ct_rate c) op))
  | CResize n c : resize = true -> s_checked (ct_sem c) = None -> cstep resize c (setMaxConcurrent n c).

Definition c_reachable (resize : bool) (rate : RateController) (remote limit : Z) : client -> Prop :=
  rtc (cstep resize) (startClient rate remote (newDynSemaphore limit)).

(** ** Invariant *)

Definition holding (c : call) : bool := match cl_stage c with Finishing => false | _ => true end.
Definition holders (calls : list call) : Z := Z.of_nat (length (filter (fun c => holding c = true) calls)).

Definition waiting (s : dynSemaphore) : list nat :=
  match s_checked s with Some i => [i] | None => [] end ++ s_ready s ++ s_asleep s.

(** Number of the call the loop is at. *)
Definition loop_at (pc : loop_pc) : option Z :=
  match pc with LoopTest i | LoopRate i | LoopAcquire i => Some i | _ => None end.

Definition acquiring (pc : loop_pc) (j : nat) : Prop := exists i, pc = LoopAcquire i /\ j = Z.to_nat i.

(** One more slot is taken while [Acquire] has succeeded and the goroutine does
    not exist yet. *)
Definition in_hand (c : client) : Z :=
  match ct_pc c with
  | LoopAcquire i => if bool_decide (Z.to_nat i ∈ s_got (ct_sem c)) then 1 else 0
  | _ => 0
  end.

Record sem_ok (c : client) : Prop := {
  so_active : s_active (ct_sem c) = holders (ct_calls c) + in_hand c;
  so_waiting : forall j, j ∈ waiting (ct_sem c) ->
    acquiring (ct_pc c) j /\ j ∉ s_got (ct_sem c) /\ j ∉ s_failed (ct_sem c);
  so_nodup : NoDup (waiting (ct_sem c));
  so_got : forall j, j ∈ s_got (ct_sem c) -> (1 <= j <= length (ct_started c))%nat \/ acquiring (ct_pc c) j;
  so_failed : forall j, j ∈ s_failed (ct_sem c) ->
    ct_cancelled c = true /\ (acquiring (ct_pc c) j \/ exists e, ct_pc c = LoopReturned e);
  so_cancel : s_cancelled (ct_sem c) <> ∅ -> ct_cancelled c = true;
  so_apart : forall j, j ∈ s_got (ct_sem c) -> j ∉ s_failed (ct_sem c)
}.

Record loop_ok (c : client) : Prop := {
  lo_started : ct_started c = seqZ 1 (Z.of_nat (length (ct_started c)));
  lo_at : forall i, loop_at (ct_pc c) = Some i -> i = Z.of_nat (length (ct_started c)) + 1;
  lo_limit : lm_UnlimitedCalls lm = true \/ Z.of_nat (length (ct_started c)) <= Z.max 0 (lm_TotalCalls lm);
  lo_go : forall i, ct_pc c = LoopRate i \/ ct_pc c = LoopAcquire i -> clientShouldSpawnAnother lm i = true;
  lo_wg : ct_wg c = Z.of_nat (length (ct_calls c));
  lo_calls : NoDup (map cl_number (ct_calls c)) /\ Forall (fun x => cl_number x ∈ ct_started c) (ct_calls c);
  lo_err : ct_runErr c = head (ct_failures c);
  lo_wait : ct_pc c = LoopWait ->
    rc_stopped (ct_rate c) = true
    \/ (lm_UnlimitedCalls lm = false /\ Z.of_nat (length (ct_started c)) = Z.max 0 (lm_TotalCalls lm));
  lo_returned : forall e, ct_pc c = LoopReturned e ->
    (e = Some 0 /\ ct_cancelled c = true)
    \/ (ct_calls c = [] /\ e = ct_runErr c
        /\ (rc_stopped (ct_rate c) = true
            \/ (lm_UnlimitedCalls lm = false /\ Z.of_nat (length (ct_started c)) = Z.max 0 (lm_TotalCalls lm))))
}.

Lemma holders_app l x r : holders (l ++ x :: r) = holders (l ++ r) + if holding x then 1 else 0.
Proof.
  unfold holders. rewrite !filter_app, !length_app, filter_cons. destruct (decide _) as [E|E]; rewrite ?E; cbn; [lia|].
  destruct (holding x); [done|]. lia.
Qed.

Lemma rate_apply_stopped r op : rc_stopped r = true -> rc_stopped (rate_apply r op) = true.
Proof. intros H. destruct op; cbn; unfold SetRate, AdjustRate, Pause, Resume; cbn; try done; by repeat case_match. Qed.

Lemma rate_ops_stopped ops r : rc_stopped r = true -> rc_stopped (foldl rate_apply r ops) = true.
Proof. revert r. induction ops as [|op ops IH]; intros r H; [done|]. apply IH. by apply rate_apply_stopped. Qed.

Lemma Wait_stopped passes r r' : Wait passes r = (RateStopped, r') -> rc_stopped r' = true.
Proof.
  revert r. induction passes as [|p passes IH]; intros r; [done|]. cbn [Wait]. cbv zeta.
  destruct (rc_stopped (foldl rate_apply r (ps_before p))) eqn:E; [by intros [= <-]|].
  destruct (rc_paused _); [destruct (ps_wake p); try done; apply IH|].
  destruct (reserve _ _ _) as [target r1]. destruct (_ <=? 0); [done|]. destruct (ps_wake p); try done. apply IH.
Qed.

(** The waiting callers only change places. *)
Lemma sem_ok_same c s : sem_ok c -> waiting s ≡ₚ waiting (ct_sem c) ->
  s_active s = s_active (ct_sem c) -> s_got s = s_got (ct_sem c) -> s_failed s = s_failed (ct_sem c) ->
  s_cancelled s = s_cancelled (ct_sem c) -> sem_ok (with_sem c s).
Proof.
  intros [H1 H2 H3 H4 H5 H6 H7] Hw Ea Eg Ef Ec. split; cbn.
  - rewrite Ea, H1. unfold in_hand. cbn. by rewrite Eg.
  - intros j Hj. rewrite Hw in Hj. rewrite Eg, Ef. by apply H2.
  - by rewrite Hw.
  - rewrite Eg. exact H4.
  - rewrite Ef. exact H5.
  - rewrite Ec. exact H6.
  - rewrite Eg, Ef. exact H7.
Qed.

(** A caller that looks and leaves with an answer. *)
Lemma sem_ok_leaves c i z s (ok : bool) : sem_ok c -> ct_pc c = LoopAcquire z -> i = Z.to_nat z ->
  waiting (ct_sem c) ≡ₚ i :: waiting s ->
  s_active s = s_active (ct_sem c) + (if ok then 1 else 0) ->
  s_got s = (if ok then i :: s_got (ct_sem c) else s_got (ct_sem c)) ->
  s_failed s = (if ok then s_failed (ct_sem c) else i :: s_failed (ct_sem c)) ->
  s_cancelled s = s_cancelled (ct_sem c) -> (ok = false -> ct_cancelled c = true) -> sem_ok (with_sem c s).
Proof.
  intros [H1 H2 H3 H4 H5 H6 H7] Hpc -> Hw Ea Eg Ef Ec Hcan.
  rewrite Hw in H3. apply NoDup_cons in H3 as [Hi H3].
  destruct (H2 (Z.to_nat z)) as (_ & Hng & Hnf); [rewrite Hw; by left|]. split; cbn.
  - rewrite Ea, H1. unfold in_hand. cbn. rewrite Hpc, Eg. rewrite (bool_decide_eq_false_2 _ Hng).
    destruct ok; [rewrite bool_decide_eq_true_2 by by left|rewrite (bool_decide_eq_false_2 _ Hng)]; lia.
  - intros j Hj. assert (j <> Z.to_nat z) by (intros ->; done).
    destruct (H2 j) as (Ha & Hjg & Hjf); [rewrite Hw; by right|]. split; [done|]. rewrite Eg, Ef.
    destruct ok; rewrite ?not_elem_of_cons; auto.
  - done.
  - intros j. rewrite Eg. destruct ok; [|apply H4]. intros [->|Hj]%elem_of_cons; [|by apply H4]. right. by exists z.
  - intros j. rewrite Ef. destruct ok; [apply H5|]. intros [->|Hj]%elem_of_cons; [|by apply H5].
    split; [by apply Hcan|]. left. by exists z.
  - rewrite Ec. exact H6.
  - intros j. rewrite Eg, Ef. destruct ok.
    + intros [-> | Hj]%elem_of_cons; [done|by apply H7].
    + intros Hj [-> | Hf]%elem_of_cons; [done|]. by apply (H7 j).
Qed.

(** The limiter alone keeps its part. *)
Lemma sem_ok_internal c s : sem_ok c -> sem_internal (ct_sem c) s -> sem_ok (with_sem c s).
Proof.
  intros Hok Hs. pose proof Hok as [_ H2 _ _ _ H6 _].
  inversion Hs as [l i r s0 Hck Hrd E1 E2|i s0 Hck E1 E2|s0 Hp E1 E2|s0 Hp E1 E2]; subst.
  - assert (waiting (ct_sem c) ≡ₚ i :: waiting (withReady (l ++ r) (ct_sem c))) as Hw.
    { unfold waiting. cbn. rewrite Hck, Hrd. solve_Permutation. }
    destruct (H2 i) as ((z & Hpc & Hi) & _); [rewrite Hw; by left|].
    assert (i ∈ s_cancelled (ct_sem c) -> ct_cancelled c = true) as Hcan by (intros Hin; apply H6; set_solver).
    unfold acquireCheck. cbn. destruct (s_limit _ <=? s_active _); case_bool_decide as Eb.
    + apply (sem_ok_leaves c i z _ false); try done; [cbn; lia|intros _; auto].
    + apply sem_ok_same; try done. rewrite Hw. unfold waiting. cbn. rewrite Hck. done.
    + apply (sem_ok_leaves c i z _ false); try done; [cbn; lia|intros _; auto].
    + apply (sem_ok_leaves c i z _ true); done.
  - apply sem_ok_same; try done. unfold waiting, condWait. cbn. rewrite Hck. cbn. solve_Permutation.
  - unfold Signal. destruct (s_asleep (ct_sem c)) as [|i rest] eqn:Ea; apply sem_ok_same; try done; unfold waiting; cbn; rewrite Ea.
    + done.
    + solve_Permutation.
  - apply sem_ok_same; try done. unfold waiting. cbn. solve_Permutation.
Qed.

Definition c_inv (c : client) : Prop := sem_ok c /\ loop_ok c.

(** A step that touches neither the limiter, nor the calls, nor the loop. *)
Lemma c_inv_quiet c c' : c_inv c ->
  ct_pc c' = ct_pc c -> ct_sem c' = ct_sem c -> ct_wg c' = ct_wg c -> ct_calls c' = ct_calls c ->
  ct_started c' = ct_started c -> ct_runErr c' = ct_runErr c -> ct_failures c' = ct_failures c ->
  (rc_stopped (ct_rate c) = true -> rc_stopped (ct_rate c') = true) ->
  ct_cancelled c' = ct_cancelled c -> c_inv c'.
Proof.
  intros [[S1 S2 S3 S4 S5 S6 S7] [L1 L2 L3 L4 L5 L6 L7 L8 L9]] Ep Es Ew Ec Et Ee Ef Hr Ek. split; split;
    unfold in_hand in *; rewrite ?Ep, ?Es, ?Ew, ?Ec, ?Et, ?Ee, ?Ef, ?Ek; try done.
  - intros Hp. destruct (L8 Hp); tauto.
  - intros e He. destruct (L9 e He); tauto.
Qed.

(** A call moves on without giving up its slot. *)
Lemma c_inv_stage c l n st st' r : c_inv c -> ct_calls c = l ++ mkCall n st :: r ->
  holding (mkCall n st') = holding (mkCall n st) -> c_inv (with_calls c (l ++ mkCall n st' :: r)).
Proof.
  intros [[S1 S2 S3 S4 S5 S6 S7] [L1 L2 L3 L4 L5 L6 L7 L8 L9]] Ec Hh. rewrite Ec in *. split; split; cbn; try done.
  - rewrite S1, !holders_app, Hh. unfold in_hand. cbn. lia.
  - rewrite L5, !length_app. done.
  - destruct L6 as [L6 L6']. rewrite map_app in *. cbn in *. split; [done|].
    rewrite Forall_app, Forall_cons in *. done.
  - intros e He. destruct (L9 e He) as [H|(H1 & _)]; [by left|]. by destruct l.
Qed.

Lemma c_inv_error c e : c_inv c -> (forall e', ct_pc c = LoopReturned e' -> ct_calls c <> []) -> c_inv (reportError e c).
Proof.
  intros [[S1 S2 S3 S4 S5 S6 S7] [L1 L2 L3 L4 L5 L6 L7 L8 L9]] Hc. split; split; cbn; try done.
  - rewrite L7. by destruct (ct_failures c).
  - intros e' He. destruct (L9 e' He) as [H|(H & _)]; [by left|]. by destruct (Hc e' He).
Qed.

Lemma c_inv_rate i passes c : c_inv c -> ct_pc c = LoopRate i ->
  ((Wait passes (ct_rate c)).1 = RateCtx -> ct_cancelled c = true) -> c_inv (loopRate i passes c).
Proof.
  intros [[S1 S2 S3 S4 S5 S6 S7] [L1 L2 L3 L4 L5 L6 L7 L8 L9]] Hpc Hctx. unfold loopRate.
  destruct (Wait passes (ct_rate c)) as [out r] eqn:Ew. cbv zeta. rewrite Hpc in *.
  assert (forall j, ~ acquiring (LoopRate i) j) as Hna by (intros j (z & Hz & _); done).
  assert (waiting (ct_sem c) = []) as Hw.
  { destruct (waiting (ct_sem c)) as [|j w]; [done|]. destruct (S2 j) as [[]%Hna _]. by left. }
  assert (s_failed (ct_sem c) = []) as Hf.
  { destruct (s_failed (ct_sem c)) as [|j w]; [done|]. destruct (S5 j) as (_ & [[]%Hna | [e He]]); [by left|done]. }
  assert (in_hand c = 0) as Hh by (unfold in_hand; by rewrite Hpc).
  assert (forall j, j ∈ s_got (ct_sem c) -> (1 <= j <= length (ct_started c))%nat) as Hg.
  { intros j Hj. by destruct (S4 j Hj) as [H|[]%Hna]. }
  pose proof (L2 i eq_refl) as Hi. destruct out as [target| | |].
  - assert (Z.to_nat i ∉ s_got (ct_sem c)) as Hng by (intros Hj%Hg; lia).
    assert (waiting (callAcquire (Z.to_nat i) (ct_sem c)) = [Z.to_nat i]) as Hwa.
    { unfold waiting in *. cbn. apply app_nil in Hw as [Hw1 [Hw2 Hw3]%app_nil]. by rewrite Hw1, Hw2, Hw3. }
    split; split; cbn [ct_pc ct_sem ct_calls ct_started ct_rate with_sem with_pc with_rate ct_cancelled ct_wg ct_runErr ct_failures]; try done.
    + cbn [callAcquire s_active]. rewrite S1, Hh. unfold in_hand. cbn. by rewrite bool_decide_eq_false_2.
    + rewrite Hwa. intros j Hj%list_elem_of_singleton. subst j. cbn [callAcquire s_failed]. rewrite Hf. split; [by exists i|]. split; [done|apply not_elem_of_nil].
    + rewrite Hwa. apply NoDup_singleton.
    + intros j Hj. left. by apply Hg.
    + cbn [callAcquire s_failed]. rewrite Hf. intros j Hj%elem_of_nil. done.
    + intros j [Hj|Hj]; [done|]. injection Hj as <-. apply L4. by left.
  - split; split; cbn; try done.
    + rewrite S1, Hh. done.
    + rewrite Hw. intros j Hj%elem_of_nil. done.
    + intros j Hj. left. by apply Hg.
    + rewrite Hf. intros j Hj%elem_of_nil. done.
    + intros j [?|?]; done.
    + intros _. left. by eapply Wait_stopped.
  - specialize (Hctx eq_refl). split; split; cbn; try done.
    + rewrite S1, Hh. done.
    + rewrite Hw. intros j Hj%elem_of_nil. done.
    + intros j Hj. left. by apply Hg.
    + rewrite Hf. intros j Hj%elem_of_nil. done.
    + intros j [?|?]; done.
    + intros e [= <-]. by left.
  - split; split; cbn; rewrite ?Hpc; done.
Qed.

Lemma c_inv_test i c : c_inv c -> ct_pc c = LoopTest i -> c_inv (loopTest i c).
Proof.
  intros [[S1 S2 S3 S4 S5 S6 S7] [L1 L2 L3 L4 L5 L6 L7 L8 L9]] Hpc. unfold loopTest. rewrite Hpc in *.
  assert (forall j pc, acquiring (LoopTest i) j -> acquiring pc j) as Hna by (intros j pc (z & Hz & _); done).
  assert (in_hand c = 0) as Hh by (unfold in_hand; by rewrite Hpc). rewrite Hh in S1.
  pose proof (L2 i eq_refl) as Hi.
  destruct (clientShouldSpawnAnother lm i) eqn:Es; split; split; cbn; try done.
  - intros j Hj. destruct (S2 j Hj) as (?%(Hna _ (LoopRate i)) & ?). done.
  - intros j Hj. destruct (S4 j Hj) as [?|?%(Hna _ (LoopRate i))]; auto.
  - intros j Hj. destruct (S5 j Hj) as (? & [?%(Hna _ (LoopRate i)) | [e ?]]); [by auto|done].
  - intros z [[= <-]|?]; done.
  - intros j Hj. destruct (S2 j Hj) as (?%(Hna _ LoopWait) & ?). done.
  - intros j Hj. destruct (S4 j Hj) as [?|?%(Hna _ LoopWait)]; auto.
  - intros j Hj. destruct (S5 j Hj) as (? & [?%(Hna _ LoopWait) | [e ?]]); [by auto|done].
  - intros z [?|?]; done.
  - intros _. right. unfold clientShouldSpawnAnother in Es. apply orb_false_iff in Es as [Eu El%Z.leb_gt].
    split; [done|]. rewrite Eu in L3. destruct L3 as [?|L3]; [done|]. lia.
Qed.

Lemma c_inv_got i c : c_inv c -> ct_pc c = LoopAcquire i -> Z.to_nat i ∈ s_got (ct_sem c) -> c_inv (loopAcquired i c).
Proof.
  intros [[S1 S2 S3 S4 S5 S6 S7] [L1 L2 L3 L4 L5 L6 L7 L8 L9]] Hpc Hgot. rewrite Hpc in *.
  pose proof (L2 i eq_refl) as Hi.
  assert (forall j, acquiring (LoopAcquire i) j -> j = Z.to_nat i) as Ha by (intros j (z & [= <-] & ->); done).
  assert (ct_started c ++ [i] = seqZ 1 (Z.of_nat (length (ct_started c ++ [i])))) as Hseq.
  { rewrite L1 at 1. rewrite length_app. cbn. rewrite Nat.add_1_r, seqZ_S.
    do 2 f_equal. lia. }
  split; split; cbn; try done.
  - rewrite S1. unfold in_hand. cbn. rewrite Hpc, bool_decide_eq_true_2 by done. rewrite holders_app, app_nil_r. cbn. lia.
  - intros j Hj. destruct (S2 j Hj) as (->%Ha & Hng & _). done.
  - intros j Hj. rewrite length_app. cbn. destruct (S4 j Hj) as [?| ->%Ha]; left; lia.
  - intros j Hj. destruct (S5 j Hj) as (_ & [->%Ha|[e He]]); [|done]. by apply S7 in Hgot.
  - intros z [= <-]. rewrite length_app. cbn. lia.
  - pose proof (L4 i (or_intror eq_refl)) as Hgo. unfold clientShouldSpawnAnother in Hgo.
    apply orb_true_iff in Hgo as [?|Hgo%Z.leb_le]; [by left|]. right. rewrite length_app. cbn. lia.
  - intros z [?|?]; done.
  - rewrite length_app. cbn. lia.
  - destruct L6 as [L6 L6']. rewrite map_app. split.
    + apply NoDup_app. split; [done|]. split; [|apply NoDup_singleton].
      intros x Hx ->%list_elem_of_singleton. apply list_elem_of_fmap in Hx as (y & Hy & Hin).
      apply (proj1 (Forall_forall _ _) L6') in Hin. rewrite <- Hy, L1, elem_of_seqZ in Hin. cbn in Hin. lia.
    + apply Forall_app. split; [|constructor; [cbn; set_solver|constructor]].
      eapply Forall_impl; [exact L6'|]. intros x Hx. cbn in Hx. set_solver.
Qed.

Lemma c_inv_failed i c : c_inv c -> ct_pc c = LoopAcquire i -> Z.to_nat i ∈ s_failed (ct_sem c) ->
  c_inv (with_pc c (LoopReturned (Some 0))).
Proof.
  intros [[S1 S2 S3 S4 S5 S6 S7] [L1 L2 L3 L4 L5 L6 L7 L8 L9]] Hpc Hf. rewrite Hpc in *.
  assert (forall j, acquiring (LoopAcquire i) j -> j = Z.to_nat i) as Ha by (intros j (z & [= <-] & ->); done).
  assert (Z.to_nat i ∉ s_got (ct_sem c)) as Hng by (intros Hg; by apply (S7 _ Hg)).
  destruct (S5 _ Hf) as [Hc _]. split; split; cbn; try done.
  - rewrite S1. unfold in_hand. cbn. by rewrite Hpc, bool_decide_eq_false_2.
  - intros j Hj. destruct (S2 j Hj) as (->%Ha & _ & Hnf). done.
  - intros j Hj. destruct (S4 j Hj) as [?| ->%Ha]; [by left|done].
  - intros j Hj. split; [done|]. right. by eexists.
  - intros z [?|?]; done.
  - intros e [= <-]. by left.
Qed.

Lemma c_inv_sem c s : c_inv c -> sem_internal (ct_sem c) s -> c_inv (with_sem c s).
Proof. intros [Hs Hl] Hi. split; [by apply sem_ok_internal|]. destruct Hl. by split. Qed.

Lemma c_inv_release c l n r : c_inv c -> ct_calls c = l ++ mkCall n Releasing :: r ->
  c_inv (with_sem (with_calls c (l ++ mkCall n Finishing :: r)) (Release (ct_sem c))).
Proof.
  intros [[S1 S2 S3 S4 S5 S6 S7] [L1 L2 L3 L4 L5 L6 L7 L8 L9]] Ec. rewrite Ec in *. split; split; cbn; try done.
  - rewrite S1, !holders_app. unfold in_hand. cbn. lia.
  - by rewrite L5, !length_app.
  - destruct L6 as [L6 L6']. rewrite map_app in *. cbn in *. split; [done|]. by rewrite Forall_app, Forall_cons in *.
  - intros e He. destruct (L9 e He) as [H|(H1 & _)]; [by left|]. by destruct l.
Qed.

Lemma c_inv_done c l n r : c_inv c -> ct_calls c = l ++ mkCall n Finishing :: r -> c_inv (doneCall (with_calls c (l ++ r))).
Proof.
  intros [[S1 S2 S3 S4 S5 S6 S7] [L1 L2 L3 L4 L5 L6 L7 L8 L9]] Ec. rewrite Ec in *. split; split; cbn; try done.
  - rewrite S1, holders_app. unfold in_hand. cbn. lia.
  - rewrite L5, !length_app. cbn. lia.
  - destruct L6 as [L6 L6']. rewrite map_app in *. cbn in *. rewrite Forall_app, Forall_cons in L6'. rewrite Forall_app.
    split; [|tauto]. apply NoDup_app in L6 as (N1 & N2 & N3). apply NoDup_cons in N3 as [_ N3]. apply NoDup_app.
    split; [done|]. split; [|done]. intros x Hx Hin. apply (N2 x Hx). by right.
  - intros e He. destruct (L9 e He) as [H|(H1 & _)]; [by left|]. by destruct l.
Qed.

Lemma c_inv_wait c : c_inv c -> ct_pc c = LoopWait -> ct_wg c = 0 -> c_inv (with_pc c (LoopReturned (ct_runErr c))).
Proof.
  intros [[S1 S2 S3 S4 S5 S6 S7] [L1 L2 L3 L4 L5 L6 L7 L8 L9]] Hpc Hw.
  assert (ct_calls c = []) as Hc by (apply nil_length_inv; lia). rewrite Hpc in *.
  assert (forall j, ~ acquiring LoopWait j) as Hna by (intros j (z & Hz & _); done).
  split; split; cbn; try done.
  - rewrite S1. unfold in_hand. cbn. by rewrite Hpc.
  - intros j Hj. by destruct (S2 j Hj) as ([]%Hna & _).
  - intros j Hj. destruct (S4 j Hj) as [?|[]%Hna]. by left.
  - intros j Hj. destruct (S5 j Hj) as (? & [[]%Hna | [e ?]]). done.
  - intros z [?|?]; done.
  - intros e [= <-]. right. split; [done|]. split; [done|]. by apply L8.
Qed.

Lemma c_inv_cancel i c : c_inv c -> c_inv (cancelRun i c).
Proof.
  intros [[S1 S2 S3 S4 S5 S6 S7] [L1 L2 L3 L4 L5 L6 L7 L8 L9]]. split; split; cbn; try done.
  - intros j Hj. destruct (S5 j Hj) as [_ ?]. done.
  - intros e He. destruct (L9 e He) as [[? ?]|?]; [by left|by right].
Qed.

Lemma c_inv_resize n c : c_inv c -> c_inv (setMaxConcurrent n c).
Proof.
  intros [[S1 S2 S3 S4 S5 S6 S7] [L1 L2 L3 L4 L5 L6 L7 L8 L9]]. unfold setMaxConcurrent. cbv zeta. split; split; cbn; done.
Qed.

Lemma c_inv_step resize c c' : c_inv c -> cstep resize c c' -> c_inv c'.
Proof.
  intros Hi Hs. destruct Hs as [i c Hpc|i passes c Hpc Hctx|i c Hpc Hg|i c Hpc Hf|s c Hs|l n r c Hc|l n r e c Hc Hm|l n r c Hc
    |l n r remote c Hc Hm|l n r c Hc|l n r e c Hc|l n r c Hc|l n r c Hc Hck|l n r c Hc|c Hpc Hw|i c|op c|n c _ _].
  - by apply c_inv_test.
  - by apply c_inv_rate.
  - by apply c_inv_got.
  - by eapply c_inv_failed.
  - by apply c_inv_sem.
  - by eapply c_inv_stage.
  - apply c_inv_error; [by eapply c_inv_stage|]. cbn. by destruct l.
  - by apply (c_inv_quiet c).
  - by apply (c_inv_quiet c).
  - by eapply c_inv_stage.
  - apply c_inv_error; [by eapply c_inv_stage|]. cbn. by destruct l.
  - by eapply c_inv_stage.
  - by apply c_inv_release.
  - by eapply c_inv_done.
  - by apply c_inv_wait.
  - by apply c_inv_cancel.
  - apply (c_inv_quiet c); try done. apply rate_apply_stopped.
  - by apply c_inv_resize.
Qed.

Lemma c_inv_start rate remote limit : c_inv (startClient rate remote (newDynSemaphore limit)).
Proof.
  split; split; cbn; try done.
  - intros j Hj%elem_of_nil. done.
  - apply NoDup_nil_2.
  - intros j Hj%elem_of_nil. done.
  - intros j Hj%elem_of_nil. done.
  - intros j Hj%elem_of_nil. done.
  - by intros i [= <-].
  - right. lia.
  - intros i [?|?]; done.
  - split; [apply NoDup_nil_2|constructor].
Qed.

(** Without resizing, the limit of the loop holds throughout. *)
Definition limit_ok (c : client) : Prop :=
  s_limit (ct_sem c) = callConcurrencyLimit lm (cm_perSocket m) /\ s_active (ct_sem c) <= s_limit (ct_sem c).

Lemma limit_pos b : 1 <= callConcurrencyLimit lm b.
Proof.
  unfold callConcurrencyLimit. cbv zeta. destruct (Z.leb_spec (lm_MaxConcurrent lm) 0);
    (destruct (b && _ && _) eqn:E; [|lia]); apply andb_true_iff in E as [[_ E%Z.ltb_lt]%andb_true_iff _]; lia.
Qed.

Lemma limit_ok_step c c' : limit_ok c -> cstep false c c' -> limit_ok c'.
Proof.
  intros [H1 H2] Hs. unfold limit_ok. destruct Hs as [i c Hpc|i passes c Hpc Hctx|i c Hpc Hg|i c Hpc Hf|s c Hs|l n r c Hc|l n r e c Hc Hm|l n r c Hc
    |l n r remote c Hc Hm|l n r c Hc|l n r e c Hc|l n r c Hc|l n r c Hc Hck|l n r c Hc|c Hpc Hw|i c|op c|n c Hx _]; cbn; try done.
  - unfold loopTest. by destruct (clientShouldSpawnAnother lm i).
  - unfold loopRate. destruct (Wait passes (ct_rate c)) as [out r]. by destruct out.
  - inversion Hs as [l i r s0 Hck Hrd E1 E2|i s0 Hck E1 E2|s0 Hp E1 E2|s0 Hp E1 E2]; subst; cbn; try done.
    + pose proof (acquireCheck_cases i (withReady (l ++ r) (ct_sem c))) as (E1 & _ & _ & _ & _ & _ & E). cbn in *.
      rewrite E1. split; [done|]. destruct E as [(E2 & _)|(E2 & E3 & _)]; lia.
    + unfold Signal. by destruct (s_asleep (ct_sem c)).
  - split; [done|]. lia.
Qed.

End Run.

(** ** Call-IDs *)

(** [%x] *)
Fixpoint hex_digits (fuel : nat) (z : Z) (acc : str) : str :=
  match fuel with
  | O => acc
  | S f => let acc := hex_char (z mod 16) :: acc in if z / 16 =? 0 then acc else hex_digits f (z / 16) acc
  end.

Definition hex_of (z : Z) : str := hex_digits (S (Z.to_nat (Z.log2 z))) z [].

(** [newCallID], with the value the counter of the process gives and the time. *)
Definition newCallID (callNumber seq now : Z) : str :=
  lit "gossip-" ++ Itoa callNumber ++ lit "-" ++ hex_of seq ++ lit "-" ++ hex_of (Z.land now 4294967295).

(** Value of a hexadecimal text; the letters are those of [hex_char]. *)
Definition hex_val (b : byte) : Z := if b2z b <? 58 then b2z b - 48 else b2z b - 87.
Definition hex_value (acc : Z) (s : str) : Z := foldl (fun v b => v * 16 + hex_val b) acc s.

Lemma hex_char_range d : 0 <= d < 16 -> hex_val (hex_char d) = d /\ hex_char d <> x2d.
Proof.
  intros H. assert (b2z (hex_char d) = if d <? 10 then 48 + d else 87 + d) as E.
  { unfold hex_char. destruct (Z.ltb_spec d 10); rewrite b2z_z2b, Z.mod_small; lia. }
  split.
  - unfold hex_val. rewrite E. destruct (Z.ltb_spec d 10); [destruct (Z.ltb_spec (48 + d) 58)|destruct (Z.ltb_spec (87 + d) 58)]; lia.
  - intros Hd. rewrite Hd in E. change (b2z x2d) with 45 in E. destruct (Z.ltb_spec d 10); lia.
Qed.

Lemma hex_digits_value fuel z acc : 0 <= z < 2 ^ Z.of_nat fuel -> (0 < fuel)%nat ->
  hex_value 0 (hex_digits fuel z acc) = hex_value z acc.
Proof.
  revert z acc. induction fuel as [|f IH]; intros z acc Hz Hf; [lia|]. cbn [hex_digits]. cbv zeta.
  destruct (hex_char_range (z mod 16)) as [Hv _]; [by apply Z.mod_pos_bound|].
  pose proof (Z.div_mod z 16). pose proof (Z.div_pos z 16). pose proof (Z.mod_pos_bound z 16).
  destruct (Z.eqb_spec (z / 16) 0) as [E|E].
  - unfold hex_value. cbn. rewrite Hv. f_equal. lia.
  - rewrite Nat2Z.inj_succ, Z.pow_succ_r in Hz by lia. rewrite IH.
    + unfold hex_value. cbn. rewrite Hv. f_equal. lia.
    + lia.
    + destruct f; [cbn in Hz; lia|lia].
Qed.

Lemma hex_of_value z : 0 <= z -> hex_value 0 (hex_of z) = z.
Proof.
  intros H. unfold hex_of. rewrite hex_digits_value; [done| |lia]. rewrite Nat2Z.inj_succ, Z2Nat.id by apply Z.log2_nonneg.
  split; [done|]. destruct (decide (z = 0)) as [-> |]; [done|]. pose proof (Z.log2_spec z ltac:(lia)). lia.
Qed.

Lemma hex_of_no_dash z : x2d ∉ hex_of z.
Proof.
  unfold hex_of. generalize (S (Z.to_nat (Z.log2 z))). intros fuel.
  assert (forall acc z, x2d ∉ acc -> x2d ∉ hex_digits fuel z acc) as H; [|apply H, not_elem_of_nil]. clear z.
  induction fuel as [|f IH]; intros acc z Ha; [done|]. cbn [hex_digits]. cbv zeta.
  assert (x2d ∉ hex_char (z mod 16) :: acc).
  { apply not_elem_of_cons. split; [|done]. symmetry. apply hex_char_range. by apply Z.mod_pos_bound. }
  destruct (_ =? 0); [done|by apply IH].
Qed.

Lemma Itoa_no_dash n : 0 <= n -> x2d ∉ Itoa n.
Proof.
  intros H. unfold Itoa. destruct (Z.ltb_spec n 0); [lia|]. intros Hin.
  apply (proj1 (Forall_forall _ _) (dec_of_digits n)) in Hin. by vm_compute in Hin.
Qed.

Lemma Itoa_inj i j : 0 <= i -> 0 <= j -> Itoa i = Itoa j -> i = j.
Proof.
  unfold Itoa. intros Hi Hj. destruct (Z.ltb_spec i 0), (Z.ltb_spec j 0); try lia. intros E.
  apply (inj Some). rewrite <- (dec_of_value i), <- (dec_of_value j) by done. by rewrite E.
Qed.

Lemma newCallID_split i s now : 0 <= i -> 0 <= s ->
  Split (newCallID i s now) x2d = [lit "gossip"; Itoa i; hex_of s; hex_of (Z.land now 4294967295)].
Proof.
  intros Hi Hs. unfold newCallID. change (lit "gossip-") with (lit "gossip" ++ [x2d]). change (lit "-") with [x2d].
  rewrite <- app_assoc. cbn [app]. rewrite Split_segment by (intros H; by vm_compute in H; set_solver).
  rewrite Split_segment by by apply Itoa_no_dash. rewrite Split_segment by apply hex_of_no_dash.
  by rewrite Split_none by apply hex_of_no_dash.
Qed.

(** * Properties *)

(** C13: A client run keeps its books, in every mode and under every interleaving
    of the loop, its calls, cancellation, rate changes and resizes.  Calls are
    started with numbers 1, 2, 3, ... and never more than configured; each
    goroutine is counted once in the wait group; the active count of the
    limiter is exactly the calls that have not released their slot (and the
    one just admitted), and unless the limit is changed at runtime never
    exceeds the limit of the mode.  The run returns early only with a cancelled
    context; otherwise it returns when every started call is over, with the
    error that was reported first, and having started all configured calls
    unless scheduling was stopped. *)
Theorem client_run_accounting m lm resize rate remote limit c :
  c_reachable m lm resize rate remote limit c ->
  ct_started c = seqZ 1 (Z.of_nat (length (ct_started c)))
  /\ (lm_UnlimitedCalls lm = true \/ Z.of_nat (length (ct_started c)) <= Z.max 0 (lm_TotalCalls lm))
  /\ NoDup (map cl_number (ct_calls c)) /\ Forall (fun x => cl_number x ∈ ct_started c) (ct_calls c)
  /\ ct_wg c = Z.of_nat (length (ct_calls c))
  /\ s_active (ct_sem c) = holders (ct_calls c) + in_hand c
  /\ (resize = false -> holders (ct_calls c) <= callConcurrencyLimit lm (cm_perSocket m))
  /\ (forall e, ct_pc c = LoopReturned e ->
        (e = Some 0 /\ ct_cancelled c = true)
        \/ (ct_calls c = [] /\ e = head (ct_failures c)
            /\ (rc_stopped (ct_rate c) = true
                \/ (lm_UnlimitedCalls lm = false /\ Z.of_nat (length (ct_started c)) = Z.max 0 (lm_TotalCalls lm))))).
Proof.
  intros H. assert (c_inv lm c /\ (resize = false -> limit_ok m lm c)) as [[Hs Hl] Hlim].
  { unfold c_reachable in H. revert c H.
    apply (rtc_ind_r (R := cstep m lm resize) (fun c => c_inv lm c /\ (resize = false -> limit_ok m lm c))).
    - split; [apply c_inv_start|]. intros _. split; cbn; unfold atLeastOne; pose proof (limit_pos lm (cm_perSocket m));
        destruct (Z.ltb_spec (callConcurrencyLimit lm (cm_perSocket m)) 1); lia.
    - intros x y _ Hst [Hi Hk]. split; [by eapply c_inv_step|]. intros ->. eapply limit_ok_step; [by apply Hk|done]. }
  destruct Hs as [S1 _ _ _ _ _ _], Hl as [L1 _ L3 _ L5 [L6 L6'] L7 _ L9]. split_and!; try done.
  - intros Hr. destruct (Hlim Hr) as [K1 K2]. rewrite K1, S1 in K2. unfold in_hand in K2.
    destruct (ct_pc c); try lia. destruct (bool_decide _); lia.
  - intros e He. rewrite <- L7. by apply L9.
Qed.

(** *** Runs *)

Definition fire : list rate_pass := [mkPass [] [] 0 0 WakeTimer].
Definition steady : RateController := NewRateController (float_of_int 10) 0.

Ltac crun := eapply rtc_l.

(** Two calls, two at a time, but only one socket. *)
Definition two_limits : limits := mkLimits 2 1 false 2.

(** The loop after it has started call [i] without waiting. *)
Definition spawned (i : Z) (c : client) : client :=
  loopAcquired i (with_sem (loopRate i fire (with_pc c (LoopRate i)))
    (acquireCheck (Z.to_nat i) (withReady [] (callAcquire (Z.to_nat i) (ct_sem c))))).

Lemma spawn_next m lm resize i c :
  ct_pc c = LoopTest i -> clientShouldSpawnAnother lm i = true -> rc_stopped (ct_rate c) = false ->
  rc_paused (ct_rate c) = false -> s_checked (ct_sem c) = None -> s_ready (ct_sem c) = [] ->
  s_active (ct_sem c) < s_limit (ct_sem c) -> Z.to_nat i ∉ s_cancelled (ct_sem c) ->
  rtc (cstep m lm resize) c (spawned i c).
Proof.
  unfold spawned.
  intros Hpc Hgo Hst Hpa Hck Hrd Hact Hcan.
  assert (exists target r, Wait fire (ct_rate c) = (RateFire target, r)) as (target & r & Ew).
  { cbn [Wait fire ps_before ps_between ps_now ps_until ps_wake foldl]. rewrite Hst, Hpa. cbv zeta.
    destruct (reserve _ _ _) as [t r']. destruct (_ <=? 0); by eauto. }
  assert (loopRate i fire (with_pc c (LoopRate i))
          = with_sem (with_pc (with_rate (with_pc c (LoopRate i)) r) (LoopAcquire i)) (callAcquire (Z.to_nat i) (ct_sem c))) as El.
  { unfold loopRate. cbn [ct_rate with_pc]. by rewrite Ew. }
  crun; [by apply (CTest m lm resize i)|]. unfold loopTest. rewrite Hgo.
  crun; [apply (CRate m lm resize i fire); [done|]; cbn [ct_rate with_pc]; by rewrite Ew|]. rewrite El.
  crun; [apply CSem, (IntCheck [] (Z.to_nat i) []); cbn; [done|by rewrite Hrd]|].
  crun; [apply (CGot m lm resize i); [done|]|apply rtc_refl]. cbn. unfold acquireCheck. cbn.
  destruct (Z.leb_spec (s_limit (ct_sem c)) (s_active (ct_sem c))); [lia|].
  rewrite bool_decide_eq_false_2 by done. cbn. by left.
Qed.


(** Two calls of [un] mode are running. *)
Definition un_start : client := startClient runClientPerCall two_limits steady 7 (newDynSemaphore 1).
Definition un_two : client := spawned 2 (spawned 1 un_start).
Definition un_running : client := with_calls (with_calls un_two [mkCall 1 Executing; mkCall 2 Opening]) [mkCall 1 Executing; mkCall 2 Executing].

Ltac spawn := apply spawn_next; vm_compute; first [reflexivity | set_solver].

Lemma un_running_reachable : c_reachable runClientPerCall two_limits false steady 7 1 un_running.
Proof.
  unfold c_reachable. etrans; [spawn|]. etrans; [spawn|].
  crun; [by apply (COpen _ _ _ [] 1 [mkCall 2 Opening])|]. crun; [by apply (COpen _ _ _ [mkCall 1 Executing] 2 [])|].
  apply rtc_refl.
Qed.

Lemma client_run_accounting_witness :
  c_reachable runClientPerCall two_limits false steady 7 1 un_running
  /\ s_active (ct_sem un_running) = holders (ct_calls un_running) + in_hand un_running
  /\ holders (ct_calls un_running) <= 2.
Proof.
  split; [exact un_running_reachable|].
  destruct (client_run_accounting runClientPerCall two_limits false steady 7 1 un_running un_running_reachable)
    as (_ & _ & _ & _ & _ & H & K & _).
  split; [exact H|apply K; reflexivity].
Defined.

(** Two call identifiers of one process are different: [newCallID] is
    injective in the number of the call and in the value of the counter,
    whatever the clock says. *)
Theorem call_ids_distinct i j s t now now' :
  0 <= i -> 0 <= j -> 0 <= s -> 0 <= t ->
  newCallID i s now = newCallID j t now' -> i = j /\ s = t.
Proof.
  intros Hi Hj Hs Ht E. apply (f_equal (fun x => Split x x2d)) in E.
  rewrite !newCallID_split in E by done. injection E as E1 E2 _. split.
  - by apply Itoa_inj.
  - rewrite <- (hex_of_value s), <- (hex_of_value t) by done. by rewrite E2.
Qed.

Lemma call_ids_distinct_witness :
  0 <= 1 /\ (newCallID 1 16 99 = newCallID 1 17 99 -> 16 = 17).
Proof.
  split; [lia|]. intros H.
  apply (call_ids_distinct 1 1 16 17 99 99); first [lia | exact H].
Defined.

(** ** Where the modes surprise *)

(** The limit on sockets is applied by the loop of the one shared socket and not by
    the loop that opens a socket for every call: with one socket allowed, two
    calls hold a socket each. *)
Theorem max_sockets_per_call_ignored :
  c_reachable runClientPerCall two_limits false steady 7 1 un_running
  /\ cm_resource runClientPerCall = OwnSocket /\ lm_MaxSockets two_limits = 1
  /\ map cl_stage (ct_calls un_running) = [Executing; Executing]
  /\ callConcurrencyLimit two_limits (cm_perSocket runClientShared) = 1.
Proof. split; [exact un_running_reachable|]. by split_and!. Qed.

(** A cancelled run returns although calls are running: [wg.Wait] is skipped. *)
Theorem cancelled_run_leaves_calls :
  exists c, c_reachable runClientPerCall (mkLimits 2 1 false 3) false steady 7 1 c
    /\ ct_pc c = LoopReturned (Some 0) /\ ct_wg c = 1.
Proof.
  eexists. split.
  - unfold c_reachable. etrans; [spawn|]. crun; [by apply (CTest _ _ _ 2)|].
    crun; [apply (CCancel _ _ _ 2%nat)|].
    crun; [apply (CRate _ _ _ 2 [mkPass [] [] 0 0 WakeCtx]); [reflexivity|reflexivity]|]. apply rtc_refl.
  - split; vm_compute; reflexivity.
Qed.

(** In [u1] mode a call that changes its destination changes it for every other
    call: here the second call sends to where the first was told to go. *)
Theorem destination_is_shared :
  exists c, c_reachable runClientShared (mkLimits 2 0 false 2) false steady 7 1 c /\ ct_sent c = [(2, 9)].
Proof.
  eexists. split.
  - unfold c_reachable. etrans; [spawn|]. etrans; [spawn|].
    crun; [by apply (COpen _ _ _ [] 1 [mkCall 2 Opening])|]. crun; [by apply (COpen _ _ _ [mkCall 1 Executing] 2 [])|].
    crun; [by apply (CSetDest _ _ _ [] 1 [mkCall 2 Executing] 9)|].
    crun; [by apply (CSend _ _ _ [mkCall 1 Executing] 2 [])|]. apply rtc_refl.
  - vm_compute. reflexivity.
Qed.

(** A limit set before the run begins is lost: the loop resizes the limiter to
    the configured value. *)
Theorem limit_before_run_lost n rate remote limit :
  s_limit (ct_sem (startClient runClientPerCall two_limits rate remote (Resize n (newDynSemaphore limit)))) = 2.
Proof. reflexivity. Qed.
