(* ===== verification/GoFlag.v ===== *)
(** * Command-line values ([strconv], [time], [net] and [flag])

    What the command line of the program uses of Go's standard library: numbers
    with a base prefix, booleans, durations, host and port, and
    [flag.FlagSet.Parse] over an arbitrary table of flags. *)

From stdpp Require Import base list gmap strings.
From Stdlib Require Import ZArith Lia Strings.Byte.
From S2P Require Import Prelude GoStrings GoFloat.

(** ** [strconv] with base 0 *)

(** Digits in base [base] with underscores between them; [None] for any other
    character.  The flag tells whether there was an underscore. *)
Fixpoint base_digits (base : Z) (s : str) (n : Z) (under : bool) : option (Z * bool) :=
  match s with
  | [] => Some (n, under)
  | c :: s' =>
    if beqb c x5f then base_digits base s' n true
    else
      let l := Z.lor (b2z c) 32 in
      let d := if in_range 48 57 c then Some (b2z c - 48)
               else if (97 <=? l) && (l <=? 122) then Some (l - 87) else None in
      match d with
      | Some d => if d <? base then base_digits base s' (n * base + d) under else None
      | None => None
      end
  end.

(** Base and digits of a number without sign. *)
Definition base_prefix (s : str) : Z * str :=
  match s with
  | a :: b :: _ :: _ =>
    if beqb a x30 then
      if beqb (lower_byte b) x62 then (2, drop 2 s)
      else if beqb (lower_byte b) x6f then (8, drop 2 s)
      else if beqb (lower_byte b) x78 then (16, drop 2 s)
      else (8, drop 1 s)
    else (10, s)
  | a :: _ => if beqb a x30 then (8, drop 1 s) else (10, s)
  | [] => (10, [])
  end.

(** [underscoreOK] on a number without sign. *)
Definition underscoreOK (s : str) : bool :=
  match s with
  | a :: b :: r =>
    let l := lower_byte b in
    if beqb a x30 && (beqb l x62 || beqb l x6f || beqb l x78) then underscores_ok (beqb l x78) r SawDigit
    else underscores_ok false s SawStart
  | _ => underscores_ok false s SawStart
  end.

(** [strconv.ParseUint(s, 0, 64)]; [None] is a syntax or range error. *)
Definition ParseUint0 (s : str) : option Z :=
  match s with
  | [] => None
  | _ =>
    let '(base, body) := base_prefix s in
    match base_digits base body 0 false with
    | None => None
    | Some (n, under) => if (n <? 2 ^ 64) && (negb under || underscoreOK s) then Some n else None
    end
  end.

(** [strconv.ParseInt(s, 0, 64)] *)
Definition ParseInt0 (s : str) : option Z :=
  let '(neg, body) := read_sign s in
  match ParseUint0 body with
  | None => None
  | Some n => if neg then (if n <=? 2 ^ 63 then Some (- n) else None) else (if n <? 2 ^ 63 then Some n else None)
  end.

Definition ParseBool (s : str) : option bool :=
  if bool_decide (s ∈ [lit "1"; lit "t"; lit "T"; lit "true"; lit "TRUE"; lit "True"]) then Some true
  else if bool_decide (s ∈ [lit "0"; lit "f"; lit "F"; lit "false"; lit "FALSE"; lit "False"]) then Some false
  else None.

(** ** [time.ParseDuration] *)

Definition is_digit (b : byte) : bool := in_range 48 57 b.

(** [leadingInt]; [None] when it does not fit. *)
Fixpoint leadingInt (s : str) (x : Z) : option (Z * str) :=
  match s with
  | c :: s' =>
    if is_digit c then
      if 2 ^ 63 / 10 <? x then None
      else let x := x * 10 + (b2z c - 48) in if 2 ^ 63 <? x then None else leadingInt s' x
    else Some (x, s)
  | [] => Some (x, s)
  end.

(** [leadingFraction]; digits that do not fit are skipped. *)
Fixpoint leadingFraction (s : str) (x : Z) (scale : float64) (overflow : bool) : Z * float64 * str :=
  match s with
  | c :: s' =>
    if is_digit c then
      if overflow || ((2 ^ 63 - 1) / 10 <? x) then leadingFraction s' x scale true
      else let y := x * 10 + (b2z c - 48) in
        if 2 ^ 63 <? y then leadingFraction s' x scale true
        else leadingFraction s' y (fmul scale (float_of_int 10)) false
    else (x, scale, s)
  | [] => (x, scale, s)
  end.

(** The unit in front of the next number. *)
Fixpoint take_unit (s : str) : str * str :=
  match s with
  | c :: s' => if beqb c x2e || is_digit c then ([], s) else let '(u, r) := take_unit s' in (c :: u, r)
  | [] => ([], [])
  end.

Definition unit_ns (u : str) : option Z :=
  if bool_decide (u = lit "ns") then Some 1
  else if bool_decide (u = lit "us") || bool_decide (u = [xc2; xb5; x73]) || bool_decide (u = [xce; xbc; x73]) then Some 1000
  else if bool_decide (u = lit "ms") then Some 1000000
  else if bool_decide (u = lit "s") then Some 1000000000
  else if bool_decide (u = lit "m") then Some 60000000000
  else if bool_decide (u = lit "h") then Some 3600000000000
  else None.

(** One number with its unit: nanoseconds and the rest of the text. *)
Definition duration_part (s : str) : option (Z * str) :=
  match s with
  | [] => None
  | c :: _ =>
    if negb (beqb c x2e || is_digit c) then None
    else match leadingInt s 0 with
    | None => None
    | Some (v, s1) =>
      let pre := negb (length s1 =? length s)%nat in
      let '(f, scale, s2, post) :=
        match s1 with
        | p :: s' => if beqb p x2e then let '(f, scale, s2) := leadingFraction s' 0 fone false in
                                        (f, scale, s2, negb (length s2 =? length s')%nat)
                     else (0, fone, s1, false)
        | [] => (0, fone, s1, false)
        end in
      if negb pre && negb post then None
      else let '(u, s3) := take_unit s2 in
        match u, unit_ns u with
        | _ :: _, Some unit =>
          if 2 ^ 63 / unit <? v then None
          else let v := v * unit in
            let v := if 0 <? f then v + int64_of_float (fmul (float_of_int f) (fdiv (float_of_int unit) scale)) else v in
            if (0 <? f) && (2 ^ 63 <? v) then None else Some (v, s3)
        | _, _ => None
        end
    end
  end.

Fixpoint duration_sum (fuel : nat) (s : str) (d : Z) : option Z :=
  match fuel, s with
  | _, [] => Some d
  | O, _ => None
  | S k, _ =>
    match duration_part s with
    | None => None
    | Some (v, s') => let d := (d + v) mod 2 ^ 64 in if 2 ^ 63 <? d then None else duration_sum k s' d
    end
  end.

(** [time.ParseDuration], in nanoseconds; every part uses up some text, so the
    length of the text is enough fuel. *)
Definition ParseDuration (s : str) : option Z :=
  let '(neg, s) := read_sign s in
  if bool_decide (s = lit "0") then Some 0
  else if bool_decide (s = []) then None
  else match duration_sum (length s) s 0 with
  | None => None
  | Some d => if neg then Some (- d) else if 2 ^ 63 - 1 <? d then None else Some d
  end.

(** ** [net.SplitHostPort] *)

Definition SplitHostPort (hostport : str) : option (str * str) :=
  match LastIndex hostport (lit ":") with
  | None => None
  | Some i =>
    let bracketed := HasPrefix hostport (lit "[") in
    let parts :=
      if bracketed then
        match IndexByte x5d hostport with
        | None => None
        | Some e => if (S e =? i)%nat then Some (drop 1 (take e hostport), 1%nat, S e) else None
        end
      else
        let host := take i hostport in
        match IndexByte x3a host with Some _ => None | None => Some (host, 0%nat, 0%nat) end in
    match parts with
    | None => None
    | Some (host, j, k) =>
      match IndexByte x5b (drop j hostport), IndexByte x5d (drop k hostport) with
      | None, None => Some (host, drop (S i) hostport)
      | _, _ => None
      end
    end
  end.

(** ** [flag.FlagSet.Parse] *)

Inductive flag_error :=
  | FlagSyntax (arg : str)
  | FlagUnknown (name : str)
  | FlagHelp
  | FlagNoArgument (name : str)
  | FlagValue (name value : str).

Section FlagSet.

(** A flag: whether it is a boolean one, and its [Set]. *)
Context {C : Type} (flags : str -> option (bool * (str -> C -> option C))).

Definition setFlag (name value : str) (f : str -> C -> option C) (c : C) : result flag_error C :=
  match f value c with Some c => Ok c | None => Err (FlagValue name value) end.

(** The text after the dashes: name and value behind an equals sign. *)
Definition flag_name (arg : str) : str * option str :=
  match arg with
  | [] => ([], None)
  | c :: rest => match Cut rest x3d with Some (n, v) => (c :: n, Some v) | None => (arg, None) end
  end.

(** [parseOne]: what the next argument is. *)
Inductive parse_one :=
  | OneDone (others : list str)
  | OneSet (name v : str) (f : str -> C -> option C) (rest : list str)
  | OneErr (e : flag_error).

Definition parseOne (args : list str) : parse_one :=
  match args with
  | [] => OneDone []
  | [] :: _ => OneDone args
  | (d :: b1) as a :: rest =>
    if negb (beqb d x2d) || bool_decide (b1 = []) then OneDone args
    else if bool_decide (a = lit "--") then OneDone rest
    else
      let body := TrimPrefix b1 (lit "-") in
      if match body with [] => true | e :: _ => beqb e x2d || beqb e x3d end then OneErr (FlagSyntax a)
      else
        let '(name, value) := flag_name body in
        match flags name with
        | None => OneErr (if bool_decide (name = lit "help") || bool_decide (name = lit "h") then FlagHelp else FlagUnknown name)
        | Some (true, f) => OneSet name (default (lit "true") value) f rest
        | Some (false, f) =>
          match value, rest with
          | Some v, _ => OneSet name v f rest
          | None, v :: rest => OneSet name v f rest
          | None, [] => OneErr (FlagNoArgument name)
          end
        end
  end.

(** [Parse]: the values, what was set in order, and the arguments left over.
    Every round uses up an argument, so their number is enough fuel. *)
Fixpoint parseRounds (fuel : nat) (args : list str) (c : C) : result flag_error (C * list (str * str) * list str) :=
  match fuel, parseOne args with
  | _, OneDone others => Ok (c, [], others)
  | _, OneErr e => Err e
  | O, _ => Ok (c, [], args)
  | S n, OneSet name v f rest =>
    let? c := setFlag name v f c in
    let? (c, sets, others) := parseRounds n rest c in
    Ok (c, (name, v) :: sets, others)
  end.

Definition parseFlags (args : list str) (c : C) : result flag_error (C * list (str * str) * list str) :=
  parseRounds (length args) args c.

(** *** Facts *)

(** The assignments carried out one after another. *)
Fixpoint applySets (sets : list (str * str)) (c : C) : option C :=
  match sets with
  | [] => Some c
  | (name, v) :: sets =>
    match flags name with
    | Some (_, f) => match f v c with Some c => applySets sets c | None => None end
    | None => None
    end
  end.

Lemma parseOne_set args name v f rest : parseOne args = OneSet name v f rest ->
  (exists b, flags name = Some (b, f)) /\ (length rest < length args)%nat /\ rest `suffix_of` args
  /\ forall more, parseOne (args ++ more) = OneSet name v f (rest ++ more).
Proof.
  destruct args as [|[|d b1] tl]; cbn [parseOne app]; [done..|].
  destruct (_ || _); [done|]. destruct (bool_decide _); [done|]. cbv zeta. destruct (match TrimPrefix _ _ with [] => _ | _ => _ end); [done|].
  destruct (flag_name _) as [n value]. destruct (flags n) as [[b g]|] eqn:E; [|done].
  assert (tl `suffix_of` (d :: b1) :: tl) as Hs by by apply suffix_cons_r.
  destruct b; [|destruct value as [w|]; [|destruct tl as [|w tl]; [done|]]]; intros [= <- <- <- <-]; split_and!; try done;
    try (by eexists); cbn; try lia.
  by do 2 apply suffix_cons_r.
Qed.

Lemma parseOne_done args others : parseOne args = OneDone others -> others = args \/ args = lit "--" :: others.
Proof.
  destruct args as [|[|d b1] tl]; cbn [parseOne]; [intros [= <-]; by left..|].
  destruct (_ || _); [intros [= <-]; by left|]. destruct (bool_decide _) eqn:E; [|].
  - intros [= <-]. right. by apply bool_decide_eq_true in E as ->.
  - cbv zeta. destruct (match TrimPrefix _ _ with [] => _ | _ => _ end); [done|]. destruct (flag_name _) as [n [w|]];
      destruct (flags n) as [[[] g]|]; try done. by destruct tl.
Qed.

Lemma parseRounds_fuel n m args c : (length args <= n)%nat -> (length args <= m)%nat ->
  parseRounds n args c = parseRounds m args c.
Proof.
  revert m args c. induction n as [|n IH]; intros m args c Hn Hm.
  { destruct args; [|cbn in Hn; lia]. by destruct m. }
  destruct m as [|m]; [destruct args; [done|cbn in Hm; lia]|].
  cbn [parseRounds]. destruct (parseOne args) as [|name v f rest|] eqn:E; [done| |done].
  apply parseOne_set in E as (_ & Hl & _). unfold setFlag. destruct (f v c) as [c1|]; [|done]. cbn [rbind].
  rewrite (IH m rest c1) by lia. done.
Qed.

(** The parser, one argument at a time. *)
Lemma parseFlags_unfold args c :
  parseFlags args c =
    match parseOne args with
    | OneDone others => Ok (c, [], others)
    | OneErr e => Err e
    | OneSet name v f rest =>
      rbind (setFlag name v f c) (fun c => rbind (parseFlags rest c) (fun '(c, sets, others) => Ok (c, (name, v) :: sets, others)))
    end.
Proof.
  unfold parseFlags. destruct args as [|a tl]; [done|]. cbn [length parseRounds].
  destruct (parseOne (a :: tl)) as [|name v f rest|] eqn:E; [done| |done].
  apply parseOne_set in E as (_ & Hl & _). cbn in Hl. unfold setFlag. destruct (f v c) as [c1|]; [|done]. cbn [rbind].
  by rewrite (parseRounds_fuel (length tl) (length rest) rest c1) by lia.
Qed.

Lemma args_ind (P : list str -> Prop) :
  (forall args, (forall rest, (length rest < length args)%nat -> P rest) -> P args) -> forall args, P args.
Proof. intros H args. apply (well_founded_induction (well_founded_ltof _ (@length str))). exact H. Qed.

Lemma setFlag_ok name v f c c1 : setFlag name v f c = Ok c1 <-> f v c = Some c1.
Proof. unfold setFlag. destruct (f v c); naive_solver. Qed.

(** The result is that of the assignments, in order. *)
Lemma parseFlags_sets args c c' sets others : parseFlags args c = Ok (c', sets, others) -> applySets sets c = Some c'.
Proof.
  revert c sets. induction args as [args IH] using args_ind; intros c sets. rewrite parseFlags_unfold.
  destruct (parseOne args) as [o|name v f rest|] eqn:E; [by intros [= <- <- <-]| |done].
  apply parseOne_set in E as ([b Hb] & Hl & _). intros H. apply rbind_ok in H as (c1 & Hs & H).
  apply rbind_ok in H as ([[c2 sets2] others2] & Hr & H). injection H as <- <- <-. cbn [applySets]. rewrite Hb.
  apply setFlag_ok in Hs as ->. by apply (IH rest Hl).
Qed.

(** Arguments that are used up are followed by the parse of the rest. *)
Lemma parseFlags_app args more c c1 sets1 :
  parseFlags args c = Ok (c1, sets1, []) -> last args <> Some (lit "--") ->
  parseFlags (args ++ more) c
  = rbind (parseFlags more c1) (fun '(c2, sets2, others) => Ok (c2, sets1 ++ sets2, others)).
Proof.
  revert c sets1. induction args as [args IH] using args_ind; intros c sets1. rewrite parseFlags_unfold.
  destruct (parseOne args) as [o|name v f rest|] eqn:E; [| |done].
  - intros [= <- <- ->] Hlast. apply parseOne_done in E as [<- | ->]; [|by cbn in Hlast].
    cbn [app]. by destruct (parseFlags more c) as [[[c2 sets2] o2]|].
  - apply parseOne_set in E as (_ & Hl & [pre Hsuf] & Happ). intros H Hlast. apply rbind_ok in H as (c2 & Hs & H).
    apply rbind_ok in H as ([[c3 sets3] others3] & Hr & H). injection H as <- <- ->.
    rewrite parseFlags_unfold, Happ. rewrite Hs. cbn [rbind]. rewrite (IH rest Hl c2 sets3 Hr).
    + by destruct (parseFlags more c3) as [[[c4 sets4] o4]|].
    + destruct rest as [|r0 rest] using rev_ind; [done|]. rewrite Hsuf, app_assoc, last_snoc in Hlast. by rewrite last_snoc.
Qed.

End FlagSet.

Example ParseInt0_examples :
  ParseInt0 (lit "0x1F") = Some 31 /\ ParseInt0 (lit "-010") = Some (-8) /\ ParseInt0 (lit "1_000") = Some 1000
  /\ ParseInt0 (lit "1__0") = None /\ ParseInt0 (lit "0") = Some 0 /\ ParseInt0 (lit "08") = None.
Proof. vm_compute. repeat split. Qed.

Example ParseDuration_examples :
  ParseDuration (lit "1m30s") = Some 90000000000 /\ ParseDuration (lit "1.5h") = Some 5400000000000
  /\ ParseDuration (lit "-7s") = Some (-7000000000) /\ ParseDuration (lit "5") = None.
Proof. vm_compute. repeat split. Qed.

Example SplitHostPort_examples :
  SplitHostPort (lit "[::1]:80") = Some (lit "::1", lit "80") /\ SplitHostPort (lit "::1:80") = None
  /\ SplitHostPort (lit "a:") = Some (lit "a", []).
Proof. vm_compute. repeat split. Qed.
