(* ===== verification/CliConfig.v ===== *)
(** * The configuration and its small parsers ([internal/cli/config.go])

    [Config] has more than a hundred fields; it is a finite map from field names
    to values here, where a missing field has the zero value of Go, so that
    tables of flags and of JSON keys can name the fields they write.  Besides
    the defaults the file has the helpers of [Parse]: addresses, peer maps,
    injection files, key and index arguments, and the profile options.
    [os.ReadFile] and [encoding/csv] are parameters; an error is the constant
    part of the source's message. *)

From stdpp Require Import base list gmap strings.
From Stdlib Require Import ZArith Lia Strings.Byte.
From S2P Require Import Prelude GoStrings GoFloat GoFlag NetAddr SafePath.

(** ** Values and fields *)

Record ServerListener := mkServerListener { ln_Transport : str; ln_LocalIP : str; ln_LocalPort : Z }.

#[export] Instance ServerListener_eq_dec : EqDecision ServerListener.
Proof. solve_decision. Defined.

Inductive value :=
  | VS (s : str)
  | VI (z : Z)
  | VF (x : float64)
  | VB (b : bool)
  | VL (l : list str)
  | VM (m : gmap str str)
  | VLn (l : list ServerListener).

Abbreviation Config := (gmap string value).

Definition getS (cfg : Config) (f : string) : str := match cfg !! f with Some (VS s) => s | _ => [] end.
Definition getI (cfg : Config) (f : string) : Z := match cfg !! f with Some (VI z) => z | _ => 0 end.
Definition getF (cfg : Config) (f : string) : float64 := match cfg !! f with Some (VF x) => x | _ => fzero end.
Definition getB (cfg : Config) (f : string) : bool := match cfg !! f with Some (VB b) => b | _ => false end.
Definition getL (cfg : Config) (f : string) : list str := match cfg !! f with Some (VL l) => l | _ => [] end.
Definition getM (cfg : Config) (f : string) : gmap str str := match cfg !! f with Some (VM m) => m | _ => ∅ end.
Definition getLn (cfg : Config) (f : string) : list ServerListener := match cfg !! f with Some (VLn l) => l | _ => [] end.

Abbreviation parsed A := (result string A).

Definition ms : Z := 1000000.
Definition second : Z := 1000000000.

Definition DefaultConfig : Config :=
  list_to_map
    [("ScenarioName", VS (lit "uac")); ("Service", VS (lit "service")); ("Transport", VS (lit "u1"));
     ("LocalIP", VS (lit "0.0.0.0")); ("AuthPassword", VS (lit "password")); ("Rate", VF fone); ("RateScale", VF fone);
     ("BaseCSeq", VI 1); ("TotalCalls", VI 1); ("MaxConcurrent", VI 1); ("Users", VI 1);
     ("DefaultPause", VI (1000 * ms)); ("DefaultRecvTO", VI (5 * second)); ("StatsDumpPeriod", VI second);
     ("RTTDumpFrequency", VI 200); ("TLSSkipVerify", VB true); ("IPField", VI (-1)); ("RTPCodec", VS (lit "PCMU/8000"));
     ("RTPFreqMs", VI 20); ("RTPChannels", VI 1); ("LogOTELProto", VS (lit "grpc")); ("LogBufferSize", VI 16384);
     ("LogLevel", VS (lit "info")); ("HealthMaxFailedCalls", VI (-1)); ("HealthMaxTimeouts", VI (-1))]%string.

(** ** Authentication *)

Definition InternalEnabled (cfg : Config) : bool := EqualFold (TrimSpace (getS cfg "Auth.Type")) (lit "internal").
Definition ExplicitlyDisabled (cfg : Config) : bool := EqualFold (TrimSpace (getS cfg "Auth.Type")) (lit "none").

Definition AuthSQLitePath (cfg : Config) : str :=
  let p := TrimSpace (getS cfg "Auth.SQLitePath") in
  if bool_decide (p <> []) then p
  else let d := TrimSpace (getS cfg "UIDataDir") in
    if bool_decide (d <> []) then JoinPath [d; lit "settings.sqlite"] else [].

Definition AdminConsoleAuthEnabled (cfg : Config) : bool :=
  if ExplicitlyDisabled cfg then false
  else if InternalEnabled cfg then true
  else bool_decide (TrimSpace (getS cfg "UIDataDir") <> []).

(** ** Server mode *)

Definition applyServerModeIfEnabled (cfg : Config) (flagProvided : list str) : parsed Config :=
  if negb (getB cfg "ServerMode") then Ok cfg
  else if getB cfg "RTPSend" then Err "server mode is incompatible with -rtp_send"%string
  else
    let cfg := if bool_decide (TrimSpace (getS cfg "ApiAddr") = []) then <["ApiAddr"%string := VS (lit ":8080")]> cfg else cfg in
    let name := getS cfg "ScenarioName" in
    let cfg := if bool_decide (getS cfg "ScenarioFile" = []) && (bool_decide (name = []) || bool_decide (name = lit "uac"))
               then <["ScenarioName"%string := VS (lit "management")]> cfg else cfg in
    let cfg := if negb (getB cfg "TotalCallsSetExplicitly")
               then <["TotalCalls"%string := VI 0]> (<["TotalCallsSetExplicitly"%string := VB true]> cfg) else cfg in
    Ok (if (getI cfg "LocalPort" =? 0) && bool_decide (lit "p" ∉ flagProvided)
        then <["LocalPort"%string := VI 5060]> cfg else cfg).

(** ** Addresses and peers *)

Definition count_byte (c : byte) (s : str) : nat := length (filter (fun b => b = c) s).

Definition splitHostPort (input : str) : parsed (str * Z) :=
  let parts :=
    if (count_byte x3a input =? 1)%nat && negb (HasPrefix input (lit "[")) then Cut input x3a
    else SplitHostPort input in
  match parts with
  | None => Err "expected host:port"%string
  | Some (host, portStr) =>
    match Atoi portStr with Some port => Ok (host, port) | None => Err "invalid port"%string end
  end.

Definition is_comment (line : str) : bool := bool_decide (line = []) || HasPrefix line (lit "#").

(** One line of a peer map. *)
Definition addPeer (peers : gmap str str) (raw : str) : parsed (gmap str str) :=
  let line := TrimSpace raw in
  if is_comment line then Ok peers
  else match Cut line x3b with
  | None => Err "invalid cmd peer entry"%string
  | Some (name, addr) =>
    let name := TrimSpace name in
    let addr := TrimSpace addr in
    if bool_decide (name = []) || bool_decide (addr = []) then Err "invalid cmd peer entry"%string
    else match splitHostPort addr with
    | Err _ => Err "invalid cmd peer address"%string
    | Ok _ => Ok (<[name := addr]> peers)
    end
  end.

Fixpoint addPeers (peers : gmap str str) (lines : list str) : parsed (gmap str str) :=
  match lines with
  | [] => Ok peers
  | l :: lines => let? peers := addPeer peers l in addPeers peers lines
  end.

(** [parseCommandPeersFile] on the text of the file. *)
Definition parseCommandPeers (data : str) : parsed (gmap str str) :=
  let? peers := addPeers ∅ (Split data x0a) in
  if bool_decide (peers = ∅) then Err "cmd peer map is empty"%string else Ok peers.

(** [kvFlag.Set] *)
Fixpoint kvEntries (values : gmap str str) (entries : list str) : option (gmap str str) :=
  match entries with
  | [] => Some values
  | entry :: rest =>
    let entry := TrimSpace entry in
    if bool_decide (entry = []) then kvEntries values rest
    else match Cut entry x3d with
    | None => None
    | Some (key, v) =>
      let key := TrimSpace key in
      if bool_decide (key = []) then None else kvEntries (<[key := TrimSpace v]> values) rest
    end
  end.

Definition kvSet (values : gmap str str) (raw : str) : option (gmap str str) := kvEntries values (Split raw x2c).

Definition levelKnown (name : str) : option str :=
  let n := ToLower (TrimSpace name) in
  if bool_decide (n ∈ [[]; lit "info"]) then Some (lit "info")
  else if bool_decide (n = lit "debug") then Some (lit "debug")
  else if bool_decide (n ∈ [lit "warn"; lit "warning"]) then Some (lit "warn")
  else if bool_decide (n ∈ [lit "error"; lit "err"]) then Some (lit "error")
  else None.

(** ** Injection files *)

Definition isIgnorableInfRow (record : list str) : bool :=
  match record with
  | [] => true
  | c :: _ => if HasPrefix (TrimSpace c) (lit "#") then true
              else forallb (fun cell => bool_decide (TrimSpace cell = [])) record
  end.

Definition isSIPpInjectionFieldKeyword (v : str) : bool :=
  bool_decide (ToUpper (TrimSpace v) ∈ [lit "SEQUENTIAL"; lit "RANDOM"; lit "USER"]).

Definition bom : str := [xef; xbb; xbf].

Fixpoint sniff_lines (lines : list str) : byte :=
  match lines with
  | [] => x2c
  | raw :: lines =>
    let line := TrimSpace raw in
    if is_comment line || isSIPpInjectionFieldKeyword line || negb (existsb (fun b => beqb b x2c || beqb b x3b) line)
    then sniff_lines lines
    else if (count_byte x2c line <? count_byte x3b line)%nat then x3b else x2c
  end.

Definition sniffInjectionCommaFromPeek (peek : str) : byte := sniff_lines (Split (TrimPrefix peek bom) x0a).

Definition infDelimiterPeekBytes : nat := Z.to_nat 65536.

(** The source address of one row; [None] for a row without one. *)
Definition rowSourceIP (field : Z) (record : list str) : parsed (option str) :=
  if Z.of_nat (length record) <=? field then Err "ip_field is out of range"%string
  else if isIgnorableInfRow record then Ok None
  else
    let v := TrimSpace (TrimPrefix (TrimSpace (nth (Z.to_nat field) record [])) bom) in
    if bool_decide (v = []) then Err "empty source IP"%string
    else if isSIPpInjectionFieldKeyword v then Ok None
    else match ParseIP v with None => Err "invalid source IP"%string | Some _ => Ok (Some v) end.

Fixpoint rowsSourceIPs (field : Z) (records : list (list str)) : parsed (list str) :=
  match records with
  | [] => Ok []
  | r :: records =>
    let? ip := rowSourceIP field r in
    let? ips := rowsSourceIPs field records in
    Ok (match ip with Some ip => ip :: ips | None => ips end)
  end.

Section Files.

(** [os.ReadFile], and the records [encoding/csv] reads with a separator; all
    rows are read before the first one is looked at, which changes only which
    of two errors is reported. *)
Context (readFile : str -> option str) (readCSV : byte -> str -> option (list (list str))).

Definition loadSourceIPsFromInjection (path : str) (field : Z) : parsed (list str) :=
  match readFile path with
  | None => Err "unable to open inf file"%string
  | Some data =>
    match readCSV (sniffInjectionCommaFromPeek (take infDelimiterPeekBytes data)) data with
    | None => Err "unable to parse inf file"%string
    | Some records =>
      let? ips := rowsSourceIPs field records in
      if bool_decide (ips = []) then Err "inf file does not contain any source IP rows"%string else Ok ips
    end
  end.

Definition parseCommandPeersFile (path : str) : parsed (gmap str str) :=
  match readFile path with None => Err "read"%string | Some data => parseCommandPeers data end.

End Files.

(** ** Arguments taken out before the flags *)

(** [extractInfIndexArgs]: the other arguments, the file and the field. *)
Fixpoint infIndexArgs (args : list str) (seen : bool) (file : str) (field : Z) : parsed (list str * str * Z) :=
  match args with
  | [] => Ok ([], file, field)
  | a :: rest =>
    if bool_decide (a <> lit "-infindex") then
      let? (others, file, field) := infIndexArgs rest seen file field in Ok (a :: others, file, field)
    else if seen then Err "infindex may only be specified once"%string
    else match rest with
    | [] => Err "infindex requires file and field"%string
    | next :: rest1 =>
      let next := TrimSpace next in
      match Cut next x2c with
      | Some (csvFile, csvField) =>
        match Atoi (TrimSpace csvField) with
        | None => Err "invalid infindex field"%string
        | Some f => infIndexArgs rest1 true (TrimSpace csvFile) f
        end
      | None =>
        match rest1 with
        | [] => Err "infindex requires file and field"%string
        | f :: rest2 =>
          match Atoi (TrimSpace f) with
          | None => Err "invalid infindex field"%string
          | Some f => infIndexArgs rest2 true next f
          end
        end
      end
    end
  end.

Definition extractInfIndexArgs (args : list str) : parsed (list str * str * Z) :=
  let? (others, file, field) := infIndexArgs args false [] 0 in
  if bool_decide (TrimSpace file = []) then Ok (others, [], 0)
  else if field <? 0 then Err "infindex field must be greater than or equal to zero"%string
  else Ok (others, file, field).

(** [extractKeyArgs]: the other arguments and the keys. *)
Fixpoint keyArgs (args : list str) (keys : gmap str str) : parsed (list str * gmap str str) :=
  match args with
  | [] => Ok ([], keys)
  | a :: rest =>
    if bool_decide (a = lit "-key") || bool_decide (a = lit "--key") then
      match rest with
      | name :: v :: rest =>
        if bool_decide (name = []) then Err "-key name must not be empty"%string else keyArgs rest (<[name := v]> keys)
      | _ => Err "-key requires two arguments"%string
      end
    else let? (others, keys) := keyArgs rest keys in Ok (a :: others, keys)
  end.

Definition extractKeyArgs (args : list str) : parsed (list str * gmap str str) := keyArgs args ∅.

(** ** Profile options *)

Record runProfileMeta := mkMeta {
  ConfigPath : str;
  RunAlias : str;
  ListAliases : bool;
  ServerFlatConfigPath : str;
  ImplicitServerSubcommand : bool
}.

Definition InternalServerSubcommandArgv : str := lit "--gossipper-server-subcommand".

Definition serverRestImpliesServerMode (argv : list str) : bool :=
  existsb (fun a => bool_decide (a = InternalServerSubcommandArgv)) argv.

Definition ServerSubcommandPrependsFlag (rest : list str) : list str :=
  if serverRestImpliesServerMode rest then rest else InternalServerSubcommandArgv :: rest.

Definition postNormalizeRunProfileMeta (m : runProfileMeta) : runProfileMeta :=
  if ImplicitServerSubcommand m && bool_decide (ConfigPath m <> []) && bool_decide (RunAlias m = []) && negb (ListAliases m)
  then mkMeta [] (RunAlias m) (ListAliases m) (ConfigPath m) (ImplicitServerSubcommand m) else m.

Definition dashed (name : string) (a : str) : bool := bool_decide (a = lit ("-" ++ name)) || bool_decide (a = lit ("--" ++ name)).

(** The value behind [-name=] or [--name=]. *)
Definition assigned (name : string) (a : str) : option str :=
  if HasPrefix a (lit ("-" ++ name ++ "=")) then Some (TrimPrefix a (lit ("-" ++ name ++ "=")))
  else if HasPrefix a (lit ("--" ++ name ++ "=")) then Some (TrimPrefix a (lit ("--" ++ name ++ "=")))
  else None.

Fixpoint metaArgs (args : list str) (m : runProfileMeta) : parsed (list str * runProfileMeta) :=
  match args with
  | [] => Ok ([], m)
  | a :: rest =>
    let withConfig p := mkMeta p (RunAlias m) (ListAliases m) (ServerFlatConfigPath m) (ImplicitServerSubcommand m) in
    let withAlias n := mkMeta (ConfigPath m) n (ListAliases m) (ServerFlatConfigPath m) (ImplicitServerSubcommand m) in
    if bool_decide (a = InternalServerSubcommandArgv) then
      metaArgs rest (mkMeta (ConfigPath m) (RunAlias m) (ListAliases m) (ServerFlatConfigPath m) true)
    else if dashed "list-aliases" a then
      metaArgs rest (mkMeta (ConfigPath m) (RunAlias m) true (ServerFlatConfigPath m) (ImplicitServerSubcommand m))
    else if dashed "config" a then
      match rest with [] => Err "-config requires a path"%string | p :: rest => metaArgs rest (withConfig p) end
    else match assigned "config" a with
    | Some p => metaArgs rest (withConfig p)
    | None =>
      if dashed "run-alias" a then
        match rest with [] => Err "-run-alias requires a name"%string | n :: rest => metaArgs rest (withAlias n) end
      else match assigned "run-alias" a with
      | Some n => metaArgs rest (withAlias n)
      | None =>
        if dashed "config-server" a || bool_decide (is_Some (assigned "config-server" a))
        then Err "-config-server was removed"%string
        else if dashed "config-client" a || bool_decide (is_Some (assigned "config-client" a))
        then Err "-config-client was removed"%string
        else let? (others, m) := metaArgs rest m in Ok (a :: others, m)
      end
    end
  end.

Definition parseRunProfileMeta (args : list str) : parsed (list str * runProfileMeta) :=
  let? (others, m) := metaArgs args (mkMeta [] [] false [] false) in
  Ok (others, postNormalizeRunProfileMeta m).

(** ** What a stage may change *)

Definition same_except (l : list string) (cfg cfg' : Config) : Prop := forall f, f ∉ l -> cfg' !! f = cfg !! f.

Lemma same_refl cfg : same_except [] cfg cfg.
Proof. by intros f _. Qed.

Lemma same_trans l1 l2 a b c : same_except l1 a b -> same_except l2 b c -> same_except (l1 ++ l2) a c.
Proof. intros H1 H2 f Hf. rewrite not_elem_of_app in Hf. destruct Hf as [? ?]. by rewrite H2, H1. Qed.

Lemma same_weaken l l' a b : same_except l a b -> l ⊆ l' -> same_except l' a b.
Proof. intros H Hl f Hf. apply H. by intros Hin%Hl. Qed.

Lemma same_insert f v cfg : same_except [f] cfg (<[f := v]> cfg).
Proof. intros g Hg. apply lookup_insert_ne. set_solver. Qed.

(** Membership in a list of names, and its absence, by computation. *)
Ltac listed := apply (bool_decide_unpack _); vm_compute; exact I.

(** Close [same_except] goals built from insertions and tests. *)
Ltac same :=
  repeat match goal with
  | |- same_except _ ?c ?c => intros ? _; reflexivity
  | |- same_except ?l ?c (if ?b then _ else _) => destruct b
  | |- same_except ?l ?c (<[?f := ?v]> ?c') =>
      let g := fresh in let Hg := fresh in
      intros g Hg; rewrite lookup_insert_ne by (intros <-; apply Hg; listed);
      revert g Hg; change (same_except l c c')
  end.

Definition serverModeFields : list string := ["ApiAddr"; "ScenarioName"; "TotalCallsSetExplicitly"; "TotalCalls"; "LocalPort"]%string.

Lemma serverMode_same cfg provided cfg' : applyServerModeIfEnabled cfg provided = Ok cfg' -> same_except serverModeFields cfg cfg'.
Proof.
  unfold applyServerModeIfEnabled. destruct (negb _); [intros <-%Ok_inj; same|]. destruct (getB cfg _); [done|].
  cbv zeta. intros <-%Ok_inj. same.
Qed.

Lemma getS_same l a b f : same_except l a b -> f ∉ l -> getS b f = getS a f.
Proof. intros H Hf. unfold getS. by rewrite H. Qed.
Lemma getI_same l a b f : same_except l a b -> f ∉ l -> getI b f = getI a f.
Proof. intros H Hf. unfold getI. by rewrite H. Qed.
Lemma getB_same l a b f : same_except l a b -> f ∉ l -> getB b f = getB a f.
Proof. intros H Hf. unfold getB. by rewrite H. Qed.
Lemma getL_same l a b f : same_except l a b -> f ∉ l -> getL b f = getL a f.
Proof. intros H Hf. unfold getL. by rewrite H. Qed.
Lemma getM_same l a b f : same_except l a b -> f ∉ l -> getM b f = getM a f.
Proof. intros H Hf. unfold getM. by rewrite H. Qed.


(** Server mode has an address for the API and no limit that was not asked for. *)
Lemma serverMode_api cfg provided cfg' : applyServerModeIfEnabled cfg provided = Ok cfg' -> getB cfg "ServerMode" = true ->
  TrimSpace (getS cfg' "ApiAddr") <> [].
Proof.
  unfold applyServerModeIfEnabled. intros H Hm. rewrite Hm in H. cbn [negb] in H. destruct (getB cfg "RTPSend"); [done|].
  cbv zeta in H. revert H. match goal with |- context [getS ?c "ScenarioName"] => set (c1 := c) end. intros <-%Ok_inj.
  assert (TrimSpace (getS c1 "ApiAddr") <> []) as Hc.
  { unfold c1. case_bool_decide as E; [|done]. unfold getS. by rewrite lookup_insert_eq. }
  clearbody c1. rewrite (getS_same ["ScenarioName"; "TotalCallsSetExplicitly"; "TotalCalls"; "LocalPort"]%string c1); [done| |listed].
  same.
Qed.
