(* ===== verification/RunProfile.v ===== *)
(** * Run profiles ([internal/cli/run_profile.go], [composite_flat.go], [client_snippet.go])

    Configuration read from JSON: aliases, flat files, composite files with one
    server and its clients, and the snippets a client is added from at runtime.
    A JSON text is the value it denotes (objects keep the order of their keys,
    numbers their digits); a [json.RawMessage] is the value it holds.  Decoding
    into a struct follows [encoding/json]: keys match without regard to case,
    unknown ones are ignored, [null] leaves a pointer nil. *)

From stdpp Require Import base list gmap strings sorting.
From Stdlib Require Import ZArith Lia Strings.Byte.
From S2P Require Import Prelude GoStrings GoFloat GoFlag NetAddr SafePath CliConfig.

(** ** JSON values *)

Inductive json :=
  | JNull
  | JBool (b : bool)
  | JNum (digits : str)
  | JStr (s : str)
  | JArr (l : list json)
  | JObj (entries : list (str * json)).

Abbreviation object := (gmap str json).

(** [json.Unmarshal] into a map: a later key replaces an earlier one. *)
Definition toMap (j : json) : option object :=
  match j with
  | JObj l => Some (list_to_map (rev l))
  | JNull => Some ∅
  | _ => None
  end.

Definition key_le (a b : str * json) : Prop := str_leb a.1 b.1 = true.
#[export] Instance key_le_dec : RelDecision key_le.
Proof. intros a b. unfold key_le. apply _. Defined.

(** [json.Marshal] of a map: keys in ascending order. *)
Definition marshal (m : object) : json := JObj (merge_sort key_le (map_to_list m)).

(** [json.Unmarshal] into a fresh string. *)
Definition toStr (j : json) : option str :=
  match j with JStr s => Some s | JNull => Some [] | _ => None end.

Definition toArr (j : json) : option (list json) :=
  match j with JArr l => Some l | JNull => Some [] | _ => None end.

Definition toStrs (j : json) : option (list str) :=
  match toArr j with None => None | Some l => mapM toStr l end.

(** ** [runSpec] *)

Inductive spec_type := TStr | TInt | TUint32 | TFloat | TBool.

(** A pointer field: [Some None] is nil, [None] an error. *)
Definition toScalar (ty : spec_type) (j : json) : option (option value) :=
  match j, ty with
  | JNull, _ => Some None
  | JStr s, TStr => Some (Some (VS s))
  | JBool b, TBool => Some (Some (VB b))
  | JNum d, TInt => option_map (fun z => Some (VI z)) (Atoi d)
  | JNum d, TUint32 => option_map (fun z => Some (VI z)) (ParseUint 32 d)
  | JNum d, TFloat => option_map (fun x => Some (VF x)) (ParseFloat d)
  | _, _ => None
  end.

(** How [applyRunSpec] writes a field. *)
Inductive apply_how :=
  | AsIs
  | Trimmed
  | Path                        (* relative to the directory of the file *)
  | AndExplicit (flag : string) (* the value, and a field that records that it was given *)
  | Address                     (* host and port *)
  | Period.                     (* a duration *)

(** The scalar fields: JSON key, type, field of [Config], and how it is written. *)
Definition runSpecFields : list (string * spec_type * string * apply_how) :=
  [("scenario_file", TStr, "ScenarioFile", Path); ("scenario_name", TStr, "ScenarioName", Trimmed);
   ("service", TStr, "Service", Trimmed); ("transport", TStr, "Transport", Trimmed); ("local_ip", TStr, "LocalIP", Trimmed);
   ("local_port", TInt, "LocalPort", AsIs); ("remote_addr", TStr, "RemoteHost", Address);
   ("auth_username", TStr, "AuthUsername", Trimmed); ("auth_password", TStr, "AuthPassword", AsIs); ("rate", TFloat, "Rate", AsIs);
   ("max_concurrent", TInt, "MaxConcurrent", AsIs); ("total_calls", TInt, "TotalCalls", AndExplicit "TotalCallsSetExplicitly");
   ("users", TInt, "Users", AsIs); ("hep_addr", TStr, "HEPAddr", Trimmed); ("hep_capture_id", TUint32, "HEPCaptureID", AsIs);
   ("hep_password", TStr, "HEPPassword", AsIs); ("hep_raw_rtcp", TBool, "HEPRawRTCP", AsIs);
   ("hep_homer_lake_rtcp", TBool, "HEPHomerLakeRTCP", AsIs); ("send_media_report", TBool, "SendMediaReport", AsIs);
   ("summary_json", TStr, "SummaryJSON", Trimmed); ("summary_html", TStr, "SummaryHTML", Trimmed);
   ("record_wav_dir", TStr, "RecordWAVDir", Trimmed); ("record_wav_duplex", TBool, "RecordWAVDuplex", AsIs);
   ("call_records_jsonl", TStr, "CallRecordsJSONL", Trimmed); ("sip_from", TStr, "SipFrom", Trimmed);
   ("sip_pai", TStr, "SipPAI", Trimmed); ("sip_provider", TStr, "SipProvider", Trimmed); ("trace_msg", TBool, "TraceMessages", AsIs);
   ("stat_period", TStr, "StatPrintPeriod", Period); ("injection_file", TStr, "InjectionFile", Path); ("ip_field", TInt, "IPField", AsIs);
   ("health_max_rtcp_fraction_lost", TFloat, "HealthMaxRTCPFractionLost", AsIs);
   ("health_max_rtcp_jitter_ts", TInt, "HealthMaxRTCPJitterTS", AsIs);
   ("health_min_rtp_packets_recv", TInt, "HealthMinRTPPacketsRecv", AsIs);
   ("health_min_rtp_packets_recv_per_call", TInt, "HealthMinRTPPacketsRecvPerCall", AsIs);
   ("log_otel_endpoint", TStr, "LogOTELEndpoint", Trimmed); ("log_otel_proto", TStr, "LogOTELProto", Trimmed);
   ("log_otel_insecure", TBool, "LogOTELInsecure", AsIs); ("api_addr", TStr, "ApiAddr", Trimmed);
   ("ui_data_dir", TStr, "UIDataDir", Trimmed); ("scenario_history_keep", TInt, "ScenarioHistoryKeep", AsIs);
   ("legacy_api_v1", TBool, "LegacyAPIV1", AndExplicit "LegacyAPIV1Set"); ("api_token", TStr, "ApiToken", AsIs);
   ("server", TBool, "ServerMode", AsIs); ("pcap_link", TStr, "PCAPLinkLayer", Trimmed)]%string.

Record listenerRunSpec := mkListenerSpec { lr_Transport : option str; lr_LocalIP : option str; lr_LocalPort : option Z }.
Record authRunSpec := mkAuthSpec { ar_Type : option str; ar_SQLitePath : option str; ar_JWTSecret : option str }.

Record runSpec := mkRunSpec {
  rs_fields : gmap string value;             (* by JSON key *)
  rs_SipExtraHeaders : list str;
  rs_ExtraArgs : list str;
  rs_Auth : option authRunSpec;
  rs_Listeners : list listenerRunSpec
}.

Definition emptySpec : runSpec := mkRunSpec ∅ [] [] None [].

(** Whether a key of the text selects a field of the struct.  An exact match
    would be preferred, but no two fields have names that differ in case only. *)
Definition key_is (name : string) (key : str) : bool := EqualFold key (lit name).

Definition opt_str (v : option value) : option str := match v with Some (VS s) => Some s | _ => None end.
Definition opt_int (v : option value) : option Z := match v with Some (VI z) => Some z | _ => None end.

Definition authEntry (a : authRunSpec) (e : str * json) : option authRunSpec :=
  let '(k, j) := e in
  if key_is "type" k then option_map (fun v => mkAuthSpec (opt_str v) (ar_SQLitePath a) (ar_JWTSecret a)) (toScalar TStr j)
  else if key_is "sqlite_path" k then option_map (fun v => mkAuthSpec (ar_Type a) (opt_str v) (ar_JWTSecret a)) (toScalar TStr j)
  else if key_is "jwt_secret" k then option_map (fun v => mkAuthSpec (ar_Type a) (ar_SQLitePath a) (opt_str v)) (toScalar TStr j)
  else Some a.

Definition listenerEntry (a : listenerRunSpec) (e : str * json) : option listenerRunSpec :=
  let '(k, j) := e in
  if key_is "transport" k then option_map (fun v => mkListenerSpec (opt_str v) (lr_LocalIP a) (lr_LocalPort a)) (toScalar TStr j)
  else if key_is "local_ip" k then option_map (fun v => mkListenerSpec (lr_Transport a) (opt_str v) (lr_LocalPort a)) (toScalar TStr j)
  else if key_is "local_port" k then option_map (fun v => mkListenerSpec (lr_Transport a) (lr_LocalIP a) (opt_int v)) (toScalar TInt j)
  else Some a.

Fixpoint entriesM {A} (f : A -> str * json -> option A) (a : A) (l : list (str * json)) : option A :=
  match l with
  | [] => Some a
  | e :: l => match f a e with Some a => entriesM f a l | None => None end
  end.

(** A struct from a value. *)
Definition toStruct {A} (f : A -> str * json -> option A) (a : A) (j : json) : option A :=
  match j with JObj l => entriesM f a l | JNull => Some a | _ => None end.

(** The scalar field a key selects. *)
Definition scalarField (key : str) : option (string * spec_type * string * apply_how) :=
  find (fun '(name, _, _, _) => key_is name key) runSpecFields.

Definition specEntry (sp : runSpec) (e : str * json) : option runSpec :=
  let '(k, j) := e in
  match scalarField k with
  | Some (name, ty, _, _) =>
    option_map (fun v =>
      mkRunSpec (match v with Some v => <[name := v]> (rs_fields sp) | None => delete name (rs_fields sp) end)
        (rs_SipExtraHeaders sp) (rs_ExtraArgs sp) (rs_Auth sp) (rs_Listeners sp)) (toScalar ty j)
  | None =>
    if key_is "sip_extra_headers" k then
      option_map (fun l => mkRunSpec (rs_fields sp) l (rs_ExtraArgs sp) (rs_Auth sp) (rs_Listeners sp)) (toStrs j)
    else if key_is "extra_args" k then
      option_map (fun l => mkRunSpec (rs_fields sp) (rs_SipExtraHeaders sp) l (rs_Auth sp) (rs_Listeners sp)) (toStrs j)
    else if key_is "auth" k then
      match j with
      | JNull => Some (mkRunSpec (rs_fields sp) (rs_SipExtraHeaders sp) (rs_ExtraArgs sp) None (rs_Listeners sp))
      | _ =>
        option_map (fun a => mkRunSpec (rs_fields sp) (rs_SipExtraHeaders sp) (rs_ExtraArgs sp) (Some a) (rs_Listeners sp))
          (toStruct authEntry (default (mkAuthSpec None None None) (rs_Auth sp)) j)
      end
    else if key_is "listeners" k then
      match toArr j with
      | None => None
      | Some l =>
        option_map (fun ls => mkRunSpec (rs_fields sp) (rs_SipExtraHeaders sp) (rs_ExtraArgs sp) (rs_Auth sp) ls)
          (mapM (toStruct listenerEntry (mkListenerSpec None None None)) l)
      end
    else Some sp
  end.

(** [json.Unmarshal] into a [runSpec]. *)
Definition decodeSpec (j : json) : option runSpec := toStruct specEntry emptySpec j.

(** ** [applyRunSpec] *)

Definition resolvePath (configDir p : str) : str :=
  let p := TrimSpace p in
  if bool_decide (p = []) then [] else if IsAbs p then Clean p else Clean (JoinPath [configDir; p]).

Definition applyScalar (configDir : str) (cfg : Config) (field : string) (how : apply_how) (v : value) : parsed Config :=
  let s := match v with VS s => s | _ => [] end in
  match how with
  | AsIs => Ok (<[field := v]> cfg)
  | Trimmed => Ok (<[field := VS (TrimSpace s)]> cfg)
  | Path => Ok (<[field := VS (resolvePath configDir s)]> cfg)
  | AndExplicit flag => Ok (<[flag := VB true]> (<[field := v]> cfg))
  | Address =>
    let? (host, port) := splitHostPort (TrimSpace s) in
    Ok (<["RemotePort"%string := VI port]> (<[field := VS host]> cfg))
  | Period =>
    let s := TrimSpace s in
    if bool_decide (s = []) then Ok (<[field := VI 0]> cfg)
    else match ParseDuration s with
    | None => Err "run profile stat_period"%string
    | Some d => Ok (<[field := VI d]> cfg)
    end
  end.

Fixpoint applyScalars (configDir : str) (sp : gmap string value) (table : list (string * spec_type * string * apply_how))
    (cfg : Config) : parsed Config :=
  match table with
  | [] => Ok cfg
  | (name, _, field, how) :: table =>
    let? cfg := match sp !! name with None => Ok cfg | Some v => applyScalar configDir cfg field how v end in
    applyScalars configDir sp table cfg
  end.

Definition setAuth (cfg : Config) (ty path secret : str) : Config :=
  <["Auth.Type"%string := VS ty]> (<["Auth.SQLitePath"%string := VS path]> (<["Auth.JWTSecret"%string := VS secret]> cfg)).

Definition applyAuthRunSpec (cfg : Config) (sp : authRunSpec) (configDir : str) : parsed Config :=
  let t := ToLower (TrimSpace (default [] (ar_Type sp))) in
  if bool_decide (t = []) || bool_decide (t = lit "none") then Ok (setAuth cfg [] [] [])
  else if bool_decide (t <> lit "internal") then Err "run profile auth.type: unknown"%string
  else
    let path := TrimSpace (default [] (ar_SQLitePath sp)) in
    let dir := TrimSpace (getS cfg "UIDataDir") in
    let path := if bool_decide (path = []) && bool_decide (dir <> []) then JoinPath [dir; lit "settings.sqlite"] else path in
    if bool_decide (path = []) then Err "run profile auth.internal requires auth.sqlite_path or ui_data_dir"%string
    else
      let path := if IsAbs path then Clean path else Clean (JoinPath [configDir; path]) in
      Ok (setAuth cfg (lit "internal") path (TrimSpace (default [] (ar_JWTSecret sp)))).

Definition applyListener (cfg : Config) (ls : listenerRunSpec) : ServerListener :=
  let t := TrimSpace (default [] (lr_Transport ls)) in
  let ip := TrimSpace (default [] (lr_LocalIP ls)) in
  let port := default 0 (lr_LocalPort ls) in
  mkServerListener (if bool_decide (t = []) then getS cfg "Transport" else t)
    (if bool_decide (ip = []) then getS cfg "LocalIP" else ip)
    (if port =? 0 then getI cfg "LocalPort" else port).

Definition applyListeners (cfg : Config) (ls : list listenerRunSpec) : Config :=
  match map (applyListener cfg) ls with
  | [] => cfg
  | first :: _ as lns =>
    <["LocalPort"%string := VI (ln_LocalPort first)]> (<["LocalIP"%string := VS (ln_LocalIP first)]>
      (<["Transport"%string := VS (ln_Transport first)]> (<["ServerListeners"%string := VLn lns]> cfg)))
  end.

(** The scalar fields do not depend on each other, so they are written first. *)
Definition applyRunSpec (cfg : Config) (sp : runSpec) (configDir : str) : parsed Config :=
  let? cfg := applyScalars configDir (rs_fields sp) runSpecFields cfg in
  let cfg := match rs_SipExtraHeaders sp with [] => cfg | l => <["SipExtraHeaders"%string := VL l]> cfg end in
  let? cfg := match rs_Auth sp with None => Ok cfg | Some a => applyAuthRunSpec cfg a configDir end in
  Ok (applyListeners cfg (rs_Listeners sp)).

(** ** Files *)

Section Files.

(** The JSON value in a file; [None] when it cannot be read or is no JSON. *)
Context (readJSON : str -> option json).

Definition need {A} (o : option A) (msg : string) : parsed A := match o with Some a => Ok a | None => Err msg end.

Definition hasKey (top : object) (k : string) : bool := bool_decide (is_Some (top !! lit k)).

(** The [aliases] of a run profile file. *)
Definition aliasesEntry (al : gmap str runSpec) (e : str * json) : option (gmap str runSpec) :=
  let '(k, j) := e in
  if key_is "aliases" k then
    toStruct (fun al '(name, spec) => option_map (fun sp => <[name := sp]> al) (decodeSpec spec)) al j
  else Some al.

Definition decodeAliases (j : json) : option (gmap str runSpec) := toStruct aliasesEntry ∅ j.

(** [printRunProfileAliases]: the lines it prints. *)
Definition printRunProfileAliases (configPath : str) : parsed (list str) :=
  let? j := need (readJSON configPath) "run profile: read config" in
  let? al := need (decodeAliases j) "run profile" in
  Ok (if bool_decide (al = ∅) then [lit "(no aliases)"]
      else map fst (merge_sort key_le (map (fun p => (p.1, JNull)) (map_to_list al)))).

Definition LoadAndApplyRunProfile (cfg : Config) (configPath alias : str) : parsed (Config * list str) :=
  let? j := need (readJSON configPath) "run profile: read config" in
  let? al := need (decodeAliases j) "run profile" in
  let? sp := need (al !! alias) "run profile: unknown alias" in
  let? cfg := applyRunSpec cfg sp (Dir configPath) in
  Ok (cfg, rs_ExtraArgs sp).

(** [LoadAndApplyServerConfig] and [LoadAndApplyClientConfig] without its last assignment. *)
Definition loadFlat (cfg : Config) (configPath : str) : parsed (Config * list str) :=
  let? j := need (readJSON configPath) "flat config: read file" in
  let? top := need (toMap j) "flat config" in
  if hasKey top "aliases" then Err "flat config: file contains aliases"%string
  else
    let? sp := need (decodeSpec j) "flat config" in
    let? cfg := applyRunSpec cfg sp (Dir configPath) in
    Ok (cfg, rs_ExtraArgs sp).

Definition LoadAndApplyServerConfig (cfg : Config) (configPath : str) : parsed (Config * list str) := loadFlat cfg configPath.

Definition LoadAndApplyClientConfig (cfg : Config) (configPath : str) : parsed (Config * list str) :=
  let? (cfg, extra) := loadFlat cfg configPath in
  Ok (<["ServerMode"%string := VB false]> cfg, extra).

(** The string under a key, empty when there is none or it is something else. *)
Definition looseStr (top : object) (k : string) : str :=
  match top !! lit k with Some (JStr s) => TrimSpace s | _ => [] end.

Definition inferServerFlatManagementFromJSON (j : json) : parsed bool :=
  let? top := need (toMap j) "flat config" in
  if hasKey top "aliases" then Err "flat config: file contains aliases"%string
  else if hasKey top "server" then Ok true
  else match top !! lit "role" with
  | Some r =>
    let? s := need (toStr r) "flat config: invalid role field" in
    let s := ToLower (TrimSpace s) in
    if bool_decide (s ∈ [lit "management"; lit "server"]) then Ok true
    else if bool_decide (s ∈ [lit "load"; lit "client"; lit "uac"]) then Ok false
    else Err "flat config: unknown role"%string
  | None =>
    if match top !! lit "listeners" with Some (JArr (_ :: _)) => true | _ => false end then Ok true
    else if bool_decide (looseStr top "api_addr" <> []) then Ok true
    else
      let scen := looseStr top "scenario_name" in
      let ls := ToLower scen in
      let rem := looseStr top "remote_addr" in
      if bool_decide (ls ∈ [lit "management"; lit "uas"]) then Ok true
      else if bool_decide (ls = lit "uac") && bool_decide (rem <> []) then Ok false
      else if bool_decide (scen = []) && bool_decide (rem <> []) then Ok false
      else Err "flat config: cannot infer management vs load"%string
  end.

Definition InferServerFlatManagement (configPath : str) : parsed bool :=
  let? j := need (readJSON configPath) "flat config: read file" in inferServerFlatManagementFromJSON j.

(** ** Composite files *)

Definition maxCompositeProfiles : nat := 16.

Definition compositeFlatTopReserved : list str := [lit "workloads"; lit "aliases"; lit "server"; lit "clients"; lit "client"].

Definition deleteCompositeNoiseKeys (m : object) : object := filter (fun p => p.1 ∉ compositeFlatTopReserved) m.

Definition globalBaseForCompositeFlat (top : object) : object := filter (fun p => p.1 ∉ compositeFlatTopReserved) top.

Definition shallowMergeRawJSON (base override : object) : object := delete (lit "comment") override ∪ base.

(** A profile merged over the common keys. *)
Definition mergedEntry (global : object) (raw : json) (msg : string) : parsed json :=
  let? obj := need (toMap raw) msg in
  Ok (marshal (deleteCompositeNoiseKeys (shallowMergeRawJSON global obj))).

Fixpoint mergedEntries (global : object) (raws : list json) : parsed (list json) :=
  match raws with
  | [] => Ok []
  | raw :: raws =>
    let? e := mergedEntry global raw "flat config clients" in
    let? es := mergedEntries global raws in
    Ok (e :: es)
  end.

(** The profiles of a composite file; [None] for a flat one. *)
Definition compositeProfileRawEntries (top global : object) : parsed (option (list json)) :=
  let hasServer := hasKey top "server" in
  let hasClients := hasKey top "clients" in
  let hasClient := hasKey top "client" in
  if hasClients && hasClient then Err "flat config: use either clients or client"%string
  else if (hasClients || hasClient) && negb hasServer then Err "flat config: clients requires a top-level server object"%string
  else match top !! lit "server" with
  | None => Ok None
  | Some server =>
    let? first := mergedEntry global server "flat config server" in
    let? clients :=
      match top !! lit "clients", top !! lit "client" with
      | Some c, _ => need (toArr c) "flat config clients"
      | None, Some c => Ok (match c with JArr l => l | _ => [c] end)
      | None, None => Ok []
      end in
    let? rest := mergedEntries global clients in
    if (maxCompositeProfiles <? length (first :: rest))%nat then Err "flat config: too many profiles"%string
    else Ok (Some (first :: rest))
  end.

Record built := mkBuilt { bt_id : str; bt_cfg : Config; bt_extra : list str }.

Definition buildProfile (configDir : str) (global : object) (i : Z) (raw : json) : parsed built :=
  let? entry := need (toMap raw) "flat config composite" in
  let? id := match entry !! lit "id" with None => Ok [] | Some j => need (toStr j) "flat config composite id" end in
  let id := if bool_decide (TrimSpace id = []) then lit "w" ++ Itoa i else TrimSpace id in
  let merged := marshal (deleteCompositeNoiseKeys (shallowMergeRawJSON global entry)) in
  let? sp := need (decodeSpec merged) "flat config composite" in
  let? cfg := applyRunSpec DefaultConfig sp configDir in
  let? mgmt := inferServerFlatManagementFromJSON merged in
  let? cfg := applyServerModeIfEnabled (<["ServerMode"%string := VB mgmt]> cfg) [] in
  Ok (mkBuilt id cfg (rs_ExtraArgs sp)).

Fixpoint buildAll (configDir : str) (global : object) (i : Z) (raws : list json) : parsed (list built) :=
  match raws with
  | [] => Ok []
  | raw :: raws =>
    let? b := buildProfile configDir global i raw in
    let? bs := buildAll configDir global (i + 1) raws in
    Ok (b :: bs)
  end.

(** The result of [sort.SliceStable] with servers first; at most
    [maxCompositeProfiles] elements are sorted by insertion, which keeps the
    order of equal ones. *)
Definition serversFirst (l : list built) : list built :=
  filter (fun b => getB (bt_cfg b) "ServerMode" = true) l ++ filter (fun b => getB (bt_cfg b) "ServerMode" = false) l.

(** What is left of a client's configuration beside the primary one. *)
Definition joinedConfig (cfg : Config) : Config :=
  setAuth (<["ApiAddr"%string := VS []]> (<["ApiToken"%string := VS []]> cfg)) [] [] [].

(** The sockets a configuration listens on. *)
Definition binds (cfg : Config) : list (str * str * Z) :=
  match getLn cfg "ServerListeners" with
  | [] => if getB cfg "ServerMode" then [(TrimSpace (getS cfg "Transport"), TrimSpace (getS cfg "LocalIP"), getI cfg "LocalPort")] else []
  | lns => map (fun ln => (TrimSpace (ln_Transport ln), TrimSpace (ln_LocalIP ln), ln_LocalPort ln)) lns
  end.

Fixpoint addBinds (seen : list (str * str * Z)) (l : list (str * str * Z)) : parsed (list (str * str * Z)) :=
  match l with
  | [] => Ok seen
  | k :: l => if bool_decide (k ∈ seen) then Err "duplicate SIP bind"%string else addBinds (k :: seen) l
  end.

Definition validateJoinedClientBinds (primary : Config) (joined : list (str * Config)) : parsed unit :=
  let? _ := addBinds [] (binds primary ++ flat_map (fun j => binds j.2) joined) in Ok tt.

Definition buildCompositeProfiles (configPath : str) (global : object) (entries : list json)
    : parsed (Config * list (str * Config) * list (list str)) :=
  let? bs := buildAll (Dir configPath) global 0 entries in
  let sorted := serversFirst bs in
  if negb (bool_decide (NoDup (map bt_id sorted))) then Err "flat config composite: duplicate id"%string
  else match sorted with
  | [] => Err "no profiles"%string
  | b :: rest =>
    if negb (getB (bt_cfg b) "ServerMode") then Err "flat config composite: server profile must be management"%string
    else
      let primary := <["ServerProfileID"%string := VS (bt_id b)]> (bt_cfg b) in
      let joined := map (fun c => (bt_id c, joinedConfig (bt_cfg c))) rest in
      let? _ := validateJoinedClientBinds primary joined in
      Ok (primary, joined, map bt_extra sorted)
  end.

(** [TryLoadCompositeFlatJSON]; [None] for a flat file. *)
Definition TryLoadCompositeFlatJSON (configPath : str) (j : json)
    : parsed (option (Config * list (str * Config) * list (list str))) :=
  let? top := need (toMap j) "json" in
  if hasKey top "aliases" then Err "flat config: file contains aliases"%string
  else if hasKey top "workloads" then Err "flat config: workloads is no longer supported"%string
  else
    let global := globalBaseForCompositeFlat top in
    let? entries := compositeProfileRawEntries top global in
    match entries with
    | None => Ok None
    | Some es => let? r := buildCompositeProfiles configPath global es in Ok (Some r)
    end.

(** [LoadServerFlatOrComposite]: configuration, further clients, arguments. *)
Definition LoadServerFlatOrComposite (configPath : str) : parsed (Config * list (str * Config) * list str) :=
  let? j := need (readJSON configPath) "flat config: read file" in
  let? r := TryLoadCompositeFlatJSON configPath j in
  match r with
  | Some (primary, joined, extras) => Ok (primary, joined, concat extras)
  | None =>
    let? management := InferServerFlatManagement configPath in
    if management then
      let? (cfg, extra) := LoadAndApplyServerConfig DefaultConfig configPath in
      Ok (<["ServerMode"%string := VB true]> cfg, [], extra)
    else
      let? (cfg, extra) := LoadAndApplyClientConfig DefaultConfig configPath in Ok (cfg, [], extra)
  end.

End Files.

(** ** Snippets for clients added at runtime *)

Definition maxClientSnippetBytes : Z := 1048576.

Definition forbiddenClientSnippetKeys : list str :=
  [lit "aliases"; lit "workloads"; lit "server"; lit "clients"; lit "client"; lit "listeners"; lit "api_addr"; lit "api_token";
   lit "ui_data_dir"; lit "legacy_api_v1"; lit "auth"].

Definition telemetryFields : list string :=
  ["ToolVersion"; "HEPAddr"; "HEPCaptureID"; "HEPPassword"; "HEPRawRTCP"; "HEPHomerLakeRTCP"; "SendMediaReport"; "LogStdout";
   "LogFileJSONL"; "LogOTELEndpoint"; "LogOTELProto"; "LogOTELInsecure"; "LogLevel"; "LogBufferSize"; "GlobalTimeout"; "LogAttrs";
   "LogOTELHeaders"]%string.

(** [copyTelemetryFromManagementParent]; a missing field is the zero value. *)
Definition copyTelemetryFromManagementParent (dst src : Config) : Config :=
  foldl (fun dst f => match src !! f with Some v => <[f := v]> dst | None => delete f dst end) dst telemetryFields.

Definition forbiddenKey (k : str) : bool := bool_decide (ToLower (TrimSpace k) ∈ forbiddenClientSnippetKeys).

(** [ApplyClientSnippetFromJSON] for a text of [size] bytes. *)
Definition ApplyClientSnippetFromJSON (parent : Config) (size : Z) (data : option json) (configDir : str) : parsed Config :=
  if maxClientSnippetBytes <? size then Err "client snippet too large"%string
  else
    let? j := need data "json" in
    let? top := need (toMap j) "json" in
    if existsb (fun p => forbiddenKey p.1) (map_to_list top) then Err "field is not allowed in dynamic client snippet"%string
    else
      let cfg := copyTelemetryFromManagementParent DefaultConfig parent in
      let? sp := need (decodeSpec j) "json" in
      let? cfg := applyRunSpec cfg sp configDir in
      Ok (delete "ServerProfileID"%string (delete "ServerListeners"%string
            (<["ApiToken"%string := VS []]> (<["ApiAddr"%string := VS []]> (<["ServerMode"%string := VB false]> cfg))))).

(** * Facts *)

(** ** Composite files *)

Lemma need_ok {A} (o : option A) msg a : need o msg = Ok a <-> o = Some a.
Proof. destruct o; cbn; naive_solver. Qed.

Lemma addBinds_ok seen l s : addBinds seen l = Ok s -> NoDup l /\ Forall (fun k => k ∉ seen) l.
Proof.
  revert seen. induction l as [|k l IH]; intros seen; cbn; [intros _; split; constructor|].
  case_bool_decide as Hk; [done|]. intros [Hn Hf]%IH. split.
  - constructor; [|done]. intros Hin. apply (proj1 (Forall_forall _ _) Hf k Hin). left.
  - constructor; [done|]. eapply Forall_impl; [exact Hf|]. intros x Hx Hin. apply Hx. by right.
Qed.

Lemma serversFirst_perm l : serversFirst l ≡ₚ l.
Proof.
  unfold serversFirst. induction l as [|b l IH]; [done|]. rewrite !filter_cons. destruct (getB (bt_cfg b) "ServerMode") eqn:E.
  - rewrite decide_True, decide_False by done. cbn [app]. by constructor.
  - rewrite decide_False, decide_True by done. rewrite <- Permutation_middle. by constructor.
Qed.

Lemma buildAll_length configDir global i raws bs : buildAll configDir global i raws = Ok bs -> length bs = length raws.
Proof.
  revert i bs. induction raws as [|raw raws IH]; intros i bs; cbn; [by intros <-%Ok_inj|].
  intros (b & _ & (bs' & H & <-%Ok_inj)%rbind_ok)%rbind_ok. cbn. f_equal. by apply (IH (i + 1)).
Qed.

Lemma buildProfile_api configDir global i raw b : buildProfile configDir global i raw = Ok b ->
  getB (bt_cfg b) "ServerMode" = true -> TrimSpace (getS (bt_cfg b) "ApiAddr") <> [].
Proof.
  unfold buildProfile. cbv zeta. intros (entry & _ & (id & _ & (sp & _ & (cfg & _ & (mgmt & _ & (cfg' & H & <-%Ok_inj)%rbind_ok)
    %rbind_ok)%rbind_ok)%rbind_ok)%rbind_ok)%rbind_ok. cbn [bt_cfg]. intros Hm. apply (serverMode_api _ _ _ H).
  rewrite (getB_same _ _ _ "ServerMode" (serverMode_same _ _ _ H)) in Hm by listed. exact Hm.
Qed.

Lemma buildAll_Forall (P : built -> Prop) configDir global i raws bs :
  (forall i raw b, buildProfile configDir global i raw = Ok b -> P b) -> buildAll configDir global i raws = Ok bs -> Forall P bs.
Proof.
  intros HP. revert i bs. induction raws as [|raw raws IH]; intros i bs; cbn; [intros <-%Ok_inj; constructor|].
  intros (b & Hb & (bs' & H & <-%Ok_inj)%rbind_ok)%rbind_ok. constructor; [by apply (HP i raw)|]. by apply (IH (i + 1)).
Qed.

Lemma entries_bounded top global es : compositeProfileRawEntries top global = Ok (Some es) -> (length es <= maxCompositeProfiles)%nat.
Proof.
  unfold compositeProfileRawEntries. cbv zeta. destruct (_ && _); [done|]. destruct (_ && _); [done|].
  destruct (top !! lit "server") as [server|]; [|done].
  intros (first & _ & (clients & _ & (rest & _ & H)%rbind_ok)%rbind_ok)%rbind_ok.
  destruct (Nat.ltb_spec maxCompositeProfiles (length (first :: rest))); [done|]. by injection H as <-.
Qed.

Lemma joined_closed cfg : getS (joinedConfig cfg) "ApiAddr" = [] /\ getS (joinedConfig cfg) "ApiToken" = []
  /\ InternalEnabled (joinedConfig cfg) = false.
Proof.
  unfold joinedConfig, setAuth, InternalEnabled, getS. split_and!.
  - do 3 rewrite lookup_insert_ne by done. by rewrite lookup_insert_eq.
  - do 4 rewrite lookup_insert_ne by done. by rewrite lookup_insert_eq.
  - by rewrite lookup_insert_eq.
Qed.

(** ** Keys of a snippet *)

(** Letters that fold only with their capital, digits and the underscore. *)
Definition simple (b : byte) : bool :=
  in_range 48 57 b || beqb b x5f || (in_range 97 122 b && negb (beqb b x73) && negb (beqb b x6b)).

Lemma simple_fold b r : simple b = true -> fold_rune r = fold_rune (b2z b) -> r = b2z b \/ (97 <= b2z b <= 122 /\ r = b2z b - 32).
Proof.
  intros Hs Hr. assert (fold_rune (b2z b) = b2z b /\ b2z b <> 107 /\ b2z b <> 115) as (E & K1 & K2).
  { unfold simple in Hs. destruct b; try done; repeat split; done. }
  rewrite E in Hr. unfold fold_rune in Hr. destruct ((65 <=? r) && (r <=? 90)) eqn:E1.
  - apply andb_true_iff in E1 as [E1%Z.leb_le E2%Z.leb_le]. right. lia.
  - destruct (Z.eqb_spec r 8490); [lia|]. destruct (Z.eqb_spec r 383); [lia|]. by left.
Qed.

Lemma EqualFold_lower k n : Forall (fun b => simple b = true) n -> EqualFold k n = true -> ToLower (TrimSpace k) = n.
Proof.
  intros Hn H. apply bool_decide_eq_true in H.
  assert (Forall ascii n) as Han. { eapply Forall_impl; [exact Hn|]. intros b Hb. unfold ascii. by destruct b. }
  rewrite (runes_ascii n Han), map_map in H.
  assert (Forall2 (fun r b => r = b2z b \/ (97 <= b2z b <= 122 /\ r = b2z b - 32)) (runes k) n) as Hk.
  { clear Han. revert H. generalize (runes k). induction Hn as [|b n Hb _ IH]; intros [|r l] H; try done; try by constructor.
    cbn in H. injection H as H1 H2. constructor; [by apply simple_fold|]. by apply IH. }
  assert (runes k = map b2z k) as Ek.
  { apply runes_ascii_bytes. apply Forall_forall. intros r Hr. apply list_elem_of_lookup in Hr as [i Hi].
    destruct (Forall2_lookup_l _ _ _ _ _ Hk Hi) as (b & Hb & Hrb). apply (Forall_lookup_1 _ _ _ _ Han) in Hb. unfold ascii in Hb. lia. }
  rewrite Ek in Hk. apply Forall2_fmap_l in Hk.
  assert (Forall (fun b => plain b = true) k /\ map lower_byte k = n) as [Hp Hl].
  { clear -Hk Hn. induction Hk as [|a b k n Hab _ IH]; [done|]. apply Forall_cons in Hn as [Hb Hn]. destruct (IH Hn) as [IH1 <-]. cbn in Hab.
    assert (plain a = true /\ lower_byte a = b) as [Ha Hl]; [|split; [by constructor|cbn; by rewrite Hl]].
    destruct Hab as [Hab|[Hr Hab]].
    - apply b2z_inj in Hab as ->. clear -Hb. by destruct b.
    - assert (a = z2b (b2z b - 32)) as -> by (rewrite <- Hab; by rewrite z2b_b2z). clear -Hb Hr. destruct b; try done; cbn in Hr; lia. }
  rewrite (Forall_plain_trimmed k Hp). rewrite ToLower_ascii; [done|]. eapply Forall_impl; [exact Hp|].
  intros b Hb. unfold ascii. by destruct b.
Qed.

Lemma not_forbidden name k : Forall (fun b => simple b = true) (lit name) -> lit name ∈ forbiddenClientSnippetKeys ->
  forbiddenKey k = false -> key_is name k = false.
Proof.
  intros Hs Hin Hk. destruct (key_is name k) eqn:E; [|done]. apply (EqualFold_lower _ _ Hs) in E.
  apply bool_decide_eq_false in Hk. by rewrite E in Hk.
Qed.

Lemma specEntry_field sp e sp' name : specEntry sp e = Some sp' -> key_is name e.1 = false -> rs_fields sp' !! name = rs_fields sp !! name.
Proof.
  destruct e as [k j]. cbn [specEntry fst]. intros H Hk. destruct (scalarField k) as [[[[n ty] field] how]|] eqn:E.
  - apply find_some in E as [_ E]. destruct (toScalar ty j) as [v|]; [|done]. injection H as <-. cbn.
    assert (n <> name) by (intros ->; congruence). destruct v; [by apply lookup_insert_ne|by apply lookup_delete_ne].
  - repeat (match type of H with (if ?b then _ else _) = _ => destruct b end);
      try (destruct j); try (destruct (toArr _)); try (match type of H with option_map _ ?o = _ => destruct o end); try done;
      by injection H as <-.
Qed.

Lemma specEntry_auth sp e sp' : specEntry sp e = Some sp' -> key_is "auth" e.1 = false -> rs_Auth sp' = rs_Auth sp.
Proof.
  destruct e as [k j]. cbn [specEntry fst]. intros H Hk. destruct (scalarField k) as [[[[n ty] field] how]|] eqn:E.
  - destruct (toScalar ty j) as [v|]; [|done]. by injection H as <-.
  - rewrite Hk in H. repeat (match type of H with (if ?b then _ else _) = _ => destruct b end);
      try (destruct (toArr _)); try (match type of H with option_map _ ?o = _ => destruct o end); try done; by injection H as <-.
Qed.

Lemma entriesM_keeps {A B} (f : A -> str * json -> option A) (get : A -> B) (quiet : str -> bool) l a a' :
  (forall a e a', f a e = Some a' -> quiet e.1 = true -> get a' = get a) ->
  entriesM f a l = Some a' -> Forall (fun e => quiet e.1 = true) l -> get a' = get a.
Proof.
  intros Hf. revert a. induction l as [|e l IH]; intros a; cbn; [by intros [= <-]|]. destruct (f a e) as [a1|] eqn:E; [|done].
  intros H [He Hl]%Forall_cons. rewrite (IH a1 H Hl). by apply (Hf _ e).
Qed.

Lemma decodeSpec_field l sp name : decodeSpec (JObj l) = Some sp -> Forall (fun e => negb (key_is name e.1) = true) l ->
  rs_fields sp !! name = None.
Proof.
  intros H Hl. refine (entriesM_keeps specEntry (fun sp => rs_fields sp !! name) (fun k => negb (key_is name k)) l emptySpec sp _ H Hl).
  intros a e a' Ha Hq%negb_true_iff. by apply (specEntry_field _ e).
Qed.

Lemma decodeSpec_auth l sp : decodeSpec (JObj l) = Some sp -> Forall (fun e => negb (key_is "auth" e.1) = true) l -> rs_Auth sp = None.
Proof.
  intros H Hl. refine (entriesM_keeps specEntry rs_Auth (fun k => negb (key_is "auth" k)) l emptySpec sp _ H Hl).
  intros a e a' Ha Hq%negb_true_iff. by apply (specEntry_auth _ e).
Qed.

(** ** What a profile writes *)

Definition writes (field : string) (how : apply_how) : list string :=
  field :: match how with AndExplicit g => [g] | Address => ["RemotePort"%string] | _ => [] end.

Lemma applyScalar_same configDir cfg field how v cfg' : applyScalar configDir cfg field how v = Ok cfg' ->
  same_except (writes field how) cfg cfg'.
Proof.
  unfold applyScalar. cbv zeta. destruct how; cbn [writes]; try (intros <-%Ok_inj; apply same_insert).
  - intros <-%Ok_inj. apply (same_trans [field] [flag] _ _ _ (same_insert _ _ _) (same_insert _ _ _)).
  - intros ([host port] & _ & <-%Ok_inj)%rbind_ok. apply (same_trans [field] ["RemotePort"%string] _ _ _ (same_insert _ _ _) (same_insert _ _ _)).
  - destruct (bool_decide _); [intros <-%Ok_inj; apply same_insert|]. destruct (ParseDuration _); [|done]. intros <-%Ok_inj. apply same_insert.
Qed.

Lemma applyScalars_same configDir sp table cfg cfg' f : applyScalars configDir sp table cfg = Ok cfg' ->
  (forall name ty field how, (name, ty, field, how) ∈ table -> f ∈ writes field how -> sp !! name = None) -> cfg' !! f = cfg !! f.
Proof.
  revert cfg. induction table as [|[[[name ty] field] how] table IH]; intros cfg; cbn [applyScalars]; [by intros <-%Ok_inj|].
  intros (c1 & H1 & H)%rbind_ok Hf. rewrite (IH c1 H).
  - destruct (sp !! name) as [v|] eqn:E; [|by injection H1 as <-]. apply (applyScalar_same _ _ _ _ _ _ H1).
    intros Hin. rewrite (Hf name ty field how) in E; [done|left|done].
  - intros n t g h Hin. apply (Hf n t). by right.
Qed.

Definition specialFields : list string :=
  ["SipExtraHeaders"; "Auth.Type"; "Auth.SQLitePath"; "Auth.JWTSecret"; "ServerListeners"; "Transport"; "LocalIP"; "LocalPort"]%string.

Lemma applyListeners_same cfg ls : same_except ["ServerListeners"; "Transport"; "LocalIP"; "LocalPort"]%string cfg (applyListeners cfg ls).
Proof. unfold applyListeners. destruct (map _ ls) as [|first lns]; same. Qed.

Lemma setAuth_same cfg ty path secret : same_except ["Auth.Type"; "Auth.SQLitePath"; "Auth.JWTSecret"]%string cfg (setAuth cfg ty path secret).
Proof. unfold setAuth. same. Qed.

(** A field that no key of the profile writes keeps its value. *)
Lemma applyRunSpec_same cfg sp configDir cfg' f : applyRunSpec cfg sp configDir = Ok cfg' ->
  (forall name ty field how, (name, ty, field, how) ∈ runSpecFields -> f ∈ writes field how -> rs_fields sp !! name = None) ->
  f ∉ ["SipExtraHeaders"; "ServerListeners"; "Transport"; "LocalIP"; "LocalPort"]%string ->
  (rs_Auth sp = None \/ f ∉ ["Auth.Type"; "Auth.SQLitePath"; "Auth.JWTSecret"]%string) -> cfg' !! f = cfg !! f.
Proof.
  unfold applyRunSpec. intros (c1 & H1 & H)%rbind_ok Hw Hf Ha. cbv zeta in H.
  apply rbind_ok in H as (c2 & H2 & <-%Ok_inj). rewrite (applyListeners_same c2 (rs_Listeners sp) f) by set_solver.
  rewrite <- (applyScalars_same _ _ _ _ _ f H1 Hw). clear H1 Hw.
  assert (same_except ["SipExtraHeaders"%string] c1 (match rs_SipExtraHeaders sp with [] => c1 | l => <["SipExtraHeaders"%string := VL l]> c1 end)) as Hs.
  { destruct (rs_SipExtraHeaders sp); [same|apply same_insert]. }
  rewrite <- (Hs f) by set_solver. clear Hs. destruct (rs_Auth sp) as [a|]; [|by injection H2 as <-].
  destruct Ha as [?|Ha]; [done|]. unfold applyAuthRunSpec in H2. cbv zeta in H2. destruct (_ || _); [injection H2 as <-; by apply setAuth_same|].
  destruct (bool_decide _); [done|]. destruct (bool_decide _); [done|]. injection H2 as <-. by apply setAuth_same.
Qed.

(** The keys that write a field. *)
Definition writers (f : string) : list string :=
  flat_map (fun '(name, _, field, how) => if bool_decide (f ∈ writes field how) then [name] else []) runSpecFields.

Lemma in_writers name ty field how f : (name, ty, field, how) ∈ runSpecFields -> f ∈ writes field how -> name ∈ writers f.
Proof.
  intros Hin Hf. unfold writers. apply list_elem_of_In, in_flat_map. exists (name, ty, field, how). split; [by apply list_elem_of_In|].
  rewrite bool_decide_eq_true_2 by done. by left.
Qed.

(** ** Telemetry *)

Lemma copyTelemetry_in src dst f : f ∈ telemetryFields -> copyTelemetryFromManagementParent dst src !! f = src !! f.
Proof.
  unfold copyTelemetryFromManagementParent. generalize telemetryFields as l. intros l. revert dst.
  induction l as [|g l IH] using rev_ind; intros dst; [by intros ?%elem_of_nil|]. rewrite foldl_app. cbn [foldl].
  intros [Hf|Hf]%elem_of_app.
  - destruct (decide (f = g)) as [-> |Hfg].
    + destruct (src !! g) eqn:E; [apply lookup_insert_eq|apply lookup_delete_eq].
    + destruct (src !! g); [rewrite lookup_insert_ne by done|rewrite lookup_delete_ne by done]; by apply IH.
  - apply list_elem_of_singleton in Hf as ->. destruct (src !! g); [apply lookup_insert_eq|apply lookup_delete_eq].
Qed.

Lemma copyTelemetry_out src dst f : f ∉ telemetryFields -> copyTelemetryFromManagementParent dst src !! f = dst !! f.
Proof.
  unfold copyTelemetryFromManagementParent. generalize telemetryFields as l. intros l. revert dst.
  induction l as [|g l IH]; intros dst; [done|]. cbn [foldl]. intros [Hg Hl]%not_elem_of_cons. rewrite IH by done.
  destruct (src !! g); [by apply lookup_insert_ne|by apply lookup_delete_ne].
Qed.

Lemma telemetry_apart f : f ∈ telemetryFields ->
  f ∉ ["ServerMode"; "ApiAddr"; "ApiToken"; "ServerListeners"; "ServerProfileID"]%string
  /\ f ∉ ["SipExtraHeaders"; "ServerListeners"; "Transport"; "LocalIP"; "LocalPort"]%string.
Proof.
  revert f. apply Forall_forall. repeat (apply Forall_cons; split; [split; listed|]). apply Forall_nil. done.
Qed.

Definition entries_of (j : json) : list (str * json) := match j with JObj l => l | _ => [] end.

(** The configuration before the last assignments of [ApplyClientSnippetFromJSON]. *)
Lemma snippet_stages parent size data configDir cfg : ApplyClientSnippetFromJSON parent size data configDir = Ok cfg ->
  exists j sp c1, data = Some j /\ decodeSpec j = Some sp /\ Forall (fun e => forbiddenKey e.1 = false) (entries_of j)
    /\ applyRunSpec (copyTelemetryFromManagementParent DefaultConfig parent) sp configDir = Ok c1
    /\ cfg = delete "ServerProfileID"%string (delete "ServerListeners"%string
              (<["ApiToken"%string := VS []]> (<["ApiAddr"%string := VS []]> (<["ServerMode"%string := VB false]> c1)))).
Proof.
  unfold ApplyClientSnippetFromJSON. destruct (_ <? _); [done|]. intros (j & Hj%need_ok & (top & Ht%need_ok & H)%rbind_ok)%rbind_ok.
  destruct (existsb _ _) eqn:Ex; [done|]. cbv zeta in H. apply rbind_ok in H as (sp & Hsp%need_ok & (c1 & Hc & <-%Ok_inj)%rbind_ok).
  exists j, sp, c1. split_and!; try done. destruct j as [| | | | |l]; try constructor. cbn [entries_of]. injection Ht as <-.
  apply Forall_forall. intros [k v] Hin. cbn. destruct (forbiddenKey k) eqn:E; [|done]. rewrite <- Ex. symmetry. apply existsb_exists.
  assert (is_Some ((list_to_map (rev l) : object) !! k)) as [w Hw].
  { destruct (list_to_map (rev l) !! k) eqn:E'; [done|]. apply not_elem_of_list_to_map_2 in E'. destruct E'.
    apply list_elem_of_fmap. exists (k, v). split; [done|]. apply list_elem_of_In. rewrite <- in_rev. by apply list_elem_of_In. }
  exists (k, w). split; [|done]. by apply list_elem_of_In, elem_of_map_to_list.
Qed.

Lemma snippet_unwritten j sp name : decodeSpec j = Some sp -> Forall (fun e => forbiddenKey e.1 = false) (entries_of j) ->
  Forall (fun b => simple b = true) (lit name) -> lit name ∈ forbiddenClientSnippetKeys ->
  rs_fields sp !! name = None /\ (name = "auth"%string -> rs_Auth sp = None).
Proof.
  intros Hsp Hj Hs Hin. assert (Forall (fun e => negb (key_is name e.1) = true) (entries_of j)) as Hq.
  { eapply Forall_impl; [exact Hj|]. intros e He. apply negb_true_iff. by apply not_forbidden. }
  destruct j; try done; [by injection Hsp as <-|]. split; [by apply (decodeSpec_field entries)|]. intros ->. by apply (decodeSpec_auth entries).
Qed.

Lemma snippet_base j sp parent configDir c1 : decodeSpec j = Some sp -> Forall (fun e => forbiddenKey e.1 = false) (entries_of j) ->
  applyRunSpec (copyTelemetryFromManagementParent DefaultConfig parent) sp configDir = Ok c1 ->
  rs_Auth sp = None /\ c1 !! "UIDataDir"%string = None /\ c1 !! "LegacyAPIV1Set"%string = None /\ c1 !! "Auth.Type"%string = None.
Proof.
  intros Hsp Hj Hc.
  destruct (snippet_unwritten j sp "ui_data_dir" Hsp Hj) as [Hui _]; [repeat constructor|listed|].
  destruct (snippet_unwritten j sp "legacy_api_v1" Hsp Hj) as [Hleg _]; [repeat constructor|listed|].
  destruct (snippet_unwritten j sp "auth" Hsp Hj) as [_ Hauth]; [repeat constructor|listed|]. specialize (Hauth eq_refl).
  assert (forall f name, writers f = [name] -> rs_fields sp !! name = None ->
    f ∉ ["SipExtraHeaders"; "ServerListeners"; "Transport"; "LocalIP"; "LocalPort"]%string -> f ∉ telemetryFields ->
    c1 !! f = DefaultConfig !! f) as Hkeep.
  { intros f name Hw Hn Hf Ht. rewrite (applyRunSpec_same _ _ _ _ f Hc); [by apply copyTelemetry_out| |done|by left].
    intros n ty field how Hin Hwr. pose proof (in_writers _ _ _ _ _ Hin Hwr) as Hn2. rewrite Hw in Hn2. by apply list_elem_of_singleton in Hn2 as ->. }
  assert (c1 !! "UIDataDir"%string = None) as Eui by (rewrite (Hkeep _ "ui_data_dir"%string); [done|done|done|listed|listed]).
  assert (c1 !! "LegacyAPIV1Set"%string = None) as Eleg by (rewrite (Hkeep _ "legacy_api_v1"%string); [done|done|done|listed|listed]).
  assert (c1 !! "Auth.Type"%string = None) as Eauth.
  { rewrite (applyRunSpec_same _ _ _ _ "Auth.Type" Hc); [by rewrite copyTelemetry_out by listed| |listed|by left].
    intros n ty field how Hin Hwr. pose proof (in_writers _ _ _ _ _ Hin Hwr) as Hn2.
    replace (writers "Auth.Type") with (@nil string) in Hn2 by (vm_compute; reflexivity). by apply not_elem_of_nil in Hn2. }
  done.
Qed.

(** * Properties *)

(** A client added from a snippet cannot open a management interface, however
    the keys of the snippet are written: it does not run in server mode, has
    no API address, token, data directory or listeners, its console needs no
    accounts, and the old API is not switched.  Capture and log settings that
    the snippet does not name are those of the parent. *)
Theorem client_snippet_confined parent size data configDir cfg :
  ApplyClientSnippetFromJSON parent size data configDir = Ok cfg ->
  getB cfg "ServerMode" = false /\ getS cfg "ApiAddr" = [] /\ getS cfg "ApiToken" = [] /\ getS cfg "UIDataDir" = []
  /\ getLn cfg "ServerListeners" = [] /\ AdminConsoleAuthEnabled cfg = false /\ getB cfg "LegacyAPIV1Set" = false
  /\ forall f, f ∈ telemetryFields ->
       (forall j name k v, data = Some j -> name ∈ writers f -> (k, v) ∈ entries_of j -> key_is name k = false) ->
       cfg !! f = parent !! f.
Proof.
  intros (j & sp & c1 & -> & Hsp & Hj & Hc & ->)%snippet_stages.
  destruct (snippet_base j sp parent configDir c1 Hsp Hj Hc) as (Hauth & Eui & Eleg & Eauth).
  set (cfg := delete _ _). assert (same_except ["ServerMode"; "ApiAddr"; "ApiToken"; "ServerListeners"; "ServerProfileID"]%string c1 cfg) as Hs.
  { unfold cfg. intros f Hf. rewrite !lookup_delete_ne, !lookup_insert_ne by (intros <-; apply Hf; listed). done. }
  split_and!.
  - unfold cfg, getB. rewrite !lookup_delete_ne, 2!lookup_insert_ne by done. by rewrite lookup_insert_eq.
  - unfold cfg, getS. rewrite !lookup_delete_ne, lookup_insert_ne by done. by rewrite lookup_insert_eq.
  - unfold cfg, getS. rewrite !lookup_delete_ne by done. by rewrite lookup_insert_eq.
  - unfold getS. by rewrite (Hs "UIDataDir"%string), Eui by listed.
  - unfold cfg, getLn. rewrite lookup_delete_ne by done. by rewrite lookup_delete_eq.
  - unfold AdminConsoleAuthEnabled, ExplicitlyDisabled, InternalEnabled, getS.
    by rewrite (Hs "Auth.Type"%string), Eauth, (Hs "UIDataDir"%string), Eui by listed.
  - unfold getB. by rewrite (Hs "LegacyAPIV1Set"%string), Eleg by listed.
  - intros f Hf Hnot. destruct (telemetry_apart f Hf) as [N1 N2]. rewrite (Hs f N1).
    rewrite (applyRunSpec_same _ _ _ _ f Hc); [by apply copyTelemetry_in| |done|by left].
    intros n ty field how Hin Hwr. pose proof (in_writers _ _ _ _ _ Hin Hwr) as Hn2.
    destruct j; try done; [by injection Hsp as <-|]. apply (decodeSpec_field entries); [done|].
    apply Forall_forall. intros [k v] He. apply negb_true_iff. by apply (Hnot (JObj entries) n k v).
Qed.

Definition obj (l : list (string * json)) : json := JObj (map (fun p => (lit p.1, p.2)) l).

Definition demo_snippet : json := obj [("remote_addr", JStr (lit "192.0.2.1:5060")); ("Rate", JNum (lit "5")); ("hep_addr", JStr (lit "h:9060"))]%string.
Definition demo_parent : Config := <["HEPAddr"%string := VS (lit "c:9060")]> (<["LogLevel"%string := VS (lit "warn")]> DefaultConfig).
Definition snippet_cfg : Config :=
  match ApplyClientSnippetFromJSON demo_parent 80 (Some demo_snippet) (lit "/etc") with Ok cfg => cfg | Err _ => ∅ end.

Lemma snippet_applies : ApplyClientSnippetFromJSON demo_parent 80 (Some demo_snippet) (lit "/etc") = Ok snippet_cfg.
Proof.
  unfold snippet_cfg. assert (is_ok (ApplyClientSnippetFromJSON demo_parent 80 (Some demo_snippet) (lit "/etc")) = true) as H
    by (vm_compute; reflexivity). by destruct (ApplyClientSnippetFromJSON _ _ _ _).
Qed.

Lemma client_snippet_confined_witness :
  ApplyClientSnippetFromJSON demo_parent 80 (Some demo_snippet) (lit "/etc") = Ok snippet_cfg
  /\ getB snippet_cfg "ServerMode" = false /\ snippet_cfg !! "LogLevel"%string = demo_parent !! "LogLevel"%string.
Proof.
  split; [exact snippet_applies|].
  destruct (client_snippet_confined demo_parent 80 (Some demo_snippet) (lit "/etc") snippet_cfg snippet_applies)
    as (H & _ & _ & _ & _ & _ & _ & K).
  split; [exact H|]. apply K; [listed|]. intros j name k v _ Hn. replace (writers "LogLevel") with (@nil string) in Hn by (vm_compute; reflexivity).
  destruct (not_elem_of_nil _ Hn).
Defined.

(** A composite file that is accepted gives one management server and at most
    fifteen clients: the server runs in server mode with an API address, the
    names of all are different, no two of them listen on the same socket, and
    a client has no API address, token or accounts of its own. *)
Theorem composite_profiles_sound configPath j primary joined extras :
  TryLoadCompositeFlatJSON configPath j = Ok (Some (primary, joined, extras)) ->
  getB primary "ServerMode" = true /\ TrimSpace (getS primary "ApiAddr") <> []
  /\ NoDup (getS primary "ServerProfileID" :: map fst joined) /\ (length joined < maxCompositeProfiles)%nat
  /\ NoDup (binds primary ++ flat_map (fun p => binds p.2) joined)
  /\ Forall (fun p => getS p.2 "ApiAddr" = [] /\ getS p.2 "ApiToken" = [] /\ InternalEnabled p.2 = false) joined
  /\ length extras = S (length joined).
Proof.
  unfold TryLoadCompositeFlatJSON. intros (top & _ & H)%rbind_ok. do 2 (destruct (hasKey top _); [done|]). cbv zeta in H.
  apply rbind_ok in H as (entries & He & H). destruct entries as [es|]; [|done]. apply entries_bounded in He.
  apply rbind_ok in H as (r & Hr & H). injection H as ->. unfold buildCompositeProfiles in Hr. apply rbind_ok in Hr as (bs & Hbs & H).
  pose proof (buildAll_Forall _ _ _ _ _ _ (buildProfile_api (Dir configPath) _) Hbs) as Hapi.
  apply buildAll_length in Hbs. pose proof (serversFirst_perm bs) as Hp. cbv zeta in H. destruct (bool_decide (NoDup _)) eqn:En; [|done].
  apply bool_decide_eq_true in En. cbn [negb] in H. destruct (serversFirst bs) as [|b rest]; [done|].
  destruct (getB (bt_cfg b) "ServerMode") eqn:Em; [|done]. cbn [negb] in H. apply rbind_ok in H as ([] & Hv & H). injection H as <- <- <-.
  unfold validateJoinedClientBinds in Hv. apply rbind_ok in Hv as (s & Hb%addBinds_ok & _). rewrite <- Hp in Hapi.
  apply Forall_cons in Hapi as [Hapi _]. pose proof (same_insert "ServerProfileID"%string (VS (bt_id b)) (bt_cfg b)) as Hs. split_and!.
  - by rewrite (getB_same _ _ _ "ServerMode" Hs) by listed.
  - rewrite (getS_same _ _ _ "ApiAddr" Hs) by listed. by apply Hapi.
  - unfold getS. rewrite lookup_insert_eq. rewrite map_map. cbn [fst]. exact En.
  - rewrite length_map. apply Permutation_length in Hp. cbn in Hp. lia.
  - by destruct Hb as [? _].
  - apply Forall_map, Forall_true. intros c. cbn [snd]. apply joined_closed.
  - cbn. by rewrite !length_map.
Qed.

(** A server and a client, the client with its role. *)
Definition demo_client (more : list (string * json)) : json :=
  obj ([("scenario_name", JStr (lit "uac")); ("remote_addr", JStr (lit "192.0.2.1:5060")); ("local_port", JNum (lit "15060"));
        ("extra_args", JArr [JStr (lit "-l"); JStr (lit "9")])]%string ++ more).
Definition demo_composite (more : list (string * json)) : json :=
  obj [("api_addr", JStr (lit ":8080")); ("server", obj [("id", JStr (lit "sip")); ("scenario_name", JStr (lit "management"))]);
       ("clients", JArr [demo_client more])]%string.

Definition loaded (r : parsed (option (Config * list (str * Config) * list (list str)))) : Config * list (str * Config) * list (list str) :=
  match r with Ok (Some r) => r | _ => (∅, [], []) end.

Definition demo_loaded : Config * list (str * Config) * list (list str) :=
  loaded (TryLoadCompositeFlatJSON (lit "h.json") (demo_composite [("role", JStr (lit "load"))]%string)).

Lemma demo_loads : TryLoadCompositeFlatJSON (lit "h.json") (demo_composite [("role", JStr (lit "load"))]%string) = Ok (Some demo_loaded).
Proof.
  unfold demo_loaded. assert (match TryLoadCompositeFlatJSON (lit "h.json") (demo_composite [("role", JStr (lit "load"))]%string) with
    Ok (Some _) => true | _ => false end = true) as H by (vm_compute; reflexivity).
  by destruct (TryLoadCompositeFlatJSON _ _) as [[r|]|].
Qed.

Lemma composite_profiles_sound_witness :
  match demo_loaded with
  | (primary, joined, extras) =>
    TryLoadCompositeFlatJSON (lit "h.json") (demo_composite [("role", JStr (lit "load"))]%string) = Ok (Some (primary, joined, extras))
    /\ getB primary "ServerMode" = true
  end.
Proof.
  pose proof demo_loads as H. revert H. destruct demo_loaded as [[primary joined] extras]. intros H. split; [exact H|].
  exact (proj1 (composite_profiles_sound (lit "h.json") _ primary joined extras H)).
Defined.

(** ** Surprises of the files *)

(** An API address at the top of the file, where it belongs to the server, is merged
    into the clients too and makes a client without a role a second management
    server: it runs another scenario, without a limit on its calls. *)
Theorem root_api_addr_turns_client :
  match loaded (TryLoadCompositeFlatJSON (lit "h.json") (demo_composite [])) with
  | (_, [(_, client)], _) =>
    getB client "ServerMode" = true /\ getS client "ScenarioName" = lit "management" /\ getI client "TotalCalls" = 0
  | _ => False
  end.
Proof. vm_compute. repeat split. Qed.

(** The further arguments of a client are handed to the server. *)
Theorem client_arguments_reach_server :
  match LoadServerFlatOrComposite (fun _ => Some (demo_composite [("role", JStr (lit "load"))]%string)) (lit "h.json") with
  | Ok (_, _, args) => args = [lit "-l"; lit "9"]
  | Err _ => False
  end.
Proof. vm_compute. reflexivity. Qed.

(** Switching accounts off explicitly is taken for saying nothing: with a data
    directory the console asks for accounts all the same. *)
Theorem auth_none_not_disabled :
  match decodeSpec (obj [("ui_data_dir", JStr (lit "/data")); ("auth", obj [("type", JStr (lit "none"))])]%string) with
  | Some sp =>
    match applyRunSpec DefaultConfig sp (lit "/etc") with
    | Ok cfg => ExplicitlyDisabled cfg = false /\ AdminConsoleAuthEnabled cfg = true
    | Err _ => False
    end
  | None => False
  end.
Proof. vm_compute. split; reflexivity. Qed.
