(* ===== verification/CliParse.v ===== *)
(** * The command line ([Parse] of [internal/cli/config.go])

    The table of flags with the defaults the code gives them, and [Parse]: the
    profile options, the configuration of the profile, the flags, and the
    checks and derivations that follow.  Variables of [Parse] that are no
    fields of [Config] are kept under a name with a star. *)

From stdpp Require Import base list gmap strings.
From Stdlib Require Import ZArith Lia Strings.Byte Floats.SpecFloat.
From S2P Require Import Prelude GoStrings GoFloat GoFlag NetAddr SafePath CliConfig RunProfile.

(** ** Flags *)

Inductive flag_kind := KStr | KInt | KUint | KFloat | KBool | KDur | KHeader | KPairs.

(** The value a flag has when it is defined: what the field holds, a constant, or
    another field.  Defining a flag writes it. *)
Inductive flag_default := Keep | Reset (v : value) | CopyOf (field : string).

Definition flagTable : list (string * flag_kind * string * flag_default) :=
  [("sf", KStr, "ScenarioFile", Keep); ("sn", KStr, "ScenarioName", Keep); ("s", KStr, "Service", Keep);
   ("t", KStr, "Transport", Keep); ("i", KStr, "LocalIP", Keep); ("p", KInt, "LocalPort", Keep);
   ("inf", KStr, "InjectionFile", Keep); ("ip_field", KInt, "IPField", Keep); ("ipfield", KInt, "IPField", Keep);
   ("au", KStr, "AuthUsername", Keep); ("ap", KStr, "AuthPassword", Keep); ("sip_from", KStr, "SipFrom", Keep);
   ("sip_pai", KStr, "SipPAI", Keep); ("sip_provider", KStr, "SipProvider", Keep);
   ("sip_extra_header", KHeader, "SipExtraHeaders", Keep); ("r", KFloat, "Rate", Keep);
   ("rate_scale", KFloat, "RateScale", Keep); ("rate_increase", KFloat, "RateIncrease", Reset (VF fzero));
   ("rate_max", KFloat, "RateMax", Reset (VF fzero)); ("rp", KInt, "*ratePeriodMS", Reset (VI 1000));
   ("rate_interval", KInt, "*rateIntervalMS", Reset (VI 1000));
   ("max_reconnect", KInt, "*maxReconnect", Reset (VI 0));
   ("reconnect_sleep", KInt, "*reconnectSleepMS", Reset (VI 0));
   ("reconnect_close", KBool, "*reconnectClose", Reset (VB false)); ("base_cseq", KInt, "BaseCSeq", Keep);
   ("l", KInt, "MaxConcurrent", Keep); ("max_socket", KInt, "MaxSockets", Reset (VI 0));
   ("m", KInt, "TotalCalls", Keep); ("users", KInt, "Users", Keep); ("summary_json", KStr, "SummaryJSON", Keep);
   ("summary_html", KStr, "SummaryHTML", Keep);
   ("health_min_success_ratio", KFloat, "HealthMinSuccessRatio", Reset (VF fzero));
   ("health_max_failed_calls", KInt, "HealthMaxFailedCalls", Reset (VI (-1)));
   ("health_max_timeouts", KInt, "HealthMaxTimeouts", Reset (VI (-1)));
   ("health_max_rtcp_fraction_lost", KFloat, "HealthMaxRTCPFractionLost", Reset (VF fzero));
   ("health_max_rtcp_jitter_ts", KInt, "HealthMaxRTCPJitterTS", Reset (VI 0));
   ("health_min_rtp_packets_recv", KInt, "HealthMinRTPPacketsRecv", Reset (VI 0));
   ("health_min_rtp_packets_recv_per_call", KInt, "HealthMinRTPPacketsRecvPerCall", Reset (VI 0));
   ("record_wav_dir", KStr, "RecordWAVDir", Reset (VS []));
   ("record_wav_duplex", KBool, "RecordWAVDuplex", Reset (VB false));
   ("call_records_jsonl", KStr, "CallRecordsJSONL", Reset (VS []));
   ("media_reject_srtp", KBool, "MediaRejectSRTP", Reset (VB false));
   ("media_srtp", KBool, "MediaSRTP", Reset (VB false)); ("media_scale", KBool, "MediaScale", Reset (VB false));
   ("media_iouring", KBool, "MediaIOUring", Reset (VB false)); ("turn_server", KStr, "TURNServer", Reset (VS []));
   ("turn_user", KStr, "TURNUser", Reset (VS [])); ("turn_pass", KStr, "TURNPass", Reset (VS []));
   ("turn_realm", KStr, "TURNRealm", Reset (VS [])); ("trace_msg", KBool, "TraceMessages", Keep);
   ("trace_shortmsg", KBool, "TraceShortMsg", Reset (VB false));
   ("trace_counts", KBool, "TraceCounts", Reset (VB false)); ("message_file", KStr, "MessageFile", Reset (VS []));
   ("trace_err", KBool, "TraceErrors", Reset (VB false)); ("error_file", KStr, "ErrorFile", Reset (VS []));
   ("trace_error_codes", KBool, "TraceErrorCodes", Reset (VB false));
   ("trace_logs", KBool, "TraceLogs", Reset (VB false)); ("log_file", KStr, "LogFile", Reset (VS []));
   ("trace_stat", KBool, "TraceStats", Reset (VB false)); ("trace_rtt", KBool, "TraceRTT", Reset (VB false));
   ("trace_screen", KBool, "TraceScreen", Reset (VB false)); ("fd", KInt, "*statsDumpFrequency", Reset (VI 1));
   ("stat_period", KDur, "StatPrintPeriod", Reset (VI 0)); ("rtt_freq", KInt, "*rttDumpFrequency", Reset (VI 200));
   ("screen_file", KStr, "ScreenFile", Reset (VS [])); ("hep_addr", KStr, "HEPAddr", Keep);
   ("hep_password", KStr, "HEPPassword", Keep); ("pcap-link", KStr, "PCAPLinkLayer", Keep);
   ("hep_raw_rtcp", KBool, "HEPRawRTCP", Keep); ("hep_homer_lake_rtcp", KBool, "HEPHomerLakeRTCP", Keep);
   ("send_media_report", KBool, "SendMediaReport", Keep); ("tls_cert", KStr, "TLSCertFile", Reset (VS []));
   ("tls_key", KStr, "TLSKeyFile", Reset (VS [])); ("tls_ca", KStr, "TLSCAFile", Reset (VS []));
   ("tls_skip_verify", KBool, "TLSSkipVerify", Keep); ("cmd_name", KStr, "CommandName", Reset (VS []));
   ("rsa", KStr, "*remoteAddr", Reset (VS [])); ("cmd_peers", KStr, "*commandPeersFile", Reset (VS []));
   ("master", KStr, "*masterName", Reset (VS [])); ("slave", KStr, "*slaveName", Reset (VS []));
   ("slave_cfg", KStr, "*slaveCfgFile", Reset (VS [])); ("pause_ms", KInt, "*pauseMS", Reset (VI 1000));
   ("recv_timeout_ms", KInt, "*recvMS", Reset (VI 5000));
   ("recv_bye_timeout_ms", KInt, "*recvByeFloorMS", Reset (VI 90000));
   ("timeout_global", KInt, "*timeoutGlobalSec", Reset (VI 0));
   ("hep_capture_id", KUint, "*hepCaptureID", CopyOf "HEPCaptureID"); ("pprof", KStr, "PprofAddr", Reset (VS []));
   ("api_addr", KStr, "ApiAddr", Keep); ("api_token", KStr, "ApiToken", Keep);
   ("ui_data_dir", KStr, "UIDataDir", Keep); ("scenario_history_keep", KInt, "ScenarioHistoryKeep", Keep);
   ("legacy_api_v1", KBool, "LegacyAPIV1", Reset (VB true)); ("cpuprofile", KStr, "CPUProfile", Reset (VS []));
   ("memprofile", KStr, "MemProfile", Reset (VS [])); ("rtp_send", KBool, "RTPSend", Reset (VB false));
   ("rtp_addr", KStr, "RTPAddr", Reset (VS [])); ("rtp_pt", KInt, "RTPPT", Reset (VI 0));
   ("rtp_codec", KStr, "RTPCodec", Keep); ("rtp_freq", KInt, "RTPFreqMs", Keep);
   ("rtp_dur", KInt, "RTPDurMs", Reset (VI 0)); ("rtp_ch", KInt, "RTPChannels", Keep);
   ("rtp_streams", KInt, "RTPStreams", Reset (VI 1)); ("log_stdout", KBool, "LogStdout", Reset (VB false));
   ("log_file_jsonl", KStr, "LogFileJSONL", Reset (VS [])); ("log_otel_endpoint", KStr, "LogOTELEndpoint", Keep);
   ("log_otel_proto", KStr, "LogOTELProto", Keep); ("log_otel_insecure", KBool, "LogOTELInsecure", Keep);
   ("log_otel_header", KPairs, "*logHeaders", Reset (VM ∅)); ("log_attr", KPairs, "*logAttrs", Reset (VM ∅));
   ("log_buffer_size", KInt, "LogBufferSize", Keep); ("log_level", KStr, "LogLevel", Keep)]%string.

(** [Set] of a flag that holds one value. *)
Definition scalar (k : flag_kind) (s : str) : option value :=
  match k with
  | KStr => Some (VS s)
  | KInt => option_map VI (ParseInt0 s)
  | KUint => option_map VI (ParseUint0 s)
  | KFloat => option_map VF (ParseFloat s)
  | KBool => option_map VB (ParseBool s)
  | KDur => option_map VI (ParseDuration s)
  | KHeader | KPairs => None
  end.

Definition setValue (k : flag_kind) (field : string) (s : str) (cfg : Config) : option Config :=
  match k with
  | KHeader => Some (<[field := VL (getL cfg field ++ [TrimSpace s])]> cfg)
  | KPairs => option_map (fun m => <[field := VM m]> cfg) (kvSet (getM cfg field) s)
  | _ => option_map (fun v => <[field := v]> cfg) (scalar k s)
  end.

Definition flagSet (name : str) : option (bool * (str -> Config -> option Config)) :=
  match find (fun '(n, _, _, _) => bool_decide (lit n = name)) flagTable with
  | Some (_, k, field, _) => Some (match k with KBool => true | _ => false end, setValue k field)
  | None => None
  end.

Definition defineFlag (cfg : Config) (f : string * flag_kind * string * flag_default) : Config :=
  let '(_, _, field, d) := f in
  match d with
  | Keep => cfg
  | Reset v => <[field := v]> cfg
  | CopyOf g => <[field := VI (getI cfg g)]> cfg
  end.

Definition defineFlags (cfg : Config) : Config := foldl defineFlag cfg flagTable.

(** ** Checks *)

(** A test that returns an error. *)
Definition bad (b : bool) (msg : string) : bool * string := (b, msg).

(** A sequence of tests. *)
Fixpoint checkAll (l : list (bool * string)) : parsed unit :=
  match l with
  | [] => Ok tt
  | (bad, msg) :: l => if bad then Err msg else checkAll l
  end.

Definition isTransport (cfg : Config) (l : list string) : bool := bool_decide (getS cfg "Transport" ∈ map lit l).

Definition checkNumbers (cfg : Config) : list (bool * string) :=
  [bad (fle (getF cfg "Rate") fzero) "rate must be greater than zero";
   bad (fle (getF cfg "RateScale") fzero) "rate_scale must be greater than zero";
   bad (getI cfg "*rateIntervalMS" <=? 0) "rate_interval must be greater than zero";
   bad (flt (getF cfg "RateMax") fzero) "rate_max must be greater than or equal to zero";
   bad (getI cfg "*maxReconnect" <? 0) "max_reconnect must be greater than or equal to zero";
   bad (getI cfg "*reconnectSleepMS" <? 0) "reconnect_sleep must be greater than or equal to zero";
   bad (getI cfg "TotalCalls" <? 0) "total calls must be greater than or equal to zero";
   bad ((getI cfg "TotalCalls" =? 0) && negb (getB cfg "TotalCallsSetExplicitly")) "total calls must be greater than zero";
   bad (getI cfg "MaxConcurrent" <=? 0) "max concurrent calls must be greater than zero";
   bad (getI cfg "MaxSockets" <? 0) "max_socket must be greater than or equal to zero";
   bad (getI cfg "Users" <=? 0) "users must be greater than zero";
   bad (getI cfg "*ratePeriodMS" <=? 0) "rp must be greater than zero";
   bad (getI cfg "BaseCSeq" <=? 0) "base_cseq must be greater than zero";
   bad (getI cfg "*statsDumpFrequency" <=? 0) "fd must be greater than zero";
   bad (getI cfg "*rttDumpFrequency" <=? 0) "rtt_freq must be greater than zero";
   bad (getI cfg "*timeoutGlobalSec" <? 0) "timeout_global must be greater than or equal to zero";
   bad (getI cfg "InfIndexField" <? 0) "infindex field must be greater than or equal to zero";
   bad (getI cfg "IPField" <? -1) "ip_field must be greater than or equal to -1";
   bad (getI cfg "*recvByeFloorMS" <? 0) "recv_bye_timeout_ms must be greater than or equal to zero";
   bad (getI cfg "StatPrintPeriod" <? 0) "stat_period must be greater than or equal to zero"].

(** The fields computed from the flags, in [time.Duration] arithmetic. *)
Definition derived (cfg : Config) : list (string * value) :=
  [("DefaultPause"%string, VI (i64 (getI cfg "*pauseMS" * ms)));
   ("DefaultRecvTO"%string, VI (i64 (getI cfg "*recvMS" * ms)));
   ("RecvBYEFloorTO"%string, VI (i64 (getI cfg "*recvByeFloorMS" * ms)));
   ("GlobalTimeout"%string, VI (i64 (getI cfg "*timeoutGlobalSec" * second)));
   ("Rate"%string, VF (fmul (getF cfg "Rate") (fdiv (float_of_int 1000) (float_of_int (getI cfg "*ratePeriodMS")))));
   ("RateIncreaseStep"%string, VI (i64 (getI cfg "*rateIntervalMS" * ms)));
   ("MaxReconnect"%string, VI (getI cfg "*maxReconnect"));
   ("ReconnectSleep"%string, VI (i64 (getI cfg "*reconnectSleepMS" * ms)));
   ("ReconnectClose"%string, VB (getB cfg "*reconnectClose"));
   ("StatsDumpPeriod"%string, VI (i64 (getI cfg "*statsDumpFrequency" * second)));
   ("RTTDumpFrequency"%string, VI (getI cfg "*rttDumpFrequency"));
   ("HEPCaptureID"%string, VI (u32 (getI cfg "*hepCaptureID")));
   ("Transport"%string, VS (ToLower (TrimSpace (getS cfg "Transport"))));
   ("InjectionFile"%string, VS (TrimSpace (getS cfg "InjectionFile")))].

Definition assign (cfg : Config) (l : list (string * value)) : Config := foldl (fun cfg p => <[p.1 := p.2]> cfg) cfg l.

Definition cliTransports : list string := ["u1"; "un"; "ui"; "t1"; "tn"; "l1"; "ln"; "s1"; "sn"; "sl"; "cl"; "cln"]%string.

Definition checkTransport (cfg : Config) : list (bool * string) :=
  [bad (negb (isTransport cfg cliTransports)) "unsupported transport";
   bad ((0 <=? getI cfg "IPField") && bool_decide (getS cfg "InjectionFile" = [])) "inf must be specified when ip_field is set"].

Section Parse.

Context (readFile : str -> option str) (readCSV : byte -> str -> option (list (list str)))
  (readJSON : str -> option json) (mediaExporterRegistered : bool).

(** The addresses of [ui] mode and of TLS clients. *)
Definition sourceIPs (cfg : Config) : parsed Config :=
  let inf := getS cfg "InjectionFile" in
  let field := getI cfg "IPField" in
  let load := let? ips := loadSourceIPsFromInjection readFile readCSV inf field in Ok (<["UISourceIPs"%string := VL ips]> cfg) in
  if isTransport cfg ["ui"%string] then
    if bool_decide (inf = []) then Err "transport ui requires -inf"%string
    else if 0 <=? field then load
    else
      let local := TrimSpace (getS cfg "LocalIP") in
      if bool_decide (local = []) then Err "transport ui without -ip_field requires -i"%string
      else Ok (<["UISourceIPs"%string := VL [local]]> cfg)
  else if bool_decide (inf <> []) || (0 <=? field) then
    if isTransport cfg ["cl"; "cln"; "l1"; "ln"]%string then
      if bool_decide (inf <> []) && (0 <=? field) then load else Ok cfg
    else if 0 <=? field then Err "transport does not support -ip_field with -inf"%string else Ok cfg
  else Ok cfg.

(** The 3pcc and command transport options. *)
Definition commands (cfg : Config) : parsed Config :=
  let master := getS cfg "*masterName" in
  let slave := getS cfg "*slaveName" in
  let peersFile := getS cfg "*commandPeersFile" in
  let slaveCfg := getS cfg "*slaveCfgFile" in
  let? _ := checkAll
    [bad (bool_decide (getS cfg "ScenarioFile" = []) && bool_decide (getS cfg "ScenarioName" = [])) "either -sf or -sn must be specified";
     bad (bool_decide (getS cfg "CommandName" <> []) && (bool_decide (master <> []) || bool_decide (slave <> []))) "-cmd_name is not compatible with -master or -slave";
     bad (bool_decide (master <> []) && bool_decide (slave <> [])) "-master and -slave are mutually exclusive";
     bad (bool_decide (peersFile <> []) && bool_decide (slaveCfg <> []) && bool_decide (peersFile <> slaveCfg)) "-cmd_peers is not compatible with a different -slave_cfg value"] in
  let peersFile := if bool_decide (peersFile = []) then slaveCfg else peersFile in
  let cfg :=
    if bool_decide (master <> []) then <["CommandRole"%string := VS (lit "master")]> (<["CommandName"%string := VS master]> cfg)
    else if bool_decide (slave <> []) then <["CommandRole"%string := VS (lit "slave")]> (<["CommandName"%string := VS slave]> cfg)
    else cfg in
  let name := getS cfg "CommandName" in
  if bool_decide (name = []) && bool_decide (peersFile = []) then Ok cfg
  else if bool_decide (name = []) || bool_decide (peersFile = [])
  then Err "command transport requires both local name and peer map file"%string
  else
    let? peers := parseCommandPeersFile readFile peersFile in
    match peers !! name with
    | None => Err "command peer map does not contain local instance"%string
    | Some _ => Ok (<["CommandPeers"%string := VM peers]> cfg)
    end.

(** Options that switch on others: field, and what it becomes. *)
Definition impliedSteps (provided : list str) : list (string * (Config -> option value)) :=
  let on (b : bool) := if b then Some (VB true) else None in
  [("TraceMessages"%string, fun cfg => on (bool_decide (getS cfg "MessageFile" <> [])));
   ("TraceStats"%string, fun _ => on (bool_decide (lit "fd" ∈ provided)));
   ("TraceRTT"%string, fun _ => on (bool_decide (lit "rtt_freq" ∈ provided)));
   ("AuthUsername"%string, fun cfg => if bool_decide (getS cfg "AuthUsername" = []) then Some (VS (getS cfg "Service")) else None);
   ("TraceErrors"%string, fun cfg => on (bool_decide (getS cfg "ErrorFile" <> [])));
   ("TraceLogs"%string, fun cfg => on (bool_decide (getS cfg "LogFile" <> [])));
   ("TraceScreen"%string, fun cfg => on (bool_decide (getS cfg "ScreenFile" <> [])))].

Definition runStep (cfg : Config) (step : string * (Config -> option value)) : Config :=
  match step.2 cfg with Some v => <[step.1 := v]> cfg | None => cfg end.

Definition implied (provided : list str) (cfg : Config) : Config := foldl runStep cfg (impliedSteps provided).

Definition checkCapture (cfg : Config) : list (bool * string) :=
  [bad (bool_decide (getS cfg "HEPAddr" <> []) && negb (is_ok (splitHostPort (getS cfg "HEPAddr")))) "invalid HEP collector address";
   bad (getB cfg "SendMediaReport" && negb (getB cfg "HEPHomerLakeRTCP") && negb (getB cfg "HEPRawRTCP") && negb mediaExporterRegistered) "send_media_report requires hep_homer_lake_rtcp or hep_raw_rtcp";
   bad ((0 <? getI cfg "MaxSockets") && negb (isTransport cfg ["un"; "tn"; "ln"; "cln"]%string)) "max_socket is only supported with un, tn, or ln transport";
   bad (((0 <? getI cfg "MaxReconnect") || (0 <? getI cfg "ReconnectSleep") || getB cfg "ReconnectClose")
      && negb (isTransport cfg ["t1"; "l1"; "sl"; "cl"]%string)) "max_reconnect/reconnect_sleep/reconnect_close are only supported with t1 or l1 transport"].

Definition logOptions (cfg : Config) : list (string * value) :=
  [("LogAttrs"%string, VM (getM cfg "*logAttrs")); ("LogOTELHeaders"%string, VM (getM cfg "*logHeaders"));
   ("LogOTELProto"%string, VS (ToLower (TrimSpace (getS cfg "LogOTELProto"))));
   ("LogLevel"%string, VS (ToLower (TrimSpace (getS cfg "LogLevel"))))].

Definition checkMedia (cfg : Config) : list (bool * string) :=
  let rtp := getB cfg "RTPSend" in
  let scale := getB cfg "MediaScale" in
  [bad (getI cfg "LogBufferSize" <? 0) "log_buffer_size must be greater than or equal to zero";
   bad (bool_decide (getS cfg "LogOTELEndpoint" <> []) && negb (bool_decide (getS cfg "LogOTELProto" ∈ [lit "grpc"; lit "http"]))) "log_otel_proto must be grpc or http";
   bad (bool_decide (getS cfg "LogLevel" <> []) && bool_decide (levelKnown (getS cfg "LogLevel") = None)) "log_level must be debug|info|warn|error";
   bad (rtp && bool_decide (getS cfg "RTPAddr" = [])) "-rtp_addr is required for standalone RTP sender";
   bad (rtp && (getI cfg "RTPFreqMs" <=? 0)) "rtp_freq must be greater than zero";
   bad (rtp && (getI cfg "RTPChannels" <=? 0)) "rtp_ch must be greater than zero";
   bad (rtp && (getI cfg "RTPDurMs" <? 0)) "rtp_dur must be greater than or equal to zero";
   bad (rtp && (getI cfg "RTPStreams" <? 1)) "rtp_streams must be at least 1";
   bad (rtp && (1 <? getI cfg "RTPStreams") && negb scale) "rtp_streams > 1 requires -media_scale";
   bad (scale && getB cfg "MediaSRTP") "media_scale is incompatible with media_srtp";
   bad (scale && (getI cfg "RTPStreams" <? 1)) "rtp_streams must be at least 1";
   bad (getB cfg "MediaIOUring" && negb scale) "media_iouring requires media_scale"].

(** What follows the flags; [others] are the arguments that are no flags. *)
Definition afterFlags (profileExplicit : bool) (provided others : list str) (cfg : Config) : parsed Config :=
  let cfg := <["TotalCallsSetExplicitly"%string := VB (bool_decide (lit "m" ∈ provided) || profileExplicit)]> cfg in
  let cfg := if bool_decide (lit "legacy_api_v1" ∈ provided) then <["LegacyAPIV1Set"%string := VB true]> cfg else cfg in
  let remote := match getS cfg "*remoteAddr" with [] => default [] (head others) | r => r end in
  let? cfg :=
    if bool_decide (remote = []) then Ok cfg
    else match splitHostPort remote with
    | Err _ => Err "invalid remote address"%string
    | Ok (host, port) => Ok (<["RemotePort"%string := VI port]> (<["RemoteHost"%string := VS host]> cfg))
    end in
  let? cfg := applyServerModeIfEnabled cfg provided in
  let? _ := checkAll (checkNumbers cfg) in
  let cfg := assign cfg (derived cfg) in
  let? _ := checkAll (checkTransport cfg) in
  let? cfg := sourceIPs cfg in
  let? cfg := commands cfg in
  let cfg := implied provided cfg in
  let? _ := checkAll (checkCapture cfg) in
  let cfg := assign cfg (logOptions cfg) in
  let? _ := checkAll (checkMedia cfg) in
  Ok cfg.

Inductive parse_error :=
  | ParseErr (msg : string)
  | ParseFlag (e : flag_error)
  | ParseListed (names : list str).     (* ErrListAliases, after the names were printed *)

Definition lift {A} (r : parsed A) : result parse_error A :=
  match r with Ok a => Ok a | Err e => Err (ParseErr e) end.

(** The configuration before the flags, further clients, and the arguments of the profile. *)
Definition baseConfig (meta : runProfileMeta) : parsed (Config * list (str * Config) * list str) :=
  if bool_decide (ServerFlatConfigPath meta <> []) then LoadServerFlatOrComposite readJSON (ServerFlatConfigPath meta)
  else if bool_decide (ConfigPath meta <> []) then
    let? (cfg, extra) := LoadAndApplyRunProfile readJSON DefaultConfig (ConfigPath meta) (RunAlias meta) in Ok (cfg, [], extra)
  else Ok (DefaultConfig, [], []).

Definition checkMeta (meta : runProfileMeta) : list (bool * string) :=
  [bad (ImplicitServerSubcommand meta && (bool_decide (RunAlias meta <> []) || ListAliases meta)) "run profiles must use the root command";
   bad (bool_decide (ServerFlatConfigPath meta <> [])
      && (bool_decide (ConfigPath meta <> []) || bool_decide (RunAlias meta <> []) || ListAliases meta)) "flat JSON via gossipper server -config cannot be combined with run profile flags";
   bad (ListAliases meta && bool_decide (ConfigPath meta = [])) "-list-aliases requires -config <path>"].

Definition checkAlias (meta : runProfileMeta) : list (bool * string) :=
  [bad (bool_decide (ConfigPath meta <> []) && bool_decide (RunAlias meta = [])) "-config requires -run-alias <name>";
   bad (bool_decide (RunAlias meta <> []) && bool_decide (ConfigPath meta = [])) "-run-alias requires -config <path>"].

(** [Parse]: the configuration and the clients that join it. *)
Definition Parse (args : list str) : result parse_error (Config * list (str * Config)) :=
  let? (rest, meta) := lift (parseRunProfileMeta args) in
  let? _ := lift (checkAll (checkMeta meta)) in
  let? _ :=
    if ListAliases meta then let? names := lift (printRunProfileAliases readJSON (ConfigPath meta)) in Err (ParseListed names)
    else Ok tt in
  let? _ := lift (checkAll (checkAlias meta)) in
  let? (normalized, infFile, infField) := lift (extractInfIndexArgs rest) in
  let? (normalized, keys) := lift (extractKeyArgs normalized) in
  let? (cfg, joined, extra) := lift (baseConfig meta) in
  let cfg := if ImplicitServerSubcommand meta && bool_decide (ServerFlatConfigPath meta = [])
             then <["ServerMode"%string := VB true]> cfg else cfg in
  let cfg := <["InfIndexField"%string := VI infField]> (<["InfIndexFile"%string := VS infFile]> cfg) in
  let cfg := if bool_decide (keys = ∅) then cfg else <["Keys"%string := VM keys]> cfg in
  let? (cfg, sets, others) :=
    match parseFlags flagSet (extra ++ normalized) (defineFlags cfg) with Ok r => Ok r | Err e => Err (ParseFlag e) end in
  let? cfg := lift (afterFlags (getB cfg "TotalCallsSetExplicitly") (map fst sets) others cfg) in
  Ok (cfg, joined).

End Parse.

(** * Facts *)

Lemma same_assign l cfg : same_except (map fst l) cfg (assign cfg l).
Proof.
  unfold assign. revert cfg. induction l as [|[f v] l IH]; intros cfg; cbn; [apply same_refl|].
  apply (same_trans [f] (map fst l) _ _ _ (same_insert f v cfg)). apply IH.
Qed.

Lemma isTransport_same l a b ts : same_except l a b -> "Transport"%string ∉ l -> isTransport b ts = isTransport a ts.
Proof. intros H Hf. unfold isTransport. by rewrite (getS_same l a b). Qed.

Lemma checkAll_ok l u : checkAll l = Ok u -> forall b msg, (b, msg) ∈ l -> b = false.
Proof.
  induction l as [|[b0 m0] l IH]; cbn; [set_solver|]. destruct b0; [done|]. intros H b msg [[= -> ->] | Hin]%elem_of_cons; [done|].
  by apply (IH H _ msg).
Qed.

(** The test with a given message passed. *)
Lemma checkAll_passed l u msg : checkAll l = Ok u ->
  forall b, find (fun p : bool * string => String.eqb p.2 msg) l = Some b -> b.1 = false.
Proof.
  intros H [b m] Hf. apply find_some in Hf as [Hin _]. apply (checkAll_ok l u H b m). by apply list_elem_of_In.
Qed.

Ltac passed H msg := pose proof (checkAll_passed _ _ msg H _ eq_refl) as Hp; cbn [fst bad] in Hp.

(** ** Stages *)

Section Stages.

Context (readFile : str -> option str) (readCSV : byte -> str -> option (list (list str))) (registered : bool).

Lemma addPeer_ok peers raw peers' : map_Forall (fun _ addr => is_ok (splitHostPort addr) = true) peers ->
  addPeer peers raw = Ok peers' -> map_Forall (fun _ addr => is_ok (splitHostPort addr) = true) peers'.
Proof.
  intros Hp. unfold addPeer. cbv zeta. destruct (is_comment _); [by intros <-%Ok_inj|].
  destruct (Cut _ _) as [[n a]|]; [|done]. destruct (_ || _); [done|].
  destruct (splitHostPort (TrimSpace a)) as [p|] eqn:E; [|done]. intros <-%Ok_inj. apply map_Forall_insert_2; [|done]. by rewrite E.
Qed.

Lemma addPeers_ok lines peers peers' : map_Forall (fun _ addr => is_ok (splitHostPort addr) = true) peers ->
  addPeers peers lines = Ok peers' -> map_Forall (fun _ addr => is_ok (splitHostPort addr) = true) peers'.
Proof.
  revert peers. induction lines as [|l lines IH]; intros peers Hp; cbn; [by intros <-%Ok_inj|].
  intros (p & Hl & H)%rbind_ok. apply (IH p); [|done]. by apply (addPeer_ok peers l).
Qed.

Lemma parseCommandPeersFile_ok path peers : parseCommandPeersFile readFile path = Ok peers ->
  map_Forall (fun _ addr => is_ok (splitHostPort addr) = true) peers.
Proof.
  unfold parseCommandPeersFile, parseCommandPeers. destruct (readFile path) as [data|]; [|done].
  intros (p & Hl & H)%rbind_ok. destruct (bool_decide _); [done|]. apply Ok_inj in H as <-.
  apply (addPeers_ok _ _ _ (map_Forall_empty _) Hl).
Qed.

Lemma rowsSourceIPs_ok field records ips : rowsSourceIPs field records = Ok ips -> Forall (fun ip => is_Some (ParseIP ip)) ips.
Proof.
  revert ips. induction records as [|r records IH]; intros ips; cbn; [intros <-%Ok_inj; constructor|].
  intros (o & Hr & (l & Hl & H)%rbind_ok)%rbind_ok. apply Ok_inj in H as <-. destruct o as [ip|]; [|by apply IH].
  constructor; [|by apply IH]. unfold rowSourceIP in Hr. destruct (_ <=? _); [done|]. destruct (isIgnorableInfRow r); [done|].
  cbv zeta in Hr. destruct (bool_decide _); [done|]. destruct (isSIPpInjectionFieldKeyword _); [done|].
  destruct (ParseIP _) eqn:E; [|done]. apply Ok_inj in Hr as [= <-]. by rewrite E.
Qed.

Lemma loadSourceIPs_ok path field ips : loadSourceIPsFromInjection readFile readCSV path field = Ok ips ->
  ips <> [] /\ Forall (fun ip => is_Some (ParseIP ip)) ips.
Proof.
  unfold loadSourceIPsFromInjection. destruct (readFile path) as [data|]; [|done]. destruct (readCSV _ data) as [records|]; [|done].
  intros (l & Hl & H)%rbind_ok. destruct (bool_decide (l = [])) eqn:E; [done|]. apply Ok_inj in H as <-.
  apply bool_decide_eq_false in E. split; [done|]. by apply rowsSourceIPs_ok in Hl.
Qed.

Lemma sourceIPs_ok cfg cfg' : sourceIPs readFile readCSV cfg = Ok cfg' ->
  same_except ["UISourceIPs"%string] cfg cfg'
  /\ (getS cfg "Transport" = lit "ui" -> getL cfg' "UISourceIPs" <> []
      /\ (0 <= getI cfg "IPField" -> Forall (fun ip => is_Some (ParseIP ip)) (getL cfg' "UISourceIPs"))).
Proof.
  unfold sourceIPs. cbv zeta. destruct (isTransport cfg ["ui"%string]) eqn:E.
  - destruct (bool_decide _); [done|]. destruct (Z.leb_spec 0 (getI cfg "IPField")).
    + intros (ips & (H1 & H2)%loadSourceIPs_ok & <-%Ok_inj)%rbind_ok. split; [apply same_insert|]. intros _.
      unfold getL. rewrite lookup_insert_eq. auto.
    + destruct (bool_decide _); [done|]. intros <-%Ok_inj. split; [apply same_insert|]. intros _.
      unfold getL. rewrite lookup_insert_eq. split; [done|lia].
  - assert (getS cfg "Transport" <> lit "ui") as Hu.
    { intros Ht. unfold isTransport in E. rewrite Ht in E. by vm_compute in E. }
    clear E. destruct (bool_decide _ || _); [|intros <-%Ok_inj; split; [same|done]].
    destruct (isTransport cfg _).
    + destruct (_ && _); [|intros <-%Ok_inj; split; [same|done]].
      intros (ips & _ & <-%Ok_inj)%rbind_ok. split; [apply same_insert|done].
    + destruct (0 <=? _); [done|]. intros <-%Ok_inj. split; [same|done].
Qed.

Lemma commands_ok cfg cfg' : commands readFile cfg = Ok cfg' ->
  same_except ["CommandRole"; "CommandName"; "CommandPeers"]%string cfg cfg'
  /\ (getS cfg "ScenarioFile" <> [] \/ getS cfg "ScenarioName" <> [])
  /\ (getS cfg' "CommandName" <> [] ->
      exists addr, getM cfg' "CommandPeers" !! getS cfg' "CommandName" = Some addr /\ is_ok (splitHostPort addr) = true).
Proof.
  unfold commands. cbv zeta. intros ([] & Hc & H)%rbind_ok.
  assert (getS cfg "ScenarioFile" <> [] \/ getS cfg "ScenarioName" <> []) as Hsc.
  { passed Hc "either -sf or -sn must be specified". apply andb_false_iff in Hp as [Hp|Hp]; apply bool_decide_eq_false in Hp; auto. }
  clear Hc. revert H. match goal with |- context [getS ?c "CommandName"] =>
    lazymatch c with cfg => fail | _ => set (mid := c) end end.
  assert (same_except ["CommandRole"; "CommandName"; "CommandPeers"]%string cfg mid) as Hm by (unfold mid; same).
  clearbody mid. destruct (_ && _) eqn:E1.
  - intros <-%Ok_inj. apply andb_true_iff in E1 as [E1%bool_decide_eq_true _]. split; [done|]. split; [done|]. by intros [].
  - destruct (_ || _) eqn:E2; [done|]. intros (peers & Hp%parseCommandPeersFile_ok & H)%rbind_ok.
    destruct (peers !! getS mid "CommandName") as [addr|] eqn:E; [|done]. apply Ok_inj in H as <-. split; [|split; [done|]].
    + eapply same_weaken; [apply (same_trans _ _ _ _ _ Hm (same_insert _ _ _))|]. set_solver.
    + intros _. exists addr. unfold getM. rewrite lookup_insert_eq.
      rewrite (getS_same _ _ _ "CommandName" (same_insert "CommandPeers"%string (VM peers) mid)) by listed. split; [done|]. by apply (Hp _ _ E).
Qed.

Definition impliedFields : list string :=
  ["TraceMessages"; "TraceStats"; "TraceRTT"; "AuthUsername"; "TraceErrors"; "TraceLogs"; "TraceScreen"]%string.

Lemma steps_same steps cfg : same_except (map fst steps) cfg (foldl runStep cfg steps).
Proof.
  revert cfg. induction steps as [|[f g] steps IH]; intros cfg; cbn [map foldl fst]; [apply same_refl|].
  apply (same_trans [f] (map fst steps) cfg (runStep cfg (f, g))); [|apply IH]. unfold runStep. cbn. destruct (g cfg); [|same].
  apply same_insert.
Qed.

Lemma implied_same provided cfg : same_except impliedFields cfg (implied provided cfg).
Proof. apply (steps_same (impliedSteps provided)). Qed.

End Stages.

(** ** Accepted configurations *)

Record valid_config (cfg : Config) : Prop := {
  vc_total : 0 <= getI cfg "TotalCalls" /\ (getI cfg "TotalCalls" = 0 -> getB cfg "TotalCallsSetExplicitly" = true);
  vc_limits : 1 <= getI cfg "MaxConcurrent" /\ 0 <= getI cfg "MaxSockets" /\ 1 <= getI cfg "Users" /\ 1 <= getI cfg "BaseCSeq"
              /\ 1 <= getI cfg "RTTDumpFrequency" /\ 0 <= getI cfg "InfIndexField" /\ 0 <= getI cfg "StatPrintPeriod";
  vc_transport : isTransport cfg cliTransports = true;
  vc_scenario : getS cfg "ScenarioFile" <> [] \/ getS cfg "ScenarioName" <> [];
  vc_sockets : 0 < getI cfg "MaxSockets" -> isTransport cfg ["un"; "tn"; "ln"; "cln"]%string = true;
  vc_reconnect : 0 < getI cfg "MaxReconnect" -> isTransport cfg ["t1"; "l1"; "sl"; "cl"]%string = true;
  vc_ip : -1 <= getI cfg "IPField" /\ (0 <= getI cfg "IPField" -> getS cfg "InjectionFile" <> []);
  vc_ui : getS cfg "Transport" = lit "ui" -> getL cfg "UISourceIPs" <> []
          /\ (0 <= getI cfg "IPField" -> Forall (fun ip => is_Some (ParseIP ip)) (getL cfg "UISourceIPs"));
  vc_command : getS cfg "CommandName" <> [] ->
    exists addr, getM cfg "CommandPeers" !! getS cfg "CommandName" = Some addr /\ is_ok (splitHostPort addr) = true;
  vc_hep : getS cfg "HEPAddr" <> [] -> is_ok (splitHostPort (getS cfg "HEPAddr")) = true;
  vc_level : is_Some (levelKnown (getS cfg "LogLevel"));
  vc_rtp : getB cfg "RTPSend" = true -> getS cfg "RTPAddr" <> [] /\ 1 <= getI cfg "RTPFreqMs" /\ 1 <= getI cfg "RTPChannels"
           /\ 0 <= getI cfg "RTPDurMs" /\ 1 <= getI cfg "RTPStreams";
  vc_scale : getB cfg "MediaScale" = true -> getB cfg "MediaSRTP" = false
}.

Definition earlyFields : list string := ["TotalCallsSetExplicitly"; "LegacyAPIV1Set"; "RemoteHost"; "RemotePort"]%string.

Section After.

Context (readFile : str -> option str) (readCSV : byte -> str -> option (list (list str))) (registered : bool).

(** The stages a successful run went through. *)
Lemma afterFlags_stages explicit provided others cfg0 cfg :
  afterFlags readFile readCSV registered explicit provided others cfg0 = Ok cfg ->
  exists a b d e g,
    same_except earlyFields cfg0 a /\ applyServerModeIfEnabled a provided = Ok b
    /\ checkAll (checkNumbers b) = Ok tt /\ d = assign b (derived b) /\ checkAll (checkTransport d) = Ok tt
    /\ sourceIPs readFile readCSV d = Ok e /\ commands readFile e = Ok g
    /\ checkAll (checkCapture registered (implied provided g)) = Ok tt
    /\ cfg = assign (implied provided g) (logOptions (implied provided g)) /\ checkAll (checkMedia cfg) = Ok tt.
Proof.
  unfold afterFlags. cbv zeta. intros (a & Ha & (b & Hb & ([] & Hn & ([] & Ht & (e & He & (g & Hg & ([] & Hc & ([] & Hm & <-%Ok_inj)
    %rbind_ok)%rbind_ok)%rbind_ok)%rbind_ok)%rbind_ok)%rbind_ok)%rbind_ok)%rbind_ok.
  exists a, b, (assign b (derived b)), e, g. split_and!; try done. clear -Ha.
  match type of Ha with context [match getS ?c "*remoteAddr" with _ => _ end] => set (c1 := c) in Ha end.
  assert (same_except earlyFields cfg0 c1) as H1 by (unfold c1; same). clearbody c1. destruct (bool_decide _).
  - apply Ok_inj in Ha as <-. done.
  - destruct (splitHostPort _) as [[host port]|]; [|done]. apply Ok_inj in Ha as <-.
    apply (same_weaken (earlyFields ++ ["RemoteHost"; "RemotePort"]%string)); [|set_solver]. eapply same_trans; [exact H1|same].
Qed.

(** What is not written after the flags. *)
Definition lateFields : list string :=
  earlyFields ++ serverModeFields ++ map fst (derived ∅) ++ ["UISourceIPs"; "CommandRole"; "CommandName"; "CommandPeers"]%string
    ++ impliedFields ++ map fst (logOptions ∅).

Lemma afterFlags_same explicit provided others cfg0 cfg :
  afterFlags readFile readCSV registered explicit provided others cfg0 = Ok cfg -> same_except lateFields cfg0 cfg.
Proof.
  intros (a & b & d & e & g & Ha & Hb%serverMode_same & _ & -> & _ & [He _]%sourceIPs_ok & [Hg _]%commands_ok & _ & -> & _)%afterFlags_stages.
  pose proof (same_trans _ _ _ _ _ Ha (same_trans _ _ _ _ _ Hb (same_trans _ _ _ _ _ (same_assign (derived b) b)
    (same_trans _ _ _ _ _ He (same_trans _ _ _ _ _ Hg (same_trans _ _ _ _ _ (implied_same provided g)
      (same_assign (logOptions (implied provided g)) _))))))) as H.
  intros f Hf. apply H. intros Hin. apply Hf. exact Hin.
Qed.

Lemma assign_lookup l cfg f v : NoDup (map fst l) -> (f, v) ∈ l -> assign cfg l !! f = Some v.
Proof.
  unfold assign. revert cfg. induction l as [|[g w] l IH]; intros cfg Hn Hin; [by apply not_elem_of_nil in Hin|].
  cbn in Hn. apply NoDup_cons in Hn as [Hg Hn]. apply elem_of_cons in Hin as [[= -> ->] | Hin]; [|by apply IH].
  cbn [foldl fst snd]. fold (assign (<[g := w]> cfg) l). rewrite same_assign by done. apply lookup_insert_eq.
Qed.

Lemma level_empty : is_Some (levelKnown []).
Proof. by eexists. Qed.

Lemma numbers_valid b : checkAll (checkNumbers b) = Ok tt ->
  0 <= getI b "TotalCalls" /\ (getI b "TotalCalls" = 0 -> getB b "TotalCallsSetExplicitly" = true)
  /\ 1 <= getI b "MaxConcurrent" /\ 0 <= getI b "MaxSockets" /\ 1 <= getI b "Users" /\ 1 <= getI b "BaseCSeq"
  /\ 1 <= getI b "*rttDumpFrequency" /\ 0 <= getI b "InfIndexField" /\ 0 <= getI b "StatPrintPeriod" /\ -1 <= getI b "IPField".
Proof.
  intros Hn. split_and!.
  - passed Hn "total calls must be greater than or equal to zero". by apply Z.ltb_ge in Hp.
  - passed Hn "total calls must be greater than zero". intros H0. rewrite H0 in Hp. by apply negb_false_iff in Hp.
  - passed Hn "max concurrent calls must be greater than zero". apply Z.leb_gt in Hp. lia.
  - passed Hn "max_socket must be greater than or equal to zero". by apply Z.ltb_ge in Hp.
  - passed Hn "users must be greater than zero". apply Z.leb_gt in Hp. lia.
  - passed Hn "base_cseq must be greater than zero". apply Z.leb_gt in Hp. lia.
  - passed Hn "rtt_freq must be greater than zero". apply Z.leb_gt in Hp. lia.
  - passed Hn "infindex field must be greater than or equal to zero". by apply Z.ltb_ge in Hp.
  - passed Hn "stat_period must be greater than or equal to zero". by apply Z.ltb_ge in Hp.
  - passed Hn "ip_field must be greater than or equal to -1". by apply Z.ltb_ge in Hp.
Qed.

Lemma transport_valid d : checkAll (checkTransport d) = Ok tt ->
  isTransport d cliTransports = true /\ (0 <= getI d "IPField" -> getS d "InjectionFile" <> []).
Proof.
  intros Ht. split.
  - passed Ht "unsupported transport". by apply negb_false_iff in Hp.
  - passed Ht "inf must be specified when ip_field is set". intros H%Z.leb_le. rewrite H in Hp. by apply bool_decide_eq_false in Hp.
Qed.

Lemma capture_valid h : checkAll (checkCapture registered h) = Ok tt ->
  (0 < getI h "MaxSockets" -> isTransport h ["un"; "tn"; "ln"; "cln"]%string = true)
  /\ (0 < getI h "MaxReconnect" -> isTransport h ["t1"; "l1"; "sl"; "cl"]%string = true)
  /\ (getS h "HEPAddr" <> [] -> is_ok (splitHostPort (getS h "HEPAddr")) = true).
Proof.
  intros Hc. split_and!.
  - passed Hc "max_socket is only supported with un, tn, or ln transport". intros H%Z.ltb_lt. rewrite H in Hp. by apply negb_false_iff in Hp.
  - passed Hc "max_reconnect/reconnect_sleep/reconnect_close are only supported with t1 or l1 transport".
    intros H%Z.ltb_lt. rewrite H in Hp. by apply negb_false_iff in Hp.
  - passed Hc "invalid HEP collector address". intros H. rewrite bool_decide_eq_true_2 in Hp by done. by apply negb_false_iff in Hp.
Qed.

Lemma media_valid cfg : checkAll (checkMedia cfg) = Ok tt ->
  is_Some (levelKnown (getS cfg "LogLevel"))
  /\ (getB cfg "RTPSend" = true -> getS cfg "RTPAddr" <> [] /\ 1 <= getI cfg "RTPFreqMs" /\ 1 <= getI cfg "RTPChannels"
      /\ 0 <= getI cfg "RTPDurMs" /\ 1 <= getI cfg "RTPStreams")
  /\ (getB cfg "MediaScale" = true -> getB cfg "MediaSRTP" = false).
Proof.
  intros Hm. split; [|split; intros H; [split_and!|]].
  - passed Hm "log_level must be debug|info|warn|error". destruct (decide (getS cfg "LogLevel" = [])) as [-> |H]; [apply level_empty|].
    rewrite bool_decide_eq_true_2 in Hp by done. apply bool_decide_eq_false in Hp. destruct (levelKnown _); [by eexists|done].
  - passed Hm "-rtp_addr is required for standalone RTP sender". rewrite H in Hp. by apply bool_decide_eq_false in Hp.
  - passed Hm "rtp_freq must be greater than zero". rewrite H in Hp. apply Z.leb_gt in Hp. lia.
  - passed Hm "rtp_ch must be greater than zero". rewrite H in Hp. apply Z.leb_gt in Hp. lia.
  - passed Hm "rtp_dur must be greater than or equal to zero". rewrite H in Hp. by apply Z.ltb_ge in Hp.
  - passed Hm "rtp_streams must be at least 1". rewrite H in Hp. by apply Z.ltb_ge in Hp.
  - passed Hm "media_scale is incompatible with media_srtp". by rewrite H in Hp.
Qed.

Lemma derived_rtt b : getI (assign b (derived b)) "RTTDumpFrequency" = getI b "*rttDumpFrequency".
Proof.
  unfold getI at 1. rewrite (assign_lookup _ _ _ (VI (getI b "*rttDumpFrequency"))); [done|listed|]. unfold derived. do 10 right. left.
Qed.

Lemma afterFlags_valid explicit provided others cfg0 cfg :
  afterFlags readFile readCSV registered explicit provided others cfg0 = Ok cfg -> valid_config cfg.
Proof.
  intros (a & b & d & e & g & _ & _ & Hn%numbers_valid & Hd & Ht%transport_valid & [He Hui]%sourceIPs_ok & [Hg [Hsc Hcmd]]%commands_ok
    & Hc%capture_valid & Hcfg & Hm%media_valid)%afterFlags_stages.
  pose proof (derived_rtt b) as Hrtt. rewrite <- Hd in Hrtt.
  pose proof (same_assign (logOptions (implied provided g)) (implied provided g)) as Sh. rewrite <- Hcfg in Sh.
  pose proof (same_trans _ _ _ _ _ (implied_same provided g) Sh) as Sg.
  pose proof (same_trans _ _ _ _ _ Hg Sg) as Se. pose proof (same_trans _ _ _ _ _ He Se) as Sd.
  pose proof (same_assign (derived b) b) as Sb. rewrite <- Hd in Sb. pose proof (same_trans _ _ _ _ _ Sb Sd) as SB.
  destruct Hn as (N1 & N2 & N3 & N4 & N5 & N6 & N7 & N8 & N9 & N10), Ht as [T1 T2], Hc as (C1 & C2 & C3), Hm as (M1 & M2 & M3).
  clear Hcfg Hd. rewrite (getI_same _ _ _ "IPField" Sb) in T2 by listed.
  split; try done.
  - by rewrite (getI_same _ _ _ "TotalCalls" SB), (getB_same _ _ _ "TotalCallsSetExplicitly" SB) by listed.
  - by rewrite (getI_same _ _ _ "MaxConcurrent" SB), (getI_same _ _ _ "MaxSockets" SB), (getI_same _ _ _ "Users" SB),
      (getI_same _ _ _ "BaseCSeq" SB), (getI_same _ _ _ "RTTDumpFrequency" Sd), (getI_same _ _ _ "InfIndexField" SB),
      (getI_same _ _ _ "StatPrintPeriod" SB), Hrtt by listed.
  - by rewrite (isTransport_same _ _ _ _ Sd) by listed.
  - by rewrite (getS_same _ _ _ "ScenarioFile" Se), (getS_same _ _ _ "ScenarioName" Se) by listed.
  - by rewrite (getI_same _ _ _ "MaxSockets" Sh), (isTransport_same _ _ _ _ Sh) by listed.
  - by rewrite (getI_same _ _ _ "MaxReconnect" Sh), (isTransport_same _ _ _ _ Sh) by listed.
  - by rewrite (getI_same _ _ _ "IPField" SB), (getS_same _ _ _ "InjectionFile" Sd) by listed.
  - rewrite (getS_same _ _ _ "Transport" Sd), (getL_same _ _ _ "UISourceIPs" Se), (getI_same _ _ _ "IPField" Sd) by listed. done.
  - rewrite (getS_same _ _ _ "CommandName" Sg), (getM_same _ _ _ "CommandPeers" Sg) by listed. done.
  - by rewrite !(getS_same _ _ _ "HEPAddr" Sh) by listed.
Qed.

End After.

(** ** Which value an option gets *)

(** The last value given for a flag. *)
Definition lastSet (name : str) (sets : list (str * str)) : option str :=
  foldl (fun o p => if bool_decide (p.1 = name) then Some p.2 else o) None sets.

Definition holds_one (k : flag_kind) : bool := match k with KHeader | KPairs => false | _ => true end.

(** The value of a field once the flags are defined. *)
Definition defined (cfg : Config) (field : string) (d : flag_default) : option value :=
  match d with Keep => cfg !! field | Reset v => Some v | CopyOf g => Some (VI (getI cfg g)) end.

(** The table has no name twice, no field that is written and read under another
    name, and only the injection column has two flags. *)
Definition row_apart (r1 r2 : string * flag_kind * string * flag_default) : bool :=
  let '(n1, _, f1, _) := r1 in let '(n2, _, f2, d2) := r2 in
  (String.eqb n1 n2 || negb (String.eqb f1 f2) || String.eqb f1 "IPField")
  && match d2 with CopyOf g => negb (String.eqb f1 g) | _ => true end.

Lemma table_apart : forallb (fun r1 => forallb (row_apart r1) flagTable) flagTable = true.
Proof. vm_compute. reflexivity. Qed.

Lemma table_names : NoDup (map (fun r => r.1.1.1) flagTable).
Proof. apply (bool_decide_unpack _). vm_compute. exact I. Qed.

Lemma lit_inj (a b : string) : lit a = lit b -> a = b.
Proof.
  intros H. rewrite <- (String.string_of_list_byte_of_string a), <- (String.string_of_list_byte_of_string b).
  unfold lit in H. by rewrite H.
Qed.

Lemma rows_apart n1 k1 f1 d1 n2 k2 f2 d2 :
  (n1, k1, f1, d1) ∈ flagTable -> (n2, k2, f2, d2) ∈ flagTable -> f1 <> "IPField"%string -> f1 = f2 -> n1 = n2.
Proof.
  intros H1 H2 Hip ->. pose proof table_apart as Ht. rewrite forallb_forall in Ht.
  specialize (Ht (n1, k1, f2, d1) (proj1 (list_elem_of_In _ _) H1)). rewrite forallb_forall in Ht.
  specialize (Ht (n2, k2, f2, d2) (proj1 (list_elem_of_In _ _) H2)). cbn in Ht. apply andb_true_iff in Ht as [Ht _].
  rewrite String.eqb_refl in Ht. apply orb_true_iff in Ht as [[Ht|Ht]%orb_true_iff|Ht]; [by apply String.eqb_eq in Ht|done|].
  by apply String.eqb_eq in Ht.
Qed.

Lemma flagSet_row name b f : flagSet name = Some (b, f) ->
  exists n k field d, (n, k, field, d) ∈ flagTable /\ lit n = name /\ f = setValue k field.
Proof.
  unfold flagSet. destruct (find _ _) as [[[[n k] field] d]|] eqn:E; [|done]. intros [= _ <-].
  apply find_some in E as [Hin Hn]. apply bool_decide_eq_true in Hn. exists n, k, field, d. split; [by apply list_elem_of_In|done].
Qed.

Lemma NoDup_map_eq {A B} (g : A -> B) (l : list A) x y : NoDup (map g l) -> x ∈ l -> y ∈ l -> g x = g y -> x = y.
Proof.
  induction l as [|a l IH]; cbn; [by intros _ ?%elem_of_nil|]. intros [Ha Hn]%NoDup_cons Hx Hy E.
  apply elem_of_cons in Hx as [-> | Hx]; apply elem_of_cons in Hy as [-> | Hy]; [done| | |by apply IH].
  - destruct Ha. rewrite E. by apply list_elem_of_fmap_2.
  - destruct Ha. rewrite <- E. by apply list_elem_of_fmap_2.
Qed.

Lemma row_unique n k f d k' f' d' : (n, k, f, d) ∈ flagTable -> (n, k', f', d') ∈ flagTable -> k = k' /\ f = f' /\ d = d'.
Proof. intros H1 H2. pose proof (NoDup_map_eq _ _ _ _ table_names H1 H2 eq_refl) as [= -> -> ->]. done. Qed.

Lemma setValue_spec k field s cfg cfg' : setValue k field s cfg = Some cfg' ->
  exists v, cfg' = <[field := v]> cfg /\ (holds_one k = true -> scalar k s = Some v).
Proof.
  unfold setValue. intros H. destruct k;
    try (match type of H with option_map _ ?o = _ => destruct o as [w|] eqn:E end; [|done]); injection H as <-; by eexists.
Qed.

Lemma setValue_other k field s cfg cfg' g : setValue k field s cfg = Some cfg' -> g <> field -> cfg' !! g = cfg !! g.
Proof. intros (v & -> & _)%setValue_spec Hg. by apply lookup_insert_ne. Qed.

Lemma setValue_one k field s cfg cfg' : holds_one k = true -> setValue k field s cfg = Some cfg' -> cfg' !! field = scalar k s.
Proof. intros Hk (v & -> & ->)%setValue_spec; [|done]. apply lookup_insert_eq. Qed.

Lemma lastSet_from name sets o :
  foldl (fun o p => if bool_decide (p.1 = name) then Some p.2 else o) o sets
  = match lastSet name sets with Some v => Some v | None => o end.
Proof.
  unfold lastSet. revert o. induction sets as [|[m w] sets IH]; intros o; cbn [foldl fst snd]; [done|].
  rewrite IH. destruct (bool_decide (m = name)); [|done].
  rewrite (IH (Some w)). by destruct (foldl _ None sets).
Qed.

Lemma lastSet_cons name m w sets : lastSet name ((m, w) :: sets) =
  match lastSet name sets with Some v => Some v | None => if bool_decide (m = name) then Some w else None end.
Proof. unfold lastSet at 1. cbn [foldl fst snd]. apply lastSet_from. Qed.

(** The field of a flag after the assignments: the last value given, else what it was. *)
Lemma applySets_field n k field d sets cfg cfg' :
  (n, k, field, d) ∈ flagTable -> holds_one k = true -> field <> "IPField"%string ->
  applySets flagSet sets cfg = Some cfg' ->
  cfg' !! field = match lastSet (lit n) sets with Some v => scalar k v | None => cfg !! field end.
Proof.
  intros Hrow Hk Hip. revert cfg. induction sets as [|[m w] sets IH]; intros cfg; cbn [applySets]; [by intros [= <-]|].
  destruct (flagSet m) as [[b f]|] eqn:Ef; [|done]. destruct (f w cfg) as [c1|] eqn:Ew; [|done]. intros H.
  rewrite lastSet_cons, (IH c1 H). destruct (lastSet (lit n) sets) as [v|]; [done|].
  apply flagSet_row in Ef as (n2 & k2 & f2 & d2 & Hrow2 & <- & ->). case_bool_decide as E.
  - apply lit_inj in E as ->. destruct (row_unique _ _ _ _ _ _ _ Hrow Hrow2) as (-> & -> & _). by apply (setValue_one _ _ _ _ _ Hk Ew).
  - apply (setValue_other _ _ _ _ _ _ Ew). intros ->. apply E. f_equal. by apply (rows_apart _ _ _ _ _ _ _ _ Hrow2 Hrow).
Qed.

Lemma copied_apart n1 k1 f1 d1 n2 k2 f2 g : (n1, k1, f1, d1) ∈ flagTable -> (n2, k2, f2, CopyOf g) ∈ flagTable -> f1 <> g.
Proof.
  intros H1 H2 ->. pose proof table_apart as Ht. rewrite forallb_forall in Ht.
  specialize (Ht (n1, k1, g, d1) (proj1 (list_elem_of_In _ _) H1)). rewrite forallb_forall in Ht.
  specialize (Ht (n2, k2, f2, CopyOf g) (proj1 (list_elem_of_In _ _) H2)). cbn in Ht. apply andb_true_iff in Ht as [_ Ht].
  by rewrite String.eqb_refl in Ht.
Qed.

Lemma define_other l cfg f : Forall (fun r => r.1.2 <> f) l -> foldl defineFlag cfg l !! f = cfg !! f.
Proof.
  revert cfg. induction l as [|[[[n k] g] d] l IH]; intros cfg; cbn [foldl]; [done|].
  intros [Hg Hl]%Forall_cons. cbn in Hg. rewrite IH by done. cbn [defineFlag]. destruct d; [done|by apply lookup_insert_ne..].
Qed.

Lemma within_split {A} (l l1 l2 : list A) x : l = l1 ++ x :: l2 -> forall y, y ∈ l1 ++ l2 -> y ∈ l.
Proof. intros -> y [H|H]%elem_of_app; apply elem_of_app; [by left|]. right. by right. Qed.

Lemma defineFlags_field cfg n k field d : (n, k, field, d) ∈ flagTable -> field <> "IPField"%string ->
  defineFlags cfg !! field = defined cfg field d.
Proof.
  intros Hrow Hip. destruct (list_elem_of_split _ _ Hrow) as (l1 & l2 & E).
  assert (Forall (fun r => r.1.2 <> field) (l1 ++ l2)) as Hother.
  { apply Forall_forall. intros [[[n2 k2] f2] d2] Hin Hf. cbn in Hf. subst f2.
    pose proof (within_split _ _ _ _ E _ Hin) as Hin2.
    pose proof (rows_apart _ _ _ _ _ _ _ _ Hin2 Hrow Hip eq_refl) as ->.
    pose proof table_names as Hn. rewrite E, map_app in Hn. cbn in Hn.
    apply NoDup_app in Hn as (_ & Hn1 & [Hn2 _]%NoDup_cons). apply elem_of_app in Hin as [Hin|Hin].
    - apply (Hn1 n); [|left]. by apply (list_elem_of_fmap_2 (fun r => r.1.1.1) l1 (n, k2, field, d2)).
    - apply Hn2. by apply (list_elem_of_fmap_2 (fun r => r.1.1.1) l2 (n, k2, field, d2)). }
  apply Forall_app in Hother as [Ho1 Ho2]. unfold defineFlags. rewrite E, foldl_app. cbn [foldl]. rewrite define_other by done.
  cbn [defineFlag]. destruct d as [|v|g]; cbn [defined].
  - by apply define_other.
  - apply lookup_insert_eq.
  - rewrite lookup_insert_eq. do 2 f_equal. unfold getI. rewrite define_other; [done|].
    apply Forall_forall. intros [[[n2 k2] f2] d2] Hin. cbn. apply (copied_apart n2 k2 f2 d2 n k field g); [|done].
    apply (within_split _ _ _ _ E). apply elem_of_app. by left.
Qed.

(** ** The whole of [Parse] *)

Definition preFields : list string := ["ServerMode"; "InfIndexFile"; "InfIndexField"; "Keys"]%string.

Lemma lift_ok {A} (r : parsed A) a : lift r = Ok a <-> r = Ok a.
Proof. destruct r; cbn; naive_solver. Qed.

Section Whole.

Context (readFile : str -> option str) (readCSV : byte -> str -> option (list (list str))) (readJSON : str -> option json)
  (registered : bool).

(** What a successful [Parse] went through: the arguments left for the flags, the
    configuration of the profile, the flags, and the rest. *)
Definition parse_trace (args : list str) (cfg : Config) (joined : list (str * Config))
    (base : Config) (extra cmdline : list str) (pre : Config) (sets : list (str * str)) : Prop :=
  exists rest meta file field n1 keys others cfg1,
    parseRunProfileMeta args = Ok (rest, meta) /\ extractInfIndexArgs rest = Ok (n1, file, field) /\ extractKeyArgs n1 = Ok (cmdline, keys)
    /\ baseConfig readJSON meta = Ok (base, joined, extra) /\ same_except preFields base pre
    /\ parseFlags flagSet (extra ++ cmdline) (defineFlags pre) = Ok (cfg1, sets, others)
    /\ afterFlags readFile readCSV registered (getB cfg1 "TotalCallsSetExplicitly") (map fst sets) others cfg1 = Ok cfg.

Lemma Parse_trace args cfg joined : Parse readFile readCSV readJSON registered args = Ok (cfg, joined) ->
  exists base extra cmdline pre sets, parse_trace args cfg joined base extra cmdline pre sets.
Proof.
  unfold Parse. intros ([rest meta] & H1%lift_ok & (_ & _ & (_ & _ & (_ & _ & ([[n1 file] field] & H2%lift_ok
    & ([cmdline keys] & H3%lift_ok & ([[base joined'] extra] & H4%lift_ok & H)%rbind_ok)%rbind_ok)%rbind_ok)%rbind_ok)%rbind_ok)%rbind_ok)%rbind_ok.
  cbv zeta in H. revert H. match goal with |- context [defineFlags ?c] => set (pre := c) end.
  assert (same_except preFields base pre) as Hpre by (unfold pre; same). clearbody pre.
  intros ([[cfg1 sets] others] & H5 & (cfg2 & H6%lift_ok & H)%rbind_ok)%rbind_ok. injection H as <- <-.
  exists base, extra, cmdline, pre, sets, rest, meta, file, field, n1, keys, others, cfg1. split_and!; try done.
  destruct (parseFlags _ _ _) as [[[c s] o]|]; [|done]. by injection H5 as <- <- <-.
Qed.

(** No flag writes, or copies, a field set just before the flags. *)
Lemma table_pre : forallb (fun '(_, _, f, d) => negb (bool_decide (f ∈ preFields))
  && match d with CopyOf g => negb (bool_decide (g ∈ preFields)) | _ => true end) flagTable = true.
Proof. vm_compute. reflexivity. Qed.

Lemma defined_pre base pre n k field d : same_except preFields base pre -> (n, k, field, d) ∈ flagTable ->
  defined pre field d = defined base field d.
Proof.
  intros Hs Hrow. pose proof table_pre as Ht. rewrite forallb_forall in Ht.
  specialize (Ht _ (proj1 (list_elem_of_In _ _) Hrow)). apply andb_true_iff in Ht as [Hf%negb_true_iff%bool_decide_eq_false Hd].
  destruct d as [|v|g]; cbn [defined]; [by apply Hs|done|]. apply negb_true_iff, bool_decide_eq_false in Hd.
  by rewrite (getI_same _ _ _ g Hs).
Qed.

Lemma traced_field args cfg joined base extra cmdline pre sets n k field d :
  parse_trace args cfg joined base extra cmdline pre sets ->
  (n, k, field, d) ∈ flagTable -> holds_one k = true -> field ∉ "IPField"%string :: lateFields ->
  cfg !! field = match lastSet (lit n) sets with Some v => scalar k v | None => defined base field d end.
Proof.
  intros (rest & meta & file & idx & n1 & keys & others & cfg1 & _ & _ & _ & _ & Hpre & Hp%parseFlags_sets & Ha%afterFlags_same) Hrow Hk Hf.
  apply not_elem_of_cons in Hf as [Hip Hlate]. rewrite (Ha field Hlate).
  rewrite (applySets_field n k field d sets _ _ Hrow Hk Hip Hp). destruct (lastSet (lit n) sets); [done|].
  rewrite (defineFlags_field pre n k field d Hrow Hip). by apply (defined_pre base pre n k).
Qed.

Lemma traced_sets args cfg joined base extra cmdline pre sets cE sE :
  parse_trace args cfg joined base extra cmdline pre sets ->
  parseFlags flagSet extra (defineFlags pre) = Ok (cE, sE, []) -> last extra <> Some (lit "--") ->
  exists cA sA others, parseFlags flagSet cmdline cE = Ok (cA, sA, others) /\ sets = sE ++ sA.
Proof.
  intros (rest & meta & file & idx & n1 & keys & others & cfg1 & _ & _ & _ & _ & _ & Hp & _) HE Hlast.
  rewrite (parseFlags_app _ _ _ _ _ _ HE Hlast) in Hp. apply rbind_ok in Hp as ([[cA sA] oA] & HA & H). injection H as _ <- _.
  by exists cA, sA, oA.
Qed.

End Whole.

Lemma lastSet_app name s1 s2 : lastSet name (s1 ++ s2) = match lastSet name s2 with Some v => Some v | None => lastSet name s1 end.
Proof. unfold lastSet at 1. rewrite foldl_app. apply lastSet_from. Qed.

(** * Properties *)

(** Every configuration that [Parse] accepts is usable, whatever the
    arguments, the profile and the files: the limits are in range (an
    unlimited run was asked for explicitly), the transport is a known one and
    fits the socket and reconnect limits, there is a scenario, [ui] mode has
    source addresses and those read from a file are IP addresses, an instance
    with a command name has an entry with a valid address in its peer map, and
    the HEP, log, RTP and media options are consistent. *)
Theorem parsed_config_valid readFile readCSV readJSON registered args cfg joined :
  Parse readFile readCSV readJSON registered args = Ok (cfg, joined) -> valid_config cfg.
Proof.
  intros (base & extra & cmdline & pre & sets & rest & meta & file & idx & n1 & keys & others & cfg1 & _ & _ & _ & _ & _ & _ & H)%Parse_trace.
  by apply afterFlags_valid in H.
Qed.

(** Files for concrete runs: none, and a profile under every name. *)
Definition no_file (p : str) : option str := None.
Definition no_csv (comma : byte) (data : str) : option (list (list str)) := None.
Definition demo_profile (p : str) : option json :=
  Some (obj [("aliases", obj [("lab", obj [("max_concurrent", JNum (lit "7")); ("users", JNum (lit "3")); ("hep_capture_id", JNum (lit "12"));
    ("record_wav_dir", JStr (lit "/tmp/wav")); ("stat_period", JStr (lit "5s")); ("legacy_api_v1", JBool false);
    ("extra_args", JArr [JStr (lit "-l"); JStr (lit "9"); JStr (lit "-users"); JStr (lit "4")])])])])%string.

Definition demo_args : list str :=
  [lit "-config"; lit "p.json"; lit "-run-alias"; lit "lab"; lit "-l"; lit "0x10"; lit "192.0.2.1:5060"].

Definition parsed_cfg (r : result parse_error (Config * list (str * Config))) : Config :=
  match r with Ok (cfg, _) => cfg | Err _ => ∅ end.
Definition parsed_joined (r : result parse_error (Config * list (str * Config))) : list (str * Config) :=
  match r with Ok (_, joined) => joined | Err _ => [] end.

Lemma parsed_ok r : is_ok r = true -> r = Ok (parsed_cfg r, parsed_joined r).
Proof. by destruct r as [[cfg joined]|e]. Qed.

Definition demo_parse : result parse_error (Config * list (str * Config)) := Parse no_file no_csv demo_profile false demo_args.
Definition demo_cfg : Config := parsed_cfg demo_parse.
Definition demo_joined : list (str * Config) := parsed_joined demo_parse.

Lemma demo_parses : Parse no_file no_csv demo_profile false demo_args = Ok (demo_cfg, demo_joined).
Proof. apply (parsed_ok demo_parse). vm_compute. reflexivity. Qed.

Lemma parsed_config_valid_witness :
  Parse no_file no_csv demo_profile false demo_args = Ok (demo_cfg, demo_joined) /\ isTransport demo_cfg cliTransports = true.
Proof.
  split; [exact demo_parses|]. exact (vc_transport _ (parsed_config_valid no_file no_csv demo_profile false demo_args demo_cfg demo_joined demo_parses)).
Defined.



(** ** Where options get lost *)

(** The keys of a profile whose flag is defined with a constant: defining the flag
    overwrites what the profile said. *)
Definition lostKeys : list string :=
  flat_map (fun '(key, _, field, _) =>
    if existsb (fun '(_, _, f, d) => String.eqb f field && match d with Reset _ => true | _ => false end) flagTable then [key] else [])
    runSpecFields.

(** The value of a profile for these keys never reaches the run: of the sample
    profile the recording directory, the period of the status line and the
    choice against the old API are gone. *)
Theorem profile_fields_lost :
  lostKeys = ["record_wav_dir"; "record_wav_duplex"; "call_records_jsonl"; "stat_period"; "health_max_rtcp_fraction_lost";
              "health_max_rtcp_jitter_ts"; "health_min_rtp_packets_recv"; "health_min_rtp_packets_recv_per_call"; "legacy_api_v1"]%string
  /\ Parse no_file no_csv demo_profile false demo_args = Ok (demo_cfg, demo_joined)
  /\ getS demo_cfg "RecordWAVDir" = [] /\ getI demo_cfg "StatPrintPeriod" = 0
  /\ getB demo_cfg "LegacyAPIV1" = true /\ getB demo_cfg "LegacyAPIV1Set" = true.
Proof. split; [vm_compute; reflexivity|]. split; [exact demo_parses|]. split_and!; vm_compute; reflexivity. Qed.

(** The rate may be no number: the comparison with zero does not refuse it. *)
Theorem nan_rate_accepted :
  match Parse no_file no_csv demo_profile false [lit "-r"; lit "nan"; lit "192.0.2.1:5060"] with
  | Ok (cfg, _) => getF cfg "Rate" = S754_nan
  | Err _ => False
  end.
Proof. vm_compute. reflexivity. Qed.

(** The WebSocket transports of the engine cannot be chosen. *)
Theorem websocket_refused :
  Forall (fun t => Parse no_file no_csv demo_profile false [lit "-t"; lit t; lit "192.0.2.1:5060"] = Err (ParseErr "unsupported transport"))
    ["w1"; "wn"; "ws1"; "wsn"]%string.
Proof. repeat constructor. Qed.
