(* ===== verification/Launch.v ===== *)
(** * From the command line to the engine ([internal/launcher/prepare.go])

    [Prepare] loads the scenario, resolves the transport and the listeners and
    fills in the configuration of the engine.  Loading a scenario (a file or a
    built-in text, through the XML decoder) is a parameter.  The last theorem
    joins the command line of [CliParse], [Prepare], and the modes of
    [ClientRun] and [Servers]. *)

From stdpp Require Import base list gmap strings.
From Stdlib Require Import ZArith Lia Strings.Byte.
From S2P Require Import Prelude GoStrings GoFloat NetAddr SipMessage Scenario EngineText Semaphore RateControl Recv Dispatch Servers ClientRun.
From S2P Require Import GoFlag SafePath CliConfig RunProfile CliParse.

Definition BuiltinInviteMediaScale : str := lit "invite_media_scale".

Definition normalized (cfg : Config) : str := ToLower (TrimSpace (getS cfg "Transport")).

Definition mode_is (m : Mode) (sc : Scenario) : bool :=
  match m, sc_Mode sc with ModeServer, ModeServer | ModeClient, ModeClient => true | _, _ => false end.

Definition setTransport (cfg : Config) (t : str) : Config := <["Transport"%string := VS t]> cfg.

(** The aliases: name, mode the scenario must have, transport. *)
Definition transportAliases : list (str * Mode * str) :=
  [(lit "s1", ModeServer, lit "u1"); (lit "sn", ModeServer, lit "un"); (lit "sl", ModeServer, lit "l1");
   (lit "cl", ModeClient, lit "l1"); (lit "cln", ModeClient, lit "ln")].

Definition NormalizeTransport (cfg : Config) (sc : Scenario) : parsed Config :=
  let t := normalized cfg in
  let cfg := setTransport cfg t in
  match find (fun '(alias, _, _) => bool_decide (alias = t)) transportAliases with
  | Some (_, mode, t) => if mode_is mode sc then Ok (setTransport cfg t) else Err "transport requires a scenario of the other mode"%string
  | None =>
    if bool_decide (t = lit "ui") then
      if bool_decide (getS cfg "InjectionFile" = []) then Err "transport ui requires -inf"%string
      else if bool_decide (getL cfg "UISourceIPs" = []) then Err "transport ui requires at least one bind/source IP"%string
      else Ok cfg
    else Ok cfg
  end.

Definition listenerTransports : list str :=
  [lit "u1"; lit "un"; lit "t1"; lit "tn"; lit "l1"; lit "ln"; lit "w1"; lit "wn"; lit "ws1"; lit "wsn"].

(** One element of the listeners. *)
Definition listenerForEngine (cfg : Config) (ln : ServerListener) : parsed ServerListener :=
  let t := ToLower (TrimSpace (ln_Transport ln)) in
  let t := if bool_decide (t = []) then normalized cfg
           else if bool_decide (t = lit "s1") then lit "u1"
           else if bool_decide (t = lit "sn") then lit "un"
           else if bool_decide (t = lit "sl") then lit "l1" else t in
  let? _ := checkAll
    [bad (bool_decide (t ∉ listenerTransports)) "listener transport is not supported";
     bad (bool_decide (t ∈ [lit "l1"; lit "ln"; lit "ws1"; lit "wsn"])
          && (bool_decide (TrimSpace (getS cfg "TLSCertFile") = []) || bool_decide (TrimSpace (getS cfg "TLSKeyFile") = [])))
       "listener transport requires tls_cert and tls_key"] in
  let ip := TrimSpace (ln_LocalIP ln) in
  let ip := if bool_decide (ip = []) then TrimSpace (getS cfg "LocalIP") else ip in
  let port := if ln_LocalPort ln =? 0 then getI cfg "LocalPort" else ln_LocalPort ln in
  let? _ := checkAll [bad (bool_decide (ip = [])) "listener local_ip is empty"; bad (port <=? 0) "listener local_port must be > 0"] in
  Ok (mkServerListener t ip port).

Fixpoint listenersForEngine (cfg : Config) (lns : list ServerListener) : parsed (list ServerListener) :=
  match lns with
  | [] => Ok []
  | ln :: lns =>
    let? l := listenerForEngine cfg ln in
    let? ls := listenersForEngine cfg lns in
    Ok (l :: ls)
  end.

Definition serverListenersForEngine (cfg : Config) : parsed (list ServerListener * Config) :=
  let? out := listenersForEngine cfg (getLn cfg "ServerListeners") in
  Ok (out, match out with
           | [] => cfg
           | first :: _ =>
             <["ServerListeners"%string := VLn out]> (<["LocalPort"%string := VI (ln_LocalPort first)]>
               (<["LocalIP"%string := VS (ln_LocalIP first)]> (setTransport cfg (ln_Transport first))))
           end).

(** [Validate3PCCRole]: a slave waits before it sends. *)
Fixpoint recvBeforeSend (seen : bool) (cmds : list Command) : bool :=
  match cmds with
  | [] => true
  | c :: cmds =>
    match c_Type c with
    | CommandRecvCmd => recvBeforeSend true cmds
    | CommandSendCmd => seen && recvBeforeSend seen cmds
    | _ => recvBeforeSend seen cmds
    end
  end.

Definition Validate3PCCRole (cfg : Config) (sc : Scenario) : bool :=
  bool_decide (getS cfg "CommandRole" <> lit "slave") || recvBeforeSend false (sc_InitCommands sc ++ sc_Commands sc).

Definition applyBuiltinScenarioFlags (cfg : Config) (sc : Scenario) : Config :=
  if EqualFold (sc_Name sc) BuiltinInviteMediaScale || EqualFold (getS cfg "ScenarioName") BuiltinInviteMediaScale then
    let cfg := <["MediaScale"%string := VB true]> cfg in
    let t := getS cfg "Transport" in
    if bool_decide (t = []) || EqualFold t (lit "u1") then setTransport cfg (lit "u1") else cfg
  else cfg.

Definition roleFromScenario (sc : Scenario) : str :=
  match sc_Mode sc with ModeServer => lit "server" | ModeClient => lit "client" end.

(** The fields of the engine's configuration that are copied. *)
Definition engineFields : list string :=
  ["Transport"; "LocalIP"; "LocalPort"; "RemoteHost"; "RemotePort"; "Service"; "AuthUsername"; "AuthPassword"; "Rate"; "RateScale";
   "RateIncrease"; "RateIncreaseStep"; "RateMax"; "MaxReconnect"; "ReconnectSleep"; "ReconnectClose"; "BaseCSeq"; "MaxConcurrent";
   "MaxSockets"; "Users"; "DefaultPause"; "DefaultRecvTO"; "RecvBYEFloorTO"; "TraceMessages"; "TraceShortMsg"; "TraceCounts";
   "MessageFile"; "TraceErrors"; "ErrorFile"; "TraceErrorCodes"; "TraceLogs"; "LogFile"; "TraceStats"; "TraceRTT"; "TraceScreen";
   "StatsDumpPeriod"; "RTTDumpFrequency"; "ScreenFile"; "HEPAddr"; "HEPCaptureID"; "HEPPassword"; "HEPRawRTCP"; "HEPHomerLakeRTCP";
   "SendMediaReport"; "TLSCertFile"; "TLSKeyFile"; "TLSCAFile"; "TLSSkipVerify"; "WSPath"; "WebRTCICEServers"; "WebRTCICEUsername";
   "WebRTCICECredential"; "WebRTCICEAuthSecret"; "WebRTCICEAuthTTLSec"; "WebRTCPrefersPCMA"; "WebRTCMedia"; "CommandName"; "CommandPeers";
   "UISourceIPs"; "InjectionFile"; "Keys"; "PCAPLinkLayer"; "SipFrom"; "SipPAI"; "SipProvider"; "SipExtraHeaders"; "RecordWAVDir";
   "RecordWAVDuplex"; "CallRecordsJSONL"; "MediaRejectSRTP"; "MediaSRTP"; "MediaScale"; "MediaIOUring"; "TURNServer"; "TURNUser"; "TURNPass";
   "TURNRealm"]%string.

Record Prepared := mkPrepared {
  pr_CLIConfig : Config;
  pr_Scenario : Scenario;
  pr_fields : Config;                       (* the copied fields of the engine's configuration *)
  pr_ServerListeners : list ServerListener;
  pr_limits : limits;                       (* its call limits *)
  pr_Role : str
}.

Definition engineLimits (cfg : Config) (sc : Scenario) : limits :=
  let total := getI cfg "TotalCalls" in
  let explicit := getB cfg "TotalCallsSetExplicitly" in
  mkLimits (getI cfg "MaxConcurrent") (getI cfg "MaxSockets") (explicit && (total =? 0))
    (if mode_is ModeServer sc && (total =? 1) && negb explicit then 10000000 else total).

Section Prepare.

Context (parseFile loadNamed : str -> option Scenario).

Definition loadScenario (cfg : Config) : option Scenario :=
  if bool_decide (getS cfg "ScenarioFile" <> []) then parseFile (getS cfg "ScenarioFile") else loadNamed (getS cfg "ScenarioName").

Definition Prepare (cfg : Config) : parsed Prepared :=
  let? sc := need (loadScenario cfg) "scenario" in
  let? cfg := NormalizeTransport cfg sc in
  let? (lns, cfg) := serverListenersForEngine cfg in
  let? _ := checkAll
    [bad (bool_decide (lns <> []) && negb (mode_is ModeServer sc)) "listeners in config are only supported for server scenarios";
     bad (bool_decide (getS cfg "InjectionFile" <> []) && mode_is ModeServer sc && bool_decide (getS cfg "Transport" <> lit "ui"))
       "injection (-inf / -ip_field) is only supported for server transport ui";
     bad (negb (Validate3PCCRole cfg sc)) "slave 3PCC scenario must receive via recvCmd before the first sendCmd"] in
  let cfg := applyBuiltinScenarioFlags cfg sc in
  Ok (mkPrepared cfg sc (filter (fun p => p.1 ∈ engineFields) cfg) lns (engineLimits cfg sc) (roleFromScenario sc)).

End Prepare.

(** * Facts *)

Definition engineTransports : list str := [lit "u1"; lit "un"; lit "ui"; lit "t1"; lit "tn"; lit "l1"; lit "ln"].

Lemma cli_transport cfg : isTransport cfg cliTransports = true -> normalized cfg = getS cfg "Transport".
Proof.
  intros H. unfold isTransport in H. apply bool_decide_eq_true in H. unfold normalized. revert H. generalize (getS cfg "Transport").
  intros t. revert t. apply (proj1 (Forall_forall (fun t => ToLower (TrimSpace t) = t) (map lit cliTransports))).
  cbn [map cliTransports]. repeat (apply Forall_cons; split; [vm_compute; reflexivity|]). by apply Forall_nil.
Qed.

Lemma NormalizeTransport_ok cfg sc cfg' : isTransport cfg cliTransports = true -> NormalizeTransport cfg sc = Ok cfg' ->
  same_except ["Transport"%string] cfg cfg' /\ getS cfg' "Transport" ∈ engineTransports.
Proof.
  intros Ht. unfold NormalizeTransport. cbv zeta. rewrite (cli_transport cfg Ht). unfold isTransport in Ht. apply bool_decide_eq_true in Ht.
  assert (forall t', getS (setTransport cfg t') "Transport" = t') as Hget by (intros t'; unfold getS, setTransport; by rewrite lookup_insert_eq).
  assert (forall t t', getS (setTransport (setTransport cfg t) t') "Transport" = t') as Hget2
    by (intros t t'; unfold getS, setTransport; by rewrite lookup_insert_eq).
  assert (forall t, same_except ["Transport"%string] cfg (setTransport cfg t)) as Hs by (intros t; apply same_insert).
  assert (forall t t', same_except ["Transport"%string] cfg (setTransport (setTransport cfg t) t')) as Hs2 by (intros t t'; unfold setTransport; same).
  destruct (find _ transportAliases) as [[[alias mode] t]|] eqn:Ef.
  - destruct (mode_is mode sc); [|done]. intros <-%Ok_inj. split; [apply Hs2|]. rewrite Hget2. apply find_some in Ef as [Hin _].
    clear -Hin. apply list_elem_of_In in Hin. assert (Forall (fun r : str * Mode * str => r.2 ∈ engineTransports) transportAliases) as H
      by (repeat constructor; listed). by apply (proj1 (Forall_forall _ _) H) in Hin.
  - intros H. assert (cfg' = setTransport cfg (getS cfg "Transport")) as ->.
    { destruct (bool_decide _); [|by apply Ok_inj in H as <-]. destruct (bool_decide _); [done|]. destruct (bool_decide _); [done|].
      by apply Ok_inj in H as <-. }
    split; [apply Hs|]. rewrite Hget. clear -Ht Ef. revert Ht Ef. generalize (getS cfg "Transport"). intros t. revert t.
    apply (proj1 (Forall_forall (fun t => find _ transportAliases = None -> t ∈ engineTransports) (map lit cliTransports))).
    cbn [map cliTransports]. repeat (apply Forall_cons; split; [intros H; first [listed | vm_compute in H; discriminate]|]). by apply Forall_nil.
Qed.

Definition listener_ok (l : ServerListener) : Prop :=
  ln_Transport l ∈ listenerTransports /\ ln_LocalIP l <> [] /\ 0 < ln_LocalPort l.

Lemma listenerForEngine_ok cfg ln l : listenerForEngine cfg ln = Ok l -> listener_ok l.
Proof.
  unfold listenerForEngine. cbv zeta. intros ([] & H1 & ([] & H2 & <-%Ok_inj)%rbind_ok)%rbind_ok. unfold listener_ok. cbn [ln_Transport ln_LocalIP ln_LocalPort].
  split; [|split].
  - passed H1 "listener transport is not supported". apply bool_decide_eq_false in Hp. by apply dec_stable.
  - passed H2 "listener local_ip is empty". by apply bool_decide_eq_false in Hp.
  - passed H2 "listener local_port must be > 0". by apply Z.leb_gt in Hp.
Qed.

Lemma listenersForEngine_ok cfg lns out : listenersForEngine cfg lns = Ok out -> Forall listener_ok out.
Proof.
  revert out. induction lns as [|ln lns IH]; intros out; cbn; [intros <-%Ok_inj; constructor|].
  intros (l & Hl%listenerForEngine_ok & (ls & Hls & <-%Ok_inj)%rbind_ok)%rbind_ok. constructor; [done|by apply IH].
Qed.

Lemma serverListeners_ok cfg out cfg' : serverListenersForEngine cfg = Ok (out, cfg') ->
  Forall listener_ok out /\ same_except ["ServerListeners"; "LocalPort"; "LocalIP"; "Transport"]%string cfg cfg'
  /\ getS cfg' "Transport" = match out with [] => getS cfg "Transport" | first :: _ => ln_Transport first end.
Proof.
  unfold serverListenersForEngine. intros (o & Ho & H)%rbind_ok. injection H as <- <-. split; [by apply (listenersForEngine_ok _ _ _ Ho)|].
  destruct o as [|first o]; [split; [same|done]|]. unfold setTransport. split; [same|].
  unfold getS. do 3 rewrite lookup_insert_ne by done. by rewrite lookup_insert_eq.
Qed.

Lemma builtin_ok cfg sc : same_except ["MediaScale"; "Transport"]%string cfg (applyBuiltinScenarioFlags cfg sc)
  /\ (getS (applyBuiltinScenarioFlags cfg sc) "Transport" = getS cfg "Transport"
      \/ getS (applyBuiltinScenarioFlags cfg sc) "Transport" = lit "u1").
Proof.
  unfold applyBuiltinScenarioFlags. destruct (_ || _); [|split; [same|by left]]. cbv zeta. unfold setTransport. split; [same|].
  destruct (_ || _); [right; unfold getS; by rewrite lookup_insert_eq|left]. unfold getS. by rewrite lookup_insert_ne by done.
Qed.

Lemma client_accepts sc host port t : t ∈ engineTransports -> host <> [] -> port <> 0 -> is_ok (runClient sc host port t) = true.
Proof.
  intros Ht Hh Hp. unfold runClient. destruct (negb _); [done|]. rewrite bool_decide_eq_false_2 by done.
  rewrite (proj2 (Z.eqb_neq port 0) Hp). cbn [orb]. revert t Ht.
  apply (proj1 (Forall_forall _ _)). repeat (apply Forall_cons; split; [vm_compute; reflexivity|]). by apply Forall_nil.
Qed.

Lemma server_accepts t : t ∈ engineTransports ++ listenerTransports -> is_Some (runServer t).
Proof.
  revert t. apply (proj1 (Forall_forall _ _)). cbn [app engineTransports listenerTransports].
  repeat (apply Forall_cons; split; [vm_compute; eauto|]). by apply Forall_nil.
Qed.

Lemma listener_accepts t : t ∈ listenerTransports -> is_Some (runOneServerListener t).
Proof.
  revert t. apply (proj1 (Forall_forall _ _)). cbn [listenerTransports].
  repeat (apply Forall_cons; split; [vm_compute; eauto|]). by apply Forall_nil.
Qed.

(** What [Prepare] makes of a valid configuration. *)
Lemma prepared_stages parseFile loadNamed cfg p : valid_config cfg -> Prepare parseFile loadNamed cfg = Ok p ->
  loadScenario parseFile loadNamed cfg = Some (pr_Scenario p)
  /\ same_except ["Transport"; "ServerListeners"; "LocalPort"; "LocalIP"; "MediaScale"]%string cfg (pr_CLIConfig p)
  /\ Forall listener_ok (pr_ServerListeners p) /\ (pr_ServerListeners p <> [] -> mode_is ModeServer (pr_Scenario p) = true)
  /\ (getS (pr_CLIConfig p) "Transport" ∈ engineTransports
      \/ pr_ServerListeners p <> [] /\ getS (pr_CLIConfig p) "Transport" ∈ listenerTransports)
  /\ pr_limits p = engineLimits (pr_CLIConfig p) (pr_Scenario p)
  /\ pr_fields p = filter (fun q => q.1 ∈ engineFields) (pr_CLIConfig p)
  /\ Validate3PCCRole cfg (pr_Scenario p) = true.
Proof.
  intros Hv. unfold Prepare. intros (sc & Hsc%need_ok & (c1 & H1 & ([lns c2] & H2 & ([] & Hc & <-%Ok_inj)%rbind_ok)%rbind_ok)%rbind_ok)%rbind_ok.
  cbn [pr_Scenario pr_CLIConfig pr_ServerListeners pr_limits pr_fields].
  apply NormalizeTransport_ok in H1 as [S1 T1]; [|by destruct Hv]. apply serverListeners_ok in H2 as (L2 & S2 & T2).
  destruct (builtin_ok c2 sc) as [S3 T3]. split_and!; try done.
  - apply (same_weaken (["Transport"]%string ++ ["ServerListeners"; "LocalPort"; "LocalIP"; "Transport"]%string ++ ["MediaScale"; "Transport"]%string)).
    + apply (same_trans _ _ _ _ _ S1 (same_trans _ _ _ _ _ S2 S3)).
    + intros x Hx. cbn [app] in Hx. repeat (apply elem_of_cons in Hx as [-> | Hx]; [listed|]). by apply elem_of_nil in Hx.
  - passed Hc "listeners in config are only supported for server scenarios". intros Hl. rewrite bool_decide_eq_true_2 in Hp by done.
    by apply negb_false_iff in Hp.
  - destruct T3 as [-> | ->]; [|left; listed]. rewrite T2. destruct lns as [|first lns]; [by left|]. right. split; [done|].
    apply Forall_cons in L2 as [[L2 _] _]. done.
  - passed Hc "slave 3PCC scenario must receive via recvCmd before the first sendCmd". apply negb_false_iff in Hp. revert Hp.
    unfold Validate3PCCRole. by rewrite (getS_same _ _ _ "CommandRole" S2), (getS_same _ _ _ "CommandRole" S1) by listed.
Qed.

(** * Properties *)

(** C28: Arguments that are accepted describe a run the engine can carry out.  After
    [Parse] and [Prepare] the transport is one the engine has a mode for (for a
    client as soon as there is a remote address), every listener has a
    transport of its own mode, an address and a port, at least one call may run
    and one be started, and a slave of a 3pcc pair waits before it sends. *)
Theorem accepted_arguments_run readFile readCSV readJSON registered parseFile loadNamed args cfg joined p :
  CliParse.Parse readFile readCSV readJSON registered args = Ok (cfg, joined) -> Prepare parseFile loadNamed cfg = Ok p ->
  let t := getS (pr_CLIConfig p) "Transport" in
  (sc_Mode (pr_Scenario p) = ModeClient -> getS (pr_CLIConfig p) "RemoteHost" <> [] -> getI (pr_CLIConfig p) "RemotePort" <> 0 ->
     is_ok (runClient (pr_Scenario p) (getS (pr_CLIConfig p) "RemoteHost") (getI (pr_CLIConfig p) "RemotePort") t) = true)
  /\ is_Some (runServer t)
  /\ Forall (fun l => is_Some (runOneServerListener (ln_Transport l)) /\ ln_LocalIP l <> [] /\ 0 < ln_LocalPort l) (pr_ServerListeners p)
  /\ (forall perSocket, 1 <= callConcurrencyLimit (pr_limits p) perSocket)
  /\ clientShouldSpawnAnother (pr_limits p) 1 = true /\ serverRejectNew (pr_limits p) 0 = false
  /\ (getS cfg "CommandRole" = lit "slave" -> recvBeforeSend false (sc_InitCommands (pr_Scenario p) ++ sc_Commands (pr_Scenario p)) = true).
Proof.
  intros Hparse Hp. cbv zeta. apply Parse_trace in Hparse as (base & extra & cmdline & pre & sets & rest & meta & file & idx & n1 & keys
    & others & cfg1 & _ & _ & _ & _ & _ & _ & Hv%afterFlags_valid).
  destruct (prepared_stages _ _ _ _ Hv Hp) as (_ & Hs & Hl & Hmode & Ht & Hlim & _ & H3). rewrite Hlim.
  destruct (vc_total _ Hv) as [Ht0 Hexp], (vc_limits _ Hv) as (Hm1 & Hm2 & _). split_and!.
  - intros Hm Hh Hport. apply client_accepts; try done. destruct Ht as [Ht|[Hne _]]; [done|]. specialize (Hmode Hne).
    unfold mode_is in Hmode. by rewrite Hm in Hmode.
  - apply server_accepts, elem_of_app. destruct Ht as [?|[_ ?]]; auto.
  - eapply Forall_impl; [exact Hl|]. intros l (L1 & L2 & L3). split; [by apply listener_accepts|done].
  - intros b. apply limit_pos.
  - unfold clientShouldSpawnAnother, engineLimits. cbn [lm_UnlimitedCalls lm_TotalCalls].
    rewrite (getI_same _ _ _ "TotalCalls" Hs), (getB_same _ _ _ "TotalCallsSetExplicitly" Hs) by listed.
    destruct (Z.eqb_spec (getI cfg "TotalCalls") 0) as [E|E]; [by rewrite (Hexp E)|].
    rewrite andb_false_r. cbn [orb]. apply Z.leb_le. destruct (_ && _); lia.
  - unfold serverRejectNew, engineLimits. cbn [lm_UnlimitedCalls lm_TotalCalls].
    rewrite (getI_same _ _ _ "TotalCalls" Hs), (getB_same _ _ _ "TotalCallsSetExplicitly" Hs) by listed.
    destruct (Z.eqb_spec (getI cfg "TotalCalls") 0) as [E|E]; [by rewrite (Hexp E)|].
    rewrite andb_false_r. cbn [negb andb]. apply Z.leb_gt. destruct (_ && _); lia.
  - intros Hr. unfold Validate3PCCRole in H3. rewrite bool_decide_eq_false_2 in H3 by tauto. exact H3.
Qed.

Definition no_scenario (p : str) : option Scenario := None.
Definition uas_named (name : str) : option Scenario := Some uas_scenario.

Definition demo_prepared : Prepared :=
  match Prepare no_scenario uas_named demo_cfg with
  | Ok p => p
  | Err _ => mkPrepared ∅ uas_scenario ∅ [] (mkLimits 0 0 false 0) []
  end.

Lemma demo_prepares : Prepare no_scenario uas_named demo_cfg = Ok demo_prepared.
Proof.
  unfold demo_prepared. assert (is_ok (Prepare no_scenario uas_named demo_cfg) = true) as H by (vm_compute; reflexivity).
  by destruct (Prepare no_scenario uas_named demo_cfg).
Qed.

Lemma accepted_arguments_run_witness :
  CliParse.Parse no_file no_csv demo_profile false demo_args = Ok (demo_cfg, demo_joined)
  /\ Prepare no_scenario uas_named demo_cfg = Ok demo_prepared
  /\ is_Some (runServer (getS (pr_CLIConfig demo_prepared) "Transport"))
  /\ clientShouldSpawnAnother (pr_limits demo_prepared) 1 = true.
Proof.
  split; [exact demo_parses|]. split; [exact demo_prepares|].
  destruct (accepted_arguments_run no_file no_csv demo_profile false no_scenario uas_named demo_args demo_cfg demo_joined demo_prepared
    demo_parses demo_prepares) as (_ & H & _ & _ & K & _).
  split; [exact H|exact K].
Defined.

(** ** A check that comes too early *)

Definition scale_args : list str := [lit "-sn"; BuiltinInviteMediaScale; lit "-media_srtp"; lit "192.0.2.1:5060"].

(** Encrypted media and the scale engine exclude each other, which [Parse] tests;
    the built-in scenario switches the scale engine on afterwards. *)
Theorem builtin_scale_skips_check :
  match CliParse.Parse no_file no_csv demo_profile false scale_args with
  | Ok (cfg, _) =>
    match Prepare no_scenario uas_named cfg with
    | Ok p => getB (pr_fields p) "MediaScale" = true /\ getB (pr_fields p) "MediaSRTP" = true
    | Err _ => False
    end
  | Err _ => False
  end.
Proof. vm_compute. split; reflexivity. Qed.
