(* ===== verification/Csv.v ===== *)
(** * Comma-separated values

    [csv.Writer] of Go's [encoding/csv] with its default settings, as the trace
    files use it, and a reader for RFC 4180 that serves as the meaning of what
    it writes: fields separated by commas, records ended by a line feed, quoted
    fields in which a quote is doubled. *)

From stdpp Require Import base list strings.
From Stdlib Require Import ZArith Lia Strings.Byte.
From S2P Require Import Prelude GoStrings.

(** ** Writing *)

Definition csv_special (b : byte) : bool := beqb b x0a || beqb b x0d || beqb b x22 || beqb b x2c.

Definition fieldNeedsQuotes (field : str) : bool :=
  match field with
  | [] => false
  | _ => bool_decide (field = [x5c; x2e]) || existsb csv_special field || starts_space field
  end.

Definition escape (b : byte) : str := if beqb b x22 then [x22; x22] else [b].

Definition writeField (field : str) : str :=
  if fieldNeedsQuotes field then x22 :: flat_map escape field ++ [x22] else field.

(** [Writer.Write] and [Flush] *)
Definition csvWrite (record : list str) : str := Join (map writeField record) [x2c] ++ [x0a].

(** ** Reading *)

Inductive csv_state := AtStart | Unquoted | Quoted | AfterQuote.

(** [None] for a quoted field that does not end or goes on after its closing
    quote. *)
Fixpoint csv_go (st : csv_state) (field : str) (row : list str) (s : str) : option (list (list str)) :=
  match s with
  | [] =>
    match st, row with
    | Quoted, _ => None
    | AtStart, [] => Some []
    | _, _ => Some [row ++ [field]]
    end
  | b :: s' =>
    match st with
    | Quoted =>
      if beqb b x22 then csv_go AfterQuote field row s' else csv_go Quoted (field ++ [b]) row s'
    | _ =>
      if beqb b x2c then csv_go AtStart [] (row ++ [field]) s'
      else if beqb b x0a then cons (row ++ [field]) <$> csv_go AtStart [] [] s'
      else if beqb b x22 then
        match st with
        | AtStart => csv_go Quoted [] row s'
        | AfterQuote => csv_go Quoted (field ++ [x22]) row s'
        | _ => None
        end
      else
        match st with
        | AfterQuote => None
        | _ => csv_go Unquoted (field ++ [b]) row s'
        end
    end
  end.

Definition csvRead (s : str) : option (list (list str)) := csv_go AtStart [] [] s.

(** ** Round trip *)

Lemma csv_special_false b :
  csv_special b = false -> beqb b x2c = false /\ beqb b x0a = false /\ beqb b x22 = false.
Proof. unfold csv_special. rewrite !orb_false_iff. tauto. Qed.

Lemma csv_plain st field acc row rest :
  st = AtStart \/ st = Unquoted -> existsb csv_special field = false ->
  csv_go st acc row (field ++ rest)
  = csv_go (match field with [] => st | _ => Unquoted end) (acc ++ field) row rest.
Proof.
  revert st acc. induction field as [|b field IH]; intros st acc Hst Hf; [by rewrite app_nil_r|].
  simpl in Hf. apply orb_false_iff in Hf as [Hb Hf].
  destruct (csv_special_false _ Hb) as (E1 & E2 & E3).
  assert (csv_go st acc row ((b :: field) ++ rest) = csv_go Unquoted (acc ++ [b]) row (field ++ rest)) as ->.
  { simpl. rewrite E1, E2, E3. by destruct Hst as [-> | ->]. }
  rewrite IH by tauto. rewrite <- app_assoc. by destruct field.
Qed.

Lemma csv_quoted field acc row rest :
  csv_go Quoted acc row (flat_map escape field ++ rest) = csv_go Quoted (acc ++ field) row rest.
Proof.
  revert acc. induction field as [|b field IH]; intros acc; [by rewrite app_nil_r|].
  simpl. unfold escape at 1. destruct (beqb b x22) eqn:E; simpl.
  - apply beqb_eq in E as ->. rewrite IH, <- app_assoc. done.
  - rewrite E, IH, <- app_assoc. done.
Qed.

(** A state in which a field may end. *)
Definition ends (st : csv_state) : bool := match st with Quoted => false | _ => true end.

Lemma csv_field field row rest :
  exists st, ends st = true /\ csv_go AtStart [] row (writeField field ++ rest) = csv_go st field row rest.
Proof.
  unfold writeField. destruct (fieldNeedsQuotes field) eqn:E.
  - exists AfterQuote. split; [done|]. simpl. rewrite <- app_assoc, csv_quoted. done.
  - destruct (existsb csv_special field) eqn:Hs.
    + exfalso. destruct field; [done|]. unfold fieldNeedsQuotes in E. rewrite Hs in E. by rewrite orb_true_r in E.
    + exists (match field with [] => AtStart | _ => Unquoted end). split; [by destruct field|].
      rewrite csv_plain by tauto. done.
Qed.

Lemma csv_record record row rest :
  record <> [] ->
  csv_go AtStart [] row (Join (map writeField record) [x2c] ++ x0a :: rest)
  = cons (row ++ record) <$> csv_go AtStart [] [] rest.
Proof.
  revert row. induction record as [|f record IH]; intros row Hn; [done|]. clear Hn.
  destruct record as [|g record].
  - simpl Join. destruct (csv_field f row (x0a :: rest)) as (st & Hst & ->). by destruct st.
  - simpl map. rewrite Join_cons by done. rewrite <- !app_assoc.
    destruct (csv_field f row ([x2c] ++ Join (map writeField (g :: record)) [x2c] ++ x0a :: rest)) as (st & Hst & E).
    simpl map in E. rewrite E.
    assert (csv_go st f row ([x2c] ++ Join (map writeField (g :: record)) [x2c] ++ x0a :: rest)
            = csv_go AtStart [] (row ++ [f]) (Join (map writeField (g :: record)) [x2c] ++ x0a :: rest)) as E2
      by by destruct st.
    simpl map in E2. rewrite E2. simpl map in IH. rewrite IH by done. by rewrite <- app_assoc.
Qed.

Lemma csvRead_cons record rest :
  record <> [] -> csvRead (csvWrite record ++ rest) = cons record <$> csvRead rest.
Proof. intros H. unfold csvWrite, csvRead. rewrite <- app_assoc. by apply csv_record. Qed.

(** Records that have fields are read back as they were written. *)
Theorem csv_roundtrip records :
  Forall (fun r => r <> []) records -> csvRead (flat_map csvWrite records) = Some records.
Proof.
  induction 1 as [|r rs Hr _ IH]; [done|]. simpl. by rewrite csvRead_cons, IH.
Qed.

(** A line of unquoted column names. *)
Lemma csvWrite_names names :
  Forall (fun f => fieldNeedsQuotes f = false) names -> csvWrite names = Join names [x2c] ++ [x0a].
Proof.
  intros H. unfold csvWrite. do 2 f_equal. induction H as [|f fs Hf _ IH]; [done|].
  simpl. unfold writeField at 1. by rewrite Hf, IH.
Qed.
