(* ===== verification/Trace.v ===== *)
(** * Trace files of an engine ([engine/trace.go])

    The nine files an engine writes while it runs: messages in full and in
    short, errors, error codes, action logs, statistics, response times, the
    screen and the counts per command.  A file is its path, what was written to
    it and whether it is open; writing to an open file succeeds, to a closed one
    does nothing (the code ignores the error).  Every operation holds the
    logger's mutex, so a run is a sequence of them; the tickers of the three
    periodic reports are operations too, with the snapshot they take.  The text
    of a time in the local zone ([stamp]) and [unicode.IsPrint] are parameters,
    as is whether [os.Create] and the first write succeed. *)

From stdpp Require Import base list gmap strings.
From Stdlib Require Import ZArith Lia Strings.Byte Floats.SpecFloat.
From S2P Require Import Prelude GoStrings GoFloat SipMessage Scenario Template Commands Auth Stats SafePath MediaStream EventLog Csv.

(** ** Files and paths *)

Record tfile := mkTFile { tf_path : str; tf_data : str; tf_open : bool }.

Definition append (text : str) (f : tfile) : tfile :=
  if tf_open f then mkTFile (tf_path f) (tf_data f ++ text) true else f.
Definition closeFile (f : tfile) : tfile := mkTFile (tf_path f) (tf_data f) false.

Definition deriveNamedTracePath (fullPath suffix : str) : str :=
  let ext := ExtOf fullPath in
  let base := TrimSuffix fullPath ext in
  match ext with
  | [] => base ++ suffix ++ lit ".log"
  | _ => base ++ suffix ++ ext
  end.

Record traceConfig := mkTraceConfig {
  tc_TraceMessages : bool; tc_TraceShortMsg : bool; tc_TraceCounts : bool; tc_TraceErrors : bool;
  tc_TraceErrorCodes : bool; tc_TraceLogs : bool; tc_TraceStats : bool; tc_TraceRTT : bool; tc_TraceScreen : bool;
  tc_MessageFile : str; tc_ErrorFile : str; tc_LogFile : str; tc_ScreenFile : str;
  tc_RTTDumpFrequency : Z; tc_Scenario : Scenario; tc_Pid : Z
}.

Definition orElse (given derived : str) : str := match given with [] => derived | _ => given end.

(** [stemPath] of [newTraceLogger] *)
Definition stemPath (cfg : traceConfig) : str :=
  match tc_MessageFile cfg with
  | [] => lit "gossipper_" ++ Itoa (tc_Pid cfg)
  | p => TrimSuffix p (ExtOf p)
  end.

Definition basePath (cfg : traceConfig) : str :=
  orElse (tc_MessageFile cfg) (deriveNamedTracePath (stemPath cfg) (lit "_messages")).

Definition deriveShortTracePath (p : str) : str := deriveNamedTracePath p (lit "_shortmessages").
Definition deriveErrorCodesPath (cfg : traceConfig) (p : str) : str :=
  deriveNamedTracePath (orElse (tc_ErrorFile cfg) p) (lit "_error_codes").
Definition deriveStatsTracePath (p : str) : str := deriveNamedTracePath p (lit "_stats").
Definition deriveRTTTracePath (p : str) : str := deriveNamedTracePath p (lit "_rtt").
Definition deriveScreenTracePath (p : str) : str := deriveNamedTracePath p (lit "_screen").
Definition deriveCountsTracePath (p : str) : str := deriveNamedTracePath p (lit "_counts").

(** ** Columns *)

Definition firstLine (raw : str) : str :=
  match Split (ReplaceAll raw [x0d; x0a] [x0a]) x0a with
  | [] => []
  | line :: _ => TrimSpace line
  end.

Record traceCountSpec := mkSpec { sp_CommandIndex : Z; sp_Label : str }.

Definition label_rune (r : Z) : byte :=
  if ((65 <=? r) && (r <=? 90)) || ((48 <=? r) && (r <=? 57)) then z2b r else x5f.

Definition sanitizeTraceCountLabel (value : str) : str :=
  match value with
  | [] => lit "CMD"
  | _ =>
    match Trim (fun b => beqb b x5f) (map label_rune (runes value)) with
    | [] => lit "CMD"
    | sanitized => sanitized
    end
  end.

Definition traceCountLabel (cmd : Command) : str :=
  match c_Type cmd with
  | CommandSend =>
    let token := TrimSpace (hd [] (Split (firstLine (c_SendText cmd)) x20)) in
    sanitizeTraceCountLabel (ToUpper (orElse token (lit "SEND")))
  | CommandRecv =>
    match c_RecvReq cmd, c_RecvResp cmd with
    | (_ :: _) as req, _ => sanitizeTraceCountLabel (ToUpper req)
    | [], (_ :: _) as resp => sanitizeTraceCountLabel (lit "RESP_" ++ resp)
    | [], [] => lit "RECV"
    end
  | _ => lit "CMD"
  end.

Definition counted (cmd : Command) : bool :=
  match c_Type cmd with CommandSend | CommandRecv => true | _ => false end.

Definition buildTraceCountSpecs (sc : Scenario) : list traceCountSpec :=
  map (fun cmd => mkSpec (c_Index cmd) (traceCountLabel cmd)) (List.filter counted (sc_Commands sc)).

Definition countColumns (spec : traceCountSpec) : list str :=
  let base := Itoa (sp_CommandIndex spec) ++ lit "_" ++ sp_Label spec in
  [base ++ lit "_sent"; base ++ lit "_recv"; base ++ lit "_unexp"].

Definition buildTraceCountsHeader (specs : list traceCountSpec) : str :=
  Join (lit "timestamp" :: flat_map countColumns specs) [x2c] ++ [x0a].

Definition statColumns : list str := map lit
  ["timestamp"; "elapsed_ms"; "total_calls"; "success_calls"; "failed_calls"; "active_calls"; "success_ratio";
   "calls_per_second"; "retransmits"; "timeouts"; "avg_call_ms"; "call_stddev_ms"; "avg_invite_ms";
   "invite_stddev_ms"; "rtp_packets_sent"; "rtp_packets_received"; "rtcp_sender_reports"; "rtcp_receiver_reports";
   "rtcp_packets_received"; "failure_timeout"; "failure_unexpected_sip"; "failure_transport_error";
   "failure_parse_error"; "failure_scenario_error"; "failure_cancelled"; "interval_ms";
   "interval_calls_per_second"; "delta_total_calls"; "delta_success_calls"; "delta_failed_calls";
   "delta_retransmits"; "delta_timeouts"; "delta_rtp_packets_sent"; "delta_rtp_packets_received";
   "delta_rtcp_sender_reports"; "delta_rtcp_receiver_reports"; "delta_rtcp_packets_received";
   "delta_failure_timeout"; "delta_failure_unexpected_sip"; "delta_failure_transport_error";
   "delta_failure_parse_error"; "delta_failure_scenario_error"; "delta_failure_cancelled"]%string.
Definition rttColumns : list str := map lit ["timestamp"; "call"; "name"; "value_ms"]%string.
Definition screenColumns : list str := map lit
  ["timestamp"; "total_calls"; "success_calls"; "failed_calls"; "active_calls"; "success_ratio"; "calls_per_second";
   "interval_ms"; "interval_calls_per_second"; "avg_call_ms"; "avg_invite_ms"; "retransmits"; "timeouts";
   "failure_timeout"; "failure_unexpected_sip"]%string.
Definition shortColumns : list str :=
  map lit ["timestamp"; "direction"; "call"; "proto"; "summary"; "call_id"]%string.
Definition errorCodeColumns : list str :=
  map lit ["timestamp"; "call"; "code"; "reason"; "call_id"; "expected"]%string.

(** A header constant of the source: the names joined by commas. *)
Definition headerLine (columns : list str) : str := Join columns [x2c] ++ [x0a].

(** ** The logger *)

Record traceLogger := mkTrace {
  tl_full : option tfile; tl_short : option tfile; tl_errFile : option tfile; tl_errCodes : option tfile;
  tl_logFile : option tfile; tl_statsFile : option tfile; tl_rttFile : option tfile; tl_screenFile : option tfile;
  tl_countsFile : option tfile;
  tl_statsPrevious : option Summary; tl_screenPrevious : option Summary;
  tl_rttFlushEvery : Z; tl_rttCompletedCalls : Z; tl_rttPending : list (list str);
  tl_countSpecs : list traceCountSpec;
  tl_countSent : gmap Z Z; tl_countRecv : gmap Z Z; tl_countUnexp : gmap Z Z
}.

Definition emptyTrace : traceLogger :=
  mkTrace None None None None None None None None None None None 0 0 [] [] ∅ ∅ ∅.

(** The slots of the logger, in the order in which [newTraceLogger] fills
    them. *)
Inductive slot := SFull | SShort | SErr | SErrCodes | SLog | SStats | SRtt | SScreen | SCounts.

#[global] Instance slot_eq_dec : EqDecision slot.
Proof. solve_decision. Defined.

Definition slots : list slot := [SFull; SShort; SErr; SErrCodes; SLog; SStats; SRtt; SScreen; SCounts].

Definition file_of (s : slot) (t : traceLogger) : option tfile :=
  match s with
  | SFull => tl_full t | SShort => tl_short t | SErr => tl_errFile t | SErrCodes => tl_errCodes t
  | SLog => tl_logFile t | SStats => tl_statsFile t | SRtt => tl_rttFile t | SScreen => tl_screenFile t
  | SCounts => tl_countsFile t
  end.

Definition on_file (s : slot) (g : option tfile -> option tfile) (t : traceLogger) : traceLogger :=
  let at' s' f := if decide (s = s') then g f else f in
  mkTrace (at' SFull (tl_full t)) (at' SShort (tl_short t)) (at' SErr (tl_errFile t)) (at' SErrCodes (tl_errCodes t))
    (at' SLog (tl_logFile t)) (at' SStats (tl_statsFile t)) (at' SRtt (tl_rttFile t)) (at' SScreen (tl_screenFile t))
    (at' SCounts (tl_countsFile t))
    (tl_statsPrevious t) (tl_screenPrevious t) (tl_rttFlushEvery t) (tl_rttCompletedCalls t) (tl_rttPending t)
    (tl_countSpecs t) (tl_countSent t) (tl_countRecv t) (tl_countUnexp t).

Definition write (s : slot) (text : str) : traceLogger -> traceLogger := on_file s (fmap (append text)).
#[global] Arguments on_file : simpl never.
#[global] Arguments write : simpl never.

Definition withPrevious (stats screen : option Summary) (t : traceLogger) : traceLogger :=
  mkTrace (tl_full t) (tl_short t) (tl_errFile t) (tl_errCodes t) (tl_logFile t) (tl_statsFile t) (tl_rttFile t)
    (tl_screenFile t) (tl_countsFile t) stats screen (tl_rttFlushEvery t) (tl_rttCompletedCalls t) (tl_rttPending t)
    (tl_countSpecs t) (tl_countSent t) (tl_countRecv t) (tl_countUnexp t).

Definition withRtt (every completed : Z) (pending : list (list str)) (t : traceLogger) : traceLogger :=
  mkTrace (tl_full t) (tl_short t) (tl_errFile t) (tl_errCodes t) (tl_logFile t) (tl_statsFile t) (tl_rttFile t)
    (tl_screenFile t) (tl_countsFile t) (tl_statsPrevious t) (tl_screenPrevious t) every completed pending
    (tl_countSpecs t) (tl_countSent t) (tl_countRecv t) (tl_countUnexp t).

Definition withCounts (specs : list traceCountSpec) (sent recv unexp : gmap Z Z) (t : traceLogger) : traceLogger :=
  mkTrace (tl_full t) (tl_short t) (tl_errFile t) (tl_errCodes t) (tl_logFile t) (tl_statsFile t) (tl_rttFile t)
    (tl_screenFile t) (tl_countsFile t) (tl_statsPrevious t) (tl_screenPrevious t) (tl_rttFlushEvery t)
    (tl_rttCompletedCalls t) (tl_rttPending t) specs sent recv unexp.

Section Trace.

Context (stamp : Z -> str) (isPrint : Z -> bool).

(** ** Periodic reports *)

Definition failureClassCount (s : Summary) (name : string) : Z := default 0 (su_FailureClasses s !! lit name).

Definition latencyStdDevMS (l : option LatencySummary) : Z :=
  match l with None => 0 | Some l => Milliseconds (ls_StdDev l) end.

Definition mediaCounters (m : MediaSummary) : list Z :=
  [mm_RTPPacketsSent m; mm_RTPPacketsReceived m; mm_RTCPSenderReports m; mm_RTCPReceiverReports m;
   mm_RTCPPacketsReceived m].

Definition failureCounters (s : Summary) : list Z :=
  map (failureClassCount s)
    ["timeout"; "unexpected_sip"; "transport_error"; "parse_error"; "scenario_error"; "cancelled"]%string.

(** The counters of which a row gives the change since the previous row. *)
Definition deltaCounters (s : Summary) : list Z :=
  [su_TotalCalls s; su_SuccessCalls s; su_FailedCalls s; su_Retransmits s; su_Timeouts s]
  ++ mediaCounters (su_Media s) ++ failureCounters s.

Definition deltas (s : Summary) (previous : option Summary) : list Z :=
  match previous with
  | None => deltaCounters s
  | Some p => zip_with Z.sub (deltaCounters s) (deltaCounters p)
  end.

Definition intervalMS (s : Summary) (previous : option Summary) : Z :=
  match previous with
  | None => Milliseconds (su_Duration s)
  | Some p =>
    let interval := su_FinishedAt s - su_FinishedAt p in
    if 0 <? interval then Milliseconds interval else 0
  end.

Definition intervalCPS (calls ms : Z) : float64 :=
  if 0 <? ms then fdiv (float_of_int calls) (fdiv (float_of_int ms) (float_of_int 1000)) else fzero.

Definition fixed6 (x : float64) : str := FormatFixed 6 x.

Definition deltaTotalCalls (s : Summary) (previous : option Summary) : Z :=
  match previous with None => su_TotalCalls s | Some p => su_TotalCalls s - su_TotalCalls p end.

Definition statsRow (s : Summary) (previous : option Summary) : list str :=
  let ms := intervalMS s previous in
  [stamp (su_FinishedAt s); Itoa (Milliseconds (su_Duration s));
   Itoa (su_TotalCalls s); Itoa (su_SuccessCalls s); Itoa (su_FailedCalls s); Itoa (su_ActiveCalls s);
   fixed6 (su_SuccessRatio s); fixed6 (su_CallsPerSecond s);
   Itoa (su_Retransmits s); Itoa (su_Timeouts s);
   Itoa (Milliseconds (su_AverageCallLatency s)); Itoa (latencyStdDevMS (su_CallLength s));
   Itoa (Milliseconds (su_AverageInviteRTT s)); Itoa (latencyStdDevMS (su_InviteRTT s))]
  ++ map Itoa (mediaCounters (su_Media s)) ++ map Itoa (failureCounters s)
  ++ [Itoa ms; fixed6 (intervalCPS (deltaTotalCalls s previous) ms)]
  ++ map Itoa (deltas s previous).

Definition writeStatsSnapshot (s : Summary) (previous : option Summary) (t : traceLogger) : traceLogger :=
  match tl_statsFile t with
  | None => t
  | Some _ => write SStats (csvWrite (statsRow s previous)) t
  end.

(** One tick of the goroutine of [startStatsLoop]; the goroutine keeps the
    previous snapshot. *)
Definition statsTick (s : Summary) (t : traceLogger) : traceLogger :=
  match tl_statsFile t with
  | None => t
  | Some _ => withPrevious (Some s) (tl_screenPrevious t) (writeStatsSnapshot s (tl_statsPrevious t) t)
  end.

Definition screenRow (s : Summary) (previous : option Summary) : list str :=
  let ms := intervalMS s previous in
  [stamp (su_FinishedAt s); Itoa (su_TotalCalls s); Itoa (su_SuccessCalls s); Itoa (su_FailedCalls s);
   Itoa (su_ActiveCalls s); fixed6 (su_SuccessRatio s); fixed6 (su_CallsPerSecond s); Itoa ms;
   fixed6 (intervalCPS (deltaTotalCalls s previous) ms);
   Itoa (Milliseconds (su_AverageCallLatency s)); Itoa (Milliseconds (su_AverageInviteRTT s));
   Itoa (su_Retransmits s); Itoa (su_Timeouts s);
   Itoa (failureClassCount s "timeout"); Itoa (failureClassCount s "unexpected_sip")].

Definition writeScreenSnapshot (s : Summary) (t : traceLogger) : traceLogger :=
  match tl_screenFile t with
  | None => t
  | Some _ =>
    withPrevious (tl_statsPrevious t) (Some s) (write SScreen (csvWrite (screenRow s (tl_screenPrevious t))) t)
  end.

Definition count_at (m : gmap Z Z) (i : Z) : Z := default 0 (m !! i).

Definition countsRow (now : Z) (t : traceLogger) : list str :=
  stamp now ::
  flat_map (fun spec => [Itoa (count_at (tl_countSent t) (sp_CommandIndex spec));
                         Itoa (count_at (tl_countRecv t) (sp_CommandIndex spec));
                         Itoa (count_at (tl_countUnexp t) (sp_CommandIndex spec))]) (tl_countSpecs t).

Definition writeCountsSnapshot (now : Z) (t : traceLogger) : traceLogger :=
  match tl_countsFile t with
  | None => t
  | Some _ => write SCounts (csvWrite (countsRow now t)) t
  end.

(** One tick of the goroutines of [startCountsLoop] and [startScreenLoop], which
    are started only when there is a file. *)
Definition countsTick (now : Z) (t : traceLogger) : traceLogger :=
  match tl_countsFile t with None => t | Some _ => writeCountsSnapshot now t end.

Definition screenTick (s : Summary) (t : traceLogger) : traceLogger :=
  match tl_screenFile t with None => t | Some _ => writeScreenSnapshot s t end.

(** ** Closing and opening *)

Definition flushRTTLocked (t : traceLogger) : traceLogger :=
  match tl_rttFile t, tl_rttPending t with
  | None, _ | _, [] => t
  | Some _, rows =>
    withRtt (tl_rttFlushEvery t) (tl_rttCompletedCalls t) [] (write SRtt (flat_map csvWrite rows) t)
  end.

Definition closeSlot (s : slot) : traceLogger -> traceLogger := on_file s (fmap closeFile).

(** What the three goroutines see when they are stopped: the snapshots they
    take and the time. *)
Record final := mkFinal { fi_stats : Summary; fi_screen : Summary; fi_now : Z }.

(** [Close]; without [final] the goroutines have not been started. *)
Definition Close (fin : option final) (t : traceLogger) : traceLogger :=
  let t := foldl (fun t s => closeSlot s t) t [SFull; SShort; SErr; SErrCodes; SLog] in
  let t := match fin with
           | None => t
           | Some f =>
             writeScreenSnapshot (fi_screen f)
               (writeCountsSnapshot (fi_now f) (writeStatsSnapshot (fi_stats f) (tl_statsPrevious t) t))
           end in
  let t := closeSlot SStats t in
  let t := closeSlot SRtt (match tl_rttFile t with None => t | Some _ => flushRTTLocked t end) in
  closeSlot SCounts (closeSlot SScreen t).

Section Open.

(** Whether [os.Create] on a path succeeds, and then the first write. *)
Context (create writable : str -> bool).

(** Stage of [newTraceLogger]: [Err] carries the logger as it is left when the
    function returns an error. *)
Definition openSlot (s : slot) (on : bool) (path : str) (t : traceLogger) : result traceLogger traceLogger :=
  if negb on then Ok t
  else if create path then Ok (on_file s (fun _ => Some (mkTFile path [] true)) t)
  else Err (Close None t).

Definition writeHeader (s : slot) (on : bool) (path header : str) (t : traceLogger) : result traceLogger traceLogger :=
  if negb on then Ok t
  else if writable path then Ok (write s header t)
  else Err (Close None t).

(** The short messages have their own error paths. *)
Definition openShort (on : bool) (path : str) (t : traceLogger) : result traceLogger traceLogger :=
  if negb on then Ok t
  else if create path then
    let t := on_file SShort (fun _ => Some (mkTFile path [] true)) t in
    if writable path then Ok (write SShort (headerLine shortColumns) t)
    else Err (closeSlot SFull (closeSlot SShort t))
  else Err (closeSlot SFull t).

Definition flushEvery (cfg : traceConfig) : Z :=
  if tc_RTTDumpFrequency cfg <=? 0 then 200 else tc_RTTDumpFrequency cfg.

Definition tracing (cfg : traceConfig) : bool :=
  tc_TraceMessages cfg || tc_TraceShortMsg cfg || tc_TraceCounts cfg || tc_TraceErrors cfg
  || tc_TraceErrorCodes cfg || tc_TraceLogs cfg || tc_TraceStats cfg || tc_TraceRTT cfg || tc_TraceScreen cfg.

Definition openAll (cfg : traceConfig) : result traceLogger traceLogger :=
  let stem := stemPath cfg in
  let? t := openSlot SFull (tc_TraceMessages cfg) (basePath cfg) emptyTrace in
  let? t := openShort (tc_TraceShortMsg cfg) (deriveShortTracePath stem) t in
  let? t := openSlot SErr (tc_TraceErrors cfg) (orElse (tc_ErrorFile cfg) (deriveNamedTracePath stem (lit "_errors"))) t in
  let codes := deriveErrorCodesPath cfg stem in
  let? t := openSlot SErrCodes (tc_TraceErrorCodes cfg) codes t in
  let? t := writeHeader SErrCodes (tc_TraceErrorCodes cfg) codes (headerLine errorCodeColumns) t in
  let? t := openSlot SLog (tc_TraceLogs cfg) (orElse (tc_LogFile cfg) (deriveNamedTracePath stem (lit "_logs"))) t in
  let? t := openSlot SStats (tc_TraceStats cfg) (deriveStatsTracePath stem) t in
  let? t := writeHeader SStats (tc_TraceStats cfg) (deriveStatsTracePath stem) (headerLine statColumns) t in
  let? t := openSlot SRtt (tc_TraceRTT cfg) (deriveRTTTracePath stem) t in
  let? t := writeHeader SRtt (tc_TraceRTT cfg) (deriveRTTTracePath stem) (headerLine rttColumns) t in
  let t := if tc_TraceRTT cfg then withRtt (flushEvery cfg) 0 [] t else t in
  let screen := orElse (tc_ScreenFile cfg) (deriveScreenTracePath stem) in
  let? t := openSlot SScreen (tc_TraceScreen cfg) screen t in
  let? t := writeHeader SScreen (tc_TraceScreen cfg) screen (headerLine screenColumns) t in
  let specs := buildTraceCountSpecs (tc_Scenario cfg) in
  let? t := openSlot SCounts (tc_TraceCounts cfg) (deriveCountsTracePath stem) t in
  let t := if tc_TraceCounts cfg then withCounts specs ∅ ∅ ∅ t else t in
  writeHeader SCounts (tc_TraceCounts cfg) (deriveCountsTracePath stem) (buildTraceCountsHeader specs) t.

Definition newTraceLogger (cfg : traceConfig) : result traceLogger (option traceLogger) :=
  if tracing cfg then let? t := openAll cfg in Ok (Some t) else Ok None.

End Open.

(** ** What the engine reports *)

(** The engine as far as tracing goes: the logger, the events given to the event
    log ([None] without one) and standard output. *)
Record traced := mkTraced {
  td_TraceMessages : bool; td_TraceErrors : bool; td_TraceErrorCodes : bool;
  td_trace : option traceLogger; td_log : option (list Event); td_stdout : str
}.

Definition withLogger (t : option traceLogger) (e : traced) : traced :=
  mkTraced (td_TraceMessages e) (td_TraceErrors e) (td_TraceErrorCodes e) t (td_log e) (td_stdout e).

(** [f] on the logger when the slot has a file. *)
Definition inSlot (s : slot) (f : traceLogger -> traceLogger) (e : traced) : traced :=
  match td_trace e with
  | None => e
  | Some t => match file_of s t with None => e | Some _ => withLogger (Some (f t)) e end
  end.

Definition emitEvent (now : Z) (ev : Event) (e : traced) : traced :=
  match td_log e with
  | None => e
  | Some evs =>
    let ev := mkEvent (Some (default now (ev_Time ev))) (ev_Level ev) (ev_Kind ev) (ev_Msg ev) (ev_Attrs ev) in
    mkTraced (td_TraceMessages e) (td_TraceErrors e) (td_TraceErrorCodes e) (td_trace e) (Some (evs ++ [ev])) (td_stdout e)
  end.

Definition fullRecord (direction : str) (callNumber : Z) (raw : str) : str :=
  direction ++ lit "[" ++ Itoa callNumber ++ lit "]" ++ [x0a] ++ raw ++ [x0a].

Definition buildShortTraceRecord (now : Z) (direction : str) (callNumber : Z) (raw : str) : list str :=
  let '(proto, summary, callID) :=
    match Parse raw with
    | Ok msg =>
      (lit "sip",
       match Method msg with
       | [] => if 0 <? StatusCode msg then Itoa (StatusCode msg) ++ lit " " ++ TrimSpace (Reason msg) else firstLine raw
       | m => m
       end,
       default [] (Header (Headers msg) (lit "Call-ID")))
    | _ => (lit "cmd", firstLine raw, commandCallID raw [])
    end in
  [stamp now; direction; Itoa callNumber; proto; summary; callID].

Definition traceEvent (now : Z) (direction : str) (callNumber : Z) (raw : str) (e : traced) : traced :=
  match td_trace e with
  | None =>
    if td_TraceMessages e then
      mkTraced (td_TraceMessages e) (td_TraceErrors e) (td_TraceErrorCodes e) None (td_log e)
        (td_stdout e ++ fullRecord direction callNumber raw)
    else e
  | Some t =>
    withLogger (Some (write SShort (csvWrite (buildShortTraceRecord now direction callNumber raw))
                       (write SFull (fullRecord direction callNumber raw) t))) e
  end.

Definition traceActionLog (now : Z) (message : str) (e : traced) : traced :=
  inSlot SLog (write SLog (stamp now ++ lit " action-log " ++ message ++ [x0a]))
    (emitEvent now (mkEvent None LevelInfo (lit "action.log") message ∅) e).

Definition traceError (now : Z) (kind : str) (callNumber : Z) (message : str) (e : traced) : traced :=
  inSlot SErr (write SErr (stamp now ++ lit " " ++ kind ++ lit "[" ++ Itoa callNumber ++ lit "] " ++ message ++ [x0a]))
    (emitEvent now (mkEvent None LevelError (lit "error") message
       {[ lit "call_num" := VInt callNumber; lit "error.kind" := VString kind ]}) e).

Definition traceErrorCode (now : Z) (callNumber code : Z) (reason callID expected : str) (e : traced) : traced :=
  inSlot SErrCodes
    (write SErrCodes (csvWrite [stamp now; Itoa callNumber; Itoa code; reason; callID; expected])) e.

Definition sipMessageOneLine (msg : Message) : str :=
  match firstLine (Raw msg), TrimSpace (StartLine msg) with
  | (_ :: _) as s, _ => s
  | [], (_ :: _) as sl => sl
  | [], [] =>
    if 0 <? StatusCode msg then
      lit "SIP/2.0 " ++ Itoa (StatusCode msg)
      ++ match TrimSpace (Reason msg) with [] => [] | r => lit " " ++ r end
    else
      match Method msg, Raw msg with
      | (_ :: _) as m, _ => TrimSpace (m ++ lit " " ++ RequestURI msg)
      | [], [] => lit "(empty message)"
      | [], raw => lit "(non-text first line, raw_len=" ++ Itoa (Z.of_nat (length raw)) ++ lit ")"
      end
  end.

Definition unexpectedAttrs (callNumber : Z) (expected : str) (msg : Message) : attrs :=
  let a : attrs := {[ lit "call_num" := VInt callNumber; lit "expected" := VString expected;
                      lit "sip.method" := VString (Method msg) ]} in
  let a := if 0 <? StatusCode msg then
             let a := <[lit "sip.status" := VInt (StatusCode msg)]> a in
             match TrimSpace (Reason msg) with [] => a | r => <[lit "sip.reason" := VString r]> a end
           else a in
  match Header (Headers msg) (lit "Call-ID") with
  | Some ((_ :: _) as callID) => <[lit "call_id" := VString callID]> a
  | _ => a
  end.

Definition traceUnexpectedSIP (now : Z) (callNumber : Z) (expected : Command) (msg : Message) (e : traced) : traced :=
  let text := orElse (c_RecvReq expected) (c_RecvResp expected) in
  let summary := sipMessageOneLine msg in
  let e := emitEvent now (mkEvent None LevelWarn (lit "sip.unexpected") summary (unexpectedAttrs callNumber text msg)) e in
  let e := if td_TraceErrors e then
             traceError now (lit "unexpected-sip") callNumber
               (lit "expected=" ++ Quote isPrint text ++ lit " got=" ++ Quote isPrint summary ++ [x0a] ++ Raw msg) e
           else e in
  if td_TraceErrorCodes e && (0 <? StatusCode msg) then
    traceErrorCode now callNumber (StatusCode msg) (TrimSpace (Reason msg)) (commandCallID (Raw msg) []) text e
  else e.

Definition traceRTD (now callNumber : Z) (name : str) (value : Z) : traced -> traced :=
  inSlot SRtt (fun t => withRtt (tl_rttFlushEvery t) (tl_rttCompletedCalls t)
    (tl_rttPending t ++ [[stamp now; Itoa callNumber; name; Itoa (Milliseconds value)]]) t).

Definition traceCallCompleted : traced -> traced :=
  inSlot SRtt (fun t =>
    let t := withRtt (tl_rttFlushEvery t) (tl_rttCompletedCalls t + 1) (tl_rttPending t) t in
    if tl_rttFlushEvery t <=? tl_rttCompletedCalls t then
      let t := flushRTTLocked t in withRtt (tl_rttFlushEvery t) 0 (tl_rttPending t) t
    else t).

Definition bump_at (i : Z) (m : gmap Z Z) : gmap Z Z := <[i := count_at m i + 1]> m.

Definition traceCountSent (i : Z) : traced -> traced := inSlot SCounts (fun t =>
  withCounts (tl_countSpecs t) (bump_at i (tl_countSent t)) (tl_countRecv t) (tl_countUnexp t) t).
Definition traceCountRecv (i : Z) : traced -> traced := inSlot SCounts (fun t =>
  withCounts (tl_countSpecs t) (tl_countSent t) (bump_at i (tl_countRecv t)) (tl_countUnexp t) t).
Definition traceCountUnexpected (i : Z) : traced -> traced := inSlot SCounts (fun t =>
  withCounts (tl_countSpecs t) (tl_countSent t) (tl_countRecv t) (bump_at i (tl_countUnexp t)) t).

Definition stopTrace (fin : final) (e : traced) : option traceLogger * traced :=
  match td_trace e with
  | None => (None, e)
  | Some t => (Some (Close (Some fin) t), withLogger None e)
  end.

(** ** Runs *)

Inductive trace_op :=
  | TEvent (direction : str) (callNumber : Z) (raw : str)
  | TActionLog (message : str)
  | TError (kind : str) (callNumber : Z) (message : str)
  | TUnexpected (callNumber : Z) (expected : Command) (msg : Message)
  | TRTD (callNumber : Z) (name : str) (value : Z)
  | TCompleted
  | TSent (i : Z)
  | TRecv (i : Z)
  | TUnexp (i : Z)
  | TStats (s : Summary)
  | TScreen (s : Summary)
  | TCounts.

Definition onLogger (f : traceLogger -> traceLogger) (e : traced) : traced := withLogger (f <$> td_trace e) e.

Definition applyTrace (e : traced) (step : Z * trace_op) : traced :=
  let now := step.1 in
  match step.2 with
  | TEvent d n raw => traceEvent now d n raw e
  | TActionLog m => traceActionLog now m e
  | TError k n m => traceError now k n m e
  | TUnexpected n c m => traceUnexpectedSIP now n c m e
  | TRTD n name v => traceRTD now n name v e
  | TCompleted => traceCallCompleted e
  | TSent i => traceCountSent i e
  | TRecv i => traceCountRecv i e
  | TUnexp i => traceCountUnexpected i e
  | TStats s => onLogger (statsTick s) e
  | TScreen s => onLogger (screenTick s) e
  | TCounts => onLogger (countsTick now) e
  end.

Definition runTrace (steps : list (Z * trace_op)) (e : traced) : traced := foldl applyTrace e steps.

(** ** Views: the part of the logger a file depends on *)

Lemma file_of_on_file s s' g t :
  file_of s (on_file s' g t) = if decide (s' = s) then g (file_of s t) else file_of s t.
Proof. by destruct s, s'. Qed.

Lemma inSlot_trace s f e :
  td_trace (inSlot s f e) = (fun t => match file_of s t with None => t | Some _ => f t end) <$> td_trace e.
Proof.
  unfold inSlot. destruct (td_trace e) as [t|] eqn:E; simpl; [|done]. by destruct (file_of s t).
Qed.

Lemma emitEvent_trace now ev e : td_trace (emitEvent now ev e) = td_trace e.
Proof. unfold emitEvent. by destruct (td_log e). Qed.

Lemma traceError_trace now k n m e :
  td_trace (traceError now k n m e)
  = (fun t => match tl_errFile t with
              | None => t
              | Some _ => write SErr (stamp now ++ lit " " ++ k ++ lit "[" ++ Itoa n ++ lit "] " ++ m ++ [x0a]) t
              end) <$> td_trace e.
Proof. unfold traceError. by rewrite inSlot_trace, emitEvent_trace. Qed.

(** The steps that are not about a message, on the logger alone. *)
Definition op_fun (now : Z) (op : trace_op) (t : traceLogger) : traceLogger :=
  let inSlot s f := match file_of s t with None => t | Some _ => f t end in
  match op with
  | TRTD n name v => inSlot SRtt (fun t => withRtt (tl_rttFlushEvery t) (tl_rttCompletedCalls t)
      (tl_rttPending t ++ [[stamp now; Itoa n; name; Itoa (Milliseconds v)]]) t)
  | TCompleted => inSlot SRtt (fun t =>
      let t := withRtt (tl_rttFlushEvery t) (tl_rttCompletedCalls t + 1) (tl_rttPending t) t in
      if tl_rttFlushEvery t <=? tl_rttCompletedCalls t then
        let t := flushRTTLocked t in withRtt (tl_rttFlushEvery t) 0 (tl_rttPending t) t
      else t)
  | TSent i => inSlot SCounts (fun t =>
      withCounts (tl_countSpecs t) (bump_at i (tl_countSent t)) (tl_countRecv t) (tl_countUnexp t) t)
  | TRecv i => inSlot SCounts (fun t =>
      withCounts (tl_countSpecs t) (tl_countSent t) (bump_at i (tl_countRecv t)) (tl_countUnexp t) t)
  | TUnexp i => inSlot SCounts (fun t =>
      withCounts (tl_countSpecs t) (tl_countSent t) (tl_countRecv t) (bump_at i (tl_countUnexp t)) t)
  | TStats s => statsTick s t
  | TScreen s => screenTick s t
  | TCounts => countsTick now t
  | _ => t
  end.

Definition about_message (op : trace_op) : bool :=
  match op with TEvent _ _ _ | TActionLog _ | TError _ _ _ | TUnexpected _ _ _ => true | _ => false end.

Lemma applyTrace_fun now op e :
  about_message op = false -> td_trace (applyTrace e (now, op)) = op_fun now op <$> td_trace e.
Proof.
  intros H. destruct op; try done; unfold applyTrace; cbn [fst snd].
  - unfold traceRTD. by rewrite inSlot_trace.
  - unfold traceCallCompleted. by rewrite inSlot_trace.
  - unfold traceCountSent. by rewrite inSlot_trace.
  - unfold traceCountRecv. by rewrite inSlot_trace.
  - unfold traceCountUnexpected. by rewrite inSlot_trace.
Qed.

(** A view of the logger that only the steps [mine] change. *)
Section View.

Context {V : Type} (view : traceLogger -> V) (mine : trace_op -> bool).
Hypothesis view_write : forall s text t,
  s = SFull \/ s = SShort \/ s = SErr \/ s = SErrCodes \/ s = SLog -> view (write s text t) = view t.
Hypothesis view_fun : forall now op t, mine op = false -> view (op_fun now op t) = view t.

Lemma view_slot s text t :
  s = SFull \/ s = SShort \/ s = SErr \/ s = SErrCodes \/ s = SLog ->
  view (match file_of s t with None => t | Some _ => write s text t end) = view t.
Proof. intros H. destruct (file_of s t); [by apply view_write|done]. Qed.

Lemma view_inSlot s text e :
  s = SFull \/ s = SShort \/ s = SErr \/ s = SErrCodes \/ s = SLog ->
  view <$> td_trace (inSlot s (write s text) e) = view <$> td_trace e.
Proof.
  intros H. rewrite inSlot_trace. destruct (td_trace e) as [t|]; [|done]. simpl. f_equal. by apply view_slot.
Qed.

Lemma view_step now op e :
  mine op = false -> view <$> td_trace (applyTrace e (now, op)) = view <$> td_trace e.
Proof.
  intros H. destruct op as [d n raw|m|k n m|n c m|n name v| |i|i|i|s|s|]; 
    try (rewrite applyTrace_fun by done; destruct (td_trace e); [exact (f_equal Some (view_fun _ _ _ H))|done]).
  all: unfold applyTrace; cbn [fst snd].
  - unfold traceEvent. destruct (td_trace e) as [t|] eqn:E.
    + cbn [td_trace withLogger fmap option_fmap option_map]. f_equal.
      rewrite (view_write SShort), (view_write SFull) by tauto. done.
    + destruct (td_TraceMessages e); simpl; by rewrite ?E.
  - unfold traceActionLog. rewrite view_inSlot by tauto. by rewrite emitEvent_trace.
  - unfold traceError. rewrite view_inSlot by tauto. by rewrite emitEvent_trace.
  - unfold traceUnexpectedSIP. set (ev := mkEvent _ _ _ _ _).
    assert (forall e1, view <$> td_trace (if td_TraceErrorCodes e1 && (0 <? StatusCode m) then
              traceErrorCode now n (StatusCode m) (TrimSpace (Reason m)) (commandCallID (Raw m) [])
                (orElse (c_RecvReq c) (c_RecvResp c)) e1 else e1) = view <$> td_trace e1) as ->.
    { intros e1. destruct (_ && _); [|done]. unfold traceErrorCode. apply view_inSlot. tauto. }
    destruct (td_TraceErrors _); [|by rewrite emitEvent_trace].
    unfold traceError. rewrite view_inSlot by tauto. by rewrite !emitEvent_trace.
Qed.

Lemma view_run steps e :
  Forall (fun x => mine x.2 = false) steps -> view <$> td_trace (runTrace steps e) = view <$> td_trace e.
Proof.
  revert e. induction steps as [|[now op] steps IH]; intros e H; [done|].
  apply Forall_cons in H as [H1 H2]. unfold runTrace in *. simpl foldl. rewrite IH by done. by apply view_step.
Qed.

End View.

Ltac view_cases :=
  match goal with
  | |- forall (_ : slot), _ => by intros ? ? ? [-> | [-> | [-> | [-> | ->]]]]
  | |- forall (_ : Z), _ =>
    intros ? [] ? ?; try done; simpl;
    unfold statsTick, screenTick, countsTick, writeStatsSnapshot, writeScreenSnapshot, writeCountsSnapshot, flushRTTLocked;
    repeat case_goal; done
  end.

Definition stats_view (t : traceLogger) : option tfile * option Summary := (tl_statsFile t, tl_statsPrevious t).
Definition is_stats (op : trace_op) : bool := match op with TStats _ => true | _ => false end.

Lemma stats_view_step now op e :
  is_stats op = false -> stats_view <$> td_trace (applyTrace e (now, op)) = stats_view <$> td_trace e.
Proof. apply view_step; view_cases. Qed.

(** ** The statistics file *)

Definition stats_of (x : Z * trace_op) : option Summary := match x.2 with TStats s => Some s | _ => None end.

(** The rows for a sequence of snapshots. *)
Fixpoint statsRows (previous : option Summary) (snaps : list Summary) : list (list str) :=
  match snaps with
  | [] => []
  | s :: snaps' => statsRow s previous :: statsRows (Some s) snaps'
  end.

Definition last_of (previous : option Summary) (snaps : list Summary) : option Summary :=
  match last snaps with Some s => Some s | None => previous end.

Lemma append_nil f : append [] f = f.
Proof. unfold append. rewrite app_nil_r. by destruct f as [p d []]. Qed.

Lemma append_append x y f : append y (append x f) = append (x ++ y) f.
Proof. unfold append. destruct (tf_open f) eqn:E; simpl; rewrite ?E, ?app_assoc; done. Qed.

Lemma last_of_cons p s snaps : last_of p (s :: snaps) = last_of (Some s) snaps.
Proof. unfold last_of. destruct snaps as [|s' snaps]; [done|].
  change (last (s :: s' :: snaps)) with (last (s' :: snaps)). destruct (last (s' :: snaps)) eqn:E; [done|].
  by apply last_None in E.
Qed.

Lemma statsRows_app p l k : statsRows p (l ++ k) = statsRows p l ++ statsRows (last_of p l) k.
Proof.
  revert p. induction l as [|s l IH]; intros p; [done|]. simpl. by rewrite IH, last_of_cons.
Qed.

Lemma statsTick_view s t f p :
  stats_view t = (Some f, p) -> stats_view (statsTick s t) = (Some (append (csvWrite (statsRow s p)) f), Some s).
Proof. intros [= Hf Hp]. unfold statsTick, writeStatsSnapshot. rewrite Hf. unfold stats_view. simpl. by rewrite Hf, Hp. Qed.

Lemma stats_run steps e f p :
  stats_view <$> td_trace e = Some (Some f, p) ->
  stats_view <$> td_trace (runTrace steps e)
  = Some (Some (append (flat_map csvWrite (statsRows p (omap stats_of steps))) f), last_of p (omap stats_of steps)).
Proof.
  revert e f p. induction steps as [|[now op] steps IH]; intros e f p H; [by rewrite append_nil|].
  unfold runTrace in *. simpl foldl.
  destruct (is_stats op) eqn:Ho.
  - destruct op as [| | | | | | | | |s| |]; try done.
    rewrite (IH _ (append (csvWrite (statsRow s p)) f) (Some s)).
    2:{ rewrite applyTrace_fun by done. destruct (td_trace e) as [t|]; [|done]. injection H as Hf Hp.
        exact (f_equal Some (statsTick_view s t f p (f_equal2 pair Hf Hp))). }
    simpl. by rewrite append_append, last_of_cons.
  - rewrite (IH _ f p) by (rewrite stats_view_step by done; exact H). by destruct op.
Qed.

Lemma Close_stats fin t f p :
  stats_view t = (Some f, p) ->
  tl_statsFile (Close (Some fin) t) = Some (closeFile (append (csvWrite (statsRow (fi_stats fin) p)) f)).
Proof.
  destruct t as [f1 f2 f3 f4 f5 f6 f7 f8 f9 p1 p2 every done pending specs c1 c2 c3]. intros [= -> ->].
  unfold Close, closeSlot, writeStatsSnapshot, writeCountsSnapshot, writeScreenSnapshot, flushRTTLocked.
  by destruct f7, f8, f9, pending.
Qed.

(** The statistics file after a run: one row for every snapshot. *)
Lemma stats_file steps fin e f :
  stats_view <$> td_trace e = Some (Some f, None) -> tf_open f = true ->
  (stopTrace fin (runTrace steps e)).1 ≫= tl_statsFile
  = Some (mkTFile (tf_path f) (tf_data f ++ flat_map csvWrite (statsRows None (omap stats_of steps ++ [fi_stats fin]))) false).
Proof.
  intros H Ho. pose proof (stats_run steps e f None H) as Hr. unfold stopTrace.
  destruct (td_trace (runTrace steps e)) as [t|]; [|done]. injection Hr as Hf Hp.
  cbn [fst mbind option_bind]. rewrite (Close_stats fin t _ _ (f_equal2 pair Hf Hp)).
  rewrite append_append. unfold append. rewrite Ho. unfold closeFile. simpl.
  rewrite statsRows_app, flat_map_app. cbn [statsRows flat_map]. by rewrite app_nil_r.
Qed.

(** ** What the rows say *)

(** The snapshots of a collector at the ends of consecutive intervals, each with
    the operations the calls performed in it. *)
Fixpoint snapshots (c : Collector) (segs : list (Z * list stat_op)) : list Summary :=
  match segs with
  | [] => []
  | (now, ops) :: segs' =>
    let c' := foldl applyOp c ops in CollectorSnapshot now c' :: snapshots c' segs'
  end.

Definition is_class (name : string) (op : stat_op) : Z :=
  match op with OpFailureClass n => if bool_decide (TrimSpace n = lit name) then 1 else 0 | _ => 0 end.

Lemma bump_lookup n k m : k <> [] -> default 0 (bump n m !! k) = default 0 (m !! k) + (if bool_decide (TrimSpace n = k) then 1 else 0).
Proof.
  intros Hk. unfold bump. destruct (TrimSpace n) as [|b l] eqn:E.
  - rewrite bool_decide_eq_false_2 by congruence. lia.
  - destruct (decide (b :: l = k)) as [<- | Hne].
    + rewrite lookup_insert_eq, bool_decide_eq_true_2 by done. simpl. lia.
    + rewrite lookup_insert_ne, bool_decide_eq_false_2 by done. lia.
Qed.

Lemma class_count t ops name :
  lit name <> [] -> default 0 (st_failureClasses (runOps t ops) !! lit name) = weight (is_class name) ops.
Proof.
  intros Hn. induction ops as [|op ops IH] using rev_ind; [done|].
  rewrite weight_snoc. unfold runOps in *. rewrite foldl_app. simpl foldl. rewrite <- IH.
  destruct op as [|[] d|d| | |v|n d|n|n|n]; simpl; rewrite ?Z.add_0_r; try done.
  - unfold AddRTD. by destruct (_ || _).
  - by apply bump_lookup.
Qed.

(** The counters of which rows give the changes, as events of the calls. *)
Definition counted_events : list (nat * nat * (stat_op -> Z)) :=
  [(2, 27, is_start); (3, 28, is_success); (4, 29, is_failure); (8, 30, is_retransmit); (9, 31, is_timeout);
   (19, 37, is_class "timeout"); (20, 38, is_class "unexpected_sip"); (21, 39, is_class "transport_error");
   (22, 40, is_class "parse_error"); (23, 41, is_class "scenario_error"); (24, 42, is_class "cancelled")]%nat.

(** A row written at the end of an interval with operations [ops], after the
    operations [before]. *)
Definition reports (before ops : list stat_op) (row : list str) : Prop :=
  length row = length statColumns
  /\ Forall (fun c => row !! c.1.1 = Some (Itoa (weight c.2 (before ++ ops)))
                      /\ row !! c.1.2 = Some (Itoa (weight c.2 ops))) counted_events
  /\ row !! 5%nat = Some (Itoa (weight is_start (before ++ ops)
       - weight is_success (before ++ ops) - weight is_failure (before ++ ops))).

Lemma is_class_app t before ops name :
  lit name <> [] ->
  default 0 (st_failureClasses (runOps t (before ++ ops)) !! lit name)
  - default 0 (st_failureClasses (runOps t before) !! lit name) = weight (is_class name) ops.
Proof. intros H. rewrite !class_count, weight_app by done. lia. Qed.

Lemma row_reports t before ops now previous :
  (previous = None /\ before = []) \/ (exists now0, previous = Some (CollectorSnapshot now0 (runOps t before))) ->
  reports before ops (statsRow (CollectorSnapshot now (runOps t (before ++ ops))) previous).
Proof.
  intros Hp. pose proof (runOps_collected t (before ++ ops)) as C2. pose proof (runOps_collected t before) as C1.
  split; [by destruct Hp as [[-> ->] | [now0 ->]]|]. split.
  - unfold counted_events, statsRow, deltas, deltaCounters, mediaCounters, failureCounters, failureClassCount.
    destruct Hp as [[-> ->] | [now0 ->]]; cbn [app] in C2;
      repeat apply Forall_cons_2; try apply Forall_nil_2; cbn -[Itoa weight runOps lit]; split; do 2 f_equal;
      rewrite ?class_count by done;
      rewrite ?(col_total _ _ _ C2), ?(col_success _ _ _ C2), ?(col_failed _ _ _ C2),
        ?(col_retransmits _ _ _ C2), ?(col_timeouts _ _ _ C2),
        ?(col_total _ _ _ C1), ?(col_success _ _ _ C1), ?(col_failed _ _ _ C1),
        ?(col_retransmits _ _ _ C1), ?(col_timeouts _ _ _ C1), ?weight_app; lia.
  - simpl. do 2 f_equal. by rewrite (col_active _ _ _ C2).
Qed.

Definition performed (segs : list (Z * list stat_op)) : list stat_op := concat (map snd segs).

Lemma rows_report t segs : forall before previous i now ops,
  (previous = None /\ before = []) \/ (exists now0, previous = Some (CollectorSnapshot now0 (runOps t before))) ->
  segs !! i = Some (now, ops) ->
  exists row, statsRows previous (snapshots (runOps t before) segs) !! i = Some row
    /\ reports (before ++ performed (take i segs)) ops row.
Proof.
  induction segs as [|[now1 ops1] segs IH]; intros before previous i now ops Hp Hi; [done|].
  assert (foldl applyOp (runOps t before) ops1 = runOps t (before ++ ops1)) as E
    by (unfold runOps; by rewrite foldl_app).
  cbn [snapshots statsRows]. rewrite E. destruct i as [|i].
  - injection Hi as -> ->. rewrite app_nil_r. eexists. split; [done|]. by apply row_reports.
  - destruct (IH (before ++ ops1) (Some (CollectorSnapshot now1 (runOps t (before ++ ops1)))) i now ops) as (row & Hr & Hrep).
    + right. by eexists.
    + done.
    + exists row. split; [done|]. unfold performed in *. simpl. by rewrite app_assoc.
Qed.

Lemma statsRows_length p snaps : length (statsRows p snaps) = length snaps.
Proof. revert p. induction snaps as [|s snaps IH]; intros p; simpl; [done|]. by rewrite IH. Qed.

Lemma snapshots_length c segs : length (snapshots c segs) = length segs.
Proof. revert c. induction segs as [|[now ops] segs IH]; intros c; simpl; [done|]. by rewrite IH. Qed.

Lemma statsRows_nonempty p snaps : Forall (fun r => r <> []) (statsRows p snaps).
Proof. revert p. induction snaps; intros p; constructor; [done|auto]. Qed.

Lemma headerLine_write columns :
  forallb (fun c => negb (fieldNeedsQuotes c)) columns = true -> headerLine columns = csvWrite columns.
Proof.
  intros H. symmetry. apply csvWrite_names. apply Forall_forall. intros c Hc.
  rewrite forallb_forall in H. specialize (H c). rewrite <- list_elem_of_In in H.
  by apply H, negb_true_iff in Hc.
Qed.

(** ** Opening *)

Section Opened.

Context (create writable : str -> bool).

Definition openIf (s : slot) (on : bool) (path : str) (t : traceLogger) : traceLogger :=
  if on then on_file s (fun _ => Some (mkTFile path [] true)) t else t.
Definition writeIf (s : slot) (on : bool) (text : str) (t : traceLogger) : traceLogger :=
  if on then write s text t else t.

Lemma openSlot_ok s on path t t' : openSlot create s on path t = Ok t' -> openIf s on path t = t'.
Proof. unfold openSlot, openIf. destruct on; simpl; [destruct (create path); [|done]|]; by intros <-%Ok_inj. Qed.

Lemma writeHeader_ok s on path text t t' : writeHeader writable s on path text t = Ok t' -> writeIf s on text t = t'.
Proof. unfold writeHeader, writeIf. destruct on; simpl; [destruct (writable path); [|done]|]; by intros <-%Ok_inj. Qed.

Lemma openShort_ok on path t t' :
  openShort create writable on path t = Ok t' -> writeIf SShort on (headerLine shortColumns) (openIf SShort on path t) = t'.
Proof.
  unfold openShort, openIf, writeIf.
  destruct on; simpl; [destruct (create path); [|done]; destruct (writable path); [|done]|]; by intros <-%Ok_inj.
Qed.

(** The fields that are not files. *)
Definition books (t : traceLogger) :=
  (tl_statsPrevious t, tl_screenPrevious t, (tl_rttFlushEvery t, tl_rttCompletedCalls t, tl_rttPending t),
   (tl_countSpecs t, tl_countSent t, tl_countRecv t, tl_countUnexp t)).

Lemma books_openIf s on path t : books (openIf s on path t) = books t.
Proof. by destruct on. Qed.
Lemma books_writeIf s on text t : books (writeIf s on text t) = books t.
Proof. by destruct on. Qed.

Lemma file_of_openIf_ne s s' on path t : s' <> s -> file_of s (openIf s' on path t) = file_of s t.
Proof. intros H. destruct on; simpl; [|done]. rewrite file_of_on_file. by rewrite decide_False. Qed.
Lemma file_of_writeIf_ne s s' on text t : s' <> s -> file_of s (writeIf s' on text t) = file_of s t.
Proof. intros H. destruct on; simpl; [|done]. unfold write. rewrite file_of_on_file. by rewrite decide_False. Qed.
Lemma file_of_openIf s on path t :
  file_of s (openIf s on path t) = if on then Some (mkTFile path [] true) else file_of s t.
Proof. destruct on; simpl; [|done]. rewrite file_of_on_file. by rewrite decide_True. Qed.
Lemma file_of_writeIf s on text t :
  file_of s (writeIf s on text t) = if on then append text <$> file_of s t else file_of s t.
Proof. destruct on; simpl; [|done]. unfold write. rewrite file_of_on_file. by rewrite decide_True. Qed.

Definition slotOn (cfg : traceConfig) (s : slot) : bool :=
  match s with
  | SFull => tc_TraceMessages cfg | SShort => tc_TraceShortMsg cfg | SErr => tc_TraceErrors cfg
  | SErrCodes => tc_TraceErrorCodes cfg | SLog => tc_TraceLogs cfg | SStats => tc_TraceStats cfg
  | SRtt => tc_TraceRTT cfg | SScreen => tc_TraceScreen cfg | SCounts => tc_TraceCounts cfg
  end.

Definition slotPath (cfg : traceConfig) (s : slot) : str :=
  let stem := stemPath cfg in
  match s with
  | SFull => basePath cfg | SShort => deriveShortTracePath stem
  | SErr => orElse (tc_ErrorFile cfg) (deriveNamedTracePath stem (lit "_errors"))
  | SErrCodes => deriveErrorCodesPath cfg stem
  | SLog => orElse (tc_LogFile cfg) (deriveNamedTracePath stem (lit "_logs"))
  | SStats => deriveStatsTracePath stem | SRtt => deriveRTTTracePath stem
  | SScreen => orElse (tc_ScreenFile cfg) (deriveScreenTracePath stem)
  | SCounts => deriveCountsTracePath stem
  end.

Definition slotHeader (cfg : traceConfig) (s : slot) : str :=
  match s with
  | SFull | SErr | SLog => []
  | SShort => headerLine shortColumns | SErrCodes => headerLine errorCodeColumns | SStats => headerLine statColumns
  | SRtt => headerLine rttColumns | SScreen => headerLine screenColumns
  | SCounts => buildTraceCountsHeader (buildTraceCountSpecs (tc_Scenario cfg))
  end.

Definition setRttIf (cfg : traceConfig) (t : traceLogger) : traceLogger :=
  if tc_TraceRTT cfg then withRtt (flushEvery cfg) 0 [] t else t.
Definition setCountsIf (cfg : traceConfig) (t : traceLogger) : traceLogger :=
  if tc_TraceCounts cfg then withCounts (buildTraceCountSpecs (tc_Scenario cfg)) ∅ ∅ ∅ t else t.

Definition opened (cfg : traceConfig) : traceLogger :=
  let o s := openIf s (slotOn cfg s) (slotPath cfg s) in
  let w s := writeIf s (slotOn cfg s) (slotHeader cfg s) in
  w SCounts (setCountsIf cfg (o SCounts (w SScreen (o SScreen (setRttIf cfg (w SRtt (o SRtt (w SStats (o SStats
    (o SLog (w SErrCodes (o SErrCodes (o SErr (w SShort (o SShort (o SFull emptyTrace)))))))))))))))).

Lemma openAll_ok cfg t : openAll create writable cfg = Ok t -> t = opened cfg.
Proof.
  unfold openAll. intros H.
  repeat (apply rbind_ok in H as (? & Hs & H);
          first [apply openSlot_ok in Hs | apply writeHeader_ok in Hs | apply openShort_ok in Hs]; subst).
  apply writeHeader_ok in H. by subst.
Qed.

Lemma file_of_setRttIf s cfg t : file_of s (setRttIf cfg t) = file_of s t.
Proof. unfold setRttIf. destruct (tc_TraceRTT cfg); by destruct s. Qed.
Lemma file_of_setCountsIf s cfg t : file_of s (setCountsIf cfg t) = file_of s t.
Proof. unfold setCountsIf. destruct (tc_TraceCounts cfg); by destruct s. Qed.

(** Each file that is asked for is open and holds its header. *)
Lemma opened_file cfg s :
  file_of s (opened cfg) = if slotOn cfg s then Some (mkTFile (slotPath cfg s) (slotHeader cfg s) true) else None.
Proof.
  unfold opened. cbv zeta.
  destruct s;
    repeat first [rewrite file_of_setCountsIf | rewrite file_of_setRttIf | rewrite file_of_openIf_ne by done
                 | rewrite file_of_writeIf_ne by done];
    rewrite ?file_of_writeIf;
    repeat first [rewrite file_of_setCountsIf | rewrite file_of_openIf_ne by done];
    rewrite ?file_of_openIf;
    repeat first [rewrite file_of_setCountsIf | rewrite file_of_setRttIf | rewrite file_of_openIf_ne by done
                 | rewrite file_of_writeIf_ne by done];
    by destruct (slotOn cfg _).
Qed.

Lemma opened_books cfg :
  books (opened cfg)
  = (None, None, (if tc_TraceRTT cfg then flushEvery cfg else 0, 0, []),
     (if tc_TraceCounts cfg then buildTraceCountSpecs (tc_Scenario cfg) else [], ∅, ∅, ∅)).
Proof.
  unfold opened, setRttIf, setCountsIf. rewrite books_writeIf.
  assert (forall t, books (if tc_TraceCounts cfg then withCounts (buildTraceCountSpecs (tc_Scenario cfg)) ∅ ∅ ∅ t else t)
    = if tc_TraceCounts cfg then ((books t).1, (buildTraceCountSpecs (tc_Scenario cfg), ∅, ∅, ∅)) else books t) as ->
    by (intros; by destruct (tc_TraceCounts cfg)).
  rewrite !books_openIf, !books_writeIf, !books_openIf.
  assert (forall t, books (if tc_TraceRTT cfg then withRtt (flushEvery cfg) 0 [] t else t)
    = if tc_TraceRTT cfg then ((books t).1.1, (flushEvery cfg, 0, []), (books t).2) else books t) as ->
    by (intros; by destruct (tc_TraceRTT cfg)).
  repeat rewrite ?books_openIf, ?books_writeIf. by destruct (tc_TraceRTT cfg), (tc_TraceCounts cfg).
Qed.

End Opened.

(** The logger with which a run starts. *)
Definition startTrace (cfg : traceConfig) (t : traceLogger) (log : option (list Event)) : traced :=
  mkTraced (tc_TraceMessages cfg) (tc_TraceErrors cfg) (tc_TraceErrorCodes cfg) (Some t) log [].

Lemma newTraceLogger_opened create writable cfg t :
  newTraceLogger create writable cfg = Ok (Some t) -> t = opened cfg.
Proof.
  unfold newTraceLogger. destruct (tracing cfg); [|by intros ?%Ok_inj]. intros (t' & Ht & H)%rbind_ok.
  apply Ok_inj in H as [= <-]. by eapply openAll_ok.
Qed.

(** C18: Whatever the engine traces and in whatever order, the statistics file of
    a run, read as comma-separated values, has its header and one row for every
    snapshot, the one at the end included; and the row of an interval gives the
    calls started, succeeded, failed and active, the retransmissions, the
    timeouts and the failures of each class, both from the beginning of the run
    and exactly those of the interval. *)
Theorem stats_file_exact create writable cfg t log steps fin start segs :
  newTraceLogger create writable cfg = Ok (Some t) -> tc_TraceStats cfg = true ->
  omap stats_of steps ++ [fi_stats fin] = snapshots (NewCollector start) segs ->
  exists data rows,
    (stopTrace fin (runTrace steps (startTrace cfg t log))).1 ≫= tl_statsFile
      = Some (mkTFile (deriveStatsTracePath (stemPath cfg)) data false)
    /\ csvRead data = Some (statColumns :: rows) /\ length rows = length segs
    /\ (forall i now ops, segs !! i = Some (now, ops) ->
          exists row, rows !! i = Some row /\ reports (performed (take i segs)) ops row).
Proof.
  intros ->%newTraceLogger_opened Hon Hs.
  pose proof (opened_file cfg SStats) as Hf. pose proof (opened_books cfg) as Hb. simpl slotOn in Hf. rewrite Hon in Hf.
  assert (stats_view (opened cfg) = (Some (mkTFile (slotPath cfg SStats) (slotHeader cfg SStats) true), None)) as Hv.
  { injection Hb as H1 _ _ _ _ _ _ _ _. unfold stats_view. simpl in Hf. by rewrite Hf, H1. }
  rewrite (stats_file steps fin (startTrace cfg (opened cfg) log) _ (f_equal Some Hv) eq_refl), Hs.
  exists (headerLine statColumns ++ flat_map csvWrite (statsRows None (snapshots (NewCollector start) segs))),
    (statsRows None (snapshots (NewCollector start) segs)).
  split; [done|]. split.
  - rewrite headerLine_write, csvRead_cons, csv_roundtrip by (apply statsRows_nonempty || done). done.
  - split; [by rewrite statsRows_length, snapshots_length|]. intros i now ops Hi.
    apply (rows_report start segs [] None i now ops); [by left|done].
Qed.

(** ** The response times *)

Definition rtt_view (t : traceLogger) : option tfile * Z * Z * list (list str) :=
  (tl_rttFile t, tl_rttFlushEvery t, tl_rttCompletedCalls t, tl_rttPending t).
Definition is_rtt (op : trace_op) : bool := match op with TRTD _ _ _ | TCompleted => true | _ => false end.

Lemma rtt_view_step now op e :
  is_rtt op = false -> rtt_view <$> td_trace (applyTrace e (now, op)) = rtt_view <$> td_trace e.
Proof. apply view_step; view_cases. Qed.

Definition rtd_row (x : Z * trace_op) : option (list str) :=
  match x.2 with TRTD n name v => Some [stamp x.1; Itoa n; name; Itoa (Milliseconds v)] | _ => None end.
Definition completions (steps : list (Z * trace_op)) : Z :=
  zsum (map (fun x => match x.2 with TCompleted => 1 | _ => 0 end) steps).

(** The rows of [s1] are in the file, those of [s2] wait. *)
Definition rtt_split (f : tfile) (every : Z) (steps s1 s2 : list (Z * trace_op)) (t : traceLogger) : Prop :=
  steps = s1 ++ s2
  /\ rtt_view t = (Some (append (flat_map csvWrite (omap rtd_row s1)) f), every, completions s2, omap rtd_row s2)
  /\ completions s2 < every /\ (every | completions s1).

Lemma completions_app l k : completions (l ++ k) = completions l + completions k.
Proof. unfold completions. by rewrite map_app, zsum_app. Qed.

Lemma completions_nonneg l : 0 <= completions l.
Proof. unfold completions. induction l as [|[now []] l IH]; simpl; lia. Qed.

Lemma flush_view t f every n :
  rtt_view t = (Some f, every, n, tl_rttPending t) ->
  rtt_view (flushRTTLocked t) = (Some (append (flat_map csvWrite (tl_rttPending t)) f), every, n, []).
Proof.
  intros [= Hf He Hn]. unfold flushRTTLocked, rtt_view. rewrite Hf.
  destruct (tl_rttPending t) eqn:Hp; simpl; rewrite ?Hf, ?He, ?Hn, ?Hp; by rewrite ?append_nil.
Qed.

Lemma rtt_step f every steps s1 s2 t now op :
  is_rtt op = true -> rtt_split f every steps s1 s2 t ->
  exists s1' s2', rtt_split f every (steps ++ [(now, op)]) s1' s2' (op_fun now op t).
Proof.
  intros Ho (Es & [= Hf He Hn Hp] & Hlt & Hd).
  destruct op as [| | | |n name v| | | | | | |]; try done; simpl; rewrite Hf.
  - exists s1, (s2 ++ [(now, TRTD n name v)]). split; [by rewrite Es, app_assoc|]. unfold rtt_view. simpl.
    assert (completions (s2 ++ [(now, TRTD n name v)]) = completions s2) as -> by (rewrite completions_app; apply Z.add_0_r).
    by rewrite Hf, He, Hn, Hp, omap_app.
  - rewrite He, Hn. destruct (every <=? completions s2 + 1) eqn:E; bool_to_prop.
    + exists (steps ++ [(now, TCompleted)]), []. split; [by rewrite app_nil_r|].
      set (t1 := withRtt every (completions s2 + 1) (tl_rttPending t) t).
      pose proof (flush_view t1 _ every (completions s2 + 1)
        (f_equal (fun g => (g, every, completions s2 + 1, tl_rttPending t)) Hf)) as [= F1 F2 F3 F4].
      split_and!.
      * unfold rtt_view. simpl. unfold completions. simpl. rewrite F1, F2, F4.
        simpl tl_rttPending. rewrite Hp, append_append, <- flat_map_app, <- omap_app, <- Es, omap_app. simpl.
        by rewrite app_nil_r.
      * pose proof (completions_nonneg s2). unfold completions at 1. simpl. lia.
      * rewrite Es, <- app_assoc, !completions_app. change (completions [(now, TCompleted)]) with 1.
        replace (completions s2 + 1) with every by lia.
        apply Z.divide_add_r; [done|]. apply Z.divide_refl.
    + exists s1, (s2 ++ [(now, TCompleted)]). split; [by rewrite Es, app_assoc|].
      assert (completions (s2 ++ [(now, TCompleted)]) = completions s2 + 1) as -> by by rewrite completions_app.
      unfold rtt_view. simpl. rewrite Hf, Hp, omap_app. simpl. by rewrite app_nil_r.
Qed.

Lemma rtt_run f every steps e t :
  0 < every -> td_trace e = Some t -> rtt_view t = (Some f, every, 0, []) ->
  exists t' s1 s2, td_trace (runTrace steps e) = Some t' /\ rtt_split f every steps s1 s2 t'.
Proof.
  intros He Ht Hv. induction steps as [|[now op] steps IH] using rev_ind.
  - exists t, [], []. split; [done|]. split; [done|]. split; [by rewrite append_nil|]. split; [done|apply Z.divide_0_r].
  - destruct IH as (t' & s1 & s2 & Ht' & Hs). unfold runTrace in *. rewrite foldl_app. simpl foldl.
    set (e' := foldl applyTrace e steps) in *.
    destruct (is_rtt op) eqn:Ho.
    + destruct (rtt_step _ _ _ _ _ _ now op Ho Hs) as (s1' & s2' & Hs'). exists (op_fun now op t'), s1', s2'.
      split; [|done]. rewrite applyTrace_fun by (by destruct op). by rewrite Ht'.
    + pose proof (rtt_view_step now op e' Ho) as Hw. rewrite Ht' in Hw.
      destruct (td_trace (applyTrace e' (now, op))) as [t''|]; [|done].
      exists t'', s1, (s2 ++ [(now, op)]). split; [done|]. destruct Hs as (Es & Hr & Hlt & Hd).
      injection Hw as W1 W2 W3 W4.
      split; [by rewrite Es, app_assoc|].
      assert (completions (s2 ++ [(now, op)]) = completions s2) as ->
        by (rewrite completions_app; destruct op; try done; apply Z.add_0_r).
      assert (omap rtd_row (s2 ++ [(now, op)]) = omap rtd_row s2) as ->
        by (rewrite omap_app; destruct op; try done; apply app_nil_r).
      split; [|done]. rewrite <- Hr. unfold rtt_view. by rewrite W1, W2, W3, W4.
Qed.

Lemma Close_rtt fin t f every n :
  rtt_view t = (Some f, every, n, tl_rttPending t) ->
  tl_rttFile (Close (Some fin) t) = Some (closeFile (append (flat_map csvWrite (tl_rttPending t)) f)).
Proof.
  destruct t as [f1 f2 f3 f4 f5 f6 f7 f8 f9 p1 p2 ev done pending specs c1 c2 c3]. intros [= -> -> ->].
  unfold Close, closeSlot, writeStatsSnapshot, writeCountsSnapshot, writeScreenSnapshot, flushRTTLocked.
  destruct f6, f8, f9, pending; simpl; by rewrite ?append_nil.
Qed.

(** Whatever the engine traces and in whatever order, the file of response
    times, read as comma-separated values after the run, has its header and
    exactly the recorded response times in the order of their recording; and
    while the engine runs, at most the response times recorded since the last
    complete batch of calls have not been written. *)
Theorem rtt_file_exact create writable cfg t log steps fin :
  newTraceLogger create writable cfg = Ok (Some t) -> tc_TraceRTT cfg = true ->
  let e := runTrace steps (startTrace cfg t log) in
  (exists data, (stopTrace fin e).1 ≫= tl_rttFile = Some (mkTFile (deriveRTTTracePath (stemPath cfg)) data false)
     /\ csvRead data = Some (rttColumns :: omap rtd_row steps))
  /\ (exists data s1 s2, td_trace e ≫= tl_rttFile = Some (mkTFile (deriveRTTTracePath (stemPath cfg)) data true)
     /\ steps = s1 ++ s2 /\ csvRead data = Some (rttColumns :: omap rtd_row s1)
     /\ completions s2 < flushEvery cfg /\ (flushEvery cfg | completions s1)).
Proof.
  intros ->%newTraceLogger_opened Hon e.
  pose proof (opened_file cfg SRtt) as Hf. pose proof (opened_books cfg) as Hb. simpl slotOn in Hf. rewrite Hon in Hf, Hb.
  injection Hb as _ _ H3 H4 H5 _ _ _ _. simpl in Hf.
  assert (0 < flushEvery cfg) as Hpos by (unfold flushEvery; destruct (_ <=? 0) eqn:E; bool_to_prop; lia).
  destruct (rtt_run (mkTFile (deriveRTTTracePath (stemPath cfg)) (headerLine rttColumns) true) (flushEvery cfg) steps
    (startTrace cfg (opened cfg) log) (opened cfg) Hpos eq_refl) as (t' & s1 & s2 & Ht & Es & Hr & Hlt & Hd).
  { unfold rtt_view. by rewrite Hf, H3, H4, H5. }
  assert (forall l, csvRead (headerLine rttColumns ++ flat_map csvWrite (omap rtd_row l)) = Some (rttColumns :: omap rtd_row l)) as Hread.
  { intros l. rewrite headerLine_write, csvRead_cons, csv_roundtrip; try done.
    apply Forall_forall. intros r (x & _ & Hx)%list_elem_of_omap ->. unfold rtd_row in Hx. destruct (x.2); discriminate. }
  split.
  - exists (headerLine rttColumns ++ flat_map csvWrite (omap rtd_row steps)). split; [|done].
    unfold stopTrace, e. rewrite Ht. cbn [fst mbind option_bind]. injection Hr as R1 R2 R3 R4.
    erewrite Close_rtt by (unfold rtt_view; by rewrite R1, R2, R3).
    rewrite R4, append_append, <- flat_map_app, <- omap_app, <- Es. done.
  - exists (headerLine rttColumns ++ flat_map csvWrite (omap rtd_row s1)), s1, s2. unfold e. rewrite Ht.
    injection Hr as R1 R2 R3 R4. cbn [mbind option_bind]. rewrite R1. split_and!; try done; apply Hread.
Qed.

(** ** The counts per command *)

Definition counts_view (t : traceLogger) :=
  (tl_countsFile t, tl_countSpecs t, tl_countSent t, tl_countRecv t, tl_countUnexp t).
Definition is_counts (op : trace_op) : bool :=
  match op with TSent _ | TRecv _ | TUnexp _ | TCounts => true | _ => false end.

Lemma counts_view_step now op e :
  is_counts op = false -> counts_view <$> td_trace (applyTrace e (now, op)) = counts_view <$> td_trace e.
Proof. apply view_step; view_cases. Qed.

(** How often a kind of step happened for a command. *)
Definition occurrences (kind : Z -> trace_op -> bool) (i : Z) (steps : list (Z * trace_op)) : Z :=
  zsum (map (fun x => if kind i x.2 then 1 else 0) steps).
Definition sent_at (i : Z) (op : trace_op) : bool := match op with TSent j => i =? j | _ => false end.
Definition recv_at (i : Z) (op : trace_op) : bool := match op with TRecv j => i =? j | _ => false end.
Definition unexp_at (i : Z) (op : trace_op) : bool := match op with TUnexp j => i =? j | _ => false end.

Definition countRow (specs : list traceCountSpec) (now : Z) (before : list (Z * trace_op)) : list str :=
  stamp now ::
  flat_map (fun spec => let i := sp_CommandIndex spec in
    [Itoa (occurrences sent_at i before); Itoa (occurrences recv_at i before); Itoa (occurrences unexp_at i before)]) specs.

(** The rows for a run that continues [before]. *)
Fixpoint countRows (specs : list traceCountSpec) (before steps : list (Z * trace_op)) : list (list str) :=
  match steps with
  | [] => []
  | x :: steps' =>
    match x.2 with TCounts => [countRow specs x.1 before] | _ => [] end
    ++ countRows specs (before ++ [x]) steps'
  end.

Lemma countRows_app specs before l k :
  countRows specs before (l ++ k) = countRows specs before l ++ countRows specs (before ++ l) k.
Proof.
  revert before. induction l as [|x l IH]; intros before; simpl; [by rewrite app_nil_r|].
  by rewrite IH, <- !app_assoc.
Qed.

Lemma occurrences_snoc kind i steps x :
  occurrences kind i (steps ++ [x]) = occurrences kind i steps + (if kind i x.2 then 1 else 0).
Proof. unfold occurrences. rewrite map_app, zsum_app. simpl. lia. Qed.

Lemma count_at_bump i j m : count_at (bump_at j m) i = count_at m i + (if i =? j then 1 else 0).
Proof.
  unfold count_at, bump_at. destruct (i =? j) eqn:E; bool_to_prop.
  - subst. by rewrite lookup_insert_eq.
  - rewrite lookup_insert_ne by congruence. lia.
Qed.

Definition counts_ok (f : tfile) (specs : list traceCountSpec) (steps : list (Z * trace_op)) (t : traceLogger) : Prop :=
  tl_countsFile t = Some (append (flat_map csvWrite (countRows specs [] steps)) f) /\ tl_countSpecs t = specs
  /\ forall i, count_at (tl_countSent t) i = occurrences sent_at i steps
               /\ count_at (tl_countRecv t) i = occurrences recv_at i steps
               /\ count_at (tl_countUnexp t) i = occurrences unexp_at i steps.

Lemma countsRow_ok f specs steps t now :
  counts_ok f specs steps t -> countsRow now t = countRow specs now steps.
Proof.
  intros (_ & <- & H). unfold countsRow, countRow. f_equal. apply flat_map_ext. intros spec.
  destruct (H (sp_CommandIndex spec)) as (-> & -> & ->). done.
Qed.

Lemma counts_step f specs steps t now op :
  is_counts op = true -> counts_ok f specs steps t -> counts_ok f specs (steps ++ [(now, op)]) (op_fun now op t).
Proof.
  intros Ho Hok. pose proof (countsRow_ok _ _ _ _ now Hok) as Hrow. destruct Hok as (Hf & Hs & Hc).
  unfold counts_ok. rewrite countRows_app. setoid_rewrite occurrences_snoc.
  destruct op as [| | | | | |i|i|i| | |]; try done; simpl op_fun; unfold countsTick, writeCountsSnapshot; rewrite Hf; simpl.
  4: { rewrite Hrow, Hf, flat_map_app. simpl. rewrite append_append, app_nil_r. split_and!; try done.
       intros j. destruct (Hc j) as (-> & -> & ->). split_and!; lia. }
  all: rewrite app_nil_r; split_and!; try done; intros j; destruct (Hc j) as (C1 & C2 & C3).
  all: rewrite ?count_at_bump, C1, C2, C3; split_and!; lia.
Qed.

Lemma counts_run f specs steps e t :
  td_trace e = Some t -> counts_view t = (Some f, specs, ∅, ∅, ∅) ->
  exists t', td_trace (runTrace steps e) = Some t' /\ counts_ok f specs steps t'.
Proof.
  intros Ht [= Hf Hsp H1 H2 H3]. induction steps as [|[now op] steps IH] using rev_ind.
  - exists t. split; [done|]. split; [by rewrite append_nil|]. rewrite H1, H2, H3. done.
  - destruct IH as (t' & Ht' & Hok). unfold runTrace in *. rewrite foldl_app. simpl foldl.
    set (e' := foldl applyTrace e steps) in *. destruct (is_counts op) eqn:Ho.
    + exists (op_fun now op t'). split; [|by apply counts_step].
      rewrite applyTrace_fun by (by destruct op). by rewrite Ht'.
    + pose proof (counts_view_step now op e' Ho) as Hw. rewrite Ht' in Hw.
      destruct (td_trace (applyTrace e' (now, op))) as [t''|]; [|done]. injection Hw as W1 W2 W3 W4 W5.
      exists t''. split; [done|]. unfold counts_ok in *. rewrite W1, W2, W3, W4, W5, countRows_app.
      setoid_rewrite occurrences_snoc. destruct Hok as (O1 & O2 & O3).
      destruct op; try done; simpl; rewrite app_nil_r; split_and!; try done; intros i; rewrite !Z.add_0_r; apply O3.
Qed.

(** *** The header of the counts *)

(** Bytes of a column name. *)
Definition name_byte (b : byte) : bool := in_range 48 57 b || in_range 65 90 b || in_range 97 122 b || beqb b x5f || beqb b x2d.

Lemma name_byte_spec b : name_byte b = true -> csv_special b = false /\ plain b = true.
Proof.
  assert (forallb (fun b => negb (name_byte b) || (negb (csv_special b) && plain b))
            (map (fun n => z2b (Z.of_nat n)) (seq 0 256)) = true) as H by (vm_compute; done).
  intros Hb. rewrite forallb_forall in H. specialize (H b). rewrite Hb in H. simpl in H.
  assert (In b (map (fun n => z2b (Z.of_nat n)) (seq 0 256))) as Hi.
  { apply in_map_iff. exists (Z.to_nat (b2z b)). pose proof (b2z_range b). split.
    - rewrite Z2Nat.id by lia. apply z2b_b2z.
    - apply in_seq. lia. }
  specialize (H Hi). apply andb_true_iff in H as [H1 H2]. by apply negb_true_iff in H1.
Qed.

Definition name_ok (s : str) : Prop := Forall (fun b => name_byte b = true) s.

Lemma name_needs_no_quotes s : name_ok s -> fieldNeedsQuotes s = false.
Proof.
  intros H. destruct s as [|b s]; [done|]. unfold fieldNeedsQuotes.
  assert (existsb csv_special (b :: s) = false) as ->.
  { apply not_true_iff_false. intros (x & Hx & Hs)%existsb_exists. apply list_elem_of_In in Hx.
    unfold name_ok in H. rewrite Forall_forall in H. apply H, name_byte_spec in Hx as [Hx _]. congruence. }
  apply Forall_cons in H as [Hb _]. destruct (name_byte_spec b Hb) as [_ Hp].
  rewrite (starts_space_plain b s Hp), bool_decide_eq_false_2; [done|]. intros [= -> _]. done.
Qed.

Lemma trim_left_set_Forall P cut s : Forall P s -> Forall P (trim_left_set cut s).
Proof. induction 1 as [|b s Hb Hs IH]; simpl; [done|]. destruct (cut b); [done|]. by constructor. Qed.

Lemma Trim_Forall P cut s : Forall P s -> Forall P (Trim cut s).
Proof.
  intros H. unfold Trim, TrimRight. apply Forall_rev, trim_left_set_Forall, Forall_rev, trim_left_set_Forall, H.
Qed.

Lemma label_rune_name r : name_byte (label_rune r) = true.
Proof.
  unfold label_rune. destruct (_ || _) eqn:E; [|done]. unfold name_byte, in_range. rewrite b2z_z2b.
  rewrite Z.mod_small by lia. lia.
Qed.

Lemma sanitize_ok value : name_ok (sanitizeTraceCountLabel value).
Proof.
  unfold sanitizeTraceCountLabel. destruct value as [|b value]; [by repeat constructor|].
  assert (name_ok (Trim (fun b => beqb b x5f) (map label_rune (runes (b :: value))))) as H.
  { apply Trim_Forall. apply Forall_forall. intros x (r & -> & _)%list_elem_of_fmap_1. apply label_rune_name. }
  destruct (Trim _ _); [by repeat constructor|done].
Qed.

Lemma label_ok cmd : name_ok (traceCountLabel cmd).
Proof.
  unfold traceCountLabel. destruct (c_Type cmd); try (by repeat constructor); [apply sanitize_ok|].
  destruct (c_RecvReq cmd), (c_RecvResp cmd); try apply sanitize_ok. by repeat constructor.
Qed.

Lemma Itoa_name z : name_ok (Itoa z).
Proof.
  unfold Itoa. assert (forall n, name_ok (dec_of n)) as H.
  { intros n. eapply Forall_impl; [apply dec_of_digits|]. intros b Hb. unfold name_byte. by rewrite Hb. }
  destruct (z <? 0); [|done]. constructor; [done|]. apply H.
Qed.

Lemma name_app s t : name_ok s -> name_ok t -> name_ok (s ++ t).
Proof. intros. by apply Forall_app. Qed.

Lemma counts_header sc :
  let specs := buildTraceCountSpecs sc in
  buildTraceCountsHeader specs = csvWrite (lit "timestamp" :: flat_map countColumns specs).
Proof.
  intros specs. symmetry. apply csvWrite_names. constructor; [done|]. unfold specs, buildTraceCountSpecs.
  induction (List.filter counted (sc_Commands sc)) as [|cmd cmds IH]; simpl; [done|].
  pose proof (label_ok cmd) as Hl.
  repeat constructor; try apply IH; apply name_needs_no_quotes; unfold sp_Label, sp_CommandIndex;
    repeat apply name_app; try apply Itoa_name; try done; by repeat constructor.
Qed.

Lemma countRows_nonempty specs before steps : Forall (fun r => r <> []) (countRows specs before steps).
Proof.
  revert before. induction steps as [|[now op] steps IH]; intros before; simpl; [done|].
  apply Forall_app. split; [|apply IH]. destruct op; try done. by repeat constructor.
Qed.

Lemma countsRow_view now t t' : counts_view t = counts_view t' -> countsRow now t = countsRow now t'.
Proof. intros [= _ H1 H2 H3 H4]. unfold countsRow. by rewrite H1, H2, H3, H4. Qed.

Lemma Close_counts_file fin t f :
  tl_countsFile t = Some f ->
  tl_countsFile (Close (Some fin) t) = Some (closeFile (append (csvWrite (countsRow (fi_now fin) t)) f)).
Proof.
  intros Hf. unfold Close. cbv zeta.
  set (t1 := foldl _ t _).
  set (t2 := writeStatsSnapshot _ _ t1).
  assert (counts_view t2 = counts_view t) as Hv.
  { change (counts_view t) with (counts_view t1). unfold t2, writeStatsSnapshot. by destruct (tl_statsFile t1). }
  rewrite <- (countsRow_view (fi_now fin) _ _ Hv).
  assert (tl_countsFile t2 = Some f) as Hf2 by (injection Hv as -> _; done).
  clearbody t2. clear Hf Hv t1 t.
  assert (tl_countsFile (writeCountsSnapshot (fi_now fin) t2) = Some (append (csvWrite (countsRow (fi_now fin) t2)) f)) as H3.
  { unfold writeCountsSnapshot. rewrite Hf2. change (append (csvWrite (countsRow (fi_now fin) t2)) <$> tl_countsFile t2 =
      Some (append (csvWrite (countsRow (fi_now fin) t2)) f)). by rewrite Hf2. }
  revert H3. generalize (writeCountsSnapshot (fi_now fin) t2), (append (csvWrite (countsRow (fi_now fin) t2)) f).
  clear. intros t g H. destruct t as [f1 f2 f3 f4 f5 f6 f7 f8 f9 p1 p2 ev done pending sp c1 c2 c3]. simpl in H. subst f9.
  unfold closeSlot, writeScreenSnapshot, flushRTTLocked. by destruct f7, f8, pending.
Qed.

Lemma Close_counts fin t f specs steps :
  counts_ok f specs steps t ->
  tl_countsFile (Close (Some fin) t) = Some (closeFile (append (flat_map csvWrite (countRows specs [] (steps ++ [(fi_now fin, TCounts)]))) f)).
Proof.
  intros Hok. pose proof (countsRow_ok _ _ _ _ (fi_now fin) Hok) as Hrow. destruct Hok as (Hf & _ & _).
  rewrite (Close_counts_file fin t _ Hf), Hrow, append_append, countRows_app, flat_map_app. simpl.
  by rewrite app_nil_r.
Qed.

(** Whatever the engine traces and in whatever order, the file of counts, read
    as comma-separated values after the run, has one column each for the
    messages sent, received and unexpected of every [send] and [recv] command,
    and in every row, the last one at the end of the run included, the exact
    counts up to the time it was written. *)
Theorem counts_file_exact create writable cfg t log steps fin :
  newTraceLogger create writable cfg = Ok (Some t) -> tc_TraceCounts cfg = true ->
  let specs := buildTraceCountSpecs (tc_Scenario cfg) in
  exists data,
    (stopTrace fin (runTrace steps (startTrace cfg t log))).1 ≫= tl_countsFile
      = Some (mkTFile (deriveCountsTracePath (stemPath cfg)) data false)
    /\ csvRead data = Some ((lit "timestamp" :: flat_map countColumns specs)
                            :: countRows specs [] (steps ++ [(fi_now fin, TCounts)])).
Proof.
  intros ->%newTraceLogger_opened Hon specs.
  pose proof (opened_file cfg SCounts) as Hf. pose proof (opened_books cfg) as Hb. simpl slotOn in Hf. rewrite Hon in Hf, Hb.
  injection Hb as _ _ _ _ _ B1 B2 B3 B4. simpl in Hf.
  destruct (counts_run (mkTFile (deriveCountsTracePath (stemPath cfg)) (buildTraceCountsHeader specs) true) specs steps (startTrace cfg (opened cfg) log) (opened cfg) eq_refl) as (t' & Ht & Hok).
  { unfold counts_view. rewrite Hf, B1, B2, B3, B4. done. }
  exists (buildTraceCountsHeader specs ++ flat_map csvWrite (countRows specs [] (steps ++ [(fi_now fin, TCounts)]))).
  unfold stopTrace. rewrite Ht. cbn [fst mbind option_bind]. rewrite (Close_counts fin _ _ _ _ Hok).
  generalize (countRows_nonempty specs [] (steps ++ [(fi_now fin, TCounts)])).
  generalize (countRows specs [] (steps ++ [(fi_now fin, TCounts)])). intros rows Hrows. split; [done|].
  unfold specs. rewrite counts_header, csvRead_cons, csv_roundtrip by done. done.
Qed.

(** ** Opening that fails, and names *)

Definition closed_at (s : slot) (t : traceLogger) : Prop := forall f, file_of s t = Some f -> tf_open f = false.

Lemma closed_closeSlot s t : closed_at s (closeSlot s t).
Proof.
  intros f. unfold closeSlot. rewrite file_of_on_file, decide_True by done. destruct (file_of s t); [|done]. by intros [= <-].
Qed.

Lemma closed_on_file s s' g t : s' <> s -> closed_at s t -> closed_at s (on_file s' g t).
Proof. intros Hn H f. rewrite file_of_on_file, decide_False by done. apply H. Qed.

Lemma closed_write s s' text t : closed_at s t -> closed_at s (write s' text t).
Proof.
  intros H f. unfold write. rewrite file_of_on_file. destruct (decide (s' = s)) as [-> | Hn]; [|apply H].
  destruct (file_of s t) as [g|] eqn:E; [|done]. simpl. intros [= <-]. pose proof (H g E) as Hg. unfold append. by rewrite Hg.
Qed.

Lemma closed_flush s t : closed_at s t -> closed_at s (flushRTTLocked t).
Proof.
  intros H. unfold flushRTTLocked. destruct (tl_rttFile t), (tl_rttPending t); try done.
  exact (closed_write s SRtt _ t H).
Qed.

Lemma closed_reports s fin t :
  closed_at s t ->
  closed_at s (writeScreenSnapshot (fi_screen fin) (writeCountsSnapshot (fi_now fin)
                 (writeStatsSnapshot (fi_stats fin) (tl_statsPrevious t) t))).
Proof.
  intros H. assert (closed_at s (writeStatsSnapshot (fi_stats fin) (tl_statsPrevious t) t)) as H1.
  { unfold writeStatsSnapshot. destruct (tl_statsFile t); [by apply closed_write|done]. }
  revert H1. generalize (writeStatsSnapshot (fi_stats fin) (tl_statsPrevious t) t). clear t H. intros t H.
  assert (closed_at s (writeCountsSnapshot (fi_now fin) t)) as H1.
  { unfold writeCountsSnapshot. destruct (tl_countsFile t); [by apply closed_write|done]. }
  revert H1. generalize (writeCountsSnapshot (fi_now fin) t). clear t H. intros t H.
  unfold writeScreenSnapshot. destruct (tl_screenFile t); [exact (closed_write s SScreen _ t H)|done].
Qed.

(** After [Close] no file is open. *)
Lemma Close_closes fin t s : closed_at s (Close fin t).
Proof.
  unfold Close. cbv zeta. cbn [foldl].
  destruct s;
    repeat first [apply closed_closeSlot | apply closed_on_file; [done|]
                 | match goal with |- closed_at _ (match ?o with None => _ | Some _ => flushRTTLocked _ end) =>
                     destruct o; [apply closed_flush|] end
                 | match goal with |- closed_at _ (match ?o with Some _ => _ | None => _ end) =>
                     destruct o; [apply closed_reports|] end].
Qed.

Lemma openSlot_err create s on path t t' s' : openSlot create s on path t = Err t' -> closed_at s' t'.
Proof. unfold openSlot. destruct (negb on); [done|]. destruct (create path); [done|]. intros [= <-]. apply Close_closes. Qed.

Lemma writeHeader_err writable s on path text t t' s' : writeHeader writable s on path text t = Err t' -> closed_at s' t'.
Proof. unfold writeHeader. destruct (negb on); [done|]. destruct (writable path); [done|]. intros [= <-]. apply Close_closes. Qed.

Lemma rbind_err {E A B} (m : result E A) (k : A -> result E B) e :
  rbind m k = Err e -> m = Err e \/ exists a, m = Ok a /\ k a = Err e.
Proof. destruct m; simpl; intros H; [right; by eexists|left; congruence]. Qed.

Lemma openShort_err create writable path1 on1 on path t' s' :
  openShort create writable on path (openIf SFull on1 path1 emptyTrace) = Err t' -> closed_at s' t'.
Proof.
  unfold openShort. destruct on; [simpl|done].
  destruct (create path); [destruct (writable path); [done|]|]; intros [= <-]; destruct on1, s'; intros f;
    unfold closeSlot; rewrite ?file_of_on_file; simpl; intros [= <-]; done.
Qed.

(** A logger that cannot be opened leaves no file open. *)
Theorem failed_start_closes_files create writable cfg t s f :
  newTraceLogger create writable cfg = Err t -> file_of s t = Some f -> tf_open f = false.
Proof.
  unfold newTraceLogger. destruct (tracing cfg); [|done]. intros [H|(a & _ & [=])]%rbind_err. revert f. change (closed_at s t).
  unfold openAll in H. apply rbind_err in H as [H | (t1 & H1 & H)]; [by eapply openSlot_err|].
  apply openSlot_ok in H1. subst t1. apply rbind_err in H as [H | (t2 & _ & H)]; [by eapply openShort_err|].
  repeat (apply rbind_err in H as [H | (? & _ & H)]; [first [by eapply openSlot_err | by eapply writeHeader_err]|]).
  by eapply writeHeader_err.
Qed.

Definition ext_like (e : str) : Prop := e = [] \/ exists r, e = x2e :: r.

Lemma last_Split_suffix s c : exists p, s = p ++ default [] (last (Split s c)).
Proof.
  enough (forall l, exists p, Join l [c] = p ++ default [] (last l)) as H
    by (destruct (H (Split s c)) as [p Hp]; exists p; by rewrite <- Hp, Join_Split).
  induction l as [|x l IH]; [by exists []|].
  destruct l as [|y l]; [by exists []|]. destruct IH as [p IH]. exists (x ++ [c] ++ p).
  rewrite Join_cons, IH by done. by rewrite <- !app_assoc.
Qed.

Lemma ExtOf_spec p : ext_like (ExtOf p) /\ p = TrimSuffix p (ExtOf p) ++ ExtOf p.
Proof.
  destruct (last_Split_suffix p slash) as [q Hq]. unfold ExtOf.
  set (base := default [] (last (Split p slash))) in *.
  destruct (LastIndex base (lit ".")) as [i|] eqn:E.
  - apply LastIndex_Some in E as [(r & Hr)%HasPrefix_spec _]. split; [right; exists r; exact Hr|].
    assert (p = (q ++ take i base) ++ drop i base) as Hp by (by rewrite <- app_assoc, take_drop).
    unfold TrimSuffix. rewrite (proj2 (HasSuffix_spec p (drop i base))) by (by eexists).
    rewrite Hp at 1 3. rewrite take_app_exact; [done|]. rewrite Hp, length_app. lia.
  - split; [by left|]. unfold TrimSuffix. rewrite (proj2 (HasSuffix_spec p [])) by (exists p; by rewrite app_nil_r).
    rewrite app_nil_r, Nat.sub_0_r. by rewrite firstn_all.
Qed.

Lemma derive_spec p : exists b e e', p = b ++ e /\ ext_like e /\ forall suffix, deriveNamedTracePath p suffix = b ++ suffix ++ e'.
Proof.
  destruct (ExtOf_spec p) as [He Hp]. unfold deriveNamedTracePath.
  exists (TrimSuffix p (ExtOf p)), (ExtOf p), (match ExtOf p with [] => lit ".log" | e => e end).
  split; [done|]. split; [done|]. intros suffix. by destruct (ExtOf p).
Qed.

Lemma derive_inj p s1 s2 : deriveNamedTracePath p s1 = deriveNamedTracePath p s2 -> s1 = s2.
Proof. destruct (derive_spec p) as (b & e & e' & _ & _ & H). rewrite !H. intros ?%app_inv_head. by eapply app_inv_tail. Qed.

Lemma derive_not_base p s : p <> deriveNamedTracePath (TrimSuffix p (ExtOf p)) (x5f :: s).
Proof.
  destruct (ExtOf_spec p) as [Hep Hp].
  destruct (derive_spec (TrimSuffix p (ExtOf p))) as (b & e & e' & Hb & He & H). rewrite H. intros Eq.
  pose proof (eq_trans (eq_sym Hp) Eq) as E. rewrite Hb, <- app_assoc in E. apply app_inv_head in E.
  destruct He as [-> | (r & ->)]; [|done]. destruct Hep as [E' | (r & E')]; rewrite E' in E; done.
Qed.

Definition slotSuffix (s : slot) : str :=
  match s with
  | SFull => lit "_messages" | SShort => lit "_shortmessages" | SErr => lit "_errors" | SErrCodes => lit "_error_codes"
  | SLog => lit "_logs" | SStats => lit "_stats" | SRtt => lit "_rtt" | SScreen => lit "_screen" | SCounts => lit "_counts"
  end.

Lemma slotSuffix_inj s s' : slotSuffix s = slotSuffix s' -> s = s'.
Proof. destruct s, s'; vm_compute; congruence. Qed.

(** Unless the names of further files are given, no two trace files have the
    same path, whatever the path of the message file. *)
Theorem trace_paths_distinct cfg s s' :
  tc_ErrorFile cfg = [] -> tc_LogFile cfg = [] -> tc_ScreenFile cfg = [] ->
  slotPath cfg s = slotPath cfg s' -> s = s'.
Proof.
  intros H1 H2 H3.
  assert (forall x, x <> SFull -> slotPath cfg x = deriveNamedTracePath (stemPath cfg) (slotSuffix x)) as Hd.
  { intros x Hx. destruct x; try done; simpl; unfold deriveErrorCodesPath; by rewrite ?H1, ?H2, ?H3. }
  assert (slotPath cfg SFull = deriveNamedTracePath (stemPath cfg) (slotSuffix SFull)
          \/ forall x, x <> SFull -> slotPath cfg SFull <> slotPath cfg x) as Hfull.
  { simpl. unfold basePath. destruct (tc_MessageFile cfg) as [|b p] eqn:E; [by left|]. right. intros x Hx.
    rewrite Hd by done. unfold stemPath. rewrite E. simpl orElse.
    assert (exists s, slotSuffix x = x5f :: s) as [r ->] by (destruct x; by eexists). apply derive_not_base. }
  destruct (decide (s = SFull)) as [-> | Hs], (decide (s' = SFull)) as [-> | Hs'];
    destruct Hfull as [Hf | Hf]; intros E; try done.
  all: try (by apply Hf in E). all: try (symmetry in E; by apply Hf in E).
  all: apply slotSuffix_inj, (derive_inj (stemPath cfg)); rewrite ?Hf in E; rewrite ?(Hd s), ?(Hd s') in E by done; done.
Qed.

End Trace.

(** ** A run *)

Definition demoTraceConfig : traceConfig :=
  mkTraceConfig true false false false false false true true false (lit "out/run.1.log") [] [] [] 2
    (mkScenario (lit "uac") [] ModeClient false [] [] ∅ ∅ [] [] []) 7.

Definition demoSegs : list (Z * list stat_op) :=
  [(1000000000, [OpStart; OpStart; OpFinish true 5]); (2000000000, [OpFailureClass (lit "timeout"); OpFinish false 9])].

Definition demoSteps : list (Z * trace_op) :=
  (1, TEvent (lit "send") 1 (lit "INVITE sip:b@example.org SIP/2.0")) :: (2, TRTD 1 (lit "invite") 30000000)
  :: match snapshots (NewCollector 0) demoSegs with s :: _ => [(3, TStats s)] | [] => [] end
  ++ [(4, TCompleted); (5, TRTD 2 (lit "a,b") 7000000)].

Definition demoFinal : final :=
  let s := default (CollectorSnapshot 0 (NewCollector 0)) (last (snapshots (NewCollector 0) demoSegs)) in mkFinal s s 9.

Definition always (p : str) : bool := true.

Lemma stats_file_exact_witness :
  newTraceLogger Itoa always always demoTraceConfig = Ok (Some (opened demoTraceConfig))
  /\ exists data row,
    (stopTrace Itoa demoFinal (runTrace Itoa (fun _ => true) demoSteps (startTrace demoTraceConfig (opened demoTraceConfig) None))).1
      ≫= tl_statsFile = Some (mkTFile (lit "out/run_stats.1") data false)
    /\ csvRead data ≫= (fun rows => rows !! 2%nat) = Some row
    /\ row !! 4%nat = Some (lit "1") /\ row !! 28%nat = Some (lit "0") /\ row !! 37%nat = Some (lit "1").
Proof.
  split; [by vm_compute|].
  destruct (stats_file_exact Itoa (fun _ => true) always always demoTraceConfig (opened demoTraceConfig) None demoSteps demoFinal 0
    demoSegs) as (data & rows & Hf & Hr & _ & Hrows); [by vm_compute|reflexivity|by vm_compute|].
  destruct (Hrows 1%nat 2000000000 [OpFailureClass (lit "timeout"); OpFinish false 9] eq_refl) as (row & Hi & _ & Hev & _).
  exists data, row. split; [exact Hf|]. rewrite Hr. split; [exact Hi|].
  rewrite Forall_forall in Hev.
  split; [exact (proj1 (Hev (4%nat, 29%nat, is_failure) ltac:(repeat constructor)))|].
  split; [exact (proj2 (Hev (3%nat, 28%nat, is_success) ltac:(repeat constructor)))|].
  exact (proj2 (Hev (19%nat, 37%nat, is_class "timeout") ltac:(repeat constructor))).
Defined.

Lemma rtt_file_exact_witness :
  exists data,
    (stopTrace Itoa demoFinal (runTrace Itoa (fun _ => true) demoSteps (startTrace demoTraceConfig (opened demoTraceConfig) None))).1
      ≫= tl_rttFile = Some (mkTFile (lit "out/run_rtt.1") data false)
    /\ csvRead data = Some [rttColumns; [lit "2"; lit "1"; lit "invite"; lit "30"]; [lit "5"; lit "2"; lit "a,b"; lit "7"]].
Proof.
  destruct (rtt_file_exact Itoa (fun _ => true) always always demoTraceConfig (opened demoTraceConfig) None demoSteps demoFinal)
    as [(data & Hf & Hr) _]; [by vm_compute|reflexivity|].
  exists data. split; [exact Hf|]. exact Hr.
Defined.

(** The extension of a given message file is removed twice: for [out/run.1.log]
    the statistics are in [out/run_stats.1]. *)
Theorem trace_extension_removed_twice :
  tc_MessageFile demoTraceConfig = lit "out/run.1.log"
  /\ slotPath demoTraceConfig SStats = lit "out/run_stats.1" /\ slotPath demoTraceConfig SRtt = lit "out/run_rtt.1".
Proof. split; [done|]. by vm_compute. Qed.
