(* ===== verification/Init.v ===== *)
(** * Commands run before the first call ([engine/init.go])

    [runInit] executes the commands of the [init] section once, with a store and
    a render context of their own, before the engine starts its calls.  What it
    leaves behind are the shared variables ([scopedVars]) and the queues of the
    command broker.  One iteration of its loop takes a [step_input], as in
    [Call]; media commands are part of [ae_exec].  The map of field overrides is
    never made in this context: writing to it does nothing. *)

From stdpp Require Import base list gmap strings.
From Stdlib Require Import ZArith Lia Strings.Byte.
From S2P Require Import Prelude GoStrings GoFloat SipMessage Vars Scenario Template EngineText Commands Actions Recv Call CallFacts.

(** ** State *)

Record init_state := mkInit {
  ni_index : Z;
  ni_act : act_state;
  ni_cmdKey : str;                (* commandCallKey *)
  ni_rnd : frand;
  ni_broker : commandBroker
}.

Definition ni_ctx (s : init_state) : Context := as_ctx (ni_act s).

Definition atIndex (i : Z) (s : init_state) : init_state :=
  mkInit i (ni_act s) (ni_cmdKey s) (ni_rnd s) (ni_broker s).
Definition setAct (a : act_state) (s : init_state) : init_state :=
  mkInit (ni_index s) a (ni_cmdKey s) (ni_rnd s) (ni_broker s).
Definition onContext (f : Context -> Context) (s : init_state) : init_state :=
  setAct (mkActState (as_vars (ni_act s)) (as_scopes (ni_act s)) (f (ni_ctx s))) s.
Definition setCommands (key : str) (b : commandBroker) (s : init_state) : init_state :=
  mkInit (ni_index s) (ni_act s) key (ni_rnd s) b.

Inductive init_error :=
  | InitAction (e : action_error)
  | InitRender (e : render_error)
  | InitCommand (e : command_error)
  | InitWait (cancelled : bool)
  | InitSleep.

Inductive init_step :=
  | INext (s : init_state)
  | IStop (s : init_state)          (* return nil *)
  | IFail (e : init_error) (s : init_state)
  | IBlocked (s : init_state)
  | IPanic.

Section Init.

Context (aenv : action_env) (cfg : call_config).

(** ** Actions *)

(** The override map is nil. *)
Definition forget (st : act_state) : act_state :=
  mkActState (as_vars st) (as_scopes st) (setOverrides ∅ (as_ctx st)).

Fixpoint initActions (actions : list Action) (st : act_state) (res : actionResult)
    : result action_error actionResult * act_state :=
  match actions with
  | [] => (Ok res, st)
  | a :: rest =>
    match applyAction aenv a st res with
    | (Ok res', st') => initActions rest (forget st') res'
    | (Err e, st') => (Err e, forget st')
    end
  end.

(** [resolveNext] at the end of an iteration *)
Definition initNext (cmd : Command) (s : init_state) : init_state :=
  let '(i, rnd) := resolveNext (ni_index s) cmd (as_vars (ni_act s)) (as_scopes (ni_act s)) (ni_rnd s) in
  mkInit i (ni_act s) (ni_cmdKey s) rnd (ni_broker s).

(** The actions of a command and what follows them.  The context is passed by
    value; a destination the actions set is not used. *)
Definition initActed (cmd : Command) (s : init_state) : init_step :=
  let '(r, act) := initActions (c_Actions cmd) (refresh (forget (ni_act s))) noResult in
  let s := setAct (mkActState (as_vars act) (as_scopes act) (ni_ctx s)) s in
  match r with
  | Err ErrStopCall => IStop s
  | Err e => IFail (InitAction e) s
  | Ok r => if hasJump r then INext (atIndex (jumpIndex r) s) else INext (initNext cmd s)
  end.

(** ** Commands *)

Definition initSendCmd (inp : step_input) (cmd : Command) (s : init_state) : init_step :=
  let raw := normalizeSIPScenarioLineIndent (c_SendText cmd) in
  match RenderMessageStrict (ae_tmpl aenv) raw (setTicks (in_clock inp) (in_dynamicID inp) (ni_ctx s)) with
  | Err e => IFail (InitRender e) s
  | Ok payload =>
    match sendCommand (in_dial inp) (in_write inp) (cf_commands cfg) (ni_broker s) (c_CmdDest cmd)
            (ensureMessageTerminator payload) with
    | Err e => IFail (InitCommand e) s
    | Ok (Queued b) => INext (initNext cmd (setCommands (ni_cmdKey s) b s))
    | Ok (Wrote _ _) => INext (initNext cmd s)
    end
  end.

Definition initRecvCmd (inp : step_input) (cmd : Command) (s : init_state) : init_step :=
  let adopt := c_Index cmd =? 0 in
  let onError (cancelled : bool) s :=
    if c_Optional cmd then INext (initNext cmd s) else IFail (InitWait cancelled) s in
  match waitForCommand (in_cmdTicks inp) (if adopt then [] else ni_cmdKey s) [] (c_CmdSrc cmd) (ni_broker s) with
  | Panic => IPanic
  | Ret (StillWaiting b) => IBlocked (setCommands (ni_cmdKey s) b s)
  | Ret (Cancelled b) => onError true (setCommands (ni_cmdKey s) b s)
  | Ret (DeadlineExceeded b) => onError false (setCommands (ni_cmdKey s) b s)
  | Ret (Received key msg b) =>
    let s := match key with
             | [] => setCommands (ni_cmdKey s) b s
             | _ => let s := setCommands key b s in if adopt then onContext (setCallID key) s else s
             end in
    initActed cmd (onContext (setLast (cm_raw msg) (parseCommandHeaders (cm_raw msg))) s)
  end.

Definition initPause (inp : step_input) (cmd : Command) (s : init_state) : init_step :=
  match (match c_Pause cmd with Some p => Sample p (in_rng inp) | None => Ret 0 end) with
  | Panic => IPanic
  | Ret _ => if in_sleepOk inp then INext (initNext cmd s) else IFail InitSleep s
  end.

(** One iteration; [send] and [recv] have no case in the switch. *)
Definition stepInit (inp : step_input) (cmd : Command) (s : init_state) : init_step :=
  let s := setAct (refresh (ni_act s)) s in
  if negb (shouldExecute cmd (as_vars (ni_act s)) (as_scopes (ni_act s)))
  then INext (atIndex (ni_index s + 1) s)
  else
    let s := onContext (setMessageIndex (c_Index cmd)) s in
    match c_Type cmd with
    | CommandNop | CommandLabel => initActed cmd s
    | CommandSendCmd => initSendCmd inp cmd s
    | CommandRecvCmd => initRecvCmd inp cmd s
    | CommandPause | CommandTimeWait => initPause inp cmd s
    | CommandSend | CommandRecv => INext (initNext cmd s)
    end.

(** ** The loop *)

Inductive init_out :=
  | InitDone (s : init_state)
  | InitError (e : init_error) (s : init_state)
  | InitRunning (s : init_state)
  | InitPanic.

Context (sc : Scenario).

Fixpoint runInit (inputs : list step_input) (s : init_state) : init_out :=
  if Z.of_nat (length (sc_InitCommands sc)) <=? ni_index s then InitDone s
  else match inputs with
  | [] => InitRunning s
  | inp :: inputs' =>
    if ni_index s <? 0 then InitPanic
    else match sc_InitCommands sc !! Z.to_nat (ni_index s) with
    | None => InitPanic
    | Some cmd =>
      match stepInit inp cmd s with
      | INext s' => runInit inputs' s'
      | IStop s' => InitDone s'
      | IFail e s' => InitError e s'
      | IBlocked s' => InitRunning s'
      | IPanic => InitPanic
      end
    end
  end.

(** The state [runInit] starts with. *)
Definition startInit (ec : engine_config) (iceUfrag icePwd transport callID localIP : str) (localPort : Z)
    (remoteHost : str) (remotePort : Z) (scopes : scopedVars) (rnd : frand) (broker : commandBroker) : init_state :=
  let store := newVarStore (sc_GlobalVariables sc) (sc_UserVariables sc) 0 in
  let ctx := mkContext (ec_Service ec) transport remoteHost remoteHost remotePort
    localIP localIP (ipType localIP) localPort localIP (ipType localIP) (localPort + 2) iceUfrag icePwd
    callID 0 0 0 0 (ec_Users ec) 0 [] [] [] 0 [] 0 0 ∅ (Snapshot store scopes) ∅ (sc_BasePath sc) (ec_InjectionFile ec) in
  mkInit 0 (mkActState store scopes ctx) callID rnd broker.

(** ** The commands change only variables *)

(** A property of the variables that writing a variable keeps. *)
Section Kept.

Context (P : varStore -> scopedVars -> Prop).
Hypothesis P_set : forall v s name value, P v s -> P (SetVar v s name value).1 (SetVar v s name value).2.

Definition kept (st : act_state) : Prop := P (as_vars st) (as_scopes st).

Lemma kept_write name value st : kept st -> kept (writeVar name value st).
Proof. intros H. unfold kept, writeVar. pose proof (P_set _ _ name value H). by destruct (SetVar _ _ _ _). Qed.

Lemma kept_assign names value st : kept st -> kept (assignActionValue names value st).
Proof. revert st. induction names as [|n names IH]; intros st H; [done|]. simpl. by apply IH, kept_write. Qed.

Lemma kept_matches names matches st : kept st -> kept (assign_matches names matches st).
Proof.
  revert matches st. induction names as [|n names IH]; intros [|m matches] st H; simpl; try done. by apply IH, kept_write.
Qed.

Lemma kept_ereg a st st' : applyERegAction aenv a st = Ok st' -> kept st -> kept st'.
Proof.
  unfold applyERegAction. cbv zeta. intros H Hk. destruct (ae_regexp aenv (a_Regexp a)) as [find|]; [|done].
  repeat case_match; try done; apply Ok_inj in H as <-; [by apply kept_matches|done].
Qed.

Lemma kept_action a st res : kept st -> kept (applyAction aenv a st res).2.
Proof.
  intros H.
  assert (kept (refresh st)) as Hr by exact H.
  assert (forall names v, kept (refresh (assignActionValue names v st))) as Ha by (intros; by apply kept_assign).
  assert (forall n v, kept (refresh (writeVar n v st))) as Hw by (intros; by apply kept_write).
  assert (forall n v n' v', kept (refresh (writeVar n' v' (writeVar n v st)))) as Hw2 by (intros; by do 2 apply kept_write).
  assert (forall st', applyERegAction aenv a st = Ok st' -> kept (refresh st')) as He by (intros st1 Hst; exact (kept_ereg a st st1 Hst H)).
  unfold applyAction. cbv zeta.
  destruct (a_Type a); try (destruct (applyERegAction aenv a st); [by apply He|exact H]);
    repeat first [ progress simpl | exact H | exact Hr | apply Ha | apply Hw | apply Hw2
                 | match goal with |- kept (snd (match ?x with _ => _ end)) => destruct x end
                 | match goal with |- kept (refresh (match ?x with _ => _ end)) => destruct x as [|? []] end ].
Qed.

Lemma kept_actions actions st res : kept st -> kept (initActions actions st res).2.
Proof.
  revert st res. induction actions as [|a actions IH]; intros st res H; [done|]. simpl.
  pose proof (kept_action a st res H) as Ha. destruct (applyAction aenv a st res) as [[r|e] st']; [by apply IH|done].
Qed.

Definition step_kept (o : init_step) : Prop :=
  match o with INext s | IStop s | IFail _ s | IBlocked s => kept (ni_act s) | IPanic => True end.

Lemma initNext_act cmd s : ni_act (initNext cmd s) = ni_act s.
Proof. unfold initNext. by destruct (resolveNext _ _ _ _ _). Qed.

Lemma kept_acted cmd s : kept (ni_act s) -> step_kept (initActed cmd s).
Proof.
  intros H. unfold initActed. pose proof (kept_actions (c_Actions cmd) (refresh (forget (ni_act s))) noResult H) as Hk.
  destruct (initActions _ _ _) as [[r|e] act]; [|by destruct e].
  destruct (hasJump r); simpl; [done|]. by rewrite initNext_act.
Qed.

Lemma kept_step inp cmd s : kept (ni_act s) -> step_kept (stepInit inp cmd s).
Proof.
  intros H. unfold stepInit. cbv zeta. destruct (negb _); [done|]. set (s1 := onContext _ _).
  assert (kept (ni_act s1)) as H1 by exact H. clearbody s1. clear H s.
  assert (step_kept (INext (initNext cmd s1))) as Hn by (simpl; by rewrite initNext_act).
  destruct (c_Type cmd); try done; try by apply kept_acted.
  - unfold initSendCmd. destruct (RenderMessageStrict _ _ _); [|done].
    destruct (sendCommand _ _ _ _ _ _) as [[b|? ?]|]; try done. simpl. by rewrite initNext_act.
  - unfold initRecvCmd. destruct (waitForCommand _ _ _ _ _) as [[key m b|b|b|b]|]; try done.
    + apply kept_acted. destruct key; [done|]. by destruct (_ =? _).
    + destruct (c_Optional cmd); simpl; [by rewrite initNext_act|done].
    + destruct (c_Optional cmd); simpl; [by rewrite initNext_act|done].
  - unfold initPause. destruct (c_Pause cmd) as [p|]; [destruct (Sample p (in_rng inp)); [|done]|]; by destruct (in_sleepOk inp).
  - unfold initPause. destruct (c_Pause cmd) as [p|]; [destruct (Sample p (in_rng inp)); [|done]|]; by destruct (in_sleepOk inp).
Qed.

Definition out_state (o : init_out) : option init_state :=
  match o with InitDone s | InitError _ s | InitRunning s => Some s | InitPanic => None end.

Lemma kept_run inputs s s' : kept (ni_act s) -> out_state (runInit inputs s) = Some s' -> kept (ni_act s').
Proof.
  revert s. induction inputs as [|inp inputs IH]; intros s H; cbn [runInit].
  { destruct (_ <=? _); by intros [= <-]. }
  destruct (_ <=? _); [by intros [= <-]|]. destruct (_ <? _); [done|].
  destruct (sc_InitCommands sc !! _) as [cmd|]; [|done]. pose proof (kept_step inp cmd s H) as Hs.
  destruct (stepInit inp cmd s); simpl in *; [by apply IH| | | |done]; by intros [= <-].
Qed.

End Kept.

(** ** Position *)

Lemma initActions_ok actions st res res' st' :
  result_ok res -> initActions actions st res = (Ok res', st') -> result_ok res'.
Proof.
  revert st res. induction actions as [|a actions IH]; intros st res Hr; cbn [initActions]; [by intros [= <- _]|].
  destruct (applyAction aenv a st res) as [[r|e] st1] eqn:E; [|done]. apply IH. by eapply applyAction_ok.
Qed.

Lemma initActions_no_jump actions st res res' st' :
  Forall (fun a => a_Type a <> ActionJump) actions -> hasJump res = false ->
  initActions actions st res = (Ok res', st') -> hasJump res' = false.
Proof.
  intros Hn. revert st res. induction Hn as [|a actions Ha _ IH]; intros st res Hr; cbn [initActions]; [by intros [= <- _]|].
  destruct (applyAction aenv a st res) as [[r|e] st1] eqn:E; [|done]. apply IH.
  apply (run_actions_no_jump aenv [a] st res r st1); [by constructor|done|]. cbn [run_actions]. by rewrite E.
Qed.

(** Where the next iteration is. *)
Definition moves (i : Z) (cmd : Command) (o : init_step) : Prop :=
  forall s', o = INext s' -> 0 <= i -> 0 <= ni_index s' /\ (forward_command i cmd -> i < ni_index s').

Lemma initNext_moves cmd s : moves (ni_index s) cmd (INext (initNext cmd s)).
Proof.
  intros s' [= <-] Hi. unfold initNext.
  pose proof (resolveNext_cases (ni_index s) cmd (as_vars (ni_act s)) (as_scopes (ni_act s)) (ni_rnd s)) as H.
  destruct (resolveNext _ _ _ _ _) as [j rnd]. simpl in *. split; [lia|]. intros [Hf _]. lia.
Qed.

Lemma initActed_moves cmd s : moves (ni_index s) cmd (initActed cmd s).
Proof.
  unfold initActed. destruct (initActions _ _ _) as [[r|e] act] eqn:E; [|destruct e; intros s' [=]].
  destruct (hasJump r) eqn:Hj.
  - intros s' [= <-] _. simpl. split.
    + apply initActions_ok in E as [H _]; [|done]. by apply H.
    + intros [_ Hf]. apply (initActions_no_jump _ _ noResult _ _ Hf eq_refl) in E. congruence.
  - by apply (initNext_moves cmd (setAct _ s)).
Qed.

Lemma stepInit_moves inp cmd s : moves (ni_index s) cmd (stepInit inp cmd s).
Proof.
  unfold stepInit. cbv zeta. destruct (negb _); [intros s' [= <-] Hi; simpl; split; intros; lia|].
  set (s1 := onContext _ _). change (ni_index s) with (ni_index s1). clearbody s1. clear s.
  destruct (c_Type cmd); try apply initNext_moves; try apply initActed_moves.
  - unfold initSendCmd. destruct (RenderMessageStrict _ _ _); [|intros s' [=]].
    destruct (sendCommand _ _ _ _ _ _) as [[b|? ?]|]; [|apply initNext_moves|intros s' [=]].
    by apply (initNext_moves cmd (setCommands _ b s1)).
  - unfold initRecvCmd. destruct (waitForCommand _ _ _ _ _) as [[key m b|b|b|b]|]; try (intros s' [=]; fail).
    + set (s2 := onContext _ _). replace (ni_index s1) with (ni_index s2); [apply initActed_moves|].
      unfold s2. destruct key; [done|]. by destruct (_ =? _).
    + destruct (c_Optional cmd); [by apply (initNext_moves cmd (setCommands _ b s1))|intros s' [=]].
    + destruct (c_Optional cmd); [by apply (initNext_moves cmd (setCommands _ b s1))|intros s' [=]].
  - unfold initPause. destruct (c_Pause cmd) as [p|]; [destruct (Sample p (in_rng inp)); [|intros s' [=]]|];
      destruct (in_sleepOk inp); [apply initNext_moves|intros s' [=]|apply initNext_moves|intros s' [=]].
  - unfold initPause. destruct (c_Pause cmd) as [p|]; [destruct (Sample p (in_rng inp)); [|intros s' [=]]|];
      destruct (in_sleepOk inp); [apply initNext_moves|intros s' [=]|apply initNext_moves|intros s' [=]].
Qed.

(** The calls of the loop that can panic. *)
Definition init_may_panic (inp : step_input) (cmd : Command) : Prop :=
  (exists p, c_Pause cmd = Some p /\ Sample p (in_rng inp) = Panic)
  \/ (exists key b, waitForCommand (in_cmdTicks inp) key [] (c_CmdSrc cmd) b = Panic).

Lemma initActed_panic cmd s : initActed cmd s <> IPanic.
Proof. unfold initActed. destruct (initActions _ _ _) as [[r|e] act]; [by destruct (hasJump r)|by destruct e]. Qed.

Lemma stepInit_panic inp cmd s : stepInit inp cmd s = IPanic -> init_may_panic inp cmd.
Proof.
  unfold stepInit. cbv zeta. destruct (negb _); [done|]. set (s1 := onContext _ _). clearbody s1.
  destruct (c_Type cmd); try done; try (by intros H%initActed_panic).
  - unfold initSendCmd. repeat case_match; done.
  - unfold initRecvCmd. intros H. right. destruct (waitForCommand _ _ _ _ _) eqn:E; [|by eauto].
    repeat case_match; try done; by apply initActed_panic in H.
  - unfold initPause. intros H. left. destruct (c_Pause cmd) as [p|]; [|by destruct (in_sleepOk inp)].
    exists p. split; [done|]. destruct (Sample p (in_rng inp)); [by destruct (in_sleepOk inp)|done].
  - unfold initPause. intros H. left. destruct (c_Pause cmd) as [p|]; [|by destruct (in_sleepOk inp)].
    exists p. split; [done|]. destruct (Sample p (in_rng inp)); [by destruct (in_sleepOk inp)|done].
Qed.

Lemma initActed_blocked cmd s s' : initActed cmd s <> IBlocked s'.
Proof. unfold initActed. destruct (initActions _ _ _) as [[r|e] act]; [by destruct (hasJump r)|by destruct e]. Qed.

Lemma stepInit_blocked inp cmd s s' :
  Exists (fun t => tk_late t = true) (in_cmdTicks inp) -> stepInit inp cmd s <> IBlocked s'.
Proof.
  intros He. unfold stepInit. cbv zeta. destruct (negb _); [done|]. set (s1 := onContext _ _). clearbody s1.
  pose proof (initActed_blocked cmd) as Ha. unfold initSendCmd, initPause, initRecvCmd, waitForCommand.
  pose proof (fun i => wait_loop_ends (in_cmdTicks inp) i [] (c_CmdSrc cmd)) as Hw.
  destruct (c_Type cmd); repeat case_match; try done; naive_solver.
Qed.

(** ** Theorems *)

(** The commands of a scenario whose init section only branches forward are run
    to their end: at most as many iterations as there are commands, and every
    wait ends with its deadline; and however they branch, the loop never
    indexes outside the list. *)
Theorem init_ends inputs s :
  0 <= ni_index s ->
  ((forall inp cmd, inp ∈ inputs -> cmd ∈ sc_InitCommands sc -> ~ init_may_panic inp cmd) -> runInit inputs s <> InitPanic)
  /\ ((forall i cmd, sc_InitCommands sc !! i = Some cmd -> forward_command (Z.of_nat i) cmd) ->
      Forall (fun inp => Exists (fun t => tk_late t = true) (in_cmdTicks inp)) inputs ->
      Z.of_nat (length (sc_InitCommands sc)) - ni_index s <= Z.of_nat (length inputs) ->
      forall s', runInit inputs s <> InitRunning s').
Proof.
  revert s. induction inputs as [|inp inputs IH]; intros s Hi; cbn [runInit];
    destruct (Z.leb_spec (Z.of_nat (length (sc_InitCommands sc))) (ni_index s)) as [|Hlt]; try done.
  { split; [done|]. simpl. lia. }
  rewrite (proj2 (Z.ltb_ge _ _)) by done.
  destruct (lookup_lt_is_Some_2 (sc_InitCommands sc) (Z.to_nat (ni_index s))) as [cmd Hc]; [lia|]. rewrite Hc.
  pose proof (stepInit_moves inp cmd s) as Hm. pose proof (stepInit_panic inp cmd s) as Hp.
  pose proof (stepInit_blocked inp cmd s) as Hb.
  destruct (stepInit inp cmd s) as [s1|s1|e s1|s1|]; try done.
  - destruct (Hm s1 eq_refl Hi) as [Hpos Hfwd]. destruct (IH s1 Hpos) as [IH1 IH2]. split.
    + intros Hn. apply IH1. intros inp' cmd' Hin. apply Hn. by right.
    + intros Hf [_ Ht]%Forall_cons Hlen. apply IH2; [done|done|].
      pose proof (Hf _ _ Hc) as Hfc. rewrite Z2Nat.id in Hfc by done. specialize (Hfwd Hfc). simpl in Hlen. lia.
  - split; [done|]. intros _ [H _]%Forall_cons. by destruct (Hb s1 H).
  - split; [|done]. intros Hn _. apply (Hn inp cmd); [by left|by eapply list_elem_of_lookup_2|by apply Hp].
Qed.

(** The names and the user of a store, and the variables of the other users. *)
Definition init_vars (scopes : scopedVars) (v : varStore) (s : scopedVars) : Prop :=
  vs_globalNames v = list_to_set (sc_GlobalVariables sc) /\ vs_userNames v = list_to_set (sc_UserVariables sc)
  /\ vs_userID v = 0 /\ forall u, u <> 0 -> sv_users s !! u = sv_users scopes !! u.

Lemma init_vars_set scopes v s name value :
  init_vars scopes v s -> init_vars scopes (SetVar v s name value).1 (SetVar v s name value).2.
Proof.
  intros (H1 & H2 & H3 & H4). unfold SetVar. destruct (bool_decide _); [done|]. destruct (bool_decide _); [|done].
  split_and!; try done. intros u Hu. simpl. rewrite lookup_insert_ne by congruence. by apply H4.
Qed.

(** What the init commands leave to the calls: a call sees every global
    variable as the init commands left it, it sees a user variable as they left
    it only when it runs for user 0 and unchanged for every other user, and it
    sees none of their local variables. *)
Theorem init_reaches_calls ec ufrag pwd tr callID ip port host rport scopes rnd broker inputs s'
    webrtc ufrag' pwd' tr' n callID' ip' port' host' rport' rnd' broker' name :
  out_state (runInit inputs (startInit ec ufrag pwd tr callID ip port host rport scopes rnd broker)) = Some s' ->
  let init := ni_act s' in
  let call sc' := cs_act (startCall ec sc webrtc ufrag' pwd' tr' n callID' ip' port' host' rport' sc' rnd' broker') in
  (name ∈ sc_GlobalVariables sc -> readVar (call (as_scopes init)) name = readVar init name)
  /\ (name ∉ sc_GlobalVariables sc -> name ∈ sc_UserVariables sc ->
      readVar (call (as_scopes init)) name
      = if userID n (ec_Users ec) =? 0 then readVar init name else readVar (call scopes) name)
  /\ (name ∉ sc_GlobalVariables sc -> name ∉ sc_UserVariables sc -> readVar (call (as_scopes init)) name = []).
Proof.
  intros H. apply (kept_run (init_vars scopes) (init_vars_set scopes)) in H as (H1 & H2 & H3 & H4); [|by split].
  unfold readVar, startCall, Get. simpl. rewrite H1, H2, H3.
  assert (forall l : list str, name ∈ (list_to_set l : gset str) <-> name ∈ l) as Hl by (intros; apply elem_of_list_to_set).
  split_and!.
  - intros Hg. by rewrite !bool_decide_eq_true_2 by by apply Hl.
  - intros Hg Hu. rewrite !(bool_decide_eq_false_2 (name ∈ (list_to_set (sc_GlobalVariables sc) : gset str))) by by rewrite Hl.
    rewrite !bool_decide_eq_true_2 by by apply Hl.
    destruct (Z.eqb_spec (userID n (ec_Users ec)) 0) as [-> | Hn]; [done|]. by rewrite H4.
  - intros Hg Hu. by rewrite !bool_decide_eq_false_2 by by rewrite Hl.
Qed.

(** A [send] or [recv] in the init section is accepted by the parser and does
    nothing. *)
Theorem init_ignores_messages inp cmd s :
  c_Type cmd = CommandSend \/ c_Type cmd = CommandRecv ->
  exists s', stepInit inp cmd s = INext s' /\ ni_broker s' = ni_broker s /\ as_vars (ni_act s') = as_vars (ni_act s)
    /\ as_scopes (ni_act s') = as_scopes (ni_act s).
Proof.
  intros Ht. unfold stepInit. cbv zeta. destruct (negb _); [by eexists|].
  set (s1 := onContext _ _).
  assert (exists s', INext (initNext cmd s1) = INext s' /\ ni_broker s' = ni_broker s /\ as_vars (ni_act s') = as_vars (ni_act s)
    /\ as_scopes (ni_act s') = as_scopes (ni_act s)) as H.
  { eexists. split; [done|]. unfold initNext. by destruct (resolveNext _ _ _ _ _). }
  by destruct Ht as [-> | ->].
Qed.

End Init.

(** ** A run *)

Definition assign_action (name value : string) : Action :=
  mkAction ActionAssignStr [] [] [] [] [] [lit name] false false (lit value) [] [] [] [] [] [] [] [] [] [] [] [] [] [] [] [] [] [].

Definition init_nop : Command :=
  mkCommand CommandNop 0 [] [] [] [] [] (-1) [] fzero [] false [] 0 [] [] false None false [] [] false 0 None [] false
    [assign_action "g" "1"; assign_action "u" "2"; assign_action "l" "3"].

Definition init_scenario : Scenario :=
  mkScenario (lit "init") [] ModeClient false [] [init_nop] ∅ ∅ [lit "g"] [lit "u"] [].

Definition two_users : engine_config := mkEngineConfig (lit "svc") 1 2 ∅ [] [] [] [] [] 9.
Definition no_chance : frand := mkFrand (fun _ => fzero) 0.
Definition no_scopes : scopedVars := mkScoped ∅ ∅.

Definition init_started : init_state :=
  startInit init_scenario two_users [] [] (lit "u1") (lit "i") (lit "10.0.0.1") 5060 (lit "h") 5060 no_scopes no_chance ∅.

Definition init_finished : init_state :=
  match out_state (runInit blank_env demo_config init_scenario [demo_input []] init_started) with
  | Some s => s
  | None => init_started
  end.

Definition call_after (n : Z) : act_state :=
  cs_act (startCall two_users init_scenario false [] [] (lit "u1") n (lit "c") (lit "10.0.0.1") 5060 (lit "h") 5060
    (as_scopes (ni_act init_finished)) no_chance ∅).

Lemma init_reaches_calls_witness :
  readVar (call_after 1) (lit "g") = lit "1" /\ readVar (call_after 2) (lit "g") = lit "1"
  /\ readVar (call_after 1) (lit "u") = lit "2" /\ readVar (call_after 2) (lit "u") = []
  /\ readVar (call_after 1) (lit "l") = [].
Proof.
  assert (out_state (runInit blank_env demo_config init_scenario [demo_input []] init_started) = Some init_finished) as H.
  { assert (match out_state (runInit blank_env demo_config init_scenario [demo_input []] init_started) with
            | Some _ => true | None => false end = true) as H by (vm_compute; reflexivity).
    unfold init_finished. by destruct (out_state _). }
  assert (lit "g" ∈ sc_GlobalVariables init_scenario) as Hg by (by left).
  assert (lit "u" ∉ sc_GlobalVariables init_scenario /\ lit "u" ∈ sc_UserVariables init_scenario) as [Hu1 Hu2]
    by (split; apply (bool_decide_unpack _); by vm_compute).
  assert (lit "l" ∉ sc_GlobalVariables init_scenario /\ lit "l" ∉ sc_UserVariables init_scenario) as [Hl1 Hl2]
    by (split; apply (bool_decide_unpack _); by vm_compute).
  pose proof (init_reaches_calls blank_env demo_config init_scenario two_users [] [] (lit "u1") (lit "i") (lit "10.0.0.1") 5060
    (lit "h") 5060 no_scopes no_chance ∅ [demo_input []] init_finished false [] [] (lit "u1") 1 (lit "c") (lit "10.0.0.1") 5060
    (lit "h") 5060 no_chance ∅) as H1.
  pose proof (init_reaches_calls blank_env demo_config init_scenario two_users [] [] (lit "u1") (lit "i") (lit "10.0.0.1") 5060
    (lit "h") 5060 no_scopes no_chance ∅ [demo_input []] init_finished false [] [] (lit "u1") 2 (lit "c") (lit "10.0.0.1") 5060
    (lit "h") 5060 no_chance ∅) as H2.
  unfold call_after. split_and!.
  - rewrite (proj1 (H1 (lit "g") H) Hg). by vm_compute.
  - rewrite (proj1 (H2 (lit "g") H) Hg). by vm_compute.
  - rewrite (proj1 (proj2 (H1 (lit "u") H)) Hu1 Hu2). by vm_compute.
  - rewrite (proj1 (proj2 (H2 (lit "u") H)) Hu1 Hu2). by vm_compute.
  - exact (proj2 (proj2 (H1 (lit "l") H)) Hl1 Hl2).
Defined.
