(* ===== verification/Transport.v ===== *)
(** * Sockets shared by many calls ([internal/transport])

    [SharedUDP] of [udp.go]: several sockets on one port, one reading goroutine
    each, one channel to the engine and a pool of read buffers.  [SharedTCP] and
    [SharedTLS] of [tcp.go] and [tls.go], which are the same code over different
    connections: a reading goroutine, senders, and reconnecting after an error.
    Goroutines are steps of transition systems, split wherever another one can
    run; what the sockets do (data, errors, dials) is the choice of the step.  A
    run-time panic ends the process. *)

From stdpp Require Import base list strings relations.
From Stdlib Require Import ZArith Lia Strings.Byte.
From S2P Require Import Prelude GoStrings SipMessage.

(** ** Numbers of receivers ([udp.go]) *)

Definition maxUDPSIPDatagram : Z := 4096.
Definition inboundChanDepth : Z := 512.
Definition maxInboundChan : Z := 8192.
Definition maxUDPReceivers : Z := 16.

(** [maybeSingleReceiverOS]: whether several sockets can share the port. *)
Definition maybeSingleReceiverOS (reuseport : bool) (n : Z) : Z := if reuseport then n else 1.

Definition clampReceivers (reuseport : bool) (n : Z) : Z :=
  let n := if n <? 1 then 1 else n in
  let n := if maxUDPReceivers <? n then maxUDPReceivers else n in
  maybeSingleReceiverOS reuseport n.

Definition receiversFromEnv (value : str) : Z :=
  match TrimSpace value with
  | [] => 0
  | v => match Atoi v with
         | Some n => if n <? 0 then 0 else n
         | None => 0
         end
  end.

Definition autoReceiverCount (reuseport : bool) (numCPU : Z) : Z :=
  clampReceivers reuseport (if numCPU <? 1 then 1 else numCPU).

Definition effectiveReceivers (reuseport : bool) (numCPU requested : Z) : Z :=
  clampReceivers reuseport (if requested <=? 0 then autoReceiverCount reuseport numCPU else requested).

Definition inboundChanDepthFor (receivers : Z) : Z :=
  let d := inboundChanDepth * receivers in
  let d := if maxInboundChan <? d then maxInboundChan else d in
  if d <? inboundChanDepth then inboundChanDepth else d.

(** Whatever the environment asks for, there are between one and sixteen sockets
    and the channel has room for 512 packets of each. *)
Theorem receivers_bounded reuseport numCPU value :
  let n := effectiveReceivers reuseport numCPU (receiversFromEnv value) in
  1 <= n <= 16 /\ inboundChanDepthFor n = 512 * n.
Proof.
  intros n. assert (forall k, 1 <= clampReceivers reuseport k <= 16) as Hc.
  { intros k. unfold clampReceivers, maybeSingleReceiverOS, maxUDPReceivers.
    destruct reuseport; repeat case_goal; bool_to_prop; lia. }
  assert (1 <= n <= 16) as Hn by apply Hc. split; [done|].
  unfold inboundChanDepthFor, inboundChanDepth, maxInboundChan.
  repeat case_goal; bool_to_prop; lia.
Qed.

Module Udp.

(** ** [SharedUDP] *)

(** A buffer of the pool is known by a number. *)
Record udpPacket := mkPacket { pk_buf : nat; pk_len : Z; pk_addr : str }.

(** A goroutine of [readLoop]. *)
Inductive reader :=
  | RIdle                                             (* before [udpBufPool.Get] *)
  | RRead (b : nat)                                   (* in [ReadFromUDP] *)
  | RGot (b : nat) (n : Z) (addr : option str)        (* it returned *)
  | RFull (p : udpPacket)                                (* the channel was full once *)
  | RErr                                              (* before [shutdownIncoming] *)
  | RDone.

(** [Close]: the sockets are closed one after the other. *)
Inductive closer := COpen | CSockets (i : nat) | CShutdown | CClosed.

Record SharedUDP := mkUdp {
  u_open : list bool;              (* conns *)
  u_readers : list reader;
  u_incoming : list udpPacket; u_cap : nat; u_chanClosed : bool;
  u_closed : bool; u_sendIdx : Z;
  u_closer : closer;
  u_pool : list nat; u_fresh : nat;                 (* buffers given back; the next new one *)
  u_taken : list udpPacket;                            (* received and not yet released *)
  u_accepted : list udpPacket; u_received : list udpPacket;   (* all that entered and left the channel *)
  u_panic : bool
}.

Definition newSharedUDP (sockets cap : nat) : SharedUDP :=
  mkUdp (replicate sockets true) (replicate sockets RIdle) [] cap false false 0 COpen [] 0 [] [] [] false.

Definition setReader (i : nat) (r : reader) (u : SharedUDP) : SharedUDP :=
  mkUdp (u_open u) (<[i := r]> (u_readers u)) (u_incoming u) (u_cap u) (u_chanClosed u) (u_closed u) (u_sendIdx u)
    (u_closer u) (u_pool u) (u_fresh u) (u_taken u) (u_accepted u) (u_received u) (u_panic u).
Definition setPool (pool : list nat) (fresh : nat) (u : SharedUDP) : SharedUDP :=
  mkUdp (u_open u) (u_readers u) (u_incoming u) (u_cap u) (u_chanClosed u) (u_closed u) (u_sendIdx u)
    (u_closer u) pool fresh (u_taken u) (u_accepted u) (u_received u) (u_panic u).
Definition put (b : nat) (u : SharedUDP) : SharedUDP := setPool (b :: u_pool u) (u_fresh u) u.
Definition pushPacket (p : udpPacket) (u : SharedUDP) : SharedUDP :=
  mkUdp (u_open u) (u_readers u) (u_incoming u ++ [p]) (u_cap u) (u_chanClosed u) (u_closed u) (u_sendIdx u)
    (u_closer u) (u_pool u) (u_fresh u) (u_taken u) (u_accepted u ++ [p]) (u_received u) (u_panic u).
Definition setPanic (u : SharedUDP) : SharedUDP :=
  mkUdp (u_open u) (u_readers u) (u_incoming u) (u_cap u) (u_chanClosed u) (u_closed u) (u_sendIdx u)
    (u_closer u) (u_pool u) (u_fresh u) (u_taken u) (u_accepted u) (u_received u) true.

(** [shutdownIncoming] *)
Definition shutdownIncoming (u : SharedUDP) : SharedUDP :=
  mkUdp (u_open u) (u_readers u) (u_incoming u) (u_cap u) true (u_closed u) (u_sendIdx u)
    (u_closer u) (u_pool u) (u_fresh u) (u_taken u) (u_accepted u) (u_received u) (u_panic u).
Definition setClose (open : list bool) (closed : bool) (c : closer) (u : SharedUDP) : SharedUDP :=
  mkUdp open (u_readers u) (u_incoming u) (u_cap u) (u_chanClosed u) closed (u_sendIdx u)
    c (u_pool u) (u_fresh u) (u_taken u) (u_accepted u) (u_received u) (u_panic u).

(** What happens at a step of a reader. *)
Inductive read_event :=
  | EvPooled (k : nat)               (* [Get] returns the k-th buffer of the pool *)
  | EvNew                            (* or a new one *)
  | EvData (n : Z) (addr : option str)
  | EvError
  | EvGo.                            (* the goroutine runs on *)

(** [select { case s.incoming <- p: default: ... }] *)
Definition offerPacket (i : nat) (p : udpPacket) (full : SharedUDP) (u : SharedUDP) : SharedUDP :=
  if u_chanClosed u then setPanic u
  else if (length (u_incoming u) <? u_cap u)%nat then setReader i RIdle (pushPacket p u)
  else full.

(** One step of the [readLoop] of socket [i]; [None] when it cannot happen. *)
Definition readStep (i : nat) (ev : read_event) (u : SharedUDP) : option SharedUDP :=
  match u_readers u !! i, ev with
  | Some RIdle, EvPooled k =>
    match u_pool u !! k with
    | Some b => Some (setReader i (RRead b) (setPool (delete k (u_pool u)) (u_fresh u) u))
    | None => None
    end
  | Some RIdle, EvNew => Some (setReader i (RRead (u_fresh u)) (setPool (u_pool u) (S (u_fresh u)) u))
  | Some (RRead b), EvData n addr =>
    if default false (u_open u !! i) && (0 <=? n) && (n <=? maxUDPSIPDatagram)
    then Some (setReader i (RGot b n addr) u) else None
  | Some (RRead b), EvError => Some (setReader i RErr (put b u))
  | Some RErr, EvGo => Some (setReader i RDone (shutdownIncoming u))
  | Some (RGot b n addr), EvGo =>
    if (n <=? 0) || (maxUDPSIPDatagram <? n) then Some (setReader i RIdle (put b u))
    else match addr with
         | None => Some (setReader i RIdle (put b u))
         | Some a => let p := mkPacket b n a in Some (offerPacket i p (setReader i (RFull p) u) u)
         end
  | Some (RFull p), EvGo => Some (offerPacket i p (setReader i RIdle (put (pk_buf p) u)) u)
  | _, _ => None
  end.

(** The engine takes a packet from the channel, and releases one it has. *)
Definition receive (u : SharedUDP) : option SharedUDP :=
  match u_incoming u with
  | [] => None
  | p :: rest =>
    Some (mkUdp (u_open u) (u_readers u) rest (u_cap u) (u_chanClosed u) (u_closed u) (u_sendIdx u)
      (u_closer u) (u_pool u) (u_fresh u) (p :: u_taken u) (u_accepted u) (u_received u ++ [p]) (u_panic u))
  end.

Definition releasePacket (k : nat) (u : SharedUDP) : option SharedUDP :=
  match u_taken u !! k with
  | None => None
  | Some p =>
    Some (mkUdp (u_open u) (u_readers u) (u_incoming u) (u_cap u) (u_chanClosed u) (u_closed u) (u_sendIdx u)
      (u_closer u) (pk_buf p :: u_pool u) (u_fresh u) (delete k (u_taken u)) (u_accepted u) (u_received u) (u_panic u))
  end.

(** [Send]: the socket it uses, or an error. *)
Definition Send (u : SharedUDP) : result bool nat * SharedUDP :=
  if u_closed u then (Err true, u)
  else match u_open u with
  | [] => (Err false, u)
  | conns =>
    let idx := u64 (u_sendIdx u + 1) in
    (Ok (Z.to_nat (idx mod Z.of_nat (length conns))),
     mkUdp (u_open u) (u_readers u) (u_incoming u) (u_cap u) (u_chanClosed u) (u_closed u) idx
       (u_closer u) (u_pool u) (u_fresh u) (u_taken u) (u_accepted u) (u_received u) (u_panic u))
  end.

(** One step of [Close]. *)
Definition closeUDP (u : SharedUDP) : option SharedUDP :=
  match u_closer u with
  | COpen => Some (setClose (u_open u) true (CSockets 0) u)
  | CSockets i =>
    if (i <? length (u_open u))%nat then Some (setClose (<[i := false]> (u_open u)) (u_closed u) (CSockets (S i)) u)
    else Some (setClose (u_open u) (u_closed u) CShutdown u)
  | CShutdown => Some (setClose (u_open u) (u_closed u) CClosed (shutdownIncoming u))
  | CClosed => None
  end.

Inductive step (u u' : SharedUDP) : Prop :=
  | step_read i ev : u_panic u = false -> readStep i ev u = Some u' -> step u u'
  | step_receive : u_panic u = false -> receive u = Some u' -> step u u'
  | step_release k : u_panic u = false -> releasePacket k u = Some u' -> step u u'
  | step_send : u_panic u = false -> u' = (Send u).2 -> step u u'
  | step_close : u_panic u = false -> closeUDP u = Some u' -> step u u'.

(** ** Buffers *)

Definition held (r : reader) : list nat :=
  match r with RRead b | RGot b _ _ => [b] | RFull p => [pk_buf p] | _ => [] end.

(** Where the buffers are. *)
Definition buffers (u : SharedUDP) : list nat :=
  u_pool u ++ flat_map held (u_readers u) ++ map pk_buf (u_incoming u) ++ map pk_buf (u_taken u).

Record owned (u : SharedUDP) : Prop := {
  ow_perm : buffers u ≡ₚ seq 0 (u_fresh u);
  ow_fifo : u_accepted u = u_received u ++ u_incoming u;
  ow_cap : (length (u_incoming u) <= u_cap u)%nat
}.

Lemma flat_map_insert_held (l : list reader) i r r' :
  l !! i = Some r -> flat_map held (<[i := r']> l) ++ held r ≡ₚ flat_map held l ++ held r'.
Proof.
  revert i. induction l as [|x l IH]; intros [|i] H; simplify_eq/=.
  - rewrite <- !app_assoc. rewrite (Permutation_app_comm (held r')). rewrite <- !app_assoc.
    rewrite (Permutation_app_comm (held r) (flat_map held l ++ held r')), <- !app_assoc. f_equiv. apply Permutation_app_comm.
  - rewrite <- !app_assoc. f_equiv. by apply IH.
Qed.

Lemma owned_new n cap : owned (newSharedUDP n cap).
Proof.
  split; simpl; [|done|lia]. unfold buffers. simpl. rewrite !app_nil_r. induction n; [done|exact IHn].
Qed.

(** Permutations by counting. *)
Ltac count_perm :=
  repeat match goal with H : _ ≡ₚ _ |- _ => rewrite (Permutation_count_occ Nat.eq_dec) in H end;
  apply (Permutation_count_occ Nat.eq_dec); let x := fresh "x" in intros x;
  repeat match goal with H : forall _, count_occ _ _ _ = count_occ _ _ _ |- _ => specialize (H x) end;
  repeat match goal with
  | H : context [count_occ Nat.eq_dec (?a :: ?l) x] |- _ => change (a :: l) with ([a] ++ l) in H; rewrite count_occ_app in H
  | |- context [count_occ Nat.eq_dec (?a :: ?l) x] =>
      lazymatch l with [] => fail | _ => change (a :: l) with ([a] ++ l); rewrite count_occ_app end
  end;
  repeat rewrite count_occ_app in *; simpl count_occ in *; lia.

Lemma set_buffers i r r' u :
  u_readers u !! i = Some r -> buffers (setReader i r' u) ++ held r ≡ₚ buffers u ++ held r'.
Proof. intros H. pose proof (flat_map_insert_held _ _ _ r' H) as Hp. unfold buffers. simpl. count_perm. Qed.

Lemma delete_perm {A} (l : list A) k x : l !! k = Some x -> x :: delete k l ≡ₚ l.
Proof.
  intros H. rewrite <- (take_drop_middle l k x H) at 2. rewrite delete_take_drop. apply Permutation_middle.
Qed.

Lemma move_same i r r' u : u_readers u !! i = Some r -> held r' = held r -> owned u -> owned (setReader i r' u).
Proof.
  intros Hi Hh [Hp Hf Hc]. split; try done. pose proof (set_buffers i r r' u Hi) as H. rewrite Hh in H.
  apply Permutation_app_inv_r in H. by rewrite H.
Qed.

Lemma move_put i r r' b u :
  u_readers u !! i = Some r -> held r = [b] -> held r' = [] -> owned u -> owned (setReader i r' (put b u)).
Proof.
  intros Hi Hr Hr' [Hp Hf Hc]. split; try done. pose proof (set_buffers i r r' (put b u) Hi) as H. rewrite Hr, Hr' in H.
  change (u_fresh (setReader i r' (put b u))) with (u_fresh u). rewrite <- Hp. apply (Permutation_app_inv_r [b]). rewrite H.
  unfold buffers. simpl. rewrite app_nil_r. apply Permutation_cons_append.
Qed.

Lemma move_take i r r' b k u :
  u_readers u !! i = Some r -> u_pool u !! k = Some b -> held r = [] -> held r' = [b] ->
  owned u -> owned (setReader i r' (setPool (delete k (u_pool u)) (u_fresh u) u)).
Proof.
  intros Hi Hk Hr Hr' [Hp Hf Hc]. split; try done. pose proof (set_buffers i r r' (setPool (delete k (u_pool u)) (u_fresh u) u) Hi) as H.
  rewrite Hr, Hr', app_nil_r in H. rewrite H. change (u_fresh (setReader _ _ _)) with (u_fresh u). rewrite <- Hp.
  unfold buffers. simpl. rewrite <- Permutation_cons_append. change (b :: delete k (u_pool u) ++ ?l) with ((b :: delete k (u_pool u)) ++ l).
  by rewrite (delete_perm _ _ _ Hk).
Qed.

Lemma move_new i r r' u :
  u_readers u !! i = Some r -> held r = [] -> held r' = [u_fresh u] ->
  owned u -> owned (setReader i r' (setPool (u_pool u) (S (u_fresh u)) u)).
Proof.
  intros Hi Hr Hr' [Hp Hf Hc]. split; try done. pose proof (set_buffers i r r' (setPool (u_pool u) (S (u_fresh u)) u) Hi) as H.
  rewrite Hr, Hr', app_nil_r in H. rewrite H. change (u_fresh (setReader _ _ _)) with (S (u_fresh u)). rewrite seq_S.
  apply Permutation_app_tail. exact Hp.
Qed.

Lemma move_push i r p u :
  u_readers u !! i = Some r -> held r = [pk_buf p] -> (length (u_incoming u) < u_cap u)%nat ->
  owned u -> owned (setReader i RIdle (pushPacket p u)).
Proof.
  intros Hi Hr Hlt [Hp Hf Hc]. split.
  - pose proof (set_buffers i r RIdle (pushPacket p u) Hi) as H. rewrite Hr in H. simpl held in H. rewrite app_nil_r in H.
    change (u_fresh (setReader _ _ _)) with (u_fresh u). rewrite <- Hp. apply (Permutation_app_inv_r [pk_buf p]). rewrite H.
    unfold buffers. simpl. rewrite map_app. simpl. rewrite <- !app_assoc. do 3 f_equiv. apply Permutation_app_comm.
  - simpl. by rewrite Hf, app_assoc.
  - simpl. rewrite length_app. simpl. lia.
Qed.

Lemma offer_owned i r p full u :
  u_readers u !! i = Some r -> held r = [pk_buf p] -> owned u -> owned full -> owned (offerPacket i p full u).
Proof.
  intros Hi Hr Hu Hfull. unfold offerPacket. destruct (u_chanClosed u); [by destruct Hu|].
  destruct (Nat.ltb_spec (length (u_incoming u)) (u_cap u)); [by eapply move_push|done].
Qed.

Lemma read_owned i ev u u' : owned u -> readStep i ev u = Some u' -> owned u'.
Proof.
  intros Hu. unfold readStep.
  destruct (u_readers u !! i) as [[|b|b n addr|p| |]|] eqn:Hi; [destruct ev as [k| | | |]..|done]; try done.
  - destruct (u_pool u !! k) as [b|] eqn:Hk; [|done]. intros [= <-]. by eapply move_take.
  - intros [= <-]. by eapply move_new.
  - destruct (_ && _); [|done]. intros [= <-]. by eapply move_same.
  - intros [= <-]. by eapply move_put.
  - destruct (_ || _); [intros [= <-]; by eapply move_put|].
    destruct addr as [a|]; intros [= <-]; [|by eapply move_put].
    eapply offer_owned; [done|done|done|by eapply move_same].
  - intros [= <-]. eapply offer_owned; [done|done|done|by eapply move_put].
  - intros [= <-]. eapply (move_same i RErr RDone (shutdownIncoming u)); [done|done|by destruct Hu].
Qed.

Lemma step_owned u u' : step u u' -> owned u -> owned u'.
Proof.
  intros [i ev _ H|_ H|k _ H|_ ->|_ H] Hu.
  - by eapply read_owned.
  - unfold receive in H. destruct (u_incoming u) as [|p rest] eqn:E; [done|]. injection H as <-.
    destruct Hu as [Hp Hf Hc]. split; simpl.
    + rewrite <- Hp. unfold buffers. rewrite E. simpl. do 2 f_equiv. rewrite Permutation_middle. done.
    + rewrite Hf, E, <- app_assoc. done.
    + rewrite E in Hc. simpl in Hc. lia.
  - unfold releasePacket in H. destruct (u_taken u !! k) as [p|] eqn:E; [|done]. injection H as <-.
    destruct Hu as [Hp Hf Hc]. split; simpl; try done. rewrite <- Hp. unfold buffers. simpl.
    pose proof (Permutation_map pk_buf (delete_perm _ _ _ E)) as Hd. simpl in Hd.
    set (rest := map pk_buf (delete k (u_taken u))) in *. set (all := map pk_buf (u_taken u)) in *. clearbody rest all.
    rewrite <- Hd, !app_assoc. apply Permutation_middle.
  - unfold Send. destruct (u_closed u); [done|]. destruct (u_open u); [done|]. by destruct Hu.
  - unfold closeUDP in H. destruct (u_closer u); [| destruct (_ <? _)%nat | |done]; injection H as <-; by destruct Hu.
Qed.

Definition reachable (sockets cap : nat) (u : SharedUDP) : Prop := rtc step (newSharedUDP sockets cap) u.

Lemma reachable_owned sockets cap u : reachable sockets cap u -> owned u.
Proof.
  intros H. unfold reachable in H. remember (newSharedUDP sockets cap) as u0 eqn:E.
  assert (owned u0) as H0 by (subst; apply owned_new). clear E. induction H as [|u0 u1 u2 Hs _ IH]; [done|].
  apply IH. by eapply step_owned.
Qed.

(** A panic needs a closed channel, and the channel is closed by [Close] or by a
    reader whose socket failed. *)
Definition failed (r : reader) : bool := match r with RDone => true | _ => false end.

Definition closed_why (u : SharedUDP) : Prop :=
  (u_panic u = true -> u_chanClosed u = true)
  /\ (u_chanClosed u = true -> u_closer u = CClosed \/ existsb failed (u_readers u) = true).

Lemma failed_insert l i r r' :
  l !! i = Some r -> failed r = false -> existsb failed l = true -> existsb failed (<[i := r']> l) = true.
Proof.
  intros Hi Hr (x & Hx & Hf)%existsb_exists. apply existsb_exists. exists x. split; [|done].
  apply list_elem_of_In in Hx. apply list_elem_of_In. apply list_elem_of_lookup in Hx as (j & Hj). apply list_elem_of_lookup.
  exists j. rewrite list_lookup_insert_ne; [done|]. intros <-. congruence.
Qed.

Lemma step_closed_why u u' : step u u' -> closed_why u -> closed_why u'.
Proof.
  intros Hs [H1 H2].
  assert (forall i r r' v, u_readers u !! i = Some r -> failed r = false -> u_readers v = u_readers u ->
            u_chanClosed v = u_chanClosed u -> u_closer v = u_closer u -> u_panic v = u_panic u ->
            closed_why (setReader i r' v)) as Hmove.
  { intros i r r' v Hi Hr E1 E2 E3 E4. unfold closed_why. simpl. rewrite E1, E2, E3, E4. split; [done|].
    intros [H|H]%H2; [by left|right; by eapply failed_insert]. }
  destruct Hs as [i ev Hp H|Hp H|k Hp H|Hp ->|Hp H].
  - unfold readStep in H.
    assert (forall p full r, u_readers u !! i = Some r -> failed r = false -> closed_why full -> closed_why (offerPacket i p full u)) as Ho.
    { intros p full r Hi Hr Hfull. unfold offerPacket. destruct (u_chanClosed u) eqn:E; [split; simpl; auto|].
      destruct (_ <? _)%nat; [by eapply (Hmove i r RIdle (pushPacket p u))|done]. }
    destruct (u_readers u !! i) as [[|b|b n addr|p| |]|] eqn:Hi; [destruct ev as [k| | | |]..|done]; try done.
    + destruct (u_pool u !! k); [|done]. injection H as <-. by eapply Hmove.
    + injection H as <-. by eapply Hmove.
    + destruct (_ && _); [|done]. injection H as <-. by eapply Hmove.
    + injection H as <-. by eapply Hmove.
    + destruct (_ || _); [injection H as <-; by eapply Hmove|].
      destruct addr; injection H as <-; [|by eapply Hmove]. eapply Ho; [done|done|by eapply Hmove].
    + injection H as <-. eapply Ho; [done|done|by eapply Hmove].
    + injection H as <-. split; simpl; [done|]. intros _. right. apply existsb_exists. exists RDone. split; [|done].
      apply list_elem_of_In, list_elem_of_lookup. exists i. rewrite list_lookup_insert_eq; [done|]. by eapply lookup_lt_Some.
  - unfold receive in H. destruct (u_incoming u); [done|]. injection H as <-. by split.
  - unfold releasePacket in H. destruct (u_taken u !! k); [|done]. injection H as <-. by split.
  - unfold Send. destruct (u_closed u); [by split|]. destruct (u_open u); by split.
  - unfold closeUDP in H. destruct (u_closer u) eqn:E; [|destruct (_ <? _)%nat| |done]; injection H as <-; split; simpl; auto;
      intros [H|H]%H2; auto; congruence.
Qed.

Lemma reachable_closed_why sockets cap u : reachable sockets cap u -> closed_why u.
Proof.
  intros H. unfold reachable in H. remember (newSharedUDP sockets cap) as u0 eqn:E.
  assert (closed_why u0) as H0 by (subst; split; done). clear E. induction H as [|u0 u1 u2 Hs _ IH]; [done|].
  apply IH. by eapply step_closed_why.
Qed.

(** C19: However the sockets, the engine and [Close] interleave: every read buffer
    that was ever made is in exactly one place (the pool, one reader, the channel
    or the engine), so no packet is overwritten while it is used; packets leave
    the channel in the order in which they entered it and there are never more
    than its capacity; and the process panics only after [Close] has run or the
    reader of a socket has failed. *)
Theorem udp_buffers_safe sockets cap u :
  reachable sockets cap u ->
  buffers u ≡ₚ seq 0 (u_fresh u) /\ NoDup (buffers u)
  /\ u_accepted u = u_received u ++ u_incoming u /\ (length (u_incoming u) <= u_cap u)%nat
  /\ (u_panic u = true -> u_closer u = CClosed \/ existsb failed (u_readers u) = true).
Proof.
  intros H. pose proof (reachable_owned _ _ _ H) as [Hp Hf Hc]. pose proof (reachable_closed_why _ _ _ H) as [H1 H2].
  split_and!; try done; [|auto]. rewrite Hp. apply NoDup_seq.
Qed.

(** ** Runs *)

(** A run as a list of moves. *)
Inductive move := MRead (i : nat) (ev : read_event) | MReceive | MRelease (k : nat) | MSend | MClose.

Definition doMove (u : SharedUDP) (m : move) : option SharedUDP :=
  if u_panic u then None
  else match m with
  | MRead i ev => readStep i ev u
  | MReceive => receive u
  | MRelease k => releasePacket k u
  | MSend => Some (Send u).2
  | MClose => closeUDP u
  end.

Fixpoint doMoves (u : SharedUDP) (ms : list move) : option SharedUDP :=
  match ms with
  | [] => Some u
  | m :: ms' => match doMove u m with Some u' => doMoves u' ms' | None => None end
  end.

Lemma udp_moves_steps ms u u' : doMoves u ms = Some u' -> rtc step u u'.
Proof.
  revert u. induction ms as [|m ms IH]; intros u; simpl; [intros [= <-]; apply rtc_refl|].
  destruct (doMove u m) as [u1|] eqn:E; [|done]. intros H%IH. eapply rtc_l; [|exact H].
  unfold doMove in E. destruct (u_panic u) eqn:Hp; [done|]. destruct m as [i ev| |k| |].
  - by eapply step_read.
  - by eapply step_receive.
  - by eapply step_release.
  - injection E as <-. by eapply step_send.
  - by eapply step_close.
Qed.

Definition peer : option str := Some (lit "192.0.2.7:5060").

(** One datagram read, received and released; a second one waits. *)
Definition demo_moves : list move :=
  [MRead 0 EvNew; MRead 0 (EvData 300 peer); MRead 0 EvGo; MReceive; MRelease 0; MRead 0 (EvPooled 0);
   MRead 0 (EvData 200 peer); MRead 0 EvGo; MSend].

Definition demo_udp : SharedUDP := default (newSharedUDP 1 2) (doMoves (newSharedUDP 1 2) demo_moves).

Lemma udp_buffers_safe_witness :
  buffers demo_udp ≡ₚ [0%nat] /\ u_accepted demo_udp = u_received demo_udp ++ u_incoming demo_udp.
Proof.
  destruct (udp_buffers_safe 1 2 demo_udp) as (H1 & _ & H3 & _).
  - apply (udp_moves_steps demo_moves). vm_compute. reflexivity.
  - split; [exact H1|exact H3].
Defined.

(** [Close] closes the channel while a reader may be about to send a packet it
    has just read: the process panics. *)
Theorem close_while_receiving_panics :
  exists u, reachable 1 512 u /\ u_closer u = CClosed /\ u_panic u = true.
Proof.
  destruct (doMoves (newSharedUDP 1 512) [MRead 0 EvNew; MRead 0 (EvData 300 peer); MClose; MClose; MClose; MClose; MRead 0 EvGo])
    as [u|] eqn:E; [|by vm_compute in E].
  exists u. split; [by eapply udp_moves_steps|]. vm_compute in E. injection E as <-. done.
Qed.

(** When one of several sockets fails, the channel is closed under the readers
    of the others: the next datagram panics, without any call of [Close]. *)
Theorem socket_failure_panics :
  exists u, reachable 2 1024 u /\ u_closer u = COpen /\ u_panic u = true.
Proof.
  destruct (doMoves (newSharedUDP 2 1024) [MRead 0 EvNew; MRead 1 EvNew; MRead 0 EvError; MRead 0 EvGo;
    MRead 1 (EvData 300 peer); MRead 1 EvGo]) as [u|] eqn:E; [|by vm_compute in E].
  exists u. split; [by eapply udp_moves_steps|]. vm_compute in E. injection E as <-. done.
Qed.

(** Sends go round the sockets. *)
Theorem send_round_robin u n :
  u_closed u = false -> length (u_open u) = n -> (0 < n)%nat -> 0 <= u_sendIdx u < 2 ^ 64 - 2 ->
  exists i j, (Send u).1 = Ok i /\ (Send (Send u).2).1 = Ok j /\ (i < n)%nat /\ j = (if (S i =? n)%nat then 0%nat else S i).
Proof.
  intros Hc Hn Hpos Hi. unfold Send. rewrite Hc. destruct (u_open u) as [|o os] eqn:E; [simpl in Hn; lia|]. cbn [fst snd u_closed u_open u_sendIdx].
  eexists _, _. split; [done|]. split; [done|]. rewrite Hn. unfold u64. rewrite !Z.mod_small with (b := 2 ^ 64) by lia. split.
  - pose proof (Z.mod_pos_bound (u_sendIdx u + 1) (Z.of_nat n)). lia.
  - pose proof (Z.mod_pos_bound (u_sendIdx u + 1) (Z.of_nat n)) as Hb.
    rewrite <- Zplus_mod_idemp_l. set (m := (u_sendIdx u + 1) mod Z.of_nat n) in *.
    destruct (Nat.eqb_spec (S (Z.to_nat m)) n) as [Eq|Ne].
    + replace (m + 1) with (Z.of_nat n) by lia. rewrite Z_mod_same_full. done.
    + rewrite Z.mod_small by lia. lia.
Qed.

End Udp.

Module Stream.

(** ** [SharedTCP] and [SharedTLS] *)

(** [ReconnectOptions]; of the pause only whether there is one. *)
Record ReconnectOptions := mkReconnect { ro_MaxAttempts : Z; ro_Sleep : bool; ro_CloseOnReconnect : bool }.

(** The place of a goroutine in [tryReconnect]; from [TRecheck] on it holds
    [reconnectMu]. *)
Inductive rec_pc :=
  | TCheck | TLock | TRecheck
  | TAttempt (k : Z)             (* at the top of the loop *)
  | TSleep (k : Z)
  | TDial (k : Z)
  | TSwap (c : nat)              (* connection [c] was dialled *)
  | TCloseOld (old : nat)
  | TReturn (ok : bool).

Inductive read_pc := LTop | LRead (c : nat) | LReconnect (r : rec_pc) | LDeliver | LEnd.
Inductive send_pc := SStart | SWrite (c : nat) | SReconnect (r : rec_pc) | SAgain | SWrite2 (c : nat) | SDone (ok : bool).
Inductive close_pc := KNone | KGet | KClose (c : nat) | KDone.

(** The goroutines that reconnect: [readLoop] and the calls of [Send]. *)
Inductive who := Loop | Sender (i : nat).

#[global] Instance who_eq_dec : EqDecision who.
Proof. solve_decision. Defined.

Record Shared := mkShared {
  sh_reconnect : ReconnectOptions;
  sh_conns : list bool;            (* every connection made, and whether it is open *)
  sh_cur : nat;                    (* [conn] and [reader] *)
  sh_mutex : option who;
  sh_closed : bool;                (* the channel [closed] *)
  sh_loop : read_pc; sh_senders : list send_pc; sh_closer : close_pc;
  sh_delivered : nat               (* messages put into [incoming] *)
}.

Definition newShared (ro : ReconnectOptions) (senders : nat) : Shared :=
  mkShared ro [true] 0 None false LTop (replicate senders SStart) KNone 0.

Definition withConns (conns : list bool) (cur : nat) (s : Shared) : Shared :=
  mkShared (sh_reconnect s) conns cur (sh_mutex s) (sh_closed s) (sh_loop s) (sh_senders s) (sh_closer s) (sh_delivered s).
Definition withMutex (m : option who) (s : Shared) : Shared :=
  mkShared (sh_reconnect s) (sh_conns s) (sh_cur s) m (sh_closed s) (sh_loop s) (sh_senders s) (sh_closer s) (sh_delivered s).
Definition withLoop (l : read_pc) (s : Shared) : Shared :=
  mkShared (sh_reconnect s) (sh_conns s) (sh_cur s) (sh_mutex s) (sh_closed s) l (sh_senders s) (sh_closer s) (sh_delivered s).
Definition withSender (i : nat) (p : send_pc) (s : Shared) : Shared :=
  mkShared (sh_reconnect s) (sh_conns s) (sh_cur s) (sh_mutex s) (sh_closed s) (sh_loop s) (<[i := p]> (sh_senders s))
    (sh_closer s) (sh_delivered s).
Definition withCloser (closed : bool) (k : close_pc) (s : Shared) : Shared :=
  mkShared (sh_reconnect s) (sh_conns s) (sh_cur s) (sh_mutex s) closed (sh_loop s) (sh_senders s) k (sh_delivered s).
Definition deliver (s : Shared) : Shared :=
  mkShared (sh_reconnect s) (sh_conns s) (sh_cur s) (sh_mutex s) (sh_closed s) (sh_loop s) (sh_senders s) (sh_closer s)
    (S (sh_delivered s)).
Definition closeConn (c : nat) (s : Shared) : Shared := withConns (<[c := false]> (sh_conns s)) (sh_cur s) s.
Definition is_open (c : nat) (s : Shared) : bool := default false (sh_conns s !! c).

(** What a step depends on: whether a read, write, dial or pause succeeds. *)
Definition outcome_of := bool.

(** One step of [tryReconnect]: where the goroutine is then, or what it returns;
    [None] while it waits for the mutex. *)
Definition recStep (g : who) (ok : outcome_of) (r : rec_pc) (s : Shared) : option ((rec_pc + bool) * Shared) :=
  let ro := sh_reconnect s in
  match r with
  | TCheck =>
    if ro_CloseOnReconnect ro || (ro_MaxAttempts ro <=? 0) || sh_closed s then Some (inr false, s) else Some (inl TLock, s)
  | TLock => match sh_mutex s with None => Some (inl TRecheck, withMutex (Some g) s) | Some _ => None end
  | TRecheck => Some (inl (if sh_closed s then TReturn false else TAttempt 0), s)
  | TAttempt k =>
    Some (inl (if ro_MaxAttempts ro <=? k then TReturn false
               else if (0 <? k) && ro_Sleep ro then TSleep k else TDial k), s)
  | TSleep k =>
    (* the timer, or [closed] once it is closed *)
    if ok then Some (inl (TDial k), s) else if sh_closed s then Some (inl (TReturn false), s) else None
  | TDial k =>
    if ok then Some (inl (TSwap (length (sh_conns s))), withConns (sh_conns s ++ [true]) (sh_cur s) s)
    else Some (inl (TAttempt (k + 1)), s)
  | TSwap c => Some (inl (TCloseOld (sh_cur s)), withConns (sh_conns s) c s)
  | TCloseOld old => Some (inl (TReturn true), closeConn old s)
  | TReturn res => Some (inr res, withMutex None s)
  end.

(** One step of [readLoop]. *)
Definition loopStep (ok : outcome_of) (s : Shared) : option Shared :=
  match sh_loop s with
  | LTop => Some (withLoop (if sh_closed s then LEnd else LRead (sh_cur s)) s)
  | LRead c =>
    if ok then if is_open c s then Some (withLoop LDeliver s) else None
    else Some (withLoop (LReconnect TCheck) s)
  | LReconnect r =>
    match recStep Loop ok r s with
    | None => None
    | Some (inl r', s') => Some (withLoop (LReconnect r') s')
    | Some (inr res, s') => Some (withLoop (if res then LTop else LEnd) s')
    end
  | LDeliver =>
    if ok then Some (withLoop LTop (deliver s)) else if sh_closed s then Some (withLoop LEnd s) else None
  | LEnd => None
  end.

(** One step of a call of [Send]. *)
Definition sendStep (i : nat) (ok : outcome_of) (s : Shared) : option Shared :=
  match sh_senders s !! i with
  | Some SStart => Some (withSender i (SWrite (sh_cur s)) s)
  | Some (SWrite c) =>
    if ok then if is_open c s then Some (withSender i (SDone true) s) else None
    else Some (withSender i (SReconnect TCheck) s)
  | Some (SReconnect r) =>
    match recStep (Sender i) ok r s with
    | None => None
    | Some (inl r', s') => Some (withSender i (SReconnect r') s')
    | Some (inr res, s') => Some (withSender i (if res then SAgain else SDone false) s')
    end
  | Some SAgain => Some (withSender i (SWrite2 (sh_cur s)) s)
  | Some (SWrite2 c) =>
    if ok then if is_open c s then Some (withSender i (SDone true) s) else None
    else Some (withSender i (SDone false) s)
  | _ => None
  end.

(** One step of [Close]. *)
Definition closeStream (s : Shared) : option Shared :=
  match sh_closer s with
  | KNone => Some (withCloser true KGet s)
  | KGet => Some (withCloser (sh_closed s) (KClose (sh_cur s)) s)
  | KClose c => Some (closeConn c (withCloser (sh_closed s) KDone s))
  | KDone => None
  end.

Inductive move := MLoop (ok : bool) | MSend (i : nat) (ok : bool) | MClose.

Definition doMove (m : move) (s : Shared) : option Shared :=
  match m with MLoop ok => loopStep ok s | MSend i ok => sendStep i ok s | MClose => closeStream s end.

Definition step (s s' : Shared) : Prop := exists m, doMove m s = Some s'.

Fixpoint doMoves (ms : list move) (s : Shared) : option Shared :=
  match ms with
  | [] => Some s
  | m :: ms' => match doMove m s with Some s' => doMoves ms' s' | None => None end
  end.

Lemma stream_moves_steps ms s s' : doMoves ms s = Some s' -> rtc step s s'.
Proof.
  revert s. induction ms as [|m ms IH]; intros s; simpl; [intros [= <-]; apply rtc_refl|].
  destruct (doMove m s) as [s1|] eqn:E; [|done]. intros H%IH. eapply rtc_l; [by exists m|done].
Qed.

Definition reachable (ro : ReconnectOptions) (senders : nat) (s : Shared) : Prop := rtc step (newShared ro senders) s.

(** ** Connections in use *)

Definition at_ (s : Shared) (g : who) : option rec_pc :=
  match g with
  | Loop => match sh_loop s with LReconnect r => Some r | _ => None end
  | Sender i => match sh_senders s !! i with Some (SReconnect r) => Some r | _ => None end
  end.

Definition locked (r : rec_pc) : bool := match r with TCheck | TLock => false | _ => true end.

(** The connection a reconnecting goroutine has to install or to close. *)
Definition hand (r : rec_pc) : list nat := match r with TSwap c | TCloseOld c => [c] | _ => [] end.

Record good (m : option who) (conns : list bool) (cur : nat) (pc : who -> option rec_pc) : Prop := {
  g_holder : forall g r, pc g = Some r -> locked r = true -> m = Some g;
  g_cur : (cur < length conns)%nat;
  g_hand : forall g r c, pc g = Some r -> c ∈ hand r -> (c < length conns)%nat /\ c <> cur;
  g_open : forall c, conns !! c = Some true -> c = cur \/ exists g r, pc g = Some r /\ c ∈ hand r
}.

Definition change (pc : who -> option rec_pc) (g : who) (o : option rec_pc) : who -> option rec_pc :=
  fun g' => if decide (g' = g) then o else pc g'.

Lemma change_eq pc g o : change pc g o g = o.
Proof. unfold change. by rewrite decide_True. Qed.
Lemma change_ne pc g o g' : g' <> g -> change pc g o g' = pc g'.
Proof. intros H. unfold change. by rewrite decide_False. Qed.

Lemma hand_locked r c : c ∈ hand r -> locked r = true.
Proof. by destruct r; try (by intros ?%not_elem_of_nil). Qed.

(** A goroutine that has a connection in hand is the only one. *)
Lemma hand_unique m conns cur pc g r g' r' c' :
  good m conns cur pc -> pc g = Some r -> locked r = true -> pc g' = Some r' -> c' ∈ hand r' -> g' = g.
Proof.
  intros [Hh _ _ _] H1 H2 H3 H4. pose proof (Hh g r H1 H2). pose proof (Hh g' r' H3 (hand_locked _ _ H4)). congruence.
Qed.

(** A step that only moves a goroutine. *)
Lemma good_change m conns cur pc g o :
  good m conns cur pc ->
  from_option locked false o = from_option locked false (pc g) -> from_option hand [] o = from_option hand [] (pc g) ->
  good m conns cur (change pc g o).
Proof.
  intros [Hh Hc Hd Ho] El Eh. split; [|done| |].
  - intros g' r H1 H2. destruct (decide (g' = g)) as [-> | Hn]; [|rewrite change_ne in H1 by done; by eapply Hh].
    rewrite change_eq in H1. subst o. simpl in El. rewrite H2 in El. destruct (pc g) as [r0|] eqn:E; [|done]. by eapply Hh.
  - intros g' r c H1 H2. destruct (decide (g' = g)) as [-> | Hn]; [|rewrite change_ne in H1 by done; by eapply Hd].
    rewrite change_eq in H1. subst o. simpl in Eh. destruct (pc g) as [r0|] eqn:E; simpl in Eh;
      [rewrite Eh in H2; by eapply Hd|rewrite Eh in H2; by apply not_elem_of_nil in H2].
  - intros c [H|(g' & r & H1 & H2)]%Ho; [by left|right]. destruct (decide (g' = g)) as [-> | Hn].
    + rewrite H1 in Eh. simpl in Eh. destruct o as [r'|]; simpl in Eh; [|rewrite <- Eh in H2; by apply not_elem_of_nil in H2].
      exists g, r'. rewrite change_eq. split; [done|]. by rewrite Eh.
    + exists g', r. by rewrite change_ne.
Qed.

Lemma good_close m conns cur pc c : good m conns cur pc -> good m (<[c := false]> conns) cur pc.
Proof.
  intros [Hh Hc Hd Ho]. split; [done| | |]; rewrite ?length_insert; try done.
  intros c' H. destruct (decide (c' = c)) as [-> | Hn].
  - rewrite list_lookup_insert_Some in H. destruct H as [(_ & [=] & _)|(Hne & _)]. by destruct Hne.
  - rewrite list_lookup_insert_ne in H by congruence. by apply Ho.
Qed.

Definition after (o : rec_pc + bool) : option rec_pc := match o with inl r => Some r | inr _ => None end.

(** Moves of the goroutine [g] that holds the mutex or takes or releases it. *)
Section Holder.

Context (m : option who) (conns : list bool) (cur : nat) (pc : who -> option rec_pc) (g : who) (r : rec_pc).
Hypothesis HG : good m conns cur pc.
Hypothesis Hg : pc g = Some r.

Lemma other_hand g' r' c : locked r = true -> pc g' = Some r' -> c ∈ hand r' -> g' = g /\ r' = r.
Proof.
  intros Hl H1 H2. assert (g' = g) as -> by (by eapply (hand_unique _ _ _ _ g r g' r' c)). split; [done|]. congruence.
Qed.

Lemma good_lock r' : hand r = [] -> hand r' = [] -> m = None -> good (Some g) conns cur (change pc g (Some r')).
Proof.
  intros Er Er' ->. destruct HG as [Hh Hc Hd Ho]. split; [|done| |].
  - intros g' q H1 H2. destruct (decide (g' = g)) as [-> | Hn]; [done|]. rewrite change_ne in H1 by done.
    by apply (Hh g' q) in H1.
  - intros g' q c H1 H2. destruct (decide (g' = g)) as [-> | Hn]; [|rewrite change_ne in H1 by done; by eapply Hd].
    rewrite change_eq in H1. injection H1 as <-. rewrite Er' in H2. by apply not_elem_of_nil in H2.
  - intros c [Hx|(g' & q & H1 & H2)]%Ho; [by left|right]. exists g', q. rewrite change_ne; [done|].
    intros ->. rewrite Hg in H1. injection H1 as <-. rewrite Er in H2. by apply not_elem_of_nil in H2.
Qed.

Lemma good_unlock : hand r = [] -> locked r = true -> good None conns cur (change pc g None).
Proof.
  intros Er El. destruct HG as [Hh Hc Hd Ho]. pose proof (Hh g r Hg El) as Hm. split; [|done| |].
  - intros g' q H1 H2. destruct (decide (g' = g)) as [-> | Hn]; [by rewrite change_eq in H1|].
    rewrite change_ne in H1 by done. pose proof (Hh g' q H1 H2). congruence.
  - intros g' q c' H1 H2. destruct (decide (g' = g)) as [-> | Hn]; [by rewrite change_eq in H1|].
    rewrite change_ne in H1 by done. by eapply Hd.
  - intros c' [Hx|(g' & q & H1 & H2)]%Ho; [by left|right]. exists g', q. rewrite change_ne; [done|].
    intros ->. rewrite Hg in H1. injection H1 as <-. rewrite Er in H2. by apply not_elem_of_nil in H2.
Qed.

Lemma good_dialled :
  hand r = [] -> locked r = true -> good m (conns ++ [true]) cur (change pc g (Some (TSwap (length conns)))).
Proof.
  intros Er El. destruct HG as [Hh Hc Hd Ho]. pose proof (Hh g r Hg El) as Hm. split.
  - intros g' q H1 H2. destruct (decide (g' = g)) as [-> | Hn]; [done|]. rewrite change_ne in H1 by done. by eapply Hh.
  - rewrite length_app. lia.
  - intros g' q c H1 H2. rewrite length_app. simpl. destruct (decide (g' = g)) as [-> | Hn].
    + rewrite change_eq in H1. injection H1 as <-. apply list_elem_of_singleton in H2 as ->. lia.
    + rewrite change_ne in H1 by done. destruct (Hd g' q c H1 H2). lia.
  - intros c Hc'. apply lookup_app_Some in Hc' as [H1|[Hle H1]].
    + apply Ho in H1 as [H1|(g' & q & H1 & H2)]; [by left|]. destruct (other_hand g' q c El H1 H2) as [_ ->].
      rewrite Er in H2. by apply not_elem_of_nil in H2.
    + apply list_lookup_singleton_Some in H1 as [H1 _]. right. exists g, (TSwap (length conns)). rewrite change_eq.
      split; [done|]. apply list_elem_of_singleton. lia.
Qed.

End Holder.

Lemma good_swapped m conns cur pc g c :
  good m conns cur pc -> pc g = Some (TSwap c) -> good m conns c (change pc g (Some (TCloseOld cur))).
Proof.
  intros HG Hg. pose proof (other_hand _ _ _ _ _ _ HG Hg) as other_hand. destruct HG as [Hh Hc Hd Ho]. destruct (Hd g (TSwap c) c Hg) as [Hlt Hne]; [by left|]. split; [|done| |].
  - intros g' q H1 H2. destruct (decide (g' = g)) as [-> | Hn]; [by apply (Hh g (TSwap c))|].
    rewrite change_ne in H1 by done. by eapply Hh.
  - intros g' q c' H1 H2. destruct (decide (g' = g)) as [-> | Hn].
    + rewrite change_eq in H1. injection H1 as <-. apply list_elem_of_singleton in H2 as ->. done.
    + rewrite change_ne in H1 by done. by destruct (other_hand g' q c' eq_refl H1 H2).
  - intros c' [-> | (g' & q & H1 & H2)]%Ho.
    + right. exists g, (TCloseOld cur). rewrite change_eq. split; [done|by left].
    + destruct (other_hand g' q c' eq_refl H1 H2) as [_ ->]. apply list_elem_of_singleton in H2 as ->. by left.
Qed.

Lemma good_closed_old m conns cur pc g old :
  good m conns cur pc -> pc g = Some (TCloseOld old) -> good m (<[old := false]> conns) cur (change pc g (Some (TReturn true))).
Proof.
  intros HG Hg. pose proof (other_hand _ _ _ _ _ _ HG Hg) as other_hand. destruct (good_close _ _ _ _ old HG) as [Gh Gc Gd Go]. destruct HG as [Hh _ Hd _]. split; [|done| |].
  - intros g' q H1 H2. destruct (decide (g' = g)) as [-> | Hn]; [by apply (Hh g (TCloseOld old))|].
    rewrite change_ne in H1 by done. by eapply Gh.
  - intros g' q c' H1 H2. destruct (decide (g' = g)) as [-> | Hn].
    + rewrite change_eq in H1. injection H1 as <-. by apply not_elem_of_nil in H2.
    + rewrite change_ne in H1 by done. by eapply Gd.
  - intros c' Hc'. pose proof (Go c' Hc') as [Hx|(g' & q & H1 & H2)]; [by left|]. exfalso.
    destruct (other_hand g' q c' eq_refl H1 H2) as [_ ->]. apply list_elem_of_singleton in H2 as ->.
    rewrite list_lookup_insert_eq in Hc'; [done|]. by destruct (Hd g (TCloseOld old) old Hg) as [? _]; [left|].
Qed.

Lemma good_rec g ok r s o s' pc :
  recStep g ok r s = Some (o, s') -> pc g = Some r -> good (sh_mutex s) (sh_conns s) (sh_cur s) pc ->
  good (sh_mutex s') (sh_conns s') (sh_cur s') (change pc g (after o)).
Proof.
  intros H Hg HG.
  assert (forall o', from_option locked false o' = locked r -> from_option hand [] o' = hand r ->
            good (sh_mutex s) (sh_conns s) (sh_cur s) (change pc g o')) as Hmove
    by (intros; apply good_change; [done|by rewrite Hg|by rewrite Hg]).
  destruct r as [| | |k|k|k|c|old|res]; simpl in H.
  - destruct (_ || _); injection H as <- <-; by apply Hmove.
  - destruct (sh_mutex s) eqn:Em; [done|]. injection H as <- <-. by eapply good_lock.
  - injection H as <- <-. apply Hmove; by destruct (sh_closed s).
  - injection H as <- <-. apply Hmove; repeat case_match; done.
  - destruct ok; [|destruct (sh_closed s); [|done]]; injection H as <- <-; by apply Hmove.
  - destruct ok; injection H as <- <-; [by eapply good_dialled|by apply Hmove].
  - injection H as <- <-. by eapply good_swapped.
  - injection H as <- <-. by eapply good_closed_old.
  - injection H as <- <-. by eapply good_unlock.
Qed.

Definition good_state (s : Shared) : Prop := good (sh_mutex s) (sh_conns s) (sh_cur s) (at_ s).

Lemma good_ext m conns cur pc pc' : (forall g, pc' g = pc g) -> good m conns cur pc -> good m conns cur pc'.
Proof.
  intros E [Hh Hc Hd Ho]. split; [|done| |].
  - intros g r. rewrite E. apply Hh.
  - intros g r c. rewrite E. apply Hd.
  - intros c [H|(g & r & H1 & H2)]%Ho; [by left|right]. exists g, r. by rewrite E.
Qed.

Lemma at_withLoop l s g :
  at_ (withLoop l s) g = change (at_ s) Loop (match l with LReconnect r => Some r | _ => None end) g.
Proof. unfold change. by destruct g. Qed.

Lemma at_withSender i p q s g :
  sh_senders s !! i = Some q ->
  at_ (withSender i p s) g = change (at_ s) (Sender i) (match p with SReconnect r => Some r | _ => None end) g.
Proof.
  intros Hi. unfold change. destruct g as [|j]; [done|]. simpl. destruct (decide (Sender j = Sender i)) as [[= ->] | Hn].
  - rewrite list_lookup_insert_eq; [done|]. by eapply lookup_lt_Some.
  - rewrite list_lookup_insert_ne; [done|]. congruence.
Qed.

Lemma recStep_frame g ok r s o s' :
  recStep g ok r s = Some (o, s') -> sh_loop s' = sh_loop s /\ sh_senders s' = sh_senders s.
Proof. intros H. destruct r; simpl in H; repeat case_match; simplify_eq; done. Qed.

Lemma at_frame s s' : sh_loop s' = sh_loop s -> sh_senders s' = sh_senders s -> forall g, at_ s' g = at_ s g.
Proof. intros H1 H2 [|i]; simpl; by rewrite ?H1, ?H2. Qed.

(** A step that neither starts with nor leads into the protected part of
    [tryReconnect]. *)
Lemma loop_plain l s :
  good_state s -> from_option locked false (at_ s Loop) = false -> from_option hand [] (at_ s Loop) = [] ->
  match l with LReconnect r => r = TCheck | _ => True end -> good_state (withLoop l s).
Proof.
  intros HG H1 H2 Hl. eapply good_ext; [apply at_withLoop|]. apply good_change; [done| |].
  - rewrite H1. destruct l; try done. by subst.
  - rewrite H2. destruct l; try done. by subst.
Qed.

Lemma sender_plain i p q s :
  good_state s -> sh_senders s !! i = Some q -> match q with SReconnect _ => False | _ => True end ->
  match p with SReconnect r => r = TCheck | _ => True end -> good_state (withSender i p s).
Proof.
  intros HG Hi Hq Hp. eapply good_ext; [intros g; by eapply at_withSender|]. apply good_change; [done| |]; simpl; rewrite Hi.
  - destruct q, p; try done; by subst.
  - destruct q, p; try done; by subst.
Qed.

Lemma loop_good ok s s' : good_state s -> loopStep ok s = Some s' -> good_state s'.
Proof.
  intros HG. unfold loopStep. destruct (sh_loop s) as [|c|r| |] eqn:El.
  - intros [= <-]. apply loop_plain; [done|by simpl; rewrite El|by simpl; rewrite El|by destruct (sh_closed s)].
  - assert (forall l, match l with LReconnect r => r = TCheck | _ => True end -> good_state (withLoop l s)) as Hp
      by (intros; apply loop_plain; try done; by simpl; rewrite El).
    destruct ok; [destruct (is_open c s); [|done]|]; intros [= <-]; by apply Hp.
  - destruct (recStep Loop ok r s) as [[o s1]|] eqn:Er; [|done]. intros H.
    destruct (recStep_frame _ _ _ _ _ _ Er) as [E1 E2].
    assert (at_ s Loop = Some r) as Ha by (by simpl; rewrite El).
    pose proof (good_rec _ _ _ _ _ _ _ Er Ha HG) as HG'.
    destruct o as [r'|res]; injection H as <-; (eapply good_ext; [|exact HG']); intros g; rewrite at_withLoop;
      unfold change; destruct (decide (g = Loop)); try (by apply at_frame); [done|by destruct res].
  - destruct ok; [|destruct (sh_closed s); [|done]]; intros [= <-].
    + apply (loop_plain LTop (deliver s)); [by eapply good_ext; [|exact HG]|..]; try done; by simpl; rewrite El.
    + apply loop_plain; try done; by simpl; rewrite El.
  - done.
Qed.

Lemma send_good i ok s s' : good_state s -> sendStep i ok s = Some s' -> good_state s'.
Proof.
  intros HG. unfold sendStep. destruct (sh_senders s !! i) as [q|] eqn:Ei; [|done].
  assert (forall p, match q with SReconnect _ => False | _ => True end ->
            match p with SReconnect r => r = TCheck | _ => True end -> good_state (withSender i p s)) as Hp
    by (intros; by eapply sender_plain).
  destruct q as [|c|r| |c|res]; try done.
  - intros [= <-]. by apply Hp.
  - destruct ok; [destruct (is_open c s); [|done]|]; intros [= <-]; by apply Hp.
  - destruct (recStep (Sender i) ok r s) as [[o s1]|] eqn:Er; [|done]. intros H.
    destruct (recStep_frame _ _ _ _ _ _ Er) as [E1 E2].
    assert (at_ s (Sender i) = Some r) as Ha by (by simpl; rewrite Ei).
    pose proof (good_rec _ _ _ _ _ _ _ Er Ha HG) as HG'.
    assert (sh_senders s1 !! i = Some (SReconnect r)) as Ei1 by by rewrite E2.
    destruct o as [r'|res]; injection H as <-; (eapply good_ext; [|exact HG']); intros g; rewrite (at_withSender _ _ _ _ _ Ei1);
      unfold change; destruct (decide (g = Sender i)); try (by apply at_frame); [done|by destruct res].
  - intros [= <-]. by apply Hp.
  - destruct ok; [destruct (is_open c s); [|done]|]; intros [= <-]; by apply Hp.
Qed.

Lemma close_good s s' : good_state s -> closeStream s = Some s' -> good_state s'.
Proof.
  intros HG. unfold closeStream. destruct (sh_closer s) as [| |c|]; intros H; simplify_eq.
  - by eapply good_ext; [|exact HG].
  - by eapply good_ext; [|exact HG].
  - eapply good_ext; [|exact (good_close _ _ _ _ c HG)]. done.
Qed.

Lemma new_good ro senders : good_state (newShared ro senders).
Proof.
  assert (forall g, at_ (newShared ro senders) g = None) as H.
  { intros [|i]; [done|]. simpl. destruct (replicate senders SStart !! i) as [p|] eqn:E; [|done].
    apply lookup_replicate in E as [-> _]. done. }
  split.
  - intros g r. by rewrite H.
  - simpl. lia.
  - intros g r c. by rewrite H.
  - intros [|c] Hc; [by left|done].
Qed.

Lemma reachable_good ro senders s : reachable ro senders s -> good_state s.
Proof.
  intros H. unfold reachable in H. remember (newShared ro senders) as s0 eqn:E.
  assert (good_state s0) as H0 by (subst; apply new_good). clear E. induction H as [|s0 s1 s2 [m Hm] _ IH]; [done|].
  apply IH. destruct m as [ok|i ok|]; [by eapply loop_good|by eapply send_good|by eapply close_good].
Qed.

(** C20: However the reading goroutine, the senders and [Close] interleave, at
    most one goroutine reconnects at a time, and a connection other than the
    current one is open only while that goroutine has it in hand, to install or
    to close it: reconnecting never leaves an old connection behind. *)
Theorem reconnect_keeps_one ro senders s :
  reachable ro senders s ->
  (forall c, is_open c s = true -> c = sh_cur s \/ exists g r, sh_mutex s = Some g /\ at_ s g = Some r /\ hand r = [c])
  /\ (forall g r g' r', at_ s g = Some r -> locked r = true -> at_ s g' = Some r' -> locked r' = true -> g = g')
  /\ (sh_mutex s = None -> forall c, is_open c s = true -> c = sh_cur s).
Proof.
  intros H. destruct (reachable_good _ _ _ H) as [Hh Hc Hd Ho].
  assert (forall c, is_open c s = true -> c = sh_cur s \/ exists g r, sh_mutex s = Some g /\ at_ s g = Some r /\ hand r = [c]) as H1.
  { intros c Hop. unfold is_open in Hop. destruct (sh_conns s !! c) as [b|] eqn:E; [|done]. simpl in Hop. subst b.
    destruct (Ho c E) as [-> | (g & r & Hg & Hr)]; [by left|right]. exists g, r.
    split; [by eapply Hh; [|eapply hand_locked]|]. split; [done|].
    destruct r; simpl in Hr; try (by apply not_elem_of_nil in Hr); apply list_elem_of_singleton in Hr as ->; done. }
  split_and!; [done| |].
  - intros g r g' r' A1 A2 A3 A4. pose proof (Hh g r A1 A2). pose proof (Hh g' r' A3 A4). congruence.
  - intros Hm c Hop. destruct (H1 c Hop) as [? | (g & r & Hg & _)]; [done|congruence].
Qed.

Definition retry : ReconnectOptions := mkReconnect 3 true false.

(** A write fails once and [Send] reconnects. *)
Definition reconnect_moves : list move :=
  [MLoop true; MSend 0 true; MSend 0 false; MSend 0 true; MSend 0 true; MSend 0 true; MSend 0 true; MSend 0 true;
   MSend 0 true; MSend 0 true; MSend 0 true; MSend 0 true; MSend 0 true].

Definition reconnected : Shared := default (newShared retry 1) (doMoves reconnect_moves (newShared retry 1)).

Lemma reconnect_keeps_one_witness :
  sh_cur reconnected = 1%nat /\ sh_senders reconnected = [SDone true] /\ is_open 0 reconnected = false
  /\ (forall c, is_open c reconnected = true -> c = 1%nat).
Proof.
  destruct (reconnect_keeps_one retry 1 reconnected) as (_ & _ & H).
  - apply (stream_moves_steps reconnect_moves). vm_compute. reflexivity.
  - split_and!; [reflexivity|reflexivity|reflexivity|]. exact (H eq_refl).
Defined.

(** When [Send] has reconnected, the reading goroutine, still waiting on the old
    connection, sees it closed and reconnects again: the connection on which the
    message was sent is closed, although the network failed only once. *)
Theorem reconnect_twice :
  exists s, reachable retry 1 s /\ sh_senders s = [SDone true] /\ sh_cur s = 2%nat
    /\ sh_conns s = [false; false; true] /\ sh_closer s = KNone.
Proof.
  destruct (doMoves (reconnect_moves ++ [MLoop false; MLoop true; MLoop true; MLoop true; MLoop true; MLoop true; MLoop true;
    MLoop true; MLoop true]) (newShared retry 1)) as [s|] eqn:E; [|by vm_compute in E].
  exists s. split; [by eapply stream_moves_steps|]. vm_compute in E. injection E as <-. done.
Qed.

(** The old connection cannot deliver anything: the second reconnection is not a
    matter of chance. *)
Lemma old_connection_dead : loopStep true reconnected = None /\ sh_loop reconnected = LRead 0.
Proof. vm_compute. done. Qed.

(** [Close] during a reconnection closes the old connection; the new one is
    installed afterwards and stays open when every goroutine has ended. *)
Theorem close_leaks_connection :
  exists s, reachable retry 0 s /\ sh_loop s = LEnd /\ sh_closer s = KDone /\ sh_mutex s = None
    /\ is_open (sh_cur s) s = true.
Proof.
  destruct (doMoves [MLoop true; MLoop false; MLoop true; MLoop true; MLoop true; MLoop true; MClose; MClose; MClose; MLoop true;
    MLoop true; MLoop true; MLoop true; MLoop true] (newShared retry 0)) as [s|] eqn:E; [|by vm_compute in E].
  exists s. split; [by eapply stream_moves_steps|]. vm_compute in E. injection E as <-. done.
Qed.

End Stream.
