(* ===== verification/Heap.v ===== *)
(** * A heap that knows where its elements are

    Go's [container/heap] over a slice of pointers, with the [Swap], [Push] and
    [Pop] of [scaleHeap] ([media/scale_engine.go]), which keep in every element
    its position.  Elements are numbers; their keys are given by a function, the
    positions by a map.  [up] and [down] recurse on fuel: an index above the one
    they start from is never reached, the length of the slice is enough for the
    other. *)

From stdpp Require Import base list gmap.
From Stdlib Require Import ZArith Lia.
From S2P Require Import Prelude.

(** ** The slice *)

Record hp := mkHp { hp_list : list Z; hp_ix : gmap Z Z }.

(** [scaleHeap.Swap] *)
Definition Swap (i j : nat) (h : hp) : hp :=
  match hp_list h !! i, hp_list h !! j with
  | Some a, Some b =>
    mkHp (<[i := b]> (<[j := a]> (hp_list h))) (<[a := Z.of_nat j]> (<[b := Z.of_nat i]> (hp_ix h)))
  | _, _ => h
  end.

(** [scaleHeap.Push] and [scaleHeap.Pop]; a position of -1 is out of the heap. *)
Definition append_last (x : Z) (h : hp) : hp :=
  mkHp (hp_list h ++ [x]) (<[x := Z.of_nat (length (hp_list h))]> (hp_ix h)).

Definition take_last (h : hp) : option (Z * hp) :=
  match last (hp_list h) with
  | None => None
  | Some x => Some (x, mkHp (take (length (hp_list h) - 1) (hp_list h)) (<[x := -1]> (hp_ix h)))
  end.

Section Heap.

Context (k : Z -> Z).

Definition keyat (h : hp) (m : nat) : Z := k (hp_list h !!! m).

(** [scaleHeap.Less] *)
Definition Less (h : hp) (i j : nat) : bool := keyat h i <? keyat h j.

(** ** [container/heap] *)

Definition parent (j : nat) : nat := ((j - 1) / 2)%nat.

Fixpoint up (fuel : nat) (j : nat) (h : hp) : hp :=
  match fuel with
  | O => h
  | S fuel =>
    let i := parent j in
    if (i =? j)%nat || negb (Less h j i) then h else up fuel i (Swap i j h)
  end.

Fixpoint down (fuel : nat) (i n : nat) (h : hp) : hp * nat :=
  match fuel with
  | O => (h, i)
  | S fuel =>
    let j1 := (2 * i + 1)%nat in
    if (n <=? j1)%nat then (h, i)
    else
      let j := if (S j1 <? n)%nat && Less h (S j1) j1 then S j1 else j1 in
      if negb (Less h j i) then (h, i) else down fuel j n (Swap i j h)
  end.

Definition heapPush (x : Z) (h : hp) : hp :=
  let h := append_last x h in let j := (length (hp_list h) - 1)%nat in up (S j) j h.

Definition heapPop (h : hp) : option (Z * hp) :=
  let n := (length (hp_list h) - 1)%nat in take_last (down n 0 n (Swap 0 n h)).1.

(** [down], and [up] when it did not move the element *)
Definition settle (i n : nat) (h : hp) : hp :=
  let '(h', i') := down n i n h in if (i <? i')%nat then h' else up (S i) i h'.

Definition heapRemove (i : nat) (h : hp) : option (Z * hp) :=
  let n := (length (hp_list h) - 1)%nat in
  take_last (if (n =? i)%nat then h else settle i n (Swap i n h)).

Definition heapFix (i : nat) (h : hp) : hp := settle i (length (hp_list h)) h.

(** ** Order, on keys by position *)

Ltac div_lia := unfold parent in *; Z.to_euclidean_division_equations; lia.

Definition ordered (f : nat -> Z) (n : nat) : Prop := forall m, (0 < m < n)%nat -> f (parent m) <= f m.

(** All but the relation of [j] to its parent, and of its children to the parent. *)
Definition up_inv (f : nat -> Z) (n j : nat) : Prop :=
  (forall m, (0 < m < n)%nat -> m <> j -> f (parent m) <= f m)
  /\ (forall m, (0 < m < n)%nat -> parent m = j -> (0 < j)%nat -> f (parent j) <= f m).

(** All but the relations of [i]. *)
Definition weak_inv (f : nat -> Z) (n i : nat) : Prop :=
  (forall m, (0 < m < n)%nat -> m <> i -> parent m <> i -> f (parent m) <= f m)
  /\ (forall m, (0 < m < n)%nat -> parent m = i -> (0 < i)%nat -> f (parent i) <= f m).

Definition down_inv (f : nat -> Z) (n i : nat) : Prop :=
  weak_inv f n i /\ ((0 < i < n)%nat -> f (parent i) <= f i).

Definition swapped (f : nat -> Z) (i j : nat) (m : nat) : Z :=
  if (m =? i)%nat then f j else if (m =? j)%nat then f i else f m.

Lemma parent_lt m : (0 < m)%nat -> (parent m < m)%nat.
Proof. intros. unfold parent. apply Nat.div_lt_upper_bound; lia. Qed.

Lemma parent_child m i : (0 < m)%nat -> parent m = i <-> m = (2 * i + 1)%nat \/ m = (2 * i + 2)%nat.
Proof.
  intros Hm. unfold parent. split.
  - intros <-. pose proof (Nat.div_mod_eq (m - 1) 2). pose proof (Nat.mod_upper_bound (m - 1) 2). lia.
  - intros [-> | ->].
    + replace (2 * i + 1 - 1)%nat with (i * 2)%nat by lia. by rewrite Nat.div_mul.
    + replace (2 * i + 2 - 1)%nat with (1 + i * 2)%nat by lia. rewrite Nat.div_add by lia. done.
Qed.

Lemma up_step f n j :
  (0 < j < n)%nat -> f j < f (parent j) -> up_inv f n j -> up_inv (swapped f (parent j) j) n (parent j).
Proof.
  intros Hj Hlt [H1 H2]. pose proof (parent_lt j) as Hp. set (i := parent j) in *. unfold swapped. split.
  - intros m Hm Hmi. pose proof (parent_lt m) as Hpm.
    destruct (Nat.eqb_spec m i); [done|].
    destruct (Nat.eqb_spec m j) as [-> | Hmj].
    + change (parent j) with i. rewrite Nat.eqb_refl. lia.
    + specialize (H1 m Hm Hmj). destruct (Nat.eqb_spec (parent m) i) as [E|]; [rewrite E in H1; lia|].
      destruct (Nat.eqb_spec (parent m) j) as [E|]; [|done]. specialize (H2 m Hm E). lia.
  - intros m Hm Hmi Hi. pose proof (parent_lt m). pose proof (parent_lt i) as Hpi.
    assert (f (parent i) <= f i) as Hii by (apply H1; lia).
    destruct (Nat.eqb_spec (parent i) i); [lia|]. destruct (Nat.eqb_spec (parent i) j); [lia|].
    destruct (Nat.eqb_spec m i); [lia|]. destruct (Nat.eqb_spec m j) as [-> | Hmj]; [done|].
    specialize (H1 m Hm Hmj). rewrite Hmi in H1. lia.
Qed.

Lemma up_done f n j : up_inv f n j -> parent j = j \/ f (parent j) <= f j -> ordered f n.
Proof.
  intros [H1 _] Hd m Hm. destruct (decide (m = j)) as [-> | Hn]; [|by apply H1].
  destruct Hd as [Hd|]; [|done]. pose proof (parent_lt j). lia.
Qed.

(** The smaller child. *)
Definition child (f : nat -> Z) (n i : nat) : nat :=
  if (S (2 * i + 1) <? n)%nat && (f (S (2 * i + 1)) <? f (2 * i + 1)%nat) then S (2 * i + 1) else (2 * i + 1)%nat.

Lemma child_spec f n i :
  (2 * i + 1 < n)%nat ->
  (0 < child f n i < n)%nat /\ parent (child f n i) = i /\ (i < child f n i)%nat
  /\ forall m, (0 < m < n)%nat -> parent m = i -> f (child f n i) <= f m.
Proof.
  intros Hn. unfold child. remember (2 * i + 1)%nat as a eqn:Ha.
  destruct (Nat.ltb_spec (S a) n); simpl; [destruct (Z.ltb_spec (f (S a)) (f a))|];
    (split; [lia|]; split; [apply parent_child; lia|]; split; [lia|]);
    intros m Hm E; (apply parent_child in E; [|lia]);
    (assert (m = a \/ m = S a) as [-> | ->] by lia); lia.
Qed.

Lemma down_step f n i :
  (2 * i + 1 < n)%nat -> f (child f n i) < f i -> weak_inv f n i ->
  down_inv (swapped f i (child f n i)) n (child f n i).
Proof.
  intros Hn Hlt [H1 H2]. destruct (child_spec f n i Hn) as (Hj & Hpj & Hij & Hmin). set (j := child f n i) in *.
  unfold swapped. split; [split|].
  - intros m Hm Hmj Hpm. pose proof (parent_lt m). destruct (Nat.eqb_spec m i) as [-> | Hmi].
    + destruct (Nat.eqb_spec (parent i) i); [lia|]. destruct (Nat.eqb_spec (parent i) j); [lia|].
      apply (H2 j); [done|done|lia].
    + destruct (Nat.eqb_spec m j); [done|]. destruct (Nat.eqb_spec (parent m) i) as [E|Hne]; [by apply Hmin|].
      destruct (Nat.eqb_spec (parent m) j); [done|]. by apply H1.
  - intros m Hm Hpm Hj0. pose proof (parent_lt m). rewrite Hpj, Nat.eqb_refl.
    destruct (Nat.eqb_spec m i); [lia|]. destruct (Nat.eqb_spec m j); [lia|]. rewrite <- Hpm. apply H1; lia.
  - intros _. rewrite Hpj, Nat.eqb_refl. destruct (Nat.eqb_spec j i); [lia|]. rewrite Nat.eqb_refl. lia.
Qed.

Lemma down_done f n i :
  weak_inv f n i -> (n <= 2 * i + 1)%nat \/ ((2 * i + 1 < n)%nat /\ f i <= f (child f n i)) -> up_inv f n i.
Proof.
  intros [H1 H2] Hd. split; [|done]. intros m Hm Hmi.
  destruct (decide (parent m = i)) as [E|Hne]; [|by apply H1].
  destruct Hd as [Hle|[Hlt Hle]]; [pose proof (parent_child m i ltac:(lia)); lia|].
  destruct (child_spec f n i Hlt) as (_ & _ & _ & Hmin). specialize (Hmin m Hm E). rewrite E. lia.
Qed.

Lemma down_inv_up f n i : down_inv f n i -> up_inv f n i -> ordered f n.
Proof.
  intros [_ H] [H1 _] m Hm. destruct (decide (m = i)) as [-> | Hn]; [by apply H|by apply H1].
Qed.
Lemma ordered_ext f g n : (forall m, (m < n)%nat -> f m = g m) -> ordered f n -> ordered g n.
Proof. intros E H m Hm. pose proof (parent_lt m). rewrite <- !E by lia. by apply H. Qed.

Lemma up_inv_ext f g n j : (forall m, f m = g m) -> up_inv f n j -> up_inv g n j.
Proof. intros E [H1 H2]. split; intros; rewrite <- !E; eauto. Qed.

Lemma weak_inv_ext f g n j : (forall m, f m = g m) -> weak_inv f n j -> weak_inv g n j.
Proof. intros E [H1 H2]. split; intros; rewrite <- !E; eauto. Qed.

Lemma down_inv_ext f g n j : (forall m, f m = g m) -> down_inv f n j -> down_inv g n j.
Proof. intros E [H1 H2]. split; [by eapply weak_inv_ext|]. intros. rewrite <- !E. auto. Qed.

(** A change of one key leaves all but its relations. *)
Lemma rekey_weak f g n i : (forall m, (m < n)%nat -> m <> i -> f m = g m) -> ordered f n -> (i < n)%nat -> weak_inv g n i.
Proof.
  intros E H Hi. split.
  - intros m Hm Hmi Hpi. pose proof (parent_lt m). rewrite <- !E by (done || lia). by apply H.
  - intros m Hm Hpm Hi0. pose proof (parent_lt m). pose proof (parent_lt i).
    rewrite <- !E by lia. pose proof (H m Hm) as Hm1. pose proof (H i) as Hi1. rewrite Hpm in Hm1. lia.
Qed.

(** The first is the least. *)
Lemma ordered_min f n m : ordered f n -> (m < n)%nat -> f 0%nat <= f m.
Proof.
  intros H. induction m as [m IH] using lt_wf_ind. intros Hm.
  destruct m as [|m]; [done|]. pose proof (parent_lt (S m)). etrans; [apply (IH (parent (S m))); lia|apply H; lia].
Qed.

(** ** Positions *)

(** Every element of the slice knows its position. *)
Definition tracked (h : hp) : Prop := forall x i, hp_list h !! i = Some x -> hp_ix h !! x = Some (Z.of_nat i).

(** What [up] and [down] below [n] leave. *)
Definition moved (n : nat) (h h' : hp) : Prop :=
  hp_list h' ≡ₚ hp_list h /\ (tracked h -> tracked h')
  /\ forall m, (n <= m)%nat -> hp_list h' !! m = hp_list h !! m.

#[local] Instance moved_preorder n : PreOrder (moved n).
Proof.
  split; [by intros h|]. intros h1 h2 h3 (P1 & T1 & A1) (P2 & T2 & A2).
  split_and!; [by rewrite P2|auto|]. intros m Hm. by rewrite A2, A1.
Qed.

Lemma tracked_nodup h : tracked h -> NoDup (hp_list h).
Proof. intros H. apply NoDup_alt. intros i j x Hi%H Hj%H. simplify_eq. lia. Qed.

Lemma moved_length n h h' : moved n h h' -> length (hp_list h') = length (hp_list h).
Proof. intros (P & _). by rewrite P. Qed.

Ltac nat_cases :=
  repeat match goal with
  | |- context [Nat.eqb ?a ?b] => destruct (Nat.eqb_spec a b)
  | H : context [Nat.eqb ?a ?b] |- _ => destruct (Nat.eqb_spec a b)
  end.

Definition transpose (i j m : nat) : nat := if (m =? i)%nat then j else if (m =? j)%nat then i else m.

Lemma transpose_inv i j m : transpose i j (transpose i j m) = m.
Proof.
  unfold transpose. destruct (Nat.eqb_spec m i); [destruct (Nat.eqb_spec j i), (Nat.eqb_spec j j); lia|].
  destruct (Nat.eqb_spec m j); [rewrite Nat.eqb_refl; lia|].
  destruct (Nat.eqb_spec m i); [done|]. by destruct (Nat.eqb_spec m j).
Qed.

Lemma Swap_lookup i j h m :
  (i < length (hp_list h))%nat -> (j < length (hp_list h))%nat ->
  hp_list (Swap i j h) !! m = hp_list h !! transpose i j m.
Proof.
  intros Hi Hj. unfold Swap, transpose.
  destruct (lookup_lt_is_Some_2 (hp_list h) i Hi) as [a Ha]. destruct (lookup_lt_is_Some_2 (hp_list h) j Hj) as [b Hb].
  rewrite Ha, Hb. simpl. destruct (Nat.eqb_spec m i) as [-> | Hmi].
  - rewrite list_lookup_insert_eq; [by rewrite Hb|]. by rewrite length_insert.
  - rewrite list_lookup_insert_ne by done. destruct (Nat.eqb_spec m j) as [-> | Hmj].
    + rewrite list_lookup_insert_eq by done. by rewrite Ha.
    + by rewrite list_lookup_insert_ne.
Qed.

Lemma Swap_length i j h : length (hp_list (Swap i j h)) = length (hp_list h).
Proof. unfold Swap. repeat case_match; simpl; by rewrite ?length_insert. Qed.

Lemma Swap_tracked i j h :
  (i < length (hp_list h))%nat -> (j < length (hp_list h))%nat -> tracked h -> tracked (Swap i j h).
Proof.
  intros Hi Hj T x m. rewrite Swap_lookup by done. intros Hx. pose proof (T _ _ Hx) as Tx.
  unfold Swap. destruct (lookup_lt_is_Some_2 (hp_list h) i Hi) as [a Ha].
  destruct (lookup_lt_is_Some_2 (hp_list h) j Hj) as [b Hb]. rewrite Ha, Hb. simpl.
  pose proof (T _ _ Ha) as Ta. pose proof (T _ _ Hb) as Tb. unfold transpose in *.
  destruct (decide (x = a)) as [-> | Hxa]; [rewrite lookup_insert_eq|rewrite lookup_insert_ne by done];
    [|destruct (decide (x = b)) as [-> | Hxb]; [rewrite lookup_insert_eq|rewrite lookup_insert_ne by done]];
    nat_cases; simplify_eq; done.
Qed.

Lemma Swap_moved n i j h : (i < n)%nat -> (j < n)%nat -> (n <= length (hp_list h))%nat -> moved n h (Swap i j h).
Proof.
  intros Hi Hj Hn. split_and!.
  - apply Permutation_inj. split; [apply Swap_length|]. exists (transpose i j). split.
    + intros m m' E. by rewrite <- (transpose_inv i j m), E, transpose_inv.
    + intros m. apply Swap_lookup; lia.
  - apply Swap_tracked; lia.
  - intros m Hm. rewrite Swap_lookup by lia. unfold transpose. nat_cases; (lia || done).
Qed.

Lemma keyat_Swap i j h m :
  (i < length (hp_list h))%nat -> (j < length (hp_list h))%nat ->
  keyat (Swap i j h) m = swapped (keyat h) i j m.
Proof.
  intros Hi Hj. unfold keyat, swapped. rewrite !list_lookup_total_alt, Swap_lookup by done. unfold transpose.
  by repeat case_match.
Qed.
(** ** [up] and [down] *)

Lemma up_sound n : forall fuel j h,
  (j < n)%nat -> (j < fuel)%nat -> (n <= length (hp_list h))%nat -> up_inv (keyat h) n j ->
  ordered (keyat (up fuel j h)) n /\ moved n h (up fuel j h).
Proof.
  induction fuel as [|fuel IH]; intros j h Hj Hf Hn Hu; [lia|]. simpl.
  destruct ((parent j =? j)%nat || negb (Less h j (parent j))) eqn:E.
  - split; [|done]. apply (up_done _ _ j Hu). apply orb_true_iff in E as [E|E].
    + left. by apply Nat.eqb_eq.
    + right. apply negb_true_iff, Z.ltb_ge in E. done.
  - apply orb_false_iff in E as [Ej E]. apply Nat.eqb_neq in Ej. apply negb_false_iff, Z.ltb_lt in E.
    assert (0 < j)%nat as Hj0 by (destruct j; [done|lia]). pose proof (parent_lt j Hj0) as Hp.
    pose proof (Swap_moved n (parent j) j h ltac:(lia) Hj Hn) as Hm.
    destruct (IH (parent j) (Swap (parent j) j h)) as [IH1 IH2];
      [lia|lia|rewrite Swap_length; lia| |split; [done|by etrans]].
    apply (up_inv_ext (swapped (keyat h) (parent j) j)); [intros m; rewrite keyat_Swap by lia; done|].
    apply up_step; [lia|done|done].
Qed.

Lemma down_sound n : forall fuel i h,
  (i < n)%nat -> (n <= i + fuel)%nat -> (n <= length (hp_list h))%nat -> weak_inv (keyat h) n i ->
  let '(h', i') := down fuel i n h in
  moved n h h' /\ up_inv (keyat h') n i' /\ (i' < n)%nat
  /\ ((i' = i /\ h' = h) \/ ((i < i')%nat /\ ordered (keyat h') n)).
Proof.
  induction fuel as [|fuel IH]; intros i h Hi Hf Hn Hw; [lia|]. cbn [down].
  destruct (Nat.leb_spec n (2 * i + 1)) as [Hle|Hlt].
  { split_and!; [done|apply down_done; auto|done|auto]. }
  change (if (S (2 * i + 1) <? n)%nat && Less h (S (2 * i + 1)) (2 * i + 1) then S (2 * i + 1) else (2 * i + 1)%nat)
    with (child (keyat h) n i).
  destruct (child_spec (keyat h) n i Hlt) as (Hj & Hpj & Hij & _). set (j := child (keyat h) n i) in *.
  unfold Less at 1. destruct (Z.ltb_spec (keyat h j) (keyat h i)) as [Hk|Hk]; cbn [negb].
  - pose proof (Swap_moved n i j h Hi ltac:(lia) Hn) as Hm.
    assert (down_inv (keyat (Swap i j h)) n j) as Hd.
    { apply (down_inv_ext (swapped (keyat h) i j)); [intros m; rewrite keyat_Swap by lia; done|]. by apply down_step. }
    specialize (IH j (Swap i j h) ltac:(lia) ltac:(lia) ltac:(rewrite Swap_length; lia) (proj1 Hd)).
    destruct (down fuel j n (Swap i j h)) as [h' i'] eqn:Ed. destruct IH as (M & U & L & O).
    split_and!; [by etrans|done|done|right]. destruct O as [[-> ->] | [O1 O2]]; (split; [lia|]); [|done].
    exact (down_inv_up _ _ _ Hd U).
  - split_and!; [done|apply down_done; auto|done|auto].
Qed.
Lemma settle_sound n i h :
  (i < n)%nat -> (n <= length (hp_list h))%nat -> weak_inv (keyat h) n i ->
  ordered (keyat (settle i n h)) n /\ moved n h (settle i n h).
Proof.
  intros Hi Hn Hw. unfold settle. pose proof (down_sound n n i h Hi ltac:(lia) Hn Hw) as D.
  destruct (down n i n h) as [h' i']. destruct D as (M & U & L & [[-> ->] | [O1 O2]]).
  - rewrite Nat.ltb_irrefl. apply up_sound; [done|lia|done|done].
  - by rewrite (proj2 (Nat.ltb_lt _ _) O1).
Qed.

(** ** The operations *)

Definition heap_ok (h : hp) : Prop := tracked h /\ ordered (keyat h) (length (hp_list h)).

(** Removing the last of a slice whose other elements are in order. *)
Lemma take_last_ok n h x :
  tracked h -> length (hp_list h) = S n -> hp_list h !! n = Some x -> ordered (keyat h) n ->
  exists h', take_last h = Some (x, h') /\ hp_list h ≡ₚ x :: hp_list h' /\ heap_ok h' /\ hp_ix h' !! x = Some (-1).
Proof.
  intros T Hl Hx Ho. assert (hp_list h = take n (hp_list h) ++ [x]) as Hs.
  { rewrite <- (take_drop n (hp_list h)) at 1. f_equal. rewrite (drop_S _ x) by done. by rewrite drop_ge by lia. }
  unfold take_last. rewrite Hs, last_snoc, <- Hs, Hl. eexists. split; [done|]. simpl. rewrite Nat.sub_0_r.
  split_and!; [rewrite Hs at 1; symmetry; apply Permutation_cons_append| |by rewrite lookup_insert_eq]. split.
  - intros y m. simpl. intros [E Hm]%lookup_take_Some. pose proof (T _ _ E) as Ty. pose proof (T _ _ Hx).
    rewrite lookup_insert_ne by (intros <-; simplify_eq; lia). done.
  - cbn [hp_list]. rewrite length_take, Hl, Nat.min_l by lia. eapply ordered_ext; [|exact Ho].
    intros m Hm. unfold keyat. simpl. rewrite !list_lookup_total_alt, (lookup_take_lt _ n m) by lia. done.
Qed.

(** [heap.Push] adds the element in its place. *)
Lemma heapPush_ok x h :
  heap_ok h -> x ∉ hp_list h -> hp_list (heapPush x h) ≡ₚ x :: hp_list h /\ heap_ok (heapPush x h).
Proof.
  intros [T O] Hx. unfold heapPush. set (h1 := append_last x h).
  assert (length (hp_list h1) = S (length (hp_list h))) as Hl by (unfold h1; simpl; rewrite length_app; simpl; lia).
  rewrite Hl. replace (S (length (hp_list h)) - 1)%nat with (length (hp_list h)) by lia.
  assert (tracked h1) as T1.
  { intros y m. unfold h1. simpl. rewrite lookup_app. destruct (hp_list h !! m) as [z|] eqn:E.
    - intros [= <-]. pose proof (list_elem_of_lookup_2 _ _ _ E). rewrite lookup_insert_ne by (intros <-; done). by apply T.
    - rewrite list_lookup_singleton. apply lookup_ge_None in E. intros Hy. case_match; simplify_eq.
      rewrite lookup_insert_eq. do 2 f_equal. lia. }
  destruct (up_sound (S (length (hp_list h))) (S (length (hp_list h))) (length (hp_list h)) h1) as [O' (P & T' & _)];
    [lia|lia|lia| |].
  - assert (forall m, (m < length (hp_list h))%nat -> keyat h1 m = keyat h m) as Hk.
    { intros m Hm. unfold keyat, h1. simpl. by rewrite !list_lookup_total_alt, lookup_app_l by lia. }
    split; intros m Hm Hm'; pose proof (parent_lt m); [rewrite !Hk by lia; apply O; lia|lia].
  - split; [rewrite P; unfold h1; simpl; by rewrite Permutation_app_comm|]. split; [auto|].
    by rewrite P, Hl.
Qed.

(** [heap.Remove] takes out the element of a position. *)
Lemma heapRemove_ok i x h :
  heap_ok h -> hp_list h !! i = Some x ->
  exists h', heapRemove i h = Some (x, h') /\ hp_list h ≡ₚ x :: hp_list h' /\ heap_ok h' /\ hp_ix h' !! x = Some (-1).
Proof.
  intros [T O] Hx. unfold heapRemove. pose proof (lookup_lt_Some _ _ _ Hx) as Hi.
  destruct (length (hp_list h)) as [|n] eqn:Hl; [lia|]. simpl. rewrite Nat.sub_0_r.
  destruct (Nat.eqb_spec n i) as [<- | Hne].
  - apply (take_last_ok n); [done|done|done|]. intros m Hm. apply O. lia.
  - pose proof (Swap_moved (S n) i n h ltac:(lia) ltac:(lia) ltac:(lia)) as (P & T1 & _).
    destruct (settle_sound n i (Swap i n h)) as [O' (P' & T' & A')]; [lia|rewrite Swap_length; lia| |].
    + apply (rekey_weak (keyat h)); [|intros m Hm; apply O; lia|lia].
      intros m Hm Hmi. rewrite keyat_Swap by lia. unfold swapped. nat_cases; (lia || done).
    + destruct (take_last_ok n (settle i n (Swap i n h)) x) as (h' & E & P2 & R); [auto|by rewrite P', P| |done|].
      * rewrite A' by lia. rewrite Swap_lookup by lia. unfold transpose. nat_cases; [done|done|lia].
      * exists h'. split; [done|]. split; [|done]. by rewrite <- P2, P', P.
Qed.
(** [heap.Pop] takes out the first element, whose key is the least. *)
Lemma heapPop_ok x h :
  heap_ok h -> hp_list h !! 0%nat = Some x ->
  exists h', heapPop h = Some (x, h') /\ hp_list h ≡ₚ x :: hp_list h' /\ heap_ok h' /\ hp_ix h' !! x = Some (-1).
Proof.
  intros [T O] Hx. unfold heapPop. pose proof (lookup_lt_Some _ _ _ Hx) as Hi.
  destruct (length (hp_list h)) as [|n] eqn:Hl; [lia|]. simpl. rewrite Nat.sub_0_r.
  pose proof (Swap_moved (S n) 0 n h ltac:(lia) ltac:(lia) ltac:(lia)) as (P & T1 & _).
  assert (exists h1, (down n 0 n (Swap 0 n h)).1 = h1 /\ ordered (keyat h1) n /\ moved n (Swap 0 n h) h1) as (h1 & -> & O' & P' & T' & A').
  { destruct (decide (n = 0)%nat) as [-> | Hn0]; [exists (Swap 0 0 h); split_and!; [done|intros m Hm; lia|done]|].
    pose proof (down_sound n n 0 (Swap 0 n h)) as D. destruct (down n 0 n (Swap 0 n h)) as [h1 i'].
    destruct D as (M & U & L & D); [lia|lia|rewrite Swap_length; lia| |].
    - apply (rekey_weak (keyat h)); [|intros m Hm; apply O; lia|lia].
      intros m Hm Hmi. rewrite keyat_Swap by lia. unfold swapped. nat_cases; (lia || done).
    - exists h1. split_and!; [done| |done]. destruct D as [[-> ->] | [_ D]]; [|done]. apply (up_done _ _ 0 U). by left. }
  destruct (take_last_ok n h1 x) as (h' & E & P2 & R); [auto|by rewrite P', P| |done|].
  - rewrite A' by lia. rewrite Swap_lookup by lia. unfold transpose. nat_cases; [by subst|done|lia].
  - exists h'. split; [done|]. split; [|done]. by rewrite <- P2, P', P.
Qed.

(** The first element has the least key. *)
Lemma heap_first x y h : heap_ok h -> hp_list h !! 0%nat = Some x -> y ∈ hp_list h -> k x <= k y.
Proof.
  intros [_ O] Hx [m Hm]%list_elem_of_lookup. pose proof (ordered_min _ _ m O (lookup_lt_Some _ _ _ Hm)) as H.
  unfold keyat in H. by rewrite !list_lookup_total_alt, Hx, Hm in H.
Qed.

End Heap.

(** [heap.Fix] restores the order after the key of one element has changed. *)
Lemma heapFix_ok k0 k i x h :
  heap_ok k0 h -> hp_list h !! i = Some x -> (forall y, y <> x -> k y = k0 y) ->
  hp_list (heapFix k i h) ≡ₚ hp_list h /\ heap_ok k (heapFix k i h).
Proof.
  intros [T O] Hx Hk. unfold heapFix. pose proof (lookup_lt_Some _ _ _ Hx) as Hi.
  destruct (settle_sound k (length (hp_list h)) i h Hi) as [O' (P & T' & _)]; [done| |].
  - apply (rekey_weak (keyat k0 h)); [|done|done]. intros m Hm Hne. unfold keyat. symmetry. apply Hk. intros E.
    apply Hne. destruct (lookup_lt_is_Some_2 _ _ Hm) as [y Hy]. rewrite list_lookup_total_alt, Hy in E. simpl in E.
    subst. apply T in Hx, Hy. by simplify_eq.
  - split; [done|]. split; [auto|]. by rewrite P.
Qed.

(** The keys of what is not in the heap do not matter. *)
Lemma heap_ok_ext k0 k h : (forall y, y ∈ hp_list h -> k0 y = k y) -> heap_ok k0 h -> heap_ok k h.
Proof.
  intros E [T O]. split; [done|]. eapply ordered_ext; [|exact O]. intros m Hm.
  destruct (lookup_lt_is_Some_2 _ _ Hm) as [y Hy]. unfold keyat. rewrite list_lookup_total_alt, Hy. simpl.
  apply E. by eapply list_elem_of_lookup_2.
Qed.
