(* ===== verification/ScaleEngine.v ===== *)
(** * The scale engine

    [media/scale_engine.go] with the batch writers of [scale_batch_linux.go] and
    [scale_send_linux.go]: many synthetic RTP streams, one scheduler that keeps
    them in a heap by the time of their next packet, a queue of batches and the
    workers that send them.

    A stream is an object of a store, known by its number; the engine, the heap
    and the list of due streams hold numbers, as the code holds pointers.  The
    message of a direct send keeps a reference to the stream's buffer, the
    message of a queued send holds a copy (a pooled buffer is given back only
    after its batch was written).  The network is a pair of functions: how many
    datagrams of a batch [sendmmsg] takes, if it does not fail, and whether one
    datagram can be written. *)

From stdpp Require Import base list gmap strings.
From Stdlib Require Import ZArith Lia Strings.Byte.
From S2P Require Import Prelude GoStrings NetAddr Media Stats MediaStream Heap.

(** ** Packets *)

(** The wire format of an RTP packet without marker, padding, extension and
    contributing sources (RFC 3550, section 5.1). *)
Definition rtp_wire (p : rtp_packet) : str :=
  [x80; z2b (rtp_payloadType p)] ++ put_u16 (rtp_sequence p) ++ put_u32 (rtp_timestamp p)
  ++ put_u32 (rtp_ssrc p) ++ rtp_payload p.

Definition patchRTPPacket (pkt : str) (seq ts : Z) : str :=
  if (length pkt <? 8)%nat then pkt else take 2 pkt ++ put_u16 seq ++ put_u32 ts ++ drop 8 pkt.

(** [allocScalePacket] into a buffer of the pool, whose capacity is 2048; a
    longer template makes the slice expression panic. *)
Definition poolBuffer : nat := 2048.

Definition allocScalePacket (template : str) : option str :=
  if (poolBuffer <? length template)%nat then None else Some template.

(** ** State *)

Record scaleStream := mkScale {
  ss_callID : str; ss_conn : nat; ss_remote : str * Z; ss_cfg : StreamConfig; ss_sendBuf : str;
  ss_sequence : Z; ss_timestamp : Z; ss_interval : Z; ss_nextSend : Z; ss_paused : bool; ss_packetsSent : Z }.

Inductive msgBuf := BufCopy (b : str) | BufOf (id : Z).

Record udpSendMsg := mkMsg { sm_addr : str * Z; sm_buf : msgBuf }.
Record scaleSendJob := mkJob { sj_conn : nat; sj_msgs : list udpSendMsg }.
Record datagram := mkDatagram { dg_conn : nat; dg_addr : str * Z; dg_bytes : str }.

Record engine := mkScaleEngine {
  se_store : gmap Z scaleStream;
  se_streams : gset Z; se_byCall : gmap str (list Z); se_heap : hp; se_nextID : Z;
  se_started : bool;                                   (* [cancel != nil] *)
  se_scheduling : bool;                                (* the scheduler goroutine runs *)
  se_open : gset nat;                                  (* sockets that are open *)
  se_sendCh : list scaleSendJob; se_busy : gmap nat scaleSendJob;   (* queue, and what workers hold *)
  se_packetsSent : Z; se_octetsSent : Z;
  se_wire : list datagram }.

Definition NewScaleEngine : engine :=
  mkScaleEngine ∅ ∅ ∅ (mkHp [] ∅) 0 false false ∅ [] ∅ 0 0 [].

Definition set_sched (store : gmap Z scaleStream) (h : hp) (e : engine) : engine :=
  mkScaleEngine store (se_streams e) (se_byCall e) h (se_nextID e) (se_started e) (se_scheduling e) (se_open e)
    (se_sendCh e) (se_busy e) (se_packetsSent e) (se_octetsSent e) (se_wire e).
Definition set_store (store : gmap Z scaleStream) (e : engine) : engine := set_sched store (se_heap e) e.
Definition set_heap (h : hp) (e : engine) : engine := set_sched (se_store e) h e.
Definition set_calls (streams : gset Z) (byCall : gmap str (list Z)) (o : gset nat) (e : engine) : engine :=
  mkScaleEngine (se_store e) streams byCall (se_heap e) (se_nextID e) (se_started e) (se_scheduling e) o
    (se_sendCh e) (se_busy e) (se_packetsSent e) (se_octetsSent e) (se_wire e).
Definition set_running (started scheduling : bool) (e : engine) : engine :=
  mkScaleEngine (se_store e) (se_streams e) (se_byCall e) (se_heap e) (se_nextID e) started scheduling (se_open e)
    (se_sendCh e) (se_busy e) (se_packetsSent e) (se_octetsSent e) (se_wire e).
Definition set_nextID (n : Z) (e : engine) : engine :=
  mkScaleEngine (se_store e) (se_streams e) (se_byCall e) (se_heap e) n (se_started e) (se_scheduling e) (se_open e)
    (se_sendCh e) (se_busy e) (se_packetsSent e) (se_octetsSent e) (se_wire e).
Definition set_queue (ch : list scaleSendJob) (busy : gmap nat scaleSendJob) (e : engine) : engine :=
  mkScaleEngine (se_store e) (se_streams e) (se_byCall e) (se_heap e) (se_nextID e) (se_started e) (se_scheduling e)
    (se_open e) ch busy (se_packetsSent e) (se_octetsSent e) (se_wire e).
Definition set_sent (packets octets : Z) (wire : list datagram) (e : engine) : engine :=
  mkScaleEngine (se_store e) (se_streams e) (se_byCall e) (se_heap e) (se_nextID e) (se_started e) (se_scheduling e)
    (se_open e) (se_sendCh e) (se_busy e) packets octets wire.

Definition set_nextSend (t : Z) (s : scaleStream) : scaleStream :=
  mkScale (ss_callID s) (ss_conn s) (ss_remote s) (ss_cfg s) (ss_sendBuf s) (ss_sequence s) (ss_timestamp s)
    (ss_interval s) t (ss_paused s) (ss_packetsSent s).
Definition set_paused (b : bool) (s : scaleStream) : scaleStream :=
  mkScale (ss_callID s) (ss_conn s) (ss_remote s) (ss_cfg s) (ss_sendBuf s) (ss_sequence s) (ss_timestamp s)
    (ss_interval s) (ss_nextSend s) b (ss_packetsSent s).

(** [scaleHeap.Less] compares these. *)
Definition key_of (store : gmap Z scaleStream) (id : Z) : Z :=
  match store !! id with Some s => ss_nextSend s | None => 0 end.
Definition key (e : engine) : Z -> Z := key_of (se_store e).

(** [st.heapIdx], when it is not negative *)
Definition heapIdx (e : engine) (id : Z) : option nat :=
  match hp_ix (se_heap e) !! id with Some i => if 0 <=? i then Some (Z.to_nat i) else None | None => None end.

(** [Run] and [Stop] *)
Definition Run (e : engine) : engine := if se_started e then e else set_running true true e.

Definition Stop (e : engine) : engine :=
  let socks : gset nat := list_to_set (omap (fun id => ss_conn <$> se_store e !! id) (elements (se_streams e))) in
  set_heap (mkHp [] (hp_ix (se_heap e))) (set_calls ∅ ∅ (se_open e ∖ socks) (set_running (se_started e) false e)).

(** ** Streams *)

Section Register.

(** [rtp.Packet.Marshal] of pion, and [net.ListenUDP] *)
Context (Marshal : rtp_packet -> option str) (ListenUDP : option str -> Z -> option nat).

Definition BuildPacket (cfg : StreamConfig) (payload : str) : option str :=
  Marshal (mkRtp (sg_PayloadType cfg) (sg_Sequence cfg) (sg_Timestamp cfg) (sg_SSRC cfg) false payload).

Definition openScaleUDP (localIP : str) (localPort : Z) : option nat :=
  let ip :=
    if bool_decide (localIP = []) || bool_decide (localIP = lit "0.0.0.0") || bool_decide (localIP = lit "::")
    then None else ParseIP localIP in
  match ListenUDP ip localPort with
  | Some c => Some c
  | None => ListenUDP ip 0
  end.

Inductive register_error := BadEndpoint | NotSynthetic | BadRemoteIP | NoSocket | BadPacket | ShortPacket | NotRunning.

Definition withDefaults (cfg : StreamConfig) : StreamConfig :=
  let cfg := if sg_PacketDuration cfg <=? 0 then withPacketDuration (20 * millisecond) cfg else cfg in
  if sg_SamplesPerPkt cfg =? 0
  then withPayload (sg_PayloadName cfg) (sg_PayloadType cfg) (sg_ClockRate cfg) 160 (sg_PacketDuration cfg) cfg
  else cfg.

(** [RegisterStream]; on an error the socket that was opened is closed again. *)
Definition RegisterStream (now : Z) (callID ip : str) (port : Z) (cfg : StreamConfig) (localIP : str) (localPort : Z)
    (e : engine) : result register_error engine :=
  if bool_decide (ip = []) || (port <=? 0) then Err BadEndpoint
  else if negb (sg_Synthetic cfg) then Err NotSynthetic
  else match ParseIP ip with
  | None => Err BadRemoteIP
  | Some remoteIP =>
    match openScaleUDP localIP localPort with
    | None => Err NoSocket
    | Some conn =>
      let cfg := withDefaults cfg in
      match BuildPacket cfg (buildSyntheticPayload cfg) with
      | None => Err BadPacket
      | Some pkt =>
        if (length pkt <? 12)%nat then Err ShortPacket
        else if negb (se_started e) then Err NotRunning
        else
          let id := u64 (se_nextID e + 1) in
          let st := mkScale callID conn (remoteIP, port) cfg pkt (sg_Sequence cfg) (sg_Timestamp cfg)
                      (sg_PacketDuration cfg) now false 0 in
          let store := <[id := st]> (se_store e) in
          let e := set_calls ({[id]} ∪ se_streams e)
                     (<[callID := default [] (se_byCall e !! callID) ++ [id]]> (se_byCall e))
                     ({[conn]} ∪ se_open e) (set_nextID id e) in
          Ok (set_sched store (heapPush (key_of store) id (se_heap e)) e)
      end
    end
  end.

End Register.

(** One turn of the loop of [UnregisterCall]: the packets and octets counted so
    far, and the engine. *)
Definition unregisterOne (acc : (Z * Z) * engine) (id : Z) : (Z * Z) * engine :=
  let '((packets, octets), e) := acc in
  if bool_decide (id ∈ se_streams e) then
    match se_store e !! id with
    | None => acc
    | Some st =>
      let h := match heapIdx e id with
               | Some i => match heapRemove (key e) i (se_heap e) with Some (_, h) => h | None => se_heap e end
               | None => se_heap e
               end in
      ((u32 (packets + u32 (ss_packetsSent st)),
        u32 (octets + u32 (ss_packetsSent st) * sg_SamplesPerPkt (ss_cfg st))),
       set_heap h (set_calls (se_streams e ∖ {[id]}) (se_byCall e) (se_open e ∖ {[ss_conn st]}) e))
    end
  else acc.

(** [UnregisterCall], with the two counters of [Stats] that it fills *)
Definition UnregisterCall (callID : str) (e : engine) : (Z * Z) * engine :=
  let ids := default [] (se_byCall e !! callID) in
  foldl unregisterOne ((0, 0), set_calls (se_streams e) (delete callID (se_byCall e)) (se_open e) e) ids.

Definition pauseOne (e : engine) (id : Z) : engine :=
  if bool_decide (id ∈ se_streams e) then set_store (alter (set_paused true) id (se_store e)) e else e.

Definition PauseCall (callID : str) (e : engine) : engine :=
  foldl pauseOne e (default [] (se_byCall e !! callID)).

Definition resumeOne (now : Z) (e : engine) (id : Z) : engine :=
  if bool_decide (id ∈ se_streams e) then
    let store := alter (fun s => set_nextSend now (set_paused false s)) id (se_store e) in
    set_sched store (match heapIdx e id with Some i => heapFix (key_of store) i (se_heap e) | None => se_heap e end) e
  else e.

Definition ResumeCall (now : Z) (callID : str) (e : engine) : engine :=
  foldl (resumeOne now) e (default [] (se_byCall e !! callID)).

Definition Snapshot (e : engine) : Z * Z := (u32 (se_packetsSent e), u32 (se_octetsSent e)).
Definition StreamCount (e : engine) : nat := size (se_streams e).

(** ** The scheduler *)

Definition advance (s : scaleStream) : scaleStream := set_nextSend (ss_nextSend s + ss_interval s) s.

(** The first stage of [tick], under the lock: the streams that are due, one
    entry for every packet. *)
Fixpoint popDue (fuel : nat) (now : Z) (e : engine) (due : list Z) : option (list Z * engine) :=
  match hp_list (se_heap e) with
  | [] => Some (due, e)
  | id :: _ =>
    match se_store e !! id with
    | None => None
    | Some st =>
      if now <? ss_nextSend st then Some (due, e)
      else
        match fuel, heapPop (key e) (se_heap e) with
        | S fuel, Some (_, h) =>
          let due := if ss_paused st then due else due ++ [id] in
          let store := <[id := advance st]> (se_store e) in
          popDue fuel now (set_sched store (heapPush (key_of store) id h) e) due
        | _, _ => None
        end
    end
  end.

(** The packets of a stream that are due at a time: enough turns for the loop. *)
Definition dueCount (now : Z) (s : scaleStream) : nat :=
  if now <? ss_nextSend s then O else S (Z.to_nat ((now - ss_nextSend s) / ss_interval s)).

Definition dueOf (now : Z) (store : gmap Z scaleStream) (id : Z) : nat :=
  match store !! id with Some s => dueCount now s | None => O end.

Definition dueTotal (now : Z) (e : engine) : nat := sum_list_with (dueOf now (se_store e)) (hp_list (se_heap e)).

(** The second stage, without the lock: one packet of a stream. *)
Definition sent (s : scaleStream) : scaleStream :=
  mkScale (ss_callID s) (ss_conn s) (ss_remote s) (ss_cfg s)
    (patchRTPPacket (ss_sendBuf s) (ss_sequence s) (ss_timestamp s))
    (u16 (ss_sequence s + 1)) (u32 (ss_timestamp s + sg_SamplesPerPkt (ss_cfg s)))
    (ss_interval s) (ss_nextSend s) (ss_paused s) (u64 (ss_packetsSent s + 1)).

Notation byConn := (gmap nat (list udpSendMsg)).

Definition msgsOf (m : byConn) (c : nat) : list udpSendMsg := default [] (m !! c).

Definition emit (direct : bool) (id : Z) (acc : gmap Z scaleStream * byConn) : option (gmap Z scaleStream * byConn) :=
  let '(store, m) := acc in
  match store !! id with
  | None => None
  | Some st =>
    let st' := sent st in
    match (if direct then Some (BufOf id) else BufCopy <$> allocScalePacket (ss_sendBuf st')) with
    | None => None
    | Some buf =>
      Some (<[id := st']> store, <[ss_conn st := msgsOf m (ss_conn st) ++ [mkMsg (ss_remote st) buf]]> m)
    end
  end.

Fixpoint emitAll (direct : bool) (due : list Z) (acc : gmap Z scaleStream * byConn)
    : option (gmap Z scaleStream * byConn) :=
  match due with
  | [] => Some acc
  | id :: due => match emit direct id acc with Some acc => emitAll direct due acc | None => None end
  end.

(** ** Sending *)

Definition scaleMaxBatch : nat := 512.
Definition scaleSendQueueDepth : nat := 4096.

Fixpoint batches (fuel : nat) (msgs : list udpSendMsg) : list (list udpSendMsg) :=
  match fuel, msgs with
  | O, _ => []
  | _, [] => []
  | S fuel, _ => take scaleMaxBatch msgs :: batches fuel (drop scaleMaxBatch msgs)
  end.

Definition msg_bytes (store : gmap Z scaleStream) (m : udpSendMsg) : str :=
  match sm_buf m with
  | BufCopy b => b
  | BufOf id => match store !! id with Some s => ss_sendBuf s | None => [] end
  end.

Section Network.

(** [ipv4.PacketConn.WriteBatch]: [None] is an error, before anything was sent;
    [WriteTo]: whether the datagram went out. *)
Context (sendmmsg : nat -> list (str * Z * str) -> option nat) (WriteTo : nat -> str * Z -> str -> bool).

Definition payloads (store : gmap Z scaleStream) (msgs : list udpSendMsg) : list (str * Z * str) :=
  map (fun m => (sm_addr m, msg_bytes store m)) msgs.

(** [udpSendBatchFallbackConn]: how many went out, and whether all did *)
Fixpoint udpSendBatchFallbackConn (c : nat) (msgs : list (str * Z * str)) : nat * bool :=
  match msgs with
  | [] => (O, true)
  | (addr, b) :: msgs =>
    if WriteTo c addr b then let '(n, ok) := udpSendBatchFallbackConn c msgs in (S n, ok) else (O, false)
  end.

(** [linuxBatchWriter.WriteBatch] *)
Definition linuxWriteBatch (c : nat) (msgs : list (str * Z * str)) : nat * bool :=
  match msgs with
  | [] => (O, true)
  | _ => match sendmmsg c msgs with Some n => (n, true) | None => udpSendBatchFallbackConn c msgs end
  end.

(** [udpSendBatch] with the writer of its socket *)
Definition udpSendBatch (c : nat) (msgs : list (str * Z * str)) : nat * bool := linuxWriteBatch c msgs.

Definition addSent (n : nat) (msgs : list (str * Z * str)) (e : engine) : engine :=
  let octets := sum_list_with (fun m => length m.2 - 12)%nat (take n msgs) in
  if (n =? 0)%nat then e
  else set_sent (u64 (se_packetsSent e + Z.of_nat n)) (u64 (se_octetsSent e + Z.of_nat octets)) (se_wire e) e.

Definition onWire (c : nat) (n : nat) (msgs : list (str * Z * str)) (e : engine) : engine :=
  set_sent (se_packetsSent e) (se_octetsSent e)
    (se_wire e ++ map (fun m => mkDatagram c m.1 m.2) (take n msgs)) e.

(** A batch sent by the scheduler *)
Definition sendInline (c : nat) (batch : list udpSendMsg) (e : engine) : engine :=
  let msgs := payloads (se_store e) batch in
  let '(n, _) := udpSendBatch c msgs in addSent n msgs (onWire c n msgs e).

Definition handOver (direct : bool) (c : nat) (e : engine) (batch : list udpSendMsg) : engine :=
  if direct then sendInline c batch e
  else if (length (se_sendCh e) <? scaleSendQueueDepth)%nat
       then set_queue (se_sendCh e ++ [mkJob c batch]) (se_busy e) e
       else sendInline c batch e.

Definition handConn (direct : bool) (e : engine) (cm : nat * list udpSendMsg) : engine :=
  foldl (handOver direct cm.1) e (batches (length cm.2) cm.2).

(** [tick]; [order] is the order in which the map of sockets is visited *)
Definition tickPop (now : Z) (e : engine) : option (list Z * engine) := popDue (dueTotal now e) now e [].

Definition tickSend (direct : bool) (order : list (nat * list udpSendMsg) -> list (nat * list udpSendMsg))
    (due : list Z) (e : engine) : option engine :=
  match due with
  | [] => Some e
  | _ =>
    match emitAll direct due (se_store e, ∅) with
    | None => None
    | Some (store, m) => Some (foldl (handConn direct) (set_store store e) (order (map_to_list m)))
    end
  end.

Definition tick (direct : bool) (order : list (nat * list udpSendMsg) -> list (nat * list udpSendMsg))
    (now : Z) (e : engine) : option engine :=
  match tickPop now e with
  | None => None
  | Some (due, e) => tickSend direct order due e
  end.

(** A worker of [senderLoop]: taking a job, and sending what it took *)
Definition takeJob (w : nat) (e : engine) : engine :=
  match se_busy e !! w, se_sendCh e with
  | None, j :: ch => set_queue ch (<[w := j]> (se_busy e)) e
  | _, _ => e
  end.

Definition sendJob (w : nat) (e : engine) : engine :=
  match se_busy e !! w with
  | None => e
  | Some j =>
    let msgs := payloads (se_store e) (sj_msgs j) in
    let '(n, ok) := udpSendBatch (sj_conn j) msgs in
    let e := onWire (sj_conn j) n msgs (set_queue (se_sendCh e) (delete w (se_busy e)) e) in
    if ok then addSent n msgs e else e
  end.

End Network.

(** ** Invariant *)

(** The buffer of a stream is an RTP packet of its configuration. *)
Definition scale_packet (s : scaleStream) (sq ts : Z) : str :=
  rtp_wire (mkRtp (sg_PayloadType (ss_cfg s)) sq ts (sg_SSRC (ss_cfg s)) false (buildSyntheticPayload (ss_cfg s))).

Definition good_stream (s : scaleStream) : Prop :=
  0 < ss_interval s /\ exists sq ts, ss_sendBuf s = scale_packet s sq ts.

Definition callIds (e : engine) (c : str) : list Z := default [] (se_byCall e !! c).

Record Inv (e : engine) : Prop := {
  inv_heap : heap_ok (key e) (se_heap e);
  inv_mem : forall id, id ∈ hp_list (se_heap e) <-> id ∈ se_streams e;
  inv_dom : forall id, is_Some (se_store e !! id) -> 0 < id <= se_nextID e;
  inv_next : 0 <= se_nextID e;
  inv_store : forall id, id ∈ se_streams e ->
    exists s, se_store e !! id = Some s /\ id ∈ callIds e (ss_callID s) /\ ss_conn s ∈ se_open e;
  inv_good : forall id s, se_store e !! id = Some s -> good_stream s;
  inv_calls : forall c id, id ∈ callIds e c ->
    id ∈ se_streams e /\ exists s, se_store e !! id = Some s /\ ss_callID s = c;
  inv_nodup : forall c, NoDup (callIds e c);
  inv_conn : forall id id' s s', id ∈ se_streams e -> id' ∈ se_streams e ->
    se_store e !! id = Some s -> se_store e !! id' = Some s' -> ss_conn s = ss_conn s' -> id = id' }.

(** The invariant says nothing of queues, counters and the wire. *)
Lemma Inv_view e e' :
  se_store e' = se_store e -> se_streams e' = se_streams e -> se_byCall e' = se_byCall e -> se_heap e' = se_heap e ->
  se_nextID e' = se_nextID e -> se_open e' = se_open e -> Inv e -> Inv e'.
Proof.
  destruct e, e'. simpl. intros -> -> -> -> -> -> [H1 H2 H3 H4 H5 H6 H7 H8 H9]. split; assumption.
Qed.

Lemma Inv_new : Inv NewScaleEngine.
Proof.
  split; unfold callIds; simpl; try set_solver.
  - split; [by intros x [|i]|]. intros m Hm. simpl in Hm. lia.
  - intros id [s Hs]. by rewrite lookup_empty in Hs.
  - intros c. rewrite lookup_empty. constructor.
Qed.

(** Changing the stored streams without their place in the schedule. *)
Definition similar (s s' : scaleStream) : Prop :=
  ss_callID s' = ss_callID s /\ ss_conn s' = ss_conn s /\ (good_stream s -> good_stream s').

Definition sim_store (st st' : gmap Z scaleStream) : Prop :=
  forall id, match st !! id, st' !! id with Some s, Some s' => similar s s' | None, None => True | _, _ => False end.

Lemma sim_lookup st st' id s' : sim_store st st' -> st' !! id = Some s' -> exists s, st !! id = Some s /\ similar s s'.
Proof. intros H E. specialize (H id). rewrite E in H. destruct (st !! id) eqn:E'; [eauto|done]. Qed.

Lemma sim_lookup_r st st' id s : sim_store st st' -> st !! id = Some s -> exists s', st' !! id = Some s' /\ similar s s'.
Proof. intros H E. specialize (H id). rewrite E in H. destruct (st' !! id) eqn:E'; [eauto|done]. Qed.

#[local] Instance similar_preorder : PreOrder similar.
Proof. split; [by intros s|]. intros s1 s2 s3 (?&?&?) (?&?&?). split_and!; [congruence..|auto]. Qed.

#[local] Instance sim_store_preorder : PreOrder sim_store.
Proof.
  split; [intros st id; by destruct (st !! id)|]. intros a b c H1 H2 id. specialize (H1 id). specialize (H2 id).
  destruct (a !! id), (b !! id), (c !! id); try done. by etrans.
Qed.

Lemma sim_insert st id s s' : st !! id = Some s -> similar s s' -> sim_store st (<[id := s']> st).
Proof.
  intros E Hs i. destruct (decide (i = id)) as [-> | Hne]; [by rewrite lookup_insert_eq, E|].
  rewrite lookup_insert_ne by done. by destruct (st !! i).
Qed.

Lemma sim_alter st id f : (forall s, similar s (f s)) -> sim_store st (alter f id st).
Proof.
  intros Hs i. destruct (decide (i = id)) as [-> | Hne]; [rewrite lookup_alter_eq|rewrite lookup_alter_ne by done];
    destruct (st !! _); simpl; done || apply Hs.
Qed.

Lemma Inv_sched st h e :
  Inv e -> sim_store (se_store e) st -> heap_ok (key_of st) h ->
  (forall id, id ∈ hp_list h <-> id ∈ hp_list (se_heap e)) -> Inv (set_sched st h e).
Proof.
  intros [H1 H2 H3 H4 H5 H6 H7 H8 H9] Hs Hh Hm. split; unfold callIds, key in *; simpl; [done|..].
  - intros id. by rewrite Hm.
  - intros id [s' E]. destruct (sim_lookup _ _ _ _ Hs E) as (s & E' & _). eauto.
  - done.
  - intros id Hid. destruct (H5 id Hid) as (s & E & Hc & Ho).
    destruct (sim_lookup_r _ _ _ _ Hs E) as (s' & E' & Ec & En & _). exists s'. by rewrite Ec, En.
  - intros id s' E. destruct (sim_lookup _ _ _ _ Hs E) as (s & E' & _ & _ & G). eauto.
  - intros c id Hc. destruct (H7 c id Hc) as (Hid & s & E & <-). split; [done|].
    destruct (sim_lookup_r _ _ _ _ Hs E) as (s' & E' & Ec & _). eauto.
  - done.
  - intros id id' s s' Hi Hi' E E' Ec. destruct (sim_lookup _ _ _ _ Hs E) as (t & Et & _ & Et2 & _).
    destruct (sim_lookup _ _ _ _ Hs E') as (t' & Et' & _ & Et2' & _). apply (H9 id id' t t'); congruence.
Qed.

Lemma Inv_set_store st e :
  Inv e -> sim_store (se_store e) st -> (forall id, key_of st id = key e id) -> Inv (set_store st e).
Proof.
  intros I Hs Hk. apply Inv_sched; [done|done| |done]. eapply heap_ok_ext; [|apply I]. intros y _. by rewrite Hk.
Qed.

(** ** The operations preserve it *)

Lemma Inv_idx e id : Inv e -> id ∈ se_streams e -> exists i, heapIdx e id = Some i /\ hp_list (se_heap e) !! i = Some id.
Proof.
  intros I Hid. apply (inv_mem e I) in Hid. apply list_elem_of_lookup in Hid as [i Hi]. exists i. split; [|done].
  destruct (inv_heap e I) as [T _]. unfold heapIdx. rewrite (T _ _ Hi), (proj2 (Z.leb_le _ _)) by lia. by rewrite Nat2Z.id.
Qed.

Lemma key_paused st id b : forall y, key_of (alter (set_paused b) id st) y = key_of st y.
Proof.
  intros y. unfold key_of. destruct (decide (y = id)) as [-> | Hne];
    [rewrite lookup_alter_eq|by rewrite lookup_alter_ne]. by destruct (st !! id).
Qed.

Lemma similar_paused b s : similar s (set_paused b s).
Proof. split_and!; [done|done|exact (fun H => H)]. Qed.
Lemma similar_next t s : similar s (set_nextSend t s).
Proof. split_and!; [done|done|exact (fun H => H)]. Qed.

Lemma pauseOne_sim e id : sim_store (se_store e) (se_store (pauseOne e id)).
Proof. unfold pauseOne. case_bool_decide; [|done]. apply sim_alter, similar_paused. Qed.

Lemma resumeOne_sim now e id : sim_store (se_store e) (se_store (resumeOne now e id)).
Proof.
  unfold resumeOne. case_bool_decide; [|done]. apply sim_alter. intros s.
  etrans; [apply (similar_paused false)|apply similar_next].
Qed.

Lemma pauseOne_inv e id : Inv e -> Inv (pauseOne e id).
Proof.
  intros I. pose proof (pauseOne_sim e id) as Hs. unfold pauseOne in *. case_bool_decide; [|done].
  apply Inv_set_store; [done|done|apply key_paused].
Qed.

Lemma resumeOne_inv now e id : Inv e -> Inv (resumeOne now e id).
Proof.
  intros I. pose proof (resumeOne_sim now e id) as Hs. unfold resumeOne in *. case_bool_decide as Hid; [|done].
  destruct (Inv_idx e id I Hid) as (i & Hx & Hi). rewrite Hx in *.
  destruct (heapFix_ok (key e) (key_of (alter (fun s => set_nextSend now (set_paused false s)) id (se_store e)))
    i id (se_heap e) (inv_heap e I) Hi) as [P O].
  - intros y Hy. unfold key, key_of. by rewrite lookup_alter_ne.
  - apply Inv_sched; [done|done|done|by intros y; rewrite P].
Qed.

Lemma foldl_inv {A} (f : engine -> A -> engine) l e : (forall e a, Inv e -> Inv (f e a)) -> Inv e -> Inv (foldl f e l).
Proof. intros H. revert e. induction l; simpl; auto. Qed.

Lemma PauseCall_inv c e : Inv e -> Inv (PauseCall c e).
Proof. apply foldl_inv, pauseOne_inv. Qed.

Lemma ResumeCall_inv now c e : Inv e -> Inv (ResumeCall now c e).
Proof. apply foldl_inv, resumeOne_inv. Qed.

Definition with_calls (m : gmap str (list Z)) (e : engine) : engine := set_calls (se_streams e) m (se_open e) e.

Lemma Inv_calls_ext m m' e :
  (forall c, default [] (m !! c) = default [] (m' !! c)) -> Inv (with_calls m e) -> Inv (with_calls m' e).
Proof.
  intros E [H1 H2 H3 H4 H5 H6 H7 H8 H9].
  assert (forall c, callIds (with_calls m' e) c = callIds (with_calls m e) c) as Ec by (intros c; symmetry; apply E).
  split; simpl in *; try done.
  - intros id Hid. destruct (H5 id Hid) as (s & ? & ? & ?). exists s. by rewrite Ec.
  - intros c id. rewrite Ec. apply H7.
  - intros c. rewrite Ec. apply H8.
Qed.

(** Taking out the first stream of a call. *)
Lemma remove_inv e c id ids :
  Inv e -> se_byCall e !! c = Some (id :: ids) ->
  exists st h i, se_store e !! id = Some st /\ id ∈ se_streams e /\ heapIdx e id = Some i
    /\ heapRemove (key e) i (se_heap e) = Some (id, h)
    /\ Inv (set_heap h (set_calls (se_streams e ∖ {[id]}) (<[c := ids]> (se_byCall e)) (se_open e ∖ {[ss_conn st]}) e)).
Proof.
  intros I Hc. assert (callIds e c = id :: ids) as Hids by (unfold callIds; by rewrite Hc).
  destruct (inv_calls e I c id) as (Hid & st & Hst & Ecall); [rewrite Hids; set_solver|].
  destruct (Inv_idx e id I Hid) as (i & Hi & Hl). destruct (heapRemove_ok _ _ _ _ (inv_heap e I) Hl) as (h & Hr & P & O & _).
  exists st, h, i. split_and!; [done..|]. pose proof (tracked_nodup _ (proj1 (inv_heap e I))) as ND. rewrite P in ND.
  apply NoDup_cons in ND as [Hnot _]. pose proof (inv_nodup e I c) as NDc. rewrite Hids in NDc.
  apply NoDup_cons in NDc as [Hnc NDc]. destruct I as [H1 H2 H3 H4 H5 H6 H7 H8 H9].
  set (e' := set_heap _ _). assert (forall c', callIds e' c' = if decide (c' = c) then ids else callIds e c') as Ec.
  { intros c'. unfold callIds, e'. simpl. case_decide; subst; [by rewrite lookup_insert_eq|by rewrite lookup_insert_ne]. }
  split; simpl; [done| |done|done| |done| | |].
  - intros x. specialize (H2 x). rewrite P in H2. set_solver.
  - intros x Hx. apply elem_of_difference in Hx as [Hx Hxi]. destruct (H5 x Hx) as (s & Es & Hs & Ho). exists s.
    split_and!; [done| |].
    + rewrite Ec. case_decide as E; [|done]. rewrite E, Hids in Hs. set_solver.
    + apply elem_of_difference. split; [done|]. rewrite elem_of_singleton. intros E. apply Hxi, elem_of_singleton.
      by apply (H9 x id s st).
  - intros c' x. rewrite Ec. case_decide as E; intros Hx.
    + subst c'. destruct (H7 c x) as [Hx1 Hx2]; [rewrite Hids; set_solver|]. set_solver.
    + destruct (H7 c' x Hx) as [Hx1 (s & Es & Hs)]. split; [|by exists s]. apply elem_of_difference. split; [done|].
      rewrite elem_of_singleton. intros ->. rewrite Hst in Es. congruence.
  - intros c'. rewrite Ec. case_decide; [done|apply H8].
  - intros x x' s s' Hx Hx'. apply H9; set_solver.
Qed.

Lemma unregister_loop c : forall ids tot e,
  Inv (with_calls (<[c := ids]> (se_byCall e)) e) ->
  let e' := (foldl unregisterOne (tot, e) ids).2 in
  Inv (with_calls (<[c := []]> (se_byCall e')) e') /\ se_byCall e' = se_byCall e
  /\ se_streams e' = se_streams e ∖ list_to_set ids /\ se_store e' = se_store e.
Proof.
  induction ids as [|id ids IH]; intros [p o] e I; cbn [foldl]; [split_and!; [done..|set_solver|done]|].
  destruct (remove_inv _ c id ids I) as (st & h & i & Hst & Hid & Hi & Hr & I'); [by simpl; rewrite lookup_insert_eq|].
  assert (exists tot', unregisterOne (p, o, e) id
    = (tot', set_heap h (set_calls (se_streams e ∖ {[id]}) (se_byCall e) (se_open e ∖ {[ss_conn st]}) e))) as [tot' ->].
  { unfold unregisterOne. simpl in Hid, Hst. rewrite bool_decide_eq_true_2, Hst by done.
    change (heapIdx e id = Some i) in Hi. change (heapRemove (key e) i (se_heap e) = Some (id, h)) in Hr.
    rewrite Hi, Hr. eauto. }
  edestruct IH as (IH1 & IH2 & IH3 & IH4); [|split_and!; [exact IH1|exact IH2| |exact IH4]].
  - eapply Inv_view; [..|exact I']; try done. simpl. by rewrite insert_insert_eq.
  - rewrite IH3. simpl. set_solver.
Qed.

(** [UnregisterCall] removes the streams of the call and no other. *)
Lemma UnregisterCall_ok c e :
  Inv e -> let e' := (UnregisterCall c e).2 in
  Inv e' /\ se_streams e' = se_streams e ∖ list_to_set (callIds e c) /\ callIds e' c = []
  /\ se_store e' = se_store e.
Proof.
  intros I. pose proof (unregister_loop c (callIds e c) (0, 0) (with_calls (delete c (se_byCall e)) e)) as L.
  change (foldl unregisterOne _ _) with (UnregisterCall c e) in L. cbv zeta in *.
  destruct (UnregisterCall c e) as [tot e']. cbn [snd] in *. destruct L as (L1 & L2 & L3 & L4).
  - eapply Inv_view with (e := with_calls (<[c := callIds e c]> (se_byCall e)) e); try done.
    + simpl. by rewrite insert_delete_eq.
    + eapply (Inv_calls_ext (se_byCall e)); [|by eapply Inv_view; [..|exact I]]. intros c'.
      destruct (decide (c' = c)) as [-> | Hne]; [by rewrite lookup_insert_eq|by rewrite lookup_insert_ne].
  - simpl in L2. split_and!; [|done|unfold callIds; rewrite L2; simpl; by rewrite lookup_delete_eq|done].
    eapply Inv_view with (e := with_calls (se_byCall e') e'); [done..|]. eapply Inv_calls_ext; [|exact L1].
    intros c'. destruct (decide (c' = c)) as [-> | Hne]; [|by rewrite lookup_insert_ne].
    rewrite lookup_insert_eq, L2. by rewrite lookup_delete_eq.
Qed.

Lemma Stop_inv e : Inv e -> Inv (Stop e).
Proof.
  intros I. pose proof (inv_dom e I). pose proof (inv_next e I). pose proof (inv_good e I).
  split; unfold callIds; simpl; try done; try set_solver.
  - split; [by intros x [|i]|]. intros m Hm. simpl in Hm. lia.
  - intros c. rewrite lookup_empty. constructor.
Qed.

Lemma Run_inv e : Inv e -> Inv (Run e).
Proof. intros I. unfold Run. destruct (se_started e); [done|]. by eapply Inv_view; [..|exact I]. Qed.

(** A new stream, with the next number and a socket of its own. *)
Lemma add_inv e st :
  let id := se_nextID e + 1 in
  let store := <[id := st]> (se_store e) in
  let e1 := set_calls ({[id]} ∪ se_streams e)
              (<[ss_callID st := default [] (se_byCall e !! ss_callID st) ++ [id]]> (se_byCall e))
              ({[ss_conn st]} ∪ se_open e) (set_nextID id e) in
  Inv e -> ss_conn st ∉ se_open e -> good_stream st ->
  Inv (set_sched store (heapPush (key_of store) id (se_heap e)) e1) /\ id ∉ se_streams e.
Proof.
  intros id store e1 I Hconn Hg. set (e' := set_sched _ _ _).
  assert (se_store e !! id = None) as Hfresh.
  { destruct (se_store e !! id) eqn:E; [|done]. destruct (inv_dom e I id); [by rewrite E|]. lia. }
  assert (id ∉ se_streams e) as Hns by (intros (s & E & _)%(inv_store e I); congruence).
  assert (forall x, x ∈ se_streams e -> store !! x = se_store e !! x) as Hold.
  { intros x Hx. unfold store. rewrite lookup_insert_ne; [done|]. by intros <-. }
  assert (forall c, callIds e' c = callIds e c ++ if decide (c = ss_callID st) then [id] else []) as Ec.
  { intros c. unfold callIds, e', e1. simpl. case_decide; subst; [by rewrite lookup_insert_eq|].
    by rewrite lookup_insert_ne, app_nil_r. }
  destruct I as [H1 H2 H3 H4 H5 H6 H7 H8 H9].
  destruct (heapPush_ok (key_of store) id (se_heap e)) as [P O].
  { eapply heap_ok_ext; [|exact H1]. intros y Hy. unfold key, key_of. by rewrite Hold by (by apply H2). }
  { by rewrite H2. }
  split; [|done]. split; simpl; [done|..].
  - intros x. rewrite P. rewrite elem_of_cons, H2. set_solver.
  - intros x [s Hs]. unfold store in Hs. destruct (decide (x = id)) as [-> | Hne]; [lia|].
    rewrite lookup_insert_ne in Hs by done. specialize (H3 x). rewrite Hs in H3. specialize (H3 ltac:(eauto)). lia.
  - lia.
  - intros x [->%elem_of_singleton | Hx]%elem_of_union.
    + exists st. unfold store. rewrite lookup_insert_eq, Ec, decide_True by done. set_solver.
    + destruct (H5 x Hx) as (s & Es & Hc & Ho). exists s. rewrite Hold, Ec by done. set_solver.
  - intros x s. unfold store. destruct (decide (x = id)) as [-> | Hne]; [rewrite lookup_insert_eq; congruence|].
    rewrite lookup_insert_ne by done. apply H6.
  - intros c x. rewrite Ec, elem_of_app. intros [Hx | Hx].
    + destruct (H7 c x Hx) as (Hi & s & Es & Hs). split; [set_solver|]. exists s. by rewrite Hold.
    + case_decide; [|set_solver]. apply list_elem_of_singleton in Hx as ->. split; [set_solver|]. exists st.
      unfold store. by rewrite lookup_insert_eq.
  - intros c. rewrite Ec. case_decide; [|by rewrite app_nil_r]. apply NoDup_app. split_and!; [done| |apply NoDup_singleton].
    intros x Hx%H7 ->%list_elem_of_singleton. by destruct Hx.
  - assert (forall x s, x ∈ se_streams e -> store !! x = Some s -> ss_conn s <> ss_conn st) as Hd.
    { intros x s Hx. rewrite Hold by done. intros Es E. destruct (H5 x Hx) as (s' & Es' & _ & Ho). simplify_eq.
      by rewrite E in Ho. }
    assert (store !! id = Some st) as Hst by (unfold store; by rewrite lookup_insert_eq).
    intros x x' s s' [->%elem_of_singleton | Hx]%elem_of_union [->%elem_of_singleton | Hx']%elem_of_union Es Es' E;
      [done|..]; simplify_eq.
    + by destruct (Hd x' s' Hx' Es').
    + by destruct (Hd x s Hx Es).
    + rewrite Hold in Es, Es' by done. by apply (H9 x x' s s').
Qed.

Section Registered.

Context (Marshal : rtp_packet -> option str) (ListenUDP : option str -> Z -> option nat).

(** What pion's [Marshal] documents: the packet in the format of RFC 3550. *)
Context (Marshal_wire : forall p b, Marshal p = Some b -> rtp_marker p = false -> b = rtp_wire p).

Lemma withDefaults_positive cfg : 0 < sg_PacketDuration (withDefaults cfg).
Proof.
  unfold withDefaults. destruct (Z.leb_spec (sg_PacketDuration cfg) 0); simpl; destruct (_ =? _); simpl;
    unfold millisecond; lia.
Qed.

(** [RegisterStream] on a socket that was not open adds one stream. *)
Lemma RegisterStream_ok now callID ip port cfg localIP localPort e e' :
  Inv e -> se_nextID e < 2 ^ 64 - 1 -> (forall a p c, ListenUDP a p = Some c -> c ∉ se_open e) ->
  RegisterStream Marshal ListenUDP now callID ip port cfg localIP localPort e = Ok e' ->
  Inv e' /\ se_started e = true
  /\ exists id s, id ∉ se_streams e /\ se_streams e' = {[id]} ∪ se_streams e /\ se_store e' = <[id := s]> (se_store e)
     /\ ss_nextSend s = now /\ ss_paused s = false /\ ss_sequence s = sg_Sequence cfg /\ ss_callID s = callID.
Proof.
  intros I Hn Hl. unfold RegisterStream. destruct (_ || _); [done|]. destruct (sg_Synthetic cfg); [|done]. cbn [negb].
  destruct (ParseIP ip) as [rip|]; [|done]. destruct (openScaleUDP ListenUDP localIP localPort) as [conn|] eqn:Eo; [|done].
  destruct (BuildPacket Marshal _ _) as [pkt|] eqn:Ep; [|done]. destruct (_ <? _)%nat; [done|].
  destruct (se_started e); [|done]. cbn [negb]. intros <-%Ok_inj.
  assert (conn ∉ se_open e) as Hconn.
  { unfold openScaleUDP in Eo. destruct (ListenUDP _ localPort) eqn:E1; simplify_eq; eauto. }
  apply Marshal_wire in Ep; [|done]. pose proof (inv_next e I).
  assert (u64 (se_nextID e + 1) = se_nextID e + 1) as -> by (unfold u64; rewrite Z.mod_small; lia).
  set (cfg' := withDefaults cfg) in *. set (st := mkScale _ _ _ _ _ _ _ _ _ _ _).
  destruct (add_inv e st I Hconn) as [I' Hns]; [split; [apply withDefaults_positive|by eexists _, _]|].
  split; [exact I'|]. split; [done|]. exists (se_nextID e + 1), st. split_and!; [done..| |done]. simpl. unfold cfg', withDefaults.
  by destruct (sg_PacketDuration cfg <=? 0); simpl; destruct (_ =? _).
Qed.

End Registered.

(** ** The first stage of a tick *)

Definition advanceBy (n : nat) (s : scaleStream) : scaleStream :=
  set_nextSend (ss_nextSend s + Z.of_nat n * ss_interval s) s.

Lemma dueCount_advance now s :
  0 < ss_interval s -> ss_nextSend s <= now -> dueCount now s = S (dueCount now (advance s)).
Proof.
  intros Hi Hn. unfold dueCount, advance. cbn [ss_nextSend set_nextSend ss_interval].
  destruct (Z.ltb_spec now (ss_nextSend s)); [lia|].
  destruct (Z.ltb_spec now (ss_nextSend s + ss_interval s)).
  - rewrite Z.div_small by lia. done.
  - f_equal. replace (now - ss_nextSend s) with (now - (ss_nextSend s + ss_interval s) + 1 * ss_interval s) by lia.
    rewrite Z.div_add by lia. pose proof (Z.div_pos (now - (ss_nextSend s + ss_interval s)) (ss_interval s)). lia.
Qed.

Lemma dueCount_zero now s : now < ss_nextSend s -> dueCount now s = O.
Proof. intros. unfold dueCount. by rewrite (proj2 (Z.ltb_lt _ _)). Qed.

Lemma advanceBy_0 s : advanceBy 0 s = s.
Proof. unfold advanceBy, set_nextSend. rewrite Z.mul_0_l, Z.add_0_r. by destruct s. Qed.

Lemma advanceBy_S n s : advanceBy n (advance s) = advanceBy (S n) s.
Proof. unfold advanceBy, advance, set_nextSend. simpl. f_equal. lia. Qed.

(** What the stage does to the store, and which streams it finds. *)
Definition advanced (now : Z) (e : engine) (store : gmap Z scaleStream) : Prop :=
  forall id, store !! id =
    (if bool_decide (id ∈ se_streams e) then (fun s => advanceBy (dueCount now s) s) <$> se_store e !! id
     else se_store e !! id).

Definition duePackets (now : Z) (e : engine) (id : Z) : nat :=
  if bool_decide (id ∈ se_streams e) then
    match se_store e !! id with Some s => if ss_paused s then O else dueCount now s | None => O end
  else O.

Lemma sum_ext {A} (f g : A -> nat) l : (forall y, y ∈ l -> f y = g y) -> sum_list_with f l = sum_list_with g l.
Proof. induction l as [|x l IH]; intros H; simpl; [done|]. rewrite H, IH; [done| |]; set_solver. Qed.

Lemma pop_once now e id rest st :
  Inv e -> hp_list (se_heap e) = id :: rest -> se_store e !! id = Some st -> ss_nextSend st <= now ->
  exists h, heapPop (key e) (se_heap e) = Some (id, h) /\
    let store := <[id := advance st]> (se_store e) in
    let e1 := set_sched store (heapPush (key_of store) id h) e in
    Inv e1 /\ S (dueTotal now e1) = dueTotal now e.
Proof.
  intros I Hl Hst Hn. destruct (heapPop_ok (key e) id (se_heap e) (inv_heap e I)) as (h & Hp & P & O & _); [by rewrite Hl|].
  exists h. split; [done|]. intros store e1. pose proof (tracked_nodup _ (proj1 (inv_heap e I))) as ND.
  rewrite P in ND. apply NoDup_cons in ND as [Hnot _].
  assert (forall y, y ∈ hp_list h -> se_store e !! y = store !! y) as Hold.
  { intros y Hy. unfold store. rewrite lookup_insert_ne; [done|]. by intros <-. }
  destruct (heapPush_ok (key_of store) id h) as [P' O']; [|done|].
  { eapply heap_ok_ext; [|exact O]. intros y Hy. unfold key, key_of. by rewrite Hold. }
  split.
  - apply Inv_sched; [done| |done|intros y; by rewrite P', P]. apply (sim_insert _ _ st); [done|apply similar_next].
  - unfold dueTotal, e1. simpl. rewrite P', P. cbn [sum_list_with]. unfold dueOf at 1 3, store at 1.
    rewrite lookup_insert_eq, Hst, (dueCount_advance now st); [|apply (inv_good e I id st Hst)|done].
    simpl. do 2 f_equal. apply sum_ext. intros y Hy. unfold dueOf. by rewrite Hold.
Qed.

Lemma popDue_eq fuel now e due :
  popDue fuel now e due =
  match hp_list (se_heap e) with
  | [] => Some (due, e)
  | id :: _ =>
    match se_store e !! id with
    | None => None
    | Some st =>
      if now <? ss_nextSend st then Some (due, e)
      else
        match fuel, heapPop (key e) (se_heap e) with
        | S fuel, Some (_, h) =>
          let due := if ss_paused st then due else due ++ [id] in
          let store := <[id := advance st]> (se_store e) in
          popDue fuel now (set_sched store (heapPush (key_of store) id h) e) due
        | _, _ => None
        end
    end
  end.
Proof. by destruct fuel. Qed.

(** One turn, in what remains to be done. *)
Section Turn.

Context (now : Z) (e : engine) (id : Z) (st : scaleStream) (h : hp).
Context (Hid : id ∈ se_streams e) (Hst : se_store e !! id = Some st).
Context (Hi : 0 < ss_interval st) (Hle : ss_nextSend st <= now).

Let e1 := set_sched (<[id := advance st]> (se_store e)) h e.

Lemma advanced_once x :
  (if bool_decide (x ∈ se_streams e1) then (fun s => advanceBy (dueCount now s) s) <$> se_store e1 !! x
   else se_store e1 !! x)
  = (if bool_decide (x ∈ se_streams e) then (fun s => advanceBy (dueCount now s) s) <$> se_store e !! x
     else se_store e !! x).
Proof.
  unfold e1. simpl. destruct (decide (x = id)) as [-> | Hne]; [|by rewrite lookup_insert_ne].
  rewrite bool_decide_eq_true_2, lookup_insert_eq, Hst by done. simpl.
  by rewrite advanceBy_S, <- dueCount_advance.
Qed.

Lemma packets_once due x :
  (count_occ Z.eq_dec (if ss_paused st then due else due ++ [id]) x + duePackets now e1 x
   = count_occ Z.eq_dec due x + duePackets now e x)%nat.
Proof.
  unfold duePackets, e1. simpl. destruct (decide (x = id)) as [-> | Hne].
  - rewrite bool_decide_eq_true_2, lookup_insert_eq, Hst by done. cbn [ss_paused advance set_nextSend].
    rewrite (dueCount_advance now st) by done. destruct (ss_paused st); [done|]. rewrite count_occ_app. simpl.
    destruct (Z.eq_dec id id); [lia|done].
  - rewrite lookup_insert_ne by done. destruct (ss_paused st); [done|]. rewrite count_occ_app. simpl.
    destruct (Z.eq_dec id x); [congruence|lia].
Qed.

End Turn.

(** The loop ends within [dueTotal] turns.  Every stream has then moved on to
    its first time after now, and every stream that is not paused is in the list
    once for each packet that was due. *)
Lemma popDue_ok now : forall fuel e due,
  Inv e -> (dueTotal now e <= fuel)%nat ->
  exists due' e', popDue fuel now e due = Some (due', e') /\ Inv e' /\ e' = set_sched (se_store e') (se_heap e') e
    /\ advanced now e (se_store e')
    /\ (forall id, count_occ Z.eq_dec due' id = count_occ Z.eq_dec due id + duePackets now e id)%nat.
Proof.
  intros fuel. induction fuel as [fuel IH] using lt_wf_ind. intros e due I Hf.
  assert (forall id rest, hp_list (se_heap e) = id :: rest -> exists s, se_store e !! id = Some s) as Hhd.
  { intros id rest Hl. destruct (inv_store e I id) as (s & ? & _); [|eauto]. apply (inv_mem e I). rewrite Hl. set_solver. }
  assert ((forall id s, id ∈ se_streams e -> se_store e !! id = Some s -> now < ss_nextSend s) ->
    advanced now e (se_store e) /\ forall id, duePackets now e id = O) as Hdone.
  { intros Hd. split; intros id; [|unfold duePackets]; case_bool_decide as Hid; try done;
      destruct (inv_store e I id Hid) as (s & Es & _); specialize (Hd id s Hid Es); rewrite Es; simpl;
      rewrite dueCount_zero by done; [by rewrite advanceBy_0|by destruct (ss_paused s)]. }
  rewrite popDue_eq. destruct (hp_list (se_heap e)) as [|id rest] eqn:Hl.
  { destruct Hdone as [Ha Hp]; [intros id s Hid; apply (inv_mem e I) in Hid; rewrite Hl in Hid; set_solver|].
    exists due, e. split_and!; [done|done|by destruct e|done|]. intros id. rewrite Hp. lia. }
  destruct (Hhd id rest eq_refl) as [st Hst]. rewrite Hst. destruct (Z.ltb_spec now (ss_nextSend st)) as [Hlt|Hle].
  { destruct Hdone as [Ha Hp].
    - intros x s Hx Es. apply (inv_mem e I) in Hx. pose proof (heap_first _ id x _ (inv_heap e I)) as Hm.
      rewrite Hl in Hm. specialize (Hm eq_refl). rewrite <- Hl in Hm. specialize (Hm Hx). unfold key, key_of in Hm.
      rewrite Hst, Es in Hm. lia.
    - exists due, e. split_and!; [done|done|by destruct e|done|]. intros x. rewrite Hp. lia. }
  destruct (pop_once now e id rest st I Hl Hst Hle) as (h & -> & I1 & Ht). destruct fuel as [|fuel]; [lia|].
  assert (id ∈ se_streams e) as Hid by (apply (inv_mem e I); rewrite Hl; set_solver).
  pose proof (proj1 (inv_good e I id st Hst)) as Hi.
  set (e1 := set_sched _ _ e) in *. set (due1 := if ss_paused st then due else due ++ [id]).
  destruct (IH fuel ltac:(lia) e1 due1 I1 ltac:(lia)) as (due' & e' & Hr & I' & He & Ha & Hc).
  exists due', e'. split_and!; [exact Hr|done|by rewrite He|..].
  - intros x. rewrite (Ha x). by apply advanced_once.
  - intros x. rewrite (Hc x). unfold due1, e1. by apply packets_once.
Qed.

(** ** The second stage of a tick *)

Lemma z2b_mod z : z2b (z mod 256) = z2b z.
Proof. unfold z2b. by rewrite Z.mod_mod. Qed.

Lemma z2b_shiftr_mod z k w : 0 <= k -> k + 8 <= w -> z2b (Z.shiftr (z mod 2 ^ w) k) = z2b (Z.shiftr z k).
Proof.
  intros Hk Hw. rewrite <- z2b_mod, <- (z2b_mod (Z.shiftr z k)). f_equal. change 256 with (2 ^ 8).
  rewrite <- !Z.land_ones by lia. apply Z.bits_inj'. intros n Hn.
  rewrite !Z.land_spec, !Z.shiftr_spec, Z.land_spec, !Z.testbit_ones_nonneg by lia.
  destruct (Z.ltb_spec n 8); [|by rewrite !andb_false_r]. rewrite (proj2 (Z.ltb_lt _ _)) by lia. by rewrite !andb_true_r.
Qed.

Lemma z2b_pow_mod z w : 8 <= w -> z2b (z mod 2 ^ w) = z2b z.
Proof. intros Hw. pose proof (z2b_shiftr_mod z 0 w ltac:(lia) ltac:(lia)) as H. by rewrite !Z.shiftr_0_r in H. Qed.

Lemma put_u16_mod z : put_u16 (u16 z) = put_u16 z.
Proof.
  unfold put_u16, u16. by rewrite z2b_shiftr_mod, z2b_pow_mod by lia.
Qed.

Lemma put_u32_mod z : put_u32 (u32 z) = put_u32 z.
Proof.
  unfold put_u32, u32. by rewrite !z2b_shiftr_mod, z2b_pow_mod by lia.
Qed.

Lemma patch_scale s sq ts sq' ts' : patchRTPPacket (scale_packet s sq ts) sq' ts' = scale_packet s sq' ts'.
Proof. done. Qed.

Lemma scale_packet_mod s sq ts : scale_packet s (u16 sq) (u32 ts) = scale_packet s sq ts.
Proof. unfold scale_packet, rtp_wire. cbn [rtp_sequence rtp_timestamp]. by rewrite put_u16_mod, put_u32_mod. Qed.

(** The [i]th packet that a stream sends from now on. *)
Definition packetAt (s : scaleStream) (i : nat) : str :=
  scale_packet s (u16 (ss_sequence s + Z.of_nat i))
    (u32 (ss_timestamp s + Z.of_nat i * sg_SamplesPerPkt (ss_cfg s))).

Definition packetsFrom (s : scaleStream) (n : nat) : list udpSendMsg :=
  map (fun i => mkMsg (ss_remote s) (BufCopy (packetAt s i))) (seq 0 n).

Lemma packetAt_sent s i : packetAt (sent s) i = packetAt s (S i).
Proof.
  unfold packetAt. cbn [sent ss_sequence ss_timestamp ss_cfg].
  replace (Z.of_nat (S i)) with (1 + Z.of_nat i) by lia. unfold u16, u32. rewrite !Zplus_mod_idemp_l.
  unfold scale_packet. simpl. do 2 f_equal; f_equal; lia.
Qed.

Lemma packetsFrom_sent s n :
  packetsFrom s (S n) = mkMsg (ss_remote s) (BufCopy (packetAt s 0)) :: packetsFrom (sent s) n.
Proof.
  unfold packetsFrom. rewrite <- cons_seq, <- seq_shift, map_cons, map_map. f_equal. apply map_ext. intros i.
  by rewrite packetAt_sent.
Qed.

Lemma good_sent s : good_stream s -> good_stream (sent s).
Proof.
  intros (Hi & sq & ts & E). split; [done|]. exists (ss_sequence s), (ss_timestamp s). simpl. by rewrite E, patch_scale.
Qed.

Lemma sent_buffer s : good_stream s -> ss_sendBuf (sent s) = packetAt s 0.
Proof.
  intros (_ & sq & ts & E). simpl. rewrite E, patch_scale. unfold packetAt.
  by rewrite scale_packet_mod, Z.mul_0_l, !Z.add_0_r.
Qed.

Lemma similar_sent s : similar s (sent s).
Proof. split_and!; [done|done|apply good_sent]. Qed.

(** Packets that fit the buffers of the pool *)
Definition small (s : scaleStream) : Prop := (length (buildSyntheticPayload (ss_cfg s)) <= 2036)%nat.

Lemma scale_packet_length s sq ts : length (scale_packet s sq ts) = (12 + length (buildSyntheticPayload (ss_cfg s)))%nat.
Proof. done. Qed.

Lemma alloc_small s i : small s -> allocScalePacket (packetAt s i) = Some (packetAt s i).
Proof.
  intros H. unfold allocScalePacket, packetAt. rewrite scale_packet_length. unfold small, poolBuffer in *.
  by destruct (Nat.ltb_spec 2048 (12 + length (buildSyntheticPayload (ss_cfg s)))); [lia|].
Qed.

Lemma msgsOf_eq m c l : msgsOf (<[c := l]> m) c = l.
Proof. unfold msgsOf. by rewrite lookup_insert_eq. Qed.

Lemma msgsOf_ne m c c' l : c <> c' -> msgsOf (<[c := l]> m) c' = msgsOf m c'.
Proof. intros. unfold msgsOf. by rewrite lookup_insert_ne. Qed.

Section Emit.

(** Streams, each with a socket of its own *)
Context (ids : gset Z).

Definition ready (store : gmap Z scaleStream) : Prop :=
  (forall id, id ∈ ids -> exists s, store !! id = Some s /\ good_stream s /\ small s)
  /\ (forall id id' s s', id ∈ ids -> id' ∈ ids -> store !! id = Some s -> store !! id' = Some s' ->
        ss_conn s = ss_conn s' -> id = id').

Lemma ready_sent store id s : ready store -> store !! id = Some s -> ready (<[id := sent s]> store).
Proof.
  intros [R1 R2] Es. split.
  - intros x Hx. destruct (R1 x Hx) as (t & Et & G & Sm). destruct (decide (x = id)) as [-> | Hne].
    + rewrite lookup_insert_eq. simplify_eq. exists (sent s). split_and!; [done|by apply good_sent|done].
    + rewrite lookup_insert_ne by done. eauto.
  - assert (forall x t, <[id := sent s]> store !! x = Some t -> exists t', store !! x = Some t' /\ ss_conn t' = ss_conn t) as Hb.
    { intros x t. destruct (decide (x = id)) as [-> | Hne]; [rewrite lookup_insert_eq|rewrite lookup_insert_ne by done];
        intros; simplify_eq; eauto. }
    intros x x' t t' Hx Hx' Et Et' E. destruct (Hb x t Et) as (u & Eu & Hu). destruct (Hb x' t' Et') as (u' & Eu' & Hu').
    apply (R2 x x' u u'); congruence.
Qed.

(** Every stream of the list sends the packets of its turns, in their order, on
    its own socket. *)
Lemma emitAll_ok : forall due store m,
  Forall (.∈ ids) due -> ready store ->
  exists store' m', emitAll false due (store, m) = Some (store', m')
    /\ (forall id, store' !! id = Nat.iter (count_occ Z.eq_dec due id) sent <$> store !! id)
    /\ (forall id s, id ∈ ids -> store !! id = Some s ->
          msgsOf m' (ss_conn s) = msgsOf m (ss_conn s) ++ packetsFrom s (count_occ Z.eq_dec due id)).
Proof.
  induction due as [|id due IH]; intros store m Hd R.
  - exists store, m. split_and!; [done|intros id; by destruct (store !! id)|]. intros. by rewrite app_nil_r.
  - apply Forall_cons in Hd as [Hid Hd]. destruct (proj1 R id Hid) as (s & Es & G & Sm). cbn [emitAll].
    unfold emit. rewrite Es, sent_buffer, alloc_small by done. cbn [fmap option_fmap option_map].
    destruct (IH (<[id := sent s]> store)
      (<[ss_conn s := msgsOf m (ss_conn s) ++ [mkMsg (ss_remote s) (BufCopy (packetAt s 0))]]> m) Hd)
      as (store' & m' & Hr & H1 & H2); [by apply ready_sent|].
    exists store', m'. split_and!; [exact Hr|..].
    + intros x. rewrite H1. cbn [count_occ]. destruct (Z.eq_dec id x) as [<- | Hne].
      * rewrite lookup_insert_eq, Es. cbn [fmap option_fmap option_map]. by rewrite Nat.iter_succ_r.
      * by rewrite lookup_insert_ne.
    + intros x t Hx Et. cbn [count_occ]. destruct (Z.eq_dec id x) as [<- | Hne].
      * simplify_eq. rewrite packetsFrom_sent.
        specialize (H2 id (sent s) Hid). rewrite lookup_insert_eq in H2. specialize (H2 eq_refl).
        change (ss_conn (sent s)) with (ss_conn s) in H2. rewrite H2, msgsOf_eq. by rewrite <- app_assoc.
      * specialize (H2 x t Hx). rewrite lookup_insert_ne in H2 by done. rewrite (H2 Et).
        rewrite msgsOf_ne; [done|]. intros E. apply Hne. by apply (proj2 R id x s t).
Qed.

End Emit.

(** ** Handing over *)

Lemma batches_concat : forall fuel l, (length l <= fuel)%nat -> concat (batches fuel l) = l.
Proof.
  induction fuel as [|fuel IH]; intros [|x l] Hl; [done|simpl in Hl; lia|done|]. cbn [batches concat].
  rewrite IH; [apply take_drop|]. rewrite length_drop. unfold scaleMaxBatch. simpl in *. lia.
Qed.

Lemma batches_count : forall fuel l, (length (batches fuel l) <= length l)%nat.
Proof.
  induction fuel as [|fuel IH]; intros [|x l]; cbn [batches]; [simpl; lia..|].
  specialize (IH (drop scaleMaxBatch (x :: l))). rewrite length_drop in IH. unfold scaleMaxBatch in *. simpl in *. lia.
Qed.

Lemma batches_bounded : forall fuel l, Forall (fun b => 0 < length b <= scaleMaxBatch)%nat (batches fuel l).
Proof.
  induction fuel as [|fuel IH]; intros [|x l]; constructor; [|apply IH].
  rewrite length_take. cbn [length]. unfold scaleMaxBatch. lia.
Qed.

(** The jobs of the sockets in the order in which they are visited *)
Definition jobsOf (l : list (nat * list udpSendMsg)) : list scaleSendJob :=
  concat (map (fun cm => map (mkJob cm.1) (batches (length cm.2) cm.2)) l).

(** What a list of jobs sends on a socket *)
Definition sentOn (c : nat) (jobs : list scaleSendJob) : list udpSendMsg :=
  concat (map sj_msgs (filter (fun j => sj_conn j = c) jobs)).

Definition totalMsgs (l : list (nat * list udpSendMsg)) : nat := sum_list_with (fun cm => length cm.2) l.

Lemma jobsOf_count l : (length (jobsOf l) <= totalMsgs l)%nat.
Proof.
  induction l as [|[c ms] l IH]; [done|]. unfold jobsOf, totalMsgs in *. simpl. rewrite length_app, length_map.
  pose proof (batches_count (length ms) ms). lia.
Qed.

Lemma sentOn_app c a b : sentOn c (a ++ b) = sentOn c a ++ sentOn c b.
Proof. unfold sentOn. by rewrite filter_app, map_app, concat_app. Qed.

Lemma sentOn_batches c c' bs : sentOn c (map (mkJob c') bs) = if decide (c' = c) then concat bs else [].
Proof.
  induction bs as [|b bs IH]; [by case_decide|]. unfold sentOn in *. rewrite map_cons, filter_cons. cbn [sj_conn].
  case_decide; [|done]. simpl. by rewrite IH.
Qed.

Lemma sentOn_none c l : c ∉ l.*1 -> sentOn c (jobsOf l) = [].
Proof.
  induction l as [|[c' ms] l IH]; intros Hc; [done|]. simpl in Hc. apply not_elem_of_cons in Hc as [Hne Hc].
  unfold jobsOf. simpl. rewrite sentOn_app, sentOn_batches, decide_False by done. by apply IH.
Qed.

Lemma sentOn_some c ms l : NoDup l.*1 -> (c, ms) ∈ l -> sentOn c (jobsOf l) = ms.
Proof.
  induction l as [|[c' ms'] l IH]; intros ND Hc; [set_solver|]. simpl in ND. apply NoDup_cons in ND as [Hn ND].
  unfold jobsOf. simpl. rewrite sentOn_app, sentOn_batches. apply elem_of_cons in Hc as [[= -> ->] | Hc].
  - rewrite decide_True, batches_concat by done. change (ms' ++ sentOn c' (jobsOf l) = ms').
    by rewrite sentOn_none, app_nil_r.
  - rewrite decide_False; [by apply IH|]. intros ->. apply Hn, list_elem_of_fmap. by exists (c, ms).
Qed.

Lemma sentOn_map c (m : byConn) l : l ≡ₚ map_to_list m -> sentOn c (jobsOf l) = msgsOf m c.
Proof.
  intros P. assert (NoDup l.*1) as ND by (rewrite P; apply NoDup_fst_map_to_list). unfold msgsOf.
  destruct (m !! c) as [ms|] eqn:E.
  - apply sentOn_some; [done|]. rewrite P. by apply elem_of_map_to_list.
  - apply sentOn_none. rewrite P. intros ([c' ms] & -> & H)%list_elem_of_fmap. apply elem_of_map_to_list in H.
    simpl in E. congruence.
Qed.

Lemma totalMsgs_push c x (m : byConn) :
  totalMsgs (map_to_list (<[c := msgsOf m c ++ [x]]> m)) = S (totalMsgs (map_to_list m)).
Proof.
  unfold totalMsgs, msgsOf. destruct (m !! c) as [l|] eqn:E; cbn [default].
  - rewrite <- insert_delete_eq, map_to_list_insert by apply lookup_delete_eq. rewrite <- (map_to_list_delete m c l E).
    simpl. rewrite length_app. simpl. lia.
  - rewrite map_to_list_insert by done. done.
Qed.

Lemma emitAll_total direct : forall due store m store' m',
  emitAll direct due (store, m) = Some (store', m') ->
  totalMsgs (map_to_list m') = (totalMsgs (map_to_list m) + length due)%nat.
Proof.
  induction due as [|id due IH]; intros store m store' m' H; cbn [emitAll] in H; [simplify_eq; simpl; lia|].
  unfold emit in H. destruct (store !! id) as [st|]; [|done]. destruct (if direct then _ else _); [|done].
  rewrite (IH _ _ _ _ H), totalMsgs_push. simpl. lia.
Qed.

Lemma popDue_length now : forall fuel e due due' e',
  popDue fuel now e due = Some (due', e') -> (length due' <= length due + fuel)%nat.
Proof.
  induction fuel as [|fuel IH]; intros e due due' e' H; rewrite popDue_eq in H;
    destruct (hp_list (se_heap e)) as [|id rest]; simplify_eq; try lia;
    destruct (se_store e !! id) as [st|]; try done; destruct (now <? ss_nextSend st); simplify_eq; try lia.
  destruct (heapPop _ _) as [[y h]|]; [|done]. apply IH in H. destruct (ss_paused st); [lia|].
  rewrite length_app in H. simpl in H. lia.
Qed.

(** ** A tick *)

Section Tick.

Context (sendmmsg : nat -> list (str * Z * str) -> option nat) (WriteTo : nat -> str * Z -> str -> bool).

Lemma handOver_room c : forall bs e,
  (length (se_sendCh e) + length bs <= scaleSendQueueDepth)%nat ->
  foldl (handOver sendmmsg WriteTo false c) e bs = set_queue (se_sendCh e ++ map (mkJob c) bs) (se_busy e) e.
Proof.
  induction bs as [|b bs IH]; intros e Hl; [simpl; rewrite app_nil_r; by destruct e|]. cbn [foldl length] in *.
  unfold handOver at 2. rewrite (proj2 (Nat.ltb_lt _ _)) by lia. rewrite IH.
  - simpl. by rewrite <- app_assoc.
  - simpl. rewrite length_app. simpl. lia.
Qed.

Lemma handAll_room : forall l e,
  (length (se_sendCh e) + length (jobsOf l) <= scaleSendQueueDepth)%nat ->
  foldl (handConn sendmmsg WriteTo false) e l = set_queue (se_sendCh e ++ jobsOf l) (se_busy e) e.
Proof.
  induction l as [|[c ms] l IH]; intros e Hl; [simpl; rewrite app_nil_r; by destruct e|].
  unfold jobsOf in *. cbn [map concat fst snd] in *. rewrite length_app, length_map in Hl. cbn [foldl]. unfold handConn at 2.
  cbn [fst snd]. rewrite handOver_room by lia. rewrite IH; [simpl; by rewrite <- app_assoc|].
  simpl. rewrite length_app, length_map. lia.
Qed.

Lemma iter_sent_schedule n s :
  ss_nextSend (Nat.iter n sent s) = ss_nextSend s /\ similar s (Nat.iter n sent s).
Proof.
  induction n as [|n [IH1 IH2]]; [done|]. split; [done|]. etrans; [exact IH2|apply similar_sent].
Qed.

Lemma iter_sent_packets n s k : packetAt (Nat.iter n sent s) k = packetAt s (n + k).
Proof.
  revert s. induction n as [|n IH]; intros s; [done|]. by rewrite Nat.iter_succ_r, IH, packetAt_sent.
Qed.

Lemma dueCount_next now s :
  0 < ss_interval s -> now < ss_nextSend (advanceBy (dueCount now s) s)
  /\ (ss_nextSend s <= now -> ss_nextSend (advanceBy (dueCount now s) s) <= now + ss_interval s).
Proof.
  intros Hi. unfold advanceBy, dueCount. cbn [ss_nextSend set_nextSend]. destruct (Z.ltb_spec now (ss_nextSend s)); [lia|].
  pose proof (Z.div_mod (now - ss_nextSend s) (ss_interval s)). pose proof (Z.mod_pos_bound (now - ss_nextSend s) (ss_interval s)).
  pose proof (Z.div_pos (now - ss_nextSend s) (ss_interval s)). nia.
Qed.

(** What a tick at [now] owes a stream, and has done for it. *)
Definition owed (now : Z) (s : scaleStream) : nat := if ss_paused s then O else dueCount now s.

Definition caught_up (now : Z) (s s' : scaleStream) : Prop :=
  now < ss_nextSend s' /\ (exists n, ss_nextSend s' = ss_nextSend s + Z.of_nat n * ss_interval s)
  /\ (ss_nextSend s <= now -> ss_nextSend s' <= now + ss_interval s)
  /\ forall k, packetAt s' k = packetAt s (owed now s + k).

Lemma tick_state e store :
  Inv e -> (forall id, exists n, store !! id = Nat.iter n sent <$> se_store e !! id) -> Inv (set_store store e).
Proof.
  intros I H. apply Inv_set_store; [done|..]; intros id; destruct (H id) as [n Hn]; unfold key, key_of; rewrite Hn;
    destruct (se_store e !! id); simpl; try done; apply iter_sent_schedule.
Qed.

Lemma tickSend_room order due e store m :
  (forall l, order l ≡ₚ l) -> emitAll false due (se_store e, ∅) = Some (store, m) ->
  (length (se_sendCh e) + length due <= scaleSendQueueDepth)%nat ->
  tickSend sendmmsg WriteTo false order due e
  = Some (set_queue (se_sendCh e ++ jobsOf (order (map_to_list m))) (se_busy e) (set_store store e)).
Proof.
  intros Hord Hem Hl. unfold tickSend. destruct due as [|id due].
  - simpl in Hem. simplify_eq. rewrite map_to_list_empty. rewrite (proj1 (Permutation_nil_r _) (Hord [])).
    unfold jobsOf. simpl. rewrite app_nil_r. by destruct e.
  - rewrite Hem. f_equal. rewrite handAll_room; [done|]. pose proof (jobsOf_count (order (map_to_list m))) as Hj.
    apply emitAll_total in Hem. rewrite map_to_list_empty in Hem.
    assert (totalMsgs (order (map_to_list m)) = totalMsgs (map_to_list m)) by (unfold totalMsgs; by rewrite Hord).
    simpl in *. lia.
Qed.


End Tick.

(** ** Runs of the engine *)

(** The stored streams never disappear. *)
Definition keeps (e e' : engine) : Prop := forall id, is_Some (se_store e !! id) -> is_Some (se_store e' !! id).

Lemma keeps_store e e' : se_store e' = se_store e -> keeps e e'.
Proof. intros E id. by rewrite E. Qed.

Lemma keeps_sim e e' : sim_store (se_store e) (se_store e') -> keeps e e'.
Proof. intros H id [s E]. destruct (sim_lookup_r _ _ _ _ H E) as (s' & -> & _). eauto. Qed.

Lemma foldl_store {A} (f : engine -> A -> engine) l e :
  (forall e a, sim_store (se_store e) (se_store (f e a))) -> sim_store (se_store e) (se_store (foldl f e l)).
Proof. intros H. revert e. induction l as [|a l IH]; intros e; simpl; [done|]. etrans; [apply (H e a)|apply IH]. Qed.

Lemma foldl_same {A} (f : engine -> A -> engine) l e :
  (forall e a, se_store (f e a) = se_store e /\ (Inv e -> Inv (f e a))) ->
  se_store (foldl f e l) = se_store e /\ (Inv e -> Inv (foldl f e l)).
Proof.
  intros H. revert e. induction l as [|a l IH]; intros e; simpl; [done|]. destruct (H e a) as [E I].
  destruct (IH (f e a)) as [E' I']. split; [congruence|auto].
Qed.

Section Runs.

Context (Marshal : rtp_packet -> option str).
Context (sendmmsg : nat -> list (str * Z * str) -> option nat) (WriteTo : nat -> str * Z -> str -> bool).

Notation order_of_sockets := (list (nat * list udpSendMsg) -> list (nat * list udpSendMsg)).

(** The engine and the list of due streams that the scheduler holds between the
    two stages of a tick. *)
Inductive sstep : engine * list Z -> engine * list Z -> Prop :=
  | SRun e d : sstep (e, d) (Run e, d)
  | SStop e : sstep (e, []) (Stop e, [])
  | SRegister ListenUDP now callID ip port cfg localIP localPort e e' d :
      se_nextID e < 2 ^ 64 - 1 -> (forall a p c, ListenUDP a p = Some c -> c ∉ se_open e) ->
      RegisterStream Marshal ListenUDP now callID ip port cfg localIP localPort e = Ok e' -> sstep (e, d) (e', d)
  | SUnregister callID e d : sstep (e, d) ((UnregisterCall callID e).2, d)
  | SPause callID e d : sstep (e, d) (PauseCall callID e, d)
  | SResume now callID e d : sstep (e, d) (ResumeCall now callID e, d)
  | SPop now e due e' : se_scheduling e = true -> tickPop now e = Some (due, e') -> sstep (e, []) (e', due)
  | SSend direct (order : order_of_sockets) due e e' :
      tickSend sendmmsg WriteTo direct order due e = Some e' -> sstep (e, due) (e', [])
  | STake w e d : sstep (e, d) (takeJob w e, d)
  | SSendJob w e d : sstep (e, d) (sendJob sendmmsg WriteTo w e, d).

Lemma sendInline_same c b e :
  se_store (sendInline sendmmsg WriteTo c b e) = se_store e /\ (Inv e -> Inv (sendInline sendmmsg WriteTo c b e)).
Proof.
  unfold sendInline, addSent, onWire. destruct (udpSendBatch _ _ _ _) as [n ok].
  destruct (n =? 0)%nat; (split; [done|]); intros I; by eapply Inv_view; [..|exact I].
Qed.

Lemma handOver_same direct c e b :
  se_store (handOver sendmmsg WriteTo direct c e b) = se_store e
  /\ (Inv e -> Inv (handOver sendmmsg WriteTo direct c e b)).
Proof.
  unfold handOver. destruct direct; [apply sendInline_same|]. destruct (_ <? _)%nat; [|apply sendInline_same].
  split; [done|]. intros I. by eapply Inv_view; [..|exact I].
Qed.

Lemma sendJob_same w e :
  se_store (sendJob sendmmsg WriteTo w e) = se_store e /\ (Inv e -> Inv (sendJob sendmmsg WriteTo w e)).
Proof.
  unfold sendJob, addSent, onWire. destruct (se_busy e !! w); [|done]. destruct (udpSendBatch _ _ _ _) as [n ok].
  destruct ok, (n =? 0)%nat; (split; [done|]); intros I; by eapply Inv_view; [..|exact I].
Qed.

Lemma emitAll_sim direct : forall due store m store' m',
  emitAll direct due (store, m) = Some (store', m') ->
  forall id, exists n, store' !! id = Nat.iter n sent <$> store !! id.
Proof.
  induction due as [|x due IH]; intros store m store' m' H id; cbn [emitAll] in H.
  - simplify_eq. exists O. by destruct (store' !! id).
  - unfold emit in H. destruct (store !! x) as [st|] eqn:Ex; [|done]. destruct (if direct then _ else _); [|done].
    destruct (IH _ _ _ _ H id) as [n Hn]. destruct (decide (id = x)) as [-> | Hne].
    + exists (S n). rewrite Hn, lookup_insert_eq, Ex. cbn [fmap option_fmap option_map]. by rewrite Nat.iter_succ_r.
    + exists n. by rewrite Hn, lookup_insert_ne.
Qed.

Lemma tickSend_inv direct order due e e' :
  Inv e -> tickSend sendmmsg WriteTo direct order due e = Some e' -> Inv e' /\ keeps e e'.
Proof.
  intros I. unfold tickSend. destruct due as [|x due]; [intros [= <-]; split; [done|by apply keeps_store]|].
  destruct (emitAll _ _ _) as [[store m]|] eqn:E; [|done]. intros [= <-]. pose proof (emitAll_sim _ _ _ _ _ _ E) as Hs.
  destruct (foldl_same (handConn sendmmsg WriteTo direct) (order (map_to_list m)) (set_store store e)) as [Es Is].
  { intros e0 [c ms]. apply foldl_same. intros. apply handOver_same. }
  split; [by apply Is, tick_state|]. intros id [s Eid]. rewrite Es. simpl. destruct (Hs id) as [n ->].
  rewrite Eid. eauto.
Qed.

Lemma tickPop_inv now e due e' :
  Inv e -> tickPop now e = Some (due, e') ->
  Inv e' /\ keeps e e' /\ forall id, id ∈ due -> is_Some (se_store e' !! id).
Proof.
  intros I H. unfold tickPop in H. destruct (popDue_ok now (dueTotal now e) e [] I ltac:(done)) as (due' & e1 & Hp & I1 & _ & Ha & Hc).
  rewrite Hp in H. simplify_eq. assert (keeps e e') as Hk.
  { intros id [s E]. rewrite (Ha id), E. case_bool_decide; eauto. }
  split_and!; [done|done|]. intros id Hid. apply Hk. apply list_elem_of_In, (count_occ_In Z.eq_dec) in Hid. rewrite Hc in Hid.
  simpl in Hid. unfold duePackets in Hid. case_bool_decide; [|lia]. destruct (se_store e !! id); [eauto|lia].
Qed.

Context (Marshal_wire : forall p b, Marshal p = Some b -> rtp_marker p = false -> b = rtp_wire p).

Definition run_ok (x : engine * list Z) : Prop := Inv x.1 /\ forall id, id ∈ x.2 -> is_Some (se_store x.1 !! id).

Lemma sstep_ok x y : sstep x y -> run_ok x -> run_ok y.
Proof.
  intros Hs [I D]. assert (forall e', Inv e' -> keeps x.1 e' -> run_ok (e', x.2)) as Hk.
  { intros e' I' K. split; [done|]. intros id Hid. by apply K, D. }
  destruct Hs; cbn [fst snd] in *; try apply Hk.
  - by apply Run_inv.
  - apply keeps_store. unfold Run. by destruct (se_started e).
  - by apply Stop_inv.
  - by apply keeps_store.
  - by eapply RegisterStream_ok.
  - destruct (RegisterStream_ok Marshal ListenUDP Marshal_wire _ _ _ _ _ _ _ _ _ I H H0 H1) as (_ & _ & id & s & _ & _ & E & _).
    intros x. rewrite E. destruct (decide (x = id)) as [-> | Hne]; [by rewrite lookup_insert_eq|by rewrite lookup_insert_ne].
  - by apply UnregisterCall_ok.
  - by apply keeps_store, UnregisterCall_ok.
  - by apply PauseCall_inv.
  - apply keeps_sim, foldl_store, pauseOne_sim.
  - by apply ResumeCall_inv.
  - apply keeps_sim, foldl_store, resumeOne_sim.
  - destruct (tickPop_inv _ _ _ _ I H0) as (I' & _ & D'). by split.
  - destruct (tickSend_inv _ _ _ _ _ I H) as [I' _]. split; [done|]. simpl. set_solver.
  - unfold takeJob. destruct (se_busy e !! w); [done|]. destruct (se_sendCh e); [done|]. by eapply Inv_view; [..|exact I].
  - apply keeps_store. unfold takeJob. destruct (se_busy e !! w); [done|]. by destruct (se_sendCh e).
  - by apply sendJob_same.
  - apply keeps_store, sendJob_same.
Qed.

Lemma emitAll_runs : forall due store m,
  (forall id, id ∈ due -> exists s, store !! id = Some s /\ good_stream s /\ small s) ->
  exists acc, emitAll false due (store, m) = Some acc.
Proof.
  induction due as [|x due IH]; intros store m H; [by eexists|]. cbn [emitAll].
  destruct (H x) as (s & Es & G & Sm); [set_solver|]. unfold emit. rewrite Es, sent_buffer, alloc_small by done.
  cbn [fmap option_fmap option_map]. apply IH. intros id Hid. destruct (decide (id = x)) as [-> | Hne].
  - rewrite lookup_insert_eq. exists (sent s). split_and!; [done|by apply good_sent|done].
  - rewrite lookup_insert_ne by done. apply H. set_solver.
Qed.

(** Whatever the order in which calls register, pause, resume and unregister
    their streams, and workers and scheduler take their steps, the heap is
    ordered, holds exactly the registered streams, and every stream knows its
    position; a tick can always be started and ends, and as long as packets fit
    the pool its second stage succeeds, though the streams it found due may be
    gone by then. *)
Theorem scale_engine_invariant e due :
  rtc sstep (NewScaleEngine, []) (e, due) ->
  Inv e
  /\ (forall now, exists due' e', tickPop now e = Some (due', e'))
  /\ (forall order, (forall id s, se_store e !! id = Some s -> small s) ->
       exists e', tickSend sendmmsg WriteTo false order due e = Some e').
Proof.
  intros Hr. assert (run_ok (e, due)) as [I D].
  { remember (NewScaleEngine, []) as x eqn:Ex. remember (e, due) as y eqn:Ey. clear Ey.
    assert (run_ok x) as Hx by (subst x; split; [apply Inv_new|]; simpl; set_solver). clear Ex.
    induction Hr; eauto using sstep_ok. }
  simpl in I, D. split_and!; [done|..].
  - intros now. destruct (popDue_ok now (dueTotal now e) e [] I ltac:(done)) as (due' & e' & Hp & _). eauto.
  - intros order Hsm. unfold tickSend. destruct due as [|x due]; [eauto|].
    destruct (emitAll_runs (x :: due) (se_store e) ∅) as [[store m] ->]; [|eauto].
    intros id Hid. destruct (D id Hid) as [s Es]. pose proof (inv_good e I id s Es). eauto.
Qed.

End Runs.

(** ** Examples *)

Definition pcmu (name : string) (samples : Z) : StreamConfig :=
  withPayload (lit name) 0 8000 samples (20 * millisecond) (withTail 1 true 0 0 [] (DefaultConfig (7, 65535, 4294967200) [])).

Definition marshalled (p : rtp_packet) : option str := Some (rtp_wire p).
Definition socketOne (ip : option str) (port : Z) : option nat := Some 1%nat.

Definition started : engine := Run NewScaleEngine.

Definition registered (cfg : StreamConfig) : result register_error engine :=
  RegisterStream marshalled socketOne 0 (lit "call") (lit "10.0.0.2") 4000 cfg [] 0 started.

Definition registeredOr (cfg : StreamConfig) : engine :=
  match registered cfg with Ok e => e | Err _ => NewScaleEngine end.

Definition demoEngine : engine := registeredOr (pcmu "PCMU/8000" 160).

Lemma demo_inv cfg : registered cfg = Ok (registeredOr cfg) -> Inv (registeredOr cfg).
Proof.
  intros H. eapply (RegisterStream_ok marshalled socketOne); [..|exact H].
  - by intros p b [= <-] _.
  - apply Run_inv, Inv_new.
  - done.
  - intros a p c _. simpl. set_solver.
Qed.

Lemma demo_register : registered (pcmu "PCMU/8000" 160) = Ok demoEngine.
Proof. vm_compute. reflexivity. Qed.


Lemma scale_engine_invariant_witness :
  exists e, rtc (sstep marshalled (fun _ l => Some (length l)) (fun _ _ _ => true)) (NewScaleEngine, []) (e, [])
    /\ size (se_streams e) = 1%nat
    /\ Inv e
    /\ (forall now, exists due' e', tickPop now e = Some (due', e'))
    /\ (forall order, (forall id s, se_store e !! id = Some s -> small s) ->
         exists e', tickSend (fun _ l => Some (length l)) (fun _ _ _ => true) false order [] e = Some e').
Proof.
  assert (rtc (sstep marshalled (fun _ l => Some (length l)) (fun _ _ _ => true)) (NewScaleEngine, []) (demoEngine, [])) as R.
  { eapply rtc_l; [apply SRun|]. eapply rtc_l; [|apply rtc_refl].
    eapply SRegister; [| |exact demo_register]; [done|]. intros a p c _. simpl. set_solver. }
  exists demoEngine. split; [exact R|]. split; [vm_compute; reflexivity|].
  apply (scale_engine_invariant marshalled (fun _ l => Some (length l)) (fun _ _ _ => true)); [|exact R].
  by intros p b [= <-] _.
Defined.

(** The three packets of the first 45 milliseconds: the sequence number and the
    timestamp wrap around. *)
Example demo_packets :
  match tick (fun _ l => Some (length l)) (fun _ _ _ => true) false (fun l => l) (45 * millisecond) demoEngine with
  | Some e => map (fun m => (get_be (take 2 (drop 2 (msg_bytes ∅ m))), get_be (take 4 (drop 4 (msg_bytes ∅ m)))))
                (concat (map sj_msgs (se_sendCh e)))
  | None => []
  end = [(65535, 4294967200); (0, 64); (1, 224)].
Proof. vm_compute. reflexivity. Qed.

(** ** What goes wrong *)

(** A stopped engine cannot be started again, and still accepts streams, which
    no scheduler will ever serve. *)
Theorem stopped_engine_accepts Marshal ListenUDP now callID ip port cfg localIP localPort e :
  se_started e = true ->
  se_scheduling (Run (Stop e)) = false
  /\ RegisterStream Marshal ListenUDP now callID ip port cfg localIP localPort (Stop e) <> Err NotRunning.
Proof.
  intros H. split; [unfold Run; simpl; by rewrite H|]. unfold RegisterStream.
  assert (se_started (Stop e) = true) as -> by done.
  repeat case_goal; try done; intros [=].
Qed.

(** In direct mode a stream that is due twice in one tick sends its second
    packet twice: both messages refer to one buffer. *)
Theorem direct_send_repeats :
  match tick (fun _ l => Some (length l)) (fun _ _ _ => true) true (fun l => l) (25 * millisecond) demoEngine with
  | Some e => map (fun d => get_be (take 2 (drop 2 (dg_bytes d)))) (se_wire e)
  | None => []
  end = [0; 0].
Proof. vm_compute. reflexivity. Qed.

(** A packet that does not fit a buffer of the pool ends the program. *)
Theorem long_packet_panics :
  tick (fun _ l => Some (length l)) (fun _ _ _ => true) false (fun l => l) 0 (registeredOr (pcmu "L16/96000" 2400)) = None
  /\ registered (pcmu "L16/96000" 2400) = Ok (registeredOr (pcmu "L16/96000" 2400)).
Proof. split; vm_compute; reflexivity. Qed.

(** What the system call did not take is dropped: no one sends the rest. *)
Theorem short_batch_lost :
  match tick (fun _ _ => Some 1%nat) (fun _ _ _ => true) false (fun l => l) (45 * millisecond) demoEngine with
  | Some e => let e := sendJob (fun _ _ => Some 1%nat) (fun _ _ _ => true) 0 (takeJob 0 e) in
              (length (se_wire e), length (se_sendCh e), size (se_busy e), Snapshot e)
  | None => (9%nat, 9%nat, 9%nat, (0, 0))
  end = (1%nat, 0%nat, 0%nat, (1, 160)).
Proof. vm_compute. reflexivity. Qed.

(** A worker whose batch fails after a datagram does not count that datagram;
    the scheduler, on the same outcome, does. *)
Theorem worker_does_not_count :
  let fail := fun (_ : nat) (_ : str * Z) (b : str) => get_be (take 2 (drop 2 b)) =? 65535 in
  let none := fun (_ : nat) (_ : list (str * Z * str)) => None in
  match tick none fail false (fun l => l) (45 * millisecond) demoEngine with
  | Some e => let e := sendJob none fail 0 (takeJob 0 e) in (length (se_wire e), fst (Snapshot e))
  | None => (9%nat, 0)
  end = (1%nat, 0).
Proof. vm_compute. reflexivity. Qed.

(** [UnregisterCall] counts a sample as an octet, [Snapshot] counts the octets
    of the payload. *)
Theorem octets_disagree :
  match tick (fun _ l => Some (length l)) (fun _ _ _ => true) true (fun l => l) 0 (registeredOr (pcmu "OPUS/48000" 960)) with
  | Some e => (snd (Snapshot e), snd (fst (UnregisterCall (lit "call") e)))
  | None => (0, 0)
  end = (3, 960).
Proof. vm_compute. reflexivity. Qed.

(** Two workers may send the batches of a socket in the other order. *)
Theorem workers_reorder :
  let net := fun (_ : nat) (l : list (str * Z * str)) => Some (length l) in
  let ok := fun (_ : nat) (_ : str * Z) (_ : str) => true in
  match tick net ok false (fun l => l) 0 demoEngine with
  | Some e =>
    match tick net ok false (fun l => l) (20 * millisecond) e with
    | Some e => map (fun d => get_be (take 2 (drop 2 (dg_bytes d))))
                  (se_wire (sendJob net ok 0 (sendJob net ok 1 (takeJob 1 (takeJob 0 e)))))
    | None => []
    end
  | None => []
  end = [0; 65535].
Proof. vm_compute. reflexivity. Qed.
