(* ===== verification/Xml.v ===== *)
(** * Reading XML

    Go's [encoding/xml], as far as [xml.Unmarshal] into the structures of
    [internal/scenario/parser.go] uses it: elements with their attributes, their
    raw inner text and their child elements, declarations, comments, directives,
    CDATA sections and character entities, in strict mode.  Names are ASCII: a
    byte above 127 ends a name here.  The reader recurses on fuel, and the length
    of the document is enough, since every call consumes a byte. *)

From stdpp Require Import base list strings.
From Stdlib Require Import ZArith Lia Strings.Byte.
From S2P Require Import Prelude GoStrings.

Inductive xml_error := XFuel | XEof | XSyntax (what : string) | XEncoding | XVersion | XRoot (name : str).

(** An element: its name as written, its attributes with their local names, the
    text between its tags, the elements inside. *)
Inductive xelem := XElem (name : str) (attrs : list (str * str)) (inner : str) (children : list xelem).

Definition xe_name (e : xelem) : str := match e with XElem n _ _ _ => n end.
Definition xe_attrs (e : xelem) : list (str * str) := match e with XElem _ a _ _ => a end.
Definition xe_inner (e : xelem) : str := match e with XElem _ _ i _ => i end.
Definition xe_children (e : xelem) : list xelem := match e with XElem _ _ _ c => c end.

(** ** Characters *)

Definition xspace (b : byte) : bool := beqb b x20 || beqb b x0d || beqb b x0a || beqb b x09.

Fixpoint skipSpace (s : str) : str :=
  match s with
  | b :: s' => if xspace b then skipSpace s' else s
  | [] => []
  end.

Definition nameStart (b : byte) : bool := in_range 65 90 b || in_range 97 122 b || beqb b x5f || beqb b x3a.
Definition nameByte (b : byte) : bool := nameStart b || in_range 48 57 b || beqb b x2e || beqb b x2d.

Fixpoint span (p : byte -> bool) (s : str) : str * str :=
  match s with
  | b :: s' => if p b then let '(u, v) := span p s' in (b :: u, v) else ([], s)
  | [] => ([], [])
  end.

(** [Decoder.name] *)
Definition readName (s : str) : option (str * str) :=
  let '(n, rest) := span nameByte s in
  match n with
  | b :: _ => if nameStart b then Some (n, rest) else None
  | [] => None
  end.

(** [Decoder.nsname]: the local part of a name; more than one colon is refused. *)
Definition localName (n : str) : option str :=
  if (1 <? length (filter (fun b => b = x3a) n))%nat then None
  else match Cut n x3a with
       | Some (space, local) => if bool_decide (space = []) || bool_decide (local = []) then Some n else Some local
       | None => Some n
       end.

(** [isInCharacterRange] *)
Definition xmlRune (r : Z) : bool :=
  (r =? 9) || (r =? 10) || (r =? 13) || ((32 <=? r) && (r <=? 55295)) || ((57344 <=? r) && (r <=? 65533))
  || ((65536 <=? r) && (r <=? 1114111)).

(** Valid UTF-8, of characters that XML allows *)
Fixpoint xmlText (s : str) : bool :=
  match s with
  | [] => true
  | a :: r1 =>
    if b2z a <? 128 then xmlRune (b2z a) && xmlText r1
    else
      match r1 with
      | b :: r2 =>
        if utf8_2 a b then xmlText r2
        else
          match r2 with
          | c :: r3 =>
            if utf8_3 a b c then xmlRune ((b2z a mod 16) * 4096 + (b2z b mod 64) * 64 + b2z c mod 64) && xmlText r3
            else
              match r3 with
              | d :: r4 => if utf8_4 a b c d then xmlText r4 else false
              | [] => false
              end
          | [] => false
          end
      | [] => false
      end
  end.

(** ** Text with entities ([Decoder.text]) *)

Definition hex_val (b : byte) : option Z :=
  if in_range 48 57 b then Some (b2z b - 48)
  else if in_range 97 102 b then Some (b2z b - 87)
  else if in_range 65 70 b then Some (b2z b - 55) else None.

Fixpoint digits (base : Z) (acc : Z) (s : str) : option Z :=
  match s with
  | [] => Some acc
  | b :: s =>
    match hex_val b with
    | Some d => if d <? base then digits base (acc * base + d) s else None
    | None => None
    end
  end.

(** A character by its number; a surrogate becomes the replacement character. *)
Definition charRef (base : Z) (s : str) : option str :=
  match s with
  | [] => None
  | _ =>
    match digits base 0 s with
    | Some r => if r <=? 1114111 then Some (encode_rune (if (55296 <=? r) && (r <=? 57343) then RuneError else r)) else None
    | None => None
    end
  end.

(** What an entity between [&] and [;] stands for *)
Definition entity (name : str) : option str :=
  if bool_decide (name = lit "lt") then Some [x3c]
  else if bool_decide (name = lit "gt") then Some [x3e]
  else if bool_decide (name = lit "amp") then Some [x26]
  else if bool_decide (name = lit "apos") then Some [x27]
  else if bool_decide (name = lit "quot") then Some [x22]
  else if HasPrefix name (lit "#x") then charRef 16 (drop 2 name)
  else if HasPrefix name (lit "#") then charRef 10 (drop 1 name)
  else None.

(** Entities replaced; [None] for one that is not known or not closed *)
Fixpoint unescape (fuel : nat) (s : str) : option str :=
  match fuel with
  | O => match s with [] => Some [] | _ => None end
  | S fuel =>
    match s with
    | [] => Some []
    | b :: s' =>
      if beqb b x26 then
        match Cut s' x3b with
        | Some (name, rest) =>
          match entity name, unescape fuel rest with
          | Some e, Some t => Some (e ++ t)
          | _, _ => None
          end
        | None => None
        end
      else option_map (cons b) (unescape fuel s')
    end
  end.

(** [\r\n] and [\r] become [\n] *)
Fixpoint newlines (s : str) : str :=
  match s with
  | [] => []
  | a :: r =>
    if beqb a x0d then
      x0a :: match r with b :: r' => if beqb b x0a then newlines r' else newlines r | [] => newlines r end
    else a :: newlines r
  end.

(** The value of an attribute, or the text between tags; an [&] that ends a text
    needs its [;] in it. *)
Definition readText (s : str) : option str :=
  match unescape (length s) (newlines s) with
  | Some t => if xmlText t then Some t else None
  | None => None
  end.

(** ** Tags *)

(** [Cut] around a string *)
Definition cutStr (s sep : str) : option (str * str) :=
  match Index s sep with
  | Some i => Some (take i s, drop (i + length sep) s)
  | None => None
  end.

(** The attributes of a start tag: [true] for a tag that also ends its element. *)
Fixpoint readAttrs (fuel : nat) (s : str) : result xml_error (list (str * str) * bool * str) :=
  match fuel with
  | O => Err XFuel
  | S fuel =>
    let s := skipSpace s in
    match s with
    | [] => Err XEof
    | b :: s' =>
      if beqb b x2f then
        match s' with
        | c :: rest => if beqb c x3e then Ok ([], true, rest) else Err (XSyntax "expected /> in element")
        | [] => Err XEof
        end
      else if beqb b x3e then Ok ([], false, s')
      else
        match readName s with
        | None => Err (XSyntax "expected attribute name in element")
        | Some (n, rest) =>
          match localName n, skipSpace rest with
          | None, _ => Err (XSyntax "expected attribute name in element")
          | Some _, [] => Err XEof
          | Some local, e :: rest =>
            if negb (beqb e x3d) then Err (XSyntax "attribute name without = in element")
            else
              match skipSpace rest with
              | [] => Err XEof
              | q :: rest =>
                if negb (beqb q x22 || beqb q x27) then Err (XSyntax "unquoted or missing attribute value in element")
                else
                  match Cut rest q with
                  | None => Err XEof
                  | Some (v, rest) =>
                    if bool_decide (x3c ∈ v) then Err (XSyntax "unescaped < inside quoted string")
                    else
                      match readText v with
                      | None => Err (XSyntax "invalid character entity")
                      | Some v => let? r := readAttrs fuel rest in
                                  let '(attrs, empty, rest) := r in Ok ((local, v) :: attrs, empty, rest)
                      end
                  end
              end
          end
        end
    end
  end.

(** After [</]: the name and what follows the tag *)
Definition readEnd (s : str) : result xml_error (str * str) :=
  match readName s with
  | None => Err (XSyntax "expected element name after </")
  | Some (n, rest) =>
    match skipSpace rest with
    | b :: rest => if beqb b x3e then Ok (n, rest) else Err (XSyntax "invalid characters between </name and >")
    | [] => Err XEof
    end
  end.

(** [procInst]: the value of a parameter of a declaration *)
Definition procInst (param content : str) : str :=
  match cutStr content (param ++ [x3d]) with
  | None => []
  | Some (_, v) =>
    match v with
    | q :: v => if beqb q x22 || beqb q x27 then match Cut v q with Some (u, _) => u | None => [] end else []
    | [] => []
    end
  end.

(** After [<?]: what follows; a declaration must be of version 1.0, in UTF-8. *)
Definition readInst (s : str) : result xml_error str :=
  match readName s with
  | None => Err (XSyntax "expected target name after <?")
  | Some (target, rest) =>
    match cutStr (skipSpace rest) (lit "?>") with
    | None => Err XEof
    | Some (content, rest) =>
      if bool_decide (target = lit "xml") then
        let ver := procInst (lit "version") content in
        let enc := procInst (lit "encoding") content in
        if negb (bool_decide (ver = []) || bool_decide (ver = lit "1.0")) then Err XVersion
        else if negb (bool_decide (enc = []) || EqualFold enc (lit "utf-8")) then Err XEncoding
        else Ok rest
      else Ok rest
    end
  end.

(** After [<!--]: the comment ends at the next [-->], and [--] may not come
    before. *)
Definition readComment (s : str) : result xml_error str :=
  match cutStr s (lit "--") with
  | None => Err XEof
  | Some (_, b :: rest) => if beqb b x3e then Ok rest else Err (XSyntax "-- in comment")
  | Some (_, []) => Err XEof
  end.

(** After [<!]: a directive ends at its [>], outside quotes and nested brackets. *)
Fixpoint readDirective (depth : nat) (quote : option byte) (s : str) : result xml_error str :=
  match s with
  | [] => Err XEof
  | b :: s =>
    match quote with
    | Some q => readDirective depth (if beqb b q then None else quote) s
    | None =>
      if beqb b x22 || beqb b x27 then readDirective depth (Some b) s
      else if beqb b x3c then readDirective (S depth) None s
      else if beqb b x3e then match depth with O => Ok s | S d => readDirective d None s end
      else readDirective depth None s
    end
  end.

(** A markup that is not a tag: a declaration, comment, CDATA section or
    directive; [None] when the text begins otherwise. *)
Definition readMisc (s : str) : option (result xml_error str) :=
  if HasPrefix s (lit "<?") then Some (readInst (drop 2 s))
  else if HasPrefix s (lit "<!--") then Some (readComment (drop 4 s))
  else if HasPrefix s (lit "<![CDATA[") then
    Some (match cutStr (drop 9 s) (lit "]]>") with
          | None => Err XEof
          | Some (t, rest) => if xmlText t then Ok rest else Err (XSyntax "illegal character code")
          end)
  else if HasPrefix s (lit "<!") then Some (readDirective 0 None (drop 2 s))
  else None.

(** The text before the next markup *)
Definition readChars (s : str) : result xml_error str :=
  let '(t, rest) := span (fun b => negb (beqb b x3c)) s in
  if Contains t (lit "]]>") then Err (XSyntax "unescaped ]]> not in CDATA section")
  else match readText t with None => Err (XSyntax "invalid character entity") | Some _ => Ok rest end.

(** A start tag, after its [<] *)
Definition readStart (s : str) : result xml_error (str * list (str * str) * bool * str) :=
  match readName s with
  | None => Err (XSyntax "expected element name after <")
  | Some (n, rest) =>
    match localName n with
    | None => Err (XSyntax "expected element name after <")
    | Some _ => let? r := readAttrs (S (length rest)) rest in let '(attrs, empty, rest) := r in Ok (n, attrs, empty, rest)
    end
  end.

(** The elements up to the end tag of their parent, which is left *)
Fixpoint readContent (fuel : nat) (s : str) : result xml_error (list xelem * str) :=
  match fuel with
  | O => Err XFuel
  | S fuel =>
    match s with
    | [] => Err XEof
    | b :: s1 =>
      if negb (beqb b x3c) then let? rest := readChars s in readContent fuel rest
      else if HasPrefix s (lit "</") then Ok ([], s)
      else
        match readMisc s with
        | Some r => let? rest := r in readContent fuel rest
        | None =>
          let? r := readElem fuel s1 in
          let '(e, rest) := r in
          let? r := readContent fuel rest in
          let '(es, rest) := r in Ok (e :: es, rest)
        end
    end
  end

(** An element, after its [<] *)
with readElem (fuel : nat) (s : str) : result xml_error (xelem * str) :=
  match fuel with
  | O => Err XFuel
  | S fuel =>
    let? r := readStart s in
    let '(n, attrs, empty, rest) := r in
    if empty : bool then Ok (XElem n attrs [] [], rest)
    else
      let? r := readContent fuel rest in
      let '(children, rest1) := r in
      let? r := readEnd (drop 2 rest1) in
      let '(n', rest2) := r in
      if bool_decide (n = n') then Ok (XElem n attrs (take (length rest - length rest1) rest) children, rest2)
      else Err (XSyntax "element closed by another")
  end.

(** [Unmarshal]: the first element of the document *)
Fixpoint readRoot (fuel : nat) (s : str) : result xml_error xelem :=
  match fuel with
  | O => Err XFuel
  | S fuel =>
    match s with
    | [] => Err XEof
    | b :: s1 =>
      if negb (beqb b x3c) then let? rest := readChars s in readRoot fuel rest
      else
        match readMisc s with
        | Some r => let? rest := r in readRoot fuel rest
        | None => let? r := readElem (S (length s)) s1 in Ok r.1
        end
    end
  end.

Definition Unmarshal (s : str) : result xml_error xelem := readRoot (S (length s)) s.

(** ** The fuel is enough *)

Lemma skipSpace_length s : (length (skipSpace s) <= length s)%nat.
Proof. induction s as [|b s IH]; simpl; [done|]. destruct (xspace b); simpl; lia. Qed.

Lemma span_length p s : (length (span p s).1 + length (span p s).2 = length s)%nat.
Proof. induction s as [|b s IH]; simpl; [done|]. destruct (p b); [|done]. destruct (span p s). simpl in *. lia. Qed.

Lemma readName_length s n rest : readName s = Some (n, rest) -> (length rest < length s)%nat.
Proof.
  unfold readName. pose proof (span_length nameByte s) as H. destruct (span nameByte s) as [u v]. simpl in H.
  destruct u as [|b u]; [done|]. destruct (nameStart b); [|done]. intros [= <- <-]. simpl in H. lia.
Qed.

Lemma Cut_length c s u v : Cut s c = Some (u, v) -> (length v < length s)%nat.
Proof.
  revert u v. induction s as [|b s IH]; intros u v; simpl; [done|]. destruct (beqb b c); [intros [= <- <-]; lia|].
  destruct (Cut s c) as [[u' v']|] eqn:E; [|done]. intros [= <- <-]. specialize (IH _ _ eq_refl). lia.
Qed.

Lemma cutStr_length s sep u v : cutStr s sep = Some (u, v) -> (length v <= length s)%nat.
Proof. unfold cutStr. destruct (Index s sep); [|done]. intros [= <- <-]. rewrite length_drop. lia. Qed.

(** A reader that never runs out of fuel, and leaves less than it was given *)
Definition consumes {A} (n : nat) (rest : A -> str) (r : result xml_error A) : Prop :=
  match r with Ok a => (length (rest a) < n)%nat | Err e => e <> XFuel end.

Lemma readAttrs_ok : forall fuel s, (length s < fuel)%nat -> consumes (length s) snd (readAttrs fuel s).
Proof.
  induction fuel as [|fuel IH]; intros s Hf; [lia|]. cbn [readAttrs]. pose proof (skipSpace_length s) as Hs.
  destruct (skipSpace s) as [|b s'] eqn:Es; [done|]. simpl in Hs.
  destruct (beqb b x2f); [destruct s' as [|c rest]; [done|]; destruct (beqb c x3e); [simpl in *; lia|done]|].
  destruct (beqb b x3e); [simpl; lia|]. destruct (readName (b :: s')) as [[n rest]|] eqn:En; [|done].
  apply readName_length in En. simpl in En. destruct (localName n); [|by destruct (skipSpace rest)].
  pose proof (skipSpace_length rest). destruct (skipSpace rest) as [|e rest1]; [done|]. destruct (negb (beqb e x3d)); [done|].
  pose proof (skipSpace_length rest1). destruct (skipSpace rest1) as [|q rest2]; [done|]. destruct (negb _); [done|].
  destruct (Cut rest2 q) as [[v rest3]|] eqn:Ec; [|done]. apply Cut_length in Ec. case_bool_decide; [done|].
  destruct (readText v); [|done]. simpl in *. specialize (IH rest3 ltac:(lia)).
  destruct (readAttrs fuel rest3) as [[[attrs empty] r]|]; simpl in *; [lia|done].
Qed.

Lemma readStart_ok s : consumes (length s) snd (readStart s).
Proof.
  unfold readStart. destruct (readName s) as [[n rest]|] eqn:En; [|done]. apply readName_length in En.
  destruct (localName n); [|done]. pose proof (readAttrs_ok (S (length rest)) rest ltac:(lia)) as H.
  destruct (readAttrs _ rest) as [[[attrs empty] r]|]; simpl in *; [lia|done].
Qed.

Lemma readEnd_ok s : consumes (length s) snd (readEnd s).
Proof.
  unfold readEnd. destruct (readName s) as [[n rest]|] eqn:En; [|done]. apply readName_length in En.
  pose proof (skipSpace_length rest). destruct (skipSpace rest) as [|b r]; [done|]. destruct (beqb b x3e); simpl in *; [lia|done].
Qed.

Lemma readDirective_ok : forall s depth quote, consumes (S (length s)) id (readDirective depth quote s).
Proof.
  induction s as [|b s IH]; intros depth quote; [done|]. cbn [readDirective].
  assert (forall d q, consumes (S (length (b :: s))) id (readDirective d q s)) as H.
  { intros d q. specialize (IH d q). destruct (readDirective d q s); simpl in *; [unfold id in *; lia|done]. }
  destruct quote; [apply H|]. destruct (_ || _); [apply H|]. destruct (beqb b x3c); [apply H|].
  destruct (beqb b x3e); [|apply H]. destruct depth; [simpl; unfold id; lia|apply H].
Qed.

Lemma HasPrefix_length s p : HasPrefix s p = true -> (length p <= length s)%nat.
Proof.
  revert s. induction p as [|x p IH]; intros [|y s]; simpl; try done; try lia. intros [_ H]%andb_true_iff.
  specialize (IH s H). lia.
Qed.

Lemma readMisc_ok s r : readMisc s = Some r -> consumes (length s) id r.
Proof.
  unfold readMisc. destruct (HasPrefix s (lit "<?")) eqn:E1; [|destruct (HasPrefix s (lit "<!--")) eqn:E2;
    [|destruct (HasPrefix s (lit "<![CDATA[")) eqn:E3; [|destruct (HasPrefix s (lit "<!")) eqn:E4; [|done]]]];
    intros [= <-]; match goal with H : HasPrefix s _ = true |- _ => apply HasPrefix_length in H; simpl in H end.
  - unfold readInst. destruct (readName (drop 2 s)) as [[t rest]|] eqn:En; [|done]. apply readName_length in En.
    rewrite length_drop in En. pose proof (skipSpace_length rest).
    destruct (cutStr (skipSpace rest) (lit "?>")) as [[c r]|] eqn:Ec; [|done]. apply cutStr_length in Ec.
    repeat (case_bool_decide || destruct (negb _)); simpl; unfold id; done || lia.
  - unfold readComment. destruct (cutStr _ _) as [[c [|b r]]|] eqn:Ec; [done| |done]. apply cutStr_length in Ec.
    rewrite length_drop in Ec. simpl in Ec. destruct (beqb b x3e); simpl; unfold id; [lia|done].
  - destruct (cutStr _ _) as [[c r]|] eqn:Ec; [|done]. apply cutStr_length in Ec. rewrite length_drop in Ec.
    destruct (xmlText c); simpl; unfold id; [lia|done].
  - pose proof (readDirective_ok (drop 2 s) 0 None) as H. destruct (readDirective _ _ _); simpl in *; [|done].
    unfold id in *. rewrite length_drop in H. lia.
Qed.

Lemma readChars_ok b s : beqb b x3c = false -> consumes (length (b :: s)) id (readChars (b :: s)).
Proof.
  intros Hb. unfold readChars. cbn [span]. rewrite Hb. cbn [negb].
  pose proof (span_length (fun b => negb (beqb b x3c)) s) as H. destruct (span _ s) as [t rest]. simpl in H.
  destruct (Contains _ _); [done|]. destruct (readText _); simpl; unfold id; [lia|done].
Qed.

Lemma read_ok : forall fuel s,
  ((length s < fuel)%nat -> match readContent fuel s with
     | Ok (_, rest) => (length rest <= length s)%nat | Err e => e <> XFuel end)
  /\ ((length s < fuel)%nat -> consumes (length s) snd (readElem fuel s)).
Proof.
  induction fuel as [|fuel IH]; intros s; [lia|]. split; intros Hf.
  - cbn [readContent]. destruct s as [|b s1]; [done|]. destruct (beqb b x3c) eqn:Eb; cbn [negb].
    + destruct (HasPrefix _ _); [done|]. destruct (readMisc (b :: s1)) as [r|] eqn:Em.
      * apply readMisc_ok in Em. destruct r as [rest|]; simpl in *; [|done]. unfold id in *.
        pose proof (proj1 (IH rest) ltac:(lia)) as H. destruct (readContent fuel rest) as [[es r]|]; [lia|done].
      * simpl in Hf. pose proof (proj2 (IH s1) ltac:(lia)) as H. destruct (readElem fuel s1) as [[e rest]|]; simpl in *; [|done].
        pose proof (proj1 (IH rest) ltac:(lia)) as H1. destruct (readContent fuel rest) as [[es r]|]; simpl in *; [lia|done].
    + pose proof (readChars_ok b s1 Eb) as H. destruct (readChars (b :: s1)) as [rest|]; simpl in *; [|done]. unfold id in *.
      pose proof (proj1 (IH rest) ltac:(lia)) as H1. destruct (readContent fuel rest) as [[es r]|]; [lia|done].
  - cbn [readElem]. pose proof (readStart_ok s) as H. destruct (readStart s) as [[[[n attrs] empty] rest]|]; simpl in *; [|done].
    destruct empty; [simpl; lia|]. pose proof (proj1 (IH rest) ltac:(lia)) as H1.
    destruct (readContent fuel rest) as [[es r]|]; simpl in *; [|done].
    pose proof (readEnd_ok (drop 2 r)) as H2. rewrite length_drop in H2.
    destruct (readEnd (drop 2 r)) as [[n' r2]|]; simpl in *; [|done]. case_bool_decide; simpl; [lia|done].
Qed.

(** Reading a document always ends with an element or with an error of it. *)
Lemma Unmarshal_fuel s : Unmarshal s <> Err XFuel.
Proof.
  unfold Unmarshal. cut (forall fuel s, (length s < fuel)%nat -> readRoot fuel s <> Err XFuel); [intros H; apply H; lia|].
  induction fuel as [|fuel IH]; intros t Hf; [lia|]. cbn [readRoot]. destruct t as [|b s1]; [done|].
  destruct (beqb b x3c) eqn:Eb; cbn [negb].
  - destruct (readMisc (b :: s1)) as [r|] eqn:Em.
    + apply readMisc_ok in Em. destruct r as [rest|e]; simpl in *; [|congruence]. apply IH. unfold id in *. lia.
    + pose proof (proj2 (read_ok (S (length (b :: s1))) s1) ltac:(simpl; lia)) as H.
      destruct (readElem _ s1) as [[e rest]|]; simpl in *; congruence.
  - pose proof (readChars_ok b s1 Eb) as H. destruct (readChars (b :: s1)) as [rest|]; simpl in *; [|congruence].
    apply IH. unfold id in *. lia.
Qed.

(** ** Examples *)

Definition quoted (s : string) : str := map (fun b => if beqb b x60 then x22 else b) (lit s).

Example read_small :
  Unmarshal (quoted "<?xml version=`1.0`?><!-- c --><a x='1 &lt; 2' y=`q`>t<b/><![CDATA[<>&]]></a>")
  = Ok (XElem (lit "a") [(lit "x", lit "1 < 2"); (lit "y", lit "q")] (lit "t<b/><![CDATA[<>&]]>") [XElem (lit "b") [] [] []]).
Proof. vm_compute. reflexivity. Qed.

Example read_unclosed : Unmarshal (lit "<a><b></a>") = Err (XSyntax "element closed by another").
Proof. vm_compute. reflexivity. Qed.
