(* ===== verification/ScenarioXml.v ===== *)
(** * Scenario documents

    The part of [internal/scenario/parser.go] before the decoded elements of
    [Scenario]: the encoding of a document, the structures that [xml.Unmarshal]
    fills (by local name, the last of several attributes counts), [ParseString]
    and [ParseFile] on text. *)

From stdpp Require Import base list gmap strings.
From Stdlib Require Import ZArith Lia Strings.Byte.
From S2P Require Import Prelude GoStrings GoFloat Scenario SafePath Xml.

(** ** Encoding *)

(** The text after [encoding=] in the first declaration, from its quote on: the
    part before, the quote, the value and the rest *)
Definition sniffXMLDeclEncoding (data : str) : str :=
  match Index data (lit "?>") with
  | None => []
  | Some e =>
    let head := take (e + 2) data in
    match Index (ToLower head) (lit "encoding=") with
    | None => []
    | Some i =>
      match TrimSpace (drop (i + 9) head) with
      | [] => []
      | q :: rest =>
        if negb (beqb q x22 || beqb q x27) then []
        else match Cut rest q with None => [] | Some (v, _) => TrimSpace v end
      end
    end
  end.

Definition latin1Names : list str :=
  [lit "iso-8859-1"; lit "iso8859-1"; lit "latin-1"; lit "latin1"; lit "ibm819"; lit "cp819"; lit "csisolatin1"].

Definition isISO88591DeclEncoding (enc : str) : bool := bool_decide (ToLower (TrimSpace enc) ∈ latin1Names).

(** The new declaration is written over the old one: the value it replaces has
    at least the five letters of [UTF-8], so nothing is lost. *)
Definition rewriteXMLDeclEncodingToUTF8 (b : str) : str :=
  match Index b (lit "?>") with
  | None => b
  | Some e =>
    let pi := take (e + 2) b in
    match Index (ToLower pi) (lit "encoding=") with
    | None => b
    | Some i =>
      let rest := TrimSpace (drop (i + 9) pi) in
      if (length rest <? 3)%nat then b
      else
        match rest with
        | [] => b
        | q :: valPart =>
          if negb (beqb q x22 || beqb q x27) then b
          else
            match Cut valPart q with
            | None => b
            | Some (v, suffix) =>
              if negb (isISO88591DeclEncoding v) then b
              else take (i + 9) pi ++ [q] ++ lit "UTF-8" ++ [q] ++ suffix ++ drop (e + 2) b
            end
        end
    end
  end.

(** ** Structures *)

Definition localOf (e : xelem) : str := default (xe_name e) (localName (xe_name e)).

(** The value of a field with an attribute tag *)
Definition attr (e : xelem) (name : string) : str :=
  default [] (last (omap (fun a => if bool_decide (a.1 = lit name) then Some a.2 else None) (xe_attrs e))).

Definition isAction (e : xelem) : bool := bool_decide (localOf e = lit "action").

Definition toActionItem (e : xelem) : rawActionItem :=
  mkRawActionItem (localOf e) (attr e "regexp") (attr e "search_in") (attr e "header") (attr e "variable")
    (attr e "variable2") (attr e "assign_to") (attr e "check_it") (attr e "check_it_inverse") (attr e "value")
    (attr e "compare") (attr e "message") (attr e "file") (attr e "key") (attr e "username") (attr e "password")
    (attr e "command") (attr e "int_cmd") (attr e "rtp_stream") (attr e "rtp_record") (attr e "rtpcheck")
    (attr e "play_pcap_audio") (attr e "play_pcap_video") (attr e "play_pcap_image") (attr e "send_dtmf")
    (attr e "host") (attr e "port") (attr e "protocol").

Definition toElement (e : xelem) : rawElement :=
  mkRawElement (localOf e) (xe_inner e) (attr e "next") (attr e "test") (attr e "chance") (attr e "condexec")
    (attr e "condexec_inverse") (attr e "counter") (attr e "display") (attr e "start_rtd") (attr e "rtd")
    (attr e "retrans") (attr e "request") (attr e "response") (attr e "regexp_match") (attr e "rrs")
    (attr e "optional") (attr e "timeout") (attr e "milliseconds") (attr e "id") (attr e "dest") (attr e "src")
    (map (fun a => map toActionItem (xe_children a)) (List.filter isAction (xe_children e)))
    (attr e "distribution") (attr e "mean") (attr e "stdev") (attr e "min") (attr e "max").

Definition toItem (e : xelem) : rawScenarioItem :=
  mkRawScenarioItem (toElement e) (attr e "variables")
    (map toElement (List.filter (fun c => negb (isAction c)) (xe_children e))).

Definition toScenario (e : xelem) : result xml_error rawScenario :=
  if bool_decide (localOf e = lit "scenario")
  then Ok (mkRawScenario (attr e "name") (attr e "webrtc") (map toItem (xe_children e)))
  else Err (XRoot (xe_name e)).

(** ** Parsing text *)

Inductive parse_text_error :=
  | UnsupportedEncoding (enc : str) | BadLatin1 | BadXML (e : xml_error) | BadScenario (e : scenario_error).

Section Text.

(** [charmap.ISO8859_1.NewDecoder().Bytes] of golang.org/x/text, and
    [regexp.Compile] *)
Context (Latin1Bytes : str -> option str) (compiles : str -> bool).

Definition scenarioXMLToUTF8 (data : str) : result parse_text_error str :=
  let data := TrimPrefix data [xef; xbb; xbf] in
  let enc := TrimSpace (sniffXMLDeclEncoding data) in
  if bool_decide (ToLower enc ∈ [[]; lit "utf-8"; lit "utf8"]) then Ok data
  else if negb (isISO88591DeclEncoding enc) then Err (UnsupportedEncoding enc)
  else match Latin1Bytes data with
       | None => Err BadLatin1
       | Some out => Ok (rewriteXMLDeclEncodingToUTF8 out)
       end.

Definition xmlDecodeScenario (data : str) : result parse_text_error rawScenario :=
  let? out := scenarioXMLToUTF8 data in
  match Unmarshal out with
  | Err e => Err (BadXML e)
  | Ok root => match toScenario root with Ok raw => Ok raw | Err e => Err (BadXML e) end
  end.

Definition ParseText (data : str) : result parse_text_error Scenario :=
  let? raw := xmlDecodeScenario data in
  match Scenario.ParseString compiles raw with Ok sc => Ok sc | Err e => Err (BadScenario e) end.

Definition withBasePath (p : str) (sc : Scenario) : Scenario :=
  mkScenario (sc_Name sc) p (sc_Mode sc) (sc_WebRTC sc) (sc_Commands sc) (sc_InitCommands sc)
    (sc_Labels sc) (sc_InitLabels sc) (sc_GlobalVariables sc) (sc_UserVariables sc) (sc_References sc).

(** [ParseFile], on the content of the file *)
Definition ParseFile (path content : str) : result parse_text_error Scenario :=
  let? sc := ParseText content in Ok (withBasePath (Dir path) sc).

End Text.

(** ** What a parsed document satisfies *)

Section TextFacts.

Context (Latin1Bytes : str -> option str) (compiles : str -> bool).

Lemma ParseText_ok data sc :
  ParseText Latin1Bytes compiles data = Ok sc ->
  exists out root raw, scenarioXMLToUTF8 Latin1Bytes data = Ok out /\ Unmarshal out = Ok root
    /\ toScenario root = Ok raw /\ Scenario.ParseString compiles raw = Ok sc.
Proof.
  unfold ParseText, xmlDecodeScenario. intros H. apply rbind_ok in H as (raw & H & Hp).
  apply rbind_ok in H as (out & Ho & H). destruct (Unmarshal out) as [root|] eqn:Eu; [|done].
  destruct (toScenario root) as [raw'|] eqn:Et; [|done]. injection H as ->.
  destruct (Scenario.ParseString compiles raw) eqn:Ep; [|done]. injection Hp as ->. eauto 8.
Qed.

(** A document that is accepted gives a well-formed scenario, from text on. *)
Lemma ParseText_wf data sc : ParseText Latin1Bytes compiles data = Ok sc -> scenario_wf sc.
Proof. intros (out & root & raw & _ & _ & _ & H)%ParseText_ok. by eapply ParseString_wf. Qed.

End TextFacts.

(** ** Documents in Latin-1 *)

(** A document whose declaration names an encoding *)
Definition declared (enc body : str) : str :=
  quoted "<?xml version=`1.0` encoding=`" ++ enc ++ quoted "`?>" ++ body.

Section Latin1.

(** What the decoder of ISO 8859-1 documents: an ASCII byte stands for itself. *)
Context (Latin1Bytes : str -> option str) (compiles : str -> bool).
Context (Latin1_ascii : forall a b t, Forall (fun x => b2z x < 128) a -> Latin1Bytes b = Some t -> Latin1Bytes (a ++ b) = Some (a ++ t)).

Definition latin1Spelled : list str :=
  latin1Names ++ [lit "ISO-8859-1"; lit "ISO8859-1"; lit "Latin-1"; lit "Latin1"; lit "LATIN1"; lit "IBM819"; lit "CP819"].

Ltac each_spelling H :=
  repeat (apply elem_of_cons in H as [-> | H]; [vm_compute; (reflexivity || (repeat constructor))|]); by apply elem_of_nil in H.

Lemma declared_ascii enc :
  enc ∈ latin1Spelled -> Forall (fun x => b2z x < 128) (quoted "<?xml version=`1.0` encoding=`" ++ enc ++ quoted "`?>").
Proof. intros He. each_spelling He. Qed.

Lemma declared_sniff enc body : enc ∈ latin1Spelled -> TrimSpace (sniffXMLDeclEncoding (declared enc body)) = enc.
Proof. intros He. each_spelling He. Qed.

Lemma declared_rewrite enc t : enc ∈ latin1Spelled -> rewriteXMLDeclEncodingToUTF8 (declared enc t) = declared (lit "UTF-8") t.
Proof. intros He. each_spelling He. Qed.

Lemma spelled_latin1 enc :
  enc ∈ latin1Spelled ->
  bool_decide (ToLower enc ∈ [[]; lit "utf-8"; lit "utf8"]) = false /\ isISO88591DeclEncoding enc = true.
Proof. intros He. split; each_spelling He. Qed.

(** The declaration of a converted document says UTF-8, so that the XML reader
    accepts it, and the rest of the document is the converted rest. *)
Theorem latin1_document enc body t :
  enc ∈ latin1Spelled -> Latin1Bytes body = Some t ->
  scenarioXMLToUTF8 Latin1Bytes (declared enc body) = Ok (declared (lit "UTF-8") t)
  /\ readInst (drop 2 (declared (lit "UTF-8") t)) = Ok t.
Proof.
  intros He Hb. assert (Latin1Bytes (declared enc body) = Some (declared enc t)) as Hl.
  { unfold declared. rewrite !app_assoc. apply Latin1_ascii; [|done]. rewrite <- !app_assoc. by apply declared_ascii. }
  split; [|vm_compute; reflexivity]. unfold scenarioXMLToUTF8. change (TrimPrefix (declared enc body) _) with (declared enc body).
  rewrite declared_sniff by done. destruct (spelled_latin1 enc He) as [-> ->]. cbn [negb].
  by rewrite Hl, declared_rewrite.
Qed.

End Latin1.

(** The encoding [utf8] passes the test of [scenarioXMLToUTF8] and is refused by
    the XML reader, which knows only [utf-8]. *)
Theorem utf8_spelling_refused Latin1Bytes compiles body :
  scenarioXMLToUTF8 Latin1Bytes (declared (lit "utf8") body) = Ok (declared (lit "utf8") body)
  /\ ParseText Latin1Bytes compiles (declared (lit "utf8") body) = Err (BadXML XEncoding).
Proof. split; vm_compute; reflexivity. Qed.
