(* ===== verification/Defaults.v ===== *)
(** * Built-in scenarios

    [internal/scenario/defaults.go]: the ten documents and [LoadNamed].  A raw
    string of Go holds no backquote, so a backquote stands for a quotation mark
    in the texts below. *)

From stdpp Require Import base list gmap strings.
From Stdlib Require Import ZArith Lia Strings.Byte.
From S2P Require Import Prelude GoStrings GoFloat Scenario SafePath Xml ScenarioXml.

Definition defaultUAC : str := quoted "<?xml version=`1.0` encoding=`UTF-8`?>
<scenario name=`Basic Gossip UAC`>
  <send retrans=`500`>
    <![CDATA[
INVITE sip:[service]@[remote_ip]:[remote_port] SIP/2.0
Via: SIP/2.0/[transport] [local_ip]:[local_port];branch=[branch]
[trunk_pai][trunk_provider][trunk_extra]From: [trunk_from];tag=[pid]GossipTag00[call_number]
To: [service] <sip:[service]@[remote_ip]:[remote_port]>
Call-ID: [call_id]
CSeq: 1 INVITE
Contact: <sip:gossip@[local_ip]:[local_port]>
Max-Forwards: 70
Content-Length: 0

]]>
  </send>
  <recv response=`100` optional=`true`/>
  <recv response=`180` optional=`true`/>
  <recv response=`200`/>
  <send>
    <![CDATA[
ACK sip:[service]@[remote_ip]:[remote_port] SIP/2.0
Via: SIP/2.0/[transport] [local_ip]:[local_port];branch=[branch]
[trunk_pai][trunk_provider][trunk_extra]From: [trunk_from];tag=[pid]GossipTag00[call_number]
To: [service] <sip:[service]@[remote_ip]:[remote_port]>[peer_tag_param]
Call-ID: [call_id]
CSeq: 1 ACK
Contact: <sip:gossip@[local_ip]:[local_port]>
Max-Forwards: 70
Content-Length: 0

]]>
  </send>
  <pause milliseconds=`1000`/>
  <send retrans=`500`>
    <![CDATA[
BYE sip:[service]@[remote_ip]:[remote_port] SIP/2.0
Via: SIP/2.0/[transport] [local_ip]:[local_port];branch=[branch]
[trunk_pai][trunk_provider][trunk_extra]From: [trunk_from];tag=[pid]GossipTag00[call_number]
To: [service] <sip:[service]@[remote_ip]:[remote_port]>[peer_tag_param]
Call-ID: [call_id]
CSeq: 2 BYE
Contact: <sip:gossip@[local_ip]:[local_port]>
Max-Forwards: 70
Content-Length: 0

]]>
  </send>
  <recv response=`200`/>
</scenario>".

Definition defaultUAS : str := quoted "<?xml version=`1.0` encoding=`UTF-8`?>
<scenario name=`Basic Gossip UAS`>
  <recv request=`INVITE`/>
  <send>
    <![CDATA[
SIP/2.0 180 Ringing
[last_Via:]
[last_From:]
[last_To:];tag=[pid]GossipTag01[call_number]
[last_Call-ID:]
[last_CSeq:]
Contact: <sip:[local_ip]:[local_port];transport=[transport]>
Content-Length: 0

]]>
  </send>
  <send retrans=`500`>
    <![CDATA[
SIP/2.0 200 OK
[last_Via:]
[last_From:]
[last_To:];tag=[pid]GossipTag01[call_number]
[last_Call-ID:]
[last_CSeq:]
Contact: <sip:[local_ip]:[local_port];transport=[transport]>
Content-Length: 0

]]>
  </send>
  <recv request=`ACK` optional=`true`/>
  <recv request=`BYE`/>
  <send>
    <![CDATA[
SIP/2.0 200 OK
[last_Via:]
[last_From:]
[last_To:]
[last_Call-ID:]
[last_CSeq:]
Contact: <sip:[local_ip]:[local_port];transport=[transport]>
Content-Length: 0

]]>
  </send>
  <timewait milliseconds=`1000`/>
</scenario>".

Definition defaultInviteMedia : str := quoted "<?xml version=`1.0` encoding=`UTF-8`?>
<scenario name=`invite_media`>
  <send retrans=`500`>
    <![CDATA[
INVITE sip:[service]@[remote_ip]:[remote_port] SIP/2.0
Via: SIP/2.0/[transport] [local_ip]:[local_port];branch=[branch]
[trunk_pai][trunk_provider][trunk_extra]From: [trunk_from];tag=[pid]InvMedia[call_number]
To: [service] <sip:[service]@[remote_ip]:[remote_port]>
Call-ID: [call_id]
CSeq: 1 INVITE
Contact: <sip:gossip@[local_ip]:[local_port]>
Max-Forwards: 70
Content-Type: application/sdp
Content-Length: [len]

v=0
o=gossip 1 1 IN IP4 [local_ip]
s=-
c=IN IP4 [local_ip]
t=0 0
m=audio [media_port] RTP/AVP 0
a=rtpmap:0 PCMU/8000
]]>
  </send>

  <recv response=`100` optional=`true`/>
  <recv response=`180` optional=`true`/>
  <recv response=`183` optional=`true`/>
  <recv response=`200`>
    <action>
      <exec rtp_stream=`synthetic,,0,PCMU/8000,20,3000`/>
    </action>
  </recv>

  <send>
    <![CDATA[
ACK sip:[service]@[remote_ip]:[remote_port] SIP/2.0
Via: SIP/2.0/[transport] [local_ip]:[local_port];branch=[branch]
[trunk_pai][trunk_provider][trunk_extra]From: [trunk_from];tag=[pid]InvMedia[call_number]
To: [service] <sip:[service]@[remote_ip]:[remote_port]>[peer_tag_param]
Call-ID: [call_id]
CSeq: 1 ACK
Max-Forwards: 70
Content-Length: 0

]]>
  </send>

  <pause milliseconds=`500`/>

  <nop>
    <action>
      <exec rtp_stream=`stop`/>
    </action>
  </nop>

  <send retrans=`500`>
    <![CDATA[
BYE sip:[service]@[remote_ip]:[remote_port] SIP/2.0
Via: SIP/2.0/[transport] [local_ip]:[local_port];branch=[branch]
[trunk_pai][trunk_provider][trunk_extra]From: [trunk_from];tag=[pid]InvMedia[call_number]
To: [service] <sip:[service]@[remote_ip]:[remote_port]>[peer_tag_param]
Call-ID: [call_id]
CSeq: 2 BYE
Max-Forwards: 70
Content-Length: 0

]]>
  </send>

  <recv response=`200`/>
</scenario>".

Definition defaultInviteMediaScale : str := quoted "<?xml version=`1.0` encoding=`UTF-8`?>
<scenario name=`invite_media_scale`>
  <send retrans=`500`>
    <![CDATA[
INVITE sip:[service]@[remote_ip]:[remote_port] SIP/2.0
Via: SIP/2.0/[transport] [local_ip]:[local_port];branch=[branch]
[trunk_pai][trunk_provider][trunk_extra]From: [trunk_from];tag=[pid]InvScale[call_number]
To: [service] <sip:[service]@[remote_ip]:[remote_port]>
Call-ID: [call_id]
CSeq: 1 INVITE
Contact: <sip:gossip@[local_ip]:[local_port]>
Max-Forwards: 70
Content-Type: application/sdp
Content-Length: [len]

v=0
o=gossip 1 1 IN IP4 [local_ip]
s=-
c=IN IP4 [local_ip]
t=0 0
m=audio [media_port] RTP/AVP 0
a=rtpmap:0 PCMU/8000
]]>
  </send>

  <recv response=`100` optional=`true`/>
  <recv response=`180` optional=`true`/>
  <recv response=`183` optional=`true`/>
  <recv response=`200`>
    <action>
      <exec rtp_stream=`synthetic,0,0,PCMU/8000,20`/>
    </action>
  </recv>

  <send>
    <![CDATA[
ACK sip:[service]@[remote_ip]:[remote_port] SIP/2.0
Via: SIP/2.0/[transport] [local_ip]:[local_port];branch=[branch]
[trunk_pai][trunk_provider][trunk_extra]From: [trunk_from];tag=[pid]InvScale[call_number]
To: [service] <sip:[service]@[remote_ip]:[remote_port]>[peer_tag_param]
Call-ID: [call_id]
CSeq: 1 ACK
Max-Forwards: 70
Content-Length: 0

]]>
  </send>

  <!-- Media hold: one RTP stream per call on [media_port]; shorten for faster churn, lengthen for soak. -->
  <pause milliseconds=`30000`/>

  <nop>
    <action>
      <exec rtp_stream=`stop`/>
    </action>
  </nop>

  <send retrans=`500`>
    <![CDATA[
BYE sip:[service]@[remote_ip]:[remote_port] SIP/2.0
Via: SIP/2.0/[transport] [local_ip]:[local_port];branch=[branch]
[trunk_pai][trunk_provider][trunk_extra]From: [trunk_from];tag=[pid]InvScale[call_number]
To: [service] <sip:[service]@[remote_ip]:[remote_port]>[peer_tag_param]
Call-ID: [call_id]
CSeq: 2 BYE
Max-Forwards: 70
Content-Length: 0

]]>
  </send>

  <recv response=`200`/>
</scenario>".

Definition defaultInviteMediaEarly : str := quoted "<?xml version=`1.0` encoding=`UTF-8`?>
<scenario name=`invite_media_early`>
  <send retrans=`500`>
    <![CDATA[
INVITE sip:[service]@[remote_ip]:[remote_port] SIP/2.0
Via: SIP/2.0/[transport] [local_ip]:[local_port];branch=[branch]
[trunk_pai][trunk_provider][trunk_extra]From: [trunk_from];tag=[pid]InvMedia[call_number]
To: [service] <sip:[service]@[remote_ip]:[remote_port]>
Call-ID: [call_id]
CSeq: 1 INVITE
Contact: <sip:gossip@[local_ip]:[local_port]>
Max-Forwards: 70
Content-Type: application/sdp
Content-Length: [len]

v=0
o=gossip 1 1 IN IP4 [local_ip]
s=-
c=IN IP4 [local_ip]
t=0 0
m=audio [media_port] RTP/AVP 0
a=rtpmap:0 PCMU/8000
]]>
  </send>

  <recv response=`100` optional=`true`/>
  <recv response=`180` optional=`true`/>
  <recv response=`183` optional=`true`>
    <action>
      <exec rtp_stream=`synthetic,,0,PCMU/8000,20,3000`/>
    </action>
  </recv>
  <recv response=`200`>
    <action>
      <exec rtp_stream=`synthetic,,0,PCMU/8000,20,3000`/>
    </action>
  </recv>

  <send>
    <![CDATA[
ACK sip:[service]@[remote_ip]:[remote_port] SIP/2.0
Via: SIP/2.0/[transport] [local_ip]:[local_port];branch=[branch]
[trunk_pai][trunk_provider][trunk_extra]From: [trunk_from];tag=[pid]InvMedia[call_number]
To: [service] <sip:[service]@[remote_ip]:[remote_port]>[peer_tag_param]
Call-ID: [call_id]
CSeq: 1 ACK
Max-Forwards: 70
Content-Length: 0

]]>
  </send>

  <pause milliseconds=`500`/>

  <nop>
    <action>
      <exec rtp_stream=`stop`/>
    </action>
  </nop>

  <send retrans=`500`>
    <![CDATA[
BYE sip:[service]@[remote_ip]:[remote_port] SIP/2.0
Via: SIP/2.0/[transport] [local_ip]:[local_port];branch=[branch]
[trunk_pai][trunk_provider][trunk_extra]From: [trunk_from];tag=[pid]InvMedia[call_number]
To: [service] <sip:[service]@[remote_ip]:[remote_port]>[peer_tag_param]
Call-ID: [call_id]
CSeq: 2 BYE
Max-Forwards: 70
Content-Length: 0

]]>
  </send>

  <recv response=`200`/>
</scenario>".

Definition defaultInviteMediaSavpf : str := quoted "<?xml version=`1.0` encoding=`UTF-8`?>
<scenario name=`invite_media_savpf`>
  <send retrans=`500`>
    <![CDATA[
INVITE sip:[service]@[remote_ip]:[remote_port] SIP/2.0
Via: SIP/2.0/[transport] [local_ip]:[local_port];branch=[branch]
[trunk_pai][trunk_provider][trunk_extra]From: [trunk_from];tag=[pid]InvSavpf[call_number]
To: [service] <sip:[service]@[remote_ip]:[remote_port]>
Call-ID: [call_id]
CSeq: 1 INVITE
Contact: <sip:gossip@[local_ip]:[local_port]>
Max-Forwards: 70
Content-Type: application/sdp
Content-Length: [len]

v=0
o=gossip 1 1 IN IP4 [local_ip]
s=-
c=IN IP4 [local_ip]
t=0 0
m=audio [media_port] UDP/TLS/RTP/SAVPF 0
a=rtpmap:0 PCMU/8000
a=ice-ufrag:[ice_ufrag]
a=ice-pwd:[ice_pwd]
a=rtcp-mux
a=crypto:1 AES_CM_128_HMAC_SHA1_80 inline:AQEBAQEBAQEBAQEBAQEBAQICAgICAgICAgICAgIC
]]>
  </send>

  <recv response=`100` optional=`true`/>
  <recv response=`180` optional=`true`/>
  <recv response=`183` optional=`true`/>
  <recv response=`200`>
    <action>
      <exec rtp_stream=`synthetic,,0,PCMU/8000,20,3000`/>
    </action>
  </recv>

  <send>
    <![CDATA[
ACK sip:[service]@[remote_ip]:[remote_port] SIP/2.0
Via: SIP/2.0/[transport] [local_ip]:[local_port];branch=[branch]
[trunk_pai][trunk_provider][trunk_extra]From: [trunk_from];tag=[pid]InvSavpf[call_number]
To: [service] <sip:[service]@[remote_ip]:[remote_port]>[peer_tag_param]
Call-ID: [call_id]
CSeq: 1 ACK
Max-Forwards: 70
Content-Length: 0

]]>
  </send>

  <pause milliseconds=`500`/>

  <nop>
    <action>
      <exec rtp_stream=`stop`/>
    </action>
  </nop>

  <send retrans=`500`>
    <![CDATA[
BYE sip:[service]@[remote_ip]:[remote_port] SIP/2.0
Via: SIP/2.0/[transport] [local_ip]:[local_port];branch=[branch]
[trunk_pai][trunk_provider][trunk_extra]From: [trunk_from];tag=[pid]InvSavpf[call_number]
To: [service] <sip:[service]@[remote_ip]:[remote_port]>[peer_tag_param]
Call-ID: [call_id]
CSeq: 2 BYE
Max-Forwards: 70
Content-Length: 0

]]>
  </send>

  <recv response=`200`/>
</scenario>".

Definition defaultInviteMediaEarly180 : str := quoted "<?xml version=`1.0` encoding=`UTF-8`?>
<scenario name=`invite_media_early_180`>
  <send retrans=`500`>
    <![CDATA[
INVITE sip:[service]@[remote_ip]:[remote_port] SIP/2.0
Via: SIP/2.0/[transport] [local_ip]:[local_port];branch=[branch]
[trunk_pai][trunk_provider][trunk_extra]From: [trunk_from];tag=[pid]InvMedia[call_number]
To: [service] <sip:[service]@[remote_ip]:[remote_port]>
Call-ID: [call_id]
CSeq: 1 INVITE
Contact: <sip:gossip@[local_ip]:[local_port]>
Max-Forwards: 70
Content-Type: application/sdp
Content-Length: [len]

v=0
o=gossip 1 1 IN IP4 [local_ip]
s=-
c=IN IP4 [local_ip]
t=0 0
m=audio [media_port] RTP/AVP 0
a=rtpmap:0 PCMU/8000
]]>
  </send>

  <recv response=`100` optional=`true`/>
  <recv response=`180`>
    <action>
      <exec rtp_stream=`synthetic,,0,PCMU/8000,20,3000`/>
    </action>
  </recv>
  <recv response=`183` optional=`true`>
    <action>
      <exec rtp_stream=`synthetic,,0,PCMU/8000,20,3000`/>
    </action>
  </recv>
  <recv response=`200`>
    <action>
      <exec rtp_stream=`synthetic,,0,PCMU/8000,20,3000`/>
    </action>
  </recv>

  <send>
    <![CDATA[
ACK sip:[service]@[remote_ip]:[remote_port] SIP/2.0
Via: SIP/2.0/[transport] [local_ip]:[local_port];branch=[branch]
[trunk_pai][trunk_provider][trunk_extra]From: [trunk_from];tag=[pid]InvMedia[call_number]
To: [service] <sip:[service]@[remote_ip]:[remote_port]>[peer_tag_param]
Call-ID: [call_id]
CSeq: 1 ACK
Max-Forwards: 70
Content-Length: 0

]]>
  </send>

  <pause milliseconds=`500`/>

  <nop>
    <action>
      <exec rtp_stream=`stop`/>
    </action>
  </nop>

  <send retrans=`500`>
    <![CDATA[
BYE sip:[service]@[remote_ip]:[remote_port] SIP/2.0
Via: SIP/2.0/[transport] [local_ip]:[local_port];branch=[branch]
[trunk_pai][trunk_provider][trunk_extra]From: [trunk_from];tag=[pid]InvMedia[call_number]
To: [service] <sip:[service]@[remote_ip]:[remote_port]>[peer_tag_param]
Call-ID: [call_id]
CSeq: 2 BYE
Max-Forwards: 70
Content-Length: 0

]]>
  </send>

  <recv response=`200`/>
</scenario>".

Definition defaultWebRTCUAS : str := quoted "<?xml version=`1.0` encoding=`UTF-8`?>
<scenario name=`webrtc_uas` webrtc=`true`>
  <recv request=`INVITE`/>
  <send retrans=`500`>
    <![CDATA[
SIP/2.0 200 OK
[last_Via:]
[last_From:]
[last_To:];tag=[pid]WebRTCUAS[call_number]
[last_Call-ID:]
[last_CSeq:]
Contact: <sip:[local_ip]:[local_port];transport=[contact_transport]>
Content-Type: application/sdp
Content-Length: [len]

[webrtc_answer]]]>
  </send>
  <recv request=`ACK`/>
  <nop>
    <action>
      <exec rtp_stream=`synthetic,,0,PCMA/8000,20,3000`/>
    </action>
  </nop>
  <recv request=`BYE`/>
  <send>
    <![CDATA[
SIP/2.0 200 OK
[last_Via:]
[last_From:]
[last_To:]
[last_Call-ID:]
[last_CSeq:]
Content-Length: 0

]]>
  </send>
</scenario>".

Definition defaultWebRTCUAC : str := quoted "<?xml version=`1.0` encoding=`UTF-8`?>
<scenario name=`webrtc_uac` webrtc=`true`>
  <send retrans=`500`>
    <![CDATA[
INVITE sip:[service]@[remote_ip]:[remote_port] SIP/2.0
Via: SIP/2.0/[transport] [local_ip]:[local_port];branch=[branch]
[trunk_pai][trunk_provider][trunk_extra]From: [trunk_from];tag=[pid]WebRTCUAC[call_number]
To: [service] <sip:[service]@[remote_ip]:[remote_port]>
Call-ID: [call_id]
CSeq: 1 INVITE
Contact: <sip:gossip@[local_ip]:[local_port];transport=[contact_transport]>
Max-Forwards: 70
Content-Type: application/sdp
Content-Length: [len]

[webrtc_offer]]]>
  </send>
  <recv response=`100` optional=`true`/>
  <recv response=`180` optional=`true`/>
  <recv response=`183` optional=`true`/>
  <recv response=`200`>
    <action>
      <exec rtp_stream=`synthetic,,0,PCMA/8000,20,3000`/>
    </action>
  </recv>
  <send>
    <![CDATA[
ACK sip:[service]@[remote_ip]:[remote_port] SIP/2.0
Via: SIP/2.0/[transport] [local_ip]:[local_port];branch=[branch]
[trunk_pai][trunk_provider][trunk_extra]From: [trunk_from];tag=[pid]WebRTCUAC[call_number]
To: [service] <sip:[service]@[remote_ip]:[remote_port]>[peer_tag_param]
Call-ID: [call_id]
CSeq: 1 ACK
Max-Forwards: 70
Content-Length: 0

]]>
  </send>
  <pause milliseconds=`500`/>
  <nop>
    <action>
      <exec rtp_stream=`stop`/>
    </action>
  </nop>
  <send retrans=`500`>
    <![CDATA[
BYE sip:[service]@[remote_ip]:[remote_port] SIP/2.0
Via: SIP/2.0/[transport] [local_ip]:[local_port];branch=[branch]
[trunk_pai][trunk_provider][trunk_extra]From: [trunk_from];tag=[pid]WebRTCUAC[call_number]
To: [service] <sip:[service]@[remote_ip]:[remote_port]>[peer_tag_param]
Call-ID: [call_id]
CSeq: 2 BYE
Max-Forwards: 70
Content-Length: 0

]]>
  </send>
  <recv response=`200`/>
</scenario>".

Definition defaultManagement : str := quoted "<?xml version=`1.0` encoding=`UTF-8`?>
<scenario name=`management`>
  <recv request=`OPTIONS`/>
  <send><![CDATA[
SIP/2.0 200 OK
[last_Via:]
[last_From:]
[last_To:];tag=[pid]OptionsTag[call_number]
[last_Call-ID:]
[last_CSeq:]
Allow: OPTIONS
Content-Length: 0

]]></send>
</scenario>".

Definition BuiltinInviteMediaScale : str := lit "invite_media_scale".

Inductive load_error := ErrUnknownScenario (name : str) | LoadParse (e : parse_text_error).

(** [BuiltinInfo] *)
Record BuiltinInfo := mkBuiltin {
  bi_ID : str; bi_Name : str; bi_Role : str; bi_Description : str; bi_Source : str }.

Definition builtin (id name role description : string) : BuiltinInfo :=
  mkBuiltin (lit id) (lit name) (lit role) (lit description) (lit "builtin").

Definition builtinCatalog : list BuiltinInfo :=
  [builtin "uac" "Basic Gossip UAC" "uac" "Minimal INVITE / ACK / BYE UAC flow.";
   builtin "uas" "Basic Gossip UAS" "uas" "Answer INVITE with 200 OK and handle BYE.";
   builtin "invite_media" "invite_media" "uac" "UAC INVITE with SDP and RTP media.";
   builtin "invite_media_scale" "invite_media_scale" "uac"
     "UAC INVITE with SDP and cleartext synthetic RTP for high-scale load (-media_scale auto).";
   builtin "invite_media_early" "invite_media_early" "uac" "UAC media flow with early media (183).";
   builtin "invite_media_savpf" "invite_media_savpf" "uac" "UAC media flow with SAVPF SDP profile.";
   builtin "invite_media_early_180" "invite_media_early_180" "uac" "UAC media flow with 180 Ringing early media.";
   builtin "webrtc_uac" "webrtc_uac" "uac" "WebRTC UAC: [webrtc_offer], synthetic rtp_stream over bridge.";
   builtin "webrtc_uas" "webrtc_uas" "uas" "WebRTC UAS: [webrtc_answer], synthetic rtp_stream over bridge.";
   builtin "management" "management" "uas" "Answer OPTIONS requests (management keep-alive)."].

Definition ListBuiltins : list BuiltinInfo := builtinCatalog.

Definition builtinText (name : str) : option str :=
  if bool_decide (name = []) || bool_decide (name = lit "uac") then Some defaultUAC
  else if bool_decide (name = lit "uas") then Some defaultUAS
  else if bool_decide (name = lit "invite_media") then Some defaultInviteMedia
  else if bool_decide (name = BuiltinInviteMediaScale) then Some defaultInviteMediaScale
  else if bool_decide (name = lit "invite_media_early") then Some defaultInviteMediaEarly
  else if bool_decide (name = lit "invite_media_savpf") then Some defaultInviteMediaSavpf
  else if bool_decide (name = lit "invite_media_early_180") then Some defaultInviteMediaEarly180
  else if bool_decide (name = lit "management") then Some defaultManagement
  else if bool_decide (name = lit "webrtc_uas") then Some defaultWebRTCUAS
  else if bool_decide (name = lit "webrtc_uac") then Some defaultWebRTCUAC
  else None.

(** [BuiltinXML] *)
Definition BuiltinXML (id : str) : result load_error str :=
  match builtinText (TrimSpace id) with Some x => Ok x | None => Err (ErrUnknownScenario (TrimSpace id)) end.

Section Load.

Context (Latin1Bytes : str -> option str) (compiles : str -> bool).

Definition LoadNamed (name : str) : result load_error Scenario :=
  match builtinText name with
  | None => Err (ErrUnknownScenario name)
  | Some x => match ParseText Latin1Bytes compiles x with
              | Ok sc => Ok (withBasePath (lit ".") sc)
              | Err e => Err (LoadParse e)
              end
  end.

End Load.

(** ** What the catalogue promises *)

Section Catalogue.

Context (Latin1Bytes : str -> option str) (compiles : str -> bool).

Definition role_mode (role : str) : Mode := if bool_decide (role = lit "uas") then ModeServer else ModeClient.
Definition mode_eqb (a b : Mode) : bool := match a, b with ModeClient, ModeClient | ModeServer, ModeServer => true | _, _ => false end.

(** What is tested of one entry *)
Definition loads (b : BuiltinInfo) : bool :=
  match LoadNamed Latin1Bytes compiles (bi_ID b), BuiltinXML (bi_ID b) with
  | Ok sc, Ok _ => mode_eqb (sc_Mode sc) (role_mode (bi_Role b)) && bool_decide (sc_Name sc = bi_Name b)
  | _, _ => false
  end.

Lemma catalogue_loads : forallb loads builtinCatalog = true.
Proof. vm_compute. reflexivity. Qed.

Lemma builtinText_listed name x : builtinText name = Some x -> name = [] \/ exists b, b ∈ ListBuiltins /\ bi_ID b = name.
Proof.
  assert (forall id, bool_decide (id ∈ map bi_ID builtinCatalog) = true -> exists b, b ∈ ListBuiltins /\ bi_ID b = id) as Hl.
  { intros id H. apply bool_decide_eq_true, list_elem_of_fmap in H as (b & -> & Hb). eauto. }
  unfold builtinText. destruct (bool_decide (name = [])) eqn:E0; [apply bool_decide_eq_true in E0; by left|].
  intros H. right. cbn [orb] in H.
  repeat match type of H with
  | context [bool_decide (name = ?t)] =>
    destruct (decide (name = t)) as [-> | ?]; [apply Hl; vm_compute; reflexivity|rewrite (bool_decide_eq_false_2 (name = t)) in H by done]
  end. done.
Qed.

(** Every scenario of the catalogue loads: its document is accepted, gives
    a well-formed scenario with the name the catalogue shows, and runs as a
    server exactly when the catalogue says so.  Every name that loads is empty
    (the first scenario) or in the catalogue. *)
Theorem builtins_load :
  (forall b, b ∈ ListBuiltins -> exists sc, LoadNamed Latin1Bytes compiles (bi_ID b) = Ok sc
     /\ scenario_wf sc /\ sc_Mode sc = role_mode (bi_Role b) /\ sc_Name sc = bi_Name b)
  /\ (forall name sc, LoadNamed Latin1Bytes compiles name = Ok sc ->
        name = [] \/ exists b, b ∈ ListBuiltins /\ bi_ID b = name).
Proof.
  split.
  - intros b Hb. pose proof catalogue_loads as H. rewrite forallb_forall in H. apply list_elem_of_In in Hb.
    specialize (H b Hb). unfold loads in H. destruct (LoadNamed _ _ _) as [sc|] eqn:El; [|done].
    destruct (BuiltinXML _); [|done]. apply andb_true_iff in H as [Hm Hn]. exists sc. split_and!; [done| | |by apply bool_decide_eq_true in Hn].
    + unfold LoadNamed in El. destruct (builtinText _) as [x|]; [|done]. destruct (ParseText _ _ x) as [sc'|] eqn:Ep; [|done].
      apply Ok_inj in El as <-. exact (ParseText_wf _ _ _ _ Ep).
    + by destruct (sc_Mode sc), (role_mode _).
  - intros name sc. unfold LoadNamed. destruct (builtinText name) eqn:Et; [|done]. intros _. by eapply builtinText_listed.
Qed.

End Catalogue.
