(* ===== verification/Conversation.v ===== *)
(** * Two calls talking to each other

    A client call and a server call of the engine ([Call], with the receiving of
    [Recv], the rendering of [Template] and the messages of [SipMessage]) joined
    by a network that loses and reorders nothing: what one side sends is parsed
    and offered to the other.  The built-in client scenarios are run against the
    built-in server, from the text of their documents on. *)

From stdpp Require Import base list gmap strings.
From Stdlib Require Import ZArith Lia Strings.Byte.
From S2P Require Import Prelude GoStrings GoFloat SipMessage Vars Scenario Template EngineText.
From S2P Require Import Auth Commands Actions Recv Call CallFacts SafePath Xml ScenarioXml Defaults.

(** ** A side *)

Record side := mkSide {
  sd_scenario : Scenario; sd_config : call_config; sd_out : call_out; sd_inbox : list str }.

(** Messages are numbered as they are delivered. *)
Definition delivered (n : nat) (raw : str) : option pmsg :=
  match Parse raw with Ok m => Some (mkPmsg n m) | Err _ => None end.

Definition sideState (x : side) : option call_state := call_final (sd_out x).

(** The call goes on: its current command *)
Definition current (x : side) : option Command :=
  match sd_out x with
  | CallRunning s => if cs_index s <? 0 then None else sc_Commands (sd_scenario x) !! Z.to_nat (cs_index s)
  | _ => None
  end.

Definition isRecv (c : Command) : bool := bool_decide (c_Type c = CommandRecv).

(** A side can move when it does not wait, or waits and something has come. *)
Definition canMove (x : side) : bool :=
  match current x, sideState x with
  | Some c, Some s => negb (isRecv c) || negb (bool_decide (sd_inbox x = [])) || negb (bool_decide (cs_pending s = []))
  | _, _ => false
  end.

(** The outside of a command: the next message for a recv, a good network, a
    sleep that is not interrupted *)
Definition surroundings (ticks : list rtick) : step_input :=
  mkInput 0 0 (mkRng (fun _ => 0) fone) true (fun c _ => Some (ExtraKeywords c)) (fun _ => None) 0 0 emptyMessage true
    (ticks ++ [late_tick]) [] (fun _ => false) (fun _ _ => false) None (fun _ => true).

Definition sentBy (s : call_state) : list str :=
  flat_map (fun e => match e with EvSent m => [m] | _ => [] end) (cs_log s).

(** One command of a side: the side after it, and what it sent *)
Definition move (n : nat) (x : side) : side * list str :=
  match current x, sideState x with
  | Some c, Some s =>
    let '(ticks, inbox) :=
      if isRecv c then
        match sd_inbox x with
        | raw :: inbox => (match delivered n raw with Some m => [on_net m] | None => [] end, inbox)
        | [] => ([quiet_tick], [])
        end
      else ([], sd_inbox x) in
    let out := runCall no_regex blank_env ascii_only (sd_config x) (sd_scenario x) [surroundings ticks] s in
    (mkSide (sd_scenario x) (sd_config x) out inbox,
     match call_final out with Some s' => drop (length (sentBy s)) (sentBy s') | None => [] end)
  | _, _ => (x, [])
  end.

Definition post (msgs : list str) (x : side) : side :=
  mkSide (sd_scenario x) (sd_config x) (sd_out x) (sd_inbox x ++ msgs).

(** The two sides in turn: the client as long as it can, then the server; a recv
    that nothing will come for ends by its timeout. *)
Fixpoint converse (fuel n : nat) (a b : side) : side * side :=
  match fuel with
  | O => (a, b)
  | S fuel =>
    if canMove a then let '(a, ms) := move n a in converse fuel (S n) a (post ms b)
    else if canMove b then let '(b, ms) := move n b in converse fuel (S n) (post ms a) b
    else
      match current a, current b with
      | Some _, _ => let '(a, ms) := move n a in converse fuel (S n) a (post ms b)
      | None, Some _ => let '(b, ms) := move n b in converse fuel (S n) (post ms a) b
      | None, None => (a, b)
      end
  end.

(** ** The built-in scenarios *)

Definition loaded (name : string) : Scenario :=
  match LoadNamed (fun _ => None) (fun _ => true) (lit name) with
  | Ok sc => sc
  | Err _ => mkScenario [] [] ModeClient false [] [] ∅ ∅ [] [] []
  end.

Definition opened (name localIP remoteIP : string) (callNumber : Z) : side :=
  let sc := loaded name in
  mkSide sc (mkCallConfig 0 1000 2000 (mkCommandConfig [] None) [] [] (lit "u1") callNumber)
    (CallRunning (startCall (mkEngineConfig (lit "svc") 1 0 ∅ [] [] [] [] [] 9) sc false [] [] (lit "u1") callNumber
       (lit "1-9@10.0.0.1") (lit localIP) 5060 (lit remoteIP) 5060 newScopedVars (mkFrand (fun _ => fone) 0) newCommandBroker))
    [].

Definition firstWord (m : str) : str := match Fields m with w :: c :: _ => if HasPrefix w (lit "SIP/") then c else w | _ => [] end.

Definition transcript (x : side) : list str :=
  match sideState x with Some s => map firstWord (sentBy s) | None => [] end.

Definition ended (x : side) : bool := match sd_out x with CallDone _ => true | _ => false end.

Definition talk (client server : string) : bool * bool * list str * list str :=
  let '(a, b) := converse 100 0 (opened client "10.0.0.1" "10.0.0.2" 1) (opened server "10.0.0.2" "10.0.0.1" 1) in
  (ended a, ended b, transcript a, transcript b).


(** ** Complete calls *)

Definition clientScenarios : list string :=
  ["uac"; "invite_media"; "invite_media_scale"; "invite_media_early"; "invite_media_savpf"]%string.

Definition completeCall : bool * bool * list str * list str :=
  (true, true, [lit "INVITE"; lit "ACK"; lit "BYE"], [lit "180"; lit "200"; lit "200"]).



(** [invite_media_early_180] requires the 180.  When it comes without a 100
    before it, it reaches the optional recv for the 100, which discards a
    provisional response instead of leaving it to the next recv; the call then
    fails on the 200. *)
Theorem early_180_discarded :
  let '(a, _) := converse 100 0 (opened "invite_media_early_180" "10.0.0.1" "10.0.0.2" 1) (opened "uas" "10.0.0.2" "10.0.0.1" 1) in
  match sd_out a with CallError (CallRecv (ErrUnexpectedFinal 200)) s => transcript a = [lit "INVITE"] /\ cs_index s = 2 | _ => False end.
Proof. vm_compute. split; reflexivity. Qed.
