(* ===== verification/ApiServer.v ===== *)
(** * The management API

    [src/internal/api/server.go] and [live_ws.go]: the routes under [/api/v1/],
    their authorisation, and the handlers that read statistics, replace the
    scenario, change rate and pause, toggle listeners, and add and remove load
    clients.  Engines are reduced to what the handlers touch: mode, live
    scenario, rate controller, listener switches, statistics.  They are known by
    a reference (the first engine, an engine of the configuration, an engine of
    the load coordinator), as the code holds pointers.  A JSON body that cannot
    be decoded, or a body that cannot be read, is [None]; a file is its content. *)

From stdpp Require Import base list gmap strings.
From Stdlib Require Import ZArith Lia Strings.Byte.
From S2P Require Import Prelude GoStrings GoFloat Scenario RateControl Stats LoadCoordinator SettingsAuth SafePath NetAddr Xml ScenarioXml.

(** ** Engines ([engine.go]) *)

Record ServerListener := mkListener { sl_Transport : str; sl_LocalIP : str; sl_LocalPort : Z }.

Record Engine := mkEngine {
  en_Mode : Mode;                      (* of [cfg.Scenario] *)
  en_live : Scenario; en_rate : RateController; en_accept : list bool;
  en_Transport : str; en_LocalIP : str; en_LocalPort : Z; en_RemoteHost : str; en_RemotePort : Z;
  en_Listeners : list ServerListener; en_stats : Collector }.

Definition set_live (sc : Scenario) (e : Engine) : Engine :=
  mkEngine (en_Mode e) sc (en_rate e) (en_accept e) (en_Transport e) (en_LocalIP e) (en_LocalPort e)
    (en_RemoteHost e) (en_RemotePort e) (en_Listeners e) (en_stats e).
Definition on_rate (f : RateController -> RateController) (e : Engine) : Engine :=
  mkEngine (en_Mode e) (en_live e) (f (en_rate e)) (en_accept e) (en_Transport e) (en_LocalIP e) (en_LocalPort e)
    (en_RemoteHost e) (en_RemotePort e) (en_Listeners e) (en_stats e).
Definition set_accept (l : list bool) (e : Engine) : Engine :=
  mkEngine (en_Mode e) (en_live e) (en_rate e) l (en_Transport e) (en_LocalIP e) (en_LocalPort e)
    (en_RemoteHost e) (en_RemotePort e) (en_Listeners e) (en_stats e).

Definition isServer (m : Mode) : bool := match m with ModeServer => true | ModeClient => false end.

Definition mode_eqb (a b : Mode) : bool := Bool.eqb (isServer a) (isServer b).

Definition serverTransportControlSlots (mode : Mode) (listeners : list ServerListener) : nat :=
  if isServer mode then match listeners with [] => 1%nat | _ => length listeners end else O.

Definition listenerAcceptNew (idx : Z) (e : Engine) : bool :=
  if (idx <? 0) || (Z.of_nat (length (en_accept e)) <=? idx) then true
  else default true (en_accept e !! Z.to_nat idx).

Definition transportListenerMetas (e : Engine) : list ServerListener :=
  if isServer (en_Mode e)
  then match en_Listeners e with [] => [mkListener (en_Transport e) (en_LocalIP e) (en_LocalPort e)] | l => l end
  else [].

Record TransportListenerState := mkListenerState {
  ts_Index : nat; ts_ScenarioName : str; ts_meta : ServerListener; ts_Enabled : bool }.

Definition TransportListenerStates (e : Engine) : list TransportListenerState :=
  imap (fun i m => mkListenerState i (sc_Name (en_live e)) m (default true (en_accept e !! i))) (transportListenerMetas e).

Inductive toggle_error := NoToggles | IndexRange (index : Z).

Definition SetTransportListenerEnabled (index : Z) (enabled : bool) (e : Engine) : result toggle_error Engine :=
  match en_accept e with
  | [] => Err NoToggles
  | l => if (index <? 0) || (Z.of_nat (length l) <=? index) then Err (IndexRange index)
         else Ok (set_accept (<[Z.to_nat index := enabled]> l) e)
  end.

Record ClientTransportSummary := mkClientSummary {
  ct_ID : str; ct_ScenarioName : str; ct_Dynamic : bool; ct_Transport : str; ct_LocalIP : str; ct_LocalPort : Z;
  ct_RemoteAddr : str; ct_Accepting : bool }.

(** [net.JoinHostPort] *)
Definition JoinHostPort (host port : str) : str :=
  if Contains host (lit ":") then lit "[" ++ host ++ lit "]:" ++ port else host ++ lit ":" ++ port.

Definition clientTransportSummary (displayID : str) (e : Engine) : option ClientTransportSummary :=
  if isServer (en_Mode e) then None
  else Some (mkClientSummary displayID (sc_Name (en_live e)) false (en_Transport e) (en_LocalIP e) (en_LocalPort e)
               (JoinHostPort (en_RemoteHost e) (Itoa (en_RemotePort e))) (negb (rc_paused (en_rate e)))).

Definition TryReplaceLiveScenario (next : Scenario) (e : Engine) : option Engine :=
  if mode_eqb (sc_Mode next) (en_Mode e) then Some (set_live next e) else None.

Definition isSome {A} (o : option A) : bool := match o with Some _ => true | None => false end.

(** ** The server *)

Inductive eref := Primary | Extra (i : nat) | Dynamic (n : nat).

#[global] Instance eref_eq_dec : EqDecision eref.
Proof. solve_decision. Defined.

Record ServerConfig := mkServerConfig {
  sv_ExtraIDs : list str; sv_StatsPrimaryID : str; sv_ScenarioFile : str; sv_ScenarioName : str; sv_Token : str;
  sv_auth : server; sv_Validate : option (Scenario -> option str);   (* an error's text *)
  sv_LegacyV1 : bool; sv_HasUI : bool }.

(** What the handlers read and change: the engines, the coordinator (when
    dynamic clients are enabled) and the files. *)
Record world := mkWorld {
  w_engine : option Engine; w_extras : list (option Engine); w_dynamic : list Engine;
  w_coord : option LoadCoordinator; w_files : gmap str str }.

Definition set_files (f : gmap str str) (w : world) : world :=
  mkWorld (w_engine w) (w_extras w) (w_dynamic w) (w_coord w) f.
Definition set_coord (c : LoadCoordinator) (d : list Engine) (w : world) : world :=
  mkWorld (w_engine w) (w_extras w) d (Some c) (w_files w).

Definition deref (w : world) (r : eref) : option Engine :=
  match r with
  | Primary => w_engine w
  | Extra i => mjoin (w_extras w !! i)
  | Dynamic n => w_dynamic w !! n
  end.

Definition update (r : eref) (f : Engine -> Engine) (w : world) : world :=
  match r with
  | Primary => mkWorld (f <$> w_engine w) (w_extras w) (w_dynamic w) (w_coord w) (w_files w)
  | Extra i => mkWorld (w_engine w) (alter (fmap f) i (w_extras w)) (w_dynamic w) (w_coord w) (w_files w)
  | Dynamic n => mkWorld (w_engine w) (w_extras w) (alter f n (w_dynamic w)) (w_coord w) (w_files w)
  end.

(** [New]: the legacy routes are served when nothing else is. *)
Definition New (cfg : ServerConfig) : ServerConfig :=
  if negb (sv_LegacyV1 cfg) && negb (sv_HasUI cfg)
  then mkServerConfig (sv_ExtraIDs cfg) (sv_StatsPrimaryID cfg) (sv_ScenarioFile cfg) (sv_ScenarioName cfg) (sv_Token cfg)
         (sv_auth cfg) (sv_Validate cfg) true (sv_HasUI cfg)
  else cfg.

(** [LiveExtras] *)
Definition LiveExtras (w : world) : option (list nat * list str) := SnapshotDynamic <$> w_coord w.

(** The engines besides the first, with the names under which they are shown *)
Fixpoint namedExtras (i : nat) (engines : list (option Engine)) (ids : list str) (k : nat) : list (eref * str) :=
  match engines with
  | [] => []
  | None :: engines => namedExtras (S i) engines ids k
  | Some _ :: engines =>
    let id := TrimSpace (default [] (ids !! i)) in
    let id := match id with [] => lit "extra-" ++ Itoa (Z.of_nat k) | _ => id end in
    (Extra i, id) :: namedExtras (S i) engines ids (S k)
  end.

Fixpoint namedDynamic (w : world) (engines : list nat) (ids : list str) (k : nat) : list (eref * str) :=
  match engines with
  | [] => []
  | n :: engines =>
    let rest := fun k => namedDynamic w engines (tail ids) k in
    match w_dynamic w !! n with
    | None => rest k
    | Some _ =>
      let id := TrimSpace (default [] (head ids)) in
      let id := match id with [] => lit "dyn-" ++ Itoa (Z.of_nat k) | _ => id end in
      (Dynamic n, id) :: rest (S k)
    end
  end.

Definition mergedExtras (cfg : ServerConfig) (w : world) : list (eref * str) :=
  let static := namedExtras 0 (w_extras w) (sv_ExtraIDs cfg) 0 in
  match LiveExtras w with
  | None => static
  | Some (engines, ids) => static ++ namedDynamic w engines ids (length static)
  end.

Definition statsPrimaryID (cfg : ServerConfig) : str :=
  match TrimSpace (sv_StatsPrimaryID cfg) with [] => lit "primary" | pid => pid end.

(** All engines that are shown *)
Definition shown (cfg : ServerConfig) (w : world) : list (eref * str) := (Primary, statsPrimaryID cfg) :: mergedExtras cfg w.

Definition findEngine (l : list (eref * str)) (id : str) : option eref :=
  fst <$> List.find (fun x => bool_decide (x.2 = id)) l.

Definition engineByID (cfg : ServerConfig) (w : world) (id : str) : option eref :=
  let id := TrimSpace id in
  if bool_decide (id = []) || negb (isSome (w_engine w)) then None
  else if bool_decide (id = lit "primary") || bool_decide (id = statsPrimaryID cfg) then Some Primary
  else findEngine (mergedExtras cfg w) id.

Definition engineForClientTransportID (cfg : ServerConfig) (w : world) (id : str) : option eref :=
  let id := TrimSpace id in
  if bool_decide (id = []) then None
  else if bool_decide (id = statsPrimaryID cfg) then Some Primary
  else findEngine (mergedExtras cfg w) id.

(** ** Requests and replies *)

Inductive statsBody :=
  | StatsMulti (rows : list (str * Summary)) (dynamic : option (list str))
  | StatsOne (s : Summary) (dynamic : option (list str)).

Inductive controlBody := ControlMulti (rows : list (str * float64 * bool)) | ControlOne (rate : float64) (paused : bool).

Record transportsBody := mkTransports {
  tb_Listeners : list TransportListenerState; tb_Clients : list ClientTransportSummary; tb_CanPost : bool; tb_CanDelete : bool }.

Inductive body :=
  | BError (msg : str) | BNone | BOk | BAuth (mode : str) | BToken (token : str) (exp : Z)
  | BStats (b : statsBody) | BControl (b : controlBody) | BTransports (b : transportsBody)
  | BScenario (file name xml : str) (builtin : bool) | BWritten (file : str) (applied : bool) | BApplied
  | BClients (l : list ClientTransportSummary) (canPost canDelete : bool) (dynamic : list str) | BStarted (id : str).

Record response := mkResponse { rs_code : Z; rs_body : body }.

Definition bad (code : Z) (msg : string) : response := mkResponse code (BError (lit msg)).
Definition good (b : body) : response := mkResponse 200 b.

(** [controlPatch] *)
Record controlPatch := mkPatch {
  cp_EngineID : option str; cp_ID : option str; cp_Rate : option float64;
  cp_Paused : option bool; cp_Pause : option bool; cp_Resume : option bool }.

(** [transportsPostBody] *)
Record transportsPostBody := mkTransportsPost {
  tp_Listeners : list (Z * bool); tp_Clients : list (str * bool); tp_Index : option Z; tp_Enabled : option bool }.

Inductive route :=
  | GetAuthStatus | PostAuthLogin (credentials : option (str * str)) | GetHealth | GetStats
  | GetScenario | PutScenario (content : option str) (apply : str)
  | PostScenarioApply (contentType : str) (content : option str)
  | GetControl | PostControl (patch : option controlPatch)
  | GetTransports | PostTransports (toggles : option transportsPostBody)
  | GetClients | PostClients (content : option str) (id : str) (metaID : option str) | DeleteClients (id : str)
  | GetLive.

Definition maxScenarioBodyBytes : Z := 16777216.
Definition maxClientsPostBody : Z := 1048576.

(** ** Reading *)

Section Reading.

Context (cfg : ServerConfig) (now : Z).

Definition summaryOf (w : world) (r : eref) : option Summary := (fun e => CollectorSnapshot now (en_stats e)) <$> deref w r.

Definition rowsOf {A} (f : eref -> option A) (l : list (eref * str)) : list (str * A) :=
  omap (fun x => (fun a => (x.2, a)) <$> f x.1) l.

Definition dynamicIDs (w : world) : option (list str) := snd <$> LiveExtras w.

Definition statsOf (e : Engine) (w : world) : statsBody :=
  match mergedExtras cfg w with
  | [] => StatsOne (CollectorSnapshot now (en_stats e)) (dynamicIDs w)
  | extras =>
    let first := match TrimSpace (sv_StatsPrimaryID cfg) with [] => lit "primary" | pid => pid end in
    StatsMulti ((first, CollectorSnapshot now (en_stats e)) :: rowsOf (summaryOf w) extras) (dynamicIDs w)
  end.

Definition handleStats (w : world) : response :=
  match w_engine w with
  | None => bad 503 "engine unavailable"
  | Some e => good (BStats (statsOf e w))
  end.

Definition controlRow (w : world) (r : eref) : option (float64 * bool) :=
  (fun e => (rc_rate (en_rate e), rc_paused (en_rate e))) <$> deref w r.

Definition controlOf (e : Engine) (w : world) : controlBody :=
  match mergedExtras cfg w with
  | [] => ControlOne (rc_rate (en_rate e)) (rc_paused (en_rate e))
  | extras =>
    let first := match TrimSpace (sv_StatsPrimaryID cfg) with [] => lit "primary" | pid => pid end in
    ControlMulti ((first, rc_rate (en_rate e), rc_paused (en_rate e))
                  :: map (fun x => (x.1, x.2.1, x.2.2)) (rowsOf (controlRow w) extras))
  end.

Definition handleControlGet (w : world) : response :=
  match w_engine w with
  | None => bad 503 "engine unavailable"
  | Some e => good (BControl (controlOf e w))
  end.

Definition collectClientTransportSummaries (e : Engine) (w : world) : list ClientTransportSummary :=
  match clientTransportSummary (statsPrimaryID cfg) e with Some s => [s] | None => [] end
  ++ omap (fun x => deref w x.1 ≫= clientTransportSummary x.2) (mergedExtras cfg w).

Definition markDynamicClientRows (w : world) (rows : list ClientTransportSummary) : list ClientTransportSummary :=
  match LiveExtras w with
  | None => rows
  | Some (_, ids) =>
    let dyn := filter (fun id => id <> []) (map TrimSpace ids) in
    map (fun s => if bool_decide (ct_ID s ∈ dyn)
                  then mkClientSummary (ct_ID s) (ct_ScenarioName s) true (ct_Transport s) (ct_LocalIP s) (ct_LocalPort s)
                         (ct_RemoteAddr s) (ct_Accepting s)
                  else s) rows
  end.

Definition clientsOf (e : Engine) (w : world) : list ClientTransportSummary :=
  markDynamicClientRows w (collectClientTransportSummaries e w).

Definition buildTransportsGetResponse (e : Engine) (w : world) : transportsBody :=
  mkTransports (TransportListenerStates e) (clientsOf e w) (isSome (w_coord w)) (isSome (w_coord w)).

Definition handleTransportsGet (w : world) : response :=
  match w_engine w with
  | None => bad 503 "engine unavailable"
  | Some e => good (BTransports (buildTransportsGetResponse e w))
  end.

Definition handleClientsGet (w : world) : response :=
  match w_engine w with
  | None => bad 503 "engine unavailable"
  | Some e => good (BClients (clientsOf e w) (isSome (w_coord w)) (isSome (w_coord w)) (default [] (dynamicIDs w)))
  end.

Definition handleScenarioGet (w : world) : response :=
  if bool_decide (sv_ScenarioFile cfg = []) then good (BScenario [] (sv_ScenarioName cfg) [] true)
  else match w_files w !! sv_ScenarioFile cfg with
       | None => bad 500 "read scenario file"
       | Some xml => good (BScenario (sv_ScenarioFile cfg) (sv_ScenarioName cfg) xml false)
       end.

(** [snapshotForLive] without its time stamp: what a WebSocket client is sent *)
Record live := mkLive { lv_stats : statsBody; lv_control : controlBody; lv_transports : transportsBody }.

Definition snapshotForLive (w : world) : option live :=
  match w_engine w with
  | None => None
  | Some e =>
    let dyn := dynamicIDs w in
    let t := buildTransportsGetResponse e w in
    let snap := CollectorSnapshot now (en_stats e) in
    Some match mergedExtras cfg w with
    | [] => mkLive (StatsOne snap dyn) (ControlOne (rc_rate (en_rate e)) (rc_paused (en_rate e))) t
    | extras =>
      let first := match TrimSpace (sv_StatsPrimaryID cfg) with [] => lit "primary" | pid => pid end in
      mkLive (StatsMulti ((first, snap) :: rowsOf (summaryOf w) extras) dyn)
        (ControlMulti ((first, rc_rate (en_rate e), rc_paused (en_rate e))
                       :: map (fun x => (x.1, x.2.1, x.2.2)) (rowsOf (controlRow w) extras))) t
    end
  end.

End Reading.

(** ** Files *)

(** [atomicWriteFile]: the steps that may fail, in their order *)
Inductive write_step := WCreate | WWrite | WSync | WClose | WChmod | WRename.

Section Writing.

(** The name [os.CreateTemp] picks, whether a step fails, how much of the data a
    failing write leaves *)
Context (tmpName : str -> str) (stepFails : write_step -> bool) (partial : str -> str).

Definition atomicWriteFile (path data : str) (fs : gmap str str) : bool * gmap str str :=
  if stepFails WCreate then (false, fs)
  else
    let tmp := tmpName (Dir path) in
    let fs := <[tmp := []]> fs in
    if stepFails WWrite then (false, delete tmp (<[tmp := partial data]> fs))
    else
      let fs := <[tmp := data]> fs in
      if stepFails WSync || stepFails WClose || stepFails WChmod || stepFails WRename then (false, delete tmp fs)
      else (true, <[path := data]> (delete tmp fs)).

End Writing.

(** ** Changing *)

Section Changing.

Context `{AuthLib}.
Context (Latin1Bytes : str -> option str) (compiles : str -> bool).
Context (tmpName : str -> str) (stepFails : write_step -> bool) (partial : str -> str).

(** What the launcher makes of a client's JSON, and the engine it starts *)
Context (prepare : str -> prepared) (loggerOK : bool) (start : str -> Engine).

Context (cfg : ServerConfig) (now : Z).

Definition validateScenario (sc : Scenario) : option str :=
  match sv_Validate cfg with None => None | Some f => f sc end.

(** Replacing the scenario of the first engine *)
Definition applyScenario (sc : Scenario) (unavailable : string) (ok : body) (w : world) : response * world :=
  match w_engine w with
  | None => (bad 503 unavailable, w)
  | Some e =>
    match TryReplaceLiveScenario sc e with
    | None => (bad 409 "scenario mode does not match startup mode (restart required)", w)
    | Some _ => (good ok, update Primary (set_live sc) w)
    end
  end.

Definition handleScenarioPut (content : option str) (apply : str) (w : world) : response * world :=
  let file := sv_ScenarioFile cfg in
  if bool_decide (file = []) then (bad 400 "scenario file path is required (-sf)", w)
  else match content with
  | None => (bad 400 "read body", w)
  | Some data =>
    if maxScenarioBodyBytes <? Z.of_nat (length data) then (bad 413 "scenario body too large", w)
    else match ParseText Latin1Bytes compiles data with
    | Err _ => (bad 400 "parse scenario", w)
    | Ok sc =>
      let sc := withBasePath (Dir file) sc in
      match validateScenario sc with
      | Some msg => (mkResponse 400 (BError msg), w)
      | None =>
        match atomicWriteFile tmpName stepFails partial file data (w_files w) with
        | (false, fs) => (bad 500 "write scenario file", set_files fs w)
        | (true, fs) =>
          let w := set_files fs w in
          if bool_decide (apply = lit "1") || bool_decide (apply = lit "true")
          then applyScenario sc "engine unavailable for apply" (BWritten file true) w
          else (good (BWritten file false), w)
        end
      end
    end
  end.

(** The media type of a Content-Type header *)
Definition mediaType (contentType : str) : str :=
  TrimSuffix (default [] (head (Split (ToLower (TrimSpace contentType)) x3b))) (lit " ").

(** The scenario that a request to apply names: the one it carries, or the file *)
Definition scenarioToApply (contentType : str) (content : option str) (w : world) : result response Scenario :=
  let file := sv_ScenarioFile cfg in
  let ct := mediaType contentType in
  if bool_decide (ct = lit "application/xml") || bool_decide (ct = lit "text/xml") then
    match content with
    | None => Err (bad 400 "read body")
    | Some data =>
      if maxScenarioBodyBytes <? Z.of_nat (length data) then Err (bad 413 "scenario body too large")
      else match ParseText Latin1Bytes compiles data with
           | Err _ => Err (bad 400 "parse scenario")
           | Ok sc => Ok (if bool_decide (file = []) then sc else withBasePath (Dir file) sc)
           end
    end
  else if bool_decide (file = []) then Err (bad 400 "POST /scenario/apply without XML body")
  else match w_files w !! file with
       | None => Err (bad 400 "parse scenario file")
       | Some data => match ParseFile Latin1Bytes compiles file data with
                      | Err _ => Err (bad 400 "parse scenario file")
                      | Ok sc => Ok sc
                      end
       end.

Definition handleScenarioApply (contentType : str) (content : option str) (w : world) : response * world :=
  match w_engine w with
  | None => (bad 503 "engine unavailable", w)
  | Some _ =>
    match scenarioToApply contentType content w with
    | Err r => (r, w)
    | Ok sc =>
      match validateScenario sc with
      | Some msg => (mkResponse 400 (BError msg), w)
      | None => applyScenario sc "engine unavailable" BApplied w
      end
    end
  end.

(** The closure [apply] of [handleControlPost], on one engine *)
Definition applyPatch (p : controlPatch) (r : RateController) : RateController :=
  let r := match cp_Rate p with Some x => SetRate x now r | None => r end in
  let r := match cp_Paused p with Some true => Pause r | Some false => Resume now r | None => r end in
  let r := match cp_Pause p with Some true => Pause r | _ => r end in
  match cp_Resume p with Some true => Resume now r | _ => r end.

Definition applyTo (p : controlPatch) (w : world) (r : eref) : world := update r (on_rate (applyPatch p)) w.

Definition controlTarget (p : controlPatch) : str :=
  match cp_EngineID p, cp_ID p with Some id, _ => TrimSpace id | None, Some id => TrimSpace id | None, None => [] end.

Definition handleControlPost (patch : option controlPatch) (w : world) : response * world :=
  match w_engine w with
  | None => (bad 503 "engine unavailable", w)
  | Some _ =>
    match patch with
    | None => (bad 400 "invalid json", w)
    | Some p =>
      match controlTarget p with
      | [] => let w := foldl (applyTo p) w (Primary :: map fst (mergedExtras cfg w)) in (handleControlGet cfg w, w)
      | id =>
        match engineByID cfg w id with
        | None => (bad 404 "engine not found", w)
        | Some r => let w := applyTo p w r in (handleControlGet cfg w, w)
        end
      end
    end
  end.

(** The toggles of [handleTransportsPost], one after the other; the first error
    ends them. *)
Fixpoint toggleListeners (ops : list (Z * bool)) (w : world) : bool * world :=
  match ops with
  | [] => (true, w)
  | (index, enabled) :: ops =>
    match w_engine w with
    | None => (false, w)
    | Some e => match SetTransportListenerEnabled index enabled e with
                | Err _ => (false, w)
                | Ok e => toggleListeners ops (update Primary (fun _ => e) w)
                end
    end
  end.

Fixpoint toggleClients (ops : list (str * bool)) (w : world) : bool * world :=
  match ops with
  | [] => (true, w)
  | (id, accepting) :: ops =>
    match engineForClientTransportID cfg w id with
    | None => (false, w)
    | Some r =>
      match deref w r ≫= clientTransportSummary id with
      | None => (false, w)
      | Some _ => toggleClients ops (update r (on_rate (if accepting : bool then Resume now else Pause)) w)
      end
    end
  end.

Definition listenerOps (t : transportsPostBody) : list (Z * bool) :=
  match tp_Listeners t, tp_Index t, tp_Enabled t with
  | [], Some i, Some b => [(i, b)]
  | l, _, _ => l
  end.

Definition handleTransportsPost (toggles : option transportsPostBody) (w : world) : response * world :=
  match w_engine w with
  | None => (bad 503 "engine unavailable", w)
  | Some _ =>
    match toggles with
    | None => (bad 400 "invalid json", w)
    | Some t =>
      match listenerOps t, tp_Clients t with
      | [], [] => (bad 400 "provide listeners[] or index+enabled, and/or clients[{id,accepting}]", w)
      | ops, clients =>
        match toggleListeners ops w with
        | (false, w) => (bad 400 "listener toggle", w)
        | (true, w) =>
          match toggleClients clients w with
          | (false, w) => (bad 400 "client toggle", w)
          | (true, w) => (handleTransportsGet cfg w, w)
          end
        end
      end
    end
  end.

Definition handleClientsPost (content : option str) (id : str) (metaID : option str) (w : world) : response * world :=
  match w_coord w with
  | None => (bad 404 "dynamic clients are not enabled for this process", w)
  | Some c =>
    match content with
    | None => (bad 400 "read body", w)
    | Some data =>
      if maxClientsPostBody <? Z.of_nat (length data) then (bad 413 "client snippet too large", w)
      else
        let want := match TrimSpace id with [] => match metaID with Some m => TrimSpace m | None => [] end | want => want end in
        match Add (prepare data) loggerOK want c with
        | Some (Ok assigned, c') => (mkResponse 201 (BStarted assigned), set_coord c' (w_dynamic w ++ [start data]) w)
        | Some (Err _, c') => (bad 400 "client refused", set_coord c' (w_dynamic w) w)
        | None => (bad 400 "client refused", w)
        end
    end
  end.

Definition handleClientsDelete (id : str) (w : world) : response * world :=
  match w_coord w with
  | None => (bad 404 "dynamic client removal is not enabled for this process", w)
  | Some c =>
    match TrimSpace id with
    | [] => (bad 400 "query parameter id is required", w)
    | id => match Remove id c with
            | (Err _, c') => (bad 400 "unknown client", set_coord c' (w_dynamic w) w)
            | (Ok _, c') => (mkResponse 204 BNone, set_coord c' (w_dynamic w) w)
            end
    end
  end.

(** ** Authorisation *)

Definition checkLegacyAPIToken (r : request) : bool :=
  if bool_decide (sv_Token cfg = []) then true
  else if bool_decide (rq_Authorization r = lit "Bearer " ++ sv_Token cfg) then true
  else let q := TrimSpace (rq_token r) in negb (bool_decide (q = [])) && bool_decide (q = sv_Token cfg).

Definition authorizeRequest (r : request) : bool :=
  match enabled (sv_auth cfg) with Some a => ValidRequest now r a | None => checkLegacyAPIToken r end.

(** [handleAuthStatus] and [handleAuthLogin] of the legacy API *)
Definition legacyAuthStatus : response := good (BAuth (if isSome (enabled (sv_auth cfg)) then lit "internal" else lit "none")).

Definition legacyAuthLogin (credentials : option (str * str)) : response :=
  match enabled (sv_auth cfg) with
  | None => bad 404 "internal auth is not enabled"
  | Some a =>
    match credentials with
    | None => bad 400 "invalid json"
    | Some (username, password) =>
      match Login now username password a with
      | Err _ => bad 401 "invalid credentials"
      | Ok (tok, exp) => good (BToken tok exp)
      end
    end
  end.

(** The handler behind [wrap] *)
Definition dispatch (rt : route) (w : world) : response * world :=
  match rt with
  | GetAuthStatus => (legacyAuthStatus, w)
  | PostAuthLogin c => (legacyAuthLogin c, w)
  | GetHealth => (good BOk, w)
  | GetStats => (handleStats cfg now w, w)
  | GetScenario => (handleScenarioGet cfg w, w)
  | PutScenario content apply => handleScenarioPut content apply w
  | PostScenarioApply ct content => handleScenarioApply ct content w
  | GetControl => (handleControlGet cfg w, w)
  | PostControl p => handleControlPost p w
  | GetTransports => (handleTransportsGet cfg w, w)
  | PostTransports t => handleTransportsPost t w
  | GetClients => (handleClientsGet cfg w, w)
  | PostClients content id meta => handleClientsPost content id meta w
  | DeleteClients id => handleClientsDelete id w
  | GetLive => (match w_engine w with None => bad 503 "engine unavailable" | Some _ => mkResponse 101 BNone end, w)
  end.

(** Routes served without a look at the credentials *)
Definition open_route (rt : route) : bool :=
  match rt with GetAuthStatus | PostAuthLogin _ => true | _ => false end.

(** [Handler]: the legacy routes of the server *)
Definition serve (rt : route) (r : request) (w : world) : response * world :=
  if negb (sv_LegacyV1 (New cfg)) then (mkResponse 404 BNone, w)
  else if open_route rt then dispatch rt w
  else
    match rt, w_engine w with
    | GetLive, None => (bad 503 "engine unavailable", w)
    | _, _ => if authorizeRequest r then dispatch rt w else (bad 401 "unauthorized", w)
    end.

End Changing.

(** ** References *)

Lemma deref_update r r' f w : deref (update r f w) r' = if decide (r = r') then f <$> deref w r' else deref w r'.
Proof.
  destruct r as [|i|n], r' as [|j|m]; simpl; try done; case_decide as E; simplify_eq.
  - rewrite list_lookup_alter_eq. destruct (w_extras w !! j) as [[]|]; done.
  - rewrite list_lookup_alter_ne; [done|]. intros ->. done.
  - by rewrite list_lookup_alter_eq.
  - rewrite list_lookup_alter_ne; [done|]. intros ->. done.
Qed.

Lemma update_frame r f w :
  w_coord (update r f w) = w_coord w /\ w_files (update r f w) = w_files w
  /\ isSome (w_engine (update r f w)) = isSome (w_engine w).
Proof. destruct r; simpl; [by destruct (w_engine w)|done|done]. Qed.

Lemma namedExtras_alter i f : forall l j ids k,
  namedExtras j (alter (fmap f) i l) ids k = namedExtras j l ids k.
Proof.
  revert i. intros i l. revert i. induction l as [|[e|] l IH]; intros [|i] j ids k; csimpl; try done; by rewrite IH.
Qed.

Lemma namedDynamic_ext w w' engines ids k :
  (forall n, isSome (w_dynamic w' !! n) = isSome (w_dynamic w !! n)) ->
  namedDynamic w' engines ids k = namedDynamic w engines ids k.
Proof.
  intros E. revert ids k. induction engines as [|n l IH]; intros ids k; simpl; [done|]. specialize (E n).
  destruct (w_dynamic w' !! n), (w_dynamic w !! n); try done; by rewrite ?IH.
Qed.

(** Which engines there are, and their names, does not depend on their state. *)
Lemma mergedExtras_update cfg r f w : mergedExtras cfg (update r f w) = mergedExtras cfg w.
Proof.
  unfold mergedExtras, LiveExtras. destruct (update_frame r f w) as (-> & _ & _).
  assert (namedExtras 0 (w_extras (update r f w)) (sv_ExtraIDs cfg) 0 = namedExtras 0 (w_extras w) (sv_ExtraIDs cfg) 0) as ->.
  { destruct r; simpl; [done|apply namedExtras_alter|done]. }
  destruct (w_coord w); simpl; [|done]. f_equal. apply namedDynamic_ext. intros m.
  destruct r as [|i|n]; simpl; try done. destruct (decide (m = n)) as [-> | Hne];
    [rewrite list_lookup_alter_eq|by rewrite list_lookup_alter_ne]. by destruct (w_dynamic w !! n).
Qed.

(** ** Control *)

Section Control.

Context (cfg : ServerConfig) (now : Z).

Lemma applyPatch_idem p r : applyPatch now p (applyPatch now p r) = applyPatch now p r.
Proof. destruct p as [a b [x|] [[]|] [[]|] [[]|]]; done. Qed.

(** What a patch leaves: the rate given, made positive, and the last word on
    pausing: resume, then pause, then paused. *)
Lemma applyPatch_effect p r :
  rc_rate (applyPatch now p r) = match cp_Rate p with Some x => sanitizeRate x | None => rc_rate r end
  /\ rc_paused (applyPatch now p r)
     = match cp_Resume p, cp_Pause p, cp_Paused p with
       | Some true, _, _ => false | _, Some true, _ => true | _, _, Some b => b | _, _, None => rc_paused r end
  /\ rc_stopped (applyPatch now p r) = rc_stopped r.
Proof. destruct p as [a b [x|] [[]|] [[]|] [[]|]]; done. Qed.

Lemma applyAll_deref p l w r :
  deref (foldl (applyTo now p) w l) r
  = if bool_decide (r ∈ l) then on_rate (applyPatch now p) <$> deref w r else deref w r.
Proof.
  revert w. induction l as [|x l IH]; intros w; cbn [foldl]; [case_bool_decide; [set_solver|done]|].
  rewrite IH. unfold applyTo. rewrite deref_update. destruct (decide (x = r)) as [-> | Hne].
  - rewrite (bool_decide_eq_true_2 (r ∈ r :: l)) by set_solver. case_bool_decide; [|done].
    destruct (deref w r) as [e|]; [|done]. simpl. f_equal. unfold on_rate. simpl. by rewrite applyPatch_idem.
  - rewrite (bool_decide_ext (r ∈ x :: l) (r ∈ l)); [done|]. set_solver.
Qed.

(** The engines a patch is for *)
Definition selected (p : controlPatch) (w : world) : list eref :=
  match controlTarget p with
  | [] => map fst (shown cfg w)
  | id => match engineByID cfg w id with Some r => [r] | None => [] end
  end.

(** A control request changes exactly the engines it is for: all that are
    shown when it names none, the one of that name when it names one, none when
    the name is unknown (404).  Each gets the rate of the request and the pause
    state that resume, pause and paused give in this order; nothing else of it,
    and no file, changes. *)
Theorem control_exact p w e :
  w_engine w = Some e ->
  let '(resp, w') := handleControlPost cfg now (Some p) w in
  (forall r, deref w' r = if bool_decide (r ∈ selected p w) then on_rate (applyPatch now p) <$> deref w r else deref w r)
  /\ w_coord w' = w_coord w /\ w_files w' = w_files w
  /\ (rs_code resp = 404 <-> selected p w = []).
Proof.
  intros He. unfold handleControlPost, selected. rewrite He.
  assert (forall l w, w_coord (foldl (applyTo now p) w l) = w_coord w /\ w_files (foldl (applyTo now p) w l) = w_files w
    /\ isSome (w_engine (foldl (applyTo now p) w l)) = isSome (w_engine w)) as Hf.
  { clear. induction l as [|x l IH]; intros w; [done|]. simpl. destruct (IH (applyTo now p w x)) as (-> & -> & ->). apply update_frame. }
  assert (forall l, rs_code (handleControlGet cfg (foldl (applyTo now p) w l)) = 404 <-> False) as H404.
  { intros l. destruct (Hf l w) as (_ & _ & Hs). rewrite He in Hs. unfold handleControlGet.
    destruct (w_engine (foldl _ _ _)); [simpl; lia|done]. }
  destruct (controlTarget p) as [|a t].
  - split; [intros r; apply applyAll_deref|]. destruct (Hf (Primary :: map fst (mergedExtras cfg w)) w) as (-> & -> & _).
    split_and!; [done|done|]. rewrite H404. done.
  - destruct (engineByID cfg w (a :: t)) as [r0|].
    + split; [intros r; apply (applyAll_deref p [r0])|]. destruct (Hf [r0] w) as (Hc & Hw & _). split_and!; [exact Hc|exact Hw|].
      pose proof (H404 [r0]) as H4. simpl in H4. rewrite H4. done.
    + split_and!; [|done|done|done]. intros r. case_bool_decide; [set_solver|done].
Qed.

End Control.

(** ** Authorisation *)

Section Authorisation.

Context `{AuthLib}.
Context (Latin1Bytes : str -> option str) (compiles : str -> bool).
Context (tmpName : str -> str) (stepFails : write_step -> bool) (partial : str -> str).
Context (prepare : str -> prepared) (loggerOK : bool) (start : str -> Engine).
Context (cfg : ServerConfig) (now : Z).

Notation serve := (serve Latin1Bytes compiles tmpName stepFails partial prepare loggerOK start cfg now).

(** The credentials of a request *)
Definition credentials_ok (r : request) : Prop :=
  match enabled (sv_auth cfg) with
  | Some a => ValidRequest now r a = true
  | None => sv_Token cfg = [] \/ rq_Authorization r = lit "Bearer " ++ sv_Token cfg \/ TrimSpace (rq_token r) = sv_Token cfg
  end.

Lemma authorizeRequest_iff r : authorizeRequest cfg now r = true <-> credentials_ok r.
Proof.
  unfold authorizeRequest, credentials_ok. destruct (enabled (sv_auth cfg)); [done|]. unfold checkLegacyAPIToken.
  case_bool_decide as E1; [tauto|]. case_bool_decide as E2; [tauto|]. rewrite andb_true_iff, negb_true_iff.
  rewrite bool_decide_eq_false, bool_decide_eq_true. split; [tauto|]. intros [|[|E]]; [done|done|]. split; congruence.
Qed.


(** ** Replacing the scenario *)

Lemma atomicWriteFile_ok path data fs :
  fs !! tmpName (Dir path) = None -> tmpName (Dir path) <> path ->
  let '(ok, fs') := atomicWriteFile tmpName stepFails partial path data fs in
  fs' = if ok then <[path := data]> fs else fs.
Proof.
  intros Hn Hne. unfold atomicWriteFile. destruct (stepFails WCreate); [done|].
  destruct (stepFails WWrite); [by rewrite insert_insert_eq, delete_insert_id|].
  destruct (_ || _); rewrite insert_insert_eq, delete_insert_id by done; done.
Qed.

(** The file and, on request, the live scenario replaced by a valid one *)
Definition scenario_replaced (content : option str) (apply : str) (w w' : world) : Prop :=
  let file := sv_ScenarioFile cfg in
  exists data sc, content = Some data /\ w_files w' = <[file := data]> (w_files w)
    /\ ParseFile Latin1Bytes compiles file data = Ok sc /\ validateScenario cfg sc = None /\ scenario_wf sc
    /\ handleScenarioGet cfg w' = good (BScenario file (sv_ScenarioName cfg) data false)
    /\ (w_engine w' = w_engine w
        \/ exists e, w_engine w = Some e /\ sc_Mode sc = en_Mode e /\ w_engine w' = Some (set_live sc e)
             /\ (apply = lit "1" \/ apply = lit "true")).

Lemma mode_eqb_eq a b : mode_eqb a b = true -> a = b.
Proof. by destruct a, b. Qed.

Lemma replaced_intro data sc apply w w' :
  let file := sv_ScenarioFile cfg in
  file <> [] -> ParseText Latin1Bytes compiles data = Ok sc -> validateScenario cfg (withBasePath (Dir file) sc) = None ->
  w_files w' = <[file := data]> (w_files w) ->
  (w_engine w' = w_engine w
   \/ exists e, w_engine w = Some e /\ sc_Mode sc = en_Mode e /\ w_engine w' = Some (set_live (withBasePath (Dir file) sc) e)
        /\ (apply = lit "1" \/ apply = lit "true")) ->
  scenario_replaced (Some data) apply w w'.
Proof.
  intros file Hf Hp Hv Hw He. exists data, (withBasePath (Dir file) sc). split_and!; [done|done| |done| | |exact He].
  - unfold ParseFile. by rewrite Hp.
  - exact (ParseText_wf _ _ _ _ Hp).
  - unfold handleScenarioGet. fold file. rewrite bool_decide_eq_false_2 by done. by rewrite Hw, lookup_insert_eq.
Qed.

(** C37: Putting a scenario either leaves the file as it was or replaces it by the
    whole text of the request, never by a part, and leaves no temporary file;
    it is replaced only by a text that parses and passes validation, and then
    reading it back gives that text and parsing the file gives that scenario.
    The live scenario changes only to that scenario, on request, when its mode
    is the engine's. *)
Theorem scenario_put_atomic content apply w :
  let file := sv_ScenarioFile cfg in
  w_files w !! tmpName (Dir file) = None -> tmpName (Dir file) <> file ->
  let '(resp, w') := handleScenarioPut Latin1Bytes compiles tmpName stepFails partial cfg content apply w in
  (w' = w /\ 400 <= rs_code resp) \/ scenario_replaced content apply w w'.
Proof.
  intros file Hn Hne. unfold handleScenarioPut. fold file.
  case_bool_decide as Ef; [left; split; [done|simpl; lia]|].
  destruct content as [data|]; [|left; split; [done|simpl; lia]].
  destruct (maxScenarioBodyBytes <? _); [left; split; [done|simpl; lia]|].
  destruct (ParseText Latin1Bytes compiles data) as [sc|] eqn:Ep; [|left; split; [done|simpl; lia]].
  destruct (validateScenario cfg _) eqn:Ev; [left; split; [done|simpl; lia]|].
  pose proof (atomicWriteFile_ok file data (w_files w) Hn Hne) as Hw.
  destruct (atomicWriteFile _ _ _ _ _ _) as [[] fs]; subst fs; [|left; split; [by destruct w|simpl; lia]].
  destruct (bool_decide (apply = lit "1") || bool_decide (apply = lit "true")) eqn:Ea;
    [|right; apply (replaced_intro data sc); auto].
  unfold applyScenario, TryReplaceLiveScenario. simpl. destruct (w_engine w) as [e|] eqn:Ee.
  - destruct (mode_eqb _ _) eqn:Em; right; apply (replaced_intro data sc); simpl; rewrite ?Ee; auto. right. exists e.
    apply mode_eqb_eq in Em. split_and!; [done|done|done|]. apply orb_true_iff in Ea as [Ea|Ea]; apply bool_decide_eq_true in Ea; auto.
  - right. apply (replaced_intro data sc); simpl; rewrite ?Ee; auto.
Qed.

End Authorisation.

(** ** Examples *)

Definition tinyScenario : Scenario := mkScenario (lit "s") (lit ".") ModeClient false [] [] ∅ ∅ [] [] [].

Definition demoEngine (mode : Mode) (slots : nat) : Engine :=
  mkEngine mode tinyScenario (NewRateController (float_of_int 10) 0) (replicate slots true) (lit "u1") (lit "10.0.0.1") 5060
    (lit "10.0.0.2") 5060 [] (NewCollector 0).

Definition demoWorld : world :=
  mkWorld (Some (demoEngine ModeServer 1)) [Some (demoEngine ModeClient 0); None] [] (Some (NewLoadCoordinator [] []))
    {[lit "/s.xml" := lit "old"]}.

Definition demoServer (id token : string) : ServerConfig :=
  mkServerConfig [lit "load"] (lit id) (lit "/s.xml") [] (lit token) None None true false.

Definition pausePatch (id : string) : controlPatch := mkPatch (Some (lit id)) None None (Some true) None None.

Definition noCredentials : request := mkRequest [] [] [] [].

Definition nopText : str := quoted "<scenario name=`n`><nop/></scenario>".

Definition tmpIn (dir : str) : str := dir ++ lit "/.tmp".

Lemma control_exact_witness :
  let w' := (handleControlPost (demoServer "" "") 5 (Some (pausePatch "load")) demoWorld).2 in
  (forall r, deref w' r = if bool_decide (r ∈ [Extra 0]) then on_rate (applyPatch 5 (pausePatch "load")) <$> deref demoWorld r
                          else deref demoWorld r)
  /\ w_coord w' = w_coord demoWorld.
Proof.
  pose proof (control_exact (demoServer "" "") 5 (pausePatch "load") demoWorld (demoEngine ModeServer 1) eq_refl) as H.
  assert (selected (demoServer "" "") (pausePatch "load") demoWorld = [Extra 0]) as E by (vm_compute; reflexivity).
  destruct (handleControlPost (demoServer "" "") 5 (Some (pausePatch "load")) demoWorld) as [resp w']. rewrite E in H.
  destruct H as (H1 & H2 & _). split; [exact H1|exact H2].
Defined.


Lemma scenario_put_atomic_witness :
  let w' := (handleScenarioPut (fun _ => None) (fun _ => true) tmpIn (fun _ => false) (fun _ => []) (demoServer "" "")
               (Some nopText) [] demoWorld).2 in
  w' = demoWorld \/ w_files w' = <[lit "/s.xml" := nopText]> (w_files demoWorld).
Proof.
  pose proof (scenario_put_atomic (fun _ => None) (fun _ => true) tmpIn (fun _ => false) (fun _ => []) (demoServer "" "")
    (Some nopText) [] demoWorld) as H.
  destruct (handleScenarioPut _ _ _ _ _ _ _ _ demoWorld) as [resp w']. cbv zeta in *. cbn [snd].
  destruct H as [[H _] | (data & sc & [= <-] & Hw & _)]; [vm_compute; reflexivity|vm_compute; discriminate|by left|by right].
Defined.

(** ** What goes wrong *)

(** A scenario of the other mode is written to the file although applying it is
    refused: the next start reads it. *)
Theorem refused_scenario_stays :
  let '(resp, w) := handleScenarioPut (fun _ => None) (fun _ => true) tmpIn (fun _ => false) (fun _ => []) (demoServer "" "")
                      (Some nopText) (lit "1") demoWorld in
  rs_code resp = 409 /\ w_files w !! lit "/s.xml" = Some nopText.
Proof. vm_compute. split; reflexivity. Qed.

(** A request with a bad second toggle is refused, and the first one done. *)
Theorem toggles_not_atomic :
  let '(resp, w) := handleTransportsPost (demoServer "" "") 5
                      (Some (mkTransportsPost [(0, false); (9, false)] [] None None)) demoWorld in
  rs_code resp = 400 /\ (en_accept <$> w_engine w) = Some [false] /\ (en_accept <$> w_engine demoWorld) = Some [true].
Proof. vm_compute. split_and!; reflexivity. Qed.

(** With a name of its own, the first engine is also called [primary] in control
    requests, and is not in transport requests. *)
Theorem primary_known_to_control_only cfg w e :
  w_engine w = Some e -> lit "primary" <> statsPrimaryID cfg -> (forall x, x ∈ mergedExtras cfg w -> x.2 <> lit "primary") ->
  engineByID cfg w (lit "primary") = Some Primary /\ engineForClientTransportID cfg w (lit "primary") = None.
Proof.
  intros He Hp Hx. unfold engineByID, engineForClientTransportID. rewrite He.
  change (TrimSpace (lit "primary")) with (lit "primary"). cbn [isSome negb orb].
  rewrite (bool_decide_eq_false_2 (lit "primary" = [])) by done. cbn [orb].
  rewrite (bool_decide_eq_true_2 (lit "primary" = lit "primary")) by done. split; [done|].
  rewrite bool_decide_eq_false_2 by done. unfold findEngine. destruct (List.find _ _) as [x|] eqn:E; [|done].
  apply List.find_some in E as [Hin E]. apply bool_decide_eq_true in E. apply list_elem_of_In in Hin. by apply Hx in Hin.
Qed.
