(* ===== verification/WorkerConfig.v ===== *)
(** * The configuration of a worker

    [src/internal/supervisor/profile_cfg.go] and [src/internal/uistore/preprocess.go]:
    how a worker process turns the spec of its job into the configuration of an
    engine.  The profile of the store is laid over the defaults, then the
    scenario, the directories of the job and the overrides of the spec. *)

From stdpp Require Import base list gmap sets strings.
From Stdlib Require Import ZArith Lia Strings.Byte.
From S2P Require Import Prelude GoStrings GoFloat SafePath Regex Supervisor UiStore CliConfig Xml ScenarioXml Defaults.

(** ** Layout ([layout.go]) *)

(** [New]; [None] when the root is blank or has no absolute path *)
Definition New (cwd : option str) (root : str) : option str :=
  match TrimSpace root with [] => None | r => Abs cwd r end.

Definition WavDir (root : str) : str := JoinPath [root; lit "media"; lit "wav"].
Definition PcapDir (root : str) : str := JoinPath [root; lit "media"; lit "pcap"].

Definition mediaDir (root : str) (kind : MediaKind) : option str :=
  match kind with MediaWav => Some (WavDir root) | MediaPcap => Some (PcapDir root) | MediaOther _ => None end.

Definition MediaPath (root : str) (kind : MediaKind) (name : str) : option str :=
  if isSafeFileName name then (fun d => JoinPath [d; name]) <$> mediaDir root kind else None.

(** ** References to media ([preprocess.go]) *)

Definition name_byte (b : byte) : bool :=
  in_range 65 90 b || in_range 97 122 b || in_range 48 57 b || beqb b x2e || beqb b x5f || beqb b x2d.

Definition kind_re : re := Alt (text "wav") (text "pcap").
Definition mediaRefPattern : re :=
  Cat (text "[[") (Cat (Star re_space) (Cat (text "media:") (Cat kind_re (Cat (chr slash)
    (Cat (Plus name_byte) (Cat (Star re_space) (text "]]"))))))).

Fixpoint takeWhile (p : byte -> bool) (s : str) : str :=
  match s with c :: r => if p c then c :: takeWhile p r else [] | [] => [] end.
Fixpoint dropWhile (p : byte -> bool) (s : str) : str :=
  match s with c :: r => if p c then dropWhile p r else s | [] => [] end.

(** The two groups of a match ([FindStringSubmatch]) *)
Definition groups (m : str) : MediaKind * str :=
  let s := drop 6 (dropWhile re_space (drop 2 m)) in
  let k := takeWhile (fun b => negb (beqb b slash)) s in
  let name := takeWhile name_byte (drop (S (length k)) s) in
  ((if bool_decide (k = lit "wav") then MediaWav else if bool_decide (k = lit "pcap") then MediaPcap else MediaOther k), name).

(** A text cut into what matches and the bytes between *)
Inductive segment := Plain (b : byte) | Ref (m : str).

Fixpoint segments (fuel : nat) (s : str) : list segment :=
  match fuel, s with
  | S fuel, c :: r =>
    match matches mediaRefPattern s with
    | Some rest => Ref (take (length s - length rest) s) :: segments fuel rest
    | None => Plain c :: segments fuel r
    end
  | _, _ => []
  end.

Definition refPath (root : str) (m : str) : option str := let '(kind, name) := groups m in MediaPath root kind name.

(** What a segment becomes, and the reference that was refused *)
Definition replaced (root : str) (g : segment) : str :=
  match g with Plain b => [b] | Ref m => default m (refPath root m) end.
Definition refused (root : str) (g : segment) : option str :=
  match g with Plain _ => None | Ref m => match refPath root m with Some _ => None | None => Some m end end.

Definition PreprocessScenarioXML (root xml : str) : str * list str :=
  if negb (Contains xml (lit "[[media:")) then (xml, [])
  else let gs := segments (length xml) xml in (concat (map (replaced root) gs), omap (refused root) gs).

Example preprocess_examples :
  PreprocessScenarioXML (lit "/d") (lit "<exec a='[[media:wav/hi.wav]]' b='[[ media:pcap/x-1 ]]'/>")
    = (lit "<exec a='/d/media/wav/hi.wav' b='/d/media/pcap/x-1'/>", [])
  /\ PreprocessScenarioXML (lit "/d") (lit "[[media:wav/..]] [[media:mp3/a]] [[media:wav/a")
    = (lit "[[media:wav/..]] [[media:mp3/a]] [[media:wav/a", [lit "[[media:wav/..]]"]).
Proof. vm_compute. done. Qed.

(** ** Transports *)

Definition enabledTransports (l : list TransportSpec) : list TransportSpec := List.filter ts_Enabled l.

Definition isWebRTC (t : TransportSpec) : bool := bool_decide (ts_Transport t = lit "webrtc").

Fixpoint splitWebRTC (l : list TransportSpec) : list TransportSpec * list TransportSpec :=
  match l with
  | [] => ([], [])
  | t :: l => let '(sip, webrtcOnly) := splitWebRTC l in
              if isWebRTC t then (sip, t :: webrtcOnly) else (t :: sip, webrtcOnly)
  end.

Definition setWhen (c : bool) (f : string) (v : value) (cfg : Config) : Config := if c then <[f := v]> cfg else cfg.
Definition filled (s : str) : bool := negb (bool_decide (s = [])).

Definition applyWebRTCToConfig (t : TransportSpec) (cfg : Config) : Config :=
  let cfg := setWhen (isWebRTC t) "WebRTCMedia" (VB true) cfg in
  let cfg := setWhen ((0 <? length (ts_ICEServers t))%nat && (length (getL cfg "WebRTCICEServers") =? 0)%nat)
               "WebRTCICEServers" (VL (ts_ICEServers t)) cfg in
  let cfg := setWhen (filled (ts_ICEUsername t) && negb (filled (getS cfg "WebRTCICEUsername")))
               "WebRTCICEUsername" (VS (ts_ICEUsername t)) cfg in
  let cfg := setWhen (filled (ts_ICECredential t) && negb (filled (getS cfg "WebRTCICECredential")))
               "WebRTCICECredential" (VS (ts_ICECredential t)) cfg in
  let cfg := setWhen (filled (ts_ICEAuthSecret t) && negb (filled (getS cfg "WebRTCICEAuthSecret")))
               "WebRTCICEAuthSecret" (VS (ts_ICEAuthSecret t)) cfg in
  let cfg := setWhen ((0 <? ts_ICEAuthTTLSec t) && (getI cfg "WebRTCICEAuthTTLSec" =? 0))
               "WebRTCICEAuthTTLSec" (VI (ts_ICEAuthTTLSec t)) cfg in
  setWhen (ts_PrefersPCMA t) "WebRTCPrefersPCMA" (VB true) cfg.

(** The listener of the first SIP transport, in both kinds of profile *)
Definition applyFirst (first : TransportSpec) (cfg : Config) : Config :=
  let cfg := setWhen (filled (ts_Transport first)) "Transport" (VS (ts_Transport first)) cfg in
  let cfg := setWhen (filled (ts_LocalIP first)) "LocalIP" (VS (ts_LocalIP first)) cfg in
  let cfg := setWhen (negb (ts_LocalPort first =? 0)) "LocalPort" (VI (ts_LocalPort first)) cfg in
  let cfg := setWhen (filled (ts_TLSCertFile first)) "TLSCertFile" (VS (ts_TLSCertFile first)) cfg in
  let cfg := setWhen (filled (ts_TLSKeyFile first)) "TLSKeyFile" (VS (ts_TLSKeyFile first)) cfg in
  let cfg := setWhen (filled (ts_WSPath first)) "WSPath" (VS (ts_WSPath first)) cfg in
  applyWebRTCToConfig first cfg.

Definition listenerOf (t : TransportSpec) : ServerListener := mkServerListener (ts_Transport t) (ts_LocalIP t) (ts_LocalPort t).

Definition applyAll (webrtcOnly : list TransportSpec) (cfg : Config) : Config :=
  foldl (fun cfg t => applyWebRTCToConfig t cfg) cfg webrtcOnly.

Definition applyServerProfileToConfig (p : ServerProfile) (cfg : Config) : Config :=
  let cfg := <["ServerMode"%string := VB true]> cfg in
  let cfg := setWhen (0 <? sp_MaxConcurrent p) "MaxConcurrent" (VI (sp_MaxConcurrent p)) cfg in
  let '(sip, webrtcOnly) := splitWebRTC (enabledTransports (sp_Transports p)) in
  let cfg := applyAll webrtcOnly cfg in
  match sip with
  | [] => cfg
  | first :: others =>
    let cfg := applyFirst first cfg in
    match others with [] => cfg | _ => <["ServerListeners"%string := VLn (map listenerOf sip)]> cfg end
  end.

(** [p.Rate], a number of the profile's JSON *)
Definition rateOf (p : ClientProfile) : float64 := default fzero (ParseFloat (cp_Rate p)).

Definition applyClientProfileToConfig (p : ClientProfile) (cfg : Config) : Config :=
  let cfg := <["ServerMode"%string := VB false]> cfg in
  let cfg := setWhen (filled (cp_RemoteIP p)) "RemoteHost" (VS (cp_RemoteIP p)) cfg in
  let cfg := setWhen (0 <? cp_RemotePort p) "RemotePort" (VI (cp_RemotePort p)) cfg in
  let cfg := setWhen (flt fzero (rateOf p)) "Rate" (VF (rateOf p)) cfg in
  let cfg := setWhen (0 <? cp_MaxConcurrent p) "MaxConcurrent" (VI (cp_MaxConcurrent p)) cfg in
  let cfg := setWhen (0 <? cp_DurationMs p) "GlobalTimeout" (VI (i64 (cp_DurationMs p * ms))) cfg in
  let '(sip, webrtcOnly) := splitWebRTC (enabledTransports (cp_Transports p)) in
  let cfg := applyAll webrtcOnly cfg in
  match sip with [] => cfg | first :: _ => applyFirst first cfg end.

(** ** Overrides of the spec ([overlayEngineJSON])

    The values were decoded from JSON, so that encoding them and decoding them
    again gives the same values, except that an integer is read from the
    decimal text of the number.  [null] leaves a variable at its zero value
    without an error. *)

Definition asString (v : any) : option str := match v with AnyString s => Some s | AnyNull => Some [] | _ => None end.
Definition asInt (v : any) : option Z := match v with AnyNumber x => Atoi (FormatFloat x) | AnyNull => Some 0 | _ => None end.
Definition asFloat (v : any) : option float64 := match v with AnyNumber x => Some x | AnyNull => Some fzero | _ => None end.

Section Overlay.

Context (m : gmap str any).

Definition onKey {A : Type} (k : string) (get : any -> option A) (accept : A -> bool) (set : A -> Config -> Config) (cfg : Config) : Config :=
  match m !! lit k with
  | None => cfg
  | Some v => match get v with Some a => if accept a then set a cfg else cfg | None => cfg end
  end.

Definition ovStr (k f : string) : Config -> Config := onKey k asString filled (fun s => <[f := VS s]>).
Definition ovInt (k f : string) : Config -> Config := onKey k asInt (fun _ => true) (fun n => <[f := VI n]>).
Definition ovFlt (k f : string) : Config -> Config := onKey k asFloat (fun _ => true) (fun x => <[f := VF x]>).

Definition overlayEngineJSON (cfg : Config) : Config :=
  let cfg := ovStr "transport" "Transport" cfg in
  let cfg := ovStr "local_ip" "LocalIP" cfg in
  let cfg := ovInt "local_port" "LocalPort" cfg in
  let cfg := ovStr "remote_host" "RemoteHost" cfg in
  let cfg := ovInt "remote_port" "RemotePort" cfg in
  let cfg := ovFlt "rate" "Rate" cfg in
  let cfg := ovInt "max_concurrent" "MaxConcurrent" cfg in
  let cfg := onKey "total_calls" asInt (fun _ => true)
               (fun n cfg => <["TotalCallsSetExplicitly"%string := VB true]> (<["TotalCalls"%string := VI n]> cfg)) cfg in
  let cfg := onKey "global_timeout_ms" asInt (fun n => 0 <? n) (fun n => <["GlobalTimeout"%string := VI (i64 (n * ms))]>) cfg in
  let cfg := ovStr "sip_from" "SipFrom" cfg in
  let cfg := ovStr "sip_pai" "SipPAI" cfg in
  let cfg := ovStr "sip_provider" "SipProvider" cfg in
  let cfg := ovFlt "health_min_success_ratio" "HealthMinSuccessRatio" cfg in
  let cfg := onKey "health_max_failed_calls" asInt (fun n => 0 <=? n) (fun n => <["HealthMaxFailedCalls"%string := VI n]>) cfg in
  onKey "health_max_timeouts" asInt (fun n => 0 <=? n) (fun n => <["HealthMaxTimeouts"%string := VI n]>) cfg.

End Overlay.

(** ** Building the configuration *)

Inductive build_error :=
  | NoDataDir | OpenFailed | NoServerProfile (id : str) (e : UiStore.store_error) | NoClientProfile (id : str) (e : UiStore.store_error)
  | BadKind (kind : str) | NoScenario (id : str) (e : UiStore.store_error) | BadMediaRefs (id : str) (refs : list str)
  | TmpDirFailed | TmpFileFailed | TmpWriteFailed | TmpCloseFailed | RecordingsFailed.

Section Build.

Context `{Json ServerProfile, Json ClientProfile, Json ScenarioMeta}.
Context (Latin1Bytes : str -> option str) (compiles : str -> bool).
Context (cwd : option str).

(** What a data directory holds; [None] when it cannot be created *)
Context (disk : str -> option Store).

(** The file system: whether a directory can be made, the temporary file that is
    created in a directory, whether writing and closing it succeed *)
Record fs_env := mkFsEnv {
  fe_mkdir : str -> bool; fe_createTemp : str -> option str; fe_write : bool; fe_close : bool }.
Context (env : fs_env).

(** [uistore.Open]: the root of the layout and the store *)
Definition Open (dataDir : str) : option (str * Store) :=
  match New cwd dataDir with Some root => (fun s => (root, s)) <$> disk root | None => None end.

(** A configuration, the file that the returned [cleanup] removes, the files *)
Definition built : Type := result build_error Config * option str * gmap str str.

(** The scenario written to a temporary file *)
Definition materialise (spec : Spec) (root scenarioID xml : str) (cfg : Config) (files : gmap str str) : built :=
  let '(processed, mediaErrs) := PreprocessScenarioXML root xml in
  if (0 <? length mediaErrs)%nat then (Err (BadMediaRefs scenarioID mediaErrs), None, files)
  else
    let tmpDir := JoinPath [sp_DataDir spec; lit "tmp"] in
    if negb (fe_mkdir env tmpDir) then (Err TmpDirFailed, None, files)
    else match fe_createTemp env tmpDir with
    | None => (Err TmpFileFailed, None, files)
    | Some path =>
      if negb (fe_write env) then (Err TmpWriteFailed, None, delete path files)
      else if negb (fe_close env) then (Err TmpCloseFailed, None, delete path files)
      else (Ok (<["ScenarioFile"%string := VS path]> cfg), Some path, <[path := processed]> files)
    end.

Definition resolveScenario (spec : Spec) (root : str) (store : Store) (scenarioID : str) (cfg : Config) (files : gmap str str) : built :=
  match scenarioID with
  | [] => (Ok cfg, None, files)
  | _ =>
    match GetScenario scenarioID store with
    | Ok body =>
      match TrimSpace (sb_XML body) with
      | [] => (Ok cfg, None, files)
      | _ => materialise spec root scenarioID (sb_XML body) cfg files
      end
    | Err UiStore.ErrNotFound =>
      match LoadNamed Latin1Bytes compiles scenarioID with
      | Err _ => (Err (NoScenario scenarioID UiStore.ErrNotFound), None, files)
      | Ok _ => (Ok (<["ScenarioName"%string := VS scenarioID]> cfg), None, files)
      end
    | Err e => (Err (NoScenario scenarioID e), None, files)
    end
  end.

Definition blank (s : str) : bool := bool_decide (TrimSpace s = []).

Definition inArtifacts (spec : Spec) (f name : string) (cfg : Config) : Config :=
  setWhen (blank (getS cfg f) && negb (blank (sp_ArtifactsDir spec))) f (VS (JoinPath [sp_ArtifactsDir spec; lit name])) cfg.

Definition artifacts (spec : Spec) (cfg : Config) : Config :=
  inArtifacts spec "CallRecordsJSONL" "call_records.jsonl"
    (inArtifacts spec "SummaryHTML" "report.html" (inArtifacts spec "SummaryJSON" "summary.json" cfg)).

Definition recordings (spec : Spec) (cfg : Config) : result build_error Config :=
  if sp_RecordWAV spec && negb (blank (sp_ArtifactsDir spec)) then
    let recDir := JoinPath [sp_ArtifactsDir spec; lit "recordings"] in
    if fe_mkdir env recDir
    then Ok (<["RecordWAVDuplex"%string := VB (sp_RecordWAVDuplex spec)]> (<["RecordWAVDir"%string := VS recDir]> cfg))
    else Err RecordingsFailed
  else Ok cfg.

(** The profile of a job: the scenario it names and what it makes of the defaults *)
Definition profileOf (spec : Spec) (store : Store) : result build_error (str * Config) :=
  let kind := ToLower (TrimSpace (sp_ProfileKind spec)) in
  if bool_decide (kind = lit "server") then
    match GetServerProfile (sp_ProfileID spec) store with
    | Ok p => Ok (sp_ScenarioRef p, applyServerProfileToConfig p DefaultConfig)
    | Err e => Err (NoServerProfile (sp_ProfileID spec) e)
    end
  else if bool_decide (kind = lit "client") then
    match GetClientProfile (sp_ProfileID spec) store with
    | Ok p => Ok (cp_ScenarioRef p, applyClientProfileToConfig p DefaultConfig)
    | Err e => Err (NoClientProfile (sp_ProfileID spec) e)
    end
  else Err (BadKind (sp_ProfileKind spec)).

Definition BuildConfigFromSpec (spec : Spec) (files : gmap str str) : built :=
  match sp_DataDir spec with
  | [] => (Err NoDataDir, None, files)
  | dataDir =>
    match Open dataDir with
    | None => (Err OpenFailed, None, files)
    | Some (root, store) =>
      match profileOf spec store with
      | Err e => (Err e, None, files)
      | Ok (ref, cfg) =>
        let scenarioID := match TrimSpace (sp_ScenarioID spec) with [] => ref | id => id end in
        match resolveScenario spec root store scenarioID cfg files with
        | (Err e, cleanup, files) => (Err e, cleanup, files)
        | (Ok cfg, cleanup, files) =>
          match recordings spec (artifacts spec cfg) with
          | Err e => (Err e, cleanup, files)
          | Ok cfg => (Ok (overlayEngineJSON (sp_Engine spec) cfg), cleanup, files)
          end
        end
      end
    end
  end.

End Build.

(** * Layers

    The same configuration as a union of layers, each given by its own input
    only.  In a union the left map wins. *)

Definition when (c : bool) (f : string) (v : value) : list (string * value) := if c then [(f, v)] else [].

Definition jobFields (spec : Spec) : Config :=
  let dir := sp_ArtifactsDir spec in
  let record := sp_RecordWAV spec && negb (blank dir) in
  list_to_map (when record "RecordWAVDuplex" (VB (sp_RecordWAVDuplex spec))
    ++ when record "RecordWAVDir" (VS (JoinPath [dir; lit "recordings"]))
    ++ when (negb (blank dir)) "CallRecordsJSONL" (VS (JoinPath [dir; lit "call_records.jsonl"]))
    ++ when (negb (blank dir)) "SummaryHTML" (VS (JoinPath [dir; lit "report.html"]))
    ++ when (negb (blank dir)) "SummaryJSON" (VS (JoinPath [dir; lit "summary.json"]))).

(** What each WebRTC setting is taken from: the first transport that has it *)
Definition webrtcSlots : gmap string ((TransportSpec -> bool) * (TransportSpec -> value)) :=
  list_to_map
    [("WebRTCMedia", (isWebRTC, fun _ => VB true));
     ("WebRTCICEServers", ((fun t => (0 <? length (ts_ICEServers t))%nat), fun t => VL (ts_ICEServers t)));
     ("WebRTCICEUsername", ((fun t => filled (ts_ICEUsername t)), fun t => VS (ts_ICEUsername t)));
     ("WebRTCICECredential", ((fun t => filled (ts_ICECredential t)), fun t => VS (ts_ICECredential t)));
     ("WebRTCICEAuthSecret", ((fun t => filled (ts_ICEAuthSecret t)), fun t => VS (ts_ICEAuthSecret t)));
     ("WebRTCICEAuthTTLSec", ((fun t => (0 <? ts_ICEAuthTTLSec t)%Z), fun t => VI (ts_ICEAuthTTLSec t)));
     ("WebRTCPrefersPCMA", (ts_PrefersPCMA, fun _ => VB true))]%string.

Definition webrtcFields (rows : list TransportSpec) : Config := omap (fun s => s.2 <$> List.find s.1 rows) webrtcSlots.

Definition isSIP (t : TransportSpec) : bool := ts_Enabled t && negb (isWebRTC t).

(** The first SIP transport, and the transports in the order their WebRTC settings count *)
Definition sipRows (l : list TransportSpec) : list TransportSpec := List.filter isSIP l.
Definition webrtcRows (l : list TransportSpec) : list TransportSpec :=
  List.filter (fun t => ts_Enabled t && isWebRTC t) l ++ take 1 (sipRows l).

Definition firstList (t : TransportSpec) : list (string * value) :=
  when (filled (ts_WSPath t)) "WSPath" (VS (ts_WSPath t))
  ++ when (filled (ts_TLSKeyFile t)) "TLSKeyFile" (VS (ts_TLSKeyFile t))
  ++ when (filled (ts_TLSCertFile t)) "TLSCertFile" (VS (ts_TLSCertFile t))
  ++ when (negb (ts_LocalPort t =? 0)) "LocalPort" (VI (ts_LocalPort t))
  ++ when (filled (ts_LocalIP t)) "LocalIP" (VS (ts_LocalIP t))
  ++ when (filled (ts_Transport t)) "Transport" (VS (ts_Transport t)).

Definition firstFields (l : list TransportSpec) : Config :=
  match sipRows l with [] => ∅ | t :: _ => list_to_map (firstList t) end.

Definition transportFields (l : list TransportSpec) : Config := webrtcFields (webrtcRows l) ∪ firstFields l.

Definition serverFields (p : ServerProfile) : Config :=
  let sip := sipRows (sp_Transports p) in
  list_to_map (when (1 <? length sip)%nat "ServerListeners" (VLn (map listenerOf sip)))
  ∪ transportFields (sp_Transports p)
  ∪ list_to_map (when (0 <? sp_MaxConcurrent p) "MaxConcurrent" (VI (sp_MaxConcurrent p)) ++ when true "ServerMode" (VB true)).

Definition clientFields (p : ClientProfile) : Config :=
  transportFields (cp_Transports p)
  ∪ list_to_map (when (0 <? cp_DurationMs p) "GlobalTimeout" (VI (i64 (cp_DurationMs p * ms)))
      ++ when (0 <? cp_MaxConcurrent p) "MaxConcurrent" (VI (cp_MaxConcurrent p))
      ++ when (flt fzero (rateOf p)) "Rate" (VF (rateOf p))
      ++ when (0 <? cp_RemotePort p) "RemotePort" (VI (cp_RemotePort p))
      ++ when (filled (cp_RemoteIP p)) "RemoteHost" (VS (cp_RemoteIP p))
      ++ when true "ServerMode" (VB false)).

(** The overrides: a key counts when its value has the type of the field (text
    must not be empty, limits not be negative) *)
Definition override {A : Type} (m : gmap str any) (k f : string) (get : any -> option A) (accept : A -> bool) (v : A -> value) :
  list (string * value) :=
  match m !! lit k with
  | Some x => match get x with Some a => when (accept a) f (v a) | None => [] end
  | None => []
  end.
Definition anyway {A} (_ : A) : bool := true.

Definition engineFields (m : gmap str any) : Config :=
  list_to_map (override m "health_max_timeouts" "HealthMaxTimeouts" asInt (Z.leb 0) VI
    ++ override m "health_max_failed_calls" "HealthMaxFailedCalls" asInt (Z.leb 0) VI
    ++ override m "health_min_success_ratio" "HealthMinSuccessRatio" asFloat anyway VF
    ++ override m "sip_provider" "SipProvider" asString filled VS ++ override m "sip_pai" "SipPAI" asString filled VS
    ++ override m "sip_from" "SipFrom" asString filled VS
    ++ override m "global_timeout_ms" "GlobalTimeout" asInt (Z.ltb 0) (fun n => VI (i64 (n * ms)))
    ++ override m "total_calls" "TotalCallsSetExplicitly" asInt anyway (fun _ => VB true) ++ override m "total_calls" "TotalCalls" asInt anyway VI
    ++ override m "max_concurrent" "MaxConcurrent" asInt anyway VI ++ override m "rate" "Rate" asFloat anyway VF
    ++ override m "remote_port" "RemotePort" asInt anyway VI ++ override m "remote_host" "RemoteHost" asString filled VS
    ++ override m "local_port" "LocalPort" asInt anyway VI ++ override m "local_ip" "LocalIP" asString filled VS
    ++ override m "transport" "Transport" asString filled VS).

(** ** Lemmas *)

Lemma setWhen_layer c f v cfg : setWhen c f v cfg = list_to_map (when c f v) ∪ cfg.
Proof.
  unfold setWhen, when. destruct c.
  - by rewrite list_to_map_cons, list_to_map_nil, insert_empty, <- insert_union_singleton_l.
  - by rewrite list_to_map_nil, (left_id_L ∅ (∪)).
Qed.

Lemma onKey_layer {A : Type} m k f get (accept : A -> bool) v cfg :
  onKey m k get accept (fun a => <[f := v a]>) cfg
  = list_to_map (override m k f get accept v) ∪ cfg.
Proof.
  unfold onKey, override. destruct (m !! lit k) as [x|]; [|by rewrite list_to_map_nil, (left_id_L ∅ (∪))].
  destruct (get x) as [a|]; [|by rewrite list_to_map_nil, (left_id_L ∅ (∪))]. apply (setWhen_layer (accept a) f (v a) cfg).
Qed.

Lemma onKey_layer2 {A : Type} m k f g get (accept : A -> bool) v w cfg :
  onKey m k get accept (fun a cfg => <[f := v a]> (<[g := w a]> cfg)) cfg
  = onKey m k get accept (fun a => <[f := v a]>) (onKey m k get accept (fun a => <[g := w a]>) cfg).
Proof. unfold onKey. by repeat case_match. Qed.

Lemma overlay_layer m cfg : overlayEngineJSON m cfg = engineFields m ∪ cfg.
Proof.
  unfold overlayEngineJSON, ovStr, ovInt, ovFlt. rewrite onKey_layer2, !onKey_layer.
  unfold engineFields. rewrite !list_to_map_app, <- !(assoc_L (∪)). done.
Qed.

(** *** Transports *)

Lemma splitWebRTC_spec l : splitWebRTC (enabledTransports l) = (sipRows l, List.filter (fun t => ts_Enabled t && isWebRTC t) l).
Proof.
  induction l as [|t l IH]; [done|]. unfold enabledTransports, sipRows, isSIP in *. simpl.
  destruct (ts_Enabled t); simpl; [|done]. rewrite IH. by destruct (isWebRTC t).
Qed.

Lemma lookup_setWhen_eq c f v cfg : setWhen c f v cfg !! f = if c then Some v else cfg !! f.
Proof. destruct c; simpl; [apply lookup_insert_eq|done]. Qed.

Lemma lookup_setWhen_ne c f g v cfg : f <> g -> setWhen c f v cfg !! g = cfg !! g.
Proof. intros. destruct c; simpl; [by apply lookup_insert_ne|done]. Qed.

Lemma find_snoc {A : Type} (p : A -> bool) l t :
  List.find p (l ++ [t]) = match List.find p l with Some x => Some x | None => if p t then Some t else None end.
Proof. induction l as [|x l IH]; simpl; [done|]. by destruct (p x). Qed.

(** What applying a transport does to the setting of one slot *)
Lemma webrtc_slot t cfg rows f p v :
  webrtcSlots !! f = Some (p, v) -> cfg !! f = v <$> List.find p rows ->
  applyWebRTCToConfig t cfg !! f = v <$> List.find p (rows ++ [t]).
Proof.
  intros Hs Hf. rewrite find_snoc.
  assert (Hg : forall x, List.find p rows = Some x -> p x = true) by (intros x Hx; apply List.find_some in Hx; apply Hx).
  unfold webrtcSlots in Hs. apply elem_of_list_to_map_2 in Hs.
  apply list_elem_of_In in Hs. simpl in Hs.
  repeat destruct Hs as [Hs | Hs]; [injection Hs as <- <- <-..|done].
  all: unfold applyWebRTCToConfig, getL, getS, getI.
  all: repeat (rewrite lookup_setWhen_ne by done); rewrite ?lookup_setWhen_eq.
  all: repeat (rewrite lookup_setWhen_ne by done); rewrite ?Hf.
  all: destruct (List.find _ rows) as [x|] eqn:Ex; simpl; [specialize (Hg x eq_refl)|clear Hg].
  all: rewrite ?andb_true_r, ?Hg; cbn [negb]; rewrite ?andb_false_r; try done; try (by case_match).
  - apply Nat.ltb_lt in Hg. destruct (Nat.eqb_spec (length (ts_ICEServers x)) 0); [lia|]. by rewrite andb_false_r.
  - apply Z.ltb_lt in Hg. destruct (Z.eqb_spec (ts_ICEAuthTTLSec x) 0); [lia|]. by rewrite andb_false_r.
Qed.

(** The names of the slots, for a goal about a field that has one *)
Ltac each_slot H :=
  let K := fresh in destruct H as [? K]; unfold webrtcSlots in K; apply elem_of_list_to_map_2, list_elem_of_In in K;
  simpl in K; repeat destruct K as [K | K]; [injection K as <- _..|done].

Lemma webrtc_other t cfg f : webrtcSlots !! f = None -> applyWebRTCToConfig t cfg !! f = cfg !! f.
Proof.
  intros Hs. unfold applyWebRTCToConfig.
  repeat (rewrite lookup_setWhen_ne by (intros <-; vm_compute in Hs; discriminate Hs)). done.
Qed.

Definition no_slot (cfg : Config) : Prop := forall f, is_Some (webrtcSlots !! f) -> cfg !! f = None.

Lemma webrtc_step rows t cfg : no_slot cfg ->
  applyWebRTCToConfig t (webrtcFields rows ∪ cfg) = webrtcFields (rows ++ [t]) ∪ cfg.
Proof.
  intros Hn. apply map_eq. intros f. destruct (webrtcSlots !! f) as [[p v]|] eqn:Es.
  - assert (Hl : forall l, (webrtcFields l ∪ cfg) !! f = v <$> List.find p l).
    { intros l. rewrite lookup_union, (Hn f), (right_id_L None (∪)) by eauto. unfold webrtcFields. by rewrite lookup_omap, Es. }
    rewrite Hl. by apply (webrtc_slot _ _ _ _ _ _ Es).
  - rewrite webrtc_other, !lookup_union by done. unfold webrtcFields. by rewrite !lookup_omap, Es.
Qed.

Lemma applyAll_layer rows cfg : no_slot cfg -> applyAll rows cfg = webrtcFields rows ∪ cfg.
Proof.
  intros Hn. unfold applyAll. induction rows as [|t rows IH] using rev_ind.
  - simpl. apply map_eq. intros f. rewrite lookup_union. unfold webrtcFields. rewrite lookup_omap.
    destruct (webrtcSlots !! f); simpl; by rewrite (left_id_L None (∪)).
  - rewrite foldl_app, IH. simpl. by apply webrtc_step.
Qed.

Lemma lookup_when_ne c g v l f : f <> g -> (list_to_map (when c g v ++ l) : Config) !! f = (list_to_map l : Config) !! f.
Proof. intros. destruct c; simpl; [by apply lookup_insert_ne|done]. Qed.

Lemma lookup_when_last c g v f : f <> g -> (list_to_map (when c g v) : Config) !! f = None.
Proof. intros. rewrite <- (app_nil_r (when c g v)). by rewrite lookup_when_ne. Qed.

(** A field that a list of assignments does not name *)
Ltac unnamed := rewrite ?lookup_when_ne by done; by apply lookup_when_last.

Lemma firstList_no_slot t : no_slot (list_to_map (firstList t)).
Proof. intros f Hf. unfold firstList. each_slot Hf. all: unnamed. Qed.

Lemma no_slot_union a b : no_slot a -> no_slot b -> no_slot (a ∪ b).
Proof. intros Ha Hb f Hf. by rewrite lookup_union, Ha, Hb. Qed.

Lemma webrtc_commute (F cfg : Config) rows : no_slot F -> F ∪ (webrtcFields rows ∪ cfg) = webrtcFields rows ∪ (F ∪ cfg).
Proof.
  intros HF. rewrite !(assoc_L (∪)). f_equal. apply map_union_comm, map_disjoint_spec. intros f x y Hx Hy.
  unfold webrtcFields in Hy. rewrite lookup_omap in Hy. destruct (webrtcSlots !! f) eqn:Es; [|done].
  rewrite HF in Hx by eauto. done.
Qed.

Lemma transports_layer l cfg : no_slot cfg ->
  (let '(sip, webrtcOnly) := splitWebRTC (enabledTransports l) in
   match sip with [] => applyAll webrtcOnly cfg | first :: _ => applyFirst first (applyAll webrtcOnly cfg) end)
  = transportFields l ∪ cfg.
Proof.
  intros Hn. rewrite splitWebRTC_spec. unfold transportFields, firstFields, webrtcRows. rewrite applyAll_layer by done.
  destruct (sipRows l) as [|t rest]; simpl; rewrite ?(right_id_L [] (++)), ?(right_id_L ∅ (∪)); [done|].
  unfold applyFirst. rewrite !setWhen_layer, !(assoc_L (∪)), <- !list_to_map_app, <- !(assoc_L (∪)).
  rewrite <- !(assoc_L (++)). fold (firstList t). rewrite take_0.
  by rewrite webrtc_commute, webrtc_step by (try apply no_slot_union; first [done|apply firstList_no_slot]).
Qed.

Lemma default_no_slot : no_slot DefaultConfig.
Proof. intros f Hf. each_slot Hf. all: by vm_compute. Qed.

Lemma insert_layer f v (cfg : Config) : <[f := v]> cfg = list_to_map (when true f v) ∪ cfg.
Proof. apply (setWhen_layer true). Qed.

(** Turns the assignments of a definition into one layer of fields *)
Ltac layer := rewrite ?setWhen_layer, ?insert_layer, ?(assoc_L (∪)), <- ?list_to_map_app, <- ?(assoc_L (++)), <- ?(assoc_L (∪)).

Lemma server_layer p : applyServerProfileToConfig p DefaultConfig = serverFields p ∪ DefaultConfig.
Proof.
  set (base := list_to_map (when (0 <? sp_MaxConcurrent p) "MaxConcurrent" (VI (sp_MaxConcurrent p)) ++ when true "ServerMode" (VB true)) ∪ DefaultConfig).
  assert (Hb : no_slot base).
  { apply no_slot_union; [|apply default_no_slot]. intros f Hf. each_slot Hf. all: unnamed. }
  unfold applyServerProfileToConfig, serverFields. layer. fold base.
  rewrite <- transports_layer by done. rewrite splitWebRTC_spec.
  destruct (sipRows (sp_Transports p)) as [|t [|u rest]].
  - change (when _ _ _) with (@nil (string * value)). by rewrite list_to_map_nil, (left_id_L ∅ (∪)).
  - change (when _ _ _) with (@nil (string * value)). by rewrite list_to_map_nil, (left_id_L ∅ (∪)).
  - apply insert_layer.
Qed.

Lemma client_layer p : applyClientProfileToConfig p DefaultConfig = clientFields p ∪ DefaultConfig.
Proof.
  unfold applyClientProfileToConfig, clientFields. layer.
  rewrite <- transports_layer; [done|]. apply no_slot_union; [|apply default_no_slot].
  intros f Hf. each_slot Hf. all: unnamed.
Qed.

Section Layers.

Context `{Json ServerProfile, Json ClientProfile, Json ScenarioMeta}.
Context (Latin1Bytes : str -> option str) (compiles : str -> bool) (cwd : option str) (disk : str -> option Store) (env : fs_env).

(** The layer of a job's profile *)
Definition profileFields (spec : Spec) (store : Store) : result build_error (str * Config) :=
  let kind := ToLower (TrimSpace (sp_ProfileKind spec)) in
  if bool_decide (kind = lit "server") then
    match GetServerProfile (sp_ProfileID spec) store with
    | Ok p => Ok (sp_ScenarioRef p, serverFields p) | Err e => Err (NoServerProfile (sp_ProfileID spec) e) end
  else if bool_decide (kind = lit "client") then
    match GetClientProfile (sp_ProfileID spec) store with
    | Ok p => Ok (cp_ScenarioRef p, clientFields p) | Err e => Err (NoClientProfile (sp_ProfileID spec) e) end
  else Err (BadKind (sp_ProfileKind spec)).

Lemma profile_layer spec store :
  profileOf spec store = let? (ref, fields) := profileFields spec store in Ok (ref, fields ∪ DefaultConfig).
Proof.
  unfold profileOf, profileFields. repeat case_match; simpl; rewrite ?server_layer, ?client_layer; done.
Qed.

(** What a scenario contributes: nothing, the name of a built-in scenario that
    loads, or a file that holds the stored text with its references resolved *)
Inductive scenarioLayer (root : str) (store : Store) (id : str) (files : gmap str str) : Config -> option str -> gmap str str -> Prop :=
  | ScenarioNone : id = [] -> scenarioLayer root store id files ∅ None files
  | ScenarioBlank body : GetScenario id store = Ok body -> TrimSpace (sb_XML body) = [] -> scenarioLayer root store id files ∅ None files
  | ScenarioBuiltin sc : GetScenario id store = Err UiStore.ErrNotFound -> LoadNamed Latin1Bytes compiles id = Ok sc ->
      scenarioLayer root store id files {["ScenarioName"%string := VS id]} None files
  | ScenarioStored body path text : GetScenario id store = Ok body -> PreprocessScenarioXML root (sb_XML body) = (text, []) ->
      scenarioLayer root store id files {["ScenarioFile"%string := VS path]} (Some path) (<[path := text]> files).

Lemma scenario_layer spec root store id cfg files cfg' cleanup files' :
  resolveScenario Latin1Bytes compiles env spec root store id cfg files = (Ok cfg', cleanup, files') ->
  exists fields, cfg' = fields ∪ cfg /\ scenarioLayer root store id files fields cleanup files'.
Proof.
  unfold resolveScenario. destruct id as [|b id]; [|set (n := b :: id)].
  { intros [= <- <- <-]. exists ∅. rewrite (left_id_L ∅ (∪)). split; [done|by constructor]. }
  destruct (GetScenario n store) as [body|e] eqn:Eg.
  - destruct (TrimSpace (sb_XML body)) eqn:Et.
    { intros [= <- <- <-]. exists ∅. rewrite (left_id_L ∅ (∪)). split; [done|by eapply ScenarioBlank]. }
    unfold materialise. destruct (PreprocessScenarioXML root (sb_XML body)) as [text errs] eqn:Ep. destruct errs as [|err errs]; [|done]. simpl.
    destruct (fe_mkdir _ _); [|done]. destruct (fe_createTemp _ _) as [path|]; [|done].
    destruct (fe_write _); [|done]. destruct (fe_close _); [|done]. intros [= <- <- <-]. exists {["ScenarioFile"%string := VS path]}.
    rewrite insert_union_singleton_l. split; [done|by eapply ScenarioStored].
  - destruct e; try done. destruct (LoadNamed _ _ n) as [sc|] eqn:El; [|done]. intros [= <- <- <-].
    exists {["ScenarioName"%string := VS n]}. rewrite insert_union_singleton_l. split; [done|by eapply ScenarioBuiltin].
Qed.

(** The files of a job, which no other layer names *)
Definition jobFiles : list string := ["SummaryJSON"; "SummaryHTML"; "CallRecordsJSONL"]%string.
Definition leaves_files (cfg : Config) : Prop := forall f, f ∈ jobFiles -> cfg !! f = None.

Lemma leaves_union a b : leaves_files a -> leaves_files b -> leaves_files (a ∪ b).
Proof. intros Ha Hb f Hf. by rewrite lookup_union, Ha, Hb. Qed.

Ltac each_file := intros ? HF%list_elem_of_In; simpl in HF; repeat destruct HF as [<- | HF]; [..|done].

Lemma leaves_transports l : leaves_files (transportFields l).
Proof.
  apply leaves_union; each_file.
  1-3: unfold webrtcFields; rewrite lookup_omap; by vm_compute.
  all: unfold firstFields; destruct (sipRows l) as [|t rest]; [done|]; unfold firstList; unnamed.
Qed.

Lemma leaves_profile spec store ref fields : profileFields spec store = Ok (ref, fields) -> leaves_files fields.
Proof.
  unfold profileFields. repeat case_match; try done; intros [= <- <-].
  - apply leaves_union; [apply leaves_union; [|apply leaves_transports]|]; each_file.
    all: unnamed.
  - apply leaves_union; [apply leaves_transports|]; each_file.
    all: unnamed.
Qed.

Lemma leaves_scenario root store id files fields cleanup files' : scenarioLayer root store id files fields cleanup files' -> leaves_files fields.
Proof. destruct 1; each_file; try done; by rewrite lookup_singleton_ne. Qed.

Lemma job_layer spec cfg cfg' : leaves_files cfg -> recordings env spec (artifacts spec cfg) = Ok cfg' -> cfg' = jobFields spec ∪ cfg.
Proof.
  intros Hl. unfold recordings, artifacts, inArtifacts, getS.
  rewrite !lookup_setWhen_ne by done. rewrite !Hl by (vm_compute; set_solver).
  change (blank []) with true. rewrite !andb_true_l. unfold jobFields.
  destruct (sp_RecordWAV spec && negb (blank (sp_ArtifactsDir spec))).
  - destruct (fe_mkdir env _); [|done]. intros <-%Ok_inj. by layer.
  - intros <-%Ok_inj. by layer.
Qed.

Lemma default_leaves : leaves_files DefaultConfig.
Proof. each_file; by vm_compute. Qed.

(** C33: The configuration of a worker is a union of layers, each given by its
    own input: the overrides of the spec win over the files of the job, these
    over the scenario, this over the profile, and the profile over the
    defaults.  The scenario is the one the spec names, or else the profile's: a
    stored one is in a file with its media references resolved (which the
    returned cleanup removes), and any other is a built-in one that loads. *)
Theorem worker_config_layers spec files cfg cleanup files' :
  BuildConfigFromSpec Latin1Bytes compiles cwd disk env spec files = (Ok cfg, cleanup, files') ->
  exists root store ref profile scenario,
    Open cwd disk (sp_DataDir spec) = Some (root, store)
    /\ profileFields spec store = Ok (ref, profile)
    /\ scenarioLayer root store (match TrimSpace (sp_ScenarioID spec) with [] => ref | id => id end) files scenario cleanup files'
    /\ cfg = engineFields (sp_Engine spec) ∪ jobFields spec ∪ scenario ∪ profile ∪ DefaultConfig.
Proof.
  unfold BuildConfigFromSpec. destruct (sp_DataDir spec); [done|].
  destruct (Open _ _ _) as [[root store]|]; [|done]. rewrite profile_layer.
  destruct (profileFields spec store) as [[ref profile]|] eqn:Ep; [|done]. simpl.
  destruct (resolveScenario _ _ _ _ _ _ _ _ _) as [[[cfg1|] cleanup1] files1] eqn:Es; [|done].
  apply scenario_layer in Es as (scenario & -> & Hs).
  destruct (recordings _ _ _) as [cfg2|] eqn:Er; [|done]. intros [= <- <- <-].
  apply job_layer in Er as ->;
    [|apply leaves_union; [by eapply leaves_scenario|apply leaves_union; [by eapply leaves_profile|apply default_leaves]]].
  exists root, store, ref, profile, scenario. by rewrite overlay_layer, !(assoc_L (∪)).
Qed.

End Layers.

(** ** Media references stay under the media directories *)

Lemma takeWhile_forall p s : Forall (fun b => p b = true) (takeWhile p s).
Proof. induction s as [|c s IH]; simpl; [constructor|]. destruct (p c) eqn:E; by constructor. Qed.

Lemma name_byte_plain b : name_byte b = true -> plain b = true /\ b <> slash.
Proof. by destruct b; vm_compute. Qed.

Lemma media_name_proper s : Forall (fun b => name_byte b = true) s -> isSafeFileName s = true -> proper s.
Proof.
  intros Hs H. assert (TrimSpace s = s) as Ht.
  { apply Forall_plain_trimmed. eapply Forall_impl; [done|]. intros b Hb. by apply name_byte_plain. }
  unfold isSafeFileName in H. rewrite Ht in H. bool_to_prop. split_and!; try done.
  intros Hin. eapply Forall_forall in Hs; [|done]. by vm_compute in Hs.
Qed.

Lemma JoinPath_proper r es : Forall proper r -> Forall proper es -> es <> [] -> JoinPath (abs_path r :: es) = abs_path (r ++ es).
Proof.
  intros Hr Hes Hn. unfold JoinPath. rewrite filter_cons_True by done.
  assert (filter (fun e => e <> []) es = es) as ->.
  { clear Hn. induction Hes as [|e es He _ IH]; [done|]. rewrite filter_cons_True by apply He. by rewrite IH. }
  rewrite Join_cons by done. change ([slash] ++ ?x) with (slash :: x). rewrite Clean_abs by done. by rewrite elements_join.
Qed.

(** A reference that is replaced becomes a path directly in the directory of its
    kind under the data directory, whatever name it gives. *)
Theorem media_refs_contained root r m p : root = abs_path r -> Forall proper r -> refPath root m = Some p ->
  exists kind name, proper name /\ (kind = lit "wav" \/ kind = lit "pcap") /\ p = abs_path (r ++ [lit "media"; kind; name]).
Proof.
  intros -> Hr. unfold refPath. destruct (groups m) as [kind name] eqn:Eg. unfold MediaPath.
  destruct (isSafeFileName name) eqn:Es; [|done].
  assert (proper name) as Hp.
  { apply media_name_proper; [|done]. unfold groups in Eg. injection Eg as _ <-. apply takeWhile_forall. }
  assert (forall k, proper (lit k) -> JoinPath [JoinPath [abs_path r; lit "media"; lit k]; name] = abs_path (r ++ [lit "media"; lit k; name])) as Hj.
  { intros k Hk. assert (proper (lit "media")) by (split_and!; by vm_compute; set_solver).
    rewrite !JoinPath_proper; rewrite ?Forall_app, ?Forall_cons; try done. by rewrite <- app_assoc. }
  destruct kind; simpl; intros [= <-].
  - exists (lit "wav"), name. split_and!; [done|by left|]. apply Hj. split_and!; by vm_compute; set_solver.
  - exists (lit "pcap"), name. split_and!; [done|by right|]. apply Hj. split_and!; by vm_compute; set_solver.
Qed.

(** ** A small run, and surprises *)

Definition demoRow (transport : string) (servers : list str) : TransportSpec :=
  mkTransport (lit transport) [] 5062 true [] [] [] servers [] [] [] 0 false.
Definition demoClient : ClientProfile :=
  mkClientProfile (lit "c") (lit "c") [] (lit "uac") [demoRow "t1" [lit "stun:sip"]; demoRow "webrtc" [lit "stun:web"]] (lit "192.0.2.1") 5070
    (lit "10") 3 0 [] [] None None.

#[local] Instance demo_server_json : Json ServerProfile := { marshal p := []; unmarshal s := None }.
#[local] Instance demo_client_json : Json ClientProfile := {
  marshal p := lit "{}"; unmarshal s := if bool_decide (s = lit "{}") then Some demoClient else None }.
#[local] Instance demo_meta_json : Json ScenarioMeta := { marshal p := lit "{}"; unmarshal s := Some noMeta }.

Definition demoStore : Store :=
  mkStore ∅ {[lit "c.json" := mkFile (lit "{}") 0]}
    {[lit "mine.xml" := mkFile (lit "<scenario>[[media:wav/hi.wav]]</scenario>") 0]} ∅ ∅ ∅ 0.
Definition demoDisk (root : str) : option Store := if bool_decide (root = lit "/data") then Some demoStore else None.
Definition demoFs (records : bool) : fs_env :=
  mkFsEnv (fun d => records || negb (HasSuffix d (lit "recordings"))) (fun d => Some (d ++ lit "/scenario-1.xml")) true true.
Definition demoSpec (scenarioID : string) : Spec :=
  mkSpec (lit "j1") (lit "/data") (lit "c") (lit "Client ") (lit scenarioID) ∅ (lit "/data/artifacts/jobs/j1") 0 true true
    {[lit "remote_port" := AnyNumber (float_of_int 5090); lit "total_calls" := AnyNull; lit "local_ip" := AnyBool true]}.

Definition demoBuild (records : bool) (scenarioID : string) : built :=
  BuildConfigFromSpec (fun _ => None) (fun _ => true) None demoDisk (demoFs records) (demoSpec scenarioID) ∅.

(** The configuration of a run, and fields read from it *)
Definition demoConfig : Config := match (demoBuild true "mine").1.1 with Ok cfg => cfg | Err _ => ∅ end.

Example demo_fields :
  map (getS demoConfig) ["Transport"; "LocalIP"; "RemoteHost"; "ScenarioFile"; "SummaryJSON"; "ScenarioName"]%string
    = [lit "t1"; lit "0.0.0.0"; lit "192.0.2.1"; lit "/data/tmp/scenario-1.xml"; lit "/data/artifacts/jobs/j1/summary.json"; lit "uac"]
  /\ map (getI demoConfig) ["RemotePort"; "LocalPort"; "MaxConcurrent"]%string = [5090; 5062; 3]
  /\ feq (getF demoConfig "Rate") (float_of_int 10) = true
  /\ (demoBuild true "mine").2 !! lit "/data/tmp/scenario-1.xml" = Some (lit "<scenario>/data/media/wav/hi.wav</scenario>").
Proof. split_and!; vm_compute; reflexivity. Qed.

Lemma worker_config_layers_witness : exists profile scenario,
  demoConfig = engineFields (sp_Engine (demoSpec "mine")) ∪ jobFields (demoSpec "mine") ∪ scenario ∪ profile ∪ DefaultConfig.
Proof.
  assert (demoBuild true "mine" = (Ok demoConfig, (demoBuild true "mine").1.2, (demoBuild true "mine").2)) as E.
  { unfold demoConfig. destruct (demoBuild true "mine") as [[[cfg|e] cleanup] files] eqn:E; [done|].
    assert (is_ok (demoBuild true "mine").1.1 = true) as F by (vm_compute; reflexivity). by rewrite E in F. }
  destruct (worker_config_layers _ _ _ _ _ _ _ _ _ _ E) as (_ & _ & _ & profile & scenario & _ & _ & _ & ->). by exists profile, scenario.
Defined.

(** Blanks inside a reference are tolerated only when another reference of the
    document has none: the test that skips the search does not know them. *)
Theorem spaced_reference_ignored :
  PreprocessScenarioXML (lit "/d") (lit "[[ media:wav/a.wav ]]") = (lit "[[ media:wav/a.wav ]]", [])
  /\ PreprocessScenarioXML (lit "/d") (lit "[[ media:wav/a.wav ]] [[media:wav/b.wav]]") = (lit "/d/media/wav/a.wav /d/media/wav/b.wav", []).
Proof. split_and!; vm_compute; reflexivity. Qed.

(** A reference to a file the store does not hold is resolved like any other. *)
Theorem missing_media_accepted :
  st_wav demoStore = ∅ /\ is_ok (demoBuild true "mine").1.1 = true.
Proof. split; vm_compute; reflexivity. Qed.

(** The ICE servers of a WebRTC transport replace those of a SIP transport listed
    before it. *)
Theorem later_webrtc_wins :
  map ts_Transport (enabledTransports (cp_Transports demoClient)) = [lit "t1"; lit "webrtc"]
  /\ getL (applyClientProfileToConfig demoClient DefaultConfig) "WebRTCICEServers" = [lit "stun:web"].
Proof. split_and!; vm_compute; reflexivity. Qed.

(** A [null] among the overrides is taken for zero: here for a run without end. *)
Theorem null_override_is_zero :
  getI demoConfig "TotalCalls" = 0 /\ getB demoConfig "TotalCallsSetExplicitly" = true /\ getI DefaultConfig "TotalCalls" = 1.
Proof. split_and!; vm_compute; reflexivity. Qed.

(** When the directory of the recordings cannot be made, the temporary scenario
    is left behind: the worker returns the error without the cleanup. *)
Theorem failed_recordings_leave_file :
  (demoBuild false "mine").1.1 = Err RecordingsFailed /\ bool_decide ((demoBuild false "mine").2 = ∅) = false.
Proof. split; vm_compute; reflexivity. Qed.
