(* ===== verification/ApiV2.v ===== *)
(** * The control API

    [src/internal/api/v2]: the handlers of the user interface for jobs, profiles,
    scenarios, media, recordings and artifacts.  They read and change three
    things: the store of profiles and scenarios ([UiStore]), the registry of jobs
    ([Supervisor]) and the accounts ([SettingsAuth]), whose audit log records
    every change.  A JSON body that cannot be decoded is [None]. *)

From stdpp Require Import base list gmap sets strings.
From Stdlib Require Import ZArith Lia Strings.Byte.
From S2P Require Import Prelude GoStrings GoFloat SafePath SettingsAuth Supervisor UiStore CliConfig Xml ScenarioXml Defaults WorkerConfig.

(** ** Replies *)

(** [ProfileRuntime] *)
Record ProfileRuntime := mkRuntime {
  pr_Status : str; pr_JobID : str; pr_PID : option Z; pr_StartedAt : option Z; pr_FinishedAt : option Z; pr_ExitCode : option Z }.

(** The text of an error: a constant, or [err.Error()] after a prefix *)
Inductive message := Text (s : str) | StoreText (prefix : str) (e : UiStore.store_error) | JobsText (e : Supervisor.store_error) | ArtifactsText.

Inductive body :=
  | BError (m : message) | BNone
  | BJobs (l : list Job) | BJob (j : Job) (artifacts : list Artifact) | BStarted (j : Job)
  | BServers (l : list (ServerProfile * ProfileRuntime)) | BServer (p : ServerProfile)
  | BClients (l : list (ClientProfile * ProfileRuntime)) | BClient (p : ClientProfile)
  | BScenarios (l : list ScenarioMeta) | BScenario (b : ScenarioBody) | BHistory (l : list ScenarioHistoryEntry)
  | BBuiltins (l : list BuiltinInfo) | BBuiltin (meta : option BuiltinInfo) (xml : str)
  | BMedia (l : list MediaAsset) (kind : MediaKind) | BAsset (a : MediaAsset) | BFile (path : str)
  | BTools (ids : list str) | BRecordings (l : list (str * Z)).

Record reply := mkReply { rp_code : Z; rp_body : body }.

Definition fails (code : Z) (msg : string) : reply := mkReply code (BError (Text (lit msg))).

Definition storeCode (e : UiStore.store_error) : Z :=
  match e with
  | UiStore.ErrNotFound => 404
  | ErrConflict => 409
  | ErrInvalidID | ErrInvalidHistoryTS => 400
  | _ => 500
  end.

(** [mapStoreError] followed by [writeError] with a prefix *)
Definition storeMessage (prefix : str) (e : UiStore.store_error) : message :=
  match e with
  | UiStore.ErrNotFound => Text (prefix ++ lit "not found")
  | ErrConflict => Text (prefix ++ lit "id already exists")
  | e => StoreText prefix e
  end.
Definition mapStoreError (prefix : string) (e : UiStore.store_error) : reply :=
  mkReply (storeCode e) (BError (storeMessage (lit prefix) e)).

(** [mapStoreError] of an error of the jobs *)
Definition mapJobsError (e : Supervisor.store_error) : reply :=
  match e with Supervisor.ErrNotFound => fails 404 "not found" | e => mkReply 500 (BError (JobsText e)) end.

(** [startJobBody] *)
Record startJobBody := mkStart {
  sb_ID : str; sb_ProfileID : str; sb_ProfileKind : str; sb_ScenarioID : str; sb_RecordWAV : bool; sb_RecordWAVDuplex : bool;
  sb_Engine : option (gmap str any); sb_ToolArgs : option (gmap str any) }.

(** ** Tools ([supervisor/tools.go]) *)

Definition ToolProfileKind : str := lit "tool".

(** The ids of [ListTools] *)
Definition ListTools : list str := [lit "pcap2scenario"; lit "report-html"; lit "summary-to-pdf"; lit "rtp_send"; lit "infindex"].

Definition ValidateToolID (id : str) : bool := bool_decide (TrimSpace id ∈ ListTools).

Definition SourceBuiltIn : str := lit "built-in".

Definition builtinMessage : string :=
  "profile is built-in (seeded from management config) and cannot be started as a supervisor job".

(** ** The runtime view of a profile ([profiles.go]) *)

Definition After (a b : option Z) : bool :=
  match a, b with Some x, Some y => y <? x | Some _, None => true | None, _ => false end.

Definition activeStatus (s : Status) : bool := bool_decide (s = StatusRunning) || bool_decide (s = StatusPending).

Definition newest (best : option Job) (j : Job) : option Job :=
  match best with None => Some j | Some b => if After (j_CreatedAt j) (j_CreatedAt b) then Some j else Some b end.

Fixpoint latestLoop (kind id : str) (jobs : list Job) (active terminal : option Job) : option Job * option Job :=
  match jobs with
  | [] => (active, terminal)
  | j :: jobs =>
    if negb (bool_decide (j_ProfileKind j = kind)) || negb (bool_decide (j_ProfileID j = id)) then latestLoop kind id jobs active terminal
    else if activeStatus (j_Status j) then latestLoop kind id jobs (newest active j) terminal
    else latestLoop kind id jobs active (newest terminal j)
  end.

Definition latestJobForProfile (jobs : list Job) (kind id : str) : option Job :=
  let '(active, terminal) := latestLoop kind id jobs None None in
  match active with Some _ => active | None => terminal end.

Definition statusText (s : Status) : str :=
  match s with
  | StatusPending => lit "pending" | StatusRunning => lit "running" | StatusSucceeded => lit "succeeded"
  | StatusFailed => lit "failed" | StatusStopped => lit "stopped" | StatusOther s => s
  end.

Definition runtimeFor (source : str) (j : option Job) : ProfileRuntime :=
  if bool_decide (source = SourceBuiltIn) then mkRuntime (lit "built-in") [] None None None None
  else match j with
       | None => mkRuntime (lit "idle") [] None None None None
       | Some j => mkRuntime (statusText (j_Status j)) (j_ID j) (j_PID j) (j_StartedAt j) (j_FinishedAt j) (j_ExitCode j)
       end.

(** [isSafePathID] *)
Definition isSafePathID (id : str) : bool :=
  let id := TrimSpace id in
  if bool_decide (id = []) then false
  else if Contains id (lit "/") || Contains id [x5c] || Contains id (lit "..") then false
  else bool_decide (Base id = id).

Definition parseMediaKind (s : str) : option MediaKind :=
  let s := ToLower (TrimSpace s) in
  if bool_decide (s = lit "wav") then Some MediaWav else if bool_decide (s = lit "pcap") then Some MediaPcap else None.

Definition maxMediaUploadBytes : Z := 268435456.

Definition mediaName (kind : MediaKind) : str := match kind with MediaWav => lit "wav" | MediaPcap => lit "pcap" | MediaOther s => s end.

(** [limit] of the query, within bounds *)
Definition queryLimit (r : request) : Z :=
  match TrimSpace (rq_limit r) with
  | [] => 100
  | v => match Atoi v with Some n => if (0 <? n) && (n <=? 1000) then n else 100 | None => 100 end
  end.

Definition pathID (r : request) : str := TrimSpace (rq_id r).

(** ** The server *)

Section Server.

Context `{AuthLib} `{Json ServerProfile, Json ClientProfile, Json ScenarioMeta}.
Context {R : Type} `{Runner R} (errorText : runner_error -> str).
Context (cwd : option str).

(** The root of the data directory, whether a directory can be made, what is on
    disk: whether a path exists, and the regular files of a directory by name *)
Inductive dir_listing := NoDir | DirError | DirFiles (l : list (str * Z)).
Context (root : str) (mkdir : str -> bool) (file_exists : str -> bool) (listDir : str -> dir_listing).

(** [json.Marshal] of a map *)
Context (marshalArgs : gmap str any -> str).

Record v2 := mkV2 { v_store : option Store; v_registry : option (Registry R); v_auth : server }.

Definition handler : Type := request -> v2 -> reply * v2.

(** The clock and a fresh UUID *)
Context (now : Z) (uuid : str).

Definition setStore (s : Store) (st : v2) : v2 := mkV2 (Some s) (v_registry st) (v_auth st).
Definition setRegistry (g : Registry R) (st : v2) : v2 := mkV2 (v_store st) (Some g) (v_auth st).

(** [writeAudit] *)
Definition audit (r : request) (action target payload : str) (st : v2) : v2 :=
  mkV2 (v_store st) (v_registry st) (SettingsAuth.writeAudit now r action target payload <$> v_auth st).

Definition requireRegistry (next : Registry R -> request -> v2 -> reply * v2) : handler := fun r st =>
  match v_registry st with None => (fails 503 "supervisor not configured", st) | Some g => next g r st end.
Definition requireStore (next : Store -> request -> v2 -> reply * v2) : handler := fun r st =>
  match v_store st with None => (fails 503 "uistore not configured", st) | Some s => next s r st end.

Definition authenticated (next : handler) : handler := fun r st =>
  match enabled (v_auth st) with
  | Some a => if ValidRequest now r a then next r st else (fails 401 "unauthorized", st)
  | None => next r st
  end.

(** *** Jobs *)

Definition jobRows (g : Registry R) : list Job := (map_to_list (js_jobs (rg_store g))).*2.

Definition handleListJobs : handler := requireRegistry (fun g r st =>
  (mkReply 200 (BJobs (ListJobs (queryLimit r) (jobRows g))), st)).

Definition handleGetJob : handler := requireRegistry (fun g r st =>
  match Get (pathID r) (rg_store g) with
  | Err e => (mapJobsError e, st)
  | Ok j => (mkReply 200 (BJob j (ListArtifacts (j_ID j) (rg_store g))), st)
  end).

(** [JobArtifactDir] and [EnsureJobArtifactsDir] *)
Definition JobArtifactDir (jobID : str) : option str :=
  let jobID := TrimSpace jobID in
  if negb (isSafeID jobID) then None
  else match JobArtifactsDir cwd root jobID with
       | None => None
       | Some dir => match resolveUnderRoot cwd root dir with
                     | Some dirAbs => if mkdir dirAbs then Some dirAbs else None
                     | None => None
                     end
       end.

(** [EncodeArgs] of a map: a nil map in an interface is not a nil interface *)
Definition EncodeArgs (m : option (gmap str any)) : str := match m with None => lit "null" | Some m => marshalArgs m end.

(** The scenario of a request must be stored or built in. *)
Definition validateScenarioRef (id : str) (s : Store) : option UiStore.store_error :=
  match TrimSpace id with
  | [] => None
  | id =>
    match GetScenario id s with
    | Ok _ => None
    | Err UiStore.ErrNotFound => match BuiltinXML id with Ok _ => None | Err _ => Some UiStore.ErrNotFound end
    | Err e => Some e
    end
  end.

(** The job and the spec that are handed to [StartJob] *)
Definition pendingJob (jobID profileID kind scenarioID argsJSON artifactsDir : str) : Job :=
  mkJob jobID profileID kind scenarioID StatusPending argsJSON artifactsDir (Some now) None None None [] None None.

Definition jobSpec (jobID profileID kind artifactsDir : str) (b : startJobBody) : Spec :=
  mkSpec jobID root profileID kind (sb_ScenarioID b) ∅ artifactsDir 0 (sb_RecordWAV b) (sb_RecordWAVDuplex b) (default ∅ (sb_Engine b)).

Definition jobIDOr (id : str) : str := match id with [] => uuid | _ => id end.

(** [startToolJob]: the error is one of the directory or one of the registry *)
Inductive tool_error := ToolDir | ToolRegistry (e : Supervisor.store_error).

Definition startToolJob (toolID jobID : str) (args : gmap str any) (g : Registry R) : result tool_error Job * Registry R :=
  let jobID := jobIDOr (TrimSpace jobID) in
  match JobArtifactDir jobID with
  | None => (Err ToolDir, g)
  | Some dir =>
    match StartJob errorText now (pendingJob jobID toolID ToolProfileKind [] (marshalArgs args) dir)
            (mkSpec jobID root toolID ToolProfileKind [] args dir 0 false false ∅) g with
    | (Ok j, g) => (Ok j, g)
    | (Err e, g) => (Err (ToolRegistry e), g)
    end
  end.

(** [mapStartToolError] looks for words in the text of the error. *)
Context (toolText : tool_error -> str).

Definition mapStartToolError (e : tool_error) : reply :=
  let msg := toolText e in
  if Contains msg (lit "path") || Contains msg (lit "required") || Contains msg (lit "unknown tool")
  then mkReply 400 (BError (Text msg)) else mkReply 500 (BError (Text msg)).

(** The source of the profile a job runs *)
Definition profileSource (kind id : str) (s : Store) : option (result UiStore.store_error str) :=
  if bool_decide (kind = lit "server") then
    Some (match GetServerProfile id s with Ok p => Ok (sp_Source p) | Err e => Err e end)
  else if bool_decide (kind = lit "client") then
    Some (match GetClientProfile id s with Ok p => Ok (cp_Source p) | Err e => Err e end)
  else None.

(** What [handleStartJob] checks and assembles for a job of a profile *)
Definition prepareJob (b : startJobBody) (s : Store) : result reply (Job * Spec) :=
  let kind := ToLower (TrimSpace (sb_ProfileKind b)) in
  let profileID := TrimSpace (sb_ProfileID b) in
  match profileSource kind profileID s with
  | None => Err (fails 400 "profile_kind must be server, client, or tool")
  | Some (Err e) => Err (mapStoreError "profile: " e)
  | Some (Ok source) =>
    if bool_decide (source = SourceBuiltIn) then Err (fails 409 builtinMessage)
    else
      match (match sb_ScenarioID b with [] => None | id => validateScenarioRef id s end) with
      | Some e => Err (mkReply (if storeCode e =? 500 then 400 else storeCode e) (BError (storeMessage (lit "scenario: ") e)))
      | None =>
        let jobID := jobIDOr (TrimSpace (sb_ID b)) in
        match JobArtifactDir jobID with
        | None => Err (mkReply 400 (BError ArtifactsText))
        | Some dir => Ok (pendingJob jobID profileID kind (sb_ScenarioID b) (EncodeArgs (sb_Engine b)) dir, jobSpec jobID profileID kind dir b)
        end
      end
  end.

Definition handleStartJob (content : option startJobBody) : handler := requireRegistry (fun g => requireStore (fun s r st =>
  match content with
  | None => (fails 400 "decode", st)
  | Some b =>
    let kind := ToLower (TrimSpace (sb_ProfileKind b)) in
    let profileID := TrimSpace (sb_ProfileID b) in
    if bool_decide (kind = ToolProfileKind) then
      if bool_decide (profileID = []) then (fails 400 "profile_id (tool name) is required for tool jobs", st)
      else if negb (ValidateToolID profileID) then (fails 400 "unknown tool", st)
      else match startToolJob profileID (sb_ID b) (default ∅ (sb_ToolArgs b)) g with
           | (Err e, g) => (mapStartToolError e, setRegistry g st)
           | (Ok j, g) => (mkReply 201 (BStarted j), audit r (lit "job.start") (j_ID j) (lit "tool/" ++ profileID) (setRegistry g st))
           end
    else
      match prepareJob b s with
      | Err e => (e, st)
      | Ok (job, spec) =>
        match StartJob errorText now job spec g with
        | (Err e, g) => (mkReply 500 (BError (JobsText e)), setRegistry g st)
        | (Ok j, g) => (mkReply 201 (BStarted j), audit r (lit "job.start") (j_ID j) (kind ++ lit "/" ++ profileID) (setRegistry g st))
        end
      end
  end)).

Definition handleStopJob : handler := requireRegistry (fun g r st =>
  let id := pathID r in
  match StopJob now id g with
  | (Err e, g) => (mapJobsError e, setRegistry g st)
  | (Ok j, g) => (mkReply 200 (BStarted j), audit r (lit "job.stop") id [] (setRegistry g st))
  end).

Definition handleDeleteJob : handler := requireRegistry (fun g r st =>
  let id := pathID r in
  match Supervisor.Delete id (rg_store g) with
  | (Err e, _) => (mapJobsError e, st)
  | (Ok _, js) => (mkReply 204 BNone, audit r (lit "job.delete") id [] (setRegistry (mkRegistry js (rg_runner g)) st))
  end).

(** *** Shortcuts ([server_shortcuts.go]) *)

(** [content] is [None] when the request has no body. *)
Definition prepareShortcut (kind id : str) (content : option (option startJobBody)) (s : Store) : result reply (Job * Spec) :=
  match profileSource kind id s with
  | None => Err (fails 400 "kind must be server|client")
  | Some (Err e) => Err (mapStoreError "" e)
  | Some (Ok source) =>
    if bool_decide (source = SourceBuiltIn) then Err (fails 409 builtinMessage)
    else
      match (match content with None => Some (mkStart [] id kind [] false false None None) | Some b => b end) with
      | None => Err (fails 400 "decode")
      | Some b =>
        let jobID := jobIDOr (sb_ID b) in
        match JobArtifactDir jobID with
        | None => Err (mkReply 400 (BError ArtifactsText))
        | Some dir => Ok (pendingJob jobID id kind (sb_ScenarioID b) (EncodeArgs (sb_Engine b)) dir, jobSpec jobID id kind dir b)
        end
      end
  end.

Definition handleStartProfileShortcut (kind : str) (content : option (option startJobBody)) : handler :=
  requireRegistry (fun g => requireStore (fun s r st =>
  let id := pathID r in
  match prepareShortcut kind id content s with
  | Err e => (e, st)
  | Ok (job, spec) =>
    match StartJob errorText now job spec g with
    | (Err e, g) => (mkReply 500 (BError (JobsText e)), setRegistry g st)
    | (Ok j, g) => (mkReply 201 (BStarted j), audit r (kind ++ lit ".start") id (j_ID j) (setRegistry g st))
    end
  end)).

(** The first active job of the profile in the order of the list *)
Definition stoppable (kind id : str) (j : Job) : bool :=
  bool_decide (j_ProfileKind j = kind) && bool_decide (j_ProfileID j = id) && activeStatus (j_Status j).

Definition handleStopProfileShortcut (kind : str) : handler := requireRegistry (fun g r st =>
  let id := pathID r in
  match List.find (stoppable kind id) (ListJobs 500 (jobRows g)) with
  | None =>
    match v_store st with
    | Some s =>
      match profileSource kind id s with
      | Some (Err _) => (fails 404 "no running job for profile", st)
      | _ => (fails 409 "profile is not running as a supervisor job", st)
      end
    | None => (fails 404 "no running job for profile", st)
    end
  | Some target =>
    match StopJob now (j_ID target) g with
    | (Err e, g) => (mkReply 500 (BError (JobsText e)), setRegistry g st)
    | (Ok j, g) => (mkReply 200 (BStarted j), audit r (kind ++ lit ".stop") id (j_ID j) (setRegistry g st))
    end
  end).

(** *** Tools ([tools.go]) *)

Definition handleListTools : handler := fun r st => (mkReply 200 (BTools ListTools), st).

Definition handleRunTool (content : option (str * option (gmap str any))) : handler := requireRegistry (fun g => requireStore (fun s r st =>
  let toolID := pathID r in
  if negb (ValidateToolID toolID) then (fails 404 "unknown tool", st)
  else match content with
  | None => (fails 400 "decode", st)
  | Some (id, args) =>
    match startToolJob toolID id (default ∅ args) g with
    | (Err e, g) => (mapStartToolError e, setRegistry g st)
    | (Ok j, g) => (mkReply 201 (BStarted j), audit r (lit "tool.run") (j_ID j) toolID (setRegistry g st))
    end
  end)).

(** *** Profiles ([profiles.go]) *)

Definition loadJobsSafe (st : v2) : list Job := match v_registry st with None => [] | Some g => ListJobs 500 (jobRows g) end.

Definition handleListServerProfiles : handler := requireStore (fun s r st =>
  match ListServerProfiles s with
  | Err e => (mapStoreError "" e, st)
  | Ok l => let jobs := loadJobsSafe st in
            (mkReply 200 (BServers (map (fun p => (p, runtimeFor (sp_Source p) (latestJobForProfile jobs (lit "server") (sp_ID p)))) l)), st)
  end).

Definition handleListClientProfiles : handler := requireStore (fun s r st =>
  match ListClientProfiles s with
  | Err e => (mapStoreError "" e, st)
  | Ok l => let jobs := loadJobsSafe st in
            (mkReply 200 (BClients (map (fun p => (p, runtimeFor (cp_Source p) (latestJobForProfile jobs (lit "client") (cp_ID p)))) l)), st)
  end).

(** The two kinds of profile have the same handlers. *)
Section Profiles.

Context {P : Type} `{Profile P} (kindName : str).
Context (put : Z -> P -> bool -> Store -> result UiStore.store_error P * Store) (get : str -> Store -> result UiStore.store_error P).
Context (del : str -> Store -> result UiStore.store_error unit * Store) (withID : str -> P -> P) (shown : P -> body).

Definition handleCreateProfile (content : option P) : handler := requireStore (fun s r st =>
  match content with
  | None => (fails 400 "decode", st)
  | Some p =>
    match put now p true s with
    | (Err e, s) => (mapStoreError "" e, setStore s st)
    | (Ok got, s) => (mkReply 201 (shown got), audit r (kindName ++ lit ".create") (p_ID got) [] (setStore s st))
    end
  end).

Definition handleGetProfile : handler := requireStore (fun s r st =>
  match get (pathID r) s with Err e => (mapStoreError "" e, st) | Ok p => (mkReply 200 (shown p), st) end).

Definition handleUpdateProfile (content : option P) : handler := requireStore (fun s r st =>
  match content with
  | None => (fails 400 "decode", st)
  | Some p =>
    match put now (withID (pathID r) p) false s with
    | (Err e, s) => (mapStoreError "" e, setStore s st)
    | (Ok got, s) => (mkReply 200 (shown got), audit r (kindName ++ lit ".update") (p_ID got) [] (setStore s st))
    end
  end).

Definition handleDeleteProfile : handler := requireStore (fun s r st =>
  let id := pathID r in
  match del id s with
  | (Err e, s) => (mapStoreError "" e, setStore s st)
  | (Ok _, s) => (mkReply 204 BNone, audit r (kindName ++ lit ".delete") id [] (setStore s st))
  end).

End Profiles.

Definition serverWithID (id : str) (p : ServerProfile) : ServerProfile :=
  mkServerProfile id (sp_Name p) (sp_Description p) (sp_ScenarioRef p) (sp_Transports p) (sp_MaxConcurrent p) (sp_Notes p)
    (sp_Source p) (sp_CreatedAt p) (sp_UpdatedAt p).
Definition clientWithID (id : str) (p : ClientProfile) : ClientProfile :=
  mkClientProfile id (cp_Name p) (cp_Description p) (cp_ScenarioRef p) (cp_Transports p) (cp_RemoteIP p) (cp_RemotePort p) (cp_Rate p)
    (cp_MaxConcurrent p) (cp_DurationMs p) (cp_Notes p) (cp_Source p) (cp_CreatedAt p) (cp_UpdatedAt p).

Definition handleCreateServerProfile := handleCreateProfile (lit "server") PutServerProfile BServer.
Definition handleGetServerProfile := handleGetProfile GetServerProfile BServer.
Definition handleUpdateServerProfile := handleUpdateProfile (lit "server") PutServerProfile serverWithID BServer.
Definition handleDeleteServerProfile := handleDeleteProfile (lit "server") DeleteServerProfile.
Definition handleCreateClientProfile := handleCreateProfile (lit "client") PutClientProfile BClient.
Definition handleGetClientProfile := handleGetProfile GetClientProfile BClient.
Definition handleUpdateClientProfile := handleUpdateProfile (lit "client") PutClientProfile clientWithID BClient.
Definition handleDeleteClientProfile := handleDeleteProfile (lit "client") DeleteClientProfile.

(** *** Scenarios ([scenarios.go], [scenarios_builtin.go]) *)

Definition metaWithID (id : str) (m : ScenarioMeta) : ScenarioMeta :=
  UiStore.mkMeta id (sm_Name m) (sm_Description m) (sm_Role m) (sm_Tags m) (sm_CreatedAt m) (sm_UpdatedAt m).

Definition handleListScenarios : handler := requireStore (fun s r st => (mkReply 200 (BScenarios (ListScenarios s)), st)).

Definition handleGetScenario : handler := requireStore (fun s r st =>
  match GetScenario (pathID r) s with Err e => (mapStoreError "" e, st) | Ok b => (mkReply 200 (BScenario b), st) end).

Definition handleCreateScenario (content : option (ScenarioMeta * str)) : handler := requireStore (fun s r st =>
  match content with
  | None => (fails 400 "decode", st)
  | Some (meta, xml) =>
    if negb (isSafePathID (sm_ID meta)) then (mapStoreError "" ErrInvalidID, st)
    else match PutScenario now meta xml true s with
         | (Err e, s) => (mapStoreError "" e, setStore s st)
         | (Ok b, s) => (mkReply 201 (BScenario b), audit r (lit "scenario.create") (sm_ID (sb_Meta b)) [] (setStore s st))
         end
  end).

Definition handleUpdateScenario (content : option (ScenarioMeta * str)) : handler := requireStore (fun s r st =>
  match content with
  | None => (fails 400 "decode", st)
  | Some (meta, xml) =>
    let id := pathID r in
    if negb (isSafePathID id) then (mapStoreError "" ErrInvalidID, st)
    else match PutScenario now (metaWithID id meta) xml false s with
         | (Err e, s) => (mapStoreError "" e, setStore s st)
         | (Ok b, s) => (mkReply 200 (BScenario b), audit r (lit "scenario.update") (sm_ID (sb_Meta b)) [] (setStore s st))
         end
  end).

Definition handleDeleteScenario : handler := requireStore (fun s r st =>
  let id := pathID r in
  match DeleteScenario id s with
  | (Err e, s) => (mapStoreError "" e, setStore s st)
  | (Ok _, s) => (mkReply 204 BNone, audit r (lit "scenario.delete") id [] (setStore s st))
  end).

Definition handleListScenarioHistory : handler := requireStore (fun s r st =>
  match ListScenarioHistory (pathID r) s with Err e => (mapStoreError "" e, st) | Ok l => (mkReply 200 (BHistory l), st) end).

Definition handleGetScenarioHistory (ts : str) : handler := requireStore (fun s r st =>
  match GetScenarioHistory (pathID r) (TrimSpace ts) s with Err e => (mapStoreError "" e, st) | Ok b => (mkReply 200 (BScenario b), st) end).

Definition handleDeleteScenarioHistory (ts : str) : handler := requireStore (fun s r st =>
  let id := pathID r in
  let ts := TrimSpace ts in
  match DeleteScenarioHistory id ts s with
  | (Err e, s) => (mapStoreError "" e, setStore s st)
  | (Ok _, s) => (mkReply 204 BNone, audit r (lit "scenario.history.delete") id ts (setStore s st))
  end).

Definition handleForkScenarioHistory (ts : str) (content : option ScenarioMeta) : handler := requireStore (fun s r st =>
  let id := pathID r in
  let ts := TrimSpace ts in
  match content with
  | None => (fails 400 "decode", st)
  | Some meta =>
    if bool_decide (TrimSpace (sm_ID meta) = []) then (fails 400 "id is required", st)
    else match ForkScenarioFromHistory now id ts meta s with
         | (Err ErrSameID, s) => (mkReply 400 (BError (storeMessage [] ErrSameID)), setStore s st)
         | (Err e, s) => (mapStoreError "" e, setStore s st)
         | (Ok b, s) => (mkReply 201 (BScenario b), audit r (lit "scenario.fork") (sm_ID (sb_Meta b)) (id ++ lit ":" ++ ts) (setStore s st))
         end
  end).

Definition handleListBuiltinScenarios : handler := fun r st => (mkReply 200 (BBuiltins ListBuiltins), st).

Definition handleGetBuiltinScenario : handler := fun r st =>
  let id := pathID r in
  match BuiltinXML id with
  | Err _ => (fails 404 "not found", st)
  | Ok xml => (mkReply 200 (BBuiltin (List.find (fun b => bool_decide (bi_ID b = id)) ListBuiltins) xml), st)
  end.

(** *** Media ([media.go]) *)

Definition withKind (kind : str) (next : MediaKind -> Store -> request -> v2 -> reply * v2) : handler := requireStore (fun s r st =>
  match parseMediaKind kind with None => (fails 400 "kind must be 'wav' or 'pcap'", st) | Some k => next k s r st end).

Definition handleListMedia (kind : str) : handler := withKind kind (fun k s r st =>
  match ListMedia k s with Err e => (mapStoreError "" e, st) | Ok l => (mkReply 200 (BMedia l k), st) end).

Definition handleUploadMedia (kind name : str) (data : str) : handler := withKind kind (fun k s r st =>
  let name := TrimSpace name in
  if bool_decide (name = []) then (fails 400 "name is required", st)
  else if isSafeFileName name && (maxMediaUploadBytes <? Z.of_nat (length data)) then (fails 400 "upload: http: request body too large", st)
  else match PutMedia now k name data s with
       | (Err e, s) => (mkReply 400 (BError (StoreText (lit "upload: ") e)), setStore s st)
       | (Ok a, s) => (mkReply 201 (BAsset a), audit r (lit "media.upload") (mediaName k ++ lit "/" ++ ma_Name a) [] (setStore s st))
       end).

(** The file that [http.ServeFile] serves *)
Definition handleDownloadMedia (kind name : str) : handler := withKind kind (fun k s r st =>
  match MediaPath root k (TrimSpace name) with
  | None => (mkReply 400 (BError (StoreText [] ErrMediaName)), st)
  | Some path => (mkReply 200 (BFile path), st)
  end).

Definition handleDeleteMedia (kind name : str) : handler := withKind kind (fun k s r st =>
  let name := TrimSpace name in
  match DeleteMedia k name s with
  | (Err e, s) => (mapStoreError "" e, setStore s st)
  | (Ok _, s) => (mkReply 204 BNone, audit r (lit "media.delete") (mediaName k ++ lit "/" ++ name) [] (setStore s st))
  end).

(** *** Recordings and artifacts ([recordings.go], [artifacts.go]) *)

Definition withJob (next : Job -> Registry R -> request -> v2 -> reply * v2) : handler := requireRegistry (fun g r st =>
  match Get (pathID r) (rg_store g) with Err e => (mapJobsError e, st) | Ok j => next j g r st end).

Definition handleListRecordings : handler := withJob (fun j g r st =>
  match listDir (JoinPath [j_ArtifactsDir j; lit "recordings"]) with
  | NoDir => (mkReply 200 (BRecordings []), st)
  | DirError => (fails 500 "read directory", st)
  | DirFiles l => (mkReply 200 (BRecordings l), st)
  end).

Definition badName (name : str) : bool :=
  bool_decide (name = []) || existsb (fun b => beqb b slash || beqb b x5c) name || bool_decide (name = dot) || bool_decide (name = dotdot).

Definition handleDownloadRecording (name : str) : handler := withJob (fun j g r st =>
  let name := TrimSpace name in
  if badName name then (fails 400 "invalid recording name", st)
  else let path := JoinPath [j_ArtifactsDir j; lit "recordings"; name] in
       if file_exists path then (mkReply 200 (BFile path), st) else (fails 404 "recording not found", st)).

Definition pathWithinDir (dir target : str) : bool :=
  match Abs cwd dir, Abs cwd target with
  | Some rootAbs, Some targetAbs => bool_decide (targetAbs = rootAbs) || HasPrefix targetAbs (rootAbs ++ [slash])
  | _, _ => false
  end.

Definition artifactKindFallback : list (str * str) :=
  [(lit "summary", lit "summary.json"); (lit "report_html", lit "report.html"); (lit "report_pdf", lit "report.pdf");
   (lit "log", lit "worker.log"); (lit "stats", lit "stats.jsonl"); (lit "call_records", lit "call_records.jsonl")].

Definition served (j : Job) (kind : str) (a : Artifact) : bool :=
  bool_decide (ar_Kind a = kind) && pathWithinDir (j_ArtifactsDir j) (ar_Path a) && file_exists (ar_Path a).

Definition resolveJobArtifactPath (j : Job) (kind : str) (g : Registry R) : option str :=
  match List.find (served j kind) (rev (ListArtifacts (j_ID j) (rg_store g))) with
  | Some a => Some (ar_Path a)
  | None =>
    match List.find (fun e => bool_decide (fst e = kind)) artifactKindFallback with
    | None => None
    | Some (_, base) =>
      let candidate := JoinPath [j_ArtifactsDir j; base] in
      if pathWithinDir (j_ArtifactsDir j) candidate && file_exists candidate then Some candidate else None
    end
  end.

Definition handleDownloadJobArtifact (kind : str) : handler := withJob (fun j g r st =>
  if bool_decide (TrimSpace (j_ArtifactsDir j) = []) then (fails 404 "job has no artifacts dir", st)
  else match TrimSpace kind with
  | [] => (fails 400 "artifact kind is required", st)
  | kind => match resolveJobArtifactPath j kind g with
            | None => (fails 404 "artifact not found", st)
            | Some path => (mkReply 200 (BFile path), st)
            end
  end).

(** ** Routes ([Register]) *)

Inductive route :=
  | RListServers | RCreateServer (p : option ServerProfile) | RGetServer | RUpdateServer (p : option ServerProfile) | RDeleteServer
  | RListClients | RCreateClient (p : option ClientProfile) | RGetClient | RUpdateClient (p : option ClientProfile) | RDeleteClient
  | RListScenarios | RListBuiltins | RGetBuiltin | RCreateScenario (b : option (ScenarioMeta * str)) | RGetScenario
  | RUpdateScenario (b : option (ScenarioMeta * str)) | RDeleteScenario | RListHistory | RGetHistory (ts : str) | RDeleteHistory (ts : str)
  | RFork (ts : str) (m : option ScenarioMeta)
  | RListMedia (kind : str) | RUpload (kind name data : str) | RDownload (kind name : str) | RDeleteMedia (kind name : str)
  | RListJobs | RGetJob | RDeleteJob | RStopJob | RStartJob (b : option startJobBody)
  | RListTools | RRunTool (b : option (str * option (gmap str any)))
  | RListRecordings | RDownloadRecording (name : str) | RArtifact (kind : str)
  | RStartProfile (server : bool) (b : option (option startJobBody)) | RStopProfile (server : bool).

Definition kindOf (server : bool) : str := if server then lit "server" else lit "client".

Definition handle (rt : route) : handler :=
  match rt with
  | RListServers => handleListServerProfiles | RCreateServer p => handleCreateServerProfile p | RGetServer => handleGetServerProfile
  | RUpdateServer p => handleUpdateServerProfile p | RDeleteServer => handleDeleteServerProfile
  | RListClients => handleListClientProfiles | RCreateClient p => handleCreateClientProfile p | RGetClient => handleGetClientProfile
  | RUpdateClient p => handleUpdateClientProfile p | RDeleteClient => handleDeleteClientProfile
  | RListScenarios => handleListScenarios | RListBuiltins => handleListBuiltinScenarios | RGetBuiltin => handleGetBuiltinScenario
  | RCreateScenario b => handleCreateScenario b | RGetScenario => handleGetScenario | RUpdateScenario b => handleUpdateScenario b
  | RDeleteScenario => handleDeleteScenario | RListHistory => handleListScenarioHistory | RGetHistory ts => handleGetScenarioHistory ts
  | RDeleteHistory ts => handleDeleteScenarioHistory ts | RFork ts m => handleForkScenarioHistory ts m
  | RListMedia k => handleListMedia k | RUpload k n d => handleUploadMedia k n d | RDownload k n => handleDownloadMedia k n
  | RDeleteMedia k n => handleDeleteMedia k n
  | RListJobs => handleListJobs | RGetJob => handleGetJob | RDeleteJob => handleDeleteJob | RStopJob => handleStopJob
  | RStartJob b => handleStartJob b | RListTools => handleListTools | RRunTool b => handleRunTool b
  | RListRecordings => handleListRecordings | RDownloadRecording n => handleDownloadRecording n | RArtifact k => handleDownloadJobArtifact k
  | RStartProfile k b => handleStartProfileShortcut (kindOf k) b | RStopProfile k => handleStopProfileShortcut (kindOf k)
  end.

Definition Register (rt : route) : handler := authenticated (handle rt).

End Server.
Arguments v2 R : clear implicits.

(** * An accepted job can be configured *)

(** Failures of a worker that depend on files and directories only *)
Definition file_error (e : build_error) : bool :=
  match e with
  | BadMediaRefs _ _ | TmpDirFailed | TmpFileFailed | TmpWriteFailed | TmpCloseFailed | RecordingsFailed => true
  | _ => false
  end.

Section Accepted.

Context `{Json ServerProfile, Json ClientProfile, Json ScenarioMeta}.
Context (Latin1Bytes : str -> option str) (compiles : str -> bool) (cwd : option str) (disk : str -> option Store) (env : fs_env).

Lemma builtin_text_loads name x : builtinText name = Some x -> name <> [] -> exists sc, LoadNamed Latin1Bytes compiles name = Ok sc.
Proof.
  intros Ht Hn. destruct (builtinText_listed name x Ht) as [?|(b & Hb & <-)]; [done|].
  pose proof (catalogue_loads Latin1Bytes compiles) as Hc. rewrite forallb_forall in Hc. apply list_elem_of_In in Hb.
  specialize (Hc b Hb). unfold loads in Hc. destruct (LoadNamed _ _ _) as [sc|]; [by exists sc|done].
Qed.

Lemma materialise_errors spec root id xml cfg files e :
  (materialise env spec root id xml cfg files).1.1 = Err e -> file_error e = true.
Proof. unfold materialise. repeat case_match; simpl; intros [= <-]; done. Qed.

Lemma recordings_errors spec cfg e : recordings env spec cfg = Err e -> file_error e = true.
Proof. unfold recordings. repeat case_match; intros [= <-]; done. Qed.

(** The scenario of a request that was validated is found by the worker. *)
Lemma validated_scenario spec root s id cfg files e :
  validateScenarioRef id s = None -> TrimSpace id <> [] ->
  (resolveScenario Latin1Bytes compiles env spec root s (TrimSpace id) cfg files).1.1 = Err e -> file_error e = true.
Proof.
  unfold validateScenarioRef, resolveScenario. destruct (TrimSpace id) as [|b n] eqn:Ei; [done|].
  intros Hv _. destruct (GetScenario (b :: n) s) as [body|x]; [case_match; [done|apply materialise_errors]|].
  destruct x; try done. unfold BuiltinXML in Hv. rewrite <- Ei, TrimSpace_idemp in Hv.
  destruct (builtinText (TrimSpace id)) as [x|] eqn:Et; [|done].
  destruct (builtin_text_loads _ _ Et) as [sc Hsc]; [by rewrite Ei|]. rewrite <- Ei. by rewrite Hsc.
Qed.

Lemma resolve_errors spec root s id cfg files e :
  (resolveScenario Latin1Bytes compiles env spec root s id cfg files).1.1 = Err e ->
  file_error e = true \/ exists id e', e = NoScenario id e'.
Proof.
  unfold resolveScenario. repeat case_match; simpl; try done; try (intros [= <-]; by eauto).
  intros E. left. by apply materialise_errors in E.
Qed.


End Accepted.

(** * Every change is recorded *)

Definition reads (rt : route) : bool :=
  match rt with
  | RListServers | RGetServer | RListClients | RGetClient | RListScenarios | RListBuiltins | RGetBuiltin | RGetScenario
  | RListHistory | RGetHistory _ | RListMedia _ | RDownload _ _ | RListJobs | RGetJob | RListTools | RListRecordings
  | RDownloadRecording _ | RArtifact _ => true
  | _ => false
  end.

Section Audited.

Context `{AuthLib} `{Json ServerProfile, Json ClientProfile, Json ScenarioMeta}.
Context {R : Type} `{Runner R} (errorText : runner_error -> str) (cwd : option str).
Context (root : str) (mkdir : str -> bool) (file_exists : str -> bool) (listDir : str -> dir_listing) (marshalArgs : gmap str any -> str).
Context (now : Z) (uuid : str) (toolText : tool_error -> str).

Abbreviation handleRoute := (handle errorText cwd root mkdir file_exists listDir marshalArgs now uuid toolText).

(** What a handler may do to the accounts: record its action when it succeeds *)
Definition recorded (r : request) (st st' : v2 R) (rep : reply) : Prop :=
  if rp_code rep <? 300 then exists action target payload, v_auth st' = (SettingsAuth.writeAudit now r action target payload <$> v_auth st)
  else v_auth st' = v_auth st.

Lemma storeCode_high e : (storeCode e <? 300) = false.
Proof. by destruct e. Qed.

Lemma mapJobsError_high e : (rp_code (mapJobsError e) <? 300) = false.
Proof. by destruct e. Qed.

Lemma toolError_high e : (rp_code (mapStartToolError toolText e) <? 300) = false.
Proof. unfold mapStartToolError. by case_match. Qed.

Lemma prepareJob_high b s e : prepareJob cwd root mkdir marshalArgs now uuid b s = Err e -> (rp_code e <? 300) = false.
Proof.
  unfold prepareJob. repeat case_match; try done; intros [= <-]; simpl; rewrite ?storeCode_high; try done.
Qed.

Lemma prepareShortcut_high kind id b s e : prepareShortcut cwd root mkdir marshalArgs now uuid kind id b s = Err e -> (rp_code e <? 300) = false.
Proof. unfold prepareShortcut. repeat case_match; try done; intros [= <-]; simpl; by rewrite ?storeCode_high. Qed.

Lemma change_recorded rt r st rep st' : reads rt = false -> handleRoute rt r st = (rep, st') -> recorded r st st' rep.
Proof.
  destruct rt; intros Hr; simpl in Hr; try discriminate Hr; clear Hr; cbn [handle].
  all: unfold handleCreateServerProfile, handleUpdateServerProfile, handleDeleteServerProfile, handleCreateClientProfile,
    handleUpdateClientProfile, handleDeleteClientProfile, handleCreateProfile, handleUpdateProfile, handleDeleteProfile,
    handleCreateScenario, handleUpdateScenario, handleDeleteScenario, handleDeleteScenarioHistory, handleForkScenarioHistory,
    handleUploadMedia, handleDeleteMedia, handleDeleteJob, handleStopJob, handleStartJob, handleRunTool,
    handleStartProfileShortcut, handleStopProfileShortcut, withKind, requireStore, requireRegistry.
  all: repeat case_match; intros [= <- <-]; unfold recorded; cbn [rp_code fails mapStoreError]; rewrite ?storeCode_high, ?mapJobsError_high, ?toolError_high; try done.
  all: try (do 3 eexists; reflexivity).
  all: try (match goal with E : prepareJob _ _ _ _ _ _ _ _ = Err _ |- _ => by rewrite (prepareJob_high _ _ _ E)
            | E : prepareShortcut _ _ _ _ _ _ _ _ _ _ = Err _ |- _ => by rewrite (prepareShortcut_high _ _ _ _ _ E) end).
Qed.

Lemma read_unchanged rt r st rep st' : reads rt = true -> handleRoute rt r st = (rep, st') -> st' = st.
Proof.
  destruct rt; intros Hr; simpl in Hr; try discriminate Hr; clear Hr; cbn [handle].
  all: unfold handleListServerProfiles, handleListClientProfiles, handleGetServerProfile, handleGetClientProfile, handleGetProfile,
    handleListScenarios, handleListBuiltinScenarios, handleGetBuiltinScenario, handleGetScenario, handleListScenarioHistory,
    handleGetScenarioHistory, handleListMedia, handleDownloadMedia, handleListJobs, handleGetJob, handleListTools, handleListRecordings,
    handleDownloadRecording, handleDownloadJobArtifact, withJob, withKind, requireStore, requireRegistry.
  all: repeat case_match; by intros [= <- <-].
Qed.

(** When authentication is enabled, no route of the control API answers or
    changes anything without valid credentials; reading changes nothing; and a
    route that changes something writes one entry of the audit log exactly when
    it succeeds. *)
Theorem v2_changes_are_audited a rt r st rep st' :
  enabled (v_auth st) = Some a ->
  Register errorText cwd root mkdir file_exists listDir marshalArgs now uuid toolText rt r st = (rep, st') ->
  if ValidRequest now r a
  then (reads rt = true -> st' = st)
       /\ (reads rt = false ->
           if rp_code rep <? 300 then exists action target payload, v_auth st' = Some (SettingsAuth.writeAudit now r action target payload a)
           else v_auth st' = v_auth st)
  else rep = fails 401 "unauthorized" /\ st' = st.
Proof.
  intros Ha. assert (v_auth st = Some a) as Hs.
  { unfold enabled in Ha. destruct (v_auth st) as [a'|]; [|done]. by destruct (Enabled a'); inversion Ha. }
  unfold Register, authenticated. rewrite Ha. destruct (ValidRequest now r a); [|by intros [= <- <-]].
  intros Hh. split; intros Hr; [by eapply read_unchanged|]. apply change_recorded in Hh; [|done].
  unfold recorded in Hh. by rewrite Hs in Hh |- *.
Qed.

End Audited.

(** * Shortcuts *)

Definition withProfile (id kind : str) (b : startJobBody) : startJobBody :=
  mkStart (sb_ID b) id kind (sb_ScenarioID b) (sb_RecordWAV b) (sb_RecordWAVDuplex b) (sb_Engine b) (sb_ToolArgs b).

Section Shortcuts.

Context `{Json ServerProfile, Json ClientProfile, Json ScenarioMeta}.
Context (cwd : option str) (root : str) (mkdir : str -> bool) (marshalArgs : gmap str any -> str) (now : Z) (uuid : str).

(** A shortcut prepares the job that [POST /jobs] prepares for the profile, when
    the request has no blanks around its job id and names a scenario that exists
    or none. *)
Theorem shortcut_is_start_job server id b s x :
  TrimSpace id = id -> TrimSpace (sb_ID b) = sb_ID b -> sb_ScenarioID b = [] \/ validateScenarioRef (sb_ScenarioID b) s = None ->
  prepareShortcut cwd root mkdir marshalArgs now uuid (kindOf server) id (Some (Some b)) s = Ok x
  <-> prepareJob cwd root mkdir marshalArgs now uuid (withProfile id (kindOf server) b) s = Ok x.
Proof.
  intros Hid Hjob Hsc. unfold prepareShortcut, prepareJob. cbn [withProfile sb_ProfileKind sb_ProfileID sb_ScenarioID sb_ID sb_Engine].
  rewrite Hid, Hjob. assert (ToLower (TrimSpace (kindOf server)) = kindOf server) as -> by (by destruct server).
  assert ((match sb_ScenarioID b with [] => None | _ => validateScenarioRef (sb_ScenarioID b) s end) = None) as Hv.
  { destruct Hsc as [-> | Hv]; [done|]. by destruct (sb_ScenarioID b). }
  destruct (profileSource _ _ _) as [[source|]|]; [|done..]. case_bool_decide; [done|].
  destruct (sb_ScenarioID b) eqn:E; [|rewrite Hv]; by destruct (JobArtifactDir _ _ _ _).
Qed.

End Shortcuts.

(** * The runtime view of a profile *)

Definition ofProfile (kind id : str) (j : Job) : bool := bool_decide (j_ProfileKind j = kind) && bool_decide (j_ProfileID j = id).

Definition pick (p : Job -> bool) (start : option Job) (jobs : list Job) : option Job :=
  foldl (fun o j => if p j then newest o j else o) start jobs.

Lemma latestLoop_pick kind id jobs a t :
  latestLoop kind id jobs a t
  = (pick (fun j => ofProfile kind id j && activeStatus (j_Status j)) a jobs,
     pick (fun j => ofProfile kind id j && negb (activeStatus (j_Status j))) t jobs).
Proof.
  revert a t. induction jobs as [|j jobs IH]; intros a t; [done|]. cbn [latestLoop pick foldl]. unfold ofProfile in *.
  destruct (bool_decide (j_ProfileKind j = kind)); simpl; [|by rewrite IH].
  destruct (bool_decide (j_ProfileID j = id)); simpl; [|by rewrite IH]. by destruct (activeStatus (j_Status j)); rewrite IH.
Qed.

(** What [pick] finds: a job with the property that no other is after, if there is one *)
Definition picked (p : Job -> bool) (jobs : list Job) (o : option Job) : Prop :=
  match o with
  | None => Forall (fun j => p j = false) jobs
  | Some b => b ∈ jobs /\ p b = true /\ Forall (fun j => p j = true -> After (j_CreatedAt j) (j_CreatedAt b) = false) jobs
  end.

Lemma After_irrefl a : After a a = false.
Proof. destruct a; simpl; [lia|done]. Qed.

Lemma After_trans a b c : After a b = false -> After c b = true -> After a c = false.
Proof. destruct a, b, c; simpl; try done; lia. Qed.

Lemma pick_spec p jobs : picked p jobs (pick p None jobs).
Proof.
  induction jobs as [|j jobs IH] using rev_ind; [by constructor|]. unfold pick. rewrite foldl_app. fold (pick p None jobs). simpl.
  destruct (p j) eqn:Ep; destruct (pick p None jobs) as [b|]; unfold newest in *; simpl in *.
  - destruct IH as (Hb & Hp & Hf). destruct (After (j_CreatedAt j) (j_CreatedAt b)) eqn:Ea; simpl.
    + split_and!; [set_solver|done|]. apply Forall_app. split; [|by repeat constructor; rewrite After_irrefl].
      eapply Forall_impl; [exact Hf|]. intros x Hx Hpx. by eapply After_trans; [apply Hx|].
    + split_and!; [set_solver|done|]. apply Forall_app. split; [done|by repeat constructor].
  - split_and!; [set_solver|done|]. apply Forall_app. split; [|by repeat constructor; rewrite After_irrefl].
    eapply Forall_impl; [exact IH|]. intros x Hx Hpx. congruence.
  - destruct IH as (Hb & Hp & Hf). split_and!; [set_solver|done|]. apply Forall_app. split; [done|]. repeat constructor. congruence.
  - apply Forall_app. split; [done|by repeat constructor].
Qed.

(** The job shown for a profile is one of its jobs; an active one if there is any,
    and one that no other of the profile in such a state was created after. *)
Theorem latest_job_shown jobs kind id :
  match latestJobForProfile jobs kind id with
  | None => Forall (fun j => ofProfile kind id j = false) jobs
  | Some b => b ∈ jobs /\ ofProfile kind id b = true
      /\ Forall (fun j => ofProfile kind id j = true ->
                   (activeStatus (j_Status j) = true -> activeStatus (j_Status b) = true)
                   /\ (activeStatus (j_Status j) = activeStatus (j_Status b) -> After (j_CreatedAt j) (j_CreatedAt b) = false)) jobs
  end.
Proof.
  unfold latestJobForProfile. rewrite latestLoop_pick.
  pose proof (pick_spec (fun j => ofProfile kind id j && activeStatus (j_Status j)) jobs) as Ha.
  pose proof (pick_spec (fun j => ofProfile kind id j && negb (activeStatus (j_Status j))) jobs) as Ht.
  destruct (pick _ None jobs) as [b|]; [|destruct (pick _ None jobs) as [b|]]; simpl in *.
  - destruct Ha as (Hb & [Hp Hs]%andb_true_iff & Hf). split_and!; [done..|]. eapply Forall_impl; [exact Hf|].
    intros j Hj Hpj. simpl in Hj. rewrite Hs, Hpj in *. split; [done|]. intros Hsj. apply Hj. by rewrite Hsj.
  - destruct Ht as (Hb & [Hp Hs]%andb_true_iff & Hf). split_and!; [done..|]. apply Forall_forall. intros j Hj Hpj.
    rewrite Forall_forall in Ha, Hf. specialize (Ha j Hj). specialize (Hf j Hj). simpl in Ha, Hf. rewrite Hpj in Ha, Hf. simpl in Ha, Hf.
    apply negb_true_iff in Hs. rewrite Ha, Hs in *. split; [done|]. intros _. by apply Hf.
  - apply Forall_forall. intros j Hj. rewrite Forall_forall in Ha, Ht. specialize (Ha j Hj). specialize (Ht j Hj). simpl in Ha, Ht.
    by destruct (ofProfile kind id j), (activeStatus (j_Status j)).
Qed.

(** * A small run, and surprises *)

Definition demoProfile (source : str) : ServerProfile :=
  mkServerProfile (lit "s") (lit "s") [] [] [] 0 [] source (Some 5) (Some 5).

#[local] Instance demo_server_json : Json ServerProfile := { marshal p := sp_Source p; unmarshal s := Some (demoProfile s) }.
#[local] Instance demo_client_json : Json ClientProfile := { marshal p := []; unmarshal s := None }.
#[local] Instance demo_meta_json : Json ScenarioMeta := { marshal p := []; unmarshal s := Some noMeta }.

Definition demoStore (source : str) : Store := mkStore {[lit "s.json" := mkFile source 5]} ∅ ∅ ∅ ∅ ∅ 0.
Definition demoState (source : str) (auth : server) : v2 StubRunner :=
  mkV2 (Some (demoStore source)) (Some (mkRegistry (mkJobsStore ∅ [] 1) NewStubRunner)) auth.
Definition demoBody (id scenarioID : string) : startJobBody := mkStart (lit id) (lit " s") (lit "Server") (lit scenarioID) false false None None.
Definition plainRequest (id : string) : request := mkRequest [] [] (lit id) [].

Definition serveDemo (rt : route) (r : request) (st : v2 StubRunner) : reply * v2 StubRunner :=
  Register (fun _ => []) None (lit "/data") (fun _ => true) (fun _ => true) (fun _ => NoDir) (fun _ => lit "{}") 1001 (lit "u-1") (fun _ => []) rt r st.

Definition prepareDemo (b : startJobBody) : result reply (Job * Spec) :=
  prepareJob None (lit "/data") (fun _ => true) (fun _ => lit "{}") 1001 (lit "u-1") b (demoStore []).


Lemma v2_changes_are_audited_witness :
  let '(rep, st') := serveDemo RDeleteServer (demoRequest "Bearer " "s") (demoState [] (Some demoAuth)) in
  rp_code rep = 204 /\ exists action target payload,
    v_auth st' = Some (SettingsAuth.writeAudit 1001 (demoRequest "Bearer " "s") action target payload demoAuth).
Proof.
  destruct (serveDemo RDeleteServer (demoRequest "Bearer " "s") (demoState [] (Some demoAuth))) as [rep st'] eqn:E.
  assert (enabled (v_auth (demoState [] (Some demoAuth))) = Some demoAuth) as Ha by (vm_compute; reflexivity).
  pose proof (v2_changes_are_audited _ _ _ _ _ _ _ _ _ _ demoAuth _ _ _ _ _ Ha E) as Hx.
  assert (rp_code rep = 204) as Hc.
  { apply (f_equal (fun x => rp_code x.1)) in E. cbn [fst] in E. rewrite <- E. vm_compute. reflexivity. }
  assert (ValidRequest 1001 (demoRequest "Bearer " "s") demoAuth = true) as Hv by (vm_compute; reflexivity).
  rewrite Hv in Hx. destruct Hx as [_ Hx]. specialize (Hx eq_refl). rewrite Hc in Hx. split; [done|exact Hx].
Defined.

Lemma shortcut_is_start_job_witness :
  is_ok (prepareDemo (withProfile (lit "s") (lit "server") (demoBody "j1" "uas"))) = true
  /\ prepareDemo (withProfile (lit "s") (lit "server") (demoBody "j1" "uas"))
     = prepareShortcut None (lit "/data") (fun _ => true) (fun _ => lit "{}") 1001 (lit "u-1") (lit "server") (lit "s")
         (Some (Some (demoBody "j1" "uas"))) (demoStore []).
Proof.
  destruct (prepareDemo (withProfile (lit "s") (lit "server") (demoBody "j1" "uas"))) as [x|] eqn:E; [|by vm_compute in E].
  split; [done|]. symmetry.
  apply (shortcut_is_start_job None (lit "/data") (fun _ => true) (fun _ => lit "{}") 1001 (lit "u-1") true (lit "s") (demoBody "j1" "uas")
    (demoStore []) x); [reflexivity|reflexivity|right; vm_compute; reflexivity|exact E].
Defined.

(** The shortcut starts a job with a scenario that exists nowhere, which the other
    route refuses; the worker then fails. *)
Theorem shortcut_unknown_scenario :
  rp_code (serveDemo (RStartProfile true (Some (Some (demoBody "j1" "nope")))) (plainRequest "s") (demoState [] None)).1 = 201
  /\ rp_code (serveDemo (RStartJob (Some (demoBody "j1" "nope"))) (plainRequest "") (demoState [] None)).1 = 404.
Proof. split; vm_compute; reflexivity. Qed.

(** With blanks around the job id, the shortcut starts a worker under an id that no
    job has: stopping the job marks it stopped and leaves the worker running. *)
Theorem padded_shortcut_unstoppable :
  let st1 := (serveDemo (RStartProfile true (Some (Some (demoBody "j1 " "")))) (plainRequest "s") (demoState [] None)).2 in
  let '(rep, st2) := serveDemo RStopJob (plainRequest "j1") st1 in
  rp_code rep = 200
  /\ (match rp_body rep with BStarted j => bool_decide (j_Status j = StatusStopped) | _ => false end) = true
  /\ match v_registry st2 with
     | Some g => bool_decide (is_Some (sr_started (rg_runner g) !! lit "j1 ")) && bool_decide (sr_stopped (rg_runner g) = ∅)
     | None => false
     end = true.
Proof. vm_compute. split_and!; reflexivity. Qed.

(** Updating a built-in profile with a body that does not repeat its source makes it
    startable. *)
Theorem update_clears_builtin :
  let st := demoState SourceBuiltIn None in
  let st1 := (serveDemo (RUpdateServer (Some (demoProfile []))) (plainRequest "s") st).2 in
  rp_code (serveDemo (RStartProfile true None) (plainRequest "s") st).1 = 409
  /\ rp_code (serveDemo (RStartProfile true None) (plainRequest "s") st1).1 = 201.
Proof. split; vm_compute; reflexivity. Qed.

(** Deleting the row of a running job leaves its worker running. *)
Theorem deleted_job_keeps_running :
  let st1 := (serveDemo (RStartJob (Some (demoBody "j1" ""))) (plainRequest "") (demoState [] None)).2 in
  let '(rep, st2) := serveDemo RDeleteJob (plainRequest "j1") st1 in
  rp_code rep = 204
  /\ match v_registry st2 with
     | Some g => bool_decide (js_jobs (rg_store g) = ∅) && bool_decide (is_Some (sr_started (rg_runner g) !! lit "j1"))
                 && bool_decide (sr_stopped (rg_runner g) = ∅)
     | None => false
     end = true.
Proof. vm_compute. split_and!; reflexivity. Qed.

(** A request without overrides stores [null], not the empty object. *)
Theorem absent_engine_is_null :
  match prepareDemo (demoBody "j1" "") with Ok (j, _) => j_ArgsJSON j = lit "null" | Err _ => False end.
Proof. vm_compute. reflexivity. Qed.
