(* ===== verification/LoadTest.v ===== *)
(** * Load tests

    [src/internal/loadtest/run.go] and [src/internal/api/v2/loadtest.go]: a load
    test is a job of a client profile that is rewritten before each run, with the
    parameters of the run as overrides of the spec.  [ParseDirector] reads where
    the calls go. *)

From stdpp Require Import base list gmap sets strings.
From Stdlib Require Import ZArith Lia Strings.Byte.
From S2P Require Import Prelude GoStrings GoFloat SafePath SettingsAuth Supervisor UiStore CliConfig Xml ScenarioXml Defaults WorkerConfig ApiV2 MediaStream.

Definition WizardProfileID : str := lit "_load_wizard".

Definition InviteMediaScenarios : list str :=
  [lit "invite_media"; lit "invite_media_early"; lit "invite_media_early_180"; lit "invite_media_savpf"; lit "invite_media_scale"].

Record Request := mkLoadRequest {
  lr_ID : str; lr_Director : str; lr_ScenarioID : str; lr_TotalCalls : Z; lr_Rate : float64; lr_MaxConcurrent : Z; lr_RunTimeoutMs : Z;
  lr_SipFrom : str; lr_SipPAI : str; lr_SipProvider : str; lr_RecordWAV : bool; lr_RecordWAVDuplex : bool; lr_HealthEnabled : bool;
  lr_HealthMinSuccessRatio : float64; lr_HealthMaxFailedCalls : Z }.

Record Director := mkDirector { dr_Host : str; dr_Port : Z }.

Inductive load_error :=
  | DirectorRequired | DirectorHostEmpty | DirectorPort (raw : str)
  | ScenarioUnknown (id : str) | TotalCallsNegative | RateNotPositive | MaxConcurrentNotPositive | TimeoutNegative
  | RatioNegative | FailedCallsNegative
  | LoadProfile (e : UiStore.store_error) | LoadDir (jobID : str) | LoadJobs (e : Supervisor.store_error).

(** ** The director *)

(** [fmt.Sscanf] of a port: a line break among the leading blanks is an error. *)
Definition scanPort (s : str) : Z :=
  let lead := take (length s - length (trim_left_space s)) s in
  if bool_decide (x0a ∈ lead) then 0 else Sscanf_d s 0.

Definition splitHostPort (raw : str) (defaultPort : Z) : result load_error (str * Z) :=
  let raw := TrimSpace raw in
  if bool_decide (raw = []) then Err DirectorHostEmpty
  else
    match LastIndex raw (lit ":"), Index raw (lit ":") with
    | Some i, Some j =>
      if (0 <? i)%nat && (j =? i)%nat then
        let host := TrimSpace (take i raw) in
        let port := scanPort (drop (S i) raw) in
        if port <=? 0 then Err (DirectorPort raw)
        else if bool_decide (host = []) then Err DirectorHostEmpty
        else Ok (host, port)
      else Ok (raw, defaultPort)
    | _, _ => Ok (raw, defaultPort)
    end.

Definition ParseDirector (input : str) : result load_error Director :=
  let raw := TrimSpace input in
  if bool_decide (raw = []) then Err DirectorRequired
  else
    let rest :=
      if HasPrefix raw (lit "sip:") then
        let rest := TrimPrefix raw (lit "sip:") in
        match Index rest (lit "@") with Some at_ => drop (S at_) rest | None => rest end
      else raw in
    let? (host, port) := splitHostPort rest 5060 in Ok (mkDirector host port).

Example director_examples :
  ParseDirector (lit " 10.0.0.1:5080 ") = Ok (mkDirector (lit "10.0.0.1") 5080)
  /\ ParseDirector (lit "sip:alice@sbc.example:5070") = Ok (mkDirector (lit "sbc.example") 5070)
  /\ ParseDirector (lit "sbc") = Ok (mkDirector (lit "sbc") 5060)
  /\ ParseDirector (lit "sbc:x") = Err (DirectorPort (lit "sbc:x")) /\ ParseDirector (lit "sip:") = Err DirectorHostEmpty.
Proof. split_and!; vm_compute; reflexivity. Qed.

(** ** Requests *)

Section Load.

Context `{Json ServerProfile, Json ClientProfile, Json ScenarioMeta}.
Context (Latin1Bytes : str -> option str) (compiles : str -> bool).
Context (cwd : option str) (root : str) (mkdir : str -> bool) (marshalArgs : gmap str any -> str) (now : Z) (uuid : str).

Definition scenarioOf (req : Request) : str := match TrimSpace (lr_ScenarioID req) with [] => lit "invite_media" | id => id end.

Definition validScenario (id : str) : bool :=
  if bool_decide (id ∈ InviteMediaScenarios) then true else is_ok (LoadNamed Latin1Bytes compiles id).

Definition Validate (req : Request) : option load_error :=
  match ParseDirector (lr_Director req) with
  | Err e => Some e
  | Ok _ =>
    if negb (validScenario (scenarioOf req)) then Some (ScenarioUnknown (scenarioOf req))
    else if lr_TotalCalls req <? 0 then Some TotalCallsNegative
    else if fle (lr_Rate req) fzero then Some RateNotPositive
    else if lr_MaxConcurrent req <=? 0 then Some MaxConcurrentNotPositive
    else if lr_RunTimeoutMs req <? 0 then Some TimeoutNegative
    else if lr_HealthEnabled req && flt (lr_HealthMinSuccessRatio req) fzero then Some RatioNegative
    else if lr_HealthMaxFailedCalls req <? 0 then Some FailedCallsNegative
    else None
  end.

Definition putWhen (c : bool) (k : string) (v : any) (m : gmap str any) : gmap str any := if c then <[lit k := v]> m else m.

(** A number of the map as the worker decodes it from the JSON of the spec *)
Definition number (n : Z) : any := AnyNumber (float_of_int n).

Definition BuildEngine (req : Request) (dir : Director) : gmap str any :=
  let engine := putWhen true "total_calls" (number (lr_TotalCalls req)) ∅ in
  let engine := putWhen true "rate" (AnyNumber (lr_Rate req)) engine in
  let engine := putWhen true "max_concurrent" (number (lr_MaxConcurrent req)) engine in
  let engine := putWhen true "remote_host" (AnyString (dr_Host dir)) engine in
  let engine := putWhen true "remote_port" (number (dr_Port dir)) engine in
  let engine := putWhen (0 <? lr_RunTimeoutMs req) "global_timeout_ms" (number (lr_RunTimeoutMs req)) engine in
  let engine := putWhen (filled (TrimSpace (lr_SipFrom req))) "sip_from" (AnyString (TrimSpace (lr_SipFrom req))) engine in
  let engine := putWhen (filled (TrimSpace (lr_SipPAI req))) "sip_pai" (AnyString (TrimSpace (lr_SipPAI req))) engine in
  let engine := putWhen (filled (TrimSpace (lr_SipProvider req))) "sip_provider" (AnyString (TrimSpace (lr_SipProvider req))) engine in
  let engine := putWhen (lr_HealthEnabled req && flt fzero (lr_HealthMinSuccessRatio req)) "health_min_success_ratio"
                  (AnyNumber (lr_HealthMinSuccessRatio req)) engine in
  putWhen (lr_HealthEnabled req) "health_max_failed_calls" (number (lr_HealthMaxFailedCalls req)) engine.

Definition wizardProfile (req : Request) (dir : Director) : ClientProfile :=
  mkClientProfile WizardProfileID (lit "Load test (wizard)")
    (lit "Auto-updated by POST /api/v2/load-test/run before each background job.") (scenarioOf req)
    [mkTransport (lit "u1") (lit "0.0.0.0") 0 true [] [] [] [] [] [] [] 0 false]
    (dr_Host dir) (dr_Port dir) (FormatFloat (lr_Rate req)) (lr_MaxConcurrent req)
    (if 0 <? lr_RunTimeoutMs req then lr_RunTimeoutMs req else 0) [] [] None None.

Definition UpsertWizardProfile (req : Request) (dir : Director) (s : Store) : option UiStore.store_error * Store :=
  match PutClientProfile now (wizardProfile req dir) true s with
  | (Ok _, s) => (None, s)
  | (Err ErrConflict, s) =>
    match PutClientProfile now (wizardProfile req dir) false s with (Ok _, s) => (None, s) | (Err e, s) => (Some e, s) end
  | (Err e, s) => (Some e, s)
  end.

(** [Start] up to the call of the registry *)
Definition prepareLoad (req : Request) (s : Store) : result load_error (Job * Spec) * Store :=
  match Validate req with
  | Some e => (Err e, s)
  | None =>
    match ParseDirector (lr_Director req) with
    | Err e => (Err e, s)
    | Ok dir =>
      match UpsertWizardProfile req dir s with
      | (Some e, s) => (Err (LoadProfile e), s)
      | (None, s) =>
        let jobID := jobIDOr uuid (TrimSpace (lr_ID req)) in
        match JobArtifactDir cwd root mkdir jobID with
        | None => (Err (LoadDir jobID), s)
        | Some artifactsDir =>
          let engine := BuildEngine req dir in
          (Ok (pendingJob now jobID WizardProfileID (lit "client") (scenarioOf req) (EncodeArgs marshalArgs (Some engine)) artifactsDir,
               mkSpec jobID root WizardProfileID (lit "client") (scenarioOf req) ∅ artifactsDir 0 (lr_RecordWAV req)
                 (lr_RecordWAV req && lr_RecordWAVDuplex req) engine), s)
        end
      end
    end
  end.

Context {R : Type} `{Runner R} (errorText : runner_error -> str).

Definition Start (req : Request) (s : Store) (g : Registry R) : result load_error Job * Store * Registry R :=
  match prepareLoad req s with
  | (Err e, s) => (Err e, s, g)
  | (Ok (job, spec), s) =>
    match StartJob errorText now job spec g with
    | (Ok j, g) => (Ok j, s, g)
    | (Err e, g) => (Err (LoadJobs e), s, g)
    end
  end.

(** ** The handler

    [%q] and the errors of the store, the directory and the registry are given by
    their texts. *)

Context (Quote : str -> str) (storeText : UiStore.store_error -> str) (dirText : str -> str) (jobsText : Supervisor.store_error -> str).

Definition loadText (e : load_error) : str :=
  match e with
  | DirectorRequired => lit "director: director is required"
  | DirectorHostEmpty => lit "director: director host is empty"
  | DirectorPort raw => lit "director: invalid director port in " ++ Quote raw
  | ScenarioUnknown id => lit "scenario_id: unknown or unsupported " ++ Quote id
  | TotalCallsNegative => lit "total_calls must be >= 0 (0 = soak until stop)"
  | RateNotPositive => lit "rate must be > 0"
  | MaxConcurrentNotPositive => lit "max_concurrent must be > 0"
  | TimeoutNegative => lit "run_timeout_ms must be >= 0"
  | RatioNegative => lit "health_min_success_ratio must be >= 0"
  | FailedCallsNegative => lit "health_max_failed_calls must be >= 0"
  | LoadProfile e => lit "profile: " ++ storeText e
  | LoadDir id => dirText id
  | LoadJobs e => jobsText e
  end.

Definition clientWords : list str :=
  [lit "director"; lit "total_calls"; lit "rate"; lit "max_concurrent"; lit "scenario_id"; lit "health_"; lit "required"; lit " must "].

Definition mapLoadTestError (e : load_error) : ApiV2.reply :=
  let msg := loadText e in
  ApiV2.mkReply (if existsb (Contains msg) clientWords then 400 else 500) (BError (Text msg)).

Context `{AuthLib}.

Definition handleRunLoadTest (content : option Request) : ApiV2.handler (R := R) := requireRegistry (fun g => requireStore (fun s r st =>
  match content with
  | None => (ApiV2.fails 400 "decode", st)
  | Some req =>
    match Start req s g with
    | (Err e, s, g) => (mapLoadTestError e, setRegistry g (setStore s st))
    | (Ok j, s, g) =>
      (ApiV2.mkReply 202 (BStarted j), audit now r (lit "loadtest.run") (j_ID j) (lr_Director req) (setRegistry g (setStore s st)))
    end
  end)).

End Load.

(** * A run is configured as it was asked for *)

Lemma lookup_putWhen_ne c k v m k' : lit k <> k' -> putWhen c k v m !! k' = m !! k'.
Proof. intros. destruct c; simpl; [by apply lookup_insert_ne|done]. Qed.

Lemma lookup_putWhen_eq c k v m : putWhen c k v m !! lit k = if c then Some v else m !! lit k.
Proof. destruct c; simpl; [apply lookup_insert_eq|done]. Qed.

(** A key of the overrides decides its field *)
Lemma lookup_override_ne {A : Type} m k g (get : any -> option A) accept v l f :
  f <> g -> (list_to_map (override m k g get accept v ++ l) : Config) !! f = (list_to_map l : Config) !! f.
Proof. intros. unfold override. repeat case_match; try done. by apply lookup_when_ne. Qed.

Lemma lookup_override_eq {A : Type} m k (get : any -> option A) accept v l f x a :
  m !! lit k = Some x -> get x = Some a -> accept a = true -> (list_to_map (override m k f get accept v ++ l) : Config) !! f = Some (v a).
Proof. intros Hm Hg Ha. unfold override. rewrite Hm, Hg. unfold when. rewrite Ha. apply lookup_insert_eq. Qed.

Lemma asInt_number n : Z.abs n < 2 ^ 53 -> asInt (number n) = Some n.
Proof.
  intros Hn. cbn [asInt number]. rewrite FormatFloat_int, Atoi_Itoa by done || (unfold in_int64, int64_min, int64_max; bool_to_prop; lia). done.
Qed.

Lemma director_host raw d dir : splitHostPort raw d = Ok dir -> dir.1 <> [].
Proof. unfold splitHostPort. repeat case_match; try done; intros <-%Ok_inj; by bool_to_prop. Qed.

Lemma ParseDirector_host input dir : ParseDirector input = Ok dir -> dr_Host dir <> [].
Proof.
  unfold ParseDirector. case_match; [done|]. destruct (splitHostPort _ _) as [[host port]|] eqn:E; [|done].
  intros <-%Ok_inj. by apply director_host in E.
Qed.

Ltac engine_key := unfold BuildEngine; repeat (rewrite lookup_putWhen_ne by (vm_compute; congruence)); rewrite lookup_putWhen_eq.
Ltac engine_field := unfold engineFields; rewrite ?lookup_override_ne by done; eapply lookup_override_eq; [engine_key|..].

(** What the overrides of a run say *)
Lemma run_fields req dir :
  Z.abs (lr_TotalCalls req) < 2 ^ 53 -> Z.abs (lr_MaxConcurrent req) < 2 ^ 53 -> Z.abs (dr_Port dir) < 2 ^ 53 -> dr_Host dir <> [] ->
  let m := engineFields (BuildEngine req dir) in
  m !! "TotalCalls"%string = Some (VI (lr_TotalCalls req)) /\ m !! "TotalCallsSetExplicitly"%string = Some (VB true)
  /\ m !! "Rate"%string = Some (VF (lr_Rate req)) /\ m !! "MaxConcurrent"%string = Some (VI (lr_MaxConcurrent req))
  /\ m !! "RemoteHost"%string = Some (VS (dr_Host dir)) /\ m !! "RemotePort"%string = Some (VI (dr_Port dir)).
Proof.
  intros Ht Hm Hp Hh. cbv zeta. split_and!.
  - engine_field; [reflexivity|by apply asInt_number|done].
  - unfold engineFields; rewrite ?lookup_override_ne by done. eapply (lookup_override_eq _ _ _ _ (fun _ => VB true)); [engine_key; reflexivity|by apply asInt_number|done].
  - engine_field; [reflexivity|done|done].
  - engine_field; [reflexivity|by apply asInt_number|done].
  - engine_field; [reflexivity|done|]. unfold filled. by destruct (dr_Host dir).
  - engine_field; [reflexivity|by apply asInt_number|done].
Qed.

Lemma timeout_field req dir : 0 < lr_RunTimeoutMs req < 2 ^ 53 ->
  engineFields (BuildEngine req dir) !! "GlobalTimeout"%string = Some (VI (i64 (lr_RunTimeoutMs req * ms))).
Proof.
  intros Ht. unfold engineFields; rewrite ?lookup_override_ne by done.
  eapply (lookup_override_eq _ _ _ _ (fun n => VI (i64 (n * ms)))); [engine_key|apply asInt_number; lia|lia]. by rewrite (proj2 (Z.ltb_lt _ _)) by lia.
Qed.

Lemma failed_calls_field req dir : lr_HealthEnabled req = true -> 0 <= lr_HealthMaxFailedCalls req < 2 ^ 53 ->
  engineFields (BuildEngine req dir) !! "HealthMaxFailedCalls"%string = Some (VI (lr_HealthMaxFailedCalls req)).
Proof. intros He Hf. engine_field; [by rewrite He|apply asInt_number; lia|lia]. Qed.

Section AsAsked.

Context `{Json ServerProfile, Json ClientProfile, Json ScenarioMeta}.
Context (Latin1Bytes : str -> option str) (compiles : str -> bool).
Context (cwd : option str) (root : str) (mkdir : str -> bool) (marshalArgs : gmap str any -> str) (now : Z) (uuid : str).
Context (disk : str -> option Store) (env : fs_env).

(** Profiles that were written can be read. *)
Hypothesis profile_readable : forall p : ClientProfile, exists q : ClientProfile, unmarshal (marshal p) = Some q.

Lemma wizard_stored req dir s s' : UpsertWizardProfile now req dir s = (None, s') ->
  exists p, GetClientProfile WizardProfileID s' = Ok p.
Proof.
  assert (forall p t, st_clients t !! profileFile WizardProfileID = Some (mkFile (marshal (p : ClientProfile)) now) ->
          exists q, GetClientProfile WizardProfileID t = Ok q) as Hget.
  { intros p t Ht. destruct (profile_readable p) as [q Hq]. exists q. unfold GetClientProfile, getProfile, readJSON.
    rewrite Ht. cbn [fl_data]. by rewrite Hq. }
  unfold UpsertWizardProfile, PutClientProfile, putProfile. change (isSafeID (p_ID (wizardProfile req dir))) with true. cbn [negb].
  change (profileFile (p_ID (wizardProfile req dir))) with (profileFile WizardProfileID).
  destruct (st_clients s !! profileFile WizardProfileID) as [f|] eqn:Ef; cbn [st_clients]; rewrite ?Ef.
  - intros [= <-]. eapply Hget. cbn [st_clients]. apply lookup_insert_eq.
  - intros [= <-]. eapply Hget. cbn [st_clients]. apply lookup_insert_eq.
Qed.

Lemma valid_scenario_loads id : validScenario Latin1Bytes compiles id = true -> exists sc, LoadNamed Latin1Bytes compiles id = Ok sc.
Proof.
  unfold validScenario. case_bool_decide as Hin.
  - intros _. apply list_elem_of_In in Hin. simpl in Hin.
    repeat destruct Hin as [<- | Hin]; [..|done]; (eapply builtin_text_loads; [by vm_compute|done]).
  - destruct (LoadNamed _ _ id) as [sc|]; [by exists sc|done].
Qed.

Lemma validated req : Validate Latin1Bytes compiles req = None ->
  validScenario Latin1Bytes compiles (scenarioOf req) = true /\ 0 <= lr_TotalCalls req /\ 0 < lr_MaxConcurrent req /\ 0 <= lr_HealthMaxFailedCalls req.
Proof. unfold Validate. repeat case_match; try done. intros _. bool_to_prop. split_and!; first [lia|done]. Qed.

(** A job with a built-in scenario: the overrides lie over a configuration with its name. *)
Lemma build_builtin spec store ref cfg0 sc files :
  Open cwd disk (sp_DataDir spec) = Some (sp_DataDir spec, store) -> profileOf spec store = Ok (ref, cfg0) ->
  sp_ScenarioID spec <> [] -> TrimSpace (sp_ScenarioID spec) = sp_ScenarioID spec -> GetScenario (sp_ScenarioID spec) store = Err UiStore.ErrNotFound ->
  LoadNamed Latin1Bytes compiles (sp_ScenarioID spec) = Ok sc ->
  match (BuildConfigFromSpec Latin1Bytes compiles cwd disk env spec files).1.1 with
  | Err e => e = RecordingsFailed
  | Ok cfg => exists base, cfg = engineFields (sp_Engine spec) ∪ base /\ base !! "ScenarioName"%string = Some (VS (sp_ScenarioID spec))
  end.
Proof.
  intros Ho Hp Hn Ht Hs Hl. unfold BuildConfigFromSpec. destruct (sp_DataDir spec) as [|c d]; [discriminate Ho|]. rewrite Ho, Hp, Ht.
  unfold resolveScenario. destruct (sp_ScenarioID spec) as [|b id] eqn:Ei; [exfalso; exact (Hn eq_refl)|]. rewrite Hs, Hl. clear Ho Hp Hn Ht Hs Hl Ei.
  unfold recordings, artifacts, inArtifacts. destruct (sp_RecordWAV spec && _); [destruct (fe_mkdir env _); [|done]|]; cbn [fst].
  all: rewrite overlay_layer; eexists; split; [reflexivity|].
  all: rewrite ?lookup_insert_ne by done; rewrite !lookup_setWhen_ne by done; apply lookup_insert_eq.
Qed.

Lemma scenarioOf_named req : scenarioOf req <> [] /\ TrimSpace (scenarioOf req) = scenarioOf req.
Proof.
  unfold scenarioOf. destruct (TrimSpace (lr_ScenarioID req)) as [|b id] eqn:E; [by vm_compute|]. split; [done|].
  rewrite <- E. apply TrimSpace_idemp.
Qed.

Lemma engine_no_name m : engineFields m !! "ScenarioName"%string = None.
Proof. unfold engineFields. rewrite !lookup_override_ne by done. unfold override. repeat case_match; try done. by apply lookup_when_last. Qed.


End AsAsked.

(** * Requests that are refused *)

Section Refused.

Context `{Json ServerProfile, Json ClientProfile, Json ScenarioMeta} `{AuthLib} {R : Type} `{Runner R}.
Context (Latin1Bytes : str -> option str) (compiles : str -> bool).
Context (cwd : option str) (root : str) (mkdir : str -> bool) (marshalArgs : gmap str any -> str) (now : Z) (uuid : str).
Context (errorText : runner_error -> str) (Quote : str -> str) (storeText : UiStore.store_error -> str) (dirText : str -> str)
  (jobsText : Supervisor.store_error -> str).

Lemma prefix_word a b w : Contains a w = true -> Contains (a ++ b) w = true.
Proof. rewrite !Contains_spec. intros (l & r & ->). exists l, (r ++ b). by rewrite <- !app_assoc. Qed.

(** An error whose text has a word of the list *)
Lemma word_is_400 e w : In w clientWords -> Contains (loadText Quote storeText dirText jobsText e) w = true ->
  rp_code (mapLoadTestError Quote storeText dirText jobsText e) = 400.
Proof.
  intros Hw Hc. unfold mapLoadTestError. cbn [rp_code].
  assert (existsb (Contains (loadText Quote storeText dirText jobsText e)) clientWords = true) as ->; [|done].
  apply existsb_exists. eauto.
Qed.

Lemma invalid_is_400 req e : Validate Latin1Bytes compiles req = Some e ->
  rp_code (mapLoadTestError Quote storeText dirText jobsText e) = 400.
Proof.
  assert (forall e', In e' [DirectorRequired; DirectorHostEmpty; TotalCallsNegative; RateNotPositive; MaxConcurrentNotPositive;
            TimeoutNegative; RatioNegative; FailedCallsNegative] ->
          rp_code (mapLoadTestError Quote storeText dirText jobsText e') = 400) as Hconst.
  { intros e' Hin. simpl in Hin. repeat destruct Hin as [<- | Hin]; [by vm_compute..|done]. }
  assert (forall e', e' = DirectorRequired \/ e' = DirectorHostEmpty \/ (exists raw, e' = DirectorPort raw) ->
          rp_code (mapLoadTestError Quote storeText dirText jobsText e') = 400) as Hdir.
  { intros e' [-> | [-> | [raw ->]]]; [apply Hconst; simpl; tauto..|].
    apply (word_is_400 _ (lit "director")); [simpl; tauto|]. apply prefix_word. by vm_compute. }
  unfold Validate. destruct (ParseDirector (lr_Director req)) as [dir|e'] eqn:Ed.
  - destruct (validScenario _ _ _); cbn [negb].
    + repeat case_match; intros [= <-]; apply Hconst; simpl; tauto.
    + intros [= <-]. apply (word_is_400 _ (lit "scenario_id")); [simpl; tauto|]. apply prefix_word. by vm_compute.
  - intros [= <-]. apply Hdir. unfold ParseDirector, splitHostPort in Ed. repeat (case_match; simpl in Ed; try done); injection Ed as <-; eauto.
Qed.

(** A request that does not validate is answered with 400 and changes nothing. *)
Theorem invalid_load_test_refused req e r (st : v2 R) s g :
  v_store st = Some s -> v_registry st = Some g -> Validate Latin1Bytes compiles req = Some e ->
  let '(rep, st') := handleRunLoadTest Latin1Bytes compiles cwd root mkdir marshalArgs now uuid errorText Quote storeText dirText jobsText
                       (Some req) r st in
  rp_code rep = 400 /\ st' = st.
Proof.
  intros Hs Hg Hv. unfold handleRunLoadTest, requireRegistry, requireStore. rewrite Hg, Hs. unfold Start, prepareLoad. rewrite Hv.
  split; [by eapply invalid_is_400|]. destruct st. simpl in *. by rewrite Hs, Hg.
Qed.

End Refused.

(** * A small run, and surprises *)

#[local] Instance demo_server_json : Json ServerProfile := { marshal p := []; unmarshal s := None }.
#[local] Instance demo_meta_json : Json ScenarioMeta := { marshal p := []; unmarshal s := Some noMeta }.

(** Client profiles as their time limit *)
Definition timedProfile (d : Z) : ClientProfile :=
  mkClientProfile WizardProfileID [] [] (lit "invite_media") [] [] 0 (lit "1") 1 d [] [] None None.
#[local] Instance demo_client_json : Json ClientProfile := {
  marshal p := Itoa (cp_DurationMs p); unmarshal s := Some (timedProfile (default 0 (Atoi s))) }.

Definition demoRequest (director : string) (timeout : Z) : Request :=
  mkLoadRequest (lit "j1") (lit director) [] 20 (float_of_int 4) 2 timeout [] [] [] false false true fzero 3.

Definition prepareDemo (timeout : Z) (s : Store) : result load_error (Job * Spec) * Store :=
  prepareLoad (fun _ => None) (fun _ => true) None (lit "/data") (fun _ => true) (fun _ => lit "{}") 5 (lit "u-1") (demoRequest "sbc:5080" timeout) s.
Definition emptyStore : Store := OpenWithOptions 0.

Definition builtFrom (s : Store) (spec : Spec) : result build_error Config :=
  (BuildConfigFromSpec (fun _ => None) (fun _ => true) None (fun _ => Some s) (mkFsEnv (fun _ => true) Some true true) spec ∅).1.1.

Definition specOf (x : result load_error (Job * Spec) * Store) : Spec :=
  match x.1 with Ok (_, spec) => spec | Err _ => mkSpec [] [] [] [] [] ∅ [] 0 false false ∅ end.
Definition configOf (x : result build_error Config) : Config := match x with Ok cfg => cfg | Err _ => ∅ end.


Definition demoRegistry : Registry StubRunner := mkRegistry (mkJobsStore ∅ [] 1) NewStubRunner.

Lemma invalid_load_test_refused_witness :
  let st := mkV2 (Some emptyStore) (Some demoRegistry) None in
  let '(rep, st') := handleRunLoadTest (fun _ => None) (fun _ => true) None (lit "/data") (fun _ => true) (fun _ => lit "{}") 5 (lit "u-1")
                       (fun _ => []) (fun s => s) (fun _ => []) (fun s => s) (fun _ => []) (Some (demoRequest "sbc:x" 0)) (mkRequest [] [] [] []) st in
  rp_code rep = 400 /\ st' = st.
Proof.
  apply (invalid_load_test_refused (fun _ => None) (fun _ => true) None (lit "/data") (fun _ => true) (fun _ => lit "{}") 5 (lit "u-1")
    (fun _ => []) (fun s => s) (fun _ => []) (fun s => s) (fun _ => []) (demoRequest "sbc:x" 0) (DirectorPort (lit "sbc:x")) (mkRequest [] [] [] [])
    (mkV2 (Some emptyStore) (Some demoRegistry) None) emptyStore demoRegistry eq_refl eq_refl).
  vm_compute. reflexivity.
Defined.

(** The directors that are URLs, which the comment promises, become hosts that do
    not exist; a port above 65535 is accepted. *)
Theorem url_director_misread :
  ParseDirector (lit "sip://sbc.example:5070") = Ok (mkDirector (lit "//sbc.example") 5070)
  /\ ParseDirector (lit "http://sbc.example:5070") = Ok (mkDirector (lit "http://sbc.example:5070") 5060)
  /\ ParseDirector (lit "sbc:70000") = Ok (mkDirector (lit "sbc") 70000).
Proof. split_and!; vm_compute; reflexivity. Qed.

(** Two runs share one profile: a soak without time limit, whose worker reads the
    profile after another run with a limit was accepted, stops at that limit. *)
Theorem wizard_profile_shared :
  let soak := prepareDemo 0 emptyStore in
  let other := prepareDemo 60000 soak.2 in
  getI (configOf (builtFrom soak.2 (specOf soak))) "GlobalTimeout" = 0
  /\ getI (configOf (builtFrom other.2 (specOf soak))) "GlobalTimeout" = 60 * second.
Proof. split; vm_compute; reflexivity. Qed.
