(* ===== verification/PcapReplay.v ===== *)
(** * Replay of captured media

    [src/internal/pcaplink] and [src/internal/media/pcap.go]: the link type of a
    capture file, the decoder chosen for it, the cooked header of Linux, the UDP
    payloads of a file with the time between them, and the loop that sends them.
    What a capture file holds is a list of frames with their times, as pcapgo
    reads them; gopacket finds the UDP payload of a frame, pion parses RTP, the
    recorder gets what is sent. *)

From stdpp Require Import base list gmap strings.
From Stdlib Require Import ZArith Lia Strings.Byte Sorting.Sorted.
From S2P Require Import Prelude GoStrings MediaStream.

(** ** Link types ([peek.go], [writeheader.go]) *)

Definition magicMicroseconds : Z := 2712847316.          (* 0xa1b2c3d4 *)
Definition magicMicrosecondsBigendian : Z := 3569595041. (* 0xd4c3b2a1 *)
Definition magicNanoseconds : Z := 2712812621.           (* 0xa1b23c4d *)
Definition magicNanosecondsBigendian : Z := 1295823521.  (* 0x4d3cb2a1 *)

Inductive peek_error := PeekShort | PeekGzip | PeekMagic (magic : Z).

(** The first bytes of [data]; [gunzip] is what a gzip stream decompresses to. *)
Definition PeekFileLinkType (gunzip : str -> option str) (data : str) : result peek_error Z :=
  if (length data <? 2)%nat then Err PeekShort
  else
    let? r := (if bool_decide (take 2 data = [x1f; x8b]) then match gunzip data with Some d => Ok d | None => Err PeekGzip end else Ok data) in
    if (length r <? 24)%nat then Err PeekShort
    else
      let magic := get_le (take 4 r) in
      let field := take 4 (drop 20 r) in
      if magic =? magicNanoseconds then Ok (get_le field)
      else if magic =? magicNanosecondsBigendian then Ok (get_be field)
      else if magic =? magicMicroseconds then Ok (get_le field)
      else if magic =? magicMicrosecondsBigendian then Ok (get_be field)
      else Err (PeekMagic magic).

Definition WriteMicrosecondsFileHeader (snaplen linkType : Z) : str :=
  put_le32 magicMicroseconds ++ put_le16 2 ++ put_le16 4 ++ replicate 8 x00 ++ put_le32 snaplen ++ put_le32 linkType.

(** ** Decoders ([resolve.go]) *)

Definition dltLinuxSLL2 : Z := 276.

(** [layers.LinkType(n)], the named link types, and the decoder of this program *)
Inductive decoder :=
  | LinkType (n : Z) | LinkTypeEthernet | LinkTypeLinuxSLL | LayerTypeLinuxSLL2 | LinkTypeRaw | LinkTypeNull | LinkTypeLoop
  | LinkTypeIPv4 | LinkTypeIPv6.

Inductive resolve_error := UnsupportedAuto (n : Z) | UnsupportedNumber (n : Z) | UnknownLink (spec : str).

Definition ResolveDecoder (spec : str) (headerLink : Z) : result resolve_error decoder :=
  let s := ToLower (TrimSpace spec) in
  let named l := bool_decide (s ∈ map lit l) in
  if named [""; "auto"]%string then
    if headerLink =? dltLinuxSLL2 then Ok LayerTypeLinuxSLL2
    else if 255 <? headerLink then Err (UnsupportedAuto headerLink)
    else Ok (LinkType headerLink)
  else if named ["ethernet"; "en10mb"; "1"]%string then Ok LinkTypeEthernet
  else if named ["linux_sll"; "sll"]%string then Ok LinkTypeLinuxSLL
  else if named ["linux_sll2"; "sll2"]%string then Ok LayerTypeLinuxSLL2
  else if named ["raw"; "cooked"]%string then Ok LinkTypeRaw
  else if named ["null"]%string then Ok LinkTypeNull
  else if named ["loop"]%string then Ok LinkTypeLoop
  else if named ["ipv4"]%string then Ok LinkTypeIPv4
  else if named ["ipv6"]%string then Ok LinkTypeIPv6
  else match ParseUint 32 s with
       | Some n =>
         if n =? dltLinuxSLL2 then Ok LayerTypeLinuxSLL2
         else if 255 <? n then Err (UnsupportedNumber n)
         else Ok (LinkType n)
       | None => Err (UnknownLink spec)
       end.

(** ** The cooked header ([linux_sll2.go]) *)

Record LinuxSLL2 := mkSLL2 {
  sll_PacketType : Z; sll_AddrType : Z; sll_AddrLen : Z; sll_Addr : str; sll_Protocol : Z; sll_Interface : Z; sll_Payload : str }.

Inductive sll_error := SLLTooSmall | SLLAddrLen (n : Z).

Definition field (a b : nat) (data : str) : str := take (b - a) (drop a data).

Definition DecodeFromBytes (data : str) : result sll_error LinuxSLL2 :=
  if (length data <? 20)%nat then Err SLLTooSmall
  else
    let addrLen := get_be (field 4 6 data) in
    if 8 <? addrLen then Err (SLLAddrLen addrLen)
    else
      let addr := field 6 (6 + Z.to_nat addrLen) data in
      Ok (mkSLL2 (get_be (field 0 2 data)) (get_be (field 2 4 data)) addrLen (addr ++ replicate (8 - length addr) x00)
            (get_be (field 14 16 data)) (get_be (field 16 20 data)) (drop 20 data)).

Inductive layer := LayerIPv4 | LayerIPv6 | LayerARP | LayerDot1Q | LayerEthernet.

Definition NextLayerType (sll : LinuxSLL2) : layer :=
  let version := match sll_Payload sll with b :: _ => Z.shiftr (b2z b) 4 | [] => 0 end in
  if version =? 4 then LayerIPv4
  else if version =? 6 then LayerIPv6
  else if sll_Protocol sll =? 2048 then LayerIPv4
  else if sll_Protocol sll =? 34525 then LayerIPv6
  else if sll_Protocol sll =? 2054 then LayerARP
  else if (sll_Protocol sll =? 33024) || (sll_Protocol sll =? 34984) then LayerDot1Q
  else LayerEthernet.

(** ** Loading ([pcap.go]) *)

Record pcapPacket := mkPcapPacket { pk_data : str; pk_delay : Z }.

(** What [ReadPacketData] returns, call after call; the end of the list is the end
    of the file. *)
Inductive read := ReadFrame (data : str) (stamp : Z) | ReadError.

(** [rtp.Packet.Unmarshal]: what the loop uses of a packet *)
Record rtpPacket := mkRTP { rp_SSRC : Z; rp_Timestamp : Z; rp_PayloadType : Z; rp_Payload : str }.

Inductive load_error := LoadHeader (e : peek_error) | LoadLink (e : resolve_error) | LoadOpen | LoadRead | LoadEmpty.

Section Replay.

(** The UDP payload of a frame, for a decoder *)
Context (udpPayload : decoder -> str -> option str) (Unmarshal : str -> option rtpPacket).

Definition delayAfter (last : option Z) (stamp : Z) : Z :=
  match last with None => 0 | Some l => if stamp - l <? 0 then 0 else stamp - l end.

Fixpoint loadLoop (dec : decoder) (reads : list read) (last : option Z) (firstSSRC : Z) (packets : list pcapPacket) :
  result load_error (list pcapPacket * Z) :=
  match reads with
  | [] => Ok (packets, firstSSRC)
  | ReadError :: _ => Err LoadRead
  | ReadFrame data stamp :: reads =>
    if (length data =? 0)%nat then Ok (packets, firstSSRC)
    else match udpPayload dec data with
    | None => loadLoop dec reads last firstSSRC packets
    | Some raw =>
      if (length raw =? 0)%nat then loadLoop dec reads last firstSSRC packets
      else
        let ssrc := if firstSSRC =? 0 then match Unmarshal raw with Some p => rp_SSRC p | None => firstSSRC end else firstSSRC in
        loadLoop dec reads (Some stamp) ssrc (packets ++ [mkPcapPacket raw (delayAfter last stamp)])
    end
  end.

(** [loadPCAPPackets] on the first bytes of a file and its frames; [None] when the
    file cannot be opened again or [pcapgo.NewReader] refuses it *)
Definition loadPCAPPackets (gunzip : str -> option str) (header linkSpec : str) (reads : option (list read)) : result load_error (list pcapPacket * Z) :=
  match PeekFileLinkType gunzip header with
  | Err e => Err (LoadHeader e)
  | Ok headerLT =>
    match ResolveDecoder linkSpec headerLT with
    | Err e => Err (LoadLink e)
    | Ok dec =>
      match reads with
      | None => Err LoadOpen
      | Some reads =>
        match loadLoop dec reads None 0 [] with
        | Err e => Err e
        | Ok (packets, ssrc) => if (length packets =? 0)%nat then Err LoadEmpty else Ok (packets, ssrc)
        end
      end
    end
  end.

(** ** Sending ([pcapLoop]) *)

Record sender := mkSender {
  sn_ssrc : Z; sn_lastTimestamp : Z; sn_packetCount : Z; sn_octetCount : Z; sn_RTPPacketsSent : Z; sn_RTPOctetsSent : Z;
  sn_recorded : list (Z * str);        (* given to the recorder *)
  sn_wire : list str;                  (* written to the socket *)
  sn_observed : list str;              (* given to the capture hook *)
  sn_elapsed : Z;                      (* delays waited out *)
  sn_stopped : bool }.                 (* [Stop] was called *)

(** The session as [StartPCAPReplay] leaves it *)
Definition startSender (firstSSRC : Z) : sender := mkSender firstSSRC 0 0 0 0 0 [] [] [] 0 false.

(** What happens to one packet: cancelled before it or during its delay, the
    encryption (none, a result, an error), whether the write succeeds *)
Inductive encryption := Clear | Sealed (wire : str) | SealError.
Record pass := mkPass { ps_cancelled : bool; ps_encryption : encryption; ps_write : bool }.

Definition count (octets : Z) (s : sender) : sender :=
  mkSender (sn_ssrc s) (sn_lastTimestamp s) (u32 (sn_packetCount s + 1)) (u32 (sn_octetCount s + octets)) (u32 (sn_RTPPacketsSent s + 1))
    (u32 (sn_RTPOctetsSent s + octets)) (sn_recorded s) (sn_wire s) (sn_observed s) (sn_elapsed s) (sn_stopped s).

Definition wentOut (observing : bool) (wire clear : str) (s : sender) : sender :=
  mkSender (sn_ssrc s) (sn_lastTimestamp s) (sn_packetCount s) (sn_octetCount s) (sn_RTPPacketsSent s) (sn_RTPOctetsSent s)
    (sn_recorded s) (sn_wire s ++ [wire]) (if observing then sn_observed s ++ [clear] else sn_observed s) (sn_elapsed s) (sn_stopped s).

Definition noteRTP (p : rtpPacket) (s : sender) : sender :=
  mkSender (rp_SSRC p) (rp_Timestamp p) (sn_packetCount s) (sn_octetCount s) (sn_RTPPacketsSent s) (sn_RTPOctetsSent s)
    (sn_recorded s ++ [(rp_PayloadType p, rp_Payload p)]) (sn_wire s) (sn_observed s) (sn_elapsed s) (sn_stopped s).

Definition waited (d : Z) (s : sender) : sender :=
  mkSender (sn_ssrc s) (sn_lastTimestamp s) (sn_packetCount s) (sn_octetCount s) (sn_RTPPacketsSent s) (sn_RTPOctetsSent s)
    (sn_recorded s) (sn_wire s) (sn_observed s) (sn_elapsed s + d) (sn_stopped s).

Fixpoint replayPackets (observing : bool) (packets : list pcapPacket) (passes : list pass) (s : sender) : sender :=
  match packets, passes with
  | packet :: packets, p :: passes =>
    if ps_cancelled p then s
    else
      let s := waited (pk_delay packet) s in
      let clear := pk_data packet in
      match ps_encryption p with
      | SealError => s
      | e =>
        let wire := match e with Sealed w => w | _ => clear end in
        if negb (ps_write p) then s
        else
          let s := wentOut observing wire clear s in
          match Unmarshal clear with
          | Some r => replayPackets observing packets passes (count (Z.of_nat (length (rp_Payload r))) (noteRTP r s))
          | None => replayPackets observing packets passes (count (Z.of_nat (length clear)) s)
          end
      end
  | _, _ => s
  end.

(** [defer s.Stop()]: however the loop ends *)
Definition pcapLoop (observing : bool) (packets : list pcapPacket) (passes : list pass) (s : sender) : sender :=
  let s := replayPackets observing packets passes s in
  mkSender (sn_ssrc s) (sn_lastTimestamp s) (sn_packetCount s) (sn_octetCount s) (sn_RTPPacketsSent s) (sn_RTPOctetsSent s)
    (sn_recorded s) (sn_wire s) (sn_observed s) (sn_elapsed s) true.

(** ** What the file holds *)

(** The UDP payloads of the frames, with their times *)
Definition udpFrames (dec : decoder) (frames : list (str * Z)) : list (str * Z) :=
  omap (fun f => raw ← udpPayload dec (fst f); if (length raw =? 0)%nat then None else Some (raw, snd f)) frames.

Fixpoint delays (last : option Z) (stamps : list Z) : list Z :=
  match stamps with [] => [] | t :: stamps => delayAfter last t :: delays (Some t) stamps end.

Definition sumZ (l : list Z) : Z := foldr Z.add 0 l.

Definition octetsOf (raw : str) : Z := Z.of_nat (length (match Unmarshal raw with Some p => rp_Payload p | None => raw end)).

Lemma loadLoop_frames dec frames last ssrc packets :
  Forall (fun f => fst f <> []) frames ->
  exists ssrc', loadLoop dec (map (fun f => ReadFrame (fst f) (snd f)) frames) last ssrc packets =
    Ok (packets ++ zip_with mkPcapPacket (map fst (udpFrames dec frames)) (delays last (map snd (udpFrames dec frames))), ssrc').
Proof.
  intros Hne. revert last ssrc packets. induction Hne as [|[data t] frames Hd Hne IH]; intros; cbn.
  - exists ssrc. by rewrite app_nil_r.
  - destruct data as [|b data]; [done|]. cbn. destruct (udpPayload dec (b :: data)) as [raw|]; cbn; [|apply IH].
    destruct (length raw =? 0)%nat; cbn; [apply IH|].
    match goal with |- context [loadLoop dec _ (Some t) ?s ?p] => destruct (IH (Some t) s p) as [ssrc' ->] end.
    exists ssrc'. by rewrite <- app_assoc.
Qed.

Lemma loadLoop_stops dec frames t reads last ssrc packets :
  loadLoop dec (map (fun f => ReadFrame (fst f) (snd f)) frames ++ ReadFrame [] t :: reads) last ssrc packets =
  loadLoop dec (map (fun f => ReadFrame (fst f) (snd f)) frames) last ssrc packets.
Proof.
  revert last ssrc packets. induction frames as [|[data u] frames IH]; intros; cbn; [done|]. repeat case_match; auto.
Qed.

Lemma length_delays last stamps : length (delays last stamps) = length stamps.
Proof. revert last. induction stamps; intros; cbn; auto. Qed.

Lemma last_cons {A : Type} (t : A) stamps a : List.last (t :: stamps) a = List.last stamps t.
Proof. revert t a. induction stamps as [|u stamps IH]; intros t a; [done|]. change (List.last (u :: stamps) a = List.last (u :: stamps) t). by rewrite !IH. Qed.

Lemma sum_delays a stamps : Sorted Z.le (a :: stamps) -> sumZ (delays (Some a) stamps) = List.last stamps a - a.
Proof.
  revert a. induction stamps as [|t stamps IH]; intros a Hs; [cbn; lia|].
  apply Sorted_inv in Hs as [Hs Ha]. inversion Ha; subst. specialize (IH t Hs).
  rewrite last_cons. cbn [delays sumZ foldr]. fold (sumZ (delays (Some t) stamps)). rewrite IH. unfold delayAfter.
  destruct (Z.ltb_spec (t - a) 0); lia.
Qed.

(** A pass in which nothing fails and the media is not encrypted *)
Definition clearPass (p : pass) : Prop := p = mkPass false Clear true.

Definition counters (s : sender) : Z * Z * (Z * Z) :=
  (sn_packetCount s, sn_octetCount s, (sn_RTPPacketsSent s, sn_RTPOctetsSent s)).

Definition countedAs (n octets : Z) : Z * Z * (Z * Z) := (u32 n, u32 octets, (u32 n, u32 octets)).

Lemma count_counters octets s n o : counters s = countedAs n o -> counters (count octets s) = countedAs (n + 1) (o + octets).
Proof.
  unfold counters, countedAs, count. cbn. intros E. injection E as -> -> -> ->. unfold u32. by rewrite !Zplus_mod_idemp_l.
Qed.

Lemma replayPackets_all observing packets passes s n o :
  Forall clearPass passes -> (length packets <= length passes)%nat -> (counters s = countedAs n o) ->
  let s' := replayPackets observing packets passes s in
  sn_wire s' = sn_wire s ++ map pk_data packets /\
  sn_observed s' = sn_observed s ++ (if observing then map pk_data packets else []) /\
  sn_elapsed s' = sn_elapsed s + sumZ (map pk_delay packets) /\
  counters s' = countedAs (n + Z.of_nat (length packets)) (o + sumZ (map octetsOf (map pk_data packets))).
Proof.
  intros Hp. revert packets s n o. induction Hp as [|p passes Hp Hps IH]; intros packets s n o Hlen Hc.
  { destruct packets; cbn in *; [|lia]. destruct observing; rewrite !app_nil_r, !Z.add_0_r; done. }
  destruct packets as [|k packets]; [cbn -[counters countedAs]; destruct observing; rewrite !app_nil_r, !Z.add_0_r; done|].
  cbn [length] in Hlen. rewrite Hp. cbn [replayPackets ps_cancelled ps_encryption ps_write negb map].
  assert (N : forall x y, counters (wentOut observing x y (waited (pk_delay k) s)) = countedAs n o) by done.
  assert (O : octetsOf (pk_data k) = octetsOf (pk_data k)) by done. unfold octetsOf at 1 in O.
  change (sumZ (octetsOf (pk_data k) :: map octetsOf (map pk_data packets))) with
    (octetsOf (pk_data k) + sumZ (map octetsOf (map pk_data packets))).
  change (sumZ (pk_delay k :: map pk_delay packets)) with (pk_delay k + sumZ (map pk_delay packets)).
  rewrite <- O. destruct (Unmarshal (pk_data k)) as [r|];
    match goal with |- context [replayPackets _ _ _ (count ?c ?s0)] =>
      destruct (IH packets (count c s0) (n + 1) (o + c)) as (A & B & C & D); [lia|by apply count_counters|] end;
    rewrite A, B, C, D; cbn [count noteRTP wentOut waited sn_wire sn_observed sn_elapsed length];
    (split_and!; [by rewrite <- app_assoc|destruct observing; by rewrite <- ?app_assoc, ?app_nil_r|lia|f_equal; lia]).
Qed.

Lemma map_zip_packets (datas : list str) (ds : list Z) : length datas = length ds ->
  map pk_data (zip_with mkPcapPacket datas ds) = datas /\ map pk_delay (zip_with mkPcapPacket datas ds) = ds.
Proof. revert ds. induction datas; intros [|d ds] H; cbn in *; try done. destruct (IHdatas ds) as [-> ->]; [lia|done]. Qed.

(** What is sent for the payloads [fr] of a file: all of them, in the order of the
    file, seen by the capture hook in clear, countedAs, and, when the stamps do not
    decrease, in the time the capture took. *)
Definition reproduced (observing : bool) (fr : list (str * Z)) (s : sender) : Prop :=
  sn_wire s = map fst fr /\
  sn_observed s = (if observing then map fst fr else []) /\
  counters s = countedAs (Z.of_nat (length fr)) (sumZ (map octetsOf (map fst fr))) /\
  (Sorted Z.le (map snd fr) -> sn_elapsed s = List.last (map snd fr) 0 - hd 0 (map snd fr)) /\
  sn_stopped s = true.

Lemma first_delay stamps : Sorted Z.le stamps -> sumZ (delays None stamps) = List.last stamps 0 - hd 0 stamps.
Proof.
  destruct stamps as [|t stamps]; [done|]. intros Hs.
  change (sumZ (0 :: delays (Some t) stamps) = List.last (t :: stamps) 0 - t). cbn [sumZ foldr].
  fold (sumZ (delays (Some t) stamps)). rewrite sum_delays, last_cons by done. lia.
Qed.

(** a capture file with no empty frame and at least one UDP payload is loaded, and its replay, when nothing
    fails, sends the payloads unchanged in the order of the file, gives the same bytes to the capture hook, counts
    packets and RTP payload octets modulo 2^32, takes the time between the first and the last payload when the time
    stamps do not decrease, and stops the session. *)
Theorem replay_reproduces_capture gunzip header spec lt dec frames observing passes :
  PeekFileLinkType gunzip header = Ok lt -> ResolveDecoder spec lt = Ok dec ->
  Forall (fun f => fst f <> []) frames -> udpFrames dec frames <> [] ->
  Forall clearPass passes -> (length (udpFrames dec frames) <= length passes)%nat ->
  exists packets ssrc,
    loadPCAPPackets gunzip header spec (Some (map (fun f => ReadFrame (fst f) (snd f)) frames)) = Ok (packets, ssrc) /\
    reproduced observing (udpFrames dec frames) (pcapLoop observing packets passes (startSender ssrc)).
Proof.
  intros Hl Hd Hne Hsome Hp Hlen. unfold loadPCAPPackets. rewrite Hl, Hd.
  destruct (loadLoop_frames dec frames None 0 [] Hne) as [ssrc ->]. cbn [app].
  set (fr := udpFrames dec frames) in *.
  destruct (map_zip_packets (map fst fr) (delays None (map snd fr))) as [Hdata Hdelay].
  { by rewrite length_delays, !length_map. }
  set (packets := zip_with _ _ _) in *.
  assert (Hn : length packets = length fr) by (rewrite <- (length_map pk_data), Hdata; apply length_map).
  exists packets, ssrc. split.
  { destruct (Nat.eqb_spec (length packets) 0) as [E|]; [|done]. rewrite Hn in E. by apply nil_length_inv in E. }
  destruct (replayPackets_all observing packets passes (startSender ssrc) 0 0) as (A & B & C & D); [done|lia|done|].
  unfold reproduced, pcapLoop. cbn [sn_wire sn_observed sn_elapsed sn_stopped]. rewrite Hdata, Hn in *.
  split_and!; [done|done|exact D| |done]. intros Hs. rewrite C, Hdelay. cbn [startSender sn_elapsed]. by rewrite first_delay.
Qed.

End Replay.

(** A capture of one Ethernet frame that is no UDP, two that are, and a stray one *)
Definition demoPayload (dec : decoder) (data : str) : option str := match data with x55 :: raw => Some raw | _ => None end.
Definition demoUnmarshal (raw : str) : option rtpPacket :=
  match raw with x80 :: pt :: payload => Some (mkRTP 7 160 (b2z pt) payload) | _ => None end.
Definition demoFrames : list (str * Z) := [([x01], 5); ([x55; x80; x00; x41; x42], 10); ([x55; x01], 30); ([x55], 40)].

Lemma replay_reproduces_capture_witness : exists packets ssrc,
  loadPCAPPackets demoPayload demoUnmarshal (fun _ => None) (WriteMicrosecondsFileHeader 65535 1) (lit "auto")
    (Some (map (fun f => ReadFrame (fst f) (snd f)) demoFrames)) = Ok (packets, ssrc) /\
  reproduced demoUnmarshal true [([x80; x00; x41; x42], 10); ([x01], 30)]
    (pcapLoop demoUnmarshal true packets [mkPass false Clear true; mkPass false Clear true] (startSender ssrc)).
Proof.
  apply (replay_reproduces_capture demoPayload demoUnmarshal (fun _ => None) (WriteMicrosecondsFileHeader 65535 1) (lit "auto") 1
    (LinkType 1) demoFrames true [mkPass false Clear true; mkPass false Clear true]).
  - by vm_compute.
  - by vm_compute.
  - by repeat constructor.
  - by vm_compute.
  - by repeat constructor.
  - by vm_compute; repeat constructor.
Defined.

(** An empty frame hides the rest of the file. *)
Theorem empty_frame_ends_capture udpPayload Unmarshal dec frames t reads :
  loadLoop udpPayload Unmarshal dec (map (fun f => ReadFrame (fst f) (snd f)) frames ++ ReadFrame [] t :: reads) None 0 [] =
  loadLoop udpPayload Unmarshal dec (map (fun f => ReadFrame (fst f) (snd f)) frames) None 0 [].
Proof. apply loadLoop_stops. Qed.

(** Stamps that go back stretch the replay: 30 instead of 20. *)
Example unordered_stamps_stretch : sumZ (delays None [10; 20; 10; 30]) = 30.
Proof. done. Qed.

(** ** Headers *)

(** The link type a written header holds is the one that is read back, to 32 bits, and 276 selects the cooked
    decoder, which [layers.LinkType], of 8 bits, cannot name. *)
Theorem link_type_roundtrip gunzip snaplen linkType :
  PeekFileLinkType gunzip (WriteMicrosecondsFileHeader snaplen linkType) = Ok (u32 linkType) /\
  ResolveDecoder [] (u32 276) = Ok LayerTypeLinuxSLL2.
Proof.
  split; [|by vm_compute]. unfold WriteMicrosecondsFileHeader.
  change (put_le32 snaplen) with [z2b snaplen; z2b (Z.shiftr snaplen 8); z2b (Z.shiftr snaplen 16); z2b (Z.shiftr snaplen 24)].
  unfold PeekFileLinkType. cbn -[get_le put_le32 Z.eqb z2b Z.shiftr].
  rewrite <- get_le_put32. done.
Qed.

(** What an automatic choice gives is the decoder of the link type of the file, or
    an error that names it: a link type above 255 is never cut to 8 bits. *)
Theorem auto_link_not_truncated headerLink :
  ResolveDecoder [] headerLink =
    (if headerLink =? 276 then Ok LayerTypeLinuxSLL2
     else if headerLink <=? 255 then Ok (LinkType headerLink) else Err (UnsupportedAuto headerLink)).
Proof.
  unfold ResolveDecoder. change (bool_decide (ToLower (TrimSpace []) ∈ map lit [""; "auto"]%string)) with true.
  unfold dltLinuxSLL2. repeat case_match; bool_to_prop; try done; lia.
Qed.

(** The header DLT 276 documents: protocol, two reserved bytes, interface, hardware
    type, packet type, length of the address and the address *)
Definition sll2Header (protocol interface hatype : Z) (pkttype halen : byte) (addr : str) : str :=
  put_u16 protocol ++ [x00; x00] ++ put_u32 interface ++ put_u16 hatype ++ [pkttype; halen] ++ addr.

(** An IPv4 or IPv6 packet behind such a header is found for every interface below
    9 * 65536, by the version of its first byte; the fields of the header are not
    those of the link type. *)
Theorem sll2_ip_found protocol interface hatype pkttype halen addr b payload :
  length addr = 8%nat -> 0 <= interface < 589824 -> Z.shiftr (b2z b) 4 = 4 \/ Z.shiftr (b2z b) 4 = 6 ->
  exists sll, DecodeFromBytes (sll2Header protocol interface hatype pkttype halen addr ++ b :: payload) = Ok sll /\
    sll_Payload sll = b :: payload /\
    NextLayerType sll = (if Z.shiftr (b2z b) 4 =? 4 then LayerIPv4 else LayerIPv6).
Proof.
  intros Ha Hi Hb. do 8 (destruct addr as [|? addr]; [done|]). destruct addr; [|done].
  assert (Hlen : get_be [z2b (Z.shiftr interface 24); z2b (Z.shiftr interface 16)] = interface / 65536).
  { unfold get_be. simpl. rewrite !b2z_z2b, !Z.shiftr_div_pow2 by lia. Z.to_euclidean_division_equations. lia. }
  unfold sll2Header, DecodeFromBytes, field. cbn -[get_be z2b Z.shiftr Z.ltb NextLayerType b2z].
  rewrite Hlen. destruct (Z.ltb_spec 8 (interface / 65536)); [Z.to_euclidean_division_equations; lia|].
  eexists. split; [done|]. split; [done|]. unfold NextLayerType. cbn [sll_Payload].
  destruct Hb as [-> | ->]; done.
Qed.
