(* ===== verification/MediaSink.v ===== *)
(** * Reports on media sent to the capture server

    [src/mediasink]: the choice of an exporter, the counters it keeps for every
    RTP stream, what it forwards and the reports it sends every five seconds.
    A Go map is ranged over in an order the program does not choose: a tick
    takes the order as an argument.  A [time.Time] is the nanoseconds since the
    Unix epoch, the zero time [None].  The lock makes every operation one step. *)

From stdpp Require Import base list gmap strings.
From Stdlib Require Import ZArith Lia Strings.Byte Floats.SpecFloat.
From S2P Require Import Prelude GoStrings GoFloat Stats Hep MediaSession.

(** ** Choice of the exporter ([factory.go], [api.go]) *)

Record MediaConfig := mkMediaConfig {
  mc_CaptureID : Z; mc_Password : str; mc_RawRTCP : bool; mc_HomerLakeRTCP : bool; mc_SendMediaReport : bool }.

(** ** Streams ([open.go]) *)

Definition streamPruneAge : Z := 60 * 10 ^ 9.

(** The statistics of [rtpStreamState] that compare a packet with the one before *)
Record arrivals := mkArrivals {
  ar_firstPacket : bool; ar_jitter : float64; ar_maxJitter : float64; ar_sumJitter : float64; ar_sumDelta : float64;
  ar_deltaCount : Z; ar_maxDelta : float64; ar_outOrder : Z }.

Record rtpStreamState := mkStream {
  rt_packetCount : Z; rt_octetCount : Z; rt_lastSeen : option Z; rt_reportStart : option Z;
  rt_srcIP : str; rt_srcPort : Z; rt_dstIP : str; rt_dstPort : Z; rt_callID : str;
  rt_lastRTPTimestamp : Z; rt_prevRTPTimestamp : Z; rt_lastSeq : Z; rt_lastArrivalTime : option Z; rt_mediaPT : Z;
  rt_arrivals : arrivals; rt_ntpMSW : Z; rt_ntpLSW : Z; rt_packetLoss : Z }.

Definition noArrivals : arrivals := mkArrivals false fzero fzero fzero fzero 0 fzero 0.

Definition newStream (srcIP : str) (srcPort : Z) (dstIP : str) (dstPort : Z) (callID : str) (reportStart : option Z) : rtpStreamState :=
  mkStream 0 0 None reportStart srcIP srcPort dstIP dstPort callID 0 0 0 None 0 noArrivals 0 0 0.

Record openExporter := mkExporter {
  oe_captureID : Z; oe_password : str; oe_homerLake : bool; oe_rawPeriodic : bool; oe_immediateRawRTCP : bool;
  oe_rtpStreams : gmap Z rtpStreamState;
  oe_wire : list str;          (* datagrams sent to the capture server *)
  oe_closed : bool }.

Definition newOpenExporter (captureID : Z) (password : str) (homerLake rawPeriodic : bool) : openExporter :=
  mkExporter captureID password homerLake rawPeriodic (rawPeriodic && negb homerLake) ∅ [] false.

Inductive factory_error := ErrShortJSONMediaUnavailable | ErrExtension.

(** What a registered extension makes of a configuration: an error, an exporter of
    its own, or nothing *)
Inductive extension (X : Type) := ExtError | ExtExporter (x : X) | ExtNone.
Arguments ExtError {X}.
Arguments ExtExporter {X} _.
Arguments ExtNone {X}.

Definition NewMediaExporter {X : Type} (ext : option (MediaConfig -> extension X)) (cfg : MediaConfig) :
  result factory_error (option (X + openExporter)) :=
  if negb (mc_SendMediaReport cfg) then Ok None
  else match (match ext with Some f => f cfg | None => ExtNone end) with
  | ExtError => Err ErrExtension
  | ExtExporter x => Ok (Some (inl x))
  | ExtNone =>
    let rawPeriodic := mc_RawRTCP cfg && negb (mc_HomerLakeRTCP cfg) in
    if negb (mc_HomerLakeRTCP cfg) && negb rawPeriodic then Err ErrShortJSONMediaUnavailable
    else Ok (Some (inr (newOpenExporter (mc_CaptureID cfg) (mc_Password cfg) (mc_HomerLakeRTCP cfg) rawPeriodic)))
  end.

(** [Close] *)
Definition CloseExporter (e : openExporter) : openExporter :=
  mkExporter (oe_captureID e) (oe_password e) (oe_homerLake e) (oe_rawPeriodic e) (oe_immediateRawRTCP e) (oe_rtpStreams e)
    (oe_wire e) true.

Definition withStreams (m : gmap Z rtpStreamState) (e : openExporter) : openExporter :=
  mkExporter (oe_captureID e) (oe_password e) (oe_homerLake e) (oe_rawPeriodic e) (oe_immediateRawRTCP e) m (oe_wire e) (oe_closed e).

Definition toServer (pkt : str) (e : openExporter) : openExporter :=
  mkExporter (oe_captureID e) (oe_password e) (oe_homerLake e) (oe_rawPeriodic e) (oe_immediateRawRTCP e) (oe_rtpStreams e)
    (oe_wire e ++ [pkt]) (oe_closed e).

Definition payloadTypeClockRate (pt : Z) : Z :=
  if bool_decide (pt ∈ [0; 3; 8; 9; 18]) then 8000 else if bool_decide (pt ∈ [96; 97; 98]) then 90000 else 8000.

(** The bytes [a:b] of a slice *)
Definition bytesAt (a b : nat) (data : str) : str := take (b - a) (drop a data).

(** The packet that comes [lastArrival] after another *)
Definition arrive (now lastArrival pt seq rtpTS prevTS lastSeq : Z) (a : arrivals) : arrivals :=
  let deltaSec := Seconds (now - lastArrival) in
  let deltaMS := fmul deltaSec (float_of_int 1000) in
  let maxDelta := if flt (ar_maxDelta a) deltaMS then deltaMS else ar_maxDelta a in
  let clockRate := payloadTypeClockRate pt in
  let clockRate := if clockRate =? 0 then 8000 else clockRate in
  let diff := fsub deltaSec (fdiv (float_of_int (i32 (rtpTS - prevTS))) (float_of_int clockRate)) in
  let diff := if flt diff fzero then SFopp diff else diff in
  let d := fmul diff (float_of_int 1000) in
  let jitter := fadd (ar_jitter a) (fdiv (fsub d (ar_jitter a)) (float_of_int 16)) in
  mkArrivals (ar_firstPacket a) jitter (if flt (ar_maxJitter a) jitter then jitter else ar_maxJitter a) (fadd (ar_sumJitter a) jitter)
    (fadd (ar_sumDelta a) deltaMS) (u32 (ar_deltaCount a + 1)) maxDelta
    (if negb (ar_firstPacket a) && (i16 (seq - lastSeq) <? 0) then u32 (ar_outOrder a + 1) else ar_outOrder a).

Definition notFirst (a : arrivals) : arrivals :=
  mkArrivals false (ar_jitter a) (ar_maxJitter a) (ar_sumJitter a) (ar_sumDelta a) (ar_deltaCount a) (ar_maxDelta a) (ar_outOrder a).

(** One packet of at least 12 bytes, on the state of its stream *)
Definition observe (now : Z) (payload : str) (s : rtpStreamState) : rtpStreamState :=
  let pt := Z.land (get_be (bytesAt 1 2 payload)) 127 in
  let seq := get_be (bytesAt 2 4 payload) in
  let rtpTS := get_be (bytesAt 4 8 payload) in
  let a := match rt_lastArrivalTime s with
           | Some l => arrive now l pt seq rtpTS (rt_prevRTPTimestamp s) (rt_lastSeq s) (rt_arrivals s)
           | None => rt_arrivals s
           end in
  mkStream (u32 (rt_packetCount s + 1)) (u32 (rt_octetCount s + (Z.of_nat (length payload) - 12))) (Some now) (rt_reportStart s)
    (rt_srcIP s) (rt_srcPort s) (rt_dstIP s) (rt_dstPort s) (rt_callID s)
    rtpTS (rt_lastRTPTimestamp s) seq (Some now) (if pt =? 101 then rt_mediaPT s else pt)
    (notFirst a) (rt_ntpMSW s) (rt_ntpLSW s) (rt_packetLoss s).

Definition withCall (callID : str) (s : rtpStreamState) : rtpStreamState :=
  mkStream (rt_packetCount s) (rt_octetCount s) (rt_lastSeen s) (rt_reportStart s) (rt_srcIP s) (rt_srcPort s) (rt_dstIP s) (rt_dstPort s)
    callID (rt_lastRTPTimestamp s) (rt_prevRTPTimestamp s) (rt_lastSeq s) (rt_lastArrivalTime s) (rt_mediaPT s) (rt_arrivals s)
    (rt_ntpMSW s) (rt_ntpLSW s) (rt_packetLoss s).

Definition ssrcOf (payload : str) : Z := get_be (bytesAt 8 12 payload).

Definition SendRTP (now : Z) (srcIP : str) (srcPort : Z) (dstIP : str) (dstPort : Z) (callID payload : str) (e : openExporter) : openExporter :=
  if (length payload <? 12)%nat then e
  else
    let s := match oe_rtpStreams e !! ssrcOf payload with
             | None => newStream srcIP srcPort dstIP dstPort callID (Some now)
             | Some s => match callID with [] => s | _ => withCall callID s end
             end in
    withStreams (<[ssrcOf payload := observe now payload s]> (oe_rtpStreams e)) e.

Definition ProtocolRTCP : Z := 5.

Inductive send_error := EncodeError (e : hep_error) | WriteError.

Section Exporting.

(** Name resolution, and whether the capture server's socket takes a datagram *)
Context (lookup_ip : str -> option str) (write_ok : str -> bool).

Definition rtcpMessage (now : Z) (srcIP : str) (srcPort : Z) (dstIP : str) (dstPort : Z) (callID payload : str) (e : openExporter) : HepMessage :=
  mkHep (Some now) srcIP dstIP srcPort dstPort IPProtoUDP ProtocolRTCP (oe_captureID e) (oe_password e) callID payload.

Definition onRTCP (now : Z) (callID : str) (packetLoss : Z) (rawPayload : str) (s : rtpStreamState) : rtpStreamState :=
  let sr := (20 <=? length rawPayload)%nat in
  mkStream (rt_packetCount s) (rt_octetCount s) (Some now) (rt_reportStart s) (rt_srcIP s) (rt_srcPort s) (rt_dstIP s) (rt_dstPort s)
    callID (rt_lastRTPTimestamp s) (rt_prevRTPTimestamp s) (rt_lastSeq s) (rt_lastArrivalTime s) (rt_mediaPT s) (rt_arrivals s)
    (if sr then get_be (bytesAt 8 12 rawPayload) else rt_ntpMSW s) (if sr then get_be (bytesAt 12 16 rawPayload) else rt_ntpLSW s) packetLoss.

Definition SendRTCP (now : Z) (callID : str) (ssrc : Z) (srcIP : str) (srcPort : Z) (dstIP : str) (dstPort : Z) (packetLoss : Z)
  (rawPayload : str) (e : openExporter) : result send_error unit * openExporter :=
  if oe_immediateRawRTCP e then
    match Encode lookup_ip now (rtcpMessage now srcIP srcPort dstIP dstPort callID rawPayload e) with
    | Err err => (Err (EncodeError err), e)
    | Ok packet => if write_ok packet then (Ok tt, toServer packet e) else (Err WriteError, e)
    end
  else
    let s := match oe_rtpStreams e !! ssrc with None => newStream srcIP srcPort dstIP dstPort [] None | Some s => s end in
    (Ok tt, withStreams (<[ssrc := onRTCP now callID packetLoss rawPayload s]> (oe_rtpStreams e)) e).

(** [sendHEP]: errors are dropped *)
Definition sendHEP (now : Z) (s : rtpStreamState) (payload : str) (e : openExporter) : openExporter :=
  match Encode lookup_ip now (rtcpMessage now (rt_srcIP s) (rt_srcPort s) (rt_dstIP s) (rt_dstPort s) (rt_callID s) payload e) with
  | Err _ => e
  | Ok packet => if write_ok packet then toServer packet e else e
  end.

(** ** Reports *)

Definition ntpNow (now : Z) : Z * Z :=
  (u32 (u32 (now / 10 ^ 9) + 2208988800),
   u32_of_float (fmul (fdiv (float_of_int (now mod 10 ^ 9)) (float_of_int (10 ^ 9))) (float_of_int (2 ^ 32)))).

Definition buildRTCPSR (ssrc : Z) (s : rtpStreamState) (now : Z) : str :=
  let '(msw, lsw) := if rt_ntpMSW s =? 0 then ntpNow now else (rt_ntpMSW s, rt_ntpLSW s) in
  [x80; xc8] ++ put_u16 6 ++ put_u32 ssrc ++ put_u32 msw ++ put_u32 lsw ++ put_u32 (u32 (Z.quot now 125))
  ++ put_u32 (rt_packetCount s) ++ put_u32 (rt_octetCount s).

Definition jsonKey (k : String.string) : str := [x22] ++ lit k ++ [x22; x3a].
Definition jsonText (s : str) : str := [x22] ++ s ++ [x22].

Definition buildHomerLakeRTCPJSON (ssrc : Z) (s : rtpStreamState) (now : Z) : str :=
  let '(msw, lsw) := if (rt_ntpMSW s =? 0) && (rt_ntpLSW s =? 0) then ntpNow now else (rt_ntpMSW s, rt_ntpLSW s) in
  lit "{" ++ jsonKey "type" ++ lit "200," ++ jsonKey "ssrc" ++ Itoa ssrc ++ lit "," ++ jsonKey "report_count" ++ lit "0,"
  ++ jsonKey "report_blocks" ++ lit "[]," ++ jsonKey "sender_information" ++ lit "{" ++ jsonKey "packets" ++ Itoa (rt_packetCount s)
  ++ lit "," ++ jsonKey "ntp_timestamp_sec" ++ jsonText (Itoa msw) ++ lit "," ++ jsonKey "ntp_timestamp_usec" ++ jsonText (Itoa lsw)
  ++ lit "," ++ jsonKey "rtp_timestamp" ++ Itoa (i32 (rt_lastRTPTimestamp s)) ++ lit "," ++ jsonKey "octets" ++ Itoa (rt_octetCount s)
  ++ lit "}}".

(** One turn of the loop over the streams *)
Definition reportStream (build : Z -> rtpStreamState -> Z -> str) (now : Z) (e : openExporter) (ssrc : Z) : openExporter :=
  match oe_rtpStreams e !! ssrc with
  | None => e
  | Some s =>
    if streamPruneAge <? now - default 0 (rt_lastSeen s) then withStreams (delete ssrc (oe_rtpStreams e)) e
    else if rt_packetCount s =? 0 then e
    else sendHEP now s (build ssrc s now) e
  end.

Definition sendRawRTCPReports (order : list Z) (now : Z) (e : openExporter) : openExporter :=
  foldl (reportStream buildRTCPSR now) e order.
Definition sendHomerLakeRTCPReports (order : list Z) (now : Z) (e : openExporter) : openExporter :=
  foldl (reportStream buildHomerLakeRTCPJSON now) e order.

(** A tick of the loop the exporter runs; after [Close] there is none *)
Definition tick (order : list Z) (now : Z) (e : openExporter) : openExporter :=
  if oe_closed e then e
  else if oe_homerLake e then sendHomerLakeRTCPReports order now e
  else if oe_rawPeriodic e then sendRawRTCPReports order now e
  else e.

End Exporting.

(** * Properties *)

(** ** What a stream holds *)

(** One call of [SendRTP] *)
Record rtp_call := mkCall { rc_now : Z; rc_srcIP : str; rc_srcPort : Z; rc_dstIP : str; rc_dstPort : Z; rc_callID : str; rc_payload : str }.

Definition sendCall (e : openExporter) (c : rtp_call) : openExporter :=
  SendRTP (rc_now c) (rc_srcIP c) (rc_srcPort c) (rc_dstIP c) (rc_dstPort c) (rc_callID c) (rc_payload c) e.

Definition ofStream (ssrc : Z) (c : rtp_call) : Prop := (12 <= length (rc_payload c))%nat /\ ssrcOf (rc_payload c) = ssrc.
#[global] Instance ofStream_dec ssrc c : Decision (ofStream ssrc c).
Proof. apply _. Defined.

Definition octets (calls : list rtp_call) : Z := foldr (fun c n => Z.of_nat (length (rc_payload c)) - 12 + n) 0 calls.

(** The state of a stream after the calls about it: the counters modulo 2^32, the
    addresses of the first, the time and RTP time stamp of the last *)
Definition stream_of (calls : list rtp_call) (s : option rtpStreamState) : Prop :=
  match calls with
  | [] => s = None
  | first :: _ =>
    exists st, s = Some st /\ rt_packetCount st = u32 (Z.of_nat (length calls)) /\ rt_octetCount st = u32 (octets calls) /\
      rt_srcIP st = rc_srcIP first /\ rt_srcPort st = rc_srcPort first /\ rt_dstIP st = rc_dstIP first /\ rt_dstPort st = rc_dstPort first /\
      rt_lastSeen st = Some (rc_now (List.last calls first)) /\ rt_ntpMSW st = 0 /\
      rt_lastRTPTimestamp st = get_be (bytesAt 4 8 (rc_payload (List.last calls first)))
  end.

Lemma u32_add a b : u32 (u32 a + b) = u32 (a + b).
Proof. unfold u32. by rewrite Zplus_mod_idemp_l. Qed.

Lemma octets_app l c : octets (l ++ [c]) = octets l + (Z.of_nat (length (rc_payload c)) - 12).
Proof. induction l as [|d l IH]; cbn; [lia|]. unfold octets in IH. rewrite IH. unfold octets. lia. Qed.

Lemma sendCall_other ssrc e c : ~ ofStream ssrc c -> oe_rtpStreams (sendCall e c) !! ssrc = oe_rtpStreams e !! ssrc.
Proof.
  unfold ofStream, sendCall, SendRTP. intros H. destruct (Nat.ltb_spec (length (rc_payload c)) 12); [done|].
  cbn [withStreams oe_rtpStreams]. apply lookup_insert_ne. intros E. apply H. split; [lia|done].
Qed.

Lemma sendCall_own ssrc e c calls : ofStream ssrc c -> stream_of calls (oe_rtpStreams e !! ssrc) ->
  stream_of (calls ++ [c]) (oe_rtpStreams (sendCall e c) !! ssrc).
Proof.
  intros [Hl Hs] H. unfold sendCall, SendRTP. rewrite (proj2 (Nat.ltb_ge _ _)) by lia. rewrite Hs. cbn [withStreams oe_rtpStreams].
  rewrite lookup_insert_eq. destruct calls as [|first calls]; cbn [stream_of app] in *.
  - rewrite H. eexists. split; [done|]. cbn. split_and!; try done. unfold octets. cbn. f_equal. lia.
  - destruct H as (st & E & Hp & Ho & H1 & H2 & H3 & H4 & H5 & H6 & H7). rewrite E. eexists. split; [done|].
    assert (Hlast : forall l d, List.last (l ++ [c]) d = c) by (intros; apply List.last_last).
    rewrite (Hlast (first :: calls) first : List.last (first :: calls ++ [c]) first = c).
    change (first :: calls ++ [c]) with ((first :: calls) ++ [c]). rewrite octets_app, length_app.
    destruct (rc_callID c); cbn; rewrite ?Hp, ?Ho, ?u32_add; split_and!; try done; f_equal; cbn [length]; lia.
Qed.

Lemma calls_stream ssrc calls e seen : stream_of seen (oe_rtpStreams e !! ssrc) ->
  stream_of (seen ++ filter (ofStream ssrc) calls) (oe_rtpStreams (foldl sendCall e calls) !! ssrc).
Proof.
  revert e seen. induction calls as [|c calls IH]; intros e seen H; cbn [foldl]; [by rewrite app_nil_r|].
  rewrite filter_cons. destruct (decide (ofStream ssrc c)) as [Hc|Hc].
  - change (c :: filter (ofStream ssrc) calls) with ([c] ++ filter (ofStream ssrc) calls). rewrite app_assoc. apply IH. by apply sendCall_own.
  - apply IH. by rewrite sendCall_other.
Qed.

(** ** Ticks *)

Definition config (e : openExporter) := (oe_captureID e, oe_password e, oe_homerLake e, oe_rawPeriodic e, oe_closed e).

Lemma sendCall_config e c : config (sendCall e c) = config e.
Proof. unfold sendCall, SendRTP. by destruct (_ <? _)%nat. Qed.

Lemma calls_config calls e : config (foldl sendCall e calls) = config e.
Proof. revert e. induction calls as [|c calls IH]; intros e; [done|]. cbn [foldl]. by rewrite IH, sendCall_config. Qed.

Section Ticks.
Context (lookup_ip : str -> option str) (write_ok : str -> bool) (build : Z -> rtpStreamState -> Z -> str) (now : Z).

Lemma sendHEP_frame s payload e : let e' := sendHEP lookup_ip write_ok now s payload e in
  oe_rtpStreams e' = oe_rtpStreams e /\ config e' = config e /\ oe_wire e `prefix_of` oe_wire e'.
Proof. cbn. unfold sendHEP. repeat case_match; split_and!; try done. cbn. by eexists. Qed.

Lemma reportStream_frame e ssrc : let e' := reportStream lookup_ip write_ok build now e ssrc in
  config e' = config e /\ oe_wire e `prefix_of` oe_wire e' /\
  forall k, oe_rtpStreams e' !! k =
    (if decide (k = ssrc) then s ← oe_rtpStreams e !! k; if streamPruneAge <? now - default 0 (rt_lastSeen s) then None else Some s
     else oe_rtpStreams e !! k).
Proof.
  cbn. unfold reportStream. destruct (oe_rtpStreams e !! ssrc) as [s|] eqn:E.
  - destruct (streamPruneAge <? _) eqn:Ep.
    + split_and!; try done. intros k. cbn [withStreams oe_rtpStreams]. case_decide as Hk; subst.
      * by rewrite lookup_delete_eq, E; cbn; rewrite Ep.
      * by rewrite lookup_delete_ne.
    + destruct (_ =? 0).
      * split_and!; try done. intros k. case_decide; subst; [|done]. by rewrite E; cbn; rewrite Ep.
      * destruct (sendHEP_frame s (build ssrc s now) e) as (A & B & C). split_and!; try done. intros k. rewrite A.
        case_decide; subst; [|done]. by rewrite E; cbn; rewrite Ep.
  - split_and!; try done. intros k. case_decide; subst; [|done]. by rewrite E.
Qed.

(** After a tick over all streams, those seen in the last minute remain, unchanged. *)
Lemma reports_streams order e k : 
  oe_rtpStreams (foldl (reportStream lookup_ip write_ok build now) e order) !! k =
    (if decide (k ∈ order) then s ← oe_rtpStreams e !! k; if streamPruneAge <? now - default 0 (rt_lastSeen s) then None else Some s
     else oe_rtpStreams e !! k).
Proof.
  revert e. induction order as [|x order IH]; intros e; cbn [foldl]; [by rewrite decide_False by apply not_elem_of_nil|].
  destruct (reportStream_frame e x) as (_ & _ & F). rewrite IH, !F.
  repeat case_decide; subst; try set_solver; destruct (oe_rtpStreams e !! _) as [s|]; try done; cbn; destruct (streamPruneAge <? _) eqn:Ep; try done; cbn; by rewrite Ep.
Qed.

Lemma reports_frame order e : let e' := foldl (reportStream lookup_ip write_ok build now) e order in
  config e' = config e /\ oe_wire e `prefix_of` oe_wire e'.
Proof.
  revert e. induction order as [|x order IH]; intros e; [done|]. cbn [foldl] in *. destruct (IH (reportStream lookup_ip write_ok build now e x)) as [A B].
  destruct (reportStream_frame e x) as (C & D & _). split; [by rewrite A|by etrans].
Qed.

Lemma reports_sent order e ssrc s pkt :
  ssrc ∈ order -> oe_rtpStreams e !! ssrc = Some s -> now - default 0 (rt_lastSeen s) <= streamPruneAge -> rt_packetCount s <> 0 ->
  Encode lookup_ip now (rtcpMessage now (rt_srcIP s) (rt_srcPort s) (rt_dstIP s) (rt_dstPort s) (rt_callID s) (build ssrc s now) e) = Ok pkt ->
  write_ok pkt = true ->
  pkt ∈ oe_wire (foldl (reportStream lookup_ip write_ok build now) e order).
Proof.
  intros Hin Hs Hage Hc He Hw. revert e Hs He. induction order as [|x order IH]; intros e Hs He; [by apply not_elem_of_nil in Hin|]. cbn [foldl].
  destruct (decide (x = ssrc)) as [->|Hx].
  - destruct (reports_frame order (reportStream lookup_ip write_ok build now e ssrc)) as [_ [rest ->]].
    apply elem_of_app. left. unfold reportStream. rewrite Hs. rewrite (proj2 (Z.ltb_ge _ _)) by lia. rewrite (proj2 (Z.eqb_neq _ _)) by done.
    unfold sendHEP. rewrite He, Hw. cbn. set_solver.
  - apply IH; [set_solver| |].
    + destruct (reportStream_frame e x) as (_ & _ & F). by rewrite F, decide_False.
    + destruct (reportStream_frame e x) as (C & _ & _). unfold config in C. injection C as C1 C2 _ _ _.
      unfold rtcpMessage in *. by rewrite C1, C2.
Qed.

End Ticks.

(** ** Sender reports *)

Lemma SR_fields ssrc s now :
  length (buildRTCPSR ssrc s now) = 28%nat /\ get_be (bytesAt 4 8 (buildRTCPSR ssrc s now)) = u32 ssrc /\
  get_be (bytesAt 20 24 (buildRTCPSR ssrc s now)) = u32 (rt_packetCount s) /\
  get_be (bytesAt 24 28 (buildRTCPSR ssrc s now)) = u32 (rt_octetCount s).
Proof.
  unfold buildRTCPSR. destruct (if rt_ntpMSW s =? 0 then _ else _) as [msw lsw]. rewrite <- !get_be_put_u32. done.
Qed.

Lemma u32_idem z : u32 (u32 z) = u32 z.
Proof. unfold u32. by rewrite Z.mod_mod. Qed.

Definition rawExporter (captureID : Z) (password : str) : openExporter := newOpenExporter captureID password false true.

(** for every RTP stream that was seen in the last minute, the tick of the exporter sends to the capture server
    a packet that decodes to an RTCP sender report with the SSRC of the stream and the number of its packets and
    payload octets modulo 2^32, whatever other streams are mixed with it and in whichever order the streams are
    visited; the packet carries the addresses of the first packet of the stream. *)
Theorem media_report_exact lookup_ip write_ok captureID password calls ssrc first rest order now src fam dst dfam :
  0 <= captureID < 4294967296 ->
  filter (ofStream ssrc) calls = first :: rest -> Z.of_nat (length (first :: rest)) < 4294967296 ->
  now - rc_now (List.last (first :: rest) first) <= streamPruneAge -> ssrc ∈ order ->
  parseIP lookup_ip (rc_srcIP first) = Some (src, fam) -> parseIP lookup_ip (rc_dstIP first) = Some (dst, dfam) ->
  let e := foldl sendCall (rawExporter captureID password) calls in
  exists callID report,
    let msg := mkHep (Some now) (rc_srcIP first) (rc_dstIP first) (rc_srcPort first) (rc_dstPort first) IPProtoUDP ProtocolRTCP
                 captureID password callID report in
    length report = 28%nat /\ get_be (bytesAt 4 8 report) = u32 ssrc /\
    get_be (bytesAt 20 24 report) = Z.of_nat (length (first :: rest)) /\
    get_be (bytesAt 24 28 report) = u32 (octets (first :: rest)) /\
    forall pkt, Encode lookup_ip now msg = Ok pkt -> write_ok pkt = true ->
      pkt ∈ oe_wire (tick lookup_ip write_ok order now e) /\
      Decode pkt = Ok (mkDecoded fam IPProtoUDP (wire_ip fam src) (wire_ip fam dst) (rc_srcPort first) (rc_dstPort first) (wire_time now)
        ProtocolRTCP captureID password callID report).
Proof.
  intros Hcap Hf Hn Hage Hin Hsrc Hdst e.
  pose proof (calls_stream ssrc calls (rawExporter captureID password) [] eq_refl) as H. fold e in H. rewrite Hf in H.
  cbn [app stream_of] in H. destruct H as (s & Hs & Hp & Ho & H1 & H2 & H3 & H4 & H5 & _ & _).
  assert (Hc : config e = config (rawExporter captureID password)) by apply calls_config.
  unfold config in Hc. cbn in Hc. injection Hc as C1 C2 C3 C4 C5.
  assert (Hpos : rt_packetCount s = Z.of_nat (length (first :: rest))) by (rewrite Hp; apply u32_small; lia).
  exists (rt_callID s), (buildRTCPSR ssrc s now). destruct (SR_fields ssrc s now) as (F0 & F1 & F2 & F3).
  split; [done|]. split; [done|]. split; [by rewrite F2, Hp, u32_idem, <- Hp|]. split; [by rewrite F3, Ho, u32_idem|].
  intros pkt He Hw. split.
  - unfold tick. rewrite C3, C4, C5. eapply reports_sent; try done; [by rewrite H5|rewrite Hpos; cbn [length]; lia|].
    unfold rtcpMessage. by rewrite H1, H2, H3, H4, C1, C2.
  - refine (Decode_Encode _ _ _ _ _ _ _ _ _ He Hsrc Hdst). by split.
Qed.

(** Two streams and a packet that is too short for RTP *)
Definition demoRTP (seq ssrc : Z) (body : str) : str := [x80; x00] ++ put_u16 seq ++ put_u32 (160 * seq) ++ put_u32 ssrc ++ body.
Definition demoRTPCall (now seq ssrc : Z) (body : str) : rtp_call :=
  mkCall now (lit "10.0.0.1") 4000 (lit "10.0.0.2") 5000 (lit "call") (demoRTP seq ssrc body).
Definition demoCalls : list rtp_call :=
  [demoRTPCall 0 1 7 (lit "ab"); demoRTPCall 5 1 9 (lit "x"); mkCall 6 [] 0 [] 0 [] (lit "short"); demoRTPCall 20000000 2 7 (lit "cde")].
Definition demoAddr (raw : str) : option str :=
  if bool_decide (raw = lit "10.0.0.1") then Some [x0a; x00; x00; x01] else if bool_decide (raw = lit "10.0.0.2") then Some [x0a; x00; x00; x02] else None.

Lemma media_report_exact_witness : exists callID report,
  get_be (bytesAt 4 8 report) = 7 /\ get_be (bytesAt 20 24 report) = 2 /\ get_be (bytesAt 24 28 report) = 5 /\
  forall pkt, Encode demoAddr 5000000000 (mkHep (Some 5000000000) (lit "10.0.0.1") (lit "10.0.0.2") 4000 5000 17 5 3 [] callID report) = Ok pkt ->
    pkt ∈ oe_wire (tick demoAddr (fun _ => true) [9; 7] 5000000000 (foldl sendCall (rawExporter 3 []) demoCalls)).
Proof.
  destruct (media_report_exact demoAddr (fun _ => true) 3 [] demoCalls 7 (demoRTPCall 0 1 7 (lit "ab")) [demoRTPCall 20000000 2 7 (lit "cde")]
    [9; 7] 5000000000 [x0a; x00; x00; x01] 2 [x0a; x00; x00; x02] 2) as (callID & report & _ & A & B & C & D).
  - lia.
  - by vm_compute.
  - by vm_compute.
  - by vm_compute.
  - apply list_elem_of_further, list_elem_of_here.
  - by vm_compute.
  - by vm_compute.
  - exists callID, report. split; [done|]. split; [done|]. split; [done|]. intros pkt He. by apply D.
Defined.

(** A stream that is sent for ever is never dropped, one that is silent for a minute is, and an exporter with no
    packets in a minute holds no stream: what a tick leaves is what was seen in the last minute. *)
Theorem idle_streams_pruned lookup_ip write_ok order now e :
  oe_closed e = false -> oe_homerLake e || oe_rawPeriodic e = true -> (forall k, is_Some (oe_rtpStreams e !! k) -> k ∈ order) ->
  forall k s, oe_rtpStreams (tick lookup_ip write_ok order now e) !! k = Some s <->
    oe_rtpStreams e !! k = Some s /\ now - default 0 (rt_lastSeen s) <= streamPruneAge.
Proof.
  intros Hc Hm Hall k s. unfold tick. rewrite Hc.
  assert (G : forall build, oe_rtpStreams (foldl (reportStream lookup_ip write_ok build now) e order) !! k = Some s <->
    oe_rtpStreams e !! k = Some s /\ now - default 0 (rt_lastSeen s) <= streamPruneAge).
  { intros build. rewrite reports_streams. destruct (oe_rtpStreams e !! k) as [t|] eqn:E.
    - rewrite decide_True by (apply Hall; by rewrite E). cbn. destruct (Z.ltb_spec streamPruneAge (now - default 0 (rt_lastSeen t))).
      + split; [done|]. intros [[= ->] ?]. lia.
      + split; [intros [= ->]; done|]. by intros [? _].
    - case_decide; cbn; naive_solver. }
  destruct (oe_homerLake e); [apply G|]. destruct (oe_rawPeriodic e); [apply G|done].
Qed.

Lemma idle_streams_pruned_witness :
  let e := foldl sendCall (rawExporter 3 []) demoCalls in
  (forall s, oe_rtpStreams (tick demoAddr (fun _ => true) [9; 7] 60000000010 e) !! 7 = Some s <->
     oe_rtpStreams e !! 7 = Some s /\ 60000000010 - default 0 (rt_lastSeen s) <= streamPruneAge).
Proof.
  cbv zeta. apply (idle_streams_pruned demoAddr (fun _ => true) [9; 7] 60000000010 (foldl sendCall (rawExporter 3 []) demoCalls)).
  - by vm_compute.
  - by vm_compute.
  - intros k [s H]. destruct (decide (k = 9)) as [->|]; [apply list_elem_of_here|]. destruct (decide (k = 7)) as [->|]; [apply list_elem_of_further, list_elem_of_here|].
    pose proof (calls_stream k demoCalls (rawExporter 3 []) [] eq_refl) as C. rewrite H in C.
    destruct (filter (ofStream k) demoCalls) as [|c l] eqn:E; [done|]. assert (Hc : c ∈ filter (ofStream k) demoCalls) by (rewrite E; left).
    apply list_elem_of_filter in Hc as [[A B] Hc]. unfold demoCalls in Hc. rewrite !elem_of_cons in Hc.
    destruct Hc as [->|[->|[->|[->|Hc]]]]; vm_compute in A, B; try (by subst); try (by apply not_elem_of_nil in Hc); lia.
Defined.

(** The exporter is refused when reports are asked for in neither format. *)
Theorem exporter_choice {X : Type} (cfg : MediaConfig) :
  NewMediaExporter (X := X) None cfg =
    (if mc_SendMediaReport cfg then
       if mc_HomerLakeRTCP cfg || mc_RawRTCP cfg then
         Ok (Some (inr (newOpenExporter (mc_CaptureID cfg) (mc_Password cfg) (mc_HomerLakeRTCP cfg) (negb (mc_HomerLakeRTCP cfg)))))
       else Err ErrShortJSONMediaUnavailable
     else Ok None).
Proof. destruct cfg as [? ? [] [] []]; done. Qed.

(** A stream of one packet each 20 ms, whose time stamps advance 20 ms each, has jitter: a packet is compared with
    the time stamp of the packet before the last. *)
Definition steadyCalls (n : nat) : list rtp_call := map (fun i => demoRTPCall (20000000 * Z.of_nat i) (Z.of_nat i) 7 (lit "ab")) (seq 1 n).

Example steady_stream_jitter :
  match oe_rtpStreams (foldl sendCall (rawExporter 3 []) (steadyCalls 6)) !! 7 with
  | Some s => flt (float_of_int 4) (ar_jitter (rt_arrivals s))
  | None => false
  end = true.
Proof. by vm_compute. Qed.
