(* ===== verification/Capture.v ===== *)
(** * What is captured of SIP traffic

    [src/internal/engine/hep.go] and [src/internal/hep/hep.go]: the capture
    client and the hooks around sending and receiving, which write the message
    trace, send a copy to the capture server and emit an event.  The engine is
    the one of [Trace] with the client; the exporter of media is the one of
    [MediaSink].  [stamp] prints a time, [clock] gives the successive answers of [time.Now] in one
    observation, [errText] the text of an error, [write_ok] whether the socket
    takes a datagram. *)

From stdpp Require Import base list gmap strings.
From Stdlib Require Import ZArith Lia Strings.Byte.
From S2P Require Import Prelude GoStrings SipMessage Hep EventLog Trace MediaSink.

(** ** The client ([hep.go]) *)

Record hepConfig := mkHepConfig {
  hc_Addr : str; hc_CaptureID : Z; hc_Password : str; hc_RawRTCP : bool; hc_HomerLakeRTCP : bool; hc_SendMediaReport : bool }.

Record Client := mkClient {
  hp_addr : str; hp_captureID : Z; hp_password : str;
  hp_media : option openExporter;
  hp_wire : list str;       (* datagrams with SIP sent to [hp_addr] *)
  hp_closed : bool }.

Inductive client_error := AddrRequired | AddrUnresolved | ListenFailed | MediaRefused (e : factory_error).

(** [New]; [resolve] is [net.ResolveUDPAddr], [listen] whether a socket is opened;
    no extension of the exporter is linked *)
Definition NewClient (resolve : str -> option str) (listen : bool) (cfg : hepConfig) : result client_error Client :=
  match hc_Addr cfg with
  | [] => Err AddrRequired
  | a =>
    match resolve a with
    | None => Err AddrUnresolved
    | Some addr =>
      if negb listen then Err ListenFailed
      else match NewMediaExporter (X := Empty_set) None
              (mkMediaConfig (hc_CaptureID cfg) (hc_Password cfg) (hc_RawRTCP cfg) (hc_HomerLakeRTCP cfg) (hc_SendMediaReport cfg)) with
      | Err e => Err (MediaRefused e)
      | Ok media =>
        Ok (mkClient addr (hc_CaptureID cfg) (hc_Password cfg) (match media with Some (inr m) => Some m | _ => None end) [] false)
      end
    end
  end.

Definition CloseClient (c : Client) : Client :=
  mkClient (hp_addr c) (hp_captureID c) (hp_password c) (CloseExporter <$> hp_media c) (hp_wire c) true.

Definition transportProtocol (transport : str) : Z :=
  if bool_decide (transport ∈ map lit ["t1"; "tn"; "l1"; "ln"; "TCP"; "tcp"; "TLS"; "tls"]%string) then IPProtoTCP else IPProtoUDP.

Section Capture.

Context (lookup_ip : str -> option str) (write_ok : str -> bool).

Definition sipCopy (now : Z) (srcIP : str) (srcPort : Z) (dstIP : str) (dstPort : Z) (transport callID payload : str) (c : Client) : HepMessage :=
  mkHep (Some now) srcIP dstIP srcPort dstPort (transportProtocol transport) ProtocolSIP (hp_captureID c) (hp_password c) callID payload.

Definition SendSIP (now : Z) (srcIP : str) (srcPort : Z) (dstIP : str) (dstPort : Z) (transport callID payload : str) (c : Client) :
  result send_error unit * Client :=
  match Encode lookup_ip now (sipCopy now srcIP srcPort dstIP dstPort transport callID payload c) with
  | Err e => (Err (EncodeError e), c)
  | Ok packet =>
    if write_ok packet && negb (hp_closed c) then
      (Ok tt, mkClient (hp_addr c) (hp_captureID c) (hp_password c) (hp_media c) (hp_wire c ++ [packet]) (hp_closed c))
    else (Err WriteError, c)
  end.

Definition withMedia (m : openExporter) (c : Client) : Client :=
  mkClient (hp_addr c) (hp_captureID c) (hp_password c) (Some m) (hp_wire c) (hp_closed c).

(** [Client.SendRTP] and [Client.SendRTCP] *)
Definition clientSendRTP (now : Z) (srcIP : str) (srcPort : Z) (dstIP : str) (dstPort : Z) (callID payload : str) (c : Client) : Client :=
  match hp_media c with None => c | Some m => withMedia (SendRTP now srcIP srcPort dstIP dstPort callID payload m) c end.

Definition clientSendRTCP (now : Z) (callID : str) (ssrc : Z) (srcIP : str) (srcPort : Z) (dstIP : str) (dstPort packetLoss : Z) (raw : str) (c : Client) :
  result send_error unit * Client :=
  match hp_media c with
  | None => (Ok tt, c)
  | Some m => let '(r, m) := SendRTCP lookup_ip write_ok now callID ssrc srcIP srcPort dstIP dstPort packetLoss raw m in (r, withMedia m c)
  end.

(** ** The engine *)

Record captureConfig := mkCaptureConfig {
  ec_HEPAddr : str; ec_HEPCaptureID : Z; ec_HEPPassword : str; ec_HEPRawRTCP : bool; ec_HEPHomerLakeRTCP : bool;
  ec_SendMediaReport : bool; ec_MediaScale : bool; ec_Transport : str; ec_TraceShortMsg : bool }.

(** [e.hep] and the part of the engine that traces; the event log is active when
    there is one *)
Record captureEngine := mkCapture { ce_cfg : captureConfig; ce_hep : option Client; ce_traced : traced }.

Definition logActive (e : captureEngine) : bool := match td_log (ce_traced e) with Some _ => true | None => false end.

Definition startHEP (resolve : str -> option str) (listen : bool) (e : captureEngine) : result client_error captureEngine :=
  let cfg := ce_cfg e in
  match ec_HEPAddr cfg with
  | [] => Ok e
  | _ =>
    match NewClient resolve listen (mkHepConfig (ec_HEPAddr cfg) (ec_HEPCaptureID cfg) (ec_HEPPassword cfg) (ec_HEPRawRTCP cfg)
            (ec_HEPHomerLakeRTCP cfg) (ec_SendMediaReport cfg && negb (ec_MediaScale cfg))) with
    | Err err => Err err
    | Ok c => Ok (mkCapture cfg (Some c) (ce_traced e))
    end
  end.

(** The client that is closed, and the engine *)
Definition stopHEP (e : captureEngine) : option Client * captureEngine :=
  match ce_hep e with
  | None => (None, e)
  | Some c => (Some (CloseClient c), mkCapture (ce_cfg e) None (ce_traced e))
  end.

Definition firstNonEmptyLine (raw : str) : str :=
  default [] (head (filter (fun s => s <> []) (map TrimSpace (Split (ReplaceAll raw [x0d; x0a] [x0a]) x0a)))).

(** method, status, reason and summary *)
Definition summarizeSIP (raw : str) : str * Z * str * str :=
  match Parse raw with
  | Ok msg =>
    let reason := TrimSpace (Reason msg) in
    (Method msg, StatusCode msg, reason,
     match Method msg with
     | (_ :: _) as m => m
     | [] =>
       if 0 <? StatusCode msg then Itoa (StatusCode msg) ++ match reason with [] => [] | _ => lit " " ++ reason end
       else firstNonEmptyLine (Raw msg)
     end)
  | Err _ => ([], 0, [], firstNonEmptyLine raw)
  end.

Definition sipEvent (now : Z) (direction : str) (callNumber : Z) (callID srcIP : str) (srcPort : Z) (dstIP : str) (dstPort : Z)
  (transport raw : str) : Event :=
  let kind := if bool_decide (direction = lit "recv") then lit "sip.recv" else lit "sip.send" in
  let '(method, status, reason, summary) := summarizeSIP raw in
  let a : attrs := {[ lit "call_id" := VString callID; lit "call_num" := VInt callNumber; lit "src_ip" := VString srcIP;
    lit "src_port" := VInt srcPort; lit "dst_ip" := VString dstIP; lit "dst_port" := VInt dstPort; lit "transport" := VString transport ]} in
  let a := match method with [] => a | _ => <[lit "sip.method" := VString method]> a end in
  let a := if 0 <? status then
             let a := <[lit "sip.status" := VInt status]> a in
             match reason with [] => a | _ => <[lit "sip.reason" := VString reason]> a end
           else a in
  mkEvent (Some now) LevelInfo kind summary a.

Definition emitSIPEvent (now : Z) (direction : str) (callNumber : Z) (callID srcIP : str) (srcPort : Z) (dstIP : str) (dstPort : Z) (raw : str)
  (e : captureEngine) : captureEngine :=
  mkCapture (ce_cfg e) (ce_hep e)
    (emitEvent now (sipEvent now direction callNumber callID srcIP srcPort dstIP dstPort (ec_Transport (ce_cfg e)) raw) (ce_traced e)).

Definition observeActive (e : captureEngine) : bool :=
  td_TraceMessages (ce_traced e) || ec_TraceShortMsg (ce_cfg e) || match ce_hep e with Some _ => true | None => false end || logActive e.

Context (stamp : Z -> str) (clock : nat -> Z) (errText : send_error -> str).

Definition observeSIP (direction : str) (callNumber : Z) (callID localIP : str) (localPort : Z) (remoteIP : str) (remotePort : Z) (raw : str)
  (e : captureEngine) : captureEngine :=
  if negb (observeActive e) then e
  else
    let tracing := td_TraceMessages (ce_traced e) || ec_TraceShortMsg (ce_cfg e) in
    let e := if tracing then mkCapture (ce_cfg e) (ce_hep e) (traceEvent stamp (clock 0) direction callNumber raw (ce_traced e)) else e in
    let '(srcIP, srcPort, dstIP, dstPort) :=
      if bool_decide (direction = lit "recv") then (remoteIP, remotePort, localIP, localPort) else (localIP, localPort, remoteIP, remotePort) in
    let e :=
      match ce_hep e with
      | None => e
      | Some c =>
        let '(r, c) := SendSIP (clock 1) srcIP srcPort dstIP dstPort (ec_Transport (ce_cfg e)) callID raw c in
        mkCapture (ce_cfg e) (Some c)
          (match r with Ok _ => ce_traced e | Err err => traceError stamp (clock 2) (lit "hep-export") callNumber (errText err) (ce_traced e) end)
      end in
    emitSIPEvent (clock 3) direction callNumber callID srcIP srcPort dstIP dstPort raw e.

(** The wrapper [wrapSIPSend] puts around the function that sends; [sent] is what
    that function answers *)
Definition wrapSIPSend {E : Type} (callNumber : Z) (callID localIP : str) (localPort : Z) (remoteIP : str) (remotePort : Z)
  (payload : str) (sent : result E unit) (e : captureEngine) : result E unit * captureEngine :=
  if negb (observeActive e) then (sent, e)
  else match sent with
       | Err err => (Err err, e)
       | Ok _ => (Ok tt, observeSIP (lit "send") callNumber callID localIP localPort remoteIP remotePort payload e)
       end.

Inductive receive_error (E : Type) := ReceiveError (err : E) | MailboxClosed.
Arguments ReceiveError {E} _.
Arguments MailboxClosed {E}.

Definition isEmptyMessage (msg : option Message) : bool :=
  match msg with
  | None => true
  | Some m => bool_decide (Raw m = []) && (StatusCode m =? 0) && bool_decide (Method m = [])
  end.

Definition wrapSIPReceive {E : Type} (callNumber : Z) (callID localIP : str) (localPort : Z) (remoteIP : str) (remotePort : Z)
  (received : result E (option Message)) (e : captureEngine) : result (receive_error E) Message * captureEngine :=
  match received with
  | Err err => (Err (ReceiveError err), e)
  | Ok msg =>
    if isEmptyMessage msg then (Err MailboxClosed, e)
    else match msg with
    | None => (Err MailboxClosed, e)
    | Some m =>
      (Ok m, if negb (observeActive e) then e else observeSIP (lit "recv") callNumber callID localIP localPort remoteIP remotePort (Raw m) e)
    end
  end.

(** * Properties *)

(** One observation *)
Record observation := mkObs {
  ob_direction : str; ob_callNumber : Z; ob_callID : str; ob_localIP : str; ob_localPort : Z; ob_remoteIP : str; ob_remotePort : Z; ob_raw : str }.

Definition observeOne (e : captureEngine) (o : observation) : captureEngine :=
  observeSIP (ob_direction o) (ob_callNumber o) (ob_callID o) (ob_localIP o) (ob_localPort o) (ob_remoteIP o) (ob_remotePort o) (ob_raw o) e.

Definition obSource (o : observation) : str * Z :=
  if bool_decide (ob_direction o = lit "recv") then (ob_remoteIP o, ob_remotePort o) else (ob_localIP o, ob_localPort o).
Definition obTarget (o : observation) : str * Z :=
  if bool_decide (ob_direction o = lit "recv") then (ob_localIP o, ob_localPort o) else (ob_remoteIP o, ob_remotePort o).

Definition copyOf (transport : str) (c : Client) (o : observation) : HepMessage :=
  sipCopy (clock 1) (fst (obSource o)) (snd (obSource o)) (fst (obTarget o)) (snd (obTarget o)) transport (ob_callID o) (ob_raw o) c.

(** An observation whose copy can be sent, and the packet *)
Definition copied (transport : str) (c : Client) (o : observation) (pkt : str) : Prop :=
  Encode lookup_ip (clock 1) (copyOf transport c o) = Ok pkt /\ write_ok pkt = true.

Definition wireOf (e : captureEngine) : list str := match ce_hep e with Some c => hp_wire c | None => [] end.
Definition identity (c : Client) : str * Z * str * bool := (hp_addr c, hp_captureID c, hp_password c, hp_closed c).

Lemma observe_copied e c o pkt : ce_hep e = Some c -> hp_closed c = false -> copied (ec_Transport (ce_cfg e)) c o pkt ->
  exists c', ce_hep (observeOne e o) = Some c' /\ hp_wire c' = hp_wire c ++ [pkt] /\ identity c' = identity c /\ ce_cfg (observeOne e o) = ce_cfg e.
Proof.
  intros Hc Ho [He Hw]. unfold observeOne, observeSIP, observeActive. rewrite Hc, !orb_true_r. cbn [negb orb].

  unfold copyOf, obSource, obTarget in He. 
  destruct (td_TraceMessages (ce_traced e) || ec_TraceShortMsg (ce_cfg e)) eqn:Et;
    destruct (bool_decide (ob_direction o = lit "recv")); cbn [ce_hep ce_cfg fst snd] in *; rewrite ?Hc;
    unfold SendSIP; rewrite He, Hw, Ho; cbn [andb negb]; eexists; (split; [reflexivity|]); unfold identity; rewrite ?Ho; split_and!; reflexivity.
Qed.

Lemma copyOf_identity transport c c' o : identity c' = identity c -> copyOf transport c' o = copyOf transport c o.
Proof. intros E. unfold identity in E. injection E as E1 E2 E3 E4. unfold copyOf, sipCopy. by rewrite E2, E3. Qed.

Lemma observations_copied obs : forall e c pkts, ce_hep e = Some c -> hp_closed c = false ->
  Forall2 (copied (ec_Transport (ce_cfg e)) c) obs pkts -> wireOf (foldl observeOne e obs) = hp_wire c ++ pkts.
Proof.
  induction obs as [|o obs IH]; intros e c pkts Hc Ho H; inversion H as [|? pkt ? pkts' H1 H2]; subst; cbn [foldl].
  - unfold wireOf. by rewrite Hc, app_nil_r.
  - destruct (observe_copied e c o pkt Hc Ho H1) as (c' & Hc' & Hw & Hi & Hcfg).
    rewrite (IH _ c' pkts'); [by rewrite Hw, <- app_assoc|done| |].
    + unfold identity in Hi. injection Hi as _ _ _ Hcl. by rewrite Hcl.
    + rewrite Hcfg. eapply Forall2_impl; [exact H2|]. intros o' pkt' [A B]. split; [by rewrite (copyOf_identity _ c)|done].
Qed.

(** C30: the capture server gets one packet for each SIP message that is observed, in the order of the traffic; each
    decodes to the bytes of the message, its call and the addresses it went between: from the local one for a
    message that was sent, from the remote one for a message that was received. *)
Theorem sip_traffic_copied obs e c pkts :
  ce_hep e = Some c -> hp_closed c = false -> hp_wire c = [] -> 0 <= hp_captureID c < 4294967296 ->
  Forall2 (copied (ec_Transport (ce_cfg e)) c) obs pkts ->
  wireOf (foldl observeOne e obs) = pkts /\
  Forall2 (fun o pkt => exists src fam dst dfam,
    parseIP lookup_ip (fst (obSource o)) = Some (src, fam) /\ parseIP lookup_ip (fst (obTarget o)) = Some (dst, dfam) /\
    Decode pkt = Ok (mkDecoded fam (transportProtocol (ec_Transport (ce_cfg e))) (wire_ip fam src) (wire_ip fam dst)
      (snd (obSource o)) (snd (obTarget o)) (wire_time (clock 1)) ProtocolSIP (hp_captureID c) (hp_password c) (ob_callID o) (ob_raw o))) obs pkts.
Proof.
  intros Hc Ho Hw Hid H. split; [by rewrite (observations_copied obs e c pkts), Hw|].
  eapply Forall2_impl; [exact H|]. intros o pkt [He _]. unfold copied in He.
  destruct (parseIP lookup_ip (fst (obSource o))) as [[src fam]|] eqn:Es; [|by unfold Encode in He; cbn [copyOf sipCopy hSrcIP] in He; rewrite Es in He].
  destruct (parseIP lookup_ip (fst (obTarget o))) as [[dst dfam]|] eqn:Ed;
    [|by unfold Encode in He; cbn [copyOf sipCopy hSrcIP hDstIP] in He; rewrite Es, Ed in He].
  exists src, fam, dst, dfam. split; [done|]. split; [done|].
  refine (Decode_Encode _ _ _ _ _ _ _ _ _ He Es Ed). split; cbn; [|done|done].
  unfold transportProtocol. by case_bool_decide.
Qed.

(** Capture changes nothing of a call: a send and a receive answer what they answer without it, a message that was
    not sent leaves no trace, and an empty message is the end of the mailbox. *)
Theorem capture_transparent {E : Type} callNumber callID localIP localPort remoteIP remotePort payload
    (sent : result E unit) (received : result E (option Message)) e :
  fst (wrapSIPSend callNumber callID localIP localPort remoteIP remotePort payload sent e) = sent /\
  (forall err, sent = Err err -> snd (wrapSIPSend callNumber callID localIP localPort remoteIP remotePort payload sent e) = e) /\
  fst (wrapSIPReceive callNumber callID localIP localPort remoteIP remotePort received e) =
    (match received with
     | Err err => Err (ReceiveError err)
     | Ok msg => match msg with Some m => if isEmptyMessage msg then Err MailboxClosed else Ok m | None => Err MailboxClosed end
     end).
Proof.
  split_and!.
  - unfold wrapSIPSend. destruct (negb _); [done|]. by destruct sent as [[]|].
  - intros err ->. unfold wrapSIPSend. by destruct (negb _).
  - unfold wrapSIPReceive. destruct received as [[m|]|]; [|done|done]. by destruct (isEmptyMessage (Some m)).
Qed.

End Capture.

(** ** An INVITE and its answer, over IPv4 *)

Definition demoObs : list observation :=
  [mkObs (lit "send") 1 (lit "c1") (lit "10.0.0.1") 5060 (lit "10.0.0.2") 5061 (lit "INVITE");
   mkObs (lit "recv") 1 (lit "c1") (lit "10.0.0.1") 5060 (lit "10.0.0.2") 5061 (lit "SIP/2.0 200 OK")].
Definition demoClient : Client := mkClient (lit "10.0.0.9:9060") 3 (lit "key") None [] false.
Definition demoEngine : captureEngine :=
  mkCapture (mkCaptureConfig (lit "10.0.0.9:9060") 3 (lit "key") false false false false (lit "t1") false) (Some demoClient)
    (mkTraced false false false None None []).
Definition demoPackets : list str :=
  map (fun o => match Encode demoAddr 7 (copyOf (fun _ => 7) (lit "t1") demoClient o) with Ok pkt => pkt | Err _ => [] end) demoObs.

Lemma sip_traffic_copied_witness :
  wireOf (foldl (observeOne demoAddr (fun _ => true) (fun _ => []) (fun _ => 7) (fun _ => [])) demoEngine demoObs) = demoPackets /\
  length demoPackets = 2%nat.
Proof.
  split; [|done].
  apply (sip_traffic_copied demoAddr (fun _ => true) (fun _ => []) (fun _ => 7) (fun _ => []) demoObs demoEngine demoClient demoPackets);
    [done|done|done|vm_compute; done|].
  repeat constructor; by vm_compute.
Defined.

(** SIP over a WebSocket, which runs over TCP, is reported as UDP. *)
Example websocket_copied_as_udp : map transportProtocol (map lit ["w1"; "wn"; "ws1"; "wsn"]%string) = replicate 4 IPProtoUDP.
Proof. by vm_compute. Qed.
