(* ===== verification/MediaLife.v ===== *)
(** * The life of a media session

    [src/internal/media/media.go] ([Start], [StartEcho], [Stop], [Pause],
    [Resume], [openRTPDatapath], [closeTurnResources]), [pcap.go]
    ([StartPCAPReplay]), [mic_pipeline.go] ([attachMicSession]) and [dtmf.go]
    ([SendDTMF]): what a session opens, who closes it, and the loops that send.
    The goroutine of the call executes one operation after another; every
    stream has a loop of its own, which ends with [Stop].  Everything under the
    mutex is one step, what [Stop] does after it releases the mutex another.
    Sockets, relays and DTLS connections are numbers; those of one session are
    [held] by the session, by an operation that is under way, or by a [Stop]
    that has taken them and not yet closed them.  The outcomes of system calls
    are in the events. *)

From stdpp Require Import base list gmap strings.
From Stdlib Require Import ZArith Lia.
From S2P Require Import Prelude.

Local Open Scope nat_scope.

(** ** State *)

(** The fields of [Session] that [Stop] clears; a cancel function is the number of
    the loop it ends; [se_srtpSend] is whether there is a context. *)
Record session := mkSession {
  se_cancel : option nat; se_conn : option nat; se_rtcpConn : option nat; se_turnRelay : option nat; se_turnClient : option nat;
  se_dtlsConn : option nat; se_srtpSend : bool; se_paused : bool; se_running : bool; se_echoMode : bool }.

Definition NewSession : session := mkSession None None None None None None false false false false.

Definition opt {A : Type} (o : option A) : list A := match o with Some x => [x] | None => [] end.

Definition handles (s : session) : list nat :=
  opt (se_conn s) ++ opt (se_rtcpConn s) ++ opt (se_turnRelay s) ++ opt (se_turnClient s) ++ opt (se_dtlsConn s).

(** What [Stop] takes out of a session under the mutex, to be closed after it; it
    closes the DTLS connection at once *)
Record taken := mkTaken { tk_cancel : option nat; tk_handles : list nat }.

Definition stopLocked (s : session) : taken :=
  mkTaken (se_cancel s) (opt (se_conn s) ++ opt (se_rtcpConn s) ++ opt (se_turnRelay s) ++ opt (se_turnClient s)).

(** The operations that end an activity: the end of the call or [rtp_stream stop],
    a stream (of a file, a capture, the microphone) with or without SRTP and
    rtcp-mux, the echo, digits *)
Inductive operation := OpStop | OpStart (srtp rtcpMux : bool) | OpEcho | OpDTMF.

(** Where the goroutine of the call is *)
Inductive control :=
  | Idle
  | Closing (t : taken) (next : operation)     (* in [Stop], mutex released *)
  | Opening (op : operation)
  | Opened (op : operation) (conn : nat) (dtls : bool).   (* the socket is not yet the session's *)

(** Where a loop is: before the test of its context, before and after
    [waitIfPaused], with the SRTP context it has read, at its deferred [Stop],
    inside it *)
Inductive place := LTop | LReady | LGo | LFrame (encrypted : bool) | LStop | LClosing (t : taken).

Record loop := mkLoop { lp_id : nat; lp_conn : nat; lp_srtp : bool; lp_place : place }.

Record life := mkLife {
  lf_session : session;
  lf_control : control;
  lf_loops : list loop;
  lf_open : gset nat;                          (* open sockets and connections *)
  lf_cancelled : gset nat;                     (* loops whose context has ended *)
  lf_next : nat;                               (* the next number *)
  lf_wire : list (nat * bool * bool) }.        (* packets: loop, SRTP agreed, encrypted *)

Definition newLife : life := mkLife NewSession Idle [] ∅ ∅ 0 [].

(** ** Steps *)

Inductive loop_event := LCheck | LLeave | LWait | LRead | LWrite | LStopLocked | LClose.

Inductive event :=
  | EBegin (op : operation)                    (* the mutex part of [Stop] at the start of an operation *)
  | EClose                                     (* the rest of that [Stop] *)
  | EOpenFail | EOpen (relay : bool)           (* [openRTPDatapath] or [ListenUDP] *)
  | EPrepareFail                               (* [prepareRTPReadConn], or a digit *)
  | EHandshake                                 (* a DTLS connection becomes the session's *)
  | EInstall (rtcp contexts : bool)            (* whether the RTCP socket opens and the SRTP contexts are built *)
  | EDigitsSent
  | EPause | EResume
  | ELoop (i : nat) (e : loop_event).

Definition withSession (s : session) (f : life) : life :=
  mkLife s (lf_control f) (lf_loops f) (lf_open f) (lf_cancelled f) (lf_next f) (lf_wire f).
Definition withControl (c : control) (f : life) : life :=
  mkLife (lf_session f) c (lf_loops f) (lf_open f) (lf_cancelled f) (lf_next f) (lf_wire f).
Definition withLoops (l : list loop) (f : life) : life :=
  mkLife (lf_session f) (lf_control f) l (lf_open f) (lf_cancelled f) (lf_next f) (lf_wire f).
Definition closeAll (l : list nat) (f : life) : life :=
  mkLife (lf_session f) (lf_control f) (lf_loops f) (lf_open f ∖ list_to_set l) (lf_cancelled f) (lf_next f) (lf_wire f).
Definition cancel (o : option nat) (f : life) : life :=
  mkLife (lf_session f) (lf_control f) (lf_loops f) (lf_open f) (list_to_set (opt o) ∪ lf_cancelled f) (lf_next f) (lf_wire f).
(** The connections [l] are opened, [n] numbers are used *)
Definition openNew (l : list nat) (n : nat) (f : life) : life :=
  mkLife (lf_session f) (lf_control f) (lf_loops f) (list_to_set l ∪ lf_open f) (lf_cancelled f) (lf_next f + n) (lf_wire f).

(** The mutex part of [Stop] *)
Definition takeSession (f : life) : taken * life :=
  (stopLocked (lf_session f), closeAll (opt (se_dtlsConn (lf_session f))) (withSession NewSession f)).

(** [closeTurnResources] *)
Definition closeTurnResources (f : life) : life :=
  let s := lf_session f in
  closeAll (opt (se_turnRelay s) ++ opt (se_turnClient s))
    (withSession (mkSession (se_cancel s) (se_conn s) (se_rtcpConn s) None None (se_dtlsConn s) (se_srtpSend s) (se_paused s) (se_running s) (se_echoMode s)) f).

(** What a failed operation and the end of [SendDTMF] do with the new socket *)
Definition giveUp (conn : nat) (f : life) : life := withControl Idle (closeAll [conn] (closeTurnResources f)).

(** The critical section of [Start], [StartPCAPReplay] and [attachMicSession], and
    of [StartEcho], with the error path of [buildSRTPContextsLocked] *)
Definition install (op : operation) (conn : nat) (rtcp contexts : bool) (f : life) : life :=
  let s := lf_session f in
  let echo := match op with OpEcho => true | _ => false end in
  let srtp := match op with OpStart b _ => b | _ => false end in
  let mux := match op with OpStart _ m => m | _ => false end in
  let id := lf_next f in
  let rtcpConn := if negb mux && rtcp then Some (id + 1) else None in
  let f := openNew (opt rtcpConn) 2 f in
  if negb echo && negb contexts then
    giveUp conn (closeAll (opt (se_dtlsConn s) ++ opt rtcpConn)
      (withSession (mkSession None None None (se_turnRelay s) (se_turnClient s) None false false false false) f))
  else
    withControl Idle
      (withLoops (lf_loops f ++ [mkLoop id (default conn (se_turnRelay s)) srtp LTop])
        (withSession (mkSession (Some id) (Some conn) rtcpConn (se_turnRelay s) (se_turnClient s) (se_dtlsConn s)
           (if echo then se_srtpSend s else srtp) false true echo) f)).

(** [openRTPDatapath] when it succeeds, with a relay when the peer's candidate is one; the echo has its own socket *)
Definition openRTPDatapath (relay : bool) (op : operation) (f : life) : life :=
  let n := lf_next f in
  let s := lf_session f in
  withControl (Opened op n false)
    (if relay && match op with OpEcho => false | _ => true end then
       withSession (mkSession (se_cancel s) (se_conn s) (se_rtcpConn s) (Some (n + 1)) (Some (n + 2)) (se_dtlsConn s) (se_srtpSend s)
         (se_paused s) (se_running s) (se_echoMode s)) (openNew [n; n + 1; n + 2] 3 f)
     else openNew [n] 1 f).

(** What [runDTLSSRTP] leaves in the session *)
Definition runDTLSSRTP (f : life) : life :=
  let s := lf_session f in
  let n := lf_next f in
  withSession (mkSession (se_cancel s) (se_conn s) (se_rtcpConn s) (se_turnRelay s) (se_turnClient s) (Some n)
    (se_srtpSend s) (se_paused s) (se_running s) (se_echoMode s)) (openNew [n] 1 f).

Definition setPaused (b : bool) (f : life) : life :=
  let s := lf_session f in
  if se_running s then
    withSession (mkSession (se_cancel s) (se_conn s) (se_rtcpConn s) (se_turnRelay s) (se_turnClient s) (se_dtlsConn s)
      (se_srtpSend s) b (se_running s) (se_echoMode s)) f
  else f.

Definition PauseSession : life -> life := setPaused true.
Definition ResumeSession : life -> life := setPaused false.

Definition loopGoes (i : nat) (e : loop_event) (f : life) : option life :=
  l ← lf_loops f !! i;
  let at_ p f := withLoops (<[i := mkLoop (lp_id l) (lp_conn l) (lp_srtp l) p]> (lf_loops f)) f in
  match e, lp_place l with
  | LCheck, LTop => if bool_decide (lp_id l ∈ lf_cancelled f) then None else Some (at_ LReady f)
  | LLeave, (LTop | LReady | LGo | LFrame _) => Some (at_ LStop f)
  | LWait, LReady => if se_paused (lf_session f) then None else Some (at_ LGo f)
  | LRead, LGo => Some (at_ (LFrame (se_srtpSend (lf_session f))) f)
  | LWrite, LFrame b =>
    if bool_decide (lp_conn l ∈ lf_open f) then
      let f := at_ LTop f in
      Some (mkLife (lf_session f) (lf_control f) (lf_loops f) (lf_open f) (lf_cancelled f) (lf_next f) (lf_wire f ++ [(lp_id l, lp_srtp l, b)]))
    else Some (at_ LStop f)
  | LStopLocked, LStop => let '(t, f) := takeSession f in Some (at_ (LClosing t) f)
  | LClose, LClosing t => Some (closeAll (tk_handles t) (cancel (tk_cancel t) (withLoops (delete i (lf_loops f)) f)))
  | _, _ => None
  end.

Definition step (e : event) (f : life) : option life :=
  match e, lf_control f with
  | EBegin op, Idle => let '(t, f) := takeSession f in Some (withControl (Closing t op) f)
  | EClose, Closing t op =>
    Some (withControl (match op with OpStop => Idle | _ => Opening op end) (closeAll (tk_handles t) (cancel (tk_cancel t) f)))
  | EOpenFail, Opening _ => Some (withControl Idle f)
  | EOpen relay, Opening op => Some (openRTPDatapath relay op f)
  | EPrepareFail, Opened (OpStart _ _ | OpDTMF) conn false => Some (giveUp conn f)
  | EHandshake, Opened ((OpStart true _) as op) conn false => Some (withControl (Opened op conn true) (runDTLSSRTP f))
  | EInstall rtcp contexts, Opened ((OpStart _ _ | OpEcho) as op) conn _ => Some (install op conn rtcp contexts f)
  | EDigitsSent, Opened OpDTMF conn _ => Some (giveUp conn f)
  | EPause, Idle => Some (PauseSession f)
  | EResume, Idle => Some (ResumeSession f)
  | ELoop i e, _ => loopGoes i e f
  | _, _ => None
  end.

Fixpoint run (es : list event) (f : life) : option life :=
  match es with [] => Some f | e :: es => f ← step e f; run es f end.

(** * Properties *)

(** ** Who holds what *)

Definition controlHandles (c : control) : list nat :=
  match c with Closing t _ => tk_handles t | Opened _ conn _ => [conn] | _ => [] end.
Definition loopHandles (l : loop) : list nat := match lp_place l with LClosing t => tk_handles t | _ => [] end.
Definition controlCancels (c : control) : list nat := match c with Closing t _ => opt (tk_cancel t) | _ => [] end.
Definition loopCancels (l : loop) : list nat := match lp_place l with LClosing t => opt (tk_cancel t) | _ => [] end.

Definition held (f : life) : list nat :=
  handles (lf_session f) ++ controlHandles (lf_control f) ++ flat_map loopHandles (lf_loops f).

(** The loops that will be cancelled: by the next [Stop] of the session, or by one
    that is under way *)
Definition toCancel (f : life) : list nat :=
  opt (se_cancel (lf_session f)) ++ controlCancels (lf_control f) ++ flat_map loopCancels (lf_loops f).

Definition tally (h : nat) (l : list nat) : nat := count_occ Nat.eq_dec l h.

Arguments tally : simpl never.

Lemma count_app h a b : tally h (a ++ b) = tally h a + tally h b.
Proof. apply count_occ_app. Qed.

Lemma count_in h l : h ∈ l <-> 1 <= tally h l.
Proof. unfold tally. rewrite list_elem_of_In, (count_occ_In Nat.eq_dec). lia. Qed.

(** Every open connection is held once, and only open ones are held. *)
Definition balanced (l : list nat) (o : gset nat) (next : nat) : Prop :=
  forall h, tally h l = (if decide (h ∈ o) then 1 else 0) /\ (h ∈ o -> h < next).

Lemma count_not h l : h ∉ l -> tally h l = 0.
Proof. rewrite count_in. lia. Qed.

Lemma balanced_close l l' o next : balanced l o next -> forall c, (forall h, tally h l = tally h c + tally h l') ->
  balanced l' (o ∖ list_to_set c) next.
Proof.
  intros H c E h. destruct (H h) as [Hh Hn]. specialize (E h). split; [|intros [Ho _]%elem_of_difference; auto].
  destruct (decide (h ∈ c)) as [Hc|Hc].
  - rewrite decide_False by (rewrite elem_of_difference, elem_of_list_to_set; tauto). apply count_in in Hc. case_decide; lia.
  - apply count_not in Hc as Hz. destruct (decide (h ∈ o)).
    + rewrite decide_True by (rewrite elem_of_difference, elem_of_list_to_set; tauto). lia.
    + rewrite decide_False by (rewrite elem_of_difference; tauto). lia.
Qed.

Lemma balanced_open l l' o next c n : balanced l o next -> (forall h, h ∈ c -> next <= h < next + n) -> NoDup c ->
  (forall h, tally h l' = tally h c + tally h l) -> balanced l' (list_to_set c ∪ o) (next + n).
Proof.
  intros H Hc Hd E h. destruct (H h) as [Hh Hn]. specialize (E h). split.
  - destruct (decide (h ∈ c)) as [Hin|Hin].
    + rewrite (decide_True (P := h ∈ list_to_set c ∪ o)) by (rewrite elem_of_union, elem_of_list_to_set; tauto).
      assert (Ho : h ∉ o) by (intros Ho; specialize (Hn Ho); specialize (Hc h Hin); lia).
      rewrite decide_False in Hh by done. assert (tally h c = 1); [|lia].
      apply NoDup_ListNoDup in Hd. apply NoDup_count_occ'; [done|by apply list_elem_of_In].
    + apply count_not in Hin as Hz. destruct (decide (h ∈ o)).
      * rewrite decide_True by (rewrite elem_of_union; tauto). lia.
      * rewrite decide_False by (rewrite elem_of_union, elem_of_list_to_set; tauto). lia.
  - intros [Hin|Hin]%elem_of_union; [apply elem_of_list_to_set, Hc in Hin; lia|specialize (Hn Hin); lia].
Qed.

Lemma balanced_close2 l l' o next c1 c2 : balanced l o next -> (forall h, tally h l = tally h c1 + tally h c2 + tally h l') ->
  balanced l' (o ∖ list_to_set c1 ∖ list_to_set c2) next.
Proof.
  intros H E. eapply balanced_close; [eapply (balanced_close _ (c2 ++ l')); [exact H|]|]; intros h; specialize (E h); rewrite ?count_app in *; lia.
Qed.

Lemma balanced_same l l' o next : balanced l o next -> (forall h, tally h l' = tally h l) -> balanced l' o next.
Proof. intros H E h. rewrite E. apply H. Qed.

Lemma balanced_later l o next n : balanced l o next -> next <= n -> balanced l o n.
Proof. intros H Hn h. destruct (H h) as [A B]. split; [done|]. intros Ho. specialize (B Ho). lia. Qed.

Lemma flat_insert {A : Type} (g : A -> list nat) i l l' x h : l !! i = Some x ->
  tally h (flat_map g (<[i := l']> l)) + tally h (g x) = tally h (flat_map g l) + tally h (g l').
Proof.
  revert i. induction l as [|y l IH]; intros [|i] H; try done; simpl in *.
  - injection H as ->. rewrite !count_app. lia.
  - rewrite !count_app. specialize (IH _ H). lia.
Qed.

Lemma flat_delete {A : Type} (g : A -> list nat) i l x h : l !! i = Some x ->
  tally h (flat_map g (delete i l)) + tally h (g x) = tally h (flat_map g l).
Proof.
  revert i. induction l as [|y l IH]; intros [|i] H; try done; simpl in *.
  - injection H as ->. rewrite count_app. lia.
  - rewrite !count_app. specialize (IH _ H). lia.
Qed.

(** ** The invariant *)

Definition unused (s : session) : Prop := se_cancel s = None /\ se_conn s = None /\ se_rtcpConn s = None /\ se_srtpSend s = false.

(** While an operation runs the session holds nothing but what the operation gave it. *)
Definition shape (f : life) : Prop :=
  match lf_control f with
  | Idle => True
  | Closing _ _ | Opening _ => lf_session f = NewSession
  | Opened _ _ d => unused (lf_session f) /\ (d = false -> se_dtlsConn (lf_session f) = None)
  end.

Definition ended (f : life) : Prop := forall l, l ∈ lf_loops f -> lp_id l ∈ lf_cancelled f \/ lp_id l ∈ toCancel f.

Record life_ok (f : life) : Prop := {
  ok_balanced : balanced (held f) (lf_open f) (lf_next f);
  ok_shape : shape f;
  ok_ended : ended f }.

(** What is held, part by part *)
Lemma held_count f h : tally h (held f) =
  tally h (handles (lf_session f)) + tally h (controlHandles (lf_control f)) + tally h (flat_map loopHandles (lf_loops f)).
Proof. unfold held. rewrite !count_app. lia. Qed.

Lemma handles_count s h : tally h (handles s) =
  tally h (opt (se_conn s)) + tally h (opt (se_rtcpConn s)) + tally h (opt (se_turnRelay s)) + tally h (opt (se_turnClient s)) + tally h (opt (se_dtlsConn s)).
Proof. unfold handles. rewrite !count_app. lia. Qed.

Ltac counts := intros; rewrite ?held_count, ?handles_count; simpl; rewrite ?count_app; try lia.

(** The mutex part of [Stop], by whoever calls it *)
Lemma stop_locked f c' ls' : life_ok f ->
  (forall h, tally h (controlHandles c') + tally h (flat_map loopHandles ls') =
     tally h (tk_handles (stopLocked (lf_session f))) + tally h (controlHandles (lf_control f)) + tally h (flat_map loopHandles (lf_loops f))) ->
  balanced (held (withLoops ls' (withControl c' (snd (takeSession f))))) (lf_open (snd (takeSession f))) (lf_next f).
Proof.
  intros [Hb _ _] E. eapply balanced_close; [exact Hb|]. intros h. specialize (E h). simpl in E. rewrite !count_app in E. counts.
Qed.

Lemma toCancel_in f x : x ∈ toCancel f <->
  se_cancel (lf_session f) = Some x \/ x ∈ controlCancels (lf_control f) \/ x ∈ flat_map loopCancels (lf_loops f).
Proof. unfold toCancel. rewrite !elem_of_app. destruct (se_cancel (lf_session f)); simpl; set_solver. Qed.

Lemma in_flat {A : Type} (g : A -> list nat) (ls : list A) x : x ∈ flat_map g ls <-> exists l, l ∈ ls /\ x ∈ g l.
Proof.
  induction ls as [|y ls IH]; simpl; [split; [by intros ?%not_elem_of_nil|by intros (? & ?%not_elem_of_nil & _)]|].
  rewrite elem_of_app, IH. setoid_rewrite elem_of_cons. naive_solver.
Qed.

Lemma in_insert {A : Type} (ls : list A) i l' x : x ∈ <[i := l']> ls -> x = l' \/ x ∈ ls.
Proof.
  revert i. induction ls as [|y ls IH]; intros [|i] H; simpl in *; [auto..| |]; apply elem_of_cons in H as [->|H]; rewrite elem_of_cons; auto.
  destruct (IH _ H); auto.
Qed.

Lemma in_delete {A : Type} (ls : list A) i x : x ∈ delete i ls -> x ∈ ls.
Proof.
  revert i. induction ls as [|y ls IH]; intros [|i] H; simpl in *; [auto..| |]; rewrite elem_of_cons; auto.
  apply elem_of_cons in H as [->|H]; eauto.
Qed.

Lemma ended_mono f f' : ended f ->
  (forall l', l' ∈ lf_loops f' -> exists l, l ∈ lf_loops f /\ lp_id l = lp_id l') ->
  lf_cancelled f ⊆ lf_cancelled f' -> (forall x, x ∈ toCancel f -> x ∈ lf_cancelled f' \/ x ∈ toCancel f') -> ended f'.
Proof.
  intros H Hl Hc Ht l' Hin. destruct (Hl l' Hin) as (l & Hin' & <-). destruct (H l Hin') as [A|A]; [left; by apply Hc|auto].
Qed.

Lemma toCancel_count f x : x ∈ toCancel f <->
  1 <= tally x (opt (se_cancel (lf_session f))) + tally x (controlCancels (lf_control f)) + tally x (flat_map loopCancels (lf_loops f)).
Proof. rewrite count_in. unfold toCancel. rewrite !count_app. lia. Qed.

(** One loop moves to another place. *)
Definition moveTo (i : nat) (l : loop) (p : place) (f : life) : life :=
  withLoops (<[i := mkLoop (lp_id l) (lp_conn l) (lp_srtp l) p]> (lf_loops f)) f.

Lemma moved_loops i l p f : lf_loops f !! i = Some l ->
  forall l', l' ∈ lf_loops (moveTo i l p f) -> exists l, l ∈ lf_loops f /\ lp_id l = lp_id l'.
Proof.
  intros Hl l' [->|H]%in_insert; [exists l; split; [by eapply list_elem_of_lookup_2|done]|by exists l'].
Qed.

Definition closingPlace (p : place) : bool := match p with LClosing _ => true | _ => false end.

Lemma move_ok i l p f : life_ok f -> lf_loops f !! i = Some l -> closingPlace (lp_place l) = false -> closingPlace p = false ->
  life_ok (moveTo i l p f).
Proof.
  intros [Hb Hs He] Hl H1 H2.
  assert (N : loopHandles l = [] /\ loopCancels l = []) by (unfold loopHandles, loopCancels; by destruct (lp_place l)).
  destruct N as [N1 N2]. set (l' := mkLoop (lp_id l) (lp_conn l) (lp_srtp l) p).
  assert (N : loopHandles l' = [] /\ loopCancels l' = []) by (unfold loopHandles, loopCancels; by destruct p). destruct N as [N3 N4].
  split; [|done|].
  - eapply balanced_same; [exact Hb|]. intros h. pose proof (flat_insert loopHandles i (lf_loops f) l' l h Hl) as F.
    rewrite N1, N3 in F. counts. fold l'. lia.
  - eapply ended_mono; [exact He|by apply moved_loops|done|]. intros x Hx. right. rewrite toCancel_count in *. simpl. fold l'.
    pose proof (flat_insert loopCancels i (lf_loops f) l' l x Hl) as F. rewrite N2, N4 in F. lia.
Qed.

Lemma shape_new f : lf_session f = NewSession -> shape f.
Proof. intros H. unfold shape. rewrite H. by destruct (lf_control f). Qed.

(** A loop that ends takes what the session holds, whoever put it there. *)
Lemma loop_stop_ok i l f : life_ok f -> lf_loops f !! i = Some l -> lp_place l = LStop ->
  life_ok (moveTo i l (LClosing (stopLocked (lf_session f))) (snd (takeSession f))).
Proof.
  intros Hok Hl Hp. set (l' := mkLoop (lp_id l) (lp_conn l) (lp_srtp l) (LClosing (stopLocked (lf_session f)))).
  assert (N1 : loopHandles l = []) by (unfold loopHandles; by rewrite Hp). assert (N2 : loopCancels l = []) by (unfold loopCancels; by rewrite Hp).
  split.
  - apply (stop_locked f (lf_control f) (<[i := l']> (lf_loops f)) Hok). intros h.
    pose proof (flat_insert loopHandles i (lf_loops f) l' l h Hl) as F. rewrite N1 in F.
    change (loopHandles l') with (tk_handles (stopLocked (lf_session f))) in F. change (tally h []) with 0 in F. lia.
  - by apply shape_new.
  - eapply ended_mono; [apply Hok|exact (moved_loops i l _ (snd (takeSession f)) Hl)|done|]. intros x Hx. right. rewrite toCancel_count in *. simpl. fold l'.
    pose proof (flat_insert loopCancels i (lf_loops f) l' l x Hl) as F. rewrite N2 in F.
    change (loopCancels l') with (opt (se_cancel (lf_session f))) in F. change (tally x []) with 0 in *. lia.
Qed.

Lemma close_taken f l o : balanced l (lf_open f) (lf_next f) -> forall c, (forall h, tally h l = tally h c + tally h o) ->
  balanced o (lf_open (closeAll c f)) (lf_next f).
Proof. intros H c E. by eapply balanced_close. Qed.

Lemma loop_close_ok i l t f : life_ok f -> lf_loops f !! i = Some l -> lp_place l = LClosing t ->
  life_ok (closeAll (tk_handles t) (cancel (tk_cancel t) (withLoops (delete i (lf_loops f)) f))).
Proof.
  intros [Hb Hs He] Hl Hp.
  assert (N1 : loopHandles l = tk_handles t) by (unfold loopHandles; by rewrite Hp).
  assert (N2 : loopCancels l = opt (tk_cancel t)) by (unfold loopCancels; by rewrite Hp).
  split; [|done|].
  - eapply balanced_close; [exact Hb|]. intros h. pose proof (flat_delete loopHandles i (lf_loops f) l h Hl) as F. rewrite N1 in F. counts.
  - eapply ended_mono; [exact He| |set_solver|].
    + intros l' H%in_delete. by exists l'.
    + intros x Hx. rewrite toCancel_count in Hx. rewrite toCancel_count. simpl.
      pose proof (flat_delete loopCancels i (lf_loops f) l x Hl) as F. rewrite N2 in F.
      destruct (decide (x ∈ opt (tk_cancel t))) as [Hin|Hin].
      * left. apply elem_of_union. left. by apply elem_of_list_to_set.
      * right. apply count_not in Hin. lia.
Qed.

Lemma begin_ok op f : life_ok f -> lf_control f = Idle -> life_ok (withControl (Closing (stopLocked (lf_session f)) op) (snd (takeSession f))).
Proof.
  intros Hok Hc. split.
  - apply (stop_locked f (Closing (stopLocked (lf_session f)) op) (lf_loops f) Hok). intros h. rewrite Hc. simpl. change (tally h []) with 0. lia.
  - done.
  - eapply ended_mono; [apply Hok| |done|]; [by eauto|]. intros x Hx. right. rewrite toCancel_count in *. rewrite Hc in Hx. simpl in *.
    change (tally x []) with 0 in *. lia.
Qed.

Lemma close_ok t op c f : life_ok f -> lf_control f = Closing t op -> controlHandles c = [] -> controlCancels c = [] ->
  (match c with Idle | Opening _ => True | _ => False end) ->
  life_ok (withControl c (closeAll (tk_handles t) (cancel (tk_cancel t) f))).
Proof.
  intros [Hb Hs He] Hc N1 N2 Hsh. unfold shape in Hs. rewrite Hc in Hs. split.
  - eapply balanced_close; [exact Hb|]. counts. rewrite Hc, N1. simpl. change (tally h []) with 0. lia.
  - unfold shape. simpl. destruct c; done.
  - eapply ended_mono; [exact He|by eauto|set_solver|]. intros x Hx. rewrite toCancel_count in Hx. rewrite toCancel_count. rewrite Hc in Hx. simpl in *. rewrite N2.
    change (tally x []) with 0. destruct (decide (x ∈ opt (tk_cancel t))) as [Hin|Hin].
    + left. apply elem_of_union. left. by apply elem_of_list_to_set.
    + right. apply count_not in Hin. lia.
Qed.

(** The session's flags change, not what it holds. *)
Lemma flags_ok f s : life_ok f -> handles s = handles (lf_session f) -> se_cancel s = se_cancel (lf_session f) ->
  lf_control f = Idle -> life_ok (withSession s f).
Proof.
  intros [Hb Hs He] H1 H2 Hc. split.
  - eapply balanced_same; [exact Hb|]. intros h. rewrite !held_count. simpl. by rewrite H1.
  - unfold shape. simpl. by rewrite Hc.
  - eapply ended_mono; [exact He|by eauto|done|]. intros x Hx. right. rewrite toCancel_count in *. simpl. by rewrite H2.
Qed.

Lemma seq_fresh next n : forall h, h ∈ seq next n -> next <= h < next + n.
Proof. intros h H. apply elem_of_seq in H. lia. Qed.

(** New connections [c] for the operation and the session. *)
Lemma opened_ok f s op conn d c n : life_ok f -> (c `sublist_of` seq (lf_next f) n) ->
  (forall h, tally h (handles s) + tally h [conn] = tally h c + tally h (handles (lf_session f)) + tally h (controlHandles (lf_control f))) ->
  controlCancels (lf_control f) = [] -> unused s -> se_cancel (lf_session f) = None -> (d = false -> se_dtlsConn s = None) ->
  life_ok (withControl (Opened op conn d) (withSession s (openNew c n f))).
Proof.
  intros [Hb Hs He] Hc E Hcc Hu Hca Hd. split.
  - eapply balanced_open; [exact Hb| | |].
    + intros h Hh. apply seq_fresh. by eapply sublist_subseteq.
    + eapply sublist_NoDup; [apply NoDup_seq|done].
    + intros h. specialize (E h). rewrite !held_count. simpl. lia.
  - done.
  - eapply ended_mono; [exact He|by eauto|done|]. intros x Hx. right. rewrite toCancel_count in *. rewrite Hcc, Hca in Hx. simpl in *.
    destruct Hu as [-> _]. change (tally x []) with 0 in *. simpl. change (tally x []) with 0. lia.
Qed.

(** An operation gives up, or the digits are sent. *)
Lemma giveUp_ok f op conn d : life_ok f -> lf_control f = Opened op conn d -> life_ok (giveUp conn f).
Proof.
  intros [Hb Hs He] Hc. unfold giveUp, closeTurnResources. split.
  - eapply balanced_close2; [exact Hb|]. intros h. rewrite held_count, Hc. counts. change (tally h []) with 0. lia.
  - done.
  - eapply ended_mono; [exact He|by eauto|done|]. intros x Hx. right. rewrite toCancel_count in *. rewrite Hc in Hx. done.
Qed.

Lemma install_ok f op conn d rtcp contexts : life_ok f -> lf_control f = Opened op conn d -> life_ok (install op conn rtcp contexts f).
Proof.
  intros Hok Hc. pose proof (ok_shape f Hok) as Hs. unfold shape in Hs. rewrite Hc in Hs. destruct Hs as [(U1 & U2 & U3 & _) _].
  set (mux := match op with OpStart _ m => m | _ => false end).
  set (rtcpConn := if negb mux && rtcp then Some (lf_next f + 1) else None).
  assert (Hfresh : opt rtcpConn `sublist_of` seq (lf_next f) 2).
  { unfold rtcpConn. destruct (negb mux && rtcp); simpl; [|apply sublist_nil_l].
    replace (lf_next f + 1) with (S (lf_next f)) by lia. by apply sublist_cons. }
  assert (Hgrow : balanced (opt rtcpConn ++ held f) (lf_open (openNew (opt rtcpConn) 2 f)) (lf_next f + 2)).
  { eapply balanced_open; [apply Hok| | |].
    - intros h Hh. apply seq_fresh. by eapply sublist_subseteq.
    - eapply sublist_NoDup; [apply NoDup_seq|done].
    - intros h. apply count_app. }
  unfold install. fold mux. fold rtcpConn. set (echo := match op with OpEcho => true | _ => false end). destruct (negb echo && negb contexts).
  - (* the contexts cannot be built *)
    unfold giveUp, closeTurnResources. split; [|done|].
    + rewrite <- (app_nil_r [conn]). eapply balanced_close; [eapply balanced_close2; [exact Hgrow|]|].
      * intros h. instantiate (1 := [conn] ++ flat_map loopHandles (lf_loops f)). rewrite !count_app, held_count, Hc, handles_count, U2, U3.
        simpl. change (tally h []) with 0. lia.
      * intros h. rewrite app_nil_r, count_app. unfold held. done.
    + eapply ended_mono; [apply Hok|by eauto|done|]. intros x Hx. right. rewrite toCancel_count in *. rewrite Hc, U1 in Hx. done.
  - split; [|done|].
    + eapply balanced_same; [exact Hgrow|]. intros h. rewrite count_app, !held_count, !handles_count, Hc, U2, U3. simpl.
      rewrite flat_map_app, count_app. simpl. change (tally h []) with 0. lia.
    + intros l' [Hl|Hl]%elem_of_app.
      * destruct (ok_ended f Hok l' Hl) as [A|A]; [by left|]. right. rewrite toCancel_count in *. rewrite Hc, U1 in A. simpl in *.
        rewrite flat_map_app, count_app. simpl. change (tally (lp_id l') []) with 0 in *. lia.
      * apply list_elem_of_singleton in Hl as ->. right. apply toCancel_in. by left.
Qed.

Lemma wire_ok f w : life_ok f -> life_ok (mkLife (lf_session f) (lf_control f) (lf_loops f) (lf_open f) (lf_cancelled f) (lf_next f) w).
Proof. by intros [? ? ?]. Qed.

Lemma loopStep_ok i e f f' : life_ok f -> loopGoes i e f = Some f' -> life_ok f'.
Proof.
  intros Hok. unfold loopGoes. destruct (lf_loops f !! i) as [l|] eqn:Hl; [|done]. simpl.
  destruct e; destruct (lp_place l) as [| | |b| |t] eqn:Hp; try done.
  all: repeat case_bool_decide; try destruct (se_paused _); intros [= <-].
  all: try (apply (move_ok i l); [done|done|by rewrite Hp|done]).
  - apply (wire_ok (moveTo i l LTop f)). by apply move_ok; rewrite ?Hp.
  - by apply (loop_stop_ok i l f).
  - by eapply loop_close_ok.
Qed.

Lemma step_ok e f f' : life_ok f -> step e f = Some f' -> life_ok f'.
Proof.
  intros Hok H. pose proof (ok_shape f Hok) as Hs. unfold shape in Hs. unfold step in H.
  destruct e as [op| | |relay| | |rtcp contexts| | | |i le]; [..|by eapply loopStep_ok].
  all: destruct (lf_control f) as [|t op'|op'|op' conn d] eqn:Hc; try done.
  - injection H as <-. by apply begin_ok.
  - injection H as <-. by destruct op'; eapply close_ok.
  - injection H as <-. destruct Hok as [Hb _ He]. split; [| |].
    + eapply balanced_same; [exact Hb|]. intros h. rewrite !held_count, Hc. done.
    + done.
    + eapply ended_mono; [exact He|by eauto|done|]. intros x Hx. right. rewrite toCancel_count in *. by rewrite Hc in Hx.
  - injection H as <-. unfold openRTPDatapath. destruct (relay && _); apply (opened_ok f _ op' (lf_next f) false); try done; rewrite ?Hs, ?Hc; try done.
    + simpl. replace (lf_next f + 1) with (S (lf_next f)) by lia. by replace (lf_next f + 2) with (S (S (lf_next f))) by lia.
    + intros h. simpl. rewrite !handles_count. simpl. change (tally h []) with 0.
      change [lf_next f; lf_next f + 1; lf_next f + 2] with ([lf_next f] ++ [lf_next f + 1] ++ [lf_next f + 2]). rewrite !count_app. lia.
    + intros h. change (controlHandles (Opening op')) with (@nil nat). change (tally h []) with 0. lia.
  - destruct op', d; try done; injection H as <-; by eapply giveUp_ok.
  - destruct op' as [|[] ?| |]; try done. destruct d; try done. injection H as <-. destruct Hs as [(U1 & U2 & U3 & U4) Hd].
    apply (opened_ok f _ _ conn true [lf_next f] 1); try done; rewrite ?Hc; try done.
    intros h. rewrite !handles_count, (Hd eq_refl). simpl. change (tally h []) with 0. lia.
  - destruct op'; try done; injection H as <-; by eapply install_ok.
  - destruct op'; try done; injection H as <-; by eapply giveUp_ok.
  - injection H as <-. unfold PauseSession, ResumeSession, setPaused. destruct (se_running _); [|done]. by apply flags_ok.
  - injection H as <-. unfold PauseSession, ResumeSession, setPaused. destruct (se_running _); [|done]. by apply flags_ok.
Qed.

Lemma new_ok : life_ok newLife.
Proof. split; [|done|by intros l ?%not_elem_of_nil]. intros h. split; [|by intros ?%not_elem_of_empty]. by rewrite decide_False by apply not_elem_of_empty. Qed.

Lemma run_ok es : forall f f', life_ok f -> run es f = Some f' -> life_ok f'.
Proof.
  induction es as [|e es IH]; intros f f' Hok H; simpl in H; [by injection H as <-|].
  destruct (step e f) as [g|] eqn:E; [|done]. eapply IH; [by eapply step_ok|done].
Qed.

(** ** Nothing is leaked *)

Lemma ok_held f : life_ok f -> NoDup (held f) /\ forall h, h ∈ lf_open f <-> h ∈ held f.
Proof.
  intros [Hb _ _]. split.
  - apply NoDup_ListNoDup, (NoDup_count_occ Nat.eq_dec). intros h. destruct (Hb h) as [E _]. unfold tally in E. rewrite E. case_decide; lia.
  - intros h. destruct (Hb h) as [E _]. rewrite count_in, E. case_decide; split; intros; try done; lia.
Qed.

Definition loopOnly (e : event) : bool := match e with ELoop _ _ => true | _ => false end.

Lemma run_app es1 es2 f : run (es1 ++ es2) f = (g ← run es1 f; run es2 g).
Proof. revert f. induction es1 as [|e es1 IH]; intros f; [done|]. simpl. destruct (step e f); [apply IH|done]. Qed.

(** The first loop of a stopped session runs to its end. *)
Lemma first_loop_ends f l ls : lf_session f = NewSession -> lf_loops f = l :: ls ->
  exists es f', run es f = Some f' /\ forallb loopOnly es = true /\ lf_session f' = NewSession /\ lf_loops f' = ls /\ lf_control f' = lf_control f.
Proof.
  intros Hs Hl. destruct f as [se co lo op ca ne wi]. simpl in *. subst. destruct l as [id conn srtp p].
  destruct p as [| | | | |t].
  1-4: exists [ELoop 0 LLeave; ELoop 0 LStopLocked; ELoop 0 LClose].
  5: exists [ELoop 0 LStopLocked; ELoop 0 LClose].
  6: exists [ELoop 0 LClose].
  all: eexists; (split; [reflexivity|]); done.
Qed.

Lemma loops_end ls : forall f, lf_session f = NewSession -> lf_loops f = ls ->
  exists es f', run es f = Some f' /\ forallb loopOnly es = true /\ lf_session f' = NewSession /\ lf_loops f' = [] /\ lf_control f' = lf_control f.
Proof.
  induction ls as [|l ls IH]; intros f Hs Hl; [by exists [], f|].
  destruct (first_loop_ends f l ls Hs Hl) as (es & g & H1 & H2 & H3 & H4 & H5). destruct (IH g H3 H4) as (es' & f' & G1 & G2 & G3 & G4 & G5).
  exists (es ++ es'), f'. rewrite run_app, H1. split; [done|]. split; [by rewrite forallb_app, H2, G2|]. by rewrite G5.
Qed.

(** C26: whatever streams, echoes, replays and digits a call starts, in whatever order its loops and its operations
    interleave, and whichever of the system calls fail, every open socket, relay and DTLS connection is held exactly
    once: by the session, by the operation under way or by a [Stop] that will close it.  After the [Stop] at the end of
    the call every loop is cancelled or about to be, and when the loops have run to their end, which they can without
    anybody's help, nothing is open. *)
Theorem media_connections_released es f : run es newLife = Some f ->
  NoDup (held f) /\ (forall h, h ∈ lf_open f <-> h ∈ held f) /\
  (lf_control f = Idle ->
   exists g es' g', run [EBegin OpStop; EClose] f = Some g /\ lf_session g = NewSession /\
     (forall l, l ∈ lf_loops g -> lp_id l ∈ lf_cancelled g \/ lp_id l ∈ flat_map loopCancels (lf_loops g)) /\
     forallb loopOnly es' = true /\ run es' g = Some g' /\ lf_loops g' = [] /\ lf_open g' = ∅).
Proof.
  intros H. apply run_ok in H as Hok; [|apply new_ok]. destruct (ok_held f Hok) as [A B]. split; [done|]. split; [done|]. intros Hc.
  assert (E : exists g, run [EBegin OpStop; EClose] f = Some g /\ lf_session g = NewSession /\ lf_control g = Idle).
  { simpl. rewrite Hc. simpl. by eexists. }
  destruct E as (g & Eg & Sg & Cg). pose proof (run_ok _ _ _ Hok Eg) as Gok.
  destruct (loops_end (lf_loops g) g Sg eq_refl) as (es' & g' & R & L & S' & E' & C').
  exists g, es', g'. split_and!; try done.
  - intros l Hl. destruct (ok_ended g Gok l Hl) as [|Ht]; [by left|right]. apply toCancel_in in Ht. rewrite Sg, Cg in Ht.
    destruct Ht as [|[Ht|]]; [done|by apply not_elem_of_nil in Ht|done].
  - pose proof (run_ok _ _ _ Gok R) as Ok'. destruct (ok_held g' Ok') as [_ Hh]. apply set_eq. intros h. rewrite Hh. unfold held. rewrite S', E', C', Cg. simpl. set_solver.
Qed.

(** A stream with SRTP over a relay, an echo that replaces it, and the old loop on its way out *)
Definition demoLife : list event :=
  [EBegin (OpStart true false); EClose; EOpen true; EHandshake; EInstall true true; ELoop 0 LCheck; ELoop 0 LWait; ELoop 0 LRead; ELoop 0 LWrite;
   EBegin OpEcho; EClose; ELoop 0 LLeave; EOpen false; EInstall true true].

Lemma media_connections_released_witness : exists f, run demoLife newLife = Some f /\ NoDup (held f).
Proof.
  destruct (run demoLife newLife) as [f|] eqn:E; [|by vm_compute in E]. exists f. split; [done|].
  apply (media_connections_released demoLife f). exact E.
Defined.

(** ** Encryption *)

(** The stream that the session is sending has the context that was agreed. *)
Definition secured (f : life) : Prop :=
  (forall l, l ∈ lf_loops f -> lp_id l < lf_next f) /\
  forall l, l ∈ lf_loops f -> se_cancel (lf_session f) = Some (lp_id l) -> se_srtpSend (lf_session f) = lp_srtp l.

Lemma secured_mono f f' : secured f -> lf_next f <= lf_next f' ->
  (forall l', l' ∈ lf_loops f' -> exists l, l ∈ lf_loops f /\ lp_id l = lp_id l' /\ lp_srtp l = lp_srtp l') ->
  (se_cancel (lf_session f') = None \/
   se_cancel (lf_session f') = se_cancel (lf_session f) /\ se_srtpSend (lf_session f') = se_srtpSend (lf_session f)) -> secured f'.
Proof.
  intros [A B] Hn Hl Hs. split.
  - intros l' H. destruct (Hl l' H) as (l & Hin & <- & _). specialize (A l Hin). lia.
  - intros l' H Hc. destruct (Hl l' H) as (l & Hin & E1 & <-). destruct Hs as [Hs|[Hs1 Hs2]]; [by rewrite Hs in Hc|].
    rewrite Hs2. apply B; [done|]. by rewrite <- Hs1, E1.
Qed.

Lemma moved_srtp i l p f : lf_loops f !! i = Some l ->
  forall l', l' ∈ lf_loops (moveTo i l p f) -> exists l, l ∈ lf_loops f /\ lp_id l = lp_id l' /\ lp_srtp l = lp_srtp l'.
Proof. intros Hl l' [->|H]%in_insert; [exists l; split; [by eapply list_elem_of_lookup_2|done]|by exists l']. Qed.

Lemma loopStep_secured i e f f' : secured f -> loopGoes i e f = Some f' -> secured f'.
Proof.
  intros Hok. unfold loopGoes. destruct (lf_loops f !! i) as [l|] eqn:Hl; [|done]. simpl.
  destruct e; destruct (lp_place l) as [| | |b| |t] eqn:Hp; try done.
  all: repeat case_bool_decide; try destruct (se_paused _); intros [= <-].
  all: apply (secured_mono f); [done|done| |by (left + (right; split))].
  all: try (by apply moved_srtp).
  all: try (by apply (moved_srtp i l _ (snd (takeSession f)))).
  all: try (intros l' H'%in_delete; by exists l').
Qed.

Lemma install_secured f op conn d rtcp contexts : life_ok f -> secured f -> lf_control f = Opened op conn d -> secured (install op conn rtcp contexts f).
Proof.
  intros Hok [A B] Hc. pose proof (ok_shape f Hok) as Hs. unfold shape in Hs. rewrite Hc in Hs. destruct Hs as [(U1 & U2 & U3 & U4) _].
  unfold install. destruct (_ && negb contexts).
  - apply (secured_mono f); [done|simpl; lia|by eauto|by left].
  - split; simpl.
    + intros l [Hl| ->%list_elem_of_singleton]%elem_of_app; [specialize (A l Hl)|simpl]; lia.
    + intros l [Hl| ->%list_elem_of_singleton]%elem_of_app E.
      * injection E as E. specialize (A l Hl). lia.
      * simpl. rewrite U4. by destruct op.
Qed.

Lemma step_secured e f f' : life_ok f -> secured f -> step e f = Some f' -> secured f'.
Proof.
  intros Hok Hsec H. unfold step in H.
  destruct e as [op| | |relay| | |rtcp contexts| | | |i le]; [..|by eapply loopStep_secured].
  all: destruct (lf_control f) as [|t op'|op'|op' conn d] eqn:Hc; try done.
  all: repeat match goal with H : match ?x with _ => _ end = Some _ |- _ => destruct x eqn:?; try done end.
  all: injection H as <-.
  all: try (by eapply install_secured).
  all: unfold openRTPDatapath, PauseSession, ResumeSession, setPaused.
  all: repeat match goal with |- context [if ?b then _ else _] => destruct b end.
  all: try done.
  all: try match goal with E : takeSession _ = _ |- _ => injection E as <- <- end.
  all: apply (secured_mono f); [done|simpl; lia|by eauto|by (left + (right; split))].
Qed.

(** a packet that the stream of a running session takes up is encrypted exactly when SRTP was agreed for that
    stream, whatever was started, paused or replaced before. *)
Theorem running_stream_secured es f l : run es newLife = Some f -> l ∈ lf_loops f -> se_cancel (lf_session f) = Some (lp_id l) ->
  se_srtpSend (lf_session f) = lp_srtp l.
Proof.
  intros H. assert (G : forall es f f', life_ok f -> secured f -> run es f = Some f' -> secured f').
  { clear. induction es as [|e es IH]; intros f f' Hok Hs H; simpl in H; [by injection H as <-|].
    destruct (step e f) as [g|] eqn:E; [|done]. eapply IH; [by eapply step_ok|by eapply step_secured|done]. }
  apply (G es newLife f new_ok); [|done]. split; by intros ? ?%not_elem_of_nil.
Qed.

Lemma running_stream_secured_witness : exists f l, run (take 5 demoLife) newLife = Some f /\ lf_loops f = [l] /\
  lp_srtp l = true /\ se_srtpSend (lf_session f) = lp_srtp l.
Proof.
  destruct (run (take 5 demoLife) newLife) as [f|] eqn:E; [|by vm_compute in E]. pose proof E as E'. vm_compute in E. injection E as <-.
  eexists _, _. split; [done|]. split; [done|]. split; [done|].
  apply (running_stream_secured (take 5 demoLife) _ _ E'); [apply list_elem_of_here|done].
Defined.

(** [Stop] removes the context before it closes the socket: a loop that is about to send then sends one packet in
    clear, although SRTP was agreed. *)
Theorem stop_sends_clear_packet : exists es f, run es newLife = Some f /\ (0 < length (lf_wire f)) /\
  forallb (fun p => let '(_, srtp, encrypted) := p in srtp && negb encrypted) (lf_wire f) = true.
Proof.
  exists [EBegin (OpStart true true); EClose; EOpen false; EInstall false true; ELoop 0 LCheck; ELoop 0 LWait; EBegin OpStop; ELoop 0 LRead; ELoop 0 LWrite].
  eexists. split; [vm_compute; reflexivity|]. split; [vm_compute; lia|done].
Qed.

(** The loop of a stream that was replaced stops its successor: both streams start, nobody stops the second, and the
    session is left idle. *)
Theorem old_loop_stops_successor : exists es f, run es newLife = Some f /\
  length (List.filter (fun e => match e with EInstall _ _ => true | _ => false end) es) = 2 /\
  List.filter (fun e => match e with EBegin OpStop => true | _ => false end) es = [] /\
  lf_control f = Idle /\ lf_session f = NewSession /\ lf_open f = ∅ /\ length (lf_loops f) = 1.
Proof.
  exists [EBegin (OpStart false true); EClose; EOpen false; EInstall false true;
          EBegin (OpStart false true); EClose; EOpen false; EInstall false true; ELoop 0 LLeave; ELoop 0 LStopLocked; ELoop 0 LClose].
  eexists. split; [vm_compute; reflexivity|]. done.
Qed.
