(* ===== verification/ExecMedia.v ===== *)
(** * Shell and media commands of a scenario

    [applyExecAction] of [src/internal/engine/actions_exec.go] as a whole, with
    the choice between a media session, the scale engine and WebRTC of
    [call_media.go].  Its nine parts run in the order of the source, each only
    when the parts before it succeeded.  What a part asks of the media is an
    operation, performed by the session ([MediaLife], [SrtpSession],
    [MediaStream], [PcapReplay]), by the scale engine ([ScaleEngine]), by the
    WebRTC bridge or by a shell; [does] says whether it succeeds.  The lines
    printed with message traces are left out. *)

From stdpp Require Import base list gmap strings.
From Stdlib Require Import ZArith Lia Strings.Byte.
From S2P Require Import Prelude GoStrings SipMessage Vars Scenario Template Sdp SrtpSession MediaStream MediaSession Actions.

(** ** Operations *)

Inductive media_op :=
  | ShellRun (command : str)
  | SessionPause | SessionResume | SessionStop
  | SessionEcho (ip : str) (port : Z)
  | SessionMic (e : Endpoint) (ip : str) (port : Z) (input : str)
  | SessionStart (e : Endpoint) (cfg : StreamConfig) (ip : str) (port : Z)
  | SessionReplay (e : Endpoint) (path ip : str) (port : Z)
  | SessionDTMF (e : Endpoint) (digits ip : str) (port : Z)
  | SessionCheck (spec : rtpcheckSpec)
  | ScalePause (callID : str) | ScaleResume (callID : str) | ScaleUnregister (callID : str)
  | ScaleRegister (callID : str) (e : Endpoint) (cfg : StreamConfig) (ip : str) (port : Z)
  | WebRTCStop | WebRTCSynthetic (cfg : StreamConfig)
  | RecordStart (path : str) (duplex : bool) (basePath : str) | RecordStop.

Inductive exec_error :=
  | ExecStopCall | ExecStopNow | ExecIntCmd (c : str)
  | ExecRender (e : render_error) | ExecStreamSpec | ExecRecordSpec (e : record_error) | ExecCheckSpec
  | ExecUnsupportedOverWebRTC | ExecScaleNotSynthetic | ExecScaleNotRunning
  | ExecSRTP (e : media_error) | ExecEndpoint (e : sdp_error)
  | ExecFailed (op : media_op).

(** The keys of the session, and what was asked for *)
Record media_state := mkMediaState { md_secure : secure_session; md_ops : list media_op }.

Definition withSecure (s : secure_session) (st : media_state) : media_state := mkMediaState s (md_ops st).

Inductive transport_kind := Classic | WebRTC.

Record exec_config := mkExecConfig { xc_MediaScale : bool; xc_scaleRunning : bool; xc_MediaRejectSRTP : bool; xc_MediaSRTP : bool }.

Definition exec_result : Type := outcome (result exec_error unit) * media_state.

Section Exec.

Context (tmpl : tmpl_env) (lookupIPAddr : str -> list str) (dec : json_decoder) (rnd : Z * Z * Z) (does : media_op -> bool)
  (cfg : exec_config) (kind : transport_kind) (ctx : Context).

Definition succeeds (st : media_state) : exec_result := (Ret (Ok tt), st).
Definition fails (e : exec_error) (st : media_state) : exec_result := (Ret (Err e), st).

(** An operation that can fail, and one that cannot *)
Definition perform (op : media_op) (st : media_state) : exec_result :=
  let st := mkMediaState (md_secure st) (md_ops st ++ [op]) in
  if does op then succeeds st else fails (ExecFailed op) st.
Definition always (op : media_op) (st : media_state) : media_state := mkMediaState (md_secure st) (md_ops st ++ [op]).

Definition usesWebRTC : bool := match kind with WebRTC => true | Classic => false end.

Definition render_then (text : str) (k : str -> media_state -> exec_result) (st : media_state) : exec_result :=
  match RenderMessageStrict tmpl text ctx with Err e => fails (ExecRender e) st | Ok s => k s st end.

Definition mustParseLastMessage : Message := match Parse (LastMessage ctx) with Ok m => m | Err _ => emptyMessage end.

Definition endpoint_then (mediaType : str) (k : Endpoint -> media_state -> exec_result) (st : media_state) : exec_result :=
  match ParseMediaEndpoint lookupIPAddr dec mustParseLastMessage (RemoteIP ctx) mediaType with
  | Panic => (Panic, st)
  | Ret (Err e) => fails (ExecEndpoint e) st
  | Ret (Ok e) => k e st
  end.

(** ** The parts *)

Definition given (text : str) (part : media_state -> exec_result) (st : media_state) : exec_result :=
  match text with [] => succeeds st | _ => part st end.

Definition intCmdPart (a : Action) (st : media_state) : exec_result :=
  let c := ToLower (TrimSpace (a_IntCmd a)) in
  if bool_decide (c = []) then succeeds st
  else if bool_decide (c = lit "stop_call") then fails ExecStopCall st
  else if one_of c ["stop_now"; "stop_gracefully"]%string then fails ExecStopNow st
  else fails (ExecIntCmd (a_IntCmd a)) st.

Definition commandPart (a : Action) : media_state -> exec_result :=
  given (a_Command a) (render_then (a_Command a) (fun c => perform (ShellRun c))).

(** [configureMediaSRTPForRTPStream] on the session's keys *)
Definition srtp_then (k : media_state -> exec_result) (st : media_state) : exec_result :=
  let '(r, s) := configureMediaSRTPForRTPStream dec (xc_MediaRejectSRTP cfg) (xc_MediaSRTP cfg) mustParseLastMessage (md_secure st) in
  let st := withSecure s st in
  match r with Err e => fails (ExecSRTP e) st | Ok _ => k st end.

Definition clearKeys (st : media_state) : media_state := withSecure (ClearSDESSRTP (md_secure st)) st.

Definition scaleOr (onScale : media_op) (onSession : media_op) (st : media_state) : media_state :=
  if xc_MediaScale cfg then if xc_scaleRunning cfg then always onScale st else st else always onSession st.

Definition streamCommand (command : str) (sc : StreamConfig) (st : media_state) : exec_result :=
  if bool_decide (command = lit "pause") then
    if usesWebRTC then fails ExecUnsupportedOverWebRTC st
    else succeeds (scaleOr (ScalePause (CallID ctx)) SessionPause st)
  else if bool_decide (command = lit "resume") then
    if usesWebRTC then fails ExecUnsupportedOverWebRTC st
    else succeeds (scaleOr (ScaleResume (CallID ctx)) SessionResume st)
  else if bool_decide (command = lit "stop") then
    if usesWebRTC then succeeds (always WebRTCStop st)
    else succeeds (clearKeys (scaleOr (ScaleUnregister (CallID ctx)) SessionStop st))
  else if bool_decide (command = lit "echo") then
    if usesWebRTC then fails ExecUnsupportedOverWebRTC st
    else perform (SessionEcho (LocalIP ctx) (MediaPort ctx)) (clearKeys st)
  else if bool_decide (command = lit "mic") then
    if usesWebRTC then fails ExecUnsupportedOverWebRTC st
    else srtp_then (endpoint_then (lit "audio") (fun e => perform (SessionMic e (LocalIP ctx) (MediaPort ctx) (sg_MicInput sc)))) st
  else if bool_decide (command = lit "start") then
    if usesWebRTC then
      if negb (sg_Synthetic sc) then fails ExecUnsupportedOverWebRTC st else perform (WebRTCSynthetic sc) st
    else if xc_MediaScale cfg then
      if negb (sg_Synthetic sc) then fails ExecScaleNotSynthetic st
      else endpoint_then (lit "audio") (fun e st =>
             if negb (xc_scaleRunning cfg) then fails ExecScaleNotRunning st
             else perform (ScaleRegister (CallID ctx) e sc (LocalIP ctx) (MediaPort ctx)) st) st
    else srtp_then (endpoint_then (lit "audio") (fun e => perform (SessionStart e sc (LocalIP ctx) (MediaPort ctx)))) st
  else succeeds st.

Definition streamPart (a : Action) : media_state -> exec_result :=
  given (a_RTPStream a) (render_then (a_RTPStream a) (fun spec st =>
    match ParseRTPStreamSpec rnd spec (BasePath ctx) with
    | None => fails ExecStreamSpec st
    | Some (command, sc) => streamCommand command sc st
    end)).

Definition recordPart (a : Action) : media_state -> exec_result :=
  given (a_RTPRecord a) (render_then (a_RTPRecord a) (fun spec st =>
    match ParseRTPRecordSpec spec with
    | Err e => fails (ExecRecordSpec e) st
    | Ok None => perform RecordStop st
    | Ok (Some (path, duplex)) => perform (RecordStart path duplex (BasePath ctx)) st
    end)).

Definition notOverWebRTC (part : media_state -> exec_result) (st : media_state) : exec_result :=
  if usesWebRTC then fails ExecUnsupportedOverWebRTC st else part st.

(** [play_pcap_audio], [play_pcap_video], [play_pcap_image] *)
Definition replayPart (mediaType : str) (text : str) : media_state -> exec_result :=
  given text (notOverWebRTC (endpoint_then mediaType (fun e => render_then text (fun path st =>
    perform (SessionReplay e (ResolvePath (BasePath ctx) path) (LocalIP ctx) (MediaPort ctx)) (clearKeys st))))).

Definition checkPart (a : Action) : media_state -> exec_result :=
  given (a_RTPCheck a) (notOverWebRTC (render_then (a_RTPCheck a) (fun text st =>
    match parseRTPCheckSpec text with
    | None => fails ExecCheckSpec st
    | Some spec => perform (SessionCheck spec) st
    end))).

Definition dtmfPart (a : Action) : media_state -> exec_result :=
  given (a_SendDTMF a) (notOverWebRTC (endpoint_then (lit "audio") (fun e => render_then (a_SendDTMF a) (fun digits =>
    perform (SessionDTMF e digits (LocalIP ctx) (MediaPort ctx)))))).

Fixpoint inOrder (parts : list (media_state -> exec_result)) (st : media_state) : exec_result :=
  match parts with
  | [] => succeeds st
  | p :: parts => match p st with (Ret (Ok _), st) => inOrder parts st | r => r end
  end.

Definition execMedia (a : Action) : media_state -> exec_result :=
  inOrder [intCmdPart a; commandPart a; streamPart a; recordPart a; replayPart (lit "audio") (a_PlayPCAPAudio a); checkPart a;
           replayPart (lit "video") (a_PlayPCAPVideo a); replayPart (lit "image") (a_PlayPCAPImage a); dtmfPart a].

End Exec.

(** * Properties *)

Section Facts.

Context (tmpl : tmpl_env) (lookupIPAddr : str -> list str) (dec : json_decoder) (rnd : Z * Z * Z) (does : media_op -> bool)
  (cfg : exec_config) (ctx : Context).

(** A part asks only for operations of a kind. *)
Definition asksOnly (P : media_op -> Prop) (part : media_state -> exec_result) : Prop :=
  forall st, exists new, md_ops (snd (part st)) = md_ops st ++ new /\ Forall P new.

Section Kind.
Context (P : media_op -> Prop).

Lemma asks_nothing (part : media_state -> exec_result) : (forall st, md_ops (snd (part st)) = md_ops st) -> asksOnly P part.
Proof. intros H st. exists []. by rewrite H, app_nil_r. Qed.

Lemma asks_succeeds : asksOnly P succeeds.
Proof. by apply asks_nothing. Qed.

Lemma asks_fails e : asksOnly P (fails e).
Proof. by apply asks_nothing. Qed.

Lemma asks_perform op : P op -> asksOnly P (perform does op).
Proof. intros H st. exists [op]. unfold perform. destruct (does op); split; auto. Qed.

Lemma asks_after (g : media_state -> media_state) part : (forall st, md_ops (g st) = md_ops st) -> asksOnly P part -> asksOnly P (fun st => part (g st)).
Proof. intros Hg H st. destruct (H (g st)) as (new & E & F). exists new. by rewrite E, Hg. Qed.

Lemma asks_given text part : asksOnly P part -> asksOnly P (given text part).
Proof. unfold given. destruct text; [intros; apply asks_succeeds|done]. Qed.

Lemma asks_render text k : (forall s, asksOnly P (k s)) -> asksOnly P (render_then tmpl ctx text k).
Proof. intros H st. unfold render_then. destruct (RenderMessageStrict tmpl text ctx); [apply H|apply asks_fails]. Qed.

Lemma asks_endpoint mt k : (forall e, asksOnly P (k e)) -> asksOnly P (endpoint_then lookupIPAddr dec ctx mt k).
Proof.
  intros H st. unfold endpoint_then. destruct (ParseMediaEndpoint _ _ _ _ _) as [[e|e]|]; [apply H|apply asks_fails|]. exists []. by rewrite app_nil_r.
Qed.

(** What a session description must satisfy for a stream to start *)
Definition allowed : Prop :=
  SDPHintsSRTP (EffectiveMediaSDPBody dec (mustParseLastMessage ctx)) = true -> xc_MediaSRTP cfg = true /\ xc_MediaRejectSRTP cfg = false.

Lemma asks_srtp k : (allowed -> asksOnly P k) -> asksOnly P (srtp_then dec cfg ctx k).
Proof.
  intros H st. unfold srtp_then. destruct (configureMediaSRTPForRTPStream _ _ _ _ _) as [r s] eqn:E. destruct r as [u|e]; [|by exists []; rewrite app_nil_r].
  apply (asks_after (withSecure s)); [done|]. apply H. unfold allowed. intros Hh. unfold configureMediaSRTPForRTPStream in E. rewrite Hh in E. simpl in E.
  destruct (xc_MediaRejectSRTP cfg); [done|]. by destruct (xc_MediaSRTP cfg).
Qed.

Lemma asks_notOver kind part : (kind = Classic -> asksOnly P part) -> asksOnly P (notOverWebRTC kind part).
Proof. unfold notOverWebRTC. destruct kind; simpl; [auto|intros; apply asks_fails]. Qed.

Lemma asks_inOrder parts : Forall (asksOnly P) parts -> asksOnly P (inOrder parts).
Proof.
  intros H. induction H as [|p parts Hp Hps IH]; [apply asks_succeeds|]. intros st. simpl. destruct (Hp st) as (new & E & F).
  destruct (p st) as [r st1] eqn:Ep. simpl in E. destruct r as [[u|e]|]; simpl; [|by exists new..].
  destruct (IH st1) as (new' & E' & F'). exists (new ++ new'). rewrite E', E, app_assoc. split; [done|by apply Forall_app].
Qed.

Lemma asks_scaleOr a b : P a -> P b -> asksOnly P (fun st => succeeds (scaleOr cfg a b st)).
Proof.
  intros Ha Hb st. unfold scaleOr. destruct (xc_MediaScale cfg); [destruct (xc_scaleRunning cfg)|].
  - exists [a]. auto.
  - exists []. by rewrite app_nil_r.
  - exists [b]. auto.
Qed.

End Kind.

(** The cases of a stream command, and those that ask for nothing *)
Ltac stream_cases :=
  intros st; unfold streamCommand; cbn [usesWebRTC];
  repeat match goal with |- context [if bool_decide ?Q then _ else _] => destruct (bool_decide Q) end;
  try apply asks_fails; try apply asks_succeeds.

(** ** Over WebRTC no media session is touched *)

Definition webrtcOp (op : media_op) : Prop :=
  match op with
  | ShellRun _ | WebRTCStop | RecordStart _ _ _ | RecordStop => True
  | WebRTCSynthetic c => sg_Synthetic c = true
  | _ => False
  end.

Lemma webrtc_stream command sc : asksOnly webrtcOp (streamCommand lookupIPAddr dec does cfg WebRTC ctx command sc).
Proof.
  stream_cases.
  - exists [WebRTCStop]. split; [done|by repeat constructor].
  - destruct (sg_Synthetic sc) eqn:E; cbn [negb]; [by apply asks_perform|apply asks_fails].
Qed.

(** The parts that do not depend on what carries the media *)
Lemma common_parts (P : media_op -> Prop) a : (forall c, P (ShellRun c)) -> (forall p d b, P (RecordStart p d b)) -> P RecordStop ->
  asksOnly P (intCmdPart a) /\ asksOnly P (commandPart tmpl does ctx a) /\ asksOnly P (recordPart tmpl does ctx a).
Proof.
  intros H1 H2 H3. split_and!.
  - intros st. unfold intCmdPart. repeat case_bool_decide; try destruct (one_of _ _); try apply asks_fails; apply asks_succeeds.
  - apply asks_given, asks_render. intros c. by apply asks_perform.
  - apply asks_given, asks_render. intros spec st. destruct (ParseRTPRecordSpec spec) as [[[p d]|]|e]; [by apply asks_perform..|apply asks_fails].
Qed.

Lemma exec_asks (P : media_op -> Prop) kind a : (forall c, P (ShellRun c)) -> (forall p d b, P (RecordStart p d b)) -> P RecordStop ->
  (forall command sc, asksOnly P (streamCommand lookupIPAddr dec does cfg kind ctx command sc)) ->
  (kind = Classic -> (forall e p i n, P (SessionReplay e p i n)) /\ (forall s, P (SessionCheck s)) /\ (forall e d i n, P (SessionDTMF e d i n))) ->
  asksOnly P (execMedia tmpl lookupIPAddr dec rnd does cfg kind ctx a).
Proof.
  intros H1 H2 H3 Hs Hc. destruct (common_parts P a H1 H2 H3) as (C1 & C2 & C3).
  assert (Hr : forall mt text, asksOnly P (replayPart tmpl lookupIPAddr dec does kind ctx mt text)).
  { intros mt text. apply asks_given, asks_notOver. intros ->. apply asks_endpoint. intros e. apply asks_render. intros p st.
    apply (asks_after P clearKeys (perform does _) ltac:(done)). apply asks_perform. by apply Hc. }
  apply asks_inOrder. repeat constructor; try done.
  - apply asks_given, asks_render. intros spec st. destruct (ParseRTPStreamSpec _ _ _) as [[command sc]|]; [apply Hs|apply asks_fails].
  - apply asks_given, asks_notOver. intros ->. apply asks_render. intros text st. destruct (parseRTPCheckSpec text); [|apply asks_fails].
    apply asks_perform. by apply Hc.
  - apply asks_given, asks_notOver. intros ->. apply asks_endpoint. intros e. apply asks_render. intros d. apply asks_perform. by apply Hc.
Qed.

(** Over WebRTC an action never opens, pauses or keys a media session, whatever it asks for: besides shell commands and
    recordings only synthetic audio is started, and the session's keys stay as they are. *)
Theorem webrtc_leaves_sessions a st : exists new,
  md_ops (snd (execMedia tmpl lookupIPAddr dec rnd does cfg WebRTC ctx a st)) = md_ops st ++ new /\ Forall webrtcOp new.
Proof. apply (exec_asks webrtcOp WebRTC a); try done. apply webrtc_stream. Qed.

(** ** Streams obey the SRTP policy *)

Definition streamOp (op : media_op) : bool := match op with SessionStart _ _ _ _ | SessionMic _ _ _ _ => true | _ => false end.

Lemma classic_stream command sc : asksOnly (fun op => streamOp op = true -> allowed) (streamCommand lookupIPAddr dec does cfg Classic ctx command sc).
Proof.
  stream_cases.
  - by apply asks_scaleOr.
  - by apply asks_scaleOr.
  - destruct (asks_scaleOr (fun op => streamOp op = true -> allowed) (ScaleUnregister (CallID ctx)) SessionStop ltac:(done) ltac:(done) st) as (new & E & F).
    by exists new.
  - apply (asks_after _ clearKeys (perform does _) ltac:(done)). by apply asks_perform.
  - apply asks_srtp. intros Ha. apply asks_endpoint. intros e. by apply asks_perform.
  - destruct (xc_MediaScale cfg).
    + destruct (sg_Synthetic sc); [|apply asks_fails]. apply asks_endpoint. intros e st'. destruct (xc_scaleRunning cfg); [|apply asks_fails].
      by apply asks_perform.
    + apply asks_srtp. intros Ha. apply asks_endpoint. intros e. by apply asks_perform.
Qed.

(** a scenario action starts an RTP stream of a file or of the microphone only when the peer's session description
    does not ask for SRTP, or SRTP is enabled and not rejected; whatever else the action does and whichever of its
    commands fail. *)
Theorem streams_obey_srtp_policy a st : exists new,
  md_ops (snd (execMedia tmpl lookupIPAddr dec rnd does cfg Classic ctx a st)) = md_ops st ++ new /\
  forall op, op ∈ new -> streamOp op = true ->
    SDPHintsSRTP (EffectiveMediaSDPBody dec (mustParseLastMessage ctx)) = false \/ (xc_MediaSRTP cfg = true /\ xc_MediaRejectSRTP cfg = false).
Proof.
  destruct (exec_asks (fun op => streamOp op = true -> allowed) Classic a) with (st := st) as (new & E & F); try done.
  - apply classic_stream.
  - exists new. split; [done|]. intros op Hin Hop. rewrite Forall_forall in F. specialize (F op Hin Hop).
    destruct (SDPHintsSRTP _) eqn:Eh; [right; by apply F|by left].
Qed.

(** A replayed capture is never encrypted: the keys are dropped before it starts, also when the peer asked for SRTP
    and a stream would have been refused. *)
Theorem replay_drops_keys mt text st st' : text <> [] ->
  replayPart tmpl lookupIPAddr dec does Classic ctx mt text st = (Ret (Ok tt), st') -> no_keys (md_secure st').
Proof.
  intros Ht. unfold replayPart, given, notOverWebRTC, endpoint_then, render_then. destruct text as [|b text]; [done|]. simpl.
  destruct (ParseMediaEndpoint _ _ _ _ _) as [[e|e]|]; try done. destruct (RenderMessageStrict _ _ _) as [p|]; try done.
  unfold perform. destruct (does _); [|done]. intros [= <-]. done.
Qed.

(** ** The actions of a call *)

Definition isOk (r : exec_result) : bool := match fst r with Ret (Ok _) => true | _ => false end.

(** What [applyActions] assumes of an exec action, internal commands and an outcome, is what this function does. *)
Theorem exec_action_refined env kind a st ms : as_ctx st = ctx ->
  ae_exec env a ctx = isOk (execMedia tmpl lookupIPAddr dec rnd does cfg kind ctx a ms) ->
  applyExecAction env a st =
    (match fst (intCmdPart a ms) with
     | Ret (Err ExecStopCall) => Err ErrStopCall
     | Ret (Err ExecStopNow) => Err ErrStopNow
     | Ret (Err _) => Err (ErrIntCmd (a_IntCmd a))
     | _ => if isOk (execMedia tmpl lookupIPAddr dec rnd does cfg kind ctx a ms) then Ok tt else Err ErrExec
     end).
Proof.
  intros Hc He. unfold applyExecAction, intCmdPart. rewrite Hc, He. set (c := ToLower (TrimSpace (a_IntCmd a))). clearbody c.
  destruct (decide (c = [])) as [->|Hn]; [done|]. rewrite (bool_decide_false (c = [])) by done. simpl.
  case_bool_decide; [done|].
  by repeat case_bool_decide.
Qed.

End Facts.
