(* ===== verification/CallMedia.v ===== *)
(** * The WebRTC side of a call

    [webrtcCallMedia] of [src/internal/engine/call_media.go] with the functions
    of [webrtc_call.go] that the command loop calls: offers and answers, the
    frames in both directions, the recording they go to.  The bridge is a
    library: what it answers is in the arguments, what it is asked in the log.
    [letter] is [unicode.IsLetter] or [unicode.IsDigit] of a rune, [mkdir]
    whether the directory of a path can be made. *)

From stdpp Require Import base list gmap strings.
From Stdlib Require Import ZArith Lia Strings.Byte Floats.SpecFloat.
From S2P Require Import Prelude GoStrings GoFloat SafePath SipMessage Sdp Stats Template Media MediaStream MediaSession.

(** ** Names and bodies *)

(** [sanitizeCallIDForFilename] *)
Definition sanitizeCallIDForFilename (letter : Z -> bool) (callID : str) : str :=
  let keep r := if letter r || (r =? 45) || (r =? 95) then encode_rune r else [x5f] in
  match Trim (beqb x5f) (flat_map keep (runes callID)) with [] => lit "call" | s => take 120 s end.

(** [SDPBodyFromRawMessage] *)
Definition SDPBodyFromRawMessage (raw : str) : str :=
  match Index raw [x0d; x0a; x0d; x0a] with
  | Some i => drop (i + 4) raw
  | None => match Index raw [x0a; x0a] with Some i => drop (i + 2) raw | None => [] end
  end.

Definition sipResponseWithSDP (raw : str) : bool :=
  let upper := ToUpper raw in
  if negb (HasPrefix upper (lit "SIP/2.0 ")) then false
  else Contains upper (lit "CONTENT-TYPE: APPLICATION/SDP") || HasPrefix (SDPBodyFromRawMessage raw) (lit "v=0").

Definition isTrickleFragment (body : str) : bool :=
  let body := TrimSpace body in
  if bool_decide (body = []) then false
  else if HasPrefix body (lit "{") || HasPrefix body (lit "[") then true
  else if negb (SDPHasIceMediaAttributes body) then false
  else negb (Contains (ToLower body) (lit "m=audio")).

Definition trickleBodyFromRaw (dec : json_decoder) (raw : str) : str :=
  match Parse raw with
  | Err _ => TrimSpace (SDPBodyFromRawMessage raw)
  | Ok msg =>
    match TrimSpace (EffectiveMediaSDPBody dec msg) with
    | [] => TrimSpace (SDPBodyFromRawMessage raw)
    | body => body
    end
  end.

(** ** State *)

(** What the bridge is asked *)
Inductive bridge_call := BridgeOffer | BridgeAnswer (offer : str) | BridgeAccept (answer : str) | BridgeTrickle (body : str) | BridgeClose.

Record webrtcCallMedia := mkWebRTC {
  wr_sent : Z; wr_recv : Z;
  wr_synthetic : bool;                 (* [cancel] is set *)
  wr_localOffer : str; wr_answerAccepted : bool;
  wr_recorder : G711WAVRecorder; wr_autoRecordDir : str; wr_autoRecordDuplex : bool; wr_callID : str;
  wr_log : list bridge_call;
  wr_disk : list disk_effect }.        (* what the recorder did to the disk *)

Definition idleRecorder : G711WAVRecorder := mkG711 false [] false [] [].
Definition newWebRTC : webrtcCallMedia := mkWebRTC 0 0 false [] false idleRecorder [] false [] [] [].

Definition configureWebRTC (RecordWAVDir : str) (RecordWAVDuplex : bool) (callID : str) (w : webrtcCallMedia) : webrtcCallMedia :=
  mkWebRTC (wr_sent w) (wr_recv w) (wr_synthetic w) (wr_localOffer w) (wr_answerAccepted w) (wr_recorder w)
    (TrimSpace RecordWAVDir) RecordWAVDuplex callID (wr_log w) (wr_disk w).

Definition asked (c : bridge_call) (w : webrtcCallMedia) : webrtcCallMedia :=
  mkWebRTC (wr_sent w) (wr_recv w) (wr_synthetic w) (wr_localOffer w) (wr_answerAccepted w) (wr_recorder w)
    (wr_autoRecordDir w) (wr_autoRecordDuplex w) (wr_callID w) (wr_log w ++ [c]) (wr_disk w).

Definition withRecorder (r : G711WAVRecorder) (d : list disk_effect) (w : webrtcCallMedia) : webrtcCallMedia :=
  mkWebRTC (wr_sent w) (wr_recv w) (wr_synthetic w) (wr_localOffer w) (wr_answerAccepted w) r
    (wr_autoRecordDir w) (wr_autoRecordDuplex w) (wr_callID w) (wr_log w) (wr_disk w ++ d).

Definition tallied (sent recv : Z) (w : webrtcCallMedia) : webrtcCallMedia :=
  mkWebRTC (u32 (wr_sent w + sent)) (u32 (wr_recv w + recv)) (wr_synthetic w) (wr_localOffer w) (wr_answerAccepted w) (wr_recorder w)
    (wr_autoRecordDir w) (wr_autoRecordDuplex w) (wr_callID w) (wr_log w) (wr_disk w).

Section WebRTCCall.
Context (letter : Z -> bool) (mkdir : str -> bool).

(** ** Recording *)

Definition wavPath (w : webrtcCallMedia) : str :=
  JoinPath [wr_autoRecordDir w; sanitizeCallIDForFilename letter (wr_callID w) ++ lit ".wav"].

Definition maybeAutoRecordLocked (w : webrtcCallMedia) : webrtcCallMedia :=
  if bool_decide (wr_autoRecordDir w = []) || bool_decide (wr_callID w = []) || gr_on (wr_recorder w) then w
  else match g711Start mkdir (wavPath w) (wr_autoRecordDuplex w) [] (wr_recorder w) with
       | (Ok eff, r) => withRecorder r [eff] w
       | (Err _, r) => withRecorder r [] w
       end.

(** The callback of [newCallMedia] under the mutex, and the rest of it *)
Definition onPCMA (payload codec : str) (w : webrtcCallMedia) : webrtcCallMedia :=
  tallied 0 1 (withRecorder (AppendReceived payload codec (wr_recorder w)) [] w).

(** The frame the synthetic sender has written, under the mutex *)
Definition frameSent (payload codec : str) (w : webrtcCallMedia) : webrtcCallMedia :=
  tallied 1 0 (withRecorder (AppendSent payload codec (wr_recorder w)) [] w).

(** [webrtcCallMedia.stop] *)
Definition stopWebRTC (w : webrtcCallMedia) : webrtcCallMedia :=
  let '(eff, r) := g711Stop (wr_recorder w) in
  let w := withRecorder r [eff] w in
  let w := mkWebRTC (wr_sent w) (wr_recv w) false (wr_localOffer w) (wr_answerAccepted w) (wr_recorder w)
             (wr_autoRecordDir w) (wr_autoRecordDuplex w) (wr_callID w) (wr_log w) (wr_disk w) in
  asked BridgeClose w.

(** ** Offers and answers *)

Definition createOffer (answer : option str) (w : webrtcCallMedia) : option str * webrtcCallMedia :=
  match wr_localOffer w with
  | (_ :: _) as o => (Some o, w)
  | [] =>
    let w := asked BridgeOffer w in
    match answer with
    | None => (None, w)
    | Some o => (Some o, mkWebRTC (wr_sent w) (wr_recv w) (wr_synthetic w) o (wr_answerAccepted w) (wr_recorder w)
                  (wr_autoRecordDir w) (wr_autoRecordDuplex w) (wr_callID w) (wr_log w) (wr_disk w))
    end
  end.

Definition needsAcceptAnswer (w : webrtcCallMedia) : bool := negb (bool_decide (wr_localOffer w = [])) && negb (wr_answerAccepted w).

Definition acceptAnswer (ok : bool) (answerSDP : str) (w : webrtcCallMedia) : bool * webrtcCallMedia :=
  if wr_answerAccepted w then (true, w)
  else
    let w := asked (BridgeAccept answerSDP) w in
    if negb ok then (false, w)
    else (true, maybeAutoRecordLocked
      (mkWebRTC (wr_sent w) (wr_recv w) (wr_synthetic w) (wr_localOffer w) true (wr_recorder w)
         (wr_autoRecordDir w) (wr_autoRecordDuplex w) (wr_callID w) (wr_log w) (wr_disk w))).

(** [startSynthetic] marks the sender as running; its frames are [frameSent]. *)
Definition startSynthetic (w : webrtcCallMedia) : webrtcCallMedia :=
  mkWebRTC (wr_sent w) (wr_recv w) true (wr_localOffer w) (wr_answerAccepted w) (wr_recorder w)
    (wr_autoRecordDir w) (wr_autoRecordDuplex w) (wr_callID w) (wr_log w) (wr_disk w).

Inductive webrtc_error := OfferFailed | NoOffer | AnswerFailed.

(** [prepareWebRTCSendKeywords] *)
Definition prepareWebRTCSendKeywords (offered answered : option str) (lastMessage sendTemplate : str) (kw : gmap str str) (w : webrtcCallMedia) :
  result webrtc_error (gmap str str) * webrtcCallMedia :=
  let '(r, w) :=
    if Contains sendTemplate (lit "[webrtc_offer]") then
      match createOffer offered w with
      | (None, w) => (Err OfferFailed, w)
      | (Some o, w) => (Ok (<[lit "webrtc_offer" := o]> kw), w)
      end
    else (Ok kw, w) in
  match r with
  | Err e => (Err e, w)
  | Ok kw =>
    if Contains sendTemplate (lit "[webrtc_answer]") then
      match SDPBodyFromRawMessage lastMessage with
      | [] => (Err NoOffer, w)
      | offer =>
        let w := asked (BridgeAnswer offer) w in
        match answered with
        | None => (Err AnswerFailed, w)
        | Some a => (Ok (<[lit "webrtc_answer" := a]> kw), w)
        end
      end
    else (Ok kw, w)
  end.

(** [maybeAcceptWebRTCAnswer] and [maybeTrickleWebRTCFromMessage] on a received
    message *)
Definition maybeAcceptWebRTCAnswer (ok : bool) (raw : str) (w : webrtcCallMedia) : bool * webrtcCallMedia :=
  if negb (needsAcceptAnswer w) || negb (sipResponseWithSDP raw) then (true, w)
  else match SDPBodyFromRawMessage raw with [] => (true, w) | body => acceptAnswer ok body w end.

Definition maybeTrickleWebRTCFromMessage (dec : json_decoder) (ok : bool) (raw : str) (w : webrtcCallMedia) : bool * webrtcCallMedia :=
  let body := trickleBodyFromRaw dec raw in
  if bool_decide (body = []) || negb (isTrickleFragment body) then (true, w) else (ok, asked (BridgeTrickle body) w).

(** ** Statistics *)

(** [webrtc.RTPStats] *)
Record bridgeStats := mkBridgeStats {
  bs_PacketsSent : Z; bs_PacketsReceived : Z; bs_PacketsLost : Z; bs_JitterSeconds : float64; bs_FractionLost : float64; bs_RemoteFractionOK : bool }.

Definition u8_of_float (x : float64) : Z := int64_of_float x mod 256.

(** [callMedia.snapshot] of a WebRTC call *)
Definition snapshotWebRTC (rs : bridgeStats) (w : webrtcCallMedia) : MediaStats :=
  let jitter := if flt fzero (bs_JitterSeconds rs) then u32_of_float (fmul (bs_JitterSeconds rs) (float_of_int 8000)) else 0 in
  let fl := fmul (bs_FractionLost rs) (float_of_int 255) in
  let fl := if flt (float_of_int 255) fl then float_of_int 255 else fl in
  mkMediaStats (Z.max (wr_sent w) (bs_PacketsSent rs)) 0 (Z.max (wr_recv w) (bs_PacketsReceived rs)) 0
    (if bs_RemoteFractionOK rs then 1 else 0) 0 0 (if bs_RemoteFractionOK rs then u8_of_float fl else 0) jitter 0 fzero 0
    (if 0 <? bs_PacketsLost rs then u32 (bs_PacketsLost rs) else 0) jitter.

(** ** A call *)

(** What happens in a call, one critical section at a time *)
Inductive call_event :=
  | EvSend (offered answered : option str) (lastMessage text : str)
  | EvReceive (accepted : bool) (raw : str)
  | EvPCMA (payload codec : str) | EvFrame (payload codec : str) | EvAutoRecord
  | EvSynthetic | EvStop.

Definition call_step (w : webrtcCallMedia) (e : call_event) : webrtcCallMedia :=
  match e with
  | EvSend o a last text => snd (prepareWebRTCSendKeywords o a last text ∅ w)
  | EvReceive ok raw => snd (maybeAcceptWebRTCAnswer ok raw w)
  | EvPCMA p c => onPCMA p c w
  | EvFrame p c => frameSent p c w
  | EvAutoRecord => maybeAutoRecordLocked w
  | EvSynthetic => startSynthetic w
  | EvStop => stopWebRTC w
  end.

End WebRTCCall.

(** * Properties *)

Definition isOffer (c : bridge_call) : bool := match c with BridgeOffer => true | _ => false end.
Definition isAccept (c : bridge_call) : bool := match c with BridgeAccept _ => true | _ => false end.

Section Facts.
Context (letter : Z -> bool) (mkdir : str -> bool).

(** The negotiation goes on from [w] to [w']: an offer that was made stays, one that was answered stays answered, and
    neither is asked for again. *)
Definition continues (w w' : webrtcCallMedia) : Prop :=
  exists new, wr_log w' = wr_log w ++ new /\
    (wr_localOffer w <> [] -> wr_localOffer w' = wr_localOffer w /\ forallb (fun c => negb (isOffer c)) new = true) /\
    (wr_answerAccepted w = true -> wr_answerAccepted w' = true /\ forallb (fun c => negb (isAccept c)) new = true).

Lemma continues_quiet w w' : wr_log w' = wr_log w -> wr_localOffer w' = wr_localOffer w -> wr_answerAccepted w' = wr_answerAccepted w -> continues w w'.
Proof. intros H1 H2 H3. exists []. rewrite H1, H2, H3, app_nil_r. done. Qed.

Lemma continues_trans w1 w2 w3 : continues w1 w2 -> continues w2 w3 -> continues w1 w3.
Proof.
  intros (n1 & L1 & O1 & A1) (n2 & L2 & O2 & A2). exists (n1 ++ n2). rewrite L2, L1, app_assoc. split; [done|]. rewrite !forallb_app. split.
  - intros H. destruct (O1 H) as [E1 F1]. rewrite <- E1 in H. destruct (O2 H) as [E2 F2]. by rewrite E2, F1, F2.
  - intros H. destruct (A1 H) as [E1 F1]. destruct (A2 E1) as [E2 F2]. by rewrite E2, F1, F2.
Qed.

Lemma auto_record_continues w : continues w (maybeAutoRecordLocked letter mkdir w).
Proof. unfold maybeAutoRecordLocked. destruct (_ || _); [by apply continues_quiet|]. destruct (g711Start _ _ _ _ _) as [[] ?]; by apply continues_quiet. Qed.

Lemma asked_continues c w : isOffer c = false -> isAccept c = false -> continues w (asked c w).
Proof. intros H1 H2. exists [c]. simpl. by rewrite H1, H2. Qed.

Lemma createOffer_continues o w : continues w (snd (createOffer o w)).
Proof.
  unfold createOffer. destruct (wr_localOffer w) eqn:E; [|by apply continues_quiet]. destruct o; exists [BridgeOffer]; simpl; by rewrite E.
Qed.

Lemma send_continues o a last text kw w : continues w (snd (prepareWebRTCSendKeywords o a last text kw w)).
Proof.
  unfold prepareWebRTCSendKeywords.
  set (x := if Contains text (lit "[webrtc_offer]") then _ else _).
  assert (H : continues w (snd x)).
  { subst x. destruct (Contains text (lit "[webrtc_offer]")); [|by apply continues_quiet]. pose proof (createOffer_continues o w) as H.
    by destruct (createOffer o w) as [[]]. }
  clearbody x. destruct x as [r w0].
  simpl in H. destruct r as [kw'|e]; [|done]. destruct (Contains text (lit "[webrtc_answer]")); [|done].
  destruct (SDPBodyFromRawMessage last); [done|]. destruct a; (eapply continues_trans; [exact H|by apply asked_continues]).
Qed.

Lemma receive_continues ok raw w : continues w (snd (maybeAcceptWebRTCAnswer letter mkdir ok raw w)).
Proof.
  unfold maybeAcceptWebRTCAnswer. destruct (_ || _); [by apply continues_quiet|]. destruct (SDPBodyFromRawMessage raw) as [|b body]; [by apply continues_quiet|].
  unfold acceptAnswer. destruct (wr_answerAccepted w) eqn:Ea; [by apply continues_quiet|].
  assert (H : forall f, continues w (mkWebRTC (wr_sent w) (wr_recv w) (wr_synthetic w) (wr_localOffer w) f (wr_recorder w)
    (wr_autoRecordDir w) (wr_autoRecordDuplex w) (wr_callID w) (wr_log w ++ [BridgeAccept (b :: body)]) (wr_disk w))).
  { intros f. exists [BridgeAccept (b :: body)]. simpl. by rewrite Ea. }
  destruct ok; simpl; [eapply continues_trans; [apply (H true)|apply auto_record_continues]|].
  unfold asked. rewrite Ea. apply H.
Qed.

Lemma step_continues w e : continues w (call_step letter mkdir w e).
Proof.
  destruct e; simpl.
  - apply send_continues.
  - apply receive_continues.
  - by apply continues_quiet.
  - by apply continues_quiet.
  - apply auto_record_continues.
  - by apply continues_quiet.
  - unfold stopWebRTC. destruct (g711Stop _). eapply continues_trans; [|by apply asked_continues]. by apply continues_quiet.
Qed.

(** One offer is made and one answer accepted in a call: whatever is sent, received and recorded afterwards, the offer
    in later messages is the same, and the bridge is asked neither for another offer nor to accept another answer. *)
Theorem negotiated_once es w : continues w (foldl (call_step letter mkdir) w es).
Proof.
  revert w. induction es as [|e es IH]; intros w; [by apply continues_quiet|]. simpl. eapply continues_trans; [apply step_continues|apply IH].
Qed.

(** The first frame of a call that answers is not in its recording: frames are appended before the recording starts. *)
Theorem first_frame_not_recorded w payload codec : gr_on (wr_recorder w) = false -> wr_recorder (onPCMA payload codec w) = wr_recorder w.
Proof. intros H. unfold onPCMA, AppendReceived. by rewrite H. Qed.

End Facts.

(** A frame that is counted while [rtp_stream stop] runs starts the recording of the same file again; the end of the
    call finds it empty and removes the file. *)
Theorem late_frame_removes_recording :
  let w := foldl (call_step (fun r => (97 <=? r) && (r <=? 122)) (fun _ => true)) (configureWebRTC (lit "/rec") false (lit "c") newWebRTC)
             [EvAutoRecord; EvPCMA [x00; x01] (lit "PCMU"); EvStop; EvAutoRecord; EvStop] in
  List.last (wr_disk w) NoEffect = RemoveFile (lit "/rec/c.wav") /\
  match wr_disk w with [_; WriteWAV p _; _; _] => bool_decide (p = lit "/rec/c.wav") | _ => false end = true.
Proof. by vm_compute. Qed.

(** Different calls can share a file. *)
Theorem recording_names_collide :
  sanitizeCallIDForFilename (fun r => (97 <=? r) && (r <=? 122)) (lit "a@b") = sanitizeCallIDForFilename (fun r => (97 <=? r) && (r <=? 122)) (lit "a:b_").
Proof. by vm_compute. Qed.

Lemma Forall_trim_left (P : byte -> Prop) cut s : Forall P s -> Forall P (trim_left_set cut s).
Proof. induction 1 as [|b s Hb Hs IH]; [constructor|]. cbn [trim_left_set]. destruct (cut b); [done|by constructor]. Qed.

Lemma Forall_Trim (P : byte -> Prop) cut s : Forall P s -> Forall P (Trim cut s).
Proof. intros H. unfold Trim, TrimRight. by apply Forall_rev, Forall_trim_left, Forall_rev, Forall_trim_left. Qed.

(** The name of a recording is never empty and has at most 120 bytes, and for a Call-ID of ASCII characters it is made
    of letters, digits, hyphens and underscores only: it has no separator and no dot, and stays in its directory. *)
Theorem recording_name_safe letter callID :
  letter 47 = false -> letter 46 = false -> Forall ascii callID ->
  let s := sanitizeCallIDForFilename letter callID in s <> [] /\ (length s <= 120)%nat /\ x2f ∉ s /\ x2e ∉ s.
Proof.
  intros H1 H2 Ha. unfold sanitizeCallIDForFilename. rewrite (runes_ascii callID Ha).
  assert (F : Forall (fun b => b <> x2f /\ b <> x2e)
    (flat_map (fun r => if letter r || (r =? 45) || (r =? 95) then encode_rune r else [x5f]) (map b2z callID))).
  { induction Ha as [|b callID Hb Ha IH]; [constructor|]. cbn [map flat_map]. apply Forall_app. split; [|done].
    destruct (letter (b2z b) || (b2z b =? 45) || (b2z b =? 95)) eqn:E; [|by repeat constructor].
    rewrite encode_rune_ascii by done. constructor; [|constructor]. split; intros ->; [change (b2z x2f) with 47 in E; rewrite H1 in E|change (b2z x2e) with 46 in E; rewrite H2 in E]; done. }
  apply (Forall_Trim _ (beqb x5f)) in F. destruct (Trim _ _) as [|b s]; cbv zeta.
  - split_and!; [done|simpl; lia|..]; intros Hin; apply list_elem_of_In in Hin; simpl in Hin; intuition congruence.
  - split; [done|]. split; [rewrite length_take; lia|]. apply (Forall_take _ 120%nat) in F. rewrite Forall_forall in F.
    split; intros Hin; by apply F in Hin as [??].
Qed.
